(* ===== verification/_CoqProject ===== *)
-Q . S2P
Prelude.v
Tasks.v
Basics.v
IpText.v
Net.v
Upstream.v
GeoIp.v
Float64.v
FloatFacts.v
Registry.v
Breaker.v
Balancer.v
Permits.v
Router.v
Policy.v
ClientIp.v
ProxyProtocol.v
ProxyErrors.v
Concurrency.v
Supervisor.v
Quarantine.v
Headers.v
Cache.v
CacheStore.v
CacheRuns.v
CacheProps.v
Frames.v
Protobuf.v
Cookies.v
BodyStreams.v
Pool.v
PoolProps.v
RateShare.v
Schedule.v
ProxyList.v
DiscoveryServer.v
Discovery.v
Login.v
Accounts.v
SignIn.v
Origin.v
OAuth.v
ProxySession.v
Oidc.v
ProxyAuth.v
Containers.v
Compose.v
EnvFiles.v
Apps.v
Deploy.v
Pipelines.v
HeaderRules.v
Rewriter.v
EarlyData.v
Priorities.v
Compression.v
GrpcWeb.v
Responses.v
Answers.v
Handler.v
Dns.v
Udp.v
AccessLog.v
Certs.v
Acme.v
Backups.v
Tcp.v
Listeners.v
