(* ===== verification/Prelude.v ===== *)
(** * r3v3rs3: a verification development of the reverse proxy's core

    r3v3rs3 is a reverse proxy with an admin API and a deployment platform.  Its crate
    [r3v3rs3-api] holds the configuration types, with their parsers, printers and validators,
    which the server crate [r3v3rs3], the command line and the web UI share.  A request that the
    server accepts goes through the PROXY protocol reader of the listener, the resolver of the
    client address, the quarantine, the router, the access policies of its route, the cache, the
    rewrite or the redirects, and the load balancer, which gives it a permit on an upstream
    server; the pool sends it, with retries, and its result goes back to the circuit breaker of
    that server.  A configuration reload replaces the upstream groups while requests hold permits
    on the old ones.  The proxies come from administrators and from service discovery.  The
    master process keeps one worker process that serves the ports, signs administrators in, and
    runs the commands of the deployment platform.

    ** Files and the code they model

    Paths are under [src/]; [api] stands for [r3v3rs3-api/src], [proxy] for [r3v3rs3/src/proxy],
    and other paths for [r3v3rs3/src].  A definition has the name of the function or type it
    translates; a method [m] of a type [T] is [T_m] where the bare name is taken.

    - [Prelude]: results and options, machine integers, time, strings as lists of UTF-8 bytes
      with what the code uses of [str] (trimming and white space follow Unicode), stable sorting,
      counting.  [IpText] and [Float64] model what the code uses of the number, address and [f64]
      text and arithmetic of the standard library; [FloatFacts] has the bounds of rounded sums.
    - [Basics], [Net]: [api/error.rs], [api/id.rs], [api/multiaddr.rs].
    - [Upstream], [GeoIp], [Policy]: [api/upstream.rs], [api/geoip.rs], [api/policy.rs],
      [api/client_ip.rs].
    - [Registry]: [proxy/registry.rs], values by key that live as long as another owner.
    - [Breaker], [Balancer], [Permits]: the three layers of [proxy/health.rs].  [Breaker] has the
      state machine of one server, [Balancer] the group and the orders of its policies, [Permits]
      the store of groups and shared counters, the permits that requests hold and the reload.
    - [Router]: [api/subject_name.rs], [api/vhost.rs], [api/rewrite.rs], [api/redirect.rs],
      [proxy/http/filter.rs], [proxy/http/route.rs], [proxy/http/rewrite.rs],
      [proxy/http/redirect.rs], and the effective error pages.
    - [ClientIp]: [api/cdn.rs], [cdn/mod.rs], [proxy/http/client_ip.rs].
    - [ProxyProtocol]: [api/proxy_protocol.rs], [proxy/proxy_protocol.rs].
    - [ProxyErrors]: [proxy/http/error.rs].  [Concurrency]: [proxy/http/concurrency_limit.rs].
    - [Quarantine]: [api/quarantine.rs], [security/quarantine.rs] and the check after a request
      in [proxy/http/mod.rs].
    - [Supervisor]: [server/supervisor.rs].
    - [Headers], [Cache], [CacheStore], [CacheRuns], [CacheProps]: [proxy/http/cache.rs] and
      [proxy/http/cache_share.rs].  [Cache] has keys, directives and freshness, [CacheStore] the
      store, the recorder of a body and the tasks, [CacheRuns] their interleavings.
    - [Cookies], [BodyStreams], [Pool], [PoolProps]: [proxy/http/cookie.rs], [affinity.rs],
      [body_limit.rs], [mirror.rs], [pool.rs].  The pool calls the permits of [Permits].
    - [RateShare]: [proxy/http/rate_share.rs] and the shared part of [rate_limit.rs].
    - [Frames], [Protobuf]: [agent/frame.rs], [server/ipc.rs], [grpc/invoke.rs], [grpc/proto.rs].
    - [Schedule]: [platform/scheduler.rs], [platform/store/commands.rs] and the validators of
      schedules and deployment windows in [api/platform.rs].
    - [ProxyList], [DiscoveryServer], [Discovery]: [server/proxy_list.rs], [discovery/ids.rs],
      [server/discovery.rs], [discovery/{labels,tree,mod,kv}.rs].
    - [Login], [Accounts], [SignIn], [Origin]: [admin/auth.rs], [admin/ban.rs], [accounts.rs],
      [server/rpc/accounts.rs], [config/account.rs], [sessions.rs].  [SignIn] composes the limits
      of [Login] and the accounts of [Accounts] into the sign-in handler.
    - [OAuth]: the OAuth server of the MCP endpoint, [admin/oauth2.rs] and its types of [api/app.rs].
    - [ProxySession], [Oidc], [ProxyAuth]: [proxy/http/auth/], the authentication of the requests of
      a route.  [ProxySession] has the service of the sessions and its sign-ins, [Oidc] the sign-in at
      a provider, which keeps its sessions there, [ProxyAuth] passwords, tokens, the external service
      and the choice between them.
    - [Tasks]: tasks that hold keys next to each other, shared by [CacheRuns] and [Pipelines].
    - [Containers], [Compose], [EnvFiles], [Apps]: [api/container.rs], [api/git.rs],
      [api/compose_graph.rs], [api/compose_env.rs] and the specifications of [api/platform.rs].
    - [Deploy]: what one deployment of [platform/deploy.rs] computes and does to the containers,
      and the statements of [platform/store.rs] on its row.
    - [Pipelines]: deployments, approvals, cancellations, pushes, deletions and the shutdown next to
      each other: [platform/deploy.rs], [platform/hooks.rs], [platform/mod.rs].
    - [HeaderRules], [Rewriter]: [api/header_rules.rs], [proxy/http/header_rules.rs], [trace.rs],
      and the request half of [rewriter.rs].
    - [EarlyData], [Priorities], [Compression]: [api/early_data.rs], [api/priority.rs],
      [api/compression.rs] and [proxy/http/compression.rs].  [GrpcWeb]: [proxy/http/grpc_web.rs].
    - [Responses], [Answers]: the response half of [rewriter.rs], error pages and preferences, and
      the answers that need no upstream server ([fixed.rs], [bot.rs], maintenance, purges).
    - [Handler]: [proxy/http/mod.rs], a request from the router to the pool, composed of the guards
      and the rewriters of the other files.
    - [Dns], [Udp]: [proxy/dns.rs], [proxy/udp.rs].  The groups of [Udp] are those of [Permits].
    - [AccessLog]: [proxy/access_log.rs], [api/traffic.rs] and what [proxy/http/mod.rs] logs.
    - [Certs], [Acme]: [server/cert_list.rs], [certs/mod.rs], [proxy/tls.rs] and the renewals of
      [server/acme_schedule.rs] and [server/state.rs].
    - [Backups]: [platform/backup.rs].
    - [Tcp]: [proxy/tcp.rs], [proxy/tls.rs], [certs/alpn.rs], [proxy/connection_tracker.rs].
    - [Listeners]: [server/port_list.rs], [tcp.rs], [udp.rs], [quic.rs], [connection.rs],
      [rpc/ports.rs] and the handling of ports and challenges in [server/state.rs].

    ** How the code is represented

    Integers are in [Z], with the saturation and the wrap-around of their width written where the
    code can reach them.  An instant or a duration is a number of nanoseconds, and a clock that
    the code reads is an argument.  A text is the string of its UTF-8 bytes.  A method that
    changes its receiver returns the new state.  State behind [Arc], [Weak], [Mutex] and atomics
    is a store with addresses ([Permits.World], [Registry.Registry]), so that two groups share a
    counter exactly when the code gives them the same pointer.  One call that holds a lock is one
    step, and concurrency is the interleaving of such steps by the relations
    [Permits.world_step], [Breaker.breaker_step], [Concurrency.limiter_step],
    [Quarantine.tracker_step], [Supervisor.step], [CacheRuns.cache_step], [RateShare.window_step],
    [Schedule.sched_step], [ProxyList.list_step], [Accounts.account_step], [OAuth.oauth_step],
    [OAuth.server_step], [ProxySession.service_step],
    [ProxyAuth.basic_step], [Pipelines.pipeline_step], [Priorities.stream_step], [Udp.udp_step],
    [AccessLog.log_step], [Acme.acme_step], [Backups.backup_step], [Tcp.tcp_step],
    [Listeners.port_step] and by the events of
    [Login.login_step] and [SignIn.sign_in_step]; the invariants hold in all reachable states.

    Code of other crates is not defined here.  It is a class of operations, with a class of the
    laws where the theorems use some: [Net.Hex], [Router.RegexOps], [Policy.IpNets],
    [ClientIp.HeaderMaps], [Headers.HeaderOps], [ProxyProtocol.Ppp], [Cache.CacheCodecs],
    [CacheRuns.SharedHeaderLaws],
    [Frames.JsonCodec], [Cookies.HeaderBytes], [Cookies.Signer], [Pool.UrlOps], [Pool.BodyOps],
    [RateShare.Governor], [Schedule.Calendar], [DiscoveryServer.Sha256],
    [DiscoveryServer.Sealer], [Discovery.Base64], [Accounts.AuthCrypto], [Origin.UrlParser],
    [OAuth.OAuthOps], [ProxySession.FormCodec], [Oidc.OidcOps], [ProxyAuth.SecretOps],
    [Compose.Yaml], [Containers.UrlParser], [HeaderRules.HeaderNameLaws],
    [HeaderRules.HeaderTextLaws], [Rewriter.HeaderValueLaws], [Compression.DictionaryHash],
    [Compression.Encoders], [GrpcWeb.OriginOps], [Responses.PageOps], [Responses.BodyForms],
    [Handler.UriParts], [Handler.RouteServices], [Udp.DnsNames], [AccessLog.JsonText],
    [Certs.TlsOps], [Tcp.VerifierOps].  A
    plain instance of each satisfies the laws and lets the examples run.  [str::to_lowercase],
    [str::to_uppercase], the checks of server names and header values, the hash function, random
    numbers and tokens are arguments.

    ** What the theorems show

    - Load balancing: the connection counters equal the permits and guards that are open, through
      any interleaving of requests and reloads ([active_connections_exact]); at most one trial
      request per server ([at_most_one_trial]); a circuit opens exactly at its threshold
      ([breaker_opens_exactly]); the candidates of a request ([candidates_correct]); the weighted
      round robin is fair; a reload keeps or inherits state by address.
    - The pool is a run of the permits ([pool_refines_permits]); retries are bounded and repeat
      only what may be repeated ([retries_bounded_and_safe]); a request reaches the server whose
      permit it holds; cookies and body limits are exact.
    - The cache keeps and serves only what may be shared, an answer to a request with
      [Authorization] only when it allows it ([cache_serves_only_storable]), stores
      whole bodies ([recorder_complete]) and never loses a flight ([flights_exact]).
    - Routing: normalized paths are clean, the best route is chosen, rewrites keep the request
      below the configured prefix, redirect rules round trip.
    - Trust and policies: untrusted peers cannot choose their client address
      ([client_cannot_spoof]); the IP filter, client keys and e-mail lists decide as stated.
    - Texts and frames round trip: multiaddresses, identifiers, redirect lines, PROXY headers,
      frames, varints; decoding ends on every input ([protobuf_terminates]).
    - Limits: requests in flight are counted exactly ([concurrency_exact]); the shared rate limit
      is kept in a window while the requests of a client are counted in order, and is exceeded at
      most once for each that is not ([shared_window_never_exceeds_limit]); automatic bans are earned; one worker runs at a time; one
      execution of a command at a time ([scheduled_runs_separated]).
    - Discovery: every definition is accounted for, refreshes are stable, stale snapshots change
      nothing, identifiers are unique, and a port has one TCP proxy unless a reload brings a second
      one ([one_tcp_proxy_per_port]).
    - Sign-in: nobody gets a session without the factors of the account
      ([second_factor_required]), guesses are bounded, a code is used once, a change of an
      account ends its sessions for good, and the accounts stay well formed.
    - MCP clients: a token needs the approval of its account ([tokens_need_approval]), also over
      restarts and failed writes of its rows, and a reused refresh token ends its session until the
      server restarts ([rotated_token_reuse_revokes]).
    - Authentication of requests: a session needs a sign-in ([proxy_session_needs_sign_in]), an ID
      token is accepted exactly when it is right ([id_token_accepted_exactly]), the upstream server sees
      only the user who signed in, when the name is a header value ([oidc_request_has_user],
      [forward_auth_headers]), and cached
      passwords are the current ones ([basic_accepts_current_passwords]).
    - Deployments: one task works on an app ([one_task_of_an_app]), one deployment of it is running
      ([one_running_deployment]) and has its container unless a task has just taken it away
      ([running_deployment_has_container]), a status only moves forward while nothing is cancelled
      ([status_moves_forward]), a queued push is not lost
      ([queued_push_waits_for_a_task]), a free app can be deployed ([free_app_can_be_deployed]), and
      the containers are replaced blue and green ([blue_green_start]).
    - Specifications: accepted exactly when they keep the rules ([spec_validate_exact]); tag patterns
      decide their language for tags without a star ([tag_pattern_exact]); the graph of a Compose file is sound
      ([topology_sound]); resolved templates with plain values read
      back ([resolved_template_reads_back]).
    - A request: it reaches the upstream servers only past every guard of its route
      ([upstream_needs_every_guard]), which see the client of the resolver and send the forwarded
      headers of the connection ([upstream_sees_connection]); header rules round trip
      ([header_rules_roundtrip]); replayed early data is refused ([replays_refused_exactly]); the
      coding of a response is agreed ([coding_agreed]); a browser gets the trailers of a gRPC-Web
      call ([trailers_reach_browser]).
    - UDP: a client has one session, whose packets go to one server and which the counters see
      ([udp_sessions_exact]).  The entries of the access log show every header and
      hold no secrets ([secrets_redacted]).
    - Certificates: the one that a handshake gets ([served_certificate_exact]), and one order at a
      time for a target ([one_order_per_target]).
    - Backups: a listed backup has its dump, with its steps, deletions and verifications between each
      other ([listed_backups_have_dumps]), the newest ones are kept
      ([retention_keeps_newest]), a failing database is tried three times
      ([scheduled_tries_bounded]), and options that a shell would read are refused
      ([rsync_options_exact]).
    - TCP and listeners: the permits of the connections follow the steps of the groups and the list
      of open connections is exact ([tcp_connections_exact]); a port whose TLS cannot be set up
      serves nobody ([tls_fails_closed]); a listener belongs to its port or its challenge ([listeners_fit_ports]),
      survives the changes of the others ([sockets_survive_changes]), and the ports are those of
      the storage ([ports_saved_then_applied]).
    - Behaviour that looks unintended is stated as it is, for example: a reload during a trial
      request blocks the server ([reload_during_trial_blocks_forever]), configuration changes do
      not reach the worker ([config_changes_are_lost]), a read token takes over its account
      ([read_token_takes_over]), abandoned sign-ins lock an account out
      ([cancelled_logins_lock_out]), a stale tick runs a command twice ([stale_tick_runs_twice]), a
      cancellation frees a lock in use ([cancel_frees_a_lock_in_use]), a backup without its dump
      destroys the later ones ([phantom_loses_later_backups]), a cancelled replacement leaves the app
      down ([interrupted_replacement_stops_the_app]), a late reader of the clock exceeds the rate limit
      ([late_reader_exceeds_limit]).

    ** Fuel

    Functions are structural or recurse on a fuel that their callers take from the input:
    [Net.parse_protocols] runs with more units than the text has bytes and each step consumes at
    least one byte ([Net.parse_protocols_fuel]); [IpText.dec] runs [radix_aux] for 20 decimal
    digits, enough for 64 bits, and [IpText.hex16] for the 4 hexadecimal digits of a group
    ([IpText.parse_radix_aux]); a varint has at most ten bytes ([Protobuf.write_varint]), a
    message at most as many fields as bytes ([protobuf_terminates]) and 32 levels as in the code;
    the retries of the pool run for the attempts of the policy; [DiscoveryServer.discovered_id]
    ends when a salt within its fuel gives a free identifier ([discovered_id_ends]).
    [Apps.tag_fuel] is above a measure that each turn of the tag loop lowers ([tag_pattern_exact]).
    The looks of [Deploy.wait_healthy] are a list: the loop of the code ends at the deadline.

    ** What is not modelled

    Sockets, TLS records, processes and files; [Router::new], which builds routes
    from the configuration; the active probe tasks and the status snapshots of [proxy/health.rs];
    the disk files of the shared cache; the watchers of Docker and etcd; the cluster's session
    store and the SQLite storage, apart from the rows of the MCP tokens and the command [add-user]; the parsing of X.509 and the messages of the ACME protocol;
    agents and their tasks; Docker, builds and repositories, which are services outside; the
    commands of a backup in its container, its uploads and the analysis of its content; Compose
    deployments; the signatures and payloads of webhooks; projects; the command line and the web
    UI. *)

From stdpp Require Export base numbers list strings gmap sorting relations sets.
From Stdlib Require Export ZArith Lia.
From Stdlib Require Import Ascii.
From Stdlib Require String.

Global Open Scope Z_scope.

(** ** Notations of the development *)

Declare Scope rust_scope.
Delimit Scope rust_scope with rust.

(** ** Results

    Rust's [Result<T, E>], with the [?] operator as a sequencing notation. *)

Inductive result (A E : Type) : Type :=
| Ok (a : A)
| Err (e : E).

Arguments Ok {A E} _.
Arguments Err {A E} _.

Definition and_then {A B E} (r : result A E) (k : A -> result B E) : result B E :=
  match r with
  | Ok a => k a
  | Err e => Err e
  end.

Definition is_ok {A E} (r : result A E) : bool :=
  match r with Ok _ => true | Err _ => false end.

Definition ok {A E} (r : result A E) : option A :=
  match r with Ok a => Some a | Err _ => None end.

Notation "'let?' x := r 'in' k" := (and_then r (fun x => k))
  (at level 10, x name, r at level 100, k at level 200) : rust_scope.
Global Open Scope rust_scope.

(** ** Machine integers

    A w-bit unsigned value is a [Z] in [0, 2^w); the operations that the source
    uses on it saturate or wrap explicitly. *)

Definition u8_max : Z := 255.
Definition u16_max : Z := 65535.
Definition u32_max : Z := 4294967295.
Definition u64_max : Z := 18446744073709551615.
Definition i64_min : Z := -9223372036854775808.
Definition i64_max : Z := 9223372036854775807.

Definition wrap64 (x : Z) : Z := x mod 18446744073709551616.
Definition sat_add (max a b : Z) : Z := Z.min (a + b) max.
Definition sat_sub (a b : Z) : Z := Z.max (a - b) 0.

(** ** Time

    [Instant] and [Duration] count nanoseconds.  [Instant::duration_since]
    saturates at zero when the argument is later. *)

Definition Instant := Z.
Definition Duration := Z.
Definition from_secs (s : Z) : Duration := s * 1000000000.
Definition from_millis (s : Z) : Duration := s * 1000000.
Definition as_micros (d : Duration) : Z := d / 1000.
Definition duration_since (now start : Instant) : Duration := Z.max (now - start) 0.
Definition is_zero (d : Duration) : bool := Z.eqb d 0.

(** ** Options *)

Definition is_none_or {A} (p : A -> bool) (o : option A) : bool :=
  match o with None => true | Some a => p a end.
Definition is_some_and {A} (p : A -> bool) (o : option A) : bool :=
  match o with None => false | Some a => p a end.
Definition is_some {A} (o : option A) : bool :=
  match o with None => false | Some _ => true end.
Definition is_none {A} (o : option A) : bool := negb (is_some o).
Definition unwrap_or {A} (o : option A) (d : A) : A :=
  match o with None => d | Some a => a end.
Definition map_or {A B} (o : option A) (d : B) (f : A -> B) : B :=
  match o with None => d | Some a => f a end.

(** ** Strings

    A Rust [&str] is its sequence of UTF-8 bytes; the code below only inspects
    ASCII characters. *)

#[global] Arguments String.append !_ _ / : simpl nomatch.

Definition str_is_empty (s : string) : bool :=
  match s with EmptyString => true | _ => false end.

Fixpoint str_forallb (p : ascii -> bool) (s : string) : bool :=
  match s with
  | EmptyString => true
  | String c r => p c && str_forallb p r
  end.

Fixpoint str_existsb (p : ascii -> bool) (s : string) : bool :=
  match s with
  | EmptyString => false
  | String c r => p c || str_existsb p r
  end.

Fixpoint starts_with (p s : string) : bool :=
  match p, s with
  | EmptyString, _ => true
  | String a p', String b s' => Ascii.eqb a b && starts_with p' s'
  | _, _ => false
  end.

Fixpoint strip_prefix (p s : string) : option string :=
  match p, s with
  | EmptyString, _ => Some s
  | String a p', String b s' => if Ascii.eqb a b then strip_prefix p' s' else None
  | _, _ => None
  end.

Definition byte_of (c : ascii) : Z := Z.of_N (N_of_ascii c).

Definition ascii_lower (c : ascii) : ascii :=
  let n := N_of_ascii c in
  if ((65 <=? n) && (n <=? 90))%N then ascii_of_N (n + 32) else c.

Fixpoint to_ascii_lowercase (s : string) : string :=
  match s with
  | EmptyString => EmptyString
  | String c r => String (ascii_lower c) (to_ascii_lowercase r)
  end.

Definition eq_ignore_ascii_case (a b : string) : bool :=
  String.eqb (to_ascii_lowercase a) (to_ascii_lowercase b).

(** [str::trim_start_matches] with a character predicate. *)
Fixpoint trim_start_matches (p : ascii -> bool) (s : string) : string :=
  match s with
  | EmptyString => EmptyString
  | String c r => if p c then trim_start_matches p r else s
  end.

(** [str::split] on a character predicate. *)
Fixpoint split_by (p : ascii -> bool) (s : string) : list string :=
  match s with
  | EmptyString => [EmptyString]
  | String a r =>
      if p a then EmptyString :: split_by p r
      else match split_by p r with
           | piece :: rest => String a piece :: rest
           | [] => [String a EmptyString]
           end
  end.

(** [str::split] on one character: always at least one piece. *)
Definition split_on (c : ascii) (s : string) : list string := split_by (fun a => Ascii.eqb a c) s.

Definition ascii_upper (c : ascii) : ascii :=
  let n := N_of_ascii c in
  if ((97 <=? n) && (n <=? 122))%N then ascii_of_N (n - 32) else c.

Fixpoint to_ascii_uppercase (s : string) : string :=
  match s with
  | EmptyString => EmptyString
  | String c r => String (ascii_upper c) (to_ascii_uppercase r)
  end.

(** [char::is_whitespace], on the one, two or three UTF-8 bytes of the character: the
    Unicode property [White_Space]. *)
Definition is_ws1 (a : ascii) : bool :=
  let n := N_of_ascii a in (((9 <=? n) && (n <=? 13)) || (n =? 32))%N.
Definition is_ws2 (a b : ascii) : bool :=
  let n := N_of_ascii b in ((N_of_ascii a =? 194) && ((n =? 133) || (n =? 160)))%N.
Definition is_ws3 (a b c : ascii) : bool :=
  let x := N_of_ascii a in let y := N_of_ascii b in let n := N_of_ascii c in
  (((x =? 225) && (y =? 154) && (n =? 128))
   || ((x =? 226) && (y =? 128) && (((128 <=? n) && (n <=? 138)) || (n =? 168) || (n =? 169) || (n =? 175)))
   || ((x =? 226) && (y =? 129) && (n =? 159))
   || ((x =? 227) && (y =? 128) && (n =? 128)))%N.

Fixpoint trim_start (s : string) : string :=
  match s with
  | EmptyString => EmptyString
  | String a r =>
      if is_ws1 a then trim_start r
      else match r with
           | EmptyString => s
           | String b r2 =>
               if is_ws2 a b then trim_start r2
               else match r2 with
                    | EmptyString => s
                    | String c r3 => if is_ws3 a b c then trim_start r3 else s
                    end
           end
  end.

Fixpoint trim_end (s : string) : string :=
  if str_is_empty (trim_start s) then EmptyString
  else match s with
       | EmptyString => EmptyString
       | String c r => String c (trim_end r)
       end.

Definition trim (s : string) : string := trim_end (trim_start s).

(** [str::split] on whitespace and on the characters of a predicate. *)
Fixpoint split_ws_or (p : ascii -> bool) (s : string) : list string :=
  let push a pieces :=
    match pieces with
    | piece :: rest => String a piece :: rest
    | [] => [String a EmptyString]
    end in
  match s with
  | EmptyString => [EmptyString]
  | String a r =>
      if p a || is_ws1 a then EmptyString :: split_ws_or p r
      else match r with
           | EmptyString => [s]
           | String b r2 =>
               if is_ws2 a b then EmptyString :: split_ws_or p r2
               else match r2 with
                    | EmptyString => push a (split_ws_or p r)
                    | String c r3 =>
                        if is_ws3 a b c then EmptyString :: split_ws_or p r3
                        else push a (split_ws_or p r)
                    end
           end
  end.

Definition split_whitespace (s : string) : list string :=
  List.filter (fun piece => negb (str_is_empty piece)) (split_ws_or (fun _ => false) s).

(** [s.chars().any(char::is_control)] on the UTF-8 bytes: the C0 controls, DEL, and the C1
    controls, which are C2 80 to C2 9F. *)
Fixpoint has_control (s : string) : bool :=
  match s with
  | EmptyString => false
  | String a r =>
      (byte_of a <? 32) || (byte_of a =? 127)
      || (match r with
          | String b _ => (byte_of a =? 194) && (128 <=? byte_of b) && (byte_of b <=? 159)
          | EmptyString => false
          end)
      || has_control r
  end.

Definition is_ascii_graphic (c : ascii) : bool :=
  let n := byte_of c in (33 <=? n) && (n <=? 126).
Definition is_ascii_digit (c : ascii) : bool :=
  let n := byte_of c in (48 <=? n) && (n <=? 57).
Definition is_ascii_alphabetic (c : ascii) : bool :=
  let n := byte_of c in ((65 <=? n) && (n <=? 90)) || ((97 <=? n) && (n <=? 122)).
Definition is_ascii_alphanumeric (c : ascii) : bool :=
  is_ascii_digit c || is_ascii_alphabetic c.

Definition str_contains_char (s : string) (c : ascii) : bool :=
  str_existsb (Ascii.eqb c) s.

(** ** Vectors

    Counting and updating by index.  [vec_set] is the update of an existing slot,
    and leaves the vector alone out of range, where the source reads the slot with
    [get] or [get_mut] first. *)

Definition vec_update {A} (f : A -> A) (i : nat) (l : list A) : list A := alter f i l.

Fixpoint sumZ {A} (f : A -> Z) (l : list A) : Z :=
  match l with
  | [] => 0
  | a :: r => f a + sumZ f r
  end.

Fixpoint count {A} (p : A -> bool) (l : list A) : Z :=
  match l with
  | [] => 0
  | a :: r => (if p a then 1 else 0) + count p r
  end.

(** A comparison as the boolean order of a sort. *)
Definition not_gt (c : comparison) : bool := match c with Gt => false | _ => true end.

(** ** Stable sorting

    [slice::sort_by] is stable: an insertion sort by a boolean order that puts an
    element before the first strictly greater one. *)

Section Sorting.
Context {A : Type} (leb : A -> A -> bool).

Fixpoint insert_by (x : A) (l : list A) : list A :=
  match l with
  | [] => [x]
  | y :: r => if leb x y then x :: y :: r else y :: insert_by x r
  end.

Fixpoint sort_by (l : list A) : list A :=
  match l with
  | [] => []
  | x :: r => insert_by x (sort_by r)
  end.
End Sorting.

(** ** Tactics and hint databases *)

Create HintDb rust discriminated.

(** Splits boolean conjunctions and turns boolean comparisons of [Z] into propositions. *)
Ltac zbool :=
  repeat match goal with
  | H : andb _ _ = true |- _ => apply andb_prop in H; destruct H
  | H : orb _ _ = false |- _ => apply orb_false_elim in H; destruct H
  | H : negb _ = true |- _ => apply negb_true_iff in H
  | H : negb _ = false |- _ => apply negb_false_iff in H
  | H : Z.ltb _ _ = true |- _ => apply Z.ltb_lt in H
  | H : Z.ltb _ _ = false |- _ => apply Z.ltb_ge in H
  | H : Z.leb _ _ = true |- _ => apply Z.leb_le in H
  | H : Z.leb _ _ = false |- _ => apply Z.leb_gt in H
  | H : Z.eqb _ _ = true |- _ => apply Z.eqb_eq in H
  | H : Z.eqb _ _ = false |- _ => apply Z.eqb_neq in H
  end.

(** The same for comparisons of [nat]. *)
Ltac nbool :=
  repeat match goal with
  | H : Nat.ltb _ _ = true |- _ => apply Nat.ltb_lt in H
  | H : Nat.ltb _ _ = false |- _ => apply Nat.ltb_ge in H
  | H : Nat.leb _ _ = true |- _ => apply Nat.leb_le in H
  | H : Nat.leb _ _ = false |- _ => apply Nat.leb_gt in H
  | H : Nat.eqb _ _ = true |- _ => apply Nat.eqb_eq in H
  | H : Nat.eqb _ _ = false |- _ => apply Nat.eqb_neq in H
  end.

(** Case analysis on the condition of an [if] or the scrutinee of a [match]. *)
Ltac dcase :=
  match goal with
  | |- context [if ?b then _ else _] => destruct b eqn:?
  | |- context [match ?o with _ => _ end] => destruct o eqn:?
  end.

Ltac dcase_in H :=
  match type of H with
  | context [if ?b then _ else _] => destruct b eqn:?
  | context [match ?o with _ => _ end] => destruct o eqn:?
  end.

(** ** Lemmas on sums and counts *)

Section Sums.
Context {A : Type}.
Implicit Types (f g : A -> Z) (l : list A).

Lemma sumZ_app f l1 l2 : sumZ f (l1 ++ l2) = sumZ f l1 + sumZ f l2.
Proof. induction l1 as [|a l1 IH]; cbn; [lia|]. lia. Qed.

Lemma sumZ_ext f g l : (forall a, a ∈ l -> f a = g a) -> sumZ f l = sumZ g l.
Proof.
  induction l as [|a l IH]; intros H; cbn; [done|].
  rewrite (H a) by set_solver. f_equal. apply IH. set_solver.
Qed.

Lemma sumZ_add f g l : sumZ (fun a => f a + g a) l = sumZ f l + sumZ g l.
Proof. induction l; cbn; lia. Qed.

Lemma sumZ_scale k f l : sumZ (fun a => k * f a) l = k * sumZ f l.
Proof. induction l; cbn; lia. Qed.

Lemma sumZ_const c l : sumZ (fun _ => c) l = c * Z.of_nat (length l).
Proof. induction l; cbn; lia. Qed.

Lemma sumZ_nonneg f l : (forall a, a ∈ l -> 0 <= f a) -> 0 <= sumZ f l.
Proof.
  induction l as [|a l IH]; cbn; intros H; [lia|].
  pose proof (H a ltac:(set_solver)). specialize (IH ltac:(set_solver)). lia.
Qed.

Lemma sumZ_le f g l : (forall a, a ∈ l -> f a <= g a) -> sumZ f l <= sumZ g l.
Proof.
  induction l as [|a l IH]; cbn; intros H; [lia|].
  pose proof (H a ltac:(set_solver)). specialize (IH ltac:(set_solver)). lia.
Qed.

(** A pointwise bound with equal sums is an equality. *)
Lemma sumZ_squeeze f g l :
  (forall a, a ∈ l -> f a <= g a) -> sumZ f l = sumZ g l ->
  forall a, a ∈ l -> f a = g a.
Proof.
  induction l as [|b l IH]; intros Hle Heq a Ha; [set_solver|]. cbn in Heq.
  pose proof (Hle b (list_elem_of_here b l)).
  assert (Htl : sumZ f l <= sumZ g l) by (apply sumZ_le; intros; apply Hle; by right).
  apply elem_of_cons in Ha as [->|Ha]; [lia|].
  apply IH; [intros; apply Hle; by right|lia|done].
Qed.

(** A sum over a duplicate-free list changes by the change of its one element. *)
Lemma sumZ_indicator `{EqDecision A} (x : A) (c : Z) l :
  NoDup l -> x ∈ l -> sumZ (fun a => if decide (a = x) then c else 0) l = c.
Proof.
  induction 1 as [|y l Hy Hl IH]; intros Hx; [set_solver|]. cbn.
  apply elem_of_cons in Hx as [->|Hx].
  - rewrite decide_True by done.
    assert (H0 : sumZ (fun a => if decide (a = y) then c else 0) l = 0).
    { rewrite (sumZ_ext _ (fun _ => 0)); [rewrite sumZ_const; lia|].
      intros a Ha. rewrite decide_False; [done|]. set_solver. }
    lia.
  - rewrite decide_False by set_solver. specialize (IH Hx). lia.
Qed.

Lemma count_app p l1 l2 : @count A p (l1 ++ l2) = count p l1 + count p l2.
Proof. induction l1 as [|a l1 IH]; cbn; lia. Qed.

Lemma count_nonneg p l : 0 <= @count A p l.
Proof. induction l; cbn; [lia|]. destruct (p a); lia. Qed.

Lemma count_perm p l1 l2 : l1 ≡ₚ l2 -> @count A p l1 = count p l2.
Proof. induction 1; cbn; lia. Qed.

Lemma count_le_length p l : @count A p l <= Z.of_nat (length l).
Proof. induction l as [|a l IH]; cbn; [lia|]. destruct (p a); lia. Qed.
End Sums.

(** ** Lemmas on stable sorting *)

Section SortingFacts.
Context {A : Type} (leb : A -> A -> bool).

Lemma insert_by_perm x l : insert_by leb x l ≡ₚ x :: l.
Proof.
  induction l as [|y l IH]; cbn; [done|]. destruct (leb x y); [done|].
  rewrite IH. constructor.
Qed.

Lemma sort_by_perm l : sort_by leb l ≡ₚ l.
Proof. induction l as [|x l IH]; cbn; [done|]. by rewrite insert_by_perm, IH. Qed.

Lemma sort_by_length l : length (sort_by leb l) = length l.
Proof. by rewrite sort_by_perm. Qed.

Lemma sort_by_elem_of x l : x ∈ sort_by leb l <-> x ∈ l.
Proof. by rewrite sort_by_perm. Qed.

Context (leb_total : forall x y, leb x y = true \/ leb y x = true).
Context (leb_trans : forall x y z, leb x y = true -> leb y z = true -> leb x z = true).

Definition sorted_by (l : list A) : Prop := StronglySorted (fun x y => leb x y = true) l.

Lemma insert_by_sorted x l : sorted_by l -> sorted_by (insert_by leb x l).
Proof.
  induction 1 as [|y l Hs IH Hy]; cbn; [repeat constructor|].
  destruct (leb x y) eqn:E.
  - constructor; [by constructor|]. constructor; [done|].
    eapply Forall_impl; [exact Hy|]. cbn. eauto.
  - constructor; [done|]. rewrite insert_by_perm. constructor; [|done].
    destruct (leb_total x y); congruence.
Qed.

Lemma sort_by_sorted l : sorted_by (sort_by leb l).
Proof. induction l; cbn; [constructor|]. by apply insert_by_sorted. Qed.

Lemma insert_by_head x l : Forall (fun y => leb x y = true) l -> insert_by leb x l = x :: l.
Proof. destruct 1 as [|y l Hy]; cbn; [done|]. by rewrite Hy. Qed.

Lemma Forall_filter_bool (p : A -> bool) (P : A -> Prop) l :
  Forall P l -> Forall P (List.filter p l).
Proof. induction 1; cbn; [constructor|]. destruct (p x); [by constructor|done]. Qed.

Lemma filter_insert_by (p : A -> bool) x l :
  sorted_by l ->
  List.filter p (insert_by leb x l)
  = if p x then insert_by leb x (List.filter p l) else List.filter p l.
Proof.
  induction 1 as [|y l Hs IH Hy]; cbn; [by destruct (p x)|].
  destruct (leb x y) eqn:E; cbn.
  - destruct (p x) eqn:Px; [|done]. rewrite insert_by_head; [done|].
    apply (Forall_filter_bool p _ (y :: l)). constructor; [done|].
    eapply Forall_impl; [exact Hy|]. cbn. eauto.
  - rewrite IH. destruct (p y) eqn:Py, (p x); cbn; rewrite ?E; done.
Qed.

(** Removing elements before or after a stable sort is the same. *)
Lemma filter_sort_by (p : A -> bool) l :
  List.filter p (sort_by leb l) = sort_by leb (List.filter p l).
Proof.
  induction l as [|x l IH]; cbn; [done|].
  rewrite filter_insert_by by apply sort_by_sorted. rewrite IH. by destruct (p x).
Qed.

(** Two sorted permutations of each other agree when ties are equal. *)
Lemma sorted_by_unique l1 l2 :
  (forall x y, leb x y = true -> leb y x = true -> x = y) ->
  sorted_by l1 -> sorted_by l2 -> l1 ≡ₚ l2 -> l1 = l2.
Proof.
  intros Hanti H1. revert l2. induction H1 as [|x l1 Hs IH Hx]; intros l2 H2 Hp.
  - by apply Permutation_nil in Hp.
  - destruct H2 as [|y l2 Hs2 Hy]; [symmetry in Hp; by apply Permutation_nil in Hp|].
    assert (Hxy : x = y).
    { assert (Hxin : x ∈ y :: l2) by (rewrite <-Hp; set_solver).
      assert (Hyin : y ∈ x :: l1) by (rewrite Hp; set_solver).
      rewrite Forall_forall in Hx, Hy.
      apply elem_of_cons in Hxin as [->|Hxin]; [done|].
      apply elem_of_cons in Hyin as [->|Hyin]; [done|]. auto. }
    subst y. f_equal. apply IH; [done|]. by apply Permutation_cons_inv in Hp.
Qed.
End SortingFacts.

(** ** Lemmas on comparisons of texts *)

Lemma ascii_compare_trans a b c : not_gt (Ascii.compare a b) = true -> not_gt (Ascii.compare b c) = true ->
  not_gt (Ascii.compare a c) = true /\ (Ascii.compare a c = Eq -> Ascii.compare a b = Eq /\ Ascii.compare b c = Eq).
Proof.
  unfold Ascii.compare. intros H1 H2.
  destruct (N.compare_spec (N_of_ascii a) (N_of_ascii b)), (N.compare_spec (N_of_ascii b) (N_of_ascii c)),
    (N.compare_spec (N_of_ascii a) (N_of_ascii c)); try done; try (exfalso; lia).
Qed.

Lemma string_compare_trans a b c : not_gt (String.compare a b) = true -> not_gt (String.compare b c) = true ->
  not_gt (String.compare a c) = true /\ (String.compare a c = Eq -> String.compare a b = Eq /\ String.compare b c = Eq).
Proof.
  revert b c. induction a as [|x a IH]; intros [|y b] [|z c]; cbn; try done.
  intros H1 H2. destruct (ascii_compare_trans x y z) as [H3 H4].
  { by destruct (Ascii.compare x y). } { by destruct (Ascii.compare y z). }
  destruct (Ascii.compare x z) eqn:E.
  - destruct (H4 eq_refl) as [E1 E2]. rewrite E1 in *. rewrite E2 in *. by apply IH.
  - done.
  - done.
Qed.

Lemma string_compare_total a b : not_gt (String.compare a b) = true \/ not_gt (String.compare b a) = true.
Proof. rewrite (String.compare_antisym a b). destruct (String.compare b a); cbn; auto. Qed.

#[export] Hint Resolve count_nonneg sort_by_perm : rust.

Lemma StronglySorted_mono {A} (R S : A -> A -> Prop) l :
  (forall x y, R x y -> S x y) -> StronglySorted R l -> StronglySorted S l.
Proof.
  intros HRS. induction 1 as [|x l Hs IH Hx]; constructor; [done|].
  eapply Forall_impl; [exact Hx|]. auto.
Qed.
