(* ===== verification/Tasks.v ===== *)
(** * Tasks that hold keys

    Several components are machines of tasks next to each other where a task may hold a key (a
    flight of the cache, the lock of an app) and a set of the state records the keys that are
    held.  Here is what the components share: the keys of a list of tasks, and the invariant that
    the set is exactly what the tasks hold, each key by one task. *)

From stdpp Require Import gmap sets.
From S2P Require Import Prelude.

Section Held.
Context {T K : Type} `{EqDecision K} `{!Countable K}.

Definition oset (o : option K) : gset K := match o with Some k => {[k]} | None => ∅ end.

Definition held (f : T -> option K) (ts : list T) : gset K := list_to_set (omap f ts).

(** The set [s] is exactly what the tasks hold, each key by one task. *)
Definition exact (f : T -> option K) (s : gset K) (ts : list T) : Prop :=
  NoDup (omap f ts) /\ s = held f ts.

Lemma held_cons f t ts : held f (t :: ts) = oset (f t) ∪ held f ts.
Proof. unfold held. cbn. destruct (f t); cbn; [done|]. set_solver. Qed.

Lemma held_app f ts ts' : held f (ts ++ ts') = held f ts ∪ held f ts'.
Proof. unfold held. by rewrite omap_app, list_to_set_app_L. Qed.

Lemma exact_perm f s ts ts' : ts ≡ₚ ts' -> exact f s ts -> exact f s ts'.
Proof.
  intros Hp [H1 H2]. assert (Ho : omap f ts ≡ₚ omap f ts') by (by rewrite Hp). split; [by rewrite <-Ho|].
  rewrite H2. unfold held. by apply list_to_set_perm_L.
Qed.

Lemma exact_disjoint f s t ts : exact f s (t :: ts) -> oset (f t) ## held f ts /\ exact f (s ∖ oset (f t)) ts.
Proof.
  intros [H1 H2]. cbn in H1. unfold exact. rewrite H2, held_cons. unfold held.
  destruct (f t) as [k|]; cbn [oset]; [|split; [set_solver|split; [done|set_solver]]].
  apply NoDup_cons in H1 as [Hk H1]. split; [set_solver|]. split; [done|]. set_solver.
Qed.

(** A task without a key may come and go. *)
Lemma exact_add_none f s t ts : f t = None -> exact f s ts <-> exact f s (t :: ts).
Proof. intros Ht. unfold exact, held. cbn. by rewrite Ht. Qed.

Lemma exact_add f s t k ts : f t = Some k -> k ∉ s -> exact f s ts -> exact f ({[k]} ∪ s) (t :: ts).
Proof.
  intros Ht Hk [H1 H2]. unfold exact. rewrite held_cons, Ht. cbn. rewrite Ht. split.
  - apply NoDup_cons. split; [|done]. rewrite H2 in Hk. unfold held in Hk. set_solver.
  - cbn [oset]. by rewrite H2.
Qed.

(** A task is replaced by one with the same key. *)
Lemma exact_same f s t t' ts : f t' = f t -> exact f s (t :: ts) -> exact f s (t' :: ts).
Proof. intros E. unfold exact, held. cbn. by rewrite E. Qed.

(** A task gives its key back. *)
Lemma exact_release f s t ts : exact f s (t :: ts) -> exact f (s ∖ oset (f t)) ts.
Proof. intros H. by apply exact_disjoint in H as [_ H]. Qed.

(** A task is replaced by one that has kept its key or given it back. *)
Lemma exact_poll f s s' t t' ts :
  exact f s (t :: ts) -> (f t' = f t /\ s' = s) \/ (f t' = None /\ s' = s ∖ oset (f t)) -> exact f s' (t' :: ts).
Proof.
  intros H [[E ->]|[E ->]]; [by apply (exact_same f s t)|]. apply exact_add_none; [done|]. by apply exact_release.
Qed.

Lemma exact_held f s t k ts : exact f s (t :: ts) -> f t = Some k -> k ∈ s.
Proof. intros [_ ->] E. rewrite held_cons, E. set_solver. Qed.

Lemma exact_member f s ts k : exact f s ts -> k ∈ s -> exists t, t ∈ ts /\ f t = Some k.
Proof.
  intros [_ ->] Hk. unfold held in Hk. apply elem_of_list_to_set in Hk. by apply list_elem_of_omap in Hk.
Qed.

(** Two tasks at different places never hold the same key. *)
Lemma exact_unique f s t t' ts k : exact f s (t :: t' :: ts) -> f t = Some k -> f t' <> Some k.
Proof.
  intros [H1 _] E E'. cbn in H1. rewrite E, E' in H1. apply NoDup_cons in H1 as [Hn _]. apply Hn. left.
Qed.
End Held.
