(* ===== verification/Basics.v ===== *)
(** * Basic data of the API crate

    The identifiers, network addresses and the error type that every component of
    [r3v3rs3-api] shares: [id.rs] ([ShortId]), [multiaddr.rs] ([Protocol],
    [Multiaddr]) and [error.rs] ([Error] and its HTTP status). *)

From S2P Require Import Prelude.

(** An IP address by its 32 or 128 bits. *)
Inductive IpAddr : Type :=
| V4 (bits : Z)
| V6 (bits : Z).

#[export] Instance IpAddr_eq_dec : EqDecision IpAddr.
Proof. solve_decision. Defined.

#[export] Instance IpAddr_countable : Countable IpAddr.
Proof.
  refine (inj_countable' (fun a => match a with V4 b => inl b | V6 b => inr b end)
            (fun s => match s with inl b => V4 b | inr b => V6 b end) _).
  by intros [].
Defined.

(** Eight bytes; a zero first byte marks the hexadecimal form. *)
Definition ShortId := list Z.

Inductive Protocol : Type :=
| Dns (host : string)
| Ip (addr : IpAddr)
| Tcp (port : Z)
| Udp (port : Z)
| Tls
| Http (path : string)
| Quic.

#[export] Instance Protocol_eq_dec : EqDecision Protocol.
Proof. solve_decision. Defined.

Record Multiaddr : Type := mkMultiaddr { protocols : list Protocol }.

#[export] Instance Multiaddr_eq_dec : EqDecision Multiaddr.
Proof. solve_decision. Defined.

(** ** The API error *)

Inductive Error : Type :=
| InvalidListeningAddress (addr : Multiaddr)
| InvalidServerAddress (addr : Multiaddr)
| InvalidSubjectName (name : string)
| InvalidVirtualHost (host : string)
| InvalidServerUrl (url : string)
| InvalidCidr (cidr : string)
| FailedToRefreshCdnRanges
| FailedToRefreshAppStore
| FailedToRefreshEngines
| NoNewRelease
| UpgradeFailed
| FailedToBuildDnsResolver (reason : string)
| InvalidMultiaddr (addr : string)
| TlsTerminationConfigMissing
| ProxyProtocolNotSupported
| ProxyProtocolTrustedMissing
| CertificateInUse (id : ShortId)
| TooManyCertificates (max : Z)
| InvalidClientCaCert (id : ShortId)
| ClientCaCertsMissing
| InvalidClientCert (id : ShortId)
| FailedToGenerateSelfSignedCertificate
| FailedToReadCertificate
| FailedToReadPrivateKey
| InvalidShortId (id : string)
| IdNotFound (id : string)
| IdAlreadyExists (id : ShortId)
| ProxyReadOnly (id : ShortId)
| NotHttpProxy (id : ShortId)
| CertificateReadOnly (id : ShortId)
| InvalidDiscoveryConfig (reason : string)
| InvalidContainerSpec (reason : string)
| InvalidOidcConfig (reason : string)
| PlatformDisabled
| PlatformFailed
| AppNameExists (name : string)
| AppBusy (name : string)
| RollbackUnavailable (id : ShortId)
| TerminalUnsupported
| AppNotRunning (name : string)
| ServiceNotFound (service : string)
| InvalidFilePath (path : string)
| VolumeReadOnly (path : string)
| HostPortUnavailable (port : Z)
| DatabaseInUse (name : string)
| BackupFailed (reason : string)
| RestoreFailed (reason : string)
| PitrTargetOutOfRange (reason : string)
| BackupNotFound (id : string)
| S3NotConfigured
| S3OperationFailed (reason : string)
| InvalidEnrollmentToken
| AgentPortMissing
| TargetNameExists (name : string)
| TargetInUse (id : ShortId)
| TargetReadOnly (id : ShortId)
| AgentOffline (id : ShortId)
| AppTargetFixed (name : string)
| InvalidWebhookPayload (reason : string)
| InvalidGitConnection (reason : string)
| GitConnectionNameExists (name : string)
| InvalidPublicUrl (url : string)
| OauthStateInvalid
| GitConnectionNotConnected (id : ShortId)
| GithubAppNotInstalled
| GitProviderFailed (reason : string)
| GitConnectionInUse (name : string)
| PublicUrlMissing
| AcmeAccountCreationFailed
| AcmeUnsupportedChallenge (challenge : string)
| AcmeIdentifiersMissing
| AcmeInvalidIdentifier (identifier : string)
| AcmeWildcardNeedsDnsChallenge (identifier : string)
| AcmeDnsProviderRequired
| AcmeCredentialConflict
| AcmeRenewalDaysInvalid (min : Z) (max : Z) (days : Z)
| DnsCredentialNotFound (name : string)
| DnsCredentialInUse (name : string)
| DnsCredentialNameTaken (name : string)
| DnsCredentialNameRequired
| FailedToLoadDnsCredentials
| AcmeWebhookUrlInvalid (url : string)
| NotificationWebhookUrlInvalid (url : string)
| NotificationWebhookMissing
| NotificationFailed (reason : string)
| AcmeExecProgramNotAllowed (program : string)
| AcmeDnsProviderInvalid (field : string)
| AcmeDnsAliasInvalid (reason : string)
| Unauthorized
| McpDisabled
| McpClientUnknown (id : string)
| McpRedirectInvalid
| McpGrantInvalid
| Forbidden
| FailedToCreateAccount
| FailedToLoadAccounts
| InvalidLoginCredentials
| TooManyLoginAttempts
| IpBanned (seconds : Z)
| InvalidUsername (username : string)
| PasswordRequired (username : string)
| PasswordTooShort (min : Z)
| AccountExists (username : string)
| AccountNotFound (username : string)
| CannotChangeOwnAccount
| InvalidAccountScope
| LastAdmin
| InvalidTokenName (name : string)
| InvalidToken (name : string)
| InvalidHeaderName (name : string)
| ProtectedHeader (name : string)
| InvalidHeaderValue (value : string)
| InvalidHeaderRule (rule : string)
| InvalidMimeType (mime : string)
| DuplicateCompressionAlgorithm (algorithm : string)
| InvalidCacheSize
| InvalidTimeout
| InvalidDatagramSize
| InvalidHealthCheckPath (path : string)
| InvalidHealthCheckInterval
| AllServersDrained
| InvalidCircuitBreaker
| InvalidRetryAttempts
| InvalidHttpLimits (name : string) (min : Z) (max : Z)
| InvalidDisplayTimezone (timezone : string)
| InvalidStickyCookieName (name : string)
| InvalidPathRegex (pattern : string)
| InvalidPathPrefix (prefix : string)
| InvalidRedirectRule (rule : string)
| InvalidRedirectStatus (status : Z)
| InvalidRedirectTarget (target : string)
| InvalidMirrorPercent (percent : Z)
| RouteResponseConflict
| InvalidFixedStatus (status : Z)
| FixedBodyTooLarge (max : Z)
| InvalidErrorPageStatus (status : Z)
| ErrorPageBodyTooLarge (max : Z)
| AccessListNameRequired
| AccessListConflict
| AccessListNotFound (id : ShortId)
| AccessListInUse (id : ShortId)
| FailedToHashPassword
| FailedToFetchLog
| FailedToSaveConfig
| FailedToInvokeRpc
| FailedToListNetworkInterfaces
| FailedToCreateCertificateArchive
| ScheduledCommandNotFound (id : ShortId)
| DeploymentNotPendingApproval (id : ShortId)
| DeploymentNotActive (id : ShortId)
| InvalidPasskey
| RegistryExists (server : string)
| InvalidRegistry (reason : string)
| InvalidEnvGroup (reason : string)
| InvalidProject (reason : string)
| InvalidEnvironment (reason : string)
| WebhookNotFound (id : ShortId)
| InvalidWebhook (reason : string)
| WebhookDeliveryFailed (reason : string)
| GrpcError (reason : string)
| InvalidAnomalyAlertRules (reason : string)
| InvalidAutoQuarantineConfig (reason : string)
| InvalidGeoIpConfig (reason : string)
| GeoIpUpdateFailed (reason : string)
| GeoIpLicenseKeyRequired
| ErrorPageThemeNotFound (id : ShortId)
| InvalidErrorPageTheme (reason : string)
| ErrorPageThemeInUse (id : ShortId)
| InvalidCompressionDictionary (reason : string)
| InvalidScheduledCommand (reason : string)
| InvalidCtConfig (reason : string)
| CompressionDictionaryNotFound (id : ShortId)
| ConnectionNotFound (id : ShortId)
| CtCheckFailed (reason : string)
| CtEntryNotFound (id : string).

(** [Error::status_code]: the HTTP status of the admin API for an error. *)
Definition status_code (e : Error) : Z :=
  match e with
  | RegistryExists _ => 409
  | IdNotFound _
  | AccountNotFound _
  | AppNotRunning _
  | ServiceNotFound _
  | BackupNotFound _
  | ScheduledCommandNotFound _
  | WebhookNotFound _
  | ErrorPageThemeNotFound _
  | CompressionDictionaryNotFound _
  | ConnectionNotFound _
  | CtEntryNotFound _ => 404
  | Unauthorized => 401
  | Forbidden
  | ProxyReadOnly _
  | CertificateReadOnly _
  | TargetReadOnly _ => 403
  | TooManyLoginAttempts
  | IpBanned _ => 429
  | AccountExists _
  | AppNameExists _
  | AppBusy _
  | TargetNameExists _
  | GitConnectionNameExists _
  | GitConnectionNotConnected _
  | GithubAppNotInstalled
  | GitConnectionInUse _
  | PublicUrlMissing
  | TargetInUse _
  | AppTargetFixed _
  | HostPortUnavailable _
  | DatabaseInUse _
  | ErrorPageThemeInUse _ => 409
  | AgentOffline _
  | PlatformDisabled
  | PlatformFailed => 503
  | NotificationFailed _
  | GitProviderFailed _
  | FailedToRefreshAppStore
  | FailedToRefreshEngines
  | FailedToRefreshCdnRanges
  | GrpcError _
  | GeoIpUpdateFailed _
  | WebhookDeliveryFailed _
  | CtCheckFailed _ => 502
  | FailedToFetchLog
  | FailedToSaveConfig
  | FailedToInvokeRpc
  | FailedToHashPassword
  | FailedToLoadAccounts
  | FailedToCreateCertificateArchive
  | FailedToListNetworkInterfaces
  | FailedToGenerateSelfSignedCertificate
  | UpgradeFailed
  | BackupFailed _
  | RestoreFailed _
  | S3OperationFailed _ => 500
  | _ => 400
  end.

(** ** IP addresses *)

(** [IpAddr::to_canonical]: an IPv4-mapped IPv6 address becomes its IPv4 address. *)
Definition to_canonical (ip : IpAddr) : IpAddr :=
  match ip with
  | V4 b => V4 b
  | V6 b => if Z.shiftr b 32 =? 65535 then V4 (Z.land b 4294967295) else V6 b
  end.

(** The big-endian bytes of an [n]-byte value. *)
Fixpoint be_bytes (n : nat) (x : Z) : list Z :=
  match n with
  | O => []
  | S k => Z.land (Z.shiftr x (8 * Z.of_nat k)) 255 :: be_bytes k x
  end.

Definition octets (ip : IpAddr) : list Z :=
  match ip with
  | V4 b => be_bytes 4 b
  | V6 b => be_bytes 16 b
  end.

Definition is_ipv4 (ip : IpAddr) : bool := match ip with V4 _ => true | V6 _ => false end.

Definition ip_wf (ip : IpAddr) : Prop :=
  match ip with
  | V4 b => 0 <= b < 2 ^ 32
  | V6 b => 0 <= b < 2 ^ 128
  end.

Definition as_bytes (s : string) : list Z := map byte_of (String.list_ascii_of_string s).

(** [str::from_utf8]: the well-formed sequences of the Unicode standard. *)
Definition in_range (lo hi b : Z) : bool := (lo <=? b) && (b <=? hi).

Fixpoint utf8_valid (l : list Z) : bool :=
  match l with
  | [] => true
  | a :: r =>
      if a <? 128 then utf8_valid r
      else if in_range 194 223 a then
        match r with b :: r => in_range 128 191 b && utf8_valid r | _ => false end
      else if in_range 224 239 a then
        match r with
        | b :: c :: r =>
            in_range (if a =? 224 then 160 else 128) (if a =? 237 then 159 else 191) b && in_range 128 191 c && utf8_valid r
        | _ => false
        end
      else if in_range 240 244 a then
        match r with
        | b :: c :: d :: r =>
            in_range (if a =? 240 then 144 else 128) (if a =? 244 then 143 else 191) b && in_range 128 191 c
            && in_range 128 191 d && utf8_valid r
        | _ => false
        end
      else false
  end.

(** Canonicalizing twice changes nothing more. *)
Lemma to_canonical_idemp ip : to_canonical (to_canonical ip) = to_canonical ip.
Proof.
  destruct ip as [b|b]; cbn; [done|]. destruct (Z.shiftr b 32 =? 65535) eqn:E; cbn; [done|].
  by rewrite E.
Qed.
