(* ===== verification/IpText.v ===== *)
(** * Text of numbers and IP addresses

    What the sources use of the standard library's number and [IpAddr] text: decimal and
    hexadecimal printing, [str::parse] for unsigned integers, and [Display] and [FromStr]
    of IPv4 and IPv6 addresses. *)

From Stdlib Require Import Ascii.
From S2P Require Import Prelude Basics.

(** ** Numbers *)

Definition digit_char (d : Z) : ascii :=
  ascii_of_N (Z.to_N (if d <? 10 then 48 + d else 87 + d)).

Definition digit_val (base : Z) (c : ascii) : option Z :=
  let n := byte_of c in
  let d := if (48 <=? n) && (n <=? 57) then n - 48
           else if (97 <=? n) && (n <=? 122) then n - 87
           else if (65 <=? n) && (n <=? 90) then n - 55 else 99 in
  if d <? base then Some d else None.

(** The digits of [n] before [s]; [fuel] bounds the number of digits. *)
Fixpoint radix_aux (fuel : nat) (base n : Z) (s : string) : string :=
  match fuel with
  | O => s
  | S f =>
      let s := String (digit_char (n mod base)) s in
      if n / base =? 0 then s else radix_aux f base (n / base) s
  end.

(** [to_string] of an unsigned integer of at most 64 bits, and the [{:x}] of a 16-bit one. *)
Definition dec (n : Z) : string := radix_aux 20 10 n "".
Definition hex16 (n : Z) : string := radix_aux 4 16 n "".

Fixpoint parse_radix (base acc : Z) (s : string) : option Z :=
  match s with
  | EmptyString => Some acc
  | String c r =>
      match digit_val base c with
      | Some d => parse_radix base (acc * base + d) r
      | None => None
      end
  end.

(** [str::parse] of an unsigned integer with the largest value [max]: an optional [+],
    then digits, leading zeros included. *)
Definition parse_uint (max : Z) (s : string) : option Z :=
  let digits := match s with String "+" r => r | _ => s end in
  if str_is_empty digits then None
  else match parse_radix 10 0 digits with
       | Some n => if n <=? max then Some n else None
       | None => None
       end.

(** ** Joining and splitting text *)

(** The pieces with a separator character between them. *)
Fixpoint join_with (c : ascii) (l : list string) : string :=
  match l with
  | [] => ""
  | [p] => p
  | p :: rest => String.append p (String c (join_with c rest))
  end.

(** ** IPv4 *)

(** A decimal octet: one to three digits, no leading zero, at most 255. *)
Definition parse_octet (s : string) : option Z :=
  let n := String.length s in
  if str_is_empty s || Nat.ltb 3 n || (starts_with "0" s && Nat.ltb 1 n) then None
  else match parse_radix 10 0 s with
       | Some v => if v <=? 255 then Some v else None
       | None => None
       end.

Definition be_combine (l : list Z) : Z := fold_left (fun acc b => acc * 256 + b) l 0.

Definition ipv4_to_string (bits : Z) : string := join_with "." (map dec (be_bytes 4 bits)).

Definition parse_ipv4 (s : string) : option Z :=
  match mapM parse_octet (split_on "." s) with
  | Some ([_; _; _; _] as l) => Some (be_combine l)
  | _ => None
  end.

(** ** IPv6 *)

Fixpoint be_segments (n : nat) (x : Z) : list Z :=
  match n with
  | O => []
  | S k => Z.land (Z.shiftr x (16 * Z.of_nat k)) 65535 :: be_segments k x
  end.

Definition combine_segments (l : list Z) : Z := fold_left (fun acc b => acc * 65536 + b) l 0.

(** A group of one to four hexadecimal digits. *)
Definition parse_group (s : string) : option Z :=
  if str_is_empty s || Nat.ltb 4 (String.length s) then None else parse_radix 16 0 s.

(** Groups between colons; the last one may be an IPv4 address, which counts as two. *)
Fixpoint parse_groups (allow_ipv4 : bool) (l : list string) : option (list Z) :=
  match l with
  | [] => Some []
  | [p] =>
      match parse_group p with
      | Some g => Some [g]
      | None =>
          if allow_ipv4 then
            match parse_ipv4 p with
            | Some v4 => Some [Z.shiftr v4 16; Z.land v4 65535]
            | None => None
            end
          else None
      end
  | p :: rest =>
      match parse_group p, parse_groups allow_ipv4 rest with
      | Some g, Some gs => Some (g :: gs)
      | _, _ => None
      end
  end.

Definition parse_side (allow_ipv4 : bool) (s : string) : option (list Z) :=
  if str_is_empty s then Some [] else parse_groups allow_ipv4 (split_on ":" s).

(** The text before and after the first [::]. *)
Fixpoint split_double_colon (s : string) : option (string * string) :=
  match s with
  | String ":" (String ":" r) => Some ("", r)
  | String c r =>
      match split_double_colon r with
      | Some (a, b) => Some (String c a, b)
      | None => None
      end
  | EmptyString => None
  end.

Definition parse_ipv6 (s : string) : option Z :=
  match split_double_colon s with
  | Some (h, t) =>
      match parse_side false h, parse_side true t with
      | Some hg, Some tg =>
          let n := (length hg + length tg)%nat in
          if Nat.leb n 7 then Some (combine_segments (hg ++ replicate (8 - n) 0 ++ tg)) else None
      | _, _ => None
      end
  | None =>
      match parse_side true s with
      | Some gs => if Nat.eqb (length gs) 8 then Some (combine_segments gs) else None
      | None => None
      end
  end.

(** The longest run of zero groups, as start and length; the first of equal runs. *)
Fixpoint zero_runs (i : nat) (l : list Z) (cur best : nat * nat) : nat * nat :=
  match l with
  | [] => best
  | g :: rest =>
      if g =? 0 then
        let cur := if Nat.eqb cur.2 0 then (i, 1%nat) else (cur.1, S cur.2) in
        let best := if Nat.ltb best.2 cur.2 then cur else best in
        zero_runs (S i) rest cur best
      else zero_runs (S i) rest (0%nat, 0%nat) best
  end.

Definition ipv6_to_string (bits : Z) : string :=
  if Z.shiftr bits 32 =? 65535 then
    String.append "::ffff:" (ipv4_to_string (Z.land bits 4294967295))
  else
    let segs := be_segments 8 bits in
    let '(start, len) := zero_runs 0 segs (0%nat, 0%nat) (0%nat, 0%nat) in
    if Nat.ltb 1 len then
      String.append (join_with ":" (map hex16 (take start segs)))
        (String.append "::" (join_with ":" (map hex16 (drop (start + len) segs))))
    else join_with ":" (map hex16 segs).

(** ** Addresses of either family *)

Definition ip_to_string (ip : IpAddr) : string :=
  match ip with V4 b => ipv4_to_string b | V6 b => ipv6_to_string b end.

Definition parse_ip (s : string) : option IpAddr :=
  match parse_ipv4 s with
  | Some b => Some (V4 b)
  | None => match parse_ipv6 s with Some b => Some (V6 b) | None => None end
  end.

Example ip_examples :
  map (fun s => option_map ip_to_string (parse_ip s))
    ["127.0.0.1"; "01.2.3.4"; "256.1.1.1"; "::1"; "2001:DB8:0:0:1:0:0:1"; "::ffff:10.0.0.1"; "1:2:3:4:5:6:7::";
     ":::"; "1::2::3"; "fe80::0:0:0:1"; "1:2:3:4:5:6:7:8"; "::"; "1:2:3:4:5:6:1.2.3.4"; ""; "1.2.3.4::"]
  = [Some "127.0.0.1"; None; None; Some "::1"; Some "2001:db8::1:0:0:1"; Some "::ffff:10.0.0.1";
     Some "1:2:3:4:5:6:7:0"; None; None; Some "fe80::1"; Some "1:2:3:4:5:6:7:8"; Some "::";
     Some "1:2:3:4:5:6:102:304"; None; None].
Proof. vm_compute. reflexivity. Qed.

(** ** Facts on strings *)

Definition char_free (c : ascii) (s : string) : bool := str_forallb (fun a => negb (Ascii.eqb a c)) s.

Lemma append_nil_r s : String.append s "" = s.
Proof. induction s as [|c s IH]; cbn; [done|]. by rewrite IH. Qed.

Lemma append_assoc a b c : String.append a (String.append b c) = String.append (String.append a b) c.
Proof. induction a as [|x a IH]; cbn; [done|]. by rewrite IH. Qed.

Lemma str_forallb_append p a b :
  str_forallb p (String.append a b) = str_forallb p a && str_forallb p b.
Proof. induction a as [|c a IH]; cbn; [done|]. by rewrite IH, andb_assoc. Qed.

Lemma split_by_none p s : str_forallb (fun a => negb (p a)) s = true -> split_by p s = [s].
Proof.
  induction s as [|c s IH]; cbn; [done|]. intros H. apply andb_prop in H as [H1 H2].
  apply negb_true_iff in H1. rewrite H1, IH by done. done.
Qed.

Lemma split_by_append p a c r :
  str_forallb (fun x => negb (p x)) a = true -> p c = true ->
  split_by p (String.append a (String c r)) = a :: split_by p r.
Proof.
  induction a as [|x a IH]; cbn; intros Ha Hc; [by rewrite Hc|].
  apply andb_prop in Ha as [H1 H2]. apply negb_true_iff in H1. by rewrite H1, IH.
Qed.

Lemma split_on_join c l :
  l <> [] -> Forall (fun p => char_free c p = true) l -> split_on c (join_with c l) = l.
Proof.
  intros Hne H. induction H as [|p l Hp Hl IH]; [done|]. unfold split_on in *. cbn.
  destruct l as [|q l]; [by apply split_by_none|].
  rewrite split_by_append by (done || apply Ascii.eqb_refl). f_equal. by apply IH.
Qed.

Lemma split_by_nonempty p s : split_by p s <> [].
Proof. destruct s as [|c s]; cbn; [done|]. destruct (p c); [done|]. by destruct (split_by p s). Qed.

(** ** Numbers round trip *)

Lemma parse_radix_aux base fuel n s :
  1 < base -> (forall d, 0 <= d < base -> digit_val base (digit_char d) = Some d) ->
  0 <= n < base ^ Z.of_nat fuel -> (0 < fuel)%nat ->
  parse_radix base 0 (radix_aux fuel base n s) = parse_radix base n s.
Proof.
  intros Hb Hd. revert n s. induction fuel as [|f IH]; intros n s Hn Hf; [lia|]. cbn [radix_aux].
  assert (Hm : 0 <= n mod base < base) by (apply Z.mod_pos_bound; lia).
  assert (Hdiv : n = base * (n / base) + n mod base) by (apply Z.div_mod; lia).
  destruct (n / base =? 0) eqn:E; zbool.
  - cbn. rewrite Hd by done. f_equal. lia.
  - assert (Hq : 0 <= n / base < base ^ Z.of_nat f).
    { split; [apply Z.div_pos; lia|]. apply Z.div_lt_upper_bound; [lia|].
      rewrite <-Z.pow_succ_r by lia. replace (Z.succ (Z.of_nat f)) with (Z.of_nat (S f)) by lia. lia. }
    destruct f as [|f]; [cbn in Hq; lia|]. rewrite IH by lia. cbn [parse_radix].
    rewrite Hd by done. f_equal. lia.
Qed.

(** A boolean check of every value below a bound. *)
Fixpoint check_range (P : Z -> bool) (n : nat) (x : Z) : bool :=
  match n with
  | O => true
  | S k => P x && check_range P k (x + 1)
  end.

Lemma check_range_spec P n a x :
  check_range P n a = true -> a <= x < a + Z.of_nat n -> P x = true.
Proof.
  revert a. induction n as [|n IH]; intros a H Hx; [lia|]. cbn in H. apply andb_prop in H as [H1 H2].
  destruct (decide (x = a)) as [->|]; [done|]. apply (IH (a + 1) H2). lia.
Qed.

Lemma seq_range_check (P : Z -> bool) n x :
  check_range P (Z.to_nat n) 0 = true -> 0 <= x < n -> P x = true.
Proof. intros H Hx. apply (check_range_spec P _ _ x H). lia. Qed.

Lemma digit_val_char10 d : 0 <= d < 10 -> digit_val 10 (digit_char d) = Some d.
Proof.
  intros Hd. assert (H := seq_range_check (fun d => bool_decide (digit_val 10 (digit_char d) = Some d)) 10 d).
  specialize (H eq_refl Hd). by apply bool_decide_eq_true in H.
Qed.

(** [to_string] then [parse] of an unsigned integer. *)
Lemma radix_aux_digits fuel base n s p :
  (forall d, 0 <= d < base -> p (digit_char d) = true) -> 1 < base ->
  str_forallb p s = true -> str_forallb p (radix_aux fuel base n s) = true.
Proof.
  intros Hp Hb. revert n s. induction fuel as [|f IH]; intros n s Hs; cbn [radix_aux]; [done|].
  assert (Hn : str_forallb p (String (digit_char (n mod base)) s) = true).
  { cbn. rewrite Hs, Hp; [done|]. apply Z.mod_pos_bound. lia. }
  destruct (_ =? _); [done|]. by apply IH.
Qed.

Lemma radix_aux_nonempty fuel base n c s : radix_aux fuel base n (String c s) <> "".
Proof.
  revert n c s. induction fuel as [|f IH]; intros n c s; cbn [radix_aux]; [done|].
  destruct (_ =? _); [done|]. apply IH.
Qed.

Lemma radix_aux_some f base n s : radix_aux (S f) base n s <> "".
Proof. cbn [radix_aux]. destruct (_ =? _); [done|]. apply radix_aux_nonempty. Qed.

Lemma radix_aux_length fuel base n s :
  (String.length (radix_aux fuel base n s) <= fuel + String.length s)%nat.
Proof.
  revert n s. induction fuel as [|f IH]; intros n s; cbn [radix_aux]; [lia|].
  destruct (_ =? _); [cbn; lia|]. etrans; [apply IH|]. cbn. lia.
Qed.

Lemma dec_digits n : str_forallb is_ascii_digit (dec n) = true.
Proof.
  apply radix_aux_digits; [|lia|done]. intros d Hd.
  exact (seq_range_check (fun d => is_ascii_digit (digit_char d)) 10 d eq_refl Hd).
Qed.

Lemma dec_nonempty n : str_is_empty (dec n) = false.
Proof.
  assert (Hs : forall s, s <> "" -> str_is_empty s = false) by (by intros []).
  apply Hs, radix_aux_some.
Qed.

Lemma parse_uint_dec max n : 0 <= n <= max -> max <= u64_max -> parse_uint max (dec n) = Some n.
Proof.
  intros Hn Hmax. unfold parse_uint. pose proof (dec_digits n) as Hdig. pose proof (dec_nonempty n) as Hne.
  assert (Hparse : parse_radix 10 0 (dec n) = Some n).
  { unfold dec. rewrite parse_radix_aux; [done|lia|apply digit_val_char10| |lia].
    unfold u64_max in Hmax. cbn. lia. }
  destruct (dec n) as [|c r] eqn:E; [done|]. cbn in Hdig. apply andb_prop in Hdig as [Hc _].
  assert (Hplus : (match String c r with String "+" r0 => r0 | _ => String c r end) = String c r).
  { destruct c as [[] [] [] [] [] [] [] []]; try done; by vm_compute in Hc. }
  rewrite Hplus. cbn [str_is_empty]. rewrite Hparse. destruct (n <=? max) eqn:El; [done|zbool; lia].
Qed.

(** ** IPv4 round trip *)

Lemma fold_bytes (w : Z) (n : nat) x acc digits :
  0 <= w ->
  (forall k y, digits (S k) y = Z.land (Z.shiftr y (w * Z.of_nat k)) (Z.ones w) :: digits k y) ->
  (forall y, digits 0%nat y = []) ->
  fold_left (fun a b => a * 2 ^ w + b) (digits n x) acc
  = acc * (2 ^ w) ^ Z.of_nat n + x mod (2 ^ w) ^ Z.of_nat n.
Proof.
  intros Hw Hd H0. revert acc. induction n as [|n IH]; intros acc.
  - rewrite H0. cbn. rewrite Z.mod_1_r. lia.
  - rewrite Hd. cbn [fold_left]. rewrite IH.
    rewrite Z.land_ones, Z.shiftr_div_pow2 by lia.
    replace (2 ^ (w * Z.of_nat n)) with ((2 ^ w) ^ Z.of_nat n) by (rewrite Z.pow_mul_r by lia; done).
    rewrite Nat2Z.inj_succ, Z.pow_succ_r by lia.
    set (p := (2 ^ w) ^ Z.of_nat n). set (b := 2 ^ w).
    assert (0 < b) by (unfold b; apply Z.pow_pos_nonneg; lia).
    assert (0 < p) by (unfold p; apply Z.pow_pos_nonneg; lia).
    rewrite (Z.mul_comm b p), Z.rem_mul_r by lia. lia.
Qed.

Lemma be_combine_bytes b : 0 <= b < 2 ^ 32 -> be_combine (be_bytes 4 b) = b.
Proof.
  intros Hb. etransitivity;
    [exact (fold_bytes 8 4 b 0 be_bytes ltac:(lia) (fun _ _ => eq_refl) (fun _ => eq_refl))|].
  change ((2 ^ 8) ^ Z.of_nat 4) with (2 ^ 32). rewrite Z.mod_small by lia. lia.
Qed.

Lemma combine_be_segments b : 0 <= b < 2 ^ 128 -> combine_segments (be_segments 8 b) = b.
Proof.
  intros Hb. etransitivity;
    [exact (fold_bytes 16 8 b 0 be_segments ltac:(lia) (fun _ _ => eq_refl) (fun _ => eq_refl))|].
  change ((2 ^ 16) ^ Z.of_nat 8) with (2 ^ 128). rewrite Z.mod_small by lia. lia.
Qed.

Lemma land_range x w : 0 <= w -> 0 <= Z.land x (Z.ones w) < 2 ^ w.
Proof. intros Hw. rewrite Z.land_ones by done. apply Z.mod_pos_bound, Z.pow_pos_nonneg; lia. Qed.

Lemma be_bytes_range n x : Forall (fun b => 0 <= b < 256) (be_bytes n x).
Proof. induction n as [|n IH]; cbn; constructor; [|done]. apply (land_range _ 8). lia. Qed.

Lemma be_segments_range n x : Forall (fun b => 0 <= b < 65536) (be_segments n x).
Proof. induction n as [|n IH]; cbn; constructor; [|done]. apply (land_range _ 16). lia. Qed.

Lemma octet_text o :
  0 <= o < 256 ->
  parse_octet (dec o) = Some o /\ char_free "." (dec o) = true /\ char_free ":" (dec o) = true.
Proof.
  intros Ho.
  assert (H := seq_range_check (fun o => bool_decide (parse_octet (dec o) = Some o)
    && (char_free "." (dec o) && char_free ":" (dec o))) 256 o).
  specialize (H ltac:(vm_compute; reflexivity) Ho).
  apply andb_prop in H as [H1 H2]. apply andb_prop in H2 as [H2 H3].
  apply bool_decide_eq_true in H1. done.
Qed.

Lemma mapM_map_some {A B} (f : B -> option A) (g : A -> B) l :
  Forall (fun x => f (g x) = Some x) l -> mapM f (map g l) = Some l.
Proof.
  intros H. induction H as [|x l Hx Hl IH]; cbn; [done|].
  change (mapM f (g x :: map g l)) with (y ← f (g x); k ← mapM f (map g l); mret (y :: k)).
  by rewrite Hx, IH.
Qed.

Lemma ipv4_roundtrip b : 0 <= b < 2 ^ 32 -> parse_ipv4 (ipv4_to_string b) = Some b.
Proof.
  intros Hb. unfold parse_ipv4, ipv4_to_string. pose proof (be_bytes_range 4 b) as Hr.
  rewrite split_on_join; [|done|].
  - rewrite (mapM_map_some parse_octet dec).
    + pose proof (be_combine_bytes b Hb). cbn in *. by f_equal.
    + eapply Forall_impl; [exact Hr|]. intros o Ho. by apply octet_text.
  - apply Forall_map. eapply Forall_impl; [exact Hr|]. intros o Ho. by apply octet_text.
Qed.

Lemma str_forallb_join p c l :
  p c = true -> Forall (fun s => str_forallb p s = true) l -> str_forallb p (join_with c l) = true.
Proof.
  intros Hc H. induction H as [|s l Hs Hl IH]; cbn; [done|]. destruct l; [done|].
  rewrite str_forallb_append. cbn in *. by rewrite Hs, Hc, IH.
Qed.

Lemma ipv4_colon_free b : char_free ":" (ipv4_to_string b) = true.
Proof.
  unfold char_free, ipv4_to_string. apply str_forallb_join; [done|]. apply Forall_map.
  eapply Forall_impl; [apply be_bytes_range|]. intros o Ho. by apply octet_text.
Qed.

(** ** IPv6 round trip *)

Lemma group_text g :
  0 <= g < 65536 ->
  parse_group (hex16 g) = Some g /\ char_free ":" (hex16 g) = true /\ hex16 g <> "".
Proof.
  intros Hg. assert (Hne : hex16 g <> "") by apply radix_aux_some.
  assert (Hd : forall d, 0 <= d < 16 -> digit_val 16 (digit_char d) = Some d).
  { intros d Hd.
    assert (Hc := seq_range_check (fun d => bool_decide (digit_val 16 (digit_char d) = Some d)) 16 d eq_refl Hd).
    by apply bool_decide_eq_true in Hc. }
  split_and!; [|apply radix_aux_digits; [|lia|done]|done].
  - unfold parse_group. assert (Hlen := radix_aux_length 4 16 g ""). fold (hex16 g) in Hlen.
    change (String.length "") with 0%nat in Hlen.
    destruct (Nat.ltb_spec 4 (String.length (hex16 g))) as [Hl|_]; [lia|].
    destruct (hex16 g) eqn:E; [done|]. cbn [str_is_empty orb]. rewrite <-E. unfold hex16.
    by rewrite parse_radix_aux by (done || lia).
  - intros d Hd16.
    exact (seq_range_check (fun d => negb (Ascii.eqb (digit_char d) ":")) 16 d eq_refl Hd16).
Qed.

Lemma split_dc_piece p r :
  char_free ":" p = true ->
  split_double_colon (String.append p r)
  = match split_double_colon r with Some (a, b) => Some (String.append p a, b) | None => None end.
Proof.
  induction p as [|c p IH]; intros Hp; [cbn; by destruct (split_double_colon r) as [[]|]|].
  cbn in Hp. apply andb_prop in Hp as [Hc Hp]. cbn [String.append].
  assert (Hstep : forall s, split_double_colon (String c s)
    = match split_double_colon s with Some (a, b) => Some (String c a, b) | None => None end).
  { intros s. destruct c as [[] [] [] [] [] [] [] []]; done. }
  rewrite Hstep, IH by done. by destruct (split_double_colon r) as [[]|].
Qed.

Lemma split_dc_colon p r :
  char_free ":" p = true -> p <> "" ->
  split_double_colon (String ":" (String.append p r))
  = match split_double_colon (String.append p r) with
    | Some (a, b) => Some (String ":" a, b) | None => None end.
Proof.
  destruct p as [|c p]; [done|]. intros Hp _. cbn in Hp. apply andb_prop in Hp as [Hc _].
  cbn [String.append]. destruct c as [[] [] [] [] [] [] [] []]; done.
Qed.

(** The groups before a [::] never hide another one. *)
Lemma split_dc_join l t :
  Forall (fun p => char_free ":" p = true /\ p <> "") l ->
  split_double_colon (String.append (join_with ":" l) t)
  = match split_double_colon t with
    | Some (a, b) => Some (String.append (join_with ":" l) a, b) | None => None end.
Proof.
  intros H. induction H as [|p l [Hp Hne] Hl IH]; [cbn; by destruct (split_double_colon t) as [[]|]|].
  destruct l as [|q l]; [by apply split_dc_piece|].
  change (join_with ":" (p :: q :: l)) with (String.append p (String ":" (join_with ":" (q :: l)))).
  rewrite <-append_assoc, split_dc_piece by done. cbn [String.append].
  inversion Hl as [|? ? [Hq Hqne] _]; subst.
  assert (Hshape : exists r, String.append (join_with ":" (q :: l)) t = String.append q r).
  { destruct l as [|q' l]; [by exists t|]. eexists. cbn [join_with]. by rewrite <-append_assoc. }
  destruct Hshape as [r Hr]. rewrite Hr in *. rewrite split_dc_colon, IH by done.
  destruct (split_double_colon t) as [[a b]|]; [|done].
  by rewrite <-append_assoc.
Qed.

Lemma parse_groups_hex allow segs :
  Forall (fun g => 0 <= g < 65536) segs -> parse_groups allow (map hex16 segs) = Some segs.
Proof.
  intros H. induction H as [|g l Hg Hl IH]; [done|].
  destruct (group_text g Hg) as [Hp _]. destruct l as [|g' l]; cbn [map parse_groups] in *; rewrite Hp; [done|].
  by rewrite IH.
Qed.

Lemma pieces_hex segs :
  Forall (fun g => 0 <= g < 65536) segs ->
  Forall (fun p => char_free ":" p = true /\ p <> "") (map hex16 segs).
Proof.
  intros H. apply Forall_map. eapply Forall_impl; [exact H|]. intros g Hg.
  by destruct (group_text g Hg) as (_ & ? & ?).
Qed.

Lemma join_with_empty c p l : p <> "" -> str_is_empty (join_with c (p :: l)) = false.
Proof. intros H. destruct p; [done|]. by destruct l. Qed.

Lemma parse_side_hex allow segs :
  Forall (fun g => 0 <= g < 65536) segs ->
  parse_side allow (join_with ":" (map hex16 segs)) = Some segs.
Proof.
  intros H. unfold parse_side. pose proof (pieces_hex segs H) as Hp.
  destruct segs as [|g l]; [done|]. cbn [map] in *. inversion Hp as [|? ? [_ Hne] _]; subst.
  rewrite join_with_empty by done. rewrite split_on_join; [|done|].
  - exact (parse_groups_hex allow (g :: l) H).
  - eapply Forall_impl; [exact Hp|]. by intros ? [? _].
Qed.

(** The run that is abbreviated consists of zeros. *)
Definition zero_run (L : list Z) (r : nat * nat) : Prop :=
  (r.1 + r.2 <= length L)%nat /\ forall k, (r.1 <= k < r.1 + r.2)%nat -> L !! k = Some 0.

Lemma zero_runs_spec L i l cur best :
  l = drop i L -> (i <= length L)%nat ->
  zero_run L best -> zero_run L cur -> (cur.2 = 0%nat \/ (cur.1 + cur.2 = i)%nat) ->
  zero_run L (zero_runs i l cur best).
Proof.
  revert i cur best. induction l as [|g l IH]; intros i cur best Hl Hi Hb Hc Hend; cbn; [done|].
  assert (Hgi : L !! i = Some g).
  { rewrite <-(Nat.add_0_r i), <-lookup_drop, <-Hl. done. }
  assert (Hlt : (i < length L)%nat) by (eapply lookup_lt_Some; eauto).
  assert (Hnext : l = drop (S i) L).
  { rewrite (drop_S _ _ _ Hgi) in Hl. congruence. }
  destruct (g =? 0) eqn:E; zbool.
  - subst g.
    assert (Hc' : zero_run L (if Nat.eqb cur.2 0 then (i, 1%nat) else (cur.1, S cur.2))).
    { destruct Hc as [Hc1 Hc2]. destruct (Nat.eqb_spec cur.2 0); split; cbn; try lia.
      - intros k Hk. by replace k with i by lia.
      - intros k Hk. destruct (decide (k = i)) as [->|]; [done|]. apply Hc2. lia. }
    apply IH; [done|lia| |done|].
    + match goal with |- zero_run L (if ?b then _ else _) => by destruct b end.
    + right. destruct (Nat.eqb_spec cur.2 0); cbn; lia.
  - apply IH; [done|lia|done| |by left]. split; cbn; [lia|]. intros k Hk. lia.
Qed.

Lemma zero_run_decompose L start len :
  zero_run L (start, len) -> L = take start L ++ replicate len 0 ++ drop (start + len) L.
Proof.
  intros [Hle Hz]. cbn in *. rewrite <-drop_drop. rewrite <-(take_drop start L) at 1. f_equal.
  rewrite <-(take_drop len (drop start L)) at 1. f_equal. apply list_eq. intros k.
  destruct (decide (k < len)%nat).
  - rewrite lookup_take_lt by done. rewrite lookup_drop, lookup_replicate_2 by done.
    apply Hz. lia.
  - rewrite lookup_take_ge by lia. symmetry. apply lookup_ge_None. rewrite length_replicate. lia.
Qed.

Lemma parse_radix_dot base acc a r :
  digit_val base "." = None -> parse_radix base acc (String.append a (String "." r)) = None.
Proof.
  intros Hd. revert acc. induction a as [|c a IH]; intros acc; cbn [String.append parse_radix].
  - by rewrite Hd.
  - destruct (digit_val base c); [apply IH|done].
Qed.

Lemma parse_group_ipv4 b : parse_group (ipv4_to_string b) = None.
Proof.
  unfold parse_group. destruct (_ || _); [done|]. unfold ipv4_to_string. cbn [be_bytes map join_with].
  by apply parse_radix_dot.
Qed.

Lemma ipv6_mapped_roundtrip b :
  0 <= b < 2 ^ 128 -> Z.shiftr b 32 = 65535 ->
  parse_ipv6 (String.append "::ffff:" (ipv4_to_string (Z.land b 4294967295))) = Some b.
Proof.
  intros Hb Hm. set (v := Z.land b 4294967295).
  assert (Hv : 0 <= v < 2 ^ 32) by apply (land_range b 32 ltac:(lia)).
  assert (Hside : parse_side true (String.append "ffff:" (ipv4_to_string v))
                  = Some [65535; Z.shiftr v 16; Z.land v 65535]).
  { unfold parse_side. cbn [String.append str_is_empty].
    assert (Hsplit : split_on ":" (String "f" (String "f" (String "f" (String "f" (String ":" (ipv4_to_string v))))))
                     = ["ffff"; ipv4_to_string v]).
    { pose proof (split_by_none (fun a => Ascii.eqb a ":") _ (ipv4_colon_free v)) as Hn.
      unfold split_on. etransitivity; [exact (split_by_append (fun a => Ascii.eqb a ":") "ffff" ":" (ipv4_to_string v) eq_refl eq_refl)|].
      by rewrite Hn. }
    rewrite Hsplit. change (parse_groups true ["ffff"; ipv4_to_string v]) with
      (match parse_group "ffff", parse_groups true [ipv4_to_string v] with
       | Some g, Some gs => Some (g :: gs) | _, _ => None end).
    cbn [parse_groups]. rewrite parse_group_ipv4, ipv4_roundtrip by done. done. }
  unfold parse_ipv6. change (split_double_colon (String.append "::ffff:" (ipv4_to_string v))) with
    (Some ("", String.append "ffff:" (ipv4_to_string v))).
  cbv beta iota. rewrite Hside. cbn -[Z.shiftr Z.land].
  assert (Hb2 : b = 65535 * 2 ^ 32 + v).
  { unfold v. change 4294967295 with (Z.ones 32). rewrite Z.land_ones by lia.
    rewrite Z.shiftr_div_pow2 in Hm by lia.
    pose proof (Z.div_mod b (2 ^ 32)). lia. }
  assert (Hv2 : v = Z.shiftr v 16 * 65536 + Z.land v 65535).
  { change 65535 with (Z.ones 16). rewrite Z.land_ones, Z.shiftr_div_pow2 by lia. pose proof (Z.div_mod v (2 ^ 16)). lia. }
  f_equal. unfold combine_segments. cbn -[Z.shiftr Z.land]. lia.
Qed.

Lemma ipv6_roundtrip b : 0 <= b < 2 ^ 128 -> parse_ipv6 (ipv6_to_string b) = Some b.
Proof.
  intros Hb. unfold ipv6_to_string. destruct (Z.shiftr b 32 =? 65535) eqn:Em; zbool.
  { by apply ipv6_mapped_roundtrip. }
  set (segs := be_segments 8 b).
  assert (Hr : Forall (fun g => 0 <= g < 65536) segs) by apply be_segments_range.
  assert (Hlen : length segs = 8%nat) by done.
  assert (Hz : zero_run segs (zero_runs 0 segs (0, 0)%nat (0, 0)%nat)).
  { apply zero_runs_spec; try done; try lia; try (by left); split; cbn; intros; lia. }
  pose proof (combine_be_segments b Hb) as Hcomb. fold segs in Hcomb.
  destruct (zero_runs 0 segs (0, 0)%nat (0, 0)%nat) as [start len].
  destruct (Nat.ltb_spec 1 len) as [Hl|Hl].
  - unfold parse_ipv6. rewrite split_dc_join by by apply pieces_hex, Forall_take.
    change (split_double_colon (String.append "::" (join_with ":" (map hex16 (drop (start + len) segs)))))
      with (Some ("", join_with ":" (map hex16 (drop (start + len) segs)))).
    cbn iota. rewrite append_nil_r, !parse_side_hex by (by apply Forall_take || by apply Forall_drop).
    pose proof Hz as [Hle _]. unfold fst, snd in Hle. rewrite Hlen in Hle. cbn zeta.
    rewrite length_take, length_drop, Hlen.
    replace (start `min` 8 + (8 - (start + len)))%nat with (8 - len)%nat by lia.
    destruct (Nat.leb_spec (8 - len) 7); [|lia].
    replace (8 - (8 - len))%nat with len by lia.
    rewrite <-(zero_run_decompose segs start len Hz), Hcomb. done.
  - unfold parse_ipv6.
    pose proof (split_dc_join (map hex16 segs) "" (pieces_hex segs Hr)) as Hs.
    rewrite append_nil_r in Hs. rewrite Hs. cbn iota. rewrite parse_side_hex by done.
    rewrite Hlen. cbn [Nat.eqb]. by rewrite Hcomb.
Qed.

(** Text with a colon is never an IPv4 address. *)
Lemma parse_radix_colon base acc s :
  digit_val base ":" = None -> char_free ":" s = false -> parse_radix base acc s = None.
Proof.
  intros Hd. revert acc. induction s as [|c s IH]; intros acc Hs; [done|]. cbn in Hs |- *.
  destruct (Ascii.eqb_spec c ":") as [->|]; [by rewrite Hd|]. cbn in Hs.
  destruct (digit_val base c); [by apply IH|done].
Qed.

Lemma split_by_char_free p c s :
  p c = false -> char_free c s = false -> Exists (fun x => char_free c x = false) (split_by p s).
Proof.
  intros Hp. induction s as [|a s IH]; intros Hs; [done|]. cbn in Hs |- *.
  destruct (Ascii.eqb_spec a c) as [->|]; cbn in Hs.
  - rewrite Hp. pose proof (split_by_nonempty p s). destruct (split_by p s); [done|].
    left. cbn. by rewrite Ascii.eqb_refl.
  - specialize (IH Hs). destruct (p a); [by right|].
    inversion IH as [x l Hx E|x l Hx E]; [left|right; done].
    change (char_free c (String a x)) with (negb (Ascii.eqb a c) && char_free c x). rewrite Hx.
    apply andb_false_r.
Qed.

Lemma mapM_none {A B} (f : A -> option B) l : Exists (fun x => f x = None) l -> mapM f l = None.
Proof.
  intros H. induction H as [x l Hx|x l Hx IH];
    change (mapM f (x :: l)) with (y ← f x; k ← mapM f l; mret (y :: k)).
  - by rewrite Hx.
  - rewrite IH. by destruct (f x).
Qed.

Lemma parse_ipv4_colon s : char_free ":" s = false -> parse_ipv4 s = None.
Proof.
  intros Hs. unfold parse_ipv4. rewrite mapM_none; [done|].
  eapply Exists_impl; [exact (split_by_char_free (fun a => Ascii.eqb a ".") ":" s eq_refl Hs)|]. cbn beta. intros x Hx.
  unfold parse_octet. destruct (_ || _); [done|]. by rewrite parse_radix_colon.
Qed.

Lemma ipv6_has_colon b : char_free ":" (ipv6_to_string b) = false.
Proof.
  unfold ipv6_to_string. destruct (_ =? _); [done|].
  destruct (zero_runs _ _ _ _) as [start len]. destruct (Nat.ltb 1 len).
  - unfold char_free. rewrite !str_forallb_append. cbn. by rewrite andb_false_r.
  - unfold char_free. cbn [be_segments map join_with]. rewrite str_forallb_append. cbn. apply andb_false_r.
Qed.

(** The text of every address parses back to the address. *)
Lemma ip_roundtrip ip : ip_wf ip -> parse_ip (ip_to_string ip) = Some ip.
Proof.
  destruct ip as [b|b]; unfold parse_ip; cbn [ip_to_string ip_wf]; intros Hb.
  - by rewrite ipv4_roundtrip.
  - rewrite parse_ipv4_colon by apply ipv6_has_colon. by rewrite ipv6_roundtrip.
Qed.

(** ** Parsed addresses are in range *)

Lemma digit_val_range base c d : digit_val base c = Some d -> 0 <= d < base.
Proof.
  unfold digit_val. set (n := byte_of c). assert (0 <= n) by (unfold n, byte_of; lia). cbv zeta.
  destruct ((48 <=? n) && (n <=? 57)) eqn:E1; [zbool|
    destruct ((97 <=? n) && (n <=? 122)) eqn:E2; [zbool|
      destruct ((65 <=? n) && (n <=? 90)) eqn:E3; [zbool|]]];
  (destruct (_ <? base) eqn:E; [|done]); intros [= <-]; zbool; lia.
Qed.

Lemma parse_radix_range base acc s v :
  1 < base -> 0 <= acc -> parse_radix base acc s = Some v ->
  0 <= v < (acc + 1) * base ^ Z.of_nat (String.length s).
Proof.
  intros Hb. revert acc. induction s as [|c s IH]; intros acc Ha Hp; cbn [parse_radix] in Hp.
  - injection Hp as <-. cbn. lia.
  - destruct (digit_val base c) as [d|] eqn:E; [|done]. apply digit_val_range in E.
    apply IH in Hp; [|nia]. cbn [String.length]. rewrite Nat2Z.inj_succ, Z.pow_succ_r by lia.
    assert (0 < base ^ Z.of_nat (String.length s)) by (apply Z.pow_pos_nonneg; lia). nia.
Qed.

Lemma parse_uint_range max s v : parse_uint max s = Some v -> 0 <= v <= max.
Proof.
  unfold parse_uint. set (t := match s with String "+" r => r | _ => s end).
  destruct (str_is_empty t); [done|]. destruct (parse_radix 10 0 t) as [n|] eqn:E; [|done].
  destruct (n <=? max) eqn:El; [|done]. intros [= <-]. zbool.
  apply parse_radix_range in E; lia.
Qed.

Lemma fold_range (w : Z) l acc :
  0 < w -> 0 <= acc -> Forall (fun b => 0 <= b < w) l ->
  0 <= fold_left (fun a b => a * w + b) l acc < (acc + 1) * w ^ Z.of_nat (length l).
Proof.
  intros Hw Ha H. revert acc Ha. induction H as [|b l Hb Hl IH]; intros acc Ha; cbn [fold_left length].
  - cbn. lia.
  - specialize (IH (acc * w + b) ltac:(nia)). rewrite Nat2Z.inj_succ, Z.pow_succ_r by lia.
    assert (0 < w ^ Z.of_nat (length l)) by (apply Z.pow_pos_nonneg; lia). nia.
Qed.

Lemma parse_octet_range s v : parse_octet s = Some v -> 0 <= v < 256.
Proof.
  unfold parse_octet. destruct (_ || _); [done|].
  destruct (parse_radix 10 0 s) as [n|] eqn:E; [|done]. destruct (n <=? 255) eqn:El; [|done].
  intros [= <-]. zbool. apply parse_radix_range in E; lia.
Qed.

Lemma parse_ipv4_range s b : parse_ipv4 s = Some b -> 0 <= b < 2 ^ 32.
Proof.
  unfold parse_ipv4. destruct (mapM parse_octet (split_on "." s)) as [l|] eqn:E; [|done].
  apply mapM_Some in E.
  assert (Hr : Forall (fun b => 0 <= b < 256) l).
  { clear -E. induction E; constructor; eauto using parse_octet_range. }
  destruct l as [|? [|? [|? [|? [|]]]]]; try done. intros [= <-].
  exact (fold_range 256 _ 0 ltac:(lia) ltac:(lia) Hr).
Qed.

Lemma parse_group_range s g : parse_group s = Some g -> 0 <= g < 65536.
Proof.
  unfold parse_group. destruct (str_is_empty s || _) eqn:E; [done|]. intros Hp.
  apply orb_false_elim in E as [_ E]. apply Nat.ltb_ge in E.
  apply parse_radix_range in Hp; [|lia|lia].
  assert (16 ^ Z.of_nat (String.length s) <= 16 ^ 4) by (apply Z.pow_le_mono_r; lia).
  change (16 ^ 4) with 65536 in *. lia.
Qed.

Lemma parse_groups_range allow l gs :
  parse_groups allow l = Some gs -> Forall (fun g => 0 <= g < 65536) gs.
Proof.
  revert gs. induction l as [|p l IH]; intros gs H; [by injection H as <-|].
  destruct l as [|q l].
  - cbn [parse_groups] in H. destruct (parse_group p) eqn:E.
    + injection H as <-. constructor; [by eapply parse_group_range|done].
    + destruct allow; [|done]. destruct (parse_ipv4 p) as [v4|] eqn:E4; [|done]. injection H as <-.
      apply parse_ipv4_range in E4. repeat constructor.
      * apply Z.shiftr_nonneg. lia.
      * rewrite Z.shiftr_div_pow2 by lia. apply Z.div_lt_upper_bound; lia.
      * apply (land_range v4 16). lia.
      * apply (land_range v4 16). lia.
  - change (match parse_group p, parse_groups allow (q :: l) with
            | Some g, Some gs => Some (g :: gs) | _, _ => None end = Some gs) in H.
    destruct (parse_group p) eqn:E; [|done]. destruct (parse_groups allow (q :: l)) eqn:E2; [|done].
    injection H as <-. constructor; [by eapply parse_group_range|by apply IH].
Qed.

Lemma parse_side_range allow s gs :
  parse_side allow s = Some gs -> Forall (fun g => 0 <= g < 65536) gs.
Proof.
  unfold parse_side. destruct (str_is_empty s); [intros [= <-]; constructor|]. apply parse_groups_range.
Qed.

Lemma combine_segments_range gs :
  length gs = 8%nat -> Forall (fun g => 0 <= g < 65536) gs -> 0 <= combine_segments gs < 2 ^ 128.
Proof.
  intros Hl Hr. pose proof (fold_range 65536 gs 0 ltac:(lia) ltac:(lia) Hr) as H.
  rewrite Hl in H. exact H.
Qed.

Lemma parse_ipv6_range s b : parse_ipv6 s = Some b -> 0 <= b < 2 ^ 128.
Proof.
  unfold parse_ipv6. destruct (split_double_colon s) as [[h t]|].
  - destruct (parse_side false h) as [hg|] eqn:Eh; [|done].
    destruct (parse_side true t) as [tg|] eqn:Et; [|done]. cbn zeta.
    destruct (Nat.leb_spec (length hg + length tg) 7); [|done]. intros [= <-].
    apply parse_side_range in Eh, Et. apply combine_segments_range.
    + rewrite !length_app, length_replicate. lia.
    + apply Forall_app. split; [done|]. apply Forall_app. split; [|done].
      apply Forall_replicate. lia.
  - destruct (parse_side true s) as [gs|] eqn:E; [|done]. destruct (Nat.eqb_spec (length gs) 8); [|done].
    intros [= <-]. apply combine_segments_range; [done|]. by eapply parse_side_range.
Qed.

Lemma parse_ip_wf s ip : parse_ip s = Some ip -> ip_wf ip.
Proof.
  unfold parse_ip. destruct (parse_ipv4 s) eqn:E4; [intros [= <-]; by eapply parse_ipv4_range|].
  destruct (parse_ipv6 s) eqn:E6; [|done]. intros [= <-]. by eapply parse_ipv6_range.
Qed.

(** ** Characters of an address *)

Definition ip_char (c : ascii) : bool := is_some (digit_val 16 c) || Ascii.eqb c "." || Ascii.eqb c ":".

Lemma str_forallb_impl (p q : ascii -> bool) s :
  (forall c, p c = true -> q c = true) -> str_forallb p s = true -> str_forallb q s = true.
Proof.
  intros Hpq. induction s as [|c s IH]; cbn; [done|]. intros H. apply andb_prop in H as [H1 H2].
  by rewrite Hpq, IH.
Qed.

Lemma dec_ip_chars n : str_forallb ip_char (dec n) = true.
Proof.
  apply radix_aux_digits; [|lia|done]. intros d Hd.
  exact (seq_range_check (fun d => ip_char (digit_char d)) 10 d eq_refl Hd).
Qed.

Lemma hex_ip_chars n : str_forallb ip_char (hex16 n) = true.
Proof.
  apply radix_aux_digits; [|lia|done]. intros d Hd.
  exact (seq_range_check (fun d => ip_char (digit_char d)) 16 d eq_refl Hd).
Qed.

Lemma join_ip_chars c f (l : list Z) :
  ip_char c = true -> (forall n, str_forallb ip_char (f n) = true) ->
  str_forallb ip_char (join_with c (map f l)) = true.
Proof.
  intros Hc Hf. apply str_forallb_join; [done|]. apply Forall_map, Forall_true. intros. apply Hf.
Qed.

Lemma ip_to_string_chars ip : str_forallb ip_char (ip_to_string ip) = true.
Proof.
  assert (H4 : forall b, str_forallb ip_char (ipv4_to_string b) = true).
  { intros b. apply join_ip_chars; [done|]. apply dec_ip_chars. }
  destruct ip as [b|b]; cbn [ip_to_string]; [apply H4|]. unfold ipv6_to_string.
  destruct (_ =? _); [rewrite str_forallb_append; by rewrite H4|].
  destruct (zero_runs _ _ _ _) as [start len]. destruct (Nat.ltb 1 len).
  - rewrite !str_forallb_append. rewrite !(join_ip_chars ":" hex16) by (done || apply hex_ip_chars). done.
  - apply join_ip_chars; [done|apply hex_ip_chars].
Qed.

Lemma ip_slash_free ip : char_free "/" (ip_to_string ip) = true.
Proof.
  eapply str_forallb_impl; [|apply ip_to_string_chars]. intros c Hc.
  destruct (Ascii.eqb_spec c "/") as [->|]; [by vm_compute in Hc|done].
Qed.

Lemma dec_slash_free n : char_free "/" (dec n) = true.
Proof.
  eapply str_forallb_impl; [|apply dec_digits]. intros c Hc.
  destruct (Ascii.eqb_spec c "/") as [->|]; [by vm_compute in Hc|done].
Qed.
