(* ===== verification/Net.v ===== *)
(** * Identifiers and multiaddresses

    [ShortId] of [id.rs], and the parser, the printer and the accessors of [Multiaddr]
    in [multiaddr.rs]. *)

From Stdlib Require Import Ascii.
From S2P Require Import Prelude Basics IpText.

(** ** ShortId *)

Definition ShortId_from_7 (id : list Z) : ShortId := 0 :: id.

(** Drops the trailing zero bytes: the slice up to the last non-zero byte. *)
Fixpoint trim_zeros (l : list Z) : list Z :=
  match l with
  | [] => []
  | b :: r => match trim_zeros r with
              | [] => if b =? 0 then [] else [b]
              | r' => b :: r'
              end
  end.

(** [String::from_utf8_lossy] on ASCII bytes, the only ones [FromStr] stores. *)
Definition ascii_of_byte (b : Z) : ascii := ascii_of_N (Z.to_N b).

Definition string_of_bytes (l : list Z) : string :=
  foldr (fun b s => String (ascii_of_byte b) s) "" l.

Definition is_valid_short_id (s : string) : bool :=
  negb (str_is_empty s) && Nat.leb (String.length s) 8
  && str_forallb (fun c => is_ascii_alphanumeric c || Ascii.eqb c "-") s.

Definition byte_range (b : Z) : Prop := 0 <= b <= u8_max.

(** The [hex] crate: [encode], and [decode_to_slice] into a slice of [n] bytes. *)
Class Hex : Type := {
  hex_encode : list Z -> string;
  hex_decode_to_slice : nat -> string -> option (list Z);
}.

(** Its documented behaviour: decoding fills the slice from exactly two digits per byte,
    and inverts encoding. *)
Class HexLaws (H : Hex) : Prop := {
  hex_decode_shape n s l :
    hex_decode_to_slice n s = Some l ->
    length l = n /\ Forall byte_range l /\ String.length s = (2 * n)%nat;
  hex_decode_encode l :
    Forall byte_range l -> hex_decode_to_slice (length l) (hex_encode l) = Some l;
}.

Section ShortIds.
Context `{H : Hex}.

Definition ShortId_to_string (id : ShortId) : string :=
  match id with
  | 0 :: rest => hex_encode rest
  | _ => string_of_bytes (trim_zeros id)
  end.

Definition ShortId_from_str (s : string) : result ShortId Error :=
  match hex_decode_to_slice 7 s with
  | Some l => Ok (0 :: l)
  | None =>
      let str := to_ascii_lowercase s in
      if negb (is_valid_short_id str) then Err (InvalidShortId s)
      else let bytes := as_bytes str in
           let len := Nat.min (length bytes) 8 in
           Ok (take len bytes ++ replicate (8 - len) 0)
  end.
End ShortIds.

(** ** Multiaddr accessors *)

Definition is_tls (m : Multiaddr) : bool :=
  existsb (fun p => match p with Tls => true | _ => false end) (protocols m).
Definition is_http (m : Multiaddr) : bool :=
  existsb (fun p => match p with Http _ => true | _ => false end) (protocols m).
Definition is_udp (m : Multiaddr) : bool :=
  existsb (fun p => match p with Udp _ => true | _ => false end) (protocols m).
Definition is_quic (m : Multiaddr) : bool :=
  existsb (fun p => match p with Quic => true | _ => false end) (protocols m).

(** [Iterator::find_map]. *)
Fixpoint find_map {A B} (f : A -> option B) (l : list A) : option B :=
  match l with
  | [] => None
  | a :: r => match f a with Some b => Some b | None => find_map f r end
  end.

Definition ok_or {A E} (o : option A) (e : E) : result A E :=
  match o with Some a => Ok a | None => Err e end.

(** [str::split_once]. *)
Fixpoint split_once (c : ascii) (s : string) : option (string * string) :=
  match s with
  | EmptyString => None
  | String a r =>
      if Ascii.eqb a c then Some (EmptyString, r)
      else match split_once c r with
           | Some (x, y) => Some (String a x, y)
           | None => None
           end
  end.

(** [rest.split_once('/').unwrap_or((rest, ""))]. *)
Definition next_segment (rest : string) : string * string :=
  match split_once "/" rest with Some p => p | None => (rest, "") end.

(** ** Display *)

Definition http_segment (tls : bool) (path : string) : string :=
  String.append (if tls then "/https" else "/http") (if String.eqb path "/" then "" else path).

(** Writes one protocol segment of an address with the given [is_http] and [is_tls]. *)
Definition write_protocol (http tls : bool) (p : Protocol) : string :=
  match p with
  | Dns host => String.append "/dns/" host
  | Ip (V4 a) => String.append "/ip4/" (ip_to_string (V4 a))
  | Ip (V6 a) => String.append "/ip6/" (ip_to_string (V6 a))
  | Tcp port => String.append "/tcp/" (dec port)
  | Udp port => String.append "/udp/" (dec port)
  | Tls => if http then "" else "/tls"
  | Http path => http_segment tls path
  | Quic => "/quic"
  end.

Definition write_protocols (http tls : bool) (l : list Protocol) : string :=
  foldr (fun p s => String.append (write_protocol http tls p) s) "" l.

Definition Multiaddr_to_string (m : Multiaddr) : string :=
  write_protocols (is_http m) (is_tls m) (protocols m).

Definition ip_addr (m : Multiaddr) : result IpAddr Error :=
  ok_or (find_map (fun p => match p with Ip a => Some a | _ => None end) (protocols m))
    (InvalidMultiaddr (Multiaddr_to_string m)).

Definition port (m : Multiaddr) : result Z Error :=
  ok_or (find_map (fun p => match p with Tcp n | Udp n => Some n | _ => None end) (protocols m))
    (InvalidMultiaddr (Multiaddr_to_string m)).

Definition host (m : Multiaddr) : result string Error :=
  ok_or (find_map (fun p => match p with Dns h => Some h | Ip a => Some (ip_to_string a) | _ => None end)
           (protocols m))
    (InvalidMultiaddr (Multiaddr_to_string m)).

Definition SocketAddr : Type := IpAddr * Z.

Definition socket_addr (m : Multiaddr) : result SocketAddr Error :=
  let? ip := ip_addr m in
  let? p := port m in
  Ok (ip, p).

Definition protocol_name (m : Multiaddr) : string :=
  match is_udp m, is_http m, is_tls m, is_quic m with
  | _, false, _, true => "QUIC"
  | _, true, _, true => "HTTP over QUIC"
  | true, _, _, _ => "UDP"
  | false, true, true, _ => "HTTPS"
  | false, true, false, _ => "HTTP"
  | false, false, true, _ => "TCP over TLS"
  | false, false, false, _ => "TCP"
  end.

(** ** FromStr

    One turn of the loop reads one protocol name and its argument from [rest]; an unknown
    name is skipped.  Each turn shortens [rest], so the length of the text is enough
    fuel. *)
Fixpoint parse_protocols (fuel : nat) (s rest : string) (acc : list Protocol)
  : result (list Protocol) Error :=
  match fuel with
  | O => Ok acc
  | S f =>
      if str_is_empty rest then Ok acc
      else
        let '(protocol, next) := next_segment rest in
        let '(arg, after) := next_segment next in
        if String.eqb protocol "dns" then parse_protocols f s after (acc ++ [Dns arg])
        else if String.eqb protocol "ip4" || String.eqb protocol "ip6" then
          match parse_ip arg with
          | Some a => parse_protocols f s after (acc ++ [Ip a])
          | None => Err (InvalidMultiaddr s)
          end
        else if String.eqb protocol "tcp" then
          match parse_uint u16_max arg with
          | Some p => parse_protocols f s after (acc ++ [Tcp p])
          | None => Err (InvalidMultiaddr s)
          end
        else if String.eqb protocol "tls" then parse_protocols f s next (acc ++ [Tls])
        else if String.eqb protocol "quic" then parse_protocols f s next (acc ++ [Quic])
        else if String.eqb protocol "http" then Ok (acc ++ [Http (String "/" next)])
        else if String.eqb protocol "https" then Ok (acc ++ [Tls; Http (String "/" next)])
        else if String.eqb protocol "udp" then
          match parse_uint u16_max arg with
          | Some p => parse_protocols f s after (acc ++ [Udp p])
          | None => Err (InvalidMultiaddr s)
          end
        else parse_protocols f s next acc
  end.

Definition Multiaddr_from_str (s : string) : result Multiaddr Error :=
  let? l := parse_protocols (S (String.length s)) s (trim_start_matches (Ascii.eqb "/") s) [] in
  Ok (mkMultiaddr l).

Example multiaddr_examples :
  map (fun s => option_map (fun m => (Multiaddr_to_string m, protocol_name m)) (ok (Multiaddr_from_str s)))
    ["/ip4/127.0.0.1/tcp/8080"; "/dns/example.com/tcp/443/https/a/b"; "/tls/tcp/80/http"; "/ip6/::1/udp/53";
     "/tcp/70000"; "tcp/80/bogus/tls"; "/http/"]
  = [Some ("/ip4/127.0.0.1/tcp/8080", "TCP"); Some ("/dns/example.com/tcp/443/https/a/b", "HTTPS");
     Some ("/tcp/80/https", "HTTPS"); Some ("/ip6/::1/udp/53", "UDP"); None; Some ("/tcp/80/tls", "TCP over TLS");
     Some ("/http", "HTTP")].
Proof. vm_compute. reflexivity. Qed.

(** ** Facts on the parser and the printer *)

Definition protocol_wf (p : Protocol) : Prop :=
  match p with
  | Dns h => char_free "/" h = true
  | Ip a => ip_wf a
  | Tcp n | Udp n => 0 <= n <= u16_max
  | Http path => starts_with "/" path = true
  | Tls | Quic => True
  end.

(** Well-formed protocol lists; the HTTP segment takes the rest of the text, so it is
    the last one. *)
Fixpoint protocols_wf (l : list Protocol) : Prop :=
  match l with
  | [] => True
  | p :: r => protocol_wf p /\ (match p with Http _ => r = [] | _ => True end) /\ protocols_wf r
  end.

(** What the printed text says: the TLS segments of an HTTP address move into its scheme. *)
Definition canonical_protocol (http tls : bool) (p : Protocol) : list Protocol :=
  match p with
  | Tls => if http then [] else [Tls]
  | Http path => if tls then [Tls; Http path] else [Http path]
  | _ => [p]
  end.

Definition canonical (m : Multiaddr) : Multiaddr :=
  mkMultiaddr (flat_map (canonical_protocol (is_http m) (is_tls m)) (protocols m)).

(** Drops one leading slash. *)
Definition strip_slash (s : string) : string :=
  match s with String "/" r => r | _ => s end.

Definition slashed (s : string) : Prop := s = "" \/ exists r, s = String "/" r.

Lemma next_segment_spec a b :
  char_free "/" a = true -> slashed b -> next_segment (String.append a b) = (a, strip_slash b).
Proof.
  unfold next_segment. intros Ha Hb.
  assert (Hs : split_once "/" (String.append a b)
               = match b with String _ r => Some (a, r) | EmptyString => None end).
  { induction a as [|c a IH].
    - destruct Hb as [->|[r ->]]; done.
    - cbn in Ha. apply andb_prop in Ha as [Hc Ha]. cbn. apply negb_true_iff in Hc. rewrite Hc.
      rewrite IH by done. by destruct b. }
  rewrite Hs. destruct Hb as [->|[r ->]]; [by rewrite append_nil_r|done].
Qed.

Lemma slashed_write h t l : slashed (write_protocols h t l).
Proof.
  induction l as [|p l IH]; [by left|]. cbn [write_protocols foldr].
  destruct p as [s|[b|b]|n|n| |s|]; try (right; eexists; reflexivity).
  - destruct h; [exact IH|right; eexists; reflexivity].
  - right. unfold http_segment. destruct t; eexists; reflexivity.
Qed.

Lemma parse_protocols_arg f s name arg b acc :
  char_free "/" name = true -> name <> "" -> char_free "/" arg = true -> slashed b ->
  parse_protocols (S f) s (String.append name (String "/" (String.append arg b))) acc
  = (if String.eqb name "dns" then parse_protocols f s (strip_slash b) (acc ++ [Dns arg])
     else if String.eqb name "ip4" || String.eqb name "ip6" then
       match parse_ip arg with
       | Some a => parse_protocols f s (strip_slash b) (acc ++ [Ip a])
       | None => Err (InvalidMultiaddr s)
       end
     else if String.eqb name "tcp" then
       match parse_uint u16_max arg with
       | Some p => parse_protocols f s (strip_slash b) (acc ++ [Tcp p])
       | None => Err (InvalidMultiaddr s)
       end
     else if String.eqb name "udp" then
       match parse_uint u16_max arg with
       | Some p => parse_protocols f s (strip_slash b) (acc ++ [Udp p])
       | None => Err (InvalidMultiaddr s)
       end
     else parse_protocols (S f) s (String.append name (String "/" (String.append arg b))) acc).
Proof.
  intros Hn Hne Ha Hb. cbn [parse_protocols].
  assert (Hemp : str_is_empty (String.append name (String "/" (String.append arg b))) = false)
    by (by destruct name).
  rewrite Hemp, next_segment_spec by (done || (right; by eexists)).
  cbn [strip_slash]. rewrite next_segment_spec by done.
  repeat match goal with |- context [if String.eqb name ?x then _ else _] =>
    destruct (String.eqb_spec name x); [by subst|] end; try done.
  destruct (String.eqb_spec name "ip4"); [by subst|]. destruct (String.eqb_spec name "ip6"); [by subst|].
  cbn. repeat match goal with |- context [if String.eqb name ?x then _ else _] =>
    destruct (String.eqb_spec name x); [by subst|] end; done.
Qed.

Lemma strip_append_arg name arg b :
  strip_slash (String.append (String "/" (String.append name (String "/" arg))) b)
  = String.append name (String "/" (String.append arg b)).
Proof. cbn. rewrite <-append_assoc. done. Qed.

Lemma str_length_append a b : String.length (String.append a b) = (String.length a + String.length b)%nat.
Proof. induction a as [|c a IH]; cbn; [done|]. by rewrite IH. Qed.

Lemma strip_slash_length b : (String.length (strip_slash b) <= String.length b)%nat.
Proof. unfold strip_slash. repeat case_match; cbn; lia. Qed.

(** A name without an argument. *)
Lemma parse_protocols_name f s name b acc p :
  (name = "tls" /\ p = Tls) \/ (name = "quic" /\ p = Quic) -> slashed b ->
  parse_protocols (S f) s (String.append name b) acc
  = parse_protocols f s (strip_slash b) (acc ++ [p]).
Proof.
  intros Hn Hb. cbn [parse_protocols].
  assert (Hemp : str_is_empty (String.append name b) = false) by (by destruct Hn as [[-> _]|[-> _]]).
  rewrite Hemp, next_segment_spec by (done || by destruct Hn as [[-> _]|[-> _]]).
  destruct (next_segment (strip_slash b)) as [arg after].
  by destruct Hn as [[-> ->]|[-> ->]].
Qed.

(** The HTTP segment reads the whole rest of the text as its path. *)
Lemma parse_protocols_http f s (tls : bool) path acc :
  starts_with "/" path = true ->
  parse_protocols (S f) s (strip_slash (http_segment tls path)) acc
  = Ok (acc ++ if tls then [Tls; Http path] else [Http path]).
Proof.
  intros Hp. destruct path as [|c r]; [done|].
  assert (c = "/"%char) as ->.
  { unfold starts_with in Hp. destruct (Ascii.eqb_spec "/" c); done. }
  unfold http_segment.
  destruct (String.eqb_spec (String "/" r) "/") as [E|E].
  - injection E as ->. destruct tls; done.
  - destruct tls; cbn [strip_slash String.append parse_protocols str_is_empty].
    + assert (Hn := next_segment_spec "https" (String "/" r) eq_refl (or_intror (ex_intro _ r eq_refl))).
      cbn [String.append] in Hn. rewrite Hn. cbn [strip_slash].
      by destruct (next_segment r).
    + assert (Hn := next_segment_spec "http" (String "/" r) eq_refl (or_intror (ex_intro _ r eq_refl))).
      cbn [String.append] in Hn. rewrite Hn. cbn [strip_slash].
      by destruct (next_segment r).
Qed.

Lemma write_cons h t p l :
  write_protocols h t (p :: l) = String.append (write_protocol h t p) (write_protocols h t l).
Proof. done. Qed.

(** The name and the argument of a protocol that has one. *)
Definition arg_text (p : Protocol) : option (string * string) :=
  match p with
  | Dns host => Some ("dns", host)
  | Ip (V4 a) => Some ("ip4", ip_to_string (V4 a))
  | Ip (V6 a) => Some ("ip6", ip_to_string (V6 a))
  | Tcp port => Some ("tcp", dec port)
  | Udp port => Some ("udp", dec port)
  | Tls | Quic | Http _ => None
  end.

Lemma arg_text_written h t p name arg :
  arg_text p = Some (name, arg) ->
  write_protocol h t p = String "/" (String.append name (String "/" arg)) /\ canonical_protocol h t p = [p].
Proof. destruct p as [hst|[a|a]|n|n| |path|]; intros [= <- <-]; done. Qed.

(** A protocol with an argument is read back. *)
Lemma parse_written_arg p name arg b f s acc :
  arg_text p = Some (name, arg) -> protocol_wf p -> slashed b ->
  parse_protocols (S f) s (String.append name (String "/" (String.append arg b))) acc
  = parse_protocols f s (strip_slash b) (acc ++ [p]).
Proof.
  intros Ha Hp Hb. destruct p as [hst|[a|a]|n|n| |path|]; try done; apply (inj Some), pair_equal_spec in Ha as [<- <-];
    rewrite parse_protocols_arg by (done || apply ip_slash_free || apply dec_slash_free); cbn [orb String.eqb].
  - done.
  - by rewrite ip_roundtrip.
  - by rewrite ip_roundtrip.
  - cbn in Hp. by rewrite parse_uint_dec by (done || (unfold u16_max, u64_max in *; lia)).
  - cbn in Hp. by rewrite parse_uint_dec by (done || (unfold u16_max, u64_max in *; lia)).
Qed.

(** One protocol before text that reads back. *)
Lemma parse_written_step h t p l f s acc :
  protocols_wf (p :: l) ->
  (forall f acc, (String.length (strip_slash (write_protocols h t l)) < f)%nat ->
     parse_protocols f s (strip_slash (write_protocols h t l)) acc
     = Ok (acc ++ flat_map (canonical_protocol h t) l)) ->
  let b := write_protocols h t l in
  (String.length (strip_slash (String.append (write_protocol h t p) b)) < S f)%nat ->
  parse_protocols (S f) s (strip_slash (String.append (write_protocol h t p) b)) acc
  = Ok (acc ++ flat_map (canonical_protocol h t) (p :: l)).
Proof.
  intros (Hp & Hlast & _) IH b Hf. pose proof (slashed_write h t l : slashed b) as Hb.
  pose proof (strip_slash_length b) as Hsl. cbn [flat_map].
  destruct (arg_text p) as [[name arg]|] eqn:Ea.
  { destruct (arg_text_written h t p name arg Ea) as [Ew Ec].
    rewrite Ew, strip_append_arg in *. rewrite !str_length_append in Hf. cbn in Hf. rewrite str_length_append in Hf.
    rewrite (parse_written_arg p), Ec, IH by (done || (fold b; lia)). by rewrite <-app_assoc. }
  assert (Hname : forall name q, (name = "tls" /\ q = Tls) \/ (name = "quic" /\ q = Quic) ->
    write_protocol h t p = String "/" name -> canonical_protocol h t p = [q] ->
    parse_protocols (S f) s (strip_slash (String.append (write_protocol h t p) b)) acc
    = Ok (acc ++ canonical_protocol h t p ++ flat_map (canonical_protocol h t) l)).
  { intros name q Hn Ew Ec. rewrite Ew, Ec in *. cbn [String.append strip_slash] in *.
    rewrite str_length_append in Hf. rewrite (parse_protocols_name f s name b acc q) by done.
    rewrite IH by (fold b; destruct Hn as [[-> _]|[-> _]]; cbn in Hf; lia). by rewrite <-app_assoc. }
  destruct p as [hst|[a|a]|n|n| |path|]; try done.
  - destruct h; [|by apply (Hname "tls" Tls); auto]. by apply IH.
  - cbn in Hlast. subst l. unfold b. cbn [write_protocol write_protocols foldr].
    rewrite append_nil_r, parse_protocols_http by done. cbn. by destruct t.
  - apply (Hname "quic" Quic); auto.
Qed.

Lemma parse_written h t l f s acc :
  protocols_wf l ->
  (String.length (strip_slash (write_protocols h t l)) < f)%nat ->
  parse_protocols f s (strip_slash (write_protocols h t l)) acc
  = Ok (acc ++ flat_map (canonical_protocol h t) l).
Proof.
  revert f acc. induction l as [|p l IH]; intros f acc Hwf Hf.
  { destruct f; cbn; by rewrite app_nil_r. }
  destruct f as [|f]; [lia|]. rewrite write_cons in *. apply parse_written_step; [done| |done].
  intros f' acc' Hf'. by apply IH; [apply Hwf|].
Qed.

Lemma split_once_spec c s x y :
  split_once c s = Some (x, y) ->
  char_free c x = true /\ s = String.append x (String c y).
Proof.
  revert x y. induction s as [|a s IH]; intros x y H; [done|]. cbn in H.
  destruct (Ascii.eqb_spec a c) as [->|Hne]; [by simplify_eq|].
  destruct (split_once c s) as [[x' y']|] eqn:E; simplify_eq. destruct (IH _ _ eq_refl) as [Hf ->].
  split; [|done]. cbn. apply andb_true_intro. split; [|done].
  destruct (Ascii.eqb_spec a c); done.
Qed.

Lemma split_once_none c s : split_once c s = None -> char_free c s = true.
Proof.
  induction s as [|a s IH]; intros H; [done|]. cbn in *.
  destruct (Ascii.eqb a c); [done|]. destruct (split_once c s) as [[]|]; [done|]. by apply IH.
Qed.

(** A segment has no slash, and what follows it is no longer than the text. *)
Lemma next_segment_free s x y :
  next_segment s = (x, y) ->
  char_free "/" x = true /\ (String.length y <= String.length s)%nat
  /\ (s <> "" -> (String.length y < String.length s)%nat).
Proof.
  unfold next_segment. destruct (split_once "/" s) as [[a b]|] eqn:E; intros H; simplify_eq.
  - destruct (split_once_spec _ _ _ _ E) as [Hf ->]. rewrite str_length_append. cbn. split; [done|]. lia.
  - apply split_once_none in E. split; [done|]. destruct x; cbn; split; done || lia.
Qed.

Lemma protocols_wf_snoc l p :
  protocols_wf l -> Forall (fun q => match q with Http _ => False | _ => True end) l ->
  protocol_wf p -> protocols_wf (l ++ [p]).
Proof.
  induction l as [|q l IH]; cbn; intros Hl Hh Hp; [by repeat split; destruct p|].
  inversion Hh; subst. destruct Hl as (? & ? & ?). repeat split; auto. by destruct q.
Qed.

(** What the loop has pushed so far: well formed, and with no HTTP segment yet. *)
Definition pending (l : list Protocol) : Prop :=
  protocols_wf l /\ Forall (fun q => match q with Http _ => False | _ => True end) l.

Lemma pending_snoc l p :
  pending l -> protocol_wf p -> (forall path, p <> Http path) -> pending (l ++ [p]).
Proof.
  intros [Hl Hh] Hp Hn. split; [by apply protocols_wf_snoc|].
  apply Forall_app. split; [done|]. constructor; [|done]. destruct p; try done. by apply (Hn path).
Qed.

Lemma parse_protocols_wf fuel s rest acc l :
  pending acc -> parse_protocols fuel s rest acc = Ok l -> protocols_wf l.
Proof.
  revert rest acc. induction fuel as [|f IH]; intros rest acc Hacc H; cbn [parse_protocols] in H.
  { injection H as <-. apply Hacc. }
  destruct (str_is_empty rest); [injection H as <-; apply Hacc|].
  destruct (next_segment rest) as [name next]. destruct (next_segment next) as [arg after] eqn:Ea.
  apply next_segment_free in Ea as [Harg _].
  assert (Hhttp : forall path, protocols_wf (acc ++ [Http (String "/" path)])).
  { intros path. by apply protocols_wf_snoc; [apply Hacc..|]. }
  repeat match type of H with
  | (if ?b then _ else _) = _ => destruct b
  | match parse_ip ?a with _ => _ end = _ => destruct (parse_ip a) eqn:?
  | match parse_uint ?m ?a with _ => _ end = _ => destruct (parse_uint m a) eqn:?
  | Err _ = Ok _ => done
  end;
  try (eapply IH; [|exact H]; try done; apply pending_snoc;
       [done|cbn; eauto using parse_ip_wf, parse_uint_range|done]).
  - injection H as <-. apply Hhttp.
  - injection H as <-. change [Tls; Http (String "/" next)] with ([Tls] ++ [Http (String "/" next)]).
    rewrite app_assoc. apply protocols_wf_snoc; [| |done]; by apply pending_snoc.
  - by eapply IH.
Qed.

(** Fuel beyond the length of the text changes nothing. *)
Lemma parse_protocols_fuel f1 f2 s rest acc :
  (String.length rest < f1)%nat -> (String.length rest < f2)%nat ->
  parse_protocols f1 s rest acc = parse_protocols f2 s rest acc.
Proof.
  revert f2 rest acc. induction f1 as [|f1 IH]; intros f2 rest acc H1 H2; [lia|].
  destruct f2 as [|f2]; [lia|]. cbn [parse_protocols].
  destruct (str_is_empty rest) eqn:Er; [done|].
  destruct (next_segment rest) as [name next] eqn:En. destruct (next_segment next) as [arg after] eqn:Ea.
  apply next_segment_free in En as (_ & _ & Hn). apply next_segment_free in Ea as (_ & Ha & _).
  assert (rest <> "") by (by intros ->). specialize (Hn ltac:(done)).
  assert (Hr : forall r q, (String.length r <= String.length next)%nat ->
                 parse_protocols f1 s r q = parse_protocols f2 s r q).
  { intros r q Hr. apply IH; lia. }
  repeat match goal with
  | |- (if ?b then _ else _) = _ => destruct b
  | |- match ?o with Some _ => _ | None => _ end = _ => destruct o
  end; try done; apply Hr; lia.
Qed.

Lemma existsb_flat_http h t l :
  existsb (fun p => match p with Http _ => true | _ => false end)
    (flat_map (canonical_protocol h t) l)
  = existsb (fun p => match p with Http _ => true | _ => false end) l.
Proof.
  induction l as [|p l IH]; [done|]. cbn [flat_map existsb]. rewrite existsb_app, IH.
  destruct p; try done; cbn; destruct h, t; done.
Qed.

Lemma canonical_is_http m : is_http (canonical m) = is_http m.
Proof. unfold canonical, is_http at 1. cbn [protocols]. apply existsb_flat_http. Qed.

Lemma existsb_flat_tls h t l :
  existsb (fun p => match p with Tls => true | _ => false end) (flat_map (canonical_protocol h t) l)
  = negb h && existsb (fun p => match p with Tls => true | _ => false end) l
    || t && existsb (fun p => match p with Http _ => true | _ => false end) l.
Proof.
  induction l as [|p l IH]; cbn [flat_map existsb]; [by destruct h, t|]. rewrite existsb_app, IH.
  destruct p, h, t; cbn; try done;
    destruct (existsb (fun p => match p with Tls => true | _ => false end) l),
             (existsb (fun p => match p with Http _ => true | _ => false end) l); done.
Qed.

Lemma canonical_is_tls m : is_tls (canonical m) = is_tls m.
Proof.
  unfold canonical, is_tls at 1. cbn [protocols]. rewrite existsb_flat_tls.
  fold (is_tls m) (is_http m). by destruct (is_tls m), (is_http m).
Qed.

Lemma write_canonical h t l :
  (h = false -> existsb (fun p => match p with Http _ => true | _ => false end) l = false) ->
  write_protocols h t (flat_map (canonical_protocol h t) l) = write_protocols h t l.
Proof.
  unfold write_protocols. intros Hh. induction l as [|p l IH]; [done|]. cbn [flat_map]. rewrite foldr_app.
  rewrite IH by (intros E; specialize (Hh E); cbn in Hh; by apply orb_false_elim in Hh as [_ ?]).
  destruct p; try done; cbn [canonical_protocol].
  - by destruct h.
  - destruct h; [|specialize (Hh eq_refl); by cbn in Hh]. by destruct t.
Qed.

Lemma canonical_to_string m : Multiaddr_to_string (canonical m) = Multiaddr_to_string m.
Proof.
  unfold Multiaddr_to_string. rewrite canonical_is_http, canonical_is_tls.
  by apply write_canonical.
Qed.

Lemma trim_start_length p s : (String.length (trim_start_matches p s) <= String.length s)%nat.
Proof. induction s as [|c s IH]; cbn; [lia|]. destruct (p c); cbn; lia. Qed.

Lemma trim_slashed b :
  slashed b -> starts_with "/" (strip_slash b) = false ->
  trim_start_matches (Ascii.eqb "/") b = strip_slash b.
Proof.
  intros [->|[r ->]]; [done|]. cbn [strip_slash]. intros H. destruct r as [|c r]; [done|].
  cbn [starts_with] in H. rewrite andb_true_r in H. cbn [trim_start_matches].
  change (Ascii.eqb "/" "/") with true. cbn iota. by rewrite H.
Qed.

Lemma write_single_slash h t l : starts_with "/" (strip_slash (write_protocols h t l)) = false.
Proof.
  induction l as [|p l IH]; [done|]. rewrite write_cons.
  destruct p as [s|[b|b]|n|n| |s|]; try done.
  - by destruct h.
  - cbn [write_protocol]. unfold http_segment. by destruct t.
Qed.

Lemma from_str_to_string m :
  protocols_wf (protocols m) -> Multiaddr_from_str (Multiaddr_to_string m) = Ok (canonical m).
Proof.
  intros Hwf. unfold Multiaddr_from_str. unfold Multiaddr_to_string at 1 3.
  rewrite trim_slashed by (apply slashed_write || apply write_single_slash).
  rewrite parse_written; [done|done|]. pose proof (strip_slash_length (Multiaddr_to_string m)) as Hl.
  unfold Multiaddr_to_string in *. lia.
Qed.

(** Every address [Multiaddr::from_str] accepts prints as a text that [from_str] accepts
    again.  The second reading is the canonical form of the first (the TLS segments of an
    HTTP address fold into its [https] scheme): it has the same text, the same HTTP and TLS
    flags, and reading it once more changes nothing.  The bound on the number of turns of the
    parser's loop is never reached: more turns give the same outcome. *)
Theorem multiaddr_roundtrip s m :
  Multiaddr_from_str s = Ok m ->
  Multiaddr_from_str (Multiaddr_to_string m) = Ok (canonical m)
  /\ Multiaddr_to_string (canonical m) = Multiaddr_to_string m
  /\ is_http (canonical m) = is_http m /\ is_tls (canonical m) = is_tls m
  /\ (forall extra,
        parse_protocols (S (String.length s) + extra) s (trim_start_matches (Ascii.eqb "/") s) []
        = Ok (protocols m)).
Proof.
  intros Hs. unfold Multiaddr_from_str in Hs.
  destruct (parse_protocols _ _ _ _) as [l|e] eqn:E; [|done]. cbn in Hs. injection Hs as <-.
  repeat split.
  - apply from_str_to_string. cbn. eapply parse_protocols_wf; [|exact E]. by split.
  - apply canonical_to_string.
  - apply canonical_is_http.
  - apply canonical_is_tls.
  - intros extra. cbn [protocols]. rewrite <-E. pose proof (trim_start_length (Ascii.eqb "/") s).
    apply parse_protocols_fuel; lia.
Qed.

Lemma multiaddr_roundtrip_witness :
  exists m, Multiaddr_from_str "/tls/dns/a.io/tcp/443/http/x" = Ok m
    /\ Multiaddr_to_string m = "/dns/a.io/tcp/443/https/x"
    /\ Multiaddr_from_str (Multiaddr_to_string m) = Ok (canonical m) /\ canonical m <> m.
Proof.
  eexists. split; [reflexivity|]. split; [vm_compute; reflexivity|]. split.
  - apply (multiaddr_roundtrip "/tls/dns/a.io/tcp/443/http/x"). reflexivity.
  - by vm_compute.
Defined.

(** ** Facts on identifiers *)

Definition id_byte (b : Z) : Prop := 0 < b <= u8_max.

Lemma trim_zeros_pad l k : Forall id_byte l -> trim_zeros (l ++ replicate k 0) = l.
Proof.
  induction 1 as [|b l Hb Hl IH]; cbn [app trim_zeros].
  { induction k as [|k IH]; [done|]. cbn. by rewrite IH. }
  rewrite IH. destruct l; [|done]. destruct (Z.eqb_spec b 0); [unfold id_byte in *; lia|done].
Qed.

Lemma string_of_as_bytes s : string_of_bytes (as_bytes s) = s.
Proof.
  induction s as [|c s IH]; [done|]. cbn. unfold string_of_bytes, as_bytes in IH. rewrite IH.
  unfold ascii_of_byte, byte_of. rewrite N2Z.id. by rewrite ascii_N_embedding.
Qed.

Lemma as_bytes_length s : length (as_bytes s) = String.length s.
Proof. induction s as [|c s IH]; [done|]. cbn. unfold as_bytes in IH. by rewrite IH. Qed.

Lemma valid_id_bytes s : is_valid_short_id s = true -> Forall id_byte (as_bytes s).
Proof.
  unfold is_valid_short_id. intros H. zbool. clear H H1.
  induction s as [|c s IH]; [constructor|]. cbn in H0. zbool. constructor; [|by apply IH].
  clear -H. revert H. destruct c as [[] [] [] [] [] [] [] []]; vm_compute; intuition (done || congruence).
Qed.

Lemma lower_idemp s : to_ascii_lowercase (to_ascii_lowercase s) = to_ascii_lowercase s.
Proof.
  induction s as [|c s IH]; [done|]. cbn. rewrite IH. f_equal.
  by destruct c as [[] [] [] [] [] [] [] []].
Qed.

(** Every identifier [ShortId::from_str] accepts prints as a text that reads back as the
    same identifier, in both of its forms: seven bytes in hexadecimal, or up to eight
    characters, which are stored in lower case.  An accepted identifier has eight bytes. *)
Theorem short_id_roundtrip `{HexLaws} s id :
  ShortId_from_str s = Ok id ->
  length id = 8%nat /\ Forall byte_range id /\ ShortId_from_str (ShortId_to_string id) = Ok id.
Proof.
  unfold ShortId_from_str at 1. destruct (hex_decode_to_slice 7 s) as [l|] eqn:E.
  - intros [= <-]. apply hex_decode_shape in E as (Hl & Hb & _).
    repeat split; [by cbn; rewrite Hl|constructor; [done|exact Hb]|].
    unfold ShortId_from_str, ShortId_to_string. rewrite <-Hl, hex_decode_encode by done. done.
  - clear E. set (t := to_ascii_lowercase s). destruct (is_valid_short_id t) eqn:Hv; [|done]. cbn zeta.
    intros [= <-]. pose proof (valid_id_bytes _ Hv) as Hb. pose proof (as_bytes_length t) as Hlen.
    assert (Hle : (String.length t <= 8)%nat /\ t <> "").
    { unfold is_valid_short_id in Hv. zbool. split; [by apply Nat.leb_le|by intros ->]. }
    rewrite Nat.min_l, firstn_all by lia.
    set (id := as_bytes t ++ replicate (8 - length (as_bytes t)) 0).
    assert (Ht : ShortId_to_string id = t).
    { transitivity (string_of_bytes (trim_zeros id)).
      - unfold ShortId_to_string, id. destruct (as_bytes t) as [|b r] eqn:Eb.
        + by destruct t.
        + inversion Hb as [|? ? Hb0 _]; subst. unfold id_byte in Hb0. cbn [app].
          destruct b; [lia|done|done].
      - unfold id. rewrite trim_zeros_pad by done. apply string_of_as_bytes. }
    repeat split.
    + unfold id. rewrite length_app, length_replicate. lia.
    + apply Forall_app. split; [|apply Forall_replicate; done].
      eapply Forall_impl; [exact Hb|]. unfold id_byte, byte_range. cbn. lia.
    + rewrite Ht. unfold ShortId_from_str. destruct (hex_decode_to_slice 7 t) as [l|] eqn:E.
      { apply hex_decode_shape in E as (_ & _ & E). lia. }
      assert (Hlow : to_ascii_lowercase t = t) by apply lower_idemp. rewrite Hlow, Hv.
      cbn zeta. cbn [negb]. by rewrite Nat.min_l, firstn_all by lia.
Qed.

(** A concrete [hex] implementation, for the witness. *)
Definition hex_byte (b : Z) : string :=
  String (digit_char (b / 16)) (String (digit_char (b mod 16)) "").

Fixpoint hex_decode (n : nat) (s : string) : option (list Z) :=
  match n, s with
  | O, EmptyString => Some []
  | S k, String a (String b r) =>
      match digit_val 16 a, digit_val 16 b, hex_decode k r with
      | Some x, Some y, Some l => Some (x * 16 + y :: l)
      | _, _, _ => None
      end
  | _, _ => None
  end.

Definition plain_hex : Hex :=
  {| hex_encode l := foldr String.append "" (map hex_byte l); hex_decode_to_slice := hex_decode |}.

Lemma digit_val_char16 d : 0 <= d < 16 -> digit_val 16 (digit_char d) = Some d.
Proof.
  intros H.
  assert (Hc := seq_range_check
    (fun x => match digit_val 16 (digit_char x) with Some y => y =? x | None => false end) 16 d
    ltac:(by vm_compute) H).
  cbn beta in Hc. destruct (digit_val 16 (digit_char d)); [|done]. by apply Z.eqb_eq in Hc as ->.
Qed.

#[export] Instance plain_hex_laws : HexLaws plain_hex.
Proof.
  split; cbn.
  - induction n as [|n IH]; intros s l Hs.
    + destruct s; [|done]. cbn in Hs. injection Hs as <-. repeat split; [constructor].
    + destruct s as [|a [|b r]]; try done. cbn in Hs.
      destruct (digit_val 16 a) as [x|] eqn:Ex; [|done]. destruct (digit_val 16 b) as [y|] eqn:Ey; [|done].
      destruct (hex_decode n r) as [l'|] eqn:El; [|done]. injection Hs as <-.
      apply digit_val_range in Ex, Ey. destruct (IH _ _ El) as (Hl & Hb & Hr).
      repeat split; [by cbn; rewrite Hl| |cbn; lia]. constructor; [unfold byte_range, u8_max; lia|done].
  - induction 1 as [|b l Hb Hl IH]; [done|]. cbn. rewrite IH. unfold byte_range, u8_max in Hb.
    rewrite !digit_val_char16 by (split; [apply Z.div_pos || apply Z.mod_pos_bound; lia|];
      apply Z.div_lt_upper_bound || apply Z.mod_pos_bound; lia).
    do 2 f_equal. pose proof (Z.div_mod b 16). lia.
Qed.

Lemma short_id_roundtrip_witness :
  exists id, ShortId_from_str (H := plain_hex) "Web-01" = Ok id
    /\ ShortId_to_string (H := plain_hex) id = "web-01"
    /\ ShortId_from_str (H := plain_hex) (ShortId_to_string (H := plain_hex) id) = Ok id.
Proof.
  eexists. split; [reflexivity|]. split; [reflexivity|].
  apply (short_id_roundtrip (H := plain_hex) "Web-01"). reflexivity.
Defined.
