(* ===== verification/Upstream.v ===== *)
(** * Upstream settings

    The configuration records of [r3v3rs3-api/src/upstream.rs] that an HTTP, TCP or
    UDP proxy carries for its upstream servers, their defaults and their
    validation. *)

From Stdlib Require Import Ascii.
From S2P Require Import Prelude Basics.

Definition DEFAULT_CONNECT_TIMEOUT : Duration := from_secs 10.
Definition DEFAULT_REQUEST_TIMEOUT : Duration := from_secs 60.
Definition DEFAULT_SESSION_IDLE_TIMEOUT : Duration := from_secs 60.
Definition MIN_DATAGRAM_SIZE : Z := 512.
Definition MAX_DATAGRAM_SIZE : Z := 65527.
Definition DEFAULT_MAX_FAILS : Z := 1.
Definition DEFAULT_FAIL_TIMEOUT : Duration := from_secs 30.
Definition DEFAULT_HEALTH_CHECK_TIMEOUT : Duration := from_secs 5.
Definition DEFAULT_WEIGHT : Z := 1.
Definition DEFAULT_FAILURE_RATIO : Z := 50.
Definition DEFAULT_MIN_REQUESTS : Z := 20.
Definition DEFAULT_BREAKER_WINDOW : Duration := from_secs 10.
Definition DEFAULT_OPEN_DURATION : Duration := from_secs 30.
Definition DEFAULT_RETRY_ATTEMPTS : Z := 2.
Definition MAX_RETRY_ATTEMPTS : Z := 10.
Definition DEFAULT_STICKY_COOKIE_NAME : string := "r3v3rs3_affinity".
Definition MIN_HEALTH_CHECK_INTERVAL : Duration := from_secs 1.

(** Rejects a zero timeout, because a zero time limit fails every connection. *)
Definition validate_timeout (timeout : Duration) : result unit Error :=
  if is_zero timeout then Err InvalidTimeout else Ok tt.

(** ** Timeouts *)

Record UpstreamTimeouts : Type := mkUpstreamTimeouts {
  connect : Duration;
  request : Duration;
}.

Definition UpstreamTimeouts_default : UpstreamTimeouts :=
  mkUpstreamTimeouts DEFAULT_CONNECT_TIMEOUT DEFAULT_REQUEST_TIMEOUT.

Definition UpstreamTimeouts_validate (t : UpstreamTimeouts) : result unit Error :=
  validate_timeout (connect t).

(** ** Retries *)

Inductive RetryOn : Type :=
| Connect
| Timeout
| Http502
| Http503
| Http504.

#[export] Instance RetryOn_eq_dec : EqDecision RetryOn.
Proof. solve_decision. Defined.

Definition RetryOn_ALL : list RetryOn := [Connect; Timeout; Http502; Http503; Http504].

Definition RetryOn_as_str (r : RetryOn) : string :=
  match r with
  | Connect => "connect"
  | Timeout => "timeout"
  | Http502 => "http_502"
  | Http503 => "http_503"
  | Http504 => "http_504"
  end.

Record RetryPolicy : Type := mkRetryPolicy {
  attempts : Z;
  retry_on : list RetryOn;
  replay_body_limit : Z;
}.

Definition RetryPolicy_default : RetryPolicy :=
  mkRetryPolicy DEFAULT_RETRY_ATTEMPTS [Connect] 0.

Definition RetryPolicy_validate (p : RetryPolicy) : result unit Error :=
  if (1 <=? attempts p) && (attempts p <=? MAX_RETRY_ATTEMPTS)
  then Ok tt else Err InvalidRetryAttempts.

(** ** Load balancing policies *)

Inductive LoadBalancing : Type :=
| RoundRobin
| LeastConn
| Random
| First
| ClientIpHash
| GeoProximity
| Latency.

#[export] Instance LoadBalancing_eq_dec : EqDecision LoadBalancing.
Proof. solve_decision. Defined.

Definition LoadBalancing_ALL : list LoadBalancing :=
  [RoundRobin; LeastConn; Random; First; ClientIpHash; GeoProximity; Latency].

Definition LoadBalancing_as_str (p : LoadBalancing) : string :=
  match p with
  | RoundRobin => "round_robin"
  | LeastConn => "least_conn"
  | Random => "random"
  | First => "first"
  | ClientIpHash => "client_ip_hash"
  | GeoProximity => "geo_proximity"
  | Latency => "latency"
  end.

(** ** Health checks *)

Record HealthCheck : Type := mkHealthCheck {
  max_fails : Z;
  fail_timeout : Duration;
  interval : Duration;
  check_timeout : Duration;
  check_path : string;
  grpc_service : option string;
}.

#[export] Instance HealthCheck_eq_dec : EqDecision HealthCheck.
Proof. solve_decision. Defined.

Definition HealthCheck_default : HealthCheck :=
  mkHealthCheck DEFAULT_MAX_FAILS DEFAULT_FAIL_TIMEOUT 0 DEFAULT_HEALTH_CHECK_TIMEOUT "" None.

Definition is_active (h : HealthCheck) : bool := negb (is_zero (interval h)).

Definition validate_intervals (h : HealthCheck) : result unit Error :=
  let? _ := validate_timeout (fail_timeout h) in
  let? _ := validate_timeout (check_timeout h) in
  if is_active h && (interval h <? MIN_HEALTH_CHECK_INTERVAL)
  then Err InvalidHealthCheckInterval else Ok tt.

Definition validate_path (h : HealthCheck) (http : bool) : result unit Error :=
  if is_some (grpc_service h) && negb http then
    Err (InvalidHealthCheckPath "gRPC health check is only supported for HTTP proxies")
  else if is_some (grpc_service h) || str_is_empty (check_path h)
          || (http && starts_with "/" (check_path h)) then Ok tt
  else Err (InvalidHealthCheckPath (check_path h)).

Definition HealthCheck_validate (h : HealthCheck) (http : bool) : result unit Error :=
  let? _ := validate_intervals h in validate_path h http.

(** ** Circuit breaker settings *)

Record CircuitBreaker : Type := mkCircuitBreaker {
  enabled : bool;
  failure_ratio : Z;
  min_requests : Z;
  window : Duration;
  open_duration : Duration;
}.

#[export] Instance CircuitBreaker_eq_dec : EqDecision CircuitBreaker.
Proof. solve_decision. Defined.

Definition CircuitBreaker_default : CircuitBreaker :=
  mkCircuitBreaker false DEFAULT_FAILURE_RATIO DEFAULT_MIN_REQUESTS
    DEFAULT_BREAKER_WINDOW DEFAULT_OPEN_DURATION.

Definition CircuitBreaker_validate (c : CircuitBreaker) : result unit Error :=
  if (1 <=? failure_ratio c) && (failure_ratio c <=? 100) && (0 <? min_requests c)
     && negb (is_zero (window c)) && negb (is_zero (open_duration c))
  then Ok tt else Err InvalidCircuitBreaker.

(** ** Sticky cookies *)

Record StickyCookie : Type := mkStickyCookie {
  sticky_enabled : bool;
  cookie_name : string;
  max_age : option Duration;
}.

Definition StickyCookie_default : StickyCookie :=
  mkStickyCookie false DEFAULT_STICKY_COOKIE_NAME None.

(** The separators of a cookie token; character 34 is the double quote. *)
Definition cookie_separators : list ascii :=
  ["("; ")"; "<"; ">"; "@"; ","; ";"; ":"; "\"; ascii_of_nat 34; "/"; "["; "]"; "?"; "="; "{"; "}"]%char.

Definition is_cookie_token (name : string) : bool :=
  negb (str_is_empty name)
  && str_forallb (fun c => is_ascii_graphic c && negb (existsb (Ascii.eqb c) cookie_separators)) name.

Definition StickyCookie_validate (s : StickyCookie) : result unit Error :=
  if negb (is_cookie_token (cookie_name s)) then Err (InvalidStickyCookieName (cookie_name s))
  else map_or (max_age s) (Ok tt) validate_timeout.

(** ** Circuit state shown to the panel, datagram sizes and server weights *)

Inductive CircuitState : Type :=
| StateClosed
| StateOpen
| StateHalfOpen.

#[export] Instance CircuitState_eq_dec : EqDecision CircuitState.
Proof. solve_decision. Defined.

Definition is_closed (c : CircuitState) : bool := bool_decide (c = StateClosed).

Definition validate_datagram_size (size : Z) : result unit Error :=
  if (MIN_DATAGRAM_SIZE <=? size) && (size <=? MAX_DATAGRAM_SIZE)
  then Ok tt else Err InvalidDatagramSize.

(** Rejects a server list in which every server has weight 0; an empty list is valid. *)
Definition validate_weights (weights : list Z) : result unit Error :=
  match weights with
  | [] => Ok tt
  | _ => if forallb (fun w => w =? 0) weights then Err AllServersDrained else Ok tt
  end.
