(* ===== verification/GeoIp.v ===== *)
(** * GeoIP country metadata

    The country table, the regional presets and the country-list helpers of
    [r3v3rs3-api/src/geoip.rs].  [str::to_uppercase], the Unicode case mapping, is an
    argument of the list helpers. *)

From Stdlib Require Import Ascii.
From S2P Require Import Prelude Basics.

Record CountryInfo : Type := mkCountryInfo {
  code : string;
  name_en : string;
  name_tr : string;
}.

Record RegionalPreset : Type := mkRegionalPreset {
  preset_id : string;
  preset_name_en : string;
  preset_name_tr : string;
  preset_countries : list string;
}.

Definition ALL_COUNTRIES : list CountryInfo := [
  mkCountryInfo "AD" "Andorra" "Andorra";
  mkCountryInfo "AE" "United Arab Emirates" "Birleşik Arap Emirlikleri";
  mkCountryInfo "AF" "Afghanistan" "Afganistan";
  mkCountryInfo "AG" "Antigua and Barbuda" "Antigua ve Barbuda";
  mkCountryInfo "AL" "Albania" "Arnavutluk";
  mkCountryInfo "AM" "Armenia" "Ermenistan";
  mkCountryInfo "AO" "Angola" "Angola";
  mkCountryInfo "AR" "Argentina" "Arjantin";
  mkCountryInfo "AT" "Austria" "Avusturya";
  mkCountryInfo "AU" "Australia" "Avustralya";
  mkCountryInfo "AZ" "Azerbaijan" "Azerbaycan";
  mkCountryInfo "BA" "Bosnia and Herzegovina" "Bosna Hersek";
  mkCountryInfo "BB" "Barbados" "Barbados";
  mkCountryInfo "BD" "Bangladesh" "Bangladeş";
  mkCountryInfo "BE" "Belgium" "Belçika";
  mkCountryInfo "BF" "Burkina Faso" "Burkina Faso";
  mkCountryInfo "BG" "Bulgaria" "Bulgaristan";
  mkCountryInfo "BH" "Bahrain" "Bahreyn";
  mkCountryInfo "BI" "Burundi" "Burundi";
  mkCountryInfo "BJ" "Benin" "Benin";
  mkCountryInfo "BN" "Brunei" "Brunei";
  mkCountryInfo "BO" "Bolivia" "Bolivya";
  mkCountryInfo "BR" "Brazil" "Brezilya";
  mkCountryInfo "BS" "Bahamas" "Bahamalar";
  mkCountryInfo "BT" "Bhutan" "Butan";
  mkCountryInfo "BW" "Botswana" "Botsvana";
  mkCountryInfo "BY" "Belarus" "Belarus";
  mkCountryInfo "BZ" "Belize" "Belize";
  mkCountryInfo "CA" "Canada" "Kanada";
  mkCountryInfo "CD" "DR Congo" "Kongo DC";
  mkCountryInfo "CF" "Central African Republic" "Orta Afrika Cumhuriyeti";
  mkCountryInfo "CG" "Republic of the Congo" "Kongo Cumhuriyeti";
  mkCountryInfo "CH" "Switzerland" "İsviçre";
  mkCountryInfo "CI" "Ivory Coast" "Fildişi Sahili";
  mkCountryInfo "CL" "Chile" "Şili";
  mkCountryInfo "CM" "Cameroon" "Kamerun";
  mkCountryInfo "CN" "China" "Çin";
  mkCountryInfo "CO" "Colombia" "Kolombiya";
  mkCountryInfo "CR" "Costa Rica" "Kosta Rika";
  mkCountryInfo "CU" "Cuba" "Küba";
  mkCountryInfo "CV" "Cape Verde" "Yeşil Burun Adaları";
  mkCountryInfo "CY" "Cyprus" "Kıbrıs";
  mkCountryInfo "CZ" "Czech Republic" "Çek Cumhuriyeti";
  mkCountryInfo "DE" "Germany" "Almanya";
  mkCountryInfo "DJ" "Djibouti" "Cibuti";
  mkCountryInfo "DK" "Denmark" "Danimarka";
  mkCountryInfo "DM" "Dominica" "Dominika";
  mkCountryInfo "DO" "Dominican Republic" "Dominik Cumhuriyeti";
  mkCountryInfo "DZ" "Algeria" "Cezayir";
  mkCountryInfo "EC" "Ecuador" "Ekvador";
  mkCountryInfo "EE" "Estonia" "Estonya";
  mkCountryInfo "EG" "Egypt" "Mısır";
  mkCountryInfo "ES" "Spain" "İspanya";
  mkCountryInfo "ET" "Ethiopia" "Etiyopya";
  mkCountryInfo "FI" "Finland" "Finlandiya";
  mkCountryInfo "FJ" "Fiji" "Fiji";
  mkCountryInfo "FR" "France" "Fransa";
  mkCountryInfo "GA" "Gabon" "Gabon";
  mkCountryInfo "GB" "United Kingdom" "Birleşik Krallık";
  mkCountryInfo "GE" "Georgia" "Gürcistan";
  mkCountryInfo "GH" "Ghana" "Gana";
  mkCountryInfo "GM" "Gambia" "Gambiya";
  mkCountryInfo "GN" "Guinea" "Gine";
  mkCountryInfo "GR" "Greece" "Yunanistan";
  mkCountryInfo "GT" "Guatemala" "Guatemala";
  mkCountryInfo "HK" "Hong Kong" "Hong Kong";
  mkCountryInfo "HN" "Honduras" "Honduras";
  mkCountryInfo "HR" "Croatia" "Hırvatistan";
  mkCountryInfo "HT" "Haiti" "Haiti";
  mkCountryInfo "HU" "Hungary" "Macaristan";
  mkCountryInfo "ID" "Indonesia" "Endonezya";
  mkCountryInfo "IE" "Ireland" "İrlanda";
  mkCountryInfo "IL" "Israel" "İsrail";
  mkCountryInfo "IN" "India" "Hindistan";
  mkCountryInfo "IQ" "Iraq" "Irak";
  mkCountryInfo "IR" "Iran" "İran";
  mkCountryInfo "IS" "Iceland" "İzlanda";
  mkCountryInfo "IT" "Italy" "İtalya";
  mkCountryInfo "JM" "Jamaica" "Jamaika";
  mkCountryInfo "JO" "Jordan" "Ürdün";
  mkCountryInfo "JP" "Japan" "Japonya";
  mkCountryInfo "KE" "Kenya" "Kenya";
  mkCountryInfo "KG" "Kyrgyzstan" "Kırgızistan";
  mkCountryInfo "KH" "Cambodia" "Kamboçya";
  mkCountryInfo "KR" "South Korea" "Güney Kore";
  mkCountryInfo "KW" "Kuwait" "Kuveyt";
  mkCountryInfo "KZ" "Kazakhstan" "Kazakistan";
  mkCountryInfo "LA" "Laos" "Laos";
  mkCountryInfo "LB" "Lebanon" "Lübnan";
  mkCountryInfo "LI" "Liechtenstein" "Lihtenştayn";
  mkCountryInfo "LK" "Sri Lanka" "Sri Lanka";
  mkCountryInfo "LT" "Lithuania" "Litvanya";
  mkCountryInfo "LU" "Luxembourg" "Lüksemburg";
  mkCountryInfo "LV" "Latvia" "Letonya";
  mkCountryInfo "LY" "Libya" "Libya";
  mkCountryInfo "MA" "Morocco" "Fas";
  mkCountryInfo "MC" "Monaco" "Monako";
  mkCountryInfo "MD" "Moldova" "Moldova";
  mkCountryInfo "ME" "Montenegro" "Karadağ";
  mkCountryInfo "MG" "Madagascar" "Madagaskar";
  mkCountryInfo "MK" "North Macedonia" "Kuzey Makedonya";
  mkCountryInfo "ML" "Mali" "Mali";
  mkCountryInfo "MN" "Mongolia" "Moğolistan";
  mkCountryInfo "MT" "Malta" "Malta";
  mkCountryInfo "MU" "Mauritius" "Mauritius";
  mkCountryInfo "MV" "Maldives" "Maldivler";
  mkCountryInfo "MX" "Mexico" "Meksika";
  mkCountryInfo "MY" "Malaysia" "Malezya";
  mkCountryInfo "MZ" "Mozambique" "Mozambik";
  mkCountryInfo "NA" "Namibia" "Namibya";
  mkCountryInfo "NE" "Niger" "Nijer";
  mkCountryInfo "NG" "Nigeria" "Nijerya";
  mkCountryInfo "NL" "Netherlands" "Hollanda";
  mkCountryInfo "NO" "Norway" "Norveç";
  mkCountryInfo "NP" "Nepal" "Nepal";
  mkCountryInfo "NZ" "New Zealand" "Yeni Zelanda";
  mkCountryInfo "OM" "Oman" "Umman";
  mkCountryInfo "PA" "Panama" "Panama";
  mkCountryInfo "PE" "Peru" "Peru";
  mkCountryInfo "PH" "Philippines" "Filipinler";
  mkCountryInfo "PK" "Pakistan" "Pakistan";
  mkCountryInfo "PL" "Poland" "Polonya";
  mkCountryInfo "PT" "Portugal" "Portekiz";
  mkCountryInfo "PY" "Paraguay" "Paraguay";
  mkCountryInfo "QA" "Qatar" "Katar";
  mkCountryInfo "RO" "Romania" "Romanya";
  mkCountryInfo "RS" "Serbia" "Sırbistan";
  mkCountryInfo "RU" "Russia" "Rusya";
  mkCountryInfo "RW" "Rwanda" "Ruanda";
  mkCountryInfo "SA" "Saudi Arabia" "Suudi Arabistan";
  mkCountryInfo "SE" "Sweden" "İsveç";
  mkCountryInfo "SG" "Singapore" "Singapur";
  mkCountryInfo "SI" "Slovenia" "Slovenya";
  mkCountryInfo "SK" "Slovakia" "Slovakya";
  mkCountryInfo "SN" "Senegal" "Senegal";
  mkCountryInfo "SO" "Somalia" "Somali";
  mkCountryInfo "SY" "Syria" "Suriye";
  mkCountryInfo "TH" "Thailand" "Tayland";
  mkCountryInfo "TJ" "Tajikistan" "Tacikistan";
  mkCountryInfo "TM" "Turkmenistan" "Türkmenistan";
  mkCountryInfo "TN" "Tunisia" "Tunus";
  mkCountryInfo "TR" "Turkey" "Türkiye";
  mkCountryInfo "TW" "Taiwan" "Tayvan";
  mkCountryInfo "TZ" "Tanzania" "Tanzanya";
  mkCountryInfo "UA" "Ukraine" "Ukrayna";
  mkCountryInfo "UG" "Uganda" "Uganda";
  mkCountryInfo "US" "United States" "Amerika Birleşik Devletleri";
  mkCountryInfo "UY" "Uruguay" "Uruguay";
  mkCountryInfo "UZ" "Uzbekistan" "Özbekistan";
  mkCountryInfo "VE" "Venezuela" "Venezuela";
  mkCountryInfo "VN" "Vietnam" "Vietnam";
  mkCountryInfo "YE" "Yemen" "Yemen";
  mkCountryInfo "ZA" "South Africa" "Güney Afrika";
  mkCountryInfo "ZM" "Zambia" "Zambiya";
  mkCountryInfo "ZW" "Zimbabwe" "Zimbabve"
].

Definition REGIONAL_PRESETS : list RegionalPreset := [
  mkRegionalPreset "turkey" "Turkey Only (TR)" "Yalnızca Türkiye (TR)"
    ["TR"];
  mkRegionalPreset "eu" "European Union (EU 27)" "Avrupa Birliği (AB 27)"
    ["AT"; "BE"; "BG"; "CY"; "CZ"; "DE"; "DK"; "EE"; "ES"; "FI"; "FR"; "GR"; "HR"; "HU"; "IE"; "IT"; "LT"; "LU"; "LV"; "MT"; "NL"; "PL"; "PT"; "RO"; "SE"; "SI"; "SK"];
  mkRegionalPreset "na" "North America (US, CA, MX)" "Kuzey Amerika (ABD, CA, MX)"
    ["US"; "CA"; "MX"];
  mkRegionalPreset "g7" "G7 Nations" "G7 Ülkeleri"
    ["US"; "CA"; "GB"; "DE"; "FR"; "IT"; "JP"];
  mkRegionalPreset "dach" "DACH (DE, AT, CH)" "DACH (DE, AT, CH)"
    ["DE"; "AT"; "CH"];
  mkRegionalPreset "apac" "Asia-Pacific Core (APAC)" "Asya-Pasifik (APAC)"
    ["JP"; "KR"; "SG"; "AU"; "NZ"; "IN"];
  mkRegionalPreset "latam" "Latin America (LATAM)" "Latin Amerika (LATAM)"
    ["BR"; "AR"; "CL"; "CO"; "PE"; "MX"];
  mkRegionalPreset "mena" "Middle East & North Africa (MENA)" "Orta Doğu & Kuzey Afrika (MENA)"
    ["TR"; "SA"; "AE"; "EG"; "QA"; "KW"; "OM"; "BH"; "JO"];
  mkRegionalPreset "nordic" "Nordic Countries" "İskandinav Ülkeleri"
    ["SE"; "NO"; "FI"; "DK"; "IS"]
].

Definition lookup_country (c : string) : option CountryInfo :=
  let needle := trim c in
  find (fun i => eq_ignore_ascii_case (code i) needle) ALL_COUNTRIES.

Definition country_name (c : string) (is_tr : bool) : string :=
  match lookup_country c with
  | Some info => if is_tr then name_tr info else name_en info
  | None => ""
  end.

Definition lookup_preset (id : string) : option RegionalPreset :=
  find (fun p => String.eqb (preset_id p) id) REGIONAL_PRESETS.

Definition str_mem (c : string) (l : list string) : bool := existsb (String.eqb c) l.

Section CountryLists.
Context (to_uppercase : string -> string).

Definition push_country (result : list string) (part : string) : list string :=
  let c := to_uppercase (trim part) in
  if Nat.eqb (String.length c) 2 && negb (str_mem c result) then result ++ [c] else result.

(** The separators are commas, semicolons and white space. *)
Definition parse_countries (input : string) : list string :=
  fold_left push_country (split_ws_or (fun c => Ascii.eqb c "," || Ascii.eqb c ";") input) [].

Definition add_country (codes : list string) (c : string) : list string :=
  push_country codes c.

Definition remove_country (codes : list string) (c : string) : list string :=
  let clean := to_uppercase (trim c) in
  List.filter (fun x => negb (String.eqb x clean)) codes.
End CountryLists.

Definition format_countries (codes : list string) : string := String.concat ", " codes.

Definition apply_preset (id : string) : option (list string) :=
  option_map preset_countries (lookup_preset id).

Record UpdateGeoIpConfigRequest : Type := mkUpdateGeoIpConfigRequest {
  account_id : option string;
  license_key : option string;
  database : option string;
  auto_update : bool;
  update_interval_days : Z;
}.

Definition UpdateGeoIpConfigRequest_validate (r : UpdateGeoIpConfigRequest) : result unit Error :=
  if (update_interval_days r =? 0) || (90 <? update_interval_days r)
  then Err (InvalidGeoIpConfig "update_interval_days must be between 1 and 90")
  else Ok tt.

Example parse_countries_example :
  parse_countries to_ascii_uppercase " tr, us;de tr usa" = ["TR"; "US"; "DE"].
Proof. reflexivity. Qed.
