(* ===== verification/Float64.v ===== *)
(** * Binary64 floating point

    Rust's [f64] as the executable specification floats of the Standard Library with
    precision 53 and maximal exponent 1024, and [f64::total_cmp] as the comparison of
    the IEEE 754 bit patterns. *)

From Stdlib Require Import ZArith Lia Bool.
From Stdlib Require Import SpecFloat.
From S2P Require Import Prelude.

Definition f64 := spec_float.

(** [n as f64]: rounded to nearest, ties to even. *)
Definition f64_of_Z (n : Z) : f64 := binary_normalize 53 1024 n 0 false.
Definition f64_div : f64 -> f64 -> f64 := SFdiv 53 1024.
Definition f64_mul : f64 -> f64 -> f64 := SFmul 53 1024.
Definition f64_add : f64 -> f64 -> f64 := SFadd 53 1024.
Definition f64_sub : f64 -> f64 -> f64 := SFsub 53 1024.
Definition f64_neg : f64 -> f64 := SFopp.

(** The bits of a finite magnitude with mantissa [m] and exponent [e]. *)
Definition magnitude_bits (m : positive) (e : Z) : Z :=
  if Z.pos m <? 4503599627370496 then Z.pos m
  else (e + 1075) * 4503599627370496 + (Z.pos m - 4503599627370496).

(** The signed integer whose order is [f64::total_cmp]: the bit pattern of a positive
    value, and the complement of the magnitude of a negative one. *)
Definition total_key (x : f64) : Z :=
  let signed (s : bool) (bits : Z) := if s then - bits - 1 else bits in
  match x with
  | S754_zero s => signed s 0
  | S754_finite s m e => signed s (magnitude_bits m e)
  | S754_infinity s => signed s (2047 * 4503599627370496)
  | S754_nan => 2047 * 4503599627370496 + 2251799813685248
  end.

Definition total_cmp (x y : f64) : comparison := Z.compare (total_key x) (total_key y).

Lemma total_cmp_refl x : total_cmp x x = Eq.
Proof. apply Z.compare_refl. Qed.
