(* ===== verification/FloatFacts.v ===== *)
(** * Facts on rounding

    The bounds of the binary64 operations of [Float64] that the shared rate limits rely on: a sum
    of non-negative numbers is not smaller than its second summand, integers below 2^53 are exact
    and compared as such, and one minus a proper fraction is not negative. *)

From Stdlib Require Import ZArith Lia Bool SpecFloat.
From S2P Require Import Prelude Float64.

#[local] Abbreviation fe := (fexp 53 1024).

Lemma fexp_eq e : fe e = Z.max (e - 53) (-1074).
Proof. reflexivity. Qed.

(** ** Digits and shifts *)

Lemma digits_bound m : 2 ^ (Z.pos (digits2_pos m) - 1) <= Z.pos m < 2 ^ Z.pos (digits2_pos m).
Proof.
  induction m as [m IH|m IH|]; cbn [digits2_pos]; [..|cbn; lia];
    rewrite Pos2Z.inj_succ; replace (Z.succ (Z.pos (digits2_pos m)) - 1) with (Z.succ (Z.pos (digits2_pos m) - 1)) by lia;
    rewrite !Z.pow_succ_r by lia; lia.
Qed.

Lemma zdigits_bound m : 0 < m -> 2 ^ (Zdigits2 m - 1) <= m < 2 ^ Zdigits2 m.
Proof. destruct m as [|m|]; [lia| |lia]. intros _. apply digits_bound. Qed.

Lemma zdigits_pos m : 0 < m -> 1 <= Zdigits2 m.
Proof. destruct m as [|m|]; cbn; lia. Qed.

Lemma shr_1_m r : 0 <= shr_m r -> shr_m (shr_1 r) = shr_m r / 2.
Proof.
  destruct r as [m b c]. cbn [shr_m]. rewrite <-Z.div2_div. destruct m as [|[p|p|]|p]; [done..|lia].
Qed.

Lemma iter_shr_m p : forall r, 0 <= shr_m r -> shr_m (SpecFloat.iter_pos shr_1 p r) = shr_m r / 2 ^ Z.pos p.
Proof.
  assert (Hdiv : forall a b c, 0 <= a -> 0 <= b -> 0 <= c -> a / 2 ^ b / 2 ^ c = a / 2 ^ (b + c)).
  { intros a b c Ha Hb Hc. rewrite Z.div_div, <-Z.pow_add_r by (try apply Z.pow_pos_nonneg; try apply Z.pow_nonzero; lia). done. }
  assert (Hpos : forall a b, 0 <= a -> 0 <= b -> 0 <= a / 2 ^ b) by (intros; apply Z.div_pos; [done|apply Z.pow_pos_nonneg; lia]).
  induction p as [p IH|p IH|]; intros r Hr; cbn [SpecFloat.iter_pos].
  - assert (H1 : 0 <= shr_m (shr_1 r)) by (rewrite shr_1_m by done; apply Z.div_pos; lia).
    rewrite IH by (rewrite IH by done; by apply Hpos). rewrite IH, shr_1_m by done.
    change (shr_m r / 2) with (shr_m r / 2 ^ 1). rewrite !Hdiv by (try apply Hpos; lia). f_equal. f_equal. lia.
  - rewrite IH by (rewrite IH by done; by apply Hpos). rewrite IH by done. rewrite Hdiv by lia. f_equal. f_equal. lia.
  - by apply shr_1_m.
Qed.

(** The shift of a mantissa to its exponent. *)
Lemma shr_fexp_eq m e l :
  0 <= m ->
  shr_m (fst (shr_fexp 53 1024 m e l)) = m / 2 ^ Z.max 0 (fe (Zdigits2 m + e) - e)
  /\ snd (shr_fexp 53 1024 m e l) = e + Z.max 0 (fe (Zdigits2 m + e) - e)
  /\ (fe (Zdigits2 m + e) <= e -> fst (shr_fexp 53 1024 m e l) = shr_record_of_loc m l).
Proof.
  intros Hm. unfold shr_fexp, shr. assert (Hr : shr_m (shr_record_of_loc m l) = m) by (by destruct l as [|[]]).
  destruct (fe (Zdigits2 m + e) - e) as [|p|p] eqn:E; cbn [fst snd].
  - rewrite Hr, Z.div_1_r. split; [done|]. split; [lia|done].
  - rewrite iter_shr_m, Hr by lia. split; [done|]. split; [done|lia].
  - rewrite Hr, Z.div_1_r. split; [done|]. split; [lia|done].
Qed.

(** ** Rounding *)

Definition finish_round (m e : Z) : spec_float :=
  match m with
  | 0 => S754_zero false
  | Z.pos p => if e <=? 971 then S754_finite false p e else S754_infinity false
  | Z.neg _ => S754_nan
  end.

(** A rounded number is the mantissa of its exponent, or the next one up; the second shift only
    moves a mantissa of 2^53. *)
Lemma round_aux_spec mx ex lx :
  0 <= mx ->
  let n := Z.max 0 (fe (Zdigits2 mx + ex) - ex) in
  exists m k, binary_round_aux 53 1024 false mx ex lx = finish_round m (ex + n + k)
    /\ 0 <= m /\ 0 <= k <= 1 /\ mx / 2 ^ n <= m * 2 ^ k <= mx / 2 ^ n + 1
    /\ (ex <= fe (Zdigits2 mx + ex) -> 0 < m -> fe (Zdigits2 m + (ex + n + k)) = ex + n + k)
    /\ (fe (Zdigits2 mx + ex) <= ex -> lx = loc_Exact -> m * 2 ^ k = mx).
Proof.
  intros Hmx n. unfold binary_round_aux. destruct (shr_fexp_eq mx ex lx Hmx) as (H1 & H2 & Hrec). fold n in H1, H2.
  destruct (shr_fexp 53 1024 mx ex lx) as [r e']. cbn [fst snd] in H1, H2, Hrec. subst e'.
  set (m' := round_nearest_even (shr_m r) (loc_of_shr_record r)).
  assert (Hm' : mx / 2 ^ n <= m' <= mx / 2 ^ n + 1).
  { unfold m'. rewrite H1. unfold round_nearest_even. destruct (loc_of_shr_record r) as [|[]]; try lia. destruct (Z.even _); lia. }
  assert (Hn : 0 <= n) by lia. assert (Hp : 0 < 2 ^ n) by (apply Z.pow_pos_nonneg; lia).
  assert (Hbase : 0 <= mx / 2 ^ n) by (apply Z.div_pos; lia).
  assert (Hlt : mx / 2 ^ n < 2 ^ 53).
  { destruct (Z.eq_dec mx 0) as [->|Hne]; [rewrite Z.div_0_l by lia; lia|].
    destruct (zdigits_bound mx ltac:(lia)) as [_ Hub]. apply Z.div_lt_upper_bound; [done|].
    eapply Z.lt_le_trans; [exact Hub|]. rewrite <-Z.pow_add_r by lia. apply Z.pow_le_mono_r; [lia|].
    unfold n. rewrite fexp_eq. lia. }
  assert (Hexact : fe (Zdigits2 mx + ex) <= ex -> lx = loc_Exact -> m' = mx).
  { intros Hle ->. unfold m'. by rewrite (Hrec Hle). }
  assert (Hfull : ex <= fe (Zdigits2 mx + ex) -> -1074 < ex + n -> 0 < mx -> 2 ^ 52 <= mx / 2 ^ n).
  { intros Hle He Hpos. destruct (zdigits_bound mx Hpos) as [Hlb _]. rewrite fexp_eq in Hle. unfold n in *. rewrite fexp_eq in *.
    assert (En : Z.max 0 (Z.max (Zdigits2 mx + ex - 53) (-1074) - ex) = Zdigits2 mx - 53) by lia. rewrite En in *.
    apply Z.div_le_lower_bound; [done|]. eapply Z.le_trans; [|exact Hlb]. rewrite <-Z.pow_add_r by lia. apply Z.pow_le_mono_r; lia. }
  assert (Hen : -1074 <= ex + n) by (unfold n; rewrite fexp_eq; lia).
  destruct (shr_fexp_eq m' (ex + n) loc_Exact ltac:(lia)) as (H3 & H4 & _).
  destruct (shr_fexp 53 1024 m' (ex + n) loc_Exact) as [r2 e2]. cbn [fst snd] in H3, H4. rewrite H3, H4.
  destruct (Z.eq_dec m' (2 ^ 53)) as [E|Hne].
  - assert (Ek : Z.max 0 (fe (Zdigits2 m' + (ex + n)) - (ex + n)) = 1).
    { rewrite E, fexp_eq. change (Zdigits2 (2 ^ 53)) with 54. lia. }
    rewrite Ek. exists (2 ^ 52), 1. assert (Eh : m' / 2 ^ 1 = 2 ^ 52) by (rewrite E; reflexivity). rewrite Eh.
    split; [done|]. split; [lia|]. split; [lia|]. split; [change (2 ^ 52 * 2 ^ 1) with (2 ^ 53); lia|]. split.
    + intros _ _. rewrite fexp_eq. change (Zdigits2 (2 ^ 52)) with 53. lia.
    + intros Hle Hl. rewrite <-(Hexact Hle Hl), E. reflexivity.
  - assert (Ek : Z.max 0 (fe (Zdigits2 m' + (ex + n)) - (ex + n)) = 0 /\ fe (Zdigits2 m' + (ex + n)) <= ex + n).
    { rewrite fexp_eq. destruct (Z.eq_dec m' 0) as [->|Hz]; [cbn; lia|].
      destruct (zdigits_bound m' ltac:(lia)) as [Hlb _]. assert (Zdigits2 m' - 1 < 53); [|lia].
      apply (Z.pow_lt_mono_r_iff 2); [lia..|]. lia. }
    destruct Ek as [Ek Ef]. rewrite Ek, Z.div_1_r. exists m', 0. rewrite !Z.add_0_r, Z.mul_1_r.
    split; [done|]. split; [lia|]. split; [lia|]. split; [lia|]. split; [|done].
    intros Hle Hpos. apply Z.le_antisymm; [done|]. rewrite fexp_eq. destruct (Z.le_gt_cases (ex + n) (-1074)); [lia|].
    assert (0 < mx).
    { destruct (Z.eq_dec mx 0) as [->|]; [|lia]. exfalso. clear -H Hle. change (fe (Zdigits2 0 + ex)) with (Z.max (ex - 53) (-1074)) in *. subst n. lia. }
    specialize (Hfull Hle ltac:(lia) ltac:(lia)). destruct (zdigits_bound m' Hpos) as [_ Hub].
    assert (52 < Zdigits2 m'); [|lia]. apply (Z.pow_lt_mono_r_iff 2); [lia| |lia]. pose proof (zdigits_pos m' Hpos). lia.
Qed.

(** ** Numbers that are not negative *)

Definition canon (m : positive) (e : Z) : Prop := fe (Z.pos (digits2_pos m) + e) = e.

(** A canonical number from zero to infinity. *)
Definition good (x : f64) : Prop :=
  match x with
  | S754_zero false | S754_infinity false => True
  | S754_finite false m e => canon m e
  | _ => False
  end.

Lemma canon_min m e : canon m e -> -1074 <= e.
Proof. unfold canon. rewrite fexp_eq. lia. Qed.

Lemma canon_digits m e : canon m e -> Z.pos m < 2 ^ 53.
Proof.
  unfold canon. rewrite fexp_eq. intros H. eapply Z.lt_le_trans; [apply digits_bound|]. apply Z.pow_le_mono_r; lia.
Qed.

Lemma canon_full m e : canon m e -> -1074 < e -> 2 ^ 52 <= Z.pos m.
Proof.
  unfold canon. rewrite fexp_eq. intros H He. eapply Z.le_trans; [|apply digits_bound]. apply Z.pow_le_mono_r; lia.
Qed.

Lemma finish_round_good m e : 0 <= m -> (0 < m -> fe (Zdigits2 m + e) = e) -> good (finish_round m e).
Proof. intros Hm Hc. destruct m as [|m|]; [done| |lia]. cbn. destruct (_ <=? _); [|done]. cbn. by apply Hc. Qed.

(** Canonical numbers are compared as the integers they are multiples of 2^-1074. *)
Lemma leb_spec m1 e1 m2 e2 :
  canon m1 e1 -> canon m2 e2 ->
  SFleb (S754_finite false m1 e1) (S754_finite false m2 e2) = true <-> Z.pos m1 * 2 ^ (e1 + 1074) <= Z.pos m2 * 2 ^ (e2 + 1074).
Proof.
  assert (Hlt : forall m1 e1 m2 e2, canon m1 e1 -> canon m2 e2 -> e1 < e2 -> Z.pos m1 * 2 ^ (e1 + 1074) < Z.pos m2 * 2 ^ (e2 + 1074)).
  { clear. intros m1 e1 m2 e2 H1 H2 He. pose proof (canon_min _ _ H1). pose proof (canon_digits _ _ H1).
    pose proof (canon_full _ _ H2 ltac:(lia)). apply (Z.lt_le_trans _ (2 ^ 53 * 2 ^ (e1 + 1074))).
    - apply Z.mul_lt_mono_pos_r; [apply Z.pow_pos_nonneg; lia|done].
    - apply (Z.le_trans _ (2 ^ 52 * 2 ^ (e2 + 1074))).
      + rewrite <-!Z.pow_add_r by lia. apply Z.pow_le_mono_r; lia.
      + apply Z.mul_le_mono_nonneg_r; [apply Z.pow_nonneg; lia|done]. }
  intros H1 H2. unfold SFleb, SFcompare. pose proof (canon_min _ _ H1). destruct (Z.compare_spec e1 e2) as [->|He|He].
  - change (Pos.compare_cont Eq m1 m2) with (Pos.compare m1 m2). assert (Hp : 0 < 2 ^ (e2 + 1074)) by (apply Z.pow_pos_nonneg; lia).
    rewrite <-(Z.mul_le_mono_pos_r _ _ _ Hp). destruct (Pos.compare_spec m1 m2) as [->|Hm|Hm]; split; intros; lia || done.
  - specialize (Hlt _ _ _ _ H1 H2 He). split; [lia|done].
  - specialize (Hlt _ _ _ _ H2 H1 He). split; [done|lia].
Qed.

Definition scaled (x : f64) : Z := match x with S754_finite _ m e => Z.pos m * 2 ^ (e + 1074) | _ => 0 end.

Lemma leb_good x y :
  good x -> good y -> y <> S754_infinity false -> x <> S754_infinity false -> SFleb x y = true <-> scaled x <= scaled y.
Proof.
  destruct x as [[]|[]| |[] m1 e1], y as [[]|[]| |[] m2 e2]; cbn [good]; try done; intros H1 H2 _ _.
  - split; [|done]. intros _. apply Z.mul_nonneg_nonneg; [lia|apply Z.pow_nonneg; lia].
  - split; [done|]. cbn [scaled]. intros H. exfalso. pose proof (canon_min _ _ H1). assert (0 < 2 ^ (e1 + 1074)) by (apply Z.pow_pos_nonneg; lia). nia.
  - by apply leb_spec.
Qed.

Lemma classic_inf (x : f64) : x = S754_infinity false \/ x <> S754_infinity false.
Proof. destruct x as [|[]| |]; (by left) || by right. Qed.

Lemma leb_trans x y z : good x -> good y -> good z -> SFleb x y = true -> SFleb y z = true -> SFleb x z = true.
Proof.
  intros Hx Hy Hz H1 H2. assert (Hinf : forall a, good a -> SFleb a (S754_infinity false) = true) by (by intros [[]|[]| |[]]).
  destruct (classic_inf z) as [->|Hz']; [by apply Hinf|].
  destruct (classic_inf y) as [->|Hy']; [destruct z as [[]|[]| |[]]; done|].
  destruct (classic_inf x) as [->|Hx']; [destruct y as [[]|[]| |[]]; done|].
  apply leb_good in H1; [|done..]. apply leb_good in H2; [|done..]. apply leb_good; [done..|lia].
Qed.

(** ** Normalizing and the operations *)

Lemma zdigits_unique m d : 0 < m -> 2 ^ (d - 1) <= m < 2 ^ d -> 0 < d -> Zdigits2 m = d.
Proof.
  intros Hm Hd Hpos. pose proof (zdigits_bound m Hm) as Hb. pose proof (zdigits_pos m Hm).
  assert (Zdigits2 m - 1 < d) by (apply (Z.pow_lt_mono_r_iff 2); lia).
  assert (d - 1 < Zdigits2 m) by (apply (Z.pow_lt_mono_r_iff 2); lia). lia.
Qed.

Lemma zdigits_shift m s : 0 < m -> 0 <= s -> Zdigits2 (m * 2 ^ s) = Zdigits2 m + s.
Proof.
  intros Hm Hs. pose proof (zdigits_bound m Hm) as Hb. pose proof (zdigits_pos m Hm).
  assert (0 < 2 ^ s) by (apply Z.pow_pos_nonneg; lia).
  apply zdigits_unique; [nia| |lia]. replace (Zdigits2 m + s - 1) with (Zdigits2 m - 1 + s) by lia.
  rewrite !Z.pow_add_r by lia. nia.
Qed.

Lemma shl_align_eq m e e' :
  Z.pos (fst (shl_align m e e')) = Z.pos m * 2 ^ Z.max 0 (e - e') /\ snd (shl_align m e e') = Z.min e e'.
Proof.
  unfold shl_align. destruct (e' - e) as [|p|p] eqn:E; cbn [fst snd].
  - replace (Z.max 0 (e - e')) with 0 by lia. lia.
  - replace (Z.max 0 (e - e')) with 0 by lia. lia.
  - replace (Z.max 0 (e - e')) with (Z.pos p) by lia. split; [|lia].
    assert (Hi : forall q, Z.pos (Pos.iter xO m q) = Z.pos m * 2 ^ Z.pos q).
    { intros q. induction q as [|q IH] using Pos.peano_ind; [cbn; lia|].
      rewrite Pos.iter_succ, Pos2Z.inj_succ, Z.pow_succ_r, Pos2Z.inj_xO, IH by lia. lia. }
    apply Hi.
Qed.

Record normalized (M e : Z) (m E : Z) : Prop := {
  nz_nonneg : 0 <= m;
  nz_canon : 0 < m -> fe (Zdigits2 m + E) = E;
  nz_min : -1074 <= E;
  nz_max : E <= fe (Zdigits2 M + e) + 1;
  nz_exact : M < 2 ^ 53 -> m * 2 ^ (E + 1074) = M * 2 ^ (e + 1074);
  nz_lower my ey : canon my ey -> Z.pos my * 2 ^ (ey + 1074) <= M * 2 ^ (e + 1074) ->
    Z.pos my * 2 ^ (ey + 1074) <= m * 2 ^ (E + 1074);
}.

(** What rounds down to a multiple of the last place is not below a smaller canonical number. *)
Lemma round_lower M e m k my ey :
  0 < M -> -1074 <= e -> 0 <= k -> canon my ey ->
  let d := fe (Zdigits2 M + e) in
  let s := Z.max 0 (e - d) in
  let n := Z.max 0 (d - e) in
  M * 2 ^ s / 2 ^ n <= m * 2 ^ k -> Z.pos my * 2 ^ (ey + 1074) <= M * 2 ^ (e + 1074) ->
  Z.pos my * 2 ^ (ey + 1074) <= m * 2 ^ (d + k + 1074).
Proof.
  intros HM He Hk Hy d s n Hlow Hle. pose proof (canon_min _ _ Hy) as Hey.
  assert (Hd : -1074 <= d) by (unfold d; rewrite fexp_eq; lia).
  assert (Hpd : 0 < 2 ^ (d + 1074)) by (apply Z.pow_pos_nonneg; lia).
  replace (d + k + 1074) with (k + (d + 1074)) by lia. rewrite (Z.pow_add_r 2 k) by lia. rewrite (Z.mul_assoc m).
  apply (Z.le_trans _ (M * 2 ^ s / 2 ^ n * 2 ^ (d + 1074))); [|by apply Z.mul_le_mono_pos_r].
  destruct (Z.le_gt_cases d ey) as [Hge|Hlt].
  - replace (ey + 1074) with (ey - d + (d + 1074)) by lia. rewrite Z.pow_add_r, Z.mul_assoc by lia.
    apply Z.mul_le_mono_pos_r; [done|]. apply Z.div_le_lower_bound; [apply Z.pow_pos_nonneg; lia|].
    apply (Z.mul_le_mono_pos_r _ _ (2 ^ (d - n + 1074))); [apply Z.pow_pos_nonneg; unfold n, d in *; lia|].
    replace (2 ^ n * (Z.pos my * 2 ^ (ey - d)) * 2 ^ (d - n + 1074)) with (Z.pos my * 2 ^ (ey + 1074)).
    + replace (M * 2 ^ s * 2 ^ (d - n + 1074)) with (M * 2 ^ (e + 1074)); [done|].
      rewrite <-Z.mul_assoc, <-Z.pow_add_r by (unfold s, n, d in *; lia). f_equal. f_equal. unfold s, n. lia.
    + replace (ey + 1074) with (n + (ey - d) + (d - n + 1074)) by lia. rewrite !Z.pow_add_r by (unfold n, d in *; lia). lia.
  - assert (Hfull : 2 ^ 52 <= M * 2 ^ s / 2 ^ n).
    { pose proof (zdigits_bound M HM) as [Hlb _]. pose proof (zdigits_pos M HM).
      assert (Ed : d = Zdigits2 M + e - 53) by (unfold d in *; rewrite fexp_eq in *; lia).
      apply Z.div_le_lower_bound; [apply Z.pow_pos_nonneg; lia|].
      apply (Z.le_trans _ (2 ^ (Zdigits2 M - 1) * 2 ^ s)); [|apply Z.mul_le_mono_nonneg_r; [apply Z.pow_nonneg; lia|done]].
      rewrite <-!Z.pow_add_r by lia. apply Z.pow_le_mono_r; unfold s, n; lia. }
    pose proof (canon_digits _ _ Hy) as Hdig.
    apply (Z.le_trans _ (2 ^ 53 * 2 ^ (ey + 1074))); [apply Z.mul_le_mono_nonneg_r; [apply Z.pow_nonneg; lia|lia]|].
    apply (Z.le_trans _ (2 ^ 52 * 2 ^ (d + 1074))); [|by apply Z.mul_le_mono_pos_r].
    rewrite <-!Z.pow_add_r by lia. apply Z.pow_le_mono_r; lia.
Qed.

Lemma normalize_spec M e :
  0 < M -> -1074 <= e -> exists m E, binary_normalize 53 1024 M e false = finish_round m E /\ normalized M e m E.
Proof.
  intros HM He. destruct M as [|p|]; [lia| |lia]. cbn [binary_normalize]. unfold binary_round.
  set (d := fe (Z.pos (digits2_pos p) + e)). assert (Hd : -1074 <= d) by (unfold d; rewrite fexp_eq; lia).
  destruct (shl_align_eq p e d) as [H1 H2]. destruct (shl_align p e d) as [mz ez]. cbn [fst snd] in H1, H2.
  set (s := Z.max 0 (e - d)) in *. subst ez.
  assert (Hdig : Zdigits2 (Z.pos mz) + Z.min e d = Zdigits2 (Z.pos p) + e).
  { rewrite H1, zdigits_shift by lia. unfold s. lia. }
  destruct (round_aux_spec (Z.pos mz) (Z.min e d) loc_Exact ltac:(lia)) as (m & k & Hr & Hm & Hk & Hb & Hc & Hx).
  rewrite Hdig in *. change (Zdigits2 (Z.pos p)) with (Z.pos (digits2_pos p)) in *. fold d in Hr, Hb, Hc, Hx.
  assert (Hn : Z.max 0 (d - Z.min e d) = Z.max 0 (d - e)) by lia. rewrite Hn in *.
  assert (HE : Z.min e d + Z.max 0 (d - e) + k = d + k) by lia. rewrite HE in *.
  exists m, (d + k). split; [done|]. constructor; [done|apply Hc; lia|lia|change (Zdigits2 (Z.pos p)) with (Z.pos (digits2_pos p)); fold d; lia| |].
  - intros Hsmall. assert (Hle : d <= e).
    { unfold d. rewrite fexp_eq. pose proof (digits_bound p) as [Hlb _].
      assert (Z.pos (digits2_pos p) - 1 < 53) by (apply (Z.pow_lt_mono_r_iff 2); lia). lia. }
    specialize (Hx ltac:(lia) eq_refl). rewrite H1 in Hx. replace (d + k + 1074) with (k + (d + 1074)) by lia.
    rewrite (Z.pow_add_r 2 k), Z.mul_assoc, Hx by lia. rewrite <-Z.mul_assoc, <-Z.pow_add_r by (unfold s; lia).
    f_equal. f_equal. unfold s. lia.
  - intros my ey Hy Hle. rewrite H1 in Hb. apply (round_lower (Z.pos p) e m k my ey); [lia..|done|exact (proj1 Hb)|exact Hle].
Qed.

(** Integers below 2^53 are exact. *)
Lemma of_Z_spec n : 0 <= n < 2 ^ 53 -> good (f64_of_Z n) /\ scaled (f64_of_Z n) = n * 2 ^ 1074 /\ f64_of_Z n <> S754_infinity false.
Proof.
  intros Hn. unfold f64_of_Z. destruct (Z.eq_dec n 0) as [->|Hne]; [done|].
  destruct (normalize_spec n 0 ltac:(lia) ltac:(lia)) as (m & E & -> & [H1 H2 H3 H4 H5 _]).
  specialize (H5 ltac:(lia)). rewrite Z.add_0_l in H5. rewrite fexp_eq in H4.
  assert (Hd : Zdigits2 n - 1 < 53) by (apply (Z.pow_lt_mono_r_iff 2); [lia..|]; pose proof (zdigits_bound n ltac:(lia)); lia).
  split; [by apply finish_round_good|]. destruct m as [|m|].
  - exfalso. assert (0 < 2 ^ 1074) by (apply Z.pow_pos_nonneg; lia). nia.
  - cbn [finish_round]. destruct (Z.leb_spec E 971); [|lia]. done.
  - lia.
Qed.

Lemma of_Z_leb a b : 0 <= a < 2 ^ 53 -> 0 <= b < 2 ^ 53 -> SFleb (f64_of_Z a) (f64_of_Z b) = (a <=? b).
Proof.
  intros Ha Hb. destruct (of_Z_spec a Ha) as (A1 & A2 & A3), (of_Z_spec b Hb) as (B1 & B2 & B3).
  apply eq_true_iff_eq. rewrite (leb_good _ _ A1 B1 B3 A3), A2, B2, Z.leb_le.
  symmetry. apply Z.mul_le_mono_pos_r. apply Z.pow_pos_nonneg; lia.
Qed.

(** A sum of numbers that are not negative is not negative, and not below its second summand. *)
Lemma add_good x y : good x -> good y -> good (f64_add x y) /\ SFleb y (f64_add x y) = true.
Proof.
  assert (Hrefl : forall a, good a -> SFleb a a = true).
  { intros [[]|[]| |[] m e]; try done. intros H. by apply leb_spec. }
  destruct x as [[]|[]| |[] m1 e1], y as [[]|[]| |[] m2 e2]; cbn [good]; try done; intros H1 H2.
  { cbn [f64_add]. split; [done|]. by apply Hrefl. }
  unfold f64_add, SFadd, cond_Zopp. pose proof (canon_min _ _ H1). pose proof (canon_min _ _ H2).
  set (ez := Z.min e1 e2). destruct (shl_align_eq m1 e1 ez) as [E1 _], (shl_align_eq m2 e2 ez) as [E2 _].
  assert (Hs : forall e, Z.min e1 e2 <= e -> Z.max 0 (e - ez) = e - ez) by (intros; unfold ez; lia).
  destruct (normalize_spec (Z.pos (fst (shl_align m1 e1 ez)) + Z.pos (fst (shl_align m2 e2 ez))) ez ltac:(lia) ltac:(unfold ez; lia))
    as (m & E & -> & [N1 N2 N3 N4 _ N6]).
  split; [by apply finish_round_good|].
  assert (Hle : Z.pos m2 * 2 ^ (e2 + 1074) <= m * 2 ^ (E + 1074)).
  { apply N6; [done|]. rewrite E2, Hs by (unfold ez; lia). replace (e2 + 1074) with (e2 - ez + (ez + 1074)) by lia.
    rewrite (Z.pow_add_r 2 (e2 - ez)), Z.mul_assoc by (unfold ez; lia). apply Z.mul_le_mono_nonneg_r; [apply Z.pow_nonneg; lia|lia]. }
  destruct m as [|m|]; [|cbn [finish_round]; destruct (_ <=? _) eqn:El; [|done]; apply leb_spec; [done|by apply N2|done]|lia].
  exfalso. assert (0 < 2 ^ (e2 + 1074)) by (apply Z.pow_pos_nonneg; lia). nia.
Qed.

(** A product of finite numbers that are not negative is not negative. *)
Lemma mul_good x y :
  good x -> good y -> x <> S754_infinity false -> y <> S754_infinity false -> good (f64_mul x y).
Proof.
  destruct x as [[]|[]| |[] m1 e1], y as [[]|[]| |[] m2 e2]; cbn [good]; try done; intros H1 H2 _ _.
  unfold f64_mul, SFmul. cbn [xorb].
  destruct (round_aux_spec (Z.pos (m1 * m2)) (e1 + e2) loc_Exact ltac:(lia)) as (m & k & -> & Hm & _ & _ & Hc & _).
  apply finish_round_good; [done|]. apply Hc. clear Hc.
  assert (Hd : Zdigits2 (Z.pos m1) + Zdigits2 (Z.pos m2) - 2 < Zdigits2 (Z.pos (m1 * m2))).
  { pose proof (digits_bound m1) as [B1 _]. pose proof (digits_bound m2) as [B2 _].
    pose proof (digits_bound (m1 * m2)) as [_ B3]. cbn [Zdigits2].
    replace (Z.pos (digits2_pos m1) + Z.pos (digits2_pos m2) - 2) with ((Z.pos (digits2_pos m1) - 1) + (Z.pos (digits2_pos m2) - 1)) by lia.
    apply (Z.pow_lt_mono_r_iff 2); [lia..|]. rewrite Z.pow_add_r by lia. rewrite Pos2Z.inj_mul in B3.
    eapply Z.le_lt_trans; [|exact B3]. apply Z.mul_le_mono_nonneg; try done; apply Z.pow_nonneg; lia. }
  unfold canon in H1, H2. rewrite fexp_eq in *. cbn [Zdigits2] in *. lia.
Qed.

(** The quotient of a smaller by a larger integer is at most one. *)
Lemma div_fraction a b :
  0 < a < b -> b < 2 ^ 53 ->
  exists m e, f64_div (f64_of_Z a) (f64_of_Z b) = finish_round m e /\ 0 <= m /\ -1074 <= e <= 971 /\ m * 2 ^ (e + 1074) <= 2 ^ 1074.
Proof.
  intros Hab Hb. destruct (of_Z_spec a ltac:(lia)) as (A1 & A2 & A3), (of_Z_spec b ltac:(lia)) as (B1 & B2 & B3).
  assert (Hp : 0 < 2 ^ 1074) by (apply Z.pow_pos_nonneg; lia).
  destruct (f64_of_Z a) as [[]|[]| |[] m1 e1]; cbn [good scaled] in *; try done; [nia|].
  destruct (f64_of_Z b) as [[]|[]| |[] m2 e2]; cbn [good scaled] in *; try done; [nia|].
  pose proof (canon_min _ _ A1) as He1. pose proof (canon_min _ _ B1) as He2.
  assert (Hlt : Z.pos m1 * 2 ^ (e1 + 1074) < Z.pos m2 * 2 ^ (e2 + 1074)) by nia. clear A2 B2.
  unfold f64_div, SFdiv, SFdiv_core_binary. cbn [xorb].
  set (d := Zdigits2 (Z.pos m1) + e1 - (Zdigits2 (Z.pos m2) + e2)). set (e' := Z.min (fe d) (e1 - e2)).
  assert (Hd : d <= 0).
  { pose proof (digits_bound m1) as [L1 _]. pose proof (digits_bound m2) as [_ U2]. unfold d. cbn [Zdigits2].
    assert (Z.pos (digits2_pos m1) - 1 + (e1 + 1074) < Z.pos (digits2_pos m2) + (e2 + 1074)); [|lia].
    apply (Z.pow_lt_mono_r_iff 2); [lia..|].
    rewrite (Z.pow_add_r 2 (Z.pos (digits2_pos m1) - 1)), (Z.pow_add_r 2 (Z.pos (digits2_pos m2))) by lia.
    apply (Z.le_lt_trans _ (Z.pos m1 * 2 ^ (e1 + 1074))); [apply Z.mul_le_mono_nonneg_r; [apply Z.pow_nonneg; lia|done]|].
    eapply Z.lt_le_trans; [exact Hlt|]. apply Z.mul_le_mono_nonneg_r; [apply Z.pow_nonneg; lia|lia]. }
  assert (He' : e' <= -53) by (unfold e'; rewrite fexp_eq; lia).
  set (s := e1 - e2 - e'). assert (Hs : 0 <= s) by (unfold s, e'; lia).
  assert (Hm' : match s with Z.pos _ => Z.shiftl (Z.pos m1) s | 0 => Z.pos m1 | Z.neg _ => 0 end = Z.pos m1 * 2 ^ s).
  { destruct s as [|p|p] eqn:Es; [lia|by rewrite Z.shiftl_mul_pow2 by lia|lia]. }
  rewrite Hm'. pose proof (Z_div_mod (Z.pos m1 * 2 ^ s) (Z.pos m2) ltac:(lia)) as Hdm.
  destruct (Z.div_eucl (Z.pos m1 * 2 ^ s) (Z.pos m2)) as [q r]. destruct Hdm as [Hq Hr].
  assert (Hps : 0 < 2 ^ s) by (apply Z.pow_pos_nonneg; lia).
  assert (Hqpos : 0 <= q) by nia.
  assert (Hqlt : q < 2 ^ (- e')).
  { assert (Hscaled : Z.pos m1 * 2 ^ s < Z.pos m2 * 2 ^ (- e')); [|nia].
    apply (Z.mul_lt_mono_pos_r (2 ^ (e2 + 1074))); [apply Z.pow_pos_nonneg; lia|].
    rewrite <-!Z.mul_assoc, <-!Z.pow_add_r by lia. replace (s + (e2 + 1074)) with (e1 + 1074 + - e') by (unfold s; lia).
    replace (- e' + (e2 + 1074)) with (e2 + 1074 + - e') by lia. rewrite (Z.pow_add_r 2 (e1 + 1074)), (Z.pow_add_r 2 (e2 + 1074)), !Z.mul_assoc by lia.
    apply Z.mul_lt_mono_pos_r; [apply Z.pow_pos_nonneg; lia|done]. }
  destruct (round_aux_spec q e' (new_location (Z.pos m2) r) Hqpos) as (m & k & -> & Hm & Hk & Hb2 & _ & _).
  set (n := Z.max 0 (fe (Zdigits2 q + e') - e')) in *.
  assert (Hdq : Zdigits2 q + e' <= 0).
  { destruct (Z.eq_dec q 0) as [->|Hz]; [cbn; lia|]. destruct (zdigits_bound q ltac:(lia)) as [L _].
    assert (Zdigits2 q - 1 < - e') by (apply (Z.pow_lt_mono_r_iff 2); lia). lia. }
  assert (Hn : 0 <= n /\ -1074 <= e' + n <= -53) by (unfold n; rewrite fexp_eq; lia).
  exists m, (e' + n + k). split; [done|]. split; [done|]. split; [lia|].
  replace (e' + n + k + 1074) with (k + (e' + n + 1074)) by lia. rewrite (Z.pow_add_r 2 k), Z.mul_assoc by lia.
  assert (Hle : m * 2 ^ k <= 2 ^ (- e' - n)).
  { assert (q / 2 ^ n < 2 ^ (- e' - n)); [|lia]. apply Z.div_lt_upper_bound; [apply Z.pow_pos_nonneg; lia|].
    rewrite <-Z.pow_add_r by lia. by replace (n + (- e' - n)) with (- e') by lia. }
  replace 1074 with (- e' - n + (e' + n + 1074)) at 2 by lia. rewrite (Z.pow_add_r 2 (- e' - n)) by lia.
  apply Z.mul_le_mono_nonneg_r; [apply Z.pow_nonneg; lia|done].
Qed.

(** One minus the part of a window that passed is a finite number that is not negative. *)
Lemma one_minus_fraction a b :
  0 <= a < b -> b < 2 ^ 53 ->
  let x := f64_sub (f64_of_Z 1) (f64_div (f64_of_Z a) (f64_of_Z b)) in good x /\ x <> S754_infinity false.
Proof.
  intros Hab Hb x. destruct (of_Z_spec 1 ltac:(lia)) as (O1 & _ & O3).
  assert (Hzero : f64_div (f64_of_Z a) (f64_of_Z b) = S754_zero false -> good x /\ x <> S754_infinity false).
  { intros Hz. unfold x. rewrite Hz. change (f64_sub (f64_of_Z 1) (S754_zero false)) with (f64_of_Z 1). done. }
  destruct (Z.eq_dec a 0) as [->|Hne].
  { apply Hzero. destruct (of_Z_spec b ltac:(lia)) as (B1 & B2 & B3). change (f64_of_Z 0) with (S754_zero false).
    destruct (f64_of_Z b) as [[]|[]| |[]]; try done. exfalso. cbn [scaled] in B2. assert (0 < 2 ^ 1074) by (apply Z.pow_pos_nonneg; lia). nia. }
  destruct (div_fraction a b ltac:(lia) Hb) as (m & e & Hdiv & Hm & He & Hle).
  destruct m as [|m|]; [by apply Hzero| |lia].
  assert (Hx : x = SFsub 53 1024 (S754_finite false 4503599627370496 (-52)) (S754_finite false m e)).
  { unfold x. rewrite Hdiv. cbn [finish_round]. by rewrite (proj2 (Z.leb_le e 971)) by lia. }
  rewrite Hx. unfold SFsub, cond_Zopp. set (ez := Z.min (-52) e).
  destruct (shl_align_eq 4503599627370496 (-52) ez) as [E1 _], (shl_align_eq m e ez) as [E2 _]. rewrite E1, E2.
  replace (Z.max 0 (-52 - ez)) with (-52 - ez) by (unfold ez; lia). replace (Z.max 0 (e - ez)) with (e - ez) by (unfold ez; lia).
  change 4503599627370496 with (2 ^ 52). rewrite <-Z.pow_add_r by (unfold ez; lia). replace (52 + (-52 - ez)) with (- ez) by lia.
  set (diff := 2 ^ (- ez) - Z.pos m * 2 ^ (e - ez)).
  assert (Hez : -1074 <= ez <= -52) by (unfold ez; lia).
  assert (Hdiff : 0 <= diff <= 2 ^ (- ez)).
  { assert (0 < 2 ^ (e - ez)) by (apply Z.pow_pos_nonneg; unfold ez; lia). unfold diff. split; [|nia].
    apply Z.le_0_sub. apply (Z.mul_le_mono_pos_r _ _ (2 ^ (ez + 1074))); [apply Z.pow_pos_nonneg; lia|].
    rewrite <-Z.mul_assoc, <-!Z.pow_add_r by (unfold ez; lia). by replace (e - ez + (ez + 1074)) with (e + 1074) by lia;
    replace (- ez + (ez + 1074)) with 1074 by lia. }
  destruct (Z.eq_dec diff 0) as [->|Hd0]; [done|].
  destruct (normalize_spec diff ez ltac:(lia) ltac:(lia)) as (m' & E & -> & [N1 N2 N3 N4 _ _]).
  assert (HD : Zdigits2 diff - 1 <= - ez).
  { destruct (zdigits_bound diff ltac:(lia)) as [L _]. apply (Z.pow_le_mono_r_iff 2); lia. }
  rewrite fexp_eq in N4. split; [by apply finish_round_good|]. destruct m' as [|m'|]; [done| |lia].
  cbn [finish_round]. by rewrite (proj2 (Z.leb_le E 971)) by lia.
Qed.
