(* ===== verification/Registry.v ===== *)
(** * Weak registries

    [proxy/registry.rs]: values by key that stay registered while another owner
    holds them.  A [Weak] pointer is the address of its value; [upgrade] says which
    addresses still have an owner, and what they hold. *)

From S2P Require Import Prelude.

Section WeakRegistry.
Context {K V : Type} `{Countable K}.

(** [upgrade p] is [Weak::upgrade]: the value at [p] while its strong count is positive. *)
Implicit Types (entries : gmap K nat) (upgrade : nat -> option V).

(** Keeps the entries whose value has an owner. *)
Definition retain_live upgrade entries : gmap K nat :=
  filter (fun kv => is_Some (upgrade kv.2)) entries.

Definition registry_get upgrade entries (key : K) : option nat :=
  match entries !! key with
  | Some p => match upgrade p with Some _ => Some p | None => None end
  | None => None
  end.

(** [get_or_create]: the address of the reused value, or [fresh] with the value that
    [create] returns. *)
Definition get_or_create upgrade entries (key : K) (reuse : V -> bool) (create : unit -> V)
    (fresh : nat) : (nat * option V) * gmap K nat :=
  let entries := retain_live upgrade entries in
  let existing := match entries !! key with
                  | Some p => match upgrade p with Some v => Some (p, v) | None => None end
                  | None => None
                  end in
  match existing with
  | Some (p, v) =>
      if reuse v then ((p, None), entries)
      else ((fresh, Some (create tt)), <[key := fresh]> entries)
  | None => ((fresh, Some (create tt)), <[key := fresh]> entries)
  end.

Definition live upgrade entries : list (K * nat) :=
  List.filter (fun kp => is_some (upgrade kp.2)) (map_to_list entries).

Lemma retain_live_lookup upgrade entries key :
  retain_live upgrade entries !! key
  = match entries !! key with
    | Some p => if is_some (upgrade p) then Some p else None
    | None => None
    end.
Proof.
  unfold retain_live. rewrite map_lookup_filter.
  destruct (entries !! key) as [p|]; cbn; [|done]. case_guard as Hg; cbn in *.
  - destruct Hg as [v ->]. done.
  - destruct (upgrade p); [|done]. destruct Hg. eauto.
Qed.

(** A lookup sees exactly the owned registered value. *)
Lemma registry_get_spec upgrade entries key p :
  registry_get upgrade entries key = Some p <->
  entries !! key = Some p /\ is_Some (upgrade p).
Proof.
  unfold registry_get. split.
  - destruct (entries !! key) as [q|]; [|done]. destruct (upgrade q) eqn:E; [|done].
    intros [= <-]. eauto.
  - intros [-> [v ->]]. done.
Qed.

(** The key is registered at the returned address. *)
Lemma get_or_create_registered upgrade entries key reuse create fresh r entries' :
  get_or_create upgrade entries key reuse create fresh = (r, entries') ->
  entries' !! key = Some r.1.
Proof.
  unfold get_or_create. rewrite retain_live_lookup.
  destruct (entries !! key) as [p|] eqn:E; cbn; [destruct (upgrade p) eqn:E2; cbn|];
    [rewrite E2; destruct (reuse v) eqn:E3|..]; intros [= <- <-]; cbn;
    rewrite ?lookup_insert_eq; try done.
  rewrite retain_live_lookup, E, E2. done.
Qed.

(** Reuse happens exactly for an owned value that [reuse] accepts. *)
Lemma get_or_create_reused upgrade entries key reuse create fresh p entries' :
  get_or_create upgrade entries key reuse create fresh = ((p, None), entries') ->
  exists v, entries !! key = Some p /\ upgrade p = Some v /\ reuse v = true.
Proof.
  unfold get_or_create. rewrite retain_live_lookup.
  destruct (entries !! key) as [q|] eqn:E; cbn; [|done].
  destruct (upgrade q) eqn:E2; cbn; [|done]. rewrite E2.
  destruct (reuse v) eqn:E3; [|done]. intros [= <- <-]. eauto.
Qed.

(** A value that is still owned under another key keeps its registration; the other
    keys only lose values without an owner. *)
Lemma get_or_create_other upgrade entries key key' reuse create fresh r entries' :
  key <> key' ->
  get_or_create upgrade entries key reuse create fresh = (r, entries') ->
  registry_get upgrade entries' key' = registry_get upgrade entries key'.
Proof.
  intros Hne. unfold get_or_create. rewrite retain_live_lookup.
  assert (Hr : registry_get upgrade (retain_live upgrade entries) key'
               = registry_get upgrade entries key').
  { unfold registry_get. rewrite retain_live_lookup.
    destruct (entries !! key') as [q|]; [|done]. destruct (upgrade q) eqn:E; cbn; [by rewrite E|done]. }
  destruct (entries !! key) as [p|] eqn:E; cbn; [destruct (upgrade p) eqn:E2; cbn|];
    [rewrite E2; destruct (reuse v) eqn:E3|..]; intros [= <- <-]; try done;
    rewrite <-Hr; unfold registry_get; by rewrite lookup_insert_ne.
Qed.
End WeakRegistry.
