(* ===== verification/Breaker.v ===== *)
(** * Server health and the circuit breaker

    The two small state machines of [proxy/health.rs] that each upstream server has:
    the passive and active health ([ServerHealth]) and the circuit ([Breaker]). *)

From S2P Require Import Prelude Basics Upstream.

(** ** Server health *)

Record ServerHealth : Type := mkServerHealth {
  sh_failures : Z;
  unhealthy_until : option Instant;
  check_failed : bool;
  last_error : option string;
}.

Definition ServerHealth_default : ServerHealth := mkServerHealth 0 None false None.

Definition is_healthy (h : ServerHealth) (now : Instant) : bool :=
  negb (check_failed h) && is_none_or (fun until => until <=? now) (unhealthy_until h).

(** The body of [report_success] on the locked health. *)
Definition health_success (h : ServerHealth) : ServerHealth :=
  mkServerHealth 0 None (check_failed h)
    (if check_failed h then last_error h else None).

(** The body of [report_failure] on the locked health. *)
Definition health_failure (hc : HealthCheck) (error : string) (now : Instant)
    (h : ServerHealth) : ServerHealth :=
  let h := mkServerHealth (sh_failures h) (unhealthy_until h) (check_failed h) (Some error) in
  if max_fails hc =? 0 then h
  else
    let failures := sat_add u32_max (sh_failures h) 1 in
    if failures <? max_fails hc then
      mkServerHealth failures (unhealthy_until h) (check_failed h) (last_error h)
    else
      mkServerHealth failures (Some (now + fail_timeout hc)) (check_failed h) (last_error h).

(** The body of [record_check] on the locked health. *)
Definition health_check_result (r : result unit string) (h : ServerHealth) : ServerHealth :=
  match r with
  | Ok _ => ServerHealth_default
  | Err error => mkServerHealth (sh_failures h) (unhealthy_until h) true (Some error)
  end.

(** ** The circuit *)

Inductive Circuit : Type :=
| Closed
| Open (until : Instant)
| HalfOpen (trial : bool).

#[export] Instance Circuit_eq_dec : EqDecision Circuit.
Proof. solve_decision. Defined.

Record Breaker : Type := mkBreaker {
  circuit : Circuit;
  window_start : option Instant;
  requests : Z;
  failures : Z;
}.

Definition Breaker_default : Breaker := mkBreaker Closed None 0 0.

(** True when the circuit lets no traffic through. *)
Definition blocks (b : Breaker) (now : Instant) : bool :=
  match circuit b with
  | Closed | HalfOpen false => false
  | Open until => now <? until
  | HalfOpen true => true
  end.

(** Lets a request through: [None] when the circuit blocks it, [Some true] for the
    trial request of a half-open circuit. *)
Definition admit_request (b : Breaker) (now : Instant) : option bool * Breaker :=
  if blocks b now then (None, b)
  else match circuit b with
       | Closed => (Some false, b)
       | _ => (Some true, mkBreaker (HalfOpen true) (window_start b) (requests b) (failures b))
       end.

Definition breaker_open (config : CircuitBreaker) (now : Instant) : Breaker :=
  mkBreaker (Open (now + open_duration config)) None 0 0.

Definition breaker_count (w : Duration) (failed : bool) (now : Instant) (b : Breaker) : Breaker :=
  let b := if is_none_or (fun start => w <=? duration_since now start) (window_start b)
           then mkBreaker (circuit b) (Some now) 0 0 else b in
  let requests := sat_add u32_max (requests b) 1 in
  let failures := if failed then sat_add u32_max (failures b) 1 else failures b in
  mkBreaker (circuit b) (window_start b) requests failures.

Definition finish_trial (config : CircuitBreaker) (failed : bool) (now : Instant) (b : Breaker)
  : option CircuitState * Breaker :=
  match circuit b with
  | HalfOpen _ =>
      if failed then (Some StateOpen, breaker_open config now)
      else (Some StateClosed, Breaker_default)
  | _ => (None, b)
  end.

(** Records the result of a request, and returns the new state when the circuit
    changes. *)
Definition breaker_record (config : CircuitBreaker) (trial failed : bool) (now : Instant)
    (b : Breaker) : option CircuitState * Breaker :=
  if trial then finish_trial config failed now b
  else match circuit b with
       | Closed =>
           let b := breaker_count (window config) failed now b in
           let ratio := failures b * 100 in
           let limit := failure_ratio config * requests b in
           if (requests b <? min_requests config) || (ratio <? limit) then (None, b)
           else (Some StateOpen, breaker_open config now)
       | _ => (None, b)
       end.

(** Frees the slot of a trial request that ended without a result. *)
Definition breaker_release_trial (b : Breaker) : Breaker :=
  match circuit b with
  | HalfOpen true => mkBreaker (HalfOpen false) (window_start b) (requests b) (failures b)
  | _ => b
  end.

Definition breaker_state (b : Breaker) : CircuitState :=
  match circuit b with
  | Closed => StateClosed
  | Open _ => StateOpen
  | HalfOpen _ => StateHalfOpen
  end.

(** ** Well-formedness

    The counters fit 32 bits, the failures of a window never exceed its requests,
    and a circuit that is not closed has empty counters. *)

Record breaker_wf (b : Breaker) : Prop := {
  bwf_failures : 0 <= failures b <= requests b;
  bwf_requests : requests b <= u32_max;
  bwf_window : window_start b = None -> requests b = 0;
  bwf_not_closed : circuit b <> Closed -> requests b = 0 /\ window_start b = None;
}.

Create HintDb breaker discriminated.

Lemma breaker_wf_default : breaker_wf Breaker_default.
Proof. split; cbn; unfold u32_max; intros; try lia; congruence. Qed.

Lemma breaker_wf_open config now : breaker_wf (breaker_open config now).
Proof. split; cbn; unfold u32_max; intros; auto; lia. Qed.

Lemma breaker_wf_recircuit b c :
  breaker_wf b -> circuit b <> Closed ->
  breaker_wf (mkBreaker c (window_start b) (requests b) (failures b)).
Proof. intros [? ? ? Hn] Hc. destruct (Hn Hc). split; cbn; auto. Qed.

Lemma breaker_wf_count w failed now b :
  breaker_wf b -> circuit b = Closed -> breaker_wf (breaker_count w failed now b).
Proof.
  intros [Hf Hr Hw _] Hc. unfold breaker_count.
  destruct (is_none_or _ _) eqn:E; destruct failed; split; cbn;
    unfold sat_add, u32_max in *; intros;
    try lia; try congruence; destruct (window_start b); cbn in *; congruence || lia.
Qed.

#[export] Hint Resolve breaker_wf_default breaker_wf_open breaker_wf_recircuit breaker_wf_count
  : breaker.

(** ** Events of one circuit

    A circuit lives through admissions, results and releases.  [blive] is the circuit
    with the number of trial permits that are still out. *)

Lemma admit_wf b now : breaker_wf b -> breaker_wf (admit_request b now).2.
Proof.
  intros Hb. unfold admit_request. dcase; [done|].
  destruct (circuit b) eqn:Hc; cbn; auto; apply breaker_wf_recircuit; congruence.
Qed.

Lemma record_wf config trial failed now b :
  breaker_wf b -> breaker_wf (breaker_record config trial failed now b).2.
Proof.
  intros Hb. unfold breaker_record, finish_trial.
  destruct trial; destruct (circuit b) eqn:Hc; repeat dcase; cbn; auto with breaker.
Qed.

Lemma release_wf b : breaker_wf b -> breaker_wf (breaker_release_trial b).
Proof.
  intros Hb. unfold breaker_release_trial.
  destruct (circuit b) as [| |[]] eqn:Hc; auto. apply breaker_wf_recircuit; congruence.
Qed.

#[export] Hint Resolve admit_wf record_wf release_wf : breaker.

(** The circuit together with the trial permits that are out. *)
Inductive breaker_step (config : CircuitBreaker) : Breaker * nat -> Breaker * nat -> Prop :=
| step_admit b n now trial b' :
    admit_request b now = (Some trial, b') ->
    breaker_step config (b, n) (b', if trial then S n else n)
| step_refuse b n now b' :
    admit_request b now = (None, b') ->
    breaker_step config (b, n) (b', n)
| step_record_trial b n failed now :
    breaker_step config (b, S n) ((breaker_record config true failed now b).2, n)
| step_record_plain b n failed now :
    breaker_step config (b, n) ((breaker_record config false failed now b).2, n)
| step_release b n :
    breaker_step config (b, S n) (breaker_release_trial b, n).

(** Exactly one trial permit is out while the trial slot is taken, none otherwise. *)
Definition trial_inv (s : Breaker * nat) : Prop :=
  s.2 = match circuit s.1 with HalfOpen true => 1%nat | _ => 0%nat end.

Lemma trial_inv_step config s s' :
  trial_inv s -> breaker_step config s s' -> trial_inv s'.
Proof.
  unfold trial_inv. intros Hi Hs. destruct Hs as [b n now trial b' Ha|b n now b' Ha|b n f now|b n f now|b n];
    cbn in *.
  - unfold admit_request, blocks in Ha.
    destruct (circuit b) as [|u|[]] eqn:Hc; try (destruct (now <? u)); inversion Ha; subst; cbn;
      rewrite ?Hc; auto.
  - unfold admit_request, blocks in Ha.
    destruct (circuit b) as [|u|[]] eqn:Hc; try (destruct (now <? u)); inversion Ha; subst; cbn;
      rewrite ?Hc; auto.
  - unfold finish_trial. destruct (circuit b) as [|u|[]] eqn:Hc; try lia.
    destruct f; cbn; lia.
  - unfold breaker_record. destruct (circuit b) as [|u|[]] eqn:Hc; cbn; rewrite ?Hc; try done.
    dcase; cbn; [|done].
    unfold breaker_count. dcase; cbn; rewrite ?Hc; done.
  - unfold breaker_release_trial. destruct (circuit b) as [|u|[]] eqn:Hc; cbn; rewrite ?Hc; lia.
Qed.

Lemma trial_inv_reachable config s s' :
  trial_inv s -> rtc (breaker_step config) s s' -> trial_inv s'.
Proof. intros Hi Hr. induction Hr; eauto using trial_inv_step. Qed.

(** A taken trial slot without a permit never frees itself. *)
Lemma stuck_step config b n s' :
  circuit b = HalfOpen true -> n = 0%nat -> breaker_step config (b, n) s' ->
  circuit s'.1 = HalfOpen true /\ s'.2 = 0%nat.
Proof.
  intros Hc -> Hs. inversion Hs; subst; cbn in *.
  - unfold admit_request, blocks in *. rewrite Hc in *. discriminate.
  - unfold admit_request, blocks in *. rewrite Hc in *. simplify_eq. auto.
  - unfold breaker_record. rewrite Hc. auto.
Qed.

Lemma stuck_reachable config s s' :
  rtc (breaker_step config) s s' -> circuit s.1 = HalfOpen true -> s.2 = 0%nat ->
  circuit s'.1 = HalfOpen true /\ s'.2 = 0%nat.
Proof.
  intros Hr. induction Hr as [|[b n] y z Hs Hr IH]; [auto|]. intros Hc Hn. cbn in *.
  destruct (stuck_step config b n y Hc Hn Hs). auto.
Qed.

(** ** Properties *)

(** Every circuit operation keeps the circuit well formed: the counters stay within
    32 bits, a window never counts more failures than requests, and an open or half-open
    circuit has no counts left over. *)
Theorem breaker_invariant config b now trial failed :
  breaker_wf b ->
  breaker_wf (admit_request b now).2 /\
  breaker_wf (breaker_record config trial failed now b).2 /\
  breaker_wf (breaker_release_trial b).
Proof. auto with breaker. Qed.

Lemma breaker_invariant_witness :
  breaker_wf (admit_request Breaker_default 0).2 /\
  breaker_wf (breaker_record CircuitBreaker_default false true 0 Breaker_default).2 /\
  breaker_wf (breaker_release_trial Breaker_default).
Proof. apply breaker_invariant. apply breaker_wf_default. Defined.

(** A closed circuit opens on a plain result exactly when the window, with this
    result counted, has at least [min_requests] requests and a failure share of at least
    [failure_ratio] percent; it is then open for [open_duration], with its counters
    cleared, and otherwise it stays closed with the result counted.  A window that has run for
    [window] is over, and the result starts a new one. *)
Theorem breaker_opens_exactly config b (failed : bool) now :
  circuit b = Closed ->
  let live : bool := is_some_and (fun start => duration_since now start <? window config) (window_start b) in
  let n := Z.min u32_max ((if live then requests b else 0) + 1) in
  let f : Z := if failed then Z.min u32_max ((if live then failures b else 0) + 1)
           else if live then failures b else 0 in
  let opens := min_requests config <= n /\ failure_ratio config * n <= f * 100 in
  (opens -> breaker_record config false failed now b
            = (Some StateOpen, mkBreaker (Open (now + open_duration config)) None 0 0)) /\
  (~ opens -> breaker_record config false failed now b
              = (None, mkBreaker Closed (if live then window_start b else Some now) n f)).
Proof.
  intros Hc live n f opens. unfold breaker_record. rewrite Hc.
  assert (Hb1 : breaker_count (window config) failed now b
                = mkBreaker Closed (if live then window_start b else Some now) n f).
  { unfold breaker_count, n, f, live, sat_add. rewrite !(Z.min_comm u32_max).
    destruct (window_start b) as [start|] eqn:Es; cbn [is_none_or is_some_and]; [rewrite Z.ltb_antisym|];
      [destruct (window config <=? duration_since now start)|]; cbn [negb circuit window_start requests failures];
      by rewrite ?Hc, ?Es. }
  rewrite Hb1. cbn [requests failures].
  destruct ((n <? min_requests config) || (f * 100 <? failure_ratio config * n)) eqn:E; unfold opens.
  - apply orb_true_iff in E as [E|E]; zbool; split; try lia; done.
  - zbool. split; [done|lia].
Qed.

Lemma breaker_opens_exactly_witness :
  let config := mkCircuitBreaker true 50 1 (from_secs 10) (from_secs 30) in
  breaker_record config false true 7 Breaker_default
  = (Some StateOpen, mkBreaker (Open (7 + from_secs 30)) None 0 0).
Proof.
  intros config. apply (breaker_opens_exactly config Breaker_default true 7 eq_refl).
  vm_compute. split; discriminate.
Defined.

(** From a fresh circuit, whatever the sequence of admissions, results and
    abandoned requests, the trial slot of the circuit is taken exactly while one trial
    permit is out: there are never two trials of one server at the same time, and the slot
    is never taken without a trial. *)
Theorem single_trial config s :
  rtc (breaker_step config) (Breaker_default, 0%nat) s ->
  s.2 = match circuit s.1 with HalfOpen true => 1%nat | _ => 0%nat end.
Proof. intros Hr. by eapply trial_inv_reachable in Hr. Qed.

Lemma single_trial_witness :
  let config := mkCircuitBreaker true 50 1 10 30 in
  let s : Breaker * nat := (mkBreaker (HalfOpen true) None 0 0, 1%nat) in
  s.2 = match circuit s.1 with HalfOpen true => 1%nat | _ => 0%nat end.
Proof.
  intros config s. apply (single_trial config).
  eapply rtc_l; [exact (step_record_plain config Breaker_default 0 true 5)|].
  eapply rtc_l; [|apply rtc_refl].
  exact (step_admit config (mkBreaker (Open 35) None 0 0) 0 40 true _ eq_refl).
Defined.
