(* ===== verification/Balancer.v ===== *)
(** * Load balancing

    The upstream group of [proxy/health.rs]: the members of a group, the orders of the
    load balancing policies and the candidates of a request.  The permits that requests
    hold and the counters that groups share are in [Permits.v]. *)

From S2P Require Import Prelude Basics Upstream Breaker Float64 GeoIp.

Record GroupServer : Type := mkGroupServer {
  addr : string;
  weight : Z;
  region : option string;
  countries : list string;
}.

#[export] Instance GroupServer_eq_dec : EqDecision GroupServer.
Proof. solve_decision. Defined.

Record ServerLiveMetrics : Type := mkServerLiveMetrics {
  m_requests : Z;
  m_errors : Z;
  total_rtt_micros : Z;
  rtt_count : Z;
  last_rtt_micros : Z;
  total_bytes : Z;
}.

Definition ServerLiveMetrics_default : ServerLiveMetrics := mkServerLiveMetrics 0 0 0 0 0 0.

Definition record_request (m : ServerLiveMetrics) : ServerLiveMetrics :=
  mkServerLiveMetrics (wrap64 (m_requests m + 1)) (m_errors m) (total_rtt_micros m)
    (rtt_count m) (last_rtt_micros m) (total_bytes m).

Definition record_error (m : ServerLiveMetrics) : ServerLiveMetrics :=
  mkServerLiveMetrics (m_requests m) (wrap64 (m_errors m + 1)) (total_rtt_micros m)
    (rtt_count m) (last_rtt_micros m) (total_bytes m).

Definition record_rtt (d : Duration) (m : ServerLiveMetrics) : ServerLiveMetrics :=
  let micros := wrap64 (as_micros d) in
  mkServerLiveMetrics (m_requests m) (m_errors m) (wrap64 (total_rtt_micros m + micros))
    (wrap64 (rtt_count m + 1)) micros (total_bytes m).

Definition record_bytes (bytes : Z) (m : ServerLiveMetrics) : ServerLiveMetrics :=
  mkServerLiveMetrics (m_requests m) (m_errors m) (total_rtt_micros m)
    (rtt_count m) (last_rtt_micros m) (wrap64 (total_bytes m + bytes)).

Definition avg_rtt_ms (m : ServerLiveMetrics) : option f64 :=
  if rtt_count m =? 0 then
    if 0 <? last_rtt_micros m
    then Some (f64_div (f64_of_Z (last_rtt_micros m)) (f64_of_Z 1000)) else None
  else Some (f64_div (f64_div (f64_of_Z (total_rtt_micros m)) (f64_of_Z (rtt_count m)))
               (f64_of_Z 1000)).

(** How the active health check reaches each server; the connection pool and the gRPC
    clients are owned elsewhere. *)
Inductive Probe : Type :=
| ProbeConnect (targets : list (option (string * Z)))
| ProbeConnectLocal (targets : list (option (string * Z)))
| ProbeResolve (targets : list (option (string * Z)))
| ProbeHttp (uris : list (option string))
| ProbeGrpc (targets : list (option string)) (service : string).

(** The group.  [active_conns] and [metrics] hold the addresses of the shared counters
    of each server; [geoip] is the country lookup of the GeoIP resolver. *)
Record UpstreamGroup : Type := mkUpstreamGroup {
  members : list GroupServer;
  policy : LoadBalancing;
  health_check : HealthCheck;
  servers : list ServerHealth;
  current_weights : list Z;
  circuit_breaker : CircuitBreaker;
  breakers : list Breaker;
  probe : option Probe;
  active_conns : list nat;
  metrics : list nat;
  geoip : option (IpAddr -> option string);
}.

Definition set_servers (f : list ServerHealth -> list ServerHealth) (g : UpstreamGroup)
  : UpstreamGroup :=
  mkUpstreamGroup (members g) (policy g) (health_check g) (f (servers g)) (current_weights g)
    (circuit_breaker g) (breakers g) (probe g) (active_conns g) (metrics g) (geoip g).

Definition set_breakers (f : list Breaker -> list Breaker) (g : UpstreamGroup) : UpstreamGroup :=
  mkUpstreamGroup (members g) (policy g) (health_check g) (servers g) (current_weights g)
    (circuit_breaker g) (f (breakers g)) (probe g) (active_conns g) (metrics g) (geoip g).

Definition set_current_weights (c : list Z) (g : UpstreamGroup) : UpstreamGroup :=
  mkUpstreamGroup (members g) (policy g) (health_check g) (servers g) c
    (circuit_breaker g) (breakers g) (probe g) (active_conns g) (metrics g) (geoip g).

Definition set_conns_metrics (a m : list nat) (g : UpstreamGroup) : UpstreamGroup :=
  mkUpstreamGroup (members g) (policy g) (health_check g) (servers g) (current_weights g)
    (circuit_breaker g) (breakers g) (probe g) a m (geoip g).

Definition set_probe (p : Probe) (g : UpstreamGroup) : UpstreamGroup :=
  mkUpstreamGroup (members g) (policy g) (health_check g) (servers g) (current_weights g)
    (circuit_breaker g) (breakers g) (Some p) (active_conns g) (metrics g) (geoip g).

Definition set_geoip (r : IpAddr -> option string) (g : UpstreamGroup) : UpstreamGroup :=
  mkUpstreamGroup (members g) (policy g) (health_check g) (servers g) (current_weights g)
    (circuit_breaker g) (breakers g) (probe g) (active_conns g) (metrics g) (Some r).

(** ** Accessors by server index *)

Definition addr_at (g : UpstreamGroup) (index : nat) : string :=
  map_or (members g !! index) "" addr.

Definition weight_at (g : UpstreamGroup) (index : nat) : Z :=
  map_or (members g !! index) 0 weight.

Definition circuit_state (g : UpstreamGroup) (index : nat) : CircuitState :=
  map_or (breakers g !! index) StateClosed breaker_state.

Definition blocked (g : UpstreamGroup) (index : nat) (now : Instant) : bool :=
  enabled (circuit_breaker g) && is_some_and (fun b => blocks b now) (breakers g !! index).

(** ** Health reports *)

Definition report_success (index : nat) (g : UpstreamGroup) : UpstreamGroup :=
  set_servers (vec_update health_success index) g.

Definition report_failure (index : nat) (error : string) (now : Instant) (g : UpstreamGroup)
  : UpstreamGroup :=
  set_servers (vec_update (health_failure (health_check g) error now) index) g.

Definition record_check (index : nat) (r : result unit string) (g : UpstreamGroup)
  : UpstreamGroup :=
  set_servers (vec_update (health_check_result r) index) g.

Definition record_circuit (index : nat) (trial failed : bool) (now : Instant)
    (g : UpstreamGroup) : UpstreamGroup :=
  if negb (enabled (circuit_breaker g)) then g
  else set_breakers
         (vec_update (fun b => (breaker_record (circuit_breaker g) trial failed now b).2) index) g.

Definition release_trial (index : nat) (g : UpstreamGroup) : UpstreamGroup :=
  set_breakers (vec_update breaker_release_trial index) g.

(** ** The orders of the policies *)

(** Sorts servers by a key that is computed once per server. *)
Definition sort_keyed {K} (leb : K * nat -> K * nat -> bool) (key : nat -> K) (l : list nat)
  : list nat := map snd (sort_by leb (map (fun index => (key index, index)) l)).

(** Lexicographic order of a key and a server index. *)
Definition leb_then_index (cmp : Z -> Z -> comparison) (a b : Z * nat) : bool :=
  match cmp a.1 b.1 with
  | Lt => true
  | Eq => Nat.leb a.2 b.2
  | Gt => false
  end.

Definition least_conn_score (g : UpstreamGroup) (conns : list Z) (index : nat) : f64 :=
  let active := map_or (active_conns g !! index) 0 (fun loc => map_or (conns !! loc) 0 id) in
  f64_div (f64_of_Z active) (f64_of_Z (Z.max (weight_at g index) 1)).

(** Orders servers by least active connections, weighted by server weight. *)
Definition order_least_conn (g : UpstreamGroup) (conns : list Z) (l : list nat) : list nat :=
  sort_keyed (leb_then_index Z.compare) (fun i => total_key (least_conn_score g conns i)) l.

Definition is_country_match (m : GroupServer) (country : string) : bool :=
  existsb (fun c => eq_ignore_ascii_case c country) (countries m)
  || is_some_and (fun r => eq_ignore_ascii_case r country) (region m).

Definition is_region_preset_match (m : GroupServer) (country : string) : bool :=
  match region m with
  | None => false
  | Some r =>
      match lookup_preset r with
      | Some preset => existsb (fun c => eq_ignore_ascii_case c country) (preset_countries preset)
      | None => false
      end
  end.

Definition server_geo_tier (g : UpstreamGroup) (index : nat) (client_country : option string) : Z :=
  match client_country with
  | None => 0
  | Some country =>
      match members g !! index with
      | None => 3
      | Some m =>
          if is_country_match m country then 0
          else if is_region_preset_match m country then 1
          else if is_none (region m) && match countries m with [] => true | _ => false end then 2
          else 3
      end
  end.

Definition server_latency_score (g : UpstreamGroup) (store : list ServerLiveMetrics)
    (index : nat) : Z :=
  match metrics g !! index with
  | None => u64_max
  | Some loc =>
      let metric := map_or (store !! loc) ServerLiveMetrics_default id in
      if negb (rtt_count metric =? 0) then total_rtt_micros metric / rtt_count metric
      else if 0 <? last_rtt_micros metric then last_rtt_micros metric
      else 1000000 / Z.max (weight_at g index) 1
  end.

(** Orders servers by lowest measured round-trip latency. *)
Definition order_latency (g : UpstreamGroup) (store : list ServerLiveMetrics) (l : list nat)
  : list nat :=
  sort_keyed (leb_then_index Z.compare) (server_latency_score g store) l.

Definition geoip_country (g : UpstreamGroup) (client : IpAddr) : option string :=
  match geoip g with None => None | Some r => r client end.

Definition leb_geo (a b : (Z * Z) * nat) : bool :=
  match Z.compare a.1.1 b.1.1 with
  | Lt => true
  | Gt => false
  | Eq => leb_then_index Z.compare (a.1.2, a.2) (b.1.2, b.2)
  end.

(** Orders servers by proximity tier, then latency, then index. *)
Definition order_geo_proximity (g : UpstreamGroup) (store : list ServerLiveMetrics)
    (client : IpAddr) (l : list nat) : list nat :=
  let country := geoip_country g client in
  sort_keyed leb_geo (fun i => (server_geo_tier g i country, server_latency_score g store i)) l.

Section Numeric.
(** The FNV hasher of the [fnv] crate over the slices written to it, and the
    transcendental functions of the floating-point library. *)
Context (fnv_finish : list (list Z) -> Z) (f64_ln : f64 -> f64) (f64_powf : f64 -> f64 -> f64).

(** The weighted rendezvous score [-ln(u) / weight]. *)
Definition hash_score (g : UpstreamGroup) (index : nat) (client : IpAddr) : f64 :=
  let h := fnv_finish [octets (to_canonical client); as_bytes (addr_at g index)] in
  let unit := f64_div (f64_add (f64_of_Z (Z.shiftr h 11)) (f64_of_Z 1))
                (f64_add (f64_of_Z (Z.shiftl 1 53)) (f64_of_Z 1)) in
  f64_div (f64_neg (f64_ln unit)) (f64_of_Z (weight_at g index)).

Definition leb_key_asc (a b : Z * nat) : bool := a.1 <=? b.1.
Definition leb_key_desc (a b : Z * nat) : bool := b.1 <=? a.1.

Definition order_hash (g : UpstreamGroup) (client : IpAddr) (l : list nat) : list nat :=
  sort_keyed leb_key_asc (fun i => total_key (hash_score g i client)) l.

(** The weighted random order of Efraimidis and Spirakis; [draws] are the random
    numbers in [0, 1) in the order they are drawn, one per server. *)
Definition order_random (g : UpstreamGroup) (draws : list f64) (l : list nat) : list nat :=
  let keyed := zip_with (fun u index =>
      (total_key (f64_powf u (f64_div (f64_of_Z 1) (f64_of_Z (weight_at g index)))), index)) draws l in
  map snd (sort_by leb_key_desc keyed).

(** One pass of the smooth weighted round robin over the servers: each gains its
    weight, and the first server with the highest value is remembered. *)
Fixpoint rr_gain (w : nat -> Z) (position : nat) (l : list nat) (current : list Z)
    (best : option (nat * Z)) : list Z * option (nat * Z) :=
  match l with
  | [] => (current, best)
  | index :: rest =>
      match current !! index with
      | None => rr_gain w (S position) rest current best
      | Some v =>
          let value := v + w index in
          let current := <[index := value]> current in
          let best := if is_none_or (fun b => b.2 <? value) best
                      then Some (position, value) else best in
          rr_gain w (S position) rest current best
      end
  end.

(** [slice::rotate_left]. *)
Definition rotate_left {A} (n : nat) (l : list A) : list A := drop n l ++ take n l.

Definition order_round_robin (g : UpstreamGroup) (l : list nat) : list nat * list Z :=
  let total := sumZ (weight_at g) l in
  let '(current, best) := rr_gain (weight_at g) 0 l (current_weights g) None in
  match best with
  | None => (l, current)
  | Some (position, _) =>
      let current := match l !! position with
                     | Some i => vec_update (fun v => v - total) i current
                     | None => current
                     end in
      (rotate_left position l, current)
  end.

(** The world outside the group that an order reads. *)
Record Observation : Type := mkObservation {
  o_conns : list Z;
  o_metrics : list ServerLiveMetrics;
  o_draws : list f64;
}.

Definition order (g : UpstreamGroup) (o : Observation) (l : list nat) (client : IpAddr)
  : list nat * UpstreamGroup :=
  match policy g with
  | RoundRobin => let '(l', c) := order_round_robin g l in (l', set_current_weights c g)
  | LeastConn => (order_least_conn g (o_conns o) l, g)
  | Random => (order_random g (o_draws o) l, g)
  | First => (l, g)
  | ClientIpHash => (order_hash g client l, g)
  | GeoProximity => (order_geo_proximity g (o_metrics o) client l, g)
  | Latency => (order_latency g (o_metrics o) l, g)
  end.

Definition eligible (g : UpstreamGroup) (now : Instant) (index : nat) : bool :=
  (0 <? weight_at g index) && negb (blocked g index now).

Definition healthy_at (g : UpstreamGroup) (now : Instant) (index : nat) : bool :=
  is_some_and (fun h => is_healthy h now) (servers g !! index).

(** The servers to try, in order: the healthy ones in the order of the policy, then the
    unhealthy ones. *)
Definition candidates (g : UpstreamGroup) (o : Observation) (now : Instant) (client : IpAddr)
  : list nat * UpstreamGroup :=
  let '(healthy, unhealthy) :=
    List.partition (healthy_at g now) (List.filter (eligible g now) (seq 0 (length (members g)))) in
  match healthy with
  | [] => order g o unhealthy client
  | _ => let '(ordered, g') := order g o healthy client in (ordered ++ unhealthy, g')
  end.
End Numeric.

(** True when a sticky session can stay on the server. *)
Definition is_pinnable (g : UpstreamGroup) (now : Instant) (index : nat) : bool :=
  negb (blocked g index now) && healthy_at g now index.

(** ** Facts on the keyed orders *)

Section KeyedOrders.
Context {K : Type} (leb : K * nat -> K * nat -> bool) (key : nat -> K).

Lemma sort_keyed_perm l : sort_keyed leb key l ≡ₚ l.
Proof.
  unfold sort_keyed. rewrite sort_by_perm, map_map. cbn. by rewrite map_id.
Qed.

Context (leb_total : forall x y, leb x y = true \/ leb y x = true).
Context (leb_trans : forall x y z, leb x y = true -> leb y z = true -> leb x z = true).

Lemma sort_keyed_pairs l :
  sort_by leb (map (fun index => (key index, index)) l)
  = map (fun index => (key index, index)) (sort_keyed leb key l).
Proof.
  unfold sort_keyed. rewrite map_map.
  assert (H : Forall (fun p => p = (key p.2, p.2))
                (sort_by leb (map (fun index => (key index, index)) l))).
  { rewrite sort_by_perm. apply Forall_forall. intros p Hp.
    apply list_elem_of_fmap in Hp as (i & -> & _). done. }
  revert H. generalize (sort_by leb (map (fun index => (key index, index)) l)).
  induction 1 as [|[k i] r Hp Hr IH]; cbn; [done|]. cbn in Hp. injection Hp as ->. by rewrite <-IH.
Qed.

Lemma sort_keyed_sorted l :
  StronglySorted (fun i j => leb (key i, i) (key j, j) = true) (sort_keyed leb key l).
Proof.
  pose proof (sort_by_sorted leb leb_total leb_trans (map (fun index => (key index, index)) l)) as H.
  rewrite sort_keyed_pairs in H. revert H. unfold sorted_by.
  generalize (sort_keyed leb key l). intros r.
  induction r as [|i r IH]; cbn; inversion 1; subst; constructor; auto.
  by rewrite Forall_map in *.
Qed.

Lemma filter_map_pairs (p : nat -> bool) l :
  List.filter (fun q : K * nat => p q.2) (map (fun index => (key index, index)) l)
  = map (fun index => (key index, index)) (List.filter p l).
Proof. induction l as [|i l IH]; cbn; [done|]. destruct (p i); cbn; by rewrite IH. Qed.

Lemma map_snd_filter (p : nat -> bool) (l : list (K * nat)) :
  map snd (List.filter (fun q => p q.2) l) = List.filter p (map snd l).
Proof. induction l as [|[k i] l IH]; cbn; [done|]. destruct (p i); cbn; by rewrite IH. Qed.

(** Servers that leave the list leave the order, and the others keep their places. *)
Lemma sort_keyed_filter (p : nat -> bool) l :
  sort_keyed leb key (List.filter p l) = List.filter p (sort_keyed leb key l).
Proof.
  unfold sort_keyed. rewrite <-filter_map_pairs, <-filter_sort_by, map_snd_filter by done. done.
Qed.
End KeyedOrders.

Lemma leb_then_index_total x y :
  leb_then_index Z.compare x y = true \/ leb_then_index Z.compare y x = true.
Proof.
  unfold leb_then_index. rewrite (Z.compare_antisym x.1 y.1).
  destruct (x.1 ?= y.1); cbn; rewrite ?Nat.leb_le; lia.
Qed.

Lemma leb_then_index_spec x y :
  leb_then_index Z.compare x y = true <-> x.1 < y.1 \/ (x.1 = y.1 /\ (x.2 <= y.2)%nat).
Proof.
  unfold leb_then_index. destruct (Z.compare_spec x.1 y.1); rewrite ?Nat.leb_le; intuition (lia || done).
Qed.

Lemma leb_then_index_trans x y z :
  leb_then_index Z.compare x y = true -> leb_then_index Z.compare y z = true ->
  leb_then_index Z.compare x z = true.
Proof. rewrite !leb_then_index_spec. lia. Qed.

Lemma leb_geo_spec x y :
  leb_geo x y = true <->
  x.1.1 < y.1.1 \/ (x.1.1 = y.1.1 /\ (x.1.2 < y.1.2 \/ (x.1.2 = y.1.2 /\ (x.2 <= y.2)%nat))).
Proof.
  unfold leb_geo. destruct (Z.compare_spec x.1.1 y.1.1);
    rewrite ?leb_then_index_spec; cbn; intuition (lia || done).
Qed.

Lemma leb_geo_total x y : leb_geo x y = true \/ leb_geo y x = true.
Proof. rewrite !leb_geo_spec. lia. Qed.

Lemma leb_geo_trans x y z : leb_geo x y = true -> leb_geo y z = true -> leb_geo x z = true.
Proof. rewrite !leb_geo_spec. lia. Qed.

(** ** Facts on the smooth weighted round robin *)

Section RoundRobin.
Context (w : nat -> Z).

(** The current weight of a server; servers out of range have none. *)
Definition cw (current : list Z) (i : nat) : Z := default 0 (current !! i).

Lemma cw_insert_eq current i v : (i < length current)%nat -> cw (<[i := v]> current) i = v.
Proof. intros H. unfold cw. by rewrite list_lookup_insert_eq. Qed.

Lemma cw_insert_ne current i j v : i <> j -> cw (<[i := v]> current) j = cw current j.
Proof. intros H. unfold cw. by rewrite list_lookup_insert_ne. Qed.

Lemma rr_gain_length l pos current best :
  length (rr_gain w pos l current best).1 = length current.
Proof.
  revert pos current best. induction l as [|i l IH]; intros; cbn; [done|].
  destruct (current !! i); rewrite IH; by rewrite ?length_insert.
Qed.

Lemma rr_gain_current l pos current best i :
  NoDup l -> (forall j, j ∈ l -> (j < length current)%nat) ->
  cw (rr_gain w pos l current best).1 i
  = cw current i + (if decide (i ∈ l) then w i else 0).
Proof.
  intros Hnd. revert pos current best. induction Hnd as [|j l Hj Hnd IH]; intros pos current best Hr; cbn.
  - rewrite decide_False by set_solver. lia.
  - destruct (lookup_lt_is_Some_2 current j) as [v Hv]; [set_solver|]. rewrite Hv.
    rewrite IH by (intros k Hk; rewrite length_insert; set_solver).
    destruct (decide (i = j)) as [->|Hne].
    + rewrite cw_insert_eq by (eapply lookup_lt_Some; eauto).
      rewrite decide_False, decide_True by set_solver. unfold cw. rewrite Hv. cbn. lia.
    + rewrite cw_insert_ne by done. destruct (decide (i ∈ l)).
      * rewrite decide_True by set_solver. done.
      * rewrite decide_False by set_solver. done.
Qed.

(** The remembered server carries the first maximum. *)
Lemma rr_gain_best l pos current best :
  NoDup l -> (forall j, j ∈ l -> (j < length current)%nat) -> l <> [] \/ is_Some best ->
  exists p v, (rr_gain w pos l current best).2 = Some (p, v) /\
    (forall p0 v0, best = Some (p0, v0) -> v0 <= v) /\
    (forall j, j ∈ l -> cw current j + w j <= v) /\
    (best = Some (p, v) \/
     exists k i, p = (pos + k)%nat /\ l !! k = Some i /\ v = cw current i + w i).
Proof.
  intros Hnd. revert pos current best.
  induction Hnd as [|j l Hj Hnd IH]; intros pos current best Hr Hne; cbn.
  - destruct Hne as [|[[p v] ->]]; [done|]. exists p, v. split_and!; auto; [|set_solver].
    intros ? ? [= <- <-]. lia.
  - destruct (lookup_lt_is_Some_2 current j) as [u Hu]; [set_solver|]. rewrite Hu.
    assert (Hcw : cw current j = u) by (unfold cw; by rewrite Hu).
    destruct (IH (S pos) (<[j := u + w j]> current)
      (if is_none_or (fun b => b.2 <? u + w j) best then Some (pos, u + w j) else best))
      as (p & v & E & Hold & Hmax & Hwho).
    { intros k Hk. rewrite length_insert. set_solver. }
    { right. destruct best as [[]|]; cbn; [dcase|]; eauto. }
    exists p, v. rewrite E.
    assert (Hgain : forall k, k ∈ l -> cw (<[j := u + w j]> current) k = cw current k).
    { intros k Hk. apply cw_insert_ne. set_solver. }
    assert (Hnew : u + w j <= v).
    { destruct best as [[p0 v0]|]; cbn in *; [destruct (v0 <? u + w j) eqn:Eb; zbool|].
      - exact (Hold _ _ eq_refl).
      - specialize (Hold _ _ eq_refl). lia.
      - exact (Hold _ _ eq_refl). }
    split_and!; [done| | |].
    + intros p0 v0 ->. cbn in *. destruct (v0 <? u + w j) eqn:Eb; zbool; [lia|].
      exact (Hold _ _ eq_refl).
    + intros k Hk. apply elem_of_cons in Hk as [->|Hk]; [lia|]. rewrite <-Hgain by done. auto.
    + destruct Hwho as [Hwho|(k & i & -> & Hk & ->)].
      * destruct (is_none_or _ best) eqn:Eb; [|by left]. injection Hwho as <- <-.
        right. exists 0%nat, j. cbn. split_and!; [lia|done|lia].
      * right. exists (S k), i. cbn. split_and!; [lia|done|].
        rewrite Hgain; [done|]. eapply list_elem_of_lookup_2; eauto.
Qed.
End RoundRobin.

(** One round: the first maximum [b] goes first and pays the total weight. *)
Lemma order_round_robin_spec g l :
  NoDup l -> (forall j, j ∈ l -> (j < length (current_weights g))%nat) -> l <> [] ->
  exists k b current',
    order_round_robin g l = (rotate_left k l, current') /\
    l !! k = Some b /\
    length current' = length (current_weights g) /\
    (forall j, j ∈ l ->
       cw (current_weights g) j + weight_at g j <= cw (current_weights g) b + weight_at g b) /\
    (forall i, cw current' i
       = cw (current_weights g) i + (if decide (i ∈ l) then weight_at g i else 0)
         - (if decide (i = b) then sumZ (weight_at g) l else 0)).
Proof.
  intros Hnd Hr Hne. unfold order_round_robin.
  destruct (rr_gain (weight_at g) 0 l (current_weights g) None) as [current best] eqn:E.
  pose proof (rr_gain_length (weight_at g) l 0 (current_weights g) None) as Hlen.
  pose proof (fun i => rr_gain_current (weight_at g) l 0 (current_weights g) None i Hnd Hr) as Hcur.
  destruct (rr_gain_best (weight_at g) l 0 (current_weights g) None Hnd Hr (or_introl Hne))
    as (p & v & Eb & _ & Hmax & Hwho).
  rewrite E in *. cbn in *. subst best.
  destruct Hwho as [|(k & b & -> & Hk & ->)]; [done|]. cbn in Hk |- *. rewrite Hk.
  assert (Hb : b ∈ l) by (eapply list_elem_of_lookup_2; eauto).
  exists k, b. eexists. split_and!; [done|done|by unfold vec_update; rewrite length_alter|done|].
  intros i. unfold vec_update.
  assert (Halter : cw (alter (fun v => v - sumZ (weight_at g) l) b current) i
                   = cw current i - (if decide (i = b) then sumZ (weight_at g) l else 0)).
  { unfold cw. destruct (decide (i = b)) as [->|Hi].
    - rewrite list_lookup_alter_eq.
      destruct (lookup_lt_is_Some_2 current b) as [x ->]; [rewrite Hlen; auto|]. done.
    - rewrite list_lookup_alter_ne by done. lia. }
  rewrite Halter, Hcur. done.
Qed.

Lemma rotate_left_perm {A} n (l : list A) : rotate_left n l ≡ₚ l.
Proof. unfold rotate_left. rewrite Permutation_app_comm, take_drop. done. Qed.

Lemma rotate_left_head {A} k (l : list A) b : l !! k = Some b -> head (rotate_left k l) = Some b.
Proof. intros H. unfold rotate_left. by rewrite (drop_S _ _ _ H). Qed.

(** [rounds n] runs [n] rounds and collects the first server of each. *)
Fixpoint rounds (n : nat) (l : list nat) (g : UpstreamGroup) : list nat * UpstreamGroup :=
  match n with
  | O => ([], g)
  | S n =>
      let '(picks, g) := rounds n l g in
      let '(l', c) := order_round_robin g l in
      (picks ++ match head l' with Some b => [b] | None => [] end, set_current_weights c g)
  end.

Definition zero_weights (g : UpstreamGroup) : Prop :=
  forall i, cw (current_weights g) i = 0.

(** What holds after [n] rounds from zero weights. *)
Record rounds_inv (n : nat) (l picks : list nat) (g0 g : UpstreamGroup) : Prop := {
  ri_members : members g = members g0;
  ri_length : length (current_weights g) = length (current_weights g0);
  ri_picks : Z.of_nat (length picks) = Z.of_nat n /\ Forall (fun b => b ∈ l) picks;
  ri_current : forall i, i ∈ l ->
    cw (current_weights g) i
    = Z.of_nat n * weight_at g0 i - sumZ (weight_at g0) l * count (Nat.eqb i) picks;
  ri_lower : forall i, i ∈ l -> - sumZ (weight_at g0) l < cw (current_weights g) i;
}.

(** Each pick is counted for exactly one server of the list. *)
Lemma sumZ_count_picks l picks :
  NoDup l -> Forall (fun b => b ∈ l) picks ->
  sumZ (fun i => count (Nat.eqb i) picks) l = Z.of_nat (length picks).
Proof.
  intros Hnd. induction 1 as [|b picks Hb Hp IH]; cbn.
  - rewrite sumZ_const. lia.
  - rewrite sumZ_add, IH.
    assert (Hone : sumZ (fun i => if Nat.eqb i b then 1 else 0) l = 1).
    { etransitivity; [|exact (sumZ_indicator b 1 l Hnd Hb)]. apply sumZ_ext. intros a _.
      destruct (Nat.eqb_spec a b), (decide (a = b)); done || congruence. }
    lia.
Qed.

Section Fairness.
Context (g0 : UpstreamGroup) (l : list nat).
Context (Hnd : NoDup l) (Hne : l <> []).
Context (Hin : forall j, j ∈ l -> (j < length (current_weights g0))%nat).
Context (Hpos : forall j, j ∈ l -> 0 < weight_at g0 j).
Context (Hzero : zero_weights g0).

Let total := sumZ (weight_at g0) l.

Lemma total_pos : 0 < total.
Proof using Hne Hpos.
  unfold total. clear Hin Hnd. destruct l as [|i r]; [done|]. cbn.
  pose proof (Hpos i ltac:(left)).
  assert (0 <= sumZ (weight_at g0) r).
  { apply sumZ_nonneg. intros j Hj. pose proof (Hpos j ltac:(by right)). lia. }
  lia.
Qed.

(** Over the list, the current weights always sum to zero. *)
Lemma rounds_inv_sum n picks g :
  rounds_inv n l picks g0 g -> sumZ (cw (current_weights g)) l = 0.
Proof using Hnd.
  intros [_ _ [Hlen Hall] Hc _].
  rewrite (sumZ_ext _ (fun i => Z.of_nat n * weight_at g0 i + (- total) * count (Nat.eqb i) picks)).
  - rewrite sumZ_add, !sumZ_scale, sumZ_count_picks by done. fold total. lia.
  - intros i Hi. rewrite Hc by done. fold total. lia.
Qed.

Lemma rounds_ok n : rounds_inv n l (rounds n l g0).1 g0 (rounds n l g0).2.
Proof using All.
  pose proof total_pos as Htot.
  induction n as [|n IH].
  { split; cbn; auto; intros i Hi; rewrite Hzero; [lia|]. fold total. lia. }
  cbn. destruct (rounds n l g0) as [picks g] eqn:E. cbn in IH.
  pose proof (rounds_inv_sum n picks g IH) as Hsum.
  destruct IH as [Hm Hl [Hlen Hall] Hc Hlow].
  assert (Hw : forall i, weight_at g i = weight_at g0 i).
  { intros i. unfold weight_at. by rewrite Hm. }
  destruct (order_round_robin_spec g l Hnd) as (k & b & c' & Eo & Hk & Hcl & Hmax & Hc');
    [by rewrite Hl|done|].
  rewrite Eo, (rotate_left_head _ _ _ Hk). cbn.
  assert (Hb : b ∈ l) by (eapply list_elem_of_lookup_2; eauto).
  assert (Hmaxpos : 0 < cw (current_weights g) b + weight_at g0 b).
  { destruct (Z_lt_le_dec 0 (cw (current_weights g) b + weight_at g0 b)) as [|Hle]; [done|].
    assert (Hneg : sumZ (fun i => cw (current_weights g) i + weight_at g0 i) l <= sumZ (fun _ => 0) l).
    { apply sumZ_le. intros i Hi. specialize (Hmax i Hi). rewrite !Hw in Hmax. lia. }
    rewrite sumZ_add, Hsum, sumZ_const in Hneg. fold total in Hneg. lia. }
  assert (Htw : sumZ (weight_at g) l = total) by (apply sumZ_ext; intros; apply Hw).
  split; cbn; [done|lia| | |].
  - rewrite length_app. cbn. split; [lia|]. apply Forall_app; auto.
  - intros i Hi. rewrite Hc', Htw, Hw, Hc, count_app by done. cbn.
    rewrite decide_True by done. fold total.
    destruct (Nat.eqb_spec i b); [rewrite decide_True|rewrite decide_False]; try done; nia.
  - intros i Hi. rewrite Hc', Htw, Hw. rewrite decide_True by done. fold total.
    specialize (Hlow i Hi). specialize (Hpos i Hi). fold total in Hlow.
    destruct (decide (i = b)) as [->|]; lia.
Qed.

(** After as many rounds as the total weight, every server was first as often as its
    weight, and the weights are back at zero. *)
Lemma rounds_fair :
  let '(picks, g) := rounds (Z.to_nat total) l g0 in
  (forall i, i ∈ l -> count (Nat.eqb i) picks = weight_at g0 i) /\
  (forall i, i ∈ l -> cw (current_weights g) i = 0).
Proof using All.
  pose proof total_pos as Htot. pose proof (rounds_ok (Z.to_nat total)) as H.
  destruct (rounds (Z.to_nat total) l g0) as [picks g]. cbn in H.
  destruct H as [_ _ [Hlen Hall] Hc Hlow]. rewrite Z2Nat.id in * by lia. fold total in Hc, Hlow.
  assert (Hcount : forall i, i ∈ l -> count (Nat.eqb i) picks = weight_at g0 i).
  { apply sumZ_squeeze.
    - intros i Hi. specialize (Hc i Hi). specialize (Hlow i Hi).
      assert (total * (count (Nat.eqb i) picks - weight_at g0 i) < total) by lia. nia.
    - rewrite sumZ_count_picks by done. exact Hlen. }
  split; [done|]. intros i Hi. rewrite Hc, Hcount by done. lia.
Qed.
End Fairness.

(** ** Facts on the candidates *)

Lemma partition_as_filters {A} (p : A -> bool) l :
  List.partition p l = (List.filter p l, List.filter (fun x => negb (p x)) l).
Proof.
  induction l as [|x l IH]; cbn; [done|]. rewrite IH. by destruct (p x).
Qed.

Lemma Forall_filter_true {A} (p : A -> bool) (l : list A) :
  Forall (fun x => p x = true) (List.filter p l).
Proof. induction l as [|x l IH]; cbn; [constructor|]. destruct (p x) eqn:E; auto. Qed.

Lemma filter_split_perm {A} (p : A -> bool) (l : list A) :
  List.filter p l ++ List.filter (fun x => negb (p x)) l ≡ₚ l.
Proof.
  induction l as [|x l IH]; cbn; [done|]. destruct (p x); cbn.
  - by constructor.
  - rewrite <-Permutation_middle. by constructor.
Qed.

Section Candidates.
Context (fnv_finish : list (list Z) -> Z) (f64_ln : f64 -> f64) (f64_powf : f64 -> f64 -> f64).

Notation order := (order fnv_finish f64_ln f64_powf).
Notation candidates := (candidates fnv_finish f64_ln f64_powf).

(** Enough random numbers for one draw per server. *)
Definition enough_draws (g : UpstreamGroup) (o : Observation) : Prop :=
  (length (members g) <= length (o_draws o))%nat.

Lemma order_random_perm g draws l :
  (length l <= length draws)%nat -> order_random f64_powf g draws l ≡ₚ l.
Proof.
  intros Hlen. unfold order_random. rewrite sort_by_perm.
  revert draws Hlen. induction l as [|i l IH]; intros [|u draws] Hlen; cbn in *; try lia; try done.
  rewrite IH by lia. done.
Qed.

Lemma order_perm g o l client :
  (length l <= length (o_draws o))%nat -> (order g o l client).1 ≡ₚ l.
Proof.
  intros Hlen. unfold Balancer.order.
  destruct (policy g); cbn; try done; try apply sort_keyed_perm.
  - unfold order_round_robin. destruct (rr_gain _ _ _ _ _) as [c [[p v]|]]; cbn; [|done].
    apply rotate_left_perm.
  - by apply order_random_perm.
Qed.

(** The order only touches the round-robin weights of the group. *)
Lemma order_group g o l client :
  exists c, (order g o l client).2 = set_current_weights c g.
Proof.
  unfold Balancer.order.
  destruct (policy g); try (exists (current_weights g); by destruct g).
  destruct (order_round_robin g l) as [l' c]. by exists c.
Qed.

Definition eligible_servers (g : UpstreamGroup) (now : Instant) : list nat :=
  List.filter (eligible g now) (seq 0 (length (members g))).

Lemma eligible_servers_length g now :
  (length (eligible_servers g now) <= length (members g))%nat.
Proof.
  unfold eligible_servers. etransitivity; [apply filter_length_le|]. by rewrite length_seq.
Qed.

(** The shape of the candidates: the healthy eligible servers in policy order, then
    the unhealthy ones; without a healthy one, the unhealthy ones in policy order. *)
Lemma candidates_shape g o now client :
  let healthy := List.filter (healthy_at g now) (eligible_servers g now) in
  let unhealthy := List.filter (fun i => negb (healthy_at g now i)) (eligible_servers g now) in
  (candidates g o now client).1
  = match healthy with
    | [] => (order g o unhealthy client).1
    | _ => (order g o healthy client).1 ++ unhealthy
    end.
Proof.
  cbn. unfold Balancer.candidates. rewrite partition_as_filters.
  fold (eligible_servers g now).
  destruct (List.filter (healthy_at g now) (eligible_servers g now)) eqn:E; [done|].
  by destruct (order g o (n :: l) client).
Qed.

Lemma candidates_perm g o now client :
  enough_draws g o -> (candidates g o now client).1 ≡ₚ eligible_servers g now.
Proof.
  intros Hd. pose proof (eligible_servers_length g now) as Hlen. unfold enough_draws in Hd.
  pose proof (filter_split_perm (healthy_at g now) (eligible_servers g now)) as Hsplit.
  rewrite candidates_shape. cbn zeta.
  pose proof (filter_length_le (healthy_at g now) (eligible_servers g now)).
  pose proof (filter_length_le (fun i => negb (healthy_at g now i)) (eligible_servers g now)).
  destruct (List.filter (healthy_at g now) (eligible_servers g now)) eqn:E.
  - cbn in Hsplit. rewrite order_perm by lia. done.
  - rewrite order_perm by lia. done.
Qed.

Lemma candidates_split g o now client :
  enough_draws g o ->
  exists first rest, (candidates g o now client).1 = first ++ rest /\
    Forall (fun i => healthy_at g now i = true) first /\
    Forall (fun i => healthy_at g now i = false) rest.
Proof.
  intros Hd. pose proof (eligible_servers_length g now) as Hlen. unfold enough_draws in Hd.
  rewrite candidates_shape. cbn zeta.
  pose proof (filter_length_le (healthy_at g now) (eligible_servers g now)).
  pose proof (filter_length_le (fun i => negb (healthy_at g now i)) (eligible_servers g now)).
  pose proof (Forall_filter_true (healthy_at g now) (eligible_servers g now)) as Hh.
  pose proof (Forall_filter_true (fun i => negb (healthy_at g now i)) (eligible_servers g now)) as Hu.
  assert (Hu' : Forall (fun i => healthy_at g now i = false)
                  (List.filter (fun i => negb (healthy_at g now i)) (eligible_servers g now))).
  { eapply Forall_impl; [exact Hu|]. cbn. intros i. apply negb_true_iff. }
  destruct (List.filter (healthy_at g now) (eligible_servers g now)) eqn:E.
  - exists [], (order g o (List.filter (fun i => negb (healthy_at g now i)) (eligible_servers g now)) client).1.
    split_and!; [done|constructor|]. eapply Permutation_Forall; [|exact Hu'].
    symmetry. apply order_perm. lia.
  - exists (order g o (n :: l) client).1, (List.filter (fun i => negb (healthy_at g now i)) (eligible_servers g now)).
    split_and!; [done| |done]. eapply Permutation_Forall; [|exact Hh].
    symmetry. apply order_perm. cbn in *. lia.
Qed.

Lemma eligible_servers_nodup g now : NoDup (eligible_servers g now).
Proof.
  unfold eligible_servers. apply NoDup_ListNoDup, List.NoDup_filter, seq_NoDup.
Qed.

Lemma eligible_servers_elem g now i :
  i ∈ eligible_servers g now <->
  (i < length (members g))%nat /\ 0 < weight_at g i /\ blocked g i now = false.
Proof.
  unfold eligible_servers, eligible. rewrite list_elem_of_In, filter_In, in_seq.
  rewrite andb_true_iff, Z.ltb_lt, negb_true_iff. intuition lia.
Qed.
End Candidates.

(** ** Properties *)

Section Claims.
Context (fnv_finish : list (list Z) -> Z) (f64_ln : f64 -> f64) (f64_powf : f64 -> f64 -> f64).

(** Whatever the policy, the candidates of a request are, without repetition,
    exactly the servers with a positive weight whose circuit lets traffic through, and
    every healthy candidate comes before every unhealthy one; a request has no candidate
    only when there is no such server. *)
Theorem candidates_correct g o now client :
  enough_draws g o ->
  let cs := (candidates fnv_finish f64_ln f64_powf g o now client).1 in
  NoDup cs /\
  (forall i, i ∈ cs <->
     (i < length (members g))%nat /\ 0 < weight_at g i /\ blocked g i now = false) /\
  exists first rest, cs = first ++ rest /\
    Forall (fun i => healthy_at g now i = true) first /\
    Forall (fun i => healthy_at g now i = false) rest.
Proof.
  intros Hd cs. pose proof (candidates_perm fnv_finish f64_ln f64_powf g o now client Hd) as Hp.
  fold cs in Hp. split_and!.
  - rewrite Hp. apply eligible_servers_nodup.
  - intros i. rewrite Hp. apply eligible_servers_elem.
  - by apply candidates_split.
Qed.

(** The client IP hash is consistent: removing servers from the order leaves the
    remaining servers in the order they had, so only the clients of a removed server
    move. *)
Theorem hash_order_consistent g client l (gone : nat -> bool) :
  order_hash fnv_finish f64_ln g client (List.filter (fun i => negb (gone i)) l)
  = List.filter (fun i => negb (gone i)) (order_hash fnv_finish f64_ln g client l).
Proof.
  apply sort_keyed_filter.
  - intros x y. unfold leb_key_asc. rewrite !Z.leb_le. lia.
  - intros x y z. unfold leb_key_asc. rewrite !Z.leb_le. lia.
Qed.
End Claims.

(** The smooth weighted round robin is exact: from zero weights and while the
    servers stay the same, within as many requests as the total weight every server is
    first exactly as often as its weight, and the weights are back at zero. *)
Theorem round_robin_fair g l :
  NoDup l -> l <> [] ->
  (forall j, j ∈ l -> (j < length (current_weights g))%nat) ->
  (forall j, j ∈ l -> 0 < weight_at g j) ->
  zero_weights g ->
  let '(picks, g') := rounds (Z.to_nat (sumZ (weight_at g) l)) l g in
  (forall i, i ∈ l -> count (Nat.eqb i) picks = weight_at g i) /\
  (forall i, i ∈ l -> cw (current_weights g') i = 0).
Proof. intros. by apply rounds_fair. Qed.

(** A group of three servers with the weights 5, 1 and 2. *)
Definition example_group : UpstreamGroup :=
  mkUpstreamGroup
    [mkGroupServer "a" 5 None []; mkGroupServer "b" 1 (Some "eu") []; mkGroupServer "c" 2 None ["TR"]]
    RoundRobin HealthCheck_default (replicate 3 ServerHealth_default) [0; 0; 0]
    CircuitBreaker_default (replicate 3 Breaker_default) None [0; 1; 2]%nat [0; 1; 2]%nat None.

Lemma example_group_ok :
  NoDup [0; 1; 2]%nat /\
  (forall j, j ∈ [0; 1; 2]%nat ->
     (j < length (current_weights example_group))%nat /\ 0 < weight_at example_group j <= u16_max) /\
  zero_weights example_group.
Proof.
  split_and!.
  - rewrite NoDup_ListNoDup. repeat constructor; cbn; lia.
  - intros j Hj. rewrite !elem_of_cons in Hj. unfold weight_at, u16_max.
    destruct Hj as [->|[->|[->|Hj]]]; [cbn; lia..|by apply not_elem_of_nil in Hj].
  - intros i. unfold cw. destruct i as [|[|[|i]]]; done.
Qed.

Lemma round_robin_fair_witness :
  (rounds 8 [0; 1; 2]%nat example_group).1 = [0; 2; 0; 0; 1; 0; 2; 0]%nat /\
  count (Nat.eqb 0) (rounds 8 [0; 1; 2]%nat example_group).1 = 5.
Proof.
  split; [vm_compute; reflexivity|].
  assert (Hr := round_robin_fair example_group [0; 1; 2]%nat).
  change (Z.to_nat (sumZ (weight_at example_group) [0; 1; 2]%nat)) with 8%nat in Hr.
  destruct (rounds 8 [0; 1; 2]%nat example_group) as [picks g'].
  destruct example_group_ok as (H1 & H2 & H3).
  apply Hr; try done; try (by left); intros j Hj; apply H2 in Hj; lia.
Defined.

Lemma candidates_correct_witness :
  let cs := (candidates (fun _ => 0) id (fun u _ => u) example_group
               (mkObservation [0; 0; 0] [] (replicate 3 (f64_of_Z 0))) 0 (V4 0)).1 in
  cs = [0; 1; 2]%nat /\ NoDup cs.
Proof.
  intros cs. split; [vm_compute; reflexivity|].
  apply (candidates_correct (fun _ => 0) id (fun u _ => u) example_group
           (mkObservation [0; 0; 0] [] (replicate 3 (f64_of_Z 0))) 0 (V4 0)).
  unfold enough_draws. cbn. lia.
Defined.

(** The round-robin weights never leave the 64-bit range while the servers stay the
    same: every weight lies above minus the total and below the number of servers times
    the total, which a million servers of maximal weight do not bring to 2^63. *)
Theorem round_robin_bounds g l n :
  NoDup l -> l <> [] ->
  (forall j, j ∈ l -> (j < length (current_weights g))%nat) ->
  (forall j, j ∈ l -> 0 < weight_at g j <= u16_max) ->
  zero_weights g ->
  Z.of_nat (length l) <= 1000000 ->
  forall i, i ∈ l ->
    i64_min < - sumZ (weight_at g) l < cw (current_weights (rounds n l g).2) i /\
    cw (current_weights (rounds n l g).2) i <= Z.of_nat (length l) * sumZ (weight_at g) l < i64_max.
Proof.
  intros Hnd Hne Hin Hpos Hz Hlen i Hi.
  assert (Hpos' : forall j, j ∈ l -> 0 < weight_at g j) by (intros j Hj; apply Hpos in Hj; lia).
  pose proof (rounds_ok g l Hnd Hne Hin Hpos' Hz n) as Hinv.
  pose proof (rounds_inv_sum g l Hnd n _ _ Hinv) as Hsum.
  pose proof (ri_lower _ _ _ _ _ Hinv) as Hlow.
  set (c := cw (current_weights (rounds n l g).2)) in *.
  assert (Htot : sumZ (weight_at g) l <= u16_max * Z.of_nat (length l)).
  { rewrite <-sumZ_const. apply sumZ_le. intros j Hj. apply Hpos in Hj. lia. }
  assert (Hup : c i <= Z.of_nat (length l) * sumZ (weight_at g) l).
  { assert (Hle : sumZ (fun j => if decide (j = i) then c i + sumZ (weight_at g) l else 0) l
                  <= sumZ (fun j => c j + sumZ (weight_at g) l) l).
    { apply sumZ_le. intros j Hj. specialize (Hlow j Hj). case_decide as E; [by rewrite E|lia]. }
    rewrite sumZ_indicator, sumZ_add, sumZ_const, Hsum in Hle by done.
    pose proof (total_pos g l Hne Hpos'). lia. }
  unfold i64_min, i64_max, u16_max in *. specialize (Hlow i Hi).
  pose proof (total_pos g l Hne Hpos'). split; [lia|]. split; [done|]. nia.
Qed.

Lemma round_robin_bounds_witness :
  cw (current_weights (rounds 3 [0; 1; 2]%nat example_group).2) 1 = 3 /\
  i64_min < - sumZ (weight_at example_group) [0; 1; 2]%nat.
Proof.
  split; [vm_compute; reflexivity|].
  destruct example_group_ok as (H1 & H2 & H3).
  apply (round_robin_bounds example_group [0; 1; 2]%nat 3) with (i := 0%nat);
    try done; try (by left); intros j Hj; apply H2 in Hj; lia.
Defined.

(** The latency and the proximity policies put the servers in the order of their
    keys: lower measured latency first, and for the proximity policy a nearer tier (own
    country, own region, untagged server, other region) before any latency; equal keys
    keep the order of the list. *)
Theorem geo_and_latency_orders g store client l :
  order_latency g store l ≡ₚ l /\
  StronglySorted (fun i j => server_latency_score g store i < server_latency_score g store j \/
     (server_latency_score g store i = server_latency_score g store j /\ (i <= j)%nat))
    (order_latency g store l) /\
  order_geo_proximity g store client l ≡ₚ l /\
  StronglySorted (fun i j =>
     server_geo_tier g i (geoip_country g client) <= server_geo_tier g j (geoip_country g client) /\
     (server_geo_tier g i (geoip_country g client) = server_geo_tier g j (geoip_country g client) ->
      server_latency_score g store i <= server_latency_score g store j))
    (order_geo_proximity g store client l).
Proof.
  split_and!; try apply sort_keyed_perm.
  - eapply StronglySorted_mono; [|apply sort_keyed_sorted, leb_then_index_trans; apply leb_then_index_total].
    intros i j H. apply leb_then_index_spec in H. done.
  - eapply StronglySorted_mono; [|apply sort_keyed_sorted, leb_geo_trans; apply leb_geo_total].
    intros i j H. apply leb_geo_spec in H. cbn in H. lia.
Qed.
