(* ===== verification/Permits.v ===== *)
(** * Permits, shared counters and configuration reloads

    The part of [proxy/health.rs] that shares state: the [Permit] and the [ConnGuard]
    that requests hold, the counters behind [Arc<AtomicUsize>] that a reloaded group
    shares with its predecessor, and the registry that reuses or replaces a group.

    A [World] is the store behind the pointers: the groups and the counter cells by
    address.  Each operation is one atomic step; permits and guards are tokens that the
    step relation keeps in a list. *)

From S2P Require Import Prelude Basics Upstream Breaker Float64 GeoIp Balancer Registry.

Record World : Type := mkWorld {
  w_groups : list UpstreamGroup;
  w_conns : list Z;
  w_metrics : list ServerLiveMetrics;
}.

Record Permit : Type := mkPermit {
  p_group : nat;
  p_index : nat;
  p_trial : bool;
  p_reported : bool;
  p_active_conn : option nat;
  p_metrics : option nat;
  p_start : Instant;
}.

Record ConnGuard : Type := mkConnGuard {
  cg_active_conn : option nat;
  cg_metrics : option nat;
}.

Definition on_group (gid : nat) (f : UpstreamGroup -> UpstreamGroup) (w : World) : World :=
  mkWorld (vec_update f gid (w_groups w)) (w_conns w) (w_metrics w).

Definition on_conn (c : option nat) (f : Z -> Z) (w : World) : World :=
  match c with
  | Some loc => mkWorld (w_groups w) (vec_update f loc (w_conns w)) (w_metrics w)
  | None => w
  end.

Definition on_metrics (m : option nat) (f : ServerLiveMetrics -> ServerLiveMetrics) (w : World)
  : World :=
  match m with
  | Some loc => mkWorld (w_groups w) (w_conns w) (vec_update f loc (w_metrics w))
  | None => w
  end.

(** The admission of the circuit of one server: [None] when it blocks the request. *)
Definition admit_at (g : UpstreamGroup) (index : nat) (now : Instant)
  : option bool * UpstreamGroup :=
  if enabled (circuit_breaker g) then
    match breakers g !! index with
    | None => (None, g)
    | Some b =>
        let '(r, b') := admit_request b now in (r, set_breakers (vec_update (fun _ => b') index) g)
    end
  else (Some false, g).

(** Lets a request or a connection go to the server. *)
Definition acquire (gid index : nat) (now : Instant) (w : World) : option Permit * World :=
  match w_groups w !! gid with
  | None => (None, w)
  | Some g =>
      let '(admitted, g') := admit_at g index now in
      let w := on_group gid (fun _ => g') w in
      match admitted with
      | None => (None, w)
      | Some trial =>
          let active_conn := active_conns g !! index in
          let w := on_conn active_conn (fun v => wrap64 (v + 1)) w in
          let mets := metrics g !! index in
          let w := on_metrics mets record_request w in
          (Some (mkPermit gid index trial false active_conn mets now), w)
      end
  end.

(** [Permit::record]. *)
Definition permit_record (failed : bool) (now : Instant) (p : Permit) (w : World) : World :=
  let elapsed := duration_since now (p_start p) in
  let w := on_metrics (p_metrics p)
             (fun m => let m := record_rtt elapsed m in if failed then record_error m else m) w in
  on_group (p_group p) (record_circuit (p_index p) (p_trial p) failed now) w.

(** [Drop for Permit] of a permit with the given connection and report flag. *)
Definition permit_drop (active_conn : option nat) (reported : bool) (p : Permit) (w : World)
  : World :=
  let w := on_conn active_conn (fun v => wrap64 (v - 1)) w in
  if p_trial p && negb reported then on_group (p_group p) (release_trial (p_index p)) w else w.

Definition permit_success (now : Instant) (p : Permit) (w : World) : World :=
  let w := on_group (p_group p) (report_success (p_index p)) w in
  let w := permit_record false now p w in
  permit_drop (p_active_conn p) true p w.

(** The guard takes the counters, so the drop of the permit decrements nothing. *)
Definition permit_success_keep (now : Instant) (p : Permit) (w : World) : ConnGuard * World :=
  let w := on_group (p_group p) (report_success (p_index p)) w in
  let w := permit_record false now p w in
  (mkConnGuard (p_active_conn p) (p_metrics p), permit_drop None true p w).

Definition permit_failure (error : string) (now : Instant) (p : Permit) (w : World) : World :=
  let w := on_group (p_group p) (report_failure (p_index p) error now) w in
  let w := permit_record true now p w in
  permit_drop (p_active_conn p) true p w.

Definition permit_error_response (now : Instant) (p : Permit) (w : World) : World :=
  let w := on_group (p_group p) (report_success (p_index p)) w in
  let w := permit_record true now p w in
  permit_drop (p_active_conn p) true p w.

Definition permit_abandon (p : Permit) (w : World) : World :=
  permit_drop (p_active_conn p) (p_reported p) p w.

Definition guard_drop (c : ConnGuard) (w : World) : World :=
  on_conn (cg_active_conn c) (fun v => wrap64 (v - 1)) w.

Definition permit_record_bytes (bytes : Z) (p : Permit) (w : World) : World :=
  on_metrics (p_metrics p) (record_bytes bytes) w.

Definition guard_record_bytes (bytes : Z) (c : ConnGuard) (w : World) : World :=
  on_metrics (cg_metrics c) (record_bytes bytes) w.

(** ** Groups and reloads *)

(** [UpstreamGroup::new] with its circuit breaker; the counters are fresh cells. *)
Definition group_new (ms : list GroupServer) (pol : LoadBalancing) (hc : HealthCheck)
    (cb : CircuitBreaker) (w : World) : UpstreamGroup * World :=
  let n := length ms in
  let g := mkUpstreamGroup ms pol hc (replicate n ServerHealth_default) (replicate n 0) cb
             (replicate n Breaker_default) None
             (seq (length (w_conns w)) n) (seq (length (w_metrics w)) n) None in
  (g, mkWorld (w_groups w) (w_conns w ++ replicate n 0)
        (w_metrics w ++ replicate n ServerLiveMetrics_default)).

(** The index of the first member with the address. *)
Fixpoint position_addr (a : string) (ms : list GroupServer) : option nat :=
  match ms with
  | [] => None
  | m :: rest => if String.eqb (addr m) a then Some 0%nat else S <$> position_addr a rest
  end.

(** [vec_copy src i dst j]: the slot [i] of [src] overwrites the slot [j] of [dst] when
    both exist. *)
Definition vec_copy {A} (src : list A) (i : nat) (dst : list A) (j : nat) : list A :=
  match src !! i, dst !! j with
  | Some x, Some _ => <[j := x]> dst
  | _, _ => dst
  end.

Definition inherit_member_state (previous : UpstreamGroup) (new_idx prev_idx : nat)
    (g : UpstreamGroup) : UpstreamGroup :=
  let g := set_servers (fun s => vec_copy (servers previous) prev_idx s new_idx) g in
  let g := set_breakers (fun b => vec_copy (breakers previous) prev_idx b new_idx) g in
  set_conns_metrics (vec_copy (active_conns previous) prev_idx (active_conns g) new_idx)
    (vec_copy (metrics previous) prev_idx (metrics g) new_idx) g.

Definition inherit_index (previous g : UpstreamGroup) (new_idx : nat) : UpstreamGroup :=
  match position_addr (addr_at g new_idx) (members previous) with
  | Some prev_idx => inherit_member_state previous new_idx prev_idx g
  | None => g
  end.

Definition inherit_state (previous g : UpstreamGroup) : UpstreamGroup :=
  fold_left (inherit_index previous) (seq 0 (length (members g))) g.

#[global] Arguments inherit_state : simpl never.

Definition GroupKey : Type := ShortId * option nat.

Definition same_settings (ms : list GroupServer) (pol : LoadBalancing) (hc : HealthCheck)
    (cb : CircuitBreaker) (existing : UpstreamGroup) : bool :=
  bool_decide (members existing = ms) && bool_decide (policy existing = pol)
  && bool_decide (health_check existing = hc) && bool_decide (circuit_breaker existing = cb).

(** [Weak::upgrade] of a group pointer: [alive] tells which groups have an owner. *)
Definition upgrade_group (alive : nat -> bool) (w : World) (p : nat) : option UpstreamGroup :=
  if alive p then w_groups w !! p else None.

(** [GroupRegistry::group]: the group of the key, the updated store and registry, and
    whether the group is new (so that its check task is started). *)
Definition registry_group (alive : nat -> bool) (entries : gmap GroupKey nat) (key : GroupKey)
    (ms : list GroupServer) (pol : LoadBalancing) (hc : HealthCheck) (cb : CircuitBreaker)
    (pr : Probe) (w : World) : nat * bool * World * gmap GroupKey nat :=
  let upgrade := upgrade_group alive w in
  let previous := match registry_get upgrade entries key with
                  | Some p => upgrade p
                  | None => None
                  end in
  let '(fresh_group, w') := group_new ms pol hc cb w in
  let create (_ : unit) := match previous with
                           | Some prev => inherit_state prev fresh_group
                           | None => fresh_group
                           end in
  let '((gid, created), entries) :=
    get_or_create upgrade entries key (same_settings ms pol hc cb) create (length (w_groups w)) in
  match created with
  | Some g => (gid, true, mkWorld (w_groups w' ++ [set_probe pr g]) (w_conns w') (w_metrics w'), entries)
  | None => (gid, false, on_group gid (set_probe pr) w, entries)
  end.

(** ** The steps of the system *)

Inductive Token : Type :=
| TPermit (p : Permit)
| TGuard (c : ConnGuard).

Definition token_conn (t : Token) : option nat :=
  match t with TPermit p => p_active_conn p | TGuard c => cg_active_conn c end.

Definition is_trial_of (gid index : nat) (t : Token) : bool :=
  match t with
  | TPermit p => p_trial p && Nat.eqb (p_group p) gid && Nat.eqb (p_index p) index
  | TGuard _ => false
  end.

(** The steps: a request takes or is refused a permit, ends it in one of the ways of
    [Permit], drops its guard, records bytes, or orders the servers (which only moves the round-robin
    weights); an active check reports; a reload asks the registry for a group. *)
Inductive world_step : World * list Token -> World * list Token -> Prop :=
| ws_acquire w ts gid index now p w' :
    acquire gid index now w = (Some p, w') ->
    world_step (w, ts) (w', TPermit p :: ts)
| ws_refused w ts gid index now w' :
    acquire gid index now w = (None, w') ->
    world_step (w, ts) (w', ts)
| ws_success w ts1 ts2 p now :
    world_step (w, ts1 ++ TPermit p :: ts2) (permit_success now p w, ts1 ++ ts2)
| ws_keep w ts1 ts2 p now c w' :
    permit_success_keep now p w = (c, w') ->
    world_step (w, ts1 ++ TPermit p :: ts2) (w', TGuard c :: ts1 ++ ts2)
| ws_failure w ts1 ts2 p error now :
    world_step (w, ts1 ++ TPermit p :: ts2) (permit_failure error now p w, ts1 ++ ts2)
| ws_error_response w ts1 ts2 p now :
    world_step (w, ts1 ++ TPermit p :: ts2) (permit_error_response now p w, ts1 ++ ts2)
| ws_abandon w ts1 ts2 p :
    world_step (w, ts1 ++ TPermit p :: ts2) (permit_abandon p w, ts1 ++ ts2)
| ws_guard_drop w ts1 ts2 c :
    world_step (w, ts1 ++ TGuard c :: ts2) (guard_drop c w, ts1 ++ ts2)
| ws_check w ts gid index r :
    world_step (w, ts) (on_group gid (record_check index r) w, ts)
| ws_bytes w ts m n :
    world_step (w, ts) (on_metrics m (record_bytes n) w, ts)
| ws_order w ts gid weights :
    world_step (w, ts) (on_group gid (set_current_weights weights) w, ts)
| ws_reload w ts alive entries key ms pol hc cb pr gid created w' entries' :
    registry_group alive entries key ms pol hc cb pr w = (gid, created, w', entries') ->
    world_step (w, ts) (w', ts).

(** ** The active connection counters *)

Definition uses (loc : nat) (t : Token) : bool :=
  match token_conn t with Some l => Nat.eqb l loc | None => false end.

Definition conn_update (c : option nat) (f : Z -> Z) (l : list Z) : list Z :=
  match c with Some loc => vec_update f loc l | None => l end.

(** The addresses of the counters of every group. *)
Definition groups_conns (w : World) : list (list nat) := map active_conns (w_groups w).

Lemma w_conns_on_conn c f w : w_conns (on_conn c f w) = conn_update c f (w_conns w).
Proof. by destruct c. Qed.

Lemma w_conns_on_metrics m f w : w_conns (on_metrics m f w) = w_conns w.
Proof. by destruct m. Qed.

Lemma w_conns_on_group gid f w : w_conns (on_group gid f w) = w_conns w.
Proof. done. Qed.

Lemma groups_conns_on_conn c f w : groups_conns (on_conn c f w) = groups_conns w.
Proof. by destruct c. Qed.

Lemma groups_conns_on_metrics m f w : groups_conns (on_metrics m f w) = groups_conns w.
Proof. by destruct m. Qed.

Lemma groups_conns_on_group gid f w :
  (forall g, w_groups w !! gid = Some g -> active_conns (f g) = active_conns g) ->
  groups_conns (on_group gid f w) = groups_conns w.
Proof.
  intros Hf. unfold groups_conns, on_group, vec_update. cbn. apply list_eq. intros i.
  rewrite !list_lookup_fmap. destruct (decide (i = gid)) as [->|Hi].
  - rewrite list_lookup_alter_eq. destruct (w_groups w !! gid) eqn:E; cbn; [|done].
    by rewrite Hf.
  - by rewrite list_lookup_alter_ne.
Qed.

Lemma active_conns_record_circuit i t f now g :
  active_conns (record_circuit i t f now g) = active_conns g.
Proof. unfold record_circuit. by destruct (negb _). Qed.

#[export] Hint Rewrite w_conns_on_conn w_conns_on_metrics w_conns_on_group
  groups_conns_on_conn groups_conns_on_metrics : world.

Lemma permit_record_conns failed now p w :
  w_conns (permit_record failed now p w) = w_conns w.
Proof. unfold permit_record. by autorewrite with world. Qed.

Lemma permit_record_groups failed now p w :
  groups_conns (permit_record failed now p w) = groups_conns w.
Proof.
  unfold permit_record. rewrite groups_conns_on_group by (intros; apply active_conns_record_circuit).
  by autorewrite with world.
Qed.

Lemma permit_drop_conns c r p w :
  w_conns (permit_drop c r p w) = conn_update c (fun v => wrap64 (v - 1)) (w_conns w).
Proof. unfold permit_drop. destruct (_ && _); by autorewrite with world. Qed.

Lemma permit_drop_groups c r p w : groups_conns (permit_drop c r p w) = groups_conns w.
Proof.
  unfold permit_drop. destruct (_ && _); [rewrite groups_conns_on_group by done|];
    by autorewrite with world.
Qed.

#[export] Hint Rewrite permit_record_conns permit_record_groups permit_drop_conns
  permit_drop_groups : world.

(** Every way to end a permit gives its connection back exactly once. *)
Lemma permit_end_conns p w now error :
  w_conns (permit_success now p w) = conn_update (p_active_conn p) (fun v => wrap64 (v - 1)) (w_conns w) /\
  w_conns (permit_failure error now p w) = conn_update (p_active_conn p) (fun v => wrap64 (v - 1)) (w_conns w) /\
  w_conns (permit_error_response now p w) = conn_update (p_active_conn p) (fun v => wrap64 (v - 1)) (w_conns w) /\
  w_conns (permit_abandon p w) = conn_update (p_active_conn p) (fun v => wrap64 (v - 1)) (w_conns w).
Proof.
  unfold permit_success, permit_failure, permit_error_response, permit_abandon.
  by autorewrite with world.
Qed.

Lemma permit_end_groups p w now error :
  groups_conns (permit_success now p w) = groups_conns w /\
  groups_conns (permit_failure error now p w) = groups_conns w /\
  groups_conns (permit_error_response now p w) = groups_conns w /\
  groups_conns (permit_abandon p w) = groups_conns w /\
  groups_conns (permit_success_keep now p w).2 = groups_conns w.
Proof.
  unfold permit_success, permit_failure, permit_error_response, permit_abandon, permit_success_keep.
  cbn [snd]. autorewrite with world. rewrite !groups_conns_on_group by done. done.
Qed.

Lemma admit_at_active_conns g index now : active_conns (admit_at g index now).2 = active_conns g.
Proof.
  unfold admit_at. destruct (enabled _); [|done]. destruct (breakers g !! index); [|done].
  by destruct (admit_request b now).
Qed.

Lemma acquire_spec gid index now w r w' :
  acquire gid index now w = (r, w') ->
  groups_conns w' = groups_conns w /\
  match r with
  | None => w_conns w' = w_conns w
  | Some p => w_conns w' = conn_update (p_active_conn p) (fun v => wrap64 (v + 1)) (w_conns w) /\
              exists g, w_groups w !! gid = Some g /\ p_active_conn p = active_conns g !! index
  end.
Proof.
  unfold acquire. destruct (w_groups w !! gid) as [g|] eqn:Hg; [|by intros [= <- <-]].
  pose proof (admit_at_active_conns g index now) as Ha.
  destruct (admit_at g index now) as [[trial|] g'] eqn:E; intros [= <- <-]; cbn in Ha;
    autorewrite with world;
    (rewrite groups_conns_on_group by (intros ? H; rewrite Hg in H; by injection H as <-)); eauto.
Qed.

(** Each counter is the number of tokens that count on it (modulo the width of a
    [usize]), and no group or token refers to a cell that does not exist. *)
Record conns_inv (s : World * list Token) : Prop := {
  ci_count : forall loc v, w_conns s.1 !! loc = Some v -> v = wrap64 (count (uses loc) s.2);
  ci_groups : Forall (Forall (fun loc => (loc < length (w_conns s.1))%nat)) (groups_conns s.1);
  ci_tokens : Forall (fun t => forall loc, token_conn t = Some loc ->
                 (loc < length (w_conns s.1))%nat) s.2;
}.

Lemma wrap64_succ n : wrap64 (wrap64 n + 1) = wrap64 (n + 1).
Proof. unfold wrap64. by rewrite Zplus_mod_idemp_l. Qed.

Lemma wrap64_pred n : wrap64 (wrap64 n - 1) = wrap64 (n - 1).
Proof. unfold wrap64. by rewrite Zminus_mod_idemp_l. Qed.

Lemma conn_update_length c f l : length (conn_update c f l) = length l.
Proof. destruct c; cbn; [unfold vec_update; by rewrite length_alter|done]. Qed.

Lemma conn_update_lookup c f l loc v :
  conn_update c f l !! loc = Some v ->
  exists u, l !! loc = Some u /\
    v = if match c with Some x => Nat.eqb x loc | None => false end then f u else u.
Proof.
  destruct c as [x|]; cbn; [|eauto]. unfold vec_update. intros H.
  destruct (Nat.eqb_spec x loc) as [->|Hne].
  - rewrite list_lookup_alter_eq in H. destruct (l !! loc) eqn:E; [|done].
    injection H as <-. eauto.
  - rewrite list_lookup_alter_ne in H by done. eauto.
Qed.

(** A step that adds a token, or removes one, and updates its counter with it. *)
Lemma conns_inv_update w w' ts ts' c (d : Z) :
  conns_inv (w, ts) ->
  w_conns w' = conn_update c (fun v => wrap64 (v + d)) (w_conns w) ->
  groups_conns w' = groups_conns w ->
  (forall loc, count (uses loc) ts'
     = count (uses loc) ts + if match c with Some x => Nat.eqb x loc | None => false end then d else 0) ->
  Forall (fun t => forall loc, token_conn t = Some loc -> (loc < length (w_conns w))%nat) ts' ->
  conns_inv (w', ts').
Proof.
  intros [Hc Hg Ht] Hw Hgr Hcount Htok. split; cbn in *.
  - intros loc v Hv. rewrite Hw in Hv. apply conn_update_lookup in Hv as (u & Hu & ->).
    rewrite Hcount, (Hc _ _ Hu). destruct (match c with Some x => _ | None => _ end).
    + unfold wrap64. by rewrite Zplus_mod_idemp_l.
    + by rewrite Z.add_0_r.
  - by rewrite Hgr, Hw, conn_update_length.
  - by rewrite Hw, conn_update_length.
Qed.

Lemma conns_inv_same w w' ts :
  conns_inv (w, ts) -> w_conns w' = w_conns w -> groups_conns w' = groups_conns w ->
  conns_inv (w', ts).
Proof.
  intros Hi Hw Hg. apply (conns_inv_update w w' ts ts None 0); auto.
  - intros. lia.
  - apply Hi.
Qed.

Lemma count_remove (p : Token -> bool) t ts1 ts2 :
  count p (ts1 ++ ts2) = count p (ts1 ++ t :: ts2) - (if p t then 1 else 0).
Proof. rewrite !count_app. cbn. lia. Qed.

(** A permit or a guard that ends returns its connection. *)
Lemma conns_inv_end w w' ts1 ts2 t :
  conns_inv (w, ts1 ++ t :: ts2) ->
  w_conns w' = conn_update (token_conn t) (fun v => wrap64 (v - 1)) (w_conns w) ->
  groups_conns w' = groups_conns w ->
  conns_inv (w', ts1 ++ ts2).
Proof.
  intros Hi Hw Hg. apply (conns_inv_update w w' (ts1 ++ t :: ts2) _ (token_conn t) (-1)); auto.
  - intros loc. rewrite (count_remove _ t).
    change (uses loc t) with (match token_conn t with Some l => Nat.eqb l loc | None => false end).
    destruct (token_conn t) as [l|]; [|lia]. destruct (Nat.eqb l loc); lia.
  - destruct Hi as [_ _ Ht]. cbn in Ht. apply Forall_app in Ht as [H1 H2].
    inversion H2; subst. by apply Forall_app.
Qed.

(** ** Reloads *)

Lemma vec_copy_Forall {A} (P : A -> Prop) src i dst j :
  Forall P src -> Forall P dst -> Forall P (vec_copy src i dst j).
Proof.
  intros Hs Hd. unfold vec_copy. destruct (src !! i) as [x|] eqn:E; [|done].
  destruct (dst !! j) eqn:E2; [|done]. apply Forall_insert; [done|].
  by eapply Forall_lookup_1 in Hs.
Qed.

Lemma inherit_state_Forall (P : nat -> Prop) previous g :
  Forall P (active_conns previous) -> Forall P (active_conns g) ->
  Forall P (active_conns (inherit_state previous g)).
Proof.
  intros Hp. unfold inherit_state. generalize (seq 0 (length (members g))). intros l.
  revert g. induction l as [|i l IH]; intros g Hg; cbn; [done|]. apply IH.
  unfold inherit_index. destruct (position_addr _ _) as [j|]; [|done]. cbn. by apply vec_copy_Forall.
Qed.

Lemma upgrade_group_lookup alive w p g :
  upgrade_group alive w p = Some g -> w_groups w !! p = Some g.
Proof. unfold upgrade_group. by destruct (alive p). Qed.

Lemma groups_conns_lookup N w gid g :
  Forall (Forall (fun loc => (loc < N)%nat)) (groups_conns w) -> w_groups w !! gid = Some g ->
  Forall (fun loc => (loc < N)%nat) (active_conns g).
Proof.
  intros H Hg. eapply Forall_lookup_1 in H; [exact H|]. unfold groups_conns.
  rewrite list_lookup_fmap, Hg. done.
Qed.

Lemma Forall_lt_mono (N M : nat) l :
  (N <= M)%nat -> Forall (fun x => (x < N)%nat) l -> Forall (fun x => (x < M)%nat) l.
Proof. intros. eapply Forall_impl; [eassumption|]. cbn. lia. Qed.

Lemma Forall_seq_lt a n N : (a + n <= N)%nat -> Forall (fun x => (x < N)%nat) (seq a n).
Proof.
  intros H. apply Forall_forall. intros x Hx. apply elem_of_seq in Hx. lia.
Qed.

(** The group that a reload creates or reuses, and what happens to the store. *)
Lemma registry_group_cases alive entries key ms pol hc cb pr w gid created w' entries' :
  registry_group alive entries key ms pol hc cb pr w = (gid, created, w', entries') ->
  (created = false /\ w' = on_group gid (set_probe pr) w) \/
  (created = true /\
   let fresh := (group_new ms pol hc cb w).1 in
   exists g, w' = mkWorld (w_groups w ++ [set_probe pr g]) (w_conns (group_new ms pol hc cb w).2)
               (w_metrics (group_new ms pol hc cb w).2) /\
     (g = fresh \/
      exists p prev, w_groups w !! p = Some prev /\ g = inherit_state prev fresh)).
Proof.
  unfold registry_group. cbn [group_new fst snd].
  destruct (get_or_create _ _ _ _ _ _) as [[gid0 [g0|]] entries0] eqn:E; intros [= <- <- <- <-];
    [right|by left]. split; [done|]. exists g0. split; [done|].
  unfold get_or_create in E.
  set (previous := match registry_get _ entries key with Some p => _ | None => None end) in E.
  assert (Hcreate : g0 = match previous with
                         | Some prev => inherit_state prev (group_new ms pol hc cb w).1
                         | None => (group_new ms pol hc cb w).1 end).
  { destruct (retain_live _ entries !! key) as [q|]; [|by injection E as <- <- <-].
    destruct (upgrade_group alive w q) as [v|]; [|by injection E as <- <- <-].
    destruct (same_settings ms pol hc cb v); [done|by injection E as <- <- <-]. }
  subst g0. destruct previous as [prev|] eqn:Ep; [right|by left].
  unfold previous in Ep. destruct (registry_get _ entries key) as [p|]; [|done].
  exists p, prev. split; [by eapply upgrade_group_lookup|done].
Qed.

Lemma conns_inv_reload alive entries key ms pol hc cb pr w gid created w' entries' ts :
  registry_group alive entries key ms pol hc cb pr w = (gid, created, w', entries') ->
  conns_inv (w, ts) -> conns_inv (w', ts).
Proof.
  intros Hr Hi. apply registry_group_cases in Hr as [[-> ->]|(-> & g & -> & Hg)].
  { eapply conns_inv_same; [exact Hi|done|]. by apply groups_conns_on_group. }
  destruct Hi as [Hc Hgr Ht]. cbn in *.
  assert (Hlen : (length (w_conns w) <= length (w_conns w ++ replicate (length ms) 0%Z))%nat)
    by (rewrite length_app; lia).
  split; cbn.
  - intros loc v Hv. apply lookup_app_Some in Hv as [Hv|[Hge Hv]]; [by apply Hc|].
    apply lookup_replicate in Hv as [-> _].
    assert (Hz : count (uses loc) ts = 0); [|by rewrite Hz].
    clear -Ht Hge. induction Ht as [|t ts Hlt Hts IH]; cbn; [done|]. rewrite IH.
    unfold uses. destruct (token_conn t) as [l|]; [|done].
    specialize (Hlt l eq_refl). destruct (Nat.eqb_spec l loc); [lia|done].
  - unfold groups_conns. cbn. rewrite map_app. apply Forall_app. split.
    + eapply Forall_impl; [exact Hgr|]. intros l. by apply Forall_lt_mono.
    + apply Forall_singleton. change (active_conns (set_probe pr g)) with (active_conns g).
      assert (Hfresh : Forall (fun x => (x < length (w_conns w ++ replicate (length ms) 0%Z))%nat)
                (seq (length (w_conns w)) (length ms))).
      { apply Forall_seq_lt. rewrite length_app, length_replicate. lia. }
      destruct Hg as [->|(p & prev & Hp & ->)]; [done|]. apply inherit_state_Forall; [|exact Hfresh].
      eapply Forall_lt_mono; [exact Hlen|]. by eapply groups_conns_lookup.
  - eapply Forall_impl; [exact Ht|]. cbn. intros t Htl loc Hl. specialize (Htl loc Hl). lia.
Qed.

Lemma conns_inv_acquire w ts gid index now p w' :
  acquire gid index now w = (Some p, w') -> conns_inv (w, ts) -> conns_inv (w', TPermit p :: ts).
Proof.
  intros Ha Hi. apply acquire_spec in Ha as (Hg & Hw & g & Hgid & Hp).
  apply (conns_inv_update w w' ts _ (p_active_conn p) 1); auto.
  - intros loc. cbn.
    change (uses loc (TPermit p)) with
      (match p_active_conn p with Some l => Nat.eqb l loc | None => false end). lia.
  - destruct Hi as [_ Hgr Ht]. constructor; [|done]. cbn. intros loc Hl. rewrite Hp in Hl.
    eapply groups_conns_lookup in Hgid; [|exact Hgr]. by eapply Forall_lookup_1 in Hgid.
Qed.

Lemma conns_inv_keep w ts1 ts2 p now c w' :
  permit_success_keep now p w = (c, w') ->
  conns_inv (w, ts1 ++ TPermit p :: ts2) -> conns_inv (w', TGuard c :: ts1 ++ ts2).
Proof.
  intros Hk Hi. pose proof (permit_end_groups p w now "") as (_ & _ & _ & _ & Hg).
  rewrite Hk in Hg. cbn in Hg. unfold permit_success_keep in Hk. injection Hk as <- <-.
  apply (conns_inv_update w _ (ts1 ++ TPermit p :: ts2) _ None 0); auto.
  - by autorewrite with world.
  - intros loc. cbn. rewrite !count_app. cbn.
    change (uses loc (TGuard (mkConnGuard (p_active_conn p) (p_metrics p)))) with (uses loc (TPermit p)). lia.
  - destruct Hi as [_ _ Ht]. cbn in Ht. apply Forall_app in Ht as [H1 H2].
    inversion H2; subst. constructor; [done|]. by apply Forall_app.
Qed.

Lemma conns_inv_step s s' : world_step s s' -> conns_inv s -> conns_inv s'.
Proof.
  intros Hs Hi. destruct Hs.
  - by eapply conns_inv_acquire.
  - apply acquire_spec in H as [Hg Hw]. by eapply conns_inv_same.
  - eapply conns_inv_end; [exact Hi|apply (permit_end_conns p w now "")|apply (permit_end_groups p w now "")].
  - by eapply conns_inv_keep.
  - eapply conns_inv_end; [exact Hi|apply (permit_end_conns p w now error)|apply (permit_end_groups p w now error)].
  - eapply conns_inv_end; [exact Hi|apply (permit_end_conns p w now "")|apply (permit_end_groups p w now "")].
  - eapply conns_inv_end; [exact Hi|apply (permit_end_conns p w 0 "")|apply (permit_end_groups p w 0 "")].
  - eapply conns_inv_end; [exact Hi|by unfold guard_drop; autorewrite with world|].
    unfold guard_drop. by autorewrite with world.
  - eapply conns_inv_same; [exact Hi|done|]. by apply groups_conns_on_group.
  - eapply conns_inv_same; [exact Hi|by autorewrite with world..].
  - eapply conns_inv_same; [exact Hi|done|]. by apply groups_conns_on_group.
  - by eapply conns_inv_reload.
Qed.

(** ** Trial permits *)

(** 1 while the trial slot of a server of an enabled breaker is taken. *)
Definition trial_slot (g : UpstreamGroup) (i : nat) : Z :=
  if enabled (circuit_breaker g) then
    match breakers g !! i with
    | Some b => if decide (circuit b = HalfOpen true) then 1 else 0
    | None => 0
    end
  else 0.

Lemma trial_slot_range g i : 0 <= trial_slot g i <= 1.
Proof. unfold trial_slot. repeat case_match; lia. Qed.

(** No server has more trial permits out than its trial slot allows. *)
Record trials_inv (s : World * list Token) : Prop := {
  ti_slots : forall gid g i, w_groups s.1 !! gid = Some g ->
    count (is_trial_of gid i) s.2 <= trial_slot g i;
  ti_tokens : Forall (fun t => match t with
                | TPermit p => (p_group p < length (w_groups s.1))%nat /\ p_reported p = false
                | TGuard _ => True end) s.2;
}.

Lemma w_groups_on_conn c f w : w_groups (on_conn c f w) = w_groups w.
Proof. by destruct c. Qed.

Lemma w_groups_on_metrics m f w : w_groups (on_metrics m f w) = w_groups w.
Proof. by destruct m. Qed.

Lemma w_groups_on_group gid f w : w_groups (on_group gid f w) = vec_update f gid (w_groups w).
Proof. done. Qed.

#[export] Hint Rewrite w_groups_on_conn w_groups_on_metrics w_groups_on_group : world.

(** One group changes, and its trial permits still fit. *)
Lemma trials_inv_update w w' ts ts' gid f :
  trials_inv (w, ts) ->
  w_groups w' = vec_update f gid (w_groups w) ->
  (forall g i, w_groups w !! gid = Some g -> count (is_trial_of gid i) ts' <= trial_slot (f g) i) ->
  (forall gid' i, gid' <> gid -> count (is_trial_of gid' i) ts' <= count (is_trial_of gid' i) ts) ->
  Forall (fun t => match t with
            | TPermit p => (p_group p < length (w_groups w))%nat /\ p_reported p = false
            | TGuard _ => True end) ts' ->
  trials_inv (w', ts').
Proof.
  intros [Hs Ht] Hw Hf Ho Htok. split; cbn in *.
  - intros gid' g i Hg. rewrite Hw in Hg. unfold vec_update in Hg.
    destruct (decide (gid' = gid)) as [->|Hne].
    + rewrite list_lookup_alter_eq in Hg. destruct (w_groups w !! gid) as [g0|] eqn:E; [|done].
      injection Hg as <-. by apply Hf.
    + rewrite list_lookup_alter_ne in Hg by done. etrans; [by apply Ho|]. by apply Hs.
  - rewrite Hw. unfold vec_update. by rewrite length_alter.
Qed.

(** A change that leaves every trial slot of the group at least as taken as it was. *)
Lemma trials_inv_mono w w' ts gid f :
  trials_inv (w, ts) ->
  w_groups w' = vec_update f gid (w_groups w) ->
  (forall g i, w_groups w !! gid = Some g -> trial_slot g i <= trial_slot (f g) i) ->
  trials_inv (w', ts).
Proof.
  intros Hi Hw Hf. eapply trials_inv_update; [exact Hi|exact Hw| |intros; lia|apply Hi].
  intros g i Hg. etrans; [by apply Hi|]. by apply Hf.
Qed.

Lemma count_trial_cons gid i p ts :
  count (is_trial_of gid i) (TPermit p :: ts)
  = (if p_trial p && Nat.eqb (p_group p) gid && Nat.eqb (p_index p) i then 1 else 0)
    + count (is_trial_of gid i) ts.
Proof. done. Qed.

Lemma trial_slot_set_breakers_ne g f i j :
  i <> j -> trial_slot (set_breakers (vec_update f j) g) i = trial_slot g i.
Proof. intros H. unfold trial_slot, vec_update. cbn. by rewrite list_lookup_alter_ne. Qed.

(** The result of a plain request never frees a taken trial slot. *)
Lemma record_circuit_slot g i j failed now :
  trial_slot g i <= trial_slot (record_circuit j false failed now g) i.
Proof.
  unfold record_circuit. destruct (enabled (circuit_breaker g)) eqn:E; cbn; [|lia].
  destruct (decide (i = j)) as [->|Hne]; [|by rewrite trial_slot_set_breakers_ne].
  unfold trial_slot, vec_update. cbn. rewrite E, list_lookup_alter_eq.
  destruct (breakers g !! j) as [b|]; cbn; [|lia].
  destruct (decide (circuit b = HalfOpen true)) as [Hc|]; [|case_decide; lia].
  unfold breaker_record. rewrite Hc. cbn. rewrite decide_True by done. lia.
Qed.

Lemma record_circuit_slot_ne g i j trial failed now :
  i <> j -> trial_slot (record_circuit j trial failed now g) i = trial_slot g i.
Proof.
  intros H. unfold record_circuit. destruct (negb _); [done|].
  by rewrite trial_slot_set_breakers_ne.
Qed.

Lemma trials_token_removed w ts1 ts2 t :
  trials_inv (w, ts1 ++ t :: ts2) ->
  Forall (fun t => match t with
            | TPermit p => (p_group p < length (w_groups w))%nat /\ p_reported p = false
            | TGuard _ => True end) (ts1 ++ ts2).
Proof.
  intros [_ Ht]. cbn in Ht. apply Forall_app in Ht as [H1 H2]. inversion H2; subst.
  by apply Forall_app.
Qed.

(** A permit that ends gives its trial slot back at the latest now: whatever the group
    update does to the slot of the permit, the permit itself is gone. *)
Lemma trials_inv_end w w' ts1 ts2 p f :
  trials_inv (w, ts1 ++ TPermit p :: ts2) ->
  w_groups w' = vec_update f (p_group p) (w_groups w) ->
  (forall g i, i <> p_index p -> trial_slot g i <= trial_slot (f g) i) ->
  (forall g, p_trial p = false -> trial_slot g (p_index p) <= trial_slot (f g) (p_index p)) ->
  trials_inv (w', ts1 ++ ts2).
Proof.
  intros Hi Hw Hne Hplain. pose proof Hi as [Hs Ht]. cbn in Hs.
  eapply trials_inv_update; [exact Hi|exact Hw| | |by eapply trials_token_removed].
  - intros g i Hg. pose proof (Hs _ _ i Hg) as Hc.
    rewrite (count_remove _ (TPermit p)). cbn [is_trial_of]. rewrite Nat.eqb_refl.
    pose proof (trial_slot_range g i). pose proof (trial_slot_range (f g) i).
    pose proof (Hne g i). destruct (Nat.eqb_spec (p_index p) i) as [<-|Hix].
    + pose proof (Hplain g). destruct (p_trial p); cbn; [lia|]. specialize (H2 eq_refl). lia.
    + rewrite andb_false_r. specialize (H1 ltac:(congruence)). lia.
  - intros gid i Hgid. rewrite (count_remove _ (TPermit p)). destruct (is_trial_of _ _ _); lia.
Qed.

Lemma vec_update_twice {A} (f h : A -> A) i l :
  vec_update f i (vec_update h i l) = vec_update (fun x => f (h x)) i l.
Proof.
  unfold vec_update. apply list_eq. intros j. destruct (decide (j = i)) as [->|Hne].
  - rewrite !list_lookup_alter_eq. by destruct (l !! i).
  - by rewrite !list_lookup_alter_ne.
Qed.

Lemma vec_update_id {A} i (l : list A) : vec_update (fun x => x) i l = l.
Proof.
  unfold vec_update. apply list_eq. intros j. destruct (decide (j = i)) as [->|Hne].
  - rewrite list_lookup_alter_eq. by destruct (l !! i).
  - by rewrite list_lookup_alter_ne.
Qed.

Lemma permit_record_w_groups failed now p w :
  w_groups (permit_record failed now p w)
  = vec_update (record_circuit (p_index p) (p_trial p) failed now) (p_group p) (w_groups w).
Proof. unfold permit_record. by autorewrite with world. Qed.

Lemma permit_drop_w_groups c p w : w_groups (permit_drop c true p w) = w_groups w.
Proof. unfold permit_drop. rewrite andb_false_r. by autorewrite with world. Qed.

#[export] Hint Rewrite permit_record_w_groups permit_drop_w_groups @vec_update_twice : world.

(** A reported permit ends: its group records the result, whatever it did to the
    health of the server. *)
Lemma trials_inv_reported w w' ts1 ts2 p failed now f :
  trials_inv (w, ts1 ++ TPermit p :: ts2) ->
  w_groups w' = vec_update (fun g => record_circuit (p_index p) (p_trial p) failed now (f g))
                  (p_group p) (w_groups w) ->
  (forall g i, trial_slot (f g) i = trial_slot g i) ->
  trials_inv (w', ts1 ++ ts2).
Proof.
  intros Hi Hw Hf. eapply trials_inv_end; [exact Hi|exact Hw| |].
  - intros g i Hne. cbn beta. rewrite record_circuit_slot_ne, Hf by done. lia.
  - intros g ->. cbn beta. rewrite <-Hf. apply record_circuit_slot.
Qed.

Lemma trials_inv_guard w ts c : trials_inv (w, ts) -> trials_inv (w, TGuard c :: ts).
Proof. intros [Hs Ht]. split; [done|]. by constructor. Qed.

(** An admission is a plain request of an unchanged circuit, or takes a free trial slot. *)
Lemma admit_request_cases b now trial b' :
  admit_request b now = (Some trial, b') ->
  (trial = false /\ b' = b) \/
  (trial = true /\ circuit b <> HalfOpen true /\ circuit b' = HalfOpen true).
Proof.
  unfold admit_request, blocks. destruct (circuit b) as [|u|[]] eqn:Hc; cbn.
  - intros H. inversion H; subst. auto.
  - destruct (now <? u); intros H; inversion H; subst. cbn. right. auto.
  - intros H. inversion H.
  - intros H. inversion H; subst. cbn. right. auto.
Qed.

Lemma trials_inv_acquire w ts gid index now p w' :
  acquire gid index now w = (Some p, w') -> trials_inv (w, ts) -> trials_inv (w', TPermit p :: ts).
Proof.
  unfold acquire. destruct (w_groups w !! gid) as [g|] eqn:Hg; [|done].
  destruct (admit_at g index now) as [[trial|] g'] eqn:Ha; [|done]. intros [= <- <-] Hi.
  pose proof Hi as [Hs Ht]. cbn in Hs, Ht.
  eapply (trials_inv_update w _ ts _ gid (fun _ => g')); [exact Hi| | | |].
  - by autorewrite with world.
  - intros g0 i Hg0. rewrite Hg in Hg0. injection Hg0 as <-.
    rewrite count_trial_cons. cbn. rewrite Nat.eqb_refl, andb_true_r.
    specialize (Hs _ _ i Hg). unfold admit_at in Ha.
    destruct (enabled (circuit_breaker g)) eqn:He.
    + destruct (breakers g !! index) as [b|] eqn:Hb; [|done].
      destruct (admit_request b now) as [r b'] eqn:Hr. injection Ha as -> <-.
      destruct (Nat.eqb_spec index i) as [<-|Hne].
      * unfold trial_slot, vec_update in *. cbn. rewrite He, Hb in *.
        rewrite list_lookup_alter_eq, Hb. cbn.
        destruct (admit_request_cases b now trial b' Hr) as [[-> ->]|(-> & Hc & Hc')]; cbn; [done|].
        rewrite decide_True by done. rewrite decide_False in Hs by done. lia.
      * rewrite andb_false_r, trial_slot_set_breakers_ne by done. lia.
    + injection Ha as <- <-. cbn. lia.
  - intros gid' i Hne. rewrite count_trial_cons. cbn.
    destruct (Nat.eqb_spec gid gid'); [congruence|]. rewrite andb_false_r. cbn. lia.
  - constructor; [|done]. cbn. split; [|done]. eapply lookup_lt_Some; eauto.
Qed.

(** An admission never frees a taken trial slot. *)
Lemma admit_at_slot g index now r g' i :
  admit_at g index now = (r, g') -> trial_slot g i <= trial_slot g' i.
Proof.
  unfold admit_at. destruct (enabled (circuit_breaker g)) eqn:He; [|intros H; inversion H; subst; lia].
  destruct (breakers g !! index) as [b|] eqn:Hb; [|intros H; inversion H; subst; lia].
  destruct (admit_request b now) as [r0 b'] eqn:Hr. intros H; inversion H; subst.
  destruct (decide (i = index)) as [->|Hne]; [|by rewrite trial_slot_set_breakers_ne].
  unfold trial_slot, vec_update. cbn. rewrite list_lookup_alter_eq, Hb, He. cbn.
  destruct (decide (circuit b = HalfOpen true)) as [Hc|]; [|case_decide; lia].
  unfold admit_request, blocks in Hr. rewrite Hc in Hr. inversion Hr; subst.
  rewrite decide_True by done. lia.
Qed.

Lemma trials_inv_refused w ts gid index now w' :
  acquire gid index now w = (None, w') -> trials_inv (w, ts) -> trials_inv (w', ts).
Proof.
  unfold acquire. destruct (w_groups w !! gid) as [g|] eqn:Hg; [|by intros [= <-]].
  destruct (admit_at g index now) as [[trial|] g'] eqn:Ha; [done|]. intros [= <-] Hi.
  eapply (trials_inv_mono w _ ts gid (fun _ => g')); [exact Hi|done|].
  intros g0 i Hg0. rewrite Hg in Hg0. injection Hg0 as <-. by eapply admit_at_slot.
Qed.

Lemma trials_inv_abandon w ts1 ts2 p :
  trials_inv (w, ts1 ++ TPermit p :: ts2) -> trials_inv (permit_abandon p w, ts1 ++ ts2).
Proof.
  intros Hi. pose proof (ti_tokens _ Hi) as Ht. cbn in Ht.
  apply Forall_app in Ht as [_ Ht]. apply Forall_cons in Ht as [[_ Hrep] _].
  unfold permit_abandon, permit_drop. rewrite Hrep, andb_true_r. destruct (p_trial p) eqn:Etrial.
  - eapply trials_inv_end; [exact Hi|by autorewrite with world| |congruence].
    intros g i Hne. unfold release_trial. by rewrite trial_slot_set_breakers_ne.
  - eapply (trials_inv_end _ _ _ _ _ (fun g => g)); [exact Hi| |intros; lia|intros; lia].
    autorewrite with world. by rewrite vec_update_id.
Qed.

(** A new group starts without trial permits. *)
Lemma trials_inv_reload alive entries key ms pol hc cb pr w gid created w' entries' ts :
  registry_group alive entries key ms pol hc cb pr w = (gid, created, w', entries') ->
  trials_inv (w, ts) -> trials_inv (w', ts).
Proof.
  intros Hr Hi. apply registry_group_cases in Hr as [[-> ->]|(-> & g & -> & _)].
  { eapply trials_inv_mono; [exact Hi|done|]. by intros. }
  destruct Hi as [Hs Ht]. cbn in *. split; cbn.
  - intros gid' g' i Hg. apply lookup_app_Some in Hg as [Hg|[Hge Hg]]; [by apply Hs|].
    assert (Hz : count (is_trial_of gid' i) ts = 0).
    { clear -Ht Hge. induction Ht as [|[p|c] ts Hp Hts IH]; cbn; [done| |done].
      destruct (Nat.eqb_spec (p_group p) gid'); [lia|]. rewrite andb_false_r. cbn. lia. }
    rewrite Hz. apply trial_slot_range.
  - eapply Forall_impl; [exact Ht|]. intros [p|c]; [|done]. intros [? ?]. split; [|done].
    rewrite length_app. lia.
Qed.

Lemma trials_inv_step s s' : world_step s s' -> trials_inv s -> trials_inv s'.
Proof.
  intros Hs Hi. destruct Hs.
  - by eapply trials_inv_acquire.
  - by eapply trials_inv_refused.
  - eapply trials_inv_reported; [exact Hi|unfold permit_success; by autorewrite with world|done].
  - unfold permit_success_keep in H. injection H as <- <-. apply trials_inv_guard.
    eapply trials_inv_reported; [exact Hi|by autorewrite with world|done].
  - eapply trials_inv_reported; [exact Hi|unfold permit_failure; by autorewrite with world|done].
  - eapply trials_inv_reported; [exact Hi|unfold permit_error_response; by autorewrite with world|done].
  - by apply trials_inv_abandon.
  - destruct Hi as [Hsl Ht]. cbn in *. unfold guard_drop. split; cbn.
    + intros gid g i Hg. autorewrite with world in Hg. rewrite (count_remove _ (TGuard c)). cbn.
      specialize (Hsl _ _ i Hg). lia.
    + autorewrite with world. apply Forall_app in Ht as [H1 H2]. inversion H2; subst. by apply Forall_app.
  - eapply trials_inv_mono; [exact Hi|done|]. by intros.
  - destruct Hi as [Hsl Ht]. split; cbn in *; by rewrite w_groups_on_metrics.
  - eapply trials_inv_mono; [exact Hi|done|]. by intros.
  - by eapply trials_inv_reload.
Qed.

(** ** A trial slot without a permit *)

(** The server of the group is half-open with a taken slot, and no live permit can
    free it. *)
Definition lost_trial (gid i : nat) (s : World * list Token) : Prop :=
  (exists g, w_groups s.1 !! gid = Some g /\ trial_slot g i = 1) /\
  count (is_trial_of gid i) s.2 = 0.

Lemma lost_trial_blocked gid i s g now :
  lost_trial gid i s -> w_groups s.1 !! gid = Some g -> blocked g i now = true.
Proof.
  intros [(g' & Hg' & Hslot) _] Hg. rewrite Hg' in Hg. injection Hg as <-.
  unfold trial_slot in Hslot. unfold blocked.
  destruct (enabled (circuit_breaker g')); [|done]. destruct (breakers g' !! i) as [b|]; [|done].
  cbn. unfold blocks. case_decide as Hc; [|done]. by rewrite Hc.
Qed.

Lemma lost_trial_update gid i w w' ts ts' gid' f :
  lost_trial gid i (w, ts) ->
  w_groups w' = vec_update f gid' (w_groups w) ->
  (forall g, gid' = gid -> w_groups w !! gid = Some g -> trial_slot g i <= trial_slot (f g) i) ->
  count (is_trial_of gid i) ts' = 0 ->
  lost_trial gid i (w', ts').
Proof.
  intros [(g & Hg & Hslot) _] Hw Hf Hc. cbn in Hg. split; [|done]. cbn. rewrite Hw.
  unfold vec_update. destruct (decide (gid' = gid)) as [->|Hne].
  - exists (f g). rewrite list_lookup_alter_eq, Hg. split; [done|].
    pose proof (trial_slot_range (f g) i). specialize (Hf g eq_refl Hg). lia.
  - exists g. by rewrite list_lookup_alter_ne.
Qed.

Lemma acquire_groups gid index now w r w' :
  acquire gid index now w = (r, w') ->
  (r = None /\ w' = w) \/
  exists g g', w_groups w !! gid = Some g /\ w_groups w' = vec_update (fun _ => g') gid (w_groups w) /\
    (forall i, trial_slot g i <= trial_slot g' i) /\
    match r with
    | None => True
    | Some p => p_group p = gid /\ p_index p = index /\
                (p_trial p = true -> trial_slot g index = 0)
    end.
Proof.
  unfold acquire. destruct (w_groups w !! gid) as [g|] eqn:Hg; [|by intros [= <- <-]; left].
  destruct (admit_at g index now) as [a g'] eqn:Ha. intros H. right. exists g, g'.
  assert (Hmono : forall i, trial_slot g i <= trial_slot g' i) by (intros; by eapply admit_at_slot).
  destruct a as [trial|]; inversion H; subst; cbn; autorewrite with world; split_and!; auto.
  intros ->. unfold admit_at in Ha. unfold trial_slot.
  destruct (enabled (circuit_breaker g)); [|done].
  destruct (breakers g !! index) as [b|]; [|done].
  destruct (admit_request b now) as [r0 b'] eqn:Hr. inversion Ha; subst.
  apply admit_request_cases in Hr as [[? _]|(_ & Hc & _)]; [done|]. by rewrite decide_False.
Qed.

Lemma count_zero_remove (p : Token -> bool) t ts1 ts2 :
  count p (ts1 ++ t :: ts2) = 0 -> count p (ts1 ++ ts2) = 0 /\ p t = false.
Proof.
  rewrite !count_app. cbn. pose proof (count_nonneg p ts1). pose proof (count_nonneg p ts2).
  destruct (p t); lia || (split; [lia|done]).
Qed.

(** A reported permit that ends is not the lost trial, so the slot stays taken. *)
Lemma lost_trial_reported gid i w w' ts1 ts2 p failed now f :
  lost_trial gid i (w, ts1 ++ TPermit p :: ts2) ->
  w_groups w' = vec_update (fun g => record_circuit (p_index p) (p_trial p) failed now (f g))
                  (p_group p) (w_groups w) ->
  (forall g j, trial_slot (f g) j = trial_slot g j) ->
  lost_trial gid i (w', ts1 ++ ts2).
Proof.
  intros Hl Hw Hf. pose proof (proj2 Hl) as Hc. cbn in Hc.
  apply count_zero_remove in Hc as [Hc Hp]. cbn in Hp.
  eapply lost_trial_update; [exact Hl|exact Hw| |done].
  intros g <- _. cbn beta. rewrite <-Hf. rewrite Nat.eqb_refl, andb_true_r in Hp.
  destruct (decide (i = p_index p)) as [->|Hne].
  - rewrite Nat.eqb_refl, andb_true_r in Hp. rewrite Hp. apply record_circuit_slot.
  - by rewrite record_circuit_slot_ne.
Qed.

Lemma lost_trial_abandon gid i w ts1 ts2 p :
  lost_trial gid i (w, ts1 ++ TPermit p :: ts2) ->
  lost_trial gid i (permit_abandon p w, ts1 ++ ts2).
Proof.
  intros Hl. pose proof (proj2 Hl) as Hc. cbn in Hc.
  apply count_zero_remove in Hc as [Hc Hp]. cbn in Hp.
  unfold permit_abandon, permit_drop. destruct (p_trial p && negb (p_reported p)) eqn:Et.
  - apply andb_prop in Et as [Et _]. rewrite Et in Hp. cbn in Hp.
    eapply (lost_trial_update _ _ _ _ _ _ (p_group p)); [exact Hl|by autorewrite with world| |done].
    intros g <- _. rewrite Nat.eqb_refl in Hp. apply Nat.eqb_neq in Hp.
    unfold release_trial. by rewrite trial_slot_set_breakers_ne.
  - eapply (lost_trial_update _ _ _ _ _ _ 0 (fun g => g)); [exact Hl| |intros; lia|done].
    autorewrite with world. by rewrite vec_update_id.
Qed.

Lemma lost_trial_step gid i s s' : world_step s s' -> lost_trial gid i s -> lost_trial gid i s'.
Proof.
  intros Hs Hl. destruct Hs.
  - apply acquire_groups in H as [[? _]|(g & g' & Hg & Hw & Hm & Hp & Hx & Ht)]; [done|].
    destruct Hl as [(g0 & Hg0 & Hslot) Hc] eqn:El. cbn in Hg0, Hc.
    eapply lost_trial_update; [exact Hl|exact Hw|intros g1 -> Hg1; simplify_eq; apply Hm|].
    rewrite count_trial_cons, Hc. destruct (p_trial p); [|done].
    destruct (Nat.eqb_spec (p_group p) gid), (Nat.eqb_spec (p_index p) i); cbn; try done.
    subst. simplify_eq. specialize (Ht eq_refl). lia.
  - apply acquire_groups in H as [[_ ->]|(g & g' & Hg & Hw & Hm & _)]; [done|].
    eapply lost_trial_update; [exact Hl|exact Hw|intros g1 -> Hg1; simplify_eq; apply Hm|apply Hl].
  - eapply lost_trial_reported; [exact Hl|unfold permit_success; by autorewrite with world|done].
  - unfold permit_success_keep in H. injection H as <- <-.
    assert (Hr : lost_trial gid i (permit_drop None true p (permit_record false now p
              (on_group (p_group p) (report_success (p_index p)) w)), ts1 ++ ts2)).
    { eapply lost_trial_reported; [exact Hl|by autorewrite with world|done]. }
    destruct Hr as [? Hc]. split; [done|]. exact Hc.
  - eapply lost_trial_reported; [exact Hl|unfold permit_failure; by autorewrite with world|done].
  - eapply lost_trial_reported; [exact Hl|unfold permit_error_response; by autorewrite with world|done].
  - by apply lost_trial_abandon.
  - destruct Hl as [Hg Hc]. cbn in *. apply count_zero_remove in Hc as [Hc _].
    split; [|done]. cbn. unfold guard_drop. by autorewrite with world.
  - eapply lost_trial_update; [exact Hl|done|by intros|apply Hl].
  - destruct Hl as [Hg Hc]. split; cbn in *; by rewrite ?w_groups_on_metrics.
  - eapply lost_trial_update; [exact Hl|done|by intros|apply Hl].
  - apply registry_group_cases in H as [[-> ->]|(-> & g & -> & _)].
    + eapply lost_trial_update; [exact Hl|done|by intros|apply Hl].
    + destruct Hl as [(g0 & Hg0 & Hslot) Hc]. split; [|done]. exists g0. cbn in *. split; [|done].
      by apply lookup_app_l_Some.
Qed.

Lemma lost_trial_forever gid i s s' :
  rtc world_step s s' -> lost_trial gid i s -> lost_trial gid i s'.
Proof. intros Hr. induction Hr; eauto using lost_trial_step. Qed.

Lemma world_invs_reachable s s' :
  rtc world_step s s' -> conns_inv s -> trials_inv s -> conns_inv s' /\ trials_inv s'.
Proof. intros Hr. induction Hr; eauto using conns_inv_step, trials_inv_step. Qed.

(** The empty store: no groups, no counters, no permits. *)
Definition empty_world : World := mkWorld [] [] [].

Lemma empty_world_invs : conns_inv (empty_world, []) /\ trials_inv (empty_world, []).
Proof. split; split; cbn; try constructor; intros; by rewrite lookup_nil in *. Qed.

(** ** What a reloaded group inherits *)

Definition group_wf (g : UpstreamGroup) : Prop :=
  length (servers g) = length (members g) /\ length (breakers g) = length (members g) /\
  length (active_conns g) = length (members g) /\ length (metrics g) = length (members g).

Lemma vec_copy_length {A} (src : list A) i dst j : length (vec_copy src i dst j) = length dst.
Proof. unfold vec_copy. repeat case_match; by rewrite ?length_insert. Qed.

Lemma vec_copy_lookup_eq {A} (src dst : list A) i j :
  (i < length src)%nat -> (j < length dst)%nat -> vec_copy src i dst j !! j = src !! i.
Proof.
  intros Hi Hj. unfold vec_copy.
  destruct (lookup_lt_is_Some_2 src i Hi) as [x ->], (lookup_lt_is_Some_2 dst j Hj) as [y ->].
  by apply list_lookup_insert_eq.
Qed.

Lemma vec_copy_lookup_ne {A} (src dst : list A) i j k :
  j <> k -> vec_copy src i dst j !! k = dst !! k.
Proof. intros H. unfold vec_copy. repeat case_match; by rewrite ?list_lookup_insert_ne. Qed.

Lemma inherit_index_members previous g k : members (inherit_index previous g k) = members g.
Proof. unfold inherit_index. by destruct (position_addr _ _). Qed.

Lemma inherit_index_wf previous g k : group_wf g -> group_wf (inherit_index previous g k).
Proof.
  intros (H1 & H2 & H3 & H4). unfold inherit_index. destruct (position_addr _ _); [|done].
  unfold group_wf. cbn. by rewrite !vec_copy_length.
Qed.

(** The state of one server, as the four per-server slots of a group. *)
Definition server_state (g : UpstreamGroup) (i : nat)
  : option ServerHealth * option Breaker * option nat * option nat :=
  (servers g !! i, breakers g !! i, active_conns g !! i, metrics g !! i).

Lemma inherit_index_ne previous g k i :
  k <> i -> server_state (inherit_index previous g k) i = server_state g i.
Proof.
  intros H. unfold inherit_index, server_state. destruct (position_addr _ _); [|done]. cbn.
  by rewrite !vec_copy_lookup_ne.
Qed.

Lemma inherit_index_eq previous g i :
  group_wf g -> group_wf previous -> (i < length (members g))%nat ->
  server_state (inherit_index previous g i) i
  = match position_addr (addr_at g i) (members previous) with
    | Some j => server_state previous j
    | None => server_state g i
    end.
Proof.
  intros (H1 & H2 & H3 & H4) (P1 & P2 & P3 & P4) Hi. unfold inherit_index, server_state.
  destruct (position_addr _ _) as [j|] eqn:E; [|done]. cbn.
  assert (Hj : (j < length (members previous))%nat).
  { clear -E. revert j E. induction (members previous) as [|m ms IH]; intros j E; cbn in *; [done|].
    destruct (String.eqb (addr m) (addr_at g i)); [inversion E; lia|].
    destruct (position_addr _ ms) as [k|]; [|done]. inversion E; subst. specialize (IH k eq_refl). lia. }
  rewrite !vec_copy_lookup_eq by lia. done.
Qed.

Lemma inherit_fold_spec previous l g i :
  NoDup l -> group_wf g -> group_wf previous -> (i < length (members g))%nat ->
  server_state (fold_left (inherit_index previous) l g) i
  = if decide (i ∈ l) then
      match position_addr (addr_at g i) (members previous) with
      | Some j => server_state previous j
      | None => server_state g i
      end
    else server_state g i.
Proof.
  intros Hnd Hg Hp. revert g Hg. induction Hnd as [|k l Hk Hnd IH]; intros g Hg Hi; cbn.
  - by rewrite decide_False by set_solver.
  - assert (Haddr : addr_at (inherit_index previous g k) i = addr_at g i)
      by (unfold addr_at; by rewrite inherit_index_members).
    rewrite IH, Haddr by (auto using inherit_index_wf; by rewrite inherit_index_members).
    destruct (decide (i = k)) as [->|Hne].
    + rewrite (decide_False (P := k ∈ l)), decide_True by set_solver. by apply inherit_index_eq.
    + rewrite !inherit_index_ne by done.
      destruct (decide (i ∈ l)); [rewrite decide_True by set_solver|rewrite decide_False by set_solver]; done.
Qed.

Lemma inherit_state_spec previous g i :
  group_wf g -> group_wf previous -> (i < length (members g))%nat ->
  server_state (inherit_state previous g) i
  = match position_addr (addr_at g i) (members previous) with
    | Some j => server_state previous j
    | None => server_state g i
    end.
Proof.
  intros Hg Hp Hi. unfold inherit_state. rewrite inherit_fold_spec by (auto using NoDup_seq).
  rewrite decide_True; [done|]. apply elem_of_seq. lia.
Qed.

Lemma group_new_wf ms pol hc cb w : group_wf (group_new ms pol hc cb w).1.
Proof. unfold group_wf. cbn. by rewrite !length_replicate, !length_seq. Qed.

(** ** Properties *)

Definition active_connections (g : UpstreamGroup) (w : World) (index : nat) : Z :=
  map_or (active_conns g !! index) 0 (fun loc => map_or (w_conns w !! loc) 0 id).

(** C2: The active connection counters are exact, through requests, upgrades, abandoned
    permits and configuration reloads: in every reachable state a server of a group shows
    exactly the permits and connection guards that are open on its counter, including those
    that an earlier configuration of the same server opened. *)
Theorem active_connections_exact s gid g i loc :
  rtc world_step (empty_world, []) s ->
  w_groups s.1 !! gid = Some g -> active_conns g !! i = Some loc ->
  Z.of_nat (length s.2) <= u64_max ->
  active_connections g s.1 i = count (uses loc) s.2.
Proof.
  intros Hr Hg Hl Hlen.
  destruct (world_invs_reachable _ _ Hr) as [[Hc Hgr Ht] _]; [apply empty_world_invs..|].
  unfold active_connections. rewrite Hl. cbn.
  assert (Hlt : (loc < length (w_conns s.1))%nat).
  { eapply groups_conns_lookup in Hg; [|exact Hgr]. by eapply Forall_lookup_1 in Hg. }
  destruct (lookup_lt_is_Some_2 _ _ Hlt) as [v Hv]. rewrite Hv. cbn. rewrite (Hc _ _ Hv).
  unfold wrap64. apply Z.mod_small.
  pose proof (count_nonneg (uses loc) s.2). pose proof (count_le_length (uses loc) s.2).
  unfold u64_max in Hlen. lia.
Qed.

(** C11: In every reachable state, reloads included, each server has at most one trial
    request at a time, and only while its circuit is half-open with the trial slot
    taken. *)
Theorem at_most_one_trial s gid g i :
  rtc world_step (empty_world, []) s ->
  w_groups s.1 !! gid = Some g ->
  count (is_trial_of gid i) s.2 <= 1 /\
  (0 < count (is_trial_of gid i) s.2 ->
   exists b, breakers g !! i = Some b /\ circuit b = HalfOpen true).
Proof.
  intros Hr Hg. destruct (world_invs_reachable _ _ Hr) as [_ [Hs _]]; [apply empty_world_invs..|].
  specialize (Hs _ _ i Hg). pose proof (trial_slot_range g i). split; [lia|].
  intros Hpos. unfold trial_slot in Hs. destruct (enabled _); [|lia].
  destruct (breakers g !! i) as [b|]; [|lia]. case_decide; [eauto|lia].
Qed.

(** A reload with unchanged servers and settings reuses the registered group: the
    same group keeps its health, its circuits and its counters, and only its probe is
    replaced. *)
Theorem reload_unchanged_keeps_group alive entries key ms pol hc cb pr w p g :
  entries !! key = Some p -> alive p = true -> w_groups w !! p = Some g ->
  members g = ms -> policy g = pol -> health_check g = hc -> circuit_breaker g = cb ->
  exists entries', registry_group alive entries key ms pol hc cb pr w
    = (p, false, on_group p (set_probe pr) w, entries') /\ entries' !! key = Some p.
Proof.
  intros He Ha Hg <- <- <- <-. unfold registry_group, group_new, get_or_create.
  rewrite retain_live_lookup, He. unfold upgrade_group at 1. rewrite Ha, Hg. cbn.
  unfold upgrade_group at 1. rewrite Ha, Hg. unfold same_settings.
  rewrite !bool_decide_true by done. cbn. eexists. split; [done|].
  rewrite retain_live_lookup, He. unfold upgrade_group. by rewrite Ha, Hg.
Qed.

(** A reload that changes the servers or the settings gives each server of the new
    group the health, the circuit and the very same counters of the first server with its
    address in the replaced group, and a fresh state to a server with a new address. *)
Theorem reload_inherits_by_address previous ms pol hc cb w i :
  group_wf previous -> (i < length ms)%nat ->
  let g := (group_new ms pol hc cb w).1 in
  server_state (inherit_state previous g) i
  = match position_addr (addr_at g i) (members previous) with
    | Some j => server_state previous j
    | None => server_state g i
    end.
Proof. intros Hp Hi g. apply inherit_state_spec; [apply group_new_wf|done|done]. Qed.

(** A run that loses a trial: one server, a circuit that opens on one failure, a trial
    request in flight, and a reload that changes the weight of the server. *)
Module LostTrial.
Definition cb : CircuitBreaker := mkCircuitBreaker true 50 1 (from_secs 10) (from_secs 30).
Definition key : GroupKey := ([1], None).
Definition reload (weight : Z) (w : World) (entries : gmap GroupKey nat) :=
  registry_group (fun _ => true) entries key [mkGroupServer "http://a" weight None []] RoundRobin
    HealthCheck_default cb (ProbeConnect []) w.
Definition w0 := (reload 1 empty_world ∅).1.2.
Definition entries0 := (reload 1 empty_world ∅).2.
Definition p1 : Permit := mkPermit 0 0 false false (Some 0%nat) (Some 0%nat) 0.
Definition w1 := (acquire 0 0 0 w0).2.
Definition w2 := permit_failure "connection refused" 5 p1 w1.
Definition p2 : Permit := mkPermit 0 0 true false (Some 0%nat) (Some 0%nat) (from_secs 31).
Definition w3 := (acquire 0 0 (from_secs 31) w2).2.
Definition w4 := (reload 2 w3 entries0).1.2.

Lemma reload_step weight w ts entries :
  world_step (w, ts) ((reload weight w entries).1.2, ts).
Proof.
  destruct (reload weight w entries) as [[[gid created] w'] entries'] eqn:E.
  exact (ws_reload _ _ _ _ _ _ _ _ _ _ _ _ _ _ E).
Qed.

Lemma run : rtc world_step (empty_world, []) (w4, [TPermit p2]).
Proof.
  eapply rtc_l; [exact (reload_step 1 empty_world [] ∅)|].
  eapply rtc_l; [exact (ws_acquire w0 [] 0 0 0 p1 w1 eq_refl)|].
  eapply rtc_l; [exact (ws_failure w1 [] [] p1 "connection refused" 5)|].
  eapply rtc_l; [exact (ws_acquire w2 [] 0 0 (from_secs 31) p2 w3 eq_refl)|].
  eapply rtc_l; [exact (reload_step 2 w3 [TPermit p2] entries0)|].
  apply rtc_refl.
Qed.

Lemma lost : lost_trial 1 0 (w4, [TPermit p2]).
Proof. split; [|reflexivity]. eexists. split; reflexivity. Qed.
End LostTrial.

(** A configuration change while a trial request is in flight takes the server out
    of service for good: the new group copies the taken trial slot, but the permit that
    would free it reports to the replaced group.  There is a reachable state from which,
    whatever happens later, the circuit of the server blocks every request at every
    time. *)
Theorem reload_during_trial_blocks_forever :
  exists s gid g i, rtc world_step (empty_world, []) s /\
    w_groups s.1 !! gid = Some g /\ 0 < weight_at g i /\
    forall s', rtc world_step s s' ->
      exists g', w_groups s'.1 !! gid = Some g' /\ forall now, blocked g' i now = true.
Proof.
  exists (LostTrial.w4, [TPermit LostTrial.p2]), 1%nat. eexists. exists 0%nat.
  split; [apply LostTrial.run|]. split; [reflexivity|]. split; [reflexivity|].
  intros s' Hr. pose proof (lost_trial_forever _ _ _ _ Hr LostTrial.lost) as Hl.
  pose proof Hl as [(g' & Hg' & _) _]. exists g'. split; [done|]. intros now.
  by eapply lost_trial_blocked.
Qed.

Lemma active_connections_exact_witness :
  exists g, w_groups LostTrial.w4 !! 1%nat = Some g /\
    active_connections g LostTrial.w4 0 = count (uses 0) [TPermit LostTrial.p2] /\
    active_connections g LostTrial.w4 0 = 1.
Proof.
  eexists. split; [reflexivity|]. split; [|reflexivity].
  apply (active_connections_exact (LostTrial.w4, [TPermit LostTrial.p2]) 1 _ 0 0).
  - apply LostTrial.run.
  - reflexivity.
  - reflexivity.
  - vm_compute. discriminate.
Defined.

Lemma at_most_one_trial_witness :
  count (is_trial_of 0 0) [TPermit LostTrial.p2] = 1 /\
  count (is_trial_of 0 0) [TPermit LostTrial.p2] <= 1.
Proof.
  split; [reflexivity|].
  eapply (at_most_one_trial (LostTrial.w4, [TPermit LostTrial.p2]) 0).
  - apply LostTrial.run.
  - reflexivity.
Defined.

Lemma reload_unchanged_keeps_group_witness :
  exists entries', registry_group (fun _ => true) LostTrial.entries0 LostTrial.key
    [mkGroupServer "http://a" 1 None []] RoundRobin HealthCheck_default LostTrial.cb
    (ProbeConnect []) LostTrial.w0
  = (0%nat, false, on_group 0 (set_probe (ProbeConnect [])) LostTrial.w0, entries') /\
  entries' !! LostTrial.key = Some 0%nat.
Proof. eapply reload_unchanged_keeps_group; reflexivity. Defined.

Lemma reload_inherits_by_address_witness :
  let g := (group_new [mkGroupServer "z" 1 None []; mkGroupServer "c" 9 None []] RoundRobin
              HealthCheck_default CircuitBreaker_default (mkWorld [] [4; 5; 6] [])).1 in
  server_state (inherit_state example_group g) 1 = server_state example_group 2 /\
  active_conns (inherit_state example_group g) = [3; 2]%nat.
Proof.
  intros g. split; [|reflexivity].
  etransitivity; [apply (reload_inherits_by_address example_group
             [mkGroupServer "z" 1 None []; mkGroupServer "c" 9 None []] RoundRobin
              HealthCheck_default CircuitBreaker_default (mkWorld [] [4; 5; 6] []) 1)|].
  - repeat split.
  - cbn. lia.
  - reflexivity.
Defined.
