(* ===== verification/Router.v ===== *)
(** * Routing of HTTP requests

    Subject names and virtual hosts ([subject_name.rs], [vhost.rs]), the request filter of a
    route ([proxy/http/filter.rs]), the router's choice of a route ([proxy/http/route.rs]), the
    path rewrite ([rewrite.rs] of the API and of the proxy) and the redirect rules
    ([redirect.rs] of the API and of the proxy).

    Regular expressions (the [regex] crate), the syntax of server names (the
    [rustls-pki-types] crate) and of header values (the [http] crate) are parameters. *)

From Stdlib Require Import Ascii.
From S2P Require Import Prelude Basics IpText Net.

(** The operations of the [regex] crate that the code calls.  [regex_captures] followed by
    [Captures::expand] is [regex_expand]. *)
Class RegexOps : Type := {
  Regex : Type;
  Regex_new : string -> option Regex;
  regex_as_str : Regex -> string;
  regex_is_match : Regex -> string -> bool;
  regex_replace : Regex -> string -> string -> string;
  regex_expand : Regex -> string -> string -> option string;
}.

(** What the documentation of the crate promises. *)
Class RegexLaws (RX : RegexOps) : Prop := {
  regex_new_as_str s r : Regex_new s = Some r -> regex_as_str r = s;
  regex_replace_no_match r text rep : regex_is_match r text = false -> regex_replace r text rep = text;
  regex_expand_match r text t : is_some (regex_expand r text t) = regex_is_match r text;
}.

(** ** Subject names *)

Inductive SubjectName : Type :=
| DnsName (n : string)
| WildcardDnsName (n : string)
| IPAddress (addr : IpAddr).

Definition SubjectName_test (sn : SubjectName) (name : string) : bool :=
  match sn with
  | DnsName n => eq_ignore_ascii_case n name
  | WildcardDnsName n =>
      eq_ignore_ascii_case n
        (trim_start_matches (Ascii.eqb ".")
           (trim_start_matches (fun c => negb (Ascii.eqb c ".")) name))
  | IPAddress addr => eq_ignore_ascii_case name (ip_to_string addr)
  end.

Definition SubjectName_to_string (sn : SubjectName) : string :=
  match sn with
  | DnsName n => n
  | WildcardDnsName n => String.append "*." n
  | IPAddress addr => ip_to_string addr
  end.

(** [str::replace] of one character by another. *)
Fixpoint replace_char (a b : ascii) (s : string) : string :=
  match s with
  | EmptyString => EmptyString
  | String c r => String (if Ascii.eqb c a then b else c) (replace_char a b r)
  end.

(** [s.trim_start_matches("*.")]: every leading occurrence. *)
Fixpoint trim_wildcards (s : string) : string :=
  match s with
  | String "*" (String "." r) => trim_wildcards r
  | _ => s
  end.

(** [ServerName::try_from(..).is_ok()] is the parameter [server_name]. *)
Definition SubjectName_from_str (server_name : string -> bool) (s : string)
  : result SubjectName Error :=
  if negb (server_name (replace_char "*" "a" s)) then Err (InvalidSubjectName s)
  else
    let wildcard := starts_with "*." s in
    let name := trim_wildcards s in
    match parse_ip name with
    | Some addr => Ok (IPAddress addr)
    | None => if wildcard then Ok (WildcardDnsName name) else Ok (DnsName name)
    end.

(** ** Paths *)

Definition ends_with_char (c : ascii) (s : string) : bool :=
  match last (String.list_ascii_of_string s) with
  | Some a => Ascii.eqb a c
  | None => false
  end.

Definition is_single_dot (segment : string) : bool :=
  eq_ignore_ascii_case segment "." || eq_ignore_ascii_case segment "%2e".

Definition is_double_dot (segment : string) : bool :=
  existsb (String.eqb (to_ascii_lowercase segment)) [".."; ".%2e"; "%2e."; "%2e%2e"].

Definition needs_trailing_slash (path : string) (last_was_dot : bool) (result : string) : bool :=
  (ends_with_char "/" path || last_was_dot) && negb (ends_with_char "/" result).

(** One turn of the loop over the segments; the state is [normalized] and [last_was_dot].
    [Vec::pop] on an empty vector changes nothing. *)
Definition normalize_step (st : list string * bool) (segment : string) : list string * bool :=
  let '(normalized, last_was_dot) := st in
  if str_is_empty segment then (normalized, last_was_dot)
  else if is_single_dot segment then (normalized, true)
  else if is_double_dot segment then (removelast normalized, true)
  else (normalized ++ [segment], false).

Definition normalize_path (path : string) : string :=
  let '(normalized, last_was_dot) := fold_left normalize_step (split_on "/" path) ([], false) in
  let result := String "/" (join_with "/" normalized) in
  if needs_trailing_slash path last_was_dot result then String.append result "/" else result.

Definition request_segments (path : string) : list string :=
  split_on "/" (trim_start_matches (Ascii.eqb "/") path).

(** The non-empty segments of a path. *)
Definition path_segments (path : string) : list string :=
  List.filter (fun seg => negb (str_is_empty seg)) (split_on "/" path).

(** ** Rewriting

    [rewrite.rs] of the proxy. *)

Definition join (segments : list string) : string :=
  foldr String.append "" (map (String "/") segments).

Definition split (path : string) : list string :=
  if str_is_empty path then []
  else split_on "/" (unwrap_or (strip_prefix "/" path) path).

(** ** Redirects *)

Inductive RedirectStatus : Type := MovedPermanently | Found | TemporaryRedirect | PermanentRedirect.

Definition RedirectStatus_ALL : list RedirectStatus :=
  [MovedPermanently; Found; TemporaryRedirect; PermanentRedirect].

Definition RedirectStatus_code (s : RedirectStatus) : Z :=
  match s with
  | MovedPermanently => 301
  | Found => 302
  | TemporaryRedirect => 307
  | PermanentRedirect => 308
  end.

Definition RedirectStatus_try_from (c : Z) : result RedirectStatus Error :=
  ok_or (find (fun s => RedirectStatus_code s =? c) RedirectStatus_ALL) (InvalidRedirectStatus c).

Definition validate_target (target : string) : result unit Error :=
  if str_is_empty target || starts_with "//" target || starts_with "/\" target || has_control target
  then Err (InvalidRedirectTarget target)
  else Ok tt.

Section Routing.
Context `{RX : RegexOps}.

(** ** Virtual hosts *)

Inductive VirtualHost : Type :=
| VSubjectName (n : SubjectName)
| VRegex (r : Regex).

Definition VirtualHost_test (v : VirtualHost) (name : string) : bool :=
  match v with
  | VSubjectName n => SubjectName_test n name
  | VRegex r => regex_is_match r name
  end.

Definition VirtualHost_to_string (v : VirtualHost) : string :=
  match v with
  | VSubjectName n => SubjectName_to_string n
  | VRegex r => regex_as_str r
  end.

Definition VirtualHost_from_str (server_name : string -> bool) (s : string)
  : result VirtualHost Error :=
  match SubjectName_from_str server_name s with
  | Ok n => Ok (VSubjectName n)
  | Err _ => match Regex_new s with
             | Some r => Ok (VRegex r)
             | None => Err (InvalidVirtualHost s)
             end
  end.

(** ** The request filter of a route *)

Record RequestFilter : Type := mkRequestFilter {
  vhosts : list VirtualHost;
  path : list string;
}.

Inductive HostMatch : Type := HAny | HRegex | HWildcard | HExact.

(** The derived order: the order of the constructors. *)
Definition HostMatch_rank (h : HostMatch) : Z :=
  match h with HAny => 0 | HRegex => 1 | HWildcard => 2 | HExact => 3 end.

Record MatchRank : Type := mkMatchRank { mr_host : HostMatch; mr_path_segments : nat }.

(** The derived [PartialOrd]: the fields in order. *)
Definition MatchRank_gt (a b : MatchRank) : bool :=
  (HostMatch_rank (mr_host b) <? HostMatch_rank (mr_host a))
  || (HostMatch_rank (mr_host a) =? HostMatch_rank (mr_host b))
     && Nat.ltb (mr_path_segments b) (mr_path_segments a).

(** [route_path] is the field [path] of the route. *)
Definition RequestFilter_new (vs : list VirtualHost) (route_path : string) : RequestFilter :=
  mkRequestFilter vs (path_segments route_path).

Definition vhost_match (v : VirtualHost) : HostMatch :=
  match v with
  | VSubjectName (WildcardDnsName _) => HWildcard
  | VSubjectName _ => HExact
  | VRegex _ => HRegex
  end.

(** [Iterator::max] of host matches. *)
Definition max_match (l : list HostMatch) : option HostMatch :=
  fold_left (fun acc h =>
    match acc with
    | None => Some h
    | Some b => if HostMatch_rank b <=? HostMatch_rank h then Some h else Some b
    end) l None.

Definition host_match (f : RequestFilter) (host : option string) : option HostMatch :=
  match vhosts f with
  | [] => Some HAny
  | _ => match host with
         | None => None
         | Some h => max_match (map vhost_match (List.filter (fun v => VirtualHost_test v h) (vhosts f)))
         end
  end.

Definition matches_host (f : RequestFilter) (host : option string) : bool := is_some (host_match f host).

(** [a.zip(b).take_while(|(a, b)| a == b).count()]. *)
Fixpoint common_prefix (a b : list string) : nat :=
  match a, b with
  | x :: a', y :: b' => if String.eqb x y then S (common_prefix a' b') else O
  | _, _ => O
  end.

(** [uri_path] is the path of the request URI. *)
Definition rank (f : RequestFilter) (uri_path : string) (host : option string) : option MatchRank :=
  match host_match f host with
  | None => None
  | Some h =>
      let matched := common_prefix (request_segments (normalize_path uri_path)) (path f) in
      if Nat.eqb matched (length (path f)) then Some (mkMatchRank h matched) else None
  end.

(** The field [path_segments] of [FilterResult]. *)
Definition filter_result (f : RequestFilter) (uri_path : string) : list string :=
  drop (length (path f)) (request_segments (normalize_path uri_path)).

(** ** The router

    A route keeps the settings the router looks at; [R] holds the others. *)

Record CustomErrorPage : Type := mkCustomErrorPage { ep_status : Z; ep_body : string }.

Record FilteredRoute (R : Type) : Type := mkFilteredRoute {
  fr_filter : RequestFilter;
  fr_error_pages : list CustomErrorPage;
  fr_hide_branding : bool;
  fr_settings : R;
}.
Arguments mkFilteredRoute {R} _ _ _ _.
Arguments fr_filter {R} _.
Arguments fr_error_pages {R} _.
Arguments fr_hide_branding {R} _.
Arguments fr_settings {R} _.

Section Routes.
Context {R : Type}.
Implicit Types (routes : list (FilteredRoute R)).

Fixpoint is_branding_hidden routes (host : option string) : bool :=
  match routes with
  | [] => false
  | route :: rest => if matches_host (fr_filter route) host then fr_hide_branding route
                     else is_branding_hidden rest host
  end.

Fixpoint find_error_pages routes (host : option string) : list CustomErrorPage :=
  match routes with
  | [] => []
  | route :: rest =>
      if matches_host (fr_filter route) host && negb (Nat.eqb (length (fr_error_pages route)) 0)
      then fr_error_pages route else find_error_pages rest host
  end.

Definition better_route (uri_path : string) (host : option string)
    (best : option (MatchRank * FilteredRoute R)) (route : FilteredRoute R)
  : option (MatchRank * FilteredRoute R) :=
  match rank (fr_filter route) uri_path host with
  | None => best
  | Some r => if is_none_or (fun b => MatchRank_gt r b.1) best then Some (r, route) else best
  end.

Definition get_route routes (uri_path : string) (host : option string)
  : option (list string * FilteredRoute R) :=
  match fold_left (better_route uri_path host) routes None with
  | None => None
  | Some (_, route) => Some (filter_result (fr_filter route) uri_path, route)
  end.

Definition has_matching_vhost routes (host : string) : bool :=
  existsb (fun r => existsb (fun v => VirtualHost_test v host) (vhosts (fr_filter r))) routes.
End Routes.

Record ErrorPageTheme : Type := mkErrorPageTheme {
  theme_id : ShortId;
  theme_name : string;
  theme_description : string;
  theme_pages : list CustomErrorPage;
}.

(** [if let Some(existing) = pages.iter_mut().find(..)]: the first page of the status. *)
Fixpoint override_page (pages : list CustomErrorPage) (p : CustomErrorPage) : list CustomErrorPage :=
  match pages with
  | [] => [p]
  | q :: rest => if ep_status q =? ep_status p then p :: rest else q :: override_page rest p
  end.

Definition resolve_effective_error_pages (theme : option ShortId) (overrides : list CustomErrorPage)
    (themes : list ErrorPageTheme) : list CustomErrorPage :=
  let pages :=
    match theme with
    | Some id => match find (fun t => bool_decide (theme_id t = id)) themes with
                 | Some t => theme_pages t
                 | None => []
                 end
    | None => []
    end in
  fold_left override_page overrides pages.

(** ** Path rewriting *)

Record PathRewrite : Type := mkPathRewrite {
  pr_strip_prefix : bool;
  pr_regex : option Regex;
  pr_replacement : string;
  pr_add_prefix : string;
}.

Definition PathRewrite_default : PathRewrite := mkPathRewrite true None "" "".

Definition PathRewrite_validate (p : PathRewrite) : result unit Error :=
  let prefix := pr_add_prefix p in
  if str_is_empty prefix
     || starts_with "/" prefix && negb (str_contains_char prefix "?" || str_contains_char prefix "#")
  then Ok tt else Err (InvalidPathPrefix prefix).

Definition PathRegex_from_str (pattern : string) : result Regex Error :=
  ok_or (Regex_new pattern) (InvalidPathRegex pattern).

Record Rewrite : Type := mkRewrite {
  rw_kept : list string;
  rw_regex : option (Regex * string);
  rw_prefix : list string;
}.

Definition Rewrite_new (config : PathRewrite) (route_path : string) : Rewrite :=
  mkRewrite (if pr_strip_prefix config then [] else path_segments route_path)
    (option_map (fun r => (r, pr_replacement config)) (pr_regex config))
    (path_segments (pr_add_prefix config)).

Definition Rewrite_apply (rw : Rewrite) (rest : list string) : list string :=
  let segments := rw_kept rw ++ rest in
  let segments :=
    match rw_regex rw with
    | Some (regex, replacement) => split (regex_replace regex (join segments) replacement)
    | None => segments
    end in
  rw_prefix rw ++ segments.

(** ** Redirect rules *)

Record RedirectRule : Type := mkRedirectRule {
  rr_regex : Regex;
  rr_target : string;
  rr_status : RedirectStatus;
}.

Definition RedirectRule_validate (r : RedirectRule) : result unit Error := validate_target (rr_target r).

Definition location (r : RedirectRule) (subject : string) : option string :=
  regex_expand (rr_regex r) subject (rr_target r).

Definition parse_line (line : string) : result RedirectRule Error :=
  let line := trim line in
  match split_whitespace line with
  | [status; regex; target] =>
      let? code := ok_or (parse_uint u16_max status) (InvalidRedirectRule line) in
      let? r := PathRegex_from_str regex in
      let? st := RedirectStatus_try_from code in
      let rule := mkRedirectRule r target st in
      let? _ := RedirectRule_validate rule in
      Ok rule
  | _ => Err (InvalidRedirectRule line)
  end.

Definition RedirectRule_to_string (r : RedirectRule) : string :=
  String.append (dec (RedirectStatus_code (rr_status r)))
    (String " " (String.append (regex_as_str (rr_regex r)) (String " " (rr_target r)))).

(** The status and the [Location] of the redirect of the first rule that answers.
    [path_and_query] is that of the request URI; [header_value] says which texts are valid
    header values. *)
Definition redirect_rule (header_value : string -> bool) (rules : list RedirectRule)
    (host : option string) (path_and_query : option string) : option (Z * string) :=
  match rules with
  | [] => None
  | _ =>
      let subject := String.append (unwrap_or host "") (unwrap_or path_and_query "/") in
      find_map (fun rule =>
        match location rule subject with
        | Some l => if header_value l then Some (RedirectStatus_code (rr_status rule), l) else None
        | None => None
        end) rules
  end.
End Routing.

Arguments mkFilteredRoute {RX R} _ _ _ _.
Arguments fr_filter {RX R} _.
Arguments fr_error_pages {RX R} _.
Arguments fr_hide_branding {RX R} _.
Arguments fr_settings {RX R} _.

(** ** Facts on normalized paths *)

(** A segment that normalization keeps. *)
Definition plain (s : string) : Prop :=
  s <> "" /\ char_free "/" s = true /\ is_single_dot s = false /\ is_double_dot s = false.

Lemma split_by_free p s : Forall (fun x => str_forallb (fun a => negb (p a)) x = true) (split_by p s).
Proof.
  induction s as [|c s IH]; cbn; [by constructor|]. destruct (p c) eqn:Ec; [by constructor|].
  destruct (split_by p s) as [|piece rest]; [constructor; cbn; by rewrite ?Ec|].
  inversion IH; subst. constructor; [|done]. cbn. by rewrite Ec.
Qed.

Lemma normalize_fold segs st :
  Forall (fun s => char_free "/" s = true) segs -> Forall plain st.1 ->
  Forall plain (fold_left normalize_step segs st).1.
Proof.
  revert st. induction segs as [|s segs IH]; intros [l d] Hs Hl; [done|]. inversion Hs; subst.
  cbn [fold_left]. apply IH; [done|]. unfold normalize_step.
  destruct (str_is_empty s) eqn:E0; [done|]. destruct (is_single_dot s) eqn:E1; [done|].
  destruct (is_double_dot s) eqn:E2; cbn in *.
  - clear -Hl. induction Hl as [|x l Hx Hl IHl]; cbn; [constructor|]. destruct l; [constructor|by constructor].
  - apply Forall_app. split; [done|]. constructor; [|done]. repeat split; try done. by intros ->.
Qed.

(** Normalization keeps plain segments as they are. *)
Lemma normalize_fold_plain l segs :
  Forall plain segs -> fold_left normalize_step segs (l, false) = (l ++ segs, false).
Proof.
  revert l. induction segs as [|s segs IH]; intros l Hs; [by rewrite app_nil_r|].
  inversion Hs as [|? ? (H1 & _ & H2 & H3) ?]; subst. cbn [fold_left normalize_step].
  destruct s as [|c s]; [done|]. cbn [str_is_empty]. rewrite H2, H3, IH by done. by rewrite <-app_assoc.
Qed.

Lemma list_ascii_append a b :
  String.list_ascii_of_string (String.append a b)
  = String.list_ascii_of_string a ++ String.list_ascii_of_string b.
Proof. induction a as [|c a IH]; cbn; [done|]. by rewrite IH. Qed.

Lemma ends_with_append c a b : b <> "" -> ends_with_char c (String.append a b) = ends_with_char c b.
Proof.
  intros Hb. unfold ends_with_char. rewrite list_ascii_append.
  destruct (String.list_ascii_of_string b) as [|x l] eqn:E; [by destruct b|].
  by rewrite last_app_cons.
Qed.

Lemma ends_with_free c s : char_free c s = true -> ends_with_char c s = false.
Proof.
  unfold ends_with_char, char_free. intros H.
  destruct (last (String.list_ascii_of_string s)) as [a|] eqn:E; [|done].
  apply last_Some_elem_of in E. induction s as [|x s IH]; cbn in *; [by apply elem_of_nil in E|].
  apply andb_prop in H as [H1 H2]. apply elem_of_cons in E as [->|E]; [|by apply IH].
  by apply negb_true_iff.
Qed.

Lemma join_nonempty l : Forall plain l -> l <> [] -> join_with "/" l <> "".
Proof.
  intros Hl Hne. destruct Hl as [|x l (Hx & _) Hl]; [done|]. cbn. destruct l; [done|]. by destruct x.
Qed.

Lemma ends_with_join l : Forall plain l -> l <> [] -> ends_with_char "/" (join_with "/" l) = false.
Proof.
  induction 1 as [|x l (Hx & Hf & _) Hl IH]; intros Hne; [done|]. cbn [join_with].
  destruct l as [|y l]; [by apply ends_with_free|].
  rewrite ends_with_append by done.
  change (String "/" (join_with "/" (y :: l))) with (String.append "/" (join_with "/" (y :: l))).
  rewrite ends_with_append by (by apply join_nonempty). by apply IH.
Qed.

Lemma join_snoc c l x : l <> [] -> join_with c (l ++ [x]) = String.append (join_with c l) (String c x).
Proof.
  induction l as [|y l IH]; intros Hne; [done|]. destruct l as [|z l]; [done|].
  change (join_with c ((y :: z :: l) ++ [x]))
    with (String.append y (String c (join_with c ((z :: l) ++ [x])))).
  rewrite IH by done. cbn [join_with]. by rewrite <-append_assoc.
Qed.

(** The segments of a normalized path, with an empty last one for a trailing slash. *)
Definition trailing (l : list string) (t : bool) : list string :=
  match l with [] => [] | _ => if t then l ++ [""] else l end.

Lemma normalize_path_shape p :
  exists l t, Forall plain l /\ normalize_path p = String "/" (join_with "/" (trailing l t)).
Proof.
  unfold normalize_path. destruct (fold_left normalize_step (split_on "/" p) ([], false)) as [l d] eqn:E.
  assert (Hl : Forall plain l).
  { change l with (l, d).1. rewrite <-E. apply normalize_fold; [apply split_by_free|constructor]. }
  exists l. unfold needs_trailing_slash. destruct l as [|x l].
  - exists false. cbn. rewrite andb_false_r. done.
  - exists (ends_with_char "/" p || d). split; [done|].
    change (String "/" (join_with "/" (x :: l))) with (String.append "/" (join_with "/" (x :: l))).
    rewrite ends_with_append, ends_with_join by (done || by apply join_nonempty). rewrite andb_true_r.
    unfold trailing. destruct (ends_with_char "/" p || d); [|done].
    rewrite join_snoc by done. by rewrite <-append_assoc.
Qed.

Lemma trailing_free l t : Forall plain l -> Forall (fun s => char_free "/" s = true) (trailing l t).
Proof.
  intros H. assert (Hf : Forall (fun s => char_free "/" s = true) l).
  { eapply Forall_impl; [exact H|]. by intros s (_ & Hs & _). }
  unfold trailing. destruct l; [constructor|]. destruct t; [|done]. apply Forall_app. split; [done|].
  by repeat constructor.
Qed.

Lemma trailing_nil l t : trailing l t = [] <-> l = [].
Proof. unfold trailing. destruct l; [done|]. destruct t; split; try done. Qed.

Lemma join_trailing_first l t :
  Forall plain l -> trim_start_matches (Ascii.eqb "/") (join_with "/" (trailing l t)) = join_with "/" (trailing l t).
Proof.
  intros H. destruct H as [|x l (Hx & Hf & _) Hl]; [done|]. destruct x as [|c x]; [done|].
  assert (Hc : Ascii.eqb "/" c = false).
  { cbn in Hf. apply andb_prop in Hf as [Hf _]. apply negb_true_iff in Hf. by rewrite Ascii.eqb_sym. }
  unfold trailing. destruct t; cbn [app join_with]; [destruct (l ++ [""])|destruct l];
    cbn [String.append trim_start_matches]; by rewrite Hc.
Qed.

Lemma trailing_ne l t : l <> [] -> trailing l t = if t then l ++ [""] else l.
Proof. by destruct l. Qed.

Lemma request_segments_normal l t :
  Forall plain l ->
  request_segments (String "/" (join_with "/" (trailing l t))) = match l with [] => [""] | _ => trailing l t end.
Proof.
  intros H. unfold request_segments. cbn [trim_start_matches].
  change (Ascii.eqb "/" "/") with true. cbn iota. rewrite join_trailing_first by done.
  destruct (decide (l = [])) as [->|Hne]; [done|]. transitivity (trailing l t); [|by destruct l].
  apply split_on_join; [by rewrite trailing_nil|by apply trailing_free].
Qed.

Lemma normalize_normal l t :
  Forall plain l ->
  normalize_path (String "/" (join_with "/" (trailing l t))) = String "/" (join_with "/" (trailing l t)).
Proof.
  intros H. unfold normalize_path, split_on. cbn [split_by].
  change (Ascii.eqb "/" "/") with true. cbn iota.
  destruct (decide (l = [])) as [->|Hne]; [done|].
  fold (split_on "/" (join_with "/" (trailing l t))).
  rewrite split_on_join by (by rewrite ?trailing_nil || apply trailing_free).
  cbn [fold_left normalize_step str_is_empty].
  assert (Hend : ends_with_char "/" (String "/" (join_with "/" l)) = false).
  { change (String "/" (join_with "/" l)) with (String.append "/" (join_with "/" l)).
    rewrite ends_with_append by (by apply join_nonempty). by apply ends_with_join. }
  rewrite trailing_ne by done. unfold needs_trailing_slash. destruct t.
  - rewrite fold_left_app, normalize_fold_plain by done. cbn [fold_left normalize_step str_is_empty app].
    rewrite Hend, join_snoc by done.
    change (String "/" (String.append (join_with "/" l) "/"))
      with (String.append (String "/" (join_with "/" l)) "/").
    by rewrite ends_with_append by done.
  - rewrite normalize_fold_plain by done. cbn [app]. by rewrite Hend.
Qed.

Lemma normalize_clean p :
  starts_with "/" (normalize_path p) = true
  /\ Forall (fun s => is_single_dot s = false /\ is_double_dot s = false)
       (request_segments (normalize_path p)).
Proof.
  destruct (normalize_path_shape p) as (l & t & Hl & ->).
  split; [done|]. rewrite request_segments_normal by done.
  assert (Hdots : Forall (fun s => is_single_dot s = false /\ is_double_dot s = false) l).
  { eapply Forall_impl; [exact Hl|]. by intros s (_ & _ & ?). }
  unfold trailing. destruct l; [by repeat constructor|]. destruct t; [|done].
  apply Forall_app. split; [done|]. by repeat constructor.
Qed.

(** Path normalization is safe and final.  The normalized path starts with a slash, none of
    its segments is a dot segment in any of its spellings ([.], [..], [%2e], in either case),
    only the last segment can be empty, and normalizing again changes nothing. *)
Theorem normalize_path_clean p :
  starts_with "/" (normalize_path p) = true
  /\ Forall (fun s => is_single_dot s = false /\ is_double_dot s = false)
       (request_segments (normalize_path p))
  /\ Forall (fun s => s <> "") (removelast (request_segments (normalize_path p)))
  /\ normalize_path (normalize_path p) = normalize_path p.
Proof.
  destruct (normalize_clean p) as [Hs Hd]. split; [done|]. split; [done|]. clear Hs Hd.
  destruct (normalize_path_shape p) as (l & t & Hl & ->).
  rewrite request_segments_normal, normalize_normal by done. split; [|done].
  assert (Hne : Forall (fun s => s <> "") l).
  { eapply Forall_impl; [exact Hl|]. by intros s (? & _). }
  destruct (decide (l = [])) as [->|Hn]; [constructor|].
  assert (Heq : match l with [] => [""] | _ => trailing l t end = if t then l ++ [""] else l)
    by (by destruct l). rewrite Heq.
  destruct t; [by rewrite removelast_last|]. rewrite removelast_firstn_len. by apply Forall_take.
Qed.

(** ** Facts on route matching *)

Lemma common_prefix_full a b :
  common_prefix a b = length b <-> a = b ++ drop (length b) a.
Proof.
  revert a. induction b as [|y b IH]; intros a; [by destruct a|].
  destruct a as [|x a]; [done|]. cbn. destruct (String.eqb_spec x y) as [->|Hne].
  - rewrite Nat.succ_inj_wd, IH. split; [congruence|by intros [=]].
  - split; [done|congruence].
Qed.

Section Matching.
Context `{RX : RegexOps}.

Lemma rank_iff (f : RequestFilter) uri host r :
  rank f uri host = Some r
  <-> exists h, host_match f host = Some h
      /\ request_segments (normalize_path uri) = path f ++ filter_result f uri
      /\ r = mkMatchRank h (length (path f)).
Proof.
  unfold rank, filter_result. destruct (host_match f host) as [h|]; [|split; [done|by intros (? & ? & _)]].
  pose proof (common_prefix_full (request_segments (normalize_path uri)) (path f)) as Hc.
  destruct (Nat.eqb_spec (common_prefix (request_segments (normalize_path uri)) (path f)) (length (path f)))
    as [E|E].
  - rewrite E. split; [intros [= <-]; exists h; by rewrite <-Hc|].
    by intros (h' & [= <-] & _ & ->).
  - split; [done|]. intros (h' & _ & Hs & _). by apply Hc in Hs.
Qed.

(** How a filter accepts a host: a route without virtual hosts accepts all of them, any other
    one by the most specific of its virtual hosts that match. *)
Definition accepts (f : RequestFilter) (host : option string) (h : HostMatch) : Prop :=
  (vhosts f = [] /\ h = HAny)
  \/ exists name v, host = Some name /\ v ∈ vhosts f /\ VirtualHost_test v name = true
       /\ vhost_match v = h
       /\ forall v', v' ∈ vhosts f -> VirtualHost_test v' name = true ->
            HostMatch_rank (vhost_match v') <= HostMatch_rank h.

Lemma max_match_spec l :
  match max_match l with
  | Some h => h ∈ l /\ forall h', h' ∈ l -> HostMatch_rank h' <= HostMatch_rank h
  | None => l = []
  end.
Proof.
  unfold max_match. induction l as [|x l IH] using rev_ind; [done|]. rewrite fold_left_app.
  destruct (fold_left _ l None) as [b|]; cbn [fold_left].
  - destruct IH as [Hb Hle]. destruct (Z.leb_spec (HostMatch_rank b) (HostMatch_rank x)).
    + split; [set_solver|]. intros h' [Hh|Hh]%elem_of_app; [specialize (Hle _ Hh); lia|].
      apply list_elem_of_singleton in Hh as ->. lia.
    + split; [set_solver|]. intros h' [Hh|Hh]%elem_of_app; [by apply Hle|].
      apply list_elem_of_singleton in Hh as ->. lia.
  - subst l. split; [set_solver|]. intros h' Hh. apply list_elem_of_singleton in Hh as ->. lia.
Qed.

Lemma HostMatch_rank_inj a b : HostMatch_rank a = HostMatch_rank b -> a = b.
Proof. by destruct a, b. Qed.

Lemma elem_of_tested (vs : list VirtualHost) name h :
  h ∈ map vhost_match (List.filter (fun v => VirtualHost_test v name) vs)
  <-> exists v, v ∈ vs /\ VirtualHost_test v name = true /\ vhost_match v = h.
Proof.
  rewrite list_elem_of_In, in_map_iff. setoid_rewrite filter_In. setoid_rewrite <-list_elem_of_In.
  naive_solver.
Qed.

Lemma host_match_spec f host h : host_match f host = Some h <-> accepts f host h.
Proof.
  unfold host_match, accepts. destruct (vhosts f) as [|v0 vs] eqn:E.
  { split; [intros [= <-]; by left|]. intros [[_ ->]|(? & v & _ & Hv & _)]; [done|]. by apply elem_of_nil in Hv. }
  rewrite <-E. destruct host as [name|]; [|split; [done|]; intros [[Hn _]|(? & ? & ? & _)]; [by rewrite E in Hn|done]].
  pose proof (max_match_spec (map vhost_match (List.filter (fun v => VirtualHost_test v name) (vhosts f)))) as Hm.
  split.
  - intros Hs. rewrite Hs in Hm. destruct Hm as [Hin Hle]. right.
    apply elem_of_tested in Hin as (v & Hv & Ht & Hh). exists name, v. repeat split; try done.
    intros v' Hv' Ht'. apply Hle, elem_of_tested. eauto.
  - intros [[Hnil _]|(name' & v & [= <-] & Hv & Ht & Hh & Hle)]; [by rewrite E in Hnil|].
    destruct (max_match _) as [b|].
    + destruct Hm as [Hb Hmax]. f_equal. apply HostMatch_rank_inj. apply elem_of_tested in Hb as (v' & Hv' & Ht' & <-).
      specialize (Hle _ Hv' Ht'). specialize (Hmax h ltac:(apply elem_of_tested; eauto)). lia.
    + assert (Hin : h ∈ map vhost_match (List.filter (fun v => VirtualHost_test v name) (vhosts f)))
        by (apply elem_of_tested; eauto).
      rewrite Hm in Hin. by apply elem_of_nil in Hin.
Qed.

(** A route matches a request exactly when its virtual hosts accept the host (any host when
    it has none, else through the most specific virtual host that matches) and its path is a
    prefix, by whole segments, of the normalized request path.  The rank then counts every
    segment of the route, and the segments handed to the upstream are exactly the ones after the
    route's path. *)
Theorem rank_spec (f : RequestFilter) uri host r :
  rank f uri host = Some r
  <-> exists h, accepts f host h
      /\ request_segments (normalize_path uri) = path f ++ filter_result f uri
      /\ r = mkMatchRank h (length (path f)).
Proof. rewrite rank_iff. by setoid_rewrite host_match_spec. Qed.

(** What it is for a match to be more specific than another: a more specific host, or the same
    kind of host and a longer path. *)
Definition more_specific (a b : MatchRank) : Prop :=
  HostMatch_rank (mr_host b) < HostMatch_rank (mr_host a)
  \/ mr_host a = mr_host b /\ (mr_path_segments b < mr_path_segments a)%nat.

Lemma MatchRank_gt_spec a b : reflect (more_specific a b) (MatchRank_gt a b).
Proof.
  apply iff_reflect. unfold MatchRank_gt, more_specific. rewrite orb_true_iff, andb_true_iff, Z.ltb_lt, Z.eqb_eq, Nat.ltb_lt.
  split; (intros [H|[H1 H2]]; [by left|right; split; [|done]]); [by rewrite H1|by apply HostMatch_rank_inj].
Qed.

Lemma more_specific_trans a b c : more_specific a b -> ~ more_specific c b -> more_specific a c.
Proof.
  unfold more_specific. intros H1 H2.
  destruct (Z.lt_trichotomy (HostMatch_rank (mr_host c)) (HostMatch_rank (mr_host a))) as [H|[H|H]].
  - by left.
  - apply HostMatch_rank_inj in H. right. rewrite H in H2. split; [done|].
    destruct H1 as [H1|[H1 H3]]; [exfalso; auto|]. apply Nat.nlt_ge. intros Hlt. apply H2. right. split; [done|lia].
  - destruct H2. left. destruct H1 as [H1|[H1 H3]]; [lia|]. by rewrite <-H1.
Qed.

Lemma more_specific_asym a b : more_specific a b -> ~ more_specific b a.
Proof. unfold more_specific. intros [H|[E H]] [H'|[E' H']]; try lia; rewrite ?E in *; rewrite ?E' in *; lia. Qed.

Context {R : Type}.
Implicit Types (routes : list (FilteredRoute R)).

(** [route] with rank [k] is the choice among [routes]: strictly above every earlier match,
    and not below any later one. *)
Definition is_best uri host routes (k : MatchRank) (route : FilteredRoute R) : Prop :=
  exists before after, routes = before ++ route :: after
    /\ rank (fr_filter route) uri host = Some k
    /\ (forall r k', r ∈ before -> rank (fr_filter r) uri host = Some k' -> more_specific k k')
    /\ (forall r k', r ∈ after -> rank (fr_filter r) uri host = Some k' -> ~ more_specific k' k).

Lemma fold_best uri host routes done_routes best :
  match best with
  | Some (k, route) => is_best uri host done_routes k route
  | None => forall r, r ∈ done_routes -> rank (fr_filter r) uri host = None
  end ->
  match fold_left (better_route uri host) routes best with
  | Some (k, route) => is_best uri host (done_routes ++ routes) k route
  | None => forall r, r ∈ done_routes ++ routes -> rank (fr_filter r) uri host = None
  end.
Proof.
  revert done_routes best. induction routes as [|x routes IH]; intros dr best Hb; cbn [fold_left].
  { rewrite app_nil_r. done. }
  rewrite (cons_middle x), app_assoc. apply IH. clear IH routes. unfold better_route.
  destruct (rank (fr_filter x) uri host) as [kx|] eqn:Ex.
  - destruct best as [[k route]|]; cbn [is_none_or fst].
    + destruct Hb as (b & a & -> & Hk & Hbef & Haft). destruct (MatchRank_gt_spec kx k) as [Eg|Eg].
      * exists (b ++ route :: a), []. split; [done|]. split; [done|]. split; [|intros ? ? H; by apply elem_of_nil in H].
        intros r k' Hr Hk'. apply elem_of_app in Hr as [Hr|Hr].
        { apply (more_specific_trans _ k); [done|].
          apply more_specific_asym. eauto. }
        apply elem_of_cons in Hr as [->|Hr]; [by simplify_eq|]. eapply more_specific_trans; [exact Eg|eauto].
      * exists b, (a ++ [x]). split; [by rewrite <-app_assoc|]. split; [done|]. split; [done|].
        intros r k' Hr Hk'. apply elem_of_app in Hr as [Hr|Hr]; [eauto|].
        apply list_elem_of_singleton in Hr as ->. by simplify_eq.
    + exists dr, []. split; [done|]. split; [done|]. split; [|intros ? ? H; by apply elem_of_nil in H].
      intros r k' Hr Hk'. rewrite Hb in Hk'; done.
  - destruct best as [[k route]|].
    + destruct Hb as (b & a & -> & Hk & Hbef & Haft). exists b, (a ++ [x]).
      split; [by rewrite <-app_assoc|]. split; [done|]. split; [done|].
      intros r k' Hr Hk'. apply elem_of_app in Hr as [Hr|Hr]; [eauto|].
      apply list_elem_of_singleton in Hr as ->. congruence.
    + intros r Hr. apply elem_of_app in Hr as [Hr|Hr]; [auto|]. by apply list_elem_of_singleton in Hr as ->.
Qed.

(** C22: The router answers with the best route, for every list of routes, request and host:
    strictly more specific than every earlier matching route and at least as specific as every
    later one (host match first, then the length of the path, then the first in order), with
    the segments after its path.  It answers nothing only when no route matches. *)
Theorem get_route_best routes uri host :
  match get_route routes uri host with
  | Some (rest, route) =>
      (exists k, is_best uri host routes k route) /\ rest = filter_result (fr_filter route) uri
  | None => forall r, r ∈ routes -> rank (fr_filter r) uri host = None
  end.
Proof.
  unfold get_route. pose proof (fold_best uri host routes [] None) as H.
  specialize (H ltac:(intros r Hr; by apply elem_of_nil in Hr)). cbn [app] in H.
  destruct (fold_left (better_route uri host) routes None) as [[k route]|]; [|exact H].
  split; [by exists k|done].
Qed.
End Matching.

(** ** Facts on the rewrite *)

Lemma split_joined x l :
  char_free "/" x = true -> Forall (fun s => char_free "/" s = true) l ->
  split_on "/" (String.append x (join l)) = x :: l.
Proof.
  intros Hx Hl. revert x Hx. induction Hl as [|y l Hy Hl IH]; intros x Hx.
  - cbn. rewrite append_nil_r. by apply split_by_none.
  - change (join (y :: l)) with (String "/" (String.append y (join l))).
    unfold split_on. rewrite split_by_append by (done || apply Ascii.eqb_refl). f_equal. by apply IH.
Qed.

Lemma split_join segs : Forall (fun s => char_free "/" s = true) segs -> split (join segs) = segs.
Proof.
  destruct 1 as [|x l Hx Hl]; [done|].
  change (join (x :: l)) with (String "/" (String.append x (join l))). unfold split.
  cbn [str_is_empty strip_prefix]. change (Ascii.eqb "/" "/") with true. cbn [unwrap_or]. by apply split_joined.
Qed.

Lemma filter_nonempty l :
  Forall (fun s => s <> "") l -> List.filter (fun seg => negb (str_is_empty seg)) l = l.
Proof. induction 1 as [|y m Hy Hm IH]; [done|]. cbn. destruct y; [done|]. cbn. by rewrite IH. Qed.

Lemma path_segments_join segs :
  Forall (fun s => s <> "" /\ char_free "/" s = true) segs -> path_segments (join segs) = segs.
Proof.
  intros [Hne Hf]%Forall_and. unfold path_segments.
  change (join segs) with (String.append "" (join segs)). rewrite split_joined by done.
  cbn [List.filter str_is_empty negb]. by apply filter_nonempty.
Qed.

Lemma path_segments_wf p : Forall (fun s => s <> "" /\ char_free "/" s = true) (path_segments p).
Proof.
  unfold path_segments. pose proof (split_by_free (fun a => Ascii.eqb a "/") p) as H.
  fold (split_on "/" p) in H. induction H as [|x l Hx Hl IH]; [constructor|]. cbn.
  destruct x; [done|]. cbn. by constructor.
Qed.

Lemma request_segments_free p : Forall (fun s => char_free "/" s = true) (request_segments p).
Proof. apply split_by_free. Qed.

Section Rewriting.
Context `{RX : RegexOps} {RL : RegexLaws RX}.

(** What the rewrite of a route sends after the prefix, when no regex changes it. *)
Definition kept_segments (config : PathRewrite) (f : RequestFilter) (uri : string) : list string :=
  if pr_strip_prefix config then filter_result f uri else request_segments (normalize_path uri).

(** What a matched request is sent as.  Without a regex, or with one that does not match
    the path, the segments are those of [add_prefix] followed by the request's own: all of its
    normalized path when the route keeps its path, and the part after the route's path when the
    route strips it.  The route path is rebuilt from [base_path], as the router passes it.  When
    the prefix has no dot segment, neither has the path that is sent. *)
Theorem rewrite_path vs route_path config uri host r :
  let f := RequestFilter_new vs route_path in
  let rw := Rewrite_new config (join (path f)) in
  let sent := Rewrite_apply rw (filter_result f uri) in
  rank f uri host = Some r ->
  is_none_or (fun rx => negb (regex_is_match rx (join (kept_segments config f uri)))) (pr_regex config) = true ->
  sent = path_segments (pr_add_prefix config) ++ kept_segments config f uri
  /\ (Forall (fun s => is_double_dot s = false) (path_segments (pr_add_prefix config)) ->
      Forall (fun s => is_double_dot s = false) sent).
Proof.
  intros f rw sent Hr Hrx. apply rank_iff in Hr as (h & _ & Hseg & _).
  assert (Hk : (if pr_strip_prefix config then [] else path_segments (join (path f))) ++ filter_result f uri
               = kept_segments config f uri).
  { unfold kept_segments. destruct (pr_strip_prefix config); [done|].
    rewrite path_segments_join by apply path_segments_wf. done. }
  pose proof (request_segments_free (normalize_path uri)) as Hfree.
  assert (Hkf : Forall (fun s => char_free "/" s = true) (kept_segments config f uri)).
  { unfold kept_segments. destruct (pr_strip_prefix config); [|done]. rewrite Hseg in Hfree.
    by apply Forall_app in Hfree as [_ ?]. }
  assert (Hsent : sent = path_segments (pr_add_prefix config) ++ kept_segments config f uri).
  { unfold sent, Rewrite_apply, rw, Rewrite_new. cbn [rw_kept rw_regex rw_prefix]. rewrite Hk.
    destruct (pr_regex config) as [rx|]; cbn [option_map] in *; [|done]. cbn in Hrx.
    apply negb_true_iff in Hrx. rewrite regex_replace_no_match by done. by rewrite split_join. }
  split; [done|]. intros Hp. rewrite Hsent. apply Forall_app. split; [done|].
  assert (Hd : Forall (fun s => is_double_dot s = false) (request_segments (normalize_path uri))).
  { eapply Forall_impl; [apply (proj2 (normalize_clean uri))|]. by intros s []. }
  unfold kept_segments. destruct (pr_strip_prefix config); [|done]. rewrite Hseg in Hd. by apply Forall_app in Hd as [_ ?].
Qed.
End Rewriting.

(** Regular expressions without metacharacters that match a whole text, for the witnesses. *)
Definition plain_regex : RegexOps := {|
  Regex := string;
  Regex_new s := if String.eqb s "(" then None else Some s;
  regex_as_str r := r;
  regex_is_match r text := String.eqb r text;
  regex_replace r text rep := if String.eqb r text then rep else text;
  regex_expand r text t := if String.eqb r text then Some t else None;
|}.

#[export] Instance plain_regex_laws : RegexLaws plain_regex.
Proof.
  split; cbn.
  - intros s r. by destruct (String.eqb s "("); intros [=].
  - intros r text rep H. by rewrite H.
  - intros r text t. by destruct (String.eqb r text).
Qed.

Lemma rewrite_path_witness :
  let f := RequestFilter_new (RX := plain_regex) [] "/api" in
  let config := mkPathRewrite (RX := plain_regex) false (Some "/other") "/x" "/v2" in
  Rewrite_apply (Rewrite_new config (join (path f))) (filter_result f "/foo/%2E%2e/api/users")
  = ["v2"; "api"; "users"].
Proof.
  intros f config.
  apply (rewrite_path (RX := plain_regex) [] "/api" config "/foo/%2E%2e/api/users" None (mkMatchRank HAny 1));
    reflexivity.
Defined.

(** ** Wildcard names *)

Lemma lower_length s : String.length (to_ascii_lowercase s) = String.length s.
Proof. induction s as [|c s IH]; cbn; [done|]. by rewrite IH. Qed.

Lemma eq_ignore_case_length a b : eq_ignore_ascii_case a b = true -> String.length a = String.length b.
Proof.
  unfold eq_ignore_ascii_case. intros H. apply String.eqb_eq in H.
  by rewrite <-(lower_length a), <-(lower_length b), H.
Qed.

Lemma trim_label label rest :
  char_free "." label = true ->
  trim_start_matches (fun c => negb (Ascii.eqb c ".")) (String.append label (String "." rest)) = String "." rest.
Proof.
  induction label as [|c l IH]; intros Hl; [done|]. cbn in Hl. apply andb_prop in Hl as [Hc Hl]. cbn.
  rewrite Hc. by apply IH.
Qed.

Lemma trim_dots n : starts_with "." n = false -> trim_start_matches (Ascii.eqb ".") n = n.
Proof.
  destruct n as [|c n]; [done|]. cbn [starts_with trim_start_matches]. rewrite andb_true_r. by intros ->.
Qed.

Lemma wildcard_label n label rest :
  char_free "." label = true -> starts_with "." rest = false ->
  SubjectName_test (WildcardDnsName n) (String.append label (String "." rest)) = eq_ignore_ascii_case n rest.
Proof.
  intros Hl Hr. cbn [SubjectName_test]. rewrite trim_label by done. cbn [trim_start_matches].
  change (Ascii.eqb "." ".") with true. cbn iota. by rewrite trim_dots.
Qed.

(** The virtual host [*.n] stands for exactly one label: it accepts [label.host] exactly when
    [host] is [n] up to ASCII case, so it accepts [label.n], and neither [n] itself nor a name
    with two labels before [n]. *)
Theorem wildcard_one_label n label :
  n <> "" -> starts_with "." n = false -> char_free "." label = true ->
  SubjectName_test (WildcardDnsName n) (String.append label (String "." n)) = true
  /\ SubjectName_test (WildcardDnsName n) n = false
  /\ (forall sub, char_free "." sub = true -> sub <> "" ->
        SubjectName_test (WildcardDnsName n) (String.append label (String "." (String.append sub (String "." n))))
        = false)
  /\ (forall host, starts_with "." host = false ->
        SubjectName_test (WildcardDnsName n) (String.append label (String "." host)) = eq_ignore_ascii_case n host).
Proof.
  intros Hn Hd Hl.
  assert (Hlen : forall x y, (String.length x < String.length y)%nat -> eq_ignore_ascii_case x y = false
                             /\ eq_ignore_ascii_case y x = false).
  { intros x y Hxy. split; destruct (eq_ignore_ascii_case _ _) eqn:E; try done;
      apply eq_ignore_case_length in E; lia. }
  repeat split.
  - rewrite wildcard_label by done. unfold eq_ignore_ascii_case. apply String.eqb_refl.
  - cbn [SubjectName_test]. refine (proj2 (Hlen _ _ _)). destruct n as [|c n]; [done|].
    cbn [starts_with] in Hd. rewrite andb_true_r, Ascii.eqb_sym in Hd. cbn [trim_start_matches]. rewrite Hd.
    cbn [negb String.length]. pose proof (trim_start_length (fun c => negb (Ascii.eqb c ".")) n).
    pose proof (trim_start_length (Ascii.eqb ".") (trim_start_matches (fun c => negb (Ascii.eqb c ".")) n)). lia.
  - intros sub Hs Hne. rewrite wildcard_label; [|done|].
    + refine (proj1 (Hlen _ _ _)). rewrite str_length_append. cbn. lia.
    + destruct sub as [|c sub]; [done|]. cbn in Hs. apply andb_prop in Hs as [Hc _].
      apply negb_true_iff in Hc. cbn [String.append starts_with]. by rewrite Ascii.eqb_sym, Hc.
  - intros host Hh. by apply wildcard_label.
Qed.

Lemma wildcard_one_label_witness :
  SubjectName_test (WildcardDnsName "example.com") "App.EXAMPLE.com" = true
  /\ SubjectName_test (WildcardDnsName "example.com") "example.com" = false.
Proof.
  split; [reflexivity|].
  destruct (wildcard_one_label "example.com" "app") as (_ & H & _); [done|reflexivity|reflexivity|exact H].
Defined.

(** ** Error pages *)

(** The page of a status: the first one of the list. *)
Definition page_of (status : Z) (pages : list CustomErrorPage) : option CustomErrorPage :=
  find (fun p => ep_status p =? status) pages.

Lemma override_page_spec pages p status :
  page_of status (override_page pages p)
  = if ep_status p =? status then Some p else page_of status pages.
Proof.
  unfold page_of. induction pages as [|q rest IH]; [done|]. cbn [override_page find].
  destruct (Z.eqb_spec (ep_status q) (ep_status p)) as [E|E]; cbn [find].
  - rewrite E. by destruct (ep_status p =? status).
  - rewrite IH. destruct (Z.eqb_spec (ep_status q) status), (Z.eqb_spec (ep_status p) status); done || lia.
Qed.

(** The effective error page of a status is the last override of that status, and the page
    of the theme when there is none; an unknown theme counts as an empty one. *)
Theorem effective_error_pages theme overrides themes status :
  page_of status (resolve_effective_error_pages theme overrides themes)
  = match page_of status (rev overrides) with
    | Some p => Some p
    | None => match theme with
              | Some id => match find (fun t => bool_decide (theme_id t = id)) themes with
                           | Some t => page_of status (theme_pages t)
                           | None => None
                           end
              | None => None
              end
    end.
Proof.
  unfold resolve_effective_error_pages.
  set (base := match theme with Some id => _ | None => [] end).
  transitivity (match page_of status (rev overrides) with Some p => Some p | None => page_of status base end).
  - generalize base. clear. induction overrides as [|o l IH] using rev_ind; intros base; [done|].
    rewrite fold_left_app, rev_app_distr. cbn [fold_left rev app]. rewrite override_page_spec, IH.
    unfold page_of at 3. cbn [find]. by destruct (ep_status o =? status).
  - unfold base. destruct theme as [id|]; [|done]. by destruct (find _ themes).
Qed.

(** ** Redirect lines *)

Notation split_ws := (split_ws_or (fun _ => false)).

(** A text without white space. *)
Definition ws_free (t : string) : Prop := split_ws t = [t].

Lemma split_ws_head s : exists piece rest, split_ws s = piece :: rest /\ starts_with piece s = true.
Proof.
  induction s as [|a r IH]; [by eexists _, _|]. destruct IH as (p & rest & E & Hp).
  cbn [split_ws_or]. cbn [orb].
  assert (Hpush : exists piece rest', match split_ws r with
                  | x :: y => String a x :: y | [] => [String a ""] end = piece :: rest'
                  /\ starts_with piece (String a r) = true).
  { rewrite E. eexists _, _. split; [done|]. cbn. by rewrite Ascii.eqb_refl. }
  destruct (is_ws1 a); [by eexists _, _|].
  destruct r as [|b r2]; [eexists _, _; split; [done|]; cbn; by rewrite Ascii.eqb_refl|].
  destruct (is_ws2 a b); [by eexists _, _|]. destruct r2 as [|c r3]; [exact Hpush|].
  destruct (is_ws3 a b c); [by eexists _, _|exact Hpush].
Qed.

Lemma starts_with_cons a p b s : starts_with (String a p) (String b s) = true -> a = b /\ starts_with p s = true.
Proof. cbn. intros [H1 H2]%andb_prop. by apply Ascii.eqb_eq in H1. Qed.

Lemma ws_free_cons a r p rest :
  is_ws1 a = false -> split_ws r = p :: rest -> ws_free p ->
  (forall b r2, r = String b r2 -> is_ws2 a b = false) ->
  (forall b c r3, r = String b (String c r3) -> is_ws3 a b c = false) ->
  ws_free (String a p).
Proof.
  intros H1 Hs Hp H2 H3. destruct (split_ws_head r) as (p' & rest' & E & Hpre). rewrite Hs in E. simplify_eq.
  unfold ws_free. cbn [split_ws_or orb]. rewrite H1. destruct p' as [|b p2]; [done|].
  destruct r as [|b' r2]; [done|]. apply starts_with_cons in Hpre as [-> Hpre]. rewrite (H2 b' r2) by done.
  unfold ws_free in Hp. destruct p2 as [|c p3]; [by rewrite Hp|].
  destruct r2 as [|c' r3]; [done|]. apply starts_with_cons in Hpre as [-> Hpre]. rewrite (H3 b' c' r3) by done.
  by rewrite Hp.
Qed.

Lemma split_ws_free s : Forall ws_free (split_ws s).
Proof.
  induction s as [s IH] using (induction_ltof1 _ String.length). unfold ltof in IH.
  destruct s as [|a r]; [by repeat constructor|]. cbn [split_ws_or orb].
  destruct (is_ws1 a) eqn:H1; [constructor; [done|]; apply IH; cbn; lia|].
  destruct r as [|b r2]; [constructor; [|done]; unfold ws_free; cbn [split_ws_or orb]; by rewrite H1|].
  destruct (is_ws2 a b) eqn:H2; [constructor; [done|]; apply IH; cbn; lia|].
  assert (Hpush : (forall b' c r3, String b r2 = String b' (String c r3) -> is_ws3 a b' c = false) ->
                  Forall ws_free match split_ws (String b r2) with
                  | x :: y => String a x :: y | [] => [String a ""] end).
  { intros H3. specialize (IH (String b r2) ltac:(cbn; lia)).
    destruct (split_ws (String b r2)) as [|p rest] eqn:E; 
      [destruct (split_ws_head (String b r2)) as (? & ? & E2 & _); by rewrite E in E2|].
    inversion IH; subst. constructor; [|done]. apply (ws_free_cons a (String b r2) p rest); try done.
    intros b' r' Eq. injection Eq as <- <-. done. }
  destruct r2 as [|c r3]; [by apply Hpush|].
  destruct (is_ws3 a b c) eqn:H3; [constructor; [done|]; apply IH; cbn; lia|].
  apply Hpush. by intros ? ? ? [= <- <- <-].
Qed.

Lemma push_inj a l t :
  match l with x :: y => String a x :: y | [] => [String a ""] end = [String a t] ->
  l = [t] \/ (l = [] /\ t = "").
Proof. destruct l; intros [=]; subst; auto. Qed.

(** What a text without white space looks like from its first character on. *)
Lemma ws_free_inv a t :
  ws_free (String a t) ->
  is_ws1 a = false /\ ws_free t
  /\ (forall b t2, t = String b t2 -> is_ws2 a b = false)
  /\ (forall b c t3, t = String b (String c t3) -> is_ws3 a b c = false).
Proof.
  unfold ws_free. cbn [split_ws_or orb]. destruct (is_ws1 a); [done|].
  destruct t as [|b t2]; [done|]. destruct (is_ws2 a b) eqn:H2; [done|].
  assert (Hin : forall l, l <> [] ->
    match l with x :: y => String a x :: y | [] => [String a ""] end = [String a (String b t2)] ->
    l = [String b t2]).
  { intros l Hl H. by apply push_inj in H as [?|[? _]]. }
  assert (Hne : split_ws (String b t2) <> []).
  { destruct (split_ws_head (String b t2)) as (? & ? & -> & _). done. }
  destruct t2 as [|c t3].
  - intros H. apply Hin in H; [|done]. repeat split; try done; by intros ? ? [= <- <-].
  - destruct (is_ws3 a b c) eqn:H3; [done|]. intros H. apply Hin in H; [|done].
    repeat split; try done; [by intros ? ? [= <- <-]|by intros ? ? ? [= <- <- <-]].
Qed.

Lemma is_ws2_space a : is_ws2 a " " = false.
Proof. unfold is_ws2. by rewrite andb_false_r. Qed.

Lemma is_ws3_space a b c : is_ws3 a " " c = false /\ is_ws3 a b " " = false.
Proof.
  unfold is_ws3. change (N_of_ascii " ") with 32%N. cbn [N.eqb N.leb N.compare Pos.eqb andb orb].
  by rewrite !andb_false_r.
Qed.

Lemma split_ws_token t r : ws_free t -> split_ws (String.append t (String " " r)) = t :: split_ws r.
Proof.
  induction t as [|a t IH]; intros Ht; [done|]. apply ws_free_inv in Ht as (H1 & Ht & H2 & H3).
  specialize (IH Ht). cbn [String.append]. set (s := String.append t (String " " r)) in *.
  assert (Hpush : match split_ws s with x :: y => String a x :: y | [] => [String a ""] end
                  = String a t :: split_ws r) by (by rewrite IH).
  cbn [split_ws_or orb]. rewrite H1. destruct s as [|b s2] eqn:Es; [by destruct t|].
  assert (Hb : is_ws2 a b = false).
  { destruct t as [|b' t2]; cbn in Es; injection Es as <- _; [apply is_ws2_space|by apply (H2 b' t2)]. }
  rewrite Hb. destruct s2 as [|c s3]; [exact Hpush|].
  assert (Hc : is_ws3 a b c = false).
  { destruct t as [|b' [|c' t3]]; cbn in Es.
    - injection Es as <- _. apply (proj1 (is_ws3_space a a c)).
    - injection Es as <- <- _. apply (proj2 (is_ws3_space a b' b')).
    - injection Es as <- <- _. by apply (H3 b' c' t3). }
  rewrite Hc. exact Hpush.
Qed.

Lemma trim_start_empty s : trim_start s = "" -> Forall (eq "") (split_ws s).
Proof.
  induction s as [s IH] using (induction_ltof1 _ String.length). unfold ltof in IH.
  destruct s as [|a r]; [by repeat constructor|]. cbn [split_ws_or trim_start orb].
  destruct (is_ws1 a); [intros H; constructor; [done|]; apply IH; [cbn; lia|done]|].
  destruct r as [|b r2]; [done|].
  destruct (is_ws2 a b); [intros H; constructor; [done|]; apply IH; [cbn; lia|done]|].
  destruct r2 as [|c r3]; [done|].
  destruct (is_ws3 a b c); [intros H; constructor; [done|]; apply IH; [cbn; lia|done]|done].
Qed.

(** A text with a visible token, to which [trim_end] does nothing. *)
Definition visible (s : string) : Prop := trim_end s = s /\ Exists (fun p => p <> "") (split_ws s).

Lemma exists_not_empty s : Exists (fun p => p <> "") (split_ws s) -> str_is_empty (trim_start s) = false.
Proof.
  intros He. destruct (trim_start s) as [|c x] eqn:E; [|done]. apply trim_start_empty in E.
  exfalso. rewrite Exists_exists in He. destruct He as (p & Hp & Hne).
  rewrite Forall_forall in E. by specialize (E p Hp).
Qed.

Lemma visible_token t : ws_free t -> t <> "" -> visible t.
Proof.
  induction t as [|a t IH]; intros Ht Hne; [done|].
  assert (He : Exists (fun p => p <> "") (split_ws (String a t))) by (rewrite Ht; by constructor).
  split; [|done]. cbn [trim_end]. rewrite exists_not_empty by done. f_equal.
  apply ws_free_inv in Ht as (_ & Ht & _). destruct t; [done|]. by apply IH.
Qed.

Lemma visible_cons t s : ws_free t -> visible s -> visible (String.append t (String " " s)).
Proof.
  intros Ht [Hs He]. split; [|rewrite split_ws_token by done; by constructor 2].
  induction t as [|a t IH].
  - cbn [String.append trim_end]. rewrite Hs.
    rewrite exists_not_empty; [done|]. change (String " " s) with (String.append "" (String " " s)).
    rewrite split_ws_token by done. by constructor 2.
  - cbn [String.append]. cbn [trim_end]. rewrite exists_not_empty.
    + f_equal. apply IH. by apply ws_free_inv in Ht as (_ & ? & _).
    + change (String a (String.append t (String " " s))) with (String.append (String a t) (String " " s)).
      rewrite split_ws_token by done. by constructor 2.
Qed.

Lemma try_from_code st : RedirectStatus_try_from (RedirectStatus_code st) = Ok st.
Proof. by destruct st. Qed.

Lemma try_from_inv c st : RedirectStatus_try_from c = Ok st -> c = RedirectStatus_code st.
Proof.
  unfold RedirectStatus_try_from. destruct (find _ _) as [x|] eqn:E; [|done]. intros [= <-].
  apply find_some in E as [_ E]. by apply Z.eqb_eq in E.
Qed.

Lemma rule_text (st : RedirectStatus) x y :
  ws_free x -> ws_free y -> x <> "" -> y <> "" ->
  let line := String.append (dec (RedirectStatus_code st)) (String " " (String.append x (String " " y))) in
  trim line = line /\ split_whitespace line = [dec (RedirectStatus_code st); x; y].
Proof.
  intros Hx Hy Hxn Hyn line.
  assert (Hd : ws_free (dec (RedirectStatus_code st))) by (by destruct st).
  assert (Hv : visible line) by (apply visible_cons; [done|]; apply visible_cons; [done|]; by apply visible_token).
  split.
  - unfold trim. assert (Hs : trim_start line = line) by (by destruct st). rewrite Hs. apply Hv.
  - unfold split_whitespace, line. rewrite split_ws_token, split_ws_token, Hy by done.
    assert (Hdn : dec (RedirectStatus_code st) <> "") by (by destruct st).
    by destruct (dec (RedirectStatus_code st)), x, y.
Qed.

Section RedirectLines.
Context `{RX : RegexOps} {RL : RegexLaws RX}.

(** A redirect rule that [parse_line] accepts prints as a line that reads back as the same
    rule.  Its target was validated: it is not empty, has no control character and is not a
    protocol-relative address. *)
Theorem redirect_line_roundtrip line rule :
  parse_line line = Ok rule ->
  parse_line (RedirectRule_to_string rule) = Ok rule /\ validate_target (rr_target rule) = Ok tt.
Proof.
  unfold parse_line at 1. cbn zeta. pose proof (split_ws_free (trim line)) as Hf.
  destruct (split_whitespace (trim line)) as [|status [|regex [|target [|? ?]]]] eqn:Es; try done.
  assert (Htok : forall t, t ∈ split_whitespace (trim line) -> ws_free t /\ t <> "").
  { intros t. unfold split_whitespace. rewrite list_elem_of_In, filter_In, <-list_elem_of_In.
    intros [Ht Hn]. rewrite Forall_forall in Hf. split; [by apply Hf|]. by intros ->. }
  rewrite Es in Htok. clear Hf Es.
  destruct (parse_uint u16_max status) as [c|]; [|done]. cbn [ok_or and_then].
  destruct (PathRegex_from_str regex) as [r|e] eqn:Er; [|done]. cbn [and_then].
  destruct (RedirectStatus_try_from c) as [st|e] eqn:Est; [|done]. cbn [and_then].
  destruct (RedirectRule_validate _) as [[]|e] eqn:Ev; [|done]. cbn [and_then]. intros [= <-].
  split; [|exact Ev]. unfold RedirectRule_to_string. cbn [rr_regex rr_target rr_status].
  assert (Hr : regex_as_str r = regex).
  { unfold PathRegex_from_str in Er. destruct (Regex_new regex) eqn:E; [|done]. cbn in Er. injection Er as ->.
    by apply regex_new_as_str. }
  rewrite Hr. destruct (Htok regex ltac:(set_solver)) as [Hrw Hrn]. destruct (Htok target ltac:(set_solver)) as [Htw Htn].
  unfold parse_line. destruct (rule_text st regex target Hrw Htw Hrn Htn) as [-> ->].
  rewrite parse_uint_dec by (unfold u16_max, u64_max; destruct st; cbn; lia). cbn [ok_or and_then].
  rewrite Er. cbn [and_then]. rewrite try_from_code. cbn [and_then]. rewrite Ev. done.
Qed.
End RedirectLines.

Lemma redirect_line_roundtrip_witness :
  exists rule, parse_line (RX := plain_regex) "  301   ^a$	/b " = Ok rule
    /\ RedirectRule_to_string rule = "301 ^a$ /b"
    /\ parse_line (RX := plain_regex) (RedirectRule_to_string rule) = Ok rule.
Proof.
  eexists. split; [reflexivity|]. split; [reflexivity|].
  apply (redirect_line_roundtrip (RX := plain_regex) "  301   ^a$	/b "). reflexivity.
Defined.
