(* ===== verification/Policy.v ===== *)
(** * Access policies

    The policies of [r3v3rs3-api/src/policy.rs] and the client address of
    [r3v3rs3-api/src/client_ip.rs].  CIDR blocks (the [ipnet] crate) are the interface
    [IpNets]; [str::to_lowercase] is an argument where the code uses it. *)

From Stdlib Require Import Ascii.
From S2P Require Import Prelude Basics IpText Net.

(** The operations of the [ipnet] crate that the code calls. *)
Class IpNets : Type := {
  IpNet : Type;
  net_contains : IpNet -> IpAddr -> bool;
  net_addr : IpNet -> IpAddr;
  prefix_len : IpNet -> Z;
  max_prefix_len : IpNet -> Z;
}.

(** A block of the full prefix length holds its own address only. *)
Class IpNetsLaws (N : IpNets) : Prop := {
  full_prefix_contains net ip :
    prefix_len net = max_prefix_len net -> net_contains net ip = bool_decide (ip = net_addr net);
}.

Section Policies.
Context `{NETS : IpNets}.

Definition in_nets (nets : list IpNet) (ip : IpAddr) : bool := existsb (fun net => net_contains net ip) nets.

(** ** IP filter *)

Record IpFilter : Type := mkIpFilter {
  allow : list IpNet;
  deny : list IpNet;
  allow_countries : list string;
  deny_countries : list string;
}.

Definition vec_is_empty {A} (l : list A) : bool := match l with [] => true | _ => false end.

Definition IpFilter_is_empty (f : IpFilter) : bool :=
  vec_is_empty (allow f) && vec_is_empty (deny f)
  && vec_is_empty (allow_countries f) && vec_is_empty (deny_countries f).

Definition is_country_denied (f : IpFilter) (country : option string) : bool :=
  match country with
  | Some c => existsb (fun d => eq_ignore_ascii_case d c) (deny_countries f)
  | None => false
  end.

Definition matches_country_allow (f : IpFilter) (country : option string) : bool :=
  match country with
  | Some c => existsb (fun a => eq_ignore_ascii_case a c) (allow_countries f)
  | None => false
  end.

Definition allows_with_country (f : IpFilter) (ip : IpAddr) (country : option string) : bool :=
  let ip := to_canonical ip in
  if in_nets (deny f) ip || is_country_denied f country then false
  else
    let in_allow_cidr := negb (vec_is_empty (allow f)) && in_nets (allow f) ip in
    if in_allow_cidr then true
    else if negb (vec_is_empty (allow_countries f)) then matches_country_allow f country
    else vec_is_empty (allow f).

Definition allows (f : IpFilter) (ip : IpAddr) : bool := allows_with_country f ip None.
End Policies.

(** ** Rate limit *)

Inductive RatePeriod : Type := Second | Minute | Hour.

Definition RatePeriod_ALL : list RatePeriod := [Second; Minute; Hour].

Definition RatePeriod_duration (p : RatePeriod) : Duration :=
  match p with
  | Second => from_secs 1
  | Minute => from_secs 60
  | Hour => from_secs 3600
  end.

Definition RatePeriod_as_str (p : RatePeriod) : string :=
  match p with Second => "second" | Minute => "minute" | Hour => "hour" end.

Record RateLimit : Type := mkRateLimit {
  requests : Z;
  per : RatePeriod;
  burst : Z;
}.

Definition RateLimit_is_disabled (l : RateLimit) : bool := requests l =? 0.

(** [Duration / u32] rounds down to whole nanoseconds. *)
Definition replenish_interval (l : RateLimit) : option Duration :=
  if 0 <? requests l then Some (RatePeriod_duration (per l) / requests l) else None.

Definition burst_size (l : RateLimit) : Z := if burst l =? 0 then requests l else burst l.

(** ** Concurrency limit *)

Definition header_symbols : string := "!#$%&'*+-.^_`|~".

Definition is_header_name (name : string) : bool :=
  negb (str_is_empty name)
  && str_forallb (fun c => is_ascii_alphanumeric c || str_contains_char header_symbols c) name.

Record ConcurrencyLimit : Type := mkConcurrencyLimit {
  cl_max : Z;
  cl_header : option string;
}.

#[export] Instance ConcurrencyLimit_eq_dec : EqDecision ConcurrencyLimit.
Proof. solve_decision. Defined.

Definition ConcurrencyLimit_is_disabled (l : ConcurrencyLimit) : bool := cl_max l =? 0.

Definition ConcurrencyLimit_validate (l : ConcurrencyLimit) : result unit Error :=
  match cl_header l with
  | Some header => if negb (is_header_name header) then Err (InvalidHeaderName header) else Ok tt
  | None => Ok tt
  end.

(** ** Authentication policies

    [U] is the type [ServerUrl], a wrapper of the [url] crate's [Url]. *)

Record BasicAuthUser : Type := mkBasicAuthUser {
  username : string;
  password : string;
  password_hash : string;
  password_set : bool;
}.

Record BasicAuth : Type := mkBasicAuth {
  realm : string;
  users : list BasicAuthUser;
  user_file : option string;
}.

Record BearerToken : Type := mkBearerToken {
  token_name : string;
  token : string;
  token_hash : string;
  token_set : bool;
}.

Record BearerAuth : Type := mkBearerAuth { tokens : list BearerToken }.

Definition BearerToken_MIN_LENGTH : Z := 16.

Record ForwardAuth (U : Type) : Type := mkForwardAuth {
  fa_url : U;
  fa_response_headers : list string;
  fa_timeout : Duration;
}.

Definition DEFAULT_FORWARD_AUTH_TIMEOUT : Duration := from_secs 10.

Record OidcAuth : Type := mkOidcAuth {
  issuer_url : string;
  authorization_url : string;
  token_url : string;
  userinfo_url : string;
  client_id : string;
  client_secret : string;
  client_secret_set : bool;
  scopes : list string;
  allowed_emails : list string;
}.

Definition default_oidc_scopes : list string := ["openid"; "email"; "profile"].

Inductive AuthPolicy (U : Type) : Type :=
| ANone
| ABasic (basic : BasicAuth)
| ABearer (bearer : BearerAuth)
| AForward (forward : ForwardAuth U)
| ASession
| AOidc (oidc : OidcAuth).
Arguments ANone {U}.
Arguments ABasic {U} _.
Arguments ABearer {U} _.
Arguments AForward {U} _.
Arguments ASession {U}.
Arguments AOidc {U} _.

Definition AuthPolicy_is_none {U} (p : AuthPolicy U) : bool := match p with ANone => true | _ => false end.

Definition username_error (u : BasicAuthUser) : option string :=
  if str_is_empty (username u) then Some "Username is required"
  else if str_contains_char (username u) ":" then Some "Username must not contain a colon"
  else if has_control (username u) then Some "Username must not contain control characters"
  else None.

(** [Path::components] on Unix: a leading [.] is kept, the others and empty components are
    dropped; there is no prefix component. *)
Inductive Component : Type := RootDir | CurDir | ParentDir | Normal (name : string).

Definition component_of (first : bool) (seg : string) : list Component :=
  if str_is_empty seg then []
  else if String.eqb seg "." then (if first then [CurDir] else [])
  else if String.eqb seg ".." then [ParentDir]
  else [Normal seg].

Definition components (path : string) : list Component :=
  match split_on "/" path with
  | [] => []
  | x :: rest =>
      (if starts_with "/" path then [RootDir] else component_of true x)
      ++ flat_map (component_of false) rest
  end.

(** On Unix [Path::is_absolute] is the presence of the root directory. *)
Definition is_absolute (path : string) : bool := starts_with "/" path.

Definition is_unsafe_path_str (trimmed : string) : bool :=
  str_is_empty trimmed || starts_with "/" trimmed || starts_with "\" trimmed
  || starts_with "~" trimmed || is_absolute trimmed.

Fixpoint check_path_components (l : list Component) (original : string) : result unit Error :=
  match l with
  | [] => Ok tt
  | ParentDir :: _ | RootDir :: _ => Err (InvalidFilePath original)
  | _ :: rest => check_path_components rest original
  end.

Definition validate_user_file_path (path_str : string) : result unit Error :=
  let trimmed := trim path_str in
  if is_unsafe_path_str trimmed then Err (InvalidFilePath path_str)
  else check_path_components (components trimmed) path_str.

Definition BasicAuth_validate (b : BasicAuth) : result unit Error :=
  match user_file b with
  | Some path => validate_user_file_path path
  | None => Ok tt
  end.

Definition AuthPolicy_validate {U} (p : AuthPolicy U) : result unit Error :=
  match p with
  | ABasic basic => BasicAuth_validate basic
  | _ => Ok tt
  end.

(** [str::ends_with]. *)
Fixpoint ends_with (suffix s : string) : bool :=
  String.eqb suffix s || match s with EmptyString => false | String _ r => ends_with suffix r end.

Definition email_matches (to_lowercase : string -> string) (email_lower pattern : string) : bool :=
  let pat := to_lowercase (trim pattern) in
  if String.eqb pat "*" then true
  else match strip_prefix "*@" pat with
       | Some suffix => ends_with (String "@" suffix) email_lower
       | None =>
           match strip_prefix "@" pat with
           | Some suffix => ends_with (String "@" suffix) email_lower
           | None => String.eqb email_lower pat
           end
       end.

Definition is_email_allowed (to_lowercase : string -> string) (email : string) (allowed : list string)
  : bool :=
  match allowed with
  | [] => true
  | _ => existsb (email_matches to_lowercase (to_lowercase email)) allowed
  end.

(** ** Client addresses *)

Definition canonical_client_ip (ip : IpAddr) : IpAddr :=
  match to_canonical ip with
  | V4 v4 => V4 v4
  | V6 v6 =>
      let bytes := octets (V6 v6) in
      V6 (be_combine (take 8 bytes ++ replicate 8 0))
  end.

(** ** Facts *)

Section FilterFacts.
Context `{NETS : IpNets}.

Lemma any_country c l :
  existsb (fun d => eq_ignore_ascii_case d c) l = true
  <-> exists d, d ∈ l /\ eq_ignore_ascii_case d c = true.
Proof. rewrite existsb_exists. by setoid_rewrite list_elem_of_In. Qed.

(** A country of the list, compared without case. *)
Definition country_in (country : option string) (l : list string) : Prop :=
  exists c d, country = Some c /\ d ∈ l /\ eq_ignore_ascii_case d c = true.

Lemma country_in_spec country l :
  (match country with Some c => existsb (fun d => eq_ignore_ascii_case d c) l | None => false end) = true
  <-> country_in country l.
Proof.
  unfold country_in. destruct country as [c|]; [rewrite any_country; naive_solver|naive_solver].
Qed.

Definition in_blocks (ip : IpAddr) (nets : list IpNet) : Prop := exists net, net ∈ nets /\ net_contains net ip = true.

Lemma in_nets_spec nets ip : in_nets nets ip = true <-> in_blocks ip nets.
Proof. unfold in_nets, in_blocks. rewrite existsb_exists. by setoid_rewrite list_elem_of_In. Qed.

(** The IP filter's decision, for every filter, address and country: a client is let through
    exactly when neither its block nor its country is denied, and it is in an allowed block, or
    its country is allowed, or nothing at all is on the allow lists.  A denied block or country
    wins over every allow list, and an IPv4-mapped IPv6 address is judged as its IPv4 address. *)
Theorem ip_filter_decision (f : IpFilter) ip country :
  (allows_with_country f ip country = true
   <-> ~ in_blocks (to_canonical ip) (deny f) /\ ~ country_in country (deny_countries f)
       /\ (in_blocks (to_canonical ip) (allow f) \/ country_in country (allow_countries f)
           \/ (allow f = [] /\ allow_countries f = [])))
  /\ allows_with_country f (to_canonical ip) country = allows_with_country f ip country.
Proof.
  split; [|unfold allows_with_country; by rewrite to_canonical_idemp].
  unfold allows_with_country. cbn zeta.
  destruct (in_nets (deny f) (to_canonical ip)) eqn:Ed; cbn [orb].
  { apply in_nets_spec in Ed. split; [done|]. by intros (? & _). }
  destruct (is_country_denied f country) eqn:Ec; unfold is_country_denied in Ec.
  { apply country_in_spec in Ec. split; [done|]. by intros (_ & ? & _). }
  assert (Hd : ~ in_blocks (to_canonical ip) (deny f)) by (rewrite <-in_nets_spec; congruence).
  assert (Hc : ~ country_in country (deny_countries f)) by (rewrite <-country_in_spec; congruence).
  destruct (in_nets (allow f) (to_canonical ip)) eqn:Ea.
  { assert (Hin := proj1 (in_nets_spec _ _) Ea). destruct (allow f); [done|]. cbn. tauto. }
  rewrite andb_false_r.
  assert (Ha : ~ in_blocks (to_canonical ip) (allow f)) by (rewrite <-in_nets_spec; congruence).
  pose proof (country_in_spec country (allow_countries f)) as Hco.
  fold (matches_country_allow f country) in Hco.
  destruct (allow_countries f) as [|c0 cs] eqn:Eac; cbn [vec_is_empty negb].
  - assert (Hn : ~ country_in country []) by (intros (? & ? & _ & H & _); by apply elem_of_nil in H).
    destruct (allow f); cbn; naive_solver.
  - rewrite Hco. naive_solver.
Qed.
End FilterFacts.

Lemma be_combine_zeros l n : be_combine (l ++ replicate n 0) = be_combine l * 256 ^ Z.of_nat n.
Proof.
  unfold be_combine. rewrite fold_left_app. generalize (fold_left (fun acc b => acc * 256 + b) l 0). intros a.
  revert a. induction n as [|n IH]; intros a; [cbn; lia|].
  cbn [replicate fold_left]. rewrite IH, Nat2Z.inj_succ, Z.pow_succ_r by lia. ring.
Qed.

Lemma take8_octets b : take 8 (be_bytes 16 b) = be_bytes 8 (Z.shiftr b 64).
Proof. cbn [be_bytes take]. by rewrite !Z.shiftr_shiftr by lia. Qed.

Lemma client_prefix b :
  0 <= b < 2 ^ 128 ->
  be_combine (take 8 (octets (V6 b)) ++ replicate 8 0) = Z.shiftr b 64 * 2 ^ 64
  /\ 0 <= Z.shiftr b 64 < 2 ^ 64.
Proof.
  intros Hb.
  assert (Hr : 0 <= Z.shiftr b 64 < 2 ^ 64).
  { rewrite Z.shiftr_div_pow2 by lia. split; [apply Z.div_pos; lia|].
    apply Z.div_lt_upper_bound; [lia|]. change (2 ^ 64 * 2 ^ 64) with (2 ^ 128). lia. }
  split; [|done]. rewrite be_combine_zeros. change (256 ^ Z.of_nat 8) with (2 ^ 64). f_equal.
  cbn [octets]. rewrite take8_octets. etransitivity;
    [exact (fold_bytes 8 8 (Z.shiftr b 64) 0 be_bytes ltac:(lia) (fun _ _ => eq_refl) (fun _ => eq_refl))|].
  change ((2 ^ 8) ^ Z.of_nat 8) with (2 ^ 64). rewrite Z.mod_small by lia. lia.
Qed.

(** A prefix with a cleared lower half is not an IPv4-mapped address. *)
Lemma prefix_canonical p : 0 <= p < 2 ^ 64 -> to_canonical (V6 (p * 2 ^ 64)) = V6 (p * 2 ^ 64).
Proof.
  intros Hp. cbn [to_canonical]. rewrite Z.shiftr_div_pow2 by lia.
  change (2 ^ 64) with (2 ^ 32 * 2 ^ 32) at 1. rewrite Z.mul_assoc, Z.div_mul by lia.
  destruct (Z.eqb_spec (p * 2 ^ 32) 65535); [lia|done].
Qed.

(** The address that rate limits and lockouts count by.  An IPv4 address, mapped or not, is
    its own key; two other IPv6 addresses share a key exactly when they share their [/64]
    prefix, and never share one with an IPv4 address.  Keys are canonical: a key is its own
    key. *)
Theorem client_key_prefix a b :
  ip_wf a -> ip_wf b ->
  canonical_client_ip (canonical_client_ip a) = canonical_client_ip a
  /\ (canonical_client_ip a = canonical_client_ip b
      <-> match to_canonical a, to_canonical b with
          | V4 x, V4 y => x = y
          | V6 x, V6 y => Z.shiftr x 64 = Z.shiftr y 64
          | _, _ => False
          end).
Proof.
  assert (Hwf : forall ip, ip_wf ip -> ip_wf (to_canonical ip)).
  { intros [x|x]; cbn; [done|]. intros Hx. destruct (Z.shiftr x 32 =? 65535); cbn; [|done].
    change 4294967295 with (Z.ones 32). apply land_range. lia. }
  intros Ha Hb. apply Hwf in Ha, Hb. unfold canonical_client_ip at 2 3 4 5.
  destruct (to_canonical a) as [x|x].
  { split; [done|]. destruct (to_canonical b) as [y|y]; naive_solver. }
  destruct (client_prefix x Ha) as [-> Hx]. split.
  - unfold canonical_client_ip. rewrite prefix_canonical by done.
    assert (Hr : 0 <= Z.shiftr x 64 * 2 ^ 64 < 2 ^ 128).
    { change (2 ^ 128) with (2 ^ 64 * 2 ^ 64). nia. }
    destruct (client_prefix _ Hr) as [-> _]. do 2 f_equal. rewrite (Z.shiftr_div_pow2 (_ * _)) by lia.
    apply Z.div_mul. lia.
  - destruct (to_canonical b) as [y|y]; [naive_solver|]. destruct (client_prefix y Hb) as [-> Hy].
    split; [|by intros ->]. intros [= H]. nia.
Qed.

Lemma client_key_prefix_witness :
  let a := V6 42540766411282592856903984951653826561 in
  let b := V6 42540766411282592856903984951653826999 in
  a <> b /\ canonical_client_ip a = canonical_client_ip b.
Proof.
  intros a b. split; [done|]. apply (client_key_prefix a b); [by vm_compute|by vm_compute|reflexivity].
Defined.

Lemma check_components_spec l original :
  check_path_components l original
  = if existsb (fun c => match c with ParentDir | RootDir => true | _ => false end) l
    then Err (InvalidFilePath original) else Ok tt.
Proof. induction l as [|[] l IH]; cbn; done. Qed.

Lemma component_parent first seg :
  existsb (fun c => match c with ParentDir | RootDir => true | _ => false end) (component_of first seg)
  = String.eqb seg "..".
Proof.
  unfold component_of. destruct seg as [|c s]; [done|]. cbn [str_is_empty].
  destruct (String.eqb_spec (String c s) ".") as [E|_]; [rewrite E; by destruct first|].
  by destruct (String.eqb (String c s) "..").
Qed.

Lemma components_parent path :
  starts_with "/" path = false ->
  existsb (fun c => match c with ParentDir | RootDir => true | _ => false end) (components path)
  = existsb (String.eqb "..") (split_on "/" path).
Proof.
  intros Hs. unfold components. rewrite Hs. destruct (split_on "/" path) as [|x rest]; [done|].
  rewrite existsb_app, component_parent. cbn [existsb]. rewrite String.eqb_sym. f_equal.
  induction rest as [|y rest IH]; [done|]. cbn [flat_map existsb].
  by rewrite existsb_app, component_parent, IH, String.eqb_sym.
Qed.

(** A user file path is accepted exactly when, without the white space around it, it is a
    non-empty relative path (not starting with a slash, a backslash or a tilde) none of whose
    components is [..]; every other path is refused with an error that names it. *)
Theorem user_file_path_confined path_str :
  let trimmed := trim path_str in
  validate_user_file_path path_str
  = if negb (str_is_empty trimmed) && negb (existsb (fun p => starts_with p trimmed) ["/"; "\"; "~"])
       && negb (existsb (String.eqb "..") (split_on "/" trimmed))
    then Ok tt else Err (InvalidFilePath path_str).
Proof.
  intros trimmed. unfold validate_user_file_path. fold trimmed. unfold is_unsafe_path_str, is_absolute.
  cbn [existsb].
  destruct (str_is_empty trimmed); [done|]. destruct (starts_with "/" trimmed) eqn:Es; [done|].
  destruct (starts_with "\" trimmed); [done|]. destruct (starts_with "~" trimmed); [done|].
  cbn [orb negb andb]. rewrite check_components_spec, components_parent by done.
  by destruct (existsb (String.eqb "..") (split_on "/" trimmed)).
Qed.

Lemma ends_with_spec suffix s : ends_with suffix s = true <-> exists p, s = String.append p suffix.
Proof.
  induction s as [|c s IH]; cbn [ends_with].
  - rewrite orb_false_r, String.eqb_eq. split; [intros ->; by exists ""|].
    intros [[|? ?] H]; [done|done].
  - rewrite orb_true_iff, String.eqb_eq, IH. split.
    + intros [->|[p ->]]; [by exists ""|by exists (String c p)].
    + intros [[|a p] H]; [by left|]. injection H as <- ->. right. by exists p.
Qed.

Lemma strip_prefix_spec p s r : strip_prefix p s = Some r <-> s = String.append p r.
Proof.
  revert s. induction p as [|a p IH]; intros s; cbn [strip_prefix String.append].
  - split; [by intros [=]|by intros ->].
  - destruct s as [|b s]; [split; done|]. destruct (Ascii.eqb_spec a b) as [->|Hne].
    + rewrite IH. split; [by intros ->|by intros [= ->]].
    + split; [done|]. intros [=]. congruence.
Qed.

(** What a lower-case pattern accepts, [email] being in lower case. *)
Definition pattern_accepts (pat email : string) : Prop :=
  pat = "*"
  \/ (exists local domain, email = String.append local (String "@" domain)
       /\ (pat = String.append "*@" domain \/ pat = String "@" domain))
  \/ (pat = email /\ starts_with "@" pat = false /\ starts_with "*@" pat = false).

Lemma strip_prefix_none p s : strip_prefix p s = None -> starts_with p s = false.
Proof.
  revert s. induction p as [|a p IH]; intros s; [done|]. destruct s as [|b s]; [done|].
  cbn. destruct (Ascii.eqb a b); [apply IH|done].
Qed.

Lemma email_matches_spec lower email pattern :
  email_matches lower email pattern = true <-> pattern_accepts (lower (trim pattern)) email.
Proof.
  unfold email_matches, pattern_accepts. cbn zeta. set (pat := lower (trim pattern)). clearbody pat.
  destruct (String.eqb_spec pat "*") as [->|Hs]; [naive_solver|].
  destruct (strip_prefix "*@" pat) as [d|] eqn:E1.
  { apply strip_prefix_spec in E1. subst pat. rewrite ends_with_spec. split.
    - intros [p Hp]. right. left. exists p, d. auto.
    - intros [?|[(l & d' & He & [Hd|Hd])|(_ & _ & Hd)]]; [done| |done|done].
      injection Hd as <-. by exists l. }
  destruct (strip_prefix "@" pat) as [d|] eqn:E2.
  { apply strip_prefix_spec in E2. subst pat. rewrite ends_with_spec. split.
    - intros [p Hp]. right. left. exists p, d. auto.
    - intros [?|[(l & d' & He & [Hd|Hd])|(_ & Hd & _)]]; [done|done| |done].
      injection Hd as <-. by exists l. }
  rewrite String.eqb_eq. split.
  - intros <-. right. right. auto using strip_prefix_none.
  - intros [?|[(l & d' & He & [Hd|Hd])|(Hd & _ & _)]]; [done| | |done].
    + assert (strip_prefix "*@" pat = Some d') by (by apply strip_prefix_spec). congruence.
    + assert (strip_prefix "@" pat = Some d') by (by apply strip_prefix_spec). congruence.
Qed.

(** The e-mail allow list.  An empty list accepts every address.  Otherwise an address is
    accepted exactly when, both in lower case, a trimmed pattern is [*], is the address itself,
    or is [*@domain] or [@domain] for the text after an [@] of the address: a domain pattern
    does not accept a longer domain that merely ends in it. *)
Theorem email_allow_list lower email allowed :
  is_email_allowed lower email allowed = true
  <-> allowed = []
      \/ exists pattern, pattern ∈ allowed /\ pattern_accepts (lower (trim pattern)) (lower email).
Proof.
  unfold is_email_allowed. destruct allowed as [|a l]; [naive_solver|].
  rewrite existsb_exists. setoid_rewrite <-list_elem_of_In. setoid_rewrite email_matches_spec. naive_solver.
Qed.
