(* ===== verification/ClientIp.v ===== *)
(** * The client address of a request

    The CDN providers ([r3v3rs3-api/src/cdn.rs]), the table of their edge addresses
    ([cdn/mod.rs]), and the resolver of the client address from the headers of trusted proxies
    ([proxy/http/client_ip.rs]). *)

From Stdlib Require Import Ascii.
From S2P Require Import Prelude Basics IpText Net Policy.

Inductive CdnProvider : Type :=
| Cloudflare | Fastly | Cloudfront | Bunny | Gcore | Keycdn | Imperva | GoogleCloud.

#[export] Instance CdnProvider_eq_dec : EqDecision CdnProvider.
Proof. solve_decision. Defined.

Definition CdnProvider_ALL : list CdnProvider :=
  [Cloudflare; Fastly; Cloudfront; Bunny; Gcore; Keycdn; Imperva; GoogleCloud].

Definition CdnProvider_to_string (p : CdnProvider) : string :=
  match p with
  | Cloudflare => "Cloudflare"
  | Fastly => "Fastly"
  | Cloudfront => "Amazon CloudFront"
  | Bunny => "Bunny CDN"
  | Gcore => "Gcore"
  | Keycdn => "KeyCDN"
  | Imperva => "Imperva"
  | GoogleCloud => "Google Cloud Load Balancing"
  end.

Inductive CdnRangesSource : Type := Embedded | Downloaded.

Record CdnProviderStatus : Type := mkCdnProviderStatus { cps_provider : CdnProvider; cps_ranges : Z }.

Record CdnStatus : Type := mkCdnStatus {
  cs_updated_at : Z;
  cs_source : CdnRangesSource;
  cs_providers : list CdnProviderStatus;
  cs_errors : list string;
}.

(** ** Reading addresses *)

(** The port of a socket address: decimal digits only. *)
Definition parse_port (s : string) : option Z :=
  if negb (str_is_empty s) && str_forallb is_ascii_digit s then parse_uint u16_max s else None.

(** [SocketAddr::from_str]: [ip4:port], or [[ip6]:port] with an optional scope number.  The
    code uses the address only. *)
Definition parse_socket_ip (s : string) : option IpAddr :=
  match strip_prefix "[" s with
  | Some r =>
      match split_once "]" r with
      | Some (inner, String ":" port) =>
          let '(addr, scope_ok) :=
            match split_once "%" inner with
            | Some (a, scope) =>
                (a, negb (str_is_empty scope) && str_forallb is_ascii_digit scope
                    && is_some (parse_uint u32_max scope))
            | None => (inner, true)
            end in
          match parse_ipv6 addr, scope_ok, parse_port port with
          | Some b, true, Some _ => Some (V6 b)
          | _, _, _ => None
          end
      | _ => None
      end
  | None =>
      match split_once ":" s with
      | Some (ip, port) =>
          match parse_ipv4 ip, parse_port port with
          | Some b, Some _ => Some (V4 b)
          | _, _ => None
          end
      | None => None
      end
  end.

(** [str::rsplit_once]: at the last occurrence. *)
Fixpoint rsplit_once (c : ascii) (s : string) : option (string * string) :=
  match s with
  | EmptyString => None
  | String a r =>
      match rsplit_once c r with
      | Some (x, y) => Some (String a x, y)
      | None => if Ascii.eqb a c then Some (EmptyString, r) else None
      end
  end.

Definition parse_forwarded_ip (value : string) : option IpAddr :=
  let value := trim value in
  match parse_ip value with
  | Some ip => Some (to_canonical ip)
  | None =>
      match parse_socket_ip value with
      | Some ip => Some (to_canonical ip)
      | None =>
          match rsplit_once ":" value with
          | None => None
          | Some (ip, port) =>
              match parse_uint u16_max port with
              | None => None
              | Some _ => option_map to_canonical (parse_ip ip)
              end
          end
      end
  end.

(** [str::strip_suffix] of one character. *)
Fixpoint strip_suffix_char (c : ascii) (s : string) : option string :=
  match s with
  | EmptyString => None
  | String a EmptyString => if Ascii.eqb a c then Some EmptyString else None
  | String a r => option_map (String a) (strip_suffix_char c r)
  end.

(** [s.get(..n)], for an ASCII comparison of the result. *)
Definition str_get (n : nat) (s : string) : option string :=
  if Nat.leb n (String.length s) then Some (String.substring 0 n s) else None.

Definition quote : ascii := ascii_of_nat 34.

(** The address of one element of the [Forwarded] header. *)
Definition forwarded_element_ip (element : string) : option IpAddr :=
  match find (fun directive => is_some_and (fun head => eq_ignore_ascii_case head "for=")
                                 (str_get 4 (trim directive))) (split_on ";" element) with
  | None => None
  | Some directive =>
      let value := trim (String.substring 4 (String.length (trim directive) - 4) (trim directive)) in
      let value :=
        match value with
        | String a r => if Ascii.eqb a quote then unwrap_or (strip_suffix_char quote r) value else value
        | EmptyString => value
        end in
      parse_forwarded_ip value
  end.

(** ** Headers

    The parts of [HeaderMap] (the [http] crate) that the code reads: the first value of a name
    and all of its values, as far as they are text. *)
Class HeaderMaps : Type := {
  HeaderMap : Type;
  header_first : HeaderMap -> string -> option string;
  header_all : HeaderMap -> string -> list string;
}.

Definition CLIENT_IP_HEADERS : list string :=
  ["forwarded"; "x-forwarded-for"; "x-forwarded-host"; "x-real-ip"; "cf-connecting-ip";
   "true-client-ip"; "cloudfront-viewer-address"; "fastly-client-ip"; "incap-client-ip"].

(** [Iterator::filter_map]. *)
Fixpoint filter_map {A B} (f : A -> option B) (l : list A) : list B :=
  match l with
  | [] => []
  | a :: r => match f a with Some b => b :: filter_map f r | None => filter_map f r end
  end.

Record ClientAddr : Type := mkClientAddr {
  peer : IpAddr;
  ip : IpAddr;
  trusted_peer : bool;
}.

Definition direct (p : IpAddr) : ClientAddr := mkClientAddr (to_canonical p) (to_canonical p) false.

Section Resolver.
Context `{NETS : IpNets} `{HDRS : HeaderMaps}.

(** ** The table of CDN addresses *)

(** [BTreeMap<CdnProvider, Vec<IpNet>>], in the order of its keys. *)
Record CdnRanges : Type := mkCdnRanges {
  updated_at : Z;
  providers : list (CdnProvider * list IpNet);
}.

Record CdnTable : Type := mkCdnTable {
  ranges : CdnRanges;
  source : CdnRangesSource;
  exact : list (IpAddr * CdnProvider);
  prefixes : list (IpNet * CdnProvider);
}.

(** The blocks of the table with their providers, in the order of the two loops. *)
Definition provider_nets (r : CdnRanges) : list (IpNet * CdnProvider) :=
  flat_map (fun '(p, nets) => map (fun net => (net, p)) nets) (providers r).

Definition is_host_net (net : IpNet) : bool := prefix_len net =? max_prefix_len net.

(** The body of the inner loop.  [exact] is a hash map: the newest entry of an address is
    first. *)
Definition add_net (t : list (IpAddr * CdnProvider) * list (IpNet * CdnProvider))
    (e : IpNet * CdnProvider) : list (IpAddr * CdnProvider) * list (IpNet * CdnProvider) :=
  let '(net, provider) := e in
  if is_host_net net then ((net_addr net, provider) :: t.1, t.2)
  else (t.1, t.2 ++ [(net, provider)]).

Definition CdnTable_new (r : CdnRanges) (src : CdnRangesSource) : CdnTable :=
  let '(ex, pre) := fold_left add_net (provider_nets r) ([], []) in
  mkCdnTable r src ex pre.

Definition CdnTable_empty : CdnTable := CdnTable_new (mkCdnRanges 0 []) Embedded.

Definition lookup_cdn (t : CdnTable) (a : IpAddr) : option CdnProvider :=
  let a := to_canonical a in
  match find (fun e => bool_decide (e.1 = a)) (exact t) with
  | Some e => Some e.2
  | None => option_map snd (find (fun e => net_contains e.1 a) (prefixes t))
  end.

Definition status_of (r : CdnRanges) (src : CdnRangesSource) (errors : list string) : CdnStatus :=
  mkCdnStatus (updated_at r) src
    (map (fun '(p, nets) => mkCdnProviderStatus p (Z.of_nat (length nets))) (providers r)) errors.

Definition CdnTable_status (t : CdnTable) (errors : list string) : CdnStatus :=
  status_of (ranges t) (source t) errors.

(** The swap of the active table; the result says whether the ranges were installed. *)
Definition install (r : CdnRanges) (active : CdnTable) : bool * CdnTable :=
  if updated_at r <=? updated_at (ranges active) then (false, active)
  else (true, CdnTable_new r Downloaded).

(** ** The resolver *)

Record ClientIpConfig : Type := mkClientIpConfig {
  trust_cdn : bool;
  trusted_proxies : list IpNet;
}.

Definition ClientIpConfig_default : ClientIpConfig := mkClientIpConfig true [].

(** The resolver keeps the two fields of its configuration. *)
Definition ClientIpResolver : Type := ClientIpConfig.

Definition ClientIpResolver_new (c : ClientIpConfig) : ClientIpResolver :=
  mkClientIpConfig (trust_cdn c) (trusted_proxies c).

Inductive Trust : Type := TCdn (p : CdnProvider) | TProxy.

Definition trust (r : ClientIpResolver) (a : IpAddr) (table : CdnTable) : option Trust :=
  if in_nets (trusted_proxies r) a then Some TProxy
  else if negb (trust_cdn r) then None
  else option_map TCdn (lookup_cdn table a).

Definition rfc7239_forwarded_ips (headers : HeaderMap) : list IpAddr :=
  filter_map forwarded_element_ip
    (flat_map (fun value => split_on "," value) (header_all headers "forwarded")).

Definition header_ip (headers : HeaderMap) (name : string) : option IpAddr :=
  match header_first headers name with
  | Some value => parse_forwarded_ip value
  | None => None
  end.

Definition provider_header_ip (p : CdnProvider) (headers : HeaderMap) : option IpAddr :=
  match p with
  | Cloudflare => header_ip headers "cf-connecting-ip"
  | Bunny => header_ip headers "x-real-ip"
  | Cloudfront => header_ip headers "cloudfront-viewer-address"
  | _ => None
  end.

(** The addresses of the chain: [X-Forwarded-For], then [Forwarded]. *)
Definition forwarded_entries (headers : HeaderMap) : list IpAddr :=
  filter_map parse_forwarded_ip
    (flat_map (fun value => split_on "," value) (header_all headers "x-forwarded-for"))
  ++ rfc7239_forwarded_ips headers.

(** The rightmost untrusted address, else the first one. *)
Definition pick_entry (r : ClientIpResolver) (table : CdnTable) (entries : list IpAddr) : option IpAddr :=
  match find (fun a => is_none (trust r a table)) (rev entries) with
  | Some a => Some a
  | None => hd_error entries
  end.

Definition forwarded_for_ip (r : ClientIpResolver) (headers : HeaderMap) (table : CdnTable) : option IpAddr :=
  pick_entry r table (forwarded_entries headers).

Definition resolve (r : ClientIpResolver) (p : IpAddr) (headers : HeaderMap) (table : CdnTable) : ClientAddr :=
  let d := direct p in
  match trust r (peer d) table with
  | None => d
  | Some t =>
      let found :=
        match t with
        | TCdn provider => provider_header_ip provider headers
        | TProxy => forwarded_for_ip r headers table
        end in
      mkClientAddr (peer d) (unwrap_or found (peer d)) true
  end.
End Resolver.

(** ** Facts *)

Section Facts.
Context `{NETS : IpNets} {LAWS : IpNetsLaws NETS} `{HDRS : HeaderMaps}.

(** The loops sort the blocks into the two parts of the table. *)
Lemma cdn_tables nets ex pre e :
  let t := fold_left add_net nets (ex, pre) in
  (e ∈ t.1 <-> e ∈ ex \/ exists net, (net, e.2) ∈ nets /\ is_host_net net = true /\ e.1 = net_addr net)
  /\ (forall x, x ∈ t.2 <-> x ∈ pre \/ (x ∈ nets /\ is_host_net x.1 = false)).
Proof.
  revert ex pre. induction nets as [|[net p] nets IH]; intros ex pre; cbn [fold_left].
  { cbn. set_solver. }
  unfold add_net at 2. unfold add_net at 3. destruct (is_host_net net) eqn:E; cbn [fst snd];
    destruct (IH (if is_host_net net then (net_addr net, p) :: ex else ex)
                 (if is_host_net net then pre else pre ++ [(net, p)])) as [H1 H2]; rewrite E in H1, H2;
    split; [rewrite H1|intros x; rewrite H2|rewrite H1|intros x; rewrite H2].
  - rewrite elem_of_cons. split.
    + intros [[->|?]|(n & ? & ? & ?)]; [right; exists net; set_solver|by left|right; exists n; set_solver].
    + intros [?|(n & [Hn|?]%elem_of_cons & ? & He)]; [by left; right| |right; by exists n].
      injection Hn as -> Hp. left. left. destruct e. by cbn in *; subst.
  - rewrite elem_of_cons. split; [naive_solver|]. intros [?|[[->|?] ?]]; [by left| |by right]. cbn in *. congruence.
  - split.
    + intros [?|(n & ? & ? & ?)]; [by left|right; exists n; set_solver].
    + intros [?|(n & [Hn|?]%elem_of_cons & ? & He)]; [by left| |right; by exists n]. injection Hn as -> _. congruence.
  - rewrite elem_of_app, list_elem_of_singleton, elem_of_cons. naive_solver.
Qed.

Lemma find_In {A} (p : A -> bool) l x : find p l = Some x -> x ∈ l /\ p x = true.
Proof. intros H. apply find_some in H. by rewrite list_elem_of_In. Qed.

Lemma find_None {A} (p : A -> bool) l : find p l = None <-> forall x, x ∈ l -> p x = false.
Proof.
  split; [intros H x Hx; apply list_elem_of_In in Hx; by apply (find_none _ _ H)|].
  intros H. destruct (find p l) eqn:E; [|done]. apply find_In in E as [Hin Hp]. by rewrite H in Hp.
Qed.

Lemma lookup_cdn_owner r src a p :
  lookup_cdn (CdnTable_new r src) a = Some p ->
  exists net, (net, p) ∈ provider_nets r /\ net_contains net (to_canonical a) = true.
Proof.
  unfold lookup_cdn, CdnTable_new. pose proof (fun e => cdn_tables (provider_nets r) [] [] e) as Ht. cbn zeta in *.
  destruct (fold_left add_net (provider_nets r) ([], [])) as [ex pre]. cbn [exact prefixes fst snd] in *.
  destruct (find _ ex) as [[x q]|] eqn:E.
  - intros [= <-]. apply find_In in E as [Hin Hx]. cbn in Hx. apply bool_decide_eq_true in Hx as ->.
    apply Ht in Hin as [Hin|(net & Hn & Hh & He)]; [by apply elem_of_nil in Hin|]. exists net. split; [done|].
    rewrite full_prefix_contains by (by apply Z.eqb_eq). by apply bool_decide_eq_true.
  - destruct (find (fun e => net_contains e.1 (to_canonical a)) pre) as [[net q]|] eqn:E2; [|done].
    intros [= <-]. apply find_In in E2 as [Hin Hc]. exists net. split; [|done].
    apply (proj2 (Ht (a, q))) in Hin as [Hin|[Hin _]]; [by apply elem_of_nil in Hin|done].
Qed.

Lemma lookup_cdn_none r src a net p :
  lookup_cdn (CdnTable_new r src) a = None -> (net, p) ∈ provider_nets r ->
  net_contains net (to_canonical a) = false.
Proof.
  unfold lookup_cdn, CdnTable_new. pose proof (fun e => cdn_tables (provider_nets r) [] [] e) as Ht. cbn zeta in *.
  destruct (fold_left add_net (provider_nets r) ([], [])) as [ex pre]. cbn [exact prefixes fst snd] in *.
  destruct (find _ ex) as [[x q]|] eqn:E; [done|].
  destruct (find (fun e => net_contains e.1 (to_canonical a)) pre) as [[? ?]|] eqn:E2; [done|]. intros _ Hn.
  destruct (is_host_net net) eqn:Eh.
  - rewrite full_prefix_contains by (by apply Z.eqb_eq). apply bool_decide_eq_false. intros Heq.
    pose proof (proj1 (find_None _ _) E (net_addr net, p)) as H. cbn in H.
    rewrite bool_decide_eq_false in H. apply H; [|done]. apply Ht. right. exists net. done.
  - pose proof (proj1 (find_None _ _) E2 (net, p)) as H. apply H.
    apply (proj2 (Ht (a, p))). right. done.
Qed.

(** The CDN table answers for an address exactly when one of the ranges it was built from
    holds it, and then with a provider that owns such a range: splitting the ranges into single
    addresses and prefixes loses nothing.  IPv4-mapped addresses are looked up as IPv4. *)
Theorem cdn_lookup_correct r src a :
  match lookup_cdn (CdnTable_new r src) a with
  | Some p => exists net, (net, p) ∈ provider_nets r /\ net_contains net (to_canonical a) = true
  | None => forall net p, (net, p) ∈ provider_nets r -> net_contains net (to_canonical a) = false
  end.
Proof.
  destruct (lookup_cdn (CdnTable_new r src) a) as [p|] eqn:E; [by eapply lookup_cdn_owner|].
  intros net p. by apply lookup_cdn_none with (src := src).
Qed.

End Facts.

Section ResolverFacts.
Context `{NETS : IpNets} `{HDRS : HeaderMaps}.

Lemma parse_forwarded_canonical v a : parse_forwarded_ip v = Some a -> to_canonical a = a.
Proof.
  unfold parse_forwarded_ip. cbn zeta.
  destruct (parse_ip (trim v)) as [x|]; [intros [= <-]; apply to_canonical_idemp|].
  destruct (parse_socket_ip (trim v)) as [x|]; [intros [= <-]; apply to_canonical_idemp|].
  destruct (rsplit_once ":" (trim v)) as [[x y]|]; [|done]. destruct (parse_uint u16_max y); [|done].
  destruct (parse_ip x); [|done]. intros [= <-]. apply to_canonical_idemp.
Qed.

Lemma filter_map_forall {A B} (f : A -> option B) (P : B -> Prop) l :
  (forall a b, f a = Some b -> P b) -> Forall P (filter_map f l).
Proof. intros H. induction l as [|a l IH]; cbn; [constructor|]. destruct (f a) eqn:E; [constructor; eauto|done]. Qed.

Lemma forwarded_entries_canonical headers : Forall (fun a => to_canonical a = a) (forwarded_entries headers).
Proof.
  unfold forwarded_entries, rfc7239_forwarded_ips. apply Forall_app. split; apply filter_map_forall.
  - apply parse_forwarded_canonical.
  - intros el a. unfold forwarded_element_ip. destruct (find _ _); [|done]. apply parse_forwarded_canonical.
Qed.

Lemma find_app_some {A} (p : A -> bool) l1 l2 :
  find p (l1 ++ l2) = match find p l1 with Some x => Some x | None => find p l2 end.
Proof. induction l1 as [|a l IH]; [done|]. cbn. by destruct (p a). Qed.

Lemma find_split {A} (p : A -> bool) l x :
  find p l = Some x -> exists l1 l2, l = l1 ++ x :: l2 /\ p x = true /\ Forall (fun y => p y = false) l1.
Proof.
  induction l as [|a l IH]; [done|]. cbn. destruct (p a) eqn:E.
  - intros [= <-]. exists [], l. done.
  - intros H. destruct (IH H) as (l1 & l2 & -> & Hx & Hl). exists (a :: l1), l2. repeat split; try done. by constructor.
Qed.

(** The chosen entry of a chain. *)
Lemma pick_entry_spec r table entries :
  match pick_entry r table entries with
  | Some a =>
      (exists l1 l2, entries = l1 ++ a :: l2 /\ trust r a table = None
         /\ Forall (fun b => trust r b table <> None) l2)
      \/ (hd_error entries = Some a /\ Forall (fun b => trust r b table <> None) entries)
  | None => entries = []
  end.
Proof.
  unfold pick_entry. destruct (find _ (rev entries)) as [a|] eqn:E.
  - apply find_split in E as (l1 & l2 & Hl & Ha & Hall). left. exists (rev l2), (rev l1). split.
    + rewrite <-(rev_involutive entries), Hl, rev_app_distr. cbn. by rewrite <-app_assoc.
    + destruct (trust r a table); [done|]. split; [done|].
      apply Forall_rev. eapply Forall_impl; [exact Hall|]. cbv beta. intros b Hb Hn. by rewrite Hn in Hb.
  - destruct entries as [|a l]; [done|]. right. split; [done|]. apply Forall_forall. intros b Hb.
    pose proof (proj1 (find_None _ _) E b) as H. rewrite list_elem_of_In, <-in_rev, <-list_elem_of_In in H.
    specialize (H Hb). cbv beta in H. intros Hn. by rewrite Hn in H.
Qed.

Lemma pick_entry_prefix r table fake entries :
  Exists (fun a => trust r a table = None) entries ->
  pick_entry r table (fake ++ entries) = pick_entry r table entries.
Proof.
  intros He. unfold pick_entry. rewrite rev_app_distr, find_app_some.
  destruct (find (fun a => is_none (trust r a table)) (rev entries)) eqn:E; [done|]. exfalso.
  rewrite Exists_exists in He. destruct He as (a & Ha & Ht).
  pose proof (proj1 (find_None _ _) E a) as H. rewrite list_elem_of_In, <-in_rev, <-list_elem_of_In in H.
  specialize (H Ha). by rewrite Ht in H.
Qed.

(** C29: A client cannot choose its own address.  The headers of a peer that is neither a trusted
    proxy nor, when CDNs are trusted, a CDN edge are ignored: its address is the peer address.
    For a trusted proxy the resolver takes the rightmost entry of the forwarding chain that is
    not itself trusted, so whatever a client put before the entries that trusted hops appended
    has no influence while the chain names an untrusted hop. *)
Theorem client_cannot_spoof r p headers table :
  (trust r (to_canonical p) table = None -> resolve r p headers table = direct p)
  /\ (trust r (to_canonical p) table = Some TProxy ->
      match pick_entry r table (forwarded_entries headers) with
      | Some a => ip (resolve r p headers table) = a
          /\ ((exists l1 l2, forwarded_entries headers = l1 ++ a :: l2 /\ trust r a table = None
                 /\ Forall (fun b => trust r b table <> None) l2)
              \/ Forall (fun b => trust r b table <> None) (forwarded_entries headers))
      | None => ip (resolve r p headers table) = to_canonical p /\ forwarded_entries headers = []
      end)
  /\ (forall headers' fake,
        trust r (to_canonical p) table = Some TProxy ->
        forwarded_entries headers' = fake ++ forwarded_entries headers ->
        Exists (fun a => trust r a table = None) (forwarded_entries headers) ->
        resolve r p headers' table = resolve r p headers table).
Proof.
  repeat split.
  - intros H. unfold resolve. cbn [direct peer]. by rewrite H.
  - intros H. unfold resolve, forwarded_for_ip. cbn [direct peer]. rewrite H. cbn [ip].
    pose proof (pick_entry_spec r table (forwarded_entries headers)) as Hs.
    destruct (pick_entry r table (forwarded_entries headers)) as [a|]; [|done].
    split; [done|]. naive_solver.
  - intros headers' fake H Heq He. unfold resolve, forwarded_for_ip. cbn [direct peer]. rewrite H, Heq.
    by rewrite pick_entry_prefix.
Qed.

(** The resolved client address and the peer address are always in canonical form, so an
    IPv4-mapped address cannot pass for another client. *)
Theorem resolved_canonical r p headers table :
  let c := resolve r p headers table in
  to_canonical (ip c) = ip c /\ to_canonical (peer c) = peer c.
Proof.
  unfold resolve. cbn [direct peer]. destruct (trust r (to_canonical p) table) as [t|]; cbn [ip peer];
    [|split; apply to_canonical_idemp].
  split; [|apply to_canonical_idemp].
  assert (Hu : forall o : option IpAddr, (forall a, o = Some a -> to_canonical a = a) ->
            to_canonical (unwrap_or o (to_canonical p)) = unwrap_or o (to_canonical p)).
  { intros [a|] Ha; cbn; [by apply Ha|apply to_canonical_idemp]. }
  apply Hu. intros a. destruct t as [prov|].
  - assert (Hh : forall name, header_ip headers name = Some a -> to_canonical a = a).
    { intros name. unfold header_ip. destruct (header_first headers name); [apply parse_forwarded_canonical|done]. }
    destruct prov; cbn; try done; apply Hh.
  - unfold forwarded_for_ip. pose proof (pick_entry_spec r table (forwarded_entries headers)) as Hs.
    intros Ea. rewrite Ea in Hs. pose proof (forwarded_entries_canonical headers) as Hc.
    rewrite Forall_forall in Hc. apply Hc. destruct Hs as [(l1 & l2 & -> & _)|[Hh _]]; [set_solver|].
    destruct (forwarded_entries headers); [done|]. cbn in Hh. injection Hh as ->. set_solver.
Qed.
End ResolverFacts.

(** Blocks as an address and a prefix length, and headers as a list, for the witnesses. *)
Definition plain_nets : IpNets := {|
  IpNet := IpAddr * Z;
  net_addr n := n.1;
  prefix_len n := n.2;
  max_prefix_len n := match n.1 with V4 _ => 32 | V6 _ => 128 end;
  net_contains n a :=
    match n.1, a with
    | V4 x, V4 y => Z.shiftr x (32 - n.2) =? Z.shiftr y (32 - n.2)
    | V6 x, V6 y => Z.shiftr x (128 - n.2) =? Z.shiftr y (128 - n.2)
    | _, _ => false
    end;
|}.

#[export] Instance plain_nets_laws : IpNetsLaws plain_nets.
Proof.
  split. intros [[x|x] l] [y|y]; cbn; intros ->; try (symmetry; by apply bool_decide_eq_false).
  - destruct (Z.eqb_spec (Z.shiftr x (32 - 32)) (Z.shiftr y (32 - 32))) as [E|E]; symmetry.
    + apply bool_decide_eq_true. by f_equal.
    + apply bool_decide_eq_false. intros [= ->]. done.
  - destruct (Z.eqb_spec (Z.shiftr x (128 - 128)) (Z.shiftr y (128 - 128))) as [E|E]; symmetry.
    + apply bool_decide_eq_true. by f_equal.
    + apply bool_decide_eq_false. intros [= ->]. done.
Qed.

Definition plain_headers : HeaderMaps := {|
  HeaderMap := list (string * string);
  header_first h name := option_map snd (find (fun e => eq_ignore_ascii_case e.1 name) h);
  header_all h name := map snd (List.filter (fun e => eq_ignore_ascii_case e.1 name) h);
|}.

(** 203.0.113.0/24 and 198.51.100.7. *)
Definition example_ranges : CdnRanges (NETS := plain_nets) :=
  mkCdnRanges (NETS := plain_nets) 1 [(Fastly, [(V4 3405803776, 24)]); (Bunny, [(V4 3325256711, 32)])].

Lemma cdn_lookup_correct_witness :
  lookup_cdn (CdnTable_new (NETS := plain_nets) example_ranges Downloaded) (V6 (65535 * 2 ^ 32 + 3325256711))
    = Some Bunny
  /\ exists net, (net, Bunny) ∈ provider_nets example_ranges
       /\ net_contains (IpNets := plain_nets) net (V4 3325256711) = true.
Proof.
  split; [reflexivity|].
  pose proof (cdn_lookup_correct (NETS := plain_nets) example_ranges Downloaded (V4 3325256711)) as H.
  exact H.
Defined.

(** A proxy at 10.0.0.1 appends the address it saw to a forged header. *)
Lemma client_cannot_spoof_witness :
  let r := mkClientIpConfig (NETS := plain_nets) false [(V4 167772160, 8)] in
  let h := [("X-Forwarded-For", "1.1.1.1, 203.0.113.9")] in
  ip (resolve (NETS := plain_nets) (HDRS := plain_headers) r (V4 167772161) h CdnTable_empty) = V4 3405803785
  /\ resolve (NETS := plain_nets) (HDRS := plain_headers) r (V4 167772161)
       [("X-Forwarded-For", "8.8.8.8, 1.1.1.1, 203.0.113.9")] CdnTable_empty
     = resolve (NETS := plain_nets) (HDRS := plain_headers) r (V4 167772161) h CdnTable_empty.
Proof.
  intros r h. split; [reflexivity|].
  destruct (client_cannot_spoof (NETS := plain_nets) (HDRS := plain_headers) r (V4 167772161) h CdnTable_empty)
    as (_ & _ & H).
  apply (H _ [V4 134744072]); [reflexivity|reflexivity|]. left. reflexivity.
Defined.
