(* ===== verification/ProxyProtocol.v ===== *)
(** * The PROXY protocol

    The configuration of [r3v3rs3-api/src/proxy_protocol.rs], and the reader and the writer of
    the header in [proxy/proxy_protocol.rs].  A stream is the list of the bytes the peer sends
    until it closes the connection.  The syntax of the headers (the [ppp] crate) is the
    interface [Ppp]. *)

From Stdlib Require Import Ascii.
From S2P Require Import Prelude Basics IpText Net Policy.

Definition bytes := list Z.

Inductive ProxyProtocolAccept : Type := AcceptV1 | AcceptV2 | AcceptAny.
Inductive ProxyProtocolVersion : Type := V1 | V2.

#[export] Instance ProxyProtocolAccept_eq_dec : EqDecision ProxyProtocolAccept.
Proof. solve_decision. Defined.

Definition DEFAULT_PROXY_PROTOCOL_TIMEOUT : Duration := from_secs 5.

(** ** The [ppp] crate *)

Inductive V2Command : Type := V2Local | V2Proxy.

Inductive V2Addresses : Type :=
| V2Unspecified
| V2IPv4 (src dst : SocketAddr)
| V2IPv6 (src dst : SocketAddr)
| V2Unix.

Inductive V1Addresses : Type :=
| V1Unknown
| V1Tcp4 (src dst : SocketAddr)
| V1Tcp6 (src dst : SocketAddr).

Class Ppp : Type := {
  PROTOCOL_PREFIX : bytes;
  v2_header : bytes -> option (V2Command * V2Addresses);
  v1_header : bytes -> option V1Addresses;
  v2_build : SocketAddr -> SocketAddr -> option bytes;
  v2_build_local : option bytes;
}.

(** The signature of a v2 header: CR LF CR LF NUL CR LF, [QUIT] and LF. *)
Class PppLaws (P : Ppp) : Prop := {
  protocol_prefix : PROTOCOL_PREFIX = [13; 10; 13; 10; 0; 13; 10; 81; 85; 73; 84; 10];
}.

(** ** Errors of the reader *)

Inductive PpError : Type :=
| UnexpectedEof
| NoHeader
| V2TooLong
| V1TooLong
| Elapsed
| NotAcceptedV2
| NotAcceptedV1
| InvalidV2
| InvalidV1
| BuildFailed.

Definition V2_FIXED_LEN : nat := 16.
Definition V2_MAX_ADDRESS_LEN : Z := 4096.
Definition V1_PREFIX : bytes := as_bytes "PROXY ".
Definition V1_MAX_LEN : nat := 107.

Fixpoint bytes_eqb (a b : bytes) : bool :=
  match a, b with
  | [], [] => true
  | x :: a', y :: b' => (x =? y) && bytes_eqb a' b'
  | _, _ => false
  end.

Definition bytes_starts_with (p b : bytes) : bool := bytes_eqb (take (length p) b) p.

Definition ends_with_crlf (b : bytes) : bool := bytes_starts_with [10; 13] (rev b).

(** [AsyncReadExt::read_exact]: the bytes read and what stays in the stream. *)
Definition read_exact (n : nat) (s : bytes) : result (bytes * bytes) PpError :=
  if Nat.leb n (length s) then Ok (take n s, drop n s) else Err UnexpectedEof.

(** ** Reading *)

Section Reader.
Context `{P : Ppp}.

Definition read_v2_rest (s header : bytes) : result (bytes * bytes) PpError :=
  let? r := read_exact (V2_FIXED_LEN - length header) s in
  let header := header ++ r.1 in
  let len := nth 14 header 0 * 256 + nth 15 header 0 in
  if negb (len <=? V2_MAX_ADDRESS_LEN) then Err V2TooLong
  else
    let? r2 := read_exact (Z.to_nat len) r.2 in
    Ok (header ++ r2.1, r2.2).

(** Every turn of the loop takes one byte of the stream. *)
Fixpoint read_v1_rest (s header : bytes) : result (bytes * bytes) PpError :=
  if ends_with_crlf header then Ok (header, s)
  else if negb (Nat.ltb (length header) V1_MAX_LEN) then Err V1TooLong
  else match s with
       | [] => Err UnexpectedEof
       | b :: s' => read_v1_rest s' (header ++ [b])
       end.

Definition read_header (s : bytes) : result (bytes * bytes) PpError :=
  let? r := read_exact (length PROTOCOL_PREFIX) s in
  if bytes_eqb r.1 PROTOCOL_PREFIX then read_v2_rest r.2 r.1
  else if bytes_starts_with V1_PREFIX r.1 then read_v1_rest r.2 r.1
  else Err NoHeader.

Definition v2_source (header : bytes) (peer : SocketAddr) : result SocketAddr PpError :=
  match v2_header header with
  | None => Err InvalidV2
  | Some (V2Local, _) => Ok peer
  | Some (V2Proxy, a) =>
      Ok match a with
         | V2IPv4 src _ | V2IPv6 src _ => src
         | V2Unspecified | V2Unix => peer
         end
  end.

Definition v1_source (header : bytes) (peer : SocketAddr) : result SocketAddr PpError :=
  match v1_header header with
  | None => Err InvalidV1
  | Some a =>
      Ok match a with
         | V1Tcp4 src _ | V1Tcp6 src _ => src
         | V1Unknown => peer
         end
  end.

Definition header_source (header : bytes) (accept : ProxyProtocolAccept) (peer : SocketAddr)
  : result SocketAddr PpError :=
  if bytes_starts_with PROTOCOL_PREFIX header then
    if bool_decide (accept = AcceptV1) then Err NotAcceptedV2 else v2_source header peer
  else if bool_decide (accept = AcceptV2) then Err NotAcceptedV1
  else v1_source header peer.

Context `{NETS : IpNets}.

Record ProxyProtocolReceive : Type := mkProxyProtocolReceive {
  pp_accept : ProxyProtocolAccept;
  pp_trusted : list IpNet;
  pp_timeout : Duration;
}.

Definition ProxyProtocolReceive_validate (c : ProxyProtocolReceive) (listen : Multiaddr)
  : result unit Error :=
  if is_udp listen || is_quic listen then Err ProxyProtocolNotSupported
  else if vec_is_empty (pp_trusted c) then Err ProxyProtocolTrustedMissing
  else if is_zero (pp_timeout c) then Err InvalidTimeout
  else Ok tt.

Definition trusts (c : ProxyProtocolReceive) (peer : IpAddr) : bool :=
  in_nets (pp_trusted c) (to_canonical peer).

(** [elapsed] says that the timeout ended before the header was read.  The result is the
    source address and the rest of the stream. *)
Definition read_source (elapsed : bool) (s : bytes) (peer : SocketAddr)
    (config : option ProxyProtocolReceive) : result (SocketAddr * bytes) PpError :=
  match config with
  | None => Ok (peer, s)
  | Some c =>
      if negb (trusts c peer.1) then Ok (peer, s)
      else if elapsed then Err Elapsed
      else
        let? r := read_header s in
        let? src := header_source r.1 (pp_accept c) peer in
        Ok (src, r.2)
  end.

(** An accepted client. *)
Record Client : Type := mkClient {
  client_stream : bytes;
  client_remote : SocketAddr;
  client_peer : SocketAddr;
}.

Definition accept (elapsed : bool) (s : bytes) (peer : SocketAddr)
    (config : option ProxyProtocolReceive) : result Client PpError :=
  let? r := read_source elapsed s peer config in
  Ok (mkClient r.2 r.1 peer).

(** ** Writing *)

(** [Ipv4Addr::to_ipv6_mapped]. *)
Definition ipv6 (a : SocketAddr) : SocketAddr :=
  match a with
  | (V4 b, p) => (V6 (65535 * 2 ^ 32 + b), p)
  | (V6 b, p) => (V6 b, p)
  end.

Definition v1_line (source destination : SocketAddr) : string :=
  let family := if is_ipv4 source.1 then "TCP4" else "TCP6" in
  String.append "PROXY " (String.append family (String " " (String.append (ip_to_string source.1)
    (String " " (String.append (ip_to_string destination.1)
      (String " " (String.append (dec source.2) (String " " (String.append (dec destination.2)
        (String (ascii_of_nat 13) (String (ascii_of_nat 10) ""))))))))))).

Definition header (version : ProxyProtocolVersion) (source destination : SocketAddr)
  : result bytes PpError :=
  let '(source, destination) :=
    if Bool.eqb (is_ipv4 source.1) (is_ipv4 destination.1) then (source, destination)
    else (ipv6 source, ipv6 destination) in
  match version with
  | V1 => Ok (as_bytes (v1_line source destination))
  | V2 => ok_or (v2_build source destination) BuildFailed
  end.

Definition local_header : result bytes PpError := ok_or v2_build_local BuildFailed.
End Reader.

(** ** Facts on the reader *)

Lemma bytes_eqb_eq a b : bytes_eqb a b = true <-> a = b.
Proof.
  revert b. induction a as [|x a IH]; intros [|y b]; cbn; try done.
  rewrite andb_true_iff, Z.eqb_eq, IH. naive_solver.
Qed.

Lemma starts_with_app p r : bytes_starts_with p (p ++ r) = true.
Proof. unfold bytes_starts_with. apply bytes_eqb_eq. by rewrite take_app_length. Qed.

Lemma starts_with_prefix p a b :
  (length p <= length a)%nat -> bytes_starts_with p (a ++ b) = bytes_starts_with p a.
Proof. intros H. unfold bytes_starts_with. by rewrite take_app_le. Qed.

Lemma read_exact_spec n s a b : read_exact n s = Ok (a, b) -> s = a ++ b /\ length a = n.
Proof.
  unfold read_exact. destruct (Nat.leb_spec n (length s)) as [Hl|]; [|done]. intros [= <- <-].
  split; [by rewrite take_drop|]. by apply length_take_le.
Qed.

Lemma read_exact_app a b : read_exact (length a) (a ++ b) = Ok (a, b).
Proof.
  unfold read_exact. rewrite length_app. destruct (Nat.leb_spec (length a) (length a + length b)); [|lia].
  by rewrite take_app_length, drop_app_length.
Qed.

Lemma read_v1_spec s h h' rest :
  read_v1_rest s h = Ok (h', rest) ->
  h ++ s = h' ++ rest /\ ends_with_crlf h' = true /\ (exists mid, h' = h ++ mid)
  /\ ((length h <= V1_MAX_LEN)%nat -> (length h' <= V1_MAX_LEN)%nat).
Proof.
  revert h. induction s as [|b s IH]; intros h; cbn [read_v1_rest];
    destruct (ends_with_crlf h) eqn:E.
  - intros [= <- <-]. repeat split; try done. exists []. by rewrite app_nil_r.
  - by destruct (negb _).
  - intros [= <- <-]. repeat split; try done. exists []. by rewrite app_nil_r.
  - destruct (Nat.ltb_spec (length h) V1_MAX_LEN) as [Hl|]; [|done]. cbn [negb]. intros H.
    apply IH in H as (H1 & H2 & (mid & ->) & H3). repeat split.
    + by rewrite <-H1, <-app_assoc.
    + done.
    + exists (b :: mid). by rewrite <-app_assoc.
    + intros _. apply H3. rewrite length_app. cbn. lia.
Qed.

Section ReaderFacts.
Context `{P : Ppp} {LAWS : PppLaws P}.

Lemma prefix_length : length PROTOCOL_PREFIX = 12%nat.
Proof. by rewrite protocol_prefix. Qed.

Lemma read_header_spec s h rest :
  read_header s = Ok (h, rest) ->
  s = h ++ rest
  /\ ((bytes_starts_with PROTOCOL_PREFIX h = true
       /\ Z.of_nat (length h) = 16 + Z.max 0 (nth 14 h 0 * 256 + nth 15 h 0)
       /\ Z.of_nat (length h) <= 16 + V2_MAX_ADDRESS_LEN)
      \/ (bytes_starts_with PROTOCOL_PREFIX h = false /\ bytes_starts_with V1_PREFIX h = true
          /\ ends_with_crlf h = true /\ (length h <= V1_MAX_LEN)%nat)).
Proof.
  unfold read_header. destruct (read_exact (length PROTOCOL_PREFIX) s) as [[a b]|] eqn:E; [|done].
  cbn [and_then fst snd]. apply read_exact_spec in E as [-> Ha]. pose proof prefix_length as Hp.
  destruct (bytes_eqb a PROTOCOL_PREFIX) eqn:Ea.
  - apply bytes_eqb_eq in Ea. subst a. unfold read_v2_rest.
    destruct (read_exact _ b) as [[c d]|] eqn:E2; [|done]. cbn [and_then fst snd].
    apply read_exact_spec in E2 as [-> Hc]. cbn zeta.
    destruct (Z.leb_spec (nth 14 (PROTOCOL_PREFIX ++ c) 0 * 256 + nth 15 (PROTOCOL_PREFIX ++ c) 0) V2_MAX_ADDRESS_LEN)
      as [Hlen|]; cbn [negb]; [|done].
    destruct (read_exact _ d) as [[e f]|] eqn:E3; [|done]. cbn [and_then fst snd]. intros [= <- <-].
    apply read_exact_spec in E3 as [-> He]. split; [by rewrite <-!app_assoc|]. left.
    assert (H16 : length (PROTOCOL_PREFIX ++ c) = 16%nat) by (rewrite length_app; unfold V2_FIXED_LEN in Hc; lia).
    rewrite !(app_nth1 (PROTOCOL_PREFIX ++ c)) by lia. rewrite length_app, H16, He, <-app_assoc.
    split; [apply starts_with_app|]. unfold V2_MAX_ADDRESS_LEN in *. lia.
  - destruct (bytes_starts_with V1_PREFIX a) eqn:Ev; [|done]. intros H.
    apply read_v1_spec in H as (H1 & H2 & (mid & ->) & H3). split; [done|]. right.
    rewrite !starts_with_prefix by (rewrite Ha, ?Hp; cbn; lia). unfold V1_MAX_LEN in *.
    repeat split; [|done|done|apply H3; lia].
    unfold bytes_starts_with. by rewrite take_ge by lia.
Qed.

Context `{NETS : IpNets}.

(** Accepting a connection takes exactly the PROXY header off the stream, and only from a
    trusted peer.  From any other peer, or without a configuration, nothing is read and the
    remote address is the peer's.  From a trusted peer the bytes taken are one header of an
    accepted version: at most 107 bytes up to its line break for version 1, the length its own
    length field gives and at most 4112 bytes for version 2.  The client data that follows is
    left in the stream untouched. *)
Theorem accept_reads_header elapsed s peer config c :
  accept elapsed s peer config = Ok c ->
  client_peer c = peer
  /\ exists h, s = h ++ client_stream c
     /\ match config with
        | Some cfg =>
            if trusts cfg peer.1 then
              elapsed = false
              /\ ((bytes_starts_with PROTOCOL_PREFIX h = true /\ pp_accept cfg <> AcceptV1
                   /\ v2_source h peer = Ok (client_remote c)
                   /\ Z.of_nat (length h) = 16 + Z.max 0 (nth 14 h 0 * 256 + nth 15 h 0)
                   /\ (length h <= 4112)%nat)
                  \/ (bytes_starts_with V1_PREFIX h = true /\ pp_accept cfg <> AcceptV2
                      /\ v1_source h peer = Ok (client_remote c)
                      /\ ends_with_crlf h = true /\ (length h <= 107)%nat))
            else h = [] /\ client_remote c = peer
        | None => h = [] /\ client_remote c = peer
        end.
Proof.
  unfold accept, read_source. destruct config as [cfg|]; [|intros [= <-]; split; [done|]; by exists []].
  destruct (trusts cfg peer.1); cbn [negb]; [|intros [= <-]; split; [done|]; by exists []].
  destruct elapsed; [done|].
  destruct (read_header s) as [[h rest]|] eqn:E; [|done]. cbn [and_then fst snd].
  destruct (header_source h (pp_accept cfg) peer) as [src|] eqn:Es; [|done]. cbn [and_then fst snd].
  intros [= <-]. cbn [client_peer client_stream client_remote]. split; [done|]. exists h.
  apply read_header_spec in E as [-> Hh]. split; [done|]. split; [done|].
  unfold header_source in Es.
  destruct Hh as [(Hp & Hl & Hm)|(Hp & Hv & Hc & Hm)]; rewrite Hp in Es.
  - left. case_bool_decide; [done|]. unfold V2_MAX_ADDRESS_LEN in Hm. repeat split; try done. lia.
  - right. case_bool_decide; [done|]. repeat split; done.
Qed.
End ReaderFacts.

(** ** Facts on the writer *)

Lemma radix_digits_length fuel k base n s :
  1 < base -> 0 <= n < base ^ Z.of_nat k -> (0 < k)%nat ->
  (String.length (radix_aux fuel base n s) <= k + String.length s)%nat.
Proof.
  revert k n s. induction fuel as [|f IH]; intros k n s Hb Hn Hk; cbn [radix_aux]; [lia|].
  destruct (Z.eqb_spec (n / base) 0) as [E|E]; [cbn; lia|].
  destruct k as [|[|k]]; [lia| |].
  - change (base ^ Z.of_nat 1) with (base ^ 1) in Hn. rewrite Z.pow_1_r in Hn.
    rewrite Z.div_small in E by lia. done.
  - etrans; [apply (IH (S k)); [done| |lia]|cbn; lia].
    rewrite Nat2Z.inj_succ, Z.pow_succ_r in Hn by lia.
    split; [apply Z.div_pos; lia|]. apply Z.div_lt_upper_bound; lia.
Qed.

Lemma dec_length k n : 0 <= n < 10 ^ Z.of_nat k -> (0 < k)%nat -> (String.length (dec n) <= k)%nat.
Proof.
  intros Hn Hk. pose proof (radix_digits_length 20 k 10 n "" ltac:(lia) Hn Hk) as H.
  cbn [String.length] in H. unfold dec. lia.
Qed.

Lemma join_length c l k :
  Forall (fun s => (String.length s <= k)%nat) l ->
  (String.length (join_with c l) <= length l * (k + 1) - 1)%nat.
Proof.
  induction 1 as [|s l Hs Hl IH]; cbn [join_with]; [cbn; lia|].
  destruct l as [|t l]; [cbn; lia|]. rewrite str_length_append. cbn [String.length].
  cbn [length] in *. lia.
Qed.

Lemma ipv4_length b : (String.length (ipv4_to_string b) <= 15)%nat.
Proof.
  unfold ipv4_to_string. etrans; [apply (join_length _ _ 3)|].
  - apply Forall_map. eapply Forall_impl; [apply be_bytes_range|]. cbv beta. intros o Ho.
    apply (dec_length 3); [change (10 ^ Z.of_nat 3) with 1000; lia|lia].
  - by rewrite length_map.
Qed.

Lemma ipv6_length b : (String.length (ipv6_to_string b) <= 39)%nat.
Proof.
  assert (Hh : forall l, Forall (fun s => (String.length s <= 4)%nat) (map hex16 l)).
  { intros l. apply Forall_map, Forall_true. intros x. unfold hex16. etrans; [apply radix_aux_length|]. cbn. lia. }
  unfold ipv6_to_string. destruct (Z.shiftr b 32 =? 65535).
  - rewrite str_length_append. pose proof (ipv4_length (Z.land b 4294967295)). cbn [String.length]. lia.
  - set (segs := be_segments 8 b). assert (Hlen : length segs = 8%nat) by done.
    assert (Hz : zero_run segs (zero_runs 0 segs (0, 0)%nat (0, 0)%nat)).
    { apply zero_runs_spec; try done; try lia; try (by left); split; cbn; intros; lia. }
    destruct (zero_runs 0 segs (0, 0)%nat (0, 0)%nat) as [start len]. destruct Hz as [Hle _].
    cbn [fst snd] in Hle. destruct (Nat.ltb_spec 1 len) as [Hl|Hl].
    + rewrite !str_length_append. cbn [String.length].
      pose proof (join_length ":" _ 4 (Hh (take start segs))) as H1.
      pose proof (join_length ":" _ 4 (Hh (drop (start + len) segs))) as H2.
      rewrite length_map, length_take in H1. rewrite length_map, length_drop in H2. lia.
    + pose proof (join_length ":" _ 4 (Hh segs)) as H1. rewrite length_map in H1. lia.
Qed.

Lemma ip_length a : (String.length (ip_to_string a) <= 39)%nat.
Proof. destruct a as [b|b]; cbn [ip_to_string]; [pose proof (ipv4_length b); lia|apply ipv6_length]. Qed.

Lemma port_length p : 0 <= p <= u16_max -> (String.length (dec p) <= 5)%nat.
Proof.
  intros H. apply (dec_length 5); [|lia]. change (10 ^ Z.of_nat 5) with 100000. unfold u16_max in *. lia.
Qed.

(** The line of a v1 header without its line break. *)
Definition v1_body (source destination : SocketAddr) : string :=
  let family := if is_ipv4 source.1 then "TCP4" else "TCP6" in
  String.append "PROXY " (String.append family (String " " (String.append (ip_to_string source.1)
    (String " " (String.append (ip_to_string destination.1)
      (String " " (String.append (dec source.2) (String " " (dec destination.2))))))))).

Lemma as_bytes_append a b : as_bytes (String.append a b) = as_bytes a ++ as_bytes b.
Proof. induction a as [|c a IH]; [done|]. cbn. unfold as_bytes in IH. by rewrite IH. Qed.

Lemma v1_line_bytes src dst : as_bytes (v1_line src dst) = as_bytes (v1_body src dst) ++ [13; 10].
Proof.
  change [13; 10] with (as_bytes (String (ascii_of_nat 13) (String (ascii_of_nat 10) ""))).
  rewrite <-as_bytes_append. f_equal. unfold v1_line, v1_body.
  repeat (rewrite <-!append_assoc; cbn [String.append]). done.
Qed.

Lemma v1_body_length src dst :
  0 <= src.2 <= u16_max -> 0 <= dst.2 <= u16_max ->
  (12 <= length (as_bytes (v1_body src dst)) <= 102)%nat.
Proof.
  intros Hs Hd. rewrite as_bytes_length. unfold v1_body.
  rewrite str_length_append. rewrite str_length_append. cbn [String.length].
  rewrite str_length_append. cbn [String.length]. rewrite str_length_append. cbn [String.length].
  rewrite str_length_append. cbn [String.length].
  pose proof (ip_length src.1). pose proof (ip_length dst.1).
  pose proof (port_length _ Hs). pose proof (port_length _ Hd).
  destruct (is_ipv4 src.1); cbn [String.length]; lia.
Qed.

Lemma as_bytes_not_lf s :
  str_forallb (fun c => negb (Ascii.eqb c (ascii_of_nat 10))) s = true -> Forall (fun b => b <> 10) (as_bytes s).
Proof.
  induction s as [|c s IH]; [constructor|]. cbn. intros [H1 H2]%andb_prop. constructor; [|by apply IH].
  intros Hc. apply negb_true_iff, Ascii.eqb_neq in H1. apply H1. unfold byte_of in Hc.
  rewrite <-(ascii_N_embedding c). by replace (N_of_ascii c) with 10%N by lia.
Qed.

Lemma ip_no_lf a : str_forallb (fun c => negb (Ascii.eqb c (ascii_of_nat 10))) (ip_to_string a) = true.
Proof.
  eapply str_forallb_impl; [|apply ip_to_string_chars]. intros c.
  by destruct c as [[] [] [] [] [] [] [] []].
Qed.

Lemma dec_no_lf n : str_forallb (fun c => negb (Ascii.eqb c (ascii_of_nat 10))) (dec n) = true.
Proof.
  eapply str_forallb_impl; [|apply dec_ip_chars]. intros c.
  by destruct c as [[] [] [] [] [] [] [] []].
Qed.

Lemma v1_body_no_lf src dst : Forall (fun b => b <> 10) (as_bytes (v1_body src dst)).
Proof.
  apply as_bytes_not_lf. unfold v1_body. rewrite str_forallb_append. rewrite str_forallb_append.
  cbn [str_forallb]. rewrite str_forallb_append. cbn [str_forallb]. rewrite str_forallb_append.
  cbn [str_forallb]. rewrite str_forallb_append. cbn [str_forallb].
  rewrite !ip_no_lf, !dec_no_lf. by destruct (is_ipv4 src.1).
Qed.

Lemma no_crlf h : Forall (fun b => b <> 10) h -> ends_with_crlf h = false.
Proof.
  intros H. unfold ends_with_crlf, bytes_starts_with. apply Forall_rev in H. destruct H as [|x l Hx Hl]; [done|].
  cbn. destruct l; cbn; destruct (Z.eqb_spec x 10); done.
Qed.

Lemma read_v1_line mid h data :
  Forall (fun b => b <> 10) h -> Forall (fun b => b <> 10) mid ->
  (length h + length mid + 2 <= V1_MAX_LEN)%nat ->
  read_v1_rest (mid ++ [13; 10] ++ data) h = Ok (h ++ mid ++ [13; 10], data).
Proof.
  intros Hh Hm. revert h Hh. induction Hm as [|b mid Hb Hm IH]; intros h Hh Hl; cbn [app read_v1_rest].
  - rewrite no_crlf by done. cbn [length] in Hl.
    destruct (Nat.ltb_spec (length h) V1_MAX_LEN) as [_|]; [|lia]. cbn [negb].
    rewrite no_crlf by (apply Forall_app; split; [done|]; by repeat constructor).
    rewrite length_app. cbn [length].
    destruct (Nat.ltb_spec (length h + 1) V1_MAX_LEN) as [_|]; [|lia]. cbn [negb].
    assert (Hc : ends_with_crlf ((h ++ [13]) ++ [10]) = true).
    { unfold ends_with_crlf. rewrite !rev_app_distr. apply (starts_with_app [10; 13]). }
    rewrite <-app_assoc in *. cbn [app] in *. destruct data; cbn [read_v1_rest]; by rewrite Hc.
  - rewrite no_crlf by done. cbn [length] in Hl.
    destruct (Nat.ltb_spec (length h) V1_MAX_LEN) as [_|]; [|lia]. cbn [negb].
    change (mid ++ 13 :: 10 :: data) with (mid ++ [13; 10] ++ data). rewrite IH.
    + by rewrite <-app_assoc.
    + apply Forall_app. split; [done|]. by repeat constructor.
    + rewrite length_app. cbn. lia.
Qed.

Section WriterFacts.
Context `{P : Ppp} {LAWS : PppLaws P}.

(** The v1 header that a TCP proxy writes fits the 107 bytes of the protocol, names both
    addresses in one family, and is read back as itself by the port's reader: the header comes
    off the stream whole and the client data after it stays. *)
Theorem v1_header_roundtrip source destination data :
  0 <= source.2 <= u16_max -> 0 <= destination.2 <= u16_max ->
  exists h src dst,
    header V1 source destination = Ok h
    /\ h = as_bytes (v1_line src dst) /\ is_ipv4 src.1 = is_ipv4 dst.1
    /\ (src, dst) ∈ [(source, destination); (ipv6 source, ipv6 destination)]
    /\ (length h <= 107)%nat
    /\ read_header (h ++ data) = Ok (h, data).
Proof.
  intros Hs Hd.
  assert (H6 : forall a : SocketAddr, (ipv6 a).2 = a.2 /\ is_ipv4 (ipv6 a).1 = false) by (by intros [[] ]).
  assert (Hsel : exists src dst, header V1 source destination = Ok (as_bytes (v1_line src dst))
    /\ is_ipv4 src.1 = is_ipv4 dst.1
    /\ (src, dst) ∈ [(source, destination); (ipv6 source, ipv6 destination)]
    /\ src.2 = source.2 /\ dst.2 = destination.2).
  { unfold header. destruct (Bool.eqb (is_ipv4 source.1) (is_ipv4 destination.1)) eqn:E.
    - exists source, destination. apply eqb_prop in E. repeat split; try done. set_solver.
    - exists (ipv6 source), (ipv6 destination). destruct (H6 source) as [H1 H2], (H6 destination) as [H3 H4].
      rewrite H2, H4. repeat split; try done. set_solver. }
  destruct Hsel as (src & dst & Hh & Hf & Hin & Hps & Hpd). exists (as_bytes (v1_line src dst)), src, dst.
  rewrite <-Hps in Hs. rewrite <-Hpd in Hd. pose proof (v1_body_length src dst Hs Hd) as Hl.
  pose proof (v1_body_no_lf src dst) as Hn. rewrite v1_line_bytes.
  do 4 (split; [by rewrite ?Hh, ?v1_line_bytes|]). split; [rewrite length_app; cbn [length]; lia|].
  set (body := as_bytes (v1_body src dst)) in *.
  assert (Hb6 : exists r, body = V1_PREFIX ++ r).
  { unfold body, v1_body. rewrite as_bytes_append. eexists. reflexivity. }
  destruct Hb6 as [r Hr].
  assert (Hst : bytes_starts_with V1_PREFIX (take 12 body) = true).
  { rewrite Hr. apply (starts_with_app V1_PREFIX (take 6 r)). }
  assert (Hne : bytes_eqb (take 12 body) PROTOCOL_PREFIX = false).
  { rewrite protocol_prefix. destruct (bytes_eqb _ _) eqn:E; [|done]. apply bytes_eqb_eq in E.
    rewrite Hr in E. discriminate E. }
  assert (H12 : length (take 12 body) = 12%nat) by (apply length_take_le; lia).
  assert (Hr12 : (length (drop 12 body) <= 90)%nat) by (rewrite length_drop; lia).
  pose proof (take_drop 12 body) as Htd. clearbody body. clear Hr Hl.
  revert Htd Hst Hne H12 Hr12. generalize (take 12 body) (drop 12 body). intros a b <- Hst Hne H12 Hr12.
  apply Forall_app in Hn as [Hn1 Hn2].
  unfold read_header. rewrite prefix_length, <-!app_assoc, <-H12, read_exact_app.
  cbn [and_then fst snd]. rewrite Hne, Hst, read_v1_line; [done|done|done|]. unfold V1_MAX_LEN. lia.
Qed.
End WriterFacts.

(** A parser that knows no address, for the witnesses. *)
Definition plain_ppp : Ppp := {|
  PROTOCOL_PREFIX := [13; 10; 13; 10; 0; 13; 10; 81; 85; 73; 84; 10];
  v2_header _ := Some (V2Local, V2Unspecified);
  v1_header _ := Some V1Unknown;
  v2_build _ _ := None;
  v2_build_local := None;
|}.

#[export] Instance plain_ppp_laws : PppLaws plain_ppp.
Proof. by split. Qed.

(** Blocks that hold one address each. *)
Definition host_nets : IpNets := {|
  IpNet := IpAddr;
  net_addr n := n;
  prefix_len _ := 128;
  max_prefix_len _ := 128;
  net_contains n a := bool_decide (n = a);
|}.

Lemma accept_reads_header_witness :
  let peer := (V4 2130706433, 40000) in
  let cfg := mkProxyProtocolReceive (NETS := host_nets) AcceptAny [V4 2130706433] (from_secs 1) in
  let s := as_bytes (String.append "PROXY UNKNOWN" (String (ascii_of_nat 13) (String (ascii_of_nat 10) "GET /"))) in
  exists c, accept (P := plain_ppp) (NETS := host_nets) false s peer (Some cfg) = Ok c
    /\ client_stream c = as_bytes "GET /" /\ client_peer c = peer.
Proof.
  intros peer cfg s. eexists. split; [vm_compute; reflexivity|]. split; [reflexivity|].
  refine (proj1 (accept_reads_header (P := plain_ppp) (NETS := host_nets) false s peer (Some cfg) _ _)).
  vm_compute. reflexivity.
Defined.

Lemma v1_header_roundtrip_witness :
  exists h, header (P := plain_ppp) V1 (V4 2130706433, 80) (V6 1, 443) = Ok h
    /\ h = as_bytes (String.append "PROXY TCP6 ::ffff:127.0.0.1 ::1 80 443"
                       (String (ascii_of_nat 13) (String (ascii_of_nat 10) "")))
    /\ read_header (P := plain_ppp) (h ++ [71; 69; 84]) = Ok (h, [71; 69; 84]).
Proof.
  destruct (v1_header_roundtrip (P := plain_ppp) (V4 2130706433, 80) (V6 1, 443) [71; 69; 84])
    as (h & src & dst & Hh & _ & _ & _ & _ & Hr); [by vm_compute|by vm_compute|].
  exists h. split; [exact Hh|]. split; [|exact Hr]. vm_compute in Hh. injection Hh as <-. reflexivity.
Defined.
