(* ===== verification/ProxyErrors.v ===== *)
(** * Errors of the HTTP proxy

    [proxy/http/error.rs]: the errors the proxy answers itself, their status codes, the headers
    of the answer, and the status of an error from an upstream connection. *)

From S2P Require Import Prelude Basics IpText.

Inductive ProxyError : Type :=
| DomainFrontingDetected
| NoRouteFound
| IpNotAllowed
| ClientCertRequired
| TooManyRequests (retry_after : Duration)
| TooManyConcurrentRequests
| PUnauthorized (challenge : string)
| AuthServiceUnavailable
| UpstreamClientCertInvalid
| UpstreamTimeout
| NoUpstreamAvailable
| NoUpstreamServers
| PayloadTooLarge
| UpstreamUriInvalid
| BotBlocked.

Definition ProxyError_code (e : ProxyError) : Z :=
  match e with
  | UpstreamTimeout => 504
  | NoUpstreamAvailable => 503
  | DomainFrontingDetected => 421
  | NoRouteFound => 502
  | IpNotAllowed | ClientCertRequired | BotBlocked => 403
  | PayloadTooLarge => 413
  | TooManyRequests _ | TooManyConcurrentRequests => 429
  | PUnauthorized _ => 401
  | AuthServiceUnavailable | UpstreamClientCertInvalid | NoUpstreamServers | UpstreamUriInvalid => 502
  end.

(** The [io::ErrorKind]s that the code tells apart. *)
Inductive IoKind : Type :=
| ConnectionRefused | HostUnreachable | NetworkUnreachable | ConnectionReset | ConnectionAborted | NotConnected
| TimedOut | OtherKind.

(** A [rustls::Error], as far as the code looks at it. *)
Inductive RustlsError : Type := InvalidCertificate | OtherTls.

(** One error of the chain of causes of an [anyhow::Error]: what [downcast_ref] finds in it.
    An I/O error can wrap a TLS error. *)
Inductive Cause : Type :=
| CProxy (e : ProxyError)
| CRustls (e : RustlsError)
| CIo (kind : IoKind) (inner : option RustlsError)
| CClient (is_connect : bool)
| COther.

(** The headers of an error answer.  [downcast] is [err.downcast_ref::<ProxyError>()]. *)
Definition error_headers (downcast : option ProxyError) : list (string * string) :=
  match downcast with
  | Some (TooManyRequests retry_after) =>
      let seconds := retry_after / 1000000000 + (if 0 <? retry_after mod 1000000000 then 1 else 0) in
      [("retry-after", dec (Z.max seconds 1))]
  | Some TooManyConcurrentRequests => [("retry-after", "1")]
  | Some (PUnauthorized challenge) => [("www-authenticate", challenge)]
  | _ => []
  end.

(** Every code passed here is valid, so the fallback of [StatusCode::from_u16] is not used. *)
Definition status_code (c : Z) : Z := if (100 <=? c) && (c <=? 999) then c else 502.

Definition rustls_status (e : RustlsError) : Z :=
  match e with InvalidCertificate => status_code 526 | OtherTls => status_code 525 end.

Definition check_rustls_error (c : Cause) : option Z :=
  match c with CRustls e => Some (rustls_status e) | _ => None end.

Fixpoint classify_tls_error (chain : list Cause) : option Z :=
  match chain with
  | [] => None
  | cause :: rest =>
      match check_rustls_error cause with
      | Some c => Some c
      | None =>
          match cause with
          | CIo _ (Some inner) => Some (rustls_status inner)
          | _ => classify_tls_error rest
          end
      end
  end.

Definition is_unreachable_io_error (k : IoKind) : bool :=
  match k with
  | ConnectionRefused | HostUnreachable | NetworkUnreachable | ConnectionReset => true
  | ConnectionAborted | NotConnected | TimedOut | OtherKind => false
  end.

Fixpoint classify_connect_error (chain : list Cause) : option Z :=
  match chain with
  | [] => None
  | CClient true :: _ => Some (status_code 523)
  | CIo kind _ :: rest =>
      match kind with
      | TimedOut => Some 504
      | _ => if is_unreachable_io_error kind then Some (status_code 523) else classify_connect_error rest
      end
  | _ :: rest => classify_connect_error rest
  end.

Fixpoint first_proxy_error (chain : list Cause) : option ProxyError :=
  match chain with
  | [] => None
  | CProxy e :: _ => Some e
  | _ :: rest => first_proxy_error rest
  end.

(** [downcast] is [err.downcast_ref::<ProxyError>()] and [chain] the causes of [err.chain()]. *)
Definition map_error (downcast : option ProxyError) (chain : list Cause) : Z :=
  match downcast with
  | Some e => ProxyError_code e
  | None =>
      match first_proxy_error chain with
      | Some e => ProxyError_code e
      | None =>
          match classify_tls_error chain with
          | Some c => c
          | None =>
              match classify_connect_error chain with
              | Some c => c
              | None => 502
              end
          end
      end
  end.

Definition ERROR_PAGE_KEYS : list (Z * string) :=
  [(401, "error_page.401"); (403, "error_page.403"); (413, "error_page.413"); (421, "error_page.421");
   (429, "error_page.429"); (502, "error_page.502"); (503, "error_page.503"); (504, "error_page.504");
   (523, "error_page.523"); (525, "error_page.525"); (526, "error_page.526")].

(** [t] is the translation of a key, [canonical_reason] the standard reason phrase. *)
Definition status_text (t : string -> string) (canonical_reason : Z -> option string) (c : Z) : string :=
  match find (fun e => e.1 =? c) ERROR_PAGE_KEYS with
  | Some (_, key) => t key
  | None => unwrap_or (canonical_reason c) "Bad Gateway"
  end.

(** ** Facts *)

Lemma classify_tls_range chain c : classify_tls_error chain = Some c -> c = 525 \/ c = 526.
Proof.
  induction chain as [|x rest IH]; [done|]. cbn.
  assert (Hr : forall e, Some (rustls_status e) = Some c -> c = 525 \/ c = 526).
  { intros [] [= <-]; cbn; auto. }
  destruct x as [e|e|k [e|]|b|]; cbn [check_rustls_error]; try apply IH; apply Hr.
Qed.

Lemma classify_connect_range chain c : classify_connect_error chain = Some c -> c = 504 \/ c = 523.
Proof.
  induction chain as [|x rest IH]; [done|].
  destruct x as [e|e|k i|[]|]; cbn; auto; [destruct k; cbn|]; auto; intros [= <-]; auto.
Qed.

(** Every status that [map_error] returns, for any error and chain of causes, is one of the
    statuses with an error page key, so [status_text] never falls back to the reason phrase; and
    it is an error status. *)
Theorem map_error_has_page downcast chain t reason :
  let c := map_error downcast chain in
  400 <= c <= 599
  /\ exists key, (c, key) ∈ ERROR_PAGE_KEYS /\ status_text t reason c = t key.
Proof.
  assert (Hpage : forall c, existsb (fun e => e.1 =? c) ERROR_PAGE_KEYS = true ->
    400 <= c <= 599 /\ exists key, (c, key) ∈ ERROR_PAGE_KEYS /\ status_text t reason c = t key).
  { intros c Hc. apply existsb_exists in Hc as ([c' key] & Hin & Hc). cbn in Hc. apply Z.eqb_eq in Hc as ->.
    split; [|cbn in Hin; destruct_or! Hin; try done; simplify_eq; eexists; (split; [|reflexivity]);
             apply list_elem_of_In; cbn; tauto].
    cbn in Hin. destruct_or! Hin; try done; simplify_eq; lia. }
  intros c. apply Hpage. unfold c, map_error.
  assert (Hcode : forall e, existsb (fun x => x.1 =? ProxyError_code e) ERROR_PAGE_KEYS = true) by (by intros []).
  destruct downcast as [e|]; [apply Hcode|]. destruct (first_proxy_error chain) as [e|]; [apply Hcode|].
  destruct (classify_tls_error chain) as [x|] eqn:E1.
  { by destruct (classify_tls_range _ _ E1) as [-> | ->]. }
  destruct (classify_connect_error chain) as [x|] eqn:E2; [|done].
  by destruct (classify_connect_range _ _ E2) as [-> | ->].
Qed.

(** The [Retry-After] of a rate-limited answer is the number of whole seconds that covers the
    wait: at least one second, never shorter than the wait and less than a second longer when the
    wait is positive. *)
Theorem retry_after_covers_wait wait :
  0 <= wait ->
  exists n, error_headers (Some (TooManyRequests wait)) = [("retry-after", dec n)]
    /\ 1 <= n /\ wait <= n * 1000000000 /\ (0 < wait -> (n - 1) * 1000000000 < wait).
Proof.
  intros Hw. eexists. split; [reflexivity|].
  pose proof (Z.div_mod wait 1000000000 ltac:(lia)). pose proof (Z.mod_pos_bound wait 1000000000 ltac:(lia)).
  destruct (Z.ltb_spec 0 (wait mod 1000000000)); lia.
Qed.

Lemma retry_after_covers_wait_witness :
  exists n, error_headers (Some (TooManyRequests 1500000000)) = [("retry-after", dec n)] /\ n = 2.
Proof.
  destruct (retry_after_covers_wait 1500000000) as (n & Hn & H1 & H2 & H3); [lia|].
  exists n. split; [exact Hn|]. specialize (H3 ltac:(lia)). lia.
Defined.
