(* ===== verification/Concurrency.v ===== *)
(** * Concurrency limits

    [proxy/http/concurrency_limit.rs]: the requests in flight of each client, counted in a
    shared map; a guard gives its place back when it is dropped. *)

From S2P Require Import Prelude Basics IpText Policy Registry ClientIp ProxyErrors.

Section Limiter.
Context `{HDRS : HeaderMaps}.

Record ConcurrencyLimiter : Type := mkConcurrencyLimiter {
  config : ConcurrencyLimit;
  active : gmap string Z;
}.

Definition ConcurrencyLimiter_new (c : ConcurrencyLimit) : ConcurrencyLimiter := mkConcurrencyLimiter c ∅.

Definition key_for (c : ConcurrencyLimit) (headers : HeaderMap) (client_ip : IpAddr) : string :=
  let header_key :=
    match cl_header c with
    | None => None
    | Some name =>
        match option_map trim (header_first headers name) with
        | Some v => if negb (str_is_empty v) then Some v else None
        | None => None
        end
    end in
  match header_key with
  | Some val => String.append "hdr:" val
  | None => String.append "ip:" (ip_to_string (to_canonical client_ip))
  end.

(** The guard keeps the key; the map is shared.  [or_insert(0)] stays in the map when the limit
    is exceeded. *)
Record ConcurrencyGuard : Type := mkConcurrencyGuard { guard_key : string }.

Definition acquire (l : ConcurrencyLimiter) (headers : HeaderMap) (client_ip : IpAddr)
  : result ConcurrencyGuard ProxyError * ConcurrencyLimiter :=
  let key := key_for (config l) headers client_ip in
  let entry := unwrap_or (active l !! key) 0 in
  if cl_max (config l) <=? entry then
    (Err TooManyConcurrentRequests, mkConcurrencyLimiter (config l) (<[key := entry]> (active l)))
  else
    (Ok (mkConcurrencyGuard key), mkConcurrencyLimiter (config l) (<[key := entry + 1]> (active l))).

Definition guard_drop (g : ConcurrencyGuard) (l : ConcurrencyLimiter) : ConcurrencyLimiter :=
  match active l !! guard_key g with
  | None => l
  | Some n =>
      if n <=? 1 then mkConcurrencyLimiter (config l) (delete (guard_key g) (active l))
      else mkConcurrencyLimiter (config l) (<[guard_key g := n - 1]> (active l))
  end.

(** The registry: no limiter for a disabled limit, else the live one of the same
    configuration or a new one. *)
Definition concurrency_limiter `{Countable K} (upgrade : nat -> option ConcurrencyLimiter)
    (entries : gmap K nat) (key : K) (c : ConcurrencyLimit) (fresh : nat)
  : option (nat * option ConcurrencyLimiter) * gmap K nat :=
  if ConcurrencyLimit_is_disabled c then (None, entries)
  else
    let '(r, entries) :=
      get_or_create upgrade entries key (fun existing => bool_decide (config existing = c))
        (fun _ => ConcurrencyLimiter_new c) fresh in
    (Some r, entries).

(** ** Runs of a limiter

    A state is the limiter with the guards in flight. *)
Inductive limiter_step : ConcurrencyLimiter * list ConcurrencyGuard ->
    ConcurrencyLimiter * list ConcurrencyGuard -> Prop :=
| ls_acquire l gs headers client_ip g l' :
    acquire l headers client_ip = (Ok g, l') -> limiter_step (l, gs) (l', g :: gs)
| ls_refuse l gs headers client_ip e l' :
    acquire l headers client_ip = (Err e, l') -> limiter_step (l, gs) (l', gs)
| ls_drop l gs1 g gs2 :
    limiter_step (l, gs1 ++ g :: gs2) (guard_drop g l, gs1 ++ gs2).

(** The guards of a key. *)
Definition in_flight (key : string) (gs : list ConcurrencyGuard) : Z :=
  count (fun g => String.eqb (guard_key g) key) gs.

(** The map holds the number of guards of each key, and nothing for a key without one. *)
Definition counts_guards (st : ConcurrencyLimiter * list ConcurrencyGuard) : Prop :=
  forall key, active st.1 !! key = (if in_flight key st.2 =? 0 then None else Some (in_flight key st.2))
    /\ in_flight key st.2 <= cl_max (config st.1).

Lemma in_flight_app key gs1 gs2 : in_flight key (gs1 ++ gs2) = in_flight key gs1 + in_flight key gs2.
Proof. apply count_app. Qed.

Lemma in_flight_nonneg key gs : 0 <= in_flight key gs.
Proof. apply count_nonneg. Qed.

Lemma limiter_step_config st st' : limiter_step st st' -> config st'.1 = config st.1.
Proof.
  destruct 1 as [l gs h c g l' E|l gs h c e l' E|l gs1 g gs2]; cbn.
  - unfold acquire in E. destruct (_ <=? _); simplify_eq. done.
  - unfold acquire in E. destruct (_ <=? _); simplify_eq. done.
  - unfold guard_drop. repeat case_match; done.
Qed.

Lemma counts_guards_step st st' :
  0 < cl_max (config st.1) -> counts_guards st -> limiter_step st st' -> counts_guards st'.
Proof.
  intros Hmax Hinv Hstep. destruct Hstep as [l gs h c g l' E|l gs h c e l' E|l gs1 g gs2]; cbn [fst snd] in *.
  - unfold acquire in E. cbn zeta in E. set (k := key_for (config l) h c) in *.
    destruct (Hinv k) as [Hk _]. cbn [fst snd] in Hk. rewrite Hk in E.
    pose proof (in_flight_nonneg k gs) as Hn.
    assert (He : unwrap_or (if in_flight k gs =? 0 then None else Some (in_flight k gs)) 0 = in_flight k gs).
    { destruct (Z.eqb_spec (in_flight k gs) 0); cbn; lia. }
    rewrite He in E. destruct (Z.leb_spec (cl_max (config l)) (in_flight k gs)); [done|]. injection E as <- <-.
    intros key. cbn [fst snd active config in_flight count guard_key]. fold (in_flight key gs).
    destruct (String.eqb_spec k key) as [<-|Hne].
    + rewrite lookup_insert_eq. destruct (Z.eqb_spec (1 + in_flight k gs) 0); [lia|]. split; [f_equal; lia|lia].
    + rewrite lookup_insert_ne by done. destruct (Hinv key) as [H1 H2]. cbn [fst snd] in *. split; [done|lia].
  - unfold acquire in E. cbn zeta in E. set (k := key_for (config l) h c) in *.
    destruct (Hinv k) as [Hk _]. cbn [fst snd] in Hk.
    destruct (Z.leb_spec (cl_max (config l)) (unwrap_or (active l !! k) 0)) as [Hle|]; [|done]. injection E as _ <-.
    intros key. cbn [fst snd active config].
    assert (Hid : <[k:=unwrap_or (active l !! k) 0]> (active l) = active l).
    { apply insert_id. rewrite Hk in Hle |- *. destruct (Z.eqb_spec (in_flight k gs) 0); cbn in *; [lia|done]. }
    rewrite Hid. apply Hinv.
  - set (k := guard_key g). assert (Hc : forall key, in_flight key (gs1 ++ g :: gs2)
      = (if String.eqb k key then 1 else 0) + in_flight key (gs1 ++ gs2)).
    { intros key. rewrite !in_flight_app. cbn [in_flight count]. fold (in_flight key gs2). fold k. lia. }
    destruct (Hinv k) as [Hk _]. cbn [fst snd] in Hk. rewrite (Hc k), String.eqb_refl in Hk.
    pose proof (in_flight_nonneg k (gs1 ++ gs2)) as Hn.
    destruct (Z.eqb_spec (1 + in_flight k (gs1 ++ gs2)) 0); [lia|].
    unfold guard_drop. fold k. rewrite Hk. intros key. destruct (Hinv key) as [H1 H2]. cbn [fst snd] in *.
    rewrite Hc in H1, H2. clearbody k. destruct (String.eqb_spec k key) as [Ek|Hne]; [subst key|].
    + destruct (Z.leb_spec (1 + in_flight k (gs1 ++ gs2)) 1); cbn [fst snd active config].
      * rewrite lookup_delete_eq. destruct (Z.eqb_spec (in_flight k (gs1 ++ gs2)) 0); [split; [done|lia]|lia].
      * rewrite lookup_insert_eq. destruct (Z.eqb_spec (in_flight k (gs1 ++ gs2)) 0); [lia|].
        split; [f_equal; lia|lia].
    + rewrite Z.add_0_l in *.
      destruct (1 + in_flight k (gs1 ++ gs2) <=? 1); cbn [fst snd active config];
        [rewrite lookup_delete_ne by done|rewrite lookup_insert_ne by done]; done.
Qed.

(** In every run of a limiter, with requests that start, are refused and end in any order,
    the shared map holds exactly the number of guards in flight of each client, never more than
    the limit, and keeps no entry for a client without a request.  A request is refused exactly
    when its client has the maximum in flight, and a refusal changes nothing. *)
Theorem concurrency_exact c l gs :
  0 < cl_max c ->
  rtc limiter_step (ConcurrencyLimiter_new c, []) (l, gs) ->
  (forall key, active l !! key = (if in_flight key gs =? 0 then None else Some (in_flight key gs))
     /\ in_flight key gs <= cl_max c)
  /\ (forall headers client_ip,
        let key := key_for c headers client_ip in
        if in_flight key gs =? cl_max c
        then acquire l headers client_ip = (Err TooManyConcurrentRequests, l)
        else exists l', acquire l headers client_ip = (Ok (mkConcurrencyGuard key), l')).
Proof.
  intros Hmax Hrun.
  assert (Hinv : config l = c /\ counts_guards (l, gs)).
  { remember (ConcurrencyLimiter_new c, []) as st0 eqn:E0. remember (l, gs) as st eqn:Est.
    assert (H0 : config st0.1 = c /\ counts_guards st0).
    { subst st0. split; [done|]. intros key. cbn. split; [done|]. lia. }
    clear E0. change l with (l, gs).1. rewrite <-Est. clear Est. induction Hrun as [st|st1 st2 st3 Hs Hr IH]; [done|].
    apply IH. destruct H0 as [Hc Hg]. split; [rewrite (limiter_step_config _ _ Hs); done|].
    eapply counts_guards_step; [by rewrite Hc|done|done]. }
  destruct Hinv as [Hc Hg]. split; [intros key; destruct (Hg key) as [H1 H2]; cbn in *; by rewrite Hc in H2|].
  intros headers client_ip key. unfold acquire. rewrite Hc. fold key. destruct (Hg key) as [H1 H2].
  cbn [fst snd] in H1, H2. rewrite Hc in H2. rewrite H1. pose proof (in_flight_nonneg key gs).
  assert (He : unwrap_or (if in_flight key gs =? 0 then None else Some (in_flight key gs)) 0 = in_flight key gs).
  { destruct (Z.eqb_spec (in_flight key gs) 0); cbn; lia. }
  rewrite He. destruct (Z.eqb_spec (in_flight key gs) (cl_max c)) as [E|E].
  - destruct (Z.leb_spec (cl_max c) (in_flight key gs)); [|lia].
    destruct (Z.eqb_spec (in_flight key gs) 0); [lia|]. rewrite (insert_id _ key) by done.
    destruct l as [cfg act]. cbn in *. by subst cfg.
  - destruct (Z.leb_spec (cl_max c) (in_flight key gs)); [lia|]. by eexists.
Qed.

(** Two clients never share a place by accident.  With canonical addresses, two requests
    that are both counted by address share a key exactly when their addresses are the same
    client, and a request counted by its header never shares a key with one counted by address. *)
Theorem limiter_keys_distinct c h1 h2 a b v :
  ip_wf (to_canonical a) -> ip_wf (to_canonical b) ->
  (key_for c h1 a = String.append "ip:" (ip_to_string (to_canonical a)) ->
   key_for c h2 b = String.append "ip:" (ip_to_string (to_canonical b)) ->
   (key_for c h1 a = key_for c h2 b <-> to_canonical a = to_canonical b))
  /\ (key_for c h1 a = String.append "hdr:" v -> key_for c h1 a <> String.append "ip:" (ip_to_string (to_canonical b))).
Proof.
  intros Ha Hb. split; [|intros -> H; discriminate H].
  intros -> ->. split; [|by intros ->]. cbn. intros [= H].
  assert (Hr := ip_roundtrip _ Ha). rewrite H, ip_roundtrip in Hr by done. congruence.
Qed.
End Limiter.

(** Two clients of a limiter of one request each. *)
Definition example_limit : ConcurrencyLimit := mkConcurrencyLimit 1 (Some "X-API-Key").

Lemma concurrency_exact_witness :
  let one := (acquire (HDRS := plain_headers) (ConcurrencyLimiter_new example_limit) [] (V4 1)).2 in
  active one !! "ip:0.0.0.1" = Some 1
  /\ acquire (HDRS := plain_headers) one [] (V4 1) = (Err TooManyConcurrentRequests, one).
Proof.
  intros one.
  destruct (concurrency_exact (HDRS := plain_headers) example_limit one [mkConcurrencyGuard "ip:0.0.0.1"])
    as [Hcount Hacq].
  - reflexivity.
  - apply rtc_once. apply (ls_acquire (HDRS := plain_headers) _ _ [] (V4 1)). reflexivity.
  - split; [apply (Hcount "ip:0.0.0.1")|apply (Hacq [] (V4 1))].
Defined.

Lemma limiter_keys_distinct_witness :
  key_for (HDRS := plain_headers) example_limit [] (V4 1) <> key_for (HDRS := plain_headers) example_limit [] (V4 2)
  /\ key_for (HDRS := plain_headers) example_limit [("x-api-key", " k ")] (V4 1) = "hdr:k".
Proof.
  split; [|reflexivity].
  intros H. assert (E : V4 1 = V4 2); [|discriminate E].
  destruct (limiter_keys_distinct (HDRS := plain_headers) example_limit [] [] (V4 1) (V4 2) "") as [Hk _];
    [by vm_compute|by vm_compute|].
  apply Hk; [reflexivity|reflexivity|exact H].
Defined.
