(* ===== verification/Supervisor.v ===== *)
(** * The worker supervisor

    [server/supervisor.rs]: the master's loop that keeps one worker process running, hands it
    its configuration and checks on it.  One turn of the loop of [supervise] is the function
    [turn]; what the operating system and the other tasks answer is its input, and what the
    loop does to the outside is appended to a log.

    The channels are modelled as the code wires them.  Before the first worker, [config_tx] and
    [ipc_tx] are the senders that [supervise] creates, of capacity 1 and 16; nothing reads the
    initial IPC channel.  A started worker replaces both: its [ipc_tx] feeds the writer of its
    socket, and its [config_tx] belongs to a channel whose receiver [start_worker] has dropped,
    so sending on it fails.  The initial [config_rx] is then a channel without a sender. *)

From S2P Require Import Prelude.

Definition HEARTBEAT_INTERVAL : Duration := from_secs 15.
Definition FIRST_BACKOFF : Duration := from_secs 1.
Definition MAX_BACKOFF : Duration := from_secs 60.

Definition Pid := Z.

(** What one turn of the loop comes to: the loop goes on, breaks, returns an error, or waits
    for ever on a full channel. *)
Inductive outcome (A : Type) : Type :=
| Continue (a : A)
| Break (a : A)
| Fails (a : A)
| Blocked (a : A).
Arguments Continue {A} _.
Arguments Break {A} _.
Arguments Fails {A} _.
Arguments Blocked {A} _.

Definition outcome_state {A} (o : outcome A) : A :=
  match o with Continue a | Break a | Fails a | Blocked a => a end.

(** [C] is the configuration of a worker, [Ev] an event of the master, [St] a worker's status. *)
Section Supervisor.
Context {C Ev St : Type}.

Inductive IpcMessage : Type :=
| MPing
| MStatus
| MConfig (c : C).

Inductive WorkerEvent : Type :=
| Fatal (reason : string)
| Event (e : Ev)
| Status (pid : Pid) (status : St)
| Pong.

(** What the loop does to the outside. *)
Inductive effect : Type :=
| Started (pid : Pid) (config : C)
| Killed (pid : Pid)
| Sent (pid : Pid) (m : IpcMessage)
| SetWorkerStatus (pid : Pid) (status : option St)
| Forwarded (e : Ev)
| Slept (d : Duration).

(** The receiving end of [ipc_tx]: the initial channel, or the writer of a worker. *)
Inductive IpcEnd : Type :=
| IpcInitial (queue : list IpcMessage)
| IpcWorker (pid : Pid).

Record State : Type := mkState {
  worker : option Pid;
  backoff : Duration;
  awaiting_status : bool;
  config_queue : list C;
  config_tx_initial : bool;
  ipc_tx : IpcEnd;
  log : list effect;
}.

Definition initial : State := mkState None FIRST_BACKOFF false [] true (IpcInitial []) [].

Definition emit (e : effect) (st : State) : State :=
  mkState (worker st) (backoff st) (awaiting_status st) (config_queue st) (config_tx_initial st) (ipc_tx st)
    (log st ++ [e]).

Definition set_worker (w : option Pid) (st : State) : State :=
  mkState w (backoff st) (awaiting_status st) (config_queue st) (config_tx_initial st) (ipc_tx st) (log st).

Definition set_backoff (d : Duration) (st : State) : State :=
  mkState (worker st) d (awaiting_status st) (config_queue st) (config_tx_initial st) (ipc_tx st) (log st).

Definition set_awaiting (b : bool) (st : State) : State :=
  mkState (worker st) (backoff st) b (config_queue st) (config_tx_initial st) (ipc_tx st) (log st).

Definition set_config_queue (q : list C) (st : State) : State :=
  mkState (worker st) (backoff st) (awaiting_status st) q (config_tx_initial st) (ipc_tx st) (log st).

Definition set_ipc (i : IpcEnd) (st : State) : State :=
  mkState (worker st) (backoff st) (awaiting_status st) (config_queue st) (config_tx_initial st) i (log st).

(** [*worker = None]: dropping a [KillOnDrop] kills the process. *)
Definition drop_worker (st : State) : State :=
  match worker st with
  | Some pid => emit (Killed pid) (set_worker None st)
  | None => st
  end.

(** [ipc_tx.send(m).await]: the channel of capacity 16 that nothing reads, or the writer of the
    worker, which is gone when [alive] is false.  The result says whether the send succeeded;
    a full channel has none. *)
Definition ipc_send (m : IpcMessage) (alive : bool) (st : State) : option (bool * State) :=
  match ipc_tx st with
  | IpcInitial q => if Nat.ltb (length q) 16 then Some (true, set_ipc (IpcInitial (q ++ [m])) st) else None
  | IpcWorker pid => if alive then Some (true, emit (Sent pid m) st) else Some (false, st)
  end.

(** [config_tx.send(config).await], whose error is ignored. *)
Definition config_send (c : C) (st : State) : option State :=
  if config_tx_initial st then
    match config_queue st with
    | [] => Some (set_config_queue [c] st)
    | _ => None
    end
  else Some st.

Definition double_backoff (st : State) : State := set_backoff (Z.min (backoff st * 2) MAX_BACKOFF) st.

(** [started] is the process that [start_worker] returned, with [config] sent in its
    handshake, or [None] when it failed.  A process whose handshake failed is not in the log:
    the supervisor drops its handle, which does not kill it, and closes its socket. *)
Definition spawn_worker (config : C) (started : option Pid) (st : State) : State :=
  match started with
  | Some pid =>
      mkState (Some pid) FIRST_BACKOFF (awaiting_status st) (config_queue st) false (IpcWorker pid)
        (log st ++ [Started pid config])
  | None => double_backoff (emit (Slept (backoff st)) st)
  end.

Definition restart_dead_worker (st : State) : State :=
  let st := drop_worker st in
  double_backoff (emit (Slept (backoff st)) st).

(** [exited] is the answer of [try_wait]: [None] for its error. *)
Definition heartbeat_tick (exited : option bool) (alive : bool) (st : State) : outcome State :=
  match worker st with
  | None => match ipc_send MPing alive st with
            | Some (_, st) => Continue st
            | None => Blocked st
            end
  | Some pid =>
      match exited with
      | None => Fails st
      | Some true => Continue (restart_dead_worker (set_awaiting false st))
      | Some false =>
          let st := if awaiting_status st then emit (SetWorkerStatus pid None) st else st in
          match ipc_send MStatus alive st with
          | Some (sent, st) => Continue (set_awaiting sent st)
          | None => Blocked st
          end
      end
  end.

Definition handle_worker_event (event : option WorkerEvent) (st : State) : State :=
  match event with
  | Some (Fatal _) => drop_worker st
  | Some (Event e) => emit (Forwarded e) st
  | Some (Status pid status) => emit (SetWorkerStatus pid (Some status)) (set_awaiting false st)
  | Some Pong | None => st
  end.

(** The answer of [events.recv()], and the master's answer to the request for its current
    configuration: [SnapshotFails] when the request cannot be sent. *)
Inductive BusEvent : Type := Shutdown | Closed | Lagged | Changed.
Inductive Snapshot : Type := SnapshotFails | SnapshotNone | SnapshotOf (c : C).

Definition stop_or_refresh (event : BusEvent) (snapshot : Snapshot) (st : State) : outcome State :=
  match event with
  | Shutdown | Closed => Break st
  | Lagged => Continue st
  | Changed =>
      match snapshot with
      | SnapshotFails => Fails st
      | SnapshotNone => Continue st
      | SnapshotOf c => match config_send c st with
                        | Some st => Continue st
                        | None => Blocked st
                        end
      end
  end.

(** The branch that [select!] takes. *)
Inductive branch : Type :=
| OnBus (event : BusEvent) (snapshot : Snapshot)
| OnHeartbeat (exited : option bool) (alive : bool)
| OnWorker (event : option WorkerEvent)
| OnConfig (alive : bool).

(** [config_rx.recv()] is ready with a queued configuration, and with [None] once the channel
    has no sender.  The other branches can always become ready. *)
Definition ready (b : branch) (st : State) : bool :=
  match b with
  | OnConfig _ => match config_queue st with [] => negb (config_tx_initial st) | _ => true end
  | _ => true
  end.

Definition on_config (alive : bool) (st : State) : outcome State :=
  match config_queue st with
  | [] => Continue st
  | c :: q => match ipc_send (MConfig c) alive (set_config_queue q st) with
              | Some (_, st) => Continue st
              | None => Blocked (set_config_queue q st)
              end
  end.

(** One turn of the loop; when it ends, the worker is dropped. *)
Definition turn (config : C) (started : option Pid) (b : branch) (st : State) : outcome State :=
  let st := match worker st with None => spawn_worker config started st | Some _ => st end in
  match b with
  | OnBus event snapshot =>
      match stop_or_refresh event snapshot st with
      | Break st => Break (drop_worker st)
      | Fails st => Fails (drop_worker st)
      | o => o
      end
  | OnHeartbeat exited alive =>
      match heartbeat_tick exited alive st with
      | Fails st => Fails (drop_worker st)
      | o => o
      end
  | OnWorker event => Continue (handle_worker_event event st)
  | OnConfig alive => on_config alive st
  end.

(** One turn after which the loop goes on. *)
Inductive step (config : C) : State -> State -> Prop :=
| step_turn st started b st' :
    ready b (match worker st with None => spawn_worker config started st | Some _ => st end) = true ->
    turn config started b st = Continue st' ->
    step config st st'.

(** ** Facts *)

(** The processes that run: started and not yet killed. *)
Definition running (l : list effect) : Z :=
  sumZ (fun e => match e with Started _ _ => 1 | Killed _ => -1 | _ => 0 end) l.

(** Every wait is between the first and the longest backoff. *)
Definition sleeps_bounded (l : list effect) : Prop :=
  Forall (fun e => match e with Slept d => FIRST_BACKOFF <= d <= MAX_BACKOFF | _ => True end) l.

Record wf (st : State) : Prop := {
  wf_running : running (log st) = if is_some (worker st) then 1 else 0;
  wf_backoff : FIRST_BACKOFF <= backoff st <= MAX_BACKOFF;
  wf_sleeps : sleeps_bounded (log st);
}.

Lemma running_snoc l e :
  running (l ++ [e]) = running l + match e with Started _ _ => 1 | Killed _ => -1 | _ => 0 end.
Proof. unfold running. rewrite sumZ_app. cbn. lia. Qed.

Lemma wf_emit e st :
  wf st ->
  match e with Started _ _ | Killed _ => False | Slept d => FIRST_BACKOFF <= d <= MAX_BACKOFF | _ => True end ->
  wf (emit e st).
Proof.
  intros [H1 H2 H3] He. split; cbn; [|done|].
  - rewrite running_snoc, H1. destruct e; try done; lia.
  - apply Forall_app. split; [done|]. constructor; [by destruct e|done].
Qed.

Lemma wf_double_backoff st : wf st -> wf (double_backoff st).
Proof.
  intros [H1 H2 H3]. split; cbn; [done| |done].
  unfold FIRST_BACKOFF, MAX_BACKOFF, from_secs in *. lia.
Qed.

Lemma wf_drop_worker st : wf st -> wf (drop_worker st).
Proof.
  intros Hw. pose proof Hw as [H1 H2 H3]. unfold drop_worker.
  destruct (worker st) as [pid|] eqn:Ew; [|done]. split; cbn; [|done|].
  - rewrite running_snoc, H1. done.
  - apply Forall_app. split; [done|]. by repeat constructor.
Qed.

Lemma drop_worker_none st : worker (drop_worker st) = None.
Proof. unfold drop_worker. by destruct (worker st) eqn:E. Qed.

Lemma wf_spawn config started st : wf st -> worker st = None -> wf (spawn_worker config started st).
Proof.
  intros Hw Hn. pose proof Hw as [H1 H2 H3]. unfold spawn_worker. destruct started as [pid|].
  - rewrite Hn in H1. split; cbn.
    + rewrite running_snoc, H1. done.
    + unfold FIRST_BACKOFF, MAX_BACKOFF, from_secs. lia.
    + apply Forall_app. split; [done|]. by repeat constructor.
  - by apply wf_double_backoff, wf_emit.
Qed.

Lemma wf_ipc_send m alive st b st' : wf st -> ipc_send m alive st = Some (b, st') -> wf st'.
Proof.
  intros Hw. unfold ipc_send. destruct (ipc_tx st) as [q|pid].
  - destruct (Nat.ltb (length q) 16); [|done]. intros [= <- <-]. by destruct Hw.
  - destruct alive; intros [= <- <-]; [|done]. by apply wf_emit.
Qed.

Lemma wf_heartbeat exited alive st : wf st -> wf (outcome_state (heartbeat_tick exited alive st)).
Proof.
  intros Hw. unfold heartbeat_tick. destruct (worker st) as [pid|].
  - destruct exited as [[]|]; [| |done].
    + unfold restart_dead_worker. cbn [outcome_state].
      assert (Hd : wf (drop_worker (set_awaiting false st))) by (apply wf_drop_worker; by destruct Hw).
      apply wf_double_backoff, wf_emit; [done|]. apply Hd.
    + assert (Ha : wf (if awaiting_status st then emit (SetWorkerStatus pid None) st else st))
        by (destruct (awaiting_status st); [by apply wf_emit|done]).
      destruct (ipc_send MStatus alive _) as [[b st']|] eqn:E; cbn [outcome_state]; [|done].
      apply wf_ipc_send in E; [by destruct E|done].
  - destruct (ipc_send MPing alive st) as [[b st']|] eqn:E; cbn [outcome_state]; [|done].
    by apply wf_ipc_send in E.
Qed.

Lemma wf_bus event snapshot st : wf st -> wf (outcome_state (stop_or_refresh event snapshot st)).
Proof.
  intros Hw. unfold stop_or_refresh, config_send. destruct event; try done. destruct snapshot as [| |c]; try done.
  destruct (config_tx_initial st); [|done]. destruct (config_queue st); cbn [outcome_state]; [by destruct Hw|done].
Qed.

Lemma wf_turn config started b st : wf st -> wf (outcome_state (turn config started b st)).
Proof.
  intros Hw. unfold turn.
  assert (Hs : wf (match worker st with None => spawn_worker config started st | Some _ => st end)).
  { destruct (worker st) eqn:E; [done|]. by apply wf_spawn. }
  revert Hs. generalize (match worker st with None => spawn_worker config started st | Some _ => st end).
  clear. intros st Hw. destruct b as [ev sn|ex al|ev|al].
  - pose proof (wf_bus ev sn st Hw) as Hb.
    destruct (stop_or_refresh ev sn st); cbn [outcome_state] in *; try done; by apply wf_drop_worker.
  - pose proof (wf_heartbeat ex al st Hw) as Hb.
    destruct (heartbeat_tick ex al st); cbn [outcome_state] in *; try done; by apply wf_drop_worker.
  - cbn [outcome_state]. unfold handle_worker_event. destruct ev as [[r|e|pid s|]|]; try done.
    + by apply wf_drop_worker.
    + by apply wf_emit.
    + apply wf_emit; [by destruct Hw|done].
  - unfold on_config. destruct (config_queue st) as [|c q]; [done|].
    assert (Hq : wf (set_config_queue q st)) by (by destruct Hw).
    destruct (ipc_send (MConfig c) al (set_config_queue q st)) as [[b st']|] eqn:E; cbn [outcome_state]; [|done].
    by apply wf_ipc_send in E.
Qed.

Lemma wf_reachable config st : rtc (step config) initial st -> wf st.
Proof.
  intros Hr. assert (H0 : wf (initial : State)).
  { split; cbn; [done| |constructor]. unfold FIRST_BACKOFF, MAX_BACKOFF, from_secs. lia. }
  revert Hr H0. generalize (initial : State). intros st0 Hr. induction Hr as [|st1 st2 st3 Hs Hr IH]; [done|].
  intros H1. apply IH. destruct Hs as [st1 started b st2 _ Ht].
  pose proof (wf_turn config started b st1 H1) as H2. by rewrite Ht in H2.
Qed.

(** The supervisor runs at most one worker at a time: in every reachable state, and whatever
    the next turn does, the workers whose start succeeded and that were not killed are the one
    it holds, if any.  When the loop ends, because the master shuts down or a request fails, no
    process is left.  The backoff and every wait stay between one second and one minute. *)
Theorem one_worker config st started b :
  rtc (step config) initial st ->
  let o := turn config started b st in
  running (log (outcome_state o)) = (if is_some (worker (outcome_state o)) then 1 else 0)
  /\ (match o with Break st' | Fails st' => running (log st') = 0 | _ => True end)
  /\ FIRST_BACKOFF <= backoff (outcome_state o) <= MAX_BACKOFF
  /\ sleeps_bounded (log (outcome_state o)).
Proof.
  intros Hr o. pose proof (wf_turn config started b st (wf_reachable _ _ Hr)) as [H1 H2 H3].
  fold o in H1, H2, H3. repeat split; try done; try apply H2.
  assert (Hend : match o with Break st' | Fails st' => worker st' = None | _ => True end).
  { unfold o, turn. destruct b as [ev sn|ex al|ev|al]; [| |done|].
    - destruct (stop_or_refresh ev sn _); try done; apply drop_worker_none.
    - unfold heartbeat_tick, ipc_send. repeat case_match; try done; simplify_eq; try done; apply drop_worker_none.
    - unfold on_config. repeat case_match; done. }
  destruct o as [st'|st'|st'|st']; try done; cbn [outcome_state] in H1; by rewrite Hend in H1.
Qed.

(** ** What reaches a worker *)

(** A configuration reaches a worker in its handshake or in a message to its writer. *)
Definition delivered (e : effect) : option C :=
  match e with
  | Started _ c => Some c
  | Sent _ (MConfig c) => Some c
  | _ => None
  end.

(** [st'] only added deliveries of [config] to the log of [st], and its channels are still
    the dead ones. *)
Definition only_delivers (config : C) (st st' : State) : Prop :=
  config_tx_initial st' = false /\ config_queue st' = []
  /\ exists l, log st' = log st ++ l
       /\ Forall (fun e => match delivered e with Some c => c = config | None => True end) l.

Lemma only_delivers_refl config st :
  config_tx_initial st = false -> config_queue st = [] -> only_delivers config st st.
Proof. intros H1 H2. split; [done|]. split; [done|]. exists []. by rewrite app_nil_r. Qed.

Lemma only_delivers_emit config st st' e :
  only_delivers config st st' -> (match delivered e with Some c => c = config | None => True end) ->
  only_delivers config st (emit e st').
Proof.
  intros (H1 & H2 & l & H3 & H4) He. split; [done|]. split; [done|]. exists (l ++ [e]). cbn. rewrite H3, app_assoc.
  split; [done|]. apply Forall_app. split; [done|]. by constructor.
Qed.

Lemma only_delivers_fields config st st' st'' :
  only_delivers config st st' ->
  config_tx_initial st'' = config_tx_initial st' -> config_queue st'' = config_queue st' -> log st'' = log st' ->
  only_delivers config st st''.
Proof. intros (H1 & H2 & l & H3 & H4) E1 E2 E3. unfold only_delivers. rewrite E1, E2, E3. eauto. Qed.

Lemma only_delivers_drop config st st' : only_delivers config st st' -> only_delivers config st (drop_worker st').
Proof.
  intros H. unfold drop_worker. destruct (worker st') as [pid|]; [|done].
  apply only_delivers_emit; [|done]. by eapply only_delivers_fields.
Qed.

Lemma only_delivers_ipc config st st' m alive b st'' :
  only_delivers config st st' -> (forall c, m <> MConfig c) -> ipc_send m alive st' = Some (b, st'') ->
  only_delivers config st st''.
Proof.
  intros H Hm. unfold ipc_send. destruct (ipc_tx st') as [q|pid].
  - destruct (Nat.ltb (length q) 16); [|done]. intros [= <- <-]. by eapply only_delivers_fields.
  - destruct alive; intros [= <- <-]; [|done]. apply only_delivers_emit; [done|].
    destruct m; try done. by destruct (Hm c).
Qed.

Lemma only_delivers_turn config st0 st started b st' :
  only_delivers config st0 st -> turn config started b st = Continue st' -> only_delivers config st0 st'.
Proof.
  intros H. unfold turn.
  assert (Hs : only_delivers config st0 (match worker st with None => spawn_worker config started st | Some _ => st end)).
  { destruct (worker st); [done|]. unfold spawn_worker. destruct started as [pid|].
    - apply (only_delivers_fields config st0 (emit (Started pid config) st)); try done.
      + by apply only_delivers_emit.
      + destruct H as (H1 & _). cbn. done.
    - eapply only_delivers_fields; [apply (only_delivers_emit _ _ st (Slept (backoff st))); done|done..]. }
  revert Hs. generalize (match worker st with None => spawn_worker config started st | Some _ => st end).
  clear H st. intros st H. destruct b as [ev sn|ex al|ev|al].
  - unfold stop_or_refresh, config_send. pose proof H as (H1 & _). rewrite H1.
    destruct ev; try done; [|destruct sn]; intros [= <-]; done.
  - unfold heartbeat_tick. destruct (worker st) as [pid|].
    + destruct ex as [[]|]; [| |done].
      * intros [= <-]. unfold restart_dead_worker.
        eapply only_delivers_fields;
          [apply (only_delivers_emit _ _ (drop_worker (set_awaiting false st)) (Slept (backoff (drop_worker (set_awaiting false st)))))|done..];
          [|done].
        apply only_delivers_drop. by eapply only_delivers_fields.
      * destruct (ipc_send MStatus al _) as [[b st1]|] eqn:E; [|done]. intros [= <-].
        eapply only_delivers_fields; [eapply (only_delivers_ipc _ _ _ MStatus); [|done|exact E]|done..].
        destruct (awaiting_status st); [by apply only_delivers_emit|done].
    + destruct (ipc_send MPing al st) as [[b st1]|] eqn:E; [|done]. intros [= <-].
      by eapply (only_delivers_ipc _ _ _ MPing).
  - intros [= <-]. unfold handle_worker_event. destruct ev as [[r|e|pid s|]|]; try done.
    + by apply only_delivers_drop.
    + by apply only_delivers_emit.
    + apply only_delivers_emit; [|done]. by eapply only_delivers_fields.
  - unfold on_config. pose proof H as (_ & H2 & _). rewrite H2. by intros [= <-].
Qed.

(** A run whose first turn starts a worker. *)
Lemma only_delivers_run config pid b st st' :
  turn config (Some pid) b initial = Continue st -> rtc (step config) st st' ->
  only_delivers config initial st'.
Proof.
  intros Ht Hr.
  assert (H0 : only_delivers config initial (spawn_worker config (Some pid) initial)).
  { split; [done|]. split; [done|]. exists [Started pid config]. split; [done|]. by repeat constructor. }
  assert (H : only_delivers config initial st).
  { apply (only_delivers_turn config initial (spawn_worker config (Some pid) initial) None b st H0).
    by rewrite <-Ht. }
  clear Ht H0. revert H. generalize (initial : State). intros st0 H. induction Hr as [|a c d Hs Hr IH]; [done|].
  apply IH. destruct Hs as [a started br c _ Ht]. by eapply only_delivers_turn.
Qed.

(** A configuration change never reaches a worker.  In every run whose first attempt to start
    a worker succeeds, every configuration that any worker ever receives, in its handshake or in
    a message, is the one of the supervisor's start, however many changes the master announces
    and answers; a worker that is restarted later gets it again. *)
Theorem config_changes_are_lost config pid b st st' :
  turn config (Some pid) b initial = Continue st -> rtc (step config) st st' ->
  Forall (fun e => match delivered e with Some c => c = config | None => True end) (log st').
Proof. intros Ht Hr. by destruct (only_delivers_run _ _ _ _ _ Ht Hr) as (_ & _ & l & -> & Hl). Qed.

(** Once a worker runs, the supervisor's loop spins.  In every later state with a worker, the
    branch of the configuration channel is ready, because the channel has lost its last sender,
    and taking it changes nothing: the loop never waits. *)
Theorem config_branch_spins config pid b st st' started alive :
  turn config (Some pid) b initial = Continue st -> rtc (step config) st st' ->
  is_some (worker st') = true ->
  ready (OnConfig alive) st' = true /\ turn config started (OnConfig alive) st' = Continue st'.
Proof.
  intros Ht Hr Hw. destruct (only_delivers_run _ _ _ _ _ Ht Hr) as (H3 & H4 & _).
  cbn [ready]. rewrite H3, H4. split; [done|].
  unfold turn. destruct (worker st') eqn:E; [|done]. unfold on_config. by rewrite H4.
Qed.
End Supervisor.

(** The master changes its configuration from 1 to 2 while worker 7 runs; worker 8 replaces a
    dead worker 7. *)
Definition example_run : list (option Pid * @branch Z unit unit) :=
  [(Some 7, OnBus Changed (SnapshotOf 2)); (None, OnHeartbeat (Some true) true); (Some 8, OnWorker (Some Pong))].

Fixpoint run_turns (config : Z) (l : list (option Pid * @branch Z unit unit)) (st : @State Z unit unit)
  : option (@State Z unit unit) :=
  match l with
  | [] => Some st
  | (started, b) :: r =>
      if ready b (match worker st with None => spawn_worker config started st | Some _ => st end)
      then match turn config started b st with Continue st => run_turns config r st | _ => None end
      else None
  end.

Lemma run_turns_rtc config l st st' : run_turns config l st = Some st' -> rtc (step config) st st'.
Proof.
  revert st. induction l as [|[started b] l IH]; intros st H; [by injection H as ->|]. cbn in H.
  destruct (ready b _) eqn:Er; [|done]. destruct (turn config started b st) eqn:Et; try done.
  eapply rtc_l; [by econstructor|]. by apply IH.
Qed.

Lemma one_worker_witness :
  exists st, run_turns 1 example_run initial = Some st
    /\ running (log (outcome_state (turn 1 None (OnBus Shutdown SnapshotNone) st))) = 0.
Proof.
  destruct (run_turns 1 example_run initial) as [st|] eqn:E; [|discriminate E]. exists st. split; [reflexivity|].
  destruct (one_worker 1 st None (OnBus Shutdown SnapshotNone)) as (_ & H & _);
    [by apply (run_turns_rtc 1 example_run)|exact H].
Defined.

Lemma config_changes_are_lost_witness :
  exists st, run_turns 1 (tail example_run) (outcome_state (turn 1 (Some 7) (OnBus Changed (SnapshotOf 2)) initial))
             = Some st
    /\ log st = [Started 7 1; Killed 7; Slept FIRST_BACKOFF; Started 8 1]
    /\ Forall (fun e => match delivered e with Some c => c = 1 | None => True end) (log st).
Proof.
  eexists. split; [reflexivity|]. split; [reflexivity|].
  eapply (config_changes_are_lost 1 7 (OnBus Changed (SnapshotOf 2))); [reflexivity|].
  apply (run_turns_rtc 1 (tail example_run)). reflexivity.
Defined.

Lemma config_branch_spins_witness :
  let st := outcome_state (turn 1 (Some 7) (@OnWorker Z unit unit None) initial) in
  turn 1 None (OnConfig true) st = Continue st.
Proof.
  intros st. refine (proj2 (config_branch_spins 1 7 (OnWorker None) st st None true _ _ _)); [reflexivity| |reflexivity].
  apply rtc_refl.
Defined.
