(* ===== verification/Quarantine.v ===== *)
(** * Automatic quarantine of clients

    The configuration of [r3v3rs3-api/src/quarantine.rs], the tracker of
    [security/quarantine.rs], and the check that the HTTP proxy runs after each request
    ([check_and_record_quarantine] of [proxy/http/mod.rs]).  The operations take the instant
    and the Unix time in milliseconds that the code reads from the clock. *)

From Stdlib Require Import Ascii.
From S2P Require Import Prelude Basics IpText.

(** ** Configuration *)

Record AutoQuarantineConfig : Type := mkAutoQuarantineConfig {
  enabled : bool;
  max_violations : Z;
  window_seconds : Z;
  ban_duration_seconds : Z;
  block_status_codes : list Z;
  scanner_patterns : list string;
}.

Definition default_scanner_patterns : list string :=
  ["/.env"; "/.git"; "/.aws"; "/wp-login"; "/wp-admin"; "/xmlrpc.php"; "/phpmyadmin"; "/config.json"].

Definition AutoQuarantineConfig_default : AutoQuarantineConfig :=
  mkAutoQuarantineConfig true 5 60 3600 [404; 403] default_scanner_patterns.

Definition AutoQuarantineConfig_validate (c : AutoQuarantineConfig) : result unit Error :=
  if max_violations c =? 0 then
    Err (InvalidAutoQuarantineConfig "max_violations must be greater than 0")
  else if window_seconds c =? 0 then
    Err (InvalidAutoQuarantineConfig "window_seconds must be greater than 0")
  else if ban_duration_seconds c =? 0 then
    Err (InvalidAutoQuarantineConfig "ban_duration_seconds must be greater than 0")
  else Ok tt.

Record QuarantinedIpEntry : Type := mkQuarantinedIpEntry {
  q_ip : IpAddr;
  q_reason : string;
  q_violations : Z;
  q_banned_at : Z;
  q_banned_until : Z;
  q_remaining_seconds : Z;
}.

(** ** The tracker *)

Record ActiveBan : Type := mkActiveBan {
  reason : string;
  ban_violations : Z;
  banned_at_ms : Z;
  banned_until_ms : Z;
  banned_until : Instant;
}.

Definition MAX_VIOLATION_ENTRIES : nat := 10000.

Record IpViolationState : Type := mkIpViolationState {
  vs_count : Z;
  window_start : Instant;
}.

(** [notifier] holds the events sent so far, once a sender is set. *)
Record AutoQuarantineTracker : Type := mkTracker {
  config : AutoQuarantineConfig;
  active_bans : gmap IpAddr ActiveBan;
  violations : gmap IpAddr IpViolationState;
  notifier : option (list QuarantinedIpEntry);
}.

Definition tracker_new (c : AutoQuarantineConfig) : AutoQuarantineTracker := mkTracker c ∅ ∅ None.

Definition set_bans (b : gmap IpAddr ActiveBan) (t : AutoQuarantineTracker) : AutoQuarantineTracker :=
  mkTracker (config t) b (violations t) (notifier t).
Definition set_violations (v : gmap IpAddr IpViolationState) (t : AutoQuarantineTracker) : AutoQuarantineTracker :=
  mkTracker (config t) (active_bans t) v (notifier t).

Definition set_notifier (t : AutoQuarantineTracker) : AutoQuarantineTracker :=
  mkTracker (config t) (active_bans t) (violations t) (Some []).

Definition update_config (c : AutoQuarantineConfig) (t : AutoQuarantineTracker) : AutoQuarantineTracker :=
  mkTracker c (active_bans t) (violations t) (notifier t).

(** [IpAddr::is_loopback]. *)
Definition is_loopback (ip : IpAddr) : bool :=
  match ip with V4 b => Z.shiftr b 24 =? 127 | V6 b => b =? 1 end.

(** [Duration::as_secs]. *)
Definition as_secs (d : Duration) : Z := d / 1000000000.

Definition is_quarantined (t : AutoQuarantineTracker) (ip : IpAddr) (now : Instant) : bool :=
  if is_loopback ip then false
  else match active_bans t !! ip with
       | Some ban => now <? banned_until ban
       | None => false
       end.

(** [str::contains]. *)
Fixpoint str_contains (needle hay : string) : bool :=
  starts_with needle hay || match hay with EmptyString => false | String _ r => str_contains needle r end.

Definition check_scanner_uri (t : AutoQuarantineTracker) (uri : string) : option string :=
  if negb (enabled (config t)) then None
  else find (fun pattern => str_contains (to_ascii_lowercase pattern) (to_ascii_lowercase uri))
         (scanner_patterns (config t)).

Definition is_violating_status (t : AutoQuarantineTracker) (status : Z) : bool :=
  enabled (config t) && existsb (Z.eqb status) (block_status_codes (config t)).

Section Tracker.
(** The order in which a hash map yields its entries. *)
Context (iter : gmap IpAddr IpViolationState -> list (IpAddr * IpViolationState)).

Definition in_window (now : Instant) (window : Z) (s : IpViolationState) : bool :=
  as_secs (duration_since now (window_start s)) <? window.

Definition prune_violations (m : gmap IpAddr IpViolationState) (now : Instant) (window : Z)
  : gmap IpAddr IpViolationState :=
  let m := filter (fun kv => in_window now window kv.2 = true) m in
  if Nat.leb MAX_VIOLATION_ENTRIES (size m) then
    let excess := (size m - MAX_VIOLATION_ENTRIES + 1)%nat in
    let entries := sort_by (fun a b => window_start a.2 <=? window_start b.2) (iter m) in
    fold_left (fun m e => delete e.1 m) (take excess entries) m
  else m.

Definition cleanup_violations (now : Instant) (t : AutoQuarantineTracker) : AutoQuarantineTracker :=
  set_violations (prune_violations (violations t) now (window_seconds (config t))) t.

Definition notify_quarantine (e : QuarantinedIpEntry) (t : AutoQuarantineTracker) : AutoQuarantineTracker :=
  match notifier t with
  | Some sent => mkTracker (config t) (active_bans t) (violations t) (Some (sent ++ [e]))
  | None => t
  end.

(** The milliseconds are computed in 64 bits: the product wraps, the sum saturates.  The end of
    the ban is an unbounded sum here; the code panics when the clock cannot represent it, for a
    duration of hundreds of billions of years. *)
Definition quarantine_internal (ip : IpAddr) (why : string) (duration_seconds total : Z)
    (now : Instant) (unix_ms : Z) (t : AutoQuarantineTracker)
  : QuarantinedIpEntry * AutoQuarantineTracker :=
  let seconds := Z.max duration_seconds 1 in
  let until_ms := sat_add u64_max unix_ms (wrap64 (seconds * 1000)) in
  let ban := mkActiveBan why total unix_ms until_ms (now + from_secs seconds) in
  let entry := mkQuarantinedIpEntry ip why total unix_ms until_ms seconds in
  (entry, notify_quarantine entry (set_bans (<[ip := ban]> (active_bans t)) t)).

Definition quarantine (ip : IpAddr) (why : string) (duration_seconds : Z) (now : Instant) (unix_ms : Z)
    (t : AutoQuarantineTracker) : QuarantinedIpEntry * AutoQuarantineTracker :=
  quarantine_internal ip why duration_seconds 1 now unix_ms t.

(** [now1] is the instant of the check for a ban and [now] the one of the record. *)
Definition record_violation (ip : IpAddr) (why : string) (weight : Z) (now1 now : Instant) (unix_ms : Z)
    (t : AutoQuarantineTracker) : option QuarantinedIpEntry * AutoQuarantineTracker :=
  let c := config t in
  if negb (enabled c) || is_loopback ip || is_quarantined t ip now1 then (None, t)
  else
    let map := prune_violations (violations t) now (window_seconds c) in
    let entry := unwrap_or (map !! ip) (mkIpViolationState 0 now) in
    let entry := if window_seconds c <=? as_secs (duration_since now (window_start entry))
                 then mkIpViolationState 0 now else entry in
    let entry := mkIpViolationState (sat_add u32_max (vs_count entry) weight) (window_start entry) in
    if max_violations c <=? vs_count entry then
      let t := set_violations (delete ip map) t in
      let '(e, t) := quarantine_internal ip why (ban_duration_seconds c) (vs_count entry) now unix_ms t in
      (Some e, t)
    else (None, set_violations (<[ip := entry]> map) t).

Definition unban (ip : IpAddr) (t : AutoQuarantineTracker) : bool * AutoQuarantineTracker :=
  (is_some (active_bans t !! ip),
   set_violations (delete ip (violations t)) (set_bans (delete ip (active_bans t)) t)).

(** [order] is the order in which the hash map of the bans yields its entries. *)
Definition list_quarantined (order : gmap IpAddr ActiveBan -> list (IpAddr * ActiveBan)) (now : Instant)
    (t : AutoQuarantineTracker) : list QuarantinedIpEntry * AutoQuarantineTracker :=
  let bans := filter (fun kv => now < banned_until kv.2) (active_bans t) in
  let listed := map (fun '(ip, ban) =>
    mkQuarantinedIpEntry ip (reason ban) (ban_violations ban) (banned_at_ms ban) (banned_until_ms ban)
      (Z.max (as_secs (duration_since (banned_until ban) now)) 1)) (order bans) in
  (sort_by (fun a b => q_banned_until a <=? q_banned_until b) listed, set_bans bans t).

(** [status] is the status of the answer, 500 for an error. *)
Definition check_and_record_quarantine (client_ip : IpAddr) (uri : string) (status : Z)
    (now1 now : Instant) (unix_ms : Z) (t : AutoQuarantineTracker) : AutoQuarantineTracker :=
  if is_loopback client_ip then t
  else if negb (enabled (config t)) then t
  else
    match check_scanner_uri t uri with
    | Some pattern =>
        (record_violation client_ip (String.append "Scanner pattern probe: " pattern)
           (max_violations (config t)) now1 now unix_ms t).2
    | None =>
        if str_contains "/api/" uri then t
        else if is_violating_status t status then
          (record_violation client_ip
             (String.append "Repeated HTTP " (String.append (dec status) " error")) 1 now1 now unix_ms t).2
        else t
    end.

(** ** Runs of the tracker

    A state is the tracker, the time, and the violations recorded so far.  Each operation is one
    step, and the operations of concurrent requests are ordered by the instants they read: the
    code reads the instant before it takes the lock, so that two requests may be recorded in the
    other order, at instants that differ by the wait for the lock. *)
Record Violation : Type := mkViolation { v_ip : IpAddr; v_weight : Z; v_time : Instant }.

Inductive tracker_step : AutoQuarantineTracker * Instant * list Violation ->
    AutoQuarantineTracker * Instant * list Violation -> Prop :=
| ts_record t clock h ip why weight now1 now unix e t' :
    clock <= now1 <= now -> 0 <= weight ->
    record_violation ip why weight now1 now unix t = (e, t') ->
    tracker_step (t, clock, h) (t', now, h ++ [mkViolation ip weight now])
| ts_quarantine t clock h ip why d now unix :
    clock <= now -> tracker_step (t, clock, h) ((quarantine ip why d now unix t).2, now, h)
| ts_unban t clock h ip : tracker_step (t, clock, h) ((unban ip t).2, clock, h)
| ts_cleanup t clock h now :
    clock <= now -> tracker_step (t, clock, h) (cleanup_violations now t, now, h)
| ts_config t clock h c : tracker_step (t, clock, h) (update_config c t, clock, h)
| ts_list t clock h order now :
    clock <= now -> tracker_step (t, clock, h) ((list_quarantined order now t).2, now, h).

(** The weight of the violations of a client from an instant on. *)
Definition weight_since (ip : IpAddr) (start : Instant) (h : list Violation) : Z :=
  sumZ (fun v => if bool_decide (v_ip v = ip) && (start <=? v_time v) then v_weight v else 0) h.
End Tracker.

(** ** Facts *)

Section Facts.
Context (iter : gmap IpAddr IpViolationState -> list (IpAddr * IpViolationState)).
Context (iter_perm : forall m, iter m ≡ₚ map_to_list m).

Lemma fold_delete_lookup (l : list (IpAddr * IpViolationState)) (m : gmap IpAddr IpViolationState) k s :
  fold_left (fun m e => delete e.1 m) l m !! k = Some s -> m !! k = Some s.
Proof.
  revert m. induction l as [|e l IH]; intros m H; [done|]. cbn in H. apply IH in H.
  by apply lookup_delete_Some in H as [_ H].
Qed.

Lemma fold_delete_size (l : list (IpAddr * IpViolationState)) (m : gmap IpAddr IpViolationState) :
  NoDup l.*1 -> (forall e, e ∈ l -> is_Some (m !! e.1)) ->
  (size (fold_left (fun m e => delete e.1 m) l m) + length l = size m)%nat.
Proof.
  revert m. induction l as [|e l IH]; intros m Hd Hin; cbn [fold_left length]; [lia|].
  cbn in Hd. apply NoDup_cons in Hd as [Hne Hd].
  assert (Hs : size (delete e.1 m) = pred (size m)).
  { apply map_size_delete_Some, Hin. by left. }
  assert (Hpos : (0 < size m)%nat).
  { destruct (Hin e (list_elem_of_here e l)) as [s Hsome]. apply Nat.neq_0_lt_0. intros H0.
    apply map_size_empty_inv in H0. subst m. by rewrite lookup_empty in Hsome. }
  rewrite Nat.add_succ_r, IH; [lia|done|].
  intros x Hx. rewrite lookup_delete_ne; [apply Hin; by right|].
  intros Heq. apply Hne. rewrite Heq. by apply list_elem_of_fmap_2.
Qed.

Lemma max_positive : (1 <= MAX_VIOLATION_ENTRIES)%nat.
Proof. apply Nat.leb_le. reflexivity. Qed.

Lemma delete_size (m : gmap IpAddr IpViolationState) ip : (size (delete ip m) <= size m)%nat.
Proof. apply map_subseteq_size, delete_subseteq. Qed.

Lemma insert_size (m : gmap IpAddr IpViolationState) ip st : (size (<[ip := st]> m) <= S (size m))%nat.
Proof. rewrite map_size_insert. unfold id. destruct (m !! ip); lia. Qed.

Lemma prune_lookup m now w ip s :
  prune_violations iter m now w !! ip = Some s -> m !! ip = Some s /\ in_window now w s = true.
Proof.
  unfold prune_violations. cbn zeta. intros H.
  assert (Hf : filter (fun kv => in_window now w kv.2 = true) m !! ip = Some s).
  { destruct (Nat.leb _ _); [|done]. by apply fold_delete_lookup in H. }
  by apply map_lookup_filter_Some in Hf.
Qed.

Lemma prune_size m now w : (size (prune_violations iter m now w) < MAX_VIOLATION_ENTRIES)%nat.
Proof.
  unfold prune_violations. cbn zeta. set (f := filter _ m).
  destruct (Nat.leb_spec MAX_VIOLATION_ENTRIES (size f)) as [Hle|]; [|done].
  set (sorted := sort_by _ (iter f)).
  assert (Hp : sorted ≡ₚ map_to_list f) by (unfold sorted; rewrite sort_by_perm; apply iter_perm).
  assert (Hlen : length sorted = size f) by (rewrite Hp; apply length_map_to_list).
  assert (Hnd : NoDup (sorted.*1)) by (rewrite Hp; apply NoDup_fst_map_to_list).
  set (n := (size f - MAX_VIOLATION_ENTRIES + 1)%nat).
  pose proof max_positive as Hmax. assert (Hn : (n <= size f)%nat) by (unfold n; lia).
  assert (Hs : (size (fold_left (fun m e => delete e.1 m) (take n sorted) f) + length (take n sorted) = size f)%nat).
  { apply fold_delete_size.
    - rewrite <-(take_drop n sorted), fmap_app in Hnd. by apply NoDup_app in Hnd as [? _].
    - intros [k s] Hin. assert (Hin2 : (k, s) ∈ map_to_list f).
      { rewrite <-Hp, <-(take_drop n sorted). apply elem_of_app. by left. }
      apply elem_of_map_to_list in Hin2. eauto. }
  rewrite length_take_le in Hs by lia. unfold n in *. lia.
Qed.

Lemma weight_since_app ip start h1 h2 :
  weight_since ip start (h1 ++ h2) = weight_since ip start h1 + weight_since ip start h2.
Proof. apply sumZ_app. Qed.

(** Every counter is covered by violations of its window. *)
Record tracker_inv (s : AutoQuarantineTracker * Instant * list Violation) : Prop := {
  inv_size : (size (violations s.1.1) <= MAX_VIOLATION_ENTRIES)%nat;
  inv_counts ip st : violations s.1.1 !! ip = Some st ->
    window_start st <= s.1.2 /\ 0 <= vs_count st <= weight_since ip (window_start st) s.2;
  inv_weights : Forall (fun v => 0 <= v_weight v) s.2;
}.

Lemma weight_since_nonneg ip start h : Forall (fun v => 0 <= v_weight v) h -> 0 <= weight_since ip start h.
Proof.
  intros H. apply sumZ_nonneg. intros v Hv. rewrite Forall_forall in H. specialize (H v Hv). cbv beta in H.
  destruct (_ && _); lia.
Qed.

Lemma notify_violations e t : violations (notify_quarantine e t) = violations t.
Proof. unfold notify_quarantine. by destruct (notifier t). Qed.

Lemma notify_bans e t : active_bans (notify_quarantine e t) = active_bans t.
Proof. unfold notify_quarantine. by destruct (notifier t). Qed.

(** The counter of a client after a violation. *)
Definition next_entry (t : AutoQuarantineTracker) (ip : IpAddr) (weight : Z) (now : Instant) : IpViolationState :=
  let e := unwrap_or (prune_violations iter (violations t) now (window_seconds (config t)) !! ip)
             (mkIpViolationState 0 now) in
  mkIpViolationState (sat_add u32_max (vs_count e) weight) (window_start e).

Lemma record_violation_eq ip why weight now1 now unix t :
  0 < window_seconds (config t) ->
  record_violation iter ip why weight now1 now unix t
  = if negb (enabled (config t)) || is_loopback ip || is_quarantined t ip now1 then (None, t)
    else
      let m := prune_violations iter (violations t) now (window_seconds (config t)) in
      let e := next_entry t ip weight now in
      if max_violations (config t) <=? vs_count e then
        let r := quarantine_internal ip why (ban_duration_seconds (config t)) (vs_count e) now unix
                   (set_violations (delete ip m) t) in
        (Some r.1, r.2)
      else (None, set_violations (<[ip := e]> m) t).
Proof.
  intros Hw. unfold record_violation. cbn zeta. destruct (_ || _ || _); [done|].
  set (e := unwrap_or _ _).
  assert (He : (window_seconds (config t) <=? as_secs (duration_since now (window_start e))) = false).
  { unfold e. destruct (prune_violations iter (violations t) now (window_seconds (config t)) !! ip) as [s|] eqn:E.
    - apply prune_lookup in E as [_ E]. unfold in_window in E. cbn. zbool. apply Z.leb_gt. lia.
    - cbn [unwrap_or window_start]. apply Z.leb_gt. unfold as_secs, duration_since. rewrite Z.sub_diag.
      change (Z.max 0 0 / 1000000000) with 0. lia. }
  rewrite He. unfold next_entry. fold e. cbn [vs_count window_start]. done.
Qed.

Lemma next_entry_inv t clock h ip weight now :
  tracker_inv (t, clock, h) -> clock <= now -> 0 <= weight ->
  let e := next_entry t ip weight now in
  window_start e <= now
  /\ 0 <= vs_count e <= weight_since ip (window_start e) (h ++ [mkViolation ip weight now])
  /\ (0 < window_seconds (config t) ->
      duration_since now (window_start e) < from_secs (window_seconds (config t))).
Proof.
  intros [_ Hc Hh] Hclock Hw e. unfold e, next_entry. cbn [vs_count window_start].
  rewrite weight_since_app. unfold weight_since at 2. cbn [sumZ v_ip v_time v_weight].
  rewrite bool_decide_true by done. cbn [andb].
  destruct (prune_violations iter (violations t) now (window_seconds (config t)) !! ip) as [s|] eqn:E; cbn [unwrap_or].
  - apply prune_lookup in E as [E Hin]. apply Hc in E as [H1 H2]. cbn [fst snd] in H1, H2.
    destruct (Z.leb_spec (window_start s) now); [|lia]. cbn iota. unfold sat_add, u32_max. split; [lia|]. split; [lia|]. intros _.
    unfold in_window, as_secs in Hin. zbool. unfold from_secs.
    pose proof (Z.div_mod (duration_since now (window_start s)) 1000000000 ltac:(lia)).
    pose proof (Z.mod_pos_bound (duration_since now (window_start s)) 1000000000 ltac:(lia)). lia.
  - cbn [vs_count window_start]. rewrite Z.leb_refl. unfold sat_add, u32_max. split; [lia|]. split.
    + pose proof (weight_since_nonneg ip now h Hh). cbn iota. lia.
    + unfold duration_since, from_secs. lia.
Qed.

(** A tracker with fewer counters, at a later time. *)
Lemma tracker_inv_sub t clock h t' clock' :
  tracker_inv (t, clock, h) -> clock <= clock' ->
  (forall ip st, violations t' !! ip = Some st -> violations t !! ip = Some st) ->
  tracker_inv (t', clock', h).
Proof.
  intros [H1 H2 H3] Hc Hsub. cbn [fst snd] in *. split; cbn [fst snd]; [| |done].
  - etrans; [|exact H1]. apply map_subseteq_size, map_subseteq_spec. exact Hsub.
  - intros ip st Hst. destruct (H2 ip st (Hsub _ _ Hst)). split; [lia|done].
Qed.

(** A tracker after a violation: old counters, and one for the client of the violation. *)
Lemma tracker_inv_violation t clock h ip weight now t' :
  tracker_inv (t, clock, h) -> clock <= now -> 0 <= weight ->
  (size (violations t') <= MAX_VIOLATION_ENTRIES)%nat ->
  (forall ip' st, violations t' !! ip' = Some st -> violations t !! ip' = Some st
     \/ (ip' = ip /\ window_start st <= now
         /\ 0 <= vs_count st <= weight_since ip (window_start st) (h ++ [mkViolation ip weight now]))) ->
  tracker_inv (t', now, h ++ [mkViolation ip weight now]).
Proof.
  intros [H1 H2 H3] Hc Hw Hs Hv. split; cbn [fst snd]; [done| |].
  - intros ip' st Hst. destruct (Hv _ _ Hst) as [Hold|(-> & ? & ?)]; [|done].
    destruct (H2 _ _ Hold) as [Ha Hb]. cbn [fst snd] in Ha, Hb. split; [lia|]. rewrite weight_since_app.
    assert (0 <= weight_since ip' (window_start st) [mkViolation ip weight now])
      by (apply weight_since_nonneg; by repeat constructor). lia.
  - apply Forall_app. split; [done|]. by repeat constructor.
Qed.

Lemma tracker_inv_record t clock h ip why weight now1 now unix e t' :
  tracker_inv (t, clock, h) -> clock <= now1 <= now -> 0 <= weight ->
  record_violation iter ip why weight now1 now unix t = (e, t') ->
  tracker_inv (t', now, h ++ [mkViolation ip weight now]).
Proof.
  intros Hinv Hc Hw E. apply (tracker_inv_violation t clock); [done|lia|done|..];
    pose proof (prune_size (violations t) now (window_seconds (config t))) as Hps;
    assert (Hpl := prune_lookup (violations t) now (window_seconds (config t)));
    pose proof (next_entry_inv t clock h ip weight now Hinv ltac:(lia) Hw) as (Hn1 & Hn2 & _);
    unfold next_entry in Hn1, Hn2; cbn [vs_count window_start] in Hn1, Hn2;
    unfold record_violation in E; cbn zeta in E;
    set (m := prune_violations iter (violations t) now (window_seconds (config t))) in *;
    set (e0 := unwrap_or (m !! ip) (mkIpViolationState 0 now)) in *;
    (destruct (_ || _ || _); [injection E as _ <-|]).
  - apply Hinv.
  - destruct (_ <=? vs_count _) in E.
    + unfold quarantine_internal in E. injection E as _ <-. rewrite notify_violations.
      cbn [violations set_violations set_bans]. pose proof (delete_size m ip). lia.
    + injection E as _ <-. cbn [violations set_violations]. etrans; [apply insert_size|exact Hps].
  - auto.
  - set (e1 := if _ <=? _ then mkIpViolationState 0 now else e0) in *.
    assert (He1 : window_start e1 <= now
      /\ 0 <= sat_add u32_max (vs_count e1) weight
           <= weight_since ip (window_start e1) (h ++ [mkViolation ip weight now])).
    { unfold e1. destruct (_ <=? _); [|done]. cbn [vs_count window_start]. rewrite weight_since_app.
      unfold weight_since at 2. cbn [sumZ v_ip v_time v_weight]. rewrite bool_decide_true by done.
      rewrite Z.leb_refl. cbn [andb]. pose proof (weight_since_nonneg ip now h (inv_weights _ Hinv)).
      unfold sat_add, u32_max. cbn [fst snd] in *. lia. }
    intros ip' st Hst. destruct (_ <=? vs_count _) in E.
    + unfold quarantine_internal in E. injection E as _ <-. rewrite notify_violations in Hst.
      cbn [violations set_violations set_bans] in Hst. apply lookup_delete_Some in Hst as [_ Hst]. apply Hpl in Hst as [? _]. by left.
    + injection E as _ <-. cbn [violations set_violations] in Hst. apply lookup_insert_Some in Hst as [[<- <-]|[_ Hst]]; [by right|].
      apply Hpl in Hst as [? _]. by left.
Qed.

Lemma tracker_inv_step s s' : tracker_inv s -> tracker_step iter s s' -> tracker_inv s'.
Proof.
  intros Hinv Hstep.
  destruct Hstep as [t clock h ip why weight now1 now unix e t' Hc Hw E|t clock h ip why d now unix Hc|t clock h ip
                    |t clock h now Hc|t clock h c|t clock h order now Hc].
  - by eapply tracker_inv_record.
  - apply (tracker_inv_sub t clock); try done. unfold quarantine, quarantine_internal. cbn [snd].
    by rewrite notify_violations.
  - apply (tracker_inv_sub t clock); [done|apply Z.le_refl|]. cbn. intros ip' st Hst.
    by apply lookup_delete_Some in Hst as [_ ?].
  - apply (tracker_inv_sub t clock); [done|done|]. cbn. intros ip st Hst. by apply prune_lookup in Hst as [? _].
  - apply (tracker_inv_sub t clock); [done|apply Z.le_refl|done].
  - by apply (tracker_inv_sub t clock).
Qed.

Lemma tracker_inv_reachable c s : rtc (tracker_step iter) (tracker_new c, 0, []) s -> tracker_inv s.
Proof.
  intros Hr. assert (H0 : tracker_inv (tracker_new c, 0, [])).
  { split; cbn [fst snd violations tracker_new]; [| |constructor].
    - rewrite map_size_empty. apply Nat.le_0_l.
    - intros ip st H. by rewrite lookup_empty in H. }
  revert Hr H0. generalize (tracker_new c, 0, @nil Violation). intros s0 Hr.
  induction Hr as [|s1 s2 s3 Hs Hr IH]; [done|]. intros H. apply IH. by eapply tracker_inv_step.
Qed.

(** In every run, with any mix of violations, bans, releases, clean-ups and configuration
    changes, an automatic ban is earned: when a violation bans its client, the violations of this
    client recorded within the last window add up to at least [max_violations].  The ban then
    holds for exactly [ban_duration_seconds], its event is the returned entry, and the counter of
    the client is gone. *)
Theorem auto_ban_justified c t clock h ip why weight now1 now unix e t' :
  rtc (tracker_step iter) (tracker_new c, 0, []) (t, clock, h) ->
  clock <= now1 <= now -> 0 <= weight ->
  0 < window_seconds (config t) -> 0 < ban_duration_seconds (config t) ->
  record_violation iter ip why weight now1 now unix t = (Some e, t') ->
  (exists start, start <= now /\ now - start < from_secs (window_seconds (config t))
     /\ max_violations (config t) <= weight_since ip start (h ++ [mkViolation ip weight now]))
  /\ (forall later, is_quarantined t' ip later = (later <? now + from_secs (ban_duration_seconds (config t))))
  /\ q_ip e = ip /\ q_remaining_seconds e = ban_duration_seconds (config t)
  /\ violations t' !! ip = None.
Proof.
  intros Hr Hc Hw Hwin Hban E. apply tracker_inv_reachable in Hr.
  rewrite record_violation_eq in E by done.
  destruct (negb (enabled (config t)) || is_loopback ip || is_quarantined t ip now1) eqn:Eg; [done|].
  apply orb_false_elim in Eg as [Eg _]. apply orb_false_elim in Eg as [_ Eloop]. cbn zeta in E.
  pose proof (next_entry_inv t clock h ip weight now Hr ltac:(lia) Hw) as (Hn1 & Hn2 & Hn3). specialize (Hn3 Hwin).
  set (n := next_entry t ip weight now) in *.
  destruct (Z.leb_spec (max_violations (config t)) (vs_count n)) as [Hle|]; [|done].
  unfold quarantine_internal in E. cbn [fst snd] in E. injection E as <- <-. split.
  - exists (window_start n). unfold duration_since in Hn3. split; [done|]. split; [lia|]. lia.
  - assert (Hmax : Z.max (ban_duration_seconds (config t)) 1 = ban_duration_seconds (config t)) by lia.
    cbn [q_ip q_remaining_seconds]. rewrite Hmax, notify_violations.
    cbn [violations set_bans set_violations]. rewrite lookup_delete_eq. split; [|auto].
    intros later. unfold is_quarantined. rewrite Eloop, notify_bans. cbn [active_bans set_bans].
    by rewrite lookup_insert_eq.
Qed.

(** The memory of the tracker is bounded: however many clients misbehave, it never holds more
    than 10000 counters. *)
Theorem violations_bounded c t clock h :
  rtc (tracker_step iter) (tracker_new c, 0, []) (t, clock, h) -> Z.of_nat (size (violations t)) <= 10000.
Proof.
  intros Hr. destruct (tracker_inv_reachable _ _ Hr) as [Hs _ _]. cbn [fst snd] in Hs.
  apply Nat2Z.inj_le in Hs. etrans; [exact Hs|]. by vm_compute.
Qed.
End Facts.

(** Violations of weight one of one client, by their times in seconds. *)
Fixpoint record_all (ip : IpAddr) (times : list Z) (t : AutoQuarantineTracker) : AutoQuarantineTracker :=
  match times with
  | [] => t
  | s :: rest => record_all ip rest
      (record_violation map_to_list ip "404" 1 (from_secs s) (from_secs s) 0 t).2
  end.

(** A tracker that counts one client and has not banned it. *)
Definition counts_only (c : AutoQuarantineConfig) (ip : IpAddr) (st : IpViolationState)
    (t : AutoQuarantineTracker) : Prop :=
  config t = c /\ violations t = {[ip := st]} /\ active_bans t !! ip = None.

Lemma prune_small m now w :
  (size m < 2)%nat ->
  prune_violations map_to_list m now w = filter (fun kv => in_window now w kv.2 = true) m.
Proof.
  intros Hs. unfold prune_violations. cbn zeta.
  assert (Hf : (size (filter (fun kv : IpAddr * IpViolationState => in_window now w kv.2 = true) m) <= size m)%nat)
    by apply map_subseteq_size, map_filter_subseteq.
  destruct (Nat.leb_spec MAX_VIOLATION_ENTRIES (size (filter (fun kv => in_window now w kv.2 = true) m))) as [H|]; [|done].
  assert (H2 : (2 <= MAX_VIOLATION_ENTRIES)%nat) by (apply Nat.leb_le; reflexivity). lia.
Qed.

(** One violation below the threshold: it is added within the window of the counter, and starts
    a new counter after it. *)
Lemma record_one c ip t n start s :
  enabled c = true -> is_loopback ip = false -> 0 < window_seconds c -> max_violations c <= u32_max ->
  counts_only c ip (mkIpViolationState n (from_secs start)) t -> 0 <= n -> start <= s ->
  let live := s - start <? window_seconds c in
  (if live then n else 0) + 1 < max_violations c ->
  counts_only c ip (mkIpViolationState ((if live then n else 0) + 1) (from_secs (if live then start else s)))
    (record_violation map_to_list ip "404" 1 (from_secs s) (from_secs s) 0 t).2.
Proof.
  intros He Hl Hw Hu (Hc & Hv & Hb) Hn Hs live Hlt.
  rewrite record_violation_eq by (by rewrite Hc). unfold is_quarantined. rewrite Hc, He, Hl, Hb. cbn [negb orb].
  cbn zeta. unfold next_entry. rewrite Hc, Hv, prune_small by (rewrite map_size_singleton; lia).
  assert (Hin : in_window (from_secs s) (window_seconds c) (mkIpViolationState n (from_secs start)) = live).
  { unfold in_window, live, as_secs, duration_since, from_secs. cbn [window_start].
    rewrite Z.max_l by lia. rewrite <-Z.mul_sub_distr_r, Z.div_mul by lia. done. }
  destruct live.
  - rewrite map_filter_singleton_True by done. rewrite lookup_singleton_eq. cbn [unwrap_or vs_count window_start].
    unfold sat_add. rewrite Z.min_l by lia. destruct (Z.leb_spec (max_violations c) (n + 1)); [lia|].
    split; [done|]. cbn [violations set_violations snd]. split; [apply insert_singleton_eq|done].
  - rewrite map_filter_singleton_False by (cbn; by rewrite Hin). rewrite lookup_empty. cbn [unwrap_or vs_count window_start].
    unfold sat_add. rewrite Z.min_l by lia. destruct (Z.leb_spec (max_violations c) (0 + 1)); [lia|].
    split; [done|]. cbn [violations set_violations snd]. split; [apply insert_empty|done].
Qed.

(** Violations at one time within the window of the counter. *)
Lemma record_many c ip k start s :
  enabled c = true -> is_loopback ip = false -> 0 < window_seconds c -> max_violations c <= u32_max ->
  start <= s -> s - start < window_seconds c -> forall t n,
  counts_only c ip (mkIpViolationState n (from_secs start)) t -> 0 <= n -> n + Z.of_nat k < max_violations c ->
  counts_only c ip (mkIpViolationState (n + Z.of_nat k) (from_secs start)) (record_all ip (replicate k s) t).
Proof.
  intros He Hl Hw Hu Hs Hlive. induction k as [|k IH]; intros t n Ht Hn Hlt; [by rewrite Z.add_0_r|].
  cbn [replicate record_all]. pose proof (record_one c ip t n start s He Hl Hw Hu Ht Hn Hs) as H1. cbv zeta in H1.
  destruct (Z.ltb_spec (s - start) (window_seconds c)); [|lia].
  specialize (H1 ltac:(lia)). apply IH in H1; [|lia..].
  by replace (n + Z.of_nat (S k)) with (n + 1 + Z.of_nat k) by lia.
Qed.

Lemma record_all_app ip l1 l2 t : record_all ip (l1 ++ l2) t = record_all ip l2 (record_all ip l1 t).
Proof. revert t. induction l1 as [|s l1 IH]; intros t; [done|]. cbn. apply IH. Qed.

Lemma weight_since_replicate ip from k s :
  from <= s ->
  weight_since ip (from_secs from) (map (fun s => mkViolation ip 1 (from_secs s)) (replicate k s)) = Z.of_nat k.
Proof.
  intros Hs. induction k as [|k IH]; [done|]. unfold weight_since in *. cbn [replicate map sumZ v_ip v_time v_weight].
  rewrite bool_decide_true by done. destruct (Z.leb_spec (from_secs from) (from_secs s)) as [|H]; [|unfold from_secs in H; lia].
  cbn [andb]. rewrite IH. lia.
Qed.

(** The window does not slide.  For every threshold of at least two and every window, a
    client that probes once, then [max_violations - 2] times in the last second of the window and
    [max_violations - 1] times when it is over has almost twice as many violations within one
    second as the threshold allows in a whole window, and is not banned: the counter starts again
    one window after its first violation. *)
Theorem window_does_not_slide c ip :
  enabled c = true -> is_loopback ip = false ->
  0 < window_seconds c -> 2 <= max_violations c <= u32_max ->
  let w := window_seconds c in
  let late := replicate (Z.to_nat (max_violations c - 2)) (w - 1) ++ replicate (Z.to_nat (max_violations c - 1)) w in
  weight_since ip (from_secs (w - 1)) (map (fun s => mkViolation ip 1 (from_secs s)) late)
  = 2 * max_violations c - 3
  /\ is_quarantined (record_all ip (0 :: late) (tracker_new c)) ip (from_secs w) = false.
Proof.
  intros He Hl Hw Hm w late. unfold late. split.
  { rewrite map_app, weight_since_app, !weight_since_replicate by lia. lia. }
  destruct (Z.to_nat (max_violations c - 1)) as [|k] eqn:Ek; [lia|].
  assert (H0 : counts_only c ip (mkIpViolationState 1 (from_secs 0))
                 (record_violation map_to_list ip "404" 1 (from_secs 0) (from_secs 0) 0 (tracker_new c)).2).
  { rewrite record_violation_eq by done. unfold is_quarantined. cbn [config tracker_new active_bans violations].
    rewrite He, Hl, lookup_empty. cbn [negb orb]. cbn zeta. unfold next_entry. cbn [config violations tracker_new].
    rewrite prune_small by (rewrite map_size_empty; lia). rewrite map_filter_empty, lookup_empty.
    cbn [unwrap_or vs_count window_start]. unfold sat_add, u32_max. rewrite Z.min_l by lia.
    destruct (Z.leb_spec (max_violations c) (0 + 1)); [lia|].
    split; [done|]. cbn [violations set_violations snd]. split; [apply insert_empty|apply lookup_empty]. }
  cbn [record_all]. rewrite record_all_app.
  apply (record_many c ip (Z.to_nat (max_violations c - 2)) 0 (w - 1)) in H0; try done; try lia.
  cbn [replicate record_all]. unfold w in *.
  pose proof (record_one c ip _ _ 0 (window_seconds c) He Hl Hw ltac:(lia) H0 ltac:(lia) ltac:(lia)) as H1. cbv zeta in H1.
  rewrite Z.sub_0_r, Z.ltb_irrefl in H1. specialize (H1 ltac:(lia)).
  apply (record_many c ip k (window_seconds c) (window_seconds c)) in H1; try done; try lia.
  destruct H1 as (_ & _ & Hb). unfold is_quarantined. by rewrite Hl, Hb.
Qed.

Lemma record_all_rtc ip times c :
  Forall (fun s => 0 <= s) times -> StronglySorted Z.le times ->
  forall t clock h, rtc (tracker_step map_to_list) (tracker_new c, 0, []) (t, from_secs clock, h) ->
  Forall (Z.le clock) times ->
  exists h' clock', rtc (tracker_step map_to_list) (tracker_new c, 0, []) (record_all ip times t, from_secs clock', h')
    /\ (clock' = clock \/ clock' ∈ times).
Proof.
  intros _. induction 1 as [|s times Hs IH Hle]; intros t clock h Hr Hc; [exists h, clock; auto|].
  inversion Hc as [|? ? Hcs Hcr]; subst. cbn [record_all].
  destruct (record_violation map_to_list ip "404" 1 (from_secs s) (from_secs s) 0 t) as [e t'] eqn:E.
  edestruct (IH t' s (h ++ [mkViolation ip 1 (from_secs s)])) as (h' & clock' & Hr' & Hin).
  - eapply rtc_r; [exact Hr|]. apply (ts_record _ t _ h ip "404" 1 (from_secs s) (from_secs s) 0 e t'); [|lia|exact E].
    unfold from_secs. lia.
  - done.
  - exists h', clock'. split; [exact Hr'|]. right. destruct Hin as [->|Hin]; [by left|by right].
Qed.

Lemma auto_ban_justified_witness :
  let ip := V4 3405803785 in
  let t := record_all ip [0; 1; 2; 3] (tracker_new AutoQuarantineConfig_default) in
  exists e t', record_violation map_to_list ip "404" 1 (from_secs 4) (from_secs 4) 0 t = (Some e, t')
    /\ is_quarantined t' ip (from_secs 3603) = true /\ is_quarantined t' ip (from_secs 3604) = false.
Proof.
  intros ip t.
  destruct (record_violation map_to_list ip "404" 1 (from_secs 4) (from_secs 4) 0 t) as [[e|] t'] eqn:E;
    [|exfalso; by vm_compute in E].
  exists e, t'. split; [done|].
  destruct (record_all_rtc ip [0; 1; 2; 3] AutoQuarantineConfig_default ltac:(repeat constructor; lia)
              ltac:(repeat constructor; lia) (tracker_new AutoQuarantineConfig_default) 0 [] (rtc_refl _ _)
              ltac:(repeat constructor; lia)) as (h & clock & Hr & Hclock).
  destruct (auto_ban_justified map_to_list (fun m => Permutation_refl (map_to_list m)) AutoQuarantineConfig_default
              t (from_secs clock) h ip "404" 1 (from_secs 4) (from_secs 4) 0 e t' Hr) as (_ & Hq & _).
  - assert (clock <= 4); [|unfold from_secs; lia].
    destruct Hclock as [->|Hin]; [lia|].
    refine (proj1 (Forall_forall (fun s => s <= 4) [0; 1; 2; 3]) _ clock Hin). repeat constructor; lia.
  - lia.
  - by vm_compute.
  - by vm_compute.
  - exact E.
  - rewrite !Hq. split; vm_compute; reflexivity.
Defined.

Lemma violations_bounded_witness :
  let t := record_all (V4 3405803785) [0; 1] (tracker_new AutoQuarantineConfig_default) in
  Z.of_nat (size (violations t)) = 1 /\ Z.of_nat (size (violations t)) <= 10000.
Proof.
  intros t. split; [by vm_compute|].
  destruct (record_all_rtc (V4 3405803785) [0; 1] AutoQuarantineConfig_default ltac:(repeat constructor; lia)
              ltac:(repeat constructor; lia) (tracker_new AutoQuarantineConfig_default) 0 [] (rtc_refl _ _)
              ltac:(repeat constructor; lia)) as (h & clock & Hr & _).
  exact (violations_bounded map_to_list (fun m => Permutation_refl (map_to_list m)) _ _ _ _ Hr).
Defined.

(** With the defaults: seven violations within one second, and no ban at a threshold of five. *)
Lemma window_does_not_slide_witness :
  let late := replicate 3 59 ++ replicate 4 60 in
  weight_since (V4 3405803785) (from_secs 59) (map (fun s => mkViolation (V4 3405803785) 1 (from_secs s)) late) = 7
  /\ is_quarantined (record_all (V4 3405803785) (0 :: late) (tracker_new AutoQuarantineConfig_default))
       (V4 3405803785) (from_secs 60) = false.
Proof.
  apply (window_does_not_slide AutoQuarantineConfig_default (V4 3405803785)); vm_compute; done.
Defined.
