(* ===== verification/Headers.v ===== *)
(** * HTTP headers

    The header map of the [http] crate as an interface, and the readers of header values that
    [proxy/http/compression.rs] gives to the other modules.  Names are in lower case, as
    [HeaderName] keeps them; values are byte strings. *)

From Stdlib Require Import Ascii.
From S2P Require Import Prelude IpText.

(** What the code uses of [HeaderMap], [HeaderName] and [HeaderValue]. *)
Class HeaderOps : Type := {
  Headers : Type;
  h_empty : Headers;
  h_get : Headers -> string -> option string;
  h_get_all : Headers -> string -> list string;
  h_contains : Headers -> string -> bool;
  h_keys : Headers -> list string;
  h_iter : Headers -> list (string * string);
  h_remove : string -> Headers -> Headers;
  h_append : string -> string -> Headers -> Headers;
  h_insert : string -> string -> Headers -> Headers;
  to_str : string -> option string;
  name_from_bytes : string -> option string;
  value_from_str : string -> option string;
}.

(** The documented behaviour of the crate: [get] returns the first value, [append] adds a value
    after the ones of its name, [insert] replaces them, [keys] yields each name once, and
    [to_str] does not change the bytes. *)
Class HeaderLaws (H : HeaderOps) : Prop := {
  get_first h n : h_get h n = hd_error (h_get_all h n);
  contains_some h n : h_contains h n = true <-> h_get_all h n <> [];
  keys_spec h n : n ∈ h_keys h <-> h_get_all h n <> [];
  keys_nodup h : NoDup (h_keys h);
  get_all_empty n : h_get_all h_empty n = [];
  get_all_remove h n m : h_get_all (h_remove n h) m = if decide (m = n) then [] else h_get_all h m;
  get_all_append h n v m :
    h_get_all (h_append n v h) m = if decide (m = n) then h_get_all h m ++ [v] else h_get_all h m;
  get_all_insert h n v m : h_get_all (h_insert n v h) m = if decide (m = n) then [v] else h_get_all h m;
  to_str_same v s : to_str v = Some s -> s = v;
}.

Section Readers.
Context `{HDR : HeaderOps}.

(** [Iterator::flat_map] over the values that are text, split at commas and trimmed. *)
Definition header_items (h : Headers) (name : string) : list string :=
  map trim (flat_map (fun v => match to_str v with Some s => split_on "," s | None => [] end) (h_get_all h name)).

Definition header_number (h : Headers) (name : string) : option Z :=
  match h_get h name with
  | Some v => match to_str v with Some s => parse_uint u64_max (trim s) | None => None end
  | None => None
  end.
End Readers.

(** ** Facts *)

Section Facts.
Context `{HDR : HeaderOps} {LAWS : HeaderLaws HDR}.

Lemma contains_get_all h n : h_contains h n = negb (bool_decide (h_get_all h n = [])).
Proof.
  destruct (h_contains h n) eqn:E.
  - apply contains_some in E. by rewrite bool_decide_false.
  - destruct (decide (h_get_all h n = [])) as [->|Hne]; [done|]. apply contains_some in Hne. congruence.
Qed.

(** What only depends on the values of one name. *)
Lemma header_items_ext h h' n : h_get_all h n = h_get_all h' n -> header_items h n = header_items h' n.
Proof. unfold header_items. by intros ->. Qed.
End Facts.

(** ** A plain instance: the list of the fields in their order *)

Definition is_field (n : string) (e : string * string) : bool := bool_decide (e.1 = n).

Definition field_values (n : string) (h : list (string * string)) : list string := map snd (List.filter (is_field n) h).

Definition plain_header_ops : HeaderOps := {|
  Headers := list (string * string);
  h_empty := [];
  h_get h n := hd_error (field_values n h);
  h_get_all h n := field_values n h;
  h_contains h n := negb (bool_decide (field_values n h = []));
  h_keys h := remove_dups (map fst h);
  h_iter h := h;
  h_remove n h := List.filter (fun e => negb (is_field n e)) h;
  h_append n v h := h ++ [(n, v)];
  h_insert n v h := List.filter (fun e => negb (is_field n e)) h ++ [(n, v)];
  to_str v := if str_forallb (fun c => is_ascii_graphic c || Ascii.eqb c " ") v then Some v else None;
  name_from_bytes n := if str_is_empty n then None else Some (to_ascii_lowercase n);
  value_from_str v := Some v;
|}.

Lemma field_values_app n h1 h2 : field_values n (h1 ++ h2) = field_values n h1 ++ field_values n h2.
Proof. unfold field_values. by rewrite List.filter_app, map_app. Qed.

Lemma field_values_remove n m h :
  field_values m (List.filter (fun e => negb (is_field n e)) h) = if decide (m = n) then [] else field_values m h.
Proof.
  unfold field_values, is_field. induction h as [|[k v] h IH]; cbn [List.filter map fst]; [by destruct (decide _)|].
  destruct (decide (m = n)) as [Emn|Hne].
  - subst m. destruct (decide (k = n)) as [Ek|Hk].
    + rewrite (bool_decide_true (k = n)) by done. cbn [negb]. apply IH.
    + rewrite (bool_decide_false (k = n)) by done. cbn [negb List.filter fst]. rewrite bool_decide_false by done. apply IH.
  - destruct (decide (k = n)) as [Ek|Hk].
    + subst k. rewrite (bool_decide_true (n = n)), (bool_decide_false (n = m)) by congruence. cbn [negb]. apply IH.
    + rewrite (bool_decide_false (k = n)) by done. cbn [negb List.filter fst].
      destruct (bool_decide (k = m)); cbn [map snd]; by rewrite IH.
Qed.

#[export] Instance plain_header_laws : HeaderLaws plain_header_ops.
Proof.
  split; cbn -[field_values].
  - done.
  - intros h n. destruct (decide (field_values n h = [])) as [->|Hne].
    + rewrite bool_decide_true by done. cbn. split; done.
    + rewrite bool_decide_false by done. cbn. split; done.
  - intros h n. rewrite elem_of_remove_dups. unfold field_values, is_field.
    induction h as [|[k v] h IH]; cbn [map List.filter fst]; [by rewrite elem_of_nil|].
    rewrite elem_of_cons, IH. destruct (decide (k = n)) as [->|Hk].
    + rewrite bool_decide_true by done. cbn. split; [done|]. by left.
    + rewrite bool_decide_false by done. split; [intros [->|]; done|by right].
  - intros h. apply NoDup_remove_dups.
  - done.
  - intros h n m. apply field_values_remove.
  - intros h n v m. rewrite field_values_app. unfold field_values at 2, is_field. cbn.
    destruct (decide (m = n)) as [->|Hne]; [by rewrite bool_decide_true|].
    rewrite bool_decide_false by congruence. cbn. by rewrite app_nil_r.
  - intros h n v m. rewrite field_values_app, field_values_remove. unfold field_values, is_field. cbn.
    destruct (decide (m = n)) as [->|Hne]; [by rewrite bool_decide_true|].
    rewrite bool_decide_false by congruence. cbn. by rewrite app_nil_r.
  - intros v s. destruct (str_forallb _ v); [by intros [= ->]|done].
Qed.
