(* ===== verification/Cache.v ===== *)
(** * The HTTP cache

    The configuration of [r3v3rs3-api/src/cache.rs], the rules and the store of
    [proxy/http/cache.rs] and the share of a cluster in [proxy/http/cache_share.rs].

    The first part has the rules of RFC 9111 as the code reads them from the headers; the second
    the state of one cache and the requests that run on it.  Dates (the [httpdate] crate) are an
    argument.  The bounded map (the [moka] crate) is a finite map whose entries may be evicted at
    any time and are not returned after their lifetime. *)

From Stdlib Require Import Ascii.
From S2P Require Import Prelude Basics IpText Net Headers.

(** ** Configuration *)

Record CacheConfig : Type := mkCacheConfig {
  cache_enabled : bool;
  max_size : Z;
  max_entry_size : Z;
  default_ttl : Duration;
  stale_while_revalidate : Duration;
}.

Definition DEFAULT_MAX_SIZE : Z := 64 * 1024 * 1024.
Definition DEFAULT_MAX_ENTRY_SIZE : Z := 1024 * 1024.

Definition CacheConfig_default : CacheConfig :=
  mkCacheConfig false DEFAULT_MAX_SIZE DEFAULT_MAX_ENTRY_SIZE 0 0.

Definition CacheConfig_is_disabled (c : CacheConfig) : bool := negb (cache_enabled c).

Definition CacheConfig_validate (c : CacheConfig) : result unit Error :=
  let valid := (0 <? max_entry_size c) && (max_entry_size c <=? max_size c) && (max_entry_size c <=? u32_max) in
  if cache_enabled c && negb valid then Err InvalidCacheSize else Ok tt.

(** ** Keys *)

Definition extract_key_path (key : string) : string :=
  match split_once " " key with
  | Some (_, rest) => match split_once " " rest with Some (_, path) => path | None => rest end
  | None => key
  end.

Definition extract_key_host (key : string) : string :=
  match split_once " " key with
  | Some (first, rest) => match split_once " " rest with Some (host, _) => host | None => first end
  | None => ""
  end.

(** ** Text *)

(** [str::trim_matches] with one character. *)
Fixpoint trim_end_char (c : ascii) (s : string) : string :=
  if str_forallb (Ascii.eqb c) s then ""
  else match s with EmptyString => "" | String a r => String a (trim_end_char c r) end.
Definition trim_char (c : ascii) (s : string) : string := trim_end_char c (trim_start_matches (Ascii.eqb c) s).

(** [Iterator::collect] into an [Option]. *)
Fixpoint collect_option {A} (l : list (option A)) : option (list A) :=
  match l with
  | [] => Some []
  | Some a :: r => match collect_option r with Some v => Some (a :: v) | None => None end
  | None :: _ => None
  end.

Inductive Method : Type := GET | HEAD | OPTIONS | TRACE | OtherMethod.
#[export] Instance Method_eq_dec : EqDecision Method. Proof. solve_decision. Defined.

Definition bytes := list Z.
Definition blen (b : bytes) : Z := Z.of_nat (length b).

(** [SystemTime] in nanoseconds since the Unix epoch. *)
Definition SystemTime := Z.

(** What the code uses of the [httpdate] and the [base64] crates. *)
Class CacheCodecs : Type := {
  parse_http_date : string -> option SystemTime;
  b64_encode : bytes -> string;
  b64_decode : string -> option bytes;
}.

Section Rules.
Context `{HDR : HeaderOps} `{CODECS : CacheCodecs}.

Definition is_unsafe_method (m : Method) : bool :=
  match m with GET | HEAD | OPTIONS | TRACE => false | OtherMethod => true end.

(** The part of an item before its first [=]. *)
Definition directive_name (item : string) : string := trim (hd "" (split_on "=" item)).

Definition has_directive (h : Headers) (name directive : string) : bool :=
  existsb (fun item => eq_ignore_ascii_case (directive_name item) directive) (header_items h name).

Definition is_lookup_allowed (h : Headers) : bool :=
  negb (has_directive h "cache-control" "no-cache") && negb (has_directive h "pragma" "no-cache").

Definition is_cacheable_request (m : Method) (h : Headers) : bool :=
  match m with GET | HEAD => true | _ => false end
  && negb (h_contains h "range") && negb (h_contains h "upgrade")
  && negb (has_directive h "cache-control" "no-store").

Definition is_chunked (h : Headers) : bool :=
  existsb (fun v => match to_str v with Some s => eq_ignore_ascii_case s "chunked" | None => false end)
    (h_get_all h "transfer-encoding").

Definition has_validator (h : Headers) : bool := h_contains h "etag" || h_contains h "last-modified".

Definition CACHEABLE_STATUSES : list Z := [200; 203; 204; 300; 301; 308; 404; 405; 410; 414; 501].

Definition allows_authorized (h : Headers) : bool :=
  existsb (has_directive h "cache-control") ["public"; "s-maxage"; "must-revalidate"].

Definition is_storable (status : Z) (h : Headers) (authorized : bool) : bool :=
  existsb (Z.eqb status) CACHEABLE_STATUSES
  && negb (has_directive h "cache-control" "no-store")
  && negb (has_directive h "cache-control" "private")
  && negb (h_contains h "set-cookie")
  && (negb authorized || allows_authorized h).

Definition is_storable_304 (h : Headers) (authorized : bool) : bool :=
  if has_directive h "cache-control" "no-store" || has_directive h "cache-control" "private"
     || h_contains h "set-cookie"
  then false
  else negb authorized || allows_authorized h.

Definition directive_item (directive item : string) : option Duration :=
  match split_once "=" item with
  | None => None
  | Some (name, value) =>
      if negb (eq_ignore_ascii_case (trim name) directive) then None
      else option_map from_secs (parse_uint u64_max (trim_char "034" (trim value)))
  end.

Definition directive_seconds (h : Headers) (directive : string) : option Duration :=
  find_map (directive_item directive) (header_items h "cache-control").

Definition header_time (v : option string) : option SystemTime :=
  match v with
  | Some v => match to_str v with Some s => parse_http_date s | None => None end
  | None => None
  end.

(** [now] is the system time that the code reads when there is no valid [Date]. *)
Definition expires_lifetime (h : Headers) (now : SystemTime) : option Duration :=
  match h_get h "expires" with
  | None => None
  | Some expires =>
      let date := unwrap_or (header_time (h_get h "date")) now in
      Some (match header_time (Some expires) with
            | Some expires => if date <=? expires then expires - date else 0
            | None => 0
            end)
  end.

Definition freshness (h : Headers) (ttl : Duration) (now : SystemTime) : Duration :=
  if has_directive h "cache-control" "no-cache" then 0
  else match directive_seconds h "s-maxage" with
       | Some d => d
       | None => match directive_seconds h "max-age" with
                 | Some d => d
                 | None => unwrap_or (expires_lifetime h now) ttl
                 end
       end.

Definition age (h : Headers) : Duration := map_or (header_number h "age") 0 from_secs.

Definition content_length (h : Headers) : option Z := header_number h "content-length".

Definition vary_values (response request : Headers) : option (list (string * option string)) :=
  collect_option
    (map (fun name => if String.eqb name "*" then None
                      else match name_from_bytes name with
                           | Some name => Some (name, h_get request name)
                           | None => None
                           end)
       (List.filter (fun name => negb (str_is_empty name)) (header_items response "vary"))).

Definition weak_tag (tag : string) : string := unwrap_or (strip_prefix "W/" tag) tag.

Definition etag_matches (condition etag : string) : bool :=
  match to_str condition with
  | Some condition =>
      existsb (fun tag => String.eqb tag "*" || String.eqb (weak_tag tag) (weak_tag etag))
        (map trim (split_on "," condition))
  | None => false
  end.

Definition is_not_modified (request stored : Headers) : bool :=
  match h_get request "if-none-match" with
  | Some condition => is_some_and (etag_matches condition) (h_get stored "etag")
  | None =>
      match header_time (h_get request "if-modified-since"), header_time (h_get stored "last-modified") with
      | Some since, Some modified => modified <=? since
      | _, _ => false
      end
  end.

Definition set_validators (h stored : Headers) : Headers :=
  let h := h_remove "if-modified-since" (h_remove "if-none-match" h) in
  let h := match h_get stored "etag" with Some etag => h_insert "if-none-match" etag h | None => h end in
  match h_get stored "last-modified" with Some m => h_insert "if-modified-since" m h | None => h end.

(** ** Stored responses *)

Record StoredHead : Type := mkStoredHead {
  status : Z;
  headers : Headers;
  vary : list (string * option string);
  initial_age : Duration;
  head_freshness : Duration;
}.

Record CachedResponse : Type := mkCachedResponse {
  head : StoredHead;
  body : bytes;
  stored_at : Instant;
}.

Definition weight (e : CachedResponse) : Z :=
  blen (body e)
  + sumZ (fun nv => Z.of_nat (String.length nv.1) + Z.of_nat (String.length nv.2)) (h_iter (headers (head e))).

(** The code panics when the sum is above [Duration::MAX]. *)
Definition response_age (e : CachedResponse) (now : Instant) : Duration :=
  initial_age (head e) + duration_since now (stored_at e).

Definition is_fresh (e : CachedResponse) (now : Instant) : bool :=
  response_age e now <? head_freshness (head e).

Definition swr_of (e : CachedResponse) (config_swr : Duration) : Duration :=
  unwrap_or (directive_seconds (headers (head e)) "stale-while-revalidate") config_swr.

Definition is_stale_revalidatable (e : CachedResponse) (config_swr : Duration) (now : Instant) : bool :=
  let swr := swr_of e config_swr in
  if is_zero swr then false
  else (head_freshness (head e) <=? response_age e now) && (response_age e now <? head_freshness (head e) + swr).

Definition matches (e : CachedResponse) (request : Headers) : bool :=
  forallb (fun nv => bool_decide (h_get request nv.1 = nv.2)) (vary (head e)).

Definition REVALIDATION_WINDOW : Duration := from_secs 3600.

(** [EntryExpiry::lifetime]; the code panics when the sum is above [Duration::MAX]. *)
Definition lifetime (default_swr : Duration) (e : CachedResponse) : Duration :=
  let window := if has_validator (headers (head e)) then REVALIDATION_WINDOW else 0 in
  sat_sub (head_freshness (head e)) (initial_age (head e)) + swr_of e default_swr + window.

Definition DURATION_MAX : Duration := from_secs u64_max + 999999999.

Definition merge_304_headers (e : CachedResponse) (h : Headers) (ttl : Duration) (filter_cookie : bool)
    (now : Instant) (system_now : SystemTime) : CachedResponse :=
  let names := List.filter (fun name => negb (String.eqb name "content-length")
                                        && (negb filter_cookie || negb (String.eqb name "set-cookie"))) (h_keys h) in
  let merged := fold_left (fun acc name => fold_left (fun acc v => h_append name v acc) (h_get_all h name) (h_remove name acc))
                  names (headers (head e)) in
  mkCachedResponse
    (mkStoredHead (status (head e)) merged (vary (head e)) (age h) (freshness merged ttl system_now))
    (body e) now.
End Rules.
