(* ===== verification/CacheStore.v ===== *)
(** * The state of the HTTP cache

    [proxy/http/cache.rs]: the entries of one cache, the requests that read and fill it, the
    recorder that copies a body, the flights that join requests for one key, and the background
    revalidations; and the share of a cluster in [proxy/http/cache_share.rs].

    A run interleaves the tasks of the requests.  Each task is a token; a step is what one task
    does between two points where it waits. *)

From Stdlib Require Import Ascii.
From S2P Require Import Prelude Basics IpText Net Headers Cache.

(** ** The share of a cluster *)

Record SharedResponse : Type := mkSharedResponse {
  sr_status : Z;
  sr_headers : list (string * string);
  sr_vary : list (string * option string);
  sr_initial_age : Z;
  sr_freshness : Z;
  sr_stored_at : Z;
  sr_body : string;
}.

Definition MIN_SHARED_FRESHNESS : Duration := from_secs 60.
Definition WRITE_QUEUE : nat := 64.
Definition ENTRY_OVERHEAD : Z := 256.

Definition str_len (s : string) : Z := Z.of_nat (String.length s).

(** [as_millis() as u64] of the sum of the remaining freshness and the window. *)
Definition expires_at (r : SharedResponse) : Z :=
  let lifetime := from_secs (sat_sub (sr_freshness r) (sr_initial_age r)) + REVALIDATION_WINDOW in
  sat_add u64_max (sr_stored_at r) (wrap64 (lifetime / 1000000)).

Definition SharedResponse_size (r : SharedResponse) : Z :=
  str_len (sr_body r) + sumZ (fun nv => str_len nv.1 + str_len nv.2) (sr_headers r) + ENTRY_OVERHEAD.

Inductive ShareCommand : Type :=
| Put (key : string) (r : SharedResponse)
| Delete (key : string).

(** [max_value] is the answer of the store's [max_value_size], and [queue] the commands that the
    writing task has not taken yet. *)
Record CacheShare : Type := mkCacheShare {
  max_value : Z;
  share_max_size : Z;
  purged_at : Z;
  current_size : Z;
  queue : list ShareCommand;
}.

Definition CacheShare_new (max_value purged_at max_size : Z) : CacheShare :=
  mkCacheShare max_value max_size purged_at 0 [].

Definition accepts (s : CacheShare) (remaining_freshness : Duration) (body_len : Z) : bool :=
  let encoded_len := (body_len + 2) / 3 * 4 in
  let entry_size := encoded_len + ENTRY_OVERHEAD in
  (MIN_SHARED_FRESHNESS <=? remaining_freshness) && (entry_size <=? max_value s)
  && (sat_add u64_max (current_size s) entry_size <=? share_max_size s).

Definition try_send (c : ShareCommand) (s : CacheShare) : option CacheShare :=
  if Nat.ltb (length (queue s)) WRITE_QUEUE
  then Some (mkCacheShare (max_value s) (share_max_size s) (purged_at s) (current_size s) (queue s ++ [c]))
  else None.

(** [fetch_add] wraps. *)
Definition offer (key : string) (r : SharedResponse) (s : CacheShare) : CacheShare :=
  let size := SharedResponse_size r in
  if (max_value s <? size) || (sr_stored_at r <? purged_at s) then s
  else if share_max_size s <? sat_add u64_max (current_size s) size then s
  else match try_send (Put key r) s with
       | None => s
       | Some s => mkCacheShare (max_value s) (share_max_size s) (purged_at s) (wrap64 (current_size s + size)) (queue s)
       end.

Definition share_invalidate (key : string) (s : CacheShare) : CacheShare :=
  unwrap_or (try_send (Delete key) s) s.

(** [answer] is what the store returned within the timeout. *)
Definition share_lookup (answer : option SharedResponse) (s : CacheShare) : option SharedResponse :=
  match answer with
  | Some r => if purged_at s <=? sr_stored_at r then Some r else None
  | None => None
  end.

Definition share_purge (at_ms : Z) (s : CacheShare) : CacheShare :=
  mkCacheShare (max_value s) (share_max_size s) (Z.max (purged_at s) at_ms) 0 (queue s).

(** The writing task takes one command. *)
Definition write_response (s : CacheShare) : CacheShare :=
  mkCacheShare (max_value s) (share_max_size s) (purged_at s) (current_size s) (tail (queue s)).

Section Store.
Context `{HDR : HeaderOps} `{CODECS : CacheCodecs}.

Definition to_shared (e : CachedResponse) (stored_at_ms : Z) : option SharedResponse :=
  match collect_option (map (fun nv => option_map (pair nv.1) (to_str nv.2)) (h_iter (headers (head e)))),
        collect_option (map (fun nv => match nv.2 with
                                       | None => Some (nv.1, None)
                                       | Some v => option_map (fun s => (nv.1, Some s)) (to_str v)
                                       end) (vary (head e))) with
  | Some hs, Some vs =>
      Some (mkSharedResponse (status (head e)) hs vs (initial_age (head e) / 1000000000)
              (head_freshness (head e) / 1000000000) stored_at_ms (b64_encode (body e)))
  | _, _ => None
  end.

(** [None] for a header, a status or a body that does not parse. *)
Definition from_shared (r : SharedResponse) (now_ms : Z) (now : Instant) : option CachedResponse :=
  let add acc nv := match acc, name_from_bytes nv.1, value_from_str nv.2 with
                    | Some h, Some n, Some v => Some (h_append n v h)
                    | _, _, _ => None
                    end in
  match fold_left add (sr_headers r) (Some h_empty),
        collect_option (map (fun nv => match name_from_bytes nv.1, nv.2 with
                                       | Some n, None => Some (n, None)
                                       | Some n, Some v => option_map (fun v => (n, Some v)) (value_from_str v)
                                       | None, _ => None
                                       end) (sr_vary r)),
        b64_decode (sr_body r) with
  | Some h, Some vs, Some b =>
      if (100 <=? sr_status r) && (sr_status r <=? 999) then
        Some (mkCachedResponse
                (mkStoredHead (sr_status r) h vs
                   (from_secs (sr_initial_age r) + from_millis (sat_sub now_ms (sr_stored_at r)))
                   (from_secs (sr_freshness r)))
                b now)
      else None
  | _, _, _ => None
  end.

(** ** The cache *)

(** [entries] maps a key to its response and the instant after which the map does not return
    it. *)
Record HttpCache : Type := mkHttpCache {
  config : CacheConfig;
  entries : gmap string (CachedResponse * Instant);
  share : option CacheShare;
  revalidating : gset string;
  in_flight : gset string;
}.

Definition HttpCache_new (c : CacheConfig) (s : option CacheShare) : HttpCache := mkHttpCache c ∅ s ∅ ∅.

Definition set_entries (m : gmap string (CachedResponse * Instant)) (c : HttpCache) : HttpCache :=
  mkHttpCache (config c) m (share c) (revalidating c) (in_flight c).
Definition set_share (s : option CacheShare) (c : HttpCache) : HttpCache :=
  mkHttpCache (config c) (entries c) s (revalidating c) (in_flight c).
Definition set_revalidating (r : gset string) (c : HttpCache) : HttpCache :=
  mkHttpCache (config c) (entries c) (share c) r (in_flight c).
Definition set_in_flight (f : gset string) (c : HttpCache) : HttpCache :=
  mkHttpCache (config c) (entries c) (share c) (revalidating c) f.

Definition entries_get (key : string) (now : Instant) (c : HttpCache) : option CachedResponse :=
  match entries c !! key with
  | Some (e, expires) => if now <? expires then Some e else None
  | None => None
  end.

(** [entries.insert]: the map asks for the lifetime of the entry, which panics when it is above
    [Duration::MAX]; nothing is inserted then. *)
Definition entries_insert (key : string) (e : CachedResponse) (now : Instant) (c : HttpCache) : HttpCache :=
  let life := lifetime (stale_while_revalidate (config c)) e in
  if life <=? DURATION_MAX then set_entries (<[key := (e, now + life)]> (entries c)) c else c.

(** [HttpCache::start_flight]: [true] for the leader. *)
Definition start_flight (key : string) (c : HttpCache) : bool * HttpCache :=
  if bool_decide (key ∈ in_flight c) then (false, c)
  else (true, set_in_flight ({[key]} ∪ in_flight c) c).

(** [FlightGuard::cleanup] of a guard that may be there. *)
Definition guard_cleanup (guard : option string) (c : HttpCache) : HttpCache :=
  match guard with Some key => set_in_flight (in_flight c ∖ {[key]}) c | None => c end.

Definition purge_path (path : string) (c : HttpCache) : Z * HttpCache :=
  let trimmed := trim path in
  let gone key := let key_path := extract_key_path key in
                  String.eqb key_path trimmed || starts_with trimmed key_path in
  (Z.of_nat (size (filter (fun kv : string * (CachedResponse * Instant) => gone kv.1 = true) (entries c))),
   set_entries (filter (fun kv : string * (CachedResponse * Instant) => gone kv.1 = false) (entries c)) c).

Definition invalidate_key (key : string) (c : HttpCache) : HttpCache :=
  set_share (option_map (share_invalidate key) (share c)) (set_entries (delete key (entries c)) c).

Definition invalidate_target (key host path : string) (c : HttpCache) : HttpCache :=
  let c := invalidate_key key c in
  if negb (str_is_empty host) && negb (str_is_empty path) then
    let target := String.append host (String " " path) in
    invalidate_key target
      (invalidate_key (String.append "https " target) (invalidate_key (String.append "http " target) c))
  else c.

Definition mark_revalidating (key : string) (c : HttpCache) : bool * HttpCache :=
  (negb (bool_decide (key ∈ revalidating c)), set_revalidating ({[key]} ∪ revalidating c) c).

Definition finish_revalidating (key : string) (c : HttpCache) : HttpCache :=
  set_revalidating (revalidating c ∖ {[key]}) c.

(** [CacheRegistry::purge_at] of the cache of a proxy. *)
Definition purge_all (at_ms : Z) (c : HttpCache) : HttpCache :=
  set_share (option_map (share_purge at_ms) (share c)) (set_entries ∅ c).

(** ** Requests *)

Record CacheRequest : Type := mkCacheRequest {
  key : string;
  is_head : bool;
  req_headers : Headers;
  lookup_allowed : bool;
  authorized : bool;
  unsafe_method : bool;
  host : string;
  path : string;
}.

(** Returns the cache request, and the headers of the upstream request. *)
Definition CacheRequest_new (m : Method) (h : Headers) (key : string) (authorized : bool)
  : option CacheRequest * Headers :=
  let unsafe := is_unsafe_method m in
  if negb unsafe && negb (is_cacheable_request m h) then (None, h)
  else
    let h := if negb unsafe then h_remove "accept-encoding" h else h in
    (Some (mkCacheRequest key (bool_decide (m = HEAD)) h (negb unsafe && is_lookup_allowed h) authorized unsafe
             (extract_key_host key) (extract_key_path key)), h).

Record Response : Type := mkResponse {
  res_status : Z;
  res_headers : Headers;
  res_body : bytes;
}.

Definition strip_304_headers (h : Headers) : Headers :=
  fold_left (fun h n => h_remove n h)
    ["content-length"; "content-type"; "content-encoding"; "content-language"; "content-range"] h.

Definition respond (r : CacheRequest) (e : CachedResponse) (now : Instant) : Response :=
  let not_modified := is_not_modified (req_headers r) (headers (head e)) in
  let h := headers (head e) in
  let h := if not_modified then strip_304_headers h else h in
  let h := h_insert "age" (dec (response_age e now / 1000000000)) h in
  mkResponse (if not_modified then 304 else status (head e)) (h_insert "x-cache" "HIT" h)
    (if is_head r || not_modified then [] else body e).

Definition respond_stale (r : CacheRequest) (e : CachedResponse) (now : Instant) : Response :=
  let res := respond r e now in
  mkResponse (res_status res) (h_insert "x-cache" "STALE" (res_headers res)) (res_body res).

Definition stored (r : CacheRequest) (now : Instant) (c : HttpCache) : option CachedResponse :=
  if negb (lookup_allowed r) then None
  else match entries_get (key r) now c with
       | Some e => if matches e (req_headers r) then Some e else None
       | None => None
       end.

(** [CacheRequest::shared]; [answer] is the store's. *)
Definition shared (r : CacheRequest) (answer : option SharedResponse) (now_ms : Z) (now : Instant) (c : HttpCache)
  : option CachedResponse * HttpCache :=
  if negb (lookup_allowed r) then (None, c)
  else match share c with
       | None => (None, c)
       | Some s =>
           match share_lookup answer s with
           | None => (None, c)
           | Some sr =>
               match from_shared sr now_ms now with
               | None => (None, c)
               | Some e => if matches e (req_headers r) then (Some e, entries_insert (key r) e now c) else (None, c)
               end
           end
       end.

Definition find_stored (r : CacheRequest) (answer : option SharedResponse) (now_ms : Z) (now : Instant)
    (c : HttpCache) : option CachedResponse * HttpCache :=
  match stored r now c with
  | Some e => (Some e, c)
  | None => shared r answer now_ms now c
  end.

Definition storable_head (r : CacheRequest) (res : Response) (system_now : SystemTime) (c : HttpCache)
  : option StoredHead :=
  let h := res_headers res in
  if is_head r || negb (is_storable (res_status res) h (authorized r)) then None
  else if is_none (content_length h) && negb (is_chunked h) then None
  else
    let fresh := freshness h (default_ttl (config c)) system_now in
    let too_large := is_some_and (fun length => max_entry_size (config c) <? length) (content_length h) in
    if too_large || (is_zero fresh && negb (has_validator h)) then None
    else option_map (fun vs => mkStoredHead (res_status res) h vs (age h) fresh) (vary_values h (req_headers r)).

(** ** The recorder of a body *)

Record Recorder : Type := mkRecorder {
  r_head : option StoredHead;
  buffer : bytes;
  expected : option Z;
  r_max_size : Z;
  r_key : string;
  guard : option string;
  chunked : bool;
}.

Inductive Frame : Type :=
| Data (d : bytes)
| Trailers.

Definition share_response (key : string) (e : CachedResponse) (unix_ms : Z) (s : CacheShare) : CacheShare :=
  let remaining := sat_sub (head_freshness (head e)) (initial_age (head e)) in
  if negb (accepts s remaining (blen (body e))) then s
  else match to_shared e unix_ms with Some r => offer key r s | None => s end.

Definition abort (r : Recorder) (c : HttpCache) : Recorder * HttpCache :=
  (mkRecorder None [] (expected r) (r_max_size r) (r_key r) None (chunked r), guard_cleanup (guard r) c).

(** [Recorder::finish]; the guard is dropped on every path. *)
Definition finish (completed_cleanly : bool) (now : Instant) (unix_ms : Z) (r : Recorder) (c : HttpCache)
  : Recorder * HttpCache :=
  let dropped key := mkRecorder None [] (expected r) (r_max_size r) key None (chunked r) in
  match r_head r with
  | None => (dropped (r_key r), guard_cleanup (guard r) c)
  | Some h =>
      if is_some_and (fun length => negb (length =? blen (buffer r))) (expected r)
         || (is_none (expected r) && (negb (chunked r) || negb completed_cleanly))
      then (dropped (r_key r), guard_cleanup (guard r) c)
      else
        let e := mkCachedResponse h (buffer r) now in
        let c := set_share (option_map (share_response (r_key r) e unix_ms) (share c)) c in
        (dropped "", guard_cleanup (guard r) (entries_insert (r_key r) e now c))
  end.

Definition record (f : Frame) (now : Instant) (unix_ms : Z) (r : Recorder) (c : HttpCache) : Recorder * HttpCache :=
  match f with
  | Trailers => abort r c
  | Data data =>
      if is_none (r_head r) then (r, c)
      else if r_max_size r <? blen (buffer r) + blen data then abort r c
      else
        let r := mkRecorder (r_head r) (buffer r ++ data) (expected r) (r_max_size r) (r_key r) (guard r) (chunked r) in
        if bool_decide (expected r = Some (blen (buffer r))) then finish true now unix_ms r c else (r, c)
  end.

(** What [poll_frame] of the recording body got from the upstream body. *)
Inductive Poll : Type :=
| PollFrame (f : Frame)
| PollError
| PollEnd (clean : bool).

Definition poll_frame (p : Poll) (now : Instant) (unix_ms : Z) (r : Recorder) (c : HttpCache) : Recorder * HttpCache :=
  match p with
  | PollFrame f => record f now unix_ms r c
  | PollError => abort r c
  | PollEnd clean => finish clean now unix_ms r c
  end.

(** [CacheRequest::store]: the answer to the client, and the recorder when there is one. *)
Definition store (r : CacheRequest) (res : Response) (guard : option string) (system_now : SystemTime) (c : HttpCache)
  : Response * option Recorder * HttpCache :=
  let marked := mkResponse (res_status res) (h_insert "x-cache" "MISS" (res_headers res)) (res_body res) in
  match storable_head r res system_now c with
  | None => (marked, None, guard_cleanup guard c)
  | Some h =>
      (marked,
       Some (mkRecorder (Some h) [] (content_length (res_headers marked)) (max_entry_size (config c)) (key r) guard
               (is_chunked (res_headers marked))), c)
  end.

(** ** Revalidation *)

Definition refresh_entry (key : string) (e : CachedResponse) (h : Headers) (now : Instant) (system_now : SystemTime)
    (c : HttpCache) : CachedResponse * HttpCache :=
  let refreshed := merge_304_headers e h (default_ttl (config c)) true now system_now in
  (refreshed, entries_insert key refreshed now c).

Definition handle_304 (r : CacheRequest) (e : CachedResponse) (h : Headers) (now : Instant) (system_now : SystemTime)
    (c : HttpCache) : Response * HttpCache :=
  if is_storable_304 h (authorized r) then
    let '(refreshed, c) := refresh_entry (key r) e h now system_now c in (respond r refreshed now, c)
  else (respond r (merge_304_headers e h (default_ttl (config c)) false now system_now) now, c).

(** The end of [run_background_revalidation]; [res] is the upstream's answer with its whole body,
    [None] for an error. *)
Definition run_background_revalidation (r : CacheRequest) (e : CachedResponse) (res : option Response)
    (now : Instant) (system_now : SystemTime) (c : HttpCache) : HttpCache :=
  match res with
  | None => c
  | Some res =>
      let h := res_headers res in
      if res_status res =? 304 then
        if is_storable_304 h (authorized r) then (refresh_entry (key r) e h now system_now c).2 else c
      else if negb (is_storable (res_status res) h (authorized r)) || is_head r then c
      else if max_entry_size (config c) <? blen (res_body res) then c
      else
        let fresh := freshness h (default_ttl (config c)) system_now in
        match vary_values h (req_headers r) with
        | None => c
        | Some vs =>
            entries_insert (key r) (mkCachedResponse (mkStoredHead (res_status res) h vs 0 fresh) (res_body res) now) now c
        end
  end.

Definition fetch_unsafe (r : CacheRequest) (status : Z) (c : HttpCache) : HttpCache :=
  if (200 <=? status) && (status <=? 399) then invalidate_target (key r) (host r) (path r) c else c.

(** ** Tasks *)

(** What the cache answered, for the record of a run. *)
Inductive Kind : Type := Hit | Stale | Revalidated.

Record Answer : Type := mkAnswer {
  a_kind : Kind;
  a_request : CacheRequest;
  a_entry : CachedResponse;
  a_now : Instant;
}.

(** A request that waits for the leader of its key, one that waits for the upstream, one whose
    body is recorded, and a background revalidation. *)
Inductive Task : Type :=
| Waiting (r : CacheRequest) (e : option CachedResponse)
| Fetching (r : CacheRequest) (e : option CachedResponse) (guard : option string)
| Recording (r : Recorder)
| Revalidating (r : CacheRequest) (e : CachedResponse).

Definition task_guard (t : Task) : option string :=
  match t with
  | Fetching _ _ g => g
  | Recording r => guard r
  | _ => None
  end.

Definition task_revalidates (t : Task) : option string :=
  match t with Revalidating r _ => Some (key r) | _ => None end.

(** The first part of [fetch], up to the point where it waits: the new task and the answer. *)
Definition fetch (r : CacheRequest) (answer : option SharedResponse) (now_ms : Z) (now : Instant) (c : HttpCache)
  : list Task * option Answer * HttpCache :=
  let '(e, c) := find_stored r answer now_ms now c in
  match e with
  | Some entry =>
      if is_fresh entry now then ([], Some (mkAnswer Hit r entry now), c)
      else if is_stale_revalidatable entry (stale_while_revalidate (config c)) now then
        let '(marked, c) := mark_revalidating (key r) c in
        (if marked then [Revalidating r entry] else [], Some (mkAnswer Stale r entry now), c)
      else
        let '(leader, c) := start_flight (key r) c in
        ([if leader then Fetching r e (Some (key r)) else Waiting r e], None, c)
  | None =>
      let '(leader, c) := start_flight (key r) c in
      ([if leader then Fetching r e (Some (key r)) else Waiting r e], None, c)
  end.

(** [wait_for_flight]: a fresh response, or the request goes to the upstream. *)
Definition wait_for_flight (r : CacheRequest) (e : option CachedResponse) (now : Instant) (c : HttpCache)
  : list Task * option Answer :=
  match stored r now c with
  | Some entry => if is_fresh entry now then ([], Some (mkAnswer Hit r entry now)) else ([Fetching r e None], None)
  | None => ([Fetching r e None], None)
  end.

(** [fetch_upstream] after the upstream has answered; [None] for an error, which drops the guard. *)
Definition fetch_upstream (r : CacheRequest) (e : option CachedResponse) (g : option string) (res : option Response)
    (now : Instant) (system_now : SystemTime) (c : HttpCache) : list Task * option Answer * HttpCache :=
  match res with
  | None => ([], None, guard_cleanup g c)
  | Some res =>
      match e with
      | Some entry =>
          if res_status res =? 304 then
            let c := guard_cleanup g c in
            let merged := merge_304_headers entry (res_headers res) (default_ttl (config c))
                            (is_storable_304 (res_headers res) (authorized r)) now system_now in
            ([], Some (mkAnswer Revalidated r merged now), (handle_304 r entry (res_headers res) now system_now c).2)
          else
            let '(_, rec, c) := store r res g system_now c in
            (match rec with Some rec => [Recording rec] | None => [] end, None, c)
      | None =>
          let '(_, rec, c) := store r res g system_now c in
          (match rec with Some rec => [Recording rec] | None => [] end, None, c)
      end
  end.

(** A task that is dropped, with its client or with the server. *)
Definition drop_task (t : Task) (c : HttpCache) : HttpCache :=
  match task_revalidates t with
  | Some key => finish_revalidating key c
  | None => guard_cleanup (task_guard t) c
  end.
End Store.
