(* ===== verification/CacheRuns.v ===== *)
(** * Runs of the HTTP cache

    The interleaving of the requests of one cache, and what holds in every run: the flights and
    the background revalidations are exactly the running ones, what is stored may be stored, and
    what is served from the cache may be served. *)

From S2P Require Import Prelude Tasks Basics IpText Net Headers Cache CacheStore.

(** What the exchange with the other nodes needs of the crate: the iterator gives the values of each
    name in their order, and a name and a value of a header map parse back from their text. *)
Class SharedHeaderLaws (H : HeaderOps) : Prop := {
  iter_get_all h n : map snd (List.filter (fun nv => bool_decide (nv.1 = n)) (h_iter h)) = h_get_all h n;
  iter_name h nv : nv ∈ h_iter h -> name_from_bytes nv.1 = Some nv.1;
  value_of_text v s : to_str v = Some s -> value_from_str s = Some v;
}.

Section Runs.
Context `{HDR : HeaderOps} `{CODECS : CacheCodecs}.

(** Headers that a shared cache may keep. *)
Definition safe_headers (h : Headers) : Prop :=
  has_directive h "cache-control" "no-store" = false
  /\ has_directive h "cache-control" "private" = false
  /\ h_contains h "set-cookie" = false.

Definition safe_head (h : StoredHead) : Prop := status h ∈ CACHEABLE_STATUSES /\ safe_headers (headers h).

(** The answer to a request with [Authorization] says that a shared cache may keep it (RFC 9111,
    3.5). *)
Definition shareable (h : Headers) : Prop :=
  has_directive h "cache-control" "public" = true \/ has_directive h "cache-control" "s-maxage" = true
  \/ has_directive h "cache-control" "must-revalidate" = true.

Definition may_refresh (with_authorization : bool) (h : Headers) : Prop :=
  safe_headers h /\ (with_authorization = true -> shareable h).

Definition may_store (with_authorization : bool) (st : Z) (h : Headers) : Prop :=
  st ∈ CACHEABLE_STATUSES /\ may_refresh with_authorization h.

(** What happened in a run: an answer of the upstream to a request, a response that the store of
    the cluster gave for a key, and an answer of the cache. *)
Inductive Event : Type :=
| Received (r : CacheRequest) (res : Response)
| Adopted (k : string) (sr : SharedResponse)
| Answered (a : Answer).

Definition received (r : CacheRequest) (res : option Response) : list Event := option_list (option_map (Received r) res).
Definition adopted (k : string) (answer : option SharedResponse) : list Event := option_list (option_map (Adopted k) answer).
Definition answered (a : option Answer) : list Event := option_list (option_map Answered a).

(** Where a stored response of a key comes from: the upstream gave it for a request of this key, and
    it may be stored for this request; the cluster gave it; or a later [304] for a request of the key
    refreshed it. *)
Inductive kept (log : list Event) (k : string) : StoredHead -> Prop :=
| kept_received r res vs initial fresh :
    Received r res ∈ log -> key r = k -> may_store (authorized r) (res_status res) (res_headers res) ->
    kept log k (mkStoredHead (res_status res) (res_headers res) vs initial fresh)
| kept_adopted sr now_ms now e : Adopted k sr ∈ log -> from_shared sr now_ms now = Some e -> kept log k (head e)
| kept_refreshed r res e ttl now system_now :
    Received r res ∈ log -> key r = k -> res_status res = 304 -> may_refresh (authorized r) (res_headers res) ->
    kept log k (head e) -> kept log k (head (merge_304_headers e (res_headers res) ttl true now system_now)).

Definition RunState : Type := HttpCache * list Task * list Event.

(** The other nodes of a cluster put what keeps the rules, as this one does. *)
Definition shared_safe (answer : option SharedResponse) : Prop :=
  forall sr, answer = Some sr -> exists e at_ms, safe_head (head e) /\ to_shared e at_ms = Some sr.

Inductive cache_step : RunState -> RunState -> Prop :=
| step_fetch c ts log r answer now_ms now ts' a c' :
    unsafe_method r = false -> shared_safe answer ->
    fetch r answer now_ms now c = (ts', a, c') ->
    cache_step (c, ts, log) (c', ts' ++ ts, (log ++ adopted (key r) answer) ++ answered a)
| step_wake c ts log r e rest now ts' a :
    ts ≡ₚ Waiting r e :: rest -> wait_for_flight r e now c = (ts', a) ->
    cache_step (c, ts, log) (c, ts' ++ rest, log ++ answered a)
| step_upstream c ts log r e g rest res now system_now ts' a c' :
    ts ≡ₚ Fetching r e g :: rest -> fetch_upstream r e g res now system_now c = (ts', a, c') ->
    cache_step (c, ts, log) (c', ts' ++ rest, (log ++ received r res) ++ answered a)
| step_poll c ts log r rest p now unix_ms r' c' :
    ts ≡ₚ Recording r :: rest -> poll_frame p now unix_ms r c = (r', c') ->
    cache_step (c, ts, log) (c', Recording r' :: rest, log)
| step_revalidated c ts log r e rest res now system_now :
    ts ≡ₚ Revalidating r e :: rest ->
    cache_step (c, ts, log) (finish_revalidating (key r) (run_background_revalidation r e res now system_now c), rest, log ++ received r res)
| step_drop c ts log t rest :
    ts ≡ₚ t :: rest -> cache_step (c, ts, log) (drop_task t c, rest, log)
| step_unsafe c ts log r st : cache_step (c, ts, log) (fetch_unsafe r st c, ts, log)
| step_evict c ts log k : cache_step (c, ts, log) (set_entries (delete k (entries c)) c, ts, log)
| step_purge c ts log at_ms : cache_step (c, ts, log) (purge_all at_ms c, ts, log)
| step_purge_path c ts log p : cache_step (c, ts, log) ((purge_path p c).2, ts, log)
| step_write c ts log : cache_step (c, ts, log) (set_share (option_map write_response (share c)) c, ts, log).

(** ** Flights and revalidations *)

(** ** What the operations leave alone *)

Lemma entries_insert_frame k e now c :
  in_flight (entries_insert k e now c) = in_flight c
  /\ revalidating (entries_insert k e now c) = revalidating c
  /\ config (entries_insert k e now c) = config c.
Proof. unfold entries_insert. by destruct (_ <=? _). Qed.

Lemma guard_cleanup_frame g c :
  in_flight (guard_cleanup g c) = in_flight c ∖ oset g
  /\ revalidating (guard_cleanup g c) = revalidating c
  /\ config (guard_cleanup g c) = config c /\ entries (guard_cleanup g c) = entries c.
Proof. destruct g; cbn; [done|]. repeat split. set_solver. Qed.

(** A poll keeps the guard of the recorder or gives it back. *)
Lemma poll_frame_guard p now unix_ms r c r' c' :
  poll_frame p now unix_ms r c = (r', c') ->
  ((guard r' = guard r /\ in_flight c' = in_flight c) \/ (guard r' = None /\ in_flight c' = in_flight c ∖ oset (guard r)))
  /\ revalidating c' = revalidating c /\ config c' = config c.
Proof.
  assert (Habort : forall r c, abort r c = (r', c') ->
    (guard r' = None /\ in_flight c' = in_flight c ∖ oset (guard r)) /\ revalidating c' = revalidating c /\ config c' = config c).
  { intros r0 c0 [= <- <-]. destruct (guard_cleanup_frame (guard r0) c0) as (? & ? & ? & ?). done. }
  assert (Hfinish : forall b r c, finish b now unix_ms r c = (r', c') ->
    (guard r' = None /\ in_flight c' = in_flight c ∖ oset (guard r)) /\ revalidating c' = revalidating c /\ config c' = config c).
  { intros b r0 c0. unfold finish. destruct (r_head r0) as [h|]; [destruct (_ || _)|]; intros [= <- <-]; cbn [guard];
      rewrite !(proj1 (guard_cleanup_frame (guard r0) _));
      destruct (guard_cleanup_frame (guard r0) c0) as (? & ? & ? & ?); try done.
    all: set (c1 := set_share _ c0); set (e1 := mkCachedResponse h (buffer r0) now);
         destruct (guard_cleanup_frame (guard r0) (entries_insert (r_key r0) e1 now c1)) as (_ & -> & -> & _);
         destruct (entries_insert_frame (r_key r0) e1 now c1) as (-> & -> & ->); done. }
  destruct p as [[d|]| |b]; cbn [poll_frame record]; intros H.
  - destruct (is_none (r_head r)); [injection H as <- <-; auto|]. destruct (_ <? _); [apply Habort in H as [? ?]; auto|].
    destruct (bool_decide _); [|injection H as <- <-; auto]. apply Hfinish in H as [? ?]; auto.
  - apply Habort in H as [? ?]; auto.
  - apply Habort in H as [? ?]; auto.
  - apply Hfinish in H as [? ?]; auto.
Qed.

Lemma shared_frame r answer now_ms now c e c' :
  shared r answer now_ms now c = (e, c') ->
  in_flight c' = in_flight c /\ revalidating c' = revalidating c /\ config c' = config c.
Proof.
  unfold shared. intros H. repeat case_match; injection H as <- <-; try done; apply entries_insert_frame.
Qed.

Lemma find_stored_frame r answer now_ms now c e c' :
  find_stored r answer now_ms now c = (e, c') ->
  in_flight c' = in_flight c /\ revalidating c' = revalidating c /\ config c' = config c.
Proof. unfold find_stored. destruct (stored r now c); [by intros [= <- <-]|apply shared_frame]. Qed.

Lemma run_background_frame r e res now system_now c :
  let c' := run_background_revalidation r e res now system_now c in
  in_flight c' = in_flight c /\ revalidating c' = revalidating c /\ config c' = config c.
Proof.
  cbn zeta. unfold run_background_revalidation, refresh_entry. repeat case_match; cbn [snd]; try done; apply entries_insert_frame.
Qed.

Lemma invalidate_frame r st c :
  in_flight (fetch_unsafe r st c) = in_flight c /\ revalidating (fetch_unsafe r st c) = revalidating c
  /\ config (fetch_unsafe r st c) = config c /\ entries (fetch_unsafe r st c) ⊆ entries c.
Proof.
  unfold fetch_unsafe, invalidate_target. repeat case_match; cbn; repeat split; try done.
  - etrans; [apply delete_subseteq|]. etrans; [apply delete_subseteq|]. etrans; apply delete_subseteq.
  - apply delete_subseteq.
Qed.

(** ** What is stored may be stored *)

Section Safe.
Context {LAWS : HeaderLaws HDR} {SHARED : SharedHeaderLaws HDR}.

Lemma append_all_get n vs h m :
  h_get_all (fold_left (fun acc v => h_append n v acc) vs h) m
  = if decide (m = n) then h_get_all h m ++ vs else h_get_all h m.
Proof.
  revert h. induction vs as [|v vs IH]; intros h; cbn [fold_left].
  - destruct (decide (m = n)); [by rewrite app_nil_r|done].
  - rewrite IH, get_all_append. destruct (decide (m = n)); [by rewrite <-app_assoc|done].
Qed.

(** A merged header has the values of the new map for the names it takes over. *)
Lemma merge_get_all h names h0 m :
  h_get_all (fold_left (fun acc name => fold_left (fun acc v => h_append name v acc) (h_get_all h name) (h_remove name acc))
               names h0) m
  = if bool_decide (m ∈ names) then h_get_all h m else h_get_all h0 m.
Proof.
  revert h0. induction names as [|n names IH]; intros h0; cbn [fold_left]; [by rewrite bool_decide_false by (by apply not_elem_of_nil)|].
  rewrite IH. destruct (decide (m ∈ names)) as [Hin|Hout].
  - rewrite !bool_decide_true; [done|by right|done].
  - rewrite (bool_decide_false (m ∈ names)) by done. rewrite append_all_get, get_all_remove.
    destruct (decide (m = n)) as [->|Hne].
    + rewrite bool_decide_true by (by left). done.
    + rewrite bool_decide_false by (intros [?|?]%elem_of_cons; done). done.
Qed.

Lemma has_directive_ext h h' n d : h_get_all h n = h_get_all h' n -> has_directive h n d = has_directive h' n d.
Proof. intros E. unfold has_directive. by rewrite (header_items_ext h h'). Qed.

Lemma contains_ext h h' n : h_get_all h n = h_get_all h' n -> h_contains h n = h_contains h' n.
Proof. intros E. by rewrite !contains_get_all, E. Qed.

Lemma merged_safe e h ttl now system_now :
  safe_head (head e) -> safe_headers h -> safe_head (head (merge_304_headers e h ttl true now system_now)).
Proof.
  intros [Hs (H1 & H2 & H3)] (E1 & E2 & E3). split; [done|]. cbn [head headers merge_304_headers].
  set (names := List.filter _ (h_keys h)).
  assert (Hcc : h_get_all (fold_left (fun acc name => fold_left (fun acc v => h_append name v acc) (h_get_all h name)
                  (h_remove name acc)) names (headers (head e))) "cache-control" = h_get_all h "cache-control"
             \/ h_get_all (fold_left (fun acc name => fold_left (fun acc v => h_append name v acc) (h_get_all h name)
                  (h_remove name acc)) names (headers (head e))) "cache-control"
                = h_get_all (headers (head e)) "cache-control").
  { rewrite merge_get_all. destruct (bool_decide _); auto. }
  assert (Hck : "set-cookie" ∉ names).
  { intros Hin. apply list_elem_of_In in Hin. unfold names in Hin. apply List.filter_In in Hin as [_ Hin]. by cbn in Hin. }
  split; [|split].
  - destruct Hcc as [Hcc|Hcc]; by rewrite (has_directive_ext _ _ _ _ Hcc).
  - destruct Hcc as [Hcc|Hcc]; by rewrite (has_directive_ext _ _ _ _ Hcc).
  - etrans; [apply contains_ext; rewrite merge_get_all; by rewrite bool_decide_false|exact H3].
Qed.

(** *** The rules of the code *)

Lemma allows_authorized_spec h : allows_authorized h = true -> shareable h.
Proof. unfold allows_authorized, shareable. cbn [existsb]. rewrite !orb_true_iff. intuition discriminate. Qed.

Lemma guard_authorized auth h : negb auth || allows_authorized h = true -> auth = true -> shareable h.
Proof. intros H ->. by apply allows_authorized_spec. Qed.

Lemma is_storable_spec st h auth : is_storable st h auth = true -> may_store auth st h.
Proof.
  unfold is_storable. rewrite !andb_true_iff, !negb_true_iff. intros ((((H & H1) & H2) & H3) & H4).
  split; [|split; [done|by apply guard_authorized]].
  apply existsb_exists in H as (x & Hx & E). apply Z.eqb_eq in E as ->. by apply list_elem_of_In.
Qed.

Lemma is_storable_304_spec h auth : is_storable_304 h auth = true -> may_refresh auth h.
Proof.
  unfold is_storable_304. destruct (_ || _) eqn:E; [done|]. apply orb_false_elim in E as [E E3]. apply orb_false_elim in E as [E1 E2].
  intros H. split; [done|by apply guard_authorized].
Qed.

Lemma storable_head_kept log r res system_now c h :
  storable_head r res system_now c = Some h -> Received r res ∈ log -> kept log (key r) h.
Proof.
  unfold storable_head. intros H Hin. repeat (case_match; try done).
  destruct (vary_values _ _); [|done]. injection H as <-.
  match goal with E : is_head r || _ = false |- _ => apply orb_false_elim in E as [_ E]; apply negb_false_iff, is_storable_spec in E end.
  by apply (kept_received log (key r) r res).
Qed.

(** *** What the nodes of a cluster give each other *)

Lemma collect_option_spec {A B} (f : A -> option B) l l' :
  collect_option (map f l) = Some l' -> Forall2 (fun a b => f a = Some b) l l'.
Proof.
  revert l'. induction l as [|a l IH]; intros l'; cbn [map collect_option]; [by intros [= <-]|].
  destruct (f a) as [b|] eqn:Ea; [|done]. destruct (collect_option _) as [l2|]; [|done]. intros [= <-].
  constructor; [done|]. by apply IH.
Qed.

Lemma rebuild_get_all hs its h0 h n :
  Forall2 (fun (nv sv : string * string) => option_map (pair nv.1) (to_str nv.2) = Some sv) its hs ->
  (forall nv, nv ∈ its -> name_from_bytes nv.1 = Some nv.1) ->
  fold_left (fun acc nv => match acc, name_from_bytes nv.1, value_from_str nv.2 with
                           | Some h, Some n, Some v => Some (h_append n v h)
                           | _, _, _ => None
                           end) hs (Some h0) = Some h ->
  h_get_all h n = h_get_all h0 n ++ map snd (List.filter (fun nv => bool_decide (nv.1 = n)) its).
Proof.
  intros HF. revert h0. induction HF as [|[m v] [m' v'] its hs Hv HF IH]; intros h0 Hn H; cbn [fold_left] in H.
  { injection H as <-. by rewrite app_nil_r. }
  cbn [fst snd] in *. destruct (to_str v) as [s|] eqn:Es; [|done]. injection Hv as <- <-.
  specialize (Hn (m, v) ltac:(by left)) as Hm. cbn [fst] in Hm. rewrite Hm, (value_of_text _ _ Es) in H.
  rewrite (IH _ (fun nv Hin => Hn nv ltac:(by right)) H), get_all_append. cbn [List.filter fst].
  destruct (decide (n = m)) as [->|Hne].
  - rewrite bool_decide_true by done. cbn [map snd]. by rewrite <-app_assoc.
  - by rewrite bool_decide_false by congruence.
Qed.

Lemma shared_round_safe e at_ms sr now_ms now e' :
  to_shared e at_ms = Some sr -> from_shared sr now_ms now = Some e' -> safe_head (head e) -> safe_head (head e').
Proof.
  unfold to_shared. destruct (collect_option (map _ (h_iter _))) as [hs|] eqn:Eh; [|done].
  destruct (collect_option (map _ (vary _))) as [vs|]; [|done].
  intros E; injection E as <-. unfold from_shared. cbn [sr_headers sr_status sr_vary sr_body sr_initial_age sr_stored_at sr_freshness].
  destruct (fold_left _ hs _) as [h|] eqn:Ef; [|done]. destruct (collect_option (map _ vs)); [|done]. destruct (b64_decode _); [|done].
  destruct (_ && _); [|done]. intros [= <-] [Hs (H1 & H2 & H3)].
  assert (Hg : forall n, h_get_all h n = h_get_all (headers (head e)) n).
  { intros n. rewrite (rebuild_get_all _ _ _ _ n (collect_option_spec _ _ _ Eh) (iter_name (headers (head e))) Ef).
    by rewrite get_all_empty, iter_get_all. }
  split; [done|]. cbn [head headers]. unfold safe_headers.
  by rewrite !(has_directive_ext _ _ "cache-control" _ (Hg _)), (contains_ext _ _ _ (Hg _)).
Qed.

(** *** What is kept *)

Definition adopted_safe (log : list Event) : Prop := forall k sr, Adopted k sr ∈ log -> shared_safe (Some sr).

Lemma kept_safe log k h : adopted_safe log -> kept log k h -> safe_head h.
Proof.
  intros Ha H. induction H as [r res vs ia f Hr Hk (Hst & Hs & _)|sr now_ms now e Hin Hf|r res e ttl now sysnow Hr Hk Hst (Hs & _) H IH].
  - by split.
  - destruct (Ha _ _ Hin sr eq_refl) as (e0 & at_ms & H0 & Et). by eapply shared_round_safe.
  - by apply merged_safe.
Qed.

Lemma kept_mono log log' k h : log ⊆ log' -> kept log k h -> kept log' k h.
Proof.
  intros Hs H. induction H as [r res vs ia f Hr Hk Hm|sr now_ms now e Hin Hf|r res e ttl now sysnow Hr Hk Hst Hm H IH].
  - apply (kept_received _ _ r); auto.
  - eapply kept_adopted; [|done]. auto.
  - apply (kept_refreshed _ _ r); auto.
Qed.

Definition entry_kept (log : list Event) (r : CacheRequest) (e : CachedResponse) : Prop :=
  lookup_allowed r = true /\ matches e (req_headers r) = true /\ kept log (key r) (head e).

Definition opt_kept (log : list Event) (r : CacheRequest) (e : option CachedResponse) : Prop :=
  match e with Some e => entry_kept log r e | None => True end.

Definition recorder_kept (log : list Event) (r : Recorder) : Prop :=
  match r_head r with Some h => kept log (r_key r) h | None => True end.

Definition task_kept (log : list Event) (t : Task) : Prop :=
  match t with
  | Waiting r e | Fetching r e _ => opt_kept log r e
  | Recording r => recorder_kept log r
  | Revalidating r e => entry_kept log r e
  end.

(** What the cache may answer: a kept response of the key for a request that allows it, with the
    [Vary] values of the response; a fresh one, a stale one within its window, or one that the
    upstream has confirmed for this request. *)
Definition answer_ok (log : list Event) (cfg : CacheConfig) (a : Answer) : Prop :=
  match a_kind a with
  | Revalidated =>
      exists e res ttl refresh system_now,
        entry_kept log (a_request a) e /\ Received (a_request a) res ∈ log /\ res_status res = 304
        /\ a_entry a = merge_304_headers e (res_headers res) ttl refresh (a_now a) system_now
  | Hit => entry_kept log (a_request a) (a_entry a) /\ is_fresh (a_entry a) (a_now a) = true
  | Stale =>
      entry_kept log (a_request a) (a_entry a)
      /\ is_stale_revalidatable (a_entry a) (stale_while_revalidate cfg) (a_now a) = true
  end.

Definition event_ok (log : list Event) (cfg : CacheConfig) (e : Event) : Prop :=
  match e with
  | Received _ _ => True
  | Adopted _ sr => shared_safe (Some sr)
  | Answered a => answer_ok log cfg a
  end.

Definition entries_kept (log : list Event) (c : HttpCache) : Prop := map_Forall (fun k e => kept log k (head e.1)) (entries c).

(** What this node puts into the store of the cluster. *)
Definition command_kept (log : list Event) (cmd : ShareCommand) : Prop :=
  match cmd with
  | Put k sr => exists e at_ms, kept log k (head e) /\ to_shared e at_ms = Some sr
  | Delete _ => True
  end.

Definition share_kept (log : list Event) (c : HttpCache) : Prop :=
  match share c with Some s => Forall (command_kept log) (queue s) | None => True end.

Definition store_kept (log : list Event) (c : HttpCache) : Prop := entries_kept log c /\ share_kept log c.

Record run_inv (cfg : CacheConfig) (s : RunState) : Prop := {
  ri_config : config s.1.1 = cfg;
  ri_flights : exact task_guard (in_flight s.1.1) s.1.2;
  ri_revalidating : exact task_revalidates (revalidating s.1.1) s.1.2;
  ri_store : store_kept s.2 s.1.1;
  ri_tasks : Forall (task_kept s.2) s.1.2;
  ri_log : Forall (event_ok s.2 cfg) s.2;
}.

Lemma entry_kept_mono log log' r e : log ⊆ log' -> entry_kept log r e -> entry_kept log' r e.
Proof. intros Hs (H1 & H2 & H3). split; [done|]. split; [done|]. by eapply kept_mono. Qed.

Lemma task_kept_mono log log' t : log ⊆ log' -> task_kept log t -> task_kept log' t.
Proof.
  intros Hs. destruct t as [r [e|]|r [e|] g|r|r e]; cbn [task_kept opt_kept]; try done; try by apply entry_kept_mono.
  unfold recorder_kept. destruct (r_head r); [|done]. by apply kept_mono.
Qed.

Lemma event_ok_mono log log' cfg e : log ⊆ log' -> event_ok log cfg e -> event_ok log' cfg e.
Proof.
  intros Hs. destruct e as [| |a]; [done|done|]. cbn [event_ok]. unfold answer_ok. destruct (a_kind a).
  - intros [H1 H2]. split; [by eapply entry_kept_mono|done].
  - intros [H1 H2]. split; [by eapply entry_kept_mono|done].
  - intros (e & res & ttl & b & sn & H1 & H2 & H3). exists e, res, ttl, b, sn. split; [by eapply entry_kept_mono|]. split; [by apply Hs|done].
Qed.

Lemma store_kept_mono log log' c : log ⊆ log' -> store_kept log c -> store_kept log' c.
Proof.
  intros Hs [H1 H2]. split.
  - intros k e He. eapply kept_mono; [done|]. by apply H1.
  - unfold share_kept in *. destruct (share c) as [s|]; [|done]. eapply Forall_impl; [exact H2|].
    intros [k sr|k]; [|done]. intros (e & t & He & Et). exists e, t. split; [|done]. by eapply kept_mono.
Qed.

(** The log grows. *)
Lemma run_inv_log cfg c ts log es :
  run_inv cfg (c, ts, log) -> Forall (event_ok (log ++ es) cfg) es -> run_inv cfg (c, ts, log ++ es).
Proof.
  intros [H1 H2 H3 H4 H5 H6] He. assert (Hs : log ⊆ log ++ es) by (intros x Hx; apply elem_of_app; by left).
  split; cbn [fst snd] in *; try done.
  - by eapply store_kept_mono.
  - eapply Forall_impl; [exact H5|]. intros t. by apply task_kept_mono.
  - apply Forall_app. split; [|done]. eapply Forall_impl; [exact H6|]. intros e. by apply event_ok_mono.
Qed.

Lemma run_inv_answered cfg c ts log a :
  run_inv cfg (c, ts, log) -> match a with Some a => answer_ok log cfg a | None => True end ->
  run_inv cfg (c, ts, log ++ answered a).
Proof.
  intros Hi Ha. apply run_inv_log; [done|]. destruct a as [a|]; [|constructor]. constructor; [|constructor].
  apply (event_ok_mono log _ cfg (Answered a)); [|done]. intros x Hx. apply elem_of_app. by left.
Qed.

(** *** The operations on the store *)

Lemma entries_insert_kept log k e now c : store_kept log c -> kept log k (head e) -> store_kept log (entries_insert k e now c).
Proof.
  intros [Hc Hq] He. unfold entries_insert. destruct (_ <=? _); [|done]. split; [|done]. unfold entries_kept. cbn [entries set_entries].
  by apply map_Forall_insert_2.
Qed.

Lemma guard_cleanup_kept log g c : store_kept log c -> store_kept log (guard_cleanup g c).
Proof. by destruct g. Qed.

Lemma try_send_queue cmd s s' : try_send cmd s = Some s' -> queue s' = queue s ++ [cmd].
Proof. unfold try_send. destruct (Nat.ltb _ _); [|done]. by intros [= <-]. Qed.

Lemma share_invalidate_kept log k s : Forall (command_kept log) (queue s) -> Forall (command_kept log) (queue (share_invalidate k s)).
Proof.
  intros H. unfold share_invalidate. destruct (try_send _ s) as [s'|] eqn:E; [|done]. cbn [unwrap_or].
  rewrite (try_send_queue _ _ _ E). apply Forall_app. split; [done|]. by constructor.
Qed.

Lemma share_response_kept log k e at_ms s :
  kept log k (head e) -> Forall (command_kept log) (queue s) -> Forall (command_kept log) (queue (share_response k e at_ms s)).
Proof.
  intros He H. unfold share_response. cbn zeta. destruct (negb _); [done|]. destruct (to_shared e at_ms) as [r|] eqn:Er; [|done].
  unfold offer. cbn zeta. destruct (_ || _); [done|]. destruct (_ <? _); [done|]. destruct (try_send _ s) as [s'|] eqn:E; [|done].
  cbn [queue]. rewrite (try_send_queue _ _ _ E). apply Forall_app. split; [done|]. constructor; [|constructor]. by exists e, at_ms.
Qed.

Lemma invalidate_key_kept log k c : store_kept log c -> store_kept log (invalidate_key k c).
Proof.
  intros [H1 H2]. split.
  - intros k' e. unfold invalidate_key. cbn [entries set_share set_entries]. intros He. apply lookup_delete_Some in He as [_ He]. by apply H1.
  - unfold share_kept, invalidate_key in *. cbn [share set_share]. destruct (share c) as [s|]; [|done]. by apply share_invalidate_kept.
Qed.

Lemma fetch_unsafe_kept log r st c : store_kept log c -> store_kept log (fetch_unsafe r st c).
Proof.
  intros H. unfold fetch_unsafe, invalidate_target. destruct (_ && _); [|done]. cbn zeta. destruct (_ && _); by repeat apply invalidate_key_kept.
Qed.

Lemma entries_sub_kept log c c' : store_kept log c -> entries c' ⊆ entries c -> share c' = share c -> store_kept log c'.
Proof. intros [H H2] Hs E. split; [|unfold share_kept; by rewrite E]. intros k e He. apply (H k). by eapply lookup_weaken. Qed.

Lemma stored_spec log r now c e : store_kept log c -> stored r now c = Some e -> entry_kept log r e.
Proof.
  intros [Hk _]. unfold stored, entries_get. destruct (lookup_allowed r) eqn:El; [|done]. cbn [negb].
  destruct (entries c !! key r) as [[x ex]|] eqn:E; [|done]. destruct (now <? ex); [|done].
  destruct (matches x (req_headers r)) eqn:Em; [|done]. intros [= ->]. split; [done|]. split; [done|]. exact (Hk _ _ E).
Qed.

Lemma find_stored_spec log r answer now_ms now c e c' :
  adopted (key r) answer ⊆ log -> store_kept log c -> find_stored r answer now_ms now c = (e, c') ->
  store_kept log c' /\ opt_kept log r e.
Proof.
  intros Ha Hc. unfold find_stored. destruct (stored r now c) as [x|] eqn:Es.
  { intros [= <- <-]. split; [done|]. by eapply stored_spec. }
  unfold shared. destruct (lookup_allowed r) eqn:El; cbn [negb]; [|by intros [= <- <-]].
  destruct (share c) as [sh|]; [|by intros [= <- <-]]. unfold share_lookup.
  destruct answer as [sr|]; [|by intros [= <- <-]]. destruct (_ <=? _); [|by intros [= <- <-]].
  destruct (from_shared sr now_ms now) as [x|] eqn:Ef; [|by intros [= <- <-]].
  destruct (matches x (req_headers r)) eqn:Em; intros [= <- <-]; [|done].
  assert (Hx : kept log (key r) (head x)) by (eapply kept_adopted; [apply Ha; by left|done]).
  split; [by apply entries_insert_kept|done].
Qed.

Lemma poll_frame_kept log p now unix_ms r c r' c' :
  poll_frame p now unix_ms r c = (r', c') -> recorder_kept log r -> store_kept log c ->
  recorder_kept log r' /\ store_kept log c'.
Proof.
  intros H Hr Hc.
  assert (Habort : forall r c, abort r c = (r', c') -> store_kept log c -> recorder_kept log r' /\ store_kept log c').
  { intros r0 c0 [= <- <-] H0. split; [done|]. by apply guard_cleanup_kept. }
  assert (Hfinish : forall b r c, finish b now unix_ms r c = (r', c') -> recorder_kept log r -> store_kept log c ->
            recorder_kept log r' /\ store_kept log c').
  { intros b r0 c0. unfold finish, recorder_kept. intros H0 Hh H1. destruct (r_head r0) as [h|]; [destruct (_ || _)|];
      injection H0 as <- <-; (split; [done|]); apply guard_cleanup_kept; try done.
    apply entries_insert_kept; [|done]. destruct H1 as [H1 H2]. split; [done|]. unfold share_kept in *. cbn [share set_share].
    destruct (share c0) as [s|]; [|done]. by apply share_response_kept. }
  destruct p as [[d|]| |b]; cbn [poll_frame record] in H.
  - destruct (r_head r) as [h|] eqn:Eh; cbn [is_none is_some negb] in H; [|by injection H as <- <-].
    unfold recorder_kept in Hr. rewrite Eh in Hr.
    destruct (_ <? _); [by eapply Habort|]. destruct (bool_decide _); [|by injection H as <- <-].
    eapply Hfinish; done.
  - by eapply Habort.
  - by eapply Habort.
  - by eapply Hfinish.
Qed.

Lemma run_inv_perm cfg c ts ts' log : ts ≡ₚ ts' -> run_inv cfg (c, ts, log) -> run_inv cfg (c, ts', log).
Proof.
  intros Hp [H1 H2 H3 H4 H5 H6]. split; cbn [fst snd] in *; try done; try (by eapply exact_perm). by rewrite <-Hp.
Qed.

(** Operations that leave the tasks and the sets alone. *)
Lemma run_inv_entries cfg c c' ts log :
  run_inv cfg (c, ts, log) -> config c' = config c -> in_flight c' = in_flight c -> revalidating c' = revalidating c ->
  store_kept log c' -> run_inv cfg (c', ts, log).
Proof. intros [H1 H2 H3 H4 H5 H6] E1 E2 E3 He. split; cbn [fst snd] in *; try done; [by rewrite E1|by rewrite E2|by rewrite E3]. Qed.

(** A task without a guard or a revalidation. *)
Lemma run_inv_add_none cfg c t ts log :
  task_guard t = None -> task_revalidates t = None -> task_kept log t ->
  run_inv cfg (c, ts, log) -> run_inv cfg (c, t :: ts, log).
Proof.
  intros Hg Hr Hs [H1 H2 H3 H4 H5 H6]. split; cbn [fst snd] in *; try done; try (by apply exact_add_none). by constructor.
Qed.

Lemma run_inv_remove_none cfg c t ts log :
  task_guard t = None -> task_revalidates t = None -> run_inv cfg (c, t :: ts, log) -> run_inv cfg (c, ts, log).
Proof.
  intros Hg Hr [H1 H2 H3 H4 H5 H6]. split; cbn [fst snd] in *; try done; try (by eapply exact_add_none). by inversion H5.
Qed.

(** A request takes the lead of its key, or waits. *)
Lemma run_inv_flight cfg c ts log r e b c' :
  run_inv cfg (c, ts, log) -> opt_kept log r e -> start_flight (key r) c = (b, c') ->
  run_inv cfg (c', (if b then Fetching r e (Some (key r)) else Waiting r e) :: ts, log).
Proof.
  intros Hi He. unfold start_flight. destruct (bool_decide_reflect (key r ∈ in_flight c)) as [Hin|Hout]; intros [= <- <-].
  - by apply run_inv_add_none.
  - destruct Hi as [H1 H2 H3 H4 H5 H6]. split; cbn [fst snd] in *; try done.
    + by apply exact_add.
    + by constructor.
Qed.

Lemma run_inv_fetch cfg c ts log r answer now_ms now ts' a c' :
  run_inv cfg (c, ts, log) -> adopted (key r) answer ⊆ log -> fetch r answer now_ms now c = (ts', a, c') ->
  run_inv cfg (c', ts' ++ ts, log ++ answered a).
Proof.
  intros Hi Ha. unfold fetch. destruct (find_stored r answer now_ms now c) as [e c1] eqn:Ef.
  destruct (find_stored_spec _ _ _ _ _ _ _ _ Ha (ri_store _ _ Hi) Ef) as [Hkept He].
  destruct (find_stored_frame _ _ _ _ _ _ _ Ef) as (E1 & E2 & E3).
  assert (Hi1 : run_inv cfg (c1, ts, log)) by (by eapply run_inv_entries).
  destruct e as [e|].
  - destruct (is_fresh e now) eqn:Ehit.
    { intros [= <- <- <-]. by apply run_inv_answered. }
    destruct (is_stale_revalidatable e _ now) eqn:Est.
    + cbn [mark_revalidating]. intros [= <- <- <-].
      pose proof (ri_config _ _ Hi1 : config c1 = cfg) as Ecfg. rewrite Ecfg in Est. apply run_inv_answered; [|done].
      destruct (bool_decide_reflect (key r ∈ revalidating c1)) as [Hin|Hout]; cbn [negb app].
      * destruct Hi1 as [I1 I2 I3 I4 I5 I6]. split; cbn [fst snd] in *; try done.
        cbn [revalidating set_revalidating]. by replace ({[key r]} ∪ revalidating c1) with (revalidating c1) by set_solver.
      * destruct Hi1 as [I1 I2 I3 I4 I5 I6]. split; cbn [fst snd] in *; try done.
        -- by apply exact_add.
        -- by constructor.
    + destruct (start_flight (key r) c1) as [b c2] eqn:Ev. intros [= <- <- <-]. cbn [app].
      apply run_inv_answered; [|done]. by eapply run_inv_flight.
  - destruct (start_flight (key r) c1) as [b c2] eqn:Ev. intros [= <- <- <-]. cbn [app].
    apply run_inv_answered; [|done]. by eapply run_inv_flight.
Qed.

(** A task that held a guard gives it back. *)
Lemma run_inv_release cfg c r e g ts log :
  run_inv cfg (c, Fetching r e g :: ts, log) -> run_inv cfg (guard_cleanup g c, ts, log).
Proof.
  intros [H1 H2 H3 H4 H5 H6]. destruct (guard_cleanup_frame g c) as (E1 & E2 & E3 & E4).
  split; cbn [fst snd] in *; [by rewrite E3| | |by apply guard_cleanup_kept|by inversion H5|done].
  - rewrite E1. by apply (exact_release task_guard _ (Fetching r e g)).
  - rewrite E2. by apply (exact_add_none _ _ (Fetching r e g)).
Qed.

(** The upstream's answer is recorded, or the guard is given back. *)
Lemma run_inv_store cfg c r e g ts log res system_now x rec c' :
  run_inv cfg (c, Fetching r e g :: ts, log) -> Received r res ∈ log -> store r res g system_now c = (x, rec, c') ->
  run_inv cfg (c', (match rec with Some rec => [Recording rec] | None => [] end) ++ ts, log).
Proof.
  intros Hi Hin. unfold store. destruct (storable_head r res system_now c) as [h|] eqn:Eh; intros [= <- <- <-]; cbn [app].
  - apply (storable_head_kept log) in Eh; [|done]. destruct Hi as [H1 H2 H3 H4 H5 H6]. split; cbn [fst snd] in *; try done.
    inversion H5; subst. by constructor.
  - by eapply run_inv_release.
Qed.

Lemma run_inv_upstream cfg c ts log r e g res now system_now ts' a c' :
  run_inv cfg (c, Fetching r e g :: ts, log) -> received r res ⊆ log -> fetch_upstream r e g res now system_now c = (ts', a, c') ->
  run_inv cfg (c', ts' ++ ts, log ++ answered a).
Proof.
  intros Hi Hin. unfold fetch_upstream. destruct res as [res|].
  2: { intros [= <- <- <-]. cbn [app]. apply run_inv_answered; [|done]. by eapply run_inv_release. }
  assert (Hres : Received r res ∈ log) by (apply Hin; by left).
  assert (Hstore : forall x rec c', store r res g system_now c = (x, rec, c') ->
    run_inv cfg (c', (match rec with Some rec => [Recording rec] | None => [] end) ++ ts, log ++ answered None)).
  { intros x rec c1 H. apply run_inv_answered; [|done]. by eapply run_inv_store. }
  destruct e as [e|].
  - destruct (Z.eqb_spec (res_status res) 304) as [E304|_].
    + intros [= <- <- <-]. cbn [app].
      assert (He : entry_kept log r e) by (by apply ri_tasks in Hi; inversion Hi; subst).
      apply run_inv_answered; [|exists e, res; eauto 10].
      pose proof (run_inv_release _ _ _ _ _ _ _ Hi) as Hi1. unfold handle_304, refresh_entry.
      destruct (is_storable_304 (res_headers res) (authorized r)) eqn:E3; cbn [snd]; [|done].
      set (m := merge_304_headers e _ _ _ _ _).
      destruct (entries_insert_frame (key r) m now (guard_cleanup g c)) as (F1 & F2 & F3).
      eapply run_inv_entries; [exact Hi1|done..|]. apply entries_insert_kept; [apply Hi1|].
      apply (kept_refreshed _ _ r); [done|done|done|by apply is_storable_304_spec|apply He].
    + destruct (store r res g system_now c) as [[x rec] c1] eqn:E. intros [= <- <- <-]. by eapply Hstore.
  - destruct (store r res g system_now c) as [[x rec] c1] eqn:E. intros [= <- <- <-]. by eapply Hstore.
Qed.

Lemma run_inv_poll cfg c ts log r p now unix_ms r' c' :
  run_inv cfg (c, Recording r :: ts, log) -> poll_frame p now unix_ms r c = (r', c') ->
  run_inv cfg (c', Recording r' :: ts, log).
Proof.
  intros [H1 H2 H3 H4 H5 H6] Hp. cbn [fst snd] in *. inversion H5 as [|? ? Hr Hts]; subst.
  destruct (poll_frame_guard _ _ _ _ _ _ _ Hp) as (Hg & Hv & Hc).
  destruct (poll_frame_kept _ _ _ _ _ _ _ _ Hp Hr H4) as [Hr' He].
  split; cbn [fst snd]; [done| | |done|by constructor|done].
  - by apply (exact_poll task_guard (in_flight c) _ (Recording r)).
  - rewrite Hv. by apply (exact_same _ _ (Recording r)).
Qed.

(** A background revalidation ends. *)
Lemma run_inv_revalidated cfg c c' r e ts log :
  run_inv cfg (c, Revalidating r e :: ts, log) -> config c' = config c -> in_flight c' = in_flight c ->
  revalidating c' = revalidating c -> store_kept log c' -> run_inv cfg (finish_revalidating (key r) c', ts, log).
Proof.
  intros [H1 H2 H3 H4 H5 H6] E1 E2 E3 He. cbn [fst snd] in *. split; cbn [fst snd finish_revalidating config in_flight revalidating set_revalidating].
  - by rewrite E1.
  - rewrite E2. by apply (exact_add_none _ _ (Revalidating r e)).
  - rewrite E3. by apply (exact_release task_revalidates _ (Revalidating r e)).
  - done.
  - by inversion H5.
  - done.
Qed.

Lemma run_background_kept log r e res now system_now c :
  entry_kept log r e -> received r res ⊆ log -> store_kept log c ->
  store_kept log (run_background_revalidation r e res now system_now c).
Proof.
  intros He Hin Hc. unfold run_background_revalidation, refresh_entry. destruct res as [res|]; [|done].
  assert (Hres : Received r res ∈ log) by (apply Hin; by left).
  destruct (Z.eqb_spec (res_status res) 304) as [E304|_].
  - destruct (is_storable_304 _ _) eqn:E; [|done]. cbn [snd]. apply entries_insert_kept; [done|].
    apply (kept_refreshed _ _ r); [done|done|done|by apply is_storable_304_spec|apply He].
  - destruct (negb (is_storable _ _ _) || is_head r) eqn:E; [done|]. apply orb_false_elim in E as [E _].
    apply negb_false_iff, is_storable_spec in E. destruct (_ <? _); [done|].
    destruct (vary_values _ _); [|done]. apply entries_insert_kept; [done|]. by apply (kept_received _ _ r).
Qed.

Lemma run_inv_drop cfg c t ts log : run_inv cfg (c, t :: ts, log) -> run_inv cfg (drop_task t c, ts, log).
Proof.
  intros Hi. unfold drop_task. destruct t as [r e|r e g|r|r e]; cbn [task_revalidates task_guard].
  - by apply run_inv_remove_none in Hi.
  - by eapply run_inv_release.
  - destruct (abort r c) as [r' c'] eqn:E. pose proof (run_inv_poll _ _ _ _ r PollError 0 0 r' c' Hi E) as H1.
    injection E as <- <-. by apply run_inv_remove_none in H1.
  - by eapply run_inv_revalidated; [exact Hi|..]; try done; apply Hi.
Qed.

Lemma run_inv_wake cfg c ts log r e now ts' a :
  run_inv cfg (c, Waiting r e :: ts, log) -> wait_for_flight r e now c = (ts', a) ->
  run_inv cfg (c, ts' ++ ts, log ++ answered a).
Proof.
  intros Hi. assert (He : opt_kept log r e) by (by apply ri_tasks in Hi; inversion Hi; subst).
  pose proof (run_inv_remove_none cfg c (Waiting r e) ts log eq_refl eq_refl Hi) as Hi1.
  assert (Hf : run_inv cfg (c, Fetching r e None :: ts, log)) by (by apply run_inv_add_none).
  unfold wait_for_flight. destruct (stored r now c) as [x|] eqn:Es; [destruct (is_fresh x now) eqn:Ef|]; intros [= <- <-].
  - apply (stored_spec log) in Es; [|apply Hi]. by apply run_inv_answered.
  - by apply run_inv_answered.
  - by apply run_inv_answered.
Qed.

Lemma subseteq_app_r {A} (l1 l2 : list A) : l2 ⊆ l1 ++ l2.
Proof. intros x Hx. apply elem_of_app. by right. Qed.

Lemma run_inv_received cfg c ts log r res : run_inv cfg (c, ts, log) -> run_inv cfg (c, ts, log ++ received r res).
Proof. intros Hi. apply run_inv_log; [done|]. destruct res; by repeat constructor. Qed.

Lemma run_inv_adopted cfg c ts log k answer :
  run_inv cfg (c, ts, log) -> shared_safe answer -> run_inv cfg (c, ts, log ++ adopted k answer).
Proof. intros Hi Ha. apply run_inv_log; [done|]. destruct answer; by repeat constructor. Qed.

Lemma cache_run_inv_step cfg s s' : run_inv cfg s -> cache_step s s' -> run_inv cfg s'.
Proof.
  intros Hi Hs. destruct Hs as [c ts log r answer now_ms now ts' a c' Hu Ha Hf|c ts log r e rest now ts' a Hp Hw
    |c ts log r e g rest res now system_now ts' a c' Hp Hf|c ts log r rest p now unix_ms r' c' Hp Hf
    |c ts log r e rest res now system_now Hp|c ts log t rest Hp|c ts log r st|c ts log k|c ts log at_ms|c ts log p|c ts log];
    try (apply (run_inv_perm _ _ _ _ _ Hp) in Hi).
  - eapply run_inv_fetch; [by apply run_inv_adopted|apply subseteq_app_r|done].
  - by eapply run_inv_wake.
  - eapply run_inv_upstream; [by apply run_inv_received|apply subseteq_app_r|done].
  - by eapply run_inv_poll.
  - destruct (run_background_frame r e res now system_now c) as (E1 & E2 & E3).
    apply (run_inv_received _ _ _ _ r res) in Hi.
    eapply run_inv_revalidated; [exact Hi|done..|]. apply run_background_kept; [|apply subseteq_app_r|apply Hi].
    by apply ri_tasks in Hi; inversion Hi; subst.
  - by apply run_inv_drop.
  - destruct (invalidate_frame r st c) as (E1 & E2 & E3 & E4). eapply run_inv_entries; [exact Hi|done..|].
    apply fetch_unsafe_kept, Hi.
  - eapply run_inv_entries; [exact Hi|done..|]. eapply entries_sub_kept; [apply Hi| |done]. apply delete_subseteq.
  - eapply run_inv_entries; [exact Hi|done..|]. split; [apply map_Forall_empty|]. pose proof (ri_store _ _ Hi) as [_ Hq].
    unfold share_kept in *. cbn [purge_all share set_share set_entries fst] in *. by destruct (share c).
  - eapply run_inv_entries; [exact Hi|done..|]. eapply entries_sub_kept; [apply Hi| |done]. apply map_filter_subseteq.
  - eapply run_inv_entries; [exact Hi|done..|]. pose proof (ri_store _ _ Hi) as [He Hq]. split; [exact He|].
    unfold share_kept in *. cbn [share set_share fst snd] in *. destruct (share c) as [s|]; [|done]. cbn [option_map write_response queue].
    destruct (queue s); [done|]. by inversion Hq.
Qed.

Lemma run_inv_reachable cfg max_value purged_at max_size sharing s :
  rtc cache_step (HttpCache_new cfg (if sharing : bool then Some (CacheShare_new max_value purged_at max_size) else None), [], []) s -> run_inv cfg s.
Proof.
  intros Hr. set (c0 := HttpCache_new cfg _) in Hr. assert (H0 : run_inv cfg (c0, [], [])).
  { split; cbn; try done; try (split; [constructor|done]); try constructor; [apply map_Forall_empty|]. unfold share_kept, c0. by destruct sharing; cbn. }
  revert Hr H0. generalize (c0, @nil Task, @nil Event). intros s0 Hr.
  induction Hr as [|s1 s2 s3 Hs Hr IH]; [done|]. intros H. apply IH. by eapply cache_run_inv_step.
Qed.

(** In every run of a cache, with requests, upstream answers, errors, disconnects, purges and
    evictions in any order, the flights are exact: the shared set holds exactly the keys that a
    running leader holds, and no two running requests lead the same key; the same holds for the
    background revalidations.  So no key stays blocked after its leader is gone, and an upstream
    gets at most one joined request and one revalidation of a key at a time. *)
Theorem flights_exact cfg max_value purged_at max_size sharing c ts log :
  rtc cache_step (HttpCache_new cfg (if sharing : bool then Some (CacheShare_new max_value purged_at max_size) else None), [], []) (c, ts, log) ->
  NoDup (omap task_guard ts) /\ (forall k, k ∈ in_flight c <-> k ∈ omap task_guard ts)
  /\ NoDup (omap task_revalidates ts) /\ (forall k, k ∈ revalidating c <-> k ∈ omap task_revalidates ts).
Proof.
  intros Hr. apply run_inv_reachable in Hr as [_ [H1 H2] [H3 H4] _ _ _]. cbn [fst snd] in *.
  split; [done|]. split; [intros k; rewrite H2; unfold held; apply elem_of_list_to_set|].
  split; [done|]. intros k. rewrite H4. unfold held. apply elem_of_list_to_set.
Qed.

(** C4: Private responses are never kept or served to others.  In every run, whatever the upstream
    answers and however stored responses are refreshed by later [304] answers, each stored
    response of a key comes from an answer of the upstream to a request of this key, or from a node
    that keeps the same rules, with a cacheable status and no [no-store], [private] or [Set-Cookie];
    the answer to a request with [Authorization] is kept, and refreshes what is kept, only when its
    [Cache-Control] says [public], [s-maxage] or [must-revalidate]; this node puts nothing else into
    the store of the cluster; and each answer from the cache goes to a request of the key that allows
    it, with the [Vary] values of the kept response, which is fresh, within its
    stale-while-revalidate window, or confirmed by a [304] to this request. *)
Theorem cache_serves_only_storable cfg max_value purged_at max_size sharing c ts log :
  rtc cache_step (HttpCache_new cfg (if sharing : bool then Some (CacheShare_new max_value purged_at max_size) else None), [], []) (c, ts, log) ->
  (forall k e x, entries c !! k = Some (e, x) -> kept log k (head e) /\ safe_head (head e))
  /\ (forall s k sr, share c = Some s -> Put k sr ∈ queue s ->
        exists e at_ms, kept log k (head e) /\ safe_head (head e) /\ to_shared e at_ms = Some sr)
  /\ (forall a, Answered a ∈ log -> answer_ok log cfg a).
Proof.
  intros Hr. apply run_inv_reachable in Hr as [_ _ _ [H4 H5] _ H6]. cbn [fst snd] in *. rewrite Forall_forall in H6.
  assert (Ha : adopted_safe log) by (intros k sr Hin; exact (H6 _ Hin)). split_and!.
  - intros k e x He. specialize (H4 _ _ He). cbn in H4. split; [done|]. by eapply kept_safe.
  - intros s k sr Es Hin. unfold share_kept in H5. rewrite Es in H5. rewrite Forall_forall in H5.
    destruct (H5 _ Hin) as (e & t & Hk & Et). exists e, t. split; [done|]. split; [by eapply kept_safe|done].
  - intros a Hin. exact (H6 _ Hin).
Qed.
End Safe.
End Runs.
