(* ===== verification/CacheProps.v ===== *)
(** * Bodies, ages and the shared budget of the HTTP cache

    What the recorder stores of a body, and three behaviours of [proxy/http/cache.rs] and
    [proxy/http/cache_share.rs] that are stated as they are: [no-cache] responses that are served
    stale, revalidated responses whose age is forgotten, and a budget that is never given back. *)

From Stdlib Require Import Ascii.
From S2P Require Import Prelude Basics IpText Net Headers Cache CacheStore CacheRuns.

Section Recorder.
Context `{HDR : HeaderOps} `{CODECS : CacheCodecs}.

(** The body of a response as the recorder sees it; [now] and [unix_ms] are read at its end. *)
Fixpoint run_polls (ps : list Poll) (now : Instant) (unix_ms : Z) (r : Recorder) (c : HttpCache) : Recorder * HttpCache :=
  match ps with
  | [] => (r, c)
  | p :: rest => let '(r, c) := poll_frame p now unix_ms r c in run_polls rest now unix_ms r c
  end.

(** The data of the frames. *)
Definition poll_data (ps : list Poll) : bytes :=
  flat_map (fun p => match p with PollFrame (Data d) => d | _ => [] end) ps.

Definition is_data (p : Poll) : bool := match p with PollFrame (Data _) => true | _ => false end.

(** A complete body: data frames up to the announced length, or data frames and a clean end of
    a chunked body. *)
Definition complete (expected : option Z) (chunked : bool) (ps : list Poll) : Prop :=
  match expected with
  | Some n => blen (poll_data ps) = n /\ exists ds tail, ps = ds ++ tail /\ forallb is_data ds = true
                 /\ (tail = [] \/ exists b, tail = [PollEnd b])
  | None => chunked = true /\ exists ds, ps = ds ++ [PollEnd true] /\ forallb is_data ds = true
  end.

Lemma guard_cleanup_entries g c : entries (guard_cleanup g c) = entries c.
Proof. by destruct g. Qed.

(** A recorder without a head stores nothing more. *)
Lemma run_polls_dead ps now unix_ms r c : r_head r = None -> entries (run_polls ps now unix_ms r c).2 = entries c.
Proof.
  revert r c. induction ps as [|p ps IH]; intros r c Hr; [done|]. cbn [run_polls].
  destruct (poll_frame p now unix_ms r c) as [r' c'] eqn:E.
  assert (H : r_head r' = None /\ entries c' = entries c).
  { destruct p as [[d|]| |b]; cbn [poll_frame record] in E; unfold abort, finish in E; rewrite ?Hr in E;
      cbn [is_none is_some negb] in E; injection E as <- <-; by rewrite ?guard_cleanup_entries. }
  destruct H as [H1 H2]. by rewrite IH, H2.
Qed.

(** The entry of a recorder that has its whole body. *)
Definition recorded (h : StoredHead) (k : string) (b : bytes) (now : Instant) (c : HttpCache) :=
  entries (entries_insert k (mkCachedResponse h b now) now c).

Lemma entries_insert_share k e now c s : entries (entries_insert k e now (set_share s c)) = entries (entries_insert k e now c).
Proof. unfold entries_insert. cbn [config set_share]. by destruct (_ <=? _). Qed.

Lemma finish_entries b now unix_ms r c h :
  r_head r = Some h ->
  r_head (finish b now unix_ms r c).1 = None
  /\ (entries (finish b now unix_ms r c).2 = entries c
      \/ (entries (finish b now unix_ms r c).2 = recorded h (r_key r) (buffer r) now c
          /\ match expected r with Some n => blen (buffer r) = n | None => chunked r = true /\ b = true end)).
Proof.
  intros Hh. unfold finish. rewrite Hh. destruct (is_some_and _ _ || _) eqn:E; cbn [fst snd r_head].
  - rewrite guard_cleanup_entries. auto.
  - apply orb_false_elim in E as [E1 E2]. rewrite guard_cleanup_entries, entries_insert_share. split; [done|]. right. split; [done|].
    destruct (expected r) as [n|]; cbn in E1, E2; [zbool; lia|]. apply orb_false_elim in E2 as [E2 E3]. by zbool.
Qed.

Lemma run_polls_finish b ps now unix_ms r c h :
  r_head r = Some h ->
  let c' := (let '(r, c) := finish b now unix_ms r c in run_polls ps now unix_ms r c).2 in
  entries c' = entries c
  \/ (entries c' = recorded h (r_key r) (buffer r) now c
      /\ match expected r with Some n => blen (buffer r) = n | None => chunked r = true /\ b = true end).
Proof.
  intros Hh. destruct (finish_entries b now unix_ms r c h Hh) as [H1 H2].
  destruct (finish b now unix_ms r c) as [r3 c3]. cbn [fst snd] in *. by rewrite run_polls_dead.
Qed.

Lemma run_polls_abort ps now unix_ms r c :
  entries (let '(r, c) := abort r c in run_polls ps now unix_ms r c).2 = entries c.
Proof. cbn [abort]. rewrite run_polls_dead by done. apply guard_cleanup_entries. Qed.

Lemma poll_data_snoc dn p : poll_data (dn ++ [p]) = poll_data dn ++ poll_data [p].
Proof. unfold poll_data. by rewrite flat_map_app. Qed.

(** A response is stored when its polls are complete. *)
Definition stores (ps : list Poll) (h : StoredHead) (expected : option Z) (mx : Z) (k : string) (chunked : bool)
    (now : Instant) (c c' : HttpCache) : Prop :=
  entries c' = entries c
  \/ exists body_polls rest, ps = body_polls ++ rest /\ complete expected chunked body_polls
       /\ blen (poll_data body_polls) <= mx
       /\ entries c' = recorded h k (poll_data body_polls) now c.

(** The end of a body whose data are in the buffer. *)
Lemma stores_end b dn ps h expected mx k g chunked now unix_ms c :
  forallb is_data dn = true -> blen (poll_data dn) <= mx ->
  stores (dn ++ PollEnd b :: ps) h expected mx k chunked now c
    (let '(r, c) := finish b now unix_ms (mkRecorder (Some h) (poll_data dn) expected mx k g chunked) c in
     run_polls ps now unix_ms r c).2.
Proof.
  intros Hd Hlen. destruct (run_polls_finish b ps now unix_ms (mkRecorder (Some h) (poll_data dn) expected mx k g chunked) c h
    eq_refl) as [H|[H1 H2]]; [by left|right]. cbn [CacheStore.expected buffer r_key CacheStore.chunked] in H1, H2.
  assert (Hdata : poll_data (dn ++ [PollEnd b]) = poll_data dn) by (rewrite poll_data_snoc; apply app_nil_r).
  exists (dn ++ [PollEnd b]), ps. rewrite <-app_assoc, Hdata. split; [done|]. split; [|done].
  unfold complete. rewrite Hdata. destruct expected as [n|].
  - split; [done|]. exists dn, [PollEnd b]. split; [done|]. split; [done|]. right. by exists b.
  - destruct H2 as [-> ->]. split; [done|]. by exists dn.
Qed.

(** The last data of a body of announced length. *)
Lemma stores_full dn ps h mx k g chunked now unix_ms c :
  forallb is_data dn = true -> blen (poll_data dn) <= mx ->
  let expected := Some (blen (poll_data dn)) in
  stores (dn ++ ps) h expected mx k chunked now c
    (let '(r, c) := finish true now unix_ms (mkRecorder (Some h) (poll_data dn) expected mx k g chunked) c in
     run_polls ps now unix_ms r c).2.
Proof.
  intros Hd Hlen expected. destruct (run_polls_finish true ps now unix_ms (mkRecorder (Some h) (poll_data dn) expected mx k g chunked) c h
    eq_refl) as [H|[H1 _]]; [by left|right]. cbn [buffer r_key] in H1.
  exists dn, ps. split; [done|]. split; [|done]. split; [done|]. exists dn, []. rewrite app_nil_r. auto.
Qed.

Lemma run_polls_stores ps dn h expected mx k g chunked now unix_ms c :
  forallb is_data dn = true -> blen (poll_data dn) <= mx ->
  stores (dn ++ ps) h expected mx k chunked now c
    (run_polls ps now unix_ms (mkRecorder (Some h) (poll_data dn) expected mx k g chunked) c).2.
Proof.
  revert dn c. induction ps as [|p ps IH]; intros dn c Hd Hlen; [by left|]. cbn [run_polls].
  destruct p as [[d|]| |b]; cbn [poll_frame record].
  - cbn [is_none is_some negb r_head buffer r_max_size].
    destruct (Z.ltb_spec mx (blen (poll_data dn) + blen d)) as [Hbig|Hfit]; [left; apply run_polls_abort|].
    assert (Hdata : poll_data dn ++ d = poll_data (dn ++ [PollFrame (Data d)])).
    { rewrite poll_data_snoc. cbn. by rewrite app_nil_r. }
    assert (Hd' : forallb is_data (dn ++ [PollFrame (Data d)]) = true) by (rewrite forallb_app, Hd; done).
    assert (Hlen' : blen (poll_data (dn ++ [PollFrame (Data d)])) <= mx)
      by (rewrite <-Hdata; unfold blen in *; rewrite length_app; lia).
    cbn [r_head CacheStore.expected r_key guard CacheStore.chunked]. rewrite Hdata, cons_middle, app_assoc.
    destruct (bool_decide_reflect (expected = Some (blen (poll_data (dn ++ [PollFrame (Data d)]))))) as [->|_];
      [by apply stores_full|by apply IH].
  - left. apply run_polls_abort.
  - left. apply run_polls_abort.
  - by apply stores_end.
Qed.

(** The other direction: a complete body within the limit is stored. *)
Definition whole (expected : option Z) (chunked : bool) (b : bytes) : Prop :=
  match expected with Some n => n = blen b | None => chunked = true end.

Lemma finish_records ps now unix_ms r c h :
  r_head r = Some h -> whole (expected r) (chunked r) (buffer r) ->
  entries (let '(r, c) := finish true now unix_ms r c in run_polls ps now unix_ms r c).2
  = recorded h (r_key r) (buffer r) now c.
Proof.
  intros Hh Hw. unfold finish. rewrite Hh.
  assert (E : is_some_and (fun length => negb (length =? blen (buffer r))) (expected r)
              || (is_none (expected r) && (negb (chunked r) || negb true)) = false).
  { unfold whole in Hw. destruct (expected r); cbn; [rewrite Hw, Z.eqb_refl; done|by rewrite Hw]. }
  rewrite E. rewrite run_polls_dead by done. by rewrite guard_cleanup_entries, entries_insert_share.
Qed.

Lemma run_polls_records ds dn h expected mx k g chunked now unix_ms c :
  forallb is_data ds = true -> blen (poll_data (dn ++ ds)) <= mx -> whole expected chunked (poll_data (dn ++ ds)) ->
  entries (run_polls (ds ++ [PollEnd true]) now unix_ms (mkRecorder (Some h) (poll_data dn) expected mx k g chunked) c).2
  = recorded h k (poll_data (dn ++ ds)) now c.
Proof.
  revert dn. induction ds as [|p ds IH]; intros dn Hd Hlen Hw.
  { rewrite app_nil_r in *. cbn [app run_polls poll_frame].
    by apply (finish_records [] now unix_ms (mkRecorder (Some h) (poll_data dn) expected mx k g chunked) c h). }
  destruct p as [[d|]| |b]; try done. cbn [app run_polls poll_frame record is_none is_some negb r_head buffer r_max_size].
  assert (Hs : dn ++ PollFrame (Data d) :: ds = (dn ++ [PollFrame (Data d)]) ++ ds) by (by rewrite <-app_assoc).
  rewrite Hs in *. specialize (IH (dn ++ [PollFrame (Data d)]) Hd Hlen Hw).
  assert (Hdata : poll_data dn ++ d = poll_data (dn ++ [PollFrame (Data d)])).
  { rewrite poll_data_snoc. cbn. by rewrite app_nil_r. }
  assert (Happ : poll_data ((dn ++ [PollFrame (Data d)]) ++ ds) = poll_data (dn ++ [PollFrame (Data d)]) ++ poll_data ds)
    by (unfold poll_data; by rewrite flat_map_app).
  rewrite Happ in Hlen, Hw |- *. unfold blen in Hlen. rewrite <-Hdata in Hlen. rewrite !length_app in Hlen.
  destruct (Z.ltb_spec mx (blen (poll_data dn) + blen d)) as [Hbig|_]; [unfold blen in Hbig; lia|].
  cbn [r_head CacheStore.expected r_key guard CacheStore.chunked]. rewrite Hdata.
  destruct (bool_decide_reflect (expected = Some (blen (poll_data (dn ++ [PollFrame (Data d)]))))) as [->|_];
    [|by rewrite <-Happ].
  assert (Hnil : poll_data ds = []).
  { cbn [whole] in Hw. unfold blen in Hw. rewrite length_app in Hw. destruct (poll_data ds); [done|cbn in Hw; lia]. }
  rewrite Hnil, app_nil_r. by apply finish_records.
Qed.

(** A stored body is complete.  Whatever the upstream sends, and in whatever pieces, the
    recorder stores at most one response; its body is the data of the frames, in their order, no
    longer than the limit; it has exactly the announced length, or it is a chunked body that
    ended cleanly.  A body with trailers, an error, a wrong length or a dirty end stores
    nothing.  And every body of data frames that ends cleanly within the limit, with the
    announced length or chunked, is stored. *)
Theorem recorder_complete ps h expected mx k g chunked now unix_ms c :
  0 <= mx ->
  let r := mkRecorder (Some h) [] expected mx k g chunked in
  (let c' := (run_polls ps now unix_ms r c).2 in
   entries c' = entries c
   \/ exists body_polls rest, ps = body_polls ++ rest /\ complete expected chunked body_polls
        /\ blen (poll_data body_polls) <= mx
        /\ entries c' = recorded h k (poll_data body_polls) now c)
  /\ (forallb is_data ps = true -> blen (poll_data ps) <= mx -> whole expected chunked (poll_data ps) ->
      entries (run_polls (ps ++ [PollEnd true]) now unix_ms r c).2 = recorded h k (poll_data ps) now c).
Proof.
  intros Hmx r. split; [exact (run_polls_stores ps [] h expected mx k g chunked now unix_ms c eq_refl Hmx)|].
  exact (run_polls_records ps [] h expected mx k g chunked now unix_ms c).
Qed.
End Recorder.

(** ** Behaviours that are stated as they are *)

Section Behaviours.
Context `{HDR : HeaderOps} `{CODECS : CacheCodecs}.

(** A response with [Cache-Control: no-cache] is served without validation.  Its freshness is
    zero, so within the configured stale-while-revalidate window the cache counts it as stale but
    servable, and answers from it while the revalidation only starts. *)
Theorem no_cache_served_stale r e answer now_ms now system_now ttl c :
  let swr := stale_while_revalidate (config c) in
  lookup_allowed r = true -> matches e (req_headers r) = true ->
  entries_get (key r) now c = Some e ->
  has_directive (headers (head e)) "cache-control" "no-cache" = true ->
  head_freshness (head e) = freshness (headers (head e)) ttl system_now ->
  directive_seconds (headers (head e)) "stale-while-revalidate" = None ->
  0 <= initial_age (head e) -> response_age e now < swr ->
  exists ts c', fetch r answer now_ms now c = (ts, Some (mkAnswer Stale r e now), c').
Proof.
  intros swr Hl Hm Hg Hn Hf Hd Hi Ha. unfold freshness in Hf. rewrite Hn in Hf.
  assert (Hage : 0 <= response_age e now) by (unfold response_age, duration_since; lia).
  unfold fetch, find_stored, stored. rewrite Hl, Hg, Hm. cbn [negb].
  assert (Efresh : is_fresh e now = false) by (unfold is_fresh; rewrite Hf; apply Z.ltb_ge; lia). rewrite Efresh.
  assert (Estale : is_stale_revalidatable e swr now = true).
  { unfold is_stale_revalidatable, swr_of. rewrite Hd, Hf. cbn [unwrap_or]. unfold is_zero.
    destruct (Z.eqb_spec swr 0); [lia|]. apply andb_true_intro. split; [apply Z.leb_le|apply Z.ltb_lt]; lia. }
  fold swr. rewrite Estale. cbn [mark_revalidating]. eauto.
Qed.

(** A background revalidation forgets the age of the new response.  When the upstream answers
    with a response that other caches have already kept for its whole lifetime, the request path
    stores it as stale, but the revalidation stores it as fresh. *)
Theorem revalidation_ignores_age r e res now system_now c vs :
  let h := res_headers res in
  let fresh := freshness h (default_ttl (config c)) system_now in
  res_status res <> 304 -> is_storable (res_status res) h (authorized r) = true -> is_head r = false ->
  blen (res_body res) <= max_entry_size (config c) -> vary_values h (req_headers r) = Some vs ->
  0 < fresh <= age h ->
  lifetime (stale_while_revalidate (config c)) (mkCachedResponse (mkStoredHead (res_status res) h vs 0 fresh) (res_body res) now)
    <= DURATION_MAX ->
  0 <= swr_of (mkCachedResponse (mkStoredHead (res_status res) h vs 0 fresh) (res_body res) now)
         (stale_while_revalidate (config c)) ->
  (forall hd, storable_head r res system_now c = Some hd ->
     is_fresh (mkCachedResponse hd (res_body res) now) now = false)
  /\ exists e', entries_get (key r) now (run_background_revalidation r e (Some res) now system_now c) = Some e'
       /\ is_fresh e' now = true.
Proof.
  intros h fresh H304 Hst Hh Hb Hv Hage Hlife Hswr. split.
  - intros hd. unfold storable_head. fold h fresh. intros H. repeat (case_match; try done). rewrite Hv in H. injection H as <-.
    unfold is_fresh, response_age. cbn [head initial_age head_freshness stored_at]. apply Z.ltb_ge.
    unfold duration_since. lia.
  - unfold run_background_revalidation. fold h fresh. rewrite (proj2 (Z.eqb_neq _ _) H304), Hst, Hh. cbn [negb orb].
    destruct (Z.ltb_spec (max_entry_size (config c)) (blen (res_body res))); [lia|]. rewrite Hv.
    set (e' := mkCachedResponse _ _ _) in *. exists e'. unfold entries_insert. destruct (Z.leb_spec (lifetime (stale_while_revalidate (config c)) e') DURATION_MAX); [|lia].
    unfold entries_get. cbn [entries set_entries]. rewrite lookup_insert_eq.
    assert (Hfresh : is_fresh e' now = true).
    { unfold is_fresh, response_age, e', duration_since. cbn [head initial_age head_freshness stored_at]. apply Z.ltb_lt. lia. }
    assert (Hpos : 0 < lifetime (stale_while_revalidate (config c)) e').
    { unfold lifetime. change (head_freshness (head e')) with fresh. change (initial_age (head e')) with 0.
      unfold sat_sub. assert (0 <= if has_validator (headers (head e')) then REVALIDATION_WINDOW else 0).
      { destruct (has_validator _); unfold REVALIDATION_WINDOW, from_secs; lia. }
      destruct Hage as [Hpos _]. rewrite Z.sub_0_r, Z.max_l by (apply Z.lt_le_incl; exact Hpos).
      apply Z.add_pos_nonneg; [by apply Z.add_pos_nonneg|done]. }
    destruct (Z.ltb_spec now (now + lifetime (stale_while_revalidate (config c)) e')); [done|lia].
Qed.
End Behaviours.

(** ** The budget of the shared store *)

Inductive share_step : CacheShare -> CacheShare -> Prop :=
| share_offer s k r : share_step s (offer k r s)
| share_delete s k : share_step s (share_invalidate k s)
| share_write s : share_step s (write_response s).

Definition share_wf (s : CacheShare) : Prop := 0 <= current_size s /\ share_max_size s < u64_max.

Lemma size_positive r : ENTRY_OVERHEAD <= SharedResponse_size r.
Proof.
  unfold SharedResponse_size. assert (0 <= str_len (sr_body r)) by (unfold str_len; lia).
  assert (0 <= sumZ (fun nv => str_len nv.1 + str_len nv.2) (sr_headers r)) by (apply sumZ_nonneg; intros; unfold str_len; lia).
  lia.
Qed.

Lemma try_send_frame cmd s s' :
  try_send cmd s = Some s' -> current_size s' = current_size s /\ share_max_size s' = share_max_size s.
Proof. unfold try_send. destruct (Nat.ltb _ _); [|done]. by intros [= <-]. Qed.

Lemma offer_cases k r s :
  offer k r s = s
  \/ exists s1, try_send (Put k r) s = Some s1
       /\ sat_add u64_max (current_size s) (SharedResponse_size r) <= share_max_size s
       /\ offer k r s = mkCacheShare (max_value s1) (share_max_size s1) (purged_at s1)
                          (wrap64 (current_size s1 + SharedResponse_size r)) (queue s1).
Proof.
  unfold offer. cbn zeta. destruct (_ || _); [by left|].
  destruct (Z.ltb_spec (share_max_size s) (sat_add u64_max (current_size s) (SharedResponse_size r))); [by left|].
  destruct (try_send (Put k r) s) as [s1|]; [right|by left]. by exists s1.
Qed.

Lemma budget_sum cur size mx :
  0 <= cur -> mx < u64_max -> 0 <= size -> sat_add u64_max cur size <= mx -> cur <= wrap64 (cur + size).
Proof.
  unfold sat_add, wrap64, u64_max. intros H1 H2 H3 H4. rewrite Z.mod_small; lia.
Qed.

Lemma offer_grows k r s :
  share_wf s ->
  share_max_size (offer k r s) = share_max_size s /\ current_size s <= current_size (offer k r s).
Proof.
  intros [H1 H2]. destruct (offer_cases k r s) as [->|(s1 & E & Hfit & ->)]; [split; [done|apply Z.le_refl]|].
  apply try_send_frame in E as [E1 E2]. cbn [current_size share_max_size]. rewrite E1. split; [exact E2|].
  apply (budget_sum _ _ (share_max_size s)); [done|done| |done].
  pose proof (size_positive r) as Hr. etrans; [|exact Hr]. done.
Qed.

Lemma share_step_grows s s' :
  share_wf s -> share_step s s' ->
  share_max_size s' = share_max_size s /\ current_size s <= current_size s'.
Proof.
  intros Hw Hs. destruct Hs as [s k r|s k|s].
  - by apply offer_grows.
  - unfold share_invalidate. destruct (try_send (Delete k) s) as [s1|] eqn:E; cbn [unwrap_or]; [|by split].
    apply try_send_frame in E as [-> ->]. by split.
  - split; [reflexivity|apply Z.le_refl].
Qed.

(** The budget of the shared store is never given back.  Whatever the node shares, deletes and
    writes afterwards, the counter of shared bytes does not shrink, not when a response is
    replaced, deleted or expires; once the budget is used up, the node shares nothing more until
    its cache is purged. *)
Theorem share_budget_never_recovers s s' :
  share_wf s -> rtc share_step s s' ->
  current_size s <= current_size s'
  /\ (share_max_size s < current_size s + ENTRY_OVERHEAD ->
      forall remaining body_len, 0 <= body_len -> accepts s' remaining body_len = false).
Proof.
  intros Hw Hr. assert (H : share_wf s' /\ share_max_size s' = share_max_size s /\ current_size s <= current_size s').
  { induction Hr as [s|s1 s2 s3 Hs Hr IH]; [done|]. destruct (share_step_grows _ _ Hw Hs) as (H2 & H3).
    assert (H1 : share_wf s2) by (destruct Hw; split; [lia|congruence]).
    destruct (IH H1) as (H4 & H5 & H6). split; [done|]. split; [congruence|lia]. }
  destruct H as ([H1 H2] & H3 & H4). split; [done|]. intros Hfull remaining body_len Hlen. unfold accepts.
  assert (Hover : (sat_add u64_max (current_size s') ((body_len + 2) / 3 * 4 + ENTRY_OVERHEAD) <=? share_max_size s') = false).
  { apply Z.leb_gt. unfold sat_add. assert (0 <= (body_len + 2) / 3) by (apply Z.div_pos; lia).
    unfold ENTRY_OVERHEAD in *. lia. }
  cbn zeta. rewrite Hover. apply andb_false_r.
Qed.

(** ** A run

    A request of [http example.com /a] leads, the upstream answers [200] with two bytes that stay
    fresh for a minute, and a second request gets them from the cache. *)

Definition plain_codecs : CacheCodecs := {|
  parse_http_date _ := None;
  b64_encode _ := "";
  b64_decode _ := None;
|}.

(** The list of fields, with every text as a name. *)
Definition stored_header_ops : HeaderOps := {|
  Headers := list (string * string);
  h_empty := [];
  h_get := h_get (HeaderOps := plain_header_ops);
  h_get_all := h_get_all (HeaderOps := plain_header_ops);
  h_contains := h_contains (HeaderOps := plain_header_ops);
  h_keys := h_keys (HeaderOps := plain_header_ops);
  h_iter h := h;
  h_remove := h_remove (HeaderOps := plain_header_ops);
  h_append := h_append (HeaderOps := plain_header_ops);
  h_insert := h_insert (HeaderOps := plain_header_ops);
  to_str := to_str (HeaderOps := plain_header_ops);
  name_from_bytes n := Some n;
  value_from_str v := Some v;
|}.

#[export] Instance stored_header_laws : HeaderLaws stored_header_ops.
Proof. destruct plain_header_laws. split; assumption. Qed.

#[export] Instance stored_shared_laws : SharedHeaderLaws stored_header_ops.
Proof.
  split; [done|done|]. intros v s H. apply (to_str_same (HeaderLaws := plain_header_laws)) in H. by subst.
Qed.

Module Example.
#[local] Existing Instance stored_header_ops.
#[local] Existing Instance plain_codecs.

Definition cfg : CacheConfig := mkCacheConfig true DEFAULT_MAX_SIZE DEFAULT_MAX_ENTRY_SIZE 0 (from_secs 30).
Definition request : CacheRequest := mkCacheRequest "http example.com /a" false [] true false false "example.com" "/a".
Definition ok_headers : Headers := [("cache-control", "max-age=60"); ("content-length", "2")].
Definition c0 : HttpCache := HttpCache_new cfg None.
Definition c1 : HttpCache := (fetch request None 0 0 c0).2.
Definition rec1 : Recorder :=
  mkRecorder (Some (mkStoredHead 200 ok_headers [] 0 (from_secs 60))) [] (Some 2) DEFAULT_MAX_ENTRY_SIZE
    "http example.com /a" (Some "http example.com /a") false.
Definition c2 : HttpCache := (poll_frame (PollFrame (Data [104; 105])) 0 0 rec1 c1).2.
Definition entry : CachedResponse := mkCachedResponse (mkStoredHead 200 ok_headers [] 0 (from_secs 60)) [104; 105] 0.

Definition upstream_answer : Response := mkResponse 200 ok_headers [].
Definition run_log : list Event := [Received request upstream_answer; Answered (mkAnswer Hit request entry (from_secs 59))].

Lemma cache_run :
  rtc cache_step (c0, [], []) (c2, [Recording (poll_frame (PollFrame (Data [104; 105])) 0 0 rec1 c1).1], run_log).
Proof.
  eapply rtc_l.
  { apply (step_fetch c0 [] [] request None 0 0 [Fetching request None (Some (key request))] None c1); [done| |reflexivity].
    intros r H. done. }
  eapply rtc_l.
  { apply (step_upstream c1 _ [] request None (Some (key request)) [] (Some upstream_answer) 0 0
             [Recording rec1] None c1); [done|reflexivity]. }
  eapply rtc_l.
  { apply (step_poll c1 _ _ rec1 [] (PollFrame (Data [104; 105])) 0 0
             (poll_frame (PollFrame (Data [104; 105])) 0 0 rec1 c1).1 c2); [done|reflexivity]. }
  eapply rtc_l.
  { apply (step_fetch c2 _ _ request None 0 (from_secs 59) [] (Some (mkAnswer Hit request entry (from_secs 59))) c2);
      [done| |reflexivity]. intros r H. done. }
  apply rtc_refl.
Qed.
End Example.

Lemma flights_exact_witness :
  in_flight Example.c2 = ∅.
Proof.
  apply set_eq. intros k. destruct (flights_exact (HDR := stored_header_ops) (LAWS := stored_header_laws) (SHARED := stored_shared_laws) (CODECS := plain_codecs) Example.cfg 0 0 0 false Example.c2 _ _ Example.cache_run) as (_ & H & _).
  rewrite H. split; intros Hk; [cbn in Hk; by apply not_elem_of_nil in Hk|by apply elem_of_empty in Hk].
Defined.

Lemma cache_serves_only_storable_witness :
  is_fresh (HDR := stored_header_ops) Example.entry (from_secs 59) = true
  /\ exists x, entries Example.c2 !! "http example.com /a" = Some (Example.entry, x) /\ safe_head (HDR := stored_header_ops) (head Example.entry).
Proof.
  destruct (cache_serves_only_storable (HDR := stored_header_ops) (LAWS := stored_header_laws) (SHARED := stored_shared_laws) (CODECS := plain_codecs) Example.cfg 0 0 0 false Example.c2 _ _ Example.cache_run) as (He & _ & H).
  split; [apply (H (mkAnswer Hit Example.request Example.entry (from_secs 59))); right; left|].
  eexists. split; [vm_compute; reflexivity|]. eapply (He "http example.com /a"). vm_compute. reflexivity.
Defined.

Lemma recorder_complete_witness :
  entries (HDR := stored_header_ops)
    (run_polls (CODECS := plain_codecs) ([PollFrame (Data [104]); PollFrame (Data [105])] ++ [PollEnd true]) 5 0 Example.rec1 Example.c1).2
  = recorded (mkStoredHead (HDR := stored_header_ops) 200 Example.ok_headers [] 0 (from_secs 60)) "http example.com /a" [104; 105] 5 Example.c1.
Proof.
  refine (proj2 (recorder_complete (HDR := stored_header_ops) (CODECS := plain_codecs) [PollFrame (Data [104]); PollFrame (Data [105])]
    _ (Some 2) DEFAULT_MAX_ENTRY_SIZE "http example.com /a" (Some "http example.com /a") false 5 0 Example.c1 _) _ _ _);
    vm_compute; done.
Defined.

(** An entry with [no-cache] and an [ETag], thirty seconds of stale-while-revalidate. *)
Lemma no_cache_served_stale_witness :
  let h := [("cache-control", "no-cache"); ("etag", "x")] in
  let e := mkCachedResponse (HDR := stored_header_ops) (mkStoredHead (HDR := stored_header_ops) 200 h [] 0 0) [1] 0 in
  exists ts c', fetch (HDR := stored_header_ops) (CODECS := plain_codecs) Example.request None 0 (from_secs 29)
                  (entries_insert (HDR := stored_header_ops) "http example.com /a" e 0 Example.c0)
                = (ts, Some (mkAnswer Stale Example.request e (from_secs 29)), c').
Proof.
  intros h e.
  apply (no_cache_served_stale (HDR := stored_header_ops) (CODECS := plain_codecs) Example.request e None 0 (from_secs 29) 0 0
           (entries_insert (HDR := stored_header_ops) "http example.com /a" e 0 Example.c0)); vm_compute; done.
Defined.

(** A response of age 100 with a lifetime of 60 seconds. *)
Lemma revalidation_ignores_age_witness :
  let res := mkResponse (HDR := stored_header_ops) 200
               [("cache-control", "max-age=60"); ("age", "100"); ("content-length", "1")] [7] in
  exists e', entries_get (HDR := stored_header_ops) "http example.com /a" 5
      (run_background_revalidation (CODECS := plain_codecs) Example.request Example.entry (Some res) 5 0 Example.c0) = Some e'
    /\ is_fresh e' 5 = true.
Proof.
  intros res. refine (proj2 (revalidation_ignores_age (HDR := stored_header_ops) (CODECS := plain_codecs) Example.request Example.entry res 5 0 Example.c0
    [] _ _ _ _ _ _ _ _)); vm_compute; done.
Defined.

(** A budget of one entry. *)
Lemma share_budget_never_recovers_witness :
  let s := offer "k" (mkSharedResponse 200 [] [] 0 60 1 "aGk=") (CacheShare_new 1024 0 300) in
  current_size s = 260 /\ accepts (write_response s) (from_secs 60) 2 = false.
Proof.
  intros s. split; [by vm_compute|].
  refine (proj2 (share_budget_never_recovers s (write_response s) _ _) _ (from_secs 60) 2 _); [by vm_compute|apply rtc_once, share_write|by vm_compute|done].
Defined.
