(* ===== verification/Frames.v ===== *)
(** * Framed channels

    The frames of the agent link ([agent/frame.rs]), of the channel between the master and its
    worker ([server/ipc.rs]) and of gRPC messages ([grpc/proto.rs]).  A stream is the list of the
    bytes that the peer sends until it closes the connection.  The JSON text of a message
    ([serde_json]) is an interface. *)

From S2P Require Import Prelude Basics IpText.

Definition bytes := list Z.

Inductive FrameError : Type :=
| UnexpectedEof
| FrameTooLong
| InvalidJson.

(** [serde_json::to_vec] and [from_slice] at the type of a message. *)
Class JsonCodec (A : Type) : Type := {
  to_vec : A -> option bytes;
  from_slice : bytes -> option A;
}.

(** What is written is read back. *)
Class JsonLaws (A : Type) (J : JsonCodec A) : Prop := {
  from_to_vec a b : to_vec a = Some b -> from_slice b = Some a;
}.

Definition read_exact (n : nat) (s : bytes) : result (bytes * bytes) FrameError :=
  if Nat.leb n (length s) then Ok (take n s, drop n s) else Err UnexpectedEof.

(** [u32::to_le_bytes] and [u32::from_le_bytes]. *)
Definition le_bytes (n : nat) (x : Z) : bytes := rev (be_bytes n x).
Definition le_combine (l : bytes) : Z := be_combine (rev l).

Definition MAX_FRAME : Z := 8 * 1024 * 1024.
Definition MAX_FRAME_SIZE : Z := 64 * 1024 * 1024.

Section Frames.
Context {A : Type} `{J : JsonCodec A}.

(** ** The agent link *)

Definition agent_write_frame (value : A) : option bytes :=
  match to_vec value with
  | None => None
  | Some body =>
      let len := Z.of_nat (length body) in
      if (len <=? u32_max) && (len <=? MAX_FRAME) then Some (be_bytes 4 len ++ body) else None
  end.

Definition agent_read_frame (s : bytes) : result (A * bytes) FrameError :=
  let? r := read_exact 4 s in
  let len := be_combine r.1 in
  if MAX_FRAME <? len then Err FrameTooLong
  else
    let? b := read_exact (Z.to_nat len) r.2 in
    match from_slice b.1 with Some v => Ok (v, b.2) | None => Err InvalidJson end.

(** ** The worker channel *)

Definition ipc_write_frame (value : A) : option bytes :=
  match to_vec value with
  | None => None
  | Some body =>
      let len := Z.of_nat (length body) in
      if len <=? u32_max then Some (le_bytes 4 len ++ body) else None
  end.

Definition ipc_read_frame (s : bytes) : result (A * bytes) FrameError :=
  let? r := read_exact 4 s in
  let len := le_combine r.1 in
  if MAX_FRAME_SIZE <? len then Err FrameTooLong
  else
    let? b := read_exact (Z.to_nat len) r.2 in
    match from_slice b.1 with Some v => Ok (v, b.2) | None => Err InvalidJson end.
End Frames.

Definition write_payload (payload : bytes) : bytes := be_bytes 8 (Z.of_nat (length payload)) ++ payload.

(** [reader.take(length).read_to_end]: a short stream is an error. *)
Definition read_payload (limit : Z) (s : bytes) : result (bytes * bytes) FrameError :=
  let? r := read_exact 8 s in
  let len := be_combine r.1 in
  if limit <? len then Err FrameTooLong
  else read_exact (Z.to_nat len) r.2.

(** ** gRPC messages *)

(** The length is cast to 32 bits. *)
Definition encode_framed_grpc_message (payload : bytes) : bytes :=
  [0] ++ be_bytes 4 (Z.of_nat (length payload) mod 2 ^ 32) ++ payload.

Definition decode_framed_grpc_message (buf : bytes) : option (Z * bytes) :=
  match buf with
  | flag :: a :: b :: c :: d :: rest =>
      let len := Z.to_nat (be_combine [a; b; c; d]) in
      if Nat.leb (5 + len) (length buf) then Some (flag, take len rest) else None
  | _ => None
  end.

(** ** Facts *)

Lemma be_combine_be_bytes n x : 0 <= x < 256 ^ Z.of_nat n -> be_combine (be_bytes n x) = x.
Proof.
  intros Hx. etransitivity;
    [exact (fold_bytes 8 n x 0 be_bytes ltac:(lia) (fun _ _ => eq_refl) (fun _ => eq_refl))|].
  rewrite Z.mod_small by exact Hx. lia.
Qed.

Lemma be_bytes_length n x : length (be_bytes n x) = n.
Proof. induction n; cbn; [done|]. by f_equal. Qed.

Lemma le_combine_le_bytes n x : 0 <= x < 256 ^ Z.of_nat n -> le_combine (le_bytes n x) = x.
Proof. intros Hx. unfold le_combine, le_bytes. rewrite rev_involutive. by apply be_combine_be_bytes. Qed.

Lemma read_frame_part n h s : length h = n -> read_exact n (h ++ s) = Ok (h, s).
Proof.
  intros <-. unfold read_exact. rewrite length_app. destruct (Nat.leb_spec (length h) (length h + length s)); [|lia].
  by rewrite take_app_length, drop_app_length.
Qed.

Lemma read_exact_inv n s a b : read_exact n s = Ok (a, b) -> s = a ++ b /\ length a = n.
Proof.
  unfold read_exact. destruct (Nat.leb_spec n (length s)); [|done]. intros [= <- <-].
  split; [by rewrite take_drop|]. rewrite length_take. lia.
Qed.

Section Properties.
Context {A : Type} `{J : JsonCodec A}.

(** Frames survive the channel.  A message that the writer accepts, followed by any other
    bytes, is read back with those bytes left in the stream: for the agent link, for its payloads
    up to the reader's limit, for the worker channel up to 64 MiB, and for gRPC messages below
    4 GiB.  What a reader takes is bounded: the agent link never reads more than 8 MiB for a
    frame, and no reader takes bytes of the next frame. *)
Theorem frames_roundtrip {LAWS : JsonLaws A J} (v : A) (payload rest : bytes) (limit : Z) :
  (forall w, agent_write_frame v = Some w -> agent_read_frame (w ++ rest) = Ok (v, rest))
  /\ (Z.of_nat (length payload) <= limit -> Z.of_nat (length payload) <= u64_max ->
      read_payload limit (write_payload payload ++ rest) = Ok (payload, rest))
  /\ (forall w, ipc_write_frame v = Some w -> Z.of_nat (length w) <= MAX_FRAME_SIZE + 4 ->
      ipc_read_frame (w ++ rest) = Ok (v, rest))
  /\ (Z.of_nat (length payload) < 2 ^ 32 ->
      decode_framed_grpc_message (encode_framed_grpc_message payload ++ rest) = Some (0, payload))
  /\ (forall s a b, agent_read_frame s = Ok (a, b) ->
      exists h, s = h ++ b /\ Z.of_nat (length h) <= MAX_FRAME + 4).
Proof.
  split; [|split; [|split; [|split]]].
  - intros w. unfold agent_write_frame. destruct (to_vec v) as [body|] eqn:Ev; [|done].
    destruct (_ && _) eqn:El; [|done]. intros Hw%(inj Some). subst w. zbool. unfold agent_read_frame.
    rewrite <-app_assoc, (read_frame_part 4) by apply be_bytes_length. cbn [and_then fst snd].
    rewrite be_combine_be_bytes by (unfold u32_max in *; lia).
    destruct (Z.ltb_spec MAX_FRAME (Z.of_nat (length body))); [lia|]. rewrite Nat2Z.id, read_frame_part by done.
    cbn [and_then fst snd]. by rewrite (from_to_vec _ _ Ev).
  - intros Hl Hu. unfold read_payload, write_payload. rewrite <-app_assoc, (read_frame_part 8) by apply be_bytes_length.
    cbn [and_then fst snd]. rewrite be_combine_be_bytes by (unfold u64_max in *; lia).
    destruct (Z.ltb_spec limit (Z.of_nat (length payload))); [lia|]. by rewrite Nat2Z.id, read_frame_part.
  - intros w. unfold ipc_write_frame. destruct (to_vec v) as [body|] eqn:Ev; [|done].
    destruct (_ <=? _) eqn:El; [|done]. intros E%(inj Some) Hw. subst w. zbool. unfold ipc_read_frame.
    assert (Hlen : length (le_bytes 4 (Z.of_nat (length body))) = 4%nat) by (unfold le_bytes; by rewrite length_rev, be_bytes_length).
    rewrite length_app, Hlen in Hw. rewrite <-app_assoc, (read_frame_part 4) by done. cbn [and_then fst snd].
    rewrite le_combine_le_bytes by (unfold u32_max in *; lia).
    destruct (Z.ltb_spec MAX_FRAME_SIZE (Z.of_nat (length body))); [lia|]. rewrite Nat2Z.id, read_frame_part by done.
    cbn [and_then fst snd]. by rewrite (from_to_vec _ _ Ev).
  - intros Hl. unfold encode_framed_grpc_message. rewrite Z.mod_small by lia.
    pose proof (be_combine_be_bytes 4 (Z.of_nat (length payload)) ltac:(lia)) as Hc. revert Hc.
    generalize (be_bytes_length 4 (Z.of_nat (length payload))). generalize (be_bytes 4 (Z.of_nat (length payload))).
    intros [|a [|b [|c [|d [|e l]]]]]; try done. intros _ Hc. cbn [app decode_framed_grpc_message].
    rewrite Hc, Nat2Z.id. cbn [length]. rewrite length_app.
    destruct (Nat.leb_spec (5 + length payload) (S (S (S (S (S (length payload + length rest))))))); [|lia].
    by rewrite take_app_length.
  - intros s a b. unfold agent_read_frame. destruct (read_exact 4 s) as [[h r]|] eqn:E1; [|done].
    cbn [and_then fst snd]. destruct (Z.ltb_spec MAX_FRAME (be_combine h)); [done|].
    destruct (read_exact (Z.to_nat (be_combine h)) r) as [[x y]|] eqn:E2; [|done]. cbn [and_then fst snd].
    destruct (from_slice x); [|done]. intros [= <- <-]. apply read_exact_inv in E1 as [-> E1], E2 as [-> E2].
    exists (h ++ x). split; [by rewrite app_assoc|]. rewrite length_app. unfold MAX_FRAME in *. lia.
Qed.

(** The worker channel writes frames that it does not read: a message between 64 MiB and 4 GiB is
    sent whole, and the other side refuses it. *)
Lemma ipc_writer_exceeds_reader (v : A) body rest :
  to_vec v = Some body -> MAX_FRAME_SIZE < Z.of_nat (length body) <= u32_max ->
  exists w, ipc_write_frame v = Some w /\ ipc_read_frame (w ++ rest) = Err FrameTooLong.
Proof.
  intros Ev Hl. unfold ipc_write_frame. rewrite Ev. destruct (Z.leb_spec (Z.of_nat (length body)) u32_max); [|lia].
  eexists. split; [done|]. unfold ipc_read_frame.
  assert (Hlen : length (le_bytes 4 (Z.of_nat (length body))) = 4%nat) by (unfold le_bytes; by rewrite length_rev, be_bytes_length).
  rewrite <-app_assoc, (read_frame_part 4) by done. cbn [and_then fst snd].
  rewrite le_combine_le_bytes by (unfold u32_max, MAX_FRAME_SIZE in *; lia).
  by destruct (Z.ltb_spec MAX_FRAME_SIZE (Z.of_nat (length body))); [|lia].
Qed.
End Properties.

(** Messages that are their own text. *)
Definition plain_json : JsonCodec bytes := {| to_vec := Some; from_slice := Some |}.
#[export] Instance plain_json_laws : JsonLaws bytes plain_json.
Proof. split. intros a b. by intros [= ->]. Qed.

Lemma frames_roundtrip_witness :
  agent_read_frame (J := plain_json) ([0; 0; 0; 2; 7; 8] ++ [9]) = Ok ([7; 8], [9])
  /\ read_payload 4 (write_payload [5] ++ [6]) = Ok ([5], [6]).
Proof.
  destruct (frames_roundtrip (J := plain_json) (LAWS := plain_json_laws) [7; 8] [5] [9] 4) as (H1 & _).
  destruct (frames_roundtrip (J := plain_json) (LAWS := plain_json_laws) [7; 8] [5] [6] 4) as (_ & H2 & _).
  split; [by apply H1|apply H2; vm_compute; done].
Defined.
