(* ===== verification/Protobuf.v ===== *)
(** * Protobuf messages without a schema

    [grpc/proto.rs]: varints, tags and fields, and the translation between JSON values and the
    Protobuf wire format that dynamic gRPC calls use.  The buffers are lists of bytes; a reader
    takes the data and an offset.  Decoding can panic, because the end of a field is computed in
    64 bits without a check. *)

From Stdlib Require Import Ascii.
From S2P Require Import Prelude Basics IpText Net.

Definition bytes := list Z.

Definition MAX_RECURSION_DEPTH : nat := 32.

(** ** JSON values

    A number is an unsigned or a negative integer, or the bits of a finite [f64]; an object is a
    [BTreeMap], the list of its fields by ascending key. *)

Inductive Number : Type :=
| PosInt (n : Z)
| NegInt (n : Z)
| Float (bits : Z).

Inductive Value : Type :=
| VNull
| VBool (b : bool)
| VNumber (n : Number)
| VString (s : string)
| VArray (l : list Value)
| VObject (m : list (string * Value)).

(** ** Varints *)

(** One turn of the loop of [write_varint] per unit of fuel: seven bits of the value each. *)
Fixpoint write_varint_loop (fuel : nat) (val : Z) : bytes :=
  match fuel with
  | O => []
  | S f => if 128 <=? val then Z.lor (Z.land val 127) 128 :: write_varint_loop f (Z.shiftr val 7) else [val]
  end.

(** A 64-bit value has at most ten groups of seven bits. *)
Definition write_varint (val : Z) : bytes := write_varint_loop 10 val.

(** The loop of [read_varint] over the bytes from the offset on. *)
Fixpoint read_varint_loop (rest : bytes) (offset : nat) (shift val : Z) : option (Z * nat) :=
  match rest with
  | [] => None
  | b :: rest =>
      let val := Z.lor val (wrap64 (Z.shiftl (Z.land b 127) shift)) in
      if Z.land b 128 =? 0 then Some (val, S offset)
      else if 64 <=? shift + 7 then None
      else read_varint_loop rest (S offset) (shift + 7) val
  end.

Definition read_varint (data : bytes) (offset : nat) : option (Z * nat) :=
  read_varint_loop (drop offset data) offset 0 0.

Definition write_tag (field_number wire_type : Z) : bytes :=
  write_varint (Z.lor (wrap64 (Z.shiftl field_number 3)) (Z.land wire_type 7)).

Definition write_bytes_field (field_number : Z) (b : bytes) : bytes :=
  write_tag field_number 2 ++ write_varint (Z.of_nat (length b)) ++ b.

Definition write_string_field (field_number : Z) (s : string) : bytes := write_bytes_field field_number (as_bytes s).

(** ** JSON to Protobuf *)

Definition i64_as_u64 (n : Z) : Z := wrap64 n.

Definition le64 (x : Z) : bytes := rev (be_bytes 8 x).
Definition le_value (l : bytes) : Z := be_combine (rev l).

(** [as_i64], [as_u64] and [as_f64] of a number, in the order of the code. *)
Definition encode_json_number (tag_num : Z) (n : Number) : bytes :=
  match n with
  | PosInt n => write_tag tag_num 0 ++ write_varint n
  | NegInt n => write_tag tag_num 0 ++ write_varint (i64_as_u64 n)
  | Float bits => write_tag tag_num 1 ++ le64 bits
  end.

(** The field number of a key: from the schema, from the key, or from its place. *)
Definition tag_of (schema : option (list (string * Z))) (idx : nat) (key : string) : Z :=
  match match schema with Some s => option_map snd (find (fun e => String.eqb e.1 key) s) | None => None end with
  | Some n => n
  | None => match parse_uint u32_max key with Some n => n | None => (Z.of_nat idx + 1) mod 2 ^ 32 end
  end.

(** [fuel] is [MAX_RECURSION_DEPTH - depth]: the depth of objects that are still encoded. *)
Fixpoint encode_object (schema : option (list (string * Z))) (fuel : nat) (m : list (string * Value)) : bytes :=
  match fuel with
  | O => []
  | S f =>
      let fix encode_field (tag_num : Z) (v : Value) : bytes :=
        match v with
        | VString s => write_string_field tag_num s
        | VBool b => write_tag tag_num 0 ++ write_varint (if b then 1 else 0)
        | VNumber n => encode_json_number tag_num n
        | VObject m => write_bytes_field tag_num (encode_object schema f m)
        | VArray items => flat_map (encode_field tag_num) items
        | VNull => []
        end in
      concat (imap (fun idx kv => encode_field (tag_of schema idx kv.1) kv.2) m)
  end.

Definition json_to_protobuf (v : Value) (schema : option (list (string * Z))) : bytes :=
  match v with VObject m => encode_object schema MAX_RECURSION_DEPTH m | _ => [] end.

(** ** Protobuf to JSON *)

(** What a reader comes to: a value, no value, or a panic. *)
Inductive outcome (A : Type) : Type :=
| Value_ (a : A)
| NoValue
| Panic.
Arguments Value_ {A} _.
Arguments NoValue {A}.
Arguments Panic {A}.

Definition of_option {A} (o : option A) : outcome A := match o with Some a => Value_ a | None => NoValue end.

Definition obind {A B} (o : outcome A) (k : A -> outcome B) : outcome B :=
  match o with Value_ a => k a | NoValue => NoValue | Panic => Panic end.

Notation "'let!' x := o 'in' k" := (obind o (fun x => k)) (at level 10, x pattern, o at level 100, k at level 200).

Definition decode_varint_value (val : Z) : Value :=
  if val <=? i64_max then VNumber (PosInt val) else VNumber (NegInt (val - 2 ^ 64)).

(** [Value::from] of an [f64]: a number that is not finite is null. *)
Definition value_from_f64 (bits : Z) : Value :=
  if Z.land (Z.shiftr bits 52) 2047 =? 2047 then VNull else VNumber (Float bits).

(** The bits of the [f64] with the value of a finite [f32]. *)
Definition f32_to_f64 (bits : Z) : Z :=
  let sign := Z.shiftl (Z.shiftr bits 31) 63 in
  let e := Z.land (Z.shiftr bits 23) 255 in
  let m := Z.land bits (2 ^ 23 - 1) in
  if e =? 0 then
    if m =? 0 then sign
    else let k := Z.log2 m in sign + Z.shiftl (k - 149 + 1023) 52 + Z.shiftl (m - 2 ^ k) (52 - k)
  else sign + Z.shiftl (e - 127 + 1023) 52 + Z.shiftl m 29.

Definition value_from_f32 (bits : Z) : Value :=
  if Z.land (Z.shiftr bits 23) 255 =? 255 then VNull else VNumber (Float (f32_to_f64 bits)).

Definition slice (data : bytes) (from : nat) (len : nat) : bytes := take len (drop from data).

Definition decode_fixed64 (data : bytes) (offset : nat) : option (Value * nat) :=
  if Nat.ltb (length data) (offset + 8) then None
  else Some (value_from_f64 (le_value (slice data offset 8)), (offset + 8)%nat).

Definition decode_fixed32 (data : bytes) (offset : nat) : option (Value * nat) :=
  if Nat.ltb (length data) (offset + 4) then None
  else Some (value_from_f32 (le_value (slice data offset 4)), (offset + 4)%nat).

(** [BTreeMap] update: the value of an existing key becomes an array. *)
Fixpoint insert_json_field (m : list (string * Value)) (key : string) (val : Value) : list (string * Value) :=
  match m with
  | [] => [(key, val)]
  | (k, v) :: r =>
      if String.eqb k key then (k, match v with VArray l => VArray (l ++ [val]) | _ => VArray [v; val] end) :: r
      else if String.ltb key k then (key, val) :: m
      else (k, v) :: insert_json_field r key val
  end.

Section Decoding.
Context `{HEX : Hex}.

(** Text without control characters other than tab, line feed and carriage return. *)
Definition printable (s : string) : bool :=
  negb (has_control (string_of_bytes (List.filter (fun b => negb ((b =? 9) || (b =? 10) || (b =? 13))) (as_bytes s)))).

Definition decode_text (b : bytes) : Value :=
  let s := string_of_bytes b in
  if utf8_valid b && printable s then VString s else VString (hex_encode b).

(** [sub] decodes the bytes of a field of this message.  The end of the field wraps in 64 bits;
    a slice whose end is before its start panics. *)
Definition decode_length_delimited_field (sub : bytes -> outcome Value) (data : bytes) (offset : nat)
  : outcome (Value * nat) :=
  let! (len, offset) := of_option (read_varint data offset) in
  let stop := wrap64 (Z.of_nat offset + len) in
  if Z.of_nat (length data) <? stop then NoValue
  else if stop <? Z.of_nat offset then Panic
  else
    let! v := sub (slice data offset (Z.to_nat (stop - Z.of_nat offset))) in
    Value_ (v, Z.to_nat stop).

Definition parse_wire_field (sub : bytes -> outcome Value) (data : bytes) (offset : nat) : outcome (Z * Value * nat) :=
  let! (tag, offset) := of_option (read_varint data offset) in
  let field_num := Z.shiftr tag 3 mod 2 ^ 32 in
  if field_num =? 0 then NoValue
  else
    let wire_type := Z.land tag 7 in
    let! (v, offset) :=
      if wire_type =? 0 then
        let! (val, offset) := of_option (read_varint data offset) in Value_ (decode_varint_value val, offset)
      else if wire_type =? 1 then of_option (decode_fixed64 data offset)
      else if wire_type =? 2 then decode_length_delimited_field sub data offset
      else if wire_type =? 5 then of_option (decode_fixed32 data offset)
      else NoValue in
    Value_ (field_num, v, offset).

(** The loop over the fields of a submessage; [stop] says what a field without a value comes
    to. *)
Fixpoint parse_fields (sub : bytes -> outcome Value) (name : Z -> string) (stop : list (string * Value) -> outcome (list (string * Value)))
    (fuel : nat) (data : bytes) (offset : nat) (m : list (string * Value)) : outcome (list (string * Value)) :=
  match fuel with
  | O => Value_ m
  | S f =>
      if Nat.ltb offset (length data) then
        match parse_wire_field sub data offset with
        | Value_ (field_num, v, offset) =>
            parse_fields sub name stop f data offset (insert_json_field m (name field_num) v)
        | NoValue => stop m
        | Panic => Panic
        end
      else Value_ m
  end.

(** [decode_length_delimited] at [MAX_RECURSION_DEPTH - depth]; a submessage that does not parse
    is text. *)
Fixpoint decode_length_delimited (fuel : nat) (b : bytes) : outcome Value :=
  match b with
  | [] => Value_ (VString "")
  | _ =>
      match fuel with
      | O => Value_ (decode_text b)
      | S f =>
          match parse_fields (decode_length_delimited f) dec (fun _ => NoValue) (length b) b 0 [] with
          | Value_ m => Value_ (if match m with [] => true | _ => false end then decode_text b else VObject m)
          | NoValue => Value_ (decode_text b)
          | Panic => Panic
          end
      end
  end.

(** The name of a field: from the schema, or its number. *)
Definition name_of (schema : option (list (Z * string))) (n : Z) : string :=
  match match schema with Some s => option_map snd (find (fun e => e.1 =? n) s) | None => None end with
  | Some name => name
  | None => dec n
  end.

(** The fields of the top message are at depth 0, and their bytes at depth 1; a field without a
    value ends the message. *)
Definition protobuf_to_json (data : bytes) (schema : option (list (Z * string))) : outcome Value :=
  let! m := parse_fields (decode_length_delimited (MAX_RECURSION_DEPTH - 1)) (name_of schema) Value_
              (length data) data 0 [] in
  Value_ (VObject m).
End Decoding.

(** ** Facts on varints *)

Lemma lor_shifted a b n : 0 <= n -> 0 <= a < 2 ^ n -> Z.lor a (Z.shiftl b n) = a + b * 2 ^ n.
Proof.
  intros Hn Ha. rewrite <-Z.shiftl_mul_pow2 by done.
  assert (Hland : Z.land a (Z.shiftl b n) = 0).
  { apply Z.bits_inj'. intros k Hk. rewrite Z.land_spec, Z.bits_0, Z.shiftl_spec by done.
    destruct (Z.ltb_spec k n).
    - rewrite (Z.testbit_neg_r b (k - n)) by lia. apply andb_false_r.
    - destruct (Z.eq_dec a 0) as [->|Ha0]; [by rewrite Z.testbit_0_l|].
      rewrite (Z.bits_above_log2 a k); [done|lia|]. apply Z.log2_lt_pow2; [lia|]. eapply Z.lt_le_trans; [apply Ha|].
      apply Z.pow_le_mono_r; lia. }
  pose proof (Z.add_lor_land a (Z.shiftl b n)). lia.
Qed.

Lemma low_group v : Z.land v 127 = v mod 128.
Proof. change 127 with (Z.ones 7). by rewrite Z.land_ones. Qed.

(** A byte of a longer varint: seven bits of the value and the mark. *)
Lemma marked_byte v :
  let b := Z.lor (Z.land v 127) 128 in Z.land b 127 = v mod 128 /\ Z.land b 128 = 128 /\ b = v mod 128 + 128.
Proof.
  cbn zeta. rewrite (low_group v). pose proof (Z.mod_pos_bound v 128 ltac:(lia)) as Hm.
  assert (E : Z.lor (v mod 128) 128 = v mod 128 + 128).
  { change 128 with (Z.shiftl 1 7) at 2. rewrite (lor_shifted _ 1 7) by lia. lia. }
  rewrite E. split; [|split; [|done]].
  - rewrite low_group. rewrite <-Z.add_mod_idemp_r by lia. rewrite Z_mod_same_full, Z.add_0_r. apply Z.mod_small. lia.
  - rewrite <-E, Z.land_lor_distr_l. change (Z.land 128 128) with 128.
    assert (H0 : Z.land (v mod 128) 128 = 0).
    { rewrite <-low_group, <-Z.land_assoc. by rewrite Z.land_0_r. }
    by rewrite H0.
Qed.

Lemma small_byte v : 0 <= v < 128 -> Z.land v 127 = v /\ Z.land v 128 = 0.
Proof.
  intros Hv. rewrite low_group, Z.mod_small by lia. split; [done|].
  rewrite <-(Z.mod_small v 128) by lia. rewrite <-low_group, <-Z.land_assoc. by rewrite Z.land_0_r.
Qed.

(** Reading back what [write_varint_loop] wrote, at any shift. *)
Lemma read_write_loop fuel v shift val offset rest :
  (0 < fuel)%nat -> 0 <= v < 2 ^ (64 - shift) -> v < 2 ^ (7 * Z.of_nat fuel) -> 0 <= val < 2 ^ shift -> 0 <= shift <= 63 ->
  read_varint_loop (write_varint_loop fuel v ++ rest) offset shift val
  = Some (val + v * 2 ^ shift, (offset + length (write_varint_loop fuel v))%nat).
Proof.
  revert v shift val offset. induction fuel as [|f IH]; intros v shift val offset Hpos Hv Hf Hval Hs; [lia|].
  assert (Hpow : 2 ^ 64 = 2 ^ shift * 2 ^ (64 - shift)) by (rewrite <-Z.pow_add_r by lia; f_equal; lia).
  assert (Hwrap : forall x, 0 <= x <= v -> Z.lor val (wrap64 (Z.shiftl x shift)) = val + x * 2 ^ shift).
  { intros x Hx. unfold wrap64. rewrite Z.mod_small; [apply lor_shifted; lia|]. change 18446744073709551616 with (2 ^ 64).
    rewrite Z.shiftl_mul_pow2 by lia. rewrite Hpow. assert (0 < 2 ^ shift) by (apply Z.pow_pos_nonneg; lia). nia. }
  cbn [write_varint_loop]. destruct (Z.leb_spec 128 v) as [Hbig|Hsmall].
  - cbn [app read_varint_loop length]. destruct (marked_byte v) as (E1 & E2 & _). rewrite E1, E2. cbn [Z.eqb].
    pose proof (Z.div_mod v 128 ltac:(lia)) as Hdm. pose proof (Z.mod_pos_bound v 128 ltac:(lia)) as Hmb.
    assert (Hs7 : shift + 7 <= 63).
    { destruct (Z.le_gt_cases (shift + 7) 63); [done|]. exfalso.
      assert (2 ^ (64 - shift) <= 2 ^ 7) by (apply Z.pow_le_mono_r; lia). change (2 ^ 7) with 128 in *. lia. }
    destruct (Z.leb_spec 64 (shift + 7)); [lia|].
    rewrite Hwrap by (split; [lia|apply Z.mod_le; lia]). rewrite Z.shiftr_div_pow2 by lia. change (2 ^ 7) with 128.
    assert (Hp7 : 2 ^ (shift + 7) = 2 ^ shift * 128) by (rewrite Z.pow_add_r by lia; done).
    rewrite IH.
    + f_equal. f_equal; [|cbn; lia]. rewrite Hp7. rewrite Hdm at 3. lia.
    + destruct f; [change (2 ^ (7 * Z.of_nat 1)) with 128 in Hf; lia|lia].
    + split; [apply Z.div_pos; lia|]. apply Z.div_lt_upper_bound; [lia|].
      change 128 with (2 ^ 7) at 1. rewrite <-Z.pow_add_r by lia. replace (7 + (64 - (shift + 7))) with (64 - shift) by lia. lia.
    + apply Z.div_lt_upper_bound; [lia|]. change 128 with (2 ^ 7) at 1. rewrite <-Z.pow_add_r by lia.
      replace (7 + 7 * Z.of_nat f) with (7 * Z.of_nat (S f)) by lia. lia.
    + rewrite Hp7. assert (0 < 2 ^ shift) by (apply Z.pow_pos_nonneg; lia). nia.
    + lia.
  - cbn [app read_varint_loop length]. destruct (small_byte v ltac:(lia)) as [E1 E2]. rewrite E1, E2, Z.eqb_refl.
    rewrite Hwrap by lia. f_equal. f_equal. lia.
Qed.

Lemma write_varint_length fuel v : (length (write_varint_loop fuel v) <= fuel)%nat.
Proof. revert v. induction fuel as [|f IH]; intros v; cbn [write_varint_loop]; [done|]. destruct (_ <=? _); cbn; [|lia]. specialize (IH (Z.shiftr v 7)). lia. Qed.

Lemma write_varint_fuel f1 f2 v :
  v < 2 ^ (7 * Z.of_nat (S f1)) -> v < 2 ^ (7 * Z.of_nat (S f2)) -> 0 <= v ->
  write_varint_loop (S f1) v = write_varint_loop (S f2) v.
Proof.
  revert f2 v. induction f1 as [|f1 IH]; intros f2 v H1 H2 H0.
  { change (2 ^ (7 * Z.of_nat 1)) with 128 in H1. cbn [write_varint_loop]. by destruct (Z.leb_spec 128 v); [lia|]. }
  destruct f2 as [|f2].
  { change (2 ^ (7 * Z.of_nat 1)) with 128 in H2. cbn [write_varint_loop]. by destruct (Z.leb_spec 128 v); [lia|]. }
  change (write_varint_loop (S (S f1)) v) with (if 128 <=? v then Z.lor (Z.land v 127) 128 :: write_varint_loop (S f1) (Z.shiftr v 7) else [v]).
  change (write_varint_loop (S (S f2)) v) with (if 128 <=? v then Z.lor (Z.land v 127) 128 :: write_varint_loop (S f2) (Z.shiftr v 7) else [v]).
  destruct (Z.leb_spec 128 v); [|done]. f_equal. rewrite Z.shiftr_div_pow2 by lia. change (2 ^ 7) with 128.
  assert (Hdiv : forall f, v < 2 ^ (7 * Z.of_nat (S (S f))) -> v / 128 < 2 ^ (7 * Z.of_nat (S f))).
  { intros f Hf. apply Z.div_lt_upper_bound; [lia|]. change 128 with (2 ^ 7) at 1. rewrite <-Z.pow_add_r by lia.
    by replace (7 + 7 * Z.of_nat (S f)) with (7 * Z.of_nat (S (S f))) by lia. }
  apply IH; [by apply Hdiv..|apply Z.div_pos; lia].
Qed.

(** A written varint is read back at any offset. *)
Lemma read_write_varint v before rest :
  0 <= v <= u64_max ->
  read_varint (before ++ write_varint v ++ rest) (length before)
  = Some (v, (length before + length (write_varint v))%nat).
Proof.
  intros Hv. assert (H64 : v < 2 ^ 64) by (unfold u64_max in Hv; lia).
  unfold read_varint. rewrite drop_app_length. unfold write_varint.
  rewrite (read_write_loop 10 v 0 0); [|cbn [Z.sub]; lia..]. by rewrite Z.mul_1_r.
Qed.

(** Varints round trip.  Every 64-bit value is written in one to ten bytes and read back from
    them, at any offset and whatever follows, with the offset right behind them; ten turns of the
    writer's loop are enough. *)
Theorem varint_roundtrip v before rest extra :
  0 <= v <= u64_max ->
  (1 <= length (write_varint v) <= 10)%nat
  /\ write_varint_loop (10 + extra) v = write_varint v
  /\ read_varint (before ++ write_varint v ++ rest) (length before)
     = Some (v, (length before + length (write_varint v))%nat).
Proof.
  intros Hv. assert (H64 : v < 2 ^ 64) by (unfold u64_max in Hv; lia).
  split; [|split; [|by apply read_write_varint]].
  - split; [|apply write_varint_length]. unfold write_varint. cbn [write_varint_loop]. destruct (_ <=? _); cbn; lia.
  - apply (write_varint_fuel (9 + extra) 9); [|lia..]. eapply Z.lt_le_trans; [exact H64|]. apply Z.pow_le_mono_r; lia.
Qed.

Lemma varint_roundtrip_witness :
  write_varint 300 = [172; 2] /\ read_varint ([1; 2] ++ [172; 2] ++ [7]) 2 = Some (300, 4%nat).
Proof.
  split; [reflexivity|].
  exact (proj2 (proj2 (varint_roundtrip 300 [1; 2] [7] 0 ltac:(unfold u64_max; lia)))).
Defined.

(** ** Facts on fields *)

Lemma read_varint_progress data offset v next :
  read_varint data offset = Some (v, next) -> (offset < next <= length data)%nat.
Proof.
  unfold read_varint.
  assert (Hgen : forall l shift val off, read_varint_loop l off shift val = Some (v, next) -> (off < next <= off + length l)%nat).
  { induction l as [|b l IH]; intros shift val off; [done|]. cbn [read_varint_loop length].
    destruct (_ =? 0); [intros [= _ <-]; lia|]. destruct (_ <=? _); [done|]. intros H. apply IH in H. lia. }
  intros H. apply Hgen in H. rewrite length_drop in H. lia.
Qed.

Section Fields.
Context `{HEX : Hex}.
Implicit Types (sub : bytes -> outcome Value) (data : bytes).

Lemma of_option_value {A} (o : option A) a : of_option o = Value_ a -> o = Some a.
Proof. destruct o; [by intros [= ->]|done]. Qed.

(** Every field moves the offset forward, within the data. *)
Lemma parse_wire_field_progress sub data offset f v next :
  parse_wire_field sub data offset = Value_ (f, v, next) -> (offset < next <= length data)%nat.
Proof.
  unfold parse_wire_field. destruct (of_option (read_varint data offset)) as [[tag off]| |] eqn:Et; [|done..]. cbn [obind].
  apply of_option_value, read_varint_progress in Et. destruct (_ =? 0); [done|].
  match goal with |- obind ?x _ = _ -> _ => set (o := x) end.
  assert (Ho : forall v next, o = Value_ (v, next) -> (off <= next <= length data)%nat).
  { intros v' n'. unfold o. repeat match goal with |- context [if ?w =? ?k then _ else _] => destruct (w =? k) end.
    - destruct (of_option (read_varint data off)) as [[x y]| |] eqn:E; [|done..]. cbn [obind]. intros [= _ <-].
      apply of_option_value, read_varint_progress in E. lia.
    - unfold decode_fixed64. destruct (Nat.ltb_spec (length data) (off + 8)); [done|]. intros [= _ <-]. lia.
    - unfold decode_length_delimited_field. destruct (of_option (read_varint data off)) as [[x y]| |] eqn:E; [|done..]. cbn [obind].
      apply of_option_value, read_varint_progress in E.
      destruct (Z.ltb_spec (Z.of_nat (length data)) (wrap64 (Z.of_nat y + x))); [done|].
      destruct (Z.ltb_spec (wrap64 (Z.of_nat y + x)) (Z.of_nat y)); [done|].
      destruct (sub _); [|done..]. cbn [obind]. intros [= _ <-]. lia.
    - unfold decode_fixed32. destruct (Nat.ltb_spec (length data) (off + 4)); [done|]. intros [= _ <-]. lia.
    - done. }
  destruct o as [[x y]| |]; [|done..]. cbn [obind]. intros [= _ _ <-]. specialize (Ho _ _ eq_refl). lia.
Qed.

Lemma parse_fields_fuel sub name stop data f1 f2 offset m :
  (length data <= offset + f1)%nat -> (length data <= offset + f2)%nat ->
  parse_fields sub name stop f1 data offset m = parse_fields sub name stop f2 data offset m.
Proof.
  revert f2 offset m. induction f1 as [|f1 IH]; intros f2 offset m H1 H2.
  - destruct f2; [done|]. cbn [parse_fields]. by destruct (Nat.ltb_spec offset (length data)); [lia|].
  - destruct f2 as [|f2]; cbn [parse_fields]; [by destruct (Nat.ltb_spec offset (length data)); [lia|]|].
    destruct (Nat.ltb_spec offset (length data)); [|done].
    destruct (parse_wire_field sub data offset) as [[[f v] next]| |] eqn:E; [|done..].
    apply parse_wire_field_progress in E. apply IH; lia.
Qed.

(** C33: Decoding ends on every input.  Each field of a message moves the offset forward and stays
    within the data, so as many turns of the loop as the data has bytes are enough, for the
    message and for every message nested in it; more turns do not change the outcome. *)
Theorem protobuf_terminates sub name stop data m extra :
  (forall offset f v next, parse_wire_field sub data offset = Value_ (f, v, next) -> (offset < next <= length data)%nat)
  /\ parse_fields sub name stop (length data + extra) data 0 m = parse_fields sub name stop (length data) data 0 m.
Proof. split; [intros *; apply parse_wire_field_progress|]. apply parse_fields_fuel; lia. Qed.

(** The tag of a field. *)
Lemma write_tag_eq t w : 0 <= t <= u32_max -> 0 <= w < 8 -> write_tag t w = write_varint (8 * t + w).
Proof.
  intros Ht Hw. unfold write_tag. f_equal. unfold wrap64, u32_max in *.
  rewrite Z.mod_small by (rewrite Z.shiftl_mul_pow2 by lia; lia).
  assert (El : Z.land w 7 = w) by (change 7 with (Z.ones 3); rewrite Z.land_ones by lia; apply Z.mod_small; lia).
  rewrite El, Z.lor_comm, lor_shifted by lia. change (2 ^ 3) with 8. lia.
Qed.

Lemma tag_parts t w : 0 <= t <= u32_max -> 0 <= w < 8 -> Z.shiftr (8 * t + w) 3 mod 2 ^ 32 = t /\ Z.land (8 * t + w) 7 = w.
Proof.
  intros Ht Hw. unfold u32_max in *. rewrite Z.shiftr_div_pow2 by lia. change (2 ^ 3) with 8. split.
  - replace ((8 * t + w) / 8) with t; [apply Z.mod_small; lia|]. apply (Z.div_unique _ 8 _ w); lia.
  - change 7 with (Z.ones 3). rewrite Z.land_ones by lia. change (2 ^ 3) with 8. symmetry. apply (Z.mod_unique _ 8 t); lia.
Qed.

(** The tag in front of a field. *)
Lemma read_tag t w before rest :
  0 <= t <= u32_max -> 0 <= w < 8 ->
  read_varint (before ++ write_tag t w ++ rest) (length before)
  = Some (8 * t + w, length (before ++ write_tag t w)).
Proof.
  intros Ht Hw. rewrite write_tag_eq by done.
  rewrite read_write_varint by (unfold u32_max, u64_max in *; lia).
  by rewrite length_app.
Qed.

(** A length close to the largest 64-bit value panics.  The end of a length-delimited field is
    computed without an overflow check, so a message of an upstream whose first field has such a
    length, followed by anything, makes the decoder slice its data with an end before the
    start. *)
Theorem huge_length_panics t len rest schema :
  1 <= t <= u32_max -> 0 <= len <= u64_max ->
  2 ^ 64 <= Z.of_nat (length (write_tag t 2 ++ write_varint len)) + len ->
  protobuf_to_json (write_tag t 2 ++ write_varint len ++ rest) schema = Panic.
Proof.
  intros Ht Hlen Hover. unfold protobuf_to_json. set (data := write_tag t 2 ++ write_varint len ++ rest) in *.
  set (off := length (write_tag t 2 ++ write_varint len)) in *.
  assert (Hdata : (off <= length data)%nat) by (unfold off, data; rewrite !length_app; lia).
  assert (H1 : read_varint data 0 = Some (8 * t + 2, length (write_tag t 2))) by (apply (read_tag t 2 []); lia).
  assert (H2 : read_varint data (length (write_tag t 2)) = Some (len, off)).
  { unfold data, off. rewrite read_write_varint by done. by rewrite length_app. }
  assert (Hbound : (off <= 20)%nat).
  { unfold off. rewrite length_app, write_tag_eq by lia. pose proof (write_varint_length 10 (8 * t + 2)).
    pose proof (write_varint_length 10 len). unfold write_varint. lia. }
  destruct (tag_parts t 2) as [T1 T2]; [lia..|].
  destruct (length data) as [|n] eqn:El.
  { assert (off = 0)%nat by lia. unfold u64_max in *. lia. }
  cbn [parse_fields]. rewrite El. destruct (Nat.ltb_spec 0 (S n)); [|lia].
  unfold parse_wire_field. rewrite H1. cbn [of_option obind]. rewrite T1, T2.
  destruct (Z.eqb_spec t 0); [lia|]. cbn [Z.eqb Pos.eqb]. unfold decode_length_delimited_field. rewrite H2. cbn [of_option obind].
  assert (Hw : wrap64 (Z.of_nat off + len) = Z.of_nat off + len - 2 ^ 64).
  { unfold wrap64, u64_max in *. symmetry. apply (Z.mod_unique _ _ 1); lia. }
  rewrite Hw. unfold u64_max in *.
  destruct (Z.ltb_spec (Z.of_nat (length data)) (Z.of_nat off + len - 2 ^ 64)); [lia|].
  by destruct (Z.ltb_spec (Z.of_nat off + len - 2 ^ 64) (Z.of_nat off)); [|lia].
Qed.
End Fields.

Lemma huge_length_panics_witness :
  protobuf_to_json (HEX := plain_hex) ([10] ++ [255; 255; 255; 255; 255; 255; 255; 255; 255; 1] ++ []) None = Panic.
Proof.
  exact (huge_length_panics (HEX := plain_hex) 1 u64_max [] None ltac:(unfold u32_max; lia) ltac:(unfold u64_max; lia)
           ltac:(vm_compute; discriminate)).
Defined.
