(* ===== verification/Cookies.v ===== *)
(** * Cookies and sticky sessions

    [proxy/http/cookie.rs]: the cookies of a request that only the proxy uses, found in the
    [Cookie] headers and removed from them; and [proxy/http/affinity.rs]: the signed cookie that
    names the upstream server of a client.  Header values are byte strings. *)

From Stdlib Require Import Ascii.
From S2P Require Import Prelude Basics IpText Net Upstream Headers.

(** ** Cookies *)

Definition is_blank (c : ascii) : bool := Ascii.eqb c " " || Ascii.eqb c (ascii_of_nat 9).

(** The text without the characters of the predicate at its end. *)
Fixpoint trim_end_by (p : ascii -> bool) (s : string) : string :=
  match s with
  | EmptyString => EmptyString
  | String c r => let r' := trim_end_by p r in if str_is_empty r' && p c then EmptyString else String c r'
  end.

Definition trim_ascii (s : string) : string := trim_end_by is_blank (trim_start_matches is_blank s).

Definition split_cookie_pair (pair : string) : option (string * string) := split_once "=" (trim_ascii pair).

(** [HeaderValue::from_bytes], and the bytes that it accepts. *)
Class HeaderBytes : Type := {
  value_from_bytes : string -> option string;
}.

Definition header_byte (c : ascii) : bool := (32 <=? byte_of c) && negb (byte_of c =? 127) || (byte_of c =? 9).

Class HeaderBytesLaws (B : HeaderBytes) : Prop := {
  value_from_bytes_spec v : value_from_bytes v = if str_forallb header_byte v then Some v else None;
}.

Section Cookies.
Context `{HDR : HeaderOps} `{HB : HeaderBytes}.

(** The pairs of every header, in their order. *)
Definition cookie_pairs (values : list string) : list (string * string) :=
  omap split_cookie_pair (flat_map (split_on ";") values).

Definition cookie_values (h : Headers) (name : string) : list string :=
  List.filter (fun v => utf8_valid (as_bytes v))
    (map snd (List.filter (fun kv => String.eqb kv.1 name) (cookie_pairs (h_get_all h "cookie")))).

Definition join_cookie_parts (parts : list string) : string := String.concat "; " parts.

(** The trimmed parts of one header value that stay. *)
Definition remaining_parts (v name : string) : list string :=
  List.filter (fun t => negb (str_is_empty t) && negb (is_some_and (fun kv => String.eqb kv.1 name) (split_cookie_pair t)))
    (map trim_ascii (split_on ";" v)).

Definition without_cookie (v name : string) : option string :=
  match remaining_parts v name with
  | [] => None
  | parts => value_from_bytes (join_cookie_parts parts)
  end.

Definition remove_cookie (h : Headers) (name : string) : Headers :=
  let values := omap (fun v => without_cookie v name) (h_get_all h "cookie") in
  fold_left (fun h v => h_append "cookie" v h) values (h_remove "cookie" h).
End Cookies.

(** ** Affinity *)

(** The HMAC-SHA256 of a text under the process key, in unpadded base64url. *)
Class Signer : Type := {
  sign : string -> option string;
}.

Definition base64url_char (c : ascii) : bool := is_ascii_alphanumeric c || Ascii.eqb c "-" || Ascii.eqb c "_".

Class SignerLaws (S : Signer) : Prop := {
  sign_chars s t : sign s = Some t -> str_forallb base64url_char t = true;
}.

Record Affinity : Type := mkAffinity {
  af_name : string;
  af_tokens : list string;
  af_cookies : list (string * string);
}.

Section Affinity.
Context `{HDR : HeaderOps} `{HB : HeaderBytes} `{SIG : Signer}.

(** [Iterator::collect] into an [Option]: the first [None] ends it. *)
Fixpoint collect_all {A} (l : list (option A)) : option (list A) :=
  match l with
  | [] => Some []
  | o :: r => match o with Some a => option_map (cons a) (collect_all r) | None => None end
  end.

(** The attributes behind the value; the maximal age is in whole seconds. *)
Definition cookie_attributes (config : StickyCookie) (base_path : string) : string :=
  let path := if str_is_empty base_path then "/" else base_path in
  let max_age := match max_age config with
                 | Some d => String.append "; Max-Age=" (dec (d / 1000000000))
                 | None => ""
                 end in
  String.concat "" ["; Path="; path; "; HttpOnly; SameSite=Lax"; max_age].

Definition token_of (proxy : string) (route : option Z) (url : string) : option string :=
  sign (String.concat "/" [proxy; dec (unwrap_or route 0); url]).

Definition cookie_of (config : StickyCookie) (attributes token : string) : option (string * string) :=
  let cookie := String.concat "" [cookie_name config; "="; token; attributes] in
  match value_from_str cookie with
  | Some plain => match value_from_str (String.append cookie "; Secure") with
                  | Some secure => Some (plain, secure)
                  | None => None
                  end
  | None => None
  end.

(** [proxy] is the printed identifier and [urls] are the printed URLs of the servers. *)
Definition Affinity_new (config : StickyCookie) (proxy : string) (route : option Z) (urls : list string)
    (base_path : string) : option Affinity :=
  match collect_all (map (token_of proxy route) urls) with
  | Some tokens =>
      match collect_all (map (cookie_of config (cookie_attributes config base_path)) tokens) with
      | Some cookies => Some (mkAffinity (cookie_name config) tokens cookies)
      | None => None
      end
  | None => None
  end.

(** [Iterator::position]. *)
Fixpoint position {A} (p : A -> bool) (l : list A) : option nat :=
  match l with
  | [] => None
  | a :: r => if p a then Some 0%nat else S <$> position p r
  end.

Definition pinned (a : Affinity) (h : Headers) : option nat :=
  find_map (fun v => position (String.eqb v) (af_tokens a)) (cookie_values h (af_name a)).

Definition strip (a : Affinity) (h : Headers) : Headers := remove_cookie h (af_name a).

Definition set_cookie (a : Affinity) (index : nat) (secure : bool) : option string :=
  option_map (fun c => if secure then c.2 else c.1) (af_cookies a !! index).
End Affinity.

(** ** Facts on trimmed text *)

Lemma trim_start_matches_head p s : match trim_start_matches p s with "" => True | String c _ => p c = false end.
Proof. induction s as [|c s IH]; cbn [trim_start_matches]; [done|]. by destruct (p c) eqn:E. Qed.

Lemma trim_start_matches_id p s : match s with "" => True | String c _ => p c = false end -> trim_start_matches p s = s.
Proof. destruct s as [|c s]; cbn [trim_start_matches]; [done|]. by intros ->. Qed.

Lemma trim_end_by_idemp p s : trim_end_by p (trim_end_by p s) = trim_end_by p s.
Proof.
  induction s as [|c s IH]; cbn [trim_end_by]; [done|].
  destruct (str_is_empty (trim_end_by p s) && p c) eqn:E; [done|]. cbn [trim_end_by]. by rewrite IH, E.
Qed.

Lemma trim_end_by_head p s :
  match s with "" => True | String c _ => p c = false end ->
  match trim_end_by p s with "" => True | String c _ => p c = false end.
Proof. destruct s as [|c s]; cbn [trim_end_by]; [done|]. intros H. by rewrite H, andb_false_r. Qed.

Lemma trim_ascii_idemp s : trim_ascii (trim_ascii s) = trim_ascii s.
Proof.
  unfold trim_ascii. rewrite (trim_start_matches_id is_blank (trim_end_by _ _)); [apply trim_end_by_idemp|].
  apply trim_end_by_head, trim_start_matches_head.
Qed.

Lemma trim_ascii_clean s : str_forallb (fun c => negb (is_blank c)) s = true -> trim_ascii s = s.
Proof.
  intros H. unfold trim_ascii. rewrite trim_start_matches_id.
  - induction s as [|c s IH]; cbn in *; [done|]. apply andb_prop in H as [H1 H2]. apply negb_true_iff in H1.
    rewrite IH by done. by rewrite H1, andb_false_r.
  - destruct s; [done|]. cbn in H. apply andb_prop in H as [H _]. by apply negb_true_iff.
Qed.

(** Trimming keeps what holds of every character. *)
Lemma str_forallb_trim q s : str_forallb q s = true -> str_forallb q (trim_ascii s) = true.
Proof.
  intros H. unfold trim_ascii. assert (Hs : str_forallb q (trim_start_matches is_blank s) = true).
  { induction s as [|c s IH]; cbn [trim_start_matches]; [done|]. destruct (is_blank c); [|done].
    apply IH. cbn in H. by apply andb_prop in H as [_ H]. }
  revert Hs. generalize (trim_start_matches is_blank s). clear. intros s. induction s as [|c s IH]; cbn; [done|].
  intros [H1 H2]%andb_prop. destruct (_ && _); [done|]. cbn. by rewrite H1, IH.
Qed.

Lemma split_by_forallb p q s : str_forallb q s = true -> Forall (fun x => str_forallb q x = true) (split_by p s).
Proof.
  induction s as [|c s IH]; cbn; [by repeat constructor|]. intros [H1 H2]%andb_prop. specialize (IH H2).
  destruct (p c); [by constructor|]. destruct (split_by p s) as [|x l]; [repeat constructor; cbn; by rewrite H1|].
  inversion IH; subst. constructor; [|done]. cbn. by rewrite H1.
Qed.

Lemma split_on_char_free c s : Forall (fun x => char_free c x = true) (split_on c s).
Proof.
  unfold split_on, char_free. induction s as [|a s IH]; cbn; [by repeat constructor|].
  destruct (Ascii.eqb a c) eqn:E; [by constructor|]. destruct (split_by _ s) as [|x l].
  - repeat constructor. cbn. by rewrite E.
  - inversion IH; subst. constructor; [|done]. cbn. by rewrite E.
Qed.

(** ** Facts on cookies *)

(** A separator and a blank in front of the parts do not change their pairs. *)
Lemma pairs_blank s : omap split_cookie_pair (split_on ";" (String " " s)) = omap split_cookie_pair (split_on ";" s).
Proof.
  unfold split_on. cbn [split_by Ascii.eqb Bool.eqb]. pose proof (split_by_nonempty (fun a => Ascii.eqb a ";") s) as Hne.
  by destruct (split_by (fun a => Ascii.eqb a ";") s) as [|x l].
Qed.

Lemma pairs_join parts :
  Forall (fun x => char_free ";" x = true) parts -> parts <> [] ->
  omap split_cookie_pair (split_on ";" (join_cookie_parts parts)) = omap split_cookie_pair parts.
Proof.
  intros H. unfold join_cookie_parts. induction H as [|x l Hx Hl IH]; [done|]. intros _.
  destruct l as [|y l]; [cbn [String.concat]; unfold split_on; by rewrite split_by_none|].
  change (String.concat "; " (x :: y :: l)) with (String.append x (String ";" (String " " (String.concat "; " (y :: l))))).
  unfold split_on at 1. rewrite split_by_append by done. fold (split_on ";" (String " " (String.concat "; " (y :: l)))).
  cbn [omap list_omap]. rewrite pairs_blank, IH by done. done.
Qed.

Lemma remaining_parts_free v name : Forall (fun x => char_free ";" x = true) (remaining_parts v name).
Proof.
  unfold remaining_parts. pose proof (split_on_char_free ";" v) as H. induction H as [|x l Hx Hl IH]; [constructor|].
  cbn [map List.filter]. destruct (_ && _); [|done]. constructor; [|done]. by apply str_forallb_trim.
Qed.

Lemma split_cookie_pair_trim s : split_cookie_pair (trim_ascii s) = split_cookie_pair s.
Proof. unfold split_cookie_pair. by rewrite trim_ascii_idemp. Qed.

(** The parts that stay are those whose pair has another name. *)
Lemma remaining_pairs v name :
  omap split_cookie_pair (remaining_parts v name)
  = List.filter (fun kv => negb (String.eqb kv.1 name)) (omap split_cookie_pair (split_on ";" v)).
Proof.
  unfold remaining_parts. induction (split_on ";" v) as [|x l IH]; [done|]. cbn [map List.filter omap list_omap].
  rewrite split_cookie_pair_trim. destruct (split_cookie_pair x) as [[k w]|] eqn:E; cbn [is_some_and negb fst].
  - assert (Hne : str_is_empty (trim_ascii x) = false).
    { unfold split_cookie_pair in E. by destruct (trim_ascii x). }
    rewrite Hne. cbn [negb andb List.filter fst]. destruct (String.eqb k name); cbn [negb]; [done|].
    cbn [omap list_omap]. rewrite split_cookie_pair_trim, E. cbn. f_equal. apply IH.
  - destruct (str_is_empty (trim_ascii x)); cbn [negb andb]; [done|]. cbn [omap list_omap].
    rewrite split_cookie_pair_trim, E. apply IH.
Qed.

Lemma concat_forallb q sep l :
  str_forallb q sep = true -> Forall (fun x => str_forallb q x = true) l -> str_forallb q (String.concat sep l) = true.
Proof.
  intros Hsep H. induction H as [|x l Hx Hl IH]; [done|]. destruct l as [|y l]; [done|].
  change (String.concat sep (x :: y :: l)) with (String.append x (String.append sep (String.concat sep (y :: l)))).
  by rewrite !str_forallb_append, Hx, Hsep, IH.
Qed.

Section CookieFacts.
Context `{HDR : HeaderOps} {LAWS : HeaderLaws HDR} `{HB : HeaderBytes} {BLAWS : HeaderBytesLaws HB}.

Definition named (name : string) (kv : string * string) : bool := String.eqb kv.1 name.

(** The pairs of a rewritten header. *)
Lemma without_cookie_pairs v name v' :
  without_cookie v name = Some v' ->
  omap split_cookie_pair (split_on ";" v') = List.filter (fun kv => negb (named name kv)) (omap split_cookie_pair (split_on ";" v)).
Proof.
  unfold without_cookie. destruct (remaining_parts v name) as [|x l] eqn:E; [done|].
  rewrite value_from_bytes_spec. destruct (str_forallb _ _); [|done]. intros [= <-].
  rewrite pairs_join by (done || rewrite <-E; apply remaining_parts_free). rewrite <-E. apply remaining_pairs.
Qed.

(** A valid header is only dropped when nothing of it stays. *)
Lemma without_cookie_none v name :
  str_forallb header_byte v = true -> without_cookie v name = None ->
  List.filter (fun kv => negb (named name kv)) (omap split_cookie_pair (split_on ";" v)) = [].
Proof.
  intros Hv. unfold without_cookie. destruct (remaining_parts v name) as [|x l] eqn:E.
  - intros _. etrans; [symmetry; apply remaining_pairs|]. by rewrite E.
  - rewrite value_from_bytes_spec. unfold join_cookie_parts. rewrite concat_forallb; [done|done|].
    rewrite <-E. unfold remaining_parts. pose proof (split_by_forallb (fun a => Ascii.eqb a ";") _ _ Hv) as Hp.
    unfold split_on. induction Hp as [|y l' Hy Hl IH]; [constructor|]. cbn [map List.filter]. destruct (_ && _); [|done].
    constructor; [|done]. by apply str_forallb_trim.
Qed.

Lemma omap_flat_map {A B} (f : A -> option B) (g : string -> list A) l :
  omap f (flat_map g l) = flat_map (fun x => omap f (g x)) l.
Proof. induction l as [|x l IH]; [done|]. cbn [flat_map]. by rewrite omap_app, IH. Qed.

Lemma cookie_pairs_cons v l : cookie_pairs (v :: l) = omap split_cookie_pair (split_on ";" v) ++ cookie_pairs l.
Proof. unfold cookie_pairs. cbn [flat_map]. by rewrite omap_app. Qed.

Lemma get_all_appended values h n :
  h_get_all (fold_left (fun h v => h_append "cookie" v h) values h) n
  = if decide (n = "cookie") then h_get_all h n ++ values else h_get_all h n.
Proof.
  revert h. induction values as [|v l IH]; intros h; cbn [fold_left]; [destruct (decide _); by rewrite ?app_nil_r|].
  rewrite IH, get_all_append. destruct (decide (n = "cookie")); [by rewrite <-app_assoc|done].
Qed.

Lemma remove_cookie_get_all h name n :
  h_get_all (remove_cookie h name) n
  = if decide (n = "cookie") then omap (fun v => without_cookie v name) (h_get_all h "cookie") else h_get_all h n.
Proof.
  unfold remove_cookie. rewrite get_all_appended, get_all_remove. by destruct (decide (n = "cookie")).
Qed.

Lemma filter_filter {A} (p q : A -> bool) l : List.filter p (List.filter q l) = List.filter (fun x => q x && p x) l.
Proof.
  induction l as [|x l IH]; [done|]. cbn [List.filter]. destruct (q x); cbn [List.filter andb]; [destruct (p x)|]; by rewrite IH.
Qed.

Lemma filter_ext_eq {A} (p q : A -> bool) l : (forall x, p x = q x) -> List.filter p l = List.filter q l.
Proof. intros H. induction l as [|x l IH]; [done|]. cbn [List.filter]. by rewrite H, IH. Qed.

Lemma gone_pairs name l : List.filter (named name) (cookie_pairs (omap (fun v => without_cookie v name) l)) = [].
Proof.
  induction l as [|v l IH]; [done|]. cbn [omap list_omap]. destruct (without_cookie v name) as [v'|] eqn:E; [|done].
  rewrite cookie_pairs_cons, List.filter_app, IH, (without_cookie_pairs _ _ _ E), filter_filter, app_nil_r.
  induction (omap split_cookie_pair (split_on ";" v)) as [|x r IHr]; [done|]. cbn [List.filter].
  rewrite andb_comm, andb_negb_r. exact IHr.
Qed.

Lemma cookie_gone h name : cookie_values (remove_cookie h name) name = [].
Proof.
  unfold cookie_values. rewrite remove_cookie_get_all, decide_True by done.
  change (fun kv : string * string => String.eqb kv.1 name) with (named name). by rewrite gone_pairs.
Qed.

Lemma kept_pairs name m l :
  m <> name -> Forall (fun v => str_forallb header_byte v = true) l ->
  List.filter (named m) (cookie_pairs (omap (fun v => without_cookie v name) l)) = List.filter (named m) (cookie_pairs l).
Proof.
  intros Hm Hl.
  assert (Hsame : forall r, List.filter (named m) (List.filter (fun kv => negb (named name kv)) r) = List.filter (named m) r).
  { intros r. rewrite filter_filter. apply filter_ext_eq. intros [k w]. unfold named. cbn [fst].
    destruct (String.eqb_spec k m) as [->|]; [|by rewrite andb_false_r]. by destruct (String.eqb_spec m name). }
  induction Hl as [|v l Hv Hl IH]; [done|]. cbn [omap list_omap]. rewrite (cookie_pairs_cons v), List.filter_app, <-IH.
  destruct (without_cookie v name) as [v'|] eqn:E.
  - rewrite cookie_pairs_cons, List.filter_app, (without_cookie_pairs _ _ _ E). f_equal. apply Hsame.
  - etrans; [|symmetry; apply (f_equal (fun x => x ++ _)); etrans; [symmetry; apply Hsame|]; by rewrite (without_cookie_none _ _ Hv E)].
    done.
Qed.

(** A removed cookie is gone from every [Cookie] header, in whatever spelling the client put
    around it; the other cookies keep their values and their order, and no other header changes. *)
Theorem cookie_removed h name :
  cookie_values (remove_cookie h name) name = []
  /\ (Forall (fun v => str_forallb header_byte v = true) (h_get_all h "cookie") ->
      forall m, m <> name -> cookie_values (remove_cookie h name) m = cookie_values h m)
  /\ (forall n, n <> "cookie" -> h_get_all (remove_cookie h name) n = h_get_all h n).
Proof.
  split; [apply cookie_gone|split].
  - intros Hv m Hm. unfold cookie_values. rewrite remove_cookie_get_all, decide_True by done.
    change (fun kv : string * string => String.eqb kv.1 m) with (named m). by rewrite kept_pairs.
  - intros n Hn. by rewrite remove_cookie_get_all, decide_False.
Qed.
End CookieFacts.

(** ** Sticky sessions *)

Lemma collect_all_lookup {A B} (f : A -> option B) l r i :
  collect_all (map f l) = Some r -> r !! i = match l !! i with Some a => f a | None => None end.
Proof.
  revert r i. induction l as [|a l IH]; intros r i; cbn [map collect_all]; [by intros [= <-]|].
  destruct (f a) as [b|] eqn:E; [|done]. destruct (collect_all (map f l)) as [r0|]; [|done]. intros [= <-].
  destruct i as [|i]; [by cbn; rewrite E|]. exact (IH r0 i eq_refl).
Qed.

Lemma collect_all_length {A B} (f : A -> option B) l r : collect_all (map f l) = Some r -> length r = length l.
Proof.
  revert r. induction l as [|a l IH]; intros r; cbn [map collect_all]; [by intros [= <-]|].
  destruct (f a); [|done]. destruct (collect_all (map f l)) as [r'|]; [|done]. intros [= <-]. cbn. by rewrite (IH r').
Qed.

Lemma collect_all_is_Some {A B} (f : A -> option B) l r i a :
  collect_all (map f l) = Some r -> l !! i = Some a -> exists b, r !! i = Some b /\ f a = Some b.
Proof.
  intros H Hi. pose proof (collect_all_lookup f l r i H) as Hl. rewrite Hi in Hl.
  destruct (r !! i) as [b|] eqn:E; [eauto|]. apply lookup_ge_None in E. apply lookup_lt_Some in Hi.
  rewrite (collect_all_length f l r H) in E. lia.
Qed.

Lemma position_none (v : string) l : v ∉ l -> position (String.eqb v) l = None.
Proof.
  intros Hv. induction l as [|t ts IH]; [done|]. cbn [position]. rewrite not_elem_of_cons in Hv.
  destruct Hv as [Hne Hin]. destruct (String.eqb_spec v t); [done|]. by rewrite (IH Hin).
Qed.

Lemma position_nodup {A} (p : A -> bool) l i x :
  NoDup l -> l !! i = Some x -> (forall y, p y = true <-> y = x) -> position p l = Some i.
Proof.
  intros Hnd Hi Hp. revert i Hi. induction Hnd as [|y l Hy Hl IH]; intros i Hi; [done|]. cbn [position].
  destruct i as [|i]; cbn in Hi.
  - simplify_eq. assert (E : p x = true) by (by apply Hp). by rewrite E.
  - destruct (p y) eqn:E.
    + apply Hp in E as ->. destruct Hy. by eapply list_elem_of_lookup_2.
    + by rewrite (IH i Hi).
Qed.

Lemma utf8_ascii s : str_forallb (fun c => byte_of c <? 128) s = true -> utf8_valid (as_bytes s) = true.
Proof.
  induction s as [|c s IH]; [done|]. cbn [str_forallb]. intros [H1 H2]%andb_prop.
  change (as_bytes (String c s)) with (byte_of c :: as_bytes s). cbn [utf8_valid]. rewrite H1. by apply IH.
Qed.

Lemma str_forallb_weaken (p q : ascii -> bool) s :
  (forall c, p c = true -> q c = true) -> str_forallb p s = true -> str_forallb q s = true.
Proof. intros H. induction s as [|c s IH]; [done|]. cbn. intros [H1 H2]%andb_prop. by rewrite H, IH. Qed.

(** What the characters of tokens and of base64url never are. *)
Lemma ascii_cases (P : ascii -> bool) : forallb (fun n => P (ascii_of_nat n)) (seq 0 256) = true -> forall c, P c = true.
Proof.
  intros H c. rewrite forallb_forall in H. rewrite <-(ascii_nat_embedding c). apply H. apply in_seq.
  pose proof (nat_ascii_bounded c). lia.
Qed.

Lemma base64url_facts c : base64url_char c = true -> negb (is_blank c) && negb (Ascii.eqb c ";") && (byte_of c <? 128) = true.
Proof.
  pose proof (ascii_cases (fun c => implb (base64url_char c) (negb (is_blank c) && negb (Ascii.eqb c ";") && (byte_of c <? 128)))
    eq_refl c) as H. cbn beta in H. intros E. by rewrite E in H.
Qed.

Definition token_char (c : ascii) : bool := is_ascii_graphic c && negb (existsb (Ascii.eqb c) cookie_separators).

Lemma token_facts c : token_char c = true -> negb (is_blank c) && negb (Ascii.eqb c ";") && negb (Ascii.eqb c "=") = true.
Proof.
  pose proof (ascii_cases (fun c => implb (token_char c) (negb (is_blank c) && negb (Ascii.eqb c ";") && negb (Ascii.eqb c "=")))
    eq_refl c) as H. cbn beta in H. intros E. by rewrite E in H.
Qed.

Lemma split_once_join c a b : char_free c a = true -> split_once c (String.append a (String c b)) = Some (a, b).
Proof.
  unfold char_free. induction a as [|x a IH]; cbn; [by rewrite Ascii.eqb_refl|]. intros [H1 H2]%andb_prop.
  apply negb_true_iff in H1. by rewrite H1, IH.
Qed.

(** The pair that a client sends back. *)
Lemma echoed_pair name token :
  str_forallb token_char name = true -> str_forallb base64url_char token = true ->
  split_cookie_pair (String.append name (String "=" token)) = Some (name, token)
  /\ char_free ";" (String.append name (String "=" token)) = true.
Proof.
  intros Hn Ht. split.
  - unfold split_cookie_pair. rewrite trim_ascii_clean; [apply split_once_join; unfold char_free|rewrite str_forallb_append; cbn].
    + apply (str_forallb_weaken token_char); [|done]. intros c H. by apply token_facts, andb_prop in H as [_ H].
    + rewrite (str_forallb_weaken token_char _ name), (str_forallb_weaken base64url_char _ token); try done.
      * intros c H. by apply base64url_facts, andb_prop in H as [[H _]%andb_prop _].
      * intros c H. by apply token_facts, andb_prop in H as [[H _]%andb_prop _].
  - unfold char_free. rewrite str_forallb_append. cbn.
    rewrite (str_forallb_weaken token_char _ name), (str_forallb_weaken base64url_char _ token); try done.
    + intros c H. by apply base64url_facts, andb_prop in H as [[_ H]%andb_prop _].
    + intros c H. by apply token_facts, andb_prop in H as [[_ H]%andb_prop _].
Qed.

Section Sticky.
Context `{HDR : HeaderOps} {LAWS : HeaderLaws HDR} `{HB : HeaderBytes} {BLAWS : HeaderBytesLaws HB}.
Context `{SIG : Signer} {SLAWS : SignerLaws SIG}.

(** The first value of the cookie, when the parts before it have another name. *)
Lemma cookie_values_echoed h name token before after :
  h_get_all h "cookie" = [join_cookie_parts (before ++ String.append name (String "=" token) :: after)] ->
  str_forallb token_char name = true -> str_forallb base64url_char token = true ->
  Forall (fun x => char_free ";" x = true) (before ++ after) ->
  Forall (fun x => is_some_and (named name) (split_cookie_pair x) = false) before ->
  exists rest, cookie_values h name = token :: rest.
Proof.
  intros Hh Hn Ht [Hb Ha]%Forall_app Hother. destruct (echoed_pair name token Hn Ht) as [Hpair Hfree].
  unfold cookie_values, cookie_pairs. rewrite Hh. cbn [flat_map]. rewrite app_nil_r.
  rewrite pairs_join; [|by apply Forall_app; split; [|constructor]|by destruct before].
  change (fun kv : string * string => String.eqb kv.1 name) with (named name).
  rewrite omap_app, List.filter_app, map_app, List.filter_app.
  assert (Hnone : List.filter (named name) (omap split_cookie_pair before) = []).
  { clear -Hother. induction Hother as [|x l Hx Hl IH]; [done|]. cbn [omap list_omap].
    destruct (split_cookie_pair x) as [kv|]; [|done]. cbn in Hx. cbn [List.filter]. by rewrite Hx. }
  rewrite Hnone. cbn [omap list_omap map List.filter app]. rewrite Hpair. unfold named at 1. cbn [List.filter fst].
  rewrite String.eqb_refl. cbn [map snd List.filter]. rewrite utf8_ascii; [eauto|].
  apply (str_forallb_weaken base64url_char); [|done]. intros c H. by apply base64url_facts, andb_prop in H as [_ H].
Qed.

(** A client that sends its cookie back stays on its server.  The value of the cookie that
    pins server [i], sent among other cookies, names server [i] again, as long as the servers have
    different tokens; a request whose values are no tokens of the route names no server; and the
    upstream server receives no cookie of the name. *)
Theorem sticky_session_kept config proxy route urls base_path a i url h before after :
  StickyCookie_validate config = Ok tt ->
  Affinity_new config proxy route urls base_path = Some a ->
  NoDup (af_tokens a) -> urls !! i = Some url ->
  (exists token, token_of proxy route url = Some token
    /\ (forall secure, is_Some (set_cookie a i secure))
    /\ (h_get_all h "cookie" = [join_cookie_parts (before ++ String.append (af_name a) (String "=" token) :: after)] ->
        Forall (fun x => char_free ";" x = true) (before ++ after) ->
        Forall (fun x => is_some_and (named (af_name a)) (split_cookie_pair x) = false) before ->
        pinned a h = Some i))
  /\ (Forall (fun v => v ∉ af_tokens a) (cookie_values h (af_name a)) -> pinned a h = None)
  /\ cookie_values (strip a h) (af_name a) = [].
Proof.
  intros Hval Hnew Hnd Hi. unfold Affinity_new in Hnew.
  destruct (collect_all (map (token_of _ _) _)) as [tokens|] eqn:Et; [|done].
  destruct (collect_all (map (cookie_of _ _) _)) as [cookies|] eqn:Ec; [|done]. simplify_eq. cbn [af_tokens af_name] in *.
  destruct (collect_all_is_Some _ _ _ _ _ Et Hi) as (token & Htok & Hsign).
  destruct (collect_all_is_Some _ _ _ _ _ Ec Htok) as (cookie & Hcookie & _). split; [|split].
  - exists token. split; [done|]. split; [intros secure; unfold set_cookie; cbn [af_cookies]; rewrite Hcookie; eauto|].
    intros Hh Hfree Hbefore.
      assert (Hname : str_forallb token_char (cookie_name config) = true).
      { unfold StickyCookie_validate, is_cookie_token in Hval. destruct (str_is_empty (cookie_name config)); [done|].
        cbn [negb andb] in Hval. fold token_char in Hval. by destruct (str_forallb token_char _). }
      assert (Hb64 : str_forallb base64url_char token = true) by (by eapply sign_chars).
      destruct (cookie_values_echoed _ _ _ _ _ Hh Hname Hb64 Hfree Hbefore) as [rest Hv].
      unfold pinned. cbn [af_name af_tokens]. rewrite Hv. cbn [find_map].
      rewrite (position_nodup _ tokens i token Hnd Htok); [done|]. intros y. split; [by intros ->%String.eqb_eq|].
      intros ->. apply String.eqb_refl.
  - intros Hno. unfold pinned. cbn [af_name af_tokens]. induction Hno as [|v l Hv Hl IH]; [done|]. cbn [find_map].
    by rewrite position_none.
  - unfold strip. cbn [af_name]. apply cookie_gone.
Qed.
End Sticky.

(** ** Plain instances and examples *)

Definition plain_bytes : HeaderBytes := {| value_from_bytes v := if str_forallb header_byte v then Some v else None |}.
#[export] Instance plain_bytes_laws : HeaderBytesLaws plain_bytes.
Proof. by constructor. Qed.

Fixpoint plain_token (s : string) : string :=
  match s with "" => "" | String c r => String (if base64url_char c then c else "_"%char) (plain_token r) end.

Definition plain_signer : Signer := {| sign s := Some (plain_token s) |}.
#[export] Instance plain_signer_laws : SignerLaws plain_signer.
Proof.
  constructor. intros s t [= <-]. induction s as [|c s IH]; [done|]. cbn [plain_token str_forallb]. rewrite IH.
  by destruct (base64url_char c) eqn:E; rewrite ?E.
Qed.

Module CookieExample.
Definition h : list (string * string) := [("cookie", "theme=dark; id=abc; flag"); ("host", "a"); ("cookie", " id=def;lang=tr")].
Definition a : Affinity :=
  mkAffinity "id" ["p_0_u1"; "p_0_u2"]
    [("id=p_0_u1; Path=/; HttpOnly; SameSite=Lax", "id=p_0_u1; Path=/; HttpOnly; SameSite=Lax; Secure");
     ("id=p_0_u2; Path=/; HttpOnly; SameSite=Lax", "id=p_0_u2; Path=/; HttpOnly; SameSite=Lax; Secure")].

Example removed :
  h_get_all (HeaderOps := plain_header_ops) (remove_cookie (HDR := plain_header_ops) (HB := plain_bytes) h "id") "cookie"
  = ["theme=dark; flag"; "lang=tr"].
Proof. reflexivity. Qed.
End CookieExample.

Lemma cookie_removed_witness :
  cookie_values (HDR := plain_header_ops) (remove_cookie (HDR := plain_header_ops) (HB := plain_bytes) CookieExample.h "id") "lang" = ["tr"].
Proof.
  exact (proj1 (proj2 (cookie_removed (LAWS := plain_header_laws) (BLAWS := plain_bytes_laws) CookieExample.h "id"))
           ltac:(repeat constructor) "lang" ltac:(discriminate)).
Defined.

Lemma sticky_session_kept_witness :
  pinned (HDR := plain_header_ops) CookieExample.a [("cookie", "theme=dark; id=p_0_u2; flag")] = Some 1%nat.
Proof.
  destruct (sticky_session_kept (LAWS := plain_header_laws) (BLAWS := plain_bytes_laws) (SLAWS := plain_signer_laws)
    (mkStickyCookie true "id" None) "p" None ["u1"; "u2"] "" CookieExample.a 1 "u2"
    [("cookie", "theme=dark; id=p_0_u2; flag")] ["theme=dark"] ["flag"] eq_refl eq_refl
    ltac:(repeat constructor; set_solver) eq_refl) as [(token & Htok & _ & Hpin) _].
  cbn in Htok. injection Htok as <-. apply Hpin; [reflexivity|repeat constructor..].
Defined.
