(* ===== verification/BodyStreams.v ===== *)
(** * Request bodies that are limited and copied

    [proxy/http/body_limit.rs]: the body that fails when it passes its limit; and
    [proxy/http/mirror.rs] with [mirror.rs] of the API crate: which requests are copied to the
    mirror servers, and the body that keeps a copy of itself.  A body is the sequence of what its
    [poll_frame] returns once it is ready. *)

From Stdlib Require Import Ascii.
From S2P Require Import Prelude Basics Headers.

Definition bytes := list Z.
Definition blen (b : bytes) : Z := Z.of_nat (length b).

(** [Frame<Bytes>]: data or trailers. *)
Inductive Frame : Type :=
| Data (d : bytes)
| Trailers.

Definition frame_data (f : Frame) : bytes := match f with Data d => d | Trailers => [] end.

(** One ready poll: a frame, with what [is_end_stream] answers behind it, an error, or the end. *)
Inductive Polled : Type :=
| PFrame (f : Frame) (last : bool)
| PError
| PEnd.

Definition polled_data (p : Polled) : bytes := match p with PFrame f _ => frame_data f | _ => [] end.
Definition stream_data (ps : list Polled) : bytes := flat_map polled_data ps.

(** ** The limit of a request body *)

Section Declared.
Context `{HDR : HeaderOps}.

Definition declared_too_large (h : Headers) (limit : Z) : bool :=
  (0 <? limit) && is_some_and (fun length => limit <? length) (header_number h "content-length").
End Declared.

(** [LimitedBody] with its shared flag. *)
Record LimitedBody : Type := mkLimitedBody {
  remaining : Z;
  exceeded : bool;
}.

Definition limited_poll (p : Polled) (b : LimitedBody) : Polled * LimitedBody :=
  let length := blen (polled_data p) in
  if remaining b <? length then (PError, mkLimitedBody (remaining b) true)
  else (p, mkLimitedBody (remaining b - length) (exceeded b)).

Fixpoint limited_run (ps : list Polled) (b : LimitedBody) : list Polled * LimitedBody :=
  match ps with
  | [] => ([], b)
  | p :: rest => let '(q, b) := limited_poll p b in let '(out, b) := limited_run rest b in (q :: out, b)
  end.

(** [BodyLimit::apply] and [BodyLimit::exceeded] on the polls of the body. *)
Definition BodyLimit_apply (limit : Z) (ps : list Polled) : list Polled * bool :=
  if limit =? 0 then (ps, false)
  else let '(out, b) := limited_run ps (mkLimitedBody limit false) in (out, exceeded b).

(** ** Mirrors *)

Definition DEFAULT_MIRROR_BODY_SIZE : Z := 64 * 1024.
Definition MAX_COPIES : nat := 64.

Record MirrorConfig (Server : Type) : Type := mkMirrorConfig {
  mirror_servers : list Server;
  percent : Z;
  mirror_max_body_size : Z;
}.
Arguments mkMirrorConfig {Server}. Arguments mirror_servers {Server}.
Arguments percent {Server}. Arguments mirror_max_body_size {Server}.

Definition Mirror_validate {Server} (m : MirrorConfig Server) : result unit Error :=
  if (1 <=? percent m) && (percent m <=? 100) then Ok tt else Err (InvalidMirrorPercent (percent m)).

(** [Mirror::sampled] with the number from 0 to 99 that is drawn. *)
Definition sampled {Server} (m : MirrorConfig Server) (draw : Z) : bool := (100 <=? percent m) || (draw <? percent m).

(** [Mirror::admit_copy]: whether the request is copied, and the permits that are left.  [upgrade]
    tells whether the request has an [Upgrade] header and [lower] is the least size of its body. *)
Definition admit_copy {Server} (m : MirrorConfig Server) (draw : Z) (upgrade : bool) (lower : Z) (permits : nat) : bool * nat :=
  let skipped := match mirror_servers m with [] => true | _ => false end
                 || negb (sampled m draw) || upgrade || (mirror_max_body_size m <? lower) in
  if skipped then (false, permits)
  else match permits with O => (false, O) | S n => (true, n) end.

(** [TeeBody]: the copy, and whether its sender is still there. *)
Record TeeBody : Type := mkTeeBody {
  copy : bytes;
  sender : bool;
  sent : option bytes;
}.

Definition tee_poll (limit : Z) (p : Polled) (t : TeeBody) : TeeBody :=
  let t :=
    match p with
    | PFrame f _ =>
        if limit <? blen (copy t) + blen (frame_data f) then mkTeeBody (copy t) false (sent t)
        else if sender t then mkTeeBody (copy t ++ frame_data f) true (sent t)
        else t
    | PError => mkTeeBody (copy t) false (sent t)
    | PEnd => t
    end in
  let ended := match p with PEnd => true | PFrame _ last => last | PError => false end in
  if ended && sender t then mkTeeBody [] false (Some (copy t)) else t.

(** [Mirror::tee]: what the task of the copies receives, once the body was polled this far.  A
    body that has already ended is sent at once. *)
Definition tee (limit : Z) (ended : bool) (ps : list Polled) : option bytes :=
  if ended then Some [] else sent (fold_left (fun t p => tee_poll limit p t) ps (mkTeeBody [] true None)).

(** ** Facts *)

Lemma stream_data_cons p ps : stream_data (p :: ps) = polled_data p ++ stream_data ps.
Proof. done. Qed.

Lemma blen_app a b : blen (a ++ b) = blen a + blen b.
Proof. unfold blen. rewrite length_app. lia. Qed.

Lemma blen_nonneg b : 0 <= blen b.
Proof. unfold blen. lia. Qed.

Lemma limited_run_within ps r e : blen (stream_data ps) <= r -> limited_run ps (mkLimitedBody r e) = (ps, mkLimitedBody (r - blen (stream_data ps)) e).
Proof.
  revert r. induction ps as [|p ps IH]; intros r H; [cbn; by rewrite Z.sub_0_r|]. cbn [limited_run].
  rewrite stream_data_cons, blen_app in H. unfold limited_poll. cbn [remaining exceeded].
  pose proof (blen_nonneg (stream_data ps)). destruct (Z.ltb_spec r (blen (polled_data p))); [lia|].
  rewrite IH by lia. by rewrite stream_data_cons, blen_app, Z.sub_add_distr.
Qed.

(** The polls up to the first that does not fit. *)
Lemma limited_run_over ps r e :
  0 <= r -> r < blen (stream_data ps) ->
  exists before p after out,
    ps = before ++ p :: after /\ blen (stream_data before) <= r < blen (stream_data before) + blen (polled_data p)
    /\ (limited_run ps (mkLimitedBody r e)).1 = before ++ PError :: out
    /\ exceeded (limited_run ps (mkLimitedBody r e)).2 = true.
Proof.
  assert (Hflag : forall ps b, exceeded b = true -> exceeded (limited_run ps b).2 = true).
  { induction ps0 as [|p ps0 IH]; intros b Hb; [done|]. cbn [limited_run]. unfold limited_poll.
    specialize (IH (if remaining b <? blen (polled_data p) then mkLimitedBody (remaining b) true
                    else mkLimitedBody (remaining b - blen (polled_data p)) (exceeded b))).
    destruct (_ <? _); destruct (limited_run ps0 _); by apply IH. }
  revert r. induction ps as [|p ps IH]; intros r Hr H; [change (blen (stream_data [])) with 0 in H; lia|]. cbn [limited_run]. unfold limited_poll. cbn [remaining exceeded].
  destruct (Z.ltb_spec r (blen (polled_data p))).
  - exists [], p, ps, (limited_run ps (mkLimitedBody r true)).1. specialize (Hflag ps (mkLimitedBody r true) eq_refl).
    destruct (limited_run ps _) as [out b]. split; [done|]. split; [change (blen (stream_data [])) with 0; lia|done].
  - rewrite stream_data_cons, blen_app in H.
    destruct (IH (r - blen (polled_data p))) as (before & q & after & out & E1 & E2 & E3 & E4); [lia..|].
    exists (p :: before), q, after, out. destruct (limited_run ps _) as [o b]. cbn [fst snd] in *. subst.
    split; [done|]. split; [|done]. rewrite stream_data_cons, blen_app. lia.
Qed.

(** The limit of a request body is exact.  Without a limit the body is unchanged.  A body
    whose data fits the limit passes unchanged and is not marked; of any other body, the frames
    before the first that does not fit pass, the next poll is the error, and the body is marked,
    so the client gets 413. *)
Theorem body_limit_exact limit ps :
  BodyLimit_apply 0 ps = (ps, false)
  /\ (0 < limit -> blen (stream_data ps) <= limit -> BodyLimit_apply limit ps = (ps, false))
  /\ (0 < limit -> limit < blen (stream_data ps) ->
      exists before p after out,
        ps = before ++ p :: after
        /\ blen (stream_data before) <= limit < blen (stream_data (before ++ [p]))
        /\ BodyLimit_apply limit ps = (before ++ PError :: out, true)).
Proof.
  split; [done|]. unfold BodyLimit_apply. split; intros Hpos H; rewrite (proj2 (Z.eqb_neq limit 0)) by lia.
  - by rewrite limited_run_within.
  - destruct (limited_run_over ps limit false) as (before & p & after & out & E1 & E2 & E3 & E4); [lia..|].
    exists before, p, after, out. split; [done|]. split.
    + unfold stream_data in *. rewrite flat_map_app, blen_app. cbn [flat_map]. rewrite app_nil_r. lia.
    + destruct (limited_run ps _) as [o b]. cbn [fst snd] in *. by rewrite E3, E4.
Qed.

(** The whole body, when it ends without an error. *)
Fixpoint finished (ps : list Polled) : option bytes :=
  match ps with
  | [] => None
  | PEnd :: _ => Some []
  | PError :: _ => None
  | PFrame f last :: rest =>
      if last then Some (frame_data f) else option_map (app (frame_data f)) (finished rest)
  end.

Lemma tee_without_sender limit ps c s : sent (fold_left (fun t p => tee_poll limit p t) ps (mkTeeBody c false s)) = s.
Proof.
  revert c. induction ps as [|p ps IH]; intros c; [done|]. cbn [fold_left]. unfold tee_poll at 2. cbn [copy sender sent].
  destruct p as [f last| |]; cbn [sender]; rewrite ?andb_false_r; [destruct (_ <? _); cbn [sender]; rewrite ?andb_false_r|..]; apply IH.
Qed.

Lemma tee_run limit ps c :
  blen c <= limit ->
  sent (fold_left (fun t p => tee_poll limit p t) ps (mkTeeBody c true None))
  = match finished ps with
    | Some d => if blen (c ++ d) <=? limit then Some (c ++ d) else None
    | None => None
    end.
Proof.
  revert c. induction ps as [|p ps IH]; intros c Hc; [done|]. cbn [fold_left finished].
  destruct p as [f last| |]; unfold tee_poll at 2; cbn [copy sender sent andb].
  - destruct (Z.ltb_spec limit (blen c + blen (frame_data f))) as [Hbig|Hok].
    + cbn [sender]. rewrite andb_false_r, tee_without_sender.
      assert (Hno : forall d, (blen (c ++ frame_data f ++ d) <=? limit) = false).
      { intros d. apply Z.leb_gt. rewrite !blen_app. pose proof (blen_nonneg d). lia. }
      destruct last; [specialize (Hno []); rewrite app_nil_r in Hno; by rewrite Hno|].
      destruct (finished ps); cbn [option_map]; [by rewrite Hno|done].
    + cbn [sender copy]. destruct last; cbn [andb].
      * rewrite tee_without_sender, blen_app. destruct (Z.leb_spec (blen c + blen (frame_data f)) limit); [done|lia].
      * rewrite IH by (rewrite blen_app; lia). destruct (finished ps); cbn [option_map]; [by rewrite app_assoc|done].
  - by rewrite tee_without_sender.
  - rewrite tee_without_sender, app_nil_r. destruct (Z.leb_spec (blen c) limit); [done|lia].
Qed.

(** A mirror copies whole bodies only.  The task of the copies gets exactly the data of the
    body, once the body has ended without an error and when the data fits the limit of the mirror;
    of a body that fails, stops early or passes the limit it gets nothing. *)
Theorem mirror_copies_whole_bodies limit ps :
  0 <= limit ->
  tee limit false ps
  = match finished ps with
    | Some d => if blen d <=? limit then Some d else None
    | None => None
    end.
Proof. intros H. unfold tee. by rewrite tee_run. Qed.

Lemma body_limit_exact_witness :
  BodyLimit_apply 3 [PFrame (Data [1; 2]) false; PFrame (Data [3]) true] = ([PFrame (Data [1; 2]) false; PFrame (Data [3]) true], false).
Proof.
  exact (proj1 (proj2 (body_limit_exact 3 [PFrame (Data [1; 2]) false; PFrame (Data [3]) true]))
           ltac:(lia) ltac:(discriminate)).
Defined.

Lemma mirror_copies_whole_bodies_witness :
  tee 3 false [PFrame (Data [1; 2]) false; PFrame (Data [3]) false; PFrame Trailers false; PEnd] = Some [1; 2; 3].
Proof. exact (mirror_copies_whole_bodies 3 _ ltac:(lia)). Defined.
