(* ===== verification/Pool.v ===== *)
(** * Requests to upstream servers

    [proxy/http/pool.rs]: a route selects the servers to try, points the request at the first and
    sends it; a failure that the retry policy names sends a copy to the next server whose circuit
    lets it through.  Every attempt holds a permit of [Permits]; the guard of a successful attempt
    goes to the body of the response or to the upgraded connection.

    The upstream servers are what [ae_answer] returns; other tasks run before an acquisition and
    while a request is sent ([ae_before], [ae_during]). *)

From Stdlib Require Import Ascii.
From S2P Require Import Prelude Basics IpText Net Upstream GeoIp Float64 Registry Breaker Balancer Permits Router.
From S2P Require Import ProxyErrors Headers Cookies BodyStreams.

(** ** Interfaces *)

(** What the code uses of the [url] crate and of [http::Uri]. *)
Class UrlOps : Type := {
  Url : Type;
  Uri : Type;
  url_path : Url -> string;
  set_path : string -> Url -> Url;
  set_query : option string -> Url -> Url;
  url_as_str : Url -> string;
  uri_from_str : string -> option Uri;
  uri_query : Uri -> option string;
  uri_authority : Uri -> option string;
  uri_is_http : Uri -> bool;
}.

(** An [anyhow::Error]: what [downcast_ref] to a [ProxyError] finds, and its chain of causes. *)
Record AnyError : Type := mkAnyError {
  e_downcast : option ProxyError;
  e_chain : list Cause;
}.

Definition from_proxy (e : ProxyError) : AnyError := mkAnyError (Some e) [CProxy e].

(** What the code uses of request bodies: the exact size when it is known, reading at most a
    number of bytes of it into memory ([Limited] and [collect]), and a body of given bytes. *)
Class BodyOps : Type := {
  Body : Type;
  size_exact : Body -> option Z;
  collect_limited : Z -> Body -> result bytes AnyError;
  full_body : bytes -> Body;
}.

Inductive HttpMethod : Type :=
| GET | HEAD | OPTIONS | TRACE | PUT | DELETE
| OtherMethod (name : string).

#[export] Instance HttpMethod_eq_dec : EqDecision HttpMethod. Proof. solve_decision. Defined.

Inductive Version : Type := HTTP_10 | HTTP_11 | HTTP_2 | HTTP_3.

(** The sticky session of a request: the server that its cookie names, and whether the cookie
    gets [Secure]. *)
Record StickyTarget : Type := mkStickyTarget {
  st_pinned : option nat;
  st_secure : bool;
}.

Record UpstreamTarget : Type := mkUpstreamTarget {
  tg_candidates : list nat;
  tg_path_segments : list string;
  tg_query : option string;
  tg_sticky : option StickyTarget;
}.

(** ** Errors *)

(** An error of the HTTP client: its chain of causes, itself first. *)
Record ClientError : Type := mkClientError {
  ce_is_connect : bool;
  ce_chain : list Cause;
}.

Record SendError : Type := mkSendError {
  se_error : AnyError;
  se_connect : bool;
}.

Definition SendError_other (e : AnyError) : SendError := mkSendError e false.

Definition is_timeout (chain : list Cause) : bool :=
  existsb (fun c => match c with CIo TimedOut _ => true | _ => false end) chain.

Definition has_io_connect_error (sources : list Cause) : bool :=
  existsb (fun c => match c with
                    | CIo (ConnectionRefused | ConnectionReset | ConnectionAborted | NotConnected) _ => true
                    | _ => false
                    end) sources.

Inductive UpstreamErrorKind : Type := KTimeout | KConnect | KOther.

Definition classify_upstream_error (e : AnyError) : UpstreamErrorKind :=
  if match e_downcast e with Some UpstreamTimeout => true | _ => false end then KTimeout
  else if is_timeout (e_chain e) then KTimeout
  else if match e_chain e with CClient true :: _ => true | _ => false end then KConnect
  else if has_io_connect_error (tail (e_chain e)) then KConnect
  else KOther.

(** The idempotent methods. *)
Definition is_idempotent (m : HttpMethod) : bool :=
  match m with GET | HEAD | OPTIONS | TRACE | PUT | DELETE => true | OtherMethod _ => false end.

Definition is_gateway_error (status : Z) : bool := (status =? 502) || (status =? 503) || (status =? 504).

Definition is_dot_segment (segment : string) : bool :=
  existsb (String.eqb (to_ascii_lowercase segment)) ["."; ".."; "%2e"; ".%2e"; "%2e."; "%2e%2e"].

Section Requests.
Context `{HDR : HeaderOps} `{URL : UrlOps}.

Record Request (B : Type) : Type := mkRequest {
  rq_method : HttpMethod;
  rq_uri : Uri;
  rq_version : Version;
  rq_headers : Headers;
  rq_target : option UpstreamTarget;
  rq_h2c : bool;
  rq_body : B;
}.
End Requests.

#[global] Arguments mkRequest {HDR URL B} : rename.
#[global] Arguments rq_method {HDR URL B} : rename.
#[global] Arguments rq_uri {HDR URL B} : rename.
#[global] Arguments rq_version {HDR URL B} : rename.
#[global] Arguments rq_headers {HDR URL B} : rename.
#[global] Arguments rq_target {HDR URL B} : rename.
#[global] Arguments rq_h2c {HDR URL B} : rename.
#[global] Arguments rq_body {HDR URL B} : rename.

Section Pool.
Context `{HDR : HeaderOps} `{HB : HeaderBytes} `{URL : UrlOps} `{BODY : BodyOps} `{RX : RegexOps}.
(** The functions of [Balancer] that are not in the sources, and the text of an error. *)
Context (fnv_finish : list (list Z) -> Z) (f64_ln : f64 -> f64) (f64_powf : f64 -> f64 -> f64).
Context (describe : AnyError -> string).

(** [rs_upgrade]: the connection is upgraded, so the guard goes to its task. *)
Record Response : Type := mkResponse {
  rs_status : Z;
  rs_headers : Headers;
  rs_upgrade : bool;
}.

Definition set_headers {B} (h : Headers) (r : Request B) : Request B :=
  mkRequest (rq_method r) (rq_uri r) (rq_version r) h (rq_target r) (rq_h2c r) (rq_body r).
Definition set_uri {B} (u : Uri) (r : Request B) : Request B :=
  mkRequest (rq_method r) u (rq_version r) (rq_headers r) (rq_target r) (rq_h2c r) (rq_body r).
Definition set_target {B} (t : UpstreamTarget) (r : Request B) : Request B :=
  mkRequest (rq_method r) (rq_uri r) (rq_version r) (rq_headers r) (Some t) (rq_h2c r) (rq_body r).

Definition copy_request {B C} (r : Request B) (body : C) : Request C :=
  mkRequest (rq_method r) (rq_uri r) (rq_version r) (rq_headers r) (rq_target r) (rq_h2c r) body.

(** ** The connection pool *)

Inductive ClientKind : Type := Negotiated | Http1 | H2c.

Definition is_websocket_upgrade_request {B} (r : Request B) : bool :=
  bool_decide (rq_method r = GET)
  && is_some_and (fun v => eq_ignore_ascii_case v "websocket") (h_get (rq_headers r) "upgrade")
  && is_some_and (fun v => is_some_and (fun s => existsb (fun p => eq_ignore_ascii_case (trim p) "upgrade") (split_on "," s)) (to_str v))
       (h_get (rq_headers r) "connection").

Definition client_for {B} (r : Request B) (upgrading : bool) : ClientKind :=
  if upgrading then Http1
  else if rq_h2c r && uri_is_http (rq_uri r) then H2c
  else Negotiated.

Definition map_client_error (e : ClientError) : SendError :=
  mkSendError (if is_timeout (ce_chain e) then from_proxy UpstreamTimeout else mkAnyError None (ce_chain e)) (ce_is_connect e).

(** [elapsed]: the limit passed before the headers arrived. *)
Definition response_headers (elapsed : bool) (res : result Response ClientError) (request_timeout : Duration)
  : result Response SendError :=
  let answer := match res with Ok r => Ok r | Err e => Err (map_client_error e) end in
  if is_zero request_timeout then answer
  else if elapsed then Err (SendError_other (from_proxy UpstreamTimeout))
  else answer.

(** The request as the client sends it, and whether it asks for an upgrade. *)
Definition outgoing (r : Request Body) : Request Body * bool :=
  if is_websocket_upgrade_request r then
    (mkRequest (rq_method r) (rq_uri r) HTTP_11 (rq_headers r) None false (full_body []), true)
  else
    (mkRequest (rq_method r) (rq_uri r) HTTP_11 (h_remove "http2-settings" (h_remove "upgrade" (rq_headers r)))
       (rq_target r) (rq_h2c r) (rq_body r), false).

(** [answer] is the HTTP client: whether the limit passed, and its result. *)
Definition send (answer : ClientKind -> Request Body -> bool * result Response ClientError) (r : Request Body)
    (request_timeout : Duration) : result Response SendError :=
  let '(out, is_ws) := outgoing r in
  let '(elapsed, res) := answer (client_for out is_ws) out in
  match response_headers elapsed res request_timeout with
  | Ok res => if is_ws && (rs_status res =? 101) then Ok (mkResponse (rs_status res) (rs_headers res) true)
              else Ok (mkResponse (rs_status res) (rs_headers res) false)
  | Err e => Err e
  end.

(** ** Targets *)

Record Upstream : Type := mkUpstream {
  up_request_timeout : Duration;
  up_servers : list Url;
  up_group : nat;
  up_retry : RetryPolicy;
  up_affinity : option Affinity;
  up_rewrite : Rewrite;
}.

Definition upstream_url (server : Url) (segments : list string) (query : option string) : Url :=
  let url := match segments with
             | [] => server
             | _ =>
                 let rest := String.concat "/" (List.filter (fun s => negb (is_dot_segment s)) segments) in
                 let base := trim_end_by (Ascii.eqb "/") (url_path server) in
                 set_path (String.append base (String "/" rest)) server
             end in
  set_query query url.

Definition upstream_uri (server : Url) (segments : list string) (query : option string) : result Uri ProxyError :=
  ok_or (uri_from_str (url_as_str (upstream_url server segments query))) UpstreamUriInvalid.

(** [Upstream::apply]. *)
Definition apply {B} (u : Upstream) (req : Request B) (index : nat) (target : UpstreamTarget) : result (Request B) ProxyError :=
  match up_servers u !! index with
  | None => Err NoUpstreamServers
  | Some server =>
      let? uri := upstream_uri server (tg_path_segments target) (tg_query target) in
      let req := match uri_authority uri with
                 | Some host => match value_from_str host with
                                | Some v => set_headers (h_insert "host" v (rq_headers req)) req
                                | None => req
                                end
                 | None => req
                 end in
      Ok (set_uri uri req)
  end.

(** [Upstream::pin]: the sticky session, the candidates with its server first, and the request
    without the cookie. *)
Definition pin {B} (u : Upstream) (a : Affinity) (req : Request B) (cs : list nat) (secure : bool) (now : Instant) (w : World)
  : StickyTarget * list nat * Request B :=
  let p := match pinned a (rq_headers req) with
           | Some i => if is_some_and (fun g => is_pinnable g now i) (w_groups w !! up_group u) then Some i else None
           | None => None
           end in
  let req := set_headers (strip a (rq_headers req)) req in
  let cs := match p with
            | Some i => i :: List.filter (fun c => negb (Nat.eqb c i)) cs
            | None => cs
            end in
  (mkStickyTarget p secure, cs, req).

(** [Upstream::select]: the request pointed at its first candidate, and whether the response can
    get a sticky cookie. *)
Definition select {B} (u : Upstream) (req : Request B) (path_segments : list string) (client : IpAddr) (secure : bool)
    (draws : list f64) (now : Instant) (w : World) : result (Request B * bool) ProxyError * World :=
  match up_servers u with
  | [] => (Ok (req, false), w)
  | _ =>
      let '(cs, w) :=
        match w_groups w !! up_group u with
        | Some g =>
            let '(cs, g') := candidates fnv_finish f64_ln f64_powf g (mkObservation (w_conns w) (w_metrics w) draws) now client in
            (cs, on_group (up_group u) (fun _ => g') w)
        | None => ([], w)
        end in
      let '(sticky, cs, req) :=
        match up_affinity u with
        | Some a => let '(s, cs, req) := pin u a req cs secure now w in (Some s, cs, req)
        | None => (None, cs, req)
        end in
      let target := mkUpstreamTarget cs (Rewrite_apply (up_rewrite u) path_segments) (uri_query (rq_uri req)) sticky in
      (match cs with
       | first :: _ => let? req := apply u req first target in Ok (set_target target req, is_some sticky)
       | [] => Ok (set_target target req, is_some sticky)
       end, w)
  end.

(** [Upstream::remember]: the new value of the cookie slot. *)
Definition remember (u : Upstream) (target : UpstreamTarget) (index : nat) (slot : option string) : option string :=
  match up_affinity u, tg_sticky target with
  | Some a, Some s => if bool_decide (st_pinned s = Some index) then None else set_cookie a index (st_secure s)
  | _, _ => slot
  end.

(** ** Replaying a request *)

Record Replay : Type := mkReplay {
  rp_first : option (Request Body);
  rp_copy : option (Request bytes);
  rp_method : HttpMethod;
}.

Definition body_length (r : Request Body) : option Z :=
  match size_exact (rq_body r) with
  | Some n => Some n
  | None => match h_get (rq_headers r) "content-length" with
            | Some v => match to_str v with Some s => parse_uint u64_max s | None => None end
            | None => None
            end
  end.

Definition prepare (req : Request Body) (limit : Z) : result Replay SendError :=
  let m := rq_method req in
  let length := match body_length req with Some n => if n <=? limit then Some n else None | None => None end in
  if h_contains (rq_headers req) "upgrade" || is_none length then Ok (mkReplay (Some req) None m)
  else if bool_decide (size_exact (rq_body req) = Some 0) then Ok (mkReplay (Some req) (Some (copy_request req [])) m)
  else match collect_limited limit (rq_body req) with
       | Err e => Err (SendError_other e)
       | Ok body =>
           let copy := copy_request req body in
           Ok (mkReplay (Some (copy_request copy (full_body body))) (Some copy) m)
       end.

(** [Replay::next]. *)
Definition replay_next (r : Replay) : option (Request Body * Replay) :=
  match rp_first r with
  | Some req => Some (req, mkReplay None (rp_copy r) (rp_method r))
  | None => option_map (fun copy => (copy_request copy (full_body (rq_body copy)), r)) (rp_copy r)
  end.

(** ** Attempts *)

(** What happens around one attempt: the other tasks before the circuit of each candidate is
    asked, the times of these requests, the answer of the HTTP client, the other tasks while the
    request is sent, and the time of the result. *)
Record AttemptEnv : Type := mkAttemptEnv {
  ae_before : nat -> World -> World;
  ae_acquired : nat -> Instant;
  ae_answer : ClientKind -> Request Body -> bool * result Response ClientError;
  ae_during : World -> World;
  ae_done : Instant;
}.

Definition retry_reason (r : result Response SendError) : option RetryOn :=
  match r with
  | Err e =>
      if se_connect e then Some Connect
      else match e_downcast (se_error e) with Some UpstreamTimeout => Some Timeout | _ => None end
  | Ok res =>
      if rs_status res =? 502 then Some Http502
      else if rs_status res =? 503 then Some Http503
      else if rs_status res =? 504 then Some Http504
      else None
  end.

Definition should_retry (u : Upstream) (r : result Response SendError) (m : HttpMethod) : bool :=
  is_some_and (fun reason => existsb (fun o => bool_decide (o = reason)) (retry_on (up_retry u))
                             && (bool_decide (reason = Connect) || is_idempotent m))
    (retry_reason r).

(** [candidates.find_map(|index| self.group.acquire(index))]. *)
Fixpoint find_acquire (env : AttemptEnv) (gid : nat) (cs : list nat) (w : World) : option Permit * list nat * World :=
  match cs with
  | [] => (None, [], w)
  | i :: rest =>
      let '(p, w) := acquire gid i (ae_acquired env i) (ae_before env i w) in
      match p with
      | Some p => (Some p, rest, w)
      | None => find_acquire env gid rest w
      end
  end.

(** [Upstream::claim]; a permit that is not used is dropped. *)
Definition claim (u : Upstream) (env : AttemptEnv) (req : Request Body) (target : UpstreamTarget) (cs : list nat) (w : World)
  : result (option (Permit * Request Body)) ProxyError * list nat * World :=
  let '(p, rest, w) := find_acquire env (up_group u) cs w in
  match p with
  | None => (Ok None, rest, w)
  | Some p =>
      if bool_decide (head (tg_candidates target) = Some (p_index p)) then (Ok (Some (p, req)), rest, w)
      else match apply u req (p_index p) target with
           | Ok req => (Ok (Some (p, req)), rest, w)
           | Err e => (Err e, rest, permit_abandon p w)
           end
  end.

Definition record_response_permit (r : result Response SendError) (p : Permit) (now : Instant) (w : World)
  : option ConnGuard * World :=
  let w := match r with
           | Ok res => match h_get (rs_headers res) "content-length" with
                       | Some v => match parse_uint u64_max (unwrap_or (to_str v) "") with
                                   | Some n => permit_record_bytes n p w
                                   | None => w
                                   end
                       | None => w
                       end
           | Err _ => w
           end in
  match r with
  | Ok res =>
      if is_gateway_error (rs_status res) then (None, permit_error_response now p w)
      else let '(c, w) := permit_success_keep now p w in (Some c, w)
  | Err e => (None, permit_failure (describe (se_error e)) now p w)
  end.

(** [Upstream::attempt]: the result, and the guard that the response or its upgrade holds. *)
Definition attempt (u : Upstream) (env : AttemptEnv) (req : Request Body) (p : Permit) (w : World)
  : result Response SendError * option ConnGuard * World :=
  let res := send (ae_answer env) req (up_request_timeout u) in
  let '(guard, w) := record_response_permit res p (ae_done env) (ae_during env w) in
  (res, guard, w).

(** One attempt as the upstream servers see it. *)
Record Sent : Type := mkSent {
  s_index : nat;
  s_request : Request Body;
  s_result : result Response SendError;
}.

(** The variables of the loop, with the cookie slot and the requests that were sent. *)
Record Loop : Type := mkLoop {
  l_replay : Replay;
  l_candidates : list nat;
  l_result : result Response SendError;
  l_guard : option ConnGuard;
  l_slot : option string;
  l_sent : list Sent;
  l_world : World;
}.

(** One turn of the loop, and whether it goes on. *)
Definition turn (u : Upstream) (target : UpstreamTarget) (env : AttemptEnv) (s : Loop) : Loop * bool :=
  match replay_next (l_replay s) with
  | None => (s, false)
  | Some (req, replay) =>
      let '(claimed, cs, w) := claim u env req target (l_candidates s) (l_world s) in
      match claimed with
      | Err e => (mkLoop replay cs (Err (SendError_other (from_proxy e))) None (l_slot s) (l_sent s) w, false)
      | Ok None => (mkLoop replay cs (l_result s) (l_guard s) (l_slot s) (l_sent s) w, false)
      | Ok (Some (p, req)) =>
          let '(res, guard, w) := attempt u env req p w in
          let slot := if is_ok res then remember u target (p_index p) (l_slot s) else l_slot s in
          (mkLoop replay cs res guard slot (l_sent s ++ [mkSent (p_index p) req res]) w,
           should_retry u res (rp_method replay))
      end
  end.

Fixpoint retry_loop (u : Upstream) (target : UpstreamTarget) (envs : nat -> AttemptEnv) (n k : nat) (s : Loop) : Loop :=
  match n with
  | O => s
  | S n => let '(s, again) := turn u target (envs k) s in if again then retry_loop u target envs n (S k) s else s
  end.

Definition max_attempts (u : Upstream) : nat := Z.to_nat (Z.max (attempts (up_retry u)) 1).

Definition send_with_retries (u : Upstream) (replay : Replay) (target : UpstreamTarget) (envs : nat -> AttemptEnv) (w : World) : Loop :=
  retry_loop u target envs (max_attempts u) 0
    (mkLoop replay (tg_candidates target) (Err (SendError_other (from_proxy NoUpstreamAvailable))) None None [] w).

(** [Upstream::send_request]: the result, the guard, the cookie, the requests sent and the world.
    A request without a target goes where its URI points, without a permit. *)
Definition send_request (u : Upstream) (req : Request Body) (envs : nat -> AttemptEnv) (w : World)
  : result Response SendError * option ConnGuard * option string * list Sent * World :=
  match rq_target req with
  | None =>
      let res := send (ae_answer (envs 0%nat)) req (up_request_timeout u) in
      (res, None, None, [], ae_during (envs 0%nat) w)
  | Some target =>
      match prepare req (replay_body_limit (up_retry u)) with
      | Err e => (Err e, None, None, [], w)
      | Ok replay =>
          let s := send_with_retries u replay target envs w in
          (l_result s, l_guard s, l_slot s, l_sent s, l_world s)
      end
  end.

(** [Upstream::request] after the request body was wrapped: [exceeded] tells whether the body
    passed its limit meanwhile. *)
Definition finish_request (exceeded : bool) (r : result Response SendError) : result Response AnyError :=
  match r with
  | Ok res => Ok res
  | Err e => Err (if exceeded then from_proxy PayloadTooLarge else se_error e)
  end.
End Pool.
