(* ===== verification/PoolProps.v ===== *)
(** * What the upstream pool promises

    The retries of [Pool]: how often and where a request is sent, that it reaches the server
    whose permit it holds, and that every attempt is a run of the steps of [Permits]. *)

From Stdlib Require Import Ascii.
From S2P Require Import Prelude Basics IpText Net Upstream GeoIp Float64 Registry Breaker Balancer Permits Router.
From S2P Require Import ProxyErrors Headers Cookies BodyStreams Pool.

Section PoolProps.
Context `{HDR : HeaderOps} `{HB : HeaderBytes} `{URL : UrlOps} `{BODY : BodyOps} `{RX : RegexOps}.
Context (describe : AnyError -> string).
Implicit Types (u : Upstream) (target : UpstreamTarget) (s : Loop).

(** ** How often and where *)

Lemma find_acquire_spec env gid cs w p rest w' :
  find_acquire env gid cs w = (p, rest, w') ->
  match p with
  | Some p => exists skipped, cs = skipped ++ p_index p :: rest /\ p_group p = gid
  | None => rest = []
  end.
Proof.
  revert w. induction cs as [|i cs IH]; intros w; cbn [find_acquire]; [by intros [= <- <- <-]|].
  destruct (acquire gid i (ae_acquired env i) (ae_before env i w)) as [q w1] eqn:Ea. destruct q as [q|].
  - intros [= <- <- <-]. exists []. unfold acquire in Ea. destruct (w_groups _ !! gid) as [g|]; [|done].
    destruct (admit_at g i _) as [[t|] g']; [|done]. injection Ea as <- <-. done.
  - intros H. apply IH in H. destruct p as [p|]; [|done]. destruct H as (sk & -> & Hg). by exists (i :: sk).
Qed.

(** What a turn does to the log: nothing, or one more attempt at a later candidate. *)
Lemma turn_cases u target env s s' again :
  turn describe u target env s = (s', again) ->
  (l_sent s' = l_sent s /\ again = false
   /\ (l_result s' = l_result s /\ l_guard s' = l_guard s
       \/ exists e, l_result s' = Err (SendError_other (from_proxy e)) /\ l_guard s' = None))
  \/ exists x skipped req,
       l_sent s' = l_sent s ++ [x] /\ l_candidates s = skipped ++ s_index x :: l_candidates s'
       /\ l_result s' = s_result x /\ again = should_retry u (s_result x) (rp_method (l_replay s))
       /\ replay_next (l_replay s) = Some (req, l_replay s')
       /\ (head (tg_candidates target) = Some (s_index x) /\ s_request x = req
           \/ apply u req (s_index x) target = Ok (s_request x)).
Proof.
  unfold turn. destruct (replay_next (l_replay s)) as [[req replay]|] eqn:En; [|intros [= <- <-]; left; naive_solver].
  assert (Hm : rp_method replay = rp_method (l_replay s)).
  { unfold replay_next in En. destruct (rp_first (l_replay s)); [by injection En as <- <-|].
    destruct (rp_copy (l_replay s)); [by injection En as <- <-|done]. }
  unfold claim. destruct (find_acquire env _ _ _) as [[p rest] w] eqn:Ef. apply find_acquire_spec in Ef.
  destruct p as [p|]; [|intros [= <- <-]; left; cbn; naive_solver]. destruct Ef as (sk & Ecs & _).
  case_bool_decide as Ehd; [|destruct (apply u req (p_index p) target) as [req'|e] eqn:Ea;
    [|intros [= <- <-]; left; cbn; split; [done|]; split; [done|]; right; eauto]].
  - destruct (attempt _ _ _ _ _ _) as [[res guard] w'] eqn:Eat. intros [= <- <-]. right.
    exists (mkSent (p_index p) req res), sk, req. cbn. rewrite Hm. naive_solver.
  - destruct (attempt _ _ _ _ _ _) as [[res guard] w'] eqn:Eat. intros [= <- <-]. right.
    exists (mkSent (p_index p) req' res), sk, req. cbn. rewrite Hm. naive_solver.
Qed.

(** The attempts that need no copy. *)
Definition firsts (r : Replay) : nat := match rp_first r with Some _ => 1 | None => 0 end.

(** The retries of the loop: every attempt but the last failed in a way that the policy names. *)
Lemma retry_loop_log u target envs n k s :
  exists log,
    l_sent (retry_loop describe u target envs n k s) = l_sent s ++ log
    /\ (length log <= n)%nat /\ map s_index log `sublist_of` l_candidates s
    /\ (log = [] \/ exists init x, log = init ++ [x]
          /\ Forall (fun y => should_retry u (s_result y) (rp_method (l_replay s)) = true) init)
    /\ (rp_copy (l_replay s) = None -> (length log <= firsts (l_replay s))%nat)
    /\ (l_result (retry_loop describe u target envs n k s)
        = match last log with Some x => s_result x | None => l_result s end
        \/ exists e, l_result (retry_loop describe u target envs n k s) = Err (SendError_other (from_proxy e))).
Proof.
  revert k s. induction n as [|n IH]; intros k s.
  { exists []. cbn. rewrite app_nil_r. split; [done|]. split; [lia|]. split; [apply sublist_nil_l|]. split; [by left|].
    split; [intros _; lia|by left]. }
  cbn [retry_loop]. destruct (turn describe u target (envs k) s) as [s1 again] eqn:Et.
  apply turn_cases in Et as [(E1 & -> & Er)|(x & sk & req & E1 & E2 & E3 & E4 & E5 & _)].
  { exists []. rewrite app_nil_r. cbn [length map last]. split; [done|]. split; [lia|]. split; [apply sublist_nil_l|].
    split; [by left|]. split; [intros _; lia|]. destruct Er as [[Er _]|(e & Er & _)]; [by left|right; eauto]. }
  assert (Hcopy : rp_copy (l_replay s1) = rp_copy (l_replay s) /\ rp_method (l_replay s1) = rp_method (l_replay s)
                  /\ (rp_copy (l_replay s) = None -> rp_first (l_replay s1) = None /\ is_Some (rp_first (l_replay s)))).
  { unfold replay_next in E5. destruct (rp_first (l_replay s)) as [f|]; [injection E5 as <- <-; cbn; eauto|].
    destruct (rp_copy (l_replay s)) as [c|] eqn:Ec; [|done]. injection E5 as <- Hs. rewrite <-Hs, Ec. done. }
  destruct Hcopy as (Hc1 & Hc2 & Hc3). destruct again.
  - destruct (IH (S k) s1) as (log & H1 & H2 & H3 & H4 & H5 & H6). rewrite Hc1, Hc2 in *.
    exists (x :: log). split; [by rewrite H1, E1, <-app_assoc|]. split; [cbn; lia|].
    split; [rewrite E2; cbn [map]; apply sublist_inserts_l; by constructor|].
    split.
    { right. destruct H4 as [->|(init & y & -> & Hinit)]; [exists [], x; split; [done|constructor]|].
      exists (x :: init), y. split; [done|]. constructor; [by symmetry|done]. }
    split.
    { intros Hn. destruct (Hc3 Hn) as [Hf [f Hf']]. specialize (H5 Hn). unfold firsts in *. rewrite Hf in H5. rewrite Hf'. cbn. lia. }
    destruct H6 as [H6|H6]; [left|by right]. rewrite H6. destruct log as [|y log]; [done|]. 
    change (last (x :: y :: log)) with (last (y :: log)). destruct (last (y :: log)) eqn:El; [done|]. by apply last_None in El.
  - exists [x]. split; [done|]. split; [cbn; lia|]. split; [rewrite E2; cbn [map]; apply sublist_inserts_l; constructor; apply sublist_nil_l|].
    split; [right; exists [], x; split; [done|constructor]|]. split; [|left; done].
    intros Hn. unfold firsts. destruct (Hc3 Hn) as [_ [f ->]]. cbn. lia.
Qed.

(** A retried failure of a method that is not idempotent is a failure to connect. *)
Lemma should_retry_connect u r m :
  should_retry u r m = true -> is_idempotent m = false -> exists e, r = Err e /\ se_connect e = true.
Proof.
  unfold should_retry, retry_reason. intros H Hm. destruct r as [res|e].
  - rewrite Hm in H. repeat match goal with H : context [if ?c then _ else _] |- _ => destruct c; cbn in H end;
      rewrite ?andb_false_r in H; done.
  - destruct (se_connect e) eqn:E; [eauto|]. rewrite Hm in H.
    destruct (e_downcast (se_error e)) as [[]|]; cbn in H; rewrite ?andb_false_r in H; done.
Qed.

(** C30: Retries are bounded and safe.  A request is sent at most as often as the policy says, to
    different servers in the order of the candidates, and once at most when it has no copy.
    Every attempt but the last failed with a reason that the policy names; when the method is not
    idempotent, all these failures were failures to connect, so at most one server received the
    request.  The answer is the one of the last attempt, unless the request could not be pointed
    at a further server, and 503 when no server could be tried. *)
Theorem retries_bounded_and_safe u replay target envs w :
  NoDup (tg_candidates target) ->
  let s := send_with_retries describe u replay target envs w in
  Z.of_nat (length (l_sent s)) <= Z.max (attempts (up_retry u)) 1
  /\ map s_index (l_sent s) `sublist_of` tg_candidates target
  /\ NoDup (map s_index (l_sent s))
  /\ (rp_copy replay = None -> (length (l_sent s) <= 1)%nat)
  /\ (l_sent s = [] \/ exists init x, l_sent s = init ++ [x]
        /\ Forall (fun y => exists reason, retry_reason (s_result y) = Some reason /\ reason ∈ retry_on (up_retry u)) init
        /\ (is_idempotent (rp_method replay) = false ->
            Forall (fun y => exists e, s_result y = Err e /\ se_connect e = true) init))
  /\ (l_result s = match last (l_sent s) with
                   | Some x => s_result x
                   | None => Err (SendError_other (from_proxy NoUpstreamAvailable))
                   end
      \/ exists e, l_result s = Err (SendError_other (from_proxy e))).
Proof.
  intros Hnd s.
  set (s0 := mkLoop replay (tg_candidates target) (Err (SendError_other (from_proxy NoUpstreamAvailable))) None None [] w).
  destruct (retry_loop_log u target envs (max_attempts u) 0 s0) as (log & H1 & H2 & H3 & H4 & H5 & H6).
  change (retry_loop _ _ _ _ _ _ _) with s in H1, H6. change (l_sent s0 ++ log) with log in H1. rewrite H1.
  split; [unfold max_attempts in H2; lia|]. split; [done|]. split; [by eapply sublist_NoDup|].
  split; [intros Hc; specialize (H5 Hc); unfold firsts in H5; destruct (rp_first (l_replay s0)); lia|]. split; [|exact H6].
  destruct H4 as [H4|(init & x & -> & Hinit)]; [by left|]. right. exists init, x. split; [done|]. split.
  - eapply Forall_impl; [exact Hinit|]. intros y Hy. unfold should_retry in Hy.
    destruct (retry_reason (s_result y)) as [reason|]; [|done]. exists reason. split; [done|]. cbn in Hy.
    apply andb_prop in Hy as [Hy _]. apply existsb_exists in Hy as (o & Ho & Hb). apply bool_decide_eq_true in Hb as ->.
    by apply list_elem_of_In.
  - intros Hm. eapply Forall_impl; [exact Hinit|]. intros y Hy. by eapply should_retry_connect; [exact Hy|exact Hm].
Qed.

(** ** The permits of a request *)

(** What other tasks do to the world: steps that leave the tokens of this request alone and change
    the other tokens within [R]. *)
Definition others (R : relation (list Token)) (f : World -> World) : Prop :=
  forall w l mine ts, l ≡ₚ mine ++ ts ->
    exists l' ts', R ts ts' /\ rtc world_step (w, l) (f w, l') /\ l' ≡ₚ mine ++ ts'.

Definition env_ok (R : relation (list Token)) (env : AttemptEnv) : Prop :=
  (forall i, others R (ae_before env i)) /\ others R (ae_during env).

Definition permit_token (p : option Permit) : list Token := match p with Some p => [TPermit p] | None => [] end.
Definition guard_token (c : option ConnGuard) : list Token := match c with Some c => [TGuard c] | None => [] end.

(** A run of the steps that leaves [mine] with this request. *)
Definition runs (R : relation (list Token)) (w : World) (l : list Token) (ts : list Token) (w' : World) (mine : list Token) : Prop :=
  exists l' ts', R ts ts' /\ rtc world_step (w, l) (w', l') /\ l' ≡ₚ mine ++ ts'.

Section Runs.
Context (R : relation (list Token)) `{!PreOrder R}.

(** The end of a permit takes it out of the tokens. *)
Lemma runs_end w l p ts w' :
  l ≡ₚ TPermit p :: ts -> (forall l1 l2, world_step (w, l1 ++ TPermit p :: l2) (w', l1 ++ l2)) -> runs R w l ts w' [].
Proof.
  intros Hl Hstep. assert (Hin : TPermit p ∈ l) by (rewrite Hl; by left). apply list_elem_of_split in Hin as (l1 & l2 & ->).
  exists (l1 ++ l2), ts. split; [done|]. split; [apply rtc_once, Hstep|]. cbn.
  apply (Permutation_cons_inv (a := TPermit p)). by rewrite <-Hl, Permutation_middle.
Qed.

Lemma find_acquire_runs env gid cs w l ts p rest w' :
  env_ok R env -> l ≡ₚ ts -> find_acquire env gid cs w = (p, rest, w') -> runs R w l ts w' (permit_token p).
Proof.
  intros [Hb _]. revert w l ts. induction cs as [|i cs IH]; intros w l ts Hl; cbn [find_acquire].
  { intros [= <- <- <-]. exists l, ts. done. }
  destruct (acquire gid i _ _) as [q w1] eqn:Ea.
  destruct (Hb i w l [] ts Hl) as (l1 & ts1 & HR1 & Hr1 & Hl1).
  destruct q as [q|].
  - intros [= <- <- <-]. exists (TPermit q :: l1), ts1. split; [done|]. split; [|cbn; by constructor].
    eapply rtc_r; [exact Hr1|]. by eapply ws_acquire.
  - intros H. destruct (IH _ _ ts1 Hl1 H) as (l2 & ts2 & HR2 & Hr2 & Hl2). exists l2, ts2. split; [by etrans|]. split; [|done].
    etrans; [exact Hr1|]. eapply rtc_l; [|exact Hr2]. by eapply ws_refused.
Qed.

Lemma record_response_runs res p now w l ts guard w' :
  l ≡ₚ TPermit p :: ts -> record_response_permit describe res p now w = (guard, w') ->
  runs R w l ts w' (guard_token guard).
Proof.
  intros Hl. unfold record_response_permit.
  set (w1 := match res with Ok _ => _ | Err _ => w end).
  assert (Hr1 : rtc world_step (w, l) (w1, l)).
  { unfold w1. destruct res as [res|]; [|done]. destruct (h_get _ _) as [v|]; [|done].
    destruct (parse_uint _ _); [|done]. apply rtc_once, ws_bytes. }
  assert (Hweak : forall mine, runs R w1 l ts w' mine -> runs R w l ts w' mine).
  { intros mine (l' & ts' & HR & Hr & Hp). exists l', ts'. split; [done|]. split; [by etrans|done]. }
  intros H. apply Hweak. clear Hr1 Hweak. destruct res as [res|e].
  - destruct (is_gateway_error _).
    + injection H as <- <-. eapply runs_end; [done|]. intros. apply ws_error_response.
    + destruct (permit_success_keep now p w1) as [c w2] eqn:Ek. injection H as <- <-.
      assert (Hin : TPermit p ∈ l) by (rewrite Hl; by left). apply list_elem_of_split in Hin as (l1 & l2 & ->).
      exists (TGuard c :: l1 ++ l2), ts. split; [done|]. split; [by eapply rtc_once, ws_keep|]. cbn. constructor.
      apply (Permutation_cons_inv (a := TPermit p)). by rewrite <-Hl, Permutation_middle.
  - injection H as <- <-. eapply runs_end; [done|]. intros. apply ws_failure.
Qed.

(** One turn of the loop that starts without a guard. *)
Lemma turn_runs u target env s s' again l ts :
  env_ok R env -> l ≡ₚ ts -> l_guard s = None -> turn describe u target env s = (s', again) ->
  runs R (l_world s) l ts (l_world s') (guard_token (l_guard s')) /\ (again = true -> l_guard s' = None).
Proof.
  intros He Hl Hg. unfold turn. destruct (replay_next _) as [[req replay]|]; [|intros [= <- <-]; rewrite Hg; split; [|done]; by exists l, ts].
  unfold claim. destruct (find_acquire env _ _ _) as [[p rest] w] eqn:Ef.
  apply (find_acquire_runs _ _ _ _ l ts) in Ef as (l1 & ts1 & HR1 & Hr1 & Hl1); [|done..].
  destruct p as [p|]; [|intros [= <- <-]; cbn; rewrite Hg; split; [|done]; by exists l1, ts1].
  assert (Hattempt : forall req', (let '(res, guard, w') := attempt describe u env req' p w in
      (mkLoop replay rest res guard (if is_ok res then remember u target (p_index p) (l_slot s) else l_slot s)
         (l_sent s ++ [mkSent (p_index p) req' res]) w', should_retry u res (rp_method replay))) = (s', again) ->
      runs R (l_world s) l ts (l_world s') (guard_token (l_guard s')) /\ (again = true -> l_guard s' = None)).
  { intros req'. unfold attempt. destruct He as [_ Hd].
    destruct (Hd w l1 [TPermit p] ts1 Hl1) as (l2 & ts2 & HR2 & Hr2 & Hl2).
    destruct (record_response_permit _ _ _ _ _) as [guard w'] eqn:Erec. intros [= <- <-]. cbn [l_world l_guard]. split.
    - destruct (record_response_runs _ _ _ _ l2 ts2 _ _ Hl2 Erec) as (l3 & ts3 & HR3 & Hr3 & Hl3). exists l3, ts3.
      split; [by do 2 (etrans; [eassumption|])|]. split; [|done]. by do 2 (etrans; [eassumption|]).
    - unfold should_retry, retry_reason, record_response_permit, is_gateway_error in *. intros Ha.
      destruct (send _ _ _) as [res|e]; [|by injection Erec as <- _].
      destruct (rs_status res =? 502), (rs_status res =? 503), (rs_status res =? 504); cbn [orb] in Erec; by injection Erec as <- _. }
  case_bool_decide as Ehd; [apply Hattempt|]. destruct (apply u req _ _) as [req'|e]; [apply Hattempt|].
  intros [= <- <-]. cbn. split; [|done].
  destruct (runs_end w l1 p ts1 (permit_abandon p w) Hl1) as (l3 & ts3 & HR3 & Hr3 & Hl3); [intros; apply ws_abandon|].
  exists l3, ts3. split; [by etrans|]. split; [by etrans|done].
Qed.

Lemma retry_loop_runs u target envs n k s l ts :
  (forall k, env_ok R (envs k)) -> l ≡ₚ ts -> l_guard s = None ->
  runs R (l_world s) l ts (l_world (retry_loop describe u target envs n k s)) (guard_token (l_guard (retry_loop describe u target envs n k s))).
Proof.
  intros He. revert k s l ts. induction n as [|n IH]; intros k s l ts Hl Hg; cbn [retry_loop]; [rewrite Hg; by exists l, ts|].
  destruct (turn describe u target (envs k) s) as [s1 again] eqn:Et.
  destruct (turn_runs _ _ _ _ _ _ l ts (He k) Hl Hg Et) as [Hr Ha]. destruct again; [|done].
  specialize (Ha eq_refl). rewrite Ha in Hr. destruct Hr as (l1 & ts1 & HR1 & Hr1 & Hl1).
  destruct (IH (S k) s1 l1 ts1 Hl1 Ha) as (l2 & ts2 & HR2 & Hr2 & Hl2). exists l2, ts2. split; [by etrans|]. split; [by etrans|done].
Qed.
End Runs.

(** The guard of the result: only a response that is no gateway error has one. *)
Definition has_guard (r : result Response SendError) : bool :=
  match r with Ok res => negb (is_gateway_error (rs_status res)) | Err _ => false end.

Lemma retry_loop_guard u target envs n k s :
  is_some (l_guard s) = has_guard (l_result s) ->
  is_some (l_guard (retry_loop describe u target envs n k s)) = has_guard (l_result (retry_loop describe u target envs n k s)).
Proof.
  revert k s. induction n as [|n IH]; intros k s Hs; [done|]. cbn [retry_loop].
  destruct (turn describe u target (envs k) s) as [s1 again] eqn:Et.
  assert (H1 : is_some (l_guard s1) = has_guard (l_result s1)).
  { unfold turn in Et. destruct (replay_next _) as [[req replay]|]; [|by injection Et as <- _].
    destruct (claim _ _ _ _ _ _) as [[[[[p req']|]|e] cs] w]; [|by injection Et as <- _..].
    unfold attempt, record_response_permit in Et. destruct (send _ _ _) as [res|e]; cbn [has_guard] in *.
    - destruct (is_gateway_error _) eqn:Eg; [injection Et as <- _; cbn; by rewrite Eg|].
      destruct (permit_success_keep _ _ _) as [c w2]. injection Et as <- _. cbn. by rewrite Eg.
    - by injection Et as <- _. }
  destruct again; [by apply IH|done].
Qed.

(** C5: The pool is a run of the permits.  Whatever the servers answer, however often the request is
    retried and whatever other requests do meanwhile, the attempts of a request are steps of the
    permits of [Permits]: every permit that was taken is given back exactly once, and at the end
    the request holds one guard when the response is not a gateway error, and nothing otherwise.
    With the invariants of the steps, the connection counts and the trial slots stay exact. *)
Theorem pool_refines_permits R `{!PreOrder R} u replay target envs w ts :
  (forall k, env_ok R (envs k)) ->
  let s := send_with_retries describe u replay target envs w in
  (exists l ts', R ts ts' /\ rtc world_step (w, ts) (l_world s, l) /\ l ≡ₚ guard_token (l_guard s) ++ ts')
  /\ is_some (l_guard s) = has_guard (l_result s)
  /\ (conns_inv (w, ts) -> trials_inv (w, ts) ->
      exists l, conns_inv (l_world s, l) /\ trials_inv (l_world s, l) /\ exists ts', R ts ts' /\ l ≡ₚ guard_token (l_guard s) ++ ts').
Proof.
  intros He s. destruct (retry_loop_runs R u target envs (max_attempts u) 0
    (mkLoop replay (tg_candidates target) (Err (SendError_other (from_proxy NoUpstreamAvailable))) None None [] w) ts ts He
    ltac:(done) eq_refl) as (l & ts' & HR & Hr & Hl).
  split; [by exists l, ts'|]. split; [by apply retry_loop_guard|]. intros Hc Ht.
  destruct (world_invs_reachable _ _ Hr Hc Ht) as [Hc' Ht']. exists l. split; [done|]. split; [done|]. eauto.
Qed.
End PoolProps.

(** ** Where a request goes *)

Section Targets.
Context `{HDR : HeaderOps} {LAWS : HeaderLaws HDR} `{HB : HeaderBytes} {BLAWS : HeaderBytesLaws HB}.
Context `{URL : UrlOps} `{BODY : BodyOps} `{RX : RegexOps}.
Context (fnv_finish : list (list Z) -> Z) (f64_ln : f64 -> f64) (f64_powf : f64 -> f64 -> f64).
Context (describe : AnyError -> string).
Implicit Types (u : Upstream) (target : UpstreamTarget).

(** The request has the URI and the host of the server, and no sticky cookie. *)
Record pointed {B} u target (m : HttpMethod) (i : nat) (r : Request B) : Prop := {
  pointed_method : rq_method r = m;
  pointed_server : exists url, up_servers u !! i = Some url
    /\ upstream_uri url (tg_path_segments target) (tg_query target) = Ok (rq_uri r);
  pointed_host host v :
    uri_authority (rq_uri r) = Some host -> value_from_str host = Some v -> h_get_all (rq_headers r) "host" = [v];
  pointed_clean a : up_affinity u = Some a -> cookie_values (rq_headers r) (af_name a) = [];
}.

(** The request has no sticky cookie yet to hide. *)
Definition clean {B} u (r : Request B) : Prop := forall a, up_affinity u = Some a -> cookie_values (rq_headers r) (af_name a) = [].

Lemma apply_pointed {B} u (req req' : Request B) i target :
  clean u req -> apply u req i target = Ok req' -> pointed u target (rq_method req) i req'.
Proof.
  intros Hclean. unfold apply. destruct (up_servers u !! i) as [url|] eqn:Es; [|done].
  destruct (upstream_uri url _ _) as [uri|] eqn:Eu; [|done]. cbn [and_then]. intros [= <-].
  set (r := match uri_authority uri with Some _ => _ | None => req end).
  assert (Hr : rq_method r = rq_method req /\ h_get_all (rq_headers r) "cookie" = h_get_all (rq_headers req) "cookie"
    /\ forall host v, uri_authority uri = Some host -> value_from_str host = Some v -> h_get_all (rq_headers r) "host" = [v]).
  { unfold r. destruct (uri_authority uri) as [host|]; [|done]. destruct (value_from_str host) as [v|] eqn:Ev;
      [|by split; [|split; [|intros host' v' [= <-]; congruence]]].
    cbn [set_headers rq_headers rq_method]. split; [done|]. split; [by rewrite get_all_insert, decide_False|]. intros host' v' [= <-]. rewrite Ev. intros [= <-].
    by rewrite get_all_insert, decide_True. }
  destruct Hr as (Hm & Hcookie & Hhost). constructor; cbn; [done|by exists url|done|].
  intros a Ha. unfold cookie_values. rewrite Hcookie. by apply Hclean.
Qed.

Lemma pointed_copy {B C} u target m i (r : Request B) (body : C) : pointed u target m i r -> pointed u target m i (copy_request r body).
Proof. intros [H1 H2 H3 H4]. by constructor. Qed.

Lemma pointed_is_clean {B} u target m i (r : Request B) : pointed u target m i r -> clean u r.
Proof. intros H a Ha. by apply (pointed_clean _ _ _ _ _ H). Qed.

(** What a replay hands out. *)
Definition replay_ok u target m (r : Replay) : Prop :=
  rp_method r = m
  /\ (forall q, rp_first r = Some q -> rq_method q = m /\ clean u q /\ forall c, head (tg_candidates target) = Some c -> pointed u target m c q)
  /\ (forall q, rp_copy r = Some q -> rq_method q = m /\ clean u q /\ forall c, head (tg_candidates target) = Some c -> pointed u target m c q).

Lemma replay_next_ok u target m r req r' :
  replay_ok u target m r -> replay_next r = Some (req, r') ->
  replay_ok u target m r' /\ rq_method req = m /\ clean u req /\ forall c, head (tg_candidates target) = Some c -> pointed u target m c req.
Proof.
  intros (Hm & Hf & Hc). unfold replay_next. destruct (rp_first r) as [q|] eqn:Ef.
  - intros [= <- <-]. split; [|by apply Hf]. split; [done|]. split; [done|exact Hc].
  - destruct (rp_copy r) as [q|] eqn:Ec; [|done]. intros [= <- <-].
    split; [split; [done|]; split; [by rewrite Ef|by rewrite Ec]|].
    destruct (Hc q eq_refl) as (H1 & H2 & H3). split; [done|]. split; [exact H2|]. intros c Hcand. by apply pointed_copy, H3.
Qed.

Lemma retry_loop_pointed u target m envs n k s :
  replay_ok u target m (l_replay s) -> Forall (fun x => pointed u target m (s_index x) (s_request x)) (l_sent s) ->
  Forall (fun x => pointed u target m (s_index x) (s_request x)) (l_sent (retry_loop describe u target envs n k s)).
Proof.
  revert k s. induction n as [|n IH]; intros k s Hr Hs; [done|]. cbn [retry_loop].
  destruct (turn describe u target (envs k) s) as [s1 again] eqn:Et.
  apply turn_cases in Et as [(E1 & -> & _)|(x & sk & req & E1 & E2 & E3 & E4 & E5 & E6)]; [by rewrite E1|].
  destruct (replay_next_ok u target m _ _ _ Hr E5) as (Hr1 & Hm & Hclean & Hpt).
  assert (H1 : Forall (fun x => pointed u target m (s_index x) (s_request x)) (l_sent s1)).
  { rewrite E1. apply Forall_app. split; [done|]. constructor; [|constructor].
    destruct E6 as [[Eh ->]|Ea]; [by apply Hpt|]. rewrite <-Hm. by apply apply_pointed. }
  destruct again; [by apply IH|done].
Qed.

Lemma select_pointed {B} u (req req' : Request B) segs client secure draws now w w' sticky target :
  up_servers u <> [] ->
  select fnv_finish f64_ln f64_powf u req segs client secure draws now w = (Ok (req', sticky), w') ->
  rq_target req' = Some target ->
  tg_path_segments target = Rewrite_apply (up_rewrite u) segs /\ tg_query target = uri_query (rq_uri req)
  /\ rq_method req' = rq_method req /\ rq_body req' = rq_body req /\ clean u req'
  /\ forall c, head (tg_candidates target) = Some c -> pointed u target (rq_method req) c req'.
Proof.
  intros Hne. unfold select. destruct (up_servers u) as [|url0 urls] eqn:Es; [done|]. rewrite <-Es in *. clear Hne.
  destruct (match w_groups w !! up_group u with Some _ => _ | None => _ end) as [cs w1].
  destruct (match up_affinity u with Some _ => _ | None => _ end) as [[st cs'] req1] eqn:Ep.
  assert (H1 : rq_method req1 = rq_method req /\ rq_body req1 = rq_body req /\ rq_uri req1 = rq_uri req /\ clean u req1).
  { destruct (up_affinity u) as [a|] eqn:Ea; [|injection Ep as <- <- <-; split; [done|]; split; [done|]; split; [done|];
      intros a Ha; congruence].
    unfold pin in Ep. injection Ep as <- <- <-. cbn. split; [done|]. split; [done|]. split; [done|]. intros a' Ha. rewrite Ea in Ha.
    injection Ha as <-. cbn. apply cookie_gone. }
  destruct H1 as (Hm & Hb & Hu & Hc). set (tg := mkUpstreamTarget cs' _ _ st). destruct cs' as [|c cs'].
  - intros [= <- <- <-]. cbn. intros [= <-]. cbn. rewrite Hu, Hm. done.
  - destruct (apply u req1 c tg) as [req2|e] eqn:Ea; cbn [and_then]; [|done]. intros [= <- <- <-]. cbn. intros [= <-]. cbn.
    assert (Hp : pointed u tg (rq_method req1) c req2) by (by apply apply_pointed). rewrite Hu.
    split; [done|]. split; [done|]. rewrite (pointed_method _ _ _ _ _ Hp), Hm.
    assert (Hbody : rq_body req2 = rq_body req).
    { unfold apply in Ea. destruct (up_servers u !! c); [|done]. destruct (upstream_uri _ _ _) as [uri|]; [|done].
      cbn [and_then] in Ea. injection Ea as <-. rewrite <-Hb. destruct (uri_authority uri) as [h|]; [|done]. by destruct (value_from_str h). }
    split; [done|]. split; [done|]. rewrite Hm in Hp. split; [exact (pointed_clean _ _ _ _ _ Hp)|]. intros c' [= <-].
    destruct Hp as [P1 P2 P3 P4]. by constructor.
Qed.

Lemma prepare_ok u target m req limit replay :
  rq_method req = m -> clean u req -> (forall c, head (tg_candidates target) = Some c -> pointed u target m c req) ->
  prepare req limit = Ok replay -> replay_ok u target m replay.
Proof.
  intros Hm Hc Hp. unfold prepare.
  destruct (_ || _); [intros [= <-]; split; [done|]; split; [|done]; cbn; intros q [= <-]; done|].
  case_bool_decide; [intros [= <-]|destruct (collect_limited _ _) as [body|]; [intros [= <-]|done]];
    (split; [done|]; split; cbn; intros q [= <-]; split; try done; split; try done; intros c Hcand; by repeat apply pointed_copy; apply Hp).
Qed.

(** A request reaches the server whose permit it holds.  Every request that is sent for a client,
    the first and the retries, has the method of the client, the URI that the route builds for the
    server of its permit (its URL, the rewritten path and the query of the client) and the host of
    that URI, and never carries the sticky cookie of the route. *)
Theorem requests_reach_their_server u req req' segs client secure draws now w w' sticky target limit replay envs :
  up_servers u <> [] ->
  select fnv_finish f64_ln f64_powf u req segs client secure draws now w = (Ok (req', sticky), w') ->
  rq_target req' = Some target ->
  prepare req' limit = Ok replay ->
  tg_path_segments target = Rewrite_apply (up_rewrite u) segs /\ tg_query target = uri_query (rq_uri req)
  /\ Forall (fun x => pointed u target (rq_method req) (s_index x) (s_request x))
       (l_sent (send_with_retries describe u replay target envs w')).
Proof.
  intros Hne Hsel Ht Hprep.
  destruct (select_pointed _ _ _ _ _ _ _ _ _ _ _ _ Hne Hsel Ht) as (H1 & H2 & H3 & H4 & H5 & H6).
  split; [done|]. split; [done|]. apply retry_loop_pointed; [|constructor]. by eapply prepare_ok.
Qed.

(** The candidates of a sticky request.  The cookie of the client puts its server first when
    that server is healthy and its circuit is closed; the others keep the order of the policy, and
    no server is listed twice. *)
Theorem sticky_server_first {B} u a g (req req' : Request B) segs client secure draws now w w' sticky target i :
  up_servers u <> [] -> up_affinity u = Some a -> w_groups w !! up_group u = Some g ->
  let o := mkObservation (w_conns w) (w_metrics w) draws in
  enough_draws g o ->
  select fnv_finish f64_ln f64_powf u req segs client secure draws now w = (Ok (req', sticky), w') ->
  rq_target req' = Some target ->
  pinned a (rq_headers req) = Some i ->
  let '(cs, g') := candidates fnv_finish f64_ln f64_powf g o now client in
  tg_candidates target
  = (if is_pinnable g' now i then i :: List.filter (fun c => negb (Nat.eqb c i)) cs else cs)
  /\ NoDup (tg_candidates target).
Proof.
  intros Hne Ha Hg o Hd Hsel Ht Hpin.
  pose proof (candidates_perm fnv_finish f64_ln f64_powf g o now client Hd) as Hperm.
  unfold select in Hsel. destruct (up_servers u) as [|url0 urls] eqn:Es; [done|]. rewrite Hg in Hsel. fold o in Hsel.
  destruct (candidates fnv_finish f64_ln f64_powf g o now client) as [cs g'] eqn:Ec. cbn [fst] in Hperm.
  rewrite Ha in Hsel. unfold pin in Hsel. rewrite Hpin in Hsel. cbn [w_groups on_group] in Hsel.
  assert (Hg' : vec_update (fun _ : UpstreamGroup => g') (up_group u) (w_groups w) !! up_group u = Some g')
    by (unfold vec_update; by rewrite list_lookup_alter_eq, Hg).
  unfold on_group in Hsel. cbn [w_groups] in Hsel. rewrite Hg' in Hsel. cbn [is_some_and] in Hsel.
  assert (Hnd : NoDup cs).
  { rewrite Hperm. apply eligible_servers_nodup. }
  assert (Htg : tg_candidates target = if is_pinnable g' now i then i :: List.filter (fun c => negb (Nat.eqb c i)) cs else cs).
  { destruct (is_pinnable g' now i); cbn in Hsel.
    - destruct (apply _ _ _ _) as [req2|] in Hsel; cbn [and_then] in Hsel; [|done]. injection Hsel as <- _ _. cbn in Ht. by injection Ht as <-.
    - destruct cs as [|c cs']; [injection Hsel as <- _ _; cbn in Ht; by injection Ht as <-|].
      destruct (apply _ _ _ _) as [req2|] in Hsel; cbn [and_then] in Hsel; [|done]. injection Hsel as <- _ _. cbn in Ht. by injection Ht as <-. }
  split; [done|]. rewrite Htg. destruct (is_pinnable g' now i); [|done]. constructor; [|by apply NoDup_ListNoDup, List.NoDup_filter, NoDup_ListNoDup].
  rewrite list_elem_of_In, List.filter_In. intros [_ H]. by rewrite Nat.eqb_refl in H.
Qed.
End Targets.

(** ** Plain instances and an example *)

Definition plain_url_ops : UrlOps := {|
  Url := string * string;
  Uri := string;
  url_path := snd;
  set_path p u := (u.1, p);
  set_query q u := (u.1, match q with Some q => String.append u.2 (String "?" q) | None => u.2 end);
  url_as_str u := String.append u.1 u.2;
  uri_from_str s := Some s;
  uri_query s := option_map snd (split_once "?" s);
  uri_authority s := Some (hd "" (split_on "/" s));
  uri_is_http _ := true;
|}.

Definition plain_body_ops : BodyOps := {|
  Body := bytes;
  size_exact b := Some (blen b);
  collect_limited n b := if blen b <=? n then Ok b else Err (mkAnyError None [COther]);
  full_body b := b;
|}.

Module PoolExample.
#[local] Existing Instance plain_header_ops.
#[local] Existing Instance plain_bytes.
#[local] Existing Instance plain_url_ops.
#[local] Existing Instance plain_body_ops.
#[local] Existing Instance plain_regex.

(** Two servers; the first does not answer. *)
Definition w : World :=
  mkWorld [mkUpstreamGroup [mkGroupServer "a:80" 1 None []; mkGroupServer "b:80" 1 None []] First HealthCheck_default
             (replicate 2 ServerHealth_default) [0; 0] CircuitBreaker_default (replicate 2 Breaker_default) None
             [0; 1]%nat [0; 1]%nat None] [0; 0] (replicate 2 ServerLiveMetrics_default).
Definition u : Upstream :=
  mkUpstream 0 [("a:80", "/x/"); ("b:80", "/")] 0 (mkRetryPolicy 3 [Connect] 100)
    (Some (mkAffinity "id" ["t1"; "t2"] [("id=t1", "id=t1; Secure"); ("id=t2", "id=t2; Secure")])) (mkRewrite [] None []).
Definition req : Request bytes :=
  mkRequest (OtherMethod "POST") "example.com/y?q=1" HTTP_2 [("host", "example.com"); ("cookie", "id=t1; k=v")] None false [1; 2].
Definition env : AttemptEnv :=
  mkAttemptEnv (fun _ w => w) (fun _ => 0)
    (fun _ r => (false, if String.eqb (rq_uri r) "a:80/x/y?q=1" then Err (mkClientError true [CClient true]) else Ok (mkResponse 200 [] false)))
    (fun w => w) 0.
Definition selected := select (fun _ => 0) id (fun a _ => a) u req ["y"] (V4 0) true (replicate 2 (f64_of_Z 0)) 0 w.
Definition target : UpstreamTarget :=
  mkUpstreamTarget [0; 1]%nat ["y"] (Some "q=1") (Some (mkStickyTarget (Some 0%nat) true)).
Definition req1 : Request bytes :=
  mkRequest (OtherMethod "POST") "a:80/x/y?q=1" HTTP_2 [("cookie", "k=v"); ("host", "a:80")] (Some target) false [1; 2].
Definition replay : Replay := mkReplay (Some req1) (Some req1) (OtherMethod "POST").
Definition run := send_with_retries (fun _ => "error") u replay target (fun _ => env) w.

Example selects : selected.1 = Ok (req1, true).
Proof. vm_compute. reflexivity. Qed.

Example retried :
  map (fun x => (s_index x, rq_uri (s_request x))) (l_sent run) = [(0%nat, "a:80/x/y?q=1"); (1%nat, "b:80/y?q=1")]
  /\ is_ok (l_result run) = true /\ l_slot run = Some "id=t2; Secure" /\ w_conns (l_world run) = [0; 1].
Proof. vm_compute. done. Qed.

Lemma quiet : forall k : nat, env_ok eq env.
Proof. intros _. split; [intros i|]; intros w' l mine ts Hl; exists l, ts; done. Qed.
End PoolExample.

Lemma retries_bounded_and_safe_witness :
  (length (l_sent PoolExample.run) <= 3)%nat /\ NoDup (map s_index (l_sent PoolExample.run)).
Proof.
  destruct (retries_bounded_and_safe (fun _ => "error") PoolExample.u PoolExample.replay PoolExample.target
    (fun _ => PoolExample.env) PoolExample.w ltac:(apply (bool_decide_unpack _); vm_compute; exact I)) as (H1 & _ & H2 & _).
  split; [|exact H2]. change (Z.of_nat (length (l_sent PoolExample.run)) <= 3) in H1. lia.
Defined.

Lemma pool_refines_permits_witness :
  exists l, rtc world_step (PoolExample.w, []) (l_world PoolExample.run, l) /\ length l = 1%nat.
Proof.
  destruct (pool_refines_permits (fun _ => "error") eq PoolExample.u PoolExample.replay PoolExample.target
    (fun _ => PoolExample.env) PoolExample.w [] PoolExample.quiet) as ((l & ts' & <- & Hr & Hl) & _).
  exists l. split; [exact Hr|]. apply Permutation_length in Hl. rewrite Hl. reflexivity.
Defined.

Lemma requests_reach_their_server_witness :
  Forall (fun x => pointed PoolExample.u PoolExample.target (OtherMethod "POST") (s_index x) (s_request x)) (l_sent PoolExample.run).
Proof.
  apply (requests_reach_their_server (LAWS := plain_header_laws) (BLAWS := plain_bytes_laws) (BODY := plain_body_ops) (fun _ => 0) id (fun a _ => a) (fun _ => "error")
    PoolExample.u PoolExample.req PoolExample.req1 ["y"] (V4 0) true (replicate 2 (f64_of_Z 0)) 0 PoolExample.w PoolExample.w true
    PoolExample.target 100 PoolExample.replay (fun _ => PoolExample.env)); [discriminate|vm_compute; reflexivity|reflexivity..].
Defined.

Lemma sticky_server_first_witness :
  tg_candidates PoolExample.target = [0; 1]%nat /\ NoDup (tg_candidates PoolExample.target).
Proof.
  exact (sticky_server_first (HB := plain_bytes) (fun _ => 0) id (fun a _ => a) PoolExample.u
    (mkAffinity "id" ["t1"; "t2"] [("id=t1", "id=t1; Secure"); ("id=t2", "id=t2; Secure")])
    (hd (Balancer.example_group) (w_groups PoolExample.w)) PoolExample.req PoolExample.req1 ["y"] (V4 0) true (replicate 2 (f64_of_Z 0)) 0
    PoolExample.w PoolExample.w true PoolExample.target 0 ltac:(discriminate) eq_refl eq_refl ltac:(unfold enough_draws; cbn; lia)
    ltac:(vm_compute; reflexivity) eq_refl eq_refl).
Defined.
