(* ===== verification/RateShare.v ===== *)
(** * Rate limits and their shared counts

    [proxy/http/rate_share.rs]: each node of a cluster counts the requests of each client in fixed
    windows, publishes the largest counts and adds the counts of the other nodes to its own; and
    [proxy/http/rate_limit.rs]: the limiter of a route, which asks the [governor] crate first.
    Times are Unix milliseconds. *)

From S2P Require Import Prelude Basics Float64 FloatFacts Registry Policy.
From Stdlib Require Import SpecFloat.

Definition MAX_PUBLISHED_COUNTS : nat := 2048.
Definition SHARED_PERIOD_INTERVALS : Z := 10.
Definition MIN_INTERVAL : Duration := from_millis 100.
Definition MIN_FRESHNESS : Duration := from_secs 2.

(** ** Counts of a window *)

Record WindowCount : Type := mkWindowCount {
  window : Z;
  current : Z;
  previous : Z;
}.

#[export] Instance WindowCount_eq_dec : EqDecision WindowCount.
Proof. solve_decision. Defined.

Definition WindowCount_default : WindowCount := mkWindowCount 0 0 0.

(** [WindowCount::at]; [checked_sub] has no result for a later window. *)
Definition at_window (w : Z) (c : WindowCount) : WindowCount :=
  if w <? window c then mkWindowCount w (current c) (previous c)
  else if w - window c =? 0 then mkWindowCount w (current c) (previous c)
  else if w - window c =? 1 then mkWindowCount w 0 (current c)
  else mkWindowCount w 0 0.

(** The estimate of the requests in the last period; [elapsed] is the part of the window that
    passed. *)
Definition estimate (w : Z) (elapsed : f64) (c : WindowCount) : f64 :=
  let c := at_window w c in
  f64_add (f64_mul (f64_of_Z (previous c)) (f64_sub (f64_of_Z 1) elapsed)) (f64_of_Z (current c)).

Definition total (c : WindowCount) : Z := current c + previous c.

Definition count_add (c other : WindowCount) : WindowCount :=
  let other := at_window (window c) other in
  mkWindowCount (window c) (sat_add u32_max (current c) (current other)) (sat_add u32_max (previous c) (previous other)).

Record ClientCount : Type := mkClientCount {
  cc_ip : IpAddr;
  cc_count : WindowCount;
}.

Record LimiterCounts : Type := mkLimiterCounts {
  lc_key : string;
  lc_period_ms : Z;
  lc_counts : list ClientCount;
}.

Record NodeCounts : Type := mkNodeCounts {
  published_at : Z;
  limiters : list LimiterCounts;
}.

Record RemoteCounts : Type := mkRemoteCounts {
  remote_nodes : Z;
  remote_counts : list NodeCounts;
}.

(** ** The state of the exchange *)

Record RateShare : Type := mkRateShare {
  interval : Duration;
  nodes : Z;
  connected : bool;
}.

Definition RateShare_new (i : Duration) : RateShare := mkRateShare (Z.max i MIN_INTERVAL) 1 false.

Definition set_state (n : option Z) (c : bool) (s : RateShare) : RateShare :=
  mkRateShare (interval s) (match n with Some n => Z.max n 1 | None => nodes s end) c.

Definition oldest_fresh (now_ms : Z) (s : RateShare) : Z :=
  let freshness := Z.max (interval s * 3) MIN_FRESHNESS in
  sat_sub now_ms (freshness / 1000000).

(** [u32::div_ceil]. *)
Definition div_ceil (a b : Z) : Z := (a + b - 1) / b.

Definition quota (limit : Z) (period : Duration) (s : RateShare) : Z * bool :=
  if connected s && (interval s * SHARED_PERIOD_INTERVALS <=? period) then (limit, true)
  else
    let n := if nodes s <=? u32_max then nodes s else u32_max in
    (div_ceil limit (Z.max n 1), false).

(** ** The counts of one limiter *)

Record SharedWindow : Type := mkSharedWindow {
  sw_limit : Z;
  sw_period_ms : Z;
  local : gmap IpAddr WindowCount;
  remote : gmap IpAddr WindowCount;
}.

Definition SharedWindow_new (limit : Z) (period : Duration) : SharedWindow :=
  mkSharedWindow limit (Z.max (period / 1000000) 1) ∅ ∅.

(** The wait of a refused client: [Duration::mul_f64] of a period and a fraction. *)
Record Wait : Type := mkWait {
  wait_period : Duration;
  wait_fraction : f64;
}.

Definition period (s : SharedWindow) : Duration := from_millis (sw_period_ms s).

Definition position (now_ms : Z) (s : SharedWindow) : Z * f64 :=
  (now_ms / sw_period_ms s, f64_div (f64_of_Z (now_ms mod sw_period_ms s)) (f64_of_Z (sw_period_ms s))).

Definition check_at (share : RateShare) (ip : IpAddr) (w : Z) (elapsed : f64) (s : SharedWindow)
  : result unit Wait * SharedWindow :=
  let '(q, shared) := quota (sw_limit s) (period s) share in
  let others := if shared then map_or (remote s !! ip) (f64_of_Z 0) (estimate w elapsed) else f64_of_Z 0 in
  let c := at_window w (unwrap_or (local s !! ip) WindowCount_default) in
  let set c := mkSharedWindow (sw_limit s) (sw_period_ms s) (<[ip := c]> (local s)) (remote s) in
  if SFleb (f64_of_Z q) (f64_add (estimate w elapsed c) others)
  then (Err (mkWait (period s) (f64_sub (f64_of_Z 1) elapsed)), set c)
  else (Ok tt, set (mkWindowCount w (sat_add u32_max (current c) 1) (previous c))).

Definition shared_check (share : RateShare) (ip : IpAddr) (now_ms : Z) (s : SharedWindow) : result unit Wait * SharedWindow :=
  let '(w, elapsed) := position now_ms s in check_at share ip w elapsed s.

(** [SharedWindow::local_counts]: what is published, and the counts that stay. *)
Definition retained (w : Z) (m : gmap IpAddr WindowCount) : gmap IpAddr WindowCount :=
  filter (fun e => 0 < total e.2) (at_window w <$> m).

Definition local_counts (w : Z) (s : SharedWindow) : list ClientCount * SharedWindow :=
  let m := retained w (local s) in
  (map (fun e => mkClientCount e.1 e.2) (map_to_list m), mkSharedWindow (sw_limit s) (sw_period_ms s) m (remote s)).

(** ** The exchange *)

(** The counts of every limiter with the index of the limiter. *)
Definition all_counts (windows : list (string * SharedWindow)) (now_ms : Z) : list (nat * ClientCount) :=
  concat (imap (fun index kw => map (pair index) (local_counts (position now_ms kw.2).1 kw.2).1) windows).

Definition leb_total (a b : nat * ClientCount) : bool := total (cc_count b.2) <=? total (cc_count a.2).

Definition collect (windows : list (string * SharedWindow)) (now_ms : Z) : NodeCounts * list (string * SharedWindow) :=
  let all := take MAX_PUBLISHED_COUNTS (sort_by leb_total (all_counts windows now_ms)) in
  let of_limiter index kw :=
    mkLimiterCounts kw.1 (sw_period_ms kw.2) (map snd (List.filter (fun e => Nat.eqb e.1 index) all)) in
  (mkNodeCounts now_ms (List.filter (fun l => match lc_counts l with [] => false | _ => true end) (imap of_limiter windows)),
   map (fun kw => (kw.1, (local_counts (position now_ms kw.2).1 kw.2).2)) windows).

(** The counts of the other nodes for one limiter. *)
Definition counts_for (key : string) (period_ms : Z) (others : list NodeCounts) (oldest : Z) : list ClientCount :=
  flat_map lc_counts
    (List.filter (fun l => String.eqb (lc_key l) key && (lc_period_ms l =? period_ms))
       (flat_map limiters (List.filter (fun n => oldest <=? published_at n) others))).

Definition merge (w : Z) (m : gmap IpAddr WindowCount) (c : ClientCount) : gmap IpAddr WindowCount :=
  <[cc_ip c := count_add (unwrap_or (m !! cc_ip c) (mkWindowCount w 0 0)) (cc_count c)]> m.

Definition apply_one (others : list NodeCounts) (oldest now_ms : Z) (kw : string * SharedWindow) : string * SharedWindow :=
  let '(key, s) := kw in
  let w := (position now_ms s).1 in
  (key, mkSharedWindow (sw_limit s) (sw_period_ms s) (local s)
          (fold_left (merge w) (counts_for key (sw_period_ms s) others oldest) ∅)).

Definition apply_remote (windows : list (string * SharedWindow)) (others : list NodeCounts) (oldest now_ms : Z)
  : list (string * SharedWindow) :=
  map (apply_one others oldest now_ms) windows.

(** One turn of [share_counts]: what is published, and the state after the answer of the exchange,
    which arrives at [later_ms]. *)
Definition share_counts (windows : list (string * SharedWindow)) (share : RateShare) (now_ms later_ms : Z)
    (exchange : NodeCounts -> option RemoteCounts) : list (string * SharedWindow) * RateShare :=
  let '(published, windows) := collect windows now_ms in
  match exchange published with
  | Some r =>
      let share := set_state (Some (remote_nodes r)) true share in
      (apply_remote windows (remote_counts r) (oldest_fresh now_ms share) later_ms, share)
  | None => (windows, set_state None false share)
  end.

(** ** The limiter of a route *)

#[export] Instance RatePeriod_eq_dec : EqDecision RatePeriod. Proof. solve_decision. Defined.
#[export] Instance RateLimit_eq_dec : EqDecision RateLimit. Proof. solve_decision. Defined.

(** The keyed rate limiter of the [governor] crate: a quota of a replenish interval and a burst,
    and the check of a key, which returns the time to wait. *)
Class Governor : Type := {
  GQuota : Type;
  GLimiter : Type;
  with_period : Duration -> option GQuota;
  allow_burst : Z -> GQuota -> GQuota;
  keyed : GQuota -> GLimiter;
  check_key : IpAddr -> Instant -> GLimiter -> result unit Duration * GLimiter;
}.

Section Limiters.
Context `{GOV : Governor}.

Record ClientRateLimiter : Type := mkClientRateLimiter {
  rl_config : RateLimit;
  rl_limiter : GLimiter;
  rl_shared : option SharedWindow;
}.

(** [ClientRateLimiter::quota]; a burst of zero has no quota. *)
Definition limiter_quota (c : RateLimit) : option GQuota :=
  match replenish_interval c with
  | Some i => match with_period i with
              | Some q => if burst_size c =? 0 then None else Some (allow_burst (burst_size c) q)
              | None => None
              end
  | None => None
  end.

(** A refused client waits for the governor or for the shared window. *)
Inductive RateWait : Type :=
| WaitGovernor (d : Duration)
| WaitShared (w : Wait).

Definition limiter_check (share : RateShare) (ip : IpAddr) (now : Instant) (now_ms : Z) (l : ClientRateLimiter)
  : result unit RateWait * ClientRateLimiter :=
  let ip := canonical_client_ip ip in
  let '(r, g) := check_key ip now (rl_limiter l) in
  match r with
  | Err d => (Err (WaitGovernor d), mkClientRateLimiter (rl_config l) g (rl_shared l))
  | Ok _ =>
      match rl_shared l with
      | None => (Ok tt, mkClientRateLimiter (rl_config l) g None)
      | Some s =>
          let '(r, s) := shared_check share ip now_ms s in
          (match r with Ok _ => Ok tt | Err w => Err (WaitShared w) end, mkClientRateLimiter (rl_config l) g (Some s))
      end
  end.

(** The limiter that [LimiterRegistry::limiter] creates. *)
Definition new_limiter (c : RateLimit) (q : GQuota) (shared : bool) : ClientRateLimiter :=
  let limit := Z.max (burst_size c) (requests c) in
  mkClientRateLimiter c (keyed q) (if shared then Some (SharedWindow_new limit (RatePeriod_duration (per c))) else None).

Definition reuse_limiter (c : RateLimit) (shared : bool) (existing : ClientRateLimiter) : bool :=
  bool_decide (rl_config existing = c) && Bool.eqb (is_some (rl_shared existing)) shared.
End Limiters.

Definition LimiterKey : Type := ShortId * option nat.

(** [LimiterRegistry::limiter] on the registry of [Registry]: the address of the limiter, and the
    limiter when it is new. *)
Definition registry_limiter `{GOV : Governor} (upgrade : nat -> option ClientRateLimiter)
    (entries : gmap LimiterKey nat) (key : LimiterKey) (c : RateLimit) (shared : bool) (fresh : nat)
  : option ((nat * option ClientRateLimiter) * gmap LimiterKey nat) :=
  match limiter_quota c with
  | None => None
  | Some q => Some (get_or_create upgrade entries key (reuse_limiter c shared) (fun _ => new_limiter c q shared) fresh)
  end.

(** ** The estimate *)

Definition count_ok (c : WindowCount) : Prop := 0 <= current c <= u32_max /\ 0 <= previous c <= u32_max.

Lemma at_window_ok w c : count_ok c -> count_ok (at_window w c).
Proof. intros [H1 H2]. unfold at_window, count_ok, u32_max in *. repeat destruct (_ <? _); repeat destruct (_ =? _); cbn; lia. Qed.

Lemma at_window_window w c : window (at_window w c) = w.
Proof. unfold at_window. by repeat destruct (_ <? _); repeat destruct (_ =? _). Qed.

Lemma at_window_same w c : window c = w -> at_window w c = c.
Proof. intros <-. unfold at_window. rewrite Z.ltb_irrefl, Z.sub_diag. by destruct c. Qed.

Lemma at_window_twice w c : at_window w (at_window w c) = at_window w c.
Proof. apply at_window_same, at_window_window. Qed.

Lemma at_window_default w : at_window w WindowCount_default = mkWindowCount w 0 0.
Proof. unfold at_window. cbn. by repeat destruct (_ <? _); repeat destruct (_ =? _). Qed.

(** The part of a window that passed. *)
Definition fraction (elapsed : f64) : Prop :=
  exists a b, 0 <= a < b /\ b < 2 ^ 53 /\ elapsed = f64_div (f64_of_Z a) (f64_of_Z b).

Lemma position_fraction now_ms s : 0 < sw_period_ms s < 2 ^ 53 -> fraction (position now_ms s).2.
Proof.
  intros Hp. exists (now_ms mod sw_period_ms s), (sw_period_ms s). split; [apply Z.mod_pos_bound; lia|]. by split; [lia|].
Qed.

Lemma u32_small n : 0 <= n <= u32_max -> 0 <= n < 2 ^ 53.
Proof. unfold u32_max. lia. Qed.

(** The estimate is a number that is not below the count of the current window. *)
Lemma estimate_bounds w elapsed c :
  count_ok c -> fraction elapsed ->
  good (estimate w elapsed c) /\ SFleb (f64_of_Z (current (at_window w c))) (estimate w elapsed c) = true.
Proof.
  intros Hc (a & b & Hab & Hb & ->). destruct (at_window_ok w c Hc) as [H1 H2]. apply u32_small in H1, H2.
  destruct (one_minus_fraction a b Hab Hb) as [G1 G2]. destruct (of_Z_spec _ H1) as [C1 _]. destruct (of_Z_spec _ H2) as (P1 & _ & P3).
  unfold estimate. apply add_good; [|done]. by apply mul_good.
Qed.

Lemma add_comm_good x y : good x -> good y -> f64_add x y = f64_add y x.
Proof.
  destruct x as [[]|[]| |[] m1 e1], y as [[]|[]| |[] m2 e2]; cbn [good]; try done.
  intros _ _. unfold f64_add, SFadd, cond_Zopp. by rewrite (Z.min_comm e1), Z.add_comm.
Qed.

Lemma f64_zero_good : good (f64_of_Z 0).
Proof. exact I. Qed.

(** A request is only admitted below the quota, whatever the others count. *)
Lemma estimate_over q w elapsed c others :
  0 <= q -> count_ok c -> fraction elapsed -> good others -> q <= current (at_window w c) ->
  SFleb (f64_of_Z q) (f64_add (estimate w elapsed c) others) = true.
Proof.
  intros Hq Hc He Ho Hle. destruct (estimate_bounds w elapsed c Hc He) as [G L]. destruct (at_window_ok w c Hc) as [H1 _].
  apply u32_small in H1. destruct (add_good others (estimate w elapsed c) Ho G) as [G2 L2]. rewrite add_comm_good by done.
  destruct (of_Z_spec q ltac:(lia)) as [Q _]. destruct (of_Z_spec _ H1) as [C _].
  apply (leb_trans _ (f64_of_Z (current (at_window w c)))); [done..| |by apply (leb_trans _ (estimate w elapsed c))].
  rewrite of_Z_leb by lia. by apply Z.leb_le.
Qed.

Lemma div_ceil_bounds limit n : 0 <= limit -> 1 <= n -> limit <= n * div_ceil limit n < limit + n /\ 0 <= div_ceil limit n <= limit.
Proof.
  intros Hl Hn. unfold div_ceil. pose proof (Z.div_mod (limit + n - 1) n ltac:(lia)). pose proof (Z.mod_pos_bound (limit + n - 1) n ltac:(lia)).
  split; [lia|]. split; [apply Z.div_pos; lia|].
  apply Z.lt_succ_r, Z.div_lt_upper_bound; nia.
Qed.

Lemma quota_bounds limit p share : 0 <= limit -> 0 <= (quota limit p share).1 <= limit.
Proof.
  intros Hl. unfold quota. destruct (_ && _); cbn [fst]; [lia|]. apply div_ceil_bounds; [done|lia].
Qed.

Lemma others_good ip w elapsed s (shared : bool) :
  fraction elapsed -> map_Forall (fun _ c => count_ok c) (remote s) ->
  good (if shared then map_or (remote s !! ip) (f64_of_Z 0) (estimate w elapsed) else f64_of_Z 0).
Proof.
  intros He Hr. destruct shared; [|exact f64_zero_good]. destruct (remote s !! ip) as [c|] eqn:E; [|exact f64_zero_good].
  apply estimate_bounds; [by eapply Hr|done].
Qed.

(** What an admission says, and what it does to the count. *)
Lemma check_at_spec share ip w elapsed s r s' :
  fraction elapsed -> 0 <= sw_limit s -> map_Forall (fun _ c => count_ok c) (remote s) ->
  count_ok (unwrap_or (local s !! ip) WindowCount_default) ->
  check_at share ip w elapsed s = (r, s') ->
  let c := at_window w (unwrap_or (local s !! ip) WindowCount_default) in
  sw_limit s' = sw_limit s /\ sw_period_ms s' = sw_period_ms s /\ remote s' = remote s
  /\ if is_ok r then current c < sw_limit s /\ local s' = <[ip := mkWindowCount w (sat_add u32_max (current c) 1) (previous c)]> (local s)
     else local s' = <[ip := c]> (local s).
Proof.
  intros He Hl Hr Hc. unfold check_at. destruct (quota (sw_limit s) (period s) share) as [q shared] eqn:Eq.
  pose proof (quota_bounds (sw_limit s) (period s) share Hl) as Hq. rewrite Eq in Hq. cbn [fst] in Hq.
  pose proof (others_good ip w elapsed s shared He Hr) as Ho. set (c := at_window w _).
  destruct (SFleb _ _) eqn:E; intros [= <- <-]; cbn; [done|]. split; [done|]. split; [done|]. split; [done|]. split; [|done].
  destruct (Z.lt_ge_cases (current c) q); [lia|]. exfalso.
  assert (Htw : at_window w c = c) by apply at_window_twice.
  pose proof (estimate_over q w elapsed c _ ltac:(lia) (at_window_ok w _ Hc) He Ho) as Hover.
  rewrite Htw in Hover. specialize (Hover ltac:(done)). congruence.
Qed.

(** ** Requests of a client over time *)

Definition set_remote (m : gmap IpAddr WindowCount) (s : SharedWindow) : SharedWindow :=
  mkSharedWindow (sw_limit s) (sw_period_ms s) (local s) m.

(** What was done with the counts, each with the window of the time that it had read. *)
Inductive WindowOp : Type :=
| Checked (ip : IpAddr) (w : Z) (admitted : bool)
| Published (w : Z).

#[export] Instance WindowOp_eq_dec : EqDecision WindowOp. Proof. solve_decision. Defined.

(** The counts of one limiter, and what was done, the latest first. *)
Definition WindowRun : Type := SharedWindow * list WindowOp.

(** The operations on the counts, in the order in which they hold the lock of [local].  A check reads
    the clock, the state of the exchange and the counts [m] of the other nodes before it has that
    lock, and a publication reads the clock before it, so nothing relates their times to the times
    of the operations before. *)
Inductive window_step : WindowRun -> WindowRun -> Prop :=
| ws_check share ip now m s log r s' :
    map_Forall (fun _ c => count_ok c) m -> shared_check share ip now (set_remote m s) = (r, s') ->
    window_step (s, log) (set_remote (remote s) s', Checked ip (now / sw_period_ms s) (is_ok r) :: log)
| ws_publish now s log :
    window_step (s, log) ((local_counts (position now s).1 s).2, Published (now / sw_period_ms s) :: log)
| ws_remote m s log :
    map_Forall (fun _ c => count_ok c) m -> window_step (s, log) (set_remote m s, log).

Definition admitted (ip : IpAddr) (w : Z) (log : list WindowOp) : Z := count (fun op => bool_decide (op = Checked ip w true)) log.

(** The windows of the operations that touched the count of a client, the latest first, and how
    often one of them had the time of an earlier window than the one before it. *)
Definition windows_of (ip : IpAddr) (log : list WindowOp) : list Z :=
  omap (fun op => match op with Checked ip' w _ => if bool_decide (ip' = ip) then Some w else None | Published w => Some w end) log.

Fixpoint setbacks (ws : list Z) : Z :=
  match ws with
  | w :: ws => (match ws with w' :: _ => if w <? w' then 1 else 0 | [] => 0 end) + setbacks ws
  | [] => 0
  end.

Lemma setbacks_nonneg ws : 0 <= setbacks ws.
Proof. induction ws as [|w [|w' ws] IH]; cbn in *; [lia..|]. destruct (w <? w'); lia. Qed.

(** Operations whose times do not go back set nothing back. *)
Lemma setbacks_sorted ws : StronglySorted Z.ge ws -> setbacks ws = 0.
Proof.
  induction 1 as [|w ws Hs IH Hw]; [done|]. cbn. rewrite IH. destruct ws as [|w' ws]; [done|].
  apply Forall_cons in Hw as [Hw _]. destruct (Z.ltb_spec w w'); lia.
Qed.

Section Windows.
Context (limit p : Z) (Hlimit : 0 <= limit <= u32_max) (Hp : 0 < p < 2 ^ 53).

(** The count of a client that was admitted [a w] times in the window [w]: since the last setback
    nothing was admitted later than in the window of the count, and in that one no more than the
    count says. *)
Definition client_inv (ws : list Z) (a : Z -> Z) (o : option WindowCount) : Prop :=
  (forall w, a w <= limit * (1 + setbacks ws))
  /\ match o with
     | Some c => hd_error ws = Some (window c) /\ 0 <= current c <= limit /\ 0 <= previous c <= limit
                 /\ a (window c) <= limit * setbacks ws + current c /\ forall w', window c < w' -> a w' <= limit * setbacks ws
     | None => forall w', (forall w, hd_error ws = Some w -> w <= w') -> a w' <= limit * setbacks ws
     end.

Lemma client_inv_ext ws a a' o : (forall w, a w = a' w) -> client_inv ws a o -> client_inv ws a' o.
Proof. intros E. unfold client_inv. destruct o; by repeat setoid_rewrite <-E. Qed.

Lemma setbacks_cons w ws : setbacks ws <= setbacks (w :: ws) <= setbacks ws + 1.
Proof. cbn. destruct ws as [|w' ws]; [lia|]. destruct (w <? w'); lia. Qed.

Lemma setbacks_earlier w w' ws : hd_error ws = Some w' -> w < w' -> setbacks (w :: ws) = setbacks ws + 1.
Proof. intros Hh Hlt. destruct ws as [|x ws]; [done|]. injection Hh as ->. cbn [setbacks]. destruct (Z.ltb_spec w w'); [lia|lia]. Qed.

Lemma all_kept w ws a o : client_inv ws a o -> forall w', a w' <= limit * (1 + setbacks (w :: ws)).
Proof. intros [H _] w'. specialize (H w'). pose proof (setbacks_cons w ws). nia. Qed.

(** A count that moves to another window. *)
Lemma client_inv_at w ws a o :
  client_inv ws a o -> client_inv (w :: ws) a (Some (at_window w (unwrap_or o WindowCount_default))).
Proof.
  intros H. split; [by eapply all_kept|]. rewrite at_window_window. destruct H as [Hall H]. split; [done|].
  pose proof (setbacks_cons w ws) as Hs. pose proof (setbacks_nonneg ws).
  destruct o as [c|]; cbn [unwrap_or].
  - destruct H as (Hh & H2 & H3 & H4 & H5). unfold at_window. destruct (Z.ltb_spec w (window c)) as [Hlt|Hge].
    + rewrite (setbacks_earlier w _ ws Hh Hlt). cbn. split; [done|]. split; [done|].
      split; [specialize (Hall w); nia|]. intros w' _. specialize (Hall w'). nia.
    + assert (Hle : limit * setbacks ws <= limit * setbacks (w :: ws)) by nia.
      destruct (Z.eqb_spec (w - window c) 0) as [E|E]; [replace (window c) with w in * by lia; cbn [current previous]|].
      { split; [done|]. split; [done|]. split; [lia|]. intros w' Hw'. specialize (H5 w' Hw'). lia. }
      pose proof (H5 w ltac:(lia)). destruct (Z.eqb_spec (w - window c) 1); cbn [current previous];
        (split; [lia|]; split; [lia|]; split; [lia|]; intros w' Hw'; specialize (H5 w' ltac:(lia)); lia).
  - rewrite at_window_default. cbn [current previous]. split; [lia|]. split; [lia|].
    assert (Hlate : forall w', w <= w' -> a w' <= limit * setbacks (w :: ws)).
    { intros w' Hw'. destruct (hd_error ws) as [x|] eqn:Ex; [destruct (Z.le_gt_cases x w') as [Hx|Hx]|].
      - specialize (H w' ltac:(by intros ? [= <-])). nia.
      - rewrite (setbacks_earlier w x ws Ex) by lia. specialize (Hall w'). nia.
      - specialize (H w' ltac:(done)). nia. }
    split; [specialize (Hlate w); lia|]. intros w' Hw'. apply Hlate. lia.
Qed.

(** A publication of a client that has no count, and one that drops an empty count. *)
Lemma client_inv_none w ws a : client_inv ws a None -> client_inv (w :: ws) a None.
Proof.
  intros H. pose proof (client_inv_at w ws a None H) as [Hall (_ & _ & _ & H4 & H5)]. cbn [unwrap_or] in H4, H5.
  rewrite at_window_default in H4, H5. cbn [window current] in H4, H5. split; [done|]. intros w' Hw'. specialize (Hw' w eq_refl).
  destruct (Z.eq_dec w' w) as [->|]; [lia|apply H5; lia].
Qed.

Lemma client_inv_dropped ws a c : client_inv ws a (Some c) -> current c = 0 -> client_inv ws a None.
Proof.
  intros [Hall (Hh & _ & _ & H4 & H5)] E. split; [done|]. intros w' Hw'. specialize (Hw' _ Hh).
  destruct (Z.eq_dec w' (window c)) as [->|]; [lia|apply H5; lia].
Qed.

Lemma client_inv_admit ws a w c :
  client_inv ws a (Some c) -> window c = w -> current c < limit ->
  client_inv ws (fun w' => (if bool_decide (w' = w) then 1 else 0) + a w') (Some (mkWindowCount w (current c + 1) (previous c))).
Proof.
  intros [Hall (Hh & H2 & H3 & H4 & H5)] <- Hlt. split.
  - intros w'. case_bool_decide as E; [subst w'; lia|apply Hall].
  - cbn [window current previous]. split; [done|]. split; [lia|]. split; [lia|]. split; [rewrite bool_decide_true by done; lia|].
    intros w' Hw'. rewrite bool_decide_false by lia. by apply H5.
Qed.

Lemma client_inv_count_ok ws a o : client_inv ws a o -> count_ok (unwrap_or o WindowCount_default).
Proof. destruct o as [c|]; cbn [unwrap_or]; [intros (_ & _ & H2 & H3 & _); unfold count_ok; lia|intros _; unfold count_ok, u32_max; cbn; lia]. Qed.

Record run_inv (s : WindowRun) : Prop := {
  ri_limit : sw_limit s.1 = limit /\ sw_period_ms s.1 = p;
  ri_remote : map_Forall (fun _ c => count_ok c) (remote s.1);
  ri_client ip : client_inv (windows_of ip s.2) (fun w => admitted ip w s.2) (local s.1 !! ip);
}.

Lemma checked_windows ip ip' w ok log :
  windows_of ip (Checked ip' w ok :: log) = if bool_decide (ip' = ip) then w :: windows_of ip log else windows_of ip log.
Proof. unfold windows_of. cbn. by case_bool_decide. Qed.

Lemma checked_admitted ip ip' w w' ok log :
  admitted ip w' (Checked ip' w ok :: log) = (if bool_decide (ip' = ip) && ok && bool_decide (w' = w) then 1 else 0) + admitted ip w' log.
Proof.
  unfold admitted. cbn [count]. destruct ok; [|rewrite bool_decide_false by done; by rewrite andb_false_r].
  destruct (decide (ip' = ip)) as [->|Hi].
  - rewrite (bool_decide_true (ip = ip)) by done. cbn [andb]. f_equal. destruct (decide (w' = w)) as [->|Hw]; [by rewrite !bool_decide_true|].
    by rewrite !bool_decide_false by congruence.
  - by rewrite !bool_decide_false by congruence.
Qed.

Lemma run_inv_check share ip now m s log r s' :
  run_inv (s, log) -> map_Forall (fun _ c => count_ok c) m -> shared_check share ip now (set_remote m s) = (r, s') ->
  run_inv (set_remote (remote s) s', Checked ip (now / sw_period_ms s) (is_ok r) :: log).
Proof.
  intros [[Hl Hpp] Hr Hc] Hm Hck. cbn [fst snd] in *. unfold shared_check in Hck. destruct (position now (set_remote m s)) as [w elapsed] eqn:Epos.
  assert (Ew : now / sw_period_ms s = w) by (unfold position in Epos; injection Epos as <- _; done).
  assert (He : fraction elapsed) by (pose proof (position_fraction now (set_remote m s) ltac:(cbn; by rewrite Hpp)) as H; by rewrite Epos in H).
  pose proof (client_inv_at w _ _ _ (Hc ip)) as Hat. pose proof (client_inv_count_ok _ _ _ (Hc ip)) as Hok.
  destruct (check_at_spec share ip w elapsed (set_remote m s) r s' He ltac:(cbn; lia) Hm Hok Hck) as (S1 & S2 & S3 & S4).
  cbn [set_remote sw_limit sw_period_ms local remote] in S1, S2, S3, S4. set (c := at_window w _) in *.
  assert (Ewc : window c = w) by apply at_window_window.
  split; cbn [fst snd set_remote sw_limit sw_period_ms local remote]; [by rewrite S1, S2|done|]. intros ip'. rewrite Ew, checked_windows.
  destruct (decide (ip = ip')) as [<-|Hne].
  - rewrite bool_decide_true by done. destruct (is_ok r).
    + destruct S4 as [S4 ->]. rewrite lookup_insert_eq. assert (sat_add u32_max (current c) 1 = current c + 1) as -> by (unfold sat_add; lia).
      eapply client_inv_ext; [|exact (client_inv_admit _ _ w c Hat Ewc ltac:(lia))]. intros w'. rewrite checked_admitted.
      by rewrite (bool_decide_true (ip = ip)).
    + rewrite S4, lookup_insert_eq. eapply client_inv_ext; [|exact Hat]. intros w'. rewrite checked_admitted.
      by rewrite andb_false_r.
  - rewrite bool_decide_false by done. assert (local s' !! ip' = local s !! ip') as ->.
    { destruct (is_ok r); [destruct S4 as [_ ->]|rewrite S4]; by rewrite lookup_insert_ne. }
    eapply client_inv_ext; [|exact (Hc ip')]. intros w'. rewrite checked_admitted. by rewrite bool_decide_false.
Qed.

Lemma run_inv_publish now s log :
  run_inv (s, log) -> run_inv ((local_counts (position now s).1 s).2, Published (now / sw_period_ms s) :: log).
Proof.
  intros [Hl Hr Hc]. cbn [fst snd] in *. split; [done..|]. intros ip. cbn [fst snd local_counts position local].
  set (w := now / sw_period_ms s). unfold retained. rewrite map_lookup_filter, lookup_fmap.
  change (windows_of ip (Published w :: log)) with (w :: windows_of ip log).
  apply (client_inv_ext _ (fun w' => admitted ip w' log)); [intros w'; unfold admitted; cbn [count]; by rewrite bool_decide_false|].
  specialize (Hc ip). destruct (local s !! ip) as [c|]; [|by apply client_inv_none].
  pose proof (client_inv_at w _ _ _ Hc) as Hat. cbn [unwrap_or] in Hat. cbn. case_guard as Hg; [exact Hat|].
  eapply client_inv_dropped; [exact Hat|]. destruct Hat as [_ (_ & H2 & H3 & _)]. unfold total in Hg. cbn [snd] in Hg. lia.
Qed.

Lemma run_inv_step s s' : window_step s s' -> run_inv s -> run_inv s'.
Proof.
  intros Hs H. destruct Hs as [share ip now m s log r s' Hm Hck|now s log|m s log Hm].
  - by eapply run_inv_check.
  - by apply run_inv_publish.
  - destruct H as [Hl _ Hc]. by split.
Qed.

(** C10: What a node admits in one window.  Whatever the other nodes publish, how often the number of
    nodes or the connection to the store changes, and however the rounded estimates fall, the
    requests of a client that one node lets through within one window of the period are at most the
    limit, when the operations on its count get their turn in the order of their windows; and each
    operation that got its turn after one of a later window, since it read the clock before it had
    the lock or the clock went back, adds at most the limit once more. *)
Theorem shared_window_never_exceeds_limit s log ip w :
  rtc window_step (mkSharedWindow limit p ∅ ∅, []) (s, log) ->
  admitted ip w log <= limit * (1 + setbacks (windows_of ip log))
  /\ (StronglySorted Z.ge (windows_of ip log) -> admitted ip w log <= limit).
Proof.
  intros Hrun. assert (Hinv : run_inv (s, log)).
  { remember (s, log) as e eqn:Ee. clear s log Ee.
    assert (H0 : run_inv (mkSharedWindow limit p ∅ ∅, [])); [|revert H0; induction Hrun as [|x y z Hxy _ IH]; [done|]; intros H0; apply IH; by eapply run_inv_step].
    split; cbn [fst snd sw_limit sw_period_ms local remote]; [done|apply map_Forall_empty|]. intros ip'. rewrite lookup_empty. split; cbn; [lia|]. intros; lia. }
  pose proof (proj1 (ri_client _ Hinv ip) w) as H. cbn [snd] in H. split; [done|]. intros Hs. rewrite setbacks_sorted in H by done. lia.
Qed.
End Windows.

(** ** New clients *)

Lemma mul_zero x : good x -> x <> S754_infinity false -> f64_mul (f64_of_Z 0) x = f64_of_Z 0.
Proof. by destruct x as [[]|[]| |[] m e]. Qed.

Lemma add_zero x : good x -> f64_add (f64_of_Z 0) x = x /\ f64_add x (f64_of_Z 0) = x.
Proof. by destruct x as [[]|[]| |[] m e]. Qed.

(** Without older and remote requests the decision is exact.  A client with no requests in the
    previous window and none on the other nodes is admitted exactly while its requests in this
    window are below the quota of the node, with no error of rounding; nodes that divide a limit
    allow together at least the limit, and less than one request per node more. *)
Theorem new_client_gets_exact_quota share ip now_ms s r s' :
  0 <= sw_limit s <= u32_max -> 0 < sw_period_ms s < 2 ^ 53 ->
  shared_check share ip now_ms s = (r, s') ->
  let w := now_ms / sw_period_ms s in
  let c := at_window w (unwrap_or (local s !! ip) WindowCount_default) in
  let '(q, shared) := quota (sw_limit s) (period s) share in
  count_ok (unwrap_or (local s !! ip) WindowCount_default) -> previous c = 0 -> (shared = true -> remote s !! ip = None) ->
  is_ok r = (current c <? q)
  /\ local s' !! ip = Some (if is_ok r then mkWindowCount w (current c + 1) 0 else c)
  /\ (shared = true -> q = sw_limit s)
  /\ (shared = false -> let n := Z.max (Z.min (nodes share) u32_max) 1 in sw_limit s <= n * q < sw_limit s + n).
Proof.
  intros Hl Hp Hck w c. destruct (quota (sw_limit s) (period s) share) as [q shared] eqn:Eq. intros Hok Hprev Hremote.
  pose proof (quota_bounds (sw_limit s) (period s) share (proj1 Hl)) as Hq. rewrite Eq in Hq. cbn [fst] in Hq.
  assert (Hparts : (shared = true -> q = sw_limit s)
    /\ (shared = false -> let n := Z.max (Z.min (nodes share) u32_max) 1 in sw_limit s <= n * q < sw_limit s + n)).
  { unfold quota in Eq. destruct (_ && _); injection Eq as <- <-; (split; [done|]); [done|]. intros _ n.
    assert (En : n = Z.max (if nodes share <=? u32_max then nodes share else u32_max) 1).
    { unfold n. destruct (Z.leb_spec (nodes share) u32_max); lia. }
    rewrite En. apply div_ceil_bounds; lia. }
  pose proof (position_fraction now_ms s Hp) as He. unfold shared_check, check_at in Hck.
  change (position now_ms s).1 with w in *. destruct (position now_ms s) as [w' elapsed] eqn:Epos.
  assert (Ew : w' = w) by (unfold position in Epos; by injection Epos as <- _). subst w'. rewrite Eq in Hck. cbn [snd] in He.
  fold c in Hck. pose proof (at_window_ok w _ Hok) as [C1 C2]. fold c in C1, C2. apply u32_small in C1 as C1'.
  assert (Hothers : (if shared then map_or (remote s !! ip) (f64_of_Z 0) (estimate w elapsed) else f64_of_Z 0) = f64_of_Z 0).
  { destruct shared; [|done]. by rewrite (Hremote eq_refl). }
  rewrite Hothers in Hck. destruct (of_Z_spec _ C1') as [G _].
  assert (Hest : estimate w elapsed c = f64_of_Z (current c)).
  { unfold estimate. assert (at_window w c = c) as -> by apply at_window_twice. rewrite Hprev.
    destruct He as (a & b & Hab & Hb & ->). destruct (one_minus_fraction a b Hab Hb) as [G1 G2]. rewrite mul_zero by done.
    by apply add_zero. }
  rewrite Hest, (proj2 (add_zero _ G)), of_Z_leb in Hck by (unfold u32_max in *; lia).
  split; [|split; [|exact Hparts]].
  - destruct (Z.leb_spec q (current c)), (Z.ltb_spec (current c) q); try lia; by injection Hck as <- <-.
  - destruct (Z.leb_spec q (current c)) as [|Hlt]; injection Hck as <- <-; cbn; rewrite lookup_insert_eq; [done|].
    f_equal. f_equal; [|done]. unfold sat_add. lia.
Qed.

(** ** The counts of the other nodes *)

Definition of_client (ip : IpAddr) (cs : list ClientCount) : list WindowCount :=
  map cc_count (List.filter (fun c => bool_decide (cc_ip c = ip)) cs).

Lemma merge_lookup w cs m ip :
  fold_left (merge w) cs m !! ip
  = match of_client ip cs with
    | [] => m !! ip
    | l => Some (fold_left count_add l (unwrap_or (m !! ip) (mkWindowCount w 0 0)))
    end.
Proof.
  unfold of_client. revert m. induction cs as [|c cs IH]; intros m; [done|]. cbn [fold_left List.filter]. rewrite IH.
  case_bool_decide as E; cbn [map fold_left].
  - unfold merge. rewrite E, lookup_insert_eq. cbn [unwrap_or]. by destruct (map cc_count _).
  - unfold merge. by rewrite lookup_insert_ne by done.
Qed.

(** Adding counts adds up their shares of the window, up to the largest 32-bit number. *)
Lemma fold_count_add l c :
  count_ok c -> Forall count_ok l ->
  fold_left count_add l c
  = mkWindowCount (window c) (Z.min (current c + sumZ (fun d => current (at_window (window c) d)) l) u32_max)
      (Z.min (previous c + sumZ (fun d => previous (at_window (window c) d)) l) u32_max).
Proof.
  intros Hc Hl. revert c Hc. induction Hl as [|d l Hd Hl IH]; intros c [C1 C2]; cbn [fold_left sumZ].
  { destruct c as [w a b]. cbn in *. f_equal; lia. }
  destruct (at_window_ok (window c) d Hd) as [D1 D2].
  rewrite IH by (unfold count_ok, count_add, sat_add; cbn; lia). cbn [window count_add current previous]. unfold sat_add.
  assert (S1 : 0 <= sumZ (fun d => current (at_window (window c) d)) l).
  { apply sumZ_nonneg. intros x Hx. rewrite Forall_forall in Hl. apply (at_window_ok (window c) x (Hl x Hx)). }
  assert (S2 : 0 <= sumZ (fun d => previous (at_window (window c) d)) l).
  { apply sumZ_nonneg. intros x Hx. rewrite Forall_forall in Hl. apply (at_window_ok (window c) x (Hl x Hx)). }
  f_equal; lia.
Qed.

(** The remote counts are the sums of the other nodes.  After an exchange, the remote count of a
    client in a limiter is the sum of what the other nodes published for that limiter not too long
    ago, each moved to the current window, up to the largest 32-bit number; a client that no such
    node published has no remote count; and the counts of this node do not change. *)
Theorem remote_counts_are_sums others oldest now_ms key s s' ip :
  apply_one others oldest now_ms (key, s) = (key, s') ->
  Forall (fun n => Forall (fun l => Forall (fun c => count_ok (cc_count c)) (lc_counts l)) (limiters n)) others ->
  let w := now_ms / sw_period_ms s in
  let cs := of_client ip
      (flat_map (fun n => if oldest <=? published_at n
                          then flat_map (fun l => if String.eqb (lc_key l) key && (lc_period_ms l =? sw_period_ms s) then lc_counts l else [])
                                 (limiters n)
                          else []) others) in
  local s' = local s
  /\ remote s' !! ip
     = match cs with
       | [] => None
       | _ => Some (mkWindowCount w (Z.min (sumZ (fun c => current (at_window w c)) cs) u32_max)
                      (Z.min (sumZ (fun c => previous (at_window w c)) cs) u32_max))
       end.
Proof.
  intros Happ Hok w cs. unfold apply_one in Happ. injection Happ as <-. split; [done|]. cbn [remote].
  rewrite merge_lookup, lookup_empty. cbn [unwrap_or].
  assert (Ecs : of_client ip (counts_for key (sw_period_ms s) others oldest) = cs).
  { unfold cs, counts_for. f_equal. clear. induction others as [|n others IH]; [done|]. cbn [List.filter flat_map].
    destruct (_ <=? _); [|exact IH]. cbn [flat_map]. rewrite List.filter_app, flat_map_app. f_equal; [|exact IH].
    induction (limiters n) as [|l ls IHl]; [done|]. cbn [List.filter flat_map]. destruct (_ && _); [|exact IHl]. cbn [flat_map]. by f_equal. }
  rewrite Ecs. assert (Hcs : Forall count_ok cs).
  { unfold cs, of_client. apply Forall_forall. intros c Hc. apply list_elem_of_fmap in Hc as (x & -> & Hx).
    apply list_elem_of_In, List.filter_In in Hx as [Hx _]. apply in_flat_map in Hx as (n & Hn & Hx).
    destruct (_ <=? _); [|done]. apply in_flat_map in Hx as (l & Hl & Hx). destruct (_ && _); [|done].
    rewrite Forall_forall in Hok. specialize (Hok n ltac:(by apply list_elem_of_In)). rewrite Forall_forall in Hok.
    specialize (Hok l ltac:(by apply list_elem_of_In)). rewrite Forall_forall in Hok. apply Hok. by apply list_elem_of_In. }
  destruct cs as [|c l] eqn:El; [done|]. rewrite <-El in *. f_equal. rewrite fold_count_add; [done| |done].
  unfold count_ok, u32_max. cbn. lia.
Qed.

(** ** Examples *)

Module RateExample.
Definition ip : IpAddr := V4 3405803777.
Definition share : RateShare := set_state (Some 2) true (RateShare_new (from_secs 1)).
Definition s0 : SharedWindow := SharedWindow_new 3 (from_secs 60).
Definition s1 : SharedWindow := (shared_check share ip 330000 s0).2.
Definition other : NodeCounts := mkNodeCounts 1000 [mkLimiterCounts "web/-" 60000 [mkClientCount ip (mkWindowCount 5 2 0)]].
Definition s2 : SharedWindow := (apply_one [other] 1000 330000 ("web/-", s1)).2.

(** One request of the client here and two on the other node use up the quota of three. *)
Example shared_quota :
  is_ok (shared_check share ip 330000 s1).1 = true /\ is_ok (shared_check share ip 330000 s2).1 = false
  /\ is_ok (shared_check share (V4 1) 330000 s2).1 = true.
Proof. vm_compute. done. Qed.

(** A short period divides the quota between the nodes. *)
Example divided :
  quota 4 (from_secs 1) share = (2, false) /\ quota 4 (from_secs 60) share = (4, true) /\ quota 5 (from_secs 1) share = (3, false).
Proof. vm_compute. done. Qed.
End RateExample.

(** A check on its own, with no count of another node. *)
Lemma check_once share ip now s log r s' ok w :
  shared_check share ip now s = (r, s') -> remote s = ∅ -> is_ok r = ok -> now / sw_period_ms s = w ->
  window_step (s, log) (s', Checked ip w ok :: log).
Proof.
  intros Hck Hr <- <-. assert (E : set_remote ∅ s = s) by (destruct s; cbn in Hr; by subst).
  assert (E' : set_remote (remote s) s' = s').
  { revert Hck. unfold shared_check, check_at. destruct (position now s), (quota _ _ _). destruct (SFleb _ _); by intros [= <- <-]. }
  rewrite <-E' at 1. apply (ws_check share ip now ∅); [apply map_Forall_empty|by rewrite E].
Qed.

Lemma shared_window_never_exceeds_limit_witness :
  admitted RateExample.ip 5 [Checked RateExample.ip 5 true] = 1
  /\ (admitted RateExample.ip 5 [Checked RateExample.ip 5 true] <= 3 * (1 + setbacks (windows_of RateExample.ip [Checked RateExample.ip 5 true]))
      /\ (StronglySorted Z.ge (windows_of RateExample.ip [Checked RateExample.ip 5 true]) -> admitted RateExample.ip 5 [Checked RateExample.ip 5 true] <= 3)).
Proof.
  split; [vm_compute; reflexivity|].
  apply (shared_window_never_exceeds_limit 3 60000 ltac:(unfold u32_max; lia) ltac:(lia) RateExample.s1).
  apply rtc_once, (check_once RateExample.share _ 330000 _ _ (Ok tt)); vm_compute; reflexivity.
Defined.

(** A request that reads the clock just before the end of a window, and gets the lock after a request
    of the next one, moves the count back, so the limit starts anew. *)
Module LateReader.
Definition node : RateShare := set_state (Some 2) true (RateShare_new (from_millis 100)).
Definition s0 : SharedWindow := mkSharedWindow 1 1000 ∅ ∅.
Definition s1 : SharedWindow := (shared_check node RateExample.ip 5000 s0).2.
Definition s2 : SharedWindow := (shared_check node RateExample.ip 4999 s1).2.
Definition s3 : SharedWindow := (shared_check node RateExample.ip 5001 s2).2.
Definition log : list WindowOp := [Checked RateExample.ip 5 true; Checked RateExample.ip 4 false; Checked RateExample.ip 5 true].
End LateReader.

Lemma late_reader_exceeds_limit :
  rtc window_step (LateReader.s0, []) (LateReader.s3, LateReader.log)
  /\ quota 1 (period LateReader.s0) LateReader.node = (1, true) /\ admitted RateExample.ip 5 LateReader.log = 2.
Proof.
  split; [|split; vm_compute; reflexivity].
  etrans; [apply rtc_once, (check_once LateReader.node RateExample.ip 5000 _ _ (shared_check LateReader.node RateExample.ip 5000 LateReader.s0).1
    LateReader.s1 true 5); vm_compute; reflexivity|].
  etrans; [apply rtc_once, (check_once LateReader.node RateExample.ip 4999 _ _ (shared_check LateReader.node RateExample.ip 4999 LateReader.s1).1
    LateReader.s2 false 4); vm_compute; reflexivity|].
  apply rtc_once, (check_once LateReader.node RateExample.ip 5001 _ _ (shared_check LateReader.node RateExample.ip 5001 LateReader.s2).1
    LateReader.s3 true 5); vm_compute; reflexivity.
Qed.

Lemma new_client_gets_exact_quota_witness :
  exists r s', shared_check RateExample.share RateExample.ip 330000 RateExample.s1 = (r, s') /\ is_ok r = true.
Proof.
  destruct (shared_check RateExample.share RateExample.ip 330000 RateExample.s1) as [r s'] eqn:E. exists r, s'. split; [reflexivity|].
  assert (Hq : quota (sw_limit RateExample.s1) (period RateExample.s1) RateExample.share = (3, true)) by (vm_compute; reflexivity).
  pose proof (new_client_gets_exact_quota RateExample.share RateExample.ip 330000 RateExample.s1 r s'
    ltac:(vm_compute; split; discriminate) ltac:(vm_compute; split; reflexivity) E) as H. cbv zeta in H. rewrite Hq in H.
  destruct H as [H _]; [vm_compute; split; split; discriminate|vm_compute; reflexivity|vm_compute; reflexivity|].
  rewrite H. vm_compute. reflexivity.
Defined.

Lemma remote_counts_are_sums_witness :
  remote RateExample.s2 !! RateExample.ip = Some (mkWindowCount 5 2 0).
Proof.
  exact (proj2 (remote_counts_are_sums [RateExample.other] 1000 330000 "web/-" RateExample.s1 RateExample.s2 RateExample.ip eq_refl
    ltac:(repeat constructor; unfold u32_max; cbn; lia))).
Defined.
