(* ===== verification/Schedule.v ===== *)
(** * Scheduled commands and deployment windows

    [platform/scheduler.rs] with its store ([platform/store/commands.rs]) and the validators of
    [r3v3rs3-api/src/platform.rs]: which schedule texts are accepted, when a schedule is due, how
    the background loop reads the commands, checks and locks them one by one, and how an
    execution records its result.  Containers, the database's failures and the clock are inputs of
    the steps; calendar dates ([time] crate) are the class [Calendar].  Times are Unix
    milliseconds. *)

From Stdlib Require Import Ascii.
From S2P Require Import Prelude Basics IpText Net.

(** [str::parse] of an [i64]: a sign, then digits. *)
Definition parse_i64 (s : string) : option Z :=
  match s with
  | String "-" r =>
      if str_is_empty r then None
      else match parse_radix 10 0 r with
           | Some n => if i64_min <=? - n then Some (- n) else None
           | None => None
           end
  | _ => parse_uint i64_max s
  end.

Definition parse_u32 (s : string) : option Z := parse_uint u32_max s.

(** [str::strip_suffix] of a character. *)
Fixpoint strip_suffix (c : ascii) (s : string) : option string :=
  match s with
  | EmptyString => None
  | String a EmptyString => if Ascii.eqb a c then Some EmptyString else None
  | String a r => option_map (String a) (strip_suffix c r)
  end.

(** ** Dates *)

Record DateTime : Type := mkDateTime {
  dt_minute : Z;
  dt_hour : Z;
  dt_day : Z;
  dt_month : Z;
  dt_weekday : Z; (* [weekday().number_days_from_sunday()] *)
}.

(** [OffsetDateTime::from_unix_timestamp] of the [time] crate. *)
Class Calendar : Type := { from_unix_timestamp : Z -> option DateTime }.

(** The documented ranges of the accessors. *)
Class CalendarLaws (C : Calendar) : Prop := {
  calendar_ranges t d :
    from_unix_timestamp t = Some d ->
    0 <= dt_minute d < 60 /\ 0 <= dt_hour d < 24 /\ 1 <= dt_day d <= 31 /\ 1 <= dt_month d <= 12 /\ 0 <= dt_weekday d < 7;
}.

(** ** When a schedule is due *)

Definition daily_slot_ms (schedule : string) (now_ms : Z) : option Z :=
  match split_once ":" schedule with
  | None => None
  | Some (h, m) =>
      match parse_i64 h, parse_i64 m with
      | Some hour, Some minute =>
          if negb ((0 <=? hour) && (hour <? 24)) || negb ((0 <=? minute) && (minute <? 60)) then None
          else Some (now_ms / 86400000 * 86400000 + hour * 3600000 + minute * 60000)
      | _, _ => None
      end
  end.

Definition MIN_INTERVAL_MS : Z := 10000.

Definition interval_unit (clean : string) : option (string * Z) :=
  match strip_suffix "m" clean with
  | Some num => Some (num, 60000)
  | None =>
      match strip_suffix "h" clean with
      | Some num => Some (num, 3600000)
      | None =>
          match strip_suffix "s" clean with
          | Some num => Some (num, 1000)
          | None => option_map (fun num => (num, 86400000)) (strip_suffix "d" clean)
          end
      end
  end.

Definition parse_interval_ms (expr : string) : option Z :=
  let clean := trim (unwrap_or (strip_prefix "@every " (trim expr)) expr) in
  if String.eqb clean "@hourly" || String.eqb clean "hourly" then Some 3600000
  else if String.eqb clean "@daily" || String.eqb clean "daily" then Some 86400000
  else match interval_unit clean with
       | None => None
       | Some (num, multiplier) =>
           match parse_i64 num with
           | None => None
           | Some val =>
               let ms := val * multiplier in
               if (i64_min <=? ms) && (ms <=? i64_max) && (MIN_INTERVAL_MS <=? ms) then Some ms else None
           end
       end.

(** One part of a cron field; a range whose ends do not parse is read as a number. *)
Definition match_cron_part (part : string) (val : Z) : bool :=
  let single := match parse_u32 part with Some n => n =? val | None => false end in
  match split_once "-" part with
  | Some (a, b) =>
      match parse_u32 a, parse_u32 b with
      | Some s, Some e => (s <=? val) && (val <=? e)
      | _, _ => single
      end
  | None => single
  end.

Definition match_cron_field (expr : string) (val : Z) : bool :=
  let parts := existsb (fun part => match_cron_part part val) (split_on "," expr) in
  if String.eqb expr "*" then true
  else match strip_prefix "*/" expr with
       | Some step_str =>
           match parse_u32 step_str with
           | Some step => (0 <? step) && (val mod step =? 0)
           | None => parts
           end
       | None => parts
       end.

Definition match_cron_5 (schedule : string) (dt : DateTime) : bool :=
  match split_whitespace schedule with
  | [f0; f1; f2; f3; f4] =>
      match_cron_field f0 (dt_minute dt) && match_cron_field f1 (dt_hour dt) && match_cron_field f2 (dt_day dt)
      && match_cron_field f3 (dt_month dt) && match_cron_field f4 (dt_weekday dt)
  | _ => false
  end.

(** [i64::saturating_sub]. *)
Definition saturating_sub_i64 (a b : Z) : Z := Z.max i64_min (Z.min i64_max (a - b)).

Section Due.
Context `{CAL : Calendar}.

Definition is_schedule_due (sched : string) (last_run_at : option Z) (now_ms : Z) : bool :=
  let trimmed := trim sched in
  match daily_slot_ms trimmed now_ms with
  | Some slot => (slot <=? now_ms) && is_none_or (fun last => last <? slot) last_run_at
  | None =>
      match parse_interval_ms trimmed with
      | Some interval => is_none_or (fun last => interval <=? saturating_sub_i64 now_ms last) last_run_at
      | None =>
          match from_unix_timestamp (Z.quot now_ms 1000) with
          | None => false
          | Some dt =>
              match_cron_5 trimmed dt && is_none_or (fun last => last <? Z.quot now_ms 60000 * 60000) last_run_at
          end
      end
  end.

End Due.

(** ** Which schedules are accepted *)

Definition validate_daily_time (schedule : string) : bool :=
  match split_once ":" schedule with
  | None => false
  | Some (h, m) =>
      match parse_u32 h, parse_u32 m with
      | Some hour, Some min => (hour <? 24) && (min <? 60)
      | _, _ => false
      end
  end.

(** The first unit whose suffix and number fit decides. *)
Fixpoint validate_units (clean : string) (units : list (ascii * Z)) : bool :=
  match units with
  | [] => false
  | (unit, min_val) :: rest =>
      match strip_suffix unit clean with
      | Some num_str => match parse_uint u64_max num_str with Some num => min_val <=? num | None => validate_units clean rest end
      | None => validate_units clean rest
      end
  end.

Definition validate_interval (schedule : string) : bool :=
  let clean := trim (unwrap_or (strip_prefix "@every " schedule) schedule) in
  if existsb (String.eqb clean) ["@hourly"; "hourly"; "@daily"; "daily"] then true
  else validate_units clean [("s"%char, 10); ("m"%char, 1); ("h"%char, 1); ("d"%char, 1)].

Definition validate_cron_part (part : string) (min max : Z) : bool :=
  match split_once "-" part with
  | Some (a, b) =>
      match parse_u32 a, parse_u32 b with
      | Some s, Some e => (min <=? s) && (e <=? max) && (s <=? e)
      | _, _ => false
      end
  | None => match parse_u32 part with Some val => (min <=? val) && (val <=? max) | None => false end
  end.

Definition validate_cron_field (field : string) (min max : Z) : bool :=
  if String.eqb field "*" then true
  else match strip_prefix "*/" field with
       | Some step_str => match parse_u32 step_str with Some step => (0 <? step) && (step <=? max) | None => false end
       | None => forallb (fun part => validate_cron_part part min max) (split_on "," field)
       end.

Definition validate_cron_5 (schedule : string) : bool :=
  match split_whitespace schedule with
  | [f0; f1; f2; f3; f4] =>
      validate_cron_field f0 0 59 && validate_cron_field f1 0 23 && validate_cron_field f2 1 31
      && validate_cron_field f3 1 12 && validate_cron_field f4 0 7
  | _ => false
  end.

Definition validate_schedule_expression (sched : string) : result unit Error :=
  if str_is_empty sched then Err (InvalidScheduledCommand "schedule cannot be empty")
  else if validate_daily_time sched || validate_interval sched || validate_cron_5 sched then Ok tt
  else Err (InvalidScheduledCommand
              (String.append "invalid schedule expression '"
                 (String.append sched "': expected HH:MM, interval (e.g. 15m, 1h, 1d), or 5-field cron"))).

Record ScheduledCommandRequest : Type := mkScheduledCommandRequest {
  req_name : string;
  req_schedule : string;
  req_command : string;
  req_enabled : bool;
}.

Definition request_validate (r : ScheduledCommandRequest) : result unit Error :=
  let name := trim (req_name r) in
  let command := trim (req_command r) in
  if str_is_empty name then Err (InvalidScheduledCommand "name cannot be empty")
  else if 100 <? Z.of_nat (String.length name) then Err (InvalidScheduledCommand "name cannot exceed 100 characters")
  else if str_is_empty command then Err (InvalidScheduledCommand "command cannot be empty")
  else if 8192 <? Z.of_nat (String.length command) then
    Err (InvalidScheduledCommand "command cannot exceed 8192 characters")
  else validate_schedule_expression (trim (req_schedule r)).

(** ** Deployment windows *)

Definition invalid (reason : string) : Error := InvalidContainerSpec reason.

Definition validate_window_time (s : string) : result unit Error :=
  match split_once ":" s with
  | None => Err (invalid "deploy window time must be in format HH:MM")
  | Some (h_str, m_str) =>
      match parse_u32 h_str with
      | None => Err (invalid "invalid hour in deploy window")
      | Some h =>
          match parse_u32 m_str with
          | None => Err (invalid "invalid minute in deploy window")
          | Some m =>
              if (23 <? h) || (59 <? m) then Err (invalid "hour must be 0-23 and minute 0-59") else Ok tt
          end
      end
  end.

Definition validate_deploy_window (window : string) : result unit Error :=
  match split_once "-" window with
  | None => Err (invalid "deploy window must be in format HH:MM-HH:MM")
  | Some (start, stop) => let? _ := validate_window_time start in validate_window_time stop
  end.

(** [h * 60 + m] wraps around in a release build. *)
Definition parse_window_minutes (s : string) : option Z :=
  match split_once ":" s with
  | None => None
  | Some (h_str, m_str) =>
      match parse_u32 h_str, parse_u32 m_str with
      | Some h, Some m => Some ((h * 60 + m) mod 4294967296)
      | _, _ => None
      end
  end.

Definition is_within_deploy_window (window : string) (hour minute : Z) : bool :=
  match split_once "-" window with
  | None => true
  | Some (start_str, end_str) =>
      match parse_window_minutes start_str, parse_window_minutes end_str with
      | Some start, Some stop =>
          let cur := hour * 60 + minute in
          if start <=? stop then (start <=? cur) && (cur <? stop) else (start <=? cur) || (cur <? stop)
      | _, _ => true
      end
  end.

(** ** The output of a run *)

Definition MAX_OUTPUT_CHARS : nat := 4096.

(** [String::from_utf8_lossy]: the longest valid start of an ill-formed sequence becomes one
    U+FFFD. *)
Definition replacement : list Z := [239; 191; 189].

Fixpoint from_utf8_lossy (l : list Z) : list Z :=
  match l with
  | [] => []
  | a :: r =>
      if a <? 128 then a :: from_utf8_lossy r
      else if in_range 194 223 a then
        match r with
        | b :: r1 => if in_range 128 191 b then a :: b :: from_utf8_lossy r1 else replacement ++ from_utf8_lossy r
        | [] => replacement
        end
      else if in_range 224 239 a then
        match r with
        | b :: r1 =>
            if in_range (if a =? 224 then 160 else 128) (if a =? 237 then 159 else 191) b then
              match r1 with
              | c :: r2 =>
                  if in_range 128 191 c then a :: b :: c :: from_utf8_lossy r2 else replacement ++ from_utf8_lossy r1
              | [] => replacement
              end
            else replacement ++ from_utf8_lossy r
        | [] => replacement
        end
      else if in_range 240 244 a then
        match r with
        | b :: r1 =>
            if in_range (if a =? 240 then 144 else 128) (if a =? 244 then 143 else 191) b then
              match r1 with
              | c :: r2 =>
                  if in_range 128 191 c then
                    match r2 with
                    | d :: r3 =>
                        if in_range 128 191 d then a :: b :: c :: d :: from_utf8_lossy r3
                        else replacement ++ from_utf8_lossy r2
                    | [] => replacement
                    end
                  else replacement ++ from_utf8_lossy r1
              | [] => replacement
              end
            else replacement ++ from_utf8_lossy r
        | [] => replacement
        end
      else replacement ++ from_utf8_lossy r
  end.

(** [&text[..n]]: [None] is the panic inside a character. *)
Definition slice_to (n : nat) (text : list Z) : option (list Z) :=
  if Nat.ltb (length text) n then None
  else match nth_error text n with
       | Some b => if in_range 128 191 b then None else Some (firstn n text)
       | None => Some text
       end.

(** What [exec_capture] under the timeout answers. *)
Inductive ExecResult : Type :=
| Exited (bytes : list Z)
| ExecFailed (err_msg : string)
| Elapsed.

(** [None] is a panic. *)
Definition format_command_result (r : ExecResult) : option (bool * string * list Z) :=
  match r with
  | Exited bytes =>
      let text := from_utf8_lossy bytes in
      if Nat.ltb MAX_OUTPUT_CHARS (length text) then
        option_map (fun t => (true, "ok", t ++ as_bytes "... [truncated]")) (slice_to MAX_OUTPUT_CHARS text)
      else Some (true, "ok", text)
  | ExecFailed err_msg => Some (false, String.append "failed: " err_msg, as_bytes err_msg)
  | Elapsed => let err_msg := "command timed out after 300s" in Some (false, String.append "failed: " err_msg, as_bytes err_msg)
  end.

(** ** The store and the loop *)

Record AppScheduledCommand : Type := mkAppScheduledCommand {
  id : ShortId;
  app_id : ShortId;
  name : string;
  schedule : string;
  command : string;
  enabled : bool;
  last_run_at : option Z;
  last_status : option string;
  last_output : option (list Z);
  created_at : Z;
  updated_at : Z;
}.

(** The table of the commands, by their primary key. *)
Notation Store := (gmap ShortId AppScheduledCommand).

(** [ORDER BY created_at ASC]; rows of the same time come in the order of the table. *)
Definition list_all_enabled_scheduled_commands (st : Store) : list AppScheduledCommand :=
  sort_by (fun a b => created_at a <=? created_at b) (List.filter enabled (map snd (map_to_list st))).

Definition insert_scheduled_command (cmd : AppScheduledCommand) (st : Store) : Store := <[id cmd := cmd]> st.
Definition delete_scheduled_command (i : ShortId) (st : Store) : Store := delete i st.

(** The [UPDATE] statements write only the columns that they name. *)
Definition update_scheduled_command (cmd : AppScheduledCommand) (st : Store) : Store :=
  alter (fun old =>
           mkAppScheduledCommand (id old) (app_id old) (name cmd) (schedule cmd) (command cmd) (enabled cmd)
             (last_run_at old) (last_status old) (last_output old) (created_at old) (updated_at cmd)) (id cmd) st.

Definition record_scheduled_command_run (i : ShortId) (run_at : Z) (status : string) (output : list Z) (st : Store) : Store :=
  alter (fun old =>
           mkAppScheduledCommand (id old) (app_id old) (name old) (schedule old) (command old) (enabled old)
             (Some run_at) (Some status) (Some output) (created_at old) run_at) i st.

(** [add_scheduled_command] and [update_scheduled_command] of the platform; [i] is the identifier
    that [ShortId::new] draws. *)
Definition add_command (i app : ShortId) (req : ScheduledCommandRequest) (now : Z) : result AppScheduledCommand Error :=
  let? _ := request_validate req in
  Ok (mkAppScheduledCommand i app (trim (req_name req)) (trim (req_schedule req)) (trim (req_command req))
        (req_enabled req) None None None now now).

Definition edit_command (app : ShortId) (i : ShortId) (req : ScheduledCommandRequest) (now : Z) (st : Store)
  : result AppScheduledCommand Error :=
  let? _ := request_validate req in
  match st !! i with
  | None => Err (ScheduledCommandNotFound i)
  | Some cmd =>
      if negb (bool_decide (app_id cmd = app)) then Err (ScheduledCommandNotFound i)
      else Ok (mkAppScheduledCommand (id cmd) (app_id cmd) (trim (req_name req)) (trim (req_schedule req))
                 (trim (req_command req)) (req_enabled req) (last_run_at cmd) (last_status cmd) (last_output cmd)
                 (created_at cmd) now)
  end.

Definition lock_scheduled_command (i : ShortId) (running : gset ShortId) : option (gset ShortId) :=
  if bool_decide (i ∈ running) then None else Some ({[ i ]} ∪ running).
Definition unlock_scheduled_command (i : ShortId) (running : gset ShortId) : gset ShortId := running ∖ {[ i ]}.

(** ** The scheduler at run time

    The background loop sleeps, reads the enabled commands, reads the clock, then checks the
    commands one by one; executions run beside it, as do the requests of the administrator.  The
    state keeps the log of recorded runs and of started executions, which the code does not
    keep; [seen] notes what the check that started a scheduled run looked at. *)

Definition SCHEDULER_INTERVAL_MS : Z := 30000.

Record Seen : Type := mkSeen {
  seen_cmd : AppScheduledCommand; (* as the loop read it *)
  seen_now : Z;                   (* the time of the check *)
  seen_log : nat;                 (* the runs that were recorded when the loop read it *)
}.

Inductive Loop : Type :=
| Sleeping (since : Z)
| Listed (log_len : nat) (cmds : list AppScheduledCommand)
| Checking (log_len : nat) (now : Z) (cmds : list AppScheduledCommand).

Record Job : Type := mkJob {
  job_cmd : ShortId;
  job_seen : option Seen;   (* [None] for a run that an administrator asked for *)
  job_run_at : option Z;    (* the start of the execution in the container *)
}.

Record Run : Type := mkRun { run_cmd : ShortId; run_at : Z; run_seen : option Seen }.

Record Scheduler : Type := mkScheduler {
  clock : Z;
  store : Store;
  drawn : gset ShortId;      (* the identifiers drawn so far *)
  running : gset ShortId;
  loop : Loop;
  jobs : list Job;
  log : list Run;            (* recorded runs, oldest first *)
  started : list (ShortId * Z); (* executions in a container, newest first *)
}.

Definition initial (now : Z) : Scheduler := mkScheduler now ∅ ∅ ∅ (Sleeping now) [] [] [].

Section Machine.
Context `{CAL : Calendar}.

(** The body of the loop over the commands in [run_due_commands]. *)
Definition check_command (n : nat) (now : Z) (cmd : AppScheduledCommand) (s : Scheduler) : Scheduler :=
  if is_schedule_due (schedule cmd) (last_run_at cmd) now then
    match lock_scheduled_command (id cmd) (running s) with
    | None => s
    | Some r =>
        mkScheduler (clock s) (store s) (drawn s) r (loop s)
          (mkJob (id cmd) (Some (mkSeen cmd now n)) None :: jobs s) (log s) (started s)
    end
  else s.

Definition set_loop (l : Loop) (s : Scheduler) : Scheduler :=
  mkScheduler (clock s) (store s) (drawn s) (running s) l (jobs s) (log s) (started s).
Definition set_store (st : Store) (s : Scheduler) : Scheduler :=
  mkScheduler (clock s) st (drawn s) (running s) (loop s) (jobs s) (log s) (started s).

(** [execute_scheduled_command]: a run that an administrator asks for. *)
Definition manual_run (app i : ShortId) (s : Scheduler) : Scheduler :=
  match store s !! i with
  | None => s
  | Some cmd =>
      if negb (bool_decide (app_id cmd = app)) then s
      else match lock_scheduled_command i (running s) with
           | None => s
           | Some r =>
               mkScheduler (clock s) (store s) (drawn s) r (loop s) (mkJob i None None :: jobs s) (log s) (started s)
           end
  end.

(** The end of a job drops its lock. *)
Definition end_job (k : nat) (j : Job) (s : Scheduler) : Scheduler :=
  mkScheduler (clock s) (store s) (drawn s) (unlock_scheduled_command (job_cmd j) (running s)) (loop s)
    (take k (jobs s) ++ drop (S k) (jobs s)) (log s) (started s).

(** The first part of [execute_scheduled_command_impl]: an error when the command is gone or its
    app has no running container ([ready]), else the execution starts. *)
Definition begin_run (k : nat) (j : Job) (ready : bool) (s : Scheduler) : Scheduler :=
  match store s !! job_cmd j with
  | Some _ =>
      if ready then
        mkScheduler (clock s) (store s) (drawn s) (running s) (loop s)
          (<[k := mkJob (job_cmd j) (job_seen j) (Some (clock s))]> (jobs s)) (log s) ((job_cmd j, clock s) :: started s)
      else end_job k j s
  | None => end_job k j s
  end.

(** The rest of it: format the result, record it, drop the lock.  A panic unwinds the task, which
    drops the lock; so does an error of the database ([stored] false). *)
Definition finish_run (k : nat) (j : Job) (at_ms : Z) (r : ExecResult) (stored : bool) (s : Scheduler) : Scheduler :=
  match format_command_result r with
  | None => end_job k j s
  | Some (_, status, output) =>
      if stored then
        let s := end_job k j s in
        mkScheduler (clock s) (record_scheduled_command_run (job_cmd j) at_ms status output (store s)) (drawn s) (running s)
          (loop s) (jobs s) (log s ++ [mkRun (job_cmd j) at_ms (job_seen j)]) (started s)
      else end_job k j s
  end.

(** One step; between any two steps the clock may move on, never back.  An administrator who goes
    away cancels the job that the request runs ([ss_cancel]); [ShortId::new] draws an identifier
    that was not drawn before. *)
Inductive sched_step : Scheduler -> Scheduler -> Prop :=
| ss_clock now s : clock s <= now ->
    sched_step s (mkScheduler now (store s) (drawn s) (running s) (loop s) (jobs s) (log s) (started s))
| ss_list since s : loop s = Sleeping since -> since + SCHEDULER_INTERVAL_MS <= clock s ->
    sched_step s (set_loop (Listed (length (log s)) (list_all_enabled_scheduled_commands (store s))) s)
| ss_list_fails since s : loop s = Sleeping since -> since + SCHEDULER_INTERVAL_MS <= clock s ->
    sched_step s (set_loop (Sleeping (clock s)) s)
| ss_now n cmds s : loop s = Listed n cmds -> sched_step s (set_loop (Checking n (clock s) cmds) s)
| ss_check n now cmd cmds s : loop s = Checking n now (cmd :: cmds) ->
    sched_step s (set_loop (Checking n now cmds) (check_command n now cmd s))
| ss_done n now s : loop s = Checking n now [] -> sched_step s (set_loop (Sleeping (clock s)) s)
| ss_manual app i s : sched_step s (manual_run app i s)
| ss_begin k j ready s : jobs s !! k = Some j -> job_run_at j = None -> sched_step s (begin_run k j ready s)
| ss_finish k j at_ms r stored s : jobs s !! k = Some j -> job_run_at j = Some at_ms ->
    sched_step s (finish_run k j at_ms r stored s)
| ss_cancel k j s : jobs s !! k = Some j -> job_seen j = None -> sched_step s (end_job k j s)
| ss_add i app req cmd s : i ∉ drawn s -> add_command i app req (clock s) = Ok cmd ->
    sched_step s (mkScheduler (clock s) (insert_scheduled_command cmd (store s)) ({[ i ]} ∪ drawn s) (running s) (loop s)
                    (jobs s) (log s) (started s))
| ss_edit app i req cmd s : edit_command app i req (clock s) (store s) = Ok cmd ->
    sched_step s (set_store (update_scheduled_command cmd (store s)) s)
| ss_delete i s : sched_step s (set_store (delete_scheduled_command i (store s)) s).

Definition reachable (s : Scheduler) : Prop := exists now, rtc sched_step (initial now) s.

(** ** What a due schedule means for the run before it *)

(** At [now], a run at [r] lies before the current period of the schedule: before the slot of
    the day, a whole interval back, or before the matching minute. *)
Definition new_period (sched : string) (r now : Z) : Prop :=
  let trimmed := trim sched in
  match daily_slot_ms trimmed now with
  | Some slot => r < slot <= now
  | None =>
      match parse_interval_ms trimmed with
      | Some interval => r + interval <= now /\ MIN_INTERVAL_MS <= interval
      | None =>
          r < Z.quot now 60000 * 60000
          /\ exists dt, from_unix_timestamp (Z.quot now 1000) = Some dt /\ match_cron_5 trimmed dt = true
      end
  end.

Lemma interval_range expr i : parse_interval_ms expr = Some i -> MIN_INTERVAL_MS <= i <= i64_max.
Proof.
  unfold parse_interval_ms. set (clean := trim _).
  destruct (_ || _); [intros [= <-]; vm_compute; split; discriminate|].
  destruct (_ || _); [intros [= <-]; vm_compute; split; discriminate|].
  destruct (interval_unit clean) as [[num m]|]; [|discriminate]. destruct (parse_i64 num) as [v|]; [|discriminate].
  cbn zeta. destruct ((i64_min <=? v * m) && (v * m <=? i64_max) && (MIN_INTERVAL_MS <=? v * m)) eqn:E; [|discriminate].
  intros [= <-]. lia.
Qed.

Lemma due_new_period sched last now r :
  is_schedule_due sched (Some last) now = true -> r <= last -> new_period sched r now.
Proof.
  unfold is_schedule_due, new_period. cbn zeta.
  destruct (daily_slot_ms _ _) as [slot|]; [cbn; lia|].
  destruct (parse_interval_ms _) as [i|] eqn:E.
  - pose proof (interval_range _ _ E). cbn. unfold saturating_sub_i64, MIN_INTERVAL_MS, i64_min, i64_max in *. lia.
  - destruct (from_unix_timestamp _) as [dt|]; [|discriminate]. intros [Hm Hl]%andb_prop Hr. cbn in Hl.
    split; [lia|]. by exists dt.
Qed.

(** ** Invariant of the scheduler *)

(** The runs of [i] among the first [n] of the log are not later than the time [last]. *)
Definition covered (n : nat) (i : ShortId) (last : option Z) (lg : list Run) : Prop :=
  forall k e, (k < n)%nat -> lg !! k = Some e -> run_cmd e = i -> exists l, last = Some l /\ run_at e <= l.

Record seen_good (lg : list Run) (i : ShortId) (sn : Seen) : Prop := {
  sg_cmd : id (seen_cmd sn) = i;
  sg_due : is_schedule_due (schedule (seen_cmd sn)) (last_run_at (seen_cmd sn)) (seen_now sn) = true;
  sg_log : (seen_log sn <= length lg)%nat;
  sg_covered : covered (seen_log sn) i (last_run_at (seen_cmd sn)) lg;
}.

Record job_good (now : Z) (ids : gset ShortId) (lg : list Run) (j : Job) : Prop := {
  jg_cmd : job_cmd j ∈ ids;
  jg_run t : job_run_at j = Some t -> t <= now /\ covered (length lg) (job_cmd j) (Some t) lg;
  jg_seen sn : job_seen j = Some sn ->
    seen_good lg (job_cmd j) sn /\ seen_now sn <= now /\ forall t, job_run_at j = Some t -> seen_now sn <= t;
}.

Record run_good (now : Z) (ids : gset ShortId) (lg : list Run) (k : nat) (e : Run) : Prop := {
  rg_cmd : run_cmd e ∈ ids;
  rg_at : run_at e <= now;
  rg_order : covered k (run_cmd e) (Some (run_at e)) lg;
  rg_seen sn : run_seen e = Some sn -> seen_good lg (run_cmd e) sn /\ seen_now sn <= run_at e;
}.

Definition snapshot_good (n : nat) (cmds : list AppScheduledCommand) (ids : gset ShortId) (lg : list Run) : Prop :=
  (n <= length lg)%nat /\ Forall (fun c => id c ∈ ids /\ covered n (id c) (last_run_at c) lg) cmds.

Definition loop_good (now : Z) (ids : gset ShortId) (lg : list Run) (l : Loop) : Prop :=
  match l with
  | Sleeping _ => True
  | Listed n cmds => snapshot_good n cmds ids lg
  | Checking n t cmds => t <= now /\ snapshot_good n cmds ids lg
  end.

Definition locks_good (s : Scheduler) : Prop :=
  NoDup (map job_cmd (jobs s)) /\ running s = list_to_set (map job_cmd (jobs s)).

Record sched_inv (s : Scheduler) : Prop := {
  si_locks : locks_good s;
  si_store i c : store s !! i = Some c -> id c = i /\ i ∈ drawn s /\ covered (length (log s)) i (last_run_at c) (log s);
  si_jobs : Forall (job_good (clock s) (drawn s) (log s)) (jobs s);
  si_log k e : log s !! k = Some e -> run_good (clock s) (drawn s) (log s) k e;
  si_loop : loop_good (clock s) (drawn s) (log s) (loop s);
}.

Lemma covered_app n i last lg e : (n <= length lg)%nat -> covered n i last lg -> covered n i last (lg ++ [e]).
Proof. intros Hn H k x Hk. rewrite lookup_app_l by lia. by apply H. Qed.

Lemma covered_le n i t u lg : t <= u -> covered n i (Some t) lg -> covered n i (Some u) lg.
Proof. intros Htu H k e Hk He Hi. destruct (H k e Hk He Hi) as (l & [= <-] & ?). exists u. split; [done|lia]. Qed.

Lemma seen_good_app lg i sn e : seen_good lg i sn -> seen_good (lg ++ [e]) i sn.
Proof. intros []. split; [done| |rewrite length_app; lia|by apply covered_app]. done. Qed.

Lemma snapshot_good_app n cmds ids lg e : snapshot_good n cmds ids lg -> snapshot_good n cmds ids (lg ++ [e]).
Proof.
  intros [Hn H]. split; [rewrite length_app; lia|]. eapply Forall_impl; [exact H|].
  intros c [Hi Hc]. split; [done|]. by apply covered_app.
Qed.

Lemma loop_good_app now ids lg l e : loop_good now ids lg l -> loop_good now ids (lg ++ [e]) l.
Proof. destruct l; [done|apply snapshot_good_app|]. intros [? H]. split; [done|by apply snapshot_good_app]. Qed.

Lemma seen_good_covered lg i sn k e :
  seen_good lg i sn -> (k < seen_log sn)%nat -> lg !! k = Some e -> run_cmd e = i ->
  new_period (schedule (seen_cmd sn)) (run_at e) (seen_now sn).
Proof.
  intros [_ Hdue _ Hc] Hk He Hi. destruct (Hc k e Hk He Hi) as (l & Hl & ?). rewrite Hl in Hdue.
  by eapply due_new_period.
Qed.

(** Time passes, and identifiers are drawn. *)
Lemma job_good_mono now now' ids ids' lg j : now <= now' -> ids ⊆ ids' -> job_good now ids lg j -> job_good now' ids' lg j.
Proof.
  intros Hn Hi [Hc Hr Hs]. split; [set_solver|intros t [??]%Hr; split; [lia|done]|].
  intros sn (? & ? & ?)%Hs. split; [done|]. split; [lia|done].
Qed.

Lemma run_good_mono now now' ids ids' lg k e :
  now <= now' -> ids ⊆ ids' -> run_good now ids lg k e -> run_good now' ids' lg k e.
Proof. intros Hn Hi []. split; [set_solver|lia|done|done]. Qed.

Lemma loop_good_mono now now' ids ids' lg l :
  now <= now' -> ids ⊆ ids' -> loop_good now ids lg l -> loop_good now' ids' lg l.
Proof.
  intros Hn Hi. assert (forall n cmds, snapshot_good n cmds ids lg -> snapshot_good n cmds ids' lg) as Hs.
  { intros n cmds [? H]. split; [done|]. eapply Forall_impl; [exact H|]. intros c [??]. split; [set_solver|done]. }
  destruct l; [done|apply Hs|]. intros [? ?]. split; [lia|by apply Hs].
Qed.

(** A new lock, and the end of a job. *)
Lemma locks_add j r s :
  locks_good s -> lock_scheduled_command (job_cmd j) (running s) = Some r ->
  locks_good (mkScheduler (clock s) (store s) (drawn s) r (loop s) (j :: jobs s) (log s) (started s)).
Proof.
  intros [Hn Hr]. unfold lock_scheduled_command. case_bool_decide as Hin; [done|]. intros [= <-].
  split; [|by cbn; rewrite Hr]. cbn. constructor; [|done]. rewrite Hr in Hin. by rewrite elem_of_list_to_set in Hin.
Qed.

Lemma end_job_locks k j s : jobs s !! k = Some j -> locks_good s -> locks_good (end_job k j s).
Proof.
  intros Hj [Hn Hr]. rewrite <- (take_drop_middle _ _ _ Hj) in Hn, Hr. rewrite map_app in Hn, Hr. cbn in Hn, Hr.
  apply NoDup_app in Hn as (Hn1 & Hd & Hn2). apply NoDup_cons in Hn2 as [Hj2 Hn2].
  split; cbn; rewrite map_app.
  - apply NoDup_app. split; [done|]. split; [|done]. intros x H1 H2. apply (Hd x H1). by right.
  - rewrite Hr. unfold unlock_scheduled_command. rewrite !list_to_set_app_L. cbn.
    assert (job_cmd j ∉ map job_cmd (take k (jobs s))) as Hj1 by (intros H; apply (Hd _ H); by left).
    set_solver.
Qed.

Lemma end_job_jobs k j s P : Forall P (jobs s) -> Forall P (jobs (end_job k j s)).
Proof. intros H. cbn. apply Forall_app. split; [by apply Forall_take|by apply Forall_drop]. Qed.

Lemma end_job_inv k j s : jobs s !! k = Some j -> sched_inv s -> sched_inv (end_job k j s).
Proof. intros Hj []. split; [by apply end_job_locks|done|by apply end_job_jobs|done|done]. Qed.

(** ** Every step keeps the invariant *)

Lemma check_command_inv n now cmd s :
  sched_inv s -> id cmd ∈ drawn s -> (n <= length (log s))%nat -> covered n (id cmd) (last_run_at cmd) (log s) ->
  now <= clock s -> sched_inv (check_command n now cmd s).
Proof.
  intros Hinv Hid Hn Hc Hnow. unfold check_command.
  destruct (is_schedule_due _ _ _) eqn:Hdue; [|done].
  destruct (lock_scheduled_command _ _) as [r|] eqn:Hr; [|done]. destruct Hinv as [Hl Hs Hj Hg Ho].
  split; [by apply locks_add|done| |done|done].
  constructor; [|done]. split; [done|done|]. intros sn [= <-]. split; [by split|]. split; [done|done].
Qed.

Lemma manual_run_inv app i s : sched_inv s -> sched_inv (manual_run app i s).
Proof.
  intros Hinv. unfold manual_run. destruct (store s !! i) as [cmd|] eqn:Hi; [|done]. destruct (negb _); [done|].
  destruct (lock_scheduled_command _ _) as [r|] eqn:Hr; [|done].
  destruct (si_store _ Hinv _ _ Hi) as (_ & Hd & _). destruct Hinv as [Hl Hs Hj Hg Ho].
  split; [by apply locks_add|done| |done|done]. constructor; [|done]. by split.
Qed.

Lemma begin_run_inv k j ready s :
  jobs s !! k = Some j -> job_run_at j = None -> sched_inv s -> sched_inv (begin_run k j ready s).
Proof.
  intros Hj Hnone Hinv. unfold begin_run. pose proof (end_job_inv k j s Hj Hinv) as Hend.
  destruct (store s !! job_cmd j) as [c|]; [|done]. destruct ready; [|done].
  destruct Hinv as [Hl Hs Hjs Hg Ho]. pose proof (Forall_lookup_1 _ _ _ _ Hjs Hj) as [Hc Hr Hsn].
  assert (map job_cmd (<[k := mkJob (job_cmd j) (job_seen j) (Some (clock s))]> (jobs s)) = map job_cmd (jobs s)) as Hm.
  { etrans; [apply (list_fmap_insert job_cmd)|]. apply list_insert_id. cbn. by rewrite list_lookup_fmap, Hj. }
  split; [|done| |done|done].
  - unfold locks_good. cbn. by rewrite Hm.
  - apply Forall_insert; [done|]. split; [done| |].
    + intros t [= <-]. split; [done|]. intros x e _ He _. exists (clock s). split; [done|]. by apply (rg_at _ _ _ _ _ (Hg _ _ He)).
    + intros sn Hseen. destruct (Hsn _ Hseen) as (? & ? & _). split; [done|]. split; [done|]. by intros t [= <-].
Qed.

Lemma record_lookup i t st o m i' c :
  record_scheduled_command_run i t st o m !! i' = Some c ->
  (i' = i /\ exists old, m !! i = Some old /\ id c = id old /\ last_run_at c = Some t) \/ (i' <> i /\ m !! i' = Some c).
Proof. unfold record_scheduled_command_run. intros [(<- & old & ? & ->)|[? ?]]%lookup_alter_Some; [left; split; [done|]; by exists old|by right]. Qed.

Lemma update_lookup cmd m i' c :
  update_scheduled_command cmd m !! i' = Some c ->
  (i' = id cmd /\ exists old, m !! i' = Some old /\ id c = id old /\ last_run_at c = last_run_at old)
  \/ (i' <> id cmd /\ m !! i' = Some c).
Proof. unfold update_scheduled_command. intros [(<- & old & ? & ->)|[? ?]]%lookup_alter_Some; [left; split; [done|]; by exists old|by right]. Qed.

Lemma covered_snoc i last lg e :
  covered (length lg) i last lg -> (run_cmd e = i -> exists l, last = Some l /\ run_at e <= l) ->
  covered (length (lg ++ [e])) i last (lg ++ [e]).
Proof.
  intros H He k x _ Hx Hi. apply lookup_app_Some in Hx as [Hx|[Hk Hx]].
  - apply (H k x); [by eapply lookup_lt_Some|done|done].
  - apply list_lookup_singleton_Some in Hx as [_ <-]. by apply He.
Qed.

Lemma end_job_other k j s j' :
  jobs s !! k = Some j -> locks_good s -> j' ∈ jobs (end_job k j s) -> job_cmd j' <> job_cmd j.
Proof.
  intros Hj Hl Hin Heq. pose proof (end_job_locks k j s Hj Hl) as [_ Hr]. cbn in Hr, Hin.
  assert (job_cmd j' ∈ unlock_scheduled_command (job_cmd j) (running s)) as H.
  { rewrite Hr, elem_of_list_to_set. by apply list_elem_of_fmap_2. }
  unfold unlock_scheduled_command in H. set_solver.
Qed.

Lemma finish_run_inv k j t r stored s :
  jobs s !! k = Some j -> job_run_at j = Some t -> sched_inv s -> sched_inv (finish_run k j t r stored s).
Proof.
  intros Hj Ht Hinv. pose proof (end_job_inv k j s Hj Hinv) as Hend. unfold finish_run.
  destruct (format_command_result r) as [[[ok status] output]|]; [|done]. destruct stored; [|done].
  destruct (Forall_lookup_1 _ _ _ _ (si_jobs _ Hinv) Hj) as [Hc Hr Hsn]. destruct (Hr _ Ht) as [Htc Hcov].
  pose proof (end_job_other k j s) as Hother. destruct Hinv as [Hl _ _ _ _], Hend as [Hl' Hs Hjs Hg Ho]. cbn in *.
  set (e := mkRun (job_cmd j) t (job_seen j)).
  split; cbn.
  - exact Hl'.
  - intros i c [(-> & old & Hold & -> & ->)|[Hne Hi]]%record_lookup.
    + destruct (Hs _ _ Hold) as (? & ? & _). split; [done|]. split; [done|].
      apply covered_snoc; [done|]. intros _. by exists t.
    + destruct (Hs _ _ Hi) as (? & ? & ?). split; [done|]. split; [done|].
      apply covered_snoc; [done|]. intros He. by subst i.
  - apply Forall_forall. intros j' Hj'. destruct (proj1 (Forall_forall _ _) Hjs _ Hj') as [Hc' Hr' Hsn'].
    split; [done| |].
    + intros u Hu. destruct (Hr' _ Hu). split; [done|]. apply covered_snoc; [done|]. intros He.
      exfalso. by apply (Hother j').
    + intros sn Hseen. destruct (Hsn' _ Hseen) as (? & ?). split; [by apply seen_good_app|done].
  - intros k' x Hx. apply lookup_app_Some in Hx as [Hx|[Hk Hx]].
    + pose proof (lookup_lt_Some _ _ _ Hx). destruct (Hg _ _ Hx) as [? ? ? Hs'].
      split; [done|done|apply covered_app; [lia|done]|]. intros sn [? ?]%Hs'. split; [by apply seen_good_app|done].
    + apply list_lookup_singleton_Some in Hx as [Hz <-]. assert (k' = length (log s)) as -> by lia.
      split; [done|done|by apply covered_app|]. intros sn Hseen. destruct (Hsn _ Hseen) as (? & _ & Hle).
      split; [by apply seen_good_app|]. by apply Hle.
  - by apply loop_good_app.
Qed.

Lemma listed_stored c st : c ∈ list_all_enabled_scheduled_commands st -> exists i, st !! i = Some c.
Proof.
  unfold list_all_enabled_scheduled_commands. rewrite sort_by_elem_of, list_elem_of_In, filter_In, <- list_elem_of_In.
  intros [Hc _]. apply list_elem_of_fmap in Hc as ([i x] & -> & Hx). apply elem_of_map_to_list in Hx. by exists i.
Qed.

Lemma sched_step_inv s s' : sched_step s s' -> sched_inv s -> sched_inv s'.
Proof.
  intros Hstep Hinv. pose proof Hinv as [Hl Hs Hj Hg Ho].
  destruct Hstep as [now s Hn|since s H _|since s _ _|n cmds s H|n now cmd cmds s H|n now s _|app i s|k j ready s Hk Ht
                    |k j t r stored s Hk Ht|k j s Hk _|i app req cmd s Hi Ha|app i req cmd s He|i s].
  - split; [done|done| | |].
    + eapply Forall_impl; [exact Hj|]. intros j. by apply job_good_mono.
    + intros k e Hk. eapply run_good_mono; [exact Hn|done|by apply Hg].
    + by eapply loop_good_mono.
  - split; [done|done|done|done|]. split; [done|]. apply Forall_forall. intros c [i Hi]%listed_stored.
    destruct (Hs _ _ Hi) as (-> & ? & ?). done.
  - by split.
  - split; [done|done|done|done|]. rewrite H in Ho. split; [cbn; lia|done].
  - rewrite H in Ho. destruct Ho as (Hnow & Hn & Ho). apply Forall_cons in Ho as [[Hid Hc] Ho].
    assert (forall s', drawn s' = drawn s -> clock s' = clock s -> log s' = log s -> sched_inv s' -> sched_inv (set_loop (Checking n now cmds) s')) as Hset.
    { intros s' H1 H2 H3 []. split; [done|done|done|done|]. cbn. rewrite H1, H2, H3. done. }
    assert (sched_inv (check_command n now cmd s)) as Hnew by (by apply check_command_inv).
    apply Hset; [| | |done]; unfold check_command; (destruct (is_schedule_due _ _ _); [destruct (lock_scheduled_command _ _)|]); done.
  - by split.
  - by apply manual_run_inv.
  - by apply begin_run_inv.
  - by apply finish_run_inv.
  - by apply end_job_inv.
  - unfold add_command, and_then in Ha. destruct (request_validate req); [|done]. injection Ha as <-.
    split; [done| | | |]; cbn.
    + intros i' c. unfold insert_scheduled_command. cbn. destruct (decide (i' = i)) as [->|Hne].
      * rewrite lookup_insert_eq. intros [= <-]. split; [done|]. split; [set_solver|].
        intros k e _ He <-. destruct (Hg _ _ He). done.
      * rewrite lookup_insert_ne by done. intros (? & ? & ?)%Hs. split; [done|]. split; [set_solver|done].
    + eapply Forall_impl; [exact Hj|]. intros j. by apply job_good_mono; [|set_solver].
    + intros k e Hk. eapply run_good_mono; [reflexivity| |by apply Hg]. set_solver.
    + eapply loop_good_mono; [reflexivity| |exact Ho]. set_solver.
  - split; [done| |done|done|done]. intros i' c [(-> & old & Hold & -> & ->)|[Hne Hi]]%update_lookup; by apply Hs.
  - split; [done| |done|done|done]. cbn. unfold delete_scheduled_command. intros i' c (_ & Hc)%lookup_delete_Some. by apply Hs.
Qed.

Lemma reachable_inv s : reachable s -> sched_inv s.
Proof.
  intros [now H]. assert (sched_inv (initial now)) as H0.
  { split; [split; [constructor|done]|done|constructor|done|done]. }
  revert H0. induction H as [|s1 s2 s3 H12 _ IH]; [done|]. intros. apply IH. by eapply sched_step_inv.
Qed.

(** C9: At most one execution of each command is under way at any time, and the lock set is exactly
    the commands under way.  Of two recorded runs of a command the later one started later, and when
    the loop had read the command after the earlier run was recorded, that run lies before the
    current period of the schedule: before the slot of the day, a whole interval (of at least ten
    seconds) back, or before the matching minute. *)
Theorem scheduled_runs_separated s :
  reachable s ->
  locks_good s
  /\ (forall k1 k2 e1 e2,
         (k1 < k2)%nat -> log s !! k1 = Some e1 -> log s !! k2 = Some e2 -> run_cmd e1 = run_cmd e2 ->
         run_at e1 <= run_at e2
         /\ (forall sn, run_seen e2 = Some sn -> (k1 < seen_log sn)%nat ->
               new_period (schedule (seen_cmd sn)) (run_at e1) (seen_now sn) /\ seen_now sn <= run_at e2)).
Proof.
  intros [Hl _ _ Hg _]%reachable_inv. split; [done|]. intros k1 k2 e1 e2 Hk H1 H2 Heq.
  destruct (Hg _ _ H2) as [_ _ Ho Hs]. split.
  - by destruct (Ho k1 e1 Hk H1 Heq) as (l & [= <-] & ?).
  - intros sn [Hsn ?]%Hs Hlt. split; [|done]. by eapply seen_good_covered.
Qed.

(** ** Scripts of steps *)

(** A step, named with its inputs, as a function; used to run the scheduler on concrete inputs. *)
Inductive Event : Type :=
| EClock (now : Z)
| ETick
| ECheck
| EBegin (k : nat) (ready : bool)
| EFinish (k : nat) (r : ExecResult) (stored : bool)
| EAdd (i app : ShortId) (req : ScheduledCommandRequest).

Definition exec_event (s : Scheduler) (e : Event) : option Scheduler :=
  match e with
  | EClock now =>
      if clock s <=? now then Some (mkScheduler now (store s) (drawn s) (running s) (loop s) (jobs s) (log s) (started s)) else None
  | ETick =>
      match loop s with
      | Sleeping since =>
          if since + SCHEDULER_INTERVAL_MS <=? clock s then
            Some (set_loop (Listed (length (log s)) (list_all_enabled_scheduled_commands (store s))) s)
          else None
      | Listed n cmds => Some (set_loop (Checking n (clock s) cmds) s)
      | Checking n now [] => Some (set_loop (Sleeping (clock s)) s)
      | Checking _ _ (_ :: _) => None
      end
  | ECheck =>
      match loop s with
      | Checking n now (cmd :: cmds) => Some (set_loop (Checking n now cmds) (check_command n now cmd s))
      | _ => None
      end
  | EBegin k ready =>
      match jobs s !! k with
      | Some j => if is_none (job_run_at j) then Some (begin_run k j ready s) else None
      | None => None
      end
  | EFinish k r stored =>
      match jobs s !! k with
      | Some j => option_map (fun t => finish_run k j t r stored s) (job_run_at j)
      | None => None
      end
  | EAdd i app req =>
      if bool_decide (i ∈ drawn s) then None
      else match add_command i app req (clock s) with
           | Ok cmd =>
               Some (mkScheduler (clock s) (insert_scheduled_command cmd (store s)) ({[ i ]} ∪ drawn s) (running s)
                       (loop s) (jobs s) (log s) (started s))
           | Err _ => None
           end
  end.

Fixpoint exec_events (s : Scheduler) (l : list Event) : option Scheduler :=
  match l with
  | [] => Some s
  | e :: l => match exec_event s e with Some s' => exec_events s' l | None => None end
  end.

Lemma exec_event_step s e s' : exec_event s e = Some s' -> sched_step s s'.
Proof.
  destruct e; cbn [exec_event].
  - destruct (_ <=? _) eqn:E; [|done]. intros [= <-]. apply ss_clock. lia.
  - destruct (loop s) as [since|n cmds|n now [|c cmds]] eqn:E; [|intros [= <-]; by apply ss_now|intros [= <-]; by eapply ss_done|done].
    destruct (_ <=? _) eqn:H; [|done]. intros [= <-]. apply (ss_list since); [done|lia].
  - destruct (loop s) as [|?|n now [|c cmds]] eqn:E; [done|done|done|]. intros [= <-]. by apply ss_check.
  - destruct (jobs s !! k) as [j|] eqn:E; [|done]. destruct (job_run_at j) eqn:H; [done|]. intros [= <-]. by apply ss_begin.
  - destruct (jobs s !! k) as [j|] eqn:E; [|done]. destruct (job_run_at j) eqn:H; [|done]. intros [= <-]. by apply ss_finish.
  - case_bool_decide; [done|]. destruct (add_command _ _ _ _) eqn:E; [|done]. intros [= <-]. by apply (ss_add _ app req).
Qed.

Lemma exec_events_steps l s s' : exec_events s l = Some s' -> rtc sched_step s s'.
Proof.
  revert s. induction l as [|e l IH]; intros s; cbn; [by intros [= <-]|].
  destruct (exec_event s e) as [s1|] eqn:E; [|done]. intros H. eapply rtc_l; [by eapply exec_event_step|by apply IH].
Qed.

Definition nightly_id : ShortId := [0; 1; 2; 3; 4; 5; 6; 7].
Definition nightly (sched : string) : ScheduledCommandRequest := mkScheduledCommandRequest "backup" sched "./backup.sh" true.

(** The run of 04:30:30 ends while the loop is between reading the commands and checking them. *)
Definition stale_script : list Event :=
  [EAdd nightly_id [9] (nightly "04:30"); EClock 16230000; ETick; ETick; ECheck; ETick; EBegin 0 true;
   EClock 16260000; ETick; EFinish 0 (Exited []) true; ETick; ECheck; EBegin 0 true; EFinish 0 (Exited []) true].

(** The loop decides with the [last_run_at] that it read before it took the lock: when a run ends
    between the two, the command runs again.  A reachable state has two recorded runs of a command
    that is scheduled once a day, in the same slot of the same day. *)
Theorem stale_tick_runs_twice :
  exists s e1 e2 sn slot,
    reachable s /\ log s = [e1; e2] /\ run_cmd e1 = run_cmd e2 /\ run_seen e2 = Some sn
    /\ schedule (seen_cmd sn) = "04:30"
    /\ daily_slot_ms "04:30" (run_at e1) = Some slot /\ daily_slot_ms "04:30" (run_at e2) = Some slot
    /\ slot <= run_at e1 < run_at e2.
Proof.
  destruct (exec_events (initial 0) stale_script) as [s|] eqn:E; [|vm_compute in E; discriminate].
  assert (log s = match exec_events (initial 0) stale_script with Some x => log x | None => [] end) as Hlog by (by rewrite E).
  vm_compute in Hlog. eexists s, _, _, _, 16200000.
  split; [exists 0; by eapply exec_events_steps|]. split; [exact Hlog|].
  split; [reflexivity|]. split; [reflexivity|]. split; [reflexivity|]. split; [reflexivity|]. split; [reflexivity|].
  cbn. lia.
Qed.

(** ** Output that cannot be cut *)

(** 4097 bytes of text whose last character of two bytes crosses the limit. *)
Definition long_output : list Z := repeat 97 4095 ++ [195; 169].

Definition hourly : AppScheduledCommand :=
  mkAppScheduledCommand nightly_id [9] "backup" "1h" "./backup.sh" true None None None 0 0.

(** The scheduler after [n] executions whose output was lost. *)
Definition lost (n : nat) : Scheduler :=
  mkScheduler (30000 * Z.of_nat n) {[ nightly_id := hourly ]} {[ nightly_id ]} ∅ (Sleeping (30000 * Z.of_nat n)) [] []
    (rev (map (fun k => (nightly_id, 30000 * Z.of_nat k)) (seq 1 n))).

Lemma hourly_due now : is_schedule_due "1h" None now = true.
Proof. reflexivity. Qed.

Lemma hourly_listed : list_all_enabled_scheduled_commands {[ nightly_id := hourly ]} = [hourly].
Proof. vm_compute. reflexivity. Qed.

Lemma hourly_stored : ({[ nightly_id := hourly ]} : gmap ShortId AppScheduledCommand) !! nightly_id = Some hourly.
Proof. vm_compute. reflexivity. Qed.

Lemma long_output_panics : format_command_result (Exited long_output) = None.
Proof. vm_compute. reflexivity. Qed.

Lemma lost_again n : rtc sched_step (lost n) (lost (S n)).
Proof.
  set (t := 30000 * Z.of_nat (S n)).
  eapply rtc_l; [apply (ss_clock t); cbn; lia|].
  eapply rtc_l; [eapply ss_list; [reflexivity|cbn; unfold SCHEDULER_INTERVAL_MS; lia]|].
  unfold set_loop. cbn [clock store drawn running jobs log started length lost]. rewrite hourly_listed.
  eapply rtc_l; [eapply ss_now; reflexivity|].
  eapply rtc_l; [eapply ss_check; reflexivity|].
  unfold check_command. change (schedule hourly) with "1h". change (last_run_at hourly) with (@None Z). rewrite hourly_due.
  unfold set_loop, lock_scheduled_command. cbn [clock store drawn running jobs log started loop].
  rewrite bool_decide_eq_false_2 by set_solver. cbn [clock store drawn running jobs log started loop].
  eapply rtc_l; [eapply (ss_begin 0 _ true); reflexivity|].
  unfold begin_run. cbn [clock store drawn running jobs log started loop job_cmd job_seen]. change (id hourly) with nightly_id. rewrite hourly_stored.
  eapply rtc_l; [eapply (ss_finish 0 _ t (Exited long_output) true); reflexivity|].
  unfold finish_run. rewrite long_output_panics.
  eapply rtc_l; [eapply ss_done; reflexivity|]. refine (eq_ind _ (rtc sched_step _) (rtc_refl _ _) _ _).
  unfold end_job, set_loop, lost. cbn [clock store drawn running jobs log started loop job_cmd]. f_equal.
  rewrite seq_S, map_app, rev_app_distr. reflexivity.
Qed.

(** The output of a run is cut at byte 4096 without regard to characters, so a longer output with
    a character across that byte panics: the run is never recorded.  A command that is scheduled
    hourly and prints such output runs on every tick of the scheduler, every 30 seconds, without end
    and without a record. *)
Theorem lost_output_reruns_forever :
  (forall bytes,
     format_command_result (Exited bytes) = None
     <-> (MAX_OUTPUT_CHARS < length (from_utf8_lossy bytes))%nat
         /\ exists b, nth_error (from_utf8_lossy bytes) MAX_OUTPUT_CHARS = Some b /\ 128 <= b <= 191)
  /\ (forall n, exists s,
         reachable s /\ log s = []
         /\ started s = rev (map (fun k => (nightly_id, SCHEDULER_INTERVAL_MS * Z.of_nat k)) (seq 1 n))).
Proof.
  split.
  - intros bytes. cbn [format_command_result]. set (text := from_utf8_lossy bytes).
    destruct (Nat.ltb_spec MAX_OUTPUT_CHARS (length text)) as [Hlt|Hge]; [|split; [done|lia]].
    unfold slice_to. destruct (Nat.ltb_spec (length text) MAX_OUTPUT_CHARS); [lia|].
    destruct (nth_error text MAX_OUTPUT_CHARS) as [b|] eqn:E; [|by apply nth_error_None in E; lia].
    unfold in_range. destruct ((128 <=? b) && (b <=? 191)) eqn:Hb; (split; [|intros [_ (x & [= <-] & Hx)]]); try done; [|lia].
    intros _. split; [done|]. exists b. split; [done|lia].
  - intros n. exists (lost n). split; [|done]. exists 0.
    induction n as [|n IH]; [|etrans; [exact IH|apply lost_again]].
    apply (exec_events_steps [EAdd nightly_id [9] (nightly "1h")]). vm_compute. reflexivity.
Qed.

(** ** Sunday as 7 *)

Lemma cron_field_seven val : 0 <= val < 7 -> match_cron_field "7" val = false.
Proof.
  intros H. unfold match_cron_field. cbn [String.eqb Ascii.eqb Bool.eqb strip_prefix].
  change (split_on "," "7") with ["7"]. cbn [existsb]. unfold match_cron_part. change (split_once "-" "7") with (@None (string * string)).
  change (parse_u32 "7") with (Some 7). cbn iota. rewrite orb_false_r. lia.
Qed.

(** The validator accepts 7 as the day of the week, for Sunday, but the scheduler counts the days
    from 0 to 6: a cron schedule on day 7 is accepted and is due at no time. *)
Theorem sunday_seven_never_runs `{!CalendarLaws CAL} :
  validate_schedule_expression "0 4 * * 7" = Ok tt
  /\ (forall last now, is_schedule_due "0 4 * * 7" last now = false)
  /\ (forall sched f0 f1 f2 f3 t dt,
         split_whitespace sched = [f0; f1; f2; f3; "7"] -> from_unix_timestamp t = Some dt -> match_cron_5 sched dt = false).
Proof.
  assert (forall sched f0 f1 f2 f3 t dt,
            split_whitespace sched = [f0; f1; f2; f3; "7"] -> from_unix_timestamp t = Some dt -> match_cron_5 sched dt = false) as H.
  { intros sched f0 f1 f2 f3 t dt Hs (_ & _ & _ & _ & Hw)%calendar_ranges. unfold match_cron_5. rewrite Hs.
    rewrite (cron_field_seven (dt_weekday dt)) by done. apply andb_false_r. }
  split; [reflexivity|]. split; [|exact H]. intros last now.
  unfold is_schedule_due. change (trim "0 4 * * 7") with "0 4 * * 7".
  change (daily_slot_ms "0 4 * * 7" now) with (@None Z). change (parse_interval_ms "0 4 * * 7") with (@None Z).
  cbn iota. destruct (from_unix_timestamp _) as [dt|] eqn:E; [|done].
  by rewrite (H "0 4 * * 7" "0" "4" "*" "*" _ dt eq_refl E).
Qed.

End Machine.

(** ** Windows around the clock *)

Lemma window_time_minutes s :
  validate_window_time s = Ok tt -> exists m, parse_window_minutes s = Some m /\ 0 <= m < 1440.
Proof.
  unfold validate_window_time, parse_window_minutes. destruct (split_once ":" s) as [[hs ms]|]; [|done].
  destruct (parse_u32 hs) as [h|] eqn:Hh; [|done]. destruct (parse_u32 ms) as [m|] eqn:Hm; [|done].
  destruct ((23 <? h) || (59 <? m)) eqn:E; [done|]. intros _.
  pose proof (parse_uint_range _ _ _ Hh). pose proof (parse_uint_range _ _ _ Hm).
  exists (h * 60 + m). rewrite Z.mod_small by lia. split; [done|lia].
Qed.

(** A deployment window that the validator accepts has a start and an end within the day, and a
    time of the day lies in it exactly when it is less far after the start than the end is, counted
    around midnight; a window that ends where it starts is empty. *)
Theorem deploy_window_cyclic w hour minute :
  validate_deploy_window w = Ok tt -> 0 <= hour < 24 -> 0 <= minute < 60 ->
  exists s e start stop,
    split_once "-" w = Some (s, e) /\ parse_window_minutes s = Some start /\ parse_window_minutes e = Some stop
    /\ 0 <= start < 1440 /\ 0 <= stop < 1440
    /\ is_within_deploy_window w hour minute
       = ((hour * 60 + minute - start) mod 1440 <? (stop - start) mod 1440).
Proof.
  unfold validate_deploy_window, is_within_deploy_window. intros Hv Hh Hm.
  destruct (split_once "-" w) as [[s e]|]; [|done]. unfold and_then in Hv.
  destruct (validate_window_time s) as [[]|] eqn:Hs; [|done].
  destruct (window_time_minutes _ Hs) as (a & Ha & Ra), (window_time_minutes _ Hv) as (b & Hb & Rb).
  exists s, e, a, b. do 5 (split; [done|]). rewrite Ha, Hb. cbn zeta.
  set (cur := hour * 60 + minute). assert (0 <= cur < 1440) as Hc by (unfold cur; lia).
  assert (forall x, 0 <= x < 1440 -> (x - a) mod 1440 = if a <=? x then x - a else x - a + 1440) as Hmod.
  { intros x Hx. destruct (a <=? x) eqn:E; [apply Z.mod_small; lia|].
    rewrite <- (Z.mod_add _ 1) by lia. apply Z.mod_small. lia. }
  rewrite !Hmod by done. destruct (a <=? b) eqn:E1, (a <=? cur) eqn:E2; cbn; lia.
Qed.

(** ** A calendar, and the theorems on concrete inputs *)

(** Civil dates from the days since 1970, in eras of 400 years that start in March. *)
Definition civil_month_day (doe : Z) : Z * Z :=
  let yoe := (doe - doe / 1460 + doe / 36524 - doe / 146096) / 365 in
  let doy := doe - (365 * yoe + yoe / 4 - yoe / 100) in
  let mp := (5 * doy + 2) / 153 in
  (if mp <? 10 then mp + 3 else mp - 9, doy - (153 * mp + 2) / 5 + 1).

#[export] Instance plain_calendar : Calendar := {|
  from_unix_timestamp t :=
    if (-377705116800 <=? t) && (t <=? 253402300799) then
      let days := t / 86400 in
      let '(month, day) := civil_month_day ((days + 719468) mod 146097) in
      Some (mkDateTime (t / 60 mod 60) (t / 3600 mod 24) day month ((days + 4) mod 7))
    else None
|}.

Lemma civil_ranges doe m d : 0 <= doe < 146097 -> civil_month_day doe = (m, d) -> 1 <= d <= 31 /\ 1 <= m <= 12.
Proof.
  intros Hdoe Hmd.
  pose proof (seq_range_check (fun x => let '(m, d) := civil_month_day x in (1 <=? d) && (d <=? 31) && (1 <=? m) && (m <=? 12)) 146097 doe) as H.
  cbn beta in H. rewrite Hmd in H. assert ((1 <=? d) && (d <=? 31) && (1 <=? m) && (m <=? 12) = true) as Hb; [|lia].
  apply H; [vm_compute; reflexivity|done].
Qed.

#[export] Instance plain_calendar_laws : CalendarLaws plain_calendar.
Proof.
  split. intros t d. cbn [from_unix_timestamp plain_calendar]. destruct (_ && _); [|done]. cbn zeta.
  destruct (civil_month_day _) as [m dd] eqn:E. intros [= <-]. cbn [dt_minute dt_hour dt_day dt_month dt_weekday].
  destruct (civil_ranges _ _ _ (Z.mod_pos_bound _ 146097 eq_refl) E).
  pose proof (Z.mod_pos_bound (t / 60) 60). pose proof (Z.mod_pos_bound (t / 3600) 24).
  pose proof (Z.mod_pos_bound (t / 86400 + 4) 7). lia.
Qed.

Example new_year_of_2000 : from_unix_timestamp 946684859 = Some (mkDateTime 0 0 1 1 6).
Proof. vm_compute. reflexivity. Qed.

Example cron_weekdays : is_schedule_due "*/15 9-17 * * 1-5" (Some 1700000000000) 1700060400000 = true.
Proof. vm_compute. reflexivity. Qed.

Example interval_overflow :
  validate_schedule_expression "400000000000d" = Ok tt /\ is_schedule_due "400000000000d" None 1700060400000 = false.
Proof. split; vm_compute; reflexivity. Qed.

(** Two nights. *)
Definition two_nights : list Event :=
  [EAdd nightly_id [9] (nightly "04:30"); EClock 16230000; ETick; ETick; ECheck; EBegin 0 true;
   EFinish 0 (Exited []) true; ETick; EClock 102630000; ETick; ETick; ECheck; EBegin 0 true;
   EFinish 0 (Exited []) true].

Lemma scheduled_runs_separated_witness :
  exists s e1 e2 sn,
    exec_events (initial 0) two_nights = Some s /\ log s = [e1; e2] /\ run_seen e2 = Some sn
    /\ new_period (schedule (seen_cmd sn)) (run_at e1) (seen_now sn).
Proof.
  destruct (exec_events (initial 0) two_nights) as [s|] eqn:E; [|vm_compute in E; discriminate].
  assert (reachable s) as Hr by (exists 0; by eapply exec_events_steps).
  assert (log s = match exec_events (initial 0) two_nights with Some x => log x | None => [] end) as Hlog by (by rewrite E).
  vm_compute in Hlog.
  match type of Hlog with _ = ?l => change (log s = l) in Hlog end.
  match type of Hlog with _ = [?e1; ?e2] => exists s, e1, e2; pose proof (scheduled_runs_separated s Hr) as [_ H]; specialize (H 0%nat 1%nat e1 e2) end.
  eexists. split; [done|]. split; [exact Hlog|]. split; [reflexivity|].
  rewrite Hlog in H. apply H; [lia|reflexivity|reflexivity|reflexivity|reflexivity|cbn; lia].
Defined.

Lemma sunday_seven_never_runs_witness : is_schedule_due "0 4 * * 7" None 1700366400000 = false.
Proof. apply (proj1 (proj2 sunday_seven_never_runs)). Defined.

Lemma deploy_window_cyclic_witness :
  validate_deploy_window "22:00-04:00" = Ok tt
  /\ is_within_deploy_window "22:00-04:00" 2 30 = ((2 * 60 + 30 - 1320) mod 1440 <? (240 - 1320) mod 1440).
Proof.
  split; [reflexivity|].
  destruct (deploy_window_cyclic "22:00-04:00" 2 30) as (s & e & a & b & Hs & Ha & Hb & _ & _ & H); [reflexivity|lia|lia|].
  cbn in Hs. injection Hs as <- <-. cbn in Ha, Hb. injection Ha as <-. injection Hb as <-. exact H.
Defined.
