(* ===== verification/ProxyList.v ===== *)
(** * The list of proxies of the server

    [server/proxy_list.rs]: the proxies by identifier, in the order of the map, with the rule that
    a port serves at most one TCP proxy; and the part of [r3v3rs3-api/src/proxy.rs] that the list
    reads.  The settings that it only carries are the abstract types [Server] and [Settings].
    The map is the list of its values: the key of each is the identifier of its entry. *)

From S2P Require Import Prelude Basics Net.

Section Proxies.
Context {Server Settings : Type} `{!EqDecision Server} `{!EqDecision Settings}.

(** ** Proxies *)

Record Route : Type := mkRoute { servers : list Server; route_settings : Settings }.

Record HttpProxy : Type := mkHttpProxy {
  routes : list Route;
  maintenance : bool;
  http_client_cert : option ShortId;
  http_settings : Settings;
}.

Record TcpProxy : Type := mkTcpProxy {
  tcp_servers : list Server;
  tcp_client_cert : option ShortId;
  tcp_settings : Settings;
}.

Record UdpProxy : Type := mkUdpProxy { udp_servers : list Server; udp_settings : Settings }.

Inductive ProxyKind : Type :=
| KTcp (p : TcpProxy)
| KHttp (p : HttpProxy)
| KUdp (p : UdpProxy).

Record Proxy : Type := mkProxy {
  active : bool;
  proxy_name : string;
  ports : list ShortId;
  kind : ProxyKind;
}.

Inductive DiscoveryProvider : Type := Docker | Etcd | Platform.

Record DiscoverySource : Type := mkDiscoverySource { provider : DiscoveryProvider; resource : string }.

Record ProxyEntry : Type := mkProxyEntry {
  entry_id : ShortId;
  proxy : Proxy;
  source : option DiscoverySource;
}.

#[export] Instance Route_eq_dec : EqDecision Route. Proof. solve_decision. Defined.
#[export] Instance HttpProxy_eq_dec : EqDecision HttpProxy. Proof. solve_decision. Defined.
#[export] Instance TcpProxy_eq_dec : EqDecision TcpProxy. Proof. solve_decision. Defined.
#[export] Instance UdpProxy_eq_dec : EqDecision UdpProxy. Proof. solve_decision. Defined.
#[export] Instance ProxyKind_eq_dec : EqDecision ProxyKind. Proof. solve_decision. Defined.
#[export] Instance Proxy_eq_dec : EqDecision Proxy. Proof. solve_decision. Defined.
#[export] Instance DiscoveryProvider_eq_dec : EqDecision DiscoveryProvider. Proof. solve_decision. Defined.
#[export] Instance DiscoverySource_eq_dec : EqDecision DiscoverySource. Proof. solve_decision. Defined.
#[export] Instance ProxyEntry_eq_dec : EqDecision ProxyEntry. Proof. solve_decision. Defined.

Definition is_discovered (e : ProxyEntry) : bool := is_some (source e).

(** [ProxyKind::client_cert]. *)
Definition client_cert (k : ProxyKind) : option ShortId :=
  match k with KTcp p => tcp_client_cert p | KHttp p => http_client_cert p | KUdp _ => None end.

(** ** Ports *)

Record PortEntry : Type := mkPortEntry { port_id : ShortId; port_name : string; listen : Multiaddr }.

Definition accepts (k : ProxyKind) (l : Multiaddr) : bool :=
  match k with
  | KHttp _ => is_http l
  | KTcp _ => negb (is_udp l) && negb (is_http l)
  | KUdp _ => is_udp l && negb (is_http l)
  end.

(** ** The list *)

Inductive ProxyState : Type := Active | Inactive | Maintenance.

Record ProxyContext : Type := mkProxyContext { entry : ProxyEntry; state : ProxyState }.

Definition context_new (e : ProxyEntry) : ProxyContext :=
  let p := proxy e in
  mkProxyContext e
    (if negb (active p) || match ports p with [] => true | _ => false end then Inactive
     else if match kind p with KHttp h => maintenance h | _ => false end then Maintenance
     else Active).

Definition is_from (p : DiscoveryProvider) (e : ProxyEntry) : bool :=
  is_some_and (fun s => bool_decide (provider s = p)) (source e).

Notation ProxyList := (list ProxyContext).

Definition entries (l : ProxyList) : list ProxyEntry := map entry l.

Definition get (i : ShortId) (l : ProxyList) : option ProxyContext :=
  List.find (fun c => bool_decide (entry_id (entry c) = i)) l.

Definition contains_key (i : ShortId) (l : ProxyList) : bool :=
  existsb (fun c => bool_decide (entry_id (entry c) = i)) l.

(** [IndexMap::insert]: in the place of the old value, else at the end. *)
Definition insert_entry (e : ProxyEntry) (l : ProxyList) : ProxyList :=
  if contains_key (entry_id e) l then
    map (fun c => if bool_decide (entry_id (entry c) = entry_id e) then context_new e else c) l
  else l ++ [context_new e].

(** [IndexMap::swap_remove]: the last value moves to the free place. *)
Fixpoint swap_remove (i : ShortId) (l : ProxyList) : ProxyList :=
  match l with
  | [] => []
  | c :: r =>
      if bool_decide (entry_id (entry c) = i) then
        match last r with Some z => z :: removelast r | None => [] end
      else c :: swap_remove i r
  end.

Definition is_tcp (p : Proxy) : bool := match kind p with KTcp _ => true | _ => false end.

Definition retain_ports (keep : ShortId -> bool) (c : ProxyContext) : ProxyContext :=
  let e := entry c in
  let p := proxy e in
  mkProxyContext
    (mkProxyEntry (entry_id e) (mkProxy (active p) (proxy_name p) (List.filter keep (ports p)) (kind p)) (source e))
    (state c).

Definition has_port (ps : list ShortId) (p : ShortId) : bool := existsb (fun q => bool_decide (q = p)) ps.

Definition remove_deplicate_ports (p : Proxy) (l : ProxyList) : ProxyList :=
  match kind p with
  | KTcp _ => map (retain_ports (fun port => negb (has_port (ports p) port))) l
  | _ => l
  end.

Definition set (e : ProxyEntry) (l : ProxyList) : bool * ProxyList :=
  let l := remove_deplicate_ports (proxy e) l in
  match get (entry_id e) l with
  | Some c => if bool_decide (proxy (entry c) = proxy e) then (false, l) else (true, insert_entry e l)
  | None => (true, insert_entry e l)
  end.

Definition delete_proxy `{HEX : Hex} (i : ShortId) (l : ProxyList) : result ProxyList Error :=
  if contains_key i l then Ok (swap_remove i l) else Err (IdNotFound (ShortId_to_string i)).

Definition replace_manual (es : list ProxyEntry) (l : ProxyList) : bool * ProxyList :=
  if bool_decide (List.filter (fun e => negb (is_discovered e)) (entries l) = es) then (false, l)
  else (true, fold_left (fun l e => insert_entry e l) es (List.filter (fun c => is_discovered (entry c)) l)).

(** [FromIterator]: the stored proxies at the start. *)
Definition from_iter (es : list ProxyEntry) : ProxyList := fold_left (fun l e => insert_entry e l) es [].

(** What [commit_proxies] saves. *)
Definition manual_entries (l : ProxyList) : list ProxyEntry := List.filter (fun e => negb (is_discovered e)) (entries l).

Definition find_port (ps : list PortEntry) (p : ShortId) : option PortEntry :=
  List.find (fun e => bool_decide (port_id e = p)) ps.

Definition remove_incompatible_ports (ps : list PortEntry) (l : ProxyList) : bool * ProxyList :=
  let fit c := retain_ports (fun p => is_some_and (fun e => accepts (kind (proxy (entry c))) (listen e)) (find_port ps p)) c in
  (existsb (fun c => negb (Nat.eqb (length (ports (proxy (entry c)))) (length (ports (proxy (entry (fit c))))))) l,
   map fit l).

Record DiscoveredUpdate : Type := mkDiscoveredUpdate { changed : bool; skipped : list ShortId }.

Definition discovered_by (p : DiscoveryProvider) (l : ProxyList) : list ProxyEntry := List.filter (is_from p) (entries l).

Definition uses_taken_tcp_port (p : Proxy) (l : ProxyList) : bool :=
  is_tcp p && existsb (fun e => is_tcp (proxy e) && existsb (has_port (ports p)) (ports (proxy e))) (entries l).

(** One turn of the loop over the entries. *)
Definition add_discovered (p : DiscoveryProvider) (acc : ProxyList * list ShortId) (e : ProxyEntry)
  : ProxyList * list ShortId :=
  let '(l, skip) := acc in
  if negb (is_from p e) || contains_key (entry_id e) l || uses_taken_tcp_port (proxy e) l
  then (l, skip ++ [entry_id e])
  else (insert_entry e l, skip).

Definition replace_discovered (p : DiscoveryProvider) (es : list ProxyEntry) (l : ProxyList)
  : DiscoveredUpdate * ProxyList :=
  let previous := discovered_by p l in
  let '(l', skip) := fold_left (add_discovered p) es (List.filter (fun c => negb (is_from p (entry c))) l, []) in
  (mkDiscoveredUpdate (negb (bool_decide (previous = discovered_by p l'))) skip, l').

(** ** Keys of the list *)

Definition ids (l : ProxyList) : list ShortId := map (fun c => entry_id (entry c)) l.

Lemma contains_key_spec i l : contains_key i l = true <-> i ∈ ids l.
Proof.
  unfold contains_key, ids. rewrite existsb_exists, (list_elem_of_fmap (fun c => entry_id (entry c))). split.
  - intros (c & Hc & Hi). apply bool_decide_eq_true in Hi. exists c. by rewrite list_elem_of_In.
  - intros (c & -> & Hc). exists c. rewrite <- list_elem_of_In. split; [done|by apply bool_decide_eq_true].
Qed.

Lemma contains_key_false i l : contains_key i l = false <-> i ∉ ids l.
Proof. rewrite <- contains_key_spec. by destruct (contains_key i l). Qed.

Lemma insert_entry_ids e l : contains_key (entry_id e) l = true -> ids (insert_entry e l) = ids l.
Proof.
  intros H. unfold insert_entry. rewrite H. unfold ids. rewrite map_map. apply map_ext.
  intros c. by case_bool_decide.
Qed.

Lemma insert_entry_new e l : contains_key (entry_id e) l = false -> insert_entry e l = l ++ [context_new e].
Proof. intros H. unfold insert_entry. by rewrite H. Qed.

Lemma insert_entry_nodup e l : NoDup (ids l) -> NoDup (ids (insert_entry e l)).
Proof.
  intros Hl. destruct (contains_key (entry_id e) l) eqn:H; [by rewrite insert_entry_ids|].
  rewrite insert_entry_new by done. unfold ids. rewrite map_app. apply contains_key_false in H.
  apply NoDup_app. split; [done|]. split; [|repeat constructor; set_solver].
  cbn. intros x Hx ->%list_elem_of_singleton. done.
Qed.

Lemma swap_remove_spec i l : contains_key i l = true -> exists c, entry_id (entry c) = i /\ l ≡ₚ c :: swap_remove i l.
Proof.
  induction l as [|c r IH]; [done|]. cbn. case_bool_decide as Hc; cbn.
  - intros _. exists c. split; [done|]. destruct (last r) as [z|] eqn:E.
    + apply last_Some in E as [r' ->]. rewrite removelast_last. constructor. by rewrite Permutation_app_comm.
    + by apply last_None in E as ->.
  - intros (c' & ? & Hr)%IH. exists c'. split; [done|]. rewrite Hr at 1. by rewrite perm_swap.
Qed.

(** ** TCP ports *)

Definition holds (p : ShortId) (c : ProxyContext) : bool :=
  is_tcp (proxy (entry c)) && has_port (ports (proxy (entry c))) p.

(** Each port is held by at most one TCP proxy. *)
Definition tcp_exclusive (l : ProxyList) : Prop := forall p, count (holds p) l <= 1.

Lemma has_port_spec ps p : has_port ps p = true <-> p ∈ ps.
Proof.
  unfold has_port. rewrite existsb_exists. setoid_rewrite bool_decide_eq_true. setoid_rewrite <- list_elem_of_In.
  split; [by intros (? & ? & ->)|eauto].
Qed.

Lemma has_port_filter keep ps p : has_port (List.filter keep ps) p = has_port ps p && keep p.
Proof.
  apply eq_bool_prop_intro. rewrite !Is_true_true, andb_true_iff, !has_port_spec, !list_elem_of_In. apply filter_In.
Qed.

Lemma holds_retain keep p c : holds p (retain_ports keep c) = holds p c && keep p.
Proof.
  change (is_tcp (proxy (entry c)) && has_port (List.filter keep (ports (proxy (entry c)))) p = holds p c && keep p).
  by rewrite has_port_filter, andb_assoc.
Qed.

Lemma count_mono {A} (p q : A -> bool) l : (forall a, p a = true -> q a = true) -> count p l <= count q l.
Proof.
  intros H. induction l as [|a l IH]; cbn; [lia|]. specialize (H a). destruct (p a); [rewrite H by done|destruct (q a)]; lia.
Qed.

Lemma count_map {A B} (p : B -> bool) (f : A -> B) l : count p (map f l) = count (fun a => p (f a)) l.
Proof. induction l as [|a l IH]; cbn; [done|by rewrite IH]. Qed.

Lemma count_filter {A} (p q : A -> bool) l : count p (List.filter q l) <= count p l.
Proof. induction l as [|a l IH]; cbn; [lia|]. destruct (q a), (p a) eqn:E; cbn; rewrite ?E; lia. Qed.

Lemma count_none {A} (p : A -> bool) l : (forall a, a ∈ l -> p a = false) -> count p l = 0.
Proof.
  induction l as [|a l IH]; intros H; cbn; [done|]. rewrite (H a) by left. rewrite IH; [done|]. intros b Hb. apply H. by right.
Qed.

Lemma exclusive_retain keep l : tcp_exclusive l -> tcp_exclusive (map (fun c => retain_ports (keep c) c) l).
Proof.
  intros H p. rewrite count_map. etrans; [|apply (H p)]. apply count_mono. intros c.
  rewrite holds_retain. by intros [? _]%andb_prop.
Qed.

Lemma exclusive_filter q l : tcp_exclusive l -> tcp_exclusive (List.filter q l).
Proof. intros H p. etrans; [apply count_filter|apply H]. Qed.

Lemma holds_new p e : holds p (context_new e) = is_tcp (proxy e) && has_port (ports (proxy e)) p.
Proof. done. Qed.

Lemma update_absent e l :
  entry_id e ∉ ids l -> map (fun c => if bool_decide (entry_id (entry c) = entry_id e) then context_new e else c) l = l.
Proof.
  induction l as [|c l IH]; [done|]. intros [Hc Hl]%not_elem_of_cons. cbn. rewrite bool_decide_eq_false_2 by congruence.
  by rewrite IH.
Qed.

(** An entry whose ports no TCP proxy of the list holds can be added. *)
Lemma exclusive_insert e l :
  NoDup (ids l) -> tcp_exclusive l ->
  (forall p, is_tcp (proxy e) = true -> p ∈ ports (proxy e) -> count (holds p) l = 0) -> tcp_exclusive (insert_entry e l).
Proof.
  intros Hn Hl He p. destruct (contains_key (entry_id e) l) eqn:Hk.
  - unfold insert_entry. rewrite Hk, count_map.
    destruct (holds p (context_new e)) eqn:Hp.
    + rewrite holds_new in Hp. apply andb_prop in Hp as [Ht Hp]. apply has_port_spec in Hp.
      specialize (He p Ht Hp). clear Hk Hl. induction l as [|c l IH]; cbn; [lia|].
      cbn in Hn, He. apply NoDup_cons in Hn as [Hc Hn]. pose proof (count_nonneg (holds p) l).
      destruct (holds p c) eqn:E; [lia|]. case_bool_decide as Hi; [|rewrite E; by apply IH].
      rewrite <- count_map, update_absent by (by rewrite <- Hi).
      assert (count (holds p) l = 0) as -> by lia. by destruct (holds p (context_new e)).
    + etrans; [|apply (Hl p)]. apply count_mono. intros c. case_bool_decide; [by rewrite Hp|done].
  - rewrite insert_entry_new by done. rewrite count_app. cbn [count]. specialize (Hl p).
    destruct (holds p (context_new e)) eqn:Hp; [|lia].
    rewrite holds_new in Hp. apply andb_prop in Hp as [Ht Hp]. apply has_port_spec in Hp. rewrite (He p Ht Hp). lia.
Qed.

Lemma taken_count p l port :
  uses_taken_tcp_port p l = false -> is_tcp p = true -> port ∈ ports p -> count (holds port) l = 0.
Proof.
  unfold uses_taken_tcp_port. intros H Ht Hp. rewrite Ht in H. cbn in H. apply count_none. intros c Hc.
  destruct (holds port c) eqn:E; [|done]. exfalso. unfold holds in E. apply andb_prop in E as [E1 E2].
  apply not_true_iff_false in H. apply H, existsb_exists. exists (entry c).
  split; [apply in_map; by rewrite <- list_elem_of_In|]. rewrite E1. cbn. apply existsb_exists. exists port.
  rewrite has_port_spec in E2. split; [by rewrite <- list_elem_of_In|]. by apply has_port_spec.
Qed.

(** ** The operations keep the list well formed *)

Definition list_ok (l : ProxyList) : Prop := NoDup (ids l) /\ tcp_exclusive l.

Lemma ids_retain keep l : ids (map (fun c => retain_ports (keep c) c) l) = ids l.
Proof. unfold ids. by rewrite map_map. Qed.

Lemma strip_ok p l : list_ok l -> list_ok (remove_deplicate_ports p l).
Proof.
  intros [Hn He]. unfold remove_deplicate_ports. destruct (kind p); [|done|done].
  split; [by rewrite (ids_retain (fun _ => _))|by apply (exclusive_retain (fun _ => _))].
Qed.

(** After the strip no TCP proxy holds a port of the new one. *)
Lemma strip_frees p l port :
  is_tcp p = true -> port ∈ ports p -> count (holds port) (remove_deplicate_ports p l) = 0.
Proof.
  unfold is_tcp, remove_deplicate_ports. destruct (kind p); [intros _|done|done]. intros Hp.
  rewrite count_map. apply count_none. intros c _. rewrite holds_retain. apply has_port_spec in Hp. rewrite Hp. apply andb_false_r.
Qed.

Lemma insert_ok e l :
  list_ok l -> (forall p, is_tcp (proxy e) = true -> p ∈ ports (proxy e) -> count (holds p) l = 0) -> list_ok (insert_entry e l).
Proof. intros [Hn Hx] He. split; [by apply insert_entry_nodup|by apply exclusive_insert]. Qed.

Lemma set_ok e l : list_ok l -> list_ok (set e l).2.
Proof.
  intros Hl. unfold set. pose proof (strip_ok (proxy e) l Hl) as Hs.
  assert (list_ok (insert_entry e (remove_deplicate_ports (proxy e) l))).
  { apply insert_ok; [done|]. intros p. apply strip_frees. }
  destruct (get _ _) as [c|]; [case_bool_decide|]; done.
Qed.

Lemma delete_ok `{HEX : Hex} i l l' : list_ok l -> delete_proxy i l = Ok l' -> list_ok l'.
Proof.
  unfold delete_proxy. destruct (contains_key i l) eqn:Hk; [|done]. intros [Hn Hx] [= <-].
  destruct (swap_remove_spec i l Hk) as (c & _ & Hp). split.
  - assert (ids l ≡ₚ entry_id (entry c) :: ids (swap_remove i l)) as Hq by (unfold ids; by rewrite Hp at 1).
    rewrite Hq in Hn. by apply NoDup_cons in Hn as [_ Hn].
  - intros p. specialize (Hx p). rewrite (count_perm _ _ _ Hp) in Hx. cbn [count] in Hx. destruct (holds p c); lia.
Qed.

Lemma filtered_ids q l : NoDup (ids l) -> NoDup (ids (List.filter q l)).
Proof.
  unfold ids. intros Hn. induction l as [|c l IH]; [done|].
  cbn in Hn. apply NoDup_cons in Hn as [Hc Hn]. cbn. destruct (q c); [|by apply IH]. cbn. constructor; [|by apply IH].
  intros (d & Hd & Hin)%list_elem_of_fmap. apply Hc, list_elem_of_fmap. exists d. split; [done|].
  apply list_elem_of_In in Hin. apply list_elem_of_In. by apply filter_In in Hin as [? _].
Qed.

Lemma filter_ok q l : list_ok l -> list_ok (List.filter q l).
Proof. intros [Hn Hx]. split; [by apply filtered_ids|by apply exclusive_filter]. Qed.

(** ** What a discovery update does *)

(** The loop keeps the proxies that it finds and appends the entries that it accepts. *)
Record added (p : DiscoveryProvider) (l : ProxyList) (es : list ProxyEntry) (r : ProxyList * list ShortId) (acc : list ProxyEntry)
  : Prop := {
  ad_list : r.1 = l ++ map context_new acc;
  ad_from : Forall (fun e => is_from p e = true) acc;
  ad_all : map entry_id es ≡ₚ map entry_id acc ++ r.2;
  ad_sub : sublist acc es;
  ad_why : Forall (fun i => exists e, e ∈ es /\ entry_id e = i
             /\ (is_from p e = false \/ i ∈ ids r.1 \/ uses_taken_tcp_port (proxy e) r.1 = true)) r.2;
}.

Lemma taken_app p l l' : uses_taken_tcp_port p l = true -> uses_taken_tcp_port p (l ++ l') = true.
Proof.
  unfold uses_taken_tcp_port, entries. intros [-> H]%andb_prop. rewrite map_app, existsb_app, H. done.
Qed.

Lemma add_discovered_spec p l es : exists acc, added p l es (fold_left (add_discovered p) es (l, [])) acc.
Proof.
  induction es as [|e es IH] using rev_ind.
  - exists []. split; cbn; [by rewrite app_nil_r|done|done|constructor|done].
  - destruct IH as [acc [Hl Hf Ha Hs Hw]]. rewrite fold_left_app. cbn [fold_left].
    destruct (fold_left (add_discovered p) es (l, [])) as [l1 skip]. cbn in Hl, Ha, Hw. cbn [add_discovered].
    destruct (negb (is_from p e) || contains_key (entry_id e) l1 || uses_taken_tcp_port (proxy e) l1) eqn:E.
    + exists acc. split; cbn; [done|done| | |].
      * rewrite map_app, Ha. cbn. by rewrite app_assoc.
      * by apply sublist_inserts_r.
      * apply Forall_app. split.
        -- eapply Forall_impl; [exact Hw|]. intros i (x & Hx & ?). exists x. split; [set_solver|done].
        -- constructor; [|done]. exists e. split; [set_solver|]. split; [done|].
           apply orb_prop in E as [[E|E]%orb_prop|E]; [left|right; left|by right; right].
           ++ by apply negb_true_iff in E.
           ++ by apply contains_key_spec.
    + apply orb_false_elim in E as [[E1 E2]%orb_false_elim E3]. exists (acc ++ [e]). split; cbn.
      * rewrite insert_entry_new by done. by rewrite Hl, map_app, app_assoc.
      * apply Forall_app. split; [done|]. constructor; [|done]. by apply negb_false_iff in E1.
      * rewrite !map_app, Ha. cbn. rewrite <- !app_assoc. by rewrite (Permutation_app_comm skip).
      * by apply sublist_app.
      * eapply Forall_impl; [exact Hw|]. intros i (x & Hx & Hi & Hr). exists x. split; [set_solver|]. split; [done|].
        rewrite insert_entry_new by done. destruct Hr as [?|[Hr|Hr]]; [by left|right; left|right; right; by apply taken_app].
        unfold ids in *. rewrite map_app. apply elem_of_app. by left.
Qed.

Lemma add_discovered_ok p es l skip : list_ok l -> list_ok (fold_left (add_discovered p) es (l, skip)).1.
Proof.
  revert l skip. induction es as [|e es IH]; intros l skip Hl; cbn [fold_left]; [done|]. cbn [add_discovered].
  destruct (_ || _) eqn:E; [by apply IH|]. apply IH, insert_ok; [done|]. intros q Ht Hq.
  apply orb_false_elim in E as [_ E]. by eapply taken_count.
Qed.

Lemma replace_discovered_ok p es l : list_ok l -> list_ok (replace_discovered p es l).2.
Proof.
  intros Hl. unfold replace_discovered.
  pose proof (add_discovered_ok p es (List.filter (fun c => negb (is_from p (entry c))) l) [] (filter_ok _ _ Hl)) as H.
  by destruct (fold_left _ _ _).
Qed.

(** ** Reloads *)

Lemma filter_all {A} (q : A -> bool) l : Forall (fun a => q a = true) l -> List.filter q l = l.
Proof. induction 1 as [|a l Ha _ IH]; cbn; [done|by rewrite Ha, IH]. Qed.

Definition entry_holds (p : ShortId) (e : ProxyEntry) : bool := is_tcp (proxy e) && has_port (ports (proxy e)) p.

(** An entry of the same identifier makes room for the new one. *)
Lemma count_insert p e l :
  NoDup (ids l) -> count (holds p) (insert_entry e l) <= count (holds p) l + (if entry_holds p e then 1 else 0).
Proof.
  intros Hn. change (entry_holds p e) with (holds p (context_new e)). unfold insert_entry. destruct (contains_key (entry_id e) l).
  - rewrite count_map. induction l as [|c l IH]; cbn [count]; [by destruct (holds p _)|].
    cbn [ids map] in Hn. apply NoDup_cons in Hn as [Hc Hn]. case_bool_decide as Hi.
    + rewrite <- count_map, update_absent by (by rewrite <- Hi). destruct (holds p c), (holds p (context_new e)); lia.
    + specialize (IH Hn). destruct (holds p c); lia.
  - rewrite count_app. cbn [count]. destruct (holds p (context_new e)); lia.
Qed.

Lemma fold_insert_nodup es l : NoDup (ids l) -> NoDup (ids (fold_left (fun l e => insert_entry e l) es l)).
Proof. revert l. induction es as [|e es IH]; intros l Hl; [done|]. cbn. by apply IH, insert_entry_nodup. Qed.

Lemma fold_insert_count p es l :
  NoDup (ids l) -> count (holds p) (fold_left (fun l e => insert_entry e l) es l) <= count (holds p) l + count (entry_holds p) es.
Proof.
  revert l. induction es as [|e es IH]; intros l Hl; cbn [fold_left count]; [lia|].
  pose proof (IH _ (insert_entry_nodup e l Hl)). pose proof (count_insert p e l Hl). destruct (entry_holds p e); lia.
Qed.

(** The stored proxies that a reload brings use no TCP port twice, and none of a discovered proxy. *)
Definition reload_fits (es : list ProxyEntry) (l : ProxyList) : Prop :=
  forall p, count (entry_holds p) es + count (holds p) (List.filter (fun c => is_discovered (entry c)) l) <= 1.

Lemma replace_manual_ids es l : NoDup (ids l) -> NoDup (ids (replace_manual es l).2).
Proof. intros Hn. unfold replace_manual. case_bool_decide; [done|]. by apply fold_insert_nodup, filtered_ids. Qed.

Lemma replace_manual_exclusive es l : list_ok l -> reload_fits es l -> tcp_exclusive (replace_manual es l).2.
Proof.
  intros [Hn Hx] Hf. unfold replace_manual. case_bool_decide; [done|]. intros p. cbn [snd].
  pose proof (fold_insert_count p es _ (filtered_ids (fun c => is_discovered (entry c)) l Hn)). specialize (Hf p). lia.
Qed.

(** The saved entries of a good list give a good list. *)
Lemma count_entries p q l : count (entry_holds p) (List.filter q (entries l)) <= count (holds p) l.
Proof.
  unfold entries. induction l as [|c l IH]; cbn [map List.filter count]; [lia|].
  change (holds p c) with (entry_holds p (entry c)). destruct (q (entry c)); cbn [count]; destruct (entry_holds p (entry c)); lia.
Qed.

Lemma from_iter_ids es : NoDup (ids (from_iter es)).
Proof. apply fold_insert_nodup. constructor. Qed.

Lemma from_iter_exclusive es l :
  (forall p, count (entry_holds p) es <= count (holds p) l) -> tcp_exclusive l -> tcp_exclusive (from_iter es).
Proof.
  intros He Hx p. pose proof (fold_insert_count p es [] ltac:(constructor)) as H. specialize (Hx p). specialize (He p).
  unfold from_iter in *. cbn [count] in H. lia.
Qed.

Lemma restart_exclusive l : tcp_exclusive l -> tcp_exclusive (from_iter (manual_entries l)).
Proof. apply from_iter_exclusive. intros p. apply count_entries. Qed.

Lemma rollback_exclusive l : tcp_exclusive l -> tcp_exclusive (from_iter (entries l)).
Proof.
  apply from_iter_exclusive. intros p. pose proof (count_entries p (fun _ => true) l) as H.
  by rewrite filter_all in H by (by apply Forall_true).
Qed.

(** A change of the list: a proxy that an administrator adds or changes, a deletion, an update of a
    discovery provider, a change of the ports, a reload of stored proxies that [fits] allows, a
    restart from the saved ones, and the way back when they cannot be saved. *)
Inductive list_step `{HEX : Hex} (fits : list ProxyEntry -> ProxyList -> Prop) : ProxyList -> ProxyList -> Prop :=
| ls_set e l : list_step fits l (set e l).2
| ls_delete i l l' : delete_proxy i l = Ok l' -> list_step fits l l'
| ls_discovered p es l : list_step fits l (replace_discovered p es l).2
| ls_ports ps l : list_step fits l (remove_incompatible_ports ps l).2
| ls_reload es l : fits es l -> list_step fits l (replace_manual es l).2
| ls_restart l : list_step fits l (from_iter (manual_entries l))
| ls_rollback l : list_step fits l (from_iter (entries l)).

Lemma list_step_ids `{HEX : Hex} fits l l' : list_step fits l l' -> NoDup (ids l) -> NoDup (ids l').
Proof.
  intros Hs Hn. destruct Hs as [e l|i l l' Hd|p es l|ps l|es l _|l|l].
  - unfold set. assert (NoDup (ids (remove_deplicate_ports (proxy e) l))) as H.
    { unfold remove_deplicate_ports. destruct (kind _); [by rewrite (ids_retain (fun _ => _))|done|done]. }
    destruct (get _ _) as [c|]; [case_bool_decide; [done|]|]; by apply insert_entry_nodup.
  - unfold delete_proxy in Hd. destruct (contains_key i l) eqn:Hk; [|done]. injection Hd as <-.
    destruct (swap_remove_spec i l Hk) as (c & _ & Hp).
    assert (ids l ≡ₚ entry_id (entry c) :: ids (swap_remove i l)) as Hq by (unfold ids; by rewrite Hp at 1).
    rewrite Hq in Hn. by apply NoDup_cons in Hn as [_ Hn].
  - unfold replace_discovered. apply (filtered_ids (fun c => negb (is_from p (entry c)))) in Hn.
    assert (forall es acc, NoDup (ids acc.1) -> NoDup (ids (fold_left (add_discovered p) es acc).1)) as H.
    { clear. induction es as [|e es IH]; intros [l skip] Hl; [done|]. cbn [fold_left]. apply IH. cbn [add_discovered].
      destruct (_ || _); [done|]. by apply insert_entry_nodup. }
    specialize (H es (_, []) Hn). by destruct (fold_left _ _ _).
  - unfold remove_incompatible_ports. cbn [snd].
    by rewrite (ids_retain (fun c p => is_some_and (fun e => accepts (kind (proxy (entry c))) (listen e)) (find_port ps p))).
  - by apply replace_manual_ids.
  - apply from_iter_ids.
  - apply from_iter_ids.
Qed.

Lemma list_step_ok `{HEX : Hex} l l' : list_step reload_fits l l' -> list_ok l -> list_ok l'.
Proof.
  intros Hs Hl. split; [eapply list_step_ids; [done|apply Hl]|]. destruct Hs as [e l|i l l' Hd|p es l|ps l|es l Hf|l|l].
  - by apply set_ok.
  - by eapply delete_ok.
  - by apply replace_discovered_ok.
  - apply (exclusive_retain (fun c p => is_some_and (fun e => accepts (kind (proxy (entry c))) (listen e)) (find_port ps p))), Hl.
  - by apply replace_manual_exclusive.
  - apply restart_exclusive, Hl.
  - apply rollback_exclusive, Hl.
Qed.

(** C14: From an empty list, whatever administrators, discovery providers, port changes, reloads of
    changed stored proxies and restarts do, every identifier stands for one proxy; and every port is
    held by at most one TCP proxy, as long as the reloads bring proxies that use no TCP port twice and
    none of a discovered proxy ([manual_reload_breaks_tcp_ports] is why). *)
Theorem one_tcp_proxy_per_port `{HEX : Hex} l :
  (rtc (list_step (fun _ _ => True)) [] l -> NoDup (ids l)) /\ (rtc (list_step reload_fits) [] l -> tcp_exclusive l).
Proof.
  split; intros H.
  - assert (NoDup (ids [])) as H0 by constructor. revert H0. induction H as [|l1 l2 l3 Hs _ IH]; [done|].
    intros Hl. apply IH. by eapply list_step_ids.
  - assert (list_ok []) as H0 by (split; [constructor|done]). assert (list_ok l); [|by destruct H1].
    revert H0. induction H as [|l1 l2 l3 Hs _ IH]; [done|]. intros Hl. apply IH. by eapply list_step_ok.
Qed.

Lemma map_lookup_some {A B} (f : A -> B) l i x : l !! i = Some x -> map f l !! i = Some (f x).
Proof. intros H. change (map f l) with (f <$> l). by rewrite list_lookup_fmap, H. Qed.

Lemma entries_filter q l : entries (List.filter (fun c => q (entry c)) l) = List.filter q (entries l).
Proof. unfold entries. induction l as [|c l IH]; cbn; [done|]. destruct (q (entry c)); cbn; by rewrite IH. Qed.

Lemma entries_new acc : entries (map context_new acc) = acc.
Proof. unfold entries. rewrite map_map. apply map_id. Qed.

Lemma filter_excluded {A} (q : A -> bool) l : List.filter q (List.filter (fun a => negb (q a)) l) = [].
Proof. induction l as [|a l IH]; cbn; [done|]. destruct (q a) eqn:E; cbn; [done|by rewrite E]. Qed.

(** The update, in terms of the entries that it accepts. *)
Lemma replace_discovered_added p es l u l' :
  replace_discovered p es l = (u, l') ->
  exists acc,
    added p (List.filter (fun c => negb (is_from p (entry c))) l) es (l', skipped u) acc
    /\ discovered_by p l' = acc /\ changed u = negb (bool_decide (discovered_by p l = acc)).
Proof.
  unfold replace_discovered. set (others := List.filter (fun c => negb (is_from p (entry c))) l).
  destruct (add_discovered_spec p others es) as [acc Hadd]. pose proof (ad_list _ _ _ _ _ Hadd) as Hl.
  pose proof (ad_from _ _ _ _ _ Hadd) as Hf.
  destruct (fold_left _ es (others, [])) as [l1 skip]. cbn in Hl. intros [= <- <-]. exists acc. split; [done|].
  assert (discovered_by p l1 = acc) as Hd; [|split; [done|cbn [changed]; by rewrite Hd]].
  unfold discovered_by. rewrite Hl. unfold entries at 1. rewrite map_app. fold (entries others). fold (entries (map context_new acc)).
  rewrite entries_new, List.filter_app. unfold others.
  rewrite (entries_filter (fun e => negb (is_from p e))), filter_excluded. by apply filter_all.
Qed.

(** An update of a discovery provider leaves the proxies of everyone else as they are, in their
    order, and puts a part of the new entries, in their order, behind them; each new entry is added
    or reported as skipped, and it is skipped only when it comes from another provider, when a proxy
    of someone else has its identifier, or when it is a TCP proxy on a port that a TCP proxy of the
    new list holds.  The update says that it changed something exactly when the provider's entries
    are not the ones it had. *)
Theorem discovered_update_exact p es l u l' :
  NoDup (map entry_id es) -> replace_discovered p es l = (u, l') ->
  exists acc,
    l' = List.filter (fun c => negb (is_from p (entry c))) l ++ map context_new acc
    /\ discovered_by p l' = acc /\ sublist acc es /\ map entry_id es ≡ₚ map entry_id acc ++ skipped u
    /\ (forall e, e ∈ es -> entry_id e ∈ skipped u ->
          is_from p e = false
          \/ entry_id e ∈ ids (List.filter (fun c => negb (is_from p (entry c))) l)
          \/ uses_taken_tcp_port (proxy e) l' = true)
    /\ changed u = negb (bool_decide (discovered_by p l = acc)).
Proof.
  intros Hn H. destruct (replace_discovered_added _ _ _ _ _ H) as (acc & [Hl _ Ha Hs Hw] & Hd & Hc). cbn in Hl, Ha, Hw.
  exists acc. do 4 (split; [done|]). split; [|done].
  intros e He Hi. pose proof (proj1 (Forall_forall _ _) Hw _ Hi) as (x & Hx & Hxe & Hr).
  assert (x = e) as ->.
  { apply list_elem_of_lookup in He as [a Ha'], Hx as [b Hb]. rewrite NoDup_alt in Hn.
    assert (a = b) as ->; [|congruence]. apply (Hn a b (entry_id e)); [|rewrite <- Hxe]; by apply map_lookup_some. }
  destruct Hr as [?|[Hr|?]]; [by left|right; left|by right; right].
  rewrite Hl in Hr. unfold ids in Hr. rewrite map_app in Hr. apply elem_of_app in Hr as [?|Hr]; [done|]. exfalso.
  rewrite map_map in Hr. cbn in Hr. rewrite Ha in Hn. apply NoDup_app in Hn as (_ & Hno & _). by apply (Hno (entry_id e)).
Qed.

End Proxies.

(** ** Concrete lists *)

Module ProxyListExample.
Notation Entry := (@ProxyEntry string unit).
Definition tcp (i : Z) (ps : list ShortId) (src : option DiscoverySource) : Entry :=
  mkProxyEntry [i] (mkProxy true "db" ps (KTcp (mkTcpProxy ["10.0.0.1"] None tt))) src.
Definition docker : option DiscoverySource := Some (mkDiscoverySource Docker "db-1").
Definition postgres : ShortId := [80].
Definition discovered : list (@ProxyContext string unit) := (replace_discovered Docker [tcp 1 [postgres] docker; tcp 2 [postgres] docker] []).2.
End ProxyListExample.

Lemma one_tcp_proxy_per_port_witness :
  exists l : list (@ProxyContext string unit), rtc (list_step (HEX := plain_hex) reload_fits) [] l /\ l <> [] /\ tcp_exclusive l.
Proof.
  exists ProxyListExample.discovered.
  assert (rtc (list_step (HEX := plain_hex) reload_fits) [] ProxyListExample.discovered) as H by (apply rtc_once, ls_discovered).
  split; [exact H|]. split; [discriminate|]. exact (proj2 (one_tcp_proxy_per_port _) H).
Defined.

Lemma discovered_update_exact_witness :
  exists u l',
    replace_discovered Docker [ProxyListExample.tcp 1 [ProxyListExample.postgres] ProxyListExample.docker;
                               ProxyListExample.tcp 2 [ProxyListExample.postgres] ProxyListExample.docker] [] = (u, l')
    /\ skipped u = [[2]] /\ (exists acc, discovered_by Docker l' = acc /\ changed u = negb (bool_decide ([] = acc))).
Proof.
  eexists _, _. split; [reflexivity|]. split; [reflexivity|].
  edestruct (discovered_update_exact (Server := string) (Settings := unit) Docker
    [ProxyListExample.tcp 1 [ProxyListExample.postgres] ProxyListExample.docker;
     ProxyListExample.tcp 2 [ProxyListExample.postgres] ProxyListExample.docker] []) as (acc & _ & Hd & _ & _ & _ & Hc).
  - repeat constructor; set_solver.
  - reflexivity.
  - exists acc. split; [exact Hd|exact Hc].
Defined.

(** A reload of the stored proxies, which a restored backup changed, can break the rule: the list then
    has a discovered and a manual TCP proxy on the same port. *)
Theorem manual_reload_breaks_tcp_ports :
  exists (l : list (@ProxyContext string unit)) es,
    rtc (list_step (HEX := plain_hex) reload_fits) [] l /\ Forall (fun e => is_discovered e = false) es
    /\ count (holds ProxyListExample.postgres) (replace_manual es l).2 = 2.
Proof.
  exists ProxyListExample.discovered, [ProxyListExample.tcp 7 [ProxyListExample.postgres] None].
  split; [apply rtc_once, ls_discovered|]. split; [repeat constructor|]. vm_compute. reflexivity.
Qed.
