(* ===== verification/DiscoveryServer.v ===== *)
(** * The server side of service discovery

    [server/discovery.rs] and [discovery/ids.rs], with the handlers of [server/state.rs] that use
    them: the snapshot of each provider, the proxies that the server builds from it with their
    ports and identifiers, the sealed credentials that it keeps between reads, and the tasks of
    the providers.  SHA-256, the JSON text of a proxy, password hashing and the validation of a
    proxy are parameters; certificates and ACME targets are left out. *)

From Stdlib Require Import Ascii.
From S2P Require Import Prelude Basics Net IpText ProxyList.

#[export] Instance DiscoveryProvider_countable : Countable DiscoveryProvider.
Proof.
  refine (inj_countable' (fun p => match p with Docker => 0 | Etcd => 1 | Platform => 2 end)
            (fun n => match n with 0 => Docker | 1 => Etcd | _ => Platform end) _).
  by intros [].
Defined.

Definition provider_name (p : DiscoveryProvider) : string :=
  match p with Docker => "Docker" | Etcd => "etcd" | Platform => "Platform" end.

Lemma Forall2_impl_mem {A B} (P Q : A -> B -> Prop) l k :
  Forall2 P l k -> (forall x y, x ∈ l -> y ∈ k -> P x y -> Q x y) -> Forall2 Q l k.
Proof.
  intros H. induction H as [|x y l k Hp _ IH]; intros Hq; [constructor|].
  constructor; [by apply Hq; [left|left|]|]. apply IH. intros x' y' ? ?. apply Hq; by right.
Qed.

(** ** Identifiers of discovered proxies *)

Class Sha256 : Type := { sha256 : list Z -> list Z }.

Definition LETTERS : string := "bcdfghjklmnpqrstvwxyz".

Section Ids.
Context `{SHA : Sha256} `{HEX : Hex}.

Definition letter (byte : Z) : ascii :=
  unwrap_or (String.get (Z.to_nat (byte mod 21)) LETTERS) "b"%char.

Definition candidate (p : DiscoveryProvider) (key : string) (salt : Z) : option ShortId :=
  let digest := sha256 (as_bytes (provider_name p) ++ [0] ++ as_bytes key ++ [0] ++ as_bytes (dec salt)) in
  let letters := String.string_of_list_ascii (map letter (firstn 6 digest)) in
  ok (ShortId_from_str (String.append (String.substring 0 3 letters) (String.append "-" (String.substring 3 (String.length letters - 3) letters)))).

(** The loop of [discovered_id] from a salt; [None] when the fuel is used up. *)
Fixpoint discovered_id_from (fuel : nat) (p : DiscoveryProvider) (key : string) (taken : gset ShortId) (salt : Z)
  : option ShortId :=
  match fuel with
  | O => None
  | S fuel =>
      match candidate p key salt with
      | Some i => if bool_decide (i ∈ taken) then discovered_id_from fuel p key taken (salt + 1) else Some i
      | None => discovered_id_from fuel p key taken (salt + 1)
      end
  end.

Definition discovered_id (fuel : nat) (p : DiscoveryProvider) (key : string) (taken : gset ShortId) : option ShortId :=
  discovered_id_from fuel p key taken 0.

Lemma discovered_id_fresh fuel p key taken salt i :
  discovered_id_from fuel p key taken salt = Some i ->
  i ∉ taken /\ exists n : nat, candidate p key (salt + Z.of_nat n) = Some i.
Proof.
  revert salt. induction fuel as [|fuel IH]; intros salt; cbn; [done|].
  destruct (candidate p key salt) as [c|] eqn:E; [case_bool_decide|].
  - intros (? & n & Hn)%IH. split; [done|]. exists (S n). by replace (salt + Z.of_nat (S n)) with (salt + 1 + Z.of_nat n) by lia.
  - intros [= <-]. split; [done|]. exists 0%nat. by rewrite Z.add_0_r.
  - intros (? & n & Hn)%IH. split; [done|]. exists (S n). by replace (salt + Z.of_nat (S n)) with (salt + 1 + Z.of_nat n) by lia.
Qed.

(** The search ends when some salt gives a free identifier. *)
Lemma discovered_id_ends (n : nat) p key taken salt i :
  candidate p key (salt + Z.of_nat n) = Some i -> i ∉ taken -> is_Some (discovered_id_from (S n) p key taken salt).
Proof.
  revert salt. induction n as [|n IH]; intros salt Hc Hi.
  - rewrite Z.add_0_r in Hc. cbn. rewrite Hc. by rewrite bool_decide_eq_false_2.
  - cbn [discovered_id_from]. assert (is_Some (discovered_id_from (S n) p key taken (salt + 1))).
    { apply IH; [|done]. by replace (salt + 1 + Z.of_nat n) with (salt + Z.of_nat (S n)) by lia. }
    destruct (candidate p key salt); [case_bool_decide|]; done.
Qed.

End Ids.

(** ** The definitions of a provider *)

Section Discovery.
Context {Server Settings : Type} `{!EqDecision Server} `{!EqDecision Settings}.
Context `{SHA : Sha256} `{HEX : Hex}.
Notation Proxy := (@Proxy Server Settings).
Notation ProxyKind := (@ProxyKind Server Settings).
Notation ProxyEntry := (@ProxyEntry Server Settings).

Record ProxyDefinition : Type := mkProxyDefinition {
  def_key : string;
  def_name : string;
  def_ports : list string;
  def_active : bool;
  def_acme : option ShortId;
  def_kind : ProxyKind;
}.

Record DiscoveredProxy : Type := mkDiscoveredProxy {
  dp_key : string;
  dp_source : DiscoverySource;
  dp_definition : ProxyDefinition;
}.

Record DiscoveryIssue : Type := mkDiscoveryIssue { issue_resource : string; issue_message : string }.

Inductive DiscoveryState : Type := Connecting | Running | DError.

(** ** Ports *)

Definition matches_name (name : string) (e : PortEntry) : bool :=
  String.eqb (port_name e) name || String.eqb (ShortId_to_string (port_id e)) name.

Definition resolve_port (name : string) (k : ProxyKind) (ps : list PortEntry) : result ShortId string :=
  match List.filter (matches_name name) ps with
  | [] => Err (String.append "port not found: " name)
  | [e] =>
      if negb (accepts k (listen e)) then
        Err (String.append "port " (String.append name " does not accept this protocol"))
      else Ok (port_id e)
  | _ => Err (String.append "more than one port has the name: " name)
  end.

(** [collect] into a [Result] stops at the first error. *)
Fixpoint resolve_ports (names : list string) (k : ProxyKind) (ps : list PortEntry) : result (list ShortId) string :=
  match names with
  | [] => Ok []
  | n :: names =>
      let? i := resolve_port n k ps in
      let? rest := resolve_ports names k ps in
      Ok (i :: rest)
  end.

(** ** Building proxies *)

Definition map_err {A E F} (f : E -> F) (r : result A E) : result A F :=
  match r with Ok a => Ok a | Err e => Err (f e) end.

Definition build_proxy (describe : Error -> string) (validate : Proxy -> result unit Error) (ps : list PortEntry)
  (d : DiscoveredProxy) : result Proxy string :=
  let def := dp_definition d in
  let? ids :=
    (if match def_ports def with [] => true | _ => false end && bool_decide (provider (dp_source d) = Platform) then
       Ok (map port_id (List.filter (fun e => accepts (def_kind def) (listen e)) ps))
     else resolve_ports (def_ports def) (def_kind def) ps) in
  let value := mkProxy (def_active def) (def_name def) ids (def_kind def) in
  let? _ := map_err describe (validate value) in
  Ok value.

Record Built : Type := mkBuilt { b_entries : list ProxyEntry; b_issues : list DiscoveryIssue }.

(** The loop of [build] over the proxies, with the identifiers that are taken and the keys seen so
    far; [None] when the search for an identifier does not end within the fuel. *)
Fixpoint build_loop (describe : Error -> string) (validate : Proxy -> result unit Error) (fuel : nat)
  (p : DiscoveryProvider) (ps : list PortEntry) (ds : list DiscoveredProxy) (taken : gset ShortId) (keys : gset string)
  (b : Built) : option Built :=
  match ds with
  | [] => Some b
  | d :: ds =>
      let result :=
        if bool_decide (dp_key d ∈ keys) then Err "the proxy is defined more than once"
        else build_proxy describe validate ps d in
      let keys := {[ dp_key d ]} ∪ keys in
      match result with
      | Ok value =>
          match discovered_id fuel p (dp_key d) taken with
          | None => None
          | Some i =>
              build_loop describe validate fuel p ps ds ({[ i ]} ∪ taken) keys
                (mkBuilt (b_entries b ++ [mkProxyEntry i value (Some (dp_source d))]) (b_issues b))
          end
      | Err message =>
          build_loop describe validate fuel p ps ds taken keys
            (mkBuilt (b_entries b)
               (b_issues b ++ [mkDiscoveryIssue (resource (dp_source d))
                                 (String.append (def_key (dp_definition d)) (String.append ": " message))]))
      end
  end.

Definition build (describe : Error -> string) (validate : Proxy -> result unit Error) (fuel : nat)
  (p : DiscoveryProvider) (ds : list DiscoveredProxy) (ps : list PortEntry) (taken : gset ShortId) : option Built :=
  build_loop describe validate fuel p ps ds taken ∅ (mkBuilt [] []).

Definition entry_issue (e : ProxyEntry) (message : string) : DiscoveryIssue :=
  mkDiscoveryIssue (unwrap_or (option_map resource (source e)) "")
    (String.append (proxy_name (proxy e)) (String.append ": " message)).

Definition conflict_issues (es : list ProxyEntry) (skip : list ShortId) : list DiscoveryIssue :=
  map (fun e => entry_issue e "the proxy uses a TCP port of another TCP proxy")
    (List.filter (fun e => existsb (fun i => bool_decide (i = entry_id e)) skip) es).

(** ** The latest snapshot of each provider *)

Record DiscoverySnapshot : Type := mkDiscoverySnapshot {
  snap_provider : DiscoveryProvider;
  snap_generation : Z;
  snap_state : DiscoveryState;
  snap_error : option string;
  snap_proxies : option (list DiscoveredProxy);
  snap_issues : list DiscoveryIssue;
}.

Record ProviderRecord : Type := mkProviderRecord {
  rec_state : DiscoveryState;
  rec_error : option string;
  rec_proxies : list DiscoveredProxy;
  provider_issues : list DiscoveryIssue;
  build_issues : list DiscoveryIssue;
  rec_added : nat;
  updated_at : Z;
  sealed : gmap string Proxy;
}.

Definition ProviderRecord_new : ProviderRecord := mkProviderRecord Connecting None [] [] [] 0 0 ∅.

Notation DiscoveryRegistry := (gmap DiscoveryProvider ProviderRecord).

Definition registry_update (s : DiscoverySnapshot) (now : Z) (r : DiscoveryRegistry) : DiscoveryRegistry :=
  let old := unwrap_or (r !! snap_provider s) ProviderRecord_new in
  <[ snap_provider s :=
       mkProviderRecord (snap_state s) (snap_error s) (unwrap_or (snap_proxies s) (rec_proxies old)) (snap_issues s)
         (build_issues old) (rec_added old) now (sealed old) ]> r.

Definition record_proxies (p : DiscoveryProvider) (r : DiscoveryRegistry) : list DiscoveredProxy :=
  map_or (r !! p) [] rec_proxies.

Definition set_sealed (m : gmap string Proxy) (r : ProviderRecord) : ProviderRecord :=
  mkProviderRecord (rec_state r) (rec_error r) (rec_proxies r) (provider_issues r) (build_issues r) (rec_added r) (updated_at r) m.

Definition set_result (p : DiscoveryProvider) (n : nat) (issues : list DiscoveryIssue) (r : DiscoveryRegistry) : DiscoveryRegistry :=
  alter (fun o => mkProviderRecord (rec_state o) (rec_error o) (rec_proxies o) (provider_issues o) issues n (updated_at o) (sealed o)) p r.

(** ** Sealed credentials *)

(** [serde_json::to_string] of a proxy, and [seal] of [server/credentials.rs], whose hashes take
    fresh salts: the number tells its calls apart. *)
Class Sealer : Type := {
  to_json : Proxy -> string;
  seal_new : nat -> Proxy -> result Proxy Error;
}.

Context `{SEAL : Sealer}.

Record Sealing : Type := mkSealing {
  previous : gmap string Proxy;
  current : gmap string Proxy;
  seal_calls : nat;
  seal_entries : list ProxyEntry;
  seal_issues : list DiscoveryIssue;
}.

Definition seal_cached (s : Sealing) (p : Proxy) : result Proxy Error * Sealing :=
  let key := to_json p in
  let keep q prev calls := (Ok q, mkSealing prev (<[ key := q ]> (current s)) calls (seal_entries s) (seal_issues s)) in
  match previous s !! key with
  | Some q => keep q (delete key (previous s)) (seal_calls s)
  | None =>
      match seal_new (seal_calls s) p with
      | Ok q => keep q (previous s) (S (seal_calls s))
      | Err e => (Err e, mkSealing (previous s) (current s) (S (seal_calls s)) (seal_entries s) (seal_issues s))
      end
  end.

(** One turn of the loop of [DiscoveryRegistry::seal]. *)
Definition seal_entry (describe : Error -> string) (s : Sealing) (e : ProxyEntry) : Sealing :=
  match seal_cached s (proxy e) with
  | (Ok q, s) =>
      mkSealing (previous s) (current s) (seal_calls s) (seal_entries s ++ [mkProxyEntry (entry_id e) q (source e)]) (seal_issues s)
  | (Err err, s) =>
      mkSealing (previous s) (current s) (seal_calls s) (seal_entries s) (seal_issues s ++ [entry_issue e (describe err)])
  end.

Definition seal_all (describe : Error -> string) (prev : gmap string Proxy) (calls : nat) (es : list ProxyEntry) : Sealing :=
  fold_left (seal_entry describe) es (mkSealing prev ∅ calls [] []).

(** ** The tasks of the providers *)

Record ProviderTask : Type := mkProviderTask { generation : Z; handle : bool }.

Record DiscoveryTasks : Type := mkDiscoveryTasks {
  tasks : gmap DiscoveryProvider ProviderTask;
  last_generation : Z;
}.

Definition accepts_snapshot (p : DiscoveryProvider) (g : Z) (t : DiscoveryTasks) : bool :=
  is_none_or (fun task => handle task && (generation task =? g)) (tasks t !! p).

Definition stop (p : DiscoveryProvider) (t : DiscoveryTasks) : bool * DiscoveryTasks :=
  match tasks t !! p with
  | Some task =>
      (handle task, mkDiscoveryTasks (<[ p := mkProviderTask (generation task) false ]> (tasks t)) (last_generation t))
  | None => (false, t)
  end.

Definition start (p : DiscoveryProvider) (t : DiscoveryTasks) : DiscoveryTasks :=
  let t := (stop p t).2 in
  let g := last_generation t + 1 in
  mkDiscoveryTasks (<[ p := mkProviderTask g true ]> (tasks t)) g.

(** ** The handlers of the server *)

Record ServerState : Type := mkServerState {
  discovery : DiscoveryRegistry;
  discovery_tasks : DiscoveryTasks;
  proxies : list (@ProxyContext Server Settings);
  port_list : list PortEntry;
  acme_ids : list ShortId;
  calls : nat; (* the seals so far *)
}.

Definition set_proxies (l : list (@ProxyContext Server Settings)) (s : ServerState) : ServerState :=
  mkServerState (discovery s) (discovery_tasks s) l (port_list s) (acme_ids s) (calls s).
Definition set_discovery_registry (r : DiscoveryRegistry) (s : ServerState) : ServerState :=
  mkServerState r (discovery_tasks s) (proxies s) (port_list s) (acme_ids s) (calls s).
Definition set_tasks (t : DiscoveryTasks) (s : ServerState) : ServerState :=
  mkServerState (discovery s) t (proxies s) (port_list s) (acme_ids s) (calls s).

Definition ids_not_owned_by (p : DiscoveryProvider) (s : ServerState) : gset ShortId :=
  list_to_set (acme_ids s ++ map port_id (port_list s)
                 ++ map entry_id (List.filter (fun e => negb (is_from p e)) (entries (proxies s)))).

(** [validate_proxy] is a parameter: the rules of each kind of proxy. *)
Definition validate_discovered_proxy (validate_proxy : Proxy -> result unit Error) (p : Proxy) : result unit Error :=
  if is_some (client_cert (kind p)) then Err Forbidden else validate_proxy p.

Definition apply_discovery (describe : Error -> string) (validate_proxy : Proxy -> result unit Error) (fuel : nat)
  (p : DiscoveryProvider) (s : ServerState) : option (bool * ServerState) :=
  match build describe (validate_discovered_proxy validate_proxy) fuel p (record_proxies p (discovery s)) (port_list s)
          (ids_not_owned_by p s) with
  | None => None
  | Some b =>
      let sealing := seal_all describe (map_or (discovery s !! p) ∅ sealed) (calls s) (b_entries b) in
      let r := alter (set_sealed (current sealing)) p (discovery s) in
      let es := seal_entries sealing in
      let '(u, l) := replace_discovered p es (proxies s) in
      let issues := b_issues b ++ seal_issues sealing ++ conflict_issues es (skipped u) in
      Some (changed u,
            mkServerState (set_result p (length es - length (skipped u)) issues r) (discovery_tasks s) l (port_list s)
              (acme_ids s) (seal_calls sealing))
  end.

Definition set_discovery (describe : Error -> string) (validate_proxy : Proxy -> result unit Error) (fuel : nat) (now : Z)
  (snap : DiscoverySnapshot) (s : ServerState) : option ServerState :=
  if negb (accepts_snapshot (snap_provider snap) (snap_generation snap) (discovery_tasks s)) then Some s
  else
    let s := set_discovery_registry (registry_update snap now (discovery s)) s in
    option_map snd (apply_discovery describe validate_proxy fuel (snap_provider snap) s).

Definition clear_discovery (p : DiscoveryProvider) (s : ServerState) : ServerState :=
  set_proxies (replace_discovered p [] (proxies s)).2 (set_discovery_registry (delete p (discovery s)) s).

Definition set_discovery_error (p : DiscoveryProvider) (error : string) (now : Z) (s : ServerState) : ServerState :=
  set_discovery_registry (registry_update (mkDiscoverySnapshot p 0 DError (Some error) (Some []) []) now (discovery s)) s.

(** [enabled] and [client] are the settings: whether the provider is enabled, and the error of its
    API client when it cannot be made. *)
Definition restart_discovery (p : DiscoveryProvider) (enabled : bool) (client : result unit string) (now : Z) (s : ServerState)
  : ServerState :=
  let '(was_running, t) := stop p (discovery_tasks s) in
  let known := is_some (discovery s !! p) in
  let s := set_tasks t s in
  let s := if was_running || known then clear_discovery p s else s in
  if negb enabled then s
  else match client with
       | Err error => set_discovery_error p error now s
       | Ok _ => set_tasks (start p (discovery_tasks s)) s
       end.

Fixpoint refresh_loop (describe : Error -> string) (validate_proxy : Proxy -> result unit Error) (fuel : nat)
  (ps : list DiscoveryProvider) (acc : bool) (s : ServerState) : option (bool * ServerState) :=
  match ps with
  | [] => Some (acc, s)
  | p :: ps =>
      match apply_discovery describe validate_proxy fuel p s with
      | None => None
      | Some (c, s) => refresh_loop describe validate_proxy fuel ps (acc || c) s
      end
  end.

(** [refresh_discovery]: every provider with a record, in the order of the providers. *)
Definition refresh_discovery (describe : Error -> string) (validate_proxy : Proxy -> result unit Error) (fuel : nat)
  (s : ServerState) : option (bool * ServerState) :=
  refresh_loop describe validate_proxy fuel
    (List.filter (fun p => is_some (discovery s !! p)) [Docker; Etcd; Platform]) false s.

(** ** Building the proxies of a provider *)

(** What the loop adds to [b] for the definitions [ds]. *)
Definition loop_added (describe : Error -> string) (validate : Proxy -> result unit Error) (ps : list PortEntry) (ds : list DiscoveredProxy) (taken : gset ShortId) (keys : gset string) (b b' : Built)
  : Prop :=
  exists new ni,
    b_entries b' = b_entries b ++ new /\ b_issues b' = b_issues b ++ ni
    /\ (length new + length ni = length ds)%nat
    /\ NoDup (map entry_id new) /\ Forall (fun e => entry_id e ∉ taken) new
    /\ Forall (fun e => exists d, d ∈ ds /\ dp_key d ∉ keys /\ source e = Some (dp_source d)
                 /\ build_proxy describe validate ps d = Ok (proxy e)) new.

Lemma loop_added_issue describe validate ps d ds taken keys m b b' :
  loop_added describe validate ps ds taken ({[ dp_key d ]} ∪ keys) (mkBuilt (b_entries b) (b_issues b ++ [m])) b' ->
  loop_added describe validate ps (d :: ds) taken keys b b'.
Proof.
  intros (new & ni & He & Hi & Hlen & Hnd & Ht & Hs). cbn [b_entries b_issues] in He, Hi.
  exists new, (m :: ni). rewrite He, Hi, <- app_assoc. split; [done|]. split; [done|].
  split; [cbn; lia|]. split; [done|]. split; [done|]. eapply Forall_impl; [exact Hs|].
  intros e (d' & ? & ? & ?). exists d'. split; [by right|]. split; [set_solver|done].
Qed.

Lemma loop_added_entry describe validate ps d ds taken keys i v b b' :
  build_proxy describe validate ps d = Ok v -> dp_key d ∉ keys -> i ∉ taken ->
  loop_added describe validate ps ds ({[ i ]} ∪ taken) ({[ dp_key d ]} ∪ keys)
    (mkBuilt (b_entries b ++ [mkProxyEntry i v (Some (dp_source d))]) (b_issues b)) b' ->
  loop_added describe validate ps (d :: ds) taken keys b b'.
Proof.
  intros Hp Hkey Hj (new & ni & He & Hi & Hlen & Hnd & Ht & Hs). cbn [b_entries b_issues] in He, Hi.
  exists (mkProxyEntry i v (Some (dp_source d)) :: new), ni. rewrite He, <- app_assoc.
  split; [done|]. split; [done|]. split; [cbn; lia|]. split; [|split].
  - cbn. constructor; [|done]. intros (e & He' & Hin)%list_elem_of_fmap.
    rewrite Forall_forall in Ht. specialize (Ht e Hin). set_solver.
  - constructor; [done|]. eapply Forall_impl; [exact Ht|]. set_solver.
  - constructor; [exists d; split; [by left|done]|]. eapply Forall_impl; [exact Hs|].
    intros e (d' & ? & ? & ?). exists d'. split; [by right|]. split; [set_solver|done].
Qed.

Lemma build_loop_spec describe validate fuel p ps ds taken keys b b' :
  build_loop describe validate fuel p ps ds taken keys b = Some b' -> loop_added describe validate ps ds taken keys b b'.
Proof.
  revert taken keys b. induction ds as [|d ds IH]; intros taken keys b; cbn [build_loop].
  - intros [= <-]. exists [], []. rewrite !app_nil_r. do 3 (split; [done|]). split; [constructor|]. split; constructor.
  - case_bool_decide as Hkey; [intros H; by eapply loop_added_issue, IH|].
    destruct (build_proxy describe validate ps d) as [value|message] eqn:Hp; [|intros H; by eapply loop_added_issue, IH].
    destruct (discovered_id fuel p (dp_key d) taken) as [j|] eqn:Hj; [|done].
    apply discovered_id_fresh in Hj as [Hj _]. intros H%IH. by eapply loop_added_entry.
Qed.

Lemma resolve_ports_good names k ps l :
  resolve_ports names k ps = Ok l -> Forall (fun i => exists e, e ∈ ps /\ port_id e = i /\ accepts k (listen e) = true) l.
Proof.
  revert l. induction names as [|n names IH]; intros l; cbn; [by intros [= <-]|].
  unfold resolve_port. destruct (List.filter (matches_name n) ps) as [|e [|? ?]] eqn:E; [done| |done].
  destruct (accepts k (listen e)) eqn:Ha; cbn; [|done].
  destruct (resolve_ports names k ps) as [rest|]; cbn; [|done]. intros [= <-]. constructor; [|by apply IH].
  exists e. split; [|done]. apply list_elem_of_In. apply (filter_In (matches_name n)). rewrite E. by left.
Qed.

Lemma build_proxy_good describe validate ps d v :
  build_proxy describe validate ps d = Ok v ->
  validate v = Ok tt /\ kind v = def_kind (dp_definition d) /\ proxy_name v = def_name (dp_definition d)
  /\ Forall (fun i => exists e, e ∈ ps /\ port_id e = i /\ accepts (kind v) (listen e) = true) (ports v).
Proof.
  unfold build_proxy. cbn zeta. set (def := dp_definition d).
  assert (forall l : list ShortId, (if match def_ports def with [] => true | _ => false end && bool_decide (provider (dp_source d) = Platform)
                     then Ok (map port_id (List.filter (fun e => accepts (def_kind def) (listen e)) ps))
                     else resolve_ports (def_ports def) (def_kind def) ps) = Ok l ->
                    Forall (fun i => exists e, e ∈ ps /\ port_id e = i /\ accepts (def_kind def) (listen e) = true) l) as Hl.
  { intros l. destruct (_ && _); [|apply resolve_ports_good]. intros [= <-]. apply Forall_map, Forall_forall.
    intros e He. apply list_elem_of_In, filter_In in He as [He Ha]. exists e. by rewrite list_elem_of_In. }
  match goal with |- context [and_then ?r _] => destruct r as [l|]; [|done] end. cbn [and_then].
  destruct (validate _) as [[]|] eqn:Hv; cbn; [|done]. intros [= <-]. cbn.
  split; [done|]. split; [done|]. split; [done|by apply Hl].
Qed.

(** ** Sealing *)

(** A sealed entry keeps everything but the credentials. *)
Definition sealed_from (e e' : ProxyEntry) : Prop := entry_id e' = entry_id e /\ source e' = source e.

Lemma seal_all_spec describe prev n es :
  let s := seal_all describe prev n es in
  (length (seal_entries s) + length (seal_issues s) = length es)%nat
  /\ sublist (map entry_id (seal_entries s)) (map entry_id es).
Proof.
  cbn zeta. unfold seal_all. induction es as [|e es [IH1 IH2]] using rev_ind; [split; [done|constructor]|].
  rewrite fold_left_app. cbn [fold_left]. unfold seal_entry, seal_cached.
  set (s := fold_left _ es _) in *. rewrite !map_app, !length_app. cbn [map length].
  destruct (previous s !! _) as [q|]; [|destruct (seal_new _ _) as [q|err]]; cbn [seal_entries seal_issues];
    rewrite ?length_app, ?map_app; cbn [map length]; (split; [lia|]);
    first [by apply sublist_app|by apply sublist_inserts_r].
Qed.

(** Entries with distinct JSON texts that are all sealed leave their sealed proxies in the new map. *)
Lemma seal_all_remembers describe prev n es :
  NoDup (map (fun e => to_json (proxy e)) es) ->
  let s := seal_all describe prev n es in
  seal_issues s = [] ->
  Forall2 (fun e e' => sealed_from e e' /\ current s !! to_json (proxy e) = Some (proxy e')) es (seal_entries s).
Proof.
  cbn zeta. unfold seal_all. induction es as [|e es IH] using rev_ind; [by constructor|].
  rewrite map_app, fold_left_app. intros (Hn & Hd & _)%NoDup_app. cbn [fold_left]. unfold seal_entry, seal_cached.
  set (s := fold_left _ es _) in *. specialize (IH Hn).
  assert (forall q, seal_issues s = [] ->
            Forall2 (fun e1 e' => sealed_from e1 e' /\ <[to_json (proxy e):=q]> (current s) !! to_json (proxy e1) = Some (proxy e'))
              (es ++ [e]) (seal_entries s ++ [mkProxyEntry (entry_id e) q (source e)])) as Hstep.
  { intros q Hi. apply Forall2_app; [|constructor; [|constructor]; split; [done|apply lookup_insert_eq]].
    eapply Forall2_impl_mem; [exact (IH Hi)|]. intros e1 e' Hin _ [Hs Hc]. split; [done|].
    rewrite lookup_insert_ne; [done|]. intros Heq. apply (Hd (to_json (proxy e1))).
    - apply (list_elem_of_fmap_2 (fun e => to_json (proxy e))). done.
    - rewrite <- Heq. by left. }
  destruct (previous s !! _) as [q|]; [|destruct (seal_new _ _) as [q|err]]; cbn [seal_entries seal_issues current];
    [apply Hstep|apply Hstep|]. intros H%app_eq_nil. by destruct H.
Qed.

(** Entries whose sealed proxies are all known keep them. *)
Lemma seal_all_known describe prev n es es' :
  NoDup (map (fun e => to_json (proxy e)) es) ->
  Forall2 (fun e e' => sealed_from e e' /\ prev !! to_json (proxy e) = Some (proxy e')) es es' ->
  let s := seal_all describe prev n es in
  seal_entries s = es' /\ seal_issues s = [] /\ seal_calls s = n
  /\ (forall k, k ∉ map (fun e => to_json (proxy e)) es -> previous s !! k = prev !! k).
Proof.
  cbn zeta. unfold seal_all. revert es'. induction es as [|e es IH] using rev_ind; intros es' Hn Hf.
  { apply Forall2_nil_inv_l in Hf as ->. done. }
  apply Forall2_app_inv_l in Hf as (es1 & es2 & Hf1 & Hf2 & ->).
  apply Forall2_cons_inv_l in Hf2 as (e' & es3 & [[Hid Hsrc] Hq] & ->%Forall2_nil_inv_l & ->).
  rewrite map_app in Hn. apply NoDup_app in Hn as (Hn & Hd & _).
  destruct (IH es1 Hn Hf1) as (He & Hi & Hc & Hp). rewrite fold_left_app. cbn [fold_left].
  unfold seal_entry, seal_cached. set (s := fold_left _ es _) in *.
  rewrite Hp, Hq by (intros Hx; apply (Hd _ Hx); by left).
  cbn [seal_entries seal_issues seal_calls previous]. rewrite He, Hi, Hc, <- Hid, <- Hsrc.
  split; [by destruct e'|]. split; [done|]. split; [done|]. intros k Hk. rewrite map_app in Hk.
  apply not_elem_of_app in Hk as [Hk1 Hk2]. rewrite lookup_delete_ne; [by apply Hp|]. intros Heq. apply Hk2. rewrite <- Heq. by left.
Qed.

(** Each definition of a provider becomes exactly one proxy or one issue.  The proxies have
    distinct identifiers that nothing else uses; each comes from a definition of the provider, has
    its kind and name, passes the validation, and every port of it exists and accepts its protocol. *)
Theorem every_definition_accounted describe validate fuel p ds ps taken b :
  build describe validate fuel p ds ps taken = Some b ->
  (length (b_entries b) + length (b_issues b) = length ds)%nat
  /\ NoDup (map entry_id (b_entries b))
  /\ Forall (fun e =>
       entry_id e ∉ taken
       /\ exists d, d ∈ ds /\ source e = Some (dp_source d) /\ validate (proxy e) = Ok tt
           /\ kind (proxy e) = def_kind (dp_definition d) /\ proxy_name (proxy e) = def_name (dp_definition d)
           /\ Forall (fun i => exists x, x ∈ ps /\ port_id x = i /\ accepts (kind (proxy e)) (listen x) = true) (ports (proxy e)))
       (b_entries b).
Proof.
  unfold build. intros (new & ni & -> & -> & Hlen & Hnd & Ht & Hs)%build_loop_spec. cbn [b_entries b_issues app].
  split; [done|]. split; [done|]. apply Forall_forall. intros e He. rewrite Forall_forall in Ht, Hs.
  split; [by apply Ht|]. destruct (Hs e He) as (d & Hd & _ & Hsrc & (Hv & Hk & Hn & Hp)%build_proxy_good).
  exists d. repeat (split; [done|]). done.
Qed.

(** ** A snapshot in the server *)

Lemma count_length_filter {A} (q : A -> bool) l : Z.of_nat (length (List.filter q l)) = count q l.
Proof. induction l as [|a l IH]; cbn; [done|]. destruct (q a); cbn [length]; lia. Qed.

Definition in_ids (skip : list ShortId) (i : ShortId) : bool := existsb (fun j => bool_decide (j = i)) skip.

Lemma in_ids_spec skip i : in_ids skip i = true <-> i ∈ skip.
Proof. apply has_port_spec. Qed.

Lemma count_all {A} (q : A -> bool) l : Forall (fun a => q a = true) l -> count q l = Z.of_nat (length l).
Proof. induction 1 as [|a l Ha _ IH]; cbn [count length]; [done|]. rewrite Ha, IH. lia. Qed.

(** One issue for each skipped entry. *)
Lemma conflict_issues_length (es acc : list ProxyEntry) skip :
  NoDup (map entry_id es) -> map entry_id es ≡ₚ map entry_id acc ++ skip -> length (conflict_issues es skip) = length skip.
Proof.
  intros Hn Hp. unfold conflict_issues. rewrite length_map. apply Nat2Z.inj. rewrite count_length_filter.
  change (count (fun e => in_ids skip (entry_id e)) es = Z.of_nat (length skip)).
  rewrite <- (count_map (in_ids skip) entry_id), (count_perm _ _ _ Hp), count_app.
  rewrite Hp in Hn. apply NoDup_app in Hn as (_ & Hd & _).
  rewrite count_none, count_all; [done| |].
  - apply Forall_forall. intros i. by rewrite in_ids_spec.
  - intros i Hi. apply not_true_iff_false. rewrite in_ids_spec. by apply Hd.
Qed.

Lemma seal_all_nodup describe prev n (es : list ProxyEntry) :
  NoDup (map entry_id es) -> NoDup (map entry_id (seal_entries (seal_all describe prev n es))).
Proof. intros H. eapply sublist_NoDup; [exact H|]. apply seal_all_spec. Qed.

Definition others (p : DiscoveryProvider) (l : list (@ProxyContext Server Settings)) : list ProxyContext :=
  List.filter (fun c => negb (is_from p (entry c))) l.

Lemma others_new p acc : Forall (fun e => is_from p e = true) acc -> others p (map context_new acc) = [].
Proof. unfold others. induction 1 as [|e l He _ IH]; cbn; [done|]. by rewrite He. Qed.

Lemma others_idemp p l : others p (others p l) = others p l.
Proof.
  unfold others. apply filter_all, Forall_forall. intros c Hc. by apply list_elem_of_In, filter_In in Hc as [_ Hc].
Qed.

Lemma replace_others p es l u l' : replace_discovered p es l = (u, l') -> others p l' = others p l.
Proof.
  intros (acc & [Hl Hf _ _ _] & _)%replace_discovered_added. cbn in Hl. fold (others p l) in Hl. rewrite Hl.
  unfold others at 1. rewrite List.filter_app. fold (others p (others p l)) (others p (map context_new acc)).
  by rewrite others_idemp, others_new, app_nil_r.
Qed.

(** A snapshot of a stopped or replaced task changes nothing.  After an accepted snapshot with
    proxies the record of the provider holds them, and every definition is accounted for: the
    proxies that the list has from the provider are as many as the record says, and with the
    reported issues they are as many as the definitions.  The proxies of everyone else stay as they
    are, in their order. *)
Theorem snapshot_accounted describe validate fuel now snap s s' :
  set_discovery describe validate fuel now snap s = Some s' ->
  if accepts_snapshot (snap_provider snap) (snap_generation snap) (discovery_tasks s) then
    others (snap_provider snap) (proxies s') = others (snap_provider snap) (proxies s)
    /\ (forall ds, snap_proxies snap = Some ds ->
         exists r, discovery s' !! snap_provider snap = Some r /\ rec_proxies r = ds
           /\ rec_added r = length (discovered_by (snap_provider snap) (proxies s'))
           /\ (rec_added r + length (build_issues r) = length ds)%nat)
  else s' = s.
Proof.
  unfold set_discovery. destruct (accepts_snapshot _ _ _); cbn [negb]; [|by intros [= ->]].
  set (p := snap_provider snap). set (s0 := set_discovery_registry _ s). unfold apply_discovery.
  destruct (build _ _ _ _ _ _ _) as [b|] eqn:Hb; [|done].
  set (sealing := seal_all _ _ _ _). destruct (replace_discovered p (seal_entries sealing) (proxies s0)) as [u l] eqn:Hr.
  intros [= <-]. cbn [proxies discovery].
  split; [by rewrite (replace_others _ _ _ _ _ Hr)|]. intros ds Hds.
  assert (record_proxies p (discovery s0) = ds) as Hrec.
  { unfold record_proxies, s0. cbn [discovery set_discovery_registry]. unfold registry_update. fold p.
    rewrite lookup_insert_eq. cbn. by rewrite Hds. }
  rewrite Hrec in Hb. unfold build in Hb. destruct (build_loop_spec _ _ _ _ _ _ _ _ _ _ Hb) as (new & ni & He & Hi & Hlen & Hnd & _).
  cbn [b_entries b_issues app] in He, Hi. rewrite <- He in Hlen, Hnd. rewrite <- Hi in Hlen.
  destruct (replace_discovered_added _ _ _ _ _ Hr) as (acc & [_ _ Ha _ _] & Hacc & _). cbn in Ha.
  pose proof (seal_all_spec describe (map_or (discovery s0 !! p) ∅ sealed) (calls s0) (b_entries b)) as [Hs _]. fold sealing in Hs.
  pose proof (seal_all_nodup describe (map_or (discovery s0 !! p) ∅ sealed) (calls s0) (b_entries b) Hnd) as Hsn. fold sealing in Hsn.
  assert (length (seal_entries sealing) = length acc + length (skipped u))%nat as Hcount.
  { apply Permutation_length in Ha. by rewrite length_app, !length_map in Ha. }
  unfold set_result. eexists. split.
  - rewrite !lookup_alter_eq. unfold s0. cbn [discovery set_discovery_registry]. unfold registry_update. fold p.
    rewrite lookup_insert_eq. reflexivity.
  - cbn [rec_proxies rec_added build_issues set_sealed]. rewrite Hds, Hacc. split; [done|]. split; [lia|].
    rewrite !length_app, (conflict_issues_length _ _ _ Hsn Ha). lia.
Qed.

(** ** Reading the same definitions again *)

Lemma replace_again p (es : list ProxyEntry) (l : list (@ProxyContext Server Settings)) u l' :
  replace_discovered p es l = (u, l') -> replace_discovered p es l' = (mkDiscoveredUpdate false (skipped u), l').
Proof.
  intros H. pose proof (replace_others _ _ _ _ _ H) as Ho. unfold others in Ho. revert H. unfold replace_discovered. rewrite Ho.
  destruct (fold_left _ es _) as [l1 skip] eqn:E. intros [= <- <-]. cbn [skipped]. by rewrite bool_decide_eq_true_2.
Qed.

(** Reading a provider whose definitions did not change, with the same ports, changes nothing: the
    proxies keep their identifiers and their sealed credentials, the list of proxies stays as it is,
    and the update reports no change.  Two conditions: no two definitions have the same content, and
    the credentials of all of them could be sealed. *)
Theorem refresh_stable describe validate fuel p s c s1 b :
  build describe (validate_discovered_proxy validate) fuel p (record_proxies p (discovery s)) (port_list s)
    (ids_not_owned_by p s) = Some b ->
  NoDup (map (fun e => to_json (proxy e)) (b_entries b)) ->
  seal_issues (seal_all describe (map_or (discovery s !! p) ∅ sealed) (calls s) (b_entries b)) = [] ->
  apply_discovery describe validate fuel p s = Some (c, s1) ->
  exists s2, apply_discovery describe validate fuel p s1 = Some (false, s2) /\ proxies s2 = proxies s1 /\ calls s2 = calls s1.
Proof.
  intros Hb Hn Hi. unfold apply_discovery. rewrite Hb. set (sealing := seal_all _ _ _ _) in *.
  destruct (replace_discovered p (seal_entries sealing) (proxies s)) as [u l] eqn:Hr. intros [= <- <-].
  cbn [discovery port_list proxies calls discovery_tasks acme_ids]. set (r1 := set_result _ _ _ _).
  assert (record_proxies p r1 = record_proxies p (discovery s)) as Hrec.
  { unfold record_proxies, r1, set_result. rewrite !lookup_alter_eq. by destruct (discovery s !! p). }
  assert (ids_not_owned_by p (mkServerState r1 (discovery_tasks s) l (port_list s) (acme_ids s) (seal_calls sealing)) = ids_not_owned_by p s) as Hids.
  { unfold ids_not_owned_by. cbn [acme_ids port_list proxies]. rewrite <- !(entries_filter (fun e => negb (is_from p e))).
    fold (others p l) (others p (proxies s)). by rewrite (replace_others _ _ _ _ _ Hr). }
  rewrite Hrec, Hids, Hb.
  pose proof (seal_all_remembers describe _ (calls s) (b_entries b) Hn Hi) as Hkept. fold sealing in Hkept.
  set (prev := map_or (r1 !! p) ∅ sealed).
  assert (Forall2 (fun e e' => sealed_from e e' /\ prev !! to_json (proxy e) = Some (proxy e')) (b_entries b) (seal_entries sealing)) as Hprev.
  { unfold prev, r1, set_result. rewrite !lookup_alter_eq. destruct (discovery s !! p) as [o|] eqn:Ho; [exact Hkept|].
    unfold record_proxies, build in Hb. rewrite Ho in Hb. cbn in Hb. injection Hb as <-. by inversion Hkept. }
  destruct (seal_all_known describe prev (seal_calls sealing) (b_entries b) _ Hn Hprev) as (He2 & Hi2 & Hc2 & _).
  rewrite He2, Hc2, (replace_again _ _ _ _ _ Hr). eexists. split; [reflexivity|]. done.
Qed.

Lemma seal_entry_new describe s e q :
  previous s !! to_json (proxy e) = None -> seal_new (seal_calls s) (proxy e) = Ok q ->
  seal_entry describe s e
  = mkSealing (previous s) (<[ to_json (proxy e) := q ]> (current s)) (S (seal_calls s))
      (seal_entries s ++ [mkProxyEntry (entry_id e) q (source e)]) (seal_issues s).
Proof. intros H1 H2. unfold seal_entry, seal_cached. by rewrite H1, H2. Qed.

Lemma seal_entry_known describe s e q :
  previous s !! to_json (proxy e) = Some q ->
  seal_entry describe s e
  = mkSealing (delete (to_json (proxy e)) (previous s)) (<[ to_json (proxy e) := q ]> (current s)) (seal_calls s)
      (seal_entries s ++ [mkProxyEntry (entry_id e) q (source e)]) (seal_issues s).
Proof. intros H. unfold seal_entry, seal_cached. by rewrite H. Qed.

(** The sealed proxies are kept by the content of the definition, and each read takes them out of
    the kept ones: of two definitions with the same content the second is sealed anew on every read,
    so both change on every read, although no definition changed. *)
Theorem twin_definitions_reseal describe n e1 e2 :
  proxy e1 = proxy e2 ->
  (forall m, exists q, seal_new m (proxy e1) = Ok q) ->
  (forall m m' q, seal_new m (proxy e1) = Ok q -> seal_new m' (proxy e1) = Ok q -> m = m') ->
  let first := seal_all describe ∅ n [e1; e2] in
  let second := seal_all describe (current first) (seal_calls first) [e1; e2] in
  exists q0 q1 q2,
    map proxy (seal_entries first) = [q0; q1] /\ map proxy (seal_entries second) = [q1; q2]
    /\ q0 <> q1 /\ q1 <> q2.
Proof.
  intros Heq Hok Hsalt. cbn zeta. destruct (Hok n) as [q0 H0], (Hok (S n)) as [q1 H1], (Hok (S (S n))) as [q2 H2].
  unfold seal_all. cbn [fold_left].
  rewrite (seal_entry_new _ _ e1 q0) by (done || apply lookup_empty). cbn [previous current seal_calls seal_entries seal_issues].
  rewrite (seal_entry_new _ _ e2 q1) by (rewrite <- ?Heq; done || apply lookup_empty).
  cbn [previous current seal_calls seal_entries seal_issues]. rewrite <- Heq, insert_insert_eq.
  rewrite (seal_entry_known _ _ e1 q1) by apply lookup_insert_eq. cbn [previous current seal_calls seal_entries seal_issues].
  rewrite (seal_entry_new _ _ e2 q2) by (rewrite <- Heq; done || apply lookup_delete_eq).
  exists q0, q1, q2. cbn. split; [done|]. split; [done|].
  split; intros ->; [specialize (Hsalt n (S n) _ H0 H1)|specialize (Hsalt (S n) (S (S n)) _ H1 H2)]; lia.
Qed.

End Discovery.

(** ** The generations of the tasks *)

Inductive TaskEvent : Type := Started (p : DiscoveryProvider) | Stopped (p : DiscoveryProvider).

#[export] Instance TaskEvent_eq_dec : EqDecision TaskEvent.
Proof. solve_decision. Defined.

Definition task_event (t : DiscoveryTasks) (e : TaskEvent) : DiscoveryTasks :=
  match e with Started p => start p t | Stopped p => (stop p t).2 end.

Definition task_run (l : list TaskEvent) : DiscoveryTasks := fold_left task_event l (mkDiscoveryTasks ∅ 0).

Definition starts (l : list TaskEvent) : Z := count (fun e => match e with Started _ => true | Stopped _ => false end) l.

(** The newest task of [p] in the run [l]. *)
Definition newest_task (p : DiscoveryProvider) (l : list TaskEvent) (o : option ProviderTask) : Prop :=
  match o with
  | None => Started p ∉ l
  | Some t =>
      exists l1 l2, l = l1 ++ Started p :: l2 /\ Started p ∉ l2 /\ generation t = starts l1 + 1
        /\ handle t = negb (bool_decide (Stopped p ∈ l2))
  end.

Lemma newest_other p l e t :
  e <> Started p -> e <> Stopped p -> newest_task p l t -> newest_task p (l ++ [e]) t.
Proof.
  intros H1 H2. destruct t as [t|]; cbn.
  - intros (l1 & l2 & -> & Hs & Hg & Hh). exists l1, (l2 ++ [e]). rewrite <- app_assoc. split; [done|].
    split; [set_solver|]. split; [done|]. rewrite Hh. f_equal. apply bool_decide_ext. set_solver.
  - set_solver.
Qed.

Lemma task_run_spec l : last_generation (task_run l) = starts l /\ forall p, newest_task p l (tasks (task_run l) !! p).
Proof.
  induction l as [|e l [Hg Ht]] using rev_ind; [split; [done|]; intros p; unfold task_run; cbn [fold_left tasks]; rewrite lookup_empty; apply not_elem_of_nil|].
  unfold task_run. rewrite fold_left_app. cbn [fold_left]. fold (task_run l). unfold starts. rewrite count_app. fold (starts l).
  destruct e as [q|q]; cbn [task_event count].
  - assert (last_generation (stop q (task_run l)).2 = last_generation (task_run l)) as Hs by (unfold stop; by destruct (tasks _ !! q)).
    split; [cbn; lia|]. intros p. unfold start. cbn [tasks]. destruct (decide (p = q)) as [->|Hne].
    + rewrite lookup_insert_eq. exists l, []. split; [done|]. split; [set_solver|]. cbn. split; [lia|].
      by rewrite bool_decide_eq_false_2 by set_solver.
    + rewrite lookup_insert_ne by done. unfold stop.
      destruct (tasks (task_run l) !! q) as [t|] eqn:E; cbn [tasks snd]; rewrite ?lookup_insert_ne by done;
        (apply newest_other; [congruence|congruence|apply Ht]).
  - unfold stop. destruct (tasks (task_run l) !! q) as [t|] eqn:E; cbn [snd tasks last_generation].
    + split; [lia|]. intros p. destruct (decide (p = q)) as [->|Hne].
      * rewrite lookup_insert_eq. specialize (Ht q). rewrite E in Ht. destruct Ht as (l1 & l2 & -> & Hn & Hgen & _).
        exists l1, (l2 ++ [Stopped q]). rewrite <- app_assoc. split; [done|]. split; [set_solver|]. split; [done|].
        cbn. by rewrite bool_decide_eq_true_2 by set_solver.
      * rewrite lookup_insert_ne by done. apply newest_other; [congruence|congruence|apply Ht].
    + split; [lia|]. intros p. specialize (Ht p). destruct (decide (p = q)) as [->|Hne].
      * rewrite E in Ht |- *. cbn in *. set_solver.
      * apply newest_other; [congruence|congruence|apply Ht].
Qed.

(** The server takes a snapshot of a provider exactly when it never started a task for the
    provider, or when the snapshot is from the task that it started last and has not stopped since;
    the generations of different tasks differ, so no snapshot of an older task passes. *)
Theorem stale_snapshots_ignored l p g :
  accepts_snapshot p g (task_run l) = true
  <-> Started p ∉ l
      \/ exists l1 l2, l = l1 ++ Started p :: l2 /\ Started p ∉ l2 /\ Stopped p ∉ l2 /\ g = starts l1 + 1.
Proof.
  destruct (task_run_spec l) as [_ Ht]. specialize (Ht p). unfold accepts_snapshot.
  destruct (tasks (task_run l) !! p) as [t|]; cbn in *; [|by split; [left|]].
  destruct Ht as (l1 & l2 & Hl & Hn & Hg & Hh). rewrite Hh, Hg, andb_true_iff, negb_true_iff, bool_decide_eq_false, Z.eqb_eq.
  split.
  - intros [Hs <-]. right. by exists l1, l2.
  - intros [Hno|(m1 & m2 & Hm & Hn' & Hs & ->)]; [set_solver|].
    assert (l1 = m1 /\ l2 = m2) as [-> ->]; [|done]. rewrite Hl in Hm. clear -Hm Hn Hn'.
    revert m1 Hm. induction l1 as [|a l1 IH]; intros [|b m1] Hm; cbn in Hm; injection Hm.
    + by intros ->.
    + intros -> _. set_solver.
    + intros <- _. set_solver.
    + intros H ->. by destruct (IH m1 H) as [-> ->].
Qed.

(** ** Concrete inputs *)

Module DiscoveryExample.
#[local] Instance plain_sha : Sha256 := {| sha256 l := firstn 6 (rev l ++ [0; 0; 0; 0; 0; 0]) |}.
#[local] Existing Instance plain_hex.
Definition describe (e : Error) : string := "".
Definition valid (p : @Proxy string nat) : result unit Error := Ok tt.
(** The settings stand for the salt of the credentials. *)
#[local] Instance plain_sealer : @Sealer string nat := {|
  to_json p := proxy_name p;
  seal_new n p := Ok (mkProxy (active p) (proxy_name p) (ports p) (KUdp (mkUdpProxy [] n)));
|}.
Definition udp_port : PortEntry := mkPortEntry [1] "dns" (mkMultiaddr [Udp 53]).
Definition def (name : string) (ps : list string) : @DiscoveredProxy string nat :=
  mkDiscoveredProxy name (mkDiscoverySource Docker name)
    (mkProxyDefinition (String.append "udp." name) name ps true None (KUdp (mkUdpProxy [] 0%nat))).
Definition snapshot (ds : list (@DiscoveredProxy string nat)) : DiscoverySnapshot :=
  mkDiscoverySnapshot Docker 1 Running None (Some ds) [].
Definition started : @ServerState string nat :=
  mkServerState ∅ (start Docker (mkDiscoveryTasks ∅ 0)) [] [udp_port] [] 0.
Definition ds : list (@DiscoveredProxy string nat) := [def "app" ["dns"]; def "web" ["http"]; def "app" ["dns"]].
Definition after : option (@ServerState string nat) := set_discovery describe valid 10 5 (snapshot ds) started.
Definition built : option (@Built string nat) := build describe valid 10 Docker ds [udp_port] ∅.
Definition twin (i : ShortId) : @ProxyEntry string nat :=
  mkProxyEntry i (mkProxy true "app" [] (KUdp (mkUdpProxy [] 0%nat))) (Some (mkDiscoverySource Docker "app")).

Lemma every_definition_accounted_witness :
  exists b, built = Some b /\ length (b_entries b) = 1%nat /\ (length (b_entries b) + length (b_issues b) = 3)%nat.
Proof.
  destruct built as [b|] eqn:E; [|vm_compute in E; discriminate]. exists b. split; [done|].
  split; [revert E; vm_compute; by intros [= <-]|].
  exact (proj1 (every_definition_accounted describe valid 10 Docker ds [udp_port] ∅ b E)).
Defined.

Lemma snapshot_accounted_witness :
  exists s, after = Some s
    /\ exists r, discovery s !! Docker = Some r /\ (rec_added r + length (build_issues r) = 3)%nat.
Proof.
  destruct after as [s|] eqn:E; [|vm_compute in E; discriminate]. exists s. split; [done|].
  pose proof (snapshot_accounted describe valid 10 5 (snapshot ds) started s E) as H.
  change (accepts_snapshot _ _ _) with true in H. destruct H as [_ H]. destruct (H ds eq_refl) as (r & Hr & _ & _ & Hc).
  exists r. split; [exact Hr|exact Hc].
Defined.

Definition again : option (bool * @ServerState string nat) :=
  match after with Some s => apply_discovery describe valid 10 Docker s | None => None end.

Lemma refresh_stable_witness :
  exists s c s1 s2, after = Some s /\ apply_discovery describe valid 10 Docker s = Some (c, s1)
    /\ apply_discovery describe valid 10 Docker s1 = Some (false, s2) /\ proxies s2 = proxies s1.
Proof.
  destruct after as [s|] eqn:E; [|vm_compute in E; discriminate].
  assert (s = match after with Some x => x | None => s end) as Hs by (by rewrite E). vm_compute in Hs. subst s.
  match goal with |- exists s c s1 s2, Some ?s0 = Some s /\ _ =>
    destruct (apply_discovery describe valid 10 Docker s0) as [[c s1]|] eqn:Ha; [|vm_compute in Ha; discriminate];
    destruct (refresh_stable describe valid 10 Docker s0 c s1
      (match build describe (validate_discovered_proxy valid) 10 Docker (record_proxies Docker (discovery s0)) (port_list s0)
               (ids_not_owned_by Docker s0) with Some b => b | None => mkBuilt [] [] end)) as (s2 & H2 & Hp & _);
    [reflexivity|vm_compute; repeat constructor; set_solver|vm_compute; reflexivity|exact Ha|]
  end.
  eexists _, c, s1, s2. split; [reflexivity|]. split; [exact Ha|]. split; [exact H2|exact Hp].
Defined.

Lemma twin_definitions_reseal_witness :
  exists q0 q1 q2,
    map proxy (seal_entries (seal_all describe ∅ 0 [twin [1]; twin [2]])) = [q0; q1]
    /\ q0 <> q1 /\ q1 <> q2.
Proof.
  destruct (twin_definitions_reseal describe 0 (twin [1]) (twin [2])) as (q0 & q1 & q2 & H1 & _ & H3 & H4).
  - reflexivity.
  - intros m. eexists. reflexivity.
  - intros m m' q H H'. cbn in H, H'. congruence.
  - exists q0, q1, q2. split; [exact H1|]. split; [exact H3|exact H4].
Defined.
End DiscoveryExample.
