(* ===== verification/Discovery.v ===== *)
(** * Proxy definitions from labels and keys

    [discovery/labels.rs], [discovery/tree.rs], [discovery/kv.rs] and the groups of
    [discovery/mod.rs]: labels of the form [r3v3rs3.<protocol>.<name>.<field>] become a tree of
    texts for each proxy, the tree becomes a definition, and the instances of a resource add their
    servers to one proxy.  The derived serde readers of the proxy models, Base64 and the debug form
    of a text are parameters. *)

From Stdlib Require Import Ascii.
From S2P Require Import Prelude Basics IpText Net Policy ProxyList DiscoveryServer.

(** ** Ordered maps *)

Section OrderedMap.
Context {K V : Type} `{!EqDecision K} (ltb : K -> K -> bool).

Fixpoint om_get (k : K) (m : list (K * V)) : option V :=
  match m with
  | [] => None
  | (k', v) :: m => if decide (k' = k) then Some v else om_get k m
  end.

Fixpoint om_replace (k : K) (v : V) (m : list (K * V)) : list (K * V) :=
  match m with
  | [] => []
  | (k', v') :: m => if decide (k' = k) then (k', v) :: m else (k', v') :: om_replace k v m
  end.

Fixpoint om_add (k : K) (v : V) (m : list (K * V)) : list (K * V) :=
  match m with
  | [] => [(k, v)]
  | (k', v') :: r => if ltb k k' then (k, v) :: m else (k', v') :: om_add k v r
  end.

(** A [BTreeMap] is the list of its entries in the order of the keys. *)
Definition om_set (k : K) (v : V) (m : list (K * V)) : list (K * V) :=
  match om_get k m with Some _ => om_replace k v m | None => om_add k v m end.

Fixpoint om_remove (k : K) (m : list (K * V)) : list (K * V) :=
  match m with
  | [] => []
  | (k', v) :: m => if decide (k' = k) then om_remove k m else (k', v) :: om_remove k m
  end.

Ltac cases_keys := repeat (case_decide; cbn; simplify_eq).

Lemma om_get_replace k v m k' :
  om_get k' (om_replace k v m) = if decide (k' = k) then option_map (fun _ => v) (om_get k m) else om_get k' m.
Proof. induction m as [|[k0 v0] m IH]; cbn; [by case_decide|]. cases_keys; rewrite ?IH; cases_keys; done. Qed.

Lemma om_get_add k v m k' : om_get k m = None -> om_get k' (om_add k v m) = if decide (k' = k) then Some v else om_get k' m.
Proof.
  induction m as [|[k0 v0] m IH]; cbn; [intros _; cases_keys; done|].
  destruct (decide (k0 = k)); [done|]. intros Hn. destruct (ltb k k0); cbn; cases_keys; rewrite ?(IH Hn); cases_keys; done.
Qed.

Lemma om_get_set k v m k' : om_get k' (om_set k v m) = if decide (k' = k) then Some v else om_get k' m.
Proof.
  unfold om_set. destruct (om_get k m) eqn:E; [|by apply om_get_add].
  rewrite om_get_replace. by rewrite E.
Qed.

Lemma om_set_same k v m : om_get k m = Some v -> om_set k v m = m.
Proof.
  unfold om_set. intros H. rewrite H. induction m as [|[k0 v0] m IH]; [done|]. cbn in *.
  destruct (decide (k0 = k)); [congruence|]. by rewrite IH.
Qed.

Lemma om_get_remove k m k' : om_get k' (om_remove k m) = if decide (k' = k) then None else om_get k' m.
Proof. induction m as [|[k0 v0] m IH]; cbn; [by case_decide|]. cases_keys; rewrite ?IH; cases_keys; done. Qed.

End OrderedMap.

(** ** The tree *)

Inductive Node : Type :=
| Leaf (s : string)
| Map (m : list (string * Node)).

Definition Node_default : Node := Map [].

Fixpoint node_insert (path : list string) (value : string) (n : Node) : bool * Node :=
  match n with
  | Leaf _ => (false, n)
  | Map m =>
      match path with
      | [] => (false, n)
      | key :: rest =>
          match rest with
          | [] =>
              match om_get key m with
              | None => (true, Map (om_set String.ltb key (Leaf value) m))
              | Some _ => (false, n)
              end
          | _ :: _ =>
              let '(b, child) := node_insert rest value (unwrap_or (om_get key m) Node_default) in
              (b, Map (om_set String.ltb key child m))
          end
      end
  end.

Definition node_remove (key : string) (n : Node) : option Node * Node :=
  match n with Map m => (om_get key m, Map (om_remove key m)) | Leaf _ => (None, n) end.

Definition node_contains (key : string) (n : Node) : bool :=
  match n with Map m => is_some (om_get key m) | Leaf _ => false end.

(** ** Reading simple values *)

Section Reading.
Context (debug_text : string -> string) (describe : Error -> string).

Definition read_text (n : Node) : result string string :=
  match n with Leaf t => Ok t | Map _ => Err "expected a value, found a group of keys" end.

Definition read_parsed {A} (parse : string -> option A) (expected : string) (n : Node) : result A string :=
  let? text := read_text n in
  match parse (trim text) with
  | Some a => Ok a
  | None => Err (String.append "expected " (String.append expected (String.append ", found " (debug_text text))))
  end.

Definition parse_bool (s : string) : option bool :=
  if String.eqb s "true" then Some true else if String.eqb s "false" then Some false else None.

Definition read_bool : Node -> result bool string := read_parsed parse_bool "true or false".
Definition read_u16 : Node -> result Z string := read_parsed (parse_uint u16_max) "a number".

Definition read_short_id `{HEX : Hex} (n : Node) : result ShortId string :=
  let? text := read_text n in map_err describe (ShortId_from_str text).

(** The items of a list: a text lists them with commas, a group with the keys 0, 1, 2 and so on. *)
Definition items (n : Node) : result (list (string * Node)) string :=
  match n with
  | Leaf text =>
      let texts := List.filter (fun item => negb (str_is_empty item)) (map trim (split_on "," text)) in
      Ok (imap (fun i item => (dec (Z.of_nat i), Leaf item)) texts)
  | Map m =>
      match mapM (fun '(k, n) => option_map (fun i => (i, (k, n))) (parse_uint u64_max k)) m with
      | None => Err "expected a list with the keys 0, 1, 2 and so on"
      | Some indexed => Ok (map snd (sort_by (fun a b => a.1 <=? b.1) indexed))
      end
  end.

Fixpoint read_texts (l : list (string * Node)) : result (list string) string :=
  match l with
  | [] => Ok []
  | (k, n) :: l =>
      let? t := map_err (fun e => String.append k (String.append ": " e)) (read_text n) in
      let? ts := read_texts l in
      Ok (t :: ts)
  end.

Definition read_strings (n : Node) : result (list string) string := let? l := items n in read_texts l.

(** [take]: removes the key and reads its value. *)
Definition take_key {A} (read : Node -> result A string) (key : string) (n : Node) : result (option A) string * Node :=
  match node_remove key n with
  | (None, n) => (Ok None, n)
  | (Some value, n) =>
      (let? a := map_err (fun e => String.append key (String.append ": " e)) (read value) in Ok (Some a), n)
  end.

(** ** The ports of the resource *)

Record Upstream : Type := mkUpstream { host : option string; up_port : option Z }.

Definition url_host (h : string) : string :=
  match parse_ip h with
  | Some (V6 b) => String.append "[" (String.append (ipv6_to_string b) "]")
  | _ => h
  end.

(** The state is the tree; an error ends the whole definition. *)
Definition take_upstream_url (n : Node) (h : option string) (default_port : option Z) : result (option string) string * Node :=
  let '(scheme, n) := take_key read_text "scheme" n in
  match scheme with
  | Err e => (Err e, n)
  | Ok scheme =>
      let '(port, n) := take_key read_u16 "port" n in
      match port with
      | Err e => (Err e, n)
      | Ok port =>
          match (match port with Some p => Some p | None => default_port end) with
          | None => (match scheme with Some _ => Err "scheme needs port" | None => Ok None end, n)
          | Some port =>
              match h with
              | None => (Err "port needs the address of the resource", n)
              | Some h =>
                  (Ok (Some (String.append (unwrap_or scheme "http")
                               (String.append "://" (String.append (url_host h) (String.append ":" (dec port)))))), n)
              end
          end
      end
  end.

(** One turn of the loop over the routes. *)
Definition expand_route (up : Upstream) (route : Node) : result Node string :=
  let has_target := node_contains "servers" route || node_contains "response" route in
  let default_port := if has_target then None else up_port up in
  match take_upstream_url route (host up) default_port with
  | (Err e, _) => Err e
  | (Ok None, route) => Ok route
  | (Ok (Some url), route) =>
      if has_target then Err "port cannot be used together with servers or response"
      else Ok (node_insert ["servers"; "0"; "url"] url route).2
  end.

Fixpoint expand_routes (up : Upstream) (m : list (string * Node)) : result (list (string * Node)) string :=
  match m with
  | [] => Ok []
  | (k, route) :: m =>
      let? route := expand_route up route in
      let? m := expand_routes up m in
      Ok ((k, route) :: m)
  end.

Definition expand_http_ports (n : Node) (up : Upstream) : result Node string :=
  let has_routes := node_contains "routes" n in
  let default_port := if has_routes then None else up_port up in
  match take_upstream_url n (host up) default_port with
  | (Err e, _) => Err e
  | (Ok url, n) =>
      let? n := match url with
                | None => Ok n
                | Some url =>
                    if has_routes then Err "port cannot be used together with routes"
                    else Ok (node_insert ["routes"; "0"; "servers"; "0"; "url"] url n).2
                end in
      match n with
      | Leaf _ => Ok n
      | Map m =>
          match om_get "routes" m with
          | Some (Map rs) => let? rs := expand_routes up rs in Ok (Map (om_set String.ltb "routes" (Map rs) m))
          | _ => Ok n
          end
      end
  end.

Definition stream_addr (h transport : string) (port : Z) : string :=
  let family := match parse_ip h with Some (V4 _) => "ip4" | Some (V6 _) => "ip6" | None => "dns" end in
  String.append "/" (String.append family (String.append "/" (String.append h
    (String.append "/" (String.append transport (String.append "/" (dec port))))))).

Definition expand_stream_port (n : Node) (up : Upstream) (transport : string) : result Node string :=
  let has_servers := node_contains "upstream_servers" n in
  let default_port := if has_servers then None else up_port up in
  let '(port, n) := take_key read_u16 "port" n in
  let? port := port in
  match (match port with Some p => Some p | None => default_port end) with
  | None => Ok n
  | Some port =>
      if has_servers then Err "port cannot be used together with upstream_servers"
      else match host up with
           | None => Err "port needs the address of the resource"
           | Some h => Ok (node_insert ["upstream_servers"; "0"; "addr"] (stream_addr h transport port) n).2
           end
  end.

End Reading.

(** ** Labels *)

Inductive Protocol : Type := PHttp | PTcp | PUdp.

#[export] Instance Protocol_eq_dec : EqDecision Protocol.
Proof. solve_decision. Defined.

Definition Protocol_from_str (s : string) : option Protocol :=
  if String.eqb s "http" then Some PHttp
  else if String.eqb s "tcp" then Some PTcp
  else if String.eqb s "udp" then Some PUdp
  else None.

Definition Protocol_to_string (p : Protocol) : string :=
  match p with PHttp => "http" | PTcp => "tcp" | PUdp => "udp" end.

Definition Protocol_rank (p : Protocol) : nat := match p with PHttp => 0 | PTcp => 1 | PUdp => 2 end.

Definition PREFIX : string := "r3v3rs3".
Definition ENABLE : string := "r3v3rs3.enable".

Definition is_definition (key : string) : bool :=
  is_some_and (fun rest => starts_with "." rest) (strip_prefix PREFIX key) && negb (String.eqb key ENABLE).

Definition enabled (labels : list (string * string)) : option bool :=
  option_map (fun kv => eq_ignore_ascii_case (trim kv.2) "true") (List.find (fun kv => String.eqb kv.1 ENABLE) labels).

Definition selects (labels : list (string * string)) (exposed_by_default : bool) : bool :=
  existsb (fun kv => is_definition kv.1) labels && unwrap_or (enabled labels) exposed_by_default.

(** The groups of [parse_at] in the order of their keys: the protocol, then the name. *)
Notation Groups := (list ((Protocol * string) * Node)).

Definition group_ltb (a b : Protocol * string) : bool :=
  Nat.ltb (Protocol_rank a.1) (Protocol_rank b.1)
  || Nat.eqb (Protocol_rank a.1) (Protocol_rank b.1) && String.ltb a.2 b.2.

(** Where a label belongs: nowhere, or to a proxy with the path of a field, or an error. *)
Inductive Place : Type :=
| NoPlace
| Unknown
| At (p : Protocol) (name : string) (path : list string).

Definition place_of (key : string) : Place :=
  match strip_prefix PREFIX key with
  | Some (String "." rest) =>
      if String.eqb key ENABLE then NoPlace
      else match split_on "." rest with
           | protocol :: parts =>
               match Protocol_from_str protocol, parts with
               | Some p, name :: path =>
                   if str_is_empty name then Unknown
                   else if match path with [] => true | _ => false end || existsb str_is_empty path then Unknown
                   else At p name path
               | _, _ => Unknown
               end
           | [] => Unknown
           end
  | _ => NoPlace
  end.

Definition add_label (groups : Groups) (key value : string) : result unit string * Groups :=
  match place_of key with
  | NoPlace => (Ok tt, groups)
  | Unknown => (Err (String.append "unknown label: " key), groups)
  | At p name path =>
      let '(b, node) := node_insert path value (unwrap_or (om_get (p, name) groups) Node_default) in
      (if b then Ok tt else Err (String.append "label conflicts with another label: " key),
       om_set group_ltb (p, name) node groups)
  end.

(** One turn of the loop over the labels. *)
Definition label_step (acc : list string * Groups) (kv : string * string) : list string * Groups :=
  let '(issues, groups) := acc in
  match add_label groups kv.1 kv.2 with
  | (Ok _, groups) => (issues, groups)
  | (Err issue, groups) => (issues ++ [issue], groups)
  end.

Definition add_labels (labels : list (string * string)) : list string * Groups := fold_left label_step labels ([], []).

Section Parsing.
Context {Server Settings : Type} `{HEX : Hex}.
Context (debug_text : string -> string) (describe : Error -> string).
Notation ProxyKind := (@ProxyKind Server Settings).
Notation ProxyDefinition := (@ProxyDefinition Server Settings).

(** [read::<HttpProxy>], [read::<TcpProxy>] and [read::<UdpProxy>]: the derived readers. *)
Context (read_http : Node -> result (@HttpProxy Server Settings) string)
        (read_tcp : Node -> result (@TcpProxy Server Settings) string)
        (read_udp : Node -> result (@UdpProxy Server Settings) string).

Definition no_client_cert (k : ProxyKind) : result ProxyKind string :=
  if is_some (client_cert k) then Err "a discovery source may not choose a client certificate" else Ok k.

Definition proxy_kind (p : Protocol) (n : Node) (up : Upstream) : result ProxyKind string :=
  match p with
  | PHttp => let? n := expand_http_ports debug_text n up in let? k := read_http n in no_client_cert (KHttp k)
  | PTcp => let? n := expand_stream_port debug_text n up "tcp" in let? k := read_tcp n in no_client_cert (KTcp k)
  | PUdp => let? n := expand_stream_port debug_text n up "udp" in let? k := read_udp n in Ok (KUdp k)
  end.

Definition definition (p : Protocol) (name : string) (n : Node) (up : Upstream) : result ProxyDefinition string :=
  let '(ports, n) := take_key read_strings "ports" n in
  let? ports := ports in
  let ports := unwrap_or ports [] in
  if match ports with [] => true | _ => false end then Err "ports is required"
  else
    let '(active, n) := take_key (read_bool debug_text) "active" n in
    let? active := active in
    let '(display_name, n) := take_key read_text "name" n in
    let? display_name := display_name in
    let '(acme, n) := take_key (read_short_id describe) "acme" n in
    let? acme := acme in
    if is_some acme && negb (bool_decide (p = PHttp)) then Err "acme is available only for HTTP proxies"
    else
      let? k := proxy_kind p n up in
      Ok (mkProxyDefinition (String.append (Protocol_to_string p) (String.append "." name)) (unwrap_or display_name name) ports
            (unwrap_or active true) acme k).

Record Parsed : Type := mkParsed { definitions : list ProxyDefinition; issues : list string }.

(** One turn of the loop over the groups. *)
Definition parse_group (up : Upstream) (acc : Parsed) (g : (Protocol * string) * Node) : Parsed :=
  let '((p, name), n) := g in
  match definition p name n up with
  | Ok d => mkParsed (definitions acc ++ [d]) (issues acc)
  | Err issue =>
      mkParsed (definitions acc)
        (issues acc ++ [String.append (Protocol_to_string p) (String.append "." (String.append name (String.append ": " issue)))])
  end.

Definition parse_at (labels : list (string * string)) (up : Upstream) : Parsed :=
  let '(issues, groups) := add_labels labels in fold_left (parse_group up) groups (mkParsed [] issues).

Definition parse (labels : list (string * string)) (h : option string) : Parsed := parse_at labels (mkUpstream h None).

(** ** The proxies of one read *)

Record ProxyGroups : Type := mkProxyGroups {
  pg_provider : DiscoveryProvider;
  pg_proxies : list (string * @DiscoveredProxy Server Settings);
}.

(** [zip] ends with the shorter list; the guard makes the lists equally long. *)
Fixpoint append_routes (target other : list (@Route Server Settings)) : list Route :=
  match target, other with
  | t :: target, o :: other => mkRoute (servers t ++ servers o) (route_settings t) :: append_routes target other
  | _, _ => target
  end.

Definition append_servers (target other : ProxyKind) : result ProxyKind string :=
  match target, other with
  | KHttp t, KHttp o =>
      if Nat.eqb (length (routes t)) (length (routes o)) then
        Ok (KHttp (mkHttpProxy (append_routes (routes t) (routes o)) (maintenance t) (http_client_cert t) (http_settings t)))
      else Err "the instances define the proxy with different routes"
  | KTcp t, KTcp o => Ok (KTcp (mkTcpProxy (tcp_servers t ++ tcp_servers o) (tcp_client_cert t) (tcp_settings t)))
  | KUdp t, KUdp o => Ok (KUdp (mkUdpProxy (udp_servers t ++ udp_servers o) (udp_settings t)))
  | _, _ => Err "the instances define the proxy with different routes"
  end.

Fixpoint split_comma_space (s : string) : list string :=
  match s with
  | EmptyString => [EmptyString]
  | String c r =>
      match r with
      | String " " r' => if Ascii.eqb c "," then EmptyString :: split_comma_space r'
                         else match split_comma_space r with x :: l => String c x :: l | [] => [String c EmptyString] end
      | _ => match split_comma_space r with x :: l => String c x :: l | [] => [String c EmptyString] end
      end
  end.

Definition with_kind (k : ProxyKind) (d : ProxyDefinition) : ProxyDefinition :=
  mkProxyDefinition (def_key d) (def_name d) (def_ports d) (def_active d) (def_acme d) k.

Definition groups_add (group res : string) (d : ProxyDefinition) (g : ProxyGroups) : result unit string * ProxyGroups :=
  let key := String.append group (String.append "/" (def_key d)) in
  let put x := mkProxyGroups (pg_provider g) (om_set String.ltb key x (pg_proxies g)) in
  match om_get key (pg_proxies g) with
  | None => (Ok tt, put (mkDiscoveredProxy key (mkDiscoverySource (pg_provider g) res) d))
  | Some old =>
      match append_servers (def_kind (dp_definition old)) (def_kind d) with
      | Err message => (Err (String.append (def_key d) (String.append ": " message)), g)
      | Ok k =>
          let source := resource (dp_source old) in
          let source := if existsb (String.eqb res) (split_comma_space source) then source
                        else String.append source (String.append ", " res) in
          (Ok tt, put (mkDiscoveredProxy (dp_key old) (mkDiscoverySource (provider (dp_source old)) source)
                         (with_kind k (dp_definition old))))
      end
  end.

Definition into_proxies (g : ProxyGroups) : list (@DiscoveredProxy Server Settings) := map snd (pg_proxies g).

(** [Built::issue]: the same issue of more than one instance is added once. *)
Definition built_issue (resource message : string) (l : list DiscoveryIssue) : list DiscoveryIssue :=
  if existsb (fun i => String.eqb (issue_resource i) resource && String.eqb (issue_message i) message) l then l
  else l ++ [mkDiscoveryIssue resource message].

Definition add_parsed (group res : string) (parsed : Parsed) (acc : list DiscoveryIssue * ProxyGroups)
  : list DiscoveryIssue * ProxyGroups :=
  let '(l, g) := acc in
  let l := fold_left (fun l m => built_issue res m l) (issues parsed) l in
  fold_left (fun '(l, g) d =>
               match groups_add group res d g with
               | (Ok _, g) => (l, g)
               | (Err m, g) => (built_issue res m l, g)
               end) (definitions parsed) (l, g).

End Parsing.

(** ** Key-value stores *)

(** [BASE64_STANDARD.decode]. *)
Class Base64 : Type := { base64_decode : string -> option (list Z) }.

Record KvEntry : Type := mkKvEntry { kv_key : string; kv_value : option string }.

Section Kv.
Context `{B64 : Base64}.

(** [str::replace] of one character. *)
Definition replace_char (a b : ascii) (s : string) : string :=
  String.string_of_list_ascii (map (fun c => if Ascii.eqb c a then b else c) (String.list_ascii_of_string s)).

Definition kv_label (e : KvEntry) (prefix : string) : result (option (string * string)) string :=
  match strip_prefix prefix (kv_key e), kv_value e with
  | Some (String "/" rest), Some value =>
      if str_is_empty rest || ends_with "/" rest then Ok None
      else if existsb (fun part => str_is_empty part || str_contains_char part ".") (split_on "/" rest) then
        Err (String.append "invalid key: " (kv_key e))
      else match base64_decode value with
           | Some bytes =>
               if utf8_valid bytes then
                 Ok (Some (String.append PREFIX (String.append "." (replace_char "/" "." rest)), string_of_bytes bytes))
               else Err (String.append "the value is not UTF-8 text: " (kv_key e))
           | None => Err (String.append "the value is not UTF-8 text: " (kv_key e))
           end
  | _, _ => Ok None
  end.

End Kv.

Section AddKv.
Context {Server Settings : Type} `{HEX : Hex} `{B64 : Base64}.
Context (debug_text : string -> string) (describe : Error -> string).
Context (read_http : Node -> result (@HttpProxy Server Settings) string)
        (read_tcp : Node -> result (@TcpProxy Server Settings) string)
        (read_udp : Node -> result (@UdpProxy Server Settings) string).

(** [add_kv]. *)
Definition add_kv (entries : list KvEntry) (prefix : string) (acc : list DiscoveryIssue * @ProxyGroups Server Settings)
  : list DiscoveryIssue * ProxyGroups :=
  let '(pairs, l) :=
    fold_left (fun '(pairs, l) e =>
                 match kv_label e prefix with
                 | Ok (Some kv) => (pairs ++ [kv], l)
                 | Ok None => (pairs, l)
                 | Err m => (pairs, built_issue prefix m l)
                 end) entries ([], acc.1) in
  let parsed := parse debug_text describe read_http read_tcp read_udp pairs None in
  let l := fold_left (fun l m => built_issue prefix m l) (issues parsed) l in
  fold_left (fun '(l, g) d =>
               let res := String.append prefix (String.append "/" (replace_char "." "/" (def_key d))) in
               match groups_add "kv" res d g with
               | (Ok _, g) => (l, g)
               | (Err m, g) => (built_issue prefix m l, g)
               end) (definitions parsed) (l, acc.2).

End AddKv.

(** ** The tree keeps every value at its path *)

Fixpoint node_at (path : list string) (n : Node) : option Node :=
  match path with
  | [] => Some n
  | key :: rest =>
      match n with
      | Map m => match om_get key m with Some c => node_at rest c | None => None end
      | Leaf _ => None
      end
  end.

Definition leaf_at (path : list string) (n : Node) : option string :=
  match node_at path n with Some (Leaf s) => Some s | _ => None end.

Lemma node_at_default path : path <> [] -> node_at path Node_default = None.
Proof. by destruct path. Qed.

Lemma leaf_at_cons key rest m :
  leaf_at (key :: rest) (Map m) = match om_get key m with Some c => leaf_at rest c | None => None end.
Proof. unfold leaf_at. cbn. by destruct (om_get key m). Qed.

(** A value or a group stands in the way of the path. *)
Definition in_the_way (path : list string) (n : Node) : Prop :=
  is_Some (node_at path n) \/ exists q s, q `prefix_of` path /\ leaf_at q n = Some s.

Lemma in_the_way_leaf path s : in_the_way path (Leaf s).
Proof. right. exists [], s. split; [apply prefix_nil|done]. Qed.

Lemma in_the_way_cons key rest m :
  in_the_way (key :: rest) (Map m) <-> exists c, om_get key m = Some c /\ in_the_way rest c.
Proof.
  unfold in_the_way. cbn [node_at]. split.
  - intros [H|(q & s & Hq & Hs)].
    + destruct (om_get key m) as [c|]; [|by destruct H]. exists c. split; [done|by left].
    + destruct q as [|k q]; [done|]. apply prefix_cons_inv_1 in Hq as Hk. subst k. apply prefix_cons_inv_2 in Hq.
      rewrite leaf_at_cons in Hs. destruct (om_get key m) as [c|]; [|done]. exists c. split; [done|]. right. by exists q, s.
  - intros (c & Hc & [H|(q & s & Hq & Hs)]); [left; by rewrite Hc|]. right. exists (key :: q), s. split; [by apply prefix_cons|].
    by rewrite leaf_at_cons, Hc.
Qed.

Lemma default_free path : path <> [] -> ~ in_the_way path Node_default.
Proof.
  intros Hp [H|([|k q] & s & Hq & Hs)]; [rewrite node_at_default in H by done; by destruct H|done|].
  unfold Node_default in Hs. by rewrite leaf_at_cons in Hs.
Qed.

Lemma insert_blocked path v n : in_the_way path n <-> (node_insert path v n).1 = false.
Proof.
  revert n. induction path as [|key rest IH]; intros [s|m]; cbn [node_insert fst].
  - split; [done|]. intros _. left. by eexists.
  - split; [done|]. intros _. left. by eexists.
  - split; [done|intros _; apply in_the_way_leaf].
  - rewrite in_the_way_cons. destruct rest as [|k rest].
    + destruct (om_get key m) as [c|]; cbn; [|by split; [intros (? & ? & _)|]].
      split; [done|]. intros _. exists c. split; [done|]. left. by eexists.
    + specialize (IH (unwrap_or (om_get key m) Node_default)).
      destruct (node_insert (k :: rest) v _) as [b child]. cbn [fst] in *. rewrite <- IH.
      destruct (om_get key m) as [c|]; cbn [unwrap_or].
      * split; [by intros (? & [= ->] & ?)|eauto].
      * split; [by intros (? & ? & _)|]. intros H. by apply default_free in H.
Qed.

Lemma insert_failed path v n n' : node_insert path v n = (false, n') -> n' = n.
Proof.
  revert n n'. induction path as [|key rest IH]; intros [s|m] n'; cbn [node_insert]; try (by intros [= <-]).
  destruct rest as [|k rest]; [destruct (om_get key m); by intros [= <-]|].
  destruct (node_insert (k :: rest) v _) as [b child] eqn:E. intros [= -> <-].
  destruct (om_get key m) as [c|] eqn:Hc; cbn [unwrap_or] in E.
  - apply IH in E as ->. f_equal. by apply om_set_same.
  - assert (in_the_way (k :: rest) Node_default) as H by (apply (insert_blocked _ v); by rewrite E).
    by apply default_free in H.
Qed.

Lemma insert_done path v n n' q :
  node_insert path v n = (true, n') -> leaf_at q n' = if decide (q = path) then Some v else leaf_at q n.
Proof.
  revert n n' q. induction path as [|key rest IH]; intros [s|m] n' q; cbn [node_insert]; try done.
  destruct rest as [|k rest].
  - destruct (om_get key m) as [c|] eqn:Hc; [done|]. intros [= <-]. destruct q as [|k0 q]; [done|].
    rewrite !leaf_at_cons, om_get_set. destruct (decide (k0 = key)) as [->|?]; [|by rewrite decide_False by congruence].
    rewrite Hc. destruct q as [|k1 q]; [by rewrite decide_True|]. by rewrite decide_False.
  - destruct (node_insert (k :: rest) v _) as [b child] eqn:E. intros [= -> <-]. destruct q as [|k0 q]; [done|].
    rewrite !leaf_at_cons, om_get_set. destruct (decide (k0 = key)) as [->|?]; [|by rewrite decide_False by congruence].
    rewrite (IH _ _ q E). destruct (om_get key m) as [c|]; cbn [unwrap_or].
    + repeat case_decide; simplify_eq; done.
    + assert (leaf_at q Node_default = None) as -> by (by destruct q). repeat case_decide; simplify_eq; done.
Qed.

(** Inserting a value into the tree fails exactly when a value or a group is at its path or a value
    is on the way there; a failed insertion changes nothing, and a successful one adds the value at
    its path and changes no other value. *)
Theorem tree_insert_exact path v n b n' :
  node_insert path v n = (b, n') ->
  (b = false <-> in_the_way path n)
  /\ (b = false -> n' = n)
  /\ (b = true -> forall q, leaf_at q n' = if decide (q = path) then Some v else leaf_at q n).
Proof.
  intros H. split; [|split].
  - rewrite (insert_blocked path v n), H. done.
  - intros ->. by eapply insert_failed.
  - intros -> q. by eapply insert_done.
Qed.

Lemma tree_insert_exact_witness :
  exists n', node_insert ["routes"; "0"; "path"] "/api" (Map [("ports", Leaf "http")]) = (true, n')
    /\ leaf_at ["routes"; "0"; "path"] n' = Some "/api" /\ leaf_at ["ports"] n' = Some "http".
Proof.
  eexists. split; [reflexivity|].
  edestruct (tree_insert_exact ["routes"; "0"; "path"] "/api" (Map [("ports", Leaf "http")])) as (_ & _ & H); [reflexivity|].
  split; rewrite (H eq_refl); reflexivity.
Defined.

(** ** Labels of one proxy *)

Section OrderedMapKeys.
Context {K V : Type} `{!EqDecision K} (ltb : K -> K -> bool).

Lemma om_replace_keys (k : K) (v : V) m : map fst (om_replace k v m) = map fst m.
Proof. induction m as [|[k0 v0] m IH]; cbn; [done|]. case_decide; cbn; by rewrite ?IH. Qed.

Lemma om_add_keys (k : K) (v : V) m : map fst (om_add ltb k v m) ≡ₚ k :: map fst m.
Proof. induction m as [|[k0 v0] m IH]; cbn; [done|]. destruct (ltb k k0); cbn; [done|]. rewrite IH. apply perm_swap. Qed.

Lemma om_get_none (k : K) (m : list (K * V)) : om_get k m = None -> k ∉ map fst m.
Proof.
  induction m as [|[k0 v0] m IH]; cbn; [intros _; apply not_elem_of_nil|]. case_decide; [done|].
  intros Hm%IH. apply not_elem_of_cons. split; [congruence|done].
Qed.

Lemma om_set_nodup (k : K) (v : V) m : NoDup (map fst m) -> NoDup (map fst (om_set ltb k v m)).
Proof.
  intros H. unfold om_set. destruct (om_get k m) eqn:E; [by rewrite om_replace_keys|].
  rewrite om_add_keys. constructor; [by apply om_get_none|done].
Qed.

Lemma om_get_in (k : K) (v : V) m : NoDup (map fst m) -> (k, v) ∈ m <-> om_get k m = Some v.
Proof.
  induction m as [|[k0 v0] m IH]; cbn; [intros _; split; [by intros ?%elem_of_nil|done]|].
  intros [Hk Hn]%NoDup_cons. rewrite elem_of_cons. case_decide as Hd.
  - subst k0. split; [|intros [= <-]; by left]. intros [[= <-]|Hin]; [done|]. exfalso. apply Hk.
    apply list_elem_of_fmap. by exists (k, v).
  - rewrite (IH Hn). split; [intros [[= <- _]|?]; done|by right].
Qed.

End OrderedMapKeys.

(** The labels that name the proxy [g]. *)
Definition own (g : Protocol * string) (kv : string * string) : bool :=
  match place_of kv.1 with At p name _ => bool_decide ((p, name) = g) | _ => false end.

Lemma label_step_get g acc kv :
  om_get g (label_step acc kv).2
  = match place_of kv.1 with
    | At p name path =>
        if decide (g = (p, name)) then Some (node_insert path kv.2 (unwrap_or (om_get g acc.2) Node_default)).2 else om_get g acc.2
    | _ => om_get g acc.2
    end.
Proof.
  destruct acc as [l groups]. unfold label_step, add_label. cbn [snd].
  destruct (place_of kv.1) as [| |p name path]; [done|done|].
  destruct (decide (g = (p, name))) as [->|Hne].
  - destruct (node_insert path kv.2 _) as [[] n]; cbn [snd]; by rewrite om_get_set, decide_True.
  - destruct (node_insert path kv.2 _) as [[] n]; cbn [snd]; by rewrite om_get_set, decide_False.
Qed.

Lemma labels_own g labels acc acc' :
  om_get g acc.2 = om_get g acc'.2 ->
  om_get g (fold_left label_step labels acc).2 = om_get g (fold_left label_step (List.filter (own g) labels) acc').2.
Proof.
  revert acc acc'. induction labels as [|kv labels IH]; intros acc acc' H; cbn [fold_left List.filter]; [done|].
  assert (own g kv = match place_of kv.1 with At p name _ => bool_decide ((p, name) = g) | _ => false end) as Ho by done.
  pose proof (label_step_get g acc kv) as Hl. pose proof (label_step_get g acc' kv) as Hl'.
  destruct (own g kv) eqn:E; cbn [fold_left]; apply IH; rewrite Hl, ?Hl'; clear Hl Hl';
    destruct (place_of kv.1) as [| |p name path]; try done.
  - by rewrite H.
  - symmetry in Ho. apply bool_decide_eq_false in Ho. by rewrite decide_False by congruence.
Qed.

Lemma labels_nodup labels acc : NoDup (map fst acc.2) -> NoDup (map fst (fold_left label_step labels acc).2).
Proof.
  revert acc. induction labels as [|kv labels IH]; intros acc H; [done|]. cbn [fold_left]. apply IH.
  destruct acc as [l groups]. unfold label_step, add_label. destruct (place_of kv.1) as [| |p name path]; [done|done|].
  destruct (node_insert _ _ _) as [[] n]; by apply om_set_nodup.
Qed.

Section Isolation.
Context {Server Settings : Type} `{HEX : Hex}.
Context (debug_text : string -> string) (describe : Error -> string).
Context (read_http : Node -> result (@HttpProxy Server Settings) string)
        (read_tcp : Node -> result (@TcpProxy Server Settings) string)
        (read_udp : Node -> result (@UdpProxy Server Settings) string).
Notation definition := (definition debug_text describe read_http read_tcp read_udp).
Notation parse_at := (parse_at debug_text describe read_http read_tcp read_udp).

Lemma parse_groups_definitions up d gs acc :
  d ∈ definitions (fold_left (parse_group debug_text describe read_http read_tcp read_udp up) gs acc)
  <-> d ∈ definitions acc \/ exists p name n, ((p, name), n) ∈ gs /\ definition p name n up = Ok d.
Proof.
  revert acc. induction gs as [|[[p name] n] gs IH]; intros acc; cbn [fold_left].
  - split; [by left|]. by intros [?|(? & ? & ? & ?%elem_of_nil & _)].
  - rewrite IH. cbn [parse_group]. destruct (definition p name n up) as [d'|e] eqn:E; cbn [definitions].
    + rewrite elem_of_app, list_elem_of_singleton. split.
      * intros [[?| ->]|(p' & name' & n' & ? & ?)]; [by left| |]; right; [exists p, name, n|exists p', name', n'].
        -- split; [by left|done].
        -- split; [by right|done].
      * intros [?|(p' & name' & n' & [[= -> -> ->]|?]%elem_of_cons & ?)]; [by do 2 left| |].
        -- left. right. congruence.
        -- right. by exists p', name', n'.
    + split.
      * intros [?|(p' & name' & n' & ? & ?)]; [by left|]. right. exists p', name', n'. split; [by right|done].
      * intros [?|(p' & name' & n' & [[= -> -> ->]|?]%elem_of_cons & ?)]; [by left|congruence|]. right. by exists p', name', n'.
Qed.

(** A proxy is read from its own labels alone: the definitions of a set of labels are exactly the
    ones that the labels of each single proxy, taken by themselves, define.  So no label of one proxy
    can change, add to or break another proxy of the same resource. *)
Theorem proxies_isolated labels up d :
  d ∈ definitions (parse_at labels up)
  <-> exists p name n,
       om_get (p, name) (add_labels (List.filter (own (p, name)) labels)).2 = Some n /\ definition p name n up = Ok d.
Proof.
  unfold parse_at, add_labels.
  assert (NoDup (map fst (fold_left label_step labels ([], [])).2)) as Hn by (apply labels_nodup; constructor).
  pose proof (fun g => labels_own g labels ([], []) ([], []) eq_refl) as Hg.
  destruct (fold_left label_step labels ([], [])) as [issues groups] eqn:E. cbn [snd] in Hn, Hg.
  rewrite parse_groups_definitions. cbn [definitions]. split.
  - intros [?%elem_of_nil|(p & name & n & Hin & Hd)]; [done|]. exists p, name, n. split; [|done].
    rewrite <- Hg. by apply (om_get_in _ _ _ Hn).
  - intros (p & name & n & Hget & Hd). right. exists p, name, n. split; [|done].
    apply (om_get_in _ _ _ Hn). by rewrite Hg.
Qed.

End Isolation.

(** ** Keys of a store *)

Lemma strip_prefix_some p s r : strip_prefix p s = Some r -> s = String.append p r.
Proof.
  revert s. induction p as [|a p IH]; intros [|b s]; cbn; try done; [by intros [= <-]|by intros [= <-]|].
  destruct (Ascii.eqb_spec a b) as [->|]; [|done]. by intros <-%IH.
Qed.

Lemma split_by_existsb p q s :
  (forall c, p c = true -> q c = false) -> existsb (str_existsb q) (split_by p s) = false -> str_existsb q s = false.
Proof.
  intros Hpq. induction s as [|c s IH]; cbn [split_by str_existsb]; [done|].
  destruct (p c) eqn:E; cbn.
  - rewrite (Hpq c E). exact IH.
  - pose proof (split_by_nonempty p s) as Hne. destruct (split_by p s) as [|x l]; [done|]. cbn. cbn in IH.
    intros [[Hc Hx]%orb_false_elim Hl]%orb_false_elim. rewrite Hc. apply IH. by rewrite Hx, Hl.
Qed.

Lemma replace_char_inj a b s1 s2 :
  str_existsb (fun c => Ascii.eqb c b) s1 = false -> str_existsb (fun c => Ascii.eqb c b) s2 = false ->
  replace_char a b s1 = replace_char a b s2 -> s1 = s2.
Proof.
  unfold replace_char. revert s2. induction s1 as [|c1 s1 IH]; intros [|c2 s2]; cbn; try done.
  intros [H1 H1']%orb_false_elim [H2 H2']%orb_false_elim [= Hc Hs]. f_equal; [|by apply IH].
  destruct (Ascii.eqb_spec c1 a) as [->|], (Ascii.eqb_spec c2 a) as [->|]; subst; rewrite ?Ascii.eqb_refl in *; done.
Qed.

Lemma kv_label_shape `{B64 : Base64} e prefix label text :
  kv_label e prefix = Ok (Some (label, text)) ->
  exists rest, kv_key e = String.append prefix (String "/" rest) /\ str_existsb (fun c => Ascii.eqb c ".") rest = false
    /\ label = String.append PREFIX (String.append "." (replace_char "/" "." rest)).
Proof.
  unfold kv_label. destruct (strip_prefix prefix (kv_key e)) as [[|c rest]|] eqn:E; [done| |done].
  apply strip_prefix_some in E. destruct c as [[] [] [] [] [] [] [] []]; try (by destruct (kv_value e)).
  destruct (kv_value e) as [value|]; [|done].
  destruct (_ || _); [done|]. destruct (existsb _ _) eqn:Hp; [done|].
  destruct (base64_decode value) as [bytes|]; [|done]. destruct (utf8_valid bytes); [|done].
  intros [= <- <-]. exists rest. split; [done|]. split; [|done].
  apply (split_by_existsb (fun a => Ascii.eqb a "/")).
  - intros c. destruct (Ascii.eqb_spec c "/") as [->|]; done.
  - unfold split_on in Hp. apply not_true_iff_false. intros H. apply existsb_exists in H as (x & Hx & Hq).
    apply not_true_iff_false in Hp. apply Hp, existsb_exists. exists x. split; [done|].
    change (str_contains_char x ".") with (str_existsb (fun c => Ascii.eqb c ".") x). by rewrite Hq, orb_true_r.
Qed.

(** The keys of a store and the labels that they become correspond one to one: two keys under a
    prefix with the same label are the same key, so no key can pose as another. *)
Theorem kv_labels_injective `{B64 : Base64} e1 e2 prefix label t1 t2 :
  kv_label e1 prefix = Ok (Some (label, t1)) -> kv_label e2 prefix = Ok (Some (label, t2)) -> kv_key e1 = kv_key e2.
Proof.
  intros (r1 & -> & H1 & ->)%kv_label_shape (r2 & -> & H2 & Heq)%kv_label_shape.
  do 2 f_equal. apply (replace_char_inj "/" "."); [done|done|].
  cbn in Heq. by injection Heq.
Qed.

#[local] Instance plain_base64 : Base64 := {| base64_decode s := Some (as_bytes s) |}.

Lemma kv_labels_injective_witness :
  exists label, kv_label (mkKvEntry "proxies/http/app/ports" (Some "http")) "proxies" = Ok (Some (label, "http"))
    /\ label = "r3v3rs3.http.app.ports"
    /\ forall e t, kv_label e "proxies" = Ok (Some (label, t)) -> kv_key e = "proxies/http/app/ports".
Proof.
  eexists. split; [reflexivity|]. split; [reflexivity|]. intros e t H. symmetry.
  apply (kv_labels_injective (mkKvEntry "proxies/http/app/ports" (Some "http")) e "proxies" "r3v3rs3.http.app.ports" "http" t);
    [reflexivity|exact H].
Defined.

(** ** The instances of a proxy *)

Section Instances.
Context {Server Settings : Type}.
Notation ProxyKind := (@ProxyKind Server Settings).
Notation ProxyDefinition := (@ProxyDefinition Server Settings).

(** The servers of each route, and the rest of a proxy. *)
Definition kind_servers (k : ProxyKind) : list (list Server) :=
  match k with KHttp h => map servers (routes h) | KTcp t => [tcp_servers t] | KUdp u => [udp_servers u] end.

Definition bare (k : ProxyKind) : ProxyKind :=
  match k with
  | KHttp h =>
      KHttp (mkHttpProxy (map (fun r => mkRoute [] (route_settings r)) (routes h)) (maintenance h) (http_client_cert h) (http_settings h))
  | KTcp t => KTcp (mkTcpProxy [] (tcp_client_cert t) (tcp_settings t))
  | KUdp u => KUdp (mkUdpProxy [] (udp_settings u))
  end.

(** The same protocol with as many routes. *)
Definition same_shape (a b : ProxyKind) : bool :=
  match a, b with
  | KHttp x, KHttp y => Nat.eqb (length (routes x)) (length (routes y))
  | KTcp _, KTcp _ | KUdp _, KUdp _ => true
  | _, _ => false
  end.

Lemma append_routes_spec (a b : list (@Route Server Settings)) :
  length a = length b ->
  map servers (append_routes a b) = zip_with app (map servers a) (map servers b)
  /\ map (fun r => mkRoute (@nil Server) (route_settings r)) (append_routes a b) = map (fun r => mkRoute [] (route_settings r)) a.
Proof.
  revert b. induction a as [|x a IH]; intros [|y b]; cbn; try done. intros [= Hl].
  destruct (IH b Hl) as [-> ->]. done.
Qed.

Lemma append_servers_spec (a b : ProxyKind) :
  match append_servers a b with
  | Ok k =>
      same_shape a b = true /\ kind_servers k = zip_with app (kind_servers a) (kind_servers b) /\ bare k = bare a
      /\ (forall c, same_shape k c = same_shape a c)
  | Err _ => same_shape a b = false
  end.
Proof.
  destruct a as [x|x|x], b as [y|y|y]; cbn; try done.
  destruct (Nat.eqb_spec (length (routes x)) (length (routes y))) as [Hl|]; [|done].
  destruct (append_routes_spec _ _ Hl) as [Hs Hb]. cbn. rewrite Hs, Hb. split; [done|]. split; [done|]. split; [done|].
  assert (length (append_routes (routes x) (routes y)) = length (routes x)) as Hlen.
  { apply (f_equal length) in Hb. by rewrite !length_map in Hb. }
  intros [z|z|z]; cbn; by rewrite ?Hlen.
Qed.

(** One instance: a new proxy, its servers added to the proxy of the same key, or an error that
    changes nothing. *)
Lemma groups_add_spec group res (d : ProxyDefinition) g r g' :
  groups_add group res d g = (r, g') ->
  let key := String.append group (String.append "/" (def_key d)) in
  (forall k, k <> key -> om_get k (pg_proxies g') = om_get k (pg_proxies g))
  /\ match om_get key (pg_proxies g) with
     | None =>
         r = Ok tt /\ om_get key (pg_proxies g') = Some (mkDiscoveredProxy key (mkDiscoverySource (pg_provider g) res) d)
     | Some old =>
         if same_shape (def_kind (dp_definition old)) (def_kind d) then
           r = Ok tt /\ exists k source,
             om_get key (pg_proxies g') = Some (mkDiscoveredProxy (dp_key old) source (with_kind k (dp_definition old)))
             /\ append_servers (def_kind (dp_definition old)) (def_kind d) = Ok k
         else g' = g
     end.
Proof.
  unfold groups_add. cbn zeta. set (key := String.append group _).
  destruct (om_get key (pg_proxies g)) as [old|] eqn:Hold.
  - pose proof (append_servers_spec (def_kind (dp_definition old)) (def_kind d)) as Ha.
    destruct (append_servers _ _) as [k|m]; [destruct Ha as [-> _]|rewrite Ha]; intros [= <- <-]; [|done].
    cbn [pg_proxies]. split; [intros k' Hk; by rewrite om_get_set, decide_False|]. split; [done|].
    eexists _, _. split; [by rewrite om_get_set, decide_True|done].
  - intros [= <- <-]. cbn [pg_proxies]. split; [intros k' Hk; by rewrite om_get_set, decide_False|].
    split; [done|]. by rewrite om_get_set, decide_True.
Qed.

Definition add_instances (group : string) (l : list (string * ProxyDefinition)) (g : @ProxyGroups Server Settings) : ProxyGroups :=
  fold_left (fun g i => (groups_add group i.1 i.2 g).2) l g.

Lemma add_instances_spec group key (d0 : ProxyDefinition) l g x :
  Forall (fun i => String.append group (String.append "/" (def_key i.2)) = key /\ same_shape (def_kind d0) (def_kind i.2) = true) l ->
  om_get key (pg_proxies g) = Some x ->
  bare (def_kind (dp_definition x)) = bare (def_kind d0) ->
  (forall c, same_shape (def_kind (dp_definition x)) c = same_shape (def_kind d0) c) ->
  let g' := add_instances group l g in
  (forall k, k <> key -> om_get k (pg_proxies g') = om_get k (pg_proxies g))
  /\ exists y, om_get key (pg_proxies g') = Some y
     /\ kind_servers (def_kind (dp_definition y))
        = fold_left (zip_with app) (map (fun i => kind_servers (def_kind i.2)) l) (kind_servers (def_kind (dp_definition x)))
     /\ bare (def_kind (dp_definition y)) = bare (def_kind d0)
     /\ with_kind (def_kind d0) (dp_definition y) = with_kind (def_kind d0) (dp_definition x).
Proof.
  cbn zeta. intros Hl. revert g x. induction Hl as [|[res d] l [Hk Hs] _ IH]; intros g x Hx Hb Hc; cbn [add_instances fold_left map].
  { split; [done|]. by exists x. }
  cbn [fst snd] in *. destruct (groups_add group res d g) as [r g1] eqn:E. cbn [snd].
  destruct (groups_add_spec _ _ _ _ _ _ E) as [Hother Hadd]. rewrite Hk, Hx, Hc, Hs in Hadd. rewrite Hk in Hother.
  destruct Hadd as (_ & k & src & Hget & Happ). pose proof (append_servers_spec (def_kind (dp_definition x)) (def_kind d)) as Ha.
  rewrite Happ in Ha. destruct Ha as (_ & Hsrv & Hbare & Hshape).
  destruct (IH g1 _ Hget) as (Ho & y & Hy & Hys & Hyb & Hyw); cbn [dp_definition with_kind def_kind].
  - by rewrite Hbare.
  - intros c. by rewrite Hshape.
  - unfold add_instances in *. split; [intros k' Hne; rewrite Ho by done; by apply Hother|]. exists y. split; [done|].
    cbn [dp_definition with_kind def_kind] in Hys. rewrite Hys, Hsrv. split; [done|]. split; [done|].
    rewrite Hyw. by destruct (dp_definition x).
Qed.

(** The instances of a proxy, which define it with the same protocol and as many routes, become one
    proxy: each route has the servers of that route of every instance, in the order of the
    instances, and everything else is as the first instance defines it.  No other proxy changes. *)
Theorem instances_merge group res (d : ProxyDefinition) rest g :
  let key := String.append group (String.append "/" (def_key d)) in
  om_get key (pg_proxies g) = None ->
  Forall (fun i => def_key i.2 = def_key d /\ same_shape (def_kind d) (def_kind i.2) = true) rest ->
  let g' := add_instances group ((res, d) :: rest) g in
  (forall k, k <> key -> om_get k (pg_proxies g') = om_get k (pg_proxies g))
  /\ exists y, om_get key (pg_proxies g') = Some y
     /\ kind_servers (def_kind (dp_definition y))
        = fold_left (zip_with app) (map (fun i => kind_servers (def_kind i.2)) rest) (kind_servers (def_kind d))
     /\ bare (def_kind (dp_definition y)) = bare (def_kind d)
     /\ with_kind (def_kind d) (dp_definition y) = d.
Proof.
  cbn zeta. intros Hnone Hrest. unfold add_instances. cbn [fold_left fst snd].
  destruct (groups_add group res d g) as [r g1] eqn:E. cbn [snd].
  destruct (groups_add_spec _ _ _ _ _ _ E) as [Hother Hadd]. rewrite Hnone in Hadd. destruct Hadd as [_ Hget].
  edestruct (add_instances_spec group (String.append group (String.append "/" (def_key d))) d rest g1)
    as (Ho & y & Hy & Hys & Hyb & Hyw); [|exact Hget|done|done|].
  - eapply Forall_impl; [exact Hrest|]. intros i [-> ?]. done.
  - unfold add_instances in *. split; [intros k' Hne; rewrite Ho by done; by apply Hother|]. exists y. split; [done|].
    split; [done|]. split; [done|]. rewrite Hyw. by destruct d.
Qed.

End Instances.

Lemma instances_merge_witness :
  let d s := mkProxyDefinition "http.app" "app" ["http"] true None
               (KHttp (mkHttpProxy [mkRoute [s] tt] false None tt)) : @ProxyDefinition string unit in
  exists y, om_get "web/http.app" (pg_proxies (add_instances "web" [("web-1", d "a"); ("web-2", d "b")] (mkProxyGroups Docker []))) = Some y
    /\ kind_servers (def_kind (dp_definition y)) = [["a"; "b"]].
Proof.
  cbn zeta. set (d := fun s : string => _).
  destruct (instances_merge (Server := string) (Settings := unit) "web" "web-1" (d "a") [("web-2", d "b")] (mkProxyGroups Docker []))
    as (_ & y & Hy & Hs & _); [reflexivity|repeat constructor|].
  exists y. split; [exact Hy|exact Hs].
Defined.
