(* ===== verification/Login.v ===== *)
(** * Sign-in limits of the admin API

    [admin/auth.rs] (the attempts of a client at an account, the TOTP attempts, the passkey
    challenges, the address of the client, and the bookkeeping of the [login] handler) and
    [admin/ban.rs] (the bans of addresses).  Passwords, codes and passkeys are checked by the
    account RPC, whose answer is the event that ends a sign-in. *)

From Stdlib Require Import Ascii.
From S2P Require Import Prelude Basics IpText Net Policy ClientIp Quarantine.

(** ** Attempts of a client at an account *)

Definition LoginAttemptKey : Type := IpAddr * string.

Definition MAX_LOGIN_USERNAME_LEN : nat := 128.
Definition MAX_LOGIN_ATTEMPTS_ENTRIES : Z := 10000.

(** [str] slicing up to byte [n]; [None] is the panic inside a character. *)
Definition str_slice_to (n : nat) (s : string) : option string :=
  match String.get n s with
  | Some c => if in_range 128 191 (byte_of c) then None else Some (String.substring 0 n s)
  | None => Some (String.substring 0 n s)
  end.

Definition bounded_key (key : LoginAttemptKey) : option LoginAttemptKey :=
  if Nat.leb (String.length key.2) MAX_LOGIN_USERNAME_LEN then Some key
  else option_map (pair key.1) (str_slice_to MAX_LOGIN_USERNAME_LEN key.2).

Record LoginAttempt : Type := mkLoginAttempt {
  failures : Z;
  in_flight : Z;
  window_start : Instant;
  blocked_until : option Instant;
}.

Definition LoginAttempt_new (now : Instant) : LoginAttempt := mkLoginAttempt 0 0 now None.

Definition attempt_active (a : LoginAttempt) (reset : Duration) (now : Instant) : bool :=
  if 0 <? in_flight a then true
  else match blocked_until a with
       | Some until => now <? until
       | None => duration_since now (window_start a) <? reset
       end.

(** The order in which a [HashMap] is read is not specified; the model reads it in the order of
    [map_to_list], which decides only between the oldest entries of equal age. *)
Notation LoginAttempts := (gmap LoginAttemptKey LoginAttempt).

Definition prune_expired (reset : Duration) (now : Instant) (m : LoginAttempts) : LoginAttempts :=
  filter (fun kv => Is_true (attempt_active kv.2 reset now)) m.

(** [min_by_key] keeps the first of equals. *)
Definition oldest (l : list (LoginAttemptKey * LoginAttempt)) : option LoginAttemptKey :=
  option_map fst
    (fold_left (fun best kv =>
                  match best with
                  | Some b => if window_start kv.2 <? window_start b.2 then Some kv else best
                  | None => Some kv
                  end) l None).

Definition prune_oldest (m : LoginAttempts) : LoginAttempts :=
  match oldest (map_to_list m) with Some k => delete k m | None => m end.

(** The map after [get_or_insert_attempt], and the attempt that it answers. *)
Definition get_or_insert_attempt (key : LoginAttemptKey) (reset : Duration) (now : Instant) (m : LoginAttempts)
  : LoginAttempt * LoginAttempts :=
  match m !! key with
  | Some a => let a := if attempt_active a reset now then a else LoginAttempt_new now in (a, <[ key := a ]> m)
  | None =>
      let m :=
        if MAX_LOGIN_ATTEMPTS_ENTRIES <=? Z.of_nat (size m) then
          let m := prune_expired reset now m in
          if MAX_LOGIN_ATTEMPTS_ENTRIES <=? Z.of_nat (size m) then prune_oldest m else m
        else m in
      (LoginAttempt_new now, <[ key := LoginAttempt_new now ]> m)
  end.

(** The operations on the key of the map; their panics are those of [bounded_key]. *)
Definition acquire_at (key : LoginAttemptKey) (max_attempts : Z) (reset : Duration) (now : Instant) (m : LoginAttempts)
  : bool * LoginAttempts :=
  let max := Z.max max_attempts 1 in
  let '(a, m) := get_or_insert_attempt key reset now m in
  if is_some_and (fun until => now <? until) (blocked_until a) then (false, m)
  else if max <=? sat_add u32_max (failures a) (in_flight a) then (false, m)
  else (true, <[ key := mkLoginAttempt (failures a) (in_flight a + 1) (window_start a) (blocked_until a) ]> m).

Definition acquire (key : LoginAttemptKey) (max_attempts : Z) (reset : Duration) (now : Instant) (m : LoginAttempts)
  : option (bool * LoginAttempts) :=
  option_map (fun k => acquire_at k max_attempts reset now m) (bounded_key key).

Definition release_at (key : LoginAttemptKey) (m : LoginAttempts) : LoginAttempts :=
  alter (fun a => mkLoginAttempt (failures a) (sat_sub (in_flight a) 1) (window_start a) (blocked_until a)) key m.

Definition release (key : LoginAttemptKey) (m : LoginAttempts) : option LoginAttempts :=
  option_map (fun k => release_at k m) (bounded_key key).

Definition is_blocked (key : LoginAttemptKey) (reset : Duration) (now : Instant) (m : LoginAttempts) : option bool :=
  option_map (fun k => is_some_and (fun a => attempt_active a reset now
                                             && is_some_and (fun until => now <? until) (blocked_until a)) (m !! k))
             (bounded_key key).

Definition record_failure_at (key : LoginAttemptKey) (max_attempts : Z) (reset : Duration) (now : Instant) (m : LoginAttempts)
  : LoginAttempts :=
  let '(a, m) := get_or_insert_attempt key reset now m in
  let fails := failures a + 1 in
  <[ key := mkLoginAttempt fails (sat_sub (in_flight a) 1) (window_start a)
              (if Z.max max_attempts 1 <=? fails then Some (now + reset) else blocked_until a) ]> m.

Definition record_failure (key : LoginAttemptKey) (max_attempts : Z) (reset : Duration) (now : Instant) (m : LoginAttempts)
  : option LoginAttempts :=
  option_map (fun k => record_failure_at k max_attempts reset now m) (bounded_key key).

Definition clear (key : LoginAttemptKey) (m : LoginAttempts) : option LoginAttempts :=
  option_map (fun k => delete k m) (bounded_key key).

(** ** Bans of addresses *)

Record IpAttempt : Type := mkIpAttempt {
  ip_failures : Z;
  ip_window_start : Instant;
  ip_banned_until : option Instant;
  banned_until_unix_ms : Z;
}.

Notation IpBanTracker := (gmap IpAddr IpAttempt).

Definition ban_cleanup (now : Instant) (m : IpBanTracker) : IpBanTracker :=
  filter (fun kv => Is_true (match ip_banned_until kv.2 with
                             | Some until => now <? until
                             | None => duration_since now (ip_window_start kv.2) <? from_secs 3600
                             end)) m.

Definition check_banned (ip : IpAddr) (now : Instant) (m : IpBanTracker) : result unit Error * IpBanTracker :=
  if is_loopback ip then (Ok tt, m)
  else
    let m := ban_cleanup now m in
    match m !! ip with
    | Some a =>
        match ip_banned_until a with
        | Some until =>
            if now <? until then (Err (IpBanned (Z.max (as_secs (duration_since until now)) 1)), m) else (Ok tt, m)
        | None => (Ok tt, m)
        end
    | None => (Ok tt, m)
    end.

(** [unix] is [unix_ms()] at the failure. *)
Definition ban_record_failure (ip : IpAddr) (max_attempts : Z) (reset ban : Duration) (now : Instant) (unix : Z) (m : IpBanTracker)
  : IpBanTracker :=
  if is_loopback ip then m
  else
    let a := unwrap_or (m !! ip) (mkIpAttempt 0 now None 0) in
    let a := if (reset <=? duration_since now (ip_window_start a)) && is_none (ip_banned_until a)
             then mkIpAttempt 0 now (ip_banned_until a) (banned_until_unix_ms a) else a in
    let fails := ip_failures a + 1 in
    <[ ip := if Z.max max_attempts 1 <=? fails
             then mkIpAttempt fails (ip_window_start a) (Some (now + ban))
                    (sat_add u64_max unix (Z.min (ban / 1000000) u64_max))
             else mkIpAttempt fails (ip_window_start a) (ip_banned_until a) (banned_until_unix_ms a) ]> m.

Definition ban_clear (ip : IpAddr) (m : IpBanTracker) : IpBanTracker := delete ip m.

Definition unban (ip : IpAddr) (m : IpBanTracker) : bool * IpBanTracker := (is_some (m !! ip), delete ip m).

Record BannedIpEntry : Type := mkBannedIpEntry {
  banned_ip : IpAddr;
  banned_failures : Z;
  banned_until_ms : Z;
  remaining_seconds : Z;
}.

Definition banned_entry (now : Instant) (kv : IpAddr * IpAttempt) : option BannedIpEntry :=
  match ip_banned_until kv.2 with
  | Some until =>
      if now <? until
      then Some (mkBannedIpEntry kv.1 (ip_failures kv.2) (banned_until_unix_ms kv.2)
                                 (Z.max (as_secs (duration_since until now)) 1))
      else None
  | None => None
  end.

Fixpoint insert_by_ban (e : BannedIpEntry) (l : list BannedIpEntry) : list BannedIpEntry :=
  match l with
  | [] => [e]
  | x :: r => if banned_until_ms e <=? banned_until_ms x then e :: l else x :: insert_by_ban e r
  end.

(** [sort_by_key] is stable: the entries of one end keep their order. *)
Definition sort_by_ban (l : list BannedIpEntry) : list BannedIpEntry := fold_right insert_by_ban [] l.

Definition banned_ips (now : Instant) (m : IpBanTracker) : list BannedIpEntry * IpBanTracker :=
  let m := ban_cleanup now m in (sort_by_ban (omap (banned_entry now) (map_to_list m)), m).

(** ** TOTP attempts and passkey challenges *)

Definition MAX_SESSION_TOTP_ATTEMPTS : Z := 3.

Record TotpAttempts : Type := mkTotpAttempts { totp_sessions : gmap string Z; totp_accounts : gmap string LoginAttempt }.

Definition totp_record_failure (token username : string) (max_account : Z) (reset : Duration) (now : Instant) (t : TotpAttempts)
  : bool * TotpAttempts :=
  let fails := unwrap_or (totp_sessions t !! token) 0 + 1 in
  let exhausted := MAX_SESSION_TOTP_ATTEMPTS <=? fails in
  let a := unwrap_or (totp_accounts t !! username) (LoginAttempt_new now) in
  let af := failures a + 1 in
  (exhausted,
   mkTotpAttempts
     (if exhausted then delete token (totp_sessions t) else <[ token := fails ]> (totp_sessions t))
     (<[ username := mkLoginAttempt af (in_flight a) (window_start a)
                       (if Z.max max_account 1 <=? af then Some (now + reset) else blocked_until a) ]> (totp_accounts t))).

Definition is_account_blocked (username : string) (reset : Duration) (now : Instant) (t : TotpAttempts) : bool * TotpAttempts :=
  let accounts := filter (fun kv => Is_true (attempt_active kv.2 reset now)) (totp_accounts t) in
  (is_some_and (fun a => is_some_and (fun until => now <? until) (blocked_until a)) (accounts !! username),
   mkTotpAttempts (totp_sessions t) accounts).

Definition totp_clear (token username : string) (t : TotpAttempts) : TotpAttempts :=
  mkTotpAttempts (delete token (totp_sessions t)) (delete username (totp_accounts t)).

Definition MAX_PASSKEY_CHALLENGES : nat := 1024.

Definition fresh_challenges (now : Instant) (m : gmap string Instant) : gmap string Instant :=
  filter (fun kv => Is_true (duration_since now kv.2 <? from_secs 120)) m.

Definition oldest_challenge (l : list (string * Instant)) : option string :=
  option_map fst
    (fold_left (fun best kv => match best with Some b => if kv.2 <? b.2 then Some kv else best | None => Some kv end) l None).

Definition challenge_insert (challenge : string) (now : Instant) (m : gmap string Instant) : gmap string Instant :=
  let m := fresh_challenges now m in
  let m := if Nat.leb MAX_PASSKEY_CHALLENGES (size m) then
             match oldest_challenge (map_to_list m) with Some k => delete k m | None => m end
           else m in
  <[ challenge := now ]> m.

Definition challenge_consume (challenge : string) (now : Instant) (m : gmap string Instant) : bool * gmap string Instant :=
  let m := fresh_challenges now m in (is_some (m !! challenge), delete challenge m).

(** ** The address of the client *)

(** The first value of a header, when it is visible text. *)
Definition header_ip (value : option string) : option IpAddr :=
  match value with
  | Some s => match split_on "," s with first :: _ => parse_ip (trim first) | [] => None end
  | None => None
  end.

Section ClientAddress.
Context `{NETS : IpNets}.

Definition resolve_client_ip (trusted : list IpNet) (peer : IpAddr) (forwarded_for real_ip : option string) : IpAddr :=
  if negb (in_nets trusted peer) then peer
  else match header_ip forwarded_for with
       | Some ip => ip
       | None => unwrap_or (header_ip real_ip) peer
       end.

(** The arguments are the first values of the two headers; a value that is not text is [Some None]. *)
Definition is_secure_request (trusted : list IpNet) (peer : IpAddr) (proto scheme : option (option string)) : bool :=
  match (if in_nets trusted peer then match proto with Some v => v | None => default None scheme end else None) with
  | Some s => match split_on "," s with first :: _ => eq_ignore_ascii_case (trim first) "https" | [] => false end
  | None => negb (is_loopback peer)
  end.

End ClientAddress.

(** An IPv6 client is its /64 block. *)
Definition canonical_client_ip (ip : IpAddr) : IpAddr :=
  match to_canonical ip with V4 b => V4 b | V6 b => V6 (Z.shiftl (Z.shiftr b 64) 64) end.

(** ** The bookkeeping of the handler *)

Record AdminConfig : Type := mkAdminConfig { max_login_attempts : Z; login_attempts_reset : Duration }.

Record AdminData : Type := mkAdminData { login_attempts : LoginAttempts; ban_tracker : IpBanTracker }.

Section Handler.
Context (cfg : AdminConfig).

Definition ensure_login_allowed (key : LoginAttemptKey) (now : Instant) (d : AdminData) : option (result unit Error * AdminData) :=
  let '(r, bans) := check_banned key.1 now (ban_tracker d) in
  match r with
  | Err e => Some (Err e, mkAdminData (login_attempts d) bans)
  | Ok _ =>
      option_map (fun '(granted, m) => (if (granted : bool) then Ok tt else Err TooManyLoginAttempts, mkAdminData m bans))
        (acquire key (max_login_attempts cfg) (login_attempts_reset cfg) now (login_attempts d))
  end.

Definition release_login_attempt (key : LoginAttemptKey) (d : AdminData) : option AdminData :=
  option_map (fun m => mkAdminData m (ban_tracker d)) (release key (login_attempts d)).

Definition record_login_failure (key : LoginAttemptKey) (now : Instant) (unix : Z) (d : AdminData) : option AdminData :=
  option_map (fun m =>
      mkAdminData m
        (ban_record_failure key.1 (Z.max (Z.min (max_login_attempts cfg * 2) u32_max) 5) (login_attempts_reset cfg)
           (Z.max (login_attempts_reset cfg) (from_secs 300)) now unix (ban_tracker d)))
    (record_failure key (max_login_attempts cfg) (login_attempts_reset cfg) now (login_attempts d)).

Definition record_successful_login (client_ip : IpAddr) (key : LoginAttemptKey) (d : AdminData) : option AdminData :=
  option_map (fun m => mkAdminData m (ban_clear client_ip (ban_tracker d))) (clear key (login_attempts d)).

(** What [login] does to the shared data: the check at its start, and one of its three ends.  A
    handler whose client goes away before its end stops with no further event. *)
Inductive LoginEvent : Type :=
| Begins (key : LoginAttemptKey) (now : Instant)
| Fails (key : LoginAttemptKey) (now : Instant) (unix : Z)
| NeedsSecondFactor (key : LoginAttemptKey)
| SignsIn (client_ip : IpAddr) (key : LoginAttemptKey).

Definition is_ok {A E} (r : result A E) : bool := match r with Ok _ => true | Err _ => false end.

(** The event, and whether it let a sign-in through to the check of its credentials. *)
Definition login_step (ev : LoginEvent) (d : AdminData) : option (bool * AdminData) :=
  match ev with
  | Begins key now => option_map (fun '(r, d) => (is_ok r, d)) (ensure_login_allowed key now d)
  | Fails key now unix => option_map (pair false) (record_login_failure key now unix d)
  | NeedsSecondFactor key => option_map (pair false) (release_login_attempt key d)
  | SignsIn ip key => option_map (pair false) (record_successful_login ip key d)
  end.

Fixpoint login_run (evs : list LoginEvent) (d : AdminData) : option (list bool * AdminData) :=
  match evs with
  | [] => Some ([], d)
  | ev :: rest =>
      match login_step ev d with
      | None => None
      | Some (b, d) => option_map (fun '(bs, d) => (b :: bs, d)) (login_run rest d)
      end
  end.

End Handler.

(** ** Lemmas *)

Definition event_time (ev : LoginEvent) : option Instant :=
  match ev with Begins _ now => Some now | Fails _ now _ => Some now | _ => None end.

Definition event_key (ev : LoginEvent) : LoginAttemptKey :=
  match ev with Begins k _ | Fails k _ _ | NeedsSecondFactor k | SignsIn _ k => k end.

Definition signs_in (ev : LoginEvent) : bool := match ev with SignsIn _ _ => true | _ => false end.

Lemma active_in_window a t0 reset now :
  t0 <= window_start a -> match blocked_until a with Some u => t0 + reset <= u | None => True end ->
  t0 <= now < t0 + reset -> attempt_active a reset now = true.
Proof.
  intros Hs Hb Hn. unfold attempt_active, duration_since. destruct (0 <? in_flight a); [done|].
  destruct (blocked_until a); apply Z.ltb_lt; lia.
Qed.

(** A map that is not full only gains the entry of the key. *)
Lemma get_or_insert_small (k : LoginAttemptKey) (reset : Duration) (now : Instant) (m : LoginAttempts) :
  Z.of_nat (size m) < MAX_LOGIN_ATTEMPTS_ENTRIES ->
  let '(a, m') := get_or_insert_attempt k reset now m in
  m' = <[ k := a ]> m
  /\ a = match m !! k with Some a0 => if attempt_active a0 reset now then a0 else LoginAttempt_new now | None => LoginAttempt_new now end.
Proof.
  intros Hs. unfold get_or_insert_attempt. destruct (m !! k) as [a0|]; [done|].
  replace (MAX_LOGIN_ATTEMPTS_ENTRIES <=? Z.of_nat (size m)) with false; [done|].
  symmetry. apply Z.leb_gt. exact Hs.
Qed.

Lemma size_insert_le (k : LoginAttemptKey) (a : LoginAttempt) (m : LoginAttempts) : (size (<[ k := a ]> m) <= S (size m))%nat.
Proof.
  destruct (m !! k) eqn:E.
  - rewrite map_size_insert_Some; [lia|by rewrite E].
  - rewrite map_size_insert_None; [lia|done].
Qed.

Lemma other_key_kept (k k' : LoginAttemptKey) (a : LoginAttempt) (m : LoginAttempts) :
  k' <> k -> <[ k' := a ]> m !! k = m !! k.
Proof. apply lookup_insert_ne. Qed.

Section Counting.
Context (cfg : AdminConfig) (k : LoginAttemptKey) (t0 : Instant).

Definition on_key (ev : LoginEvent) : bool := bool_decide (bounded_key (event_key ev) = Some k).

Definition in_time (ev : LoginEvent) : Prop :=
  match event_time ev with Some now => t0 <= now < t0 + login_attempts_reset cfg | None => True end.

Definition entry_ok (o : option LoginAttempt) : Prop :=
  match o with
  | Some a => t0 <= window_start a
              /\ match blocked_until a with Some u => t0 + login_attempts_reset cfg <= u | None => True end
  | None => True
  end.

Definition entry_used (o : option LoginAttempt) : Z := match o with Some a => failures a + in_flight a | None => 0 end.

Definition max_tries : Z := Z.max (max_login_attempts cfg) 1.

(** The entry that an operation on [k'] works on, in the window. *)
Lemma entry_in_window (k' : LoginAttemptKey) (now : Instant) (m : LoginAttempts) :
  Z.of_nat (size m) < MAX_LOGIN_ATTEMPTS_ENTRIES -> t0 <= now < t0 + login_attempts_reset cfg ->
  let '(a, m') := get_or_insert_attempt k' (login_attempts_reset cfg) now m in
  m' = <[ k' := a ]> m
  /\ (entry_ok (m !! k') -> entry_ok (Some a) /\ entry_used (Some a) = entry_used (m !! k')).
Proof.
  intros Hs Hn. pose proof (get_or_insert_small k' (login_attempts_reset cfg) now m Hs) as H.
  destruct (get_or_insert_attempt _ _ _ _) as [a m']. destruct H as [-> ->]. split; [done|].
  destruct (m !! k') as [a0|] eqn:E; cbn [entry_ok entry_used].
  - intros [Hw Hb]. rewrite (active_in_window a0 t0 _ now Hw Hb Hn). done.
  - intros _. cbn [LoginAttempt_new window_start blocked_until failures in_flight]. repeat split; lia.
Qed.

Lemma below_limit f i :
  max_login_attempts cfg <= u32_max -> (Z.max (max_login_attempts cfg) 1 <=? sat_add u32_max f i) = false ->
  f + i < max_tries.
Proof. unfold sat_add, max_tries, u32_max. intros. zbool. lia. Qed.

Lemma acquire_at_used (k' : LoginAttemptKey) (now : Instant) (m m' : LoginAttempts) b :
  max_login_attempts cfg <= u32_max -> Z.of_nat (size m) < MAX_LOGIN_ATTEMPTS_ENTRIES ->
  t0 <= now < t0 + login_attempts_reset cfg ->
  acquire_at k' (max_login_attempts cfg) (login_attempts_reset cfg) now m = (b, m') ->
  (size m' <= S (size m))%nat /\ (k' <> k -> m' !! k = m !! k)
  /\ (entry_ok (m !! k') -> entry_ok (m' !! k')
      /\ if b then entry_used (m !! k') < max_tries /\ entry_used (m' !! k') = entry_used (m !! k') + 1
         else entry_used (m' !! k') = entry_used (m !! k')).
Proof.
  intros Hmax Hs Hn. unfold acquire_at. pose proof (entry_in_window k' now m Hs Hn) as H.
  destruct (get_or_insert_attempt _ _ _ _) as [a m1]. destruct H as [-> Ha].
  destruct (is_some_and _ _) eqn:Eb; [|destruct (_ <=? _) eqn:El].
  1,2: intros H; apply pair_equal_spec in H as [<- <-]; split; [apply size_insert_le|split; [apply other_key_kept|]];
    rewrite lookup_insert_eq; exact Ha.
  intros H; apply pair_equal_spec in H as [<- <-]. rewrite insert_insert_eq.
  split; [apply size_insert_le|split; [apply other_key_kept|]].
  rewrite lookup_insert_eq. intros Hok. destruct (Ha Hok) as [Hok' Hu].
  split; [exact Hok'|]. rewrite <- Hu. apply below_limit in El; [|exact Hmax]. cbn [entry_used failures in_flight].
  split; [exact El|apply Z.add_assoc].
Qed.

Lemma record_failure_at_used (k' : LoginAttemptKey) (now : Instant) (m : LoginAttempts) :
  Z.of_nat (size m) < MAX_LOGIN_ATTEMPTS_ENTRIES -> t0 <= now < t0 + login_attempts_reset cfg ->
  let m' := record_failure_at k' (max_login_attempts cfg) (login_attempts_reset cfg) now m in
  (size m' <= S (size m))%nat /\ (k' <> k -> m' !! k = m !! k)
  /\ (entry_ok (m !! k') -> entry_ok (m' !! k') /\ entry_used (m !! k') <= entry_used (m' !! k')).
Proof.
  intros Hs Hn. unfold record_failure_at. pose proof (entry_in_window k' now m Hs Hn) as H.
  destruct (get_or_insert_attempt _ _ _ _) as [a m1]. destruct H as [-> Ha]. cbn zeta.
  rewrite insert_insert_eq. split; [apply size_insert_le|split; [apply other_key_kept|]].
  rewrite lookup_insert_eq. intros Hok. destruct (Ha Hok) as [[Hw Hb] Hu]. cbn [entry_ok entry_used] in *.
  cbn [window_start blocked_until failures in_flight]. unfold sat_sub.
  split; [split; [exact Hw|]|lia]. destruct (_ <=? _); [lia|exact Hb].
Qed.

Definition waits (ev : LoginEvent) : bool := match ev with NeedsSecondFactor _ => true | _ => false end.

Lemma on_key_true ev k' : bounded_key (event_key ev) = Some k' -> on_key ev = bool_decide (k' = k).
Proof. unfold on_key. intros ->. apply bool_decide_ext. split; [by intros [= ->]|by intros ->]. Qed.

(** How one event changes the entry of [k]. *)
Definition step_effect (ev : LoginEvent) (b : bool) (d d' : AdminData) : Prop :=
  let u := entry_used (login_attempts d !! k) in
  let u' := entry_used (login_attempts d' !! k) in
  if on_key ev then
    if b then u < max_tries /\ u' = u + 1
    else if waits ev then u - 1 <= u' else u <= u'
  else u' = u.

Lemma login_step_effect ev d b d' :
  max_login_attempts cfg <= u32_max -> Z.of_nat (size (login_attempts d)) < MAX_LOGIN_ATTEMPTS_ENTRIES ->
  in_time ev -> on_key ev && signs_in ev = false -> entry_ok (login_attempts d !! k) ->
  login_step cfg ev d = Some (b, d') ->
  (size (login_attempts d') <= S (size (login_attempts d)))%nat /\ entry_ok (login_attempts d' !! k)
  /\ step_effect ev b d d'.
Proof.
  intros Hmax Hs Ht Hsig Hok Hstep. unfold step_effect.
  destruct ev as [key now|key now unix|key|ip key]; cbn [login_step signs_in waits] in *.
  - unfold ensure_login_allowed in Hstep. destruct (check_banned _ _ _) as [[[]|e] bans].
    + unfold acquire in Hstep. destruct (bounded_key key) as [k'|] eqn:Ek; [|done]. cbn [option_map] in Hstep.
      rewrite (on_key_true (Begins key now) k' Ek).
      destruct (acquire_at k' _ _ _ _) as [g m] eqn:Ea. cbn [option_map] in Hstep. injection Hstep as <- <-.
      destruct (acquire_at_used k' now _ _ _ Hmax Hs Ht Ea) as (Hsz & Hne & Heq).
      cbn [login_attempts is_ok]. split; [exact Hsz|].
      destruct (decide (k' = k)) as [->|Hk].
      * rewrite bool_decide_true by done. destruct (Heq Hok) as [H1 H2]. split; [exact H1|]. destruct g; cbn [is_ok]; lia.
      * rewrite bool_decide_false by done. by rewrite (Hne Hk).
    + injection Hstep as <- <-. cbn [login_attempts is_ok]. split; [lia|split; [exact Hok|]]. destruct (on_key _); lia.
  - unfold record_login_failure, record_failure in Hstep. destruct (bounded_key key) as [k'|] eqn:Ek; [|done].
    cbn [option_map] in Hstep. injection Hstep as <- <-. rewrite (on_key_true (Fails key now unix) k' Ek).
    destruct (record_failure_at_used k' now _ Hs Ht) as (Hsz & Hne & Heq).
    cbn [login_attempts]. split; [exact Hsz|]. destruct (decide (k' = k)) as [->|Hk].
    + rewrite bool_decide_true by done. exact (Heq Hok).
    + rewrite bool_decide_false by done. by rewrite (Hne Hk).
  - unfold release_login_attempt, release in Hstep. destruct (bounded_key key) as [k'|] eqn:Ek; [|done].
    cbn [option_map] in Hstep. injection Hstep as <- <-. rewrite (on_key_true (NeedsSecondFactor key) k' Ek).
    cbn [login_attempts]. unfold release_at.
    rewrite <- !(size_dom (D := gset LoginAttemptKey)), dom_alter_L. split; [lia|].
    destruct (decide (k' = k)) as [->|Hk].
    + rewrite bool_decide_true by done. rewrite lookup_alter_eq. destruct (_ !! k) as [a|]; cbn in *; unfold sat_sub; [|lia].
      split; [exact Hok|lia].
    + rewrite bool_decide_false by done. by rewrite (lookup_alter_ne _ _ _ _ Hk).
  - unfold record_successful_login, clear in Hstep. destruct (bounded_key key) as [k'|] eqn:Ek; [|done].
    cbn [option_map] in Hstep. injection Hstep as <- <-. rewrite (on_key_true (SignsIn ip key) k' Ek) in *.
    rewrite andb_true_r in Hsig. rewrite Hsig. apply bool_decide_eq_false in Hsig.
    cbn [login_attempts]. rewrite lookup_delete_ne by done.
    split; [|done]. pose proof (map_size_delete k' (login_attempts d)) as H. rewrite H. destruct (_ !! k'); cbn; lia.
Qed.

(** The sign-ins on [k] that reached the check of their credentials, and those that went on to the
    second factor. *)
Fixpoint let_through (evs : list LoginEvent) (bs : list bool) : Z :=
  match evs, bs with
  | ev :: evs, b :: bs => (if on_key ev && b then 1 else 0) + let_through evs bs
  | _, _ => 0
  end.

Definition second_factors (evs : list LoginEvent) : Z := Z.of_nat (length (List.filter (fun ev => on_key ev && waits ev) evs)).

Lemma second_factors_cons ev evs :
  second_factors (ev :: evs) = (if on_key ev && waits ev then 1 else 0) + second_factors evs.
Proof. unfold second_factors. cbn [List.filter]. destruct (_ && _); cbn [length]; lia. Qed.

Lemma login_run_bounded evs : forall d bs d',
  max_login_attempts cfg <= u32_max ->
  Z.of_nat (size (login_attempts d)) + Z.of_nat (length evs) <= MAX_LOGIN_ATTEMPTS_ENTRIES ->
  Forall in_time evs -> Forall (fun ev => on_key ev && signs_in ev = false) evs -> entry_ok (login_attempts d !! k) ->
  login_run cfg evs d = Some (bs, d') ->
  let u := entry_used (login_attempts d !! k) in
  let_through evs bs + u <= Z.max max_tries u + second_factors evs.
Proof.
  induction evs as [|ev evs IH]; intros d bs d' Hmax Hs Ht Hsig Hok Hrun u.
  { unfold second_factors. cbn. lia. }
  cbn [login_run length] in *. destruct (login_step cfg ev d) as [[b d1]|] eqn:Es; [|done].
  destruct (login_run cfg evs d1) as [[bs1 d2]|] eqn:Er; [|done]. injection Hrun as <- <-.
  apply Forall_cons in Ht as [Ht Hts]. apply Forall_cons in Hsig as [Hsig Hsigs].
  destruct (login_step_effect ev d b d1 Hmax ltac:(lia) Ht Hsig Hok Es) as (Hsz & Hok1 & He).
  specialize (IH d1 bs1 d2 Hmax ltac:(lia) Hts Hsigs Hok1 Er). cbn zeta in IH.
  cbn [let_through]. rewrite second_factors_cons. unfold step_effect in He. fold u in He.
  set (u1 := entry_used (login_attempts d1 !! k)) in *.
  destruct (on_key ev); cbn [andb]; [destruct b|]; [destruct (waits ev)|destruct (waits ev)|]; lia.
Qed.

End Counting.

Lemma login_run_app cfg evs evs' d bs d1 :
  login_run cfg evs d = Some (bs, d1) ->
  login_run cfg (evs ++ evs') d = option_map (fun '(bs', d2) => (bs ++ bs', d2)) (login_run cfg evs' d1).
Proof.
  revert d bs. induction evs as [|ev evs IH]; intros d bs H; cbn [app login_run] in *.
  - injection H as <- <-. by destruct (login_run _ _ _) as [[]|].
  - destruct (login_step _ _ _) as [[b d2]|]; [|done]. destruct (login_run cfg evs d2) as [[bs1 d3]|] eqn:E; [|done].
    injection H as <- <-. rewrite (IH _ _ E). by destruct (login_run cfg evs' d3) as [[]|].
Qed.

(** ** Properties *)

(** C28: A client cannot try more than [max_login_attempts] passwords of an account in one window:
    starting without an entry for its key, in a time shorter than [login_attempts_reset] and without a
    successful sign-in of that key, the sign-ins that reach the check of the credentials are at most
    the limit plus those whose password was right and that went on to the second factor.  The entry
    is not evicted while the table is not full. *)
Theorem guesses_bounded cfg k t0 evs d bs d' :
  max_login_attempts cfg <= u32_max ->
  login_attempts d !! k = None ->
  Z.of_nat (size (login_attempts d)) + Z.of_nat (length evs) <= MAX_LOGIN_ATTEMPTS_ENTRIES ->
  Forall (in_time cfg t0) evs -> Forall (fun ev => on_key k ev && signs_in ev = false) evs ->
  login_run cfg evs d = Some (bs, d') ->
  let_through k evs bs <= Z.max (max_login_attempts cfg) 1 + second_factors k evs.
Proof.
  intros Hmax Hnone Hs Ht Hsig Hrun.
  assert (Hok : entry_ok cfg t0 (login_attempts d !! k)) by (by rewrite Hnone).
  pose proof (login_run_bounded cfg k t0 evs d bs d' Hmax Hs Ht Hsig Hok Hrun) as H.
  rewrite Hnone in H. cbn [entry_used] in H. unfold max_tries in H. lia.
Qed.

Definition example_admin : AdminConfig := mkAdminConfig 2 (from_secs 60).
Definition example_login : LoginAttemptKey := (V4 3405803785, "admin").
Definition example_evs : list LoginEvent :=
  [Begins example_login 0; Begins example_login 1; Begins example_login 2;
   NeedsSecondFactor example_login; Fails example_login 3 0; Begins example_login 4; Begins example_login 5].

Lemma guesses_bounded_witness :
  let_through example_login example_evs [true; true; false; false; false; true; false] <= 2 + 1.
Proof.
  destruct (login_run example_admin example_evs (mkAdminData ∅ ∅)) as [[bs d']|] eqn:E; [|vm_compute in E; discriminate].
  pose proof (guesses_bounded example_admin example_login 0 example_evs (mkAdminData ∅ ∅) bs d'
                ltac:(vm_compute; discriminate) ltac:(reflexivity) ltac:(vm_compute; discriminate)
                ltac:(repeat (constructor; [try exact I; cbn; unfold from_secs; lia|]); constructor)
                ltac:(repeat (constructor; [vm_compute; reflexivity|]); constructor) E) as H.
  vm_compute in E. injection E as <- <-. exact H.
Defined.

Lemma nobody_banned ip now : check_banned ip now ∅ = (Ok tt, ∅).
Proof. unfold check_banned, ban_cleanup. destruct (is_loopback ip); [done|]. by rewrite map_filter_empty, lookup_empty. Qed.

Lemma refused_while_taken cfg key k now d :
  bounded_key key = Some k -> login_attempts d !! k = Some (mkLoginAttempt 0 (max_tries cfg) now None) ->
  max_login_attempts cfg <= u32_max -> ban_tracker d = ∅ ->
  forall later, ensure_login_allowed cfg key later d = Some (Err TooManyLoginAttempts, d).
Proof.
  intros Hk Hd Hmax Hb later. unfold ensure_login_allowed, acquire. rewrite Hk.
  rewrite Hb, nobody_banned. cbn [option_map]. unfold acquire_at, get_or_insert_attempt. rewrite Hd.
  assert (Ha : attempt_active (mkLoginAttempt 0 (max_tries cfg) now None) (login_attempts_reset cfg) later = true).
  { unfold attempt_active, max_tries. cbn [in_flight]. replace (0 <? _) with true by (symmetry; apply Z.ltb_lt; lia). done. }
  rewrite Ha. cbn [blocked_until is_some_and failures in_flight].
  replace (_ <=? _) with true by (symmetry; apply Z.leb_le; unfold sat_add, max_tries, u32_max in *; lia).
  rewrite (insert_id _ _ _ Hd). destruct d as [m bans]. cbn in Hb |- *. by rewrite Hb.
Qed.

(** The first [n] sign-ins of a key that never end. *)
Lemma begun_sign_ins cfg key k now (n : nat) :
  bounded_key key = Some k -> max_login_attempts cfg <= u32_max -> 0 < login_attempts_reset cfg ->
  forall i, 0 <= i -> i + Z.of_nat n <= max_tries cfg ->
  login_run cfg (replicate n (Begins key now)) (mkAdminData {[ k := mkLoginAttempt 0 i now None ]} ∅)
  = Some (replicate n true, mkAdminData {[ k := mkLoginAttempt 0 (i + Z.of_nat n) now None ]} ∅).
Proof.
  intros Hk Hmax Hr. induction n as [|n IH]; intros i Hi Hn.
  { cbn. by rewrite Z.add_0_r. }
  cbn [replicate login_run login_step]. unfold ensure_login_allowed, acquire. rewrite Hk. cbn [ban_tracker login_attempts].
  rewrite nobody_banned. cbn [option_map]. unfold acquire_at, get_or_insert_attempt. rewrite lookup_singleton_eq.
  replace (attempt_active (mkLoginAttempt 0 i now None) (login_attempts_reset cfg) now) with true.
  2:{ unfold attempt_active, duration_since. cbn [in_flight blocked_until window_start]. destruct (0 <? i); [done|].
      symmetry. apply Z.ltb_lt. lia. }
  cbn [blocked_until is_some_and failures in_flight window_start].
  replace (_ <=? sat_add _ _ _) with false by (symmetry; apply Z.leb_gt; unfold sat_add, max_tries, u32_max in *; lia).
  cbn [option_map is_ok]. rewrite !insert_singleton_eq.
  rewrite (IH (i + 1)) by lia. replace (i + 1 + Z.of_nat n) with (i + Z.of_nat (S n)) by lia. done.
Qed.

(** The first of them makes the entry. *)
Lemma first_sign_in cfg key k now :
  bounded_key key = Some k -> max_login_attempts cfg <= u32_max ->
  login_step cfg (Begins key now) (mkAdminData ∅ ∅) = Some (true, mkAdminData {[ k := mkLoginAttempt 0 1 now None ]} ∅).
Proof.
  intros Hk Hmax. cbn [login_step]. unfold ensure_login_allowed, acquire. rewrite Hk. cbn [ban_tracker login_attempts].
  rewrite nobody_banned. cbn [option_map]. unfold acquire_at, get_or_insert_attempt. rewrite lookup_empty, map_size_empty.
  cbn [LoginAttempt_new failures in_flight blocked_until is_some_and window_start].
  replace (_ <=? sat_add _ _ _) with false by (symmetry; apply Z.leb_gt; unfold sat_add, u32_max in *; lia).
  by cbn [option_map is_ok]; rewrite insert_insert_eq.
Qed.

Lemma refusals_repeat cfg key k now d times :
  bounded_key key = Some k -> login_attempts d !! k = Some (mkLoginAttempt 0 (max_tries cfg) now None) ->
  max_login_attempts cfg <= u32_max -> ban_tracker d = ∅ ->
  login_run cfg (map (Begins key) times) d = Some (map (fun _ => false) times, d).
Proof.
  intros Hk Hd Hmax Hb. induction times as [|t times IH]; [done|]. cbn [map login_run login_step].
  rewrite (refused_while_taken cfg key k now d Hk Hd Hmax Hb). cbn [option_map is_ok]. by rewrite IH.
Qed.

(** Sign-ins that never end lock the account out for their address: after [max_login_attempts]
    handlers that stop before they record a result (their client closes the connection while the
    password is checked), every later sign-in of that key is refused, however long it waits, although
    no password failed: an entry with sign-ins in flight never expires, and nothing releases them. *)
Theorem cancelled_logins_lock_out cfg key k now times :
  bounded_key key = Some k -> max_login_attempts cfg <= u32_max -> 0 < login_attempts_reset cfg ->
  let n := Z.to_nat (Z.max (max_login_attempts cfg) 1) in
  login_run cfg (replicate n (Begins key now) ++ map (Begins key) times) (mkAdminData ∅ ∅)
  = Some (replicate n true ++ map (fun _ => false) times,
          mkAdminData {[ k := mkLoginAttempt 0 (max_tries cfg) now None ]} ∅).
Proof.
  intros Hk Hmax Hr n. destruct n as [|n'] eqn:En; [unfold n in En; lia|].
  assert (Hn : max_tries cfg = 1 + Z.of_nat n') by (unfold max_tries; lia).
  cbn [replicate app login_run]. rewrite (first_sign_in cfg key k now Hk Hmax).
  rewrite (login_run_app _ _ _ _ _ _ (begun_sign_ins cfg key k now n' Hk Hmax Hr 1 ltac:(lia) ltac:(lia))).
  rewrite <- Hn.
  rewrite (refusals_repeat cfg key k now (mkAdminData {[ k := mkLoginAttempt 0 (max_tries cfg) now None ]} ∅) times Hk
             (lookup_singleton_eq _ _) Hmax eq_refl).
  done.
Qed.

Lemma cancelled_logins_lock_out_witness :
  option_map fst (login_run example_admin
     [Begins example_login 0; Begins example_login 0; Begins example_login (from_secs 31536000)] (mkAdminData ∅ ∅))
  = Some [true; true; false].
Proof.
  pose proof (cancelled_logins_lock_out example_admin example_login example_login 0 [from_secs 31536000]
                eq_refl ltac:(vm_compute; discriminate) eq_refl) as H.
  change (Z.to_nat (Z.max (max_login_attempts example_admin) 1)) with 2%nat in H.
  cbn [replicate app map] in H. rewrite H. reflexivity.
Defined.

(** The failures of an IPv6 client are counted under its /64 block, but a successful sign-in clears
    the count of its full address: the count of the block stays, unless the client has the first
    address of the block.  An IPv4 client starts again from zero. *)
Theorem success_keeps_ipv6_count ip key d d' :
  record_successful_login ip key d = Some d' ->
  ban_tracker d' !! canonical_client_ip ip
  = if bool_decide (canonical_client_ip ip = ip) then None else ban_tracker d !! canonical_client_ip ip.
Proof.
  unfold record_successful_login. destruct (clear _ _) as [m|]; [|done]. intros [= <-].
  cbn [ban_tracker]. unfold ban_clear. case_bool_decide as E.
  - rewrite E. apply lookup_delete_eq.
  - by apply lookup_delete_ne.
Qed.

(** Ten mistyped passwords in a minute, a success after each: the IPv6 client is banned. *)
Definition mistyped (ip : IpAddr) (n : Z) : list LoginEvent :=
  let key := (canonical_client_ip ip, "admin") in
  [Begins key n; Fails key n 0; Begins key n; SignsIn ip key].

Definition ten_mistakes (ip : IpAddr) : list LoginEvent :=
  flat_map (mistyped ip) (map Z.of_nat (seq 0 10)) ++ [Begins (canonical_client_ip ip, "admin") 10].

Definition default_admin : AdminConfig := mkAdminConfig 5 (from_secs 300).

Lemma success_keeps_ipv6_count_witness :
  (let d := mkAdminData ∅ {[ V6 (8193 * 2 ^ 112) := mkIpAttempt 3 0 None 0 ]} in
   forall d', record_successful_login (V6 (8193 * 2 ^ 112 + 1)) example_login d = Some d' ->
   option_map ip_failures (ban_tracker d' !! V6 (8193 * 2 ^ 112)) = Some 3)
  /\ option_map (fun r => last (fst r)) (login_run default_admin (ten_mistakes (V6 (8193 * 2 ^ 112 + 1))) (mkAdminData ∅ ∅))
     = Some (Some false)
  /\ option_map (fun r => last (fst r)) (login_run default_admin (ten_mistakes (V4 3405803785)) (mkAdminData ∅ ∅))
     = Some (Some true).
Proof.
  split; [|split; vm_compute; reflexivity].
  intros d d' H.
  pose proof (success_keeps_ipv6_count (V6 (8193 * 2 ^ 112 + 1)) example_login d d' H) as He.
  rewrite bool_decide_false in He by (vm_compute; discriminate).
  replace (V6 (8193 * 2 ^ 112)) with (canonical_client_ip (V6 (8193 * 2 ^ 112 + 1))) by (vm_compute; reflexivity).
  rewrite He. vm_compute. reflexivity.
Defined.

(** Behind a trusted proxy that appends the address of its client to [X-Forwarded-For], the limits
    and the bans of the admin API apply to the first address of the header, which the client of that
    proxy wrote itself. *)
Theorem admin_client_ip_spoofable `{NETS : IpNets} trusted peer claimed claimed_text added real_ip :
  in_nets trusted peer = true ->
  char_free "," claimed_text = true -> parse_ip (trim claimed_text) = Some claimed ->
  resolve_client_ip trusted peer (Some (claimed_text ++ "," ++ added)%string) real_ip = claimed.
Proof.
  intros Ht Hs Hp. unfold resolve_client_ip, header_ip. rewrite Ht. cbn [negb].
  change (claimed_text ++ "," ++ added)%string with (claimed_text ++ String "," added)%string.
  unfold split_on. rewrite (split_by_append _ _ _ _ Hs (Ascii.eqb_refl _)). by rewrite Hp.
Qed.

Lemma admin_client_ip_spoofable_witness :
  resolve_client_ip (NETS := plain_nets) [(V4 167772160, 8)] (V4 167772161)
    (Some "198.51.100.7, 203.0.113.9") None = V4 3325256711.
Proof.
  exact (admin_client_ip_spoofable (NETS := plain_nets) [(V4 167772160, 8)] (V4 167772161) (V4 3325256711)
           "198.51.100.7" " 203.0.113.9" None ltac:(vm_compute; reflexivity) ltac:(vm_compute; reflexivity)
           ltac:(vm_compute; reflexivity)).
Defined.

(** A user name of more than 128 bytes whose 129th byte is inside a character stops the handler
    with a panic, before any limit counts it. *)
Theorem bounded_key_panics ip rest now cfg d :
  let name := (String.string_of_list_ascii (repeat "a"%char 127) ++ String (Ascii.ascii_of_nat 195) (String (Ascii.ascii_of_nat 169) rest))%string in
  bounded_key (ip, name) = None
  /\ (ban_tracker d = ∅ -> login_step cfg (Begins (ip, name) now) d = None).
Proof.
  intros name. assert (Hb : bounded_key (ip, name) = None) by reflexivity.
  split; [exact Hb|]. intros Hd. cbn [login_step]. unfold ensure_login_allowed, acquire. rewrite Hb, Hd.
  cbn [fst snd]. by rewrite nobody_banned.
Qed.
