(* ===== verification/Accounts.v ===== *)
(** * Accounts of the admin API

    [accounts.rs] (callers, permissions and the directory of the accounts), [rpc/accounts.rs] (the
    calls that change the accounts, with the gate of [ServerState::call_method]), and
    [config/account.rs] (the check of a sign-in request against the stored accounts).  Argon2, TOTP,
    the digests, the signatures and the JSON of a passkey are an interface; random values are
    arguments; the storage is a map whose reads and writes succeed. *)

From Stdlib Require Import Ascii.
From S2P Require Import Prelude Basics Net.

(** ** Data *)

Inductive Role : Type := Admin | Editor | Viewer.

Inductive TokenScope : Type := TokenRead | TokenEdit.

#[export] Instance Role_eq_dec : EqDecision Role.
Proof. solve_decision. Defined.

#[export] Instance TokenScope_eq_dec : EqDecision TokenScope.
Proof. solve_decision. Defined.

Definition is_admin (r : Role) : bool := match r with Admin => true | _ => false end.

Record ApiToken : Type := mkApiToken {
  token_id : string;
  token_name : string;
  token_hash : string;
  token_scope : TokenScope;
  token_created_at : Z;
}.

Record PasskeyCredential : Type := mkPasskey {
  passkey_id : string;
  passkey_name : string;
  public_key : string;
  counter : Z;
  passkey_created_at : Z;
}.

Record Account : Type := mkAccount {
  password : string;
  totp : option string;
  totp_step : Z;
  role : Role;
  proxies : option (gset ShortId);
  credentials_changed_at : Z;
  passkeys : list PasskeyCredential;
  tokens : list ApiToken;
}.

Notation Accounts := (gmap string Account).

(** ** Callers *)

Inductive Permission : Type := PermRead | EditProxies | PermEdit | PermAdmin.

Record Caller : Type := mkCaller {
  caller_name : string;
  caller_role : Role;
  caller_proxies : option (gset ShortId);
  client : option IpAddr;
}.

Definition Caller_system : Caller := mkCaller "" Admin None None.

Definition allows (c : Caller) (p : Permission) : bool :=
  match p with
  | PermRead => true
  | EditProxies => negb (bool_decide (caller_role c = Viewer))
  | PermEdit => is_admin (caller_role c) || (bool_decide (caller_role c = Editor) && is_none (caller_proxies c))
  | PermAdmin => is_admin (caller_role c)
  end.

Definition authorize (c : Caller) (p : Permission) : result unit Error :=
  if allows c p then Ok tt else Err Forbidden.

Definition authorize_platform (c : Caller) (p : Permission) : result unit Error :=
  if is_some (caller_proxies c) then Err Forbidden else authorize c p.

Definition can_see (c : Caller) (proxy : ShortId) : bool :=
  is_none_or (fun ps => bool_decide (proxy ∈ ps)) (caller_proxies c).

Definition ensure_visible `{HEX : Hex} (c : Caller) (proxy : ShortId) : result unit Error :=
  if can_see c proxy then Ok tt else Err (IdNotFound (ShortId_to_string proxy)).

(** ** The directory *)

Record AccountEntry : Type := mkAccountEntry {
  entry_role : Role;
  entry_proxies : option (gset ShortId);
  entry_changed_at : Z;
  passkey_ids : list string;
  entry_tokens : list ApiToken;
}.

Notation AccountDirectory := (gmap string AccountEntry).

Definition to_millis (timestamp : Z) : Z :=
  if (0 <? timestamp) && (timestamp <? 10000000000) then timestamp * 1000 else timestamp.

Definition entry_of (a : Account) : AccountEntry :=
  mkAccountEntry (role a) (proxies a) (credentials_changed_at a) (map passkey_id (passkeys a)) (tokens a).

Definition AccountDirectory_new (accounts : Accounts) : AccountDirectory := entry_of <$> accounts.

(** [find_map] over the entries, in the order of [map_to_list]. *)
Definition find_by_passkey (credential_id : string) (d : AccountDirectory) : option string :=
  option_map fst (find (fun kv => existsb (String.eqb credential_id) (passkey_ids kv.2)) (map_to_list d)).

Definition entry_token_caller (hash : string) (kv : string * AccountEntry) : option Caller :=
  match find (fun t => String.eqb (token_hash t) hash) (entry_tokens kv.2) with
  | None => None
  | Some t =>
      if to_millis (token_created_at t) <? to_millis (entry_changed_at kv.2) then None
      else Some (mkCaller kv.1 (match token_scope t with TokenRead => Viewer | TokenEdit => entry_role kv.2 end)
                          (entry_proxies kv.2) None)
  end.

Definition token_caller (hash : string) (d : AccountDirectory) : option Caller :=
  head (omap (entry_token_caller hash) (map_to_list d)).

Definition account_caller (username : string) (started_at : Z) (d : AccountDirectory) : option Caller :=
  match d !! username with
  | None => None
  | Some e =>
      if to_millis (entry_changed_at e) <=? to_millis started_at
      then Some (mkCaller username (entry_role e) (entry_proxies e) None) else None
  end.

Definition can_open (username : string) (started_at : Z) (proxy : ShortId) (d : AccountDirectory) : bool :=
  is_some_and (fun c => can_see c proxy) (account_caller username started_at d).

(** ** Names *)

(** [':'], ['/'], [char::is_control] (C0, DEL and the two bytes of C1) and [char::is_whitespace]. *)
Fixpoint has_invalid_char (s : string) : bool :=
  match s with
  | EmptyString => false
  | String a r =>
      Ascii.eqb a ":" || Ascii.eqb a "/" || (byte_of a <? 32) || (byte_of a =? 127) || is_ws1 a
      || match r with
         | String b r2 =>
             ((byte_of a =? 194) && in_range 128 159 (byte_of b)) || is_ws2 a b
             || match r2 with String c _ => is_ws3 a b c | EmptyString => false end
         | EmptyString => false
         end
      || has_invalid_char r
  end.

(** [chars().count()]: the bytes that do not continue a character. *)
Definition char_count (s : string) : Z :=
  Z.of_nat (length (List.filter (fun b => negb (in_range 128 191 b)) (as_bytes s))).

Definition MAX_USERNAME_LENGTH : Z := 64.
Definition MIN_PASSWORD_LENGTH : Z := 8.

Definition validate_username (username : string) : result unit Error :=
  if str_is_empty username || (MAX_USERNAME_LENGTH <? char_count username) || has_invalid_char username
     || eq_ignore_ascii_case username "version"
  then Err (InvalidUsername username) else Ok tt.

(** An admin sees every proxy. *)
Definition validate_scope (r : Role) (ps : option (gset ShortId)) : result unit Error :=
  if is_admin r && is_some ps then Err InvalidAccountScope else Ok tt.

Definition ensure_admin_remains (accounts : Accounts) : result unit Error :=
  if existsb (fun kv => is_admin (role kv.2)) (map_to_list accounts) then Ok tt else Err LastAdmin.

(** ** The calls that change the accounts *)

(** The crates: Argon2 (the salt is drawn by the caller), [totp_rs] at the current time, the two
    encodings, SHA-256, ECDSA P-256, and the host of the origin in the JSON of a passkey. *)
Class AuthCrypto : Type := {
  hash_password : string -> string -> option string;
  verify_hash : string -> string -> bool;
  totp_check_current : string -> string -> Z -> option Z;
  hex_decode : string -> option (list Z);
  url_decode : string -> option (list Z);
  std_decode : string -> option (list Z);
  digest : list Z -> list Z;
  p256_verify : list Z -> list Z -> list Z -> bool;
  origin_host : list Z -> option (list Z);
  hash_token : string -> string;
}.

Section Calls.
Context `{CRYPTO : AuthCrypto}.

(** [salt] and [secret] are random; [unix] is [unix_ms()]. *)
Definition new_account (pw : string) (salt secret : string) (with_totp : bool) (unix : Z) : option Account :=
  option_map (fun h => mkAccount h (if with_totp then Some secret else None) 0 Admin None unix [] []) (hash_password salt pw).

Definition hash_account (pw salt secret : string) (with_totp : bool) (unix : Z) : result Account Error :=
  if char_count pw <? MIN_PASSWORD_LENGTH then Err (PasswordTooShort MIN_PASSWORD_LENGTH)
  else match new_account pw salt secret with_totp unix with Some a => Ok a | None => Err FailedToHashPassword end.

Record NewAccount : Type := mkNewAccount {
  new_username : string;
  new_password : string;
  new_role : Role;
  new_proxies : option (gset ShortId);
  new_totp : bool;
}.

Record AccountUpdate : Type := mkAccountUpdate {
  update_role : Role;
  update_proxies : option (gset ShortId);
  update_password : option string;
}.

Definition apply_update (a : Account) (u : AccountUpdate) (pw : option string) (unix : Z) : Account :=
  let changed := negb (bool_decide (role a = update_role u)) || negb (bool_decide (proxies a = update_proxies u)) || is_some pw in
  mkAccount (unwrap_or pw (password a)) (totp a) (totp_step a) (update_role u) (update_proxies u)
    (if changed then unix else credentials_changed_at a) (passkeys a) (tokens a).

Definition set_passkeys (l : list PasskeyCredential) (a : Account) : Account :=
  mkAccount (password a) (totp a) (totp_step a) (role a) (proxies a) (credentials_changed_at a) l (tokens a).

Definition set_tokens (l : list ApiToken) (a : Account) : Account :=
  mkAccount (password a) (totp a) (totp_step a) (role a) (proxies a) (credentials_changed_at a) (passkeys a) l.

Definition set_totp_step (s : Z) (a : Account) : Account :=
  mkAccount (password a) (totp a) s (role a) (proxies a) (credentials_changed_at a) (passkeys a) (tokens a).

(** [edit_accounts] saves the accounts only when the edit succeeds. *)
Definition add_account (n : NewAccount) (salt secret : string) (unix : Z) (accounts : Accounts) : result Accounts Error :=
  match validate_username (new_username n) with Err e => Err e | Ok _ =>
  match validate_scope (new_role n) (new_proxies n) with Err e => Err e | Ok _ =>
  match hash_account (new_password n) salt secret (new_totp n) unix with Err e => Err e | Ok a =>
  let a := mkAccount (password a) (totp a) (totp_step a) (new_role n) (new_proxies n) unix (passkeys a) (tokens a) in
  match accounts !! new_username n with
  | Some _ => Err (AccountExists (new_username n))
  | None => Ok (<[ new_username n := a ]> accounts)
  end end end end.

Definition hash_optional_password (pw : option string) (salt : string) (unix : Z) : result (option string) Error :=
  match pw with
  | None => Ok None
  | Some p => match hash_account p salt "" false unix with Err e => Err e | Ok a => Ok (Some (password a)) end
  end.

Definition update_account (actor username : string) (u : AccountUpdate) (salt : string) (unix : Z) (accounts : Accounts)
  : result Accounts Error :=
  if String.eqb actor username && negb (is_admin (update_role u)) then Err CannotChangeOwnAccount
  else
    match validate_scope (update_role u) (update_proxies u) with Err e => Err e | Ok _ =>
    match hash_optional_password (update_password u) salt unix with Err e => Err e | Ok pw =>
    match accounts !! username with
    | None => Err (AccountNotFound username)
    | Some a =>
        let accounts := <[ username := apply_update a u pw unix ]> accounts in
        match ensure_admin_remains accounts with Err e => Err e | Ok _ => Ok accounts end
    end end end.

Definition delete_account (actor username : string) (accounts : Accounts) : result Accounts Error :=
  if String.eqb actor username then Err CannotChangeOwnAccount
  else match accounts !! username with
       | None => Err (AccountNotFound username)
       | Some _ =>
           let accounts := delete username accounts in
           match ensure_admin_remains accounts with Err e => Err e | Ok _ => Ok accounts end
       end.

Definition edit_account (username : string) (f : Account -> result Account Error) (accounts : Accounts) : result Accounts Error :=
  match accounts !! username with
  | None => Err (AccountNotFound username)
  | Some a => match f a with Err e => Err e | Ok a => Ok (<[ username := a ]> accounts) end
  end.

Definition register_passkey (username : string) (credential : PasskeyCredential) : Accounts -> result Accounts Error :=
  edit_account username (fun a =>
    Ok (set_passkeys (List.filter (fun p => negb (String.eqb (passkey_id p) (passkey_id credential))) (passkeys a) ++ [credential]) a)).

Definition delete_passkey (username credential_id : string) : Accounts -> result Accounts Error :=
  edit_account username (fun a =>
    let l := List.filter (fun p => negb (String.eqb (passkey_id p) credential_id)) (passkeys a) in
    if Nat.eqb (length l) (length (passkeys a)) then Err (IdNotFound credential_id) else Ok (set_passkeys l a)).

(** [raw] and [id] are random. *)
Definition create_api_token (username name : string) (scope : TokenScope) (raw id : string) (unix : Z) (accounts : Accounts)
  : result Accounts Error :=
  if str_is_empty (trim name) then Err (InvalidTokenName name)
  else edit_account username (fun a =>
    if bool_decide (scope = TokenEdit) && bool_decide (role a = Viewer) then Err Forbidden
    else Ok (set_tokens (List.filter (fun t => negb (String.eqb (token_id t) id)) (tokens a)
                         ++ [mkApiToken id (trim name) (hash_token raw) scope unix]) a)) accounts.

Definition delete_api_token (username id : string) : Accounts -> result Accounts Error :=
  edit_account username (fun a =>
    let l := List.filter (fun t => negb (String.eqb (token_id t) id)) (tokens a) in
    if Nat.eqb (length l) (length (tokens a)) then Err (IdNotFound id) else Ok (set_tokens l a)).

Definition set_proxies (ps : option (gset ShortId)) (a : Account) : Account :=
  mkAccount (password a) (totp a) (totp_step a) (role a) ps (credentials_changed_at a) (passkeys a) (tokens a).

(** [ServerState::grant_proxy]: the account that creates a proxy sees it. *)
Definition grant_proxy (username : string) (proxy : ShortId) (accounts : Accounts) : Accounts :=
  match accounts !! username with
  | Some a => match proxies a with
              | Some ps => <[ username := set_proxies (Some ({[proxy]} ∪ ps)) a ]> accounts
              | None => accounts
              end
  | None => accounts
  end.

(** [ServerState::revoke_proxy]: a deleted proxy leaves every list. *)
Definition revoke_proxy (proxy : ShortId) (accounts : Accounts) : Accounts :=
  (fun a => set_proxies (option_map (fun ps => ps ∖ {[proxy]}) (proxies a)) a) <$> accounts.

(** [SqliteStorage::add_account], which the command [add-user] runs on the storage. *)
Definition storage_add_account (name pw : string) (with_totp : bool) (r : Role) (salt secret : string) (unix : Z) (accounts : Accounts)
  : result Accounts Error :=
  match validate_username name with
  | Err e => Err e
  | Ok _ =>
      match new_account pw salt secret with_totp unix with
      | None => Err FailedToCreateAccount
      | Some a =>
          let changed := match accounts !! name with
                         | Some prev => Z.max (credentials_changed_at a) (credentials_changed_at prev)
                         | None => credentials_changed_at a
                         end in
          Ok (<[ name := mkAccount (password a) (totp a) (totp_step a) r (proxies a) changed (passkeys a) (tokens a) ]> accounts)
      end
  end.

Inductive AccountCall : Type :=
| AddAccount (n : NewAccount) (salt secret : string)
| UpdateAccount (actor username : string) (u : AccountUpdate) (salt : string)
| DeleteAccount (actor username : string)
| RegisterPasskey (username : string) (credential : PasskeyCredential)
| DeletePasskey (username credential_id : string)
| CreateApiToken (username name : string) (scope : TokenScope) (raw id : string)
| DeleteApiToken (username id : string).

(** The [PERMISSION] of each method. *)
Definition call_permission (m : AccountCall) : Permission :=
  match m with
  | AddAccount _ _ _ | UpdateAccount _ _ _ _ | DeleteAccount _ _ => PermAdmin
  | _ => PermRead
  end.

Definition run_call (m : AccountCall) (unix : Z) (accounts : Accounts) : result Accounts Error :=
  match m with
  | AddAccount n salt secret => add_account n salt secret unix accounts
  | UpdateAccount actor username u salt => update_account actor username u salt unix accounts
  | DeleteAccount actor username => delete_account actor username accounts
  | RegisterPasskey username credential => register_passkey username credential accounts
  | DeletePasskey username id => delete_passkey username id accounts
  | CreateApiToken username name scope raw id => create_api_token username name scope raw id unix accounts
  | DeleteApiToken username id => delete_api_token username id accounts
  end.

(** [ServerState::call_method], for a storage that can write. *)
Definition call_method (c : Caller) (m : AccountCall) (unix : Z) (accounts : Accounts) : result Accounts Error :=
  match authorize c (call_permission m) with Err e => Err e | Ok _ => run_call m unix accounts end.

(** The methods that the handlers of the admin API build for a caller: an account changes only its own
    passkeys and tokens, and is the actor of the changes of others. *)
Definition own_call (c : Caller) (m : AccountCall) : bool :=
  match m with
  | AddAccount _ _ _ => true
  | UpdateAccount actor _ _ _ | DeleteAccount actor _ => String.eqb actor (caller_name c)
  | RegisterPasskey username _ | DeletePasskey username _ | DeleteApiToken username _ => String.eqb username (caller_name c)
  | CreateApiToken username _ scope _ _ =>
      String.eqb username (caller_name c)
      && negb (bool_decide (caller_role c = Viewer) && bool_decide (scope = TokenEdit))
  end.

End Calls.

(** ** The check of a sign-in *)

Inductive LoginMethod : Type :=
| Password (password : string)
| Totp (token : string)
| Passkey (credential_id authenticator_data client_data_json signature : string).

Record LoginRequest : Type := mkLoginRequest { username : string; method : LoginMethod }.

Inductive LoginResponse : Type := Success | TotpRequired.

(** [trim_end_matches('=')]. *)
Definition trim_padding (s : string) : string :=
  let fix go (l : list ascii) := match l with c :: r => if Ascii.eqb c "=" then go r else l | [] => [] end in
  String.string_of_list_ascii (rev (go (rev (String.list_ascii_of_string s)))).

Section Verify.
Context `{CRYPTO : AuthCrypto}.

Definition decode_base64_or_hex (input : string) : option (list Z) :=
  let trimmed := trim_padding (trim input) in
  match hex_decode trimmed with
  | Some b => Some b
  | None => match url_decode trimmed with Some b => Some b | None => std_decode trimmed end
  end.

Definition decode_p256_public_key (input : string) : option (list Z) :=
  match decode_base64_or_hex input with
  | None => None
  | Some bytes =>
      if Nat.eqb (length bytes) 65 && bool_decide (bytes !! 0%nat = Some 4) then Some bytes
      else if Nat.eqb (length bytes) 91 && bool_decide (bytes !! 26%nat = Some 4) then Some (drop 26 bytes)
      else None
  end.

Definition be_u32 (l : list Z) : Z := fold_left (fun acc b => acc * 256 + b) l 0.

Definition check_auth_data (auth_data : list Z) (stored_counter : Z) (expected_rp_id : option (list Z)) : result Z Error :=
  if Nat.ltb (length auth_data) 37 then Err InvalidLoginCredentials
  else if is_some_and (fun rp => negb (bool_decide (take 32 auth_data = digest rp))) expected_rp_id then Err InvalidLoginCredentials
  else if Z.land (nth 32 auth_data 0) 1 =? 0 then Err InvalidLoginCredentials
  else
    let c := be_u32 (take 4 (drop 33 auth_data)) in
    if (0 <? stored_counter) && (0 <? c) && (c <=? stored_counter) then Err InvalidLoginCredentials else Ok c.

Definition verify_p256_signature (public_key : string) (auth_data client_data sig : list Z) : result unit Error :=
  match decode_p256_public_key public_key with
  | None => Err InvalidLoginCredentials
  | Some pk => if p256_verify pk (auth_data ++ digest client_data) sig then Ok tt else Err InvalidLoginCredentials
  end.

(** The new counter of the credential, when the signature is accepted. *)
Definition check_credential (c : PasskeyCredential) (auth_data_b64 client_data_b64 sig_b64 : string) : result Z Error :=
  match decode_base64_or_hex auth_data_b64, decode_base64_or_hex client_data_b64, decode_base64_or_hex sig_b64 with
  | Some auth_data, Some client_data, Some sig =>
      match check_auth_data auth_data (counter c) (origin_host client_data) with
      | Err e => Err e
      | Ok n => match verify_p256_signature (public_key c) auth_data client_data sig with Err e => Err e | Ok _ => Ok n end
      end
  | _, _, _ => Err InvalidLoginCredentials
  end.

Definition set_counter (n : Z) (c : PasskeyCredential) : PasskeyCredential :=
  mkPasskey (passkey_id c) (passkey_name c) (public_key c) n (passkey_created_at c).

(** The first credential of the id, changed in place. *)
Fixpoint update_first (id : string) (f : PasskeyCredential -> PasskeyCredential) (l : list PasskeyCredential) :=
  match l with
  | [] => []
  | c :: r => if String.eqb (passkey_id c) id then f c :: r else c :: update_first id f r
  end.

Definition verify_passkey_credential (a : Account) (id auth_data client_data sig : string)
  : result (LoginResponse * bool) Error * Account :=
  match find (fun pk => String.eqb (passkey_id pk) id) (passkeys a) with
  | None => (Err InvalidLoginCredentials, a)
  | Some c =>
      match check_credential c auth_data client_data sig with
      | Err e => (Err e, a)
      | Ok n =>
          if counter c <? n
          then (Ok (Success, true), set_passkeys (update_first id (set_counter n) (passkeys a)) a)
          else (Ok (Success, false), a)
      end
  end.

Definition verify_password (a : Account) (pw : string) : result LoginResponse Error :=
  if verify_hash (password a) pw then Ok (if is_some (totp a) then TotpRequired else Success) else Err InvalidLoginCredentials.

Definition verify_totp (a : Account) (token : string) (unix : Z) : result LoginResponse Error * Account :=
  match totp a with
  | None => (Err InvalidLoginCredentials, a)
  | Some secret =>
      match totp_check_current secret token unix with
      | None => (Err InvalidLoginCredentials, a)
      | Some step =>
          if step <=? totp_step a then (Err InvalidLoginCredentials, a)
          else (Ok Success, set_totp_step step a)
      end
  end.

Definition find_account_for_passkey (accounts : Accounts) (username credential_id : string) : option (string * Account) :=
  if negb (str_is_empty username) then option_map (pair username) (accounts !! username)
  else find (fun kv => existsb (fun pk => String.eqb (passkey_id pk) credential_id) (passkeys kv.2)) (map_to_list accounts).

(** The accounts that [verify_account] saves: the changed ones of an accepted request only. *)
Definition verify_account (r : LoginRequest) (unix : Z) (accounts : Accounts) : result LoginResponse Error * Accounts :=
  match method r with
  | Password pw =>
      match accounts !! username r with
      | None => (Err InvalidLoginCredentials, accounts)
      | Some a => (verify_password a pw, accounts)
      end
  | Totp token =>
      match accounts !! username r with
      | None => (Err InvalidLoginCredentials, accounts)
      | Some a =>
          match verify_totp a token unix with
          | (Ok resp, a) => (Ok resp, <[ username r := a ]> accounts)
          | (Err e, _) => (Err e, accounts)
          end
      end
  | Passkey id auth_data client_data sig =>
      match find_account_for_passkey accounts (username r) id with
      | None => (Err InvalidLoginCredentials, accounts)
      | Some (name, a) =>
          match verify_passkey_credential a id auth_data client_data sig with
          | (Ok (resp, updated), a) => (Ok resp, if updated then <[ name := a ]> accounts else accounts)
          | (Err e, _) => (Err e, accounts)
          end
      end
  end.

End Verify.

(** ** The invariant of the stored accounts *)

(** Every name is valid, an admin has no proxy list, and one admin is left. *)
Record accounts_valid (accounts : Accounts) : Prop := {
  names_valid name : is_Some (accounts !! name) -> validate_username name = Ok tt;
  scopes_valid name a : accounts !! name = Some a -> validate_scope (role a) (proxies a) = Ok tt;
  admin_left : exists name a, accounts !! name = Some a /\ role a = Admin;
}.

(** The names are valid, and no admin has a proxy list. *)
Record accounts_formed (accounts : Accounts) : Prop := {
  names_formed name : is_Some (accounts !! name) -> validate_username name = Ok tt;
  scopes_formed name a : accounts !! name = Some a -> validate_scope (role a) (proxies a) = Ok tt;
}.

Definition has_admin (accounts : Accounts) : Prop := exists name a, accounts !! name = Some a /\ role a = Admin.

Lemma accounts_valid_split accounts : accounts_valid accounts <-> accounts_formed accounts /\ has_admin accounts.
Proof. split; [intros [H1 H2 H3]|intros [[H1 H2] H3]]; by repeat split. Qed.

Lemma ensure_admin_remains_true accounts :
  ensure_admin_remains accounts = Ok tt <-> exists name a, accounts !! name = Some a /\ role a = Admin.
Proof.
  unfold ensure_admin_remains. destruct (existsb _ _) eqn:E.
  - split; [intros _|done]. apply existsb_exists in E as ([name a] & Hin & Ha).
    exists name, a. split; [apply elem_of_map_to_list; by apply list_elem_of_In|]. cbn in Ha. by destruct (role a).
  - split; [done|]. intros (name & a & Hl & Hr). exfalso. apply not_true_iff_false in E. apply E, existsb_exists.
    exists (name, a). split; [apply list_elem_of_In; by apply elem_of_map_to_list|]. cbn. by rewrite Hr.
Qed.

(** A change of one account that keeps its role and its proxy list keeps the invariant. *)
Lemma accounts_formed_insert accounts name a a' :
  accounts_formed accounts -> accounts !! name = Some a -> role a' = role a -> proxies a' = proxies a ->
  accounts_formed (<[ name := a' ]> accounts).
Proof.
  intros [Hn Hs] Ha Er Ep. split; intros n.
  - rewrite lookup_insert. case_decide as E; [subst n; intros _; apply Hn; by eexists|apply Hn].
  - intros x. rewrite lookup_insert. case_decide as E; [|by apply Hs]. intros [= <-]. rewrite Er, Ep. by apply (Hs name).
Qed.

Lemma has_admin_insert accounts name a a' :
  has_admin accounts -> accounts !! name = Some a -> role a' = role a -> has_admin (<[ name := a' ]> accounts).
Proof.
  intros (adm & b & Hb & Hr) Ha Er. destruct (decide (adm = name)) as [->|Hne].
  - exists name, a'. rewrite lookup_insert_eq. split; [done|]. rewrite Er. congruence.
  - exists adm, b. by rewrite lookup_insert_ne by done.
Qed.

Section Steps.
Context `{CRYPTO : AuthCrypto}.

(** The accounts after one call, one sign-in check, a new or a deleted proxy, or the command
    [add-user]; [allowed] picks the calls, [at_time] the times of the clock, and [by_hand] the names
    and roles of the command. *)
Inductive account_step (allowed : AccountCall -> Prop) (at_time : Z -> Prop) (by_hand : string -> Role -> Accounts -> Prop)
  : Accounts -> Accounts -> Prop :=
| step_call c m unix accounts accounts' :
    allowed m -> at_time unix -> call_method c m unix accounts = Ok accounts' ->
    account_step allowed at_time by_hand accounts accounts'
| step_verify r unix accounts :
    at_time unix -> account_step allowed at_time by_hand accounts (snd (verify_account r unix accounts))
| step_grant username proxy accounts : account_step allowed at_time by_hand accounts (grant_proxy username proxy accounts)
| step_revoke proxy accounts : account_step allowed at_time by_hand accounts (revoke_proxy proxy accounts)
| step_add_user name pw with_totp r salt secret unix accounts accounts' :
    by_hand name r accounts -> at_time unix -> storage_add_account name pw with_totp r salt secret unix accounts = Ok accounts' ->
    account_step allowed at_time by_hand accounts accounts'.

(** The command keeps an admin: the account is one, or another one is. *)
Definition keeps_admin (name : string) (r : Role) (accounts : Accounts) : Prop :=
  r = Admin \/ exists other a, other <> name /\ accounts !! other = Some a /\ role a = Admin.

(** A sign-in check changes a counter or the step of an accepted code, and nothing else. *)
Definition same_but_counters (a a' : Account) : Prop :=
  password a' = password a /\ totp a' = totp a /\ role a' = role a /\ proxies a' = proxies a
  /\ credentials_changed_at a' = credentials_changed_at a /\ tokens a' = tokens a
  /\ totp_step a <= totp_step a'.

Lemma find_account_in accounts name id n a :
  find_account_for_passkey accounts name id = Some (n, a) -> accounts !! n = Some a.
Proof.
  unfold find_account_for_passkey. destruct (negb _).
  - destruct (accounts !! name) eqn:E; [|done]. cbn. by intros [= <- <-].
  - intros H. apply List.find_some in H as [Hin _]. by apply elem_of_map_to_list, list_elem_of_In.
Qed.

Lemma verify_account_keeps r unix accounts accounts' resp :
  verify_account r unix accounts = (resp, accounts') ->
  accounts' = accounts
  \/ exists n a a', accounts !! n = Some a /\ same_but_counters a a' /\ accounts' = <[ n := a' ]> accounts.
Proof.
  unfold verify_account. destruct (method r) as [pw|token|id ad cd sg].
  - destruct (accounts !! _); intros [= _ <-]; by left.
  - destruct (accounts !! username r) as [a|] eqn:Ea; [|intros [= _ <-]; by left].
    unfold verify_totp. destruct (totp a) as [secret|] eqn:Et; [|intros [= _ <-]; by left].
    destruct (totp_check_current _ _ _) as [step|]; [|intros [= _ <-]; by left].
    destruct (step <=? totp_step a) eqn:El; intros [= _ <-]; [by left|]. right.
    exists (username r), a, (set_totp_step step a). apply Z.leb_gt in El.
    split; [done|]. split; [|done]. unfold same_but_counters. cbn. repeat split; lia.
  - destruct (find_account_for_passkey _ _ _) as [[n a]|] eqn:Ef; [|intros [= _ <-]; by left].
    apply find_account_in in Ef. unfold verify_passkey_credential.
    destruct (find _ _) as [c|]; [|intros [= _ <-]; by left].
    destruct (check_credential _ _ _ _) as [k|e]; [|intros [= _ <-]; by left].
    destruct (counter c <? k); intros [= _ <-]; [|by left]. right.
    exists n, a, (set_passkeys (update_first id (set_counter k) (passkeys a)) a).
    split; [done|]. split; [|done]. unfold same_but_counters. cbn. repeat split; lia.
Qed.

Lemma edit_account_keeps name f accounts accounts' :
  edit_account name f accounts = Ok accounts' ->
  exists a a', accounts !! name = Some a /\ f a = Ok a' /\ accounts' = <[ name := a' ]> accounts.
Proof.
  unfold edit_account. destruct (accounts !! name) as [a|] eqn:Ea; [|done].
  destruct (f a) as [a'|e] eqn:Ef; [|done]. intros [= <-]. by exists a, a'.
Qed.

(** What the calls on the passkeys and tokens leave of an account. *)
Definition same_credentials (a a' : Account) : Prop :=
  password a' = password a /\ totp a' = totp a /\ role a' = role a /\ proxies a' = proxies a
  /\ credentials_changed_at a' = credentials_changed_at a /\ totp_step a' = totp_step a.

Definition own_data_call (m : AccountCall) : bool :=
  match m with AddAccount _ _ _ | UpdateAccount _ _ _ _ | DeleteAccount _ _ => false | _ => true end.

Lemma own_data_call_keeps m unix accounts accounts' :
  own_data_call m = true -> run_call m unix accounts = Ok accounts' ->
  exists n a a', accounts !! n = Some a /\ same_credentials a a' /\ accounts' = <[ n := a' ]> accounts.
Proof.
  intros Hm Hr. destruct m as [| | |name cr|name id|name tn sc raw id|name id]; try done; cbn [run_call] in Hr.
  3: unfold create_api_token in Hr; destruct (str_is_empty (trim tn)); [done|].
  all: apply edit_account_keeps in Hr as (a & a' & Ha & Hf & ->); exists name, a, a'; split; [done|split; [|done]].
  - injection Hf as <-. done.
  - cbn zeta in Hf. destruct (Nat.eqb _ _); [done|]. by injection Hf as <-.
  - destruct (_ && _); [done|]. by injection Hf as <-.
  - cbn zeta in Hf. destruct (Nat.eqb _ _); [done|]. by injection Hf as <-.
Qed.

Lemma call_method_runs c m unix accounts accounts' :
  call_method c m unix accounts = Ok accounts' -> run_call m unix accounts = Ok accounts' /\ allows c (call_permission m) = true.
Proof. unfold call_method, authorize. by destruct (allows c (call_permission m)). Qed.

Lemma add_account_inv n salt secret unix accounts accounts' :
  add_account n salt secret unix accounts = Ok accounts' ->
  validate_username (new_username n) = Ok tt /\ validate_scope (new_role n) (new_proxies n) = Ok tt
  /\ accounts !! new_username n = None
  /\ exists a, role a = new_role n /\ proxies a = new_proxies n /\ credentials_changed_at a = unix /\ tokens a = []
       /\ accounts' = <[ new_username n := a ]> accounts.
Proof.
  unfold add_account. destruct (validate_username _) as [[]|]; [|done]. destruct (validate_scope _ _) as [[]|]; [|done].
  unfold hash_account, new_account. destruct (_ <? _); [done|]. destruct (hash_password _ _) as [h|]; [|done].
  cbn [option_map]. destruct (accounts !! _); [done|]. intros [= <-].
  split; [done|]. split; [done|]. split; [done|]. eexists. split; [|split; [|split; [|split; [|reflexivity]]]]; reflexivity.
Qed.

Lemma update_account_inv actor name u salt unix accounts accounts' :
  update_account actor name u salt unix accounts = Ok accounts' ->
  exists a pw, accounts !! name = Some a /\ accounts' = <[ name := apply_update a u pw unix ]> accounts
    /\ is_some pw = is_some (update_password u)
    /\ validate_scope (update_role u) (update_proxies u) = Ok tt /\ ensure_admin_remains accounts' = Ok tt.
Proof.
  unfold update_account. destruct (_ && _); [done|]. destruct (validate_scope _ _) as [[]|]; [|done].
  destruct (hash_optional_password _ _ _) as [pw|] eqn:Eh; [|done]. destruct (accounts !! name) as [a|]; [|done].
  cbn zeta. destruct (ensure_admin_remains _) as [[]|] eqn:Ee; [|done]. intros [= <-].
  exists a, pw. split; [done|]. split; [done|]. split; [|done].
  unfold hash_optional_password in Eh. destruct (update_password u) as [p|]; [|by injection Eh as <-].
  destruct (hash_account _ _ _ _ _); [|done]. by injection Eh as <-.
Qed.

Lemma delete_account_inv actor name accounts accounts' :
  delete_account actor name accounts = Ok accounts' ->
  accounts' = delete name accounts /\ ensure_admin_remains accounts' = Ok tt.
Proof.
  unfold delete_account. destruct (String.eqb _ _); [done|]. destruct (accounts !! name); [|done].
  cbn zeta. destruct (ensure_admin_remains _) as [[]|] eqn:Ee; [|done]. by intros [= <-].
Qed.

Lemma run_call_formed m unix accounts accounts' :
  accounts_formed accounts -> run_call m unix accounts = Ok accounts' -> accounts_formed accounts'.
Proof.
  intros Hf Hr. destruct (own_data_call m) eqn:Em.
  { destruct (own_data_call_keeps m unix accounts accounts' Em Hr) as (n & a & a' & Ha & (_ & _ & Er & Ep & _) & ->).
    by eapply accounts_formed_insert. }
  destruct Hf as [Hn Hs]. destruct m as [n salt secret|actor name u salt|actor name| | | |]; try done; cbn [run_call] in Hr.
  - apply add_account_inv in Hr as (Hname & Hscope & _ & a & Er & Ep & _ & _ & ->). split; intros x.
    + rewrite lookup_insert. case_decide as E; [by subst x|apply Hn].
    + intros y. rewrite lookup_insert. case_decide as E; [|by apply Hs]. intros [= <-]. by rewrite Er, Ep.
  - apply update_account_inv in Hr as (a & pw & Ha & -> & _ & Hscope & _). split; intros x.
    + rewrite lookup_insert. case_decide as E; [subst x; intros _; apply Hn; by eexists|apply Hn].
    + intros y. rewrite lookup_insert. case_decide as E; [|by apply Hs]. intros [= <-]. exact Hscope.
  - apply delete_account_inv in Hr as [-> _]. split; intros x.
    + intros [y Hx]. apply lookup_delete_Some in Hx as [_ Hx]. apply Hn. by eexists.
    + intros y Hx. apply lookup_delete_Some in Hx as [_ Hx]. by apply (Hs x).
Qed.

Lemma run_call_admin m unix accounts accounts' :
  has_admin accounts -> run_call m unix accounts = Ok accounts' -> has_admin accounts'.
Proof.
  intros Hb Hr. destruct (own_data_call m) eqn:Em.
  { destruct (own_data_call_keeps m unix accounts accounts' Em Hr) as (n & a & a' & Ha & (_ & _ & Er & _) & ->).
    by eapply has_admin_insert. }
  destruct Hb as (adm & b & Hb & Hrb).
  destruct m as [n salt secret|actor name u salt|actor name| | | |]; try done; cbn [run_call] in Hr.
  - apply add_account_inv in Hr as (_ & _ & Hnone & a & _ & _ & _ & _ & ->).
    exists adm, b. rewrite lookup_insert_ne; [done|]. intros E. congruence.
  - apply update_account_inv in Hr as (a & pw & _ & -> & _ & _ & Hadm). by apply ensure_admin_remains_true.
  - apply delete_account_inv in Hr as [-> Hadm]. by apply ensure_admin_remains_true.
Qed.

Lemma run_call_valid m unix accounts accounts' :
  accounts_valid accounts -> run_call m unix accounts = Ok accounts' -> accounts_valid accounts'.
Proof.
  intros [Hf Ha]%accounts_valid_split Hr. apply accounts_valid_split. split; [by eapply run_call_formed|by eapply run_call_admin].
Qed.

(** New and deleted proxies change nothing but the proxy lists, and give none to an account without. *)
Definition same_but_proxies (a a' : Account) : Prop :=
  role a' = role a /\ totp a' = totp a /\ totp_step a' = totp_step a /\ credentials_changed_at a' = credentials_changed_at a
  /\ is_some (proxies a') = is_some (proxies a) /\ tokens a' = tokens a.

Definition proxies_change (accounts accounts' : Accounts) : Prop :=
  forall name, match accounts !! name, accounts' !! name with
               | Some a, Some a' => same_but_proxies a a'
               | None, None => True
               | _, _ => False
               end.

Lemma grant_proxy_change username proxy accounts : proxies_change accounts (grant_proxy username proxy accounts).
Proof.
  intros name. unfold grant_proxy. destruct (accounts !! username) as [a|] eqn:Ea; [destruct (proxies a) eqn:Ep|];
    try (destruct (accounts !! name); by split_and?).
  rewrite lookup_insert. case_decide as E; [|destruct (accounts !! name); by split_and?].
  subst name. rewrite Ea. unfold same_but_proxies. cbn. by rewrite Ep.
Qed.

Lemma revoke_proxy_change proxy accounts : proxies_change accounts (revoke_proxy proxy accounts).
Proof.
  intros name. unfold revoke_proxy. rewrite lookup_fmap. destruct (accounts !! name) as [a|]; [|done].
  unfold same_but_proxies. cbn. by destruct (proxies a).
Qed.

Lemma proxies_change_formed accounts accounts' : proxies_change accounts accounts' -> accounts_formed accounts -> accounts_formed accounts'.
Proof.
  intros H [Hn Hs]. split; intros name.
  - intros [a' Ha']. specialize (H name). rewrite Ha' in H. destruct (accounts !! name) eqn:E; [|done]. apply Hn. by eexists.
  - intros a' Ha'. specialize (H name). rewrite Ha' in H. destruct (accounts !! name) as [a|] eqn:E; [|done].
    destruct H as (Er & _ & _ & _ & Ep & _). specialize (Hs _ _ E). unfold validate_scope in *. by rewrite Er, Ep.
Qed.

Lemma proxies_change_admin accounts accounts' : proxies_change accounts accounts' -> has_admin accounts -> has_admin accounts'.
Proof.
  intros H (adm & b & Hb & Hr). specialize (H adm). rewrite Hb in H. destruct (accounts' !! adm) as [a'|] eqn:E; [|done].
  exists adm, a'. split; [done|]. by destruct H as (-> & _).
Qed.

Lemma storage_add_account_inv name pw with_totp r salt secret unix accounts accounts' :
  storage_add_account name pw with_totp r salt secret unix accounts = Ok accounts' ->
  validate_username name = Ok tt
  /\ exists a, role a = r /\ proxies a = None /\ tokens a = [] /\ unix <= credentials_changed_at a
       /\ accounts' = <[ name := a ]> accounts.
Proof.
  unfold storage_add_account, new_account. destruct (validate_username name) as [[]|]; [|done].
  destruct (hash_password salt pw); [|done]. cbn [option_map]. cbn zeta. intros [= <-]. split; [done|].
  eexists. split; [|split; [|split; [|split; [|reflexivity]]]]; try reflexivity. cbn. destruct (accounts !! name); lia.
Qed.

Lemma storage_add_account_formed name pw with_totp r salt secret unix accounts accounts' :
  storage_add_account name pw with_totp r salt secret unix accounts = Ok accounts' ->
  accounts_formed accounts -> accounts_formed accounts'.
Proof.
  intros H [Hn Hs]. apply storage_add_account_inv in H as (Hv & a & Er & Ep & _ & _ & ->). split.
  - intros x. rewrite lookup_insert. case_decide as E; [by subst x|apply Hn].
  - intros x y. rewrite lookup_insert. case_decide as E; [|by apply Hs]. intros [= <-]. rewrite Ep. unfold validate_scope.
    by rewrite andb_false_r.
Qed.

Lemma storage_add_account_admin name pw with_totp r salt secret unix accounts accounts' :
  storage_add_account name pw with_totp r salt secret unix accounts = Ok accounts' -> keeps_admin name r accounts -> has_admin accounts'.
Proof.
  intros H Hk. apply storage_add_account_inv in H as (_ & a & Er & _ & _ & _ & ->).
  destruct Hk as [->|(other & b & Hne & Hb & Hrb)].
  - exists name, a. by rewrite lookup_insert_eq.
  - exists other, b. by rewrite lookup_insert_ne by congruence.
Qed.

Lemma account_step_formed allowed at_time by_hand accounts accounts' :
  account_step allowed at_time by_hand accounts accounts' -> accounts_formed accounts -> accounts_formed accounts'.
Proof.
  intros [c m unix accounts0 accounts1 _ _ Hc|r unix accounts0 _|username proxy accounts0|proxy accounts0
         |name pw wt r salt secret unix accounts0 accounts1 _ _ Ha] Hv.
  3: eapply proxies_change_formed; [apply grant_proxy_change|done].
  3: eapply proxies_change_formed; [apply revoke_proxy_change|done].
  3: by eapply storage_add_account_formed.
  - apply call_method_runs in Hc as [Hr _]. by eapply run_call_formed.
  - destruct (verify_account r unix accounts0) as [resp accounts1] eqn:E. cbn.
    apply verify_account_keeps in E as [->|(n & a & a' & Ha & (_ & _ & Er & Ep & _) & ->)]; [done|]. by eapply accounts_formed_insert.
Qed.

Lemma account_step_valid allowed at_time accounts accounts' :
  account_step allowed at_time keeps_admin accounts accounts' -> accounts_valid accounts -> accounts_valid accounts'.
Proof.
  intros Hst [Hf Ha]%accounts_valid_split. apply accounts_valid_split. split; [by eapply account_step_formed|].
  destruct Hst as [c m unix accounts0 accounts1 _ _ Hc|r unix accounts0 _|username proxy accounts0|proxy accounts0
         |name pw wt r salt secret unix accounts0 accounts1 Hk _ Hs].
  - apply call_method_runs in Hc as [Hr _]. by eapply run_call_admin.
  - destruct (verify_account r unix accounts0) as [resp accounts1] eqn:E. cbn.
    apply verify_account_keeps in E as [->|(n & a & a' & Hl & (_ & _ & Er & _) & ->)]; [done|].
    by eapply has_admin_insert.
  - eapply proxies_change_admin; [apply grant_proxy_change|done].
  - eapply proxies_change_admin; [apply revoke_proxy_change|done].
  - by eapply storage_add_account_admin.
Qed.

(** The sessions and tokens from before [t] are void: the account is gone, or it changed at [t] or later. *)
Definition changed_since (t : Z) (o : option Account) : Prop :=
  match o with Some a => t <= credentials_changed_at a | None => True end.

Lemma proxies_change_since t name accounts accounts' :
  proxies_change accounts accounts' -> changed_since t (accounts !! name) -> changed_since t (accounts' !! name).
Proof.
  intros H Hold. specialize (H name). destruct (accounts !! name), (accounts' !! name); try done.
  destruct H as (_ & _ & _ & Ec & _). cbn in *. by rewrite Ec.
Qed.

Lemma account_step_changed_since allowed t by_hand name accounts accounts' :
  account_step allowed (fun unix => t <= unix) by_hand accounts accounts' ->
  changed_since t (accounts !! name) -> changed_since t (accounts' !! name).
Proof.
  intros [c m unix accounts0 accounts1 _ Ht Hc|r unix accounts0 Ht|username proxy accounts0|proxy accounts0
         |x pw wt r salt secret unix accounts0 accounts1 _ Ht Ha] Hold.
  3: eapply proxies_change_since; [apply grant_proxy_change|done].
  3: eapply proxies_change_since; [apply revoke_proxy_change|done].
  3: { apply storage_add_account_inv in Ha as (_ & a & _ & _ & _ & Ec & ->). rewrite lookup_insert. case_decide; [|done]. cbn. lia. }
  - apply call_method_runs in Hc as [Hr _]. destruct (own_data_call m) eqn:Em.
    + destruct (own_data_call_keeps m unix _ _ Em Hr) as (n & a & a' & Ha & (_ & _ & _ & _ & Ec & _) & ->).
      rewrite lookup_insert. case_decide as E; [|done]. subst n. rewrite Ha in Hold. cbn in *. by rewrite Ec.
    + destruct m as [n salt secret|actor x u salt|actor x| | | |]; try done; cbn [run_call] in Hr.
      * apply add_account_inv in Hr as (_ & _ & _ & a & _ & _ & Ec & _ & ->).
        rewrite lookup_insert. case_decide; [|done]. cbn. by rewrite Ec.
      * apply update_account_inv in Hr as (a & pw & Ha & -> & _). rewrite lookup_insert. case_decide as E; [|done].
        subst x. rewrite Ha in Hold. cbn [changed_since apply_update credentials_changed_at] in *. by destruct (_ || _).
      * apply delete_account_inv in Hr as [-> _]. rewrite lookup_delete. by case_decide.
  - destruct (verify_account r unix accounts0) as [resp accounts1] eqn:E. cbn.
    apply verify_account_keeps in E as [->|(n & a & a' & Ha & (_ & _ & _ & _ & Ec & _) & ->)]; [done|].
    rewrite lookup_insert. case_decide as E; [|done]. subst n. rewrite Ha in Hold. cbn in *. by rewrite Ec.
Qed.

(** The calls that end the sessions of an account. *)
Definition ends_sessions (m : AccountCall) (name : string) (accounts : Accounts) : bool :=
  match m with
  | DeleteAccount _ n => String.eqb n name
  | UpdateAccount _ n u _ =>
      String.eqb n name
      && match accounts !! n with
         | Some a => negb (bool_decide (role a = update_role u)) || negb (bool_decide (proxies a = update_proxies u))
                     || is_some (update_password u)
         | None => false
         end
  | _ => false
  end.

Lemma ends_sessions_changed m name unix accounts accounts' :
  ends_sessions m name accounts = true -> run_call m unix accounts = Ok accounts' ->
  changed_since unix (accounts' !! name).
Proof.
  intros He Hr. destruct m as [|actor n u salt|actor n| | | |]; try done; cbn [run_call ends_sessions] in *.
  - apply andb_prop in He as [Hn He]. apply String.eqb_eq in Hn as ->.
    apply update_account_inv in Hr as (a & pw & Ha & -> & Hpw & _). rewrite lookup_insert_eq. rewrite Ha in He.
    cbn [changed_since apply_update credentials_changed_at]. rewrite Hpw, He. lia.
  - apply String.eqb_eq in He as ->. apply delete_account_inv in Hr as [-> _]. by rewrite lookup_delete_eq.
Qed.

Lemma to_millis_late t : 10000000000 <= t -> to_millis t = t.
Proof. intros H. unfold to_millis. replace (t <? 10000000000) with false by (symmetry; apply Z.ltb_ge; lia). by rewrite andb_false_r. Qed.

Lemma old_sessions_void t name started accounts :
  10000000000 <= t -> changed_since t (accounts !! name) -> to_millis started < t ->
  account_caller name started (AccountDirectory_new accounts) = None.
Proof.
  intros Ht Hc Hs. unfold account_caller, AccountDirectory_new. rewrite lookup_fmap.
  destruct (accounts !! name) as [a|]; [|done]. cbn [fmap option_fmap option_map entry_of entry_changed_at changed_since] in *.
  rewrite (to_millis_late (credentials_changed_at a)) by lia.
  by replace (_ <=? _) with false by (symmetry; apply Z.leb_gt; lia).
Qed.

Lemma old_tokens_void t name hash a :
  10000000000 <= t -> changed_since t (Some a) ->
  (forall tok, In tok (tokens a) -> token_hash tok = hash -> to_millis (token_created_at tok) < t) ->
  entry_token_caller hash (name, entry_of a) = None.
Proof.
  intros Ht Hc Hs. unfold entry_token_caller. cbn [snd fst entry_of entry_tokens entry_changed_at changed_since] in *.
  destruct (find _ _) as [tok|] eqn:Ef; [|done]. apply List.find_some in Ef as [Hin Hh]. apply String.eqb_eq in Hh.
  rewrite (to_millis_late (credentials_changed_at a)) by lia. specialize (Hs tok Hin Hh).
  by replace (_ <? _) with true by (symmetry; apply Z.ltb_lt; lia).
Qed.
End Steps.

Section Totp.
Context `{CRYPTO : AuthCrypto}.

(** The account has the secret, and its last accepted step is at least [s]. *)
Definition totp_at_least (secret : string) (s : Z) (o : option Account) : Prop :=
  match o with Some a => totp a = Some secret /\ s <= totp_step a | None => False end.

Definition keeps_account (name : string) (m : AccountCall) : Prop :=
  match m with DeleteAccount _ n => n <> name | _ => True end.

Lemma proxies_change_totp secret s name accounts accounts' :
  proxies_change accounts accounts' -> totp_at_least secret s (accounts !! name) -> totp_at_least secret s (accounts' !! name).
Proof.
  intros H Hold. specialize (H name). destruct (accounts !! name), (accounts' !! name); try done.
  destruct H as (_ & Et & Es & _). cbn in *. by rewrite Et, Es.
Qed.

Lemma account_step_totp name secret s at_time accounts accounts' :
  account_step (keeps_account name) at_time (fun n _ _ => n <> name) accounts accounts' ->
  totp_at_least secret s (accounts !! name) -> totp_at_least secret s (accounts' !! name).
Proof.
  intros [c m unix accounts0 accounts1 Hm Ht Hc|r unix accounts0 Ht|username proxy accounts0|proxy accounts0
         |x pw wt r salt csecret unix accounts0 accounts1 Hx Ht Ha] Hold.
  3: eapply proxies_change_totp; [apply grant_proxy_change|done].
  3: eapply proxies_change_totp; [apply revoke_proxy_change|done].
  3: { apply storage_add_account_inv in Ha as (_ & a & _ & _ & _ & _ & ->). by rewrite lookup_insert_ne. }
  - apply call_method_runs in Hc as [Hr _]. destruct (own_data_call m) eqn:Em.
    + destruct (own_data_call_keeps m unix _ _ Em Hr) as (n & a & a' & Ha & (_ & Et & _ & _ & _ & Es) & ->).
      rewrite lookup_insert. case_decide as E; [|done]. subst n. rewrite Ha in Hold. cbn in *. by rewrite Et, Es.
    + destruct m as [n salt tsecret|actor x u salt|actor x| | | |]; try done; cbn [run_call] in Hr.
      * apply add_account_inv in Hr as (_ & _ & Hnone & a & _ & _ & _ & _ & ->).
        rewrite lookup_insert_ne; [done|]. intros E. by rewrite <- E, Hnone in Hold.
      * apply update_account_inv in Hr as (a & pw & Ha & -> & _). rewrite lookup_insert. case_decide as E; [|done].
        subst x. rewrite Ha in Hold. exact Hold.
      * apply delete_account_inv in Hr as [-> _]. by rewrite lookup_delete_ne.
  - destruct (verify_account r unix accounts0) as [resp accounts1] eqn:E. cbn.
    apply verify_account_keeps in E as [->|(n & a & a' & Ha & (_ & Et & _ & _ & _ & _ & Es) & ->)]; [done|].
    rewrite lookup_insert. case_decide as E; [|done]. subst n. rewrite Ha in Hold. cbn in *.
    rewrite Et. split; [apply Hold|lia].
Qed.

Lemma totp_accepted_inv name token unix accounts resp accounts' :
  verify_account (mkLoginRequest name (Totp token)) unix accounts = (Ok resp, accounts') ->
  exists a secret s, accounts !! name = Some a /\ totp a = Some secret /\ totp_check_current secret token unix = Some s
    /\ totp_step a < s /\ accounts' = <[ name := set_totp_step s a ]> accounts.
Proof.
  unfold verify_account. cbn [method username]. destruct (accounts !! name) as [a|]; [|done].
  unfold verify_totp. destruct (totp a) as [secret|] eqn:Et; [|done].
  destruct (totp_check_current secret token unix) as [s|] eqn:Es; [|done].
  destruct (s <=? totp_step a) eqn:El; [done|]. intros [= _ <-]. apply Z.leb_gt in El. by exists a, secret, s.
Qed.

End Totp.

(** The credential that was just registered is the one that its id finds. *)
Lemma find_registered id l cred :
  passkey_id cred = id ->
  find (fun pk => String.eqb (passkey_id pk) id) (List.filter (fun p => negb (String.eqb (passkey_id p) (passkey_id cred))) l ++ [cred])
  = Some cred.
Proof.
  intros <-. induction l as [|p l IH]; cbn [List.filter app find]; [by rewrite String.eqb_refl|].
  destruct (String.eqb (passkey_id p) (passkey_id cred)) eqn:E; cbn [negb app find]; [exact IH|]. by rewrite E.
Qed.

(** A concrete instance for the examples. *)
Definition plain_crypto : AuthCrypto := {|
  hash_password salt pw := Some (String.append salt pw);
  verify_hash hash pw := String.eqb hash pw;
  totp_check_current secret token unix := if String.eqb secret token then Some (unix / 30000) else None;
  hex_decode s := None;
  url_decode s := Some (as_bytes s);
  std_decode s := None;
  digest l := repeat 0 32;
  p256_verify pk msg sig := bool_decide (pk = sig);
  origin_host l := None;
  hash_token raw := raw;
|}.

(** ** Properties *)

(** C6: The stored accounts stay well formed: after any sequence of calls, by any callers, of sign-in
    checks, of new and deleted proxies and of the command [add-user], every name is a valid user name
    and no admin has a proxy list; and an admin is left as long as the command does not give the only
    admin another role. *)
Theorem accounts_stay_valid `{CRYPTO : AuthCrypto} accounts accounts' :
  accounts_valid accounts ->
  (rtc (account_step (fun _ => True) (fun _ => True) (fun _ _ _ => True)) accounts accounts' -> accounts_formed accounts')
  /\ (rtc (account_step (fun _ => True) (fun _ => True) keeps_admin) accounts accounts' -> accounts_valid accounts').
Proof.
  intros Hv. split; intros H.
  - destruct Hv as [Hn Hs _]. assert (Hf : accounts_formed accounts) by (by split). clear Hn Hs.
    induction H as [|x y z Hs _ IH]; [done|]. apply IH. by eapply account_step_formed.
  - induction H as [|x y z Hs _ IH]; [done|]. apply IH. by eapply account_step_valid.
Qed.

Definition example_account : Account := mkAccount "secret-1" (Some "123456") 0 Admin None 1700000000000 []
  [mkApiToken "0a0b0c0d" "ci" "r3v_x" TokenRead 1700000000001].
Definition example_accounts : Accounts := {[ "root" := example_account ]}.

Lemma example_accounts_valid : accounts_valid example_accounts.
Proof.
  unfold example_accounts. split.
  - intros name [a Ha]. apply lookup_singleton_Some in Ha as [<- _]. vm_compute. reflexivity.
  - intros name a Ha. apply lookup_singleton_Some in Ha as [_ <-]. reflexivity.
  - exists "root", example_account. split; [apply lookup_singleton_eq|reflexivity].
Qed.

Lemma accounts_stay_valid_witness :
  exists accounts', call_method (CRYPTO := plain_crypto) Caller_system
      (AddAccount (mkNewAccount "editor" "12345678" Editor (Some ∅) false) "" "") 1700000000002 example_accounts = Ok accounts'
    /\ accounts_valid accounts'.
Proof.
  destruct (call_method (CRYPTO := plain_crypto) Caller_system
      (AddAccount (mkNewAccount "editor" "12345678" Editor (Some ∅) false) "" "") 1700000000002 example_accounts)
    as [accounts'|e] eqn:E; [|vm_compute in E; discriminate].
  exists accounts'. split; [reflexivity|].
  apply (proj2 (accounts_stay_valid (CRYPTO := plain_crypto) example_accounts accounts' example_accounts_valid)).
  apply rtc_once. exact (step_call _ _ _ Caller_system _ _ _ _ I I E).
Defined.



(** An account with a proxy list that creates a proxy keeps its sessions, although its list changes. *)
Lemma granted_proxy_keeps_sessions :
  let a := mkAccount "pw" None 0 Editor (Some ∅) 1700000000000 [] [] in
  let accounts' := grant_proxy "eve" [1] {[ "eve" := a ]} in
  (proxies <$> accounts' !! "eve") = Some (Some {[ [1] ]})
  /\ is_some (account_caller "eve" 1700000000400 (AccountDirectory_new accounts')) = true.
Proof. vm_compute. split; reflexivity. Qed.

(** The command [add-user] replaces the only admin by an account of another role. *)
Lemma add_user_drops_last_admin :
  exists accounts', storage_add_account (CRYPTO := plain_crypto) "root" "12345678" false Viewer "" "" 1700000000500 example_accounts = Ok accounts'
    /\ ensure_admin_remains accounts' = Err LastAdmin.
Proof. eexists. split; [vm_compute; reflexivity|vm_compute; reflexivity]. Qed.

(** A TOTP code is accepted once: after a code was accepted, and whatever calls and sign-ins follow
    while the account is not removed, a later code is accepted only for a later time step of the same
    secret. *)
Theorem totp_code_used_once `{CRYPTO : AuthCrypto} name token1 unix1 accounts resp1 accounts1 token2 unix2 accounts2 resp2 accounts3 :
  verify_account (mkLoginRequest name (Totp token1)) unix1 accounts = (Ok resp1, accounts1) ->
  rtc (account_step (keeps_account name) (fun _ => True) (fun n _ _ => n <> name)) accounts1 accounts2 ->
  verify_account (mkLoginRequest name (Totp token2)) unix2 accounts2 = (Ok resp2, accounts3) ->
  exists secret s1 s2, totp_check_current secret token1 unix1 = Some s1 /\ totp_check_current secret token2 unix2 = Some s2 /\ s1 < s2.
Proof.
  intros H1 Hsteps H2.
  apply totp_accepted_inv in H1 as (a & secret & s1 & _ & Hsec & Hs1 & _ & ->).
  assert (Hinv : totp_at_least secret s1 (accounts2 !! name)).
  { assert (H0 : totp_at_least secret s1 (<[ name := set_totp_step s1 a ]> accounts !! name)) by (rewrite lookup_insert_eq; cbn; split; [done|lia]).
    clear H2. revert H0. induction Hsteps as [|x y z Hstep _ IH]; [done|]. intros H0. apply IH. by eapply account_step_totp. }
  apply totp_accepted_inv in H2 as (a2 & secret2 & s2 & Ha2 & Hsec2 & Hs2 & Hlt & _).
  rewrite Ha2 in Hinv. destruct Hinv as [Hsec' Hle]. rewrite Hsec' in Hsec2. injection Hsec2 as <-.
  exists secret, s1, s2. split; [done|]. split; [done|lia].
Qed.

Lemma totp_code_used_once_witness :
  let r := mkLoginRequest "root" (Totp "123456") in
  let accounts1 := snd (verify_account (CRYPTO := plain_crypto) r 1700000000000 example_accounts) in
  is_some (match fst (verify_account (CRYPTO := plain_crypto) r 1700000000001 accounts1) with Ok x => Some x | Err _ => None end) = false
  /\ exists s1 s2, s1 < s2 /\ s2 = 1700000030000 / 30000.
Proof.
  intros r accounts1. split; [vm_compute; reflexivity|].
  destruct (verify_account (CRYPTO := plain_crypto) r 1700000000000 example_accounts) as [resp1 acc1] eqn:E1.
  destruct (verify_account (CRYPTO := plain_crypto) r 1700000030000 acc1) as [resp2 acc2] eqn:E2.
  assert (H1 : resp1 = Ok Success) by (vm_compute in E1; by injection E1).
  assert (Ha : acc1 = <[ "root" := set_totp_step 56666666 example_account ]> example_accounts) by (vm_compute in E1; injection E1; intros <- _; reflexivity).
  subst resp1 acc1.
  assert (H2 : resp2 = Ok Success) by (vm_compute in E2; by injection E2).
  subst resp2.
  destruct (totp_code_used_once (CRYPTO := plain_crypto) "root" "123456" 1700000000000 example_accounts Success _
              "123456" 1700000030000 _ Success acc2 E1 (rtc_refl _ _) E2) as (secret & s1 & s2 & _ & Hs2 & Hlt).
  exists s1, s2. split; [exact Hlt|].
  unfold totp_check_current, plain_crypto in Hs2. destruct (String.eqb secret "123456"); [|discriminate].
  injection Hs2 as <-. reflexivity.
Defined.

(** A read token is enough to take over its account: its caller has the role of a viewer and may not
    change a setting, yet [RegisterPasskey] asks only for [Permission::Read] and takes the account of
    the caller.  With a credential whose key the holder of the token has, a passkey sign-in is then
    accepted, and the session has the role of the account. *)
Theorem read_token_takes_over `{CRYPTO : AuthCrypto} hash accounts c a cred ad cd sg n unix :
  token_caller hash (AccountDirectory_new accounts) = Some c -> caller_role c = Viewer ->
  caller_name c <> "" -> accounts !! caller_name c = Some a -> role a = Admin ->
  check_credential cred ad cd sg = Ok n ->
  authorize c PermEdit = Err Forbidden
  /\ own_call c (RegisterPasskey (caller_name c) cred) = true
  /\ exists accounts', call_method c (RegisterPasskey (caller_name c) cred) unix accounts = Ok accounts'
     /\ fst (verify_account (mkLoginRequest (caller_name c) (Passkey (passkey_id cred) ad cd sg)) unix accounts') = Ok Success
     /\ forall started, to_millis (credentials_changed_at a) <= to_millis started ->
        option_map caller_role (account_caller (caller_name c) started (AccountDirectory_new accounts')) = Some Admin.
Proof.
  intros Htok Hrole Hname Ha Hadm Hcred.
  split; [unfold authorize, allows; by rewrite Hrole|]. split; [cbn; apply String.eqb_refl|].
  eexists. split.
  { unfold call_method, authorize. cbn [call_permission allows run_call]. unfold register_passkey, edit_account. rewrite Ha. reflexivity. }
  split.
  - unfold verify_account. cbn [method username]. unfold find_account_for_passkey.
    replace (str_is_empty (caller_name c)) with false by (by destruct (caller_name c)). cbn [negb].
    rewrite lookup_insert_eq. cbn [option_map]. unfold verify_passkey_credential. cbn [passkeys set_passkeys].
    rewrite (find_registered _ (passkeys a) cred eq_refl). rewrite Hcred. by destruct (counter cred <? n).
  - intros started Hst. unfold account_caller, AccountDirectory_new. rewrite lookup_fmap, lookup_insert_eq.
    cbn [fmap option_fmap option_map entry_of set_passkeys entry_changed_at credentials_changed_at entry_role role entry_proxies].
    replace (_ <=? _) with true by (symmetry; apply Z.leb_le; lia). cbn. by rewrite Hadm.
Qed.

Definition stolen_passkey : PasskeyCredential := mkPasskey "cred" "phone" (String "004" (String.string_of_list_ascii (repeat "k"%char 64))) 0 0.
Definition plain_auth_data : string := String.string_of_list_ascii (repeat "001"%char 37).

Lemma read_token_takes_over_witness :
  match token_caller "r3v_x" (AccountDirectory_new example_accounts) with
  | Some c => authorize c PermEdit = Err Forbidden
              /\ exists accounts', call_method (CRYPTO := plain_crypto) c (RegisterPasskey "root" stolen_passkey) 1700000000002 example_accounts = Ok accounts'
                 /\ option_map caller_role (account_caller "root" 1700000000003 (AccountDirectory_new accounts')) = Some Admin
  | None => False
  end.
Proof.
  destruct (token_caller "r3v_x" (AccountDirectory_new example_accounts)) as [c|] eqn:E; [|vm_compute in E; discriminate].
  assert (Hc : c = mkCaller "root" Viewer None None) by (vm_compute in E; by injection E). subst c.
  destruct (read_token_takes_over (CRYPTO := plain_crypto) "r3v_x" example_accounts (mkCaller "root" Viewer None None) example_account
              stolen_passkey plain_auth_data "{}" (public_key stolen_passkey) 16843009 1700000000002 E eq_refl ltac:(discriminate)
              ltac:(vm_compute; reflexivity) eq_refl ltac:(vm_compute; reflexivity)) as (H1 & _ & accounts' & H2 & _ & H3).
  split; [exact H1|]. exists accounts'. split; [exact H2|]. apply H3. vm_compute. discriminate.
Defined.
