(* ===== verification/SignIn.v ===== *)
(** * Sessions and the sign-in of the admin API

    [sessions.rs] (records and the sessions of one server) and the handlers [login], [logout] and
    [verify] of [admin/auth.rs], as a machine whose events are the parts of the handlers between two
    waits: several sign-ins, account calls and sign-outs interleave in any order.  The log of the
    machine is not in the code: it keeps every accepted check with the accounts it was made against. *)

From S2P Require Import Prelude Basics Login Accounts.

(** ** Sessions *)

Inductive SessionScope : Type := LoginScope | AdminScope | ProxyScope.

#[export] Instance SessionScope_eq_dec : EqDecision SessionScope.
Proof. solve_decision. Defined.

#[export] Instance SessionScope_countable : Countable SessionScope.
Proof.
  refine (inj_countable' (fun s => match s with LoginScope => 0%nat | AdminScope => 1%nat | ProxyScope => 2%nat end)
                         (fun n => match n with 0%nat => LoginScope | 1%nat => AdminScope | _ => ProxyScope end) _).
  by intros [].
Defined.

Definition MINIMUM_SESSION_EXPIRY : Duration := from_secs (5 * 60).

Definition expiry (session_expiry : Duration) : Duration := Z.max session_expiry MINIMUM_SESSION_EXPIRY.

Record SessionRecord : Type := mkSessionRecord {
  subject : string;
  started_at : Z;
  account : option string;
}.

Definition SessionRecord_new (subject : string) (unix : Z) : SessionRecord := mkSessionRecord subject unix None.
Definition SessionRecord_proxy (host account : string) (unix : Z) : SessionRecord := mkSessionRecord host unix (Some account).

Definition is_active (r : SessionRecord) (expiry : Duration) (unix : Z) : bool :=
  let started := if started_at r <? 10000000000 then started_at r * 1000 else started_at r in
  sat_sub unix started <? expiry / 1000000.

Notation LocalSessions := (gmap (SessionScope * string) SessionRecord).

Definition sessions_remove_expired (expiry : Duration) (unix : Z) (m : LocalSessions) : LocalSessions :=
  filter (fun kv => Is_true (is_active kv.2 expiry unix)) m.

(** [token] is random. *)
Definition sessions_create (scope : SessionScope) (record : SessionRecord) (expiry : Duration) (token : string) (unix : Z)
  (m : LocalSessions) : LocalSessions := <[ (scope, token) := record ]> (sessions_remove_expired expiry unix m).

Definition sessions_get (scope : SessionScope) (token : string) (m : LocalSessions) : option SessionRecord := m !! (scope, token).
Definition sessions_remove (scope : SessionScope) (token : string) (m : LocalSessions) : LocalSessions := delete (scope, token) m.

(** The caller of a session record: [AccountDirectory::caller]. *)
Definition caller (r : SessionRecord) (d : AccountDirectory) : option Caller := account_caller (subject r) (started_at r) d.

(** ** The state of the sign-ins *)

Record LogEntry : Type := mkLogEntry { checked : LoginRequest; checked_at : Z; against : Accounts }.

(** Where a sign-in waits: for its preconditions, for the account check, or for its session. *)
Inductive Phase : Type :=
| Started (r : LoginRequest) (key : LoginAttemptKey) (cookie : option string) (client_ip : IpAddr)
| Checked (r : LoginRequest) (key : LoginAttemptKey) (cookie : option string) (client_ip : IpAddr)
          (login_record : option SessionRecord) (start_record : SessionRecord)
| Verified (scope : SessionScope) (record : SessionRecord).

Record SignInState : Type := mkSignInState {
  store : Accounts;
  directory : AccountDirectory;
  sessions : LocalSessions;
  data : AdminData;
  totp_attempts : TotpAttempts;
  passkey_challenges : gmap string Instant;
  pending : gmap nat Phase;
  log : list LogEntry;
}.

Definition set_pending (p : gmap nat Phase) (s : SignInState) : SignInState :=
  mkSignInState (store s) (directory s) (sessions s) (data s) (totp_attempts s) (passkey_challenges s) p (log s).
Definition set_data (d : AdminData) (s : SignInState) : SignInState :=
  mkSignInState (store s) (directory s) (sessions s) d (totp_attempts s) (passkey_challenges s) (pending s) (log s).
Definition set_sessions (m : LocalSessions) (s : SignInState) : SignInState :=
  mkSignInState (store s) (directory s) m (data s) (totp_attempts s) (passkey_challenges s) (pending s) (log s).
Definition set_totp_attempts (t : TotpAttempts) (s : SignInState) : SignInState :=
  mkSignInState (store s) (directory s) (sessions s) (data s) t (passkey_challenges s) (pending s) (log s).
Definition set_challenges (c : gmap string Instant) (s : SignInState) : SignInState :=
  mkSignInState (store s) (directory s) (sessions s) (data s) (totp_attempts s) c (pending s) (log s).
(** [reload_accounts] after the accounts were saved. *)
Definition set_store (a : Accounts) (s : SignInState) : SignInState :=
  mkSignInState a (AccountDirectory_new a) (sessions s) (data s) (totp_attempts s) (passkey_challenges s) (pending s) (log s).
Definition set_log (l : list LogEntry) (s : SignInState) : SignInState :=
  mkSignInState (store s) (directory s) (sessions s) (data s) (totp_attempts s) (passkey_challenges s) (pending s) l.

Section Handlers.
Context `{CRYPTO : AuthCrypto} (cfg : AdminConfig) (session_expiry : Duration).

Definition is_totp (r : LoginRequest) : bool := match method r with Totp _ => true | _ => false end.

(** An empty user name is that of the passkey. *)
Definition resolve_login_username (d : AccountDirectory) (r : LoginRequest) : LoginRequest :=
  if str_is_empty (username r)
  then match method r with
       | Passkey id _ _ _ => match find_by_passkey id d with Some user => mkLoginRequest user (method r) | None => r end
       | _ => r
       end
  else r.

Definition verify_login_session (token user : string) (unix : Z) (s : SignInState) : option SessionRecord :=
  match sessions_get LoginScope token (sessions s) with
  | None => None
  | Some r => if is_active r (expiry session_expiry) unix && String.eqb (subject r) user && is_some (caller r (directory s))
              then Some r else None
  end.

Definition verify_totp_preconditions (token : option string) (user : string) (now : Instant) (unix : Z) (s : SignInState)
  : result SessionRecord Error * SignInState :=
  match token with
  | None => (Err InvalidLoginCredentials, s)
  | Some token =>
      match verify_login_session token user unix s with
      | None => (Err InvalidLoginCredentials, s)
      | Some r =>
          let '(blocked, t) := is_account_blocked user (login_attempts_reset cfg) now (totp_attempts s) in
          (if (blocked : bool) then Err TooManyLoginAttempts else Ok r, set_totp_attempts t s)
      end
  end.

(** [challenge] is the challenge in the client data of a passkey whose type is [webauthn.get] and whose
    origin belongs to the server; [None] stands for any other client data. *)
Definition verify_pre_login_conditions (r : LoginRequest) (key : LoginAttemptKey) (cookie : option string)
  (challenge : option string) (now : Instant) (unix : Z) (s : SignInState) : result (option SessionRecord) Error * SignInState :=
  match method r with
  | Totp _ =>
      match verify_totp_preconditions cookie key.2 now unix s with
      | (Ok rec, s) => (Ok (Some rec), s)
      | (Err e, s) => (Err e, s)
      end
  | Passkey _ _ _ _ =>
      match challenge with
      | None => (Err InvalidLoginCredentials, s)
      | Some c =>
          let '(known, m) := challenge_consume c now (passkey_challenges s) in
          (if (known : bool) then Ok None else Err InvalidLoginCredentials, set_challenges m s)
      end
  | Password _ => (Ok None, s)
  end.

Definition cleanup_login_session (token user : string) (s : SignInState) : SignInState :=
  set_sessions (sessions_remove LoginScope token (sessions s)) (set_totp_attempts (totp_clear token user (totp_attempts s)) s).

Definition record_totp_failure (token user : string) (now : Instant) (s : SignInState) : SignInState :=
  let '(exhausted, t) := totp_record_failure token user (max_login_attempts cfg) (login_attempts_reset cfg) now (totp_attempts s) in
  let s := set_totp_attempts t s in
  if exhausted then set_sessions (sessions_remove LoginScope token (sessions s)) s else s.

Definition with_data (f : AdminData -> option AdminData) (s : SignInState) : option SignInState :=
  option_map (fun d => set_data d s) (f (data s)).

(** The parts of [login] between its waits, a disconnect of its client, the account calls, the calls
    for a challenge, the sign-outs and the removal of expired sessions. *)
Inductive SignInEvent : Type :=
| Arrive (id : nat) (r : LoginRequest) (cookie : option string) (client_ip : IpAddr) (now : Instant)
| Precheck (id : nat) (challenge : option string) (now : Instant) (unix : Z)
| CheckAccount (id : nat) (now : Instant) (unix : Z)
| Finish (id : nat) (token : string) (unix : Z)
| Disconnect (id : nat)
| Call (c : Caller) (m : AccountCall) (unix : Z)
| NewChallenge (challenge : string) (now : Instant)
| Logout (token : string)
| RemoveExpired (unix : Z).

(** [None] is an event that is not possible in the state, or a panic of the handler. *)
Definition sign_in_step (ev : SignInEvent) (s : SignInState) : option SignInState :=
  match ev with
  | Arrive id r cookie ip now =>
      match pending s !! id with
      | Some _ => None
      | None =>
          let r := resolve_login_username (directory s) r in
          let key := (canonical_client_ip ip, username r) in
          match ensure_login_allowed cfg key now (data s) with
          | None => None
          | Some (res, d) =>
              let s := set_data d s in
              Some (if is_ok res then set_pending (<[ id := Started r key cookie ip ]> (pending s)) s else s)
          end
      end
  | Precheck id challenge now unix =>
      match pending s !! id with
      | Some (Started r key cookie ip) =>
          match verify_pre_login_conditions r key cookie challenge now unix s with
          | (Ok login_record, s) =>
              Some (set_pending (<[ id := Checked r key cookie ip login_record (SessionRecord_new (username r) unix) ]> (pending s)) s)
          | (Err _, s) =>
              with_data (record_login_failure cfg key now unix) (set_pending (delete id (pending s)) s)
          end
      | _ => None
      end
  | CheckAccount id now unix =>
      match pending s !! id with
      | Some (Checked r key cookie ip login_record start_record) =>
          match verify_account r unix (store s) with
          | (Err _, _) =>
              let s := if is_totp r then match cookie with Some t => record_totp_failure t (username r) now s | None => s end else s in
              with_data (record_login_failure cfg key now unix) (set_pending (delete id (pending s)) s)
          | (Ok resp, accounts) =>
              let s := set_log (mkLogEntry r unix (store s) :: log s) (set_store accounts s) in
              match resp with
              | Success =>
                  let s := match cookie with Some t => cleanup_login_session t (username r) s | None => s end in
                  with_data (record_successful_login ip key)
                    (set_pending (<[ id := Verified AdminScope (unwrap_or login_record start_record) ]> (pending s)) s)
              | TotpRequired =>
                  with_data (release_login_attempt key)
                    (set_pending (<[ id := Verified LoginScope start_record ]> (pending s)) s)
              end
          end
      | _ => None
      end
  | Finish id token unix =>
      match pending s !! id with
      | Some (Verified scope record) =>
          Some (set_sessions (sessions_create scope record (expiry session_expiry) token unix (sessions s))
                  (set_pending (delete id (pending s)) s))
      | _ => None
      end
  | Disconnect id => Some (set_pending (delete id (pending s)) s)
  | Call c m unix =>
      match call_method c m unix (store s) with
      | Ok accounts => Some (set_store accounts s)
      | Err _ => Some s
      end
  | NewChallenge challenge now => Some (set_challenges (challenge_insert challenge now (passkey_challenges s)) s)
  | Logout token => Some (set_sessions (sessions_remove LoginScope token (sessions_remove AdminScope token (sessions s))) s)
  | RemoveExpired unix => Some (set_sessions (sessions_remove_expired (expiry session_expiry) unix (sessions s)) s)
  end.

Fixpoint sign_in_run (evs : list SignInEvent) (s : SignInState) : option SignInState :=
  match evs with
  | [] => Some s
  | ev :: rest => match sign_in_step ev s with Some s => sign_in_run rest s | None => None end
  end.

Definition sign_in_start (accounts : Accounts) : SignInState :=
  mkSignInState accounts (AccountDirectory_new accounts) ∅ (mkAdminData ∅ ∅) (mkTotpAttempts ∅ ∅) ∅ ∅ [].

(** ** The caller of a request *)

Definition session_caller (token : string) (unix : Z) (s : SignInState) : result Caller Error :=
  match sessions_get AdminScope token (sessions s) with
  | Some r => if is_active r (expiry session_expiry) unix
              then match caller r (directory s) with Some c => Ok c | None => Err Unauthorized end
              else Err Unauthorized
  | None => Err Unauthorized
  end.

(** The grant of an OAuth token while the MCP server is on: its user, its start, and its scope. *)
Context (mcp_verify : string -> option (string * Z * string)).

Definition apply_scope_to_caller (c : Caller) (scope : string) : Caller :=
  if existsb (String.eqb "edit") (split_whitespace scope) then c else mkCaller (caller_name c) Viewer (caller_proxies c) (client c).

Definition bearer_caller (token : string) (s : SignInState) : result Caller Error :=
  match mcp_verify token with
  | None => Err Unauthorized
  | Some (user, created_at, scope) =>
      match account_caller user created_at (directory s) with
      | Some c => Ok (apply_scope_to_caller c scope)
      | None => Err Unauthorized
      end
  end.

Definition api_token_caller (token : string) (s : SignInState) : option Caller := token_caller (hash_token token) (directory s).

(** The caller, and the token of its session. *)
Definition resolve_caller (bearer cookie : option string) (unix : Z) (s : SignInState) : result (Caller * option string) Error :=
  let by_cookie :=
    match cookie with
    | Some token => match session_caller token unix s with Ok c => Ok (c, Some token) | Err _ => Err Unauthorized end
    | None => Err Unauthorized
    end in
  match bearer with
  | None => by_cookie
  | Some token =>
      match api_token_caller token s with
      | Some c => Ok (c, None)
      | None =>
          match bearer_caller token s with
          | Ok c => Ok (c, None)
          | Err _ => match session_caller token unix s with Ok c => Ok (c, Some token) | Err _ => by_cookie end
          end
      end
  end.

End Handlers.

(** ** What a session proves *)

Section Proofs.
Context `{CRYPTO : AuthCrypto} (cfg : AdminConfig) (session_expiry : Duration).

(** The entry is an accepted password of [u]; [second] tells whether the account had a TOTP secret. *)
Definition password_proof (second : bool) (u : string) (e : LogEntry) : Prop :=
  exists pw a, checked e = mkLoginRequest u (Password pw) /\ against e !! u = Some a
    /\ verify_hash (password a) pw = true /\ is_some (totp a) = second.

(** An accepted code of [u], of a later step than every code before. *)
Definition totp_proof (u : string) (e : LogEntry) : Prop :=
  exists code a secret step, checked e = mkLoginRequest u (Totp code) /\ against e !! u = Some a
    /\ totp a = Some secret /\ totp_check_current secret code (checked_at e) = Some step /\ totp_step a < step.

(** A signature that a registered passkey of [u] accepted. *)
Definition passkey_proof (u : string) (e : LogEntry) : Prop :=
  exists id ad cd sg a cred n, checked e = mkLoginRequest u (Passkey id ad cd sg) /\ against e !! u = Some a
    /\ cred ∈ passkeys a /\ passkey_id cred = id /\ check_credential cred ad cd sg = Ok n.

(** The log is newest first. *)
Definition first_factor (u : string) (l : list LogEntry) : Prop := Exists (password_proof true u) l.

Definition justified (u : string) (l : list LogEntry) : Prop :=
  exists newer e older, l = newer ++ e :: older
    /\ (password_proof false u e \/ passkey_proof u e \/ (totp_proof u e /\ first_factor u older)).

(** No account has an empty name, so a session without one has no caller. *)
Definition session_ok (u : string) (l : list LogEntry) : Prop := u = "" \/ justified u l.

Lemma first_factor_grows u l l' : first_factor u l -> first_factor u (l' ++ l).
Proof. intros H. apply Exists_app. by right. Qed.

Lemma session_ok_grows u l l' : session_ok u l -> session_ok u (l' ++ l).
Proof.
  intros [H|(newer & e & older & -> & H)]; [by left|right]. exists (l' ++ newer), e, older.
  by rewrite <- app_assoc.
Qed.

Definition scope_ok (scope : SessionScope) (u : string) (l : list LogEntry) : Prop :=
  match scope with AdminScope => session_ok u l | LoginScope => first_factor u l | ProxyScope => True end.

Lemma scope_ok_grows scope u l l' : scope_ok scope u l -> scope_ok scope u (l' ++ l).
Proof. destruct scope; [apply first_factor_grows|apply session_ok_grows|done]. Qed.

Definition phase_ok (p : Phase) (l : list LogEntry) : Prop :=
  match p with
  | Started r k _ _ => k.2 = username r
  | Checked r _ _ _ login_record start =>
      subject start = username r
      /\ match login_record with Some rec => subject rec = username r | None => True end
      /\ (is_totp r = true -> first_factor (username r) l)
  | Verified scope record => scope_ok scope (subject record) l
  end.

Lemma phase_ok_grows p l l' : phase_ok p l -> phase_ok p (l' ++ l).
Proof.
  destruct p as [|r k c ip lr st|sc rec]; cbn; [done| |apply scope_ok_grows].
  intros (H1 & H2 & H3). split; [done|]. split; [done|]. intros H. by apply first_factor_grows, H3.
Qed.

Definition sessions_ok (m : LocalSessions) (l : list LogEntry) : Prop :=
  forall scope token r, m !! (scope, token) = Some r -> scope_ok scope (subject r) l.

Definition pending_ok (p : gmap nat Phase) (l : list LogEntry) : Prop := forall id ph, p !! id = Some ph -> phase_ok ph l.

Record sign_in_inv (s : SignInState) : Prop := {
  inv_sessions : sessions_ok (sessions s) (log s);
  inv_pending : pending_ok (pending s) (log s);
  inv_store : accounts_valid (store s);
  inv_directory : exists a, accounts_valid a /\ directory s = AccountDirectory_new a;
}.

Lemma sessions_ok_delete k m l : sessions_ok m l -> sessions_ok (delete k m) l.
Proof. intros H scope token r Hr. apply lookup_delete_Some in Hr as [_ Hr]. by eapply H. Qed.

Lemma sessions_ok_filter e unix m l : sessions_ok m l -> sessions_ok (sessions_remove_expired e unix m) l.
Proof. intros H scope token r Hr. apply map_lookup_filter_Some in Hr as [Hr _]. by eapply H. Qed.

Lemma sessions_ok_insert scope token r m l :
  sessions_ok m l -> scope_ok scope (subject r) l -> sessions_ok (<[ (scope, token) := r ]> m) l.
Proof.
  intros H Hr sc t r'. rewrite lookup_insert. case_decide as E; [|apply H]. injection E as <- <-. by intros [= <-].
Qed.

Lemma sessions_ok_grows m l l' : sessions_ok m l -> sessions_ok m (l' ++ l).
Proof. intros H scope token r Hr. apply scope_ok_grows. by eapply H. Qed.

Lemma pending_ok_delete id p l : pending_ok p l -> pending_ok (delete id p) l.
Proof. intros H i ph Hi. apply lookup_delete_Some in Hi as [_ Hi]. by eapply H. Qed.

Lemma pending_ok_insert id ph p l : pending_ok p l -> phase_ok ph l -> pending_ok (<[ id := ph ]> p) l.
Proof. intros H Hp i x. rewrite lookup_insert. case_decide as E; [|apply H]. by intros [= <-]. Qed.

Lemma pending_ok_grows p l l' : pending_ok p l -> pending_ok p (l' ++ l).
Proof. intros H i ph Hi. apply phase_ok_grows. by eapply H. Qed.

Lemma verify_account_proof r unix accounts resp accounts' :
  verify_account r unix accounts = (Ok resp, accounts') ->
  let e := mkLogEntry r unix accounts in
  match resp with
  | TotpRequired => password_proof true (username r) e
  | Success => password_proof false (username r) e \/ (is_totp r = true /\ totp_proof (username r) e)
               \/ username r = "" \/ passkey_proof (username r) e
  end.
Proof.
  destruct r as [u m]. unfold verify_account. cbn [method username is_totp]. destruct m as [pw|code|id ad cd sg].
  - destruct (accounts !! u) as [a|] eqn:Ea; [|done]. unfold verify_password.
    destruct (verify_hash (password a) pw) eqn:Eh; [|done]. intros [= <- _].
    assert (H : password_proof (is_some (totp a)) u (mkLogEntry (mkLoginRequest u (Password pw)) unix accounts)) by (by exists pw, a).
    destruct (is_some (totp a)); [exact H|by left].
  - intros H. apply totp_accepted_inv in H as Hv. destruct Hv as (a & secret & st & Ha & Hs & Hc & Hl & _).
    assert (Hp : totp_proof u (mkLogEntry (mkLoginRequest u (Totp code)) unix accounts)) by (by exists code, a, secret, st).
    destruct resp; [by right; left|].
    destruct (accounts !! u) as [a'|]; [|done]. unfold verify_totp in H. destruct (totp a'); [|done].
    destruct (totp_check_current _ _ _); [|done]. by destruct (_ <=? _).
  - unfold find_account_for_passkey. destruct (str_is_empty u) eqn:Eu; cbn [negb].
    + intros H. destruct resp; [right; right; left; by destruct u|].
      destruct (find _ _) as [[n a]|]; [|done]. unfold verify_passkey_credential in H.
      destruct (find _ _); [|done]. destruct (check_credential _ _ _ _); [|done]. by destruct (_ <? _).
    + destruct (accounts !! u) as [a|] eqn:Ea; [|done]. cbn [option_map]. unfold verify_passkey_credential.
      destruct (find _ _) as [c|] eqn:Ef; [|done]. destruct (check_credential c ad cd sg) as [n|] eqn:Ec; [|done].
      apply List.find_some in Ef as [Hin Hid]. apply String.eqb_eq in Hid.
      intros H. assert (resp = Success) as -> by (destruct (_ <? _) in H; by injection H).
      right; right; right. exists id, ad, cd, sg, a, c, n. by rewrite <- list_elem_of_In in Hin.
Qed.

(** A state with the accounts of another keeps the invariant when its sessions and waits do. *)
Lemma sign_in_inv_same s s' :
  sign_in_inv s -> store s' = store s -> directory s' = directory s ->
  sessions_ok (sessions s') (log s') -> pending_ok (pending s') (log s') -> sign_in_inv s'.
Proof. intros [_ _ Hst Hd] Es Ed Hse Hp. split; [done|done|by rewrite Es|by rewrite Ed]. Qed.

Lemma with_data_inv f s s' : sign_in_inv s -> with_data f s = Some s' -> sign_in_inv s'.
Proof.
  intros Hi. unfold with_data. destruct (f (data s)); [|done]. intros [= <-].
  apply (sign_in_inv_same s); [done|done|done|apply Hi|apply Hi].
Qed.

Lemma set_store_inv a s : sign_in_inv s -> accounts_valid a -> sign_in_inv (set_store a s).
Proof. intros [Hse Hp _ _] Ha. split; [done|done|done|]. by exists a. Qed.

Lemma set_pending_inv p s : sign_in_inv s -> pending_ok p (log s) -> sign_in_inv (set_pending p s).
Proof. intros Hi Hp. apply (sign_in_inv_same s); [done|done|done|apply Hi|done]. Qed.

Lemma set_sessions_inv m s : sign_in_inv s -> sessions_ok m (log s) -> sign_in_inv (set_sessions m s).
Proof. intros Hi Hm. apply (sign_in_inv_same s); [done|done|done|done|apply Hi]. Qed.

Lemma set_totp_inv t s : sign_in_inv s -> sign_in_inv (set_totp_attempts t s).
Proof. intros Hi. apply (sign_in_inv_same s); [done|done|done|apply Hi|apply Hi]. Qed.

Lemma set_challenges_inv c s : sign_in_inv s -> sign_in_inv (set_challenges c s).
Proof. intros Hi. apply (sign_in_inv_same s); [done|done|done|apply Hi|apply Hi]. Qed.

Lemma set_log_inv e s : sign_in_inv s -> sign_in_inv (set_log (e :: log s) s).
Proof.
  intros Hi. apply (sign_in_inv_same s); [done|done|done| |].
  - apply (sessions_ok_grows _ _ [e]), Hi.
  - apply (pending_ok_grows _ _ [e]), Hi.
Qed.

Lemma verify_account_valid r unix accounts resp accounts' :
  accounts_valid accounts -> verify_account r unix accounts = (resp, accounts') -> accounts_valid accounts'.
Proof.
  intros Hv E. replace accounts' with (snd (verify_account r unix accounts)) by (by rewrite E).
  eapply (account_step_valid (fun _ => True) (fun _ => True)); [|exact Hv]. by constructor.
Qed.

(** The preconditions of a code find the record of a first factor. *)
Lemma precheck_inv r key cookie challenge now unix s res s' :
  sign_in_inv s -> key.2 = username r ->
  verify_pre_login_conditions cfg session_expiry r key cookie challenge now unix s = (res, s') ->
  sign_in_inv s' /\ pending s' = pending s
  /\ match res with
     | Ok login_record => match login_record with Some rec => subject rec = username r | None => True end
                          /\ (is_totp r = true -> first_factor (username r) (log s'))
     | Err _ => True
     end.
Proof.
  intros Hi Hk. unfold verify_pre_login_conditions, is_totp. destruct (method r) as [pw|code|id ad cd sg] eqn:Em.
  - by intros [= <- <-].
  - unfold verify_totp_preconditions. destruct cookie as [tok|]; [|by intros [= <- <-]].
    unfold verify_login_session, sessions_get. destruct (sessions s !! _) as [rec|] eqn:Es; [|by intros [= <- <-]].
    destruct (is_active _ _ _ && String.eqb _ _ && _) eqn:Ea; [|by intros [= <- <-]].
    apply andb_prop in Ea as [Ea _]. apply andb_prop in Ea as [_ Ea]. apply String.eqb_eq in Ea.
    destruct (is_account_blocked _ _ _ _) as [blocked t]. destruct blocked; intros [= <- <-].
    + split; [by apply set_totp_inv|done].
    + split; [by apply set_totp_inv|]. split; [done|]. rewrite <- Hk, <- Ea. split; [done|]. intros _.
      exact (inv_sessions s Hi LoginScope tok rec Es).
  - destruct challenge as [c|]; [|by intros [= <- <-]].
    destruct (challenge_consume c now (passkey_challenges s)) as [known m]. destruct known; intros [= <- <-].
    + split; [by apply set_challenges_inv|done].
    + split; [by apply set_challenges_inv|done].
Qed.

Lemma record_totp_failure_inv token user now s :
  sign_in_inv s -> sign_in_inv (record_totp_failure cfg token user now s)
                   /\ pending (record_totp_failure cfg token user now s) = pending s
                   /\ log (record_totp_failure cfg token user now s) = log s.
Proof.
  intros Hi. unfold record_totp_failure. destruct (totp_record_failure _ _ _ _ _ _) as [ex t]. cbn zeta.
  destruct ex; [|split; [by apply set_totp_inv|done]].
  split; [|done]. apply set_sessions_inv; [by apply set_totp_inv|]. apply sessions_ok_delete, Hi.
Qed.

(** An accepted check leaves a phase that its entry of the log proves. *)
Lemma accepted_inv r key cookie ip login_record start resp accounts id now unix s s' :
  sign_in_inv s -> pending s !! id = Some (Checked r key cookie ip login_record start) ->
  verify_account r unix (store s) = (Ok resp, accounts) ->
  sign_in_step cfg session_expiry (CheckAccount id now unix) s = Some s' ->
  sign_in_inv s'.
Proof.
  intros Hi Hpend Hv. destruct (inv_pending s Hi id _ Hpend) as (Hst & Hlr & Hff).
  cbn [sign_in_step]. rewrite Hpend, Hv.
  pose proof (verify_account_proof r unix (store s) resp accounts Hv) as Hproof. cbn zeta in Hproof |- *.
  assert (Hval : accounts_valid accounts) by (by eapply verify_account_valid; [apply Hi|]).
  set (e := mkLogEntry r unix (store s)) in *.
  assert (H1 : sign_in_inv (set_log (e :: log s) (set_store accounts s))).
  { change (set_log (e :: log s) (set_store accounts s)) with (set_log (e :: log (set_store accounts s)) (set_store accounts s)).
    apply set_log_inv. by apply set_store_inv. }
  set (s1 := set_log (e :: log s) (set_store accounts s)) in *.
  destruct resp.
  - apply with_data_inv. apply set_pending_inv.
    + destruct cookie as [t|]; [|done]. unfold cleanup_login_session. apply set_sessions_inv; [by apply set_totp_inv|].
      apply sessions_ok_delete, H1.
    + replace (pending (match cookie with Some t => cleanup_login_session t (username r) s1 | None => s1 end)) with (pending s1) by (by destruct cookie).
      replace (log (match cookie with Some t => cleanup_login_session t (username r) s1 | None => s1 end)) with (log s1) by (by destruct cookie).
      apply pending_ok_insert; [apply H1|]. cbn [phase_ok scope_ok].
      replace (subject (unwrap_or login_record start)) with (username r) by (by destruct login_record).
      change (log s1) with (e :: log s).
      destruct Hproof as [Hp|[[Ht Hp]|[Hp|Hp]]]; [|right|by left|right]; [right| |]; exists [], e, (log s); (split; [done|]).
      * by left.
      * right; right. split; [exact Hp|]. by apply Hff.
      * right; by left.
  - apply with_data_inv. apply set_pending_inv; [done|]. apply pending_ok_insert; [apply H1|].
    cbn [phase_ok scope_ok]. rewrite Hst. by left.
Qed.

Lemma sign_in_step_inv ev s s' : sign_in_inv s -> sign_in_step cfg session_expiry ev s = Some s' -> sign_in_inv s'.
Proof.
  intros Hi. destruct ev as [id r cookie ip now|id challenge now unix|id now unix|id token unix|id|c m unix|ch now|token|unix];
    cbn [sign_in_step].
  - destruct (pending s !! id); [done|]. cbn zeta. destruct (ensure_login_allowed _ _ _ _) as [[res d]|]; [|done].
    intros [= <-]. assert (H0 : sign_in_inv (set_data d s)) by (by apply (sign_in_inv_same s); [done|done|done|apply Hi|apply Hi]).
    destruct (is_ok res); [|done]. apply set_pending_inv; [done|]. apply pending_ok_insert; [apply Hi|done].
  - destruct (pending s !! id) as [[r key cookie ip| |]|] eqn:Ep; try done.
    pose proof (inv_pending s Hi id _ Ep) as Hk. cbn [phase_ok] in Hk.
    destruct (verify_pre_login_conditions _ _ _ _ _ _ _ _ _) as [res s1] eqn:Ev.
    destruct (precheck_inv _ _ _ _ _ _ _ _ _ Hi Hk Ev) as (H1 & Hpe & Hres).
    destruct res as [lr|e].
    + intros [= <-]. apply set_pending_inv; [done|]. apply pending_ok_insert; [apply H1|]. cbn [phase_ok]. done.
    + apply with_data_inv. apply set_pending_inv; [done|]. apply pending_ok_delete, H1.
  - destruct (pending s !! id) as [[|r key cookie ip lr st|]|] eqn:Ep; try done.
    pose proof (inv_pending s Hi id _ Ep) as Hph.
    destruct (verify_account r unix (store s)) as [[resp|e] accounts] eqn:Ev.
    + intros H. apply (accepted_inv r key cookie ip lr st resp accounts id now unix s s' Hi Ep Ev).
      cbn [sign_in_step]. rewrite Ep, Ev. exact H.
    + apply with_data_inv. apply set_pending_inv.
      * destruct (is_totp r); [|done]. destruct cookie; [|done]. by apply record_totp_failure_inv.
      * destruct (is_totp r); [|apply pending_ok_delete, Hi]. destruct cookie as [t|]; [|apply pending_ok_delete, Hi].
        destruct (record_totp_failure_inv t (username r) now s Hi) as (H1 & Hpe & Hlo). apply pending_ok_delete, H1.
  - destruct (pending s !! id) as [[| |scope record]|] eqn:Ep; try done. intros [= <-].
    pose proof (inv_pending s Hi id _ Ep) as Hph. cbn [phase_ok] in Hph.
    apply set_sessions_inv; [apply set_pending_inv; [done|apply pending_ok_delete, Hi]|].
    apply sessions_ok_insert; [|done]. apply sessions_ok_filter, Hi.
  - intros [= <-]. apply set_pending_inv; [done|]. apply pending_ok_delete, Hi.
  - destruct (call_method c m unix (store s)) as [accounts|e] eqn:Ec; intros [= <-]; [|done].
    apply set_store_inv; [done|]. apply call_method_runs in Ec as [Hr _]. eapply run_call_valid; [apply Hi|exact Hr].
  - intros [= <-]. by apply set_challenges_inv.
  - intros [= <-]. apply set_sessions_inv; [done|]. apply sessions_ok_delete, sessions_ok_delete, Hi.
  - intros [= <-]. apply set_sessions_inv; [done|]. apply sessions_ok_filter, Hi.
Qed.

Lemma sign_in_start_inv accounts : accounts_valid accounts -> sign_in_inv (sign_in_start accounts).
Proof.
  intros Hv. split; [by intros ? ? ? H|by intros ? ? H|done|by exists accounts].
Qed.

Lemma sign_in_run_inv evs s s' : sign_in_inv s -> sign_in_run cfg session_expiry evs s = Some s' -> sign_in_inv s'.
Proof.
  revert s. induction evs as [|ev evs IH]; intros s Hi; cbn [sign_in_run]; [by intros [= <-]|].
  destruct (sign_in_step cfg session_expiry ev s) as [s1|] eqn:E; [|done]. intros H.
  eapply IH; [|exact H]. by eapply sign_in_step_inv.
Qed.

Lemma session_caller_record token unix s c :
  session_caller session_expiry token unix s = Ok c ->
  exists r e, sessions s !! (AdminScope, token) = Some r /\ directory s !! subject r = Some e
    /\ c = mkCaller (subject r) (entry_role e) (entry_proxies e) None
    /\ to_millis (entry_changed_at e) <= to_millis (started_at r).
Proof.
  unfold session_caller, sessions_get. destruct (sessions s !! _) as [r|]; [|done]. destruct (is_active _ _ _); [|done].
  unfold caller, account_caller. destruct (directory s !! subject r) as [e|] eqn:Ee; [|done].
  destruct (_ <=? _) eqn:El; [|done]. intros [= <-]. apply Z.leb_le in El. by exists r, e.
Qed.
End Proofs.

(** ** Properties *)

(** C1: Nobody gets an admin session without the factors of the account, however the parts of several
    sign-ins, account calls, disconnects and sign-outs interleave: when a session token gives a caller,
    the log has an accepted sign-in of that user name: a password of an account without a TOTP secret,
    a signature of one of its passkeys, or a TOTP code of a new time step that follows an accepted
    password of the same account.  The caller has the role and the proxies of the account as it is now,
    and the account did not change after the session started. *)
Theorem second_factor_required `{CRYPTO : AuthCrypto} cfg session_expiry accounts evs s token unix c :
  accounts_valid accounts -> sign_in_run cfg session_expiry evs (sign_in_start accounts) = Some s ->
  session_caller session_expiry token unix s = Ok c ->
  justified (caller_name c) (log s)
  /\ exists e, directory s !! caller_name c = Some e /\ caller_role c = entry_role e /\ caller_proxies c = entry_proxies e.
Proof.
  intros Hv Hrun Hc. pose proof (sign_in_run_inv cfg session_expiry evs _ s (sign_in_start_inv accounts Hv) Hrun) as Hi.
  apply session_caller_record in Hc as (r & e & Hr & He & -> & _). cbn [caller_name caller_role caller_proxies].
  split; [|by exists e].
  destruct (inv_sessions s Hi AdminScope token r Hr) as [Hempty|Hj]; [|exact Hj]. exfalso.
  destruct (inv_directory s Hi) as (a & Ha & Hd). rewrite Hd, Hempty in He. unfold AccountDirectory_new in He.
  rewrite lookup_fmap in He. destruct (a !! "") as [x|] eqn:Ex; [|done].
  assert (H : validate_username "" = Ok tt) by (apply (names_valid a Ha); by exists x). done.
Qed.

Definition example_sign_in : list SignInEvent :=
  [Arrive 1 (mkLoginRequest "root" (Password "secret-1")) None (V4 1) 0;
   Precheck 1 None 1 1700000001000; CheckAccount 1 2 1700000001001; Finish 1 "t1" 1700000001002;
   Arrive 2 (mkLoginRequest "root" (Totp "123456")) (Some "t1") (V4 1) 3;
   Precheck 2 None 4 1700000002000; Arrive 3 (mkLoginRequest "root" (Password "guess")) None (V4 2) 5;
   CheckAccount 2 6 1700000002001; Disconnect 3; Finish 2 "t2" 1700000002002].

Definition example_signed_in : SignInState :=
  Eval vm_compute in
    match sign_in_run (CRYPTO := plain_crypto) default_admin (from_secs 3600) example_sign_in (sign_in_start example_accounts) with
    | Some s => s
    | None => sign_in_start ∅
    end.

Lemma second_factor_required_witness :
  session_caller (from_secs 3600) "t1" 1700000003000 example_signed_in = Err Unauthorized
  /\ session_caller (from_secs 3600) "t2" 1700000003000 example_signed_in = Ok (mkCaller "root" Admin None None)
  /\ justified (CRYPTO := plain_crypto) "root" (log example_signed_in).
Proof.
  assert (E : sign_in_run (CRYPTO := plain_crypto) default_admin (from_secs 3600) example_sign_in (sign_in_start example_accounts)
              = Some example_signed_in) by (vm_compute; reflexivity).
  assert (H2 : session_caller (from_secs 3600) "t2" 1700000003000 example_signed_in = Ok (mkCaller "root" Admin None None))
    by (vm_compute; reflexivity).
  split; [vm_compute; reflexivity|split; [exact H2|]].
  exact (proj1 (second_factor_required (CRYPTO := plain_crypto) default_admin (from_secs 3600) example_accounts example_sign_in
                  example_signed_in "t2" 1700000003000 _ example_accounts_valid E H2)).
Defined.
