(* ===== verification/Origin.v ===== *)
(** * Origins of the admin API

    [admin/auth.rs]: the relying party of a passkey, the origin of its client data, and the check that a
    request which changes something with a session cookie comes from the panel ([verify_origin] and the
    middleware [verify]).  The [url] crate is an interface; a header is [None] when it is missing and
    [Some None] when it is not text. *)

From Stdlib Require Import Ascii.
From S2P Require Import Prelude Basics IpText Net ClientIp Accounts SignIn.

(** A parsed URL: its scheme, its host, and its port or the known port of the scheme. *)
Record Url : Type := mkUrl { scheme : string; host_str : option string; port_or_known_default : option Z }.

Class UrlParser : Type := { url_parse : string -> option Url }.

Notation Headers := (string -> option (option string)).

Definition header_text (name : string) (h : Headers) : option string := match h name with Some (Some v) => Some v | _ => None end.

Section Origins.
Context `{URL : UrlParser}.

Definition first_item (c : ascii) (s : string) : string := match split_on c s with x :: _ => x | [] => "" end.

Definition sanitize_rp_domain (raw : string) : string :=
  let domain := first_item ":" raw in
  if String.eqb domain "127.0.0.1" || String.eqb domain "::1" then "localhost" else domain.

Definition header_domain (name : string) (h : Headers) : option string :=
  match header_text name h with
  | None => None
  | Some v => let domain := trim (first_item "," v) in if str_is_empty domain then None else Some (sanitize_rp_domain domain)
  end.

Definition domain_from_headers (h : Headers) : option string :=
  let host_domain := header_domain "host" h in
  if is_some_and (fun d => negb (String.eqb d "localhost")) host_domain then host_domain
  else match header_domain "x-forwarded-host" h with Some fwd => Some fwd | None => host_domain end.

Definition extract_rp_id (public_url : option string) (h : Headers) : string :=
  let from_url := match public_url with
                  | Some url => match url_parse url with Some u => host_str u | None => None end
                  | None => None
                  end in
  match from_url with
  | Some host => sanitize_rp_domain host
  | None => unwrap_or (domain_from_headers h) "localhost"
  end.

(** [trim_start_matches('[').trim_end_matches(']')]. *)
Fixpoint trim_end_bracket (s : string) : string :=
  match s with
  | EmptyString => EmptyString
  | String a r => let r' := trim_end_bracket r in if str_is_empty r' && Ascii.eqb a "]" then EmptyString else String a r'
  end.

Definition unbracket (s : string) : string := trim_end_bracket (trim_start_matches (fun a => Ascii.eqb a "[") s).

Definition str_ends_with (suffix s : string) : bool :=
  let n := String.length suffix in let m := String.length s in
  Nat.leb n m && String.eqb (String.substring (m - n) n s) suffix.

Definition is_local (s : string) : bool := String.eqb s "localhost" || String.eqb s "127.0.0.1" || String.eqb s "::1".

Definition is_valid_origin (origin expected_rp_id : string) : bool :=
  match url_parse origin with
  | None => false
  | Some u =>
      match host_str u with
      | None => false
      | Some host =>
          let origin_clean := unbracket host in
          let rp_clean := unbracket expected_rp_id in
          if eq_ignore_ascii_case origin_clean rp_clean then true
          else if str_ends_with (String.append "." rp_clean) origin_clean then true
          else is_local origin_clean && is_local rp_clean
      end
  end.

Definition matches_origin_host (origin : Url) (req_host : string) : bool :=
  match host_str origin with
  | None => false
  | Some origin_host =>
      let '(req_hostname, req_port) := match split_once ":" req_host with
                                       | Some (h, p) => (h, parse_uint u16_max p)
                                       | None => (req_host, None)
                                       end in
      if negb (eq_ignore_ascii_case origin_host req_hostname) then false
      else
        let expected_port := match req_port with
                             | Some p => Some p
                             | None => if String.eqb (scheme origin) "https" then Some 443
                                       else if String.eqb (scheme origin) "http" then Some 80 else None
                             end in
        bool_decide (port_or_known_default origin = expected_port)
  end.

Definition matches_origin_public_url (origin : Url) (public_url : string) : bool :=
  match url_parse public_url with
  | None => false
  | Some p => String.eqb (scheme origin) (scheme p) && bool_decide (host_str origin = host_str p)
              && bool_decide (port_or_known_default origin = port_or_known_default p)
  end.

Definition has_preflight_custom_header (h : Headers) : bool :=
  is_some (h "x-requested-with") || is_some (h "x-csrf-token")
  || is_some_and (starts_with "application/json") (header_text "content-type" h).

Definition check_sec_fetch_site (h : Headers) : option (result unit Error) :=
  match header_text "sec-fetch-site" h with
  | None => None
  | Some site =>
      if eq_ignore_ascii_case site "same-origin" then Some (Ok tt)
      else if eq_ignore_ascii_case site "cross-site" || eq_ignore_ascii_case site "same-site" then Some (Err Unauthorized)
      else None
  end.

Definition matches_request_origin (origin : Url) (h : Headers) (public_url : option string) : bool :=
  is_some_and (matches_origin_host origin) (header_text "host" h) || is_some_and (matches_origin_public_url origin) public_url.

Definition verify_origin (h : Headers) (public_url : option string) : result unit Error :=
  match check_sec_fetch_site h with
  | Some res => res
  | None =>
      if has_preflight_custom_header h then Ok tt
      else match (match h "origin" with Some v => Some v | None => h "referer" end) with
           | None => Ok tt
           | Some None => Err Unauthorized
           | Some (Some origin_str) =>
               match url_parse origin_str with
               | None => Err Unauthorized
               | Some u => if matches_request_origin u h public_url then Ok tt else Err Unauthorized
               end
           end
  end.

Definition is_state_changing (method : string) : bool :=
  String.eqb method "POST" || String.eqb method "PUT" || String.eqb method "DELETE" || String.eqb method "PATCH".

Definition set_client (ip : option IpAddr) (c : Caller) : Caller := mkCaller (caller_name c) (caller_role c) (caller_proxies c) ip.

(** The caller that [verify] adds to the request, and the token of its session; [Err] is the answer
    instead.  [cookie] is the value of the [token] cookie. *)
Definition verify `{CRYPTO : AuthCrypto} (session_expiry : Duration) (mcp_verify : string -> option (string * Z * string))
  (public_url : option string) (peer : option IpAddr) (method : string) (h : Headers) (cookie : option string)
  (unix : Z) (s : SignInState) : result (Caller * option string) Error :=
  let bearer := match header_text "authorization" h with Some v => strip_prefix "Bearer " v | None => None end in
  match resolve_caller session_expiry mcp_verify bearer cookie unix s with
  | Err e => Err e
  | Ok (c, session_token) =>
      let checked := if is_some session_token && is_none bearer && is_state_changing method
                     then verify_origin h public_url else Ok tt in
      match checked with Err e => Err e | Ok _ => Ok (set_client peer c, session_token) end
  end.

End Origins.

(** ** Properties *)

(** A page of another site changes nothing with the session cookie of the panel: a request that
    changes the state, with no [Authorization] header, is answered with an error when the browser
    names another site, and when its [Origin] is another one, unless the browser says that the request
    is of the same origin or it carries a header that a page can set only after a preflight. *)
Theorem foreign_pages_change_nothing `{URL : UrlParser} `{CRYPTO : AuthCrypto} session_expiry mcp_verify public_url peer method h cookie unix s :
  is_state_changing method = true -> h "authorization" = None ->
  (exists site, header_text "sec-fetch-site" h = Some site
                /\ (eq_ignore_ascii_case site "cross-site" = true \/ eq_ignore_ascii_case site "same-site" = true))
  \/ (exists v, (forall site, header_text "sec-fetch-site" h = Some site -> eq_ignore_ascii_case site "same-origin" = false)
        /\ has_preflight_custom_header h = false /\ h "origin" = Some v
        /\ forall text u, v = Some text -> url_parse text = Some u -> matches_request_origin u h public_url = false) ->
  exists e, verify session_expiry mcp_verify public_url peer method h cookie unix s = Err e.
Proof.
  intros Hm Ha Hcase.
  assert (Hv : verify_origin h public_url = Err Unauthorized).
  { unfold verify_origin, check_sec_fetch_site.
    destruct Hcase as [(site & -> & Hsite)|(v & Hnot & Hpre & Ho & Hno)].
    - assert (Hso : eq_ignore_ascii_case site "same-origin" = false).
      { unfold eq_ignore_ascii_case in *. apply String.eqb_neq. intros E. rewrite E in Hsite.
        vm_compute in Hsite. by destruct Hsite. }
      rewrite Hso. destruct Hsite as [-> | ->]; [done|by rewrite orb_true_r].
    - assert (Hgo : (if has_preflight_custom_header h then Ok tt
                     else match (match h "origin" with Some v => Some v | None => h "referer" end) with
                          | None => Ok tt | Some None => Err Unauthorized
                          | Some (Some o) => match url_parse o with
                                             | None => Err Unauthorized
                                             | Some u => if matches_request_origin u h public_url then Ok tt else Err Unauthorized end
                          end) = Err Unauthorized).
      { rewrite Hpre, Ho. destruct v as [text|]; [|done]. destruct (url_parse text) as [u|] eqn:Eu; [|done].
        by rewrite (Hno text u eq_refl Eu). }
      destruct (header_text "sec-fetch-site" h) as [site|]; [|exact Hgo].
      rewrite (Hnot site eq_refl). destruct (_ || _); [done|exact Hgo]. }
  assert (Hb : header_text "authorization" h = None) by (unfold header_text; by rewrite Ha).
  unfold verify, resolve_caller. rewrite Hb. cbv beta zeta match.
  destruct cookie as [token|]; [|eexists; reflexivity].
  destruct (session_caller _ _ _ _) as [c|]; [|eexists; reflexivity].
  rewrite Hm, Hv. eexists; reflexivity.
Qed.

(** A parser of the two URLs of the example. *)
Definition plain_urls : UrlParser := {|
  url_parse s := if String.eqb s "https://evil.example" then Some (mkUrl "https" (Some "evil.example") (Some 443))
                 else if String.eqb s "https://panel.example" then Some (mkUrl "https" (Some "panel.example") (Some 443)) else None
|}.

Definition example_headers (origin : string) : Headers := fun name =>
  if String.eqb name "host" then Some (Some "panel.example") else if String.eqb name "origin" then Some (Some origin) else None.

Lemma foreign_pages_change_nothing_witness :
  let v origin := verify (URL := plain_urls) (CRYPTO := plain_crypto) (from_secs 3600) (fun _ => None) None None "POST"
                    (example_headers origin) (Some "t2") 1700000003000 example_signed_in in
  (exists e, v "https://evil.example" = Err e)
  /\ v "https://panel.example" = Ok (mkCaller "root" Admin None None, Some "t2").
Proof.
  intros v. split; [|vm_compute; reflexivity].
  apply (foreign_pages_change_nothing (URL := plain_urls) (CRYPTO := plain_crypto)); [reflexivity|reflexivity|].
  right. exists (Some "https://evil.example"). split; [done|]. split; [reflexivity|]. split; [reflexivity|].
  intros text u [= <-]. vm_compute. intros [= <-]. reflexivity.
Defined.
