(* ===== verification/OAuth.v ===== *)
(** * The OAuth server of the MCP endpoint

    [admin/oauth2.rs]: the registration of clients, the consent of an account with its CSRF token,
    authorization codes with PKCE, and access and refresh tokens with rotation, and the redirect URIs of
    [api/app.rs].  The tables in memory and the rows of the grants in SQLite are
    modelled, with the start of the server that loads the rows; the pages and the HTTP answers are
    left out, and the stored clients are an argument.  Random tokens, their digests and parsed URLs are arguments or an interface; times
    are seconds since the Unix epoch. *)

From Stdlib Require Import Ascii.
From S2P Require Import Prelude Basics Accounts SignIn.

(** ** Clients and redirect URIs *)

Record RedirectUrl : Type := mkRedirectUrl {
  url_scheme : string;
  url_host : option string;
  url_path : string;
  url_query : option string;
  url_fragment : option string;
}.

(** The [url] crate and SHA-256: the stored digest of a token, the S256 challenge of a verifier, and the
    session id of an access token. *)
Class OAuthOps : Type := {
  parse_url : string -> option RedirectUrl;
  token_digest : string -> string;
  challenge_of : string -> string;
  session_of : string -> string;
}.

Record McpClientConfig : Type := mkMcpClient { mcp_id : string; mcp_name : string; redirect_uris : list string }.

Record McpConfig : Type := mkMcpConfig { mcp_enabled : bool; mcp_clients : list McpClientConfig }.

Definition CODE_LIFETIME : Z := 600.
Definition ACCESS_TOKEN_LIFETIME : Z := 3600.
Definition REFRESH_TOKEN_LIFETIME : Z := 30 * 24 * 3600.
Definition CONSENT_CSRF_LIFETIME : Z := 600.
Definition DYNAMIC_CLIENT_TTL : Z := 7 * 86400.
Definition UNAUTH_CLIENT_TTL : Z := 86400.
Definition MAX_GRANTS : Z := 1024.
Definition MAX_CLIENTS : Z := 256.
Definition SCOPES : list string := ["read"; "edit"].

Section OAuth.
Context `{OPS : OAuthOps}.

Definition McpClientConfig_find (clients : list McpClientConfig) (id : string) : option McpClientConfig :=
  find (fun c => String.eqb (mcp_id c) id) clients.

(** [trim_start_matches('[').trim_end_matches(']')]. *)
Fixpoint trim_end_char (c : ascii) (s : string) : string :=
  match s with
  | EmptyString => EmptyString
  | String a r => let r' := trim_end_char c r in if str_is_empty r' && Ascii.eqb a c then EmptyString else String a r'
  end.

Definition is_loopback_host (host : string) : bool :=
  let trimmed := trim_end_char "]" (trim_start_matches (fun a => Ascii.eqb a "[") host) in
  String.eqb trimmed "127.0.0.1" || String.eqb trimmed "::1" || String.eqb trimmed "localhost".

Definition is_valid_redirect_uri (uri : string) : bool :=
  match parse_url uri with
  | None => false
  | Some u =>
      if is_some (url_fragment u) then false
      else if String.eqb (url_scheme u) "https" then true
      else if String.eqb (url_scheme u) "http" then is_some_and is_loopback_host (url_host u)
      else false
  end.

Definition is_loopback_redirect (registered uri : string) : bool :=
  match parse_url registered, parse_url uri with
  | Some r, Some u =>
      String.eqb (url_scheme r) "http" && String.eqb (url_scheme u) "http"
      && is_some_and is_loopback_host (url_host r) && is_some_and is_loopback_host (url_host u)
      && String.eqb (url_path r) (url_path u) && bool_decide (url_query r = url_query u)
      && is_none (url_fragment r) && is_none (url_fragment u)
  | _, _ => false
  end.

Definition allows_redirect (c : McpClientConfig) (uri : string) : bool :=
  if negb (is_valid_redirect_uri uri) then false
  else existsb (fun registered =>
                  if negb (is_valid_redirect_uri registered) then false
                  else String.eqb registered uri || is_loopback_redirect registered uri) (redirect_uris c).

(** ** The state *)

Record AuthorizationCode : Type := mkCode {
  code_expires_at : Z;
  code_client : string;
  code_redirect : string;
  code_challenge : string;
  code_scope : string;
  code_username : string;
}.

Record AccessToken : Type := mkAccessToken {
  grant_id : string;
  expires_at : Z;
  refresh_expires_at : Z;
  grant_client : string;
  grant_username : string;
  grant_scope : string;
  refresh_token : string;
  created_at : Z;
}.

Record DynamicClientEntry : Type := mkDynamicClient { client_config : McpClientConfig; client_created_at : Z; seq : Z }.

Record ConsentCsrf : Type := mkConsentCsrf { csrf_username : string; session_token_hash : string; csrf_expires_at : Z }.

Record McpAuthorizations : Type := mkMcp {
  codes : gmap string AuthorizationCode;
  access_tokens : gmap string AccessToken;
  refresh : gmap string string;
  by_id : gmap string string;
  rotated_refresh : gmap string (string * Z);
  dynamic_clients : gmap string DynamicClientEntry;
  csrf_tokens : gmap string ConsentCsrf;
  client_seq : Z;
}.

Definition McpAuthorizations_default : McpAuthorizations := mkMcp ∅ ∅ ∅ ∅ ∅ ∅ ∅ 0.

Definition set_codes (x : gmap string AuthorizationCode) (m : McpAuthorizations) : McpAuthorizations :=
  mkMcp x (access_tokens m) (refresh m) (by_id m) (rotated_refresh m) (dynamic_clients m) (csrf_tokens m) (client_seq m).
Definition set_grants (t : gmap string AccessToken) (r b : gmap string string) (m : McpAuthorizations) : McpAuthorizations :=
  mkMcp (codes m) t r b (rotated_refresh m) (dynamic_clients m) (csrf_tokens m) (client_seq m).
Definition set_rotated (x : gmap string (string * Z)) (m : McpAuthorizations) : McpAuthorizations :=
  mkMcp (codes m) (access_tokens m) (refresh m) (by_id m) x (dynamic_clients m) (csrf_tokens m) (client_seq m).
Definition set_clients (x : gmap string DynamicClientEntry) (m : McpAuthorizations) : McpAuthorizations :=
  mkMcp (codes m) (access_tokens m) (refresh m) (by_id m) (rotated_refresh m) x (csrf_tokens m) (client_seq m).
Definition set_csrf (x : gmap string ConsentCsrf) (m : McpAuthorizations) : McpAuthorizations :=
  mkMcp (codes m) (access_tokens m) (refresh m) (by_id m) (rotated_refresh m) (dynamic_clients m) x (client_seq m).
Definition set_seq (x : Z) (m : McpAuthorizations) : McpAuthorizations :=
  mkMcp (codes m) (access_tokens m) (refresh m) (by_id m) (rotated_refresh m) (dynamic_clients m) (csrf_tokens m) x.

(** Takes a grant out of the three tables. *)
Definition drop_grant (access : string) (m : McpAuthorizations) : McpAuthorizations :=
  match access_tokens m !! access with
  | None => m
  | Some g => set_grants (delete access (access_tokens m)) (delete (refresh_token g) (refresh m)) (delete (grant_id g) (by_id m)) m
  end.

Definition revoke_session (session_id : string) (m : McpAuthorizations) : bool * McpAuthorizations :=
  match by_id m !! session_id with
  | None => (false, m)
  | Some access =>
      let b := delete session_id (by_id m) in
      (true, match access_tokens m !! access with
             | Some g => set_grants (delete access (access_tokens m)) (delete (refresh_token g) (refresh m)) b m
             | None => set_grants (access_tokens m) (refresh m) b m
             end)
  end.

(** ** Clients that register themselves *)

Definition active_client (now : Z) (id : string) (m : McpAuthorizations) : bool :=
  existsb (fun kv => (now <? code_expires_at kv.2) && String.eqb (code_client kv.2) id) (map_to_list (codes m))
  || existsb (fun kv => (now <? refresh_expires_at kv.2) && String.eqb (grant_client kv.2) id) (map_to_list (access_tokens m)).

Definition revoke_client_grants (client : string) (m : McpAuthorizations) : McpAuthorizations :=
  let m := set_codes (filter (fun kv => code_client kv.2 <> client) (codes m)) m in
  let hashes := map fst (List.filter (fun kv => String.eqb (grant_client kv.2) client) (map_to_list (access_tokens m))) in
  fold_left (fun m h => drop_grant h m) hashes m.

Definition evict_client (id : string) (m : McpAuthorizations) : McpAuthorizations :=
  revoke_client_grants id (set_clients (delete id (dynamic_clients m)) m).

Definition older (a b : string * DynamicClientEntry) : bool :=
  (client_created_at a.2 <? client_created_at b.2)
  || ((client_created_at a.2 =? client_created_at b.2) && (seq a.2 <? seq b.2)).

(** [min_by_key], the first of equals. *)
Definition oldest_client (l : list (string * DynamicClientEntry)) : option string :=
  option_map fst (fold_left (fun best kv => match best with Some b => if older kv b then Some kv else best | None => Some kv end) l None).

Definition find_eviction_candidate (now : Z) (m : McpAuthorizations) : option string :=
  let all := map_to_list (dynamic_clients m) in
  match oldest_client (List.filter (fun kv => negb (active_client now kv.1 m)) all) with
  | Some id => Some id
  | None => oldest_client all
  end.

Definition cleanup_clients (now : Z) (m : McpAuthorizations) : McpAuthorizations :=
  let expired :=
    map fst (List.filter (fun kv => (negb (active_client now kv.1 m) && (client_created_at kv.2 <=? sat_sub now UNAUTH_CLIENT_TTL))
                                    || (client_created_at kv.2 <=? sat_sub now DYNAMIC_CLIENT_TTL))
                         (map_to_list (dynamic_clients m))) in
  fold_left (fun m id => evict_client id m) expired m.

(** [id] is [mcp-] with a random token; the answer is [None] when no client can be evicted. *)
Definition register_client (client : McpClientConfig) (id : string) (now : Z) (m : McpAuthorizations)
  : option string * McpAuthorizations :=
  let m := cleanup_clients now m in
  let full := MAX_CLIENTS <=? Z.of_nat (size (dynamic_clients m)) in
  match (if full then find_eviction_candidate now m else Some "") with
  | None => (None, m)
  | Some evict =>
      let m := if full then evict_client evict m else m in
      let entry := mkDynamicClient (mkMcpClient id (mcp_name client) (redirect_uris client)) now (client_seq m) in
      (Some id, set_clients (<[ id := entry ]> (dynamic_clients m)) (set_seq (wrap64 (client_seq m + 1)) m))
  end.

Definition dynamic_client (id : string) (m : McpAuthorizations) : option McpClientConfig :=
  option_map client_config (dynamic_clients m !! id).

(** ** Codes and tokens *)

Definition cleanup (now : Z) (m : McpAuthorizations) : McpAuthorizations :=
  let m := set_csrf (filter (fun kv => now < csrf_expires_at kv.2) (csrf_tokens m)) m in
  let m := set_rotated (filter (fun kv => now < kv.2.2) (rotated_refresh m)) m in
  let m := set_clients (filter (fun kv => Is_true (if active_client now kv.1 m
                                                   then sat_sub now DYNAMIC_CLIENT_TTL <? client_created_at kv.2
                                                   else sat_sub now UNAUTH_CLIENT_TTL <? client_created_at kv.2))
                               (dynamic_clients m)) m in
  if Z.of_nat (size (codes m)) + Z.of_nat (size (access_tokens m)) <? MAX_GRANTS then m
  else
    let m := set_codes (filter (fun kv => now < code_expires_at kv.2) (codes m)) m in
    let expired := map fst (List.filter (fun kv => refresh_expires_at kv.2 <=? now) (map_to_list (access_tokens m))) in
    fold_left (fun m h => drop_grant h m) expired m.

Definition issue_code (code : string) (grant : AuthorizationCode) (now : Z) (m : McpAuthorizations) : McpAuthorizations :=
  let m := cleanup now m in set_codes (<[ code := grant ]> (codes m)) m.

Record IssuedTokens : Type := mkIssued { issued_access : string; issued_refresh : string; issued_scope : string }.

(** [access] and [refresh] are random. *)
Definition issue_tokens_with_session (session_id : option string) (client scope username access ref : string) (now : Z)
  (m : McpAuthorizations) : IssuedTokens * McpAuthorizations :=
  let id := unwrap_or session_id (session_of access) in
  let ah := token_digest access in
  let rh := token_digest ref in
  let grant := mkAccessToken id (now + ACCESS_TOKEN_LIFETIME) (now + REFRESH_TOKEN_LIFETIME) client username scope rh now in
  (mkIssued access ref scope, set_grants (<[ ah := grant ]> (access_tokens m)) (<[ rh := ah ]> (refresh m)) (<[ id := ah ]> (by_id m)) m).

(** The code is taken out also when the check fails. *)
Definition exchange_code (code client redirect verifier access ref : string) (now : Z) (m : McpAuthorizations)
  : option (string * IssuedTokens) * McpAuthorizations :=
  let found := codes m !! code in
  let m := set_codes (delete code (codes m)) m in
  match found with
  | None => (None, m)
  | Some g =>
      if (now <? code_expires_at g) && String.eqb (code_client g) client && String.eqb (code_redirect g) redirect
      then if negb (String.eqb (challenge_of verifier) (code_challenge g)) then (None, m)
           else let '(issued, m) := issue_tokens_with_session None (code_client g) (code_scope g) (code_username g) access ref now m in
                (Some (code_username g, issued), m)
      else (None, m)
  end.

Inductive RefreshError : Type := Invalid | Reused.

Definition check_token_reuse (ref_hash : string) (now : Z) (m : McpAuthorizations) : result unit RefreshError * McpAuthorizations :=
  match rotated_refresh m !! ref_hash with
  | Some (session_id, exp) => if now <? exp then (Err Reused, snd (revoke_session session_id m)) else (Ok tt, m)
  | None => (Ok tt, m)
  end.

(** [refresh_tokens] after the check for a reused token. *)
Definition rotate_tokens (ref_hash access ref : string) (now : Z) (m : McpAuthorizations)
  : result IssuedTokens RefreshError * McpAuthorizations :=
  match refresh m !! ref_hash with
  | None => (Err Invalid, m)
  | Some ah =>
      let m := set_grants (access_tokens m) (delete ref_hash (refresh m)) (by_id m) m in
      match access_tokens m !! ah with
      | None => (Err Invalid, m)
      | Some g =>
          let m := set_grants (delete ah (access_tokens m)) (refresh m) (delete (grant_id g) (by_id m)) m in
          if refresh_expires_at g <=? now then (Err Invalid, m)
          else
            let rotated := <[ ref_hash := (grant_id g, refresh_expires_at g) ]> (rotated_refresh m) in
            let rotated := if 1000 <? Z.of_nat (size rotated) then filter (fun kv => now < kv.2.2) rotated else rotated in
            let '(issued, m) := issue_tokens_with_session (Some (grant_id g)) (grant_client g) (grant_scope g) (grant_username g)
                                  access ref now (set_rotated rotated m) in
            (Ok issued, m)
      end
  end.

Definition refresh_tokens (token access ref : string) (now : Z) (m : McpAuthorizations)
  : result IssuedTokens RefreshError * McpAuthorizations :=
  match check_token_reuse (token_digest token) now m with
  | (Err e, m) => (Err e, m)
  | (Ok _, m) => rotate_tokens (token_digest token) access ref now m
  end.

Definition mcp_verify (token : string) (now : Z) (m : McpAuthorizations) : option AccessToken :=
  match access_tokens m !! token_digest token with
  | Some g => if now <? expires_at g then Some g else None
  | None => None
  end.

(** ** The consent of an account *)

Definition issue_consent_csrf (token username session : string) (now : Z) (m : McpAuthorizations) : McpAuthorizations :=
  let m := cleanup now m in
  set_csrf (<[ token := mkConsentCsrf username (token_digest session) (now + CONSENT_CSRF_LIFETIME) ]> (csrf_tokens m)) m.

Definition verify_and_consume_csrf (token username : string) (session : option string) (now : Z) (m : McpAuthorizations)
  : bool * McpAuthorizations :=
  match csrf_tokens m !! token with
  | None => (false, m)
  | Some c =>
      (if (csrf_expires_at c <=? now) || negb (String.eqb (csrf_username c) username) then false
       else is_none_or (fun s => str_is_empty s || String.eqb (session_token_hash c) (token_digest s)) session,
       set_csrf (delete token (csrf_tokens m)) m)
  end.

Record AuthorizeQuery : Type := mkAuthorizeQuery {
  q_client : string;
  q_redirect : string;
  q_response_type : string;
  q_state : string;
  q_challenge : string;
  q_method : option string;
  q_scope : option string;
}.

Definition scopes_of (scope : option string) : list string :=
  match split_whitespace (unwrap_or scope "read") with [] => ["read"] | l => l end.

Definition validate_authorize_shape (q : AuthorizeQuery) : result unit Error :=
  if negb (String.eqb (q_response_type q) "code")
     || negb (is_some_and (String.eqb "S256") (q_method q))
     || negb ((43 <=? Z.of_nat (String.length (q_challenge q))) && (Z.of_nat (String.length (q_challenge q)) <=? 128))
     || str_is_empty (q_state q)
  then Err McpGrantInvalid
  else if existsb (fun s => negb (existsb (String.eqb s) SCOPES)) (scopes_of (q_scope q)) then Err McpGrantInvalid
  else Ok tt.

Definition find_client (config : McpConfig) (dynamic : option McpClientConfig) (id : string) : result McpClientConfig Error :=
  if negb (mcp_enabled config) then Err McpDisabled
  else match McpClientConfig_find (mcp_clients config) id with
       | Some c => Ok c
       | None => match dynamic with
                 | Some c => if String.eqb (mcp_id c) id then Ok c else Err (McpClientUnknown id)
                 | None => Err (McpClientUnknown id)
                 end
       end.

Definition validate_authorize (config : McpConfig) (dynamic : option McpClientConfig) (q : AuthorizeQuery)
  : result McpClientConfig Error :=
  match validate_authorize_shape q with
  | Err e => Err e
  | Ok _ =>
      match find_client config dynamic (q_client q) with
      | Err e => Err e
      | Ok c => if negb (allows_redirect c (q_redirect q)) then Err McpRedirectInvalid else Ok c
      end
  end.

(** The consent page of a signed-in account: the token of its form, or the error. *)
Definition authorize (config : McpConfig) (q : AuthorizeQuery) (username session csrf : string) (now : Z) (m : McpAuthorizations)
  : result McpClientConfig Error * McpAuthorizations :=
  match validate_authorize config (dynamic_client (q_client q) m) q with
  | Err e => (Err e, m)
  | Ok c => (Ok c, issue_consent_csrf csrf username session now m)
  end.

Record ConsentForm : Type := mkConsentForm {
  form_client : string;
  form_redirect : string;
  form_state : string;
  form_challenge : string;
  form_scope : string;
  form_decision : string;
  form_csrf : string;
}.

Definition query_of (f : ConsentForm) : AuthorizeQuery :=
  mkAuthorizeQuery (form_client f) (form_redirect f) "code" (form_state f) (form_challenge f) (Some "S256") (Some (form_scope f)).

(** The first part of [consent], until the lock is released: the check of the form. *)
Definition consent_check (config : McpConfig) (f : ConsentForm) (username : string) (session : option string) (now : Z)
  (m : McpAuthorizations) : result McpClientConfig Error * McpAuthorizations :=
  let '(good, m) := verify_and_consume_csrf (form_csrf f) username session now m in
  if negb good then (Err Unauthorized, m)
  else (validate_authorize config (dynamic_client (form_client f) m) (query_of f), m).

(** The code of an approved form. *)
Definition approved_code (c : McpClientConfig) (f : ConsentForm) (username : string) (now : Z) : AuthorizationCode :=
  mkCode (now + CODE_LIFETIME) (mcp_id c) (form_redirect f) (form_challenge f) (form_scope f) username.

Record McpSession : Type := mkMcpSession {
  ses_id : string;
  ses_client : string;
  ses_client_name : string;
  ses_username : string;
  ses_scope : string;
  ses_created_at : Z;
  ses_expires_at : Z;
  ses_refresh_expires_at : Z;
}.

Definition session_row (config_clients : list McpClientConfig) (m : McpAuthorizations) (g : AccessToken) : McpSession :=
  let name := match McpClientConfig_find config_clients (grant_client g) with
              | Some c => mcp_name c
              | None => match dynamic_clients m !! grant_client g with
                        | Some e => mcp_name (client_config e)
                        | None => grant_client g
                        end
              end in
  mkMcpSession (grant_id g) (grant_client g) name (grant_username g) (grant_scope g) (created_at g) (expires_at g) (refresh_expires_at g).

Definition list_sessions (config_clients : list McpClientConfig) (now : Z) (m : McpAuthorizations) : list McpSession :=
  sort_by (fun a b => ses_created_at b <=? ses_created_at a)
    (map (session_row config_clients m) (List.filter (fun g => now <? refresh_expires_at g) (map snd (map_to_list (access_tokens m))))).

(** ** The answers *)

Definition html_escape_char (a : ascii) : string :=
  if Ascii.eqb a "&" then "&amp;"
  else if Ascii.eqb a "<" then "&lt;"
  else if Ascii.eqb a ">" then "&gt;"
  else if Ascii.eqb a (ascii_of_nat 34) then "&quot;"
  else if Ascii.eqb a "'" then "&#39;"
  else String a "".

(** The replacements of the code go over the characters once each, [&] first. *)
Fixpoint html_escape (value : string) : string :=
  match value with
  | EmptyString => ""
  | String a r => html_escape_char a +:+ html_escape r
  end.

Definition is_unreserved (a : ascii) : bool :=
  let b := byte_of a in
  ((65 <=? b) && (b <=? 90)) || ((97 <=? b) && (b <=? 122)) || ((48 <=? b) && (b <=? 57))
  || existsb (Ascii.eqb a) ["-"; "."; "_"; "~"]%char.

Definition upper_hex (n : Z) : ascii := ascii_of_nat (Z.to_nat (if n <? 10 then 48 + n else 55 + n)).

Fixpoint urlencoding_escape (value : string) : string :=
  match value with
  | EmptyString => ""
  | String a r =>
      if is_unreserved a then String a (urlencoding_escape r)
      else String "%" (String (upper_hex (byte_of a / 16)) (String (upper_hex (byte_of a mod 16)) (urlencoding_escape r)))
  end.

Fixpoint has_char (c : ascii) (s : string) : bool :=
  match s with EmptyString => false | String a r => Ascii.eqb a c || has_char c r end.

Definition consent_redirect_uri (redirect state : string) (code error : option string) : string :=
  redirect +:+ (if has_char "?" redirect then "&" else "?") +:+ "state=" +:+ urlencoding_escape state
  +:+ match code with Some c => "&code=" +:+ urlencoding_escape c | None => "" end
  +:+ match error with Some e => "&error=" +:+ urlencoding_escape e | None => "" end.

(** The answer of [token]: tokens, or the OAuth error and whether it counts as a failed login. *)
Inductive TokenRequest : Type :=
| CodeRequest (code redirect client verifier : option string)
| RefreshRequest (token : option string)
| OtherGrant.

Inductive TokenAnswer : Type := Issued (t : IssuedTokens) | AccessDenied | OAuthError (code : string) (counted : bool).

Definition token (config : McpConfig) (req : TokenRequest) (access ref : string) (now : Z) (m : McpAuthorizations)
  : TokenAnswer * McpAuthorizations :=
  if negb (mcp_enabled config) then (AccessDenied, m)
  else
    match req with
    | CodeRequest (Some code) (Some redirect) (Some client) (Some verifier) =>
        if negb (is_some (McpClientConfig_find (mcp_clients config) client) || is_some (dynamic_client client m))
        then (OAuthError "invalid_client" false, m)
        else match exchange_code code client redirect verifier access ref now m with
             | (Some (_, issued), m) => (Issued issued, m)
             | (None, m) => (OAuthError "invalid_grant" true, m)
             end
    | CodeRequest _ _ _ _ => (OAuthError "invalid_request" false, m)
    | RefreshRequest (Some t) =>
        match refresh_tokens t access ref now m with
        | (Ok issued, m) => (Issued issued, m)
        | (Err _, m) => (OAuthError "invalid_grant" true, m)
        end
    | RefreshRequest None => (OAuthError "invalid_request" false, m)
    | OtherGrant => (OAuthError "unsupported_grant_type" false, m)
    end.

(** ** Registrations *)

Record RegistrationBody : Type := mkRegistration {
  client_name : option string;
  body_redirect_uris : list string;
  grant_types : option (list string);
  response_types : option (list string);
  token_endpoint_auth_method : option string;
}.

(** The error is its code; the descriptions are left out. *)
Definition validate_one_redirect_uri (uri : string) : result unit string :=
  match parse_url uri with
  | None => Err "invalid_redirect_uri"
  | Some u =>
      if is_some (url_fragment u) then Err "invalid_redirect_uri"
      else if String.eqb (url_scheme u) "https" then Ok tt
      else if String.eqb (url_scheme u) "http" && is_some_and is_loopback_host (url_host u) then Ok tt
      else Err "invalid_redirect_uri"
  end.

Fixpoint check_all (f : string -> result unit string) (l : list string) : result unit string :=
  match l with
  | [] => Ok tt
  | x :: r => match f x with Err e => Err e | Ok _ => check_all f r end
  end.

Definition validate_redirect_uris (uris : list string) : result (list string) string :=
  match uris with
  | [] => Err "invalid_redirect_uri"
  | _ => match check_all validate_one_redirect_uri uris with Err e => Err e | Ok _ => Ok uris end
  end.

Definition validate_client_metadata (b : RegistrationBody) : result unit string :=
  let grants := unwrap_or (grant_types b) ["authorization_code"; "refresh_token"] in
  if existsb (fun g => negb (String.eqb g "authorization_code") && negb (String.eqb g "refresh_token")) grants
  then Err "invalid_client_metadata"
  else if is_some_and (existsb (fun t => negb (String.eqb t "code"))) (response_types b) then Err "invalid_client_metadata"
  else if is_some_and (fun m => negb (String.eqb m "none")) (token_endpoint_auth_method b) then Err "invalid_client_metadata"
  else Ok tt.

Definition validate_registration (b : RegistrationBody) : result McpClientConfig string :=
  match validate_redirect_uris (body_redirect_uris b) with
  | Err e => Err e
  | Ok uris =>
      match validate_client_metadata b with
      | Err e => Err e
      | Ok _ => Ok (mkMcpClient "" (unwrap_or (client_name b) "MCP client") uris)
      end
  end.

(** A registered redirect URI is one that an authorization request accepts. *)
Lemma registered_uri_valid uri : validate_one_redirect_uri uri = Ok tt <-> is_valid_redirect_uri uri = true.
Proof.
  unfold validate_one_redirect_uri, is_valid_redirect_uri. destruct (parse_url uri) as [u|]; [|done].
  destruct (is_some (url_fragment u)); [done|]. destruct (String.eqb (url_scheme u) "https"); [done|].
  destruct (String.eqb (url_scheme u) "http"); [|done]. cbn [andb]. by destruct (is_some_and _ _).
Qed.

(** ** The three tables of the grants *)

(** Each access token, its refresh token and its session id name each other. *)
Record tables_ok (m : McpAuthorizations) : Prop := {
  tok_named h g : access_tokens m !! h = Some g -> refresh m !! refresh_token g = Some h /\ by_id m !! grant_id g = Some h;
  ref_known r h : refresh m !! r = Some h -> exists g, access_tokens m !! h = Some g /\ refresh_token g = r;
  id_known i h : by_id m !! i = Some h -> exists g, access_tokens m !! h = Some g /\ grant_id g = i;
}.

(** What [tables_ok] reads of a state. *)
Definition same_grants (m m' : McpAuthorizations) : Prop :=
  access_tokens m' = access_tokens m /\ refresh m' = refresh m /\ by_id m' = by_id m.

Lemma tables_ok_same m m' : same_grants m m' -> tables_ok m -> tables_ok m'.
Proof. intros (E1 & E2 & E3) [H1 H2 H3]. split; rewrite ?E1, ?E2, ?E3; assumption. Qed.

Lemma drop_grant_ok h m : tables_ok m -> tables_ok (drop_grant h m).
Proof.
  intros Hm. unfold drop_grant. destruct (access_tokens m !! h) as [g|] eqn:Eg; [|done].
  destruct Hm as [H1 H2 H3]. destruct (H1 h g Eg) as [Hr Hi]. split; cbn [access_tokens refresh by_id set_grants].
  - intros h' g' Hg. apply lookup_delete_Some in Hg as [Hne Hg]. destruct (H1 h' g' Hg) as [Hr' Hi'].
    split; rewrite lookup_delete_ne; try done; intros E; [rewrite E in Hr|rewrite E in Hi]; congruence.
  - intros r h' Hr'. apply lookup_delete_Some in Hr' as [Hne Hr']. destruct (H2 r h' Hr') as (g' & Hg' & <-).
    exists g'. split; [|done]. rewrite lookup_delete_ne; [done|]. intros <-. congruence.
  - intros i h' Hi'. apply lookup_delete_Some in Hi' as [Hne Hi']. destruct (H3 i h' Hi') as (g' & Hg' & <-).
    exists g'. split; [|done]. rewrite lookup_delete_ne; [done|]. intros <-. congruence.
Qed.

(** The grant of a session is the one that its id names. *)
Lemma revoke_session_drops sid m :
  tables_ok m -> snd (revoke_session sid m) = match by_id m !! sid with Some h => drop_grant h m | None => m end.
Proof.
  intros Hm. unfold revoke_session, drop_grant. destruct (by_id m !! sid) as [h|] eqn:E; [|done].
  destruct (id_known m Hm sid h E) as (g & Hg & <-). cbn [snd]. by rewrite Hg.
Qed.

Lemma revoke_session_ok sid m : tables_ok m -> tables_ok (snd (revoke_session sid m)).
Proof. intros Hm. rewrite revoke_session_drops by done. destruct (by_id m !! sid); [by apply drop_grant_ok|done]. Qed.

(** After a revocation no token of the session is left. *)
Lemma revoked_session_gone sid m h g :
  tables_ok m -> access_tokens (snd (revoke_session sid m)) !! h = Some g -> grant_id g <> sid.
Proof.
  intros Hm. rewrite revoke_session_drops by done. intros Hg E.
  destruct (by_id m !! sid) as [h0|] eqn:Ei.
  - destruct (id_known m Hm sid h0 Ei) as (g0 & Hg0 & Hid). unfold drop_grant in Hg. rewrite Hg0 in Hg.
    cbn [access_tokens set_grants] in Hg. apply lookup_delete_Some in Hg as [Hne Hg]. destruct (tok_named m Hm h g Hg) as [_ Hi]. rewrite E in Hi. congruence.
  - destruct (tok_named m Hm h g Hg) as [_ Hi]. rewrite E in Hi. congruence.
Qed.

Lemma fold_keeps {A} (P : McpAuthorizations -> Prop) (f : McpAuthorizations -> A -> McpAuthorizations) l m :
  (forall m a, P m -> P (f m a)) -> P m -> P (fold_left f l m).
Proof. intros Hf. revert m. induction l as [|a l IH]; intros m Hm; [done|]. by apply IH, Hf. Qed.

Lemma evict_client_ok id m : tables_ok m -> tables_ok (evict_client id m).
Proof.
  intros Hm. unfold evict_client, revoke_client_grants. apply fold_keeps; [intros; by apply drop_grant_ok|].
  by apply (tables_ok_same m).
Qed.

Lemma cleanup_clients_ok now m : tables_ok m -> tables_ok (cleanup_clients now m).
Proof. intros Hm. unfold cleanup_clients. apply fold_keeps; [intros; by apply evict_client_ok|done]. Qed.

Lemma register_client_ok c id now m : tables_ok m -> tables_ok (snd (register_client c id now m)).
Proof.
  intros Hm. unfold register_client. pose proof (cleanup_clients_ok now m Hm) as H.
  set (m1 := cleanup_clients now m) in *. cbn zeta. destruct (if _ <=? _ then _ else _) as [evict|]; [|exact H]. cbn [snd].
  destruct (_ <=? _).
  - apply (tables_ok_same (evict_client evict m1)); [done|]. by apply evict_client_ok.
  - by apply (tables_ok_same m1).
Qed.

Lemma cleanup_ok now m : tables_ok m -> tables_ok (cleanup now m).
Proof.
  intros Hm. unfold cleanup. cbn zeta. destruct (_ <? MAX_GRANTS); [by apply (tables_ok_same m)|].
  apply fold_keeps; [intros; by apply drop_grant_ok|]. by apply (tables_ok_same m).
Qed.

Lemma issue_tokens_ok sid client scope username access ref now m :
  tables_ok m -> access_tokens m !! token_digest access = None -> refresh m !! token_digest ref = None ->
  by_id m !! unwrap_or sid (session_of access) = None ->
  tables_ok (snd (issue_tokens_with_session sid client scope username access ref now m)).
Proof.
  intros [H1 H2 H3] Ha Hr Hi. unfold issue_tokens_with_session. cbn [snd]. split; cbn [access_tokens refresh by_id set_grants].
  - intros h g. rewrite lookup_insert. case_decide as E.
    + subst h. intros [= <-]. cbn. by rewrite !lookup_insert_eq.
    + intros Hg. destruct (H1 h g Hg) as [Hr' Hi']. split; (rewrite lookup_insert_ne; [done|]); intros E'; congruence.
  - intros r h. rewrite lookup_insert. case_decide as E.
    + subst r. intros [= <-]. eexists. rewrite lookup_insert_eq. by split.
    + intros Hr'. destruct (H2 r h Hr') as (g & Hg & <-). exists g. split; [|done]. rewrite lookup_insert_ne; [done|]. intros <-. congruence.
  - intros i h. rewrite lookup_insert. case_decide as E.
    + subst i. intros [= <-]. eexists. rewrite lookup_insert_eq. by split.
    + intros Hi'. destruct (H3 i h Hi') as (g & Hg & <-). exists g. split; [|done]. rewrite lookup_insert_ne; [done|]. intros <-. congruence.
Qed.

(** The new tokens have values that no table holds. *)
Definition fresh_tokens (access ref : string) (m : McpAuthorizations) : Prop :=
  access_tokens m !! token_digest access = None /\ refresh m !! token_digest ref = None
  /\ rotated_refresh m !! token_digest ref = None /\ by_id m !! session_of access = None.

Lemma exchange_code_ok code client redirect verifier access ref now m :
  tables_ok m -> fresh_tokens access ref m -> tables_ok (snd (exchange_code code client redirect verifier access ref now m)).
Proof.
  intros Hm (Ha & Hr & _ & Hi). unfold exchange_code. destruct (codes m !! code) as [g|]; [|by apply (tables_ok_same m)].
  destruct (_ && _); [|by apply (tables_ok_same m)]. destruct (negb _); [by apply (tables_ok_same m)|].
  apply (issue_tokens_ok None); [by apply (tables_ok_same m)|done..].
Qed.

(** The grant that a rotation takes out is the one of its refresh token. *)
Lemma rotation_drops r h g m :
  tables_ok m -> refresh m !! r = Some h -> access_tokens m !! h = Some g ->
  set_grants (delete h (access_tokens m)) (delete r (refresh m)) (delete (grant_id g) (by_id m)) m = drop_grant h m.
Proof.
  intros Hm Hr Hg. destruct (ref_known m Hm r h Hr) as (g' & Hg' & <-).
  unfold drop_grant. rewrite Hg. congruence.
Qed.

Lemma rotate_tokens_ok rh access ref now m :
  tables_ok m -> fresh_tokens access ref m -> tables_ok (snd (rotate_tokens rh access ref now m)).
Proof.
  intros Hm (Ha & Hr & _ & _). unfold rotate_tokens.
  destruct (refresh m !! rh) as [h|] eqn:Er; [|done]. cbn zeta. cbn [access_tokens set_grants].
  destruct (ref_known m Hm _ _ Er) as (g & Hg & Hrg). rewrite Hg. cbn [refresh by_id set_grants access_tokens].
  pose proof (drop_grant_ok h m Hm) as Hd. rewrite <- (rotation_drops _ _ _ _ Hm Er Hg) in Hd.
  destruct (_ <=? now); [exact Hd|].
  apply (issue_tokens_ok (Some (grant_id g))); [eapply tables_ok_same; [|exact Hd]; done| | |]; cbn [access_tokens refresh by_id set_rotated set_grants unwrap_or].
  - rewrite lookup_delete_None. by right.
  - rewrite lookup_delete_None. by right.
  - apply lookup_delete_eq.
Qed.

Lemma refresh_tokens_ok token access ref now m :
  tables_ok m -> fresh_tokens access ref m -> tables_ok (snd (refresh_tokens token access ref now m)).
Proof.
  intros Hm Hf. unfold refresh_tokens, check_token_reuse. pose proof (rotate_tokens_ok (token_digest token) access ref now m Hm Hf) as H.
  destruct (rotated_refresh m !! token_digest token) as [[sid exp]|]; [|exact H].
  destruct (now <? exp); [|exact H]. by apply revoke_session_ok.
Qed.


(** ** Operations that only take out *)

(** Everything in the tables of [m'] was in those of [m]; a rotated token that has not expired stays. *)
Record shrinks (now : Z) (m m' : McpAuthorizations) : Prop := {
  sh_codes k v : codes m' !! k = Some v -> codes m !! k = Some v;
  sh_tokens k v : access_tokens m' !! k = Some v -> access_tokens m !! k = Some v;
  sh_refresh k v : refresh m' !! k = Some v -> refresh m !! k = Some v;
  sh_csrf k v : csrf_tokens m' !! k = Some v -> csrf_tokens m !! k = Some v;
  sh_rotated k v : rotated_refresh m !! k = Some v -> now < v.2 -> rotated_refresh m' !! k = Some v;
}.

Lemma shrinks_refl now m : shrinks now m m.
Proof. split; auto. Qed.

Lemma shrinks_trans now m1 m2 m3 : shrinks now m1 m2 -> shrinks now m2 m3 -> shrinks now m1 m3.
Proof. intros [] []. split; eauto. Qed.

Lemma drop_grant_shrinks now h m : shrinks now m (drop_grant h m).
Proof.
  unfold drop_grant. destruct (access_tokens m !! h) as [g|]; [|apply shrinks_refl].
  split; cbn [codes access_tokens refresh csrf_tokens rotated_refresh set_grants]; auto; intros k v Hk; by apply lookup_delete_Some in Hk as [_ Hk].
Qed.

Lemma fold_shrinks {A} now (f : McpAuthorizations -> A -> McpAuthorizations) l m :
  (forall m a, shrinks now m (f m a)) -> shrinks now m (fold_left f l m).
Proof. intros Hf. apply (fold_keeps (shrinks now m)); [|apply shrinks_refl]. intros m' a Hm. eapply shrinks_trans; [exact Hm|apply Hf]. Qed.

Lemma set_clients_shrinks now x m : shrinks now m (set_clients x m).
Proof. split; auto. Qed.

Lemma evict_client_shrinks now id m : shrinks now m (evict_client id m).
Proof.
  unfold evict_client, revoke_client_grants. cbn zeta. set (m1 := set_clients _ m). set (m2 := set_codes _ m1).
  apply (shrinks_trans now m m2); [|apply fold_shrinks; intros; apply drop_grant_shrinks].
  unfold m2, m1. split; cbn [codes access_tokens refresh csrf_tokens rotated_refresh set_codes set_clients]; auto.
  intros k v Hk. by apply map_lookup_filter_Some in Hk as [Hk _].
Qed.

Lemma register_client_shrinks c id now m : shrinks now m (snd (register_client c id now m)).
Proof.
  unfold register_client. assert (H : shrinks now m (cleanup_clients now m)) by (apply fold_shrinks; intros; apply evict_client_shrinks).
  set (m1 := cleanup_clients now m) in *. cbn zeta. destruct (if _ <=? _ then _ else _) as [evict|]; [|exact H]. cbn [snd].
  apply (shrinks_trans now m m1); [exact H|].
  destruct (_ <=? _); [apply (shrinks_trans now m1 (evict_client evict m1)); [apply evict_client_shrinks|]|]; by split; auto.
Qed.

Lemma cleanup_shrinks now m : shrinks now m (cleanup now m).
Proof.
  unfold cleanup. cbn zeta. set (m1 := set_clients _ _).
  assert (H : shrinks now m m1).
  { split; cbn [codes access_tokens refresh csrf_tokens rotated_refresh m1 set_clients set_rotated set_csrf]; auto.
    - intros k v Hk. by apply map_lookup_filter_Some in Hk as [Hk _].
    - intros k v Hk Hn. by apply map_lookup_filter_Some. }
  destruct (_ <? MAX_GRANTS); [exact H|]. apply (shrinks_trans now m m1); [exact H|]. set (m2 := set_codes _ m1).
  apply (shrinks_trans now m1 m2); [|apply fold_shrinks; intros; apply drop_grant_shrinks].
  unfold m2. split; cbn [codes access_tokens refresh csrf_tokens rotated_refresh set_codes]; auto.
  intros k v Hk. by apply map_lookup_filter_Some in Hk as [Hk _].
Qed.

Lemma revoke_session_shrinks now sid m : shrinks now m (snd (revoke_session sid m)).
Proof.
  unfold revoke_session. destruct (by_id m !! sid) as [h|]; [|apply shrinks_refl]. cbn [snd].
  destruct (access_tokens m !! h) as [g|];
    split; cbn [codes access_tokens refresh csrf_tokens rotated_refresh set_grants]; auto; intros k v Hk; by apply lookup_delete_Some in Hk as [_ Hk].
Qed.

(** ** Runs of the server *)

Definition Approval : Type := string * ConsentForm * McpClientConfig.

(** The state, the time of the last step, and what happened: the consent pages that were shown, the
    approved forms that wait for their code, all approved forms, the codes, and the exchanges with
    their verifier and session. *)
Record OAuthRun : Type := mkOAuthRun {
  mcp : McpAuthorizations;
  clock : Z;
  shown : list (string * string);
  waiting : list Approval;
  approved : list Approval;
  issued : list (string * AuthorizationCode);
  exchanged : list (string * string * string);
}.

Inductive oauth_step : OAuthRun -> OAuthRun -> Prop :=
| os_authorize s config q user session csrf now c m' :
    clock s <= now -> csrf ∉ map fst (shown s) ->
    authorize config q user session csrf now (mcp s) = (Ok c, m') ->
    oauth_step s (mkOAuthRun m' now ((csrf, user) :: shown s) (waiting s) (approved s) (issued s) (exchanged s))
| os_consent s config f user session now res m' :
    clock s <= now -> consent_check config f user session now (mcp s) = (res, m') ->
    oauth_step s
      (match res with
       | Ok c => if String.eqb (form_decision f) "approve"
                 then mkOAuthRun m' now (shown s) ((user, f, c) :: waiting s) ((user, f, c) :: approved s) (issued s) (exchanged s)
                 else mkOAuthRun m' now (shown s) (waiting s) (approved s) (issued s) (exchanged s)
       | Err _ => mkOAuthRun m' now (shown s) (waiting s) (approved s) (issued s) (exchanged s)
       end)
| os_code s user f c l1 l2 code now :
    clock s <= now -> waiting s = l1 ++ (user, f, c) :: l2 -> code ∉ map fst (issued s) ->
    oauth_step s (mkOAuthRun (issue_code code (approved_code c f user now) now (mcp s)) now (shown s) (l1 ++ l2) (approved s)
                    ((code, approved_code c f user now) :: issued s) (exchanged s))
| os_token s config req access ref now r m' :
    clock s <= now -> fresh_tokens access ref (mcp s) -> token config req access ref now (mcp s) = (r, m') ->
    oauth_step s (mkOAuthRun m' now (shown s) (waiting s) (approved s) (issued s)
                    (match req, r with
                     | CodeRequest (Some code) _ _ (Some verifier), Issued _ => (code, verifier, session_of access) :: exchanged s
                     | _, _ => exchanged s
                     end))
| os_revoke s sid now :
    clock s <= now ->
    oauth_step s (mkOAuthRun (snd (revoke_session sid (mcp s))) now (shown s) (waiting s) (approved s) (issued s) (exchanged s))
| os_register s c id now :
    clock s <= now ->
    oauth_step s (mkOAuthRun (snd (register_client c id now (mcp s))) now (shown s) (waiting s) (approved s) (issued s) (exchanged s)).

Definition oauth_start (now : Z) : OAuthRun := mkOAuthRun McpAuthorizations_default now [] [] [] [] [].

(** The form passed the check of the authorization request. *)
Definition approval_ok (a : Approval) : Prop :=
  let '(_, f, c) := a in
  form_decision f = "approve" /\ exists config dynamic, validate_authorize config dynamic (query_of f) = Ok c.

Definition approval_csrf (a : Approval) : string := form_csrf a.1.2.

Definition exchange_code_of (x : string * string * string) : string := x.1.1.

Record run_ok (s : OAuthRun) : Prop := {
  ro_tables : tables_ok (mcp s);
  ro_shown t x : csrf_tokens (mcp s) !! t = Some x -> (t, csrf_username x) ∈ shown s;
  ro_approved a : a ∈ approved s -> approval_ok a /\ (approval_csrf a, a.1.1) ∈ shown s
                                    /\ csrf_tokens (mcp s) !! approval_csrf a = None;
  ro_once : NoDup (map approval_csrf (approved s));
  ro_waiting a : a ∈ waiting s -> a ∈ approved s;
  ro_issued code g : (code, g) ∈ issued s -> exists f c t, (code_username g, f, c) ∈ approved s /\ g = approved_code c f (code_username g) t;
  ro_codes code g : codes (mcp s) !! code = Some g -> (code, g) ∈ issued s /\ code ∉ map exchange_code_of (exchanged s);
  ro_exchanged code v sid : (code, v, sid) ∈ exchanged s -> code ∈ map fst (issued s);
  ro_exchanged_once : NoDup (map exchange_code_of (exchanged s));
  ro_tokens h a : access_tokens (mcp s) !! h = Some a ->
    exists code v g, (code, v, grant_id a) ∈ exchanged s /\ (code, g) ∈ issued s /\ challenge_of v = code_challenge g
      /\ code_client g = grant_client a /\ code_scope g = grant_scope a /\ code_username g = grant_username a;
}.

(** A step that only takes out keeps the invariant. *)
Lemma run_ok_shrinks now s m' :
  run_ok s -> shrinks now (mcp s) m' -> tables_ok m' ->
  run_ok (mkOAuthRun m' now (shown s) (waiting s) (approved s) (issued s) (exchanged s)).
Proof.
  intros [] [] Ht. split; cbn [mcp shown waiting approved issued exchanged]; eauto.
  intros a Ha. destruct (ro_approved0 a Ha) as (H1 & H2 & H3). split; [done|]. split; [done|].
  destruct (csrf_tokens m' !! approval_csrf a) as [x|] eqn:E; [|done]. apply sh_csrf0 in E. congruence.
Qed.

Lemma run_ok_start now : run_ok (oauth_start now).
Proof.
  assert (Hnone : forall {A} (k : string) (x : A), (∅ : gmap string A) !! k = Some x -> False) by (intros ? ? ?; apply lookup_empty_Some).
  split; cbn [mcp shown waiting approved issued exchanged oauth_start McpAuthorizations_default codes access_tokens csrf_tokens];
    try (intros ? ? Hx; by apply Hnone in Hx); try (intros ? Hx; by apply not_elem_of_nil in Hx); try apply NoDup_nil_2.
  - split; intros ? ? Hx; by apply Hnone in Hx.
  - intros ? ? Hx. by apply not_elem_of_nil in Hx.
  - intros ? ? ? Hx. by apply not_elem_of_nil in Hx.
Qed.

(** What the check of a CSRF token does: the token is gone after it, and a good one was shown to its
    account and has not expired. *)
Lemma verify_csrf_spec token user session now m good m' :
  verify_and_consume_csrf token user session now m = (good, m') ->
  shrinks now m m' /\ same_grants m m' /\ csrf_tokens m' !! token = None
  /\ (good = true -> exists x, csrf_tokens m !! token = Some x /\ csrf_username x = user /\ now < csrf_expires_at x).
Proof.
  unfold verify_and_consume_csrf. destruct (csrf_tokens m !! token) as [x|] eqn:Ex; intros [= <- <-].
  - split; [|split; [done|split]].
    + split; cbn [codes access_tokens refresh csrf_tokens rotated_refresh set_csrf]; auto. intros k v Hk. by apply lookup_delete_Some in Hk as [_ Hk].
    + cbn [csrf_tokens set_csrf]. apply lookup_delete_eq.
    + destruct (csrf_expires_at x <=? now) eqn:El; [done|]. destruct (String.eqb (csrf_username x) user) eqn:Eu; [|done].
      intros _. exists x. apply String.eqb_eq in Eu. split; [done|]. split; [done|lia].
  - split; [apply shrinks_refl|]. split; [done|]. by split.
Qed.

Lemma run_ok_authorize config q user session csrf now c m' s :
  run_ok s -> csrf ∉ map fst (shown s) -> authorize config q user session csrf now (mcp s) = (Ok c, m') ->
  run_ok (mkOAuthRun m' now ((csrf, user) :: shown s) (waiting s) (approved s) (issued s) (exchanged s)).
Proof.
  intros Hs Hnew. unfold authorize. destruct (validate_authorize _ _ _) as [c'|e]; [|done]. intros [= _ <-].
  pose proof (run_ok_shrinks now s _ Hs (cleanup_shrinks now (mcp s)) (cleanup_ok now _ (ro_tables s Hs))) as [].
  cbn [mcp shown waiting approved issued exchanged] in *. unfold issue_consent_csrf.
  split; cbn [mcp shown waiting approved issued exchanged csrf_tokens set_csrf codes access_tokens]; auto.
  - by apply (tables_ok_same (cleanup now (mcp s))).
  - intros t x. rewrite lookup_insert. case_decide as E; [intros [= <-]; subst t; left|intros Hx; right; by apply ro_shown0].
  - intros a Ha. destruct (ro_approved0 a Ha) as (H1 & H2 & H3). split; [done|]. split; [by right|].
    rewrite lookup_insert_ne; [done|]. intros E. apply Hnew. rewrite E. apply (list_elem_of_fmap_2 fst _ _ H2).
Qed.

Lemma run_ok_consent config f user session now res m' s :
  run_ok s -> consent_check config f user session now (mcp s) = (res, m') ->
  run_ok (mkOAuthRun m' now (shown s) (waiting s) (approved s) (issued s) (exchanged s))
  /\ forall c, res = Ok c -> form_decision f = "approve" ->
       run_ok (mkOAuthRun m' now (shown s) ((user, f, c) :: waiting s) ((user, f, c) :: approved s) (issued s) (exchanged s)).
Proof.
  intros Hs. unfold consent_check. destruct (verify_and_consume_csrf _ _ _ _ _) as [good m1] eqn:Ev.
  apply verify_csrf_spec in Ev as (Hsh & Hsame & Hgone & Hgood). intros Hres.
  assert (Em : m' = m1) by (destruct good; cbn in Hres; congruence). subst m'.
  pose proof (run_ok_shrinks now s m1 Hs Hsh (tables_ok_same _ _ Hsame (ro_tables s Hs))) as H1. split; [exact H1|].
  intros c -> Hd. destruct good; cbn [negb] in Hres; [|done]. injection Hres as Hval.
  destruct Hgood as (x & Hx & Hu & _); [done|]. destruct H1. cbn [mcp shown waiting approved issued exchanged] in *.
  split; cbn [mcp shown waiting approved issued exchanged]; auto.
  - intros a Ha. apply elem_of_cons in Ha as [->|Ha]; [|by apply ro_approved0]. split; [|split; [|done]].
    + split; [done|]. eauto.
    + cbn. rewrite <- Hu. by apply (ro_shown s Hs).
  - cbn [map]. apply NoDup_cons_2; [|done]. intros Hin. apply list_elem_of_fmap in Hin as (a & Ea & Ha).
    destruct (ro_approved s Hs a Ha) as (_ & _ & Hn). rewrite <- Ea in Hn. change (csrf_tokens (mcp s) !! form_csrf f = None) in Hn. congruence.
  - intros a Ha. apply elem_of_cons in Ha as [->|Ha]; [left|right; by apply ro_waiting0].
  - intros code g Hg. destruct (ro_issued0 code g Hg) as (f' & c' & t & Hf' & ->). exists f', c', t. split; [by right|done].
Qed.

Lemma run_ok_code user f c l1 l2 code now s :
  run_ok s -> waiting s = l1 ++ (user, f, c) :: l2 -> code ∉ map fst (issued s) ->
  run_ok (mkOAuthRun (issue_code code (approved_code c f user now) now (mcp s)) now (shown s) (l1 ++ l2) (approved s)
            ((code, approved_code c f user now) :: issued s) (exchanged s)).
Proof.
  intros Hs Hw Hnew.
  pose proof (run_ok_shrinks now s _ Hs (cleanup_shrinks now (mcp s)) (cleanup_ok now _ (ro_tables s Hs))) as [].
  cbn [mcp shown waiting approved issued exchanged] in *. unfold issue_code.
  split; cbn [mcp shown waiting approved issued exchanged csrf_tokens set_codes codes access_tokens]; auto.
  - by apply (tables_ok_same (cleanup now (mcp s))).
  - intros a Ha. apply ro_waiting0. rewrite Hw. apply elem_of_app in Ha as [Ha|Ha]; apply elem_of_app; [by left|right; by right].
  - intros code' g Hg. apply elem_of_cons in Hg as [[= -> ->]|Hg]; [|exact (ro_issued0 _ _ Hg)].
    exists f, c, now. split; [|done]. apply ro_waiting0. rewrite Hw. apply elem_of_app. right. left.
  - intros code' g. rewrite lookup_insert. case_decide as E.
    + intros [= <-]. subst code'. split; [left|]. intros Hin. apply list_elem_of_fmap in Hin as ([[x v] sid] & -> & Hx).
      apply Hnew, (ro_exchanged0 _ _ _ Hx).
    + intros Hg. destruct (ro_codes0 code' g Hg) as [Hi He]. split; [by right|done].
  - intros x v sid Hx. right. by apply (ro_exchanged0 x v sid).
  - intros h a Ha. destruct (ro_tokens0 h a Ha) as (x & v & g & Hx & Hg & Hr). exists x, v, g. split; [done|]. split; [by right|done].
Qed.

(** A code request that answers tokens used a code of its client and redirect URI, before its end,
    with the verifier of its challenge, and took the code out. *)
Lemma exchange_spec code client redirect verifier access ref now m r m' :
  exchange_code code client redirect verifier access ref now m = (r, m') ->
  match r with
  | None => m' = set_codes (delete code (codes m)) m
  | Some (user, _) => exists g,
      codes m !! code = Some g /\ now < code_expires_at g /\ code_client g = client /\ code_redirect g = redirect
      /\ challenge_of verifier = code_challenge g /\ user = code_username g
      /\ m' = snd (issue_tokens_with_session None (code_client g) (code_scope g) (code_username g) access ref now
                     (set_codes (delete code (codes m)) m))
  end.
Proof.
  unfold exchange_code. destruct (codes m !! code) as [g|]; [|by intros [= <- <-]].
  destruct (now <? code_expires_at g) eqn:El; [|by intros [= <- <-]].
  destruct (String.eqb (code_client g) client) eqn:Ec; [|by intros [= <- <-]].
  destruct (String.eqb (code_redirect g) redirect) eqn:Er; [|by intros [= <- <-]]. cbn [andb].
  destruct (String.eqb (challenge_of verifier) (code_challenge g)) eqn:Ev; [|by intros [= <- <-]]. cbn [negb].
  intros [= <- <-]. exists g. apply String.eqb_eq in Ec, Er, Ev. split; [done|]. split; [lia|]. auto.
Qed.

Lemma delete_code_shrinks now code m : shrinks now m (set_codes (delete code (codes m)) m).
Proof. split; auto. cbn [codes set_codes]. intros k v Hk. by apply lookup_delete_Some in Hk as [_ Hk]. Qed.

Lemma run_ok_exchange code client redirect verifier access ref now r m' s :
  run_ok s -> fresh_tokens access ref (mcp s) ->
  exchange_code code client redirect verifier access ref now (mcp s) = (r, m') ->
  run_ok (mkOAuthRun m' now (shown s) (waiting s) (approved s) (issued s)
            (if is_some r then (code, verifier, session_of access) :: exchanged s else exchanged s)).
Proof.
  intros Hs Hf Hx. pose proof (exchange_code_ok code client redirect verifier access ref now _ (ro_tables s Hs) Hf) as Ht.
  rewrite Hx in Ht. cbn [snd] in Ht. apply exchange_spec in Hx. set (m1 := set_codes (delete code (codes (mcp s))) (mcp s)) in *.
  pose proof (run_ok_shrinks now s m1 Hs (delete_code_shrinks now code (mcp s))) as H1.
  assert (Hm1 : tables_ok m1) by (apply (tables_ok_same (mcp s)); [done|apply Hs]). specialize (H1 Hm1).
  destruct r as [[user iss]|]; cbn [is_some]; [|by subst m'].
  destruct Hx as (g & Hg & _ & Hcl & Hrd & Hv & Hu & ->). destruct (ro_codes s Hs code g Hg) as [Hi Hne].
  destruct H1. cbn [mcp shown waiting approved issued exchanged] in *.
  split; cbn [mcp shown waiting approved issued exchanged csrf_tokens issue_tokens_with_session snd set_grants codes access_tokens]; auto.
  - intros code' g' Hg'. destruct (ro_codes0 code' g' Hg') as [Hi' He']. split; [done|]. cbn [map]. apply not_elem_of_cons. split; [|done].
    cbn [exchange_code_of fst]. unfold m1 in Hg'. cbn [codes set_codes] in Hg'. apply lookup_delete_Some in Hg' as [E _]. done.
  - intros x v sid Hx. apply elem_of_cons in Hx as [[= -> -> ->]|Hx]; [|by apply (ro_exchanged0 x v sid)].
    apply (list_elem_of_fmap_2 fst _ _ Hi).
  - cbn [map]. by apply NoDup_cons_2.
  - intros h a. rewrite lookup_insert. case_decide as E.
    + intros [= <-]. exists code, verifier, g. split; [left|]. by split.
    + intros Ha. destruct (ro_tokens0 h a Ha) as (x & v & g' & Hx & Hr). exists x, v, g'. split; [by right|done].
Qed.

(** A rotation takes the old tokens out, remembers the refresh token with its session until its end,
    and issues tokens of the same session, client, account and scopes. *)
Lemma rotate_spec rh access ref now m r m' :
  (forall v, rotated_refresh m !! rh = Some v -> v.2 <= now) ->
  rotate_tokens rh access ref now m = (r, m') ->
  match r with
  | Err _ => shrinks now m m'
  | Ok _ => exists h g m2,
      refresh m !! rh = Some h /\ access_tokens m !! h = Some g /\ now < refresh_expires_at g
      /\ shrinks now m m2 /\ refresh m2 !! rh = None /\ rotated_refresh m2 !! rh = Some (grant_id g, refresh_expires_at g)
      /\ m' = snd (issue_tokens_with_session (Some (grant_id g)) (grant_client g) (grant_scope g) (grant_username g) access ref now m2)
  end.
Proof.
  intros Hold. unfold rotate_tokens. destruct (refresh m !! rh) as [h|] eqn:Er; [|intros [= <- <-]; apply shrinks_refl]. cbn zeta.
  cbn [access_tokens set_grants].
  destruct (access_tokens m !! h) as [g|] eqn:Eg.
  2: { intros [= <- <-]. split; auto. cbn [refresh set_grants]. intros k v Hk. by apply lookup_delete_Some in Hk as [_ Hk]. }
  cbn [refresh by_id rotated_refresh set_grants]. set (m1 := set_grants (delete h _) (delete rh _) _ _).
  assert (H1 : shrinks now m m1).
  { split; cbn [codes access_tokens refresh csrf_tokens rotated_refresh m1 set_grants]; auto;
      intros k v Hk; by apply lookup_delete_Some in Hk as [_ Hk]. }
  destruct (refresh_expires_at g <=? now) eqn:El; [by intros [= <- <-]|]. intros [= <- <-].
  set (rot := if _ <? _ then _ else _). exists h, g, (set_rotated rot m1).
  assert (Hrot : forall k v, (<[rh := (grant_id g, refresh_expires_at g)]> (rotated_refresh m)) !! k = Some v -> now < v.2 -> rot !! k = Some v).
  { intros k v Hk Hv. unfold rot. destruct (_ <? _); [|done]. by apply map_lookup_filter_Some. }
  split; [done|]. split; [done|]. split; [lia|]. split; [|split; [|split; [|done]]].
  - destruct H1. split; auto. intros k v Hk Hv. apply Hrot; [|done]. rewrite lookup_insert_ne; [done|].
    intros <-. specialize (Hold v Hk). lia.
  - apply lookup_delete_eq.
  - apply Hrot; [apply lookup_insert_eq|cbn; lia].
Qed.

Lemma refresh_spec token access ref now m r m' :
  refresh_tokens token access ref now m = (r, m') ->
  match r with
  | Err _ => shrinks now m m'
  | Ok _ => exists h g m2,
      refresh m !! token_digest token = Some h /\ access_tokens m !! h = Some g /\ now < refresh_expires_at g
      /\ shrinks now m m2 /\ refresh m2 !! token_digest token = None
      /\ rotated_refresh m2 !! token_digest token = Some (grant_id g, refresh_expires_at g)
      /\ m' = snd (issue_tokens_with_session (Some (grant_id g)) (grant_client g) (grant_scope g) (grant_username g) access ref now m2)
  end.
Proof.
  unfold refresh_tokens, check_token_reuse. destruct (rotated_refresh m !! token_digest token) as [[sid exp]|] eqn:Er.
  - destruct (now <? exp) eqn:El; [intros [= <- <-]; apply revoke_session_shrinks|]. apply rotate_spec.
    rewrite Er. intros v [= <-]. cbn. lia.
  - apply rotate_spec. by rewrite Er.
Qed.

Lemma run_ok_refresh token access ref now r m' s :
  run_ok s -> fresh_tokens access ref (mcp s) -> refresh_tokens token access ref now (mcp s) = (r, m') ->
  run_ok (mkOAuthRun m' now (shown s) (waiting s) (approved s) (issued s) (exchanged s)).
Proof.
  intros Hs Hf Hx. pose proof (refresh_tokens_ok token access ref now _ (ro_tables s Hs) Hf) as Ht. rewrite Hx in Ht. cbn [snd] in Ht.
  apply refresh_spec in Hx. destruct r as [iss|e]; [|by apply (run_ok_shrinks now s m' Hs)].
  destruct Hx as (h & g & m2 & _ & Hg & _ & Hsh & _ & _ & ->).
  assert (Htok : forall k a, access_tokens m2 !! k = Some a -> access_tokens (mcp s) !! k = Some a) by apply Hsh.
  destruct Hs, Hsh. split; cbn [mcp shown waiting approved issued exchanged csrf_tokens issue_tokens_with_session snd set_grants codes access_tokens]; eauto.
  - intros a Ha. destruct (ro_approved0 a Ha) as (H1 & H2 & H3). split; [done|]. split; [done|].
    destruct (csrf_tokens m2 !! approval_csrf a) as [x|] eqn:E; [|done]. apply sh_csrf0 in E. congruence.
  - intros k a. rewrite lookup_insert. case_decide as E; [intros [= <-]; exact (ro_tokens0 h g Hg)|]. intros Ha. exact (ro_tokens0 k a (Htok k a Ha)).
Qed.

Lemma run_ok_token config req access ref now r m' s :
  run_ok s -> fresh_tokens access ref (mcp s) -> token config req access ref now (mcp s) = (r, m') ->
  run_ok (mkOAuthRun m' now (shown s) (waiting s) (approved s) (issued s)
            (match req, r with
             | CodeRequest (Some code) _ _ (Some verifier), Issued _ => (code, verifier, session_of access) :: exchanged s
             | _, _ => exchanged s
             end)).
Proof.
  intros Hs Hf. pose proof (run_ok_shrinks now s _ Hs (shrinks_refl now _) (ro_tables s Hs)) as Hsame. unfold token.
  destruct (negb (mcp_enabled config)); [intros [= <- <-]; by destruct req as [[] ? ? []| |]|].
  destruct req as [[code|] [redirect|] [client|] [verifier|]|[t|]|]; try (by intros [= <- <-]).
  - destruct (negb _); [by intros [= <- <-]|]. destruct (exchange_code _ _ _ _ _ _ _ _) as [r1 m1] eqn:Ex.
    pose proof (run_ok_exchange _ _ _ _ _ _ _ _ _ _ Hs Hf Ex) as H. by destruct r1 as [[user iss]|]; intros [= <- <-].
  - destruct (refresh_tokens _ _ _ _ _) as [r1 m1] eqn:Ex. pose proof (run_ok_refresh _ _ _ _ _ _ _ Hs Hf Ex) as H.
    by destruct r1; intros [= <- <-].
Qed.

Lemma run_ok_step s s' : oauth_step s s' -> run_ok s -> run_ok s'.
Proof.
  intros Hst Hs. destruct Hst as [s config q user session csrf now c m' Hnow Hnew Hx|s config f user session now res m' Hnow Hx
    |s user f c l1 l2 code now Hnow Hw Hnew|s config req access ref now r m' Hnow Hf Hx
    |s sid now Hnow|s c id now Hnow].
  - by apply (run_ok_authorize config q user session csrf now c m').
  - destruct (run_ok_consent _ _ _ _ _ _ _ _ Hs Hx) as [H1 H2]. destruct res as [c|e]; [|done].
    destruct (String.eqb (form_decision f) "approve") eqn:Ed; [|done]. apply String.eqb_eq in Ed. by apply H2.
  - by apply run_ok_code.
  - by apply (run_ok_token config req access ref now r m').
  - apply (run_ok_shrinks now); [done|apply revoke_session_shrinks|]. apply revoke_session_ok, Hs.
  - apply (run_ok_shrinks now); [done|apply register_client_shrinks|]. apply register_client_ok, Hs.
Qed.

Lemma run_ok_steps s s' : rtc oauth_step s s' -> run_ok s -> run_ok s'.
Proof. induction 1; eauto using run_ok_step. Qed.

(** ** The rows of the grants and a start of the server

    The table [mcp_tokens] has a row for each grant under the digest of its access token; the ids, the
    access tokens and the refresh tokens are unique in it. *)

Definition Rows : Type := gmap string AccessToken.

(** An insertion that breaks a constraint of the table fails, with a line in the log only. *)
Definition row_conflict (h : string) (g : AccessToken) (rows : Rows) : bool :=
  existsb (fun kv => String.eqb kv.1 h || String.eqb (refresh_token kv.2) (refresh_token g) || String.eqb (grant_id kv.2) (grant_id g)) (map_to_list rows).

Definition db_save_token (h : string) (g : AccessToken) (rows : Rows) : Rows := if row_conflict h g rows then rows else <[ h := g ]> rows.

Definition db_delete_token (h : string) (rows : Rows) : Rows := filter (fun kv => kv.1 <> h /\ refresh_token kv.2 <> h) rows.

Definition db_delete_session (id : string) (rows : Rows) : Rows := filter (fun kv => grant_id kv.2 <> id) rows.

Definition db_purge_expired (now : Z) (rows : Rows) : Rows := filter (fun kv => now < refresh_expires_at kv.2) rows.

(** [db_load_tokens] on the rows that have not expired: the three tables. *)
Definition load_refresh (rows : Rows) : gmap string string := list_to_map (map (fun kv => (refresh_token kv.2, kv.1)) (map_to_list rows)).
Definition load_ids (rows : Rows) : gmap string string := list_to_map (map (fun kv => (grant_id kv.2, kv.1)) (map_to_list rows)).

(** [McpAuthorizations::from_pool]: a start loads the grants; the codes, the tokens of consent pages and
    the rotated refresh tokens are empty.  [clients] are the registered clients that it loads. *)
Definition from_pool (now : Z) (clients : gmap string DynamicClientEntry) (rows : Rows) : McpAuthorizations :=
  let rows := db_purge_expired now rows in
  mkMcp ∅ rows (load_refresh rows) (load_ids rows) ∅ clients ∅ (Z.of_nat (size clients)).

(** The writes of a step of the server from [m] to [m']: a grant that it issued is saved, and what it
    took out is deleted.  Each write can fail, since the callers go on without it. *)
Inductive row_write (m m' : McpAuthorizations) : Rows -> Rows -> Prop :=
| rw_save h g rows : access_tokens m' !! h = Some g -> access_tokens m !! h <> Some g -> row_write m m' rows (db_save_token h g rows)
| rw_delete_access h rows : access_tokens m !! h <> None -> access_tokens m' !! h = None -> row_write m m' rows (db_delete_token h rows)
| rw_delete_refresh r rows : refresh m !! r <> None -> refresh m' !! r = None -> row_write m m' rows (db_delete_token r rows)
| rw_delete_session id rows : by_id m !! id <> None -> by_id m' !! id = None -> row_write m m' rows (db_delete_session id rows).

Definition server_start (t0 : Z) : OAuthRun * Rows := (oauth_start t0, ∅).

(** Runs of the server over its starts.  A start ends the requests that wait for their code. *)
Inductive server_step : OAuthRun * Rows -> OAuthRun * Rows -> Prop :=
| sv_request s s' rows rows' : oauth_step s s' -> rtc (row_write (mcp s) (mcp s')) rows rows' -> server_step (s, rows) (s', rows')
| sv_restart s rows now clients :
    clock s <= now ->
    server_step (s, rows) (mkOAuthRun (from_pool now clients rows) now (shown s) [] (approved s) (issued s) (exchanged s), db_purge_expired now rows).

(** A grant that descends from an exchange of the run. *)
Definition grant_traced (s : OAuthRun) (a : AccessToken) : Prop :=
  exists code v g, (code, v, grant_id a) ∈ exchanged s /\ (code, g) ∈ issued s /\ challenge_of v = code_challenge g
    /\ code_client g = grant_client a /\ code_scope g = grant_scope a /\ code_username g = grant_username a.

Lemma history_grows s s' : oauth_step s s' -> exchanged s ⊆ exchanged s' /\ issued s ⊆ issued s'.
Proof.
  destruct 1; cbn [exchanged issued]; repeat case_match; cbn [exchanged issued]; split; intros x Hx; rewrite ?elem_of_cons; auto.
Qed.

Lemma traced_grows s s' a : oauth_step s s' -> grant_traced s a -> grant_traced s' a.
Proof. intros [H1 H2]%history_grows (code & v & g & Hx & Hg & H). exists code, v, g. split; [by apply H1|]. split; [by apply H2|done]. Qed.

Record rows_ok (s : OAuthRun) (rows : Rows) : Prop := {
  rw_traced h g : rows !! h = Some g -> grant_traced s g;
  rw_refresh_unique h h' g g' : rows !! h = Some g -> rows !! h' = Some g' -> refresh_token g = refresh_token g' -> h = h';
  rw_id_unique h h' g g' : rows !! h = Some g -> rows !! h' = Some g' -> grant_id g = grant_id g' -> h = h';
}.

Lemma rows_ok_sub s rows rows' : rows' ⊆ rows -> rows_ok s rows -> rows_ok s rows'.
Proof.
  intros Hsub [H1 H2 H3]. assert (Hl : forall h g, rows' !! h = Some g -> rows !! h = Some g) by (intros h g Hg; by apply (lookup_weaken rows')).
  split; [intros h g Hg; by eapply H1, Hl|intros h h' g g' Hg Hg'; by apply (H2 h h' g g'); apply Hl|intros h h' g g' Hg Hg'; by apply (H3 h h' g g'); apply Hl].
Qed.

Lemma rows_ok_save s h g rows : grant_traced s g -> rows_ok s rows -> rows_ok s (db_save_token h g rows).
Proof.
  intros Hg [H1 H2 H3]. unfold db_save_token. destruct (row_conflict h g rows) eqn:E; [done|].
  assert (Hc : forall h' g', rows !! h' = Some g' -> refresh_token g' <> refresh_token g /\ grant_id g' <> grant_id g).
  { intros h' g' Hr. apply elem_of_map_to_list in Hr.
    assert (Hf : String.eqb h' h || String.eqb (refresh_token g') (refresh_token g) || String.eqb (grant_id g') (grant_id g) = false).
    { apply not_true_is_false. intros Ht. apply not_true_iff_false in E. apply E, existsb_exists. exists (h', g'). by rewrite <-list_elem_of_In. }
    apply orb_false_iff in Hf as [[_ Hf]%orb_false_iff Hi]. split; by apply String.eqb_neq. }
  split.
  - intros h' g' [[-> <-]|[_ Hr]]%lookup_insert_Some; [done|by eapply H1].
  - intros h1 h2 g1 g2 [[-> <-]|[_ Hr1]]%lookup_insert_Some [[-> <-]|[_ Hr2]]%lookup_insert_Some Eq;
      [done|by destruct (Hc _ _ Hr2)|by destruct (Hc _ _ Hr1)|by apply (H2 _ _ g1 g2)].
  - intros h1 h2 g1 g2 [[-> <-]|[_ Hr1]]%lookup_insert_Some [[-> <-]|[_ Hr2]]%lookup_insert_Some Eq;
      [done|by destruct (Hc _ _ Hr2)|by destruct (Hc _ _ Hr1)|by apply (H3 _ _ g1 g2)].
Qed.

Lemma rows_ok_writes s m m' rows rows' :
  (forall h g, access_tokens m' !! h = Some g -> grant_traced s g) -> rtc (row_write m m') rows rows' -> rows_ok s rows -> rows_ok s rows'.
Proof.
  intros Ht. induction 1 as [|rows1 rows2 rows3 Hw _ IH]; [done|]. intros Hr. apply IH.
  destruct Hw; [by apply rows_ok_save; [eapply Ht|]|..]; (eapply rows_ok_sub; [apply map_filter_subseteq|done]).
Qed.

Lemma distinct_images (f : AccessToken -> string) (l : list (string * AccessToken)) :
  NoDup l.*1 -> (forall x y, x ∈ l -> y ∈ l -> f x.2 = f y.2 -> x.1 = y.1) -> NoDup (map (fun kv => (f kv.2, kv.1)) l).*1.
Proof.
  induction l as [|[h1 g1] l IH]; cbn; intros Hm Hu; [constructor|].
  apply NoDup_cons in Hm as [Hm1 Hm2]. apply NoDup_cons. split; [|apply IH; [done|]; intros x y Hx Hy; apply Hu; by right].
  intros (y & E & Hy)%list_elem_of_fmap. apply list_elem_of_fmap in Hy as ([h3 g3] & -> & Hin). cbn in E.
  apply Hm1. apply list_elem_of_fmap. exists (h3, g3). split; [|done]. cbn.
  apply (Hu (h1, g1) (h3, g3)); [by left|by right|done].
Qed.

(** The tables that are loaded name each other. *)
Lemma load_lookup (f : AccessToken -> string) (rows : Rows) k h :
  (forall h h' g g', rows !! h = Some g -> rows !! h' = Some g' -> f g = f g' -> h = h') ->
  (list_to_map (map (fun kv => (f kv.2, kv.1)) (map_to_list rows)) : gmap string string) !! k = Some h <-> exists g, rows !! h = Some g /\ f g = k.
Proof.
  intros Hu. assert (Hn : NoDup (map (fun kv => (f kv.2, kv.1)) (map_to_list rows)).*1).
  { apply distinct_images; [apply NoDup_fst_map_to_list|]. intros [h1 g1] [h2 g2] H1%elem_of_map_to_list H2%elem_of_map_to_list. by apply (Hu h1 h2 g1 g2). }
  rewrite <-(elem_of_list_to_map _ _ _ Hn), list_elem_of_fmap. split.
  - intros ([h' g'] & [= -> ->] & Hin). exists g'. by apply elem_of_map_to_list in Hin.
  - intros (g & Hg & <-). exists (h, g). split; [done|]. by apply elem_of_map_to_list.
Qed.

Lemma from_pool_tables now clients s rows : rows_ok s rows -> tables_ok (from_pool now clients rows).
Proof.
  intros Hr. assert (Hp : rows_ok s (db_purge_expired now rows)) by (eapply rows_ok_sub; [apply map_filter_subseteq|done]).
  destruct Hp as [_ H2 H3]. split; cbn [from_pool access_tokens refresh by_id]; unfold load_refresh, load_ids.
  - intros h g Hg. split; apply load_lookup; eauto.
  - intros r h. by apply load_lookup.
  - intros i h. by apply load_lookup.
Qed.

Lemma run_ok_restart now clients rows s :
  run_ok s -> rows_ok s rows -> run_ok (mkOAuthRun (from_pool now clients rows) now (shown s) [] (approved s) (issued s) (exchanged s)).
Proof.
  intros Hs Hr. pose proof Hs as []. split; cbn [mcp shown waiting approved issued exchanged from_pool csrf_tokens codes access_tokens]; try done.
  - by eapply from_pool_tables.
  - intros a Ha. destruct (ro_approved0 a Ha) as (H1 & H2 & _). split; [done|]. split; [done|]. apply lookup_empty.
  - intros a Ha. by apply not_elem_of_nil in Ha.
  - intros h a Ha. apply map_lookup_filter_Some in Ha as [Ha _]. by apply (rw_traced s rows Hr h).
Qed.

Lemma server_ok_step x y : server_step x y -> run_ok x.1 /\ rows_ok x.1 x.2 -> run_ok y.1 /\ rows_ok y.1 y.2.
Proof.
  intros Hst [Hs Hr]. destruct Hst as [s s' rows rows' Hst Hw|s rows now clients Hnow]; cbn [fst snd] in *.
  - pose proof (run_ok_step _ _ Hst Hs) as Hs'. split; [done|]. apply (rows_ok_writes s' (mcp s) (mcp s') rows); [apply Hs'|done|].
    destruct Hr as [H1 H2 H3]. split; [|done..]. intros h g Hg. eapply traced_grows; [done|]. by eapply H1.
  - split; [by apply run_ok_restart|]. assert (Hp : rows_ok s (db_purge_expired now rows)) by (eapply rows_ok_sub; [apply map_filter_subseteq|done]).
    destruct Hp as [H1 H2 H3]. by split.
Qed.

Lemma server_ok t0 s rows : rtc server_step (server_start t0) (s, rows) -> run_ok s.
Proof.
  intros Hrun. assert (H0 : run_ok (server_start t0).1 /\ rows_ok (server_start t0).1 (server_start t0).2).
  { split; [apply run_ok_start|]. by split. }
  assert (H : run_ok (s, rows).1 /\ rows_ok (s, rows).1 (s, rows).2); [|apply H].
  revert H0. generalize (server_start t0), (s, rows), Hrun. clear. intros x y Hrun. induction Hrun; eauto using server_ok_step.
Qed.

Lemma find_client_named config dynamic id c : find_client config dynamic id = Ok c -> mcp_id c = id.
Proof.
  unfold find_client, McpClientConfig_find. destruct (negb _); [done|].
  destruct (find _ (mcp_clients config)) as [c'|] eqn:Ef.
  - intros [= <-]. apply find_some in Ef as [_ Ef]. by apply String.eqb_eq.
  - destruct dynamic as [c'|]; [|done]. destruct (String.eqb (mcp_id c') id) eqn:E; [|done]. intros [= <-]. by apply String.eqb_eq.
Qed.

Lemma validate_authorize_inv config dynamic q c :
  validate_authorize config dynamic q = Ok c -> mcp_id c = q_client q /\ allows_redirect c (q_redirect q) = true.
Proof.
  unfold validate_authorize. destruct (validate_authorize_shape q); [|done].
  destruct (find_client _ _ _) as [c'|e] eqn:Ef; [|done]. apply find_client_named in Ef.
  destruct (allows_redirect c' (q_redirect q)) eqn:Ea; [|done]. by intros [= <-].
Qed.

(** ** Approvals *)

(** C31: An access token that the server accepts belongs to an account that approved it. In every
    run, over any restarts of the server and with any failed writes of its rows, the token descends
    from a code exchanged with the verifier of its challenge; the code was issued for a consent form
    that this account approved, for the client and scopes of the token and a redirect URI that the
    client allows; and the form carried the CSRF token of a consent page that was shown to the same
    account. A code is exchanged at most once and a consent page approves at most once. *)
Theorem tokens_need_approval t0 s rows tok now a :
  rtc server_step (server_start t0) (s, rows) -> mcp_verify tok now (mcp s) = Some a ->
  (exists code v g f c,
     (code, v, grant_id a) ∈ exchanged s /\ (code, g) ∈ issued s /\ challenge_of v = form_challenge f
     /\ (grant_username a, f, c) ∈ approved s /\ form_decision f = "approve"
     /\ (form_csrf f, grant_username a) ∈ shown s
     /\ grant_client a = form_client f /\ grant_scope a = form_scope f
     /\ allows_redirect c (form_redirect f) = true /\ mcp_id c = form_client f)
  /\ NoDup (map exchange_code_of (exchanged s)) /\ NoDup (map approval_csrf (approved s)).
Proof.
  intros Hrun Hv. pose proof (server_ok _ _ _ Hrun) as Hs. split; [|by split; apply Hs].
  unfold mcp_verify in Hv. destruct (access_tokens (mcp s) !! _) as [a'|] eqn:Ea; [|done].
  destruct (now <? expires_at a'); [|done]. injection Hv as ->.
  destruct (ro_tokens s Hs _ _ Ea) as (code & v & g & Hx & Hg & Hc & Hcl & Hsc & Hu).
  destruct (ro_issued s Hs _ _ Hg) as (f & c & t & Hf & E). rewrite Hu in Hf.
  destruct (ro_approved s Hs _ Hf) as ((Hd & config & dynamic & Hval) & Hsh & _).
  apply validate_authorize_inv in Hval as [Hid Hr]. cbn [q_client q_redirect query_of] in Hid, Hr.
  rewrite E in Hc, Hcl, Hsc. cbn [code_challenge code_client code_scope approved_code] in Hc, Hcl, Hsc.
  exists code, v, g, f, c. rewrite <- Hcl, <- Hsc. auto 20.
Qed.

(** ** Reused refresh tokens *)

(** The refresh token with digest [rh] was rotated, and ends at [exp]. *)
Definition rotated_away (rh sid : string) (exp : Z) (m : McpAuthorizations) : Prop :=
  rotated_refresh m !! rh = Some (sid, exp) /\ refresh m !! rh = None.

Lemma rotated_away_shrinks rh sid exp now m m' : shrinks now m m' -> now < exp -> rotated_away rh sid exp m -> rotated_away rh sid exp m'.
Proof.
  intros [] Hn [H1 H2]. split; [by apply sh_rotated0|]. destruct (refresh m' !! rh) as [h|] eqn:E; [|done]. apply sh_refresh0 in E. congruence.
Qed.

Lemma rotated_away_issue rh sid exp o client scope user access ref now m :
  rotated_away rh sid exp m -> token_digest ref <> rh ->
  rotated_away rh sid exp (snd (issue_tokens_with_session o client scope user access ref now m)).
Proof. intros [H1 H2] Hne. split; cbn [rotated_refresh refresh set_grants snd issue_tokens_with_session]; [done|]. by rewrite lookup_insert_ne. Qed.

Lemma rotated_away_token rh sid exp config req access ref now r m m' :
  token config req access ref now m = (r, m') -> fresh_tokens access ref m -> now < exp ->
  rotated_away rh sid exp m -> rotated_away rh sid exp m'.
Proof.
  intros Hx (_ & _ & Hr & _) Hn Hra. assert (Hne : token_digest ref <> rh) by (intros <-; destruct Hra; congruence). revert Hx.
  unfold token. destruct (negb (mcp_enabled config)); [by intros [= <- <-]|].
  destruct req as [[code|] [redirect|] [client|] [verifier|]|[t|]|]; try (by intros [= <- <-]).
  - destruct (negb _); [by intros [= <- <-]|]. destruct (exchange_code _ _ _ _ _ _ _ _) as [r1 m1] eqn:Ex.
    apply exchange_spec in Ex. pose proof (rotated_away_shrinks rh sid exp now _ _ (delete_code_shrinks now code m) Hn Hra) as Hd.
    destruct r1 as [[user iss]|]; intros [= <- <-]; [|by subst m1].
    destruct Ex as (g & _ & _ & _ & _ & _ & _ & ->). by apply rotated_away_issue.
  - destruct (refresh_tokens _ _ _ _ _) as [r1 m1] eqn:Ex. apply refresh_spec in Ex.
    destruct r1 as [iss|e]; intros [= <- <-]; [|by apply (rotated_away_shrinks rh sid exp now m)].
    destruct Ex as (h & g & m2 & _ & _ & _ & Hsh & _ & _ & ->). apply rotated_away_issue; [|done].
    by apply (rotated_away_shrinks rh sid exp now m).
Qed.

Lemma rotated_away_step rh sid exp s s' :
  oauth_step s s' -> clock s' < exp -> rotated_away rh sid exp (mcp s) -> rotated_away rh sid exp (mcp s').
Proof.
  intros Hst Hn Hra.
  destruct Hst as [s config q user session csrf now c m' Hnow Hnew Hx|s config f user session now res m' Hnow Hx
    |s user f c l1 l2 code now Hnow Hw Hnew|s config req access ref now r m' Hnow Hf Hx
    |s sid' now Hnow|s c id now Hnow]; cbn [mcp clock] in *.
  - unfold authorize in Hx. destruct (validate_authorize _ _ _); [|done]. injection Hx as _ <-.
    exact (rotated_away_shrinks _ _ _ _ _ _ (cleanup_shrinks now (mcp s)) Hn Hra).
  - unfold consent_check in Hx. destruct (verify_and_consume_csrf _ _ _ _ _) as [good m1] eqn:Ev. apply verify_csrf_spec in Ev as (Hsh & _).
    assert (m' = m1) as -> by (destruct good; cbn in Hx; congruence).
    destruct res as [c|e]; [destruct (String.eqb _ _)|]; cbn [mcp clock] in *; exact (rotated_away_shrinks _ _ _ _ _ _ Hsh Hn Hra).
  - exact (rotated_away_shrinks _ _ _ _ _ _ (cleanup_shrinks now (mcp s)) Hn Hra).
  - by apply (rotated_away_token rh sid exp config req access ref now r (mcp s)).
  - exact (rotated_away_shrinks _ _ _ _ _ _ (revoke_session_shrinks now sid' (mcp s)) Hn Hra).
  - exact (rotated_away_shrinks _ _ _ _ _ _ (register_client_shrinks c id now (mcp s)) Hn Hra).
Qed.

Lemma clock_grows s s' : oauth_step s s' -> clock s <= clock s'.
Proof. destruct 1; cbn [clock]; auto. repeat case_match; auto. Qed.

Lemma rotated_away_steps rh sid exp s s' :
  rtc oauth_step s s' -> clock s' < exp -> rotated_away rh sid exp (mcp s) -> rotated_away rh sid exp (mcp s').
Proof.
  intros Hrun. induction Hrun as [s|s1 s2 s3 H12 H23 IH]; [done|]. intros Hn Hra. apply IH; [done|].
  apply (rotated_away_step rh sid exp s1 s2); [done| |done].
  assert (H : clock s2 <= clock s3) by (clear -H23; induction H23 as [|x y z Hxy _ IH]; [lia|]; apply clock_grows in Hxy; lia). lia.
Qed.

(** C32: A refresh token works once, and presenting it again ends its session, until the server
    restarts.  Once a refresh token was exchanged for new tokens, then whatever this process of the
    server does next, presenting it before its end is answered as a reuse and leaves no token of its
    session: neither the ones issued for it nor the ones that came of those.  The run before may hold
    any restarts. *)
Theorem rotated_token_reuse_revokes t0 s rows tok access ref now iss m1 h g s2 access2 ref2 now2 r m3 :
  rtc server_step (server_start t0) (s, rows) -> clock s <= now -> fresh_tokens access ref (mcp s) -> token_digest ref <> token_digest tok ->
  refresh (mcp s) !! token_digest tok = Some h -> access_tokens (mcp s) !! h = Some g ->
  refresh_tokens tok access ref now (mcp s) = (Ok iss, m1) ->
  rtc oauth_step (mkOAuthRun m1 now (shown s) (waiting s) (approved s) (issued s) (exchanged s)) s2 ->
  clock s2 <= now2 -> now2 < refresh_expires_at g ->
  refresh_tokens tok access2 ref2 now2 (mcp s2) = (r, m3) ->
  r = Err Reused /\ forall k a, access_tokens m3 !! k = Some a -> grant_id a <> grant_id g.
Proof.
  intros Hrun Hc Hf Hne Hr Hg Hx Hrun2 Hc2 Hend Hx2. pose proof (server_ok _ _ _ Hrun) as Hs.
  pose proof (run_ok_steps _ _ Hrun2 (run_ok_refresh _ _ _ _ _ _ _ Hs Hf Hx)) as Hs2.
  apply refresh_spec in Hx as (h' & g' & m2 & Hr' & Hg' & _ & _ & Hno & Hrot & ->).
  assert (h' = h) as -> by congruence. assert (g' = g) as -> by congruence.
  assert (Hra : rotated_away (token_digest tok) (grant_id g) (refresh_expires_at g) (mcp s2)).
  { apply (rotated_away_steps _ _ _ _ _ Hrun2); [lia|]. by apply rotated_away_issue. }
  unfold refresh_tokens, check_token_reuse in Hx2. destruct Hra as [-> _] in Hx2.
  assert (E : (now2 <? refresh_expires_at g) = true) by lia. rewrite E in Hx2. injection Hx2 as <- <-.
  split; [done|]. intros k a. apply revoked_session_gone, Hs2.
Qed.

(** A rotation dates the new grant at the time of the rotation, so the change of a password does not
    end the sign-in of a client that refreshes after it: the caller of the new access token is
    accepted. *)
Theorem refresh_survives_password_change tok access ref now iss m1 m h g d e :
  refresh m !! token_digest tok = Some h -> access_tokens m !! h = Some g ->
  refresh_tokens tok access ref now m = (Ok iss, m1) ->
  d !! grant_username g = Some e -> to_millis (entry_changed_at e) <= to_millis now ->
  exists a, mcp_verify access now m1 = Some a /\ grant_username a = grant_username g
            /\ is_some (account_caller (grant_username a) (created_at a) d) = true.
Proof.
  intros Hr Hg Hx Hd Ht. apply refresh_spec in Hx as (h' & g' & m2 & Hr' & Hg' & _ & _ & _ & _ & ->).
  assert (h' = h) as -> by congruence. assert (g' = g) as -> by congruence.
  unfold mcp_verify. cbn [access_tokens set_grants snd issue_tokens_with_session]. rewrite lookup_insert_eq. cbn [expires_at].
  assert (E : (now <? now + ACCESS_TOKEN_LIFETIME) = true) by (unfold ACCESS_TOKEN_LIFETIME; lia). rewrite E.
  eexists. split; [reflexivity|]. split; [reflexivity|]. cbn [grant_username created_at]. unfold account_caller. rewrite Hd.
  by destruct (Z.leb_spec (to_millis (entry_changed_at e)) (to_millis now)); [|lia].
Qed.

End OAuth.

(** ** Examples *)

Definition example_ops : OAuthOps := {|
  parse_url := fun s => Some (mkRedirectUrl "https" (Some "app.example") "/cb" None None);
  token_digest := fun t => "digest " +:+ t;
  challenge_of := fun v => "a challenge of forty-three characters, for: " +:+ v;
  session_of := fun a => "session " +:+ a;
|}.

Definition example_client : McpClientConfig := mkMcpClient "app" "App" ["https://app.example/cb"].
Definition example_mcp : McpConfig := mkMcpConfig true [example_client].
Definition example_query : AuthorizeQuery :=
  mkAuthorizeQuery "app" "https://app.example/cb" "code" "st" "a challenge of forty-three characters, for: v" (Some "S256") (Some "read").
Definition example_form : ConsentForm :=
  mkConsentForm "app" "https://app.example/cb" "st" "a challenge of forty-three characters, for: v" "read" "approve" "csrf".

Section ExampleRun.
#[local] Existing Instance example_ops.

Definition example_shown : OAuthRun :=
  mkOAuthRun (snd (authorize example_mcp example_query "ada" "cookie" "csrf" 1000 McpAuthorizations_default)) 1000 [("csrf", "ada")] [] [] [] [].

Definition example_approved : OAuthRun :=
  mkOAuthRun (snd (consent_check example_mcp example_form "ada" (Some "cookie") 1001 (mcp example_shown))) 1001 [("csrf", "ada")]
    [("ada", example_form, example_client)] [("ada", example_form, example_client)] [] [].

Definition example_code : AuthorizationCode := approved_code example_client example_form "ada" 1002.

Definition example_issued : OAuthRun :=
  mkOAuthRun (issue_code "code" example_code 1002 (mcp example_approved)) 1002 [("csrf", "ada")] [] (approved example_approved)
    [("code", example_code)] [].

Definition example_request : TokenRequest := CodeRequest (Some "code") (Some "https://app.example/cb") (Some "app") (Some "v").

Definition example_signed_in : OAuthRun :=
  mkOAuthRun (snd (token example_mcp example_request "a1" "r1" 1003 (mcp example_issued))) 1003 [("csrf", "ada")] []
    (approved example_approved) [("code", example_code)] [("code", "v", session_of "a1")].

Definition example_refreshed : OAuthRun :=
  mkOAuthRun (snd (token example_mcp (RefreshRequest (Some "r1")) "a2" "r2" 2000 (mcp example_signed_in))) 2000 [("csrf", "ada")] []
    (approved example_approved) [("code", example_code)] [("code", "v", session_of "a1")].

Lemma example_run_reached : rtc oauth_step (oauth_start 0) example_signed_in.
Proof.
  apply (rtc_l _ _ example_shown).
  { apply (os_authorize (oauth_start 0) example_mcp example_query "ada" "cookie" "csrf" 1000 example_client (mcp example_shown));
      [cbn; lia|apply not_elem_of_nil|vm_compute; reflexivity]. }
  apply (rtc_l _ _ example_approved).
  { apply (os_consent example_shown example_mcp example_form "ada" (Some "cookie") 1001 (Ok example_client) (mcp example_approved));
      [cbn; lia|vm_compute; reflexivity]. }
  apply (rtc_l _ _ example_issued).
  { apply (os_code example_approved "ada" example_form example_client [] [] "code" 1002); [cbn; lia|reflexivity|apply not_elem_of_nil]. }
  apply rtc_once, (os_token example_issued example_mcp example_request "a1" "r1" 1003 (Issued (mkIssued "a1" "r1" "read")) (mcp example_signed_in));
    [cbn; lia|repeat split; vm_compute; reflexivity|vm_compute; reflexivity].
Qed.

(** The same run with its row, and a start after it. *)
Definition example_grant : AccessToken := mkAccessToken "session a1" 4603 2593003 "app" "ada" "read" "digest r1" 1003.

Definition example_restarted : OAuthRun :=
  mkOAuthRun (from_pool 1500 ∅ {[ "digest a1" := example_grant ]}) 1500 [("csrf", "ada")] [] (approved example_approved) [("code", example_code)]
    [("code", "v", session_of "a1")].

Lemma requests_only s s' rows : rtc oauth_step s s' -> rtc server_step (s, rows) (s', rows).
Proof. induction 1 as [|s1 s2 s3 H12 _ IH]; [reflexivity|]. apply (rtc_l _ _ (s2, rows)); [by apply sv_request|done]. Qed.

Lemma example_restart_reached : rtc server_step (server_start 0) (example_restarted, {[ "digest a1" := example_grant ]}).
Proof.
  apply (rtc_l _ _ (example_shown, ∅)).
  { apply sv_request; [|reflexivity].
    apply (os_authorize (oauth_start 0) example_mcp example_query "ada" "cookie" "csrf" 1000 example_client (mcp example_shown));
      [cbn; lia|apply not_elem_of_nil|vm_compute; reflexivity]. }
  apply (rtc_l _ _ (example_approved, ∅)).
  { apply sv_request; [|reflexivity]. apply (os_consent example_shown example_mcp example_form "ada" (Some "cookie") 1001 (Ok example_client) (mcp example_approved));
      [cbn; lia|vm_compute; reflexivity]. }
  apply (rtc_l _ _ (example_issued, ∅)).
  { apply sv_request; [|reflexivity]. apply (os_code example_approved "ada" example_form example_client [] [] "code" 1002); [cbn; lia|reflexivity|apply not_elem_of_nil]. }
  apply (rtc_l _ _ (example_signed_in, {[ "digest a1" := example_grant ]})).
  { apply sv_request.
    - apply (os_token example_issued example_mcp example_request "a1" "r1" 1003 (Issued (mkIssued "a1" "r1" "read")) (mcp example_signed_in));
        [cbn; lia|repeat split; vm_compute; reflexivity|vm_compute; reflexivity].
    - apply rtc_once. assert (E : {[ "digest a1" := example_grant ]} = db_save_token "digest a1" example_grant ∅) by (vm_compute; reflexivity).
      rewrite E. apply rw_save; [vm_compute; reflexivity|vm_compute; discriminate]. }
  assert (E : {[ "digest a1" := example_grant ]} = db_purge_expired 1500 {[ "digest a1" := example_grant ]}) by (vm_compute; reflexivity).
  apply rtc_once. rewrite E at 2. apply (sv_restart example_signed_in _ 1500 ∅). cbn. lia.
Qed.

(** A restart keeps the sign-in of the client and forgets which refresh tokens were rotated: a reused
    one is then answered as unknown and ends nothing; and when the row of a rotated grant could not be
    deleted, the row of the new one is not saved, so after a restart the old refresh token works. *)
Lemma restart_forgets_rotations :
  let old := {[ "digest a1" := example_grant ]} in
  let new := mkAccessToken "session a1" 5600 2594000 "app" "ada" "read" "digest r2" 2000 in
  let rows := db_save_token "digest a2" new (db_delete_token "digest r1" old) in
  access_tokens (mcp example_refreshed) !! "digest a2" = Some new
  /\ (refresh_tokens "r1" "a3" "r3" 3000 (from_pool 2500 ∅ rows)).1 = Err Invalid
  /\ mcp_verify "a2" 3000 (refresh_tokens "r1" "a3" "r3" 3000 (from_pool 2500 ∅ rows)).2 = Some new
  /\ db_save_token "digest a2" new old = old
  /\ (refresh_tokens "r1" "a3" "r3" 3000 (from_pool 2500 ∅ old)).1 = Ok (mkIssued "a3" "r3" "read").
Proof. vm_compute. auto 10. Qed.

Lemma tokens_need_approval_witness :
  exists a, mcp_verify "a1" 1504 (mcp example_restarted) = Some a /\ grant_username a = "ada"
            /\ (form_csrf example_form, "ada") ∈ shown example_restarted.
Proof.
  assert (H : mcp_verify "a1" 1504 (mcp example_restarted) = Some example_grant) by (vm_compute; reflexivity).
  eexists. split; [exact H|]. split; [reflexivity|].
  destruct (tokens_need_approval 0 _ _ "a1" 1504 _ example_restart_reached H) as ((_ & _ & _ & f & c & _ & _ & _ & Hf & _ & Hs & _) & _).
  cbn [approved example_restarted example_approved grant_username example_grant] in Hf. apply list_elem_of_singleton in Hf. injection Hf as -> ->. exact Hs.
Defined.

Lemma rotated_token_reuse_revokes_witness :
  let '(r, m) := refresh_tokens "r1" "a3" "r3" 3000 (mcp example_refreshed) in
  r = Err Reused /\ access_tokens (mcp example_refreshed) !! "digest a2" <> None /\ access_tokens m !! "digest a2" = None.
Proof.
  destruct (refresh_tokens "r1" "a3" "r3" 3000 (mcp example_refreshed)) as [r m] eqn:E.
  set (g := mkAccessToken "session a1" 4603 2593003 "app" "ada" "read" "digest r1" 1003).
  set (g2 := mkAccessToken "session a1" 5600 2594000 "app" "ada" "read" "digest r2" 2000).
  assert (H2 : access_tokens (mcp example_refreshed) !! "digest a2" = Some g2) by (vm_compute; reflexivity).
  destruct (rotated_token_reuse_revokes 0 example_signed_in ∅ "r1" "a2" "r2" 2000 (mkIssued "a2" "r2" "read") (mcp example_refreshed)
              "digest a1" g example_refreshed "a3" "r3" 3000 r m) as [Hr Hm].
  { exact (requests_only _ _ ∅ example_run_reached). } { cbn; lia. } { repeat split; vm_compute; reflexivity. } { vm_compute. discriminate. }
  { vm_compute. reflexivity. } { vm_compute. reflexivity. } { vm_compute. reflexivity. } { apply rtc_refl. }
  { cbn; lia. } { cbn; lia. } { exact E. }
  split; [exact Hr|]. rewrite H2. split; [discriminate|].
  destruct (access_tokens m !! "digest a2") as [a|] eqn:Ea; [|reflexivity]. exfalso.
  pose proof (refresh_spec "r1" "a3" "r3" 3000 _ _ _ E) as Hsp. subst r. pose proof (sh_tokens _ _ _ Hsp _ _ Ea) as Hg.
  rewrite H2 in Hg. injection Hg as <-. by apply (Hm _ _ Ea).
Defined.

Lemma refresh_survives_password_change_witness :
  exists a, mcp_verify "a2" 2000 (mcp example_refreshed) = Some a /\ grant_username a = "ada".
Proof.
  destruct (refresh_survives_password_change "r1" "a2" "r2" 2000 (mkIssued "a2" "r2" "read") (mcp example_refreshed) (mcp example_signed_in)
              "digest a1" (mkAccessToken "session a1" 4603 2593003 "app" "ada" "read" "digest r1" 1003)
              {[ "ada" := mkAccountEntry Admin None 1900 [] [] ]} (mkAccountEntry Admin None 1900 [] [])) as (a & Ha & Hu & _).
  { vm_compute. reflexivity. } { vm_compute. reflexivity. } { vm_compute. reflexivity. } { reflexivity. } { vm_compute. discriminate. }
  exists a. split; [exact Ha|exact Hu].
Defined.

End ExampleRun.
