(* ===== verification/ProxySession.v ===== *)
(** * The session authentication of the proxies

    [proxy/http/auth/session.rs]: the service that signs clients in with the panel accounts and keeps
    their sessions, its sign-in endpoints, and the check of a request.  A sign-in is a machine of the
    parts of its handler between two waits; several of them interleave with each other, with the
    sign-ins of OpenID Connect, which keep their sessions in the same service, and with the admin API,
    of which the machine relies only on what [admin_keeps_proxy_sessions] guarantees.  The templates of
    the pages are left out. *)

From Stdlib Require Import Ascii.
From S2P Require Import Prelude Basics IpText Net Headers Cookies Quarantine Login Accounts SignIn.

Definition SESSION_COOKIE : string := "r3v3rs3_session".
Definition ENDPOINT_FIRST : string := ".r3v3rs3".
Definition ENDPOINT_SECOND : string := "auth".
Definition MAX_REDIRECT_LENGTH : Z := 2048.

(** [form_urlencoded] of the [url] crate: the pairs of a text, and the encoding of a byte string. *)
Class FormCodec : Type := {
  form_parse : string -> list (string * string);
  byte_serialize : string -> string;
}.

(** ** Requests and answers *)

(** The virtual hosts of the route, which only OpenID Connect reads, are an argument there. *)
Record AuthContext : Type := mkAuthContext {
  ctx_client : IpAddr;
  ctx_peer : IpAddr;
  ctx_host : option string;
  ctx_proto : string;
  ctx_base_path : string;
  ctx_segments : list string;
}.

(** [client_target] is [path_and_query], [client_query] the query of the URI. *)
Record ClientRequest `{HDR : HeaderOps} : Type := mkClientRequest {
  client_method : string;
  client_target : option string;
  client_query : option string;
  client_headers : Headers;
}.

Definition set_client_headers `{HDR : HeaderOps} (h : Headers) (r : ClientRequest) : ClientRequest :=
  mkClientRequest _ (client_method r) (client_target r) (client_query r) h.

Inductive Answer : Type :=
| LoginPage (status : Z) (user redirect : string) (error : option string) (totp : bool) (cookie : option string)
| TextAnswer (status : Z) (text : string) (allow : option string)
| RedirectTo (status : Z) (location : option string) (cookies : list string).

Definition is_read (m : string) : bool := String.eqb m "GET" || String.eqb m "HEAD".

Inductive EndpointAction : Type := ShowPage | DoLogin | DoLogout | NotAllowed (allow : string) | NotFound.

Definition endpoint (segments : list string) : option string :=
  match segments with
  | [first; second; name] => if String.eqb first ENDPOINT_FIRST && String.eqb second ENDPOINT_SECOND then Some name else None
  | _ => None
  end.

Definition action (name m : string) : EndpointAction :=
  if String.eqb name "login" then
    if is_read m then ShowPage else if String.eqb m "POST" then DoLogin else NotAllowed "GET, HEAD, POST"
  else if String.eqb name "logout" then if String.eqb m "POST" then DoLogout else NotAllowed "POST"
  else NotFound.

(** A redirect target stays when it is a path of this host. *)
Definition safe_redirect (target : string) : string :=
  if starts_with "/" target && negb (starts_with "//" target) && negb (starts_with "/\" target)
     && (Z.of_nat (String.length target) <=? MAX_REDIRECT_LENGTH) && str_forallb is_ascii_graphic target
  then target else "/".

Definition login_path (ctx : AuthContext) : string :=
  ctx_base_path ctx +:+ "/" +:+ ENDPOINT_FIRST +:+ "/" +:+ ENDPOINT_SECOND +:+ "/login".

Definition secure_attribute (ctx : AuthContext) : string := if String.eqb (ctx_proto ctx) "http" then "" else "; Secure".

Definition cookie_path (ctx : AuthContext) : string := if str_is_empty (ctx_base_path ctx) then "/" else ctx_base_path ctx.

(** The [Set-Cookie] text of a cookie of the authenticators. *)
Definition auth_cookie (ctx : AuthContext) (name v : string) (max_age : Z) : string :=
  name +:+ "=" +:+ v +:+ "; Path=" +:+ cookie_path ctx +:+ "; Max-Age=" +:+ dec max_age +:+ "; HttpOnly; SameSite=Lax" +:+ secure_attribute ctx.

Record LoginForm : Type := mkLoginForm { form_username : string; form_password : string; form_totp : string; form_redirect : string }.

Section Pages.
Context `{HDR : HeaderOps} `{FORMS : FormCodec}.

Definition query_redirect (query : option string) : string :=
  match find (fun kv => String.eqb kv.1 "redirect") (form_parse (unwrap_or query "")) with
  | Some (_, v) => safe_redirect v
  | None => "/"
  end.

Definition parse_field (f : LoginForm) (kv : string * string) : LoginForm :=
  let '(name, v) := kv in
  if String.eqb name "username" then mkLoginForm v (form_password f) (form_totp f) (form_redirect f)
  else if String.eqb name "password" then mkLoginForm (form_username f) v (form_totp f) (form_redirect f)
  else if String.eqb name "totp" then mkLoginForm (form_username f) (form_password f) v (form_redirect f)
  else if String.eqb name "redirect" then mkLoginForm (form_username f) (form_password f) (form_totp f) v
  else f.

Definition LoginForm_parse (body : string) : LoginForm :=
  let f := fold_left parse_field (form_parse body) (mkLoginForm "" "" "" "") in
  mkLoginForm (trim (form_username f)) (form_password f) (trim (form_totp f)) (safe_redirect (form_redirect f)).

(** A location or a cookie that is not a header value gives the error page. *)
Definition redirect_response (status : Z) (location : string) (cookie : option string) : Answer :=
  match value_from_str location with
  | None => TextAnswer 500 "Internal Server Error" None
  | Some location =>
      match cookie with
      | None => RedirectTo status (Some location) []
      | Some c => match value_from_str c with
                  | None => TextAnswer 500 "Internal Server Error" None
                  | Some c => RedirectTo status (Some location) [c]
                  end
      end
  end.

Definition render_login_page (f : LoginForm) (error : string) (totp : bool) (status : Z) (cookie : option string) : Answer :=
  LoginPage status (form_username f) (form_redirect f) (Some error) totp
    (match cookie with Some c => value_from_str c | None => None end).

Definition sign_in_required (r : ClientRequest) (ctx : AuthContext) : Answer :=
  if negb (is_read (client_method r)) then TextAnswer 401 "Unauthorized" None
  else redirect_response 302 (login_path ctx +:+ "?redirect=" +:+ byte_serialize (unwrap_or (client_target r) "/")) None.

Definition session_token (h : Headers) : option string := hd_error (cookie_values h SESSION_COOKIE).
End Pages.

(** ** The limits of the service *)

Notation RateLimits := (gmap IpAddr (Z * Instant)).

Record ServiceLimits : Type := mkServiceLimits { admin_limits : AdminData; rate_limits : RateLimits }.

(** [min_by_key] of the times; the order of the map breaks ties. *)
Definition oldest_rate (l : list (IpAddr * (Z * Instant))) : option IpAddr :=
  option_map fst
    (fold_left (fun best kv => match best with Some b => if kv.2.2 <? b.2.2 then Some kv else best | None => Some kv end) l None).

Definition check_rate_limit (ip : IpAddr) (now : Instant) (m : RateLimits) : bool * RateLimits :=
  let m := filter (fun kv => duration_since now kv.2.2 < from_secs 2) m in
  let m := if 1024 <=? Z.of_nat (size m) then match oldest_rate (map_to_list m) with Some k => delete k m | None => m end else m in
  let '(n, t) := unwrap_or (m !! ip) (0, now) in
  if from_secs 1 <=? duration_since now t then (true, <[ ip := (1, now) ]> m)
  else if n <? 10 then (true, <[ ip := (n + 1, t) ]> m)
  else (false, <[ ip := (n, t) ]> m).

Definition service_check_blocked (cfg : AdminConfig) (key : LoginAttemptKey) (now : Instant) (l : ServiceLimits)
  : option (result unit Error * ServiceLimits) :=
  let '(granted, rates) := check_rate_limit key.1 now (rate_limits l) in
  if negb granted then Some (Err TooManyLoginAttempts, mkServiceLimits (admin_limits l) rates)
  else option_map (fun '(r, d) => (r, mkServiceLimits d rates)) (ensure_login_allowed cfg key now (admin_limits l)).

Definition with_limits (f : AdminData -> option AdminData) (l : ServiceLimits) : option ServiceLimits :=
  option_map (fun d => mkServiceLimits d (rate_limits l)) (f (admin_limits l)).

(** ** Sessions of the proxies *)

Definition record_can_open (r : SessionRecord) (proxy : ShortId) (d : AccountDirectory) : bool :=
  is_some_and (fun a => can_open a (started_at r) proxy d) (account r).

Definition session_is_valid (exp : Duration) (token host : string) (proxy : ShortId) (unix : Z) (m : LocalSessions) (d : AccountDirectory) : bool :=
  match sessions_get ProxyScope token m with
  | Some r => is_active r (expiry exp) unix && eq_ignore_ascii_case (subject r) host && record_can_open r proxy d
  | None => false
  end.

Definition create_proxy_session (exp : Duration) (host user token : string) (started unix : Z) (m : LocalSessions) : LocalSessions :=
  sessions_create ProxyScope (SessionRecord_proxy host user started) (expiry exp) token unix m.

Definition get_proxy_session (exp : Duration) (token host : string) (unix : Z) (m : LocalSessions) : option string :=
  match sessions_get ProxyScope token m with
  | Some r => if is_active r (expiry exp) unix && eq_ignore_ascii_case (subject r) host then account r else None
  | None => None
  end.

Inductive Verification : Type := VSuccess | VTotpRequired | VFailed.

Definition TOTP_CHALLENGE_EXPIRY : Duration := from_secs 300.

Section Requests.
Context `{HDR : HeaderOps} `{HB : HeaderBytes} `{FORMS : FormCodec}.

(** The check of a request of a route: the request goes on without the session cookie. *)
Definition session_authorize (exp : Duration) (proxy : ShortId) (r : ClientRequest) (ctx : AuthContext) (unix : Z)
  (m : LocalSessions) (d : AccountDirectory) : result ClientRequest Answer :=
  let signed_in := match session_token (client_headers r) with
                   | Some token => session_is_valid exp token (unwrap_or (ctx_host ctx) "") proxy unix m d
                   | None => false
                   end in
  if signed_in then Ok (set_client_headers (remove_cookie (client_headers r) SESSION_COOKIE) r)
  else Err (sign_in_required r ctx).

(** What [serve] does before the handlers of the endpoints: the action of a sign-in endpoint. *)
Definition session_serve (r : ClientRequest) (ctx : AuthContext) : option EndpointAction :=
  option_map (fun name => action name (client_method r)) (endpoint (ctx_segments ctx)).

Definition session_page (r : ClientRequest) : Answer := LoginPage 200 "" (query_redirect (client_query r)) None false None.

Definition logout (r : ClientRequest) (ctx : AuthContext) (m : LocalSessions) : Answer * LocalSessions :=
  (redirect_response 303 (login_path ctx) (Some (auth_cookie ctx SESSION_COOKIE "" 0)),
   match session_token (client_headers r) with Some token => sessions_remove ProxyScope token m | None => m end).

(** The answer of a sign-in after its session was created; without a token the creation failed. *)
Definition complete_login (exp : Duration) (f : LoginForm) (ctx : AuthContext) (token : option string) : Answer :=
  match token with
  | None => TextAnswer 503 "Service Unavailable" None
  | Some token => redirect_response 303 (form_redirect f) (Some (auth_cookie ctx SESSION_COOKIE token (as_secs (expiry exp))))
  end.

Definition issue_totp_challenge (f : LoginForm) (ctx : AuthContext) (token : option string) : Answer :=
  render_login_page f "login.totp_required" true 401
    (option_map (fun t => auth_cookie ctx SESSION_COOKIE t (as_secs TOTP_CHALLENGE_EXPIRY)) token).
End Requests.

(** ** Sign-ins *)

(** Where a sign-in waits: for its form, for the check of its password or its code, or for its session. *)
Inductive LoginPhase : Type :=
| Opened (peer : IpAddr) (host : string) (proxy : ShortId) (has_login_session : bool)
| CheckPassword (f : LoginForm) (key : LoginAttemptKey) (proxy : ShortId) (record : SessionRecord)
| CheckCode (f : LoginForm) (key : LoginAttemptKey) (proxy : ShortId) (record : SessionRecord)
| Creating (scope : SessionScope) (record : SessionRecord).

(** [checks] is not in the code: it keeps every accepted check of the service with the accounts it was
    made against, and [identities] the sessions that OpenID Connect started. *)
Record ServiceState : Type := mkServiceState {
  accounts_now : Accounts;
  directory_now : AccountDirectory;
  live_sessions : LocalSessions;
  service_limits : ServiceLimits;
  sign_ins : gmap nat LoginPhase;
  checks : list LogEntry;
  identities : list (string * string);
}.

Definition service_start (accounts : Accounts) : ServiceState :=
  mkServiceState accounts (AccountDirectory_new accounts) ∅ (mkServiceLimits (mkAdminData ∅ ∅) ∅) ∅ [] [].

Definition set_phase (id : nat) (p : option LoginPhase) (s : ServiceState) : ServiceState :=
  mkServiceState (accounts_now s) (directory_now s) (live_sessions s) (service_limits s)
    (match p with Some p => <[ id := p ]> (sign_ins s) | None => delete id (sign_ins s) end) (checks s) (identities s).
Definition set_live (m : LocalSessions) (s : ServiceState) : ServiceState :=
  mkServiceState (accounts_now s) (directory_now s) m (service_limits s) (sign_ins s) (checks s) (identities s).
Definition set_limits (l : ServiceLimits) (s : ServiceState) : ServiceState :=
  mkServiceState (accounts_now s) (directory_now s) (live_sessions s) l (sign_ins s) (checks s) (identities s).
(** The storage keeps the accounts of an accepted check; the directory does not read what it changes. *)
Definition log_check (e : LogEntry) (a : Accounts) (s : ServiceState) : ServiceState :=
  mkServiceState a (directory_now s) (live_sessions s) (service_limits s) (sign_ins s) (e :: checks s) (identities s).
Definition log_identity (token user : string) (s : ServiceState) : ServiceState :=
  mkServiceState (accounts_now s) (directory_now s) (live_sessions s) (service_limits s) (sign_ins s) (checks s) ((token, user) :: identities s).
Definition admin_changed (a : Accounts) (d : AccountDirectory) (m : LocalSessions) (s : ServiceState) : ServiceState :=
  mkServiceState a d m (service_limits s) (sign_ins s) (checks s) (identities s).

Section Machine.
Context `{CRYPTO : AuthCrypto} (cfg : AdminConfig) (session_expiry : Duration).

(** The end of [verify]: an account that does not see the proxy gets the answer of a wrong password. *)
Definition conclude (id : nat) (v : Verification) (key : LoginAttemptKey) (proxy : ShortId) (record : SessionRecord)
  (now : Instant) (unix : Z) (s : ServiceState) : option ServiceState :=
  let v := match v with
           | VFailed => VFailed
           | v => if record_can_open record proxy (directory_now s) then v else VFailed
           end in
  let limits f := option_map (fun l => set_limits l s) (with_limits f (service_limits s)) in
  match v with
  | VSuccess => option_map (set_phase id (Some (Creating ProxyScope record))) (limits (record_successful_login key.1 key))
  | VTotpRequired => option_map (set_phase id (Some (Creating LoginScope record))) (limits (release_login_attempt key))
  | VFailed => option_map (set_phase id None) (limits (record_login_failure cfg key now unix))
  end.

(** The check of a password, and then of a code when the account has one. [busy] is a wait for the
    hash permit that took too long. *)
Definition check_password (id : nat) (f : LoginForm) (key : LoginAttemptKey) (proxy : ShortId) (record : SessionRecord)
  (busy : bool) (now : Instant) (unix : Z) (s : ServiceState) : option ServiceState :=
  let r := mkLoginRequest (form_username f) (Password (form_password f)) in
  match (if busy then (Err TooManyLoginAttempts, accounts_now s) else verify_account r unix (accounts_now s)) with
  | (Err _, _) => conclude id VFailed key proxy record now unix s
  | (Ok resp, a) =>
      let s := log_check (mkLogEntry r unix (accounts_now s)) a s in
      match resp with
      | Success => conclude id VSuccess key proxy record now unix s
      | TotpRequired =>
          if str_is_empty (form_totp f) then conclude id VTotpRequired key proxy record now unix s
          else Some (set_phase id (Some (CheckCode f key proxy record)) s)
      end
  end.

Definition check_code (id : nat) (f : LoginForm) (key : LoginAttemptKey) (proxy : ShortId) (record : SessionRecord)
  (busy : bool) (now : Instant) (unix : Z) (s : ServiceState) : option ServiceState :=
  let r := mkLoginRequest (form_username f) (Totp (form_totp f)) in
  match (if busy then (Err TooManyLoginAttempts, accounts_now s) else verify_account r unix (accounts_now s)) with
  | (Ok Success, a) => conclude id VSuccess key proxy record now unix (log_check (mkLogEntry r unix (accounts_now s)) a s)
  | _ => conclude id VFailed key proxy record now unix s
  end.

(** [read_form] has the form; the checks of the limits follow without a wait. *)
Definition form_read (id : nat) (f : LoginForm) (peer : IpAddr) (host : string) (proxy : ShortId) (has_login_session : bool)
  (now : Instant) (unix : Z) (s : ServiceState) : option ServiceState :=
  let key := (canonical_client_ip peer, form_username f) in
  match service_check_blocked cfg key now (service_limits s) with
  | None => None
  | Some (Err _, l) => Some (set_phase id None (set_limits l s))
  | Some (Ok _, l) =>
      let record := SessionRecord_proxy host (form_username f) unix in
      Some (set_phase id (Some (if has_login_session && negb (str_is_empty (form_totp f))
                                then CheckCode f key proxy record else CheckPassword f key proxy record))
              (set_limits l s))
  end.

Definition create_session (id : nat) (token : string) (unix : Z) (s : ServiceState) : option ServiceState :=
  match sign_ins s !! id with
  | Some (Creating scope record) =>
      let exp := match scope with LoginScope => TOTP_CHALLENGE_EXPIRY | _ => expiry session_expiry end in
      Some (set_live (sessions_create scope record exp token unix (live_sessions s)) (set_phase id None s))
  | _ => None
  end.

Inductive service_step : ServiceState -> ServiceState -> Prop :=
| ss_open s id ctx proxy cookie :
    sign_ins s !! id = None ->
    service_step s (set_phase id (Some (Opened (ctx_peer ctx) (unwrap_or (ctx_host ctx) "") proxy
                      (is_some_and (fun t => is_some (sessions_get LoginScope t (live_sessions s))) cookie))) s)
| ss_form s id f peer host proxy has_login_session now unix s' :
    sign_ins s !! id = Some (Opened peer host proxy has_login_session) ->
    form_read id f peer host proxy has_login_session now unix s = Some s' -> service_step s s'
| ss_password s id f key proxy record busy now unix s' :
    sign_ins s !! id = Some (CheckPassword f key proxy record) ->
    check_password id f key proxy record busy now unix s = Some s' -> service_step s s'
| ss_code s id f key proxy record busy now unix s' :
    sign_ins s !! id = Some (CheckCode f key proxy record) ->
    check_code id f key proxy record busy now unix s = Some s' -> service_step s s'
| ss_create s id token unix s' :
    create_session id token unix s = Some s' -> service_step s s'
| ss_disconnect s id : service_step s (set_phase id None s)
| ss_identity s host user token started unix :
    service_step s (log_identity token user (set_live (create_proxy_session session_expiry host user token started unix (live_sessions s)) s))
| ss_remove s token : service_step s (set_live (sessions_remove ProxyScope token (live_sessions s)) s)
| ss_admin s a d m :
    (forall token r, m !! (ProxyScope, token) = Some r -> live_sessions s !! (ProxyScope, token) = Some r) ->
    service_step s (admin_changed a d m s).

End Machine.

(** ** What the admin API does to the sessions of the proxies *)

Section Admin.
Context `{CRYPTO : AuthCrypto} (cfg : AdminConfig) (session_expiry : Duration).

(** The sign-ins of the admin API start no session of a proxy. *)
Definition admin_scopes (s : SignInState) : Prop :=
  forall id scope r, pending s !! id = Some (Verified scope r) -> scope <> ProxyScope.

Definition keeps_proxy_sessions (m m' : LocalSessions) : Prop :=
  forall token r, m' !! (ProxyScope, token) = Some r -> m !! (ProxyScope, token) = Some r.

Lemma keeps_delete k m : keeps_proxy_sessions m (delete k m).
Proof. intros t r H. by apply lookup_delete_Some in H as [_ H]. Qed.

Lemma keeps_expired exp unix m : keeps_proxy_sessions m (sessions_remove_expired exp unix m).
Proof. intros t r H. by apply map_lookup_filter_Some in H as [H _]. Qed.

Lemma keeps_trans m1 m2 m3 : keeps_proxy_sessions m1 m2 -> keeps_proxy_sessions m2 m3 -> keeps_proxy_sessions m1 m3.
Proof. unfold keeps_proxy_sessions. eauto. Qed.

(** What a part of a sign-in may do. *)
Definition admin_part (s s' : SignInState) : Prop :=
  keeps_proxy_sessions (sessions s) (sessions s') /\ (admin_scopes s -> admin_scopes s').

Lemma admin_part_trans s1 s2 s3 : admin_part s1 s2 -> admin_part s2 s3 -> admin_part s1 s3.
Proof. intros [H1 H2] [H3 H4]. split; [by apply (keeps_trans _ (sessions s2))|auto]. Qed.

Lemma admin_part_refl s : admin_part s s.
Proof. by split; [intros t r H|]. Qed.

Lemma admin_part_pending s p : (admin_scopes s -> admin_scopes (set_pending p s)) -> admin_part s (set_pending p s).
Proof. intros H. by split; [intros t r Ht|]. Qed.

Lemma admin_scopes_delete id s : admin_scopes s -> admin_scopes (set_pending (delete id (pending s)) s).
Proof. intros H i sc r Hi. cbn [pending set_pending] in Hi. apply lookup_delete_Some in Hi as [_ Hi]. by apply (H i sc r). Qed.

Lemma admin_scopes_insert id p s :
  match p with Verified sc _ => sc <> ProxyScope | _ => True end -> admin_scopes s -> admin_scopes (set_pending (<[ id := p ]> (pending s)) s).
Proof.
  intros Hp H i sc r Hi. cbn [pending set_pending] in Hi. rewrite lookup_insert in Hi. case_decide; [injection Hi as ->; exact Hp|].
  by apply (H i sc r).
Qed.

Lemma admin_part_data f s s' : with_data f s = Some s' -> admin_part s s'.
Proof. unfold with_data. destruct (f (data s)); [|done]. intros [= <-]. apply (admin_part_refl s). Qed.

Lemma admin_part_precheck r key cookie ch now unix s res s' :
  verify_pre_login_conditions cfg session_expiry r key cookie ch now unix s = (res, s') -> admin_part s s'.
Proof.
  unfold verify_pre_login_conditions, verify_totp_preconditions. destruct (method r) as [pw|t|a1 a2 a3 a4].
  - intros [= _ <-]. apply admin_part_refl.
  - destruct cookie as [token|]; [|intros [= _ <-]; apply admin_part_refl].
    destruct (verify_login_session _ _ _ _ _); [|intros [= _ <-]; apply admin_part_refl].
    destruct (is_account_blocked _ _ _ _) as [blocked t']. destruct blocked; intros [= _ <-]; apply (admin_part_refl s).
  - destruct ch as [c|]; [|intros [= _ <-]; apply admin_part_refl].
    destruct (challenge_consume _ _ _) as [known m]. destruct known; intros [= _ <-]; apply (admin_part_refl s).
Qed.

Lemma admin_part_cleanup token user s : admin_part s (cleanup_login_session token user s).
Proof. split; [apply keeps_delete|]. by intros H. Qed.

Lemma admin_part_totp_failure token user now s : admin_part s (record_totp_failure cfg token user now s).
Proof.
  unfold record_totp_failure. destruct (totp_record_failure _ _ _ _ _ _) as [ex t]. destruct ex; [|apply (admin_part_refl s)].
  split; [apply keeps_delete|]. by intros H.
Qed.

Lemma admin_part_step ev s s' : admin_scopes s -> sign_in_step cfg session_expiry ev s = Some s' -> admin_part s s'.
Proof.
  intros Hs. destruct ev as [id r cookie ip now|id ch now unix|id now unix|id token unix|id|c m unix|ch now|token|unix]; cbn [sign_in_step].
  - destruct (pending s !! id); [done|]. destruct (ensure_login_allowed _ _ _ _) as [[res d]|]; [|done].
    destruct (is_ok res); intros [= <-]; [|apply (admin_part_refl s)]. split; [by intros t r0 H|]. intros H.
    by apply (admin_scopes_insert id _ (set_data d s)).
  - destruct (pending s !! id) as [[r key cookie ip| |]|]; try done.
    destruct (verify_pre_login_conditions _ _ _ _ _ _ _ _ _) as [res s1] eqn:E. apply admin_part_precheck in E.
    destruct res as [lr|e]; [intros [= <-]|intros H; apply admin_part_data in H]; apply (admin_part_trans s s1); try done.
    + apply admin_part_pending. by apply admin_scopes_insert.
    + apply (admin_part_trans _ (set_pending (delete id (pending s1)) s1)); [|done]. apply admin_part_pending, admin_scopes_delete.
  - destruct (pending s !! id) as [[|r key cookie ip lr sr|]|]; try done.
    destruct (verify_account r unix (store s)) as [[resp|e] a].
    + set (s1 := set_log _ _). assert (H1 : admin_part s s1) by apply (admin_part_refl s).
      destruct resp; intros H; apply admin_part_data in H; apply (admin_part_trans s s1); try done.
      * set (s2 := match cookie with Some t => _ | None => s1 end) in *.
        assert (H2 : admin_part s1 s2) by (destruct cookie; [apply admin_part_cleanup|apply admin_part_refl]).
        apply (admin_part_trans _ s2); [done|]. eapply admin_part_trans; [|exact H]. apply admin_part_pending. by apply admin_scopes_insert.
      * eapply admin_part_trans; [|exact H]. apply admin_part_pending. by apply admin_scopes_insert.
    + set (s1 := if is_totp r then _ else s).
      assert (H1 : admin_part s s1) by (unfold s1; destruct (is_totp r), cookie; try apply admin_part_refl; apply admin_part_totp_failure).
      intros H; apply admin_part_data in H; apply (admin_part_trans s s1); [done|].
      eapply admin_part_trans; [|exact H]. apply admin_part_pending, admin_scopes_delete.
  - destruct (pending s !! id) as [[| |scope record]|] eqn:Ep; try done. intros [= <-]. pose proof (Hs _ _ _ Ep) as Hne. split.
    + cbn [sessions set_sessions set_pending]. intros t r H. unfold sessions_create in H. rewrite lookup_insert in H.
      case_decide as E; [by injection E as ->|]. by apply keeps_expired in H.
    + intros H. by apply (admin_scopes_delete id s).
  - intros [= <-]. apply admin_part_pending, admin_scopes_delete.
  - destruct (call_method _ _ _ _); intros [= <-]; apply (admin_part_refl s).
  - intros [= <-]. apply (admin_part_refl s).
  - intros [= <-]. split; [|by intros H]. apply (keeps_trans _ (sessions_remove AdminScope token (sessions s))); apply keeps_delete.
  - intros [= <-]. split; [|by intros H]. apply keeps_expired.
Qed.

(** A step of the admin API is a step of the service, on the accounts and the sessions that they share. *)
Lemma admin_keeps_proxy_sessions ev s s' v :
  admin_scopes s -> sign_in_step cfg session_expiry ev s = Some s' -> live_sessions v = sessions s ->
  admin_scopes s' /\ service_step cfg session_expiry v (admin_changed (store s') (directory s') (sessions s') v).
Proof.
  intros Hs Hst Hv. destruct (admin_part_step ev s s' Hs Hst) as [H1 H2]. split; [by apply H2|].
  apply ss_admin. rewrite Hv. exact H1.
Qed.

End Admin.

(** ** What a session of a proxy proves *)

Section Sessions.
Context `{HDR : HeaderOps} `{HB : HeaderBytes} `{FORMS : FormCodec} `{CRYPTO : AuthCrypto}.
Context (cfg : AdminConfig) (session_expiry : Duration).

(** An accepted password of an account without TOTP, or an accepted code of the account. *)
Definition proved_account (a : string) (l : list LogEntry) : Prop :=
  exists e, e ∈ l /\ username (checked e) = a
            /\ match method (checked e) with Passkey _ _ _ _ => False | _ => True end
            /\ fst (verify_account (checked e) (checked_at e) (against e)) = Ok Success.

Definition session_backed (s : ServiceState) (a token : string) : Prop :=
  proved_account a (checks s) \/ (token, a) ∈ identities s.

Record service_ok (s : ServiceState) : Prop := {
  so_live token r a : live_sessions s !! (ProxyScope, token) = Some r -> account r = Some a -> session_backed s a token;
  so_creating id r : sign_ins s !! id = Some (Creating ProxyScope r) -> exists a, account r = Some a /\ proved_account a (checks s);
  so_code id f key proxy r : sign_ins s !! id = Some (CheckCode f key proxy r) -> account r = Some (form_username f);
  so_password id f key proxy r : sign_ins s !! id = Some (CheckPassword f key proxy r) -> account r = Some (form_username f);
}.

(** A phase of a sign-in that the invariant accepts. *)
Definition phase_fine (s : ServiceState) (p : LoginPhase) : Prop :=
  match p with
  | Creating ProxyScope r => exists a, account r = Some a /\ proved_account a (checks s)
  | CheckCode f _ _ r | CheckPassword f _ _ r => account r = Some (form_username f)
  | _ => True
  end.

Lemma service_ok_phases s :
  service_ok s <-> (forall token r a, live_sessions s !! (ProxyScope, token) = Some r -> account r = Some a -> session_backed s a token)
                   /\ (forall id p, sign_ins s !! id = Some p -> phase_fine s p).
Proof.
  split.
  - intros [H1 H2 H3 H4]. split; [exact H1|]. intros id [| | |[]]; cbn; eauto.
  - intros [H1 H2]. split; [exact H1| | |]; intros id; intros; by apply (H2 id) in H.
Qed.

Lemma service_ok_start accounts : service_ok (service_start accounts).
Proof. apply service_ok_phases. split; intros *; cbn [live_sessions sign_ins service_start]; rewrite lookup_empty; done. Qed.

Lemma service_ok_set_phase id o s :
  service_ok s -> match o with Some p => phase_fine s p | None => True end -> service_ok (set_phase id o s).
Proof.
  intros [H1 H2]%service_ok_phases Ho. apply service_ok_phases. split; [exact H1|]. intros i p. cbn [sign_ins set_phase].
  destruct o as [q|].
  - rewrite lookup_insert. case_decide; [by intros [= <-]|apply H2].
  - intros Hi. apply lookup_delete_Some in Hi as [_ Hi]. by apply (H2 i).
Qed.

Lemma service_ok_limits l s : service_ok s -> service_ok (set_limits l s).
Proof. intros []. by split. Qed.

Lemma proved_more a e l : proved_account a l -> proved_account a (e :: l).
Proof. intros (x & Hx & H). exists x. split; [by right|done]. Qed.

Lemma service_ok_log e a s : service_ok s -> service_ok (log_check e a s).
Proof.
  intros [H1 H2]%service_ok_phases. apply service_ok_phases. split.
  - intros t r u Hl Hr. destruct (H1 t r u Hl Hr) as [H|H]; [left; by apply proved_more|by right].
  - intros id p Hp. specialize (H2 id p Hp). destruct p as [| | |[]]; cbn in *; try done.
    destruct H2 as (u & Hu & Hpr). exists u. split; [done|]. by apply proved_more.
Qed.

Lemma service_ok_live m s :
  service_ok s ->
  (forall token r a, m !! (ProxyScope, token) = Some r -> account r = Some a -> session_backed s a token) ->
  service_ok (set_live m s).
Proof. intros [H1 H2]%service_ok_phases Hm. apply service_ok_phases. by split. Qed.

Lemma service_ok_conclude id v key proxy r now unix s s' :
  service_ok s -> (v = VSuccess -> exists a, account r = Some a /\ proved_account a (checks s)) ->
  conclude cfg id v key proxy r now unix s = Some s' -> service_ok s'.
Proof.
  intros Hs Hv. unfold conclude. set (v' := match v with VFailed => VFailed | _ => _ end).
  assert (Hv' : v' = VSuccess -> exists a, account r = Some a /\ proved_account a (checks s))
    by (unfold v'; destruct v; [destruct (record_can_open _ _ _); [intros _; by apply Hv|done]|by destruct (record_can_open _ _ _)|done]).
  unfold with_limits. destruct v'.
  - destruct (record_successful_login _ _ _) as [d|]; [|done]. intros [= <-]. apply service_ok_set_phase; [by apply service_ok_limits|by apply Hv'].
  - destruct (release_login_attempt _ _) as [d|]; [|done]. intros [= <-]. by apply service_ok_set_phase; [apply service_ok_limits|].
  - destruct (record_login_failure _ _ _ _ _) as [d|]; [|done]. intros [= <-]. by apply service_ok_set_phase; [apply service_ok_limits|].
Qed.

Lemma service_ok_check_password id f key proxy r busy now unix s s' :
  service_ok s -> account r = Some (form_username f) ->
  check_password cfg id f key proxy r busy now unix s = Some s' -> service_ok s'.
Proof.
  intros Hs Hr. unfold check_password. cbn zeta. set (req := mkLoginRequest _ _).
  destruct busy; [apply service_ok_conclude; done|]. destruct (verify_account req unix (accounts_now s)) as [[resp|e] a] eqn:Ev.
  2: { apply service_ok_conclude; done. }
  pose proof (service_ok_log (mkLogEntry req unix (accounts_now s)) a s Hs) as Hl. destruct resp.
  - apply service_ok_conclude; [done|]. intros _. exists (form_username f). split; [done|].
    exists (mkLogEntry req unix (accounts_now s)). split; [left|]. split; [done|]. split; [done|].
    cbn [checked checked_at against]. by rewrite Ev.
  - destruct (str_is_empty (form_totp f)); [apply service_ok_conclude; done|]. intros [= <-]. by apply service_ok_set_phase.
Qed.

Lemma service_ok_check_code id f key proxy r busy now unix s s' :
  service_ok s -> account r = Some (form_username f) ->
  check_code cfg id f key proxy r busy now unix s = Some s' -> service_ok s'.
Proof.
  intros Hs Hr. unfold check_code. cbn zeta. set (req := mkLoginRequest _ _).
  destruct busy; [apply service_ok_conclude; done|]. destruct (verify_account req unix (accounts_now s)) as [[[|]|e] a] eqn:Ev;
    try (apply service_ok_conclude; done).
  apply service_ok_conclude; [by apply service_ok_log|]. intros _. exists (form_username f). split; [done|].
  exists (mkLogEntry req unix (accounts_now s)). split; [left|]. split; [done|]. split; [done|].
  cbn [checked checked_at against]. by rewrite Ev.
Qed.

Lemma service_ok_form id f peer host proxy has now unix s s' :
  service_ok s -> form_read cfg id f peer host proxy has now unix s = Some s' -> service_ok s'.
Proof.
  intros Hs. unfold form_read. destruct (service_check_blocked _ _ _ _) as [[[u|e] l]|]; [| |done]; intros [= <-];
    apply service_ok_set_phase; try (by apply service_ok_limits); [|done]. by destruct (_ && _).
Qed.

Lemma service_ok_create id token unix s s' :
  service_ok s -> create_session session_expiry id token unix s = Some s' -> service_ok s'.
Proof.
  intros Hs. unfold create_session. destruct (sign_ins s !! id) as [[| | |scope r]|] eqn:Ei; try done. intros [= <-].
  apply service_ok_live; [by apply service_ok_set_phase|]. intros t r' a Ht Ha. unfold sessions_create in Ht.
  rewrite lookup_insert in Ht. case_decide as E.
  - injection Ht as ->. injection E as -> <-. destruct (so_creating s Hs id r' Ei) as (a' & Ha' & Hp). left. by replace a with a' by congruence.
  - apply keeps_expired in Ht. by apply (so_live s Hs t r' a).
Qed.

Lemma service_ok_identity host user token started unix s :
  service_ok s ->
  service_ok (log_identity token user (set_live (create_proxy_session session_expiry host user token started unix (live_sessions s)) s)).
Proof.
  intros [H1 H2]%service_ok_phases. apply service_ok_phases. cbn [live_sessions sign_ins log_identity set_live]. split; [|exact H2].
  intros t r a Ht Ha. unfold create_proxy_session, sessions_create in Ht. rewrite lookup_insert in Ht. case_decide as E.
  - injection Ht as <-. injection E as <-. injection Ha as <-. right. left.
  - apply keeps_expired in Ht. destruct (H1 t r a Ht Ha) as [H|H]; [by left|]. right. by right.
Qed.

Lemma service_ok_step s s' : service_step cfg session_expiry s s' -> service_ok s -> service_ok s'.
Proof.
  intros Hst Hs. destruct Hst as [s id ctx proxy cookie Hi|s id f peer host proxy has now unix s' Hi Hx|s id f key proxy r busy now unix s' Hi Hx
    |s id f key proxy r busy now unix s' Hi Hx|s id token unix s' Hx|s id|s host user token started unix|s token|s a d m Hm].
  - by apply service_ok_set_phase.
  - by apply (service_ok_form id f peer host proxy has now unix s).
  - by apply (service_ok_check_password id f key proxy r busy now unix s), Hx; [|apply (so_password s Hs id f key proxy r)].
  - by apply (service_ok_check_code id f key proxy r busy now unix s), Hx; [|apply (so_code s Hs id f key proxy r)].
  - by apply (service_ok_create id token unix s).
  - by apply service_ok_set_phase.
  - by apply service_ok_identity.
  - apply service_ok_live; [done|]. intros t r a Ht. apply keeps_delete in Ht. by apply (so_live s Hs t r a).
  - destruct Hs. split; cbn [live_sessions sign_ins admin_changed checks identities]; eauto.
Qed.

Lemma service_ok_run s s' : rtc (service_step cfg session_expiry) s s' -> service_ok s -> service_ok s'.
Proof. induction 1; eauto using service_ok_step. Qed.

(** C15: A request that the session authentication lets through carries a live session of the host, of
    an account that still sees the proxy and did not change after the start of the session; and the
    session was started either by an accepted password of that account without TOTP or an accepted
    code of that account, or by OpenID Connect for an identity of that name.  This holds in every run
    of the service, however sign-ins, disconnects, the admin API and OpenID Connect interleave. *)
Theorem proxy_session_needs_sign_in accounts s r ctx proxy unix r' :
  rtc (service_step cfg session_expiry) (service_start accounts) s ->
  session_authorize session_expiry proxy r ctx unix (live_sessions s) (directory_now s) = Ok r' ->
  exists token rec a,
    session_token (client_headers r) = Some token /\ live_sessions s !! (ProxyScope, token) = Some rec /\ account rec = Some a
    /\ is_active rec (expiry session_expiry) unix = true
    /\ eq_ignore_ascii_case (subject rec) (unwrap_or (ctx_host ctx) "") = true
    /\ can_open a (started_at rec) proxy (directory_now s) = true
    /\ (proved_account a (checks s) \/ (token, a) ∈ identities s)
    /\ r' = set_client_headers (remove_cookie (client_headers r) SESSION_COOKIE) r.
Proof.
  intros Hrun. pose proof (service_ok_run _ _ Hrun (service_ok_start accounts)) as Hs. unfold session_authorize. cbn zeta.
  destruct (session_token (client_headers r)) as [token|]; [|done].
  destruct (session_is_valid _ _ _ _ _ _ _) eqn:Ev; [|done]. intros [= <-]. unfold session_is_valid, sessions_get in Ev.
  destruct (live_sessions s !! _) as [rec|] eqn:El; [|done]. apply andb_true_iff in Ev as [Ev Ho]. apply andb_true_iff in Ev as [Hact Hh].
  unfold record_can_open in Ho. destruct (account rec) as [a|] eqn:Ea; [|done]. cbn [is_some_and] in Ho.
  exists token, rec, a. repeat (split; [done|]). split; [|done].
  by apply (so_live s Hs token rec a).
Qed.

(** ** Behaviour that looks unintended *)

Lemma fresh_session_active host user unix : 10000000000 <= unix -> is_active (SessionRecord_proxy host user unix) (expiry session_expiry) unix = true.
Proof.
  intros Hu. unfold is_active. cbn [started_at SessionRecord_proxy]. destruct (Z.ltb_spec unix 10000000000) as [H|_]; [lia|].
  assert (He : 0 < expiry session_expiry / 1000000).
  { apply Z.div_str_pos. pose proof (Z.le_max_r session_expiry MINIMUM_SESSION_EXPIRY) as H.
    unfold expiry. enough (1000000 <= MINIMUM_SESSION_EXPIRY) by lia. vm_compute. discriminate. }
  unfold sat_sub. apply Z.ltb_lt. lia.
Qed.

Lemma new_session_valid host user token proxy unix m d :
  10000000000 <= unix -> record_can_open (SessionRecord_proxy host user unix) proxy d = true ->
  session_is_valid session_expiry token host proxy unix
    (sessions_create ProxyScope (SessionRecord_proxy host user unix) (expiry session_expiry) token unix m) d = true.
Proof.
  intros Hu Ho. unfold session_is_valid, sessions_get, sessions_create. rewrite lookup_insert_eq, fresh_session_active, Ho by done.
  unfold eq_ignore_ascii_case. by rewrite String.eqb_refl.
Qed.

(** A code replaces the password.  With the cookie of any sign-in that waits for a code, also one of
    another account, a code of the account [form_username f] starts a session of that account,
    whatever password the form has. *)
Theorem code_replaces_password s id cookie r0 f ctx proxy now unix token l a :
  live_sessions s !! (LoginScope, cookie) = Some r0 -> sign_ins s !! id = None -> str_is_empty (form_totp f) = false ->
  10000000000 <= unix ->
  service_check_blocked cfg (canonical_client_ip (ctx_peer ctx), form_username f) now (service_limits s) = Some (Ok tt, l) ->
  verify_account (mkLoginRequest (form_username f) (Totp (form_totp f))) unix (accounts_now s) = (Ok Success, a) ->
  record_can_open (SessionRecord_proxy (unwrap_or (ctx_host ctx) "") (form_username f) unix) proxy (directory_now s) = true ->
  exists s', rtc (service_step cfg session_expiry) s s'
             /\ session_is_valid session_expiry token (unwrap_or (ctx_host ctx) "") proxy unix (live_sessions s') (directory_now s') = true.
Proof.
  intros Hl Hi Ht Hu Hb Hv Ho. set (host := unwrap_or (ctx_host ctx) "") in *. set (key := (canonical_client_ip (ctx_peer ctx), form_username f)) in *.
  set (s1 := set_phase id (Some (Opened (ctx_peer ctx) host proxy true)) s).
  set (rec := SessionRecord_proxy host (form_username f) unix) in *.
  set (s2 := set_phase id (Some (CheckCode f key proxy rec)) (set_limits l s1)).
  assert (Hclear : exists d, record_successful_login key.1 key (admin_limits l) = Some d).
  { unfold service_check_blocked in Hb. destruct (check_rate_limit _ _ _) as [granted rates]. destruct granted; [|done]. cbn [negb] in Hb.
    unfold ensure_login_allowed in Hb. destruct (check_banned _ _ _) as [[u|e] bans]; [|done].
    unfold acquire in Hb. unfold record_successful_login, clear. destruct (bounded_key key); [|done]. by eexists. }
  destruct Hclear as (d & Hd).
  set (s3 := set_phase id (Some (Creating ProxyScope rec))
               (set_limits (mkServiceLimits d (rate_limits l)) (log_check (mkLogEntry (mkLoginRequest (form_username f) (Totp (form_totp f))) unix (accounts_now s)) a s2))).
  exists (set_live (sessions_create ProxyScope rec (expiry session_expiry) token unix (live_sessions s)) (set_phase id None s3)). split.
  - apply (rtc_l _ _ s1).
    { pose proof (ss_open cfg session_expiry s id ctx proxy (Some cookie) Hi) as H. cbn [is_some_and] in H. unfold sessions_get in H. by rewrite Hl in H. }
    apply (rtc_l _ _ s2).
    { apply (ss_form _ _ s1 id f (ctx_peer ctx) host proxy true now unix); [apply lookup_insert_eq|].
      unfold form_read. cbn [service_limits s1 set_phase]. fold key. rewrite Hb, Ht. done. }
    apply (rtc_l _ _ s3).
    { apply (ss_code _ _ s2 id f key proxy rec false now unix); [apply lookup_insert_eq|].
      unfold check_code. cbn [accounts_now s2 s1 set_phase set_limits]. rewrite Hv. unfold conclude.
      cbn [directory_now log_check s2 s1 set_phase set_limits]. rewrite Ho. unfold with_limits. cbn [service_limits log_check set_limits set_phase admin_limits s2].
      rewrite Hd. done. }
    apply rtc_once, (ss_create _ _ s3 id token unix). unfold create_session. cbn [sign_ins s3 set_phase]. by rewrite lookup_insert_eq.
  - by apply new_session_valid.
Qed.

(** The sessions of OpenID Connect and of the panel accounts are in one table: an identity whose name
    is that of a panel account opens the proxies of the account on its host. *)
Theorem identity_opens_account s host user token proxy unix :
  10000000000 <= unix -> record_can_open (SessionRecord_proxy host user unix) proxy (directory_now s) = true ->
  exists s', service_step cfg session_expiry s s'
             /\ session_is_valid session_expiry token host proxy unix (live_sessions s') (directory_now s') = true.
Proof.
  intros Hu Ho. eexists. split; [apply (ss_identity cfg session_expiry s host user token unix unix)|]. by apply new_session_valid.
Qed.

(** The challenge for a code of one client ends every session of the server, also those of the admin
    API, that is older than the five minutes of the challenge. *)
Theorem totp_challenge_ends_sessions s id record token unix s' k rec :
  sign_ins s !! id = Some (Creating LoginScope record) -> create_session session_expiry id token unix s = Some s' ->
  live_sessions s !! k = Some rec -> is_active rec (expiry session_expiry) unix = true ->
  is_active rec TOTP_CHALLENGE_EXPIRY unix = false -> k <> (LoginScope, token) -> live_sessions s' !! k = None.
Proof.
  intros Hi Hx Hk _ Hold Hne. unfold create_session in Hx. rewrite Hi in Hx. injection Hx as <-. cbn [live_sessions set_live].
  unfold sessions_create. rewrite lookup_insert_ne by done. unfold sessions_remove_expired. apply map_lookup_filter_None. right.
  intros x Hx H. cbn in H. assert (x = rec) as -> by congruence. by rewrite Hold in H.
Qed.

End Sessions.

(** The target of a redirect is a path of the same host: one slash, then neither a slash nor a
    backslash, visible ASCII only, and of bounded length; and such a path stays. *)
Lemma safe_redirect_local target t :
  safe_redirect target = t ->
  starts_with "/" t = true /\ starts_with "//" t = false /\ starts_with "/\" t = false
  /\ Z.of_nat (String.length t) <= MAX_REDIRECT_LENGTH /\ str_forallb is_ascii_graphic t = true /\ safe_redirect t = t.
Proof.
  unfold safe_redirect at 1. destruct (_ && _) eqn:E; intros <-; [|by vm_compute].
  assert (Hs : safe_redirect target = target) by (unfold safe_redirect; by rewrite E).
  apply andb_true_iff in E as [E H5]. apply andb_true_iff in E as [E H4]. apply andb_true_iff in E as [E H3].
  apply andb_true_iff in E as [H1 H2]. apply negb_true_iff in H2, H3. apply Z.leb_le in H4. auto 10.
Qed.

(** ** Examples *)

Definition plain_forms : FormCodec := {|
  form_parse s := omap (split_once "=") (split_on "&" s);
  byte_serialize s := s;
|}.

Section ExampleSignIn.
#[local] Existing Instances plain_header_ops plain_bytes plain_forms plain_crypto.

Definition example_ctx : AuthContext := mkAuthContext (V4 1) (V4 1) (Some "app.example") "https" "" [].
Definition example_proxy : ShortId := [0; 97; 98; 99; 97; 98; 99; 100].
Definition example_login_form : LoginForm := LoginForm_parse "username=root&password=secret-1&totp=123456&redirect=/inbox".
Definition example_hour : Duration := from_secs 3600.

Definition state_of (o : option ServiceState) : ServiceState := unwrap_or o (service_start ∅).

Definition opened : ServiceState :=
  set_phase 1 (Some (Opened (V4 1) "app.example" example_proxy false)) (service_start example_accounts).
Definition form_checked : ServiceState :=
  Eval vm_compute in state_of (form_read default_admin 1 example_login_form (V4 1) "app.example" example_proxy false 5 1700000001000 opened).
Definition example_record : SessionRecord := SessionRecord_proxy "app.example" "root" 1700000001000.
Definition password_checked : ServiceState :=
  Eval vm_compute in state_of (check_password default_admin 1 example_login_form (V4 1, "root") example_proxy example_record false 6 1700000001001 form_checked).
Definition code_checked : ServiceState :=
  Eval vm_compute in state_of (check_code default_admin 1 example_login_form (V4 1, "root") example_proxy example_record false 7 1700000001002 password_checked).
Definition signed_in : ServiceState := Eval vm_compute in state_of (create_session example_hour 1 "t1" 1700000001003 code_checked).

Definition example_request : ClientRequest := mkClientRequest _ "GET" (Some "/inbox") None [("cookie", "r3v3rs3_session=t1; theme=dark")].

Lemma signed_in_reached : rtc (service_step default_admin example_hour) (service_start example_accounts) signed_in.
Proof.
  apply (rtc_l _ _ opened); [apply (ss_open _ _ _ 1 example_ctx example_proxy None); reflexivity|].
  apply (rtc_l _ _ form_checked).
  { apply (ss_form _ _ _ 1 example_login_form (V4 1) "app.example" example_proxy false 5 1700000001000); vm_compute; reflexivity. }
  apply (rtc_l _ _ password_checked).
  { apply (ss_password _ _ _ 1 example_login_form (V4 1, "root") example_proxy example_record false 6 1700000001001); vm_compute; reflexivity. }
  apply (rtc_l _ _ code_checked).
  { apply (ss_code _ _ _ 1 example_login_form (V4 1, "root") example_proxy example_record false 7 1700000001002); vm_compute; reflexivity. }
  apply rtc_once, (ss_create _ _ _ 1 "t1" 1700000001003). vm_compute. reflexivity.
Qed.

Lemma proxy_session_needs_sign_in_witness :
  exists r', session_authorize example_hour example_proxy example_request example_ctx 1700000002000 (live_sessions signed_in) (directory_now signed_in) = Ok r'
             /\ h_get_all (client_headers r') "cookie" = ["theme=dark"]
             /\ (proved_account "root" (checks signed_in) \/ ("t1", "root") ∈ identities signed_in).
Proof.
  set (r' := set_client_headers (remove_cookie (client_headers example_request) SESSION_COOKIE) example_request).
  assert (E : session_authorize example_hour example_proxy example_request example_ctx 1700000002000 (live_sessions signed_in) (directory_now signed_in)
              = Ok r') by (vm_compute; reflexivity).
  exists r'. split; [exact E|]. split; [reflexivity|].
  destruct (proxy_session_needs_sign_in default_admin example_hour example_accounts signed_in example_request example_ctx example_proxy
              1700000002000 r' signed_in_reached E) as (token & rec & a & Ht & Hr & Ha & _ & _ & _ & Hp & _).
  assert (token = "t1") as -> by (vm_compute in Ht; congruence).
  assert (Er : live_sessions signed_in !! (ProxyScope, "t1") = Some example_record) by (vm_compute; reflexivity).
  rewrite Er in Hr. injection Hr as <-. injection Ha as <-. exact Hp.
Defined.

(** The cookie of a sign-in of [ada] that waits for its code opens the account [root] with a code of
    [root], without its password. *)
Definition waiting_for_code : ServiceState :=
  set_live {[ (LoginScope, "t0") := SessionRecord_proxy "app.example" "ada" 1700000000500 ]} (service_start example_accounts).
Definition guessed_form : LoginForm := mkLoginForm "root" "no idea" "123456" "/".

Lemma code_replaces_password_witness :
  exists s', rtc (service_step default_admin example_hour) waiting_for_code s'
             /\ session_is_valid example_hour "t1" "app.example" example_proxy 1700000001000 (live_sessions s') (directory_now s') = true.
Proof.
  destruct (service_check_blocked default_admin (V4 1, "root") 5 (service_limits waiting_for_code)) as [[[[]|e] l]|] eqn:El;
    [|vm_compute in El; discriminate..].
  destruct (verify_account (mkLoginRequest "root" (Totp "123456")) 1700000001000 example_accounts) as [res a] eqn:Ea.
  assert (res = Ok Success) as -> by (vm_compute in Ea; congruence).
  apply (code_replaces_password default_admin example_hour waiting_for_code 1 "t0" (SessionRecord_proxy "app.example" "ada" 1700000000500)
           guessed_form example_ctx example_proxy 5 1700000001000 "t1" l a);
    [vm_compute; reflexivity|vm_compute; reflexivity|vm_compute; reflexivity|vm_compute; discriminate|exact El|exact Ea|vm_compute; reflexivity].
Defined.

Lemma identity_opens_account_witness :
  exists s', service_step default_admin example_hour (service_start example_accounts) s'
             /\ session_is_valid example_hour "t9" "app.example" example_proxy 1700000001000 (live_sessions s') (directory_now s') = true.
Proof.
  apply (identity_opens_account default_admin example_hour (service_start example_accounts) "app.example" "root" "t9" example_proxy 1700000001000);
    [vm_compute; discriminate|vm_compute; reflexivity].
Defined.

(** A session of ten minutes of age is ended by a challenge, though it lasts an hour. *)
Definition challenge_pending : ServiceState :=
  set_phase 2 (Some (Creating LoginScope (SessionRecord_proxy "app.example" "ada" 1700000601000)))
    (set_live {[ (AdminScope, "t5") := SessionRecord_new "root" 1700000001000 ]} (service_start example_accounts)).
Definition challenge_created : ServiceState := Eval vm_compute in state_of (create_session example_hour 2 "t6" 1700000601000 challenge_pending).

Lemma totp_challenge_ends_sessions_witness :
  live_sessions challenge_pending !! (AdminScope, "t5") = Some (SessionRecord_new "root" 1700000001000)
  /\ live_sessions challenge_created !! (AdminScope, "t5") = None.
Proof.
  split; [vm_compute; reflexivity|].
  apply (totp_challenge_ends_sessions example_hour challenge_pending 2 (SessionRecord_proxy "app.example" "ada" 1700000601000) "t6" 1700000601000
           challenge_created (AdminScope, "t5") (SessionRecord_new "root" 1700000001000));
    [vm_compute; reflexivity..|discriminate].
Defined.

End ExampleSignIn.
