(* ===== verification/Oidc.v ===== *)
(** * The OpenID Connect authentication of the proxies

    [proxy/http/auth/oidc.rs]: the endpoints of the sign-in at a provider, the check of its ID token,
    and the check of a request, whose sessions are those of the service of [ProxySession].  JSON,
    Base64, signatures and URLs are an interface; the answers of the provider and random texts are
    arguments.  The page of a denied account is left out. *)

From Stdlib Require Import Ascii.
From S2P Require Import Prelude Basics IpText Net Policy Router Headers Cookies Quarantine Login Accounts SignIn OAuth ProxySession.

Definition OIDC_COOKIE : string := "r3v3rs3_oidc".
Definition STATE_COOKIE : string := "r3v3rs3_oidc_state".

(** A parsed URL: its scheme, its host, and its port or the known port of the scheme. *)
Record OriginUrl : Type := mkOriginUrl { origin_scheme : string; origin_host : option string; origin_port : option Z }.

Class OidcOps : Type := {
  Json : Type;
  parse_json : string -> option Json;
  json_get : Json -> string -> option Json;
  json_str : Json -> option string;
  json_i64 : Json -> option Z;
  json_array : Json -> option (list Json);
  b64_url_no_pad : string -> option string;
  b64_standard : string -> option string;
  hmac_sha256_ok : string -> string -> string -> bool;
  rsa_sha256_ok : string -> string -> string -> bool;
  form_serialize : list (string * string) -> string;
  origin_parse : string -> option OriginUrl;
}.

(** The requests to the provider; [execute_request] gives their JSON answer or an error. *)
Inductive Fetch : Type :=
| FetchToken (url body : string)
| FetchUser (url access_token : string)
| FetchKeys (url : string).

Inductive OidcAction : Type := OLogin | OCallback | OLogout | OMethodNotAllowed (allow : string).

Definition oidc_action (segments : list string) (m : string) : option OidcAction :=
  match segments with
  | first :: second :: third :: rest =>
      if negb (String.eqb first ENDPOINT_FIRST && String.eqb second ENDPOINT_SECOND) then None
      else
        let target := match rest with fourth :: _ => if String.eqb third "oidc" then fourth else third | [] => third end in
        if String.eqb target "login" then if is_read m then Some OLogin else Some (OMethodNotAllowed "GET, HEAD")
        else if String.eqb target "callback" then if is_read m then Some OCallback else Some (OMethodNotAllowed "GET, HEAD")
        else if String.eqb target "logout" then if String.eqb m "POST" then Some OLogout else Some (OMethodNotAllowed "POST")
        else None
  | _ => None
  end.

(** ** The endpoints of the provider *)

Definition trim_slashes (s : string) : string := trim_end_char "/" s.

(** The endpoint of the configuration, or the one of the issuer: [google], [github], or a path below it. *)
Definition issuer_endpoint (configured : string) (issuer google github path : string) : string :=
  if negb (str_is_empty configured) then configured
  else
    let issuer := trim_slashes issuer in
    if str_contains "accounts.google.com" issuer then google
    else if str_contains "github.com" issuer then github
    else issuer +:+ path.

Definition resolve_auth_endpoint (c : OidcAuth) : string :=
  issuer_endpoint (authorization_url c) (issuer_url c) "https://accounts.google.com/o/oauth2/v2/auth"
    "https://github.com/login/oauth/authorize" "/protocol/openid-connect/auth".

Definition resolve_token_endpoint (c : OidcAuth) : string :=
  issuer_endpoint (token_url c) (issuer_url c) "https://oauth2.googleapis.com/token"
    "https://github.com/login/oauth/access_token" "/protocol/openid-connect/token".

Definition resolve_userinfo_endpoint (c : OidcAuth) : string :=
  if negb (str_is_empty (userinfo_url c)) then userinfo_url c
  else
    let issuer := trim_slashes (issuer_url c) in
    if str_contains "accounts.google.com" issuer then "https://openidconnect.googleapis.com/v1/userinfo"
    else if str_contains "github.com" issuer then "https://api.github.com/user"
    else if negb (str_is_empty issuer) then issuer +:+ "/protocol/openid-connect/userinfo"
    else "".

Definition resolve_jwks_endpoint (c : OidcAuth) : string :=
  let issuer := trim_slashes (issuer_url c) in
  if str_contains "accounts.google.com" issuer then "https://www.googleapis.com/oauth2/v3/certs"
  else if negb (str_is_empty issuer) then issuer +:+ "/.well-known/jwks.json"
  else "".

(** ** The host of the callback *)

Section Hosts.
Context `{RX : RegexOps}.

Definition is_loopback_name (v : VirtualHost) : bool :=
  match v with
  | VSubjectName (DnsName n) => is_loopback_host n
  | VSubjectName (IPAddress ip) => is_loopback ip
  | _ => false
  end.

Definition is_host_allowed (host : string) (vhosts : list VirtualHost) : bool :=
  let host_only := match split_on ":" host with x :: _ => x | [] => host end in
  match vhosts with
  | [] => is_loopback_host host_only
  | _ => existsb (fun v => VirtualHost_test v host_only || VirtualHost_test v host) vhosts
         || existsb is_loopback_name vhosts && is_loopback_host host_only
  end.

Definition resolve_callback_host (host : option string) (vhosts : list VirtualHost) : string :=
  let raw_host := unwrap_or host "localhost" in
  if is_host_allowed raw_host vhosts then raw_host
  else match vhosts with
       | VSubjectName (WildcardDnsName name) :: _ => name
       | v :: _ => VirtualHost_to_string v
       | [] => "localhost"
       end.

Definition callback_uri (ctx : AuthContext) (vhosts : list VirtualHost) : string :=
  ctx_proto ctx +:+ "://" +:+ resolve_callback_host (ctx_host ctx) vhosts +:+ ctx_base_path ctx +:+ "/" +:+ ENDPOINT_FIRST
  +:+ "/" +:+ ENDPOINT_SECOND +:+ "/oidc/callback".
End Hosts.

(** ** ID tokens *)

Section Tokens.
Context `{OPS : OidcOps}.

Definition b64_decode (input : string) : option string :=
  match b64_url_no_pad input with Some s => Some s | None => b64_standard input end.

Definition claim_str (j : Json) (name : string) : option string :=
  match json_get j name with Some v => json_str v | None => None end.

Definition extract_user_from_json (j : Json) : option string :=
  find (fun s => negb (str_is_empty s)) (omap (claim_str j) ["email"; "preferred_username"; "login"; "sub"]).

Definition parse_jwt_parts (jwt : string) : result (string * string * string) string :=
  match split_on "." jwt with
  | [h; p; s] => Ok (h, p, s)
  | [] => Err "missing header"
  | [_] => Err "missing payload"
  | [_; _] => Err "missing signature"
  | _ => Err "too many JWT segments"
  end.

Definition parse_part (part what : string) : result Json string :=
  match b64_decode part with
  | None => Err ("invalid base64 " +:+ what)
  | Some bytes => match parse_json bytes with Some j => Ok j | None => Err ("invalid " +:+ what +:+ " json") end
  end.

Definition wrap_i64 (z : Z) : Z := (z + 2 ^ 63) mod 2 ^ 64 - 2 ^ 63.

Definition validate_exp (payload : Json) (unix_ms : Z) : result unit string :=
  match (match json_get payload "exp" with Some v => json_i64 v | None => None end) with
  | Some exp => if wrap_i64 (exp + 60) <? unix_ms / 1000 then Err "ID token has expired" else Ok tt
  | None => Ok tt
  end.

Definition validate_iss (payload : Json) (c : OidcAuth) : result unit string :=
  if str_is_empty (issuer_url c) then Ok tt
  else match claim_str payload "iss" with
       | None => Err "missing iss claim in ID token"
       | Some iss => if String.eqb (trim_slashes iss) (trim_slashes (issuer_url c)) then Ok tt else Err "ID token issuer mismatch"
       end.

Definition names_client (aud : Json) (client : string) : bool :=
  match json_str aud with
  | Some s => String.eqb s client
  | None => match json_array aud with
            | Some l => existsb (fun v => bool_decide (json_str v = Some client)) l
            | None => false
            end
  end.

Definition validate_aud (payload : Json) (c : OidcAuth) : result unit string :=
  if str_is_empty (client_id c) then Ok tt
  else match json_get payload "aud" with
       | None => Err "missing aud claim in ID token"
       | Some aud => if names_client aud (client_id c) then Ok tt else Err "ID token audience mismatch"
       end.

Definition validate_jwt_claims (payload : Json) (c : OidcAuth) (unix_ms : Z) : result string string :=
  match validate_exp payload unix_ms with
  | Err e => Err e
  | Ok _ =>
      match validate_iss payload c with
      | Err e => Err e
      | Ok _ =>
          match validate_aud payload c with
          | Err e => Err e
          | Ok _ => match extract_user_from_json payload with Some u => Ok u | None => Err "no user identity in ID token" end
          end
      end
  end.

(** The DER form of an RSA public key. *)
Definition der_length (len : Z) : list Z :=
  if len <? 128 then [len] else if len <? 256 then [129; len] else [130; (len / 256) mod 256; len mod 256].

Definition encode_asn1_int (bytes : list Z) : list Z :=
  let pad := match bytes with b :: _ => negb (Z.land b 128 =? 0) | [] => false end in
  2 :: der_length (Z.of_nat (length bytes) + if pad then 1 else 0) ++ (if pad then [0] else []) ++ bytes.

Definition rsa_pkcs1_der_from_jwk_n_e (n e : list Z) : list Z :=
  let s := encode_asn1_int n ++ encode_asn1_int e in 48 :: der_length (Z.of_nat (length s)) ++ s.

Definition of_bytes (l : list Z) : string := String.string_of_list_ascii (map (fun z => ascii_of_N (Z.to_N z)) l).

Definition verify_rs256_jwk (message sig : string) (jwk : Json) : bool :=
  match claim_str jwk "n", claim_str jwk "e" with
  | Some n64, Some e64 =>
      match b64_decode n64, b64_decode e64 with
      | Some n, Some e => rsa_sha256_ok (of_bytes (rsa_pkcs1_der_from_jwk_n_e (as_bytes n) (as_bytes e))) message sig
      | _, _ => false
      end
  | _, _ => false
  end.

Context (fetch : Fetch -> result Json string) (cfg : OidcAuth).

Definition fetch_jwks : result Json string :=
  let endpoint := resolve_jwks_endpoint cfg in
  if str_is_empty endpoint then Err "no JWKS endpoint configured" else fetch (FetchKeys endpoint).

Definition verify_hs256_signature (message sig : string) : result unit string :=
  if str_is_empty (client_secret cfg) then Err "client_secret required for HS256 verification"
  else if hmac_sha256_ok (client_secret cfg) message sig then Ok tt else Err "invalid HS256 signature".

Definition key_verifies (kid : option string) (message sig : string) (k : Json) : bool :=
  if is_some_and (fun expected => negb (bool_decide (claim_str k "kid" = Some expected))) kid then false
  else verify_rs256_jwk message sig k.

Definition verify_rs256_signature (kid : option string) (message sig : string) : result unit string :=
  match fetch_jwks with
  | Err e => Err e
  | Ok jwks =>
      match (match json_get jwks "keys" with Some v => json_array v | None => None end) with
      | None => Err "invalid JWKS keys array"
      | Some keys => if existsb (key_verifies kid message sig) keys then Ok tt else Err "invalid RS256 signature"
      end
  end.

Definition verify_jwt_signature (alg : string) (kid : option string) (message sig : string) : result unit string :=
  if String.eqb alg "none" then Err "algorithm 'none' is forbidden for ID tokens"
  else if String.eqb alg "HS256" then verify_hs256_signature message sig
  else if String.eqb alg "RS256" then verify_rs256_signature kid message sig
  else Err ("unsupported ID token algorithm: " +:+ alg).

Definition verify_and_decode_id_token (jwt : string) (unix_ms : Z) : result string string :=
  match parse_jwt_parts jwt with
  | Err e => Err e
  | Ok (h, p, s) =>
      match parse_part h "header" with
      | Err e => Err e
      | Ok header =>
          match claim_str header "alg" with
          | None => Err "missing alg in header"
          | Some alg =>
              match b64_decode s with
              | None => Err "invalid base64 signature"
              | Some sig =>
                  match verify_jwt_signature alg (claim_str header "kid") (h +:+ "." +:+ p) sig with
                  | Err e => Err e
                  | Ok _ =>
                      match parse_part p "payload" with
                      | Err e => Err e
                      | Ok payload => validate_jwt_claims payload cfg unix_ms
                      end
                  end
              end
          end
      end
  end.

(** ** The user of a code *)

Definition fetch_userinfo (access_token : string) : result string string :=
  let endpoint := resolve_userinfo_endpoint cfg in
  if str_is_empty endpoint then Err "No userinfo endpoint available"
  else match fetch (FetchUser endpoint access_token) with
       | Err e => Err e
       | Ok j => match extract_user_from_json j with Some u => Ok u | None => Err "Failed to extract user from userinfo" end
       end.

Definition exchange_code_for_user `{RX : RegexOps} (code : string) (ctx : AuthContext) (vhosts : list VirtualHost) (unix_ms : Z)
  : result string string :=
  let body := form_serialize [("grant_type", "authorization_code"); ("code", code); ("redirect_uri", callback_uri ctx vhosts);
                              ("client_id", client_id cfg); ("client_secret", client_secret cfg)] in
  match fetch (FetchToken (resolve_token_endpoint cfg) body) with
  | Err e => Err e
  | Ok j =>
      match claim_str j "id_token" with
      | Some id_token => verify_and_decode_id_token id_token unix_ms
      | None =>
          match claim_str j "access_token" with
          | Some access_token => fetch_userinfo access_token
          | None => match extract_user_from_json j with
                    | Some u => Ok u
                    | None => Err "No user identity found in OIDC token response"
                    end
          end
      end
  end.
End Tokens.

(** ** The endpoints *)

Section Handlers.
Context `{HDR : HeaderOps} `{HB : HeaderBytes} `{FORMS : FormCodec} `{OPS : OidcOps} `{RX : RegexOps}.
Context (to_lowercase : string -> string) (fetch : Fetch -> result Json string) (cfg : OidcAuth).

(** A header whose text is not a header value is left out. *)
Definition oidc_redirect (status : Z) (location : string) (cookies : list string) : Answer :=
  RedirectTo status (value_from_str location) (omap value_from_str cookies).

Definition build_authorization_url (ctx : AuthContext) (vhosts : list VirtualHost) (state : string) : string :=
  let endpoint := resolve_auth_endpoint cfg in
  let scope := match scopes cfg with [] => default_oidc_scopes | l => l end in
  let query := form_serialize [("response_type", "code"); ("client_id", client_id cfg); ("redirect_uri", callback_uri ctx vhosts);
                               ("scope", String.concat " " scope); ("state", state)] in
  endpoint +:+ (if str_contains_char endpoint "?" then "&" else "?") +:+ query.

(** [state] is random: 16 letters and digits. *)
Definition handle_login (r : ClientRequest) (ctx : AuthContext) (vhosts : list VirtualHost) (state : string) : Answer :=
  oidc_redirect 302 (build_authorization_url ctx vhosts state)
    [auth_cookie ctx STATE_COOKIE (state +:+ ":" +:+ query_redirect (client_query r)) 300].

Definition parse_callback_params (query : string) : option (string * string) :=
  let last name := hd_error (rev (map snd (List.filter (fun kv => String.eqb kv.1 name) (form_parse query)))) in
  match last "code", last "state" with
  | Some code, Some state => Some (code, state)
  | _, _ => None
  end.

Definition read_state_cookie (h : Headers) : option (string * string) :=
  match hd_error (cookie_values h STATE_COOKIE) with
  | Some v => split_once ":" v
  | None => None
  end.

Definition forbidden_page : Answer := TextAnswer 403 "Access Denied" None.

(** The first part of [handle_callback]: the host, the user and the target of the session to create. *)
Definition callback_user (r : ClientRequest) (ctx : AuthContext) (vhosts : list VirtualHost) (unix_ms : Z)
  : result (string * string * string) Answer :=
  match parse_callback_params (unwrap_or (client_query r) "") with
  | None => Err (TextAnswer 400 "Missing code or state parameter" None)
  | Some (code, state) =>
      match read_state_cookie (client_headers r) with
      | None => Err (TextAnswer 400 "Missing or expired authentication state" None)
      | Some (expected_state, target) =>
          if negb (String.eqb state expected_state) then Err (TextAnswer 400 "Invalid OIDC state" None)
          else match exchange_code_for_user fetch cfg code ctx vhosts unix_ms with
               | Err _ => Err (TextAnswer 502 "OIDC authentication failed" None)
               | Ok user => if negb (is_email_allowed to_lowercase user (allowed_emails cfg)) then Err forbidden_page
                            else Ok (unwrap_or (ctx_host ctx) "localhost", user, target)
               end
      end
  end.

(** The rest of it; without a token the creation of the session failed. *)
Definition create_session_and_redirect (session_expiry : Duration) (ctx : AuthContext) (target : string) (token : option string) : Answer :=
  match token with
  | None => TextAnswer 503 "Service Unavailable" None
  | Some token => oidc_redirect 303 (safe_redirect target)
                    [auth_cookie ctx OIDC_COOKIE token (as_secs (expiry session_expiry)); auth_cookie ctx STATE_COOKIE "" 0]
  end.

Definition oidc_token (h : Headers) : option string := hd_error (cookie_values h OIDC_COOKIE).

Definition remove_oidc_cookie (h : Headers) : Headers := remove_cookie (remove_cookie h OIDC_COOKIE) STATE_COOKIE.

Definition inject_user_headers (user : string) (h : Headers) : Headers :=
  match value_from_str user with
  | Some v => h_insert "x-forwarded-email" v (h_insert "x-forwarded-user" v h)
  | None => h
  end.

Definition oidc_sign_in_required (r : ClientRequest) (ctx : AuthContext) : Answer :=
  if negb (is_read (client_method r)) then TextAnswer 401 "Unauthorized" None
  else oidc_redirect 302 (ctx_base_path ctx +:+ "/" +:+ ENDPOINT_FIRST +:+ "/" +:+ ENDPOINT_SECOND +:+ "/oidc/login?redirect="
                          +:+ byte_serialize (unwrap_or (client_target r) "/")) [].

(** The check of a request of a route, which goes on with the headers of the user. *)
Definition oidc_authorize (session_expiry : Duration) (r : ClientRequest) (ctx : AuthContext) (unix : Z) (m : LocalSessions)
  : result ClientRequest Answer :=
  let user := match oidc_token (client_headers r) with
              | Some t => get_proxy_session session_expiry t (unwrap_or (ctx_host ctx) "") unix m
              | None => None
              end in
  match user with
  | None => Err (oidc_sign_in_required r ctx)
  | Some user =>
      if negb (is_email_allowed to_lowercase user (allowed_emails cfg)) then Err forbidden_page
      else Ok (set_client_headers (inject_user_headers user (remove_oidc_cookie (client_headers r))) r)
  end.

Definition matches_origin_host (origin : OriginUrl) (req_host : string) : bool :=
  match origin_host origin with
  | None => false
  | Some host =>
      let '(req_hostname, req_port) := match split_once ":" req_host with
                                       | Some (h, p) => (h, parse_uint u16_max p)
                                       | None => (req_host, None)
                                       end in
      if negb (eq_ignore_ascii_case host req_hostname) then false
      else
        let expected_port := match req_port with
                             | Some p => Some p
                             | None => if String.eqb (origin_scheme origin) "https" then Some 443
                                       else if String.eqb (origin_scheme origin) "http" then Some 80 else None
                             end in
        bool_decide (origin_port origin = expected_port)
  end.

Definition text_header (h : Headers) (name : string) : option string := match h_get h name with Some v => to_str v | None => None end.

Definition oidc_verify_origin (h : Headers) (ctx : AuthContext) : bool :=
  let rest :=
    match (match h_get h "origin" with Some v => to_str v | None => text_header h "referer" end) with
    | None => true
    | Some origin =>
        match origin_parse origin with
        | None => false
        | Some url => matches_origin_host url (unwrap_or (match ctx_host ctx with Some x => Some x | None => text_header h "host" end) "")
        end
    end in
  match text_header h "sec-fetch-site" with
  | Some site =>
      if eq_ignore_ascii_case site "cross-site" || eq_ignore_ascii_case site "same-site" then false
      else if eq_ignore_ascii_case site "same-origin" || eq_ignore_ascii_case site "none" then true else rest
  | None => rest
  end.

Definition handle_logout (r : ClientRequest) (ctx : AuthContext) (m : LocalSessions) : Answer * LocalSessions :=
  if negb (oidc_verify_origin (client_headers r) ctx) then (TextAnswer 403 "Cross-origin request rejected" None, m)
  else
    (oidc_redirect 302 (if str_is_empty (ctx_base_path ctx) then "/" else ctx_base_path ctx) [auth_cookie ctx OIDC_COOKIE "" 0],
     match oidc_token (client_headers r) with Some t => sessions_remove ProxyScope t m | None => m end).
End Handlers.

(** ** What is accepted *)

Section TokenFacts.
Context `{OPS : OidcOps} (fetch : Fetch -> result Json string) (cfg : OidcAuth).

(** The signature of a message by the secret of the client, or by a key of the provider. *)
Definition signed_by_provider (alg : string) (kid : option string) (message sig : string) : Prop :=
  (alg = "HS256" /\ client_secret cfg <> "" /\ hmac_sha256_ok (client_secret cfg) message sig = true)
  \/ (alg = "RS256" /\ resolve_jwks_endpoint cfg <> "" /\ exists jwks v keys k,
        fetch (FetchKeys (resolve_jwks_endpoint cfg)) = Ok jwks /\ json_get jwks "keys" = Some v /\ json_array v = Some keys
        /\ k ∈ keys /\ (forall want, kid = Some want -> claim_str k "kid" = Some want) /\ verify_rs256_jwk message sig k = true).

(** The claims of an ID token of the client, its user, and its end with a minute of tolerance. *)
Definition claims_accepted (payload : Json) (unix_ms : Z) (user : string) : Prop :=
  (forall v exp, json_get payload "exp" = Some v -> json_i64 v = Some exp -> unix_ms / 1000 <= wrap_i64 (exp + 60))
  /\ (issuer_url cfg = "" \/ exists iss, claim_str payload "iss" = Some iss /\ trim_slashes iss = trim_slashes (issuer_url cfg))
  /\ (client_id cfg = "" \/ exists aud, json_get payload "aud" = Some aud /\ names_client aud (client_id cfg) = true)
  /\ extract_user_from_json payload = Some user.

Lemma str_is_empty_spec s : str_is_empty s = true <-> s = "".
Proof. by destruct s. Qed.

Lemma key_verifies_spec kid message sig k :
  key_verifies kid message sig k = true <->
  (forall want, kid = Some want -> claim_str k "kid" = Some want) /\ verify_rs256_jwk message sig k = true.
Proof.
  unfold key_verifies. destruct kid as [want|]; cbn [is_some_and]; [|by split; [|intros []]].
  destruct (decide (claim_str k "kid" = Some want)) as [E|E].
  - rewrite bool_decide_true by done. cbn [negb]. split; [intros H; split; [by intros ? [= <-]|done]|by intros []].
  - rewrite bool_decide_false by done. cbn [negb]. split; [done|]. intros [H _]. by destruct (E (H want eq_refl)).
Qed.

Lemma verify_signature_spec alg kid message sig :
  verify_jwt_signature fetch cfg alg kid message sig = Ok tt <-> signed_by_provider alg kid message sig.
Proof.
  unfold verify_jwt_signature, signed_by_provider. destruct (String.eqb_spec alg "none") as [->|Hn]; [split; [done|by intros [[[=] _]|[[=] _]]]|].
  destruct (String.eqb_spec alg "HS256") as [->|H1].
  - unfold verify_hs256_signature. destruct (str_is_empty (client_secret cfg)) eqn:Es.
    + apply str_is_empty_spec in Es. split; [done|]. intros [(_ & H & _)|[[=] _]]. by rewrite Es in H.
    + destruct (hmac_sha256_ok _ _ _); split; try done.
      * intros _. left. split; [done|]. split; [|done]. intros E. by rewrite E in Es.
      * by intros [(_ & _ & H)|[[=] _]].
  - destruct (String.eqb_spec alg "RS256") as [->|H2]; [|split; [done|by intros [[-> _]|[-> _]]]].
    unfold verify_rs256_signature, fetch_jwks. cbn zeta. destruct (str_is_empty (resolve_jwks_endpoint cfg)) eqn:Ee.
    { apply str_is_empty_spec in Ee. split; [done|]. by intros [[[=] _]|(_ & H & _)]. }
    assert (Hne : resolve_jwks_endpoint cfg <> "") by (intros E; by rewrite E in Ee).
    split.
    + destruct (fetch _) as [jwks|e]; [|done]. destruct (json_get jwks "keys") as [v|] eqn:Ev; [|done].
      destruct (json_array v) as [keys|] eqn:Ea; [|done]. destruct (existsb _ keys) eqn:Ex; [|done]. intros _.
      apply existsb_exists in Ex as (k & Hk & Hok). apply key_verifies_spec in Hok as [Hkid Hok].
      right. split; [done|]. split; [done|]. exists jwks, v, keys, k. apply list_elem_of_In in Hk. auto 10.
    + intros [[[=] _]|(_ & _ & jwks & v & keys & k & -> & -> & -> & Hk & Hok)].
      apply key_verifies_spec in Hok. apply list_elem_of_In in Hk. by rewrite (proj2 (existsb_exists _ _) (ex_intro _ k (conj Hk Hok))).
Qed.

Lemma claims_spec payload unix_ms user :
  validate_jwt_claims payload cfg unix_ms = Ok user <-> claims_accepted payload unix_ms user.
Proof.
  unfold validate_jwt_claims, claims_accepted.
  assert (Hexp : validate_exp payload unix_ms = Ok tt <-> forall v exp, json_get payload "exp" = Some v -> json_i64 v = Some exp -> unix_ms / 1000 <= wrap_i64 (exp + 60)).
  { unfold validate_exp. destruct (json_get payload "exp") as [v|]; [|by split]. destruct (json_i64 v) as [exp|] eqn:Ej.
    - destruct (Z.ltb_spec (wrap_i64 (exp + 60)) (unix_ms / 1000)) as [H|H]; split; try done.
      + intros Hc. specialize (Hc v exp eq_refl Ej). lia.
      + intros _ v' exp' [= <-] E. by replace exp' with exp by congruence.
    - split; [|done]. intros _ v' exp' [= <-]. congruence. }
  assert (Hiss : validate_iss payload cfg = Ok tt <-> (issuer_url cfg = "" \/ exists iss, claim_str payload "iss" = Some iss /\ trim_slashes iss = trim_slashes (issuer_url cfg))).
  { unfold validate_iss. destruct (str_is_empty (issuer_url cfg)) eqn:Es; [apply str_is_empty_spec in Es; by split; [left|]|].
    assert (Hne : issuer_url cfg <> "") by (intros E; by rewrite E in Es).
    destruct (claim_str payload "iss") as [iss|]; [|split; [done|intros [?|(? & [=] & _)]; done]].
    destruct (String.eqb_spec (trim_slashes iss) (trim_slashes (issuer_url cfg))) as [E|E]; split; try done.
    - intros _. right. by exists iss.
    - intros [?|(? & [= <-] & ?)]; done. }
  assert (Haud : validate_aud payload cfg = Ok tt <-> (client_id cfg = "" \/ exists aud, json_get payload "aud" = Some aud /\ names_client aud (client_id cfg) = true)).
  { unfold validate_aud. destruct (str_is_empty (client_id cfg)) eqn:Es; [apply str_is_empty_spec in Es; by split; [left|]|].
    assert (Hne : client_id cfg <> "") by (intros E; by rewrite E in Es).
    destruct (json_get payload "aud") as [aud|]; [|split; [done|intros [?|(? & [=] & _)]; done]].
    destruct (names_client aud (client_id cfg)) eqn:E; split; try done.
    - intros _. right. by exists aud.
    - intros [?|(? & [= <-] & ?)]; congruence. }
  rewrite <- Hexp, <- Hiss, <- Haud.
  destruct (validate_exp payload unix_ms) as [[]|e]; [|split; [done|by intros (? & _)]].
  destruct (validate_iss payload cfg) as [[]|e]; [|split; [done|by intros (_ & ? & _)]].
  destruct (validate_aud payload cfg) as [[]|e]; [|split; [done|by intros (_ & _ & ? & _)]].
  destruct (extract_user_from_json payload); split; [by intros [= ->]|by intros (_ & _ & _ & [= ->])|done|by intros (_ & _ & _ & ?)].
Qed.

(** An ID token is accepted, as the user that it names, exactly when it has three parts, its
    algorithm is HS256 with the secret of the client or RS256 with a key of the provider (of its key id,
    if it names one), its signature over the first two parts is good, and its payload has not expired,
    is of the issuer, and is for the client.  In particular [none] and every other algorithm is
    refused. *)
Theorem id_token_accepted_exactly jwt unix_ms user :
  verify_and_decode_id_token fetch cfg jwt unix_ms = Ok user <->
  exists h p s header alg sig payload,
    split_on "." jwt = [h; p; s] /\ parse_part h "header" = Ok header /\ claim_str header "alg" = Some alg /\ b64_decode s = Some sig
    /\ signed_by_provider alg (claim_str header "kid") (h +:+ "." +:+ p) sig
    /\ parse_part p "payload" = Ok payload /\ claims_accepted payload unix_ms user.
Proof.
  unfold verify_and_decode_id_token, parse_jwt_parts. split.
  - destruct (split_on "." jwt) as [|h [|p [|s [|x l]]]]; try done. destruct (parse_part h "header") as [header|e] eqn:Eh; [|done].
    destruct (claim_str header "alg") as [alg|] eqn:Ea; [|done]. destruct (b64_decode s) as [sig|] eqn:Es; [|done].
    destruct (verify_jwt_signature _ _ _ _ _ _) as [[]|e] eqn:Ev; [|done]. apply verify_signature_spec in Ev.
    destruct (parse_part p "payload") as [payload|e] eqn:Ep; [|done]. intros Hc. apply claims_spec in Hc.
    exists h, p, s, header, alg, sig, payload. auto 10.
  - intros (h & p & s & header & alg & sig & payload & -> & -> & -> & -> & Hsig & Hp & Hc).
    apply verify_signature_spec in Hsig. rewrite Hsig, Hp. by apply claims_spec.
Qed.

End TokenFacts.

(** ** The user of a request *)

Section RequestFacts.
Context `{HDR : HeaderOps} {LAWS : HeaderLaws HDR} `{HB : HeaderBytes} `{FORMS : FormCodec} `{OPS : OidcOps} `{CRYPTO : AuthCrypto}.
Context (to_lowercase : string -> string) (cfg : OidcAuth) (admin : AdminConfig) (session_expiry : Duration).


(** A user whose name is not a header value keeps the identity headers that the client sent. *)
Theorem identity_header_spoofable r ctx unix m token user claimed :
  oidc_token (client_headers r) = Some token -> get_proxy_session session_expiry token (unwrap_or (ctx_host ctx) "") unix m = Some user ->
  is_email_allowed to_lowercase user (allowed_emails cfg) = true -> value_from_str user = None ->
  h_get_all (remove_oidc_cookie (client_headers r)) "x-forwarded-user" = [claimed] ->
  exists r', oidc_authorize to_lowercase cfg session_expiry r ctx unix m = Ok r' /\ h_get_all (client_headers r') "x-forwarded-user" = [claimed].
Proof.
  intros Ht Hs Ha Hv Hc. unfold oidc_authorize. rewrite Ht, Hs, Ha. cbn [negb]. eexists. split; [reflexivity|].
  unfold inject_user_headers. by rewrite Hv.
Qed.

End RequestFacts.

(** ** The state cookie *)

(** The characters of a redirect target that a cookie keeps. *)
Definition cookie_char (c : ascii) : bool := is_ascii_graphic c && negb (Ascii.eqb c ";").

Lemma cookie_char_facts c : cookie_char c = true -> negb (is_blank c) && negb (Ascii.eqb c ";") && (byte_of c <? 128) = true.
Proof.
  pose proof (ascii_cases (fun c => implb (cookie_char c) (negb (is_blank c) && negb (Ascii.eqb c ";") && (byte_of c <? 128)))
    eq_refl c) as H. cbn beta in H. intros E. by rewrite E in H.
Qed.

Section StateCookie.
Context `{HDR : HeaderOps}.

(** A cookie that is alone in its header, with no blank and no semicolon. *)
Lemma cookie_values_alone h name v :
  h_get_all h "cookie" = [name +:+ String "=" v] -> str_forallb cookie_char (name +:+ String "=" v) = true -> char_free "=" name = true ->
  cookie_values h name = [v].
Proof.
  intros Hh Hc Hn. unfold cookie_values, cookie_pairs. rewrite Hh. cbn [flat_map]. rewrite app_nil_r.
  unfold split_on. rewrite split_by_none by (apply (str_forallb_weaken cookie_char); [|done]; intros c H; by apply cookie_char_facts, andb_prop in H as [[_ H]%andb_prop _]).
  cbn [omap list_omap]. unfold split_cookie_pair.
  rewrite trim_ascii_clean by (apply (str_forallb_weaken cookie_char); [|done]; intros c H; by apply cookie_char_facts, andb_prop in H as [[H _]%andb_prop _]).
  rewrite split_once_join by done. cbn [List.filter fst]. rewrite String.eqb_refl. cbn [map snd List.filter].
  rewrite utf8_ascii; [done|]. rewrite str_forallb_append in Hc. apply andb_prop in Hc as [_ Hc]. cbn [str_forallb] in Hc. apply andb_prop in Hc as [_ Hc].
  apply (str_forallb_weaken cookie_char); [|done]. intros c H. by apply cookie_char_facts, andb_prop in H as [_ H].
Qed.

(** The state of a sign-in and the page that it goes back to survive the round trip through the
    browser: the cookie that starts the sign-in, sent back, is read as the same state and the same
    target, for every target without a semicolon. *)
Theorem state_cookie_roundtrip h state target t :
  str_forallb is_ascii_alphanumeric state = true -> safe_redirect target = t -> char_free ";" t = true ->
  h_get_all h "cookie" = [STATE_COOKIE +:+ "=" +:+ state +:+ ":" +:+ t] -> read_state_cookie h = Some (state, t).
Proof.
  intros Hs Ht Hf Hh. apply safe_redirect_local in Ht as (_ & _ & _ & _ & Hg & _).
  assert (Hv : str_forallb cookie_char (state +:+ ":" +:+ t) = true).
  { rewrite !str_forallb_append. cbn [str_forallb]. apply andb_true_iff. split; [|apply andb_true_iff; split; [reflexivity|]].
    - apply (str_forallb_weaken is_ascii_alphanumeric); [|done]. intros c.
      pose proof (ascii_cases (fun c => implb (is_ascii_alphanumeric c) (cookie_char c)) eq_refl c) as H. cbn beta in H. intros E. by rewrite E in H.
    - clear -Hg Hf. unfold char_free in Hf. induction t as [|c t IH]; [done|]. cbn [str_forallb] in *.
      apply andb_prop in Hg as [Hg1 Hg2]. apply andb_prop in Hf as [Hf1 Hf2]. unfold cookie_char at 1. by rewrite Hg1, Hf1, IH. }
  unfold read_state_cookie. rewrite (cookie_values_alone h STATE_COOKIE (state +:+ ":" +:+ t)).
  - cbn [hd_error]. apply split_once_join. unfold char_free. apply (str_forallb_weaken is_ascii_alphanumeric); [|done]. intros c.
    pose proof (ascii_cases (fun c => implb (is_ascii_alphanumeric c) (negb (Ascii.eqb c ":"))) eq_refl c) as H. cbn beta in H. intros E. by rewrite E in H.
  - exact Hh.
  - rewrite str_forallb_append. cbn [str_forallb]. apply andb_true_iff. split; [reflexivity|]. by rewrite Hv.
  - reflexivity.
Qed.

End StateCookie.

(** ** Examples *)

Section OidcExamples.
#[local] Existing Instances plain_header_ops plain_bytes plain_forms plain_crypto plain_regex.

(** The objects of the examples are lists of texts by name; a text is the object of the empty name. *)
Definition plain_oidc : OidcOps := {|
  Json := list (string * string);
  parse_json s := Some (omap (split_once "=") (split_on "," s));
  json_get j name := option_map (fun kv => [("", snd kv)]) (find (fun kv => String.eqb (fst kv) name) j);
  json_str j := option_map snd (find (fun kv => String.eqb (fst kv) "") j);
  json_i64 j := match find (fun kv => String.eqb (fst kv) "") j with Some kv => parse_uint i64_max (snd kv) | None => None end;
  json_array j := None;
  b64_url_no_pad s := Some s;
  b64_standard s := None;
  hmac_sha256_ok secret message sig := String.eqb sig (secret +:+ String.substring 0 1 message);
  rsa_sha256_ok der message sig := false;
  form_serialize l := String.concat "&" (map (fun kv => fst kv +:+ "=" +:+ snd kv) l);
  origin_parse s := None;
|}.
#[local] Existing Instance plain_oidc.

Definition example_oidc : OidcAuth := mkOidcAuth "https://id.example" "" "" "" "app" "s3" true [] ["*@example.com"].
Definition no_answer (f : Fetch) : result Json string := Err "no answer".

Lemma id_token_accepted_exactly_example :
  verify_and_decode_id_token no_answer example_oidc "alg=HS256.iss=https://id/,aud=app.s3a" 1000 = Err "ID token issuer mismatch"
  /\ verify_and_decode_id_token no_answer (mkOidcAuth "id" "" "" "" "app" "s3" true [] []) "alg=HS256.iss=id/,aud=app,exp=900,email=a@b.s3a" 900000 = Ok "a@b"
  /\ verify_and_decode_id_token no_answer example_oidc "alg=none.iss=id,aud=app.s3a" 1000 = Err "algorithm 'none' is forbidden for ID tokens".
Proof. vm_compute. auto. Qed.

Lemma state_cookie_roundtrip_witness :
  read_state_cookie (HDR := plain_header_ops) [("cookie", "r3v3rs3_oidc_state=Ab12:/inbox?x=1")] = Some ("Ab12", "/inbox?x=1").
Proof.
  apply (state_cookie_roundtrip (HDR := plain_header_ops) _ "Ab12" "/inbox?x=1"); vm_compute; reflexivity.
Defined.

(** A semicolon in the redirect target ends the value of the cookie: what follows it becomes its
    attributes, before the ones of the code. *)
Lemma redirect_target_sets_cookie_attributes :
  match handle_login example_oidc (mkClientRequest _ "GET" None (Some "redirect=/;Domain=example.com;x") []) example_ctx [] "Ab12" with
  | RedirectTo _ _ [c] => take 2 (split_on ";" c) = ["r3v3rs3_oidc_state=Ab12:/"; "Domain=example.com"]
  | _ => False
  end.
Proof. vm_compute. reflexivity. Qed.

Definition example_oidc_state : ServiceState :=
  log_identity "t1" "ada@example.com"
    (set_live (create_proxy_session example_hour "app.example" "ada@example.com" "t1" 1700000001000 1700000001000 (live_sessions (service_start example_accounts)))
       (service_start example_accounts)).

Definition example_oidc_request : ClientRequest :=
  mkClientRequest _ "GET" (Some "/") None [("cookie", "r3v3rs3_oidc=t1"); ("x-forwarded-user", "root")].


End OidcExamples.
