(* ===== verification/ProxyAuth.v ===== *)
(** * The authentication of the requests of a route

    [proxy/http/auth/{mod,basic,bearer,forward}.rs]: passwords of the configuration and of a user file
    with a cache of verified credentials and a limit of failures for each client, tokens, and the
    question to an external service; and the choice between them, [ProxySession] and [Oidc].  Argon2,
    SHA-256 and Base64 are an interface; the user file and the answers of the service are arguments.
    The wait for a hash is a break between two parts of a check. *)

From Stdlib Require Import Ascii.
From S2P Require Import Prelude Basics IpText Net Policy Headers Cookies ProxyErrors Quarantine Login Accounts SignIn ProxySession Oidc.

Class SecretOps : Type := {
  argon2_hash_ok : string -> bool;
  argon2_verify : string -> string -> bool;
  sha256 : string -> string;
  hex_32_bytes : string -> option string;
  base64_text : string -> option string;
}.

(** ** Passwords *)

Inductive StoredPassword : Type := Argon2 (hash : string) | Plain (text : string).

Record ClientAttempts : Type := mkClientAttempts { client_failures : Z; client_window : Instant; client_blocked : option Instant }.

Record FileUsers : Type := mkFileUsers { last_modified : option Z; file_users : gmap string StoredPassword }.

Record BasicAuthenticator : Type := mkBasicAuthenticator {
  config_users : gmap string StoredPassword;
  has_user_file : bool;
  user_file_state : FileUsers;
  basic_challenge : string;
  verified : gset string;
  basic_attempts : gmap IpAddr ClientAttempts;
}.

Definition set_file_users (f : FileUsers) (v : gset string) (b : BasicAuthenticator) : BasicAuthenticator :=
  mkBasicAuthenticator (config_users b) (has_user_file b) f (basic_challenge b) v (basic_attempts b).
Definition set_verified (v : gset string) (b : BasicAuthenticator) : BasicAuthenticator :=
  mkBasicAuthenticator (config_users b) (has_user_file b) (user_file_state b) (basic_challenge b) v (basic_attempts b).
Definition set_attempts (a : gmap IpAddr ClientAttempts) (b : BasicAuthenticator) : BasicAuthenticator :=
  mkBasicAuthenticator (config_users b) (has_user_file b) (user_file_state b) (basic_challenge b) (verified b) a.

Definition MAX_VERIFIED_CREDENTIALS : Z := 1024.
Definition MAX_BASIC_ATTEMPTS : Z := 10.
Definition BASIC_ATTEMPTS_RESET : Duration := from_secs 60.

Definition parse_user_line (line : string) : option (string * StoredPassword) :=
  let line := trim line in
  if str_is_empty line || starts_with "#" line then None
  else match split_once ":" line with
       | None => None
       | Some (user, secret) =>
           let user := trim user in
           let secret := trim secret in
           if str_is_empty user || str_is_empty secret then None
           else Some (user, if starts_with "$argon2" secret then Argon2 secret else Plain (unwrap_or (strip_prefix "{PLAIN}" secret) secret))
       end.

(** The lines of the file; the empty ones, and a return at the end of a line, do not matter to
    [parse_user_line].  The last line of a name counts. *)
Definition parse_user_file (content : string) : gmap string StoredPassword :=
  fold_left (fun m kv => <[ kv.1 := kv.2 ]> m) (omap parse_user_line (split_on (ascii_of_nat 10) content)) ∅.

(** Control characters are left out, and quotes and backslashes are escaped. *)
Fixpoint quoted_realm (s : string) : string :=
  match s with
  | EmptyString => EmptyString
  | String a r =>
      if (byte_of a <? 32) || (byte_of a =? 127) then quoted_realm r
      else match r with
           | String b r2 =>
               if (byte_of a =? 194) && (128 <=? byte_of b) && (byte_of b <=? 159) then quoted_realm r2
               else if Ascii.eqb a (ascii_of_nat 34) || Ascii.eqb a "\" then String "\" (String a (quoted_realm r)) else String a (quoted_realm r)
           | EmptyString => if Ascii.eqb a (ascii_of_nat 34) || Ascii.eqb a "\" then String "\" (String a "") else String a ""
           end
  end.

Definition quote : string := String (ascii_of_nat 34) "".

Section Basic.
Context `{HDR : HeaderOps} `{HB : HeaderBytes} `{OPS : SecretOps}.

Definition challenge (realm : string) : string :=
  let realm := quoted_realm (if str_is_empty realm then "r3v3rs3" else realm) in
  let text r := "Basic realm=" +:+ quote +:+ r +:+ quote +:+ ", charset=" +:+ quote +:+ "UTF-8" +:+ quote in
  unwrap_or (value_from_bytes (text realm)) (text "r3v3rs3").

(** [file] is the user file: its time of modification and its text, [None] for what cannot be read. *)
Definition BasicAuthenticator_new (config : BasicAuth) (file : option (option Z * option string)) : BasicAuthenticator :=
  let users := fold_left (fun m u => <[ Policy.username u := Argon2 (password_hash u) ]> m)
                 (List.filter (fun u => argon2_hash_ok (password_hash u)) (users config)) ∅ in
  let accepted := match user_file config with Some path => is_ok (validate_user_file_path path) | None => false end in
  let state := match accepted, file with
               | true, Some (modified, content) => mkFileUsers modified (match content with Some c => parse_user_file c | None => ∅ end)
               | _, _ => mkFileUsers None ∅
               end in
  mkBasicAuthenticator users accepted state (challenge (realm config)) ∅ ∅.

Definition basic_check_blocked (ip : IpAddr) (now : Instant) (m : gmap IpAddr ClientAttempts)
  : result unit ProxyError * gmap IpAddr ClientAttempts :=
  let m := filter (fun kv => Is_true (match client_blocked kv.2 with
                                      | Some until => now <? until
                                      | None => duration_since now (client_window kv.2) <? BASIC_ATTEMPTS_RESET
                                      end)) m in
  (match m !! ip with
   | Some a => match client_blocked a with
               | Some until => if now <? until then Err (TooManyRequests (duration_since until now)) else Ok tt
               | None => Ok tt
               end
   | None => Ok tt
   end, m).

Definition basic_record_failure (ip : IpAddr) (now : Instant) (m : gmap IpAddr ClientAttempts) : gmap IpAddr ClientAttempts :=
  let a := unwrap_or (m !! ip) (mkClientAttempts 0 now None) in
  <[ ip := if BASIC_ATTEMPTS_RESET <=? duration_since now (client_window a) then mkClientAttempts 1 now None
           else let n := sat_add u32_max (client_failures a) 1 in
                mkClientAttempts n (client_window a) (if MAX_BASIC_ATTEMPTS <=? n then Some (now + BASIC_ATTEMPTS_RESET) else client_blocked a) ]> m.

Definition reload_file_if_modified (file : option (option Z * option string)) (b : BasicAuthenticator) : BasicAuthenticator :=
  match file with
  | None => b
  | Some (modified, content) =>
      let f := user_file_state b in
      if bool_decide (last_modified f = modified) && negb (Nat.eqb (size (file_users f)) 0) then b
      else match content with
           | Some c => set_file_users (mkFileUsers modified (parse_user_file c)) ∅ b
           | None => set_file_users (mkFileUsers modified (file_users f)) (verified b) b
           end
  end.

Definition get_user (file : option (option Z * option string)) (user : string) (b : BasicAuthenticator)
  : option StoredPassword * BasicAuthenticator :=
  match config_users b !! user with
  | Some s => (Some s, b)
  | None => if has_user_file b
            then let b := reload_file_if_modified file b in (file_users (user_file_state b) !! user, b)
            else (None, b)
  end.

Definition credential_digest (secret : StoredPassword) (pw : string) : string :=
  sha256 (match secret with Argon2 h => "argon2:" +:+ h | Plain p => "plain:" +:+ p end +:+ String (ascii_of_nat 0) pw).

Definition store_verified (digest : string) (v : gset string) : gset string :=
  {[ digest ]} ∪ (if MAX_VERIFIED_CREDENTIALS <=? Z.of_nat (size v) then ∅ else v).

Definition parse_credentials (v : string) : option (string * string) :=
  match to_str v with
  | None => None
  | Some text =>
      match split_once " " (trim text) with
      | None => None
      | Some (scheme, token) =>
          if negb (eq_ignore_ascii_case scheme "basic") then None
          else match base64_text (trim token) with Some decoded => split_once ":" decoded | None => None end
      end
  end.

Definition password_matches (s : StoredPassword) (pw : string) : bool :=
  match s with Argon2 h => argon2_verify h pw | Plain p => String.eqb p pw end.

(** What follows the wait for a hash: [None] is the hash of an unknown user, which is never accepted. *)
Record HashJob : Type := mkHashJob { job_ip : IpAddr; job_now : Instant; job_stored : option StoredPassword; job_password : string }.

Inductive BasicNext : Type := Refused (e : ProxyError) | Accepted (h : Headers) | Hashing (j : HashJob).

Definition unauthorized (b : BasicAuthenticator) : ProxyError := PUnauthorized (basic_challenge b).

(** [authorize] until it is done or waits for a hash. *)
Definition basic_authorize (h : Headers) (client : IpAddr) (now : Instant) (file : option (option Z * option string)) (b : BasicAuthenticator)
  : BasicNext * BasicAuthenticator :=
  let ip := Policy.canonical_client_ip client in
  let '(allowed, m) := basic_check_blocked ip now (basic_attempts b) in
  let b := set_attempts m b in
  match allowed with
  | Err e => (Refused e, b)
  | Ok _ =>
      match (match h_get h "authorization" with Some v => parse_credentials v | None => None end) with
      | None => (Refused (unauthorized b), b)
      | Some (user, pw) =>
          let '(stored, b) := get_user file user b in
          let accepted := (Accepted (h_remove "authorization" h), set_attempts (delete ip (basic_attempts b)) b) in
          match stored with
          | None => (Hashing (mkHashJob ip now None pw), b)
          | Some s =>
              if bool_decide (credential_digest s pw ∈ verified b) then accepted
              else match s with
                   | Argon2 _ => (Hashing (mkHashJob ip now (Some s) pw), b)
                   | Plain _ =>
                       if password_matches s pw
                       then (accepted.1, set_verified (store_verified (credential_digest s pw) (verified b)) accepted.2)
                       else (Refused (unauthorized b), set_attempts (basic_record_failure ip now (basic_attempts b)) b)
                   end
          end
      end
  end.

(** The rest of it; [busy] is a wait for the hash permit that took too long. *)
Definition basic_finish (h : Headers) (j : HashJob) (busy : bool) (b : BasicAuthenticator) : BasicNext * BasicAuthenticator :=
  if busy then (Refused TooManyConcurrentRequests, b)
  else match job_stored j with
       | Some s =>
           if password_matches s (job_password j)
           then (Accepted (h_remove "authorization" h),
                 set_attempts (delete (job_ip j) (basic_attempts b))
                   (set_verified (store_verified (credential_digest s (job_password j)) (verified b)) b))
           else (Refused (unauthorized b), set_attempts (basic_record_failure (job_ip j) (job_now j) (basic_attempts b)) b)
       | None => (Refused (unauthorized b), set_attempts (basic_record_failure (job_ip j) (job_now j) (basic_attempts b)) b)
       end.

(** ** Tokens *)

Definition BearerAuthenticator_new (config : BearerAuth) : list string := omap (fun t => hex_32_bytes (Policy.token_hash t)) (Policy.tokens config).

Definition parse_token (v : string) : option string :=
  match to_str v with
  | None => None
  | Some text =>
      match split_once " " (trim text) with
      | None => None
      | Some (scheme, token) =>
          let token := trim token in
          if eq_ignore_ascii_case scheme "bearer" && negb (str_is_empty token) then Some token else None
      end
  end.

Definition bearer_authorize (digests : list string) (h : Headers) : result Headers ProxyError :=
  let realm := "Bearer realm=" +:+ quote +:+ "r3v3rs3" +:+ quote in
  match (match h_get h "authorization" with Some v => parse_token v | None => None end) with
  | None => Err (PUnauthorized realm)
  | Some token =>
      if existsb (String.eqb (sha256 token)) digests then Ok (h_remove "authorization" h)
      else Err (PUnauthorized (realm +:+ ", error=" +:+ quote +:+ "invalid_token" +:+ quote))
  end.
End Basic.

(** ** The question to another service *)

(** Status and headers of the answer of the service, and its body when it could be read within the
    limit. *)
Record ServiceAnswer `{HDR : HeaderOps} : Type := mkServiceAnswer { sa_status : Z; sa_headers : Headers; sa_body : option string }.

Record ForwardAuthenticator : Type := mkForwardAuthenticator { fwd_url : option string; fwd_response_headers : list string }.

Definition CONNECTION_HEADERS : list string :=
  ["connection"; "keep-alive"; "proxy-connection"; "te"; "trailer"; "transfer-encoding"; "upgrade"; "content-length"].

Definition is_bracket (c : ascii) : bool := Ascii.eqb c "[" || Ascii.eqb c "]".

Definition parse_host_ip (host : string) : option IpAddr := parse_ip (trim_end_by is_bracket (trim_start_matches is_bracket host)).

Definition is_cloud_metadata_ip (ip : IpAddr) : bool :=
  match octets ip with
  | a :: b :: _ => match ip with
                   | V4 _ => (a =? 169) && (b =? 254)
                   | V6 _ => (a =? 254) && (Z.land b 192 =? 128)
                   end
  | _ => false
  end.

Definition host_name (host : string) : string := trim_end_by (Ascii.eqb ".") (to_ascii_lowercase host).

Definition is_cloud_metadata_host (host : string) : bool :=
  if String.eqb (host_name host) "metadata.google.internal" || String.eqb (host_name host) "instance-data" then true
  else is_some_and is_cloud_metadata_ip (parse_host_ip host).

Definition is_unspecified (ip : IpAddr) : bool := match ip with V4 b | V6 b => b =? 0 end.

Definition is_loopback_auth_host (host : string) : bool :=
  let trimmed := host_name host in
  if String.eqb trimmed "localhost" || ends_with ".localhost" trimmed || ends_with ".local" trimmed then true
  else is_some_and (fun ip => is_loopback ip || is_unspecified ip) (parse_host_ip host).

Section Forward.
Context `{HDR : HeaderOps} `{HB : HeaderBytes}.

(** [uri_host] parses a URI and gives its host. *)
Definition ForwardAuthenticator_new (uri_host : string -> option (option string)) (header_name : string -> option string)
  (url : string) (response_headers : list string) : ForwardAuthenticator :=
  mkForwardAuthenticator
    (match uri_host url with
     | Some (Some host) => if is_cloud_metadata_host host then None else Some url
     | _ => None
     end)
    (omap header_name response_headers).

Definition remove_auth_cookies (h : Headers) : Headers := remove_cookie (remove_oidc_cookie h) SESSION_COOKIE.

Definition forwarded_headers (r : ClientRequest) (ctx : AuthContext) : list (string * string) :=
  [("x-forwarded-method", client_method r);
   ("x-forwarded-proto", if String.eqb (ctx_proto ctx) "http" then "http" else "https");
   ("x-forwarded-host", unwrap_or (ctx_host ctx) "");
   ("x-forwarded-uri", unwrap_or (client_target r) "/");
   ("x-forwarded-for", ip_to_string (ctx_client ctx))].

Fixpoint insert_all (l : list (string * string)) (h : Headers) : option Headers :=
  match l with
  | [] => Some h
  | (name, v) :: r => match value_from_str v with Some v => insert_all r (h_insert name v h) | None => None end
  end.

(** The URL and the headers of the question. *)
Definition auth_request (f : ForwardAuthenticator) (r : ClientRequest) (ctx : AuthContext) : result (string * Headers) ProxyError :=
  match fwd_url f with
  | None => Err AuthServiceUnavailable
  | Some url =>
      let h := fold_left (fun h name => h_remove name h) (CONNECTION_HEADERS ++ ["host"]) (client_headers r) in
      match insert_all (forwarded_headers r ctx) (remove_auth_cookies h) with
      | Some h => Ok (url, h)
      | None => Err AuthServiceUnavailable
      end
  end.

Definition copy_header (from : Headers) (to : Headers) (name : string) : Headers :=
  fold_left (fun h v => h_append name v h) (h_get_all from name) (h_remove name to).

Definition copy_headers (f : ForwardAuthenticator) (from to : Headers) : Headers := fold_left (copy_header from) (fwd_response_headers f) to.

Definition is_safe_denied_header (name : string) : bool :=
  existsb (String.eqb name) ["location"; "set-cookie"; "www-authenticate"; "content-type"; "content-length"; "cache-control"].

Record Denied : Type := mkDenied { denied_status : Z; denied_headers : Headers; denied_body : string }.

Definition denied_response (a : ServiceAnswer) : result Denied ProxyError :=
  let s := sa_status a in
  if negb ((300 <=? s) && (s <? 400)) && negb (s =? 401) && negb (s =? 403) then Err AuthServiceUnavailable
  else match sa_body a with
       | None => Err AuthServiceUnavailable
       | Some body =>
           Ok (mkDenied s (fold_left (fun h nv => if is_safe_denied_header nv.1 then h_append nv.1 nv.2 h else h) (h_iter (sa_headers a)) h_empty) body)
       end.

Inductive Verdict : Type := Allow (h : Headers) | Deny (d : Denied).

(** [answer] is the answer of the service to a question, [None] for a failure or a timeout. *)
Definition forward_authorize (f : ForwardAuthenticator) (answer : string -> Headers -> option ServiceAnswer) (r : ClientRequest) (ctx : AuthContext)
  : result Verdict ProxyError :=
  match auth_request f r ctx with
  | Err e => Err e
  | Ok (url, h) =>
      match answer url h with
      | None => Err AuthServiceUnavailable
      | Some a =>
          if (200 <=? sa_status a) && (sa_status a <? 300) then Ok (Allow (copy_headers f (sa_headers a) (client_headers r)))
          else match denied_response a with Ok d => Ok (Deny d) | Err e => Err e end
      end
  end.
End Forward.

(** ** Authenticators *)

Inductive Authenticator : Type :=
| ABasicAuth (b : BasicAuthenticator)
| ABearerAuth (digests : list string)
| AForwardAuth (f : ForwardAuthenticator)
| ASessionAuth (proxy : ShortId)
| AOidcAuth (c : OidcAuth).

Definition Authenticator_new `{HDR : HeaderOps} `{HB : HeaderBytes} `{OPS : SecretOps} {U} (url_text : U -> string)
  (uri_host : string -> option (option string)) (header_name : string -> option string) (file : option (option Z * option string))
  (policy : AuthPolicy U) (proxy : ShortId) : option Authenticator :=
  match policy with
  | ANone => None
  | ABasic basic => Some (ABasicAuth (BasicAuthenticator_new basic file))
  | ABearer bearer => Some (ABearerAuth (BearerAuthenticator_new bearer))
  | AForward forward => Some (AForwardAuth (ForwardAuthenticator_new uri_host header_name (url_text (fa_url _ forward)) (fa_response_headers _ forward)))
  | ASession => Some (ASessionAuth proxy)
  | AOidc oidc => Some (AOidcAuth oidc)
  end.

(** ** Facts of the passwords *)

Section BasicFacts.
Context `{HDR : HeaderOps} `{HB : HeaderBytes} `{OPS : SecretOps}.

(** SHA-256 without collisions. *)
Hypothesis sha256_injective : forall a b, sha256 a = sha256 b -> a = b.

Definition nul : ascii := ascii_of_nat 0.

Definition secret_clean (s : StoredPassword) : Prop := char_free nul (match s with Argon2 h => h | Plain p => p end) = true.

Definition users_clean (m : gmap string StoredPassword) : Prop := forall u s, m !! u = Some s -> secret_clean s.

(** The configuration, and the text of the user file at each time of modification: a change of the
    file changes its time. *)
Context (config : BasicAuth) (text_at : option Z -> string).
Hypothesis config_clean : forall u, u ∈ users config -> secret_clean (Argon2 (password_hash u)).
Hypothesis texts_clean : forall m, users_clean (parse_user_file (text_at m)).

(** The file is missing, or it is read with its time and text. *)
Definition file_follows (file : option (option Z * option string)) : Prop :=
  match file with Some (m, content) => content = Some (text_at m) | None => True end.

(** *** The current secret of a user

    The last entry of the name in the configuration with a hash that parses, else the one of the user
    file as it is now; of a file that is missing now, as it was at some time. *)
Definition config_secret (user : string) : option StoredPassword :=
  option_map (fun u => Argon2 (password_hash u))
    (List.find (fun u => String.eqb (Policy.username u) user && argon2_hash_ok (password_hash u)) (rev (users config))).

Definition file_accepted : bool := is_some_and (fun path => is_ok (validate_user_file_path path)) (user_file config).

Definition current_secret (file : option (option Z * option string)) (user : string) (s : StoredPassword) : Prop :=
  match config_secret user with
  | Some c => s = c
  | None => file_accepted = true
            /\ match file with
               | Some (m, _) => parse_user_file (text_at m) !! user = Some s
               | None => exists m, parse_user_file (text_at m) !! user = Some s
               end
  end.

(** The credentials of a request are those of a user with the current secret. *)
Definition credentials_current (file : option (option Z * option string)) (h : Headers) : Prop :=
  exists v user pw s, h_get h "authorization" = Some v /\ parse_credentials v = Some (user, pw)
                      /\ current_secret file user s /\ password_matches s pw = true.

Lemma append_inj_l a b c : a +:+ b = a +:+ c -> b = c.
Proof. induction a as [|x a IH]; cbn; [done|]. intros [= H]. by apply IH. Qed.

Lemma digest_inj s1 p1 s2 p2 :
  secret_clean s1 -> secret_clean s2 -> credential_digest s1 p1 = credential_digest s2 p2 -> s1 = s2 /\ p1 = p2.
Proof.
  unfold credential_digest, secret_clean. intros H1 H2 E. apply sha256_injective in E.
  set (a := match s1 with Argon2 h => _ | Plain p => _ end) in E. set (b := match s2 with Argon2 h => _ | Plain p => _ end) in E.
  assert (Ha : char_free nul a = true) by (unfold a; destruct s1; unfold char_free in *; rewrite str_forallb_append, H1; reflexivity).
  assert (Hb : char_free nul b = true) by (unfold b; destruct s2; unfold char_free in *; rewrite str_forallb_append, H2; reflexivity).
  pose proof (split_once_join nul a p1 Ha) as Ea. pose proof (split_once_join nul b p2 Hb) as Eb.
  change (a +:+ String nul p1 = b +:+ String nul p2) in E. rewrite E in Ea. rewrite Ea in Eb. injection Eb as Eab ->. split; [|done].
  unfold a, b in Eab. destruct s1 as [h1|t1], s2 as [h2|t2]; try done; apply append_inj_l in Eab; congruence.
Qed.

(** Every cached digest is of a credential that was good, and the users are those of the configuration
    and of the text of the time that is kept. *)
Record basic_ok (b : BasicAuthenticator) : Prop := {
  bo_verified d : d ∈ verified b -> exists s pw, secret_clean s /\ d = credential_digest s pw /\ password_matches s pw = true;
  bo_config user : config_users b !! user = config_secret user;
  bo_has_file : has_user_file b = file_accepted;
  bo_file : file_users (user_file_state b) = ∅ \/ file_users (user_file_state b) = parse_user_file (text_at (last_modified (user_file_state b)));
}.

Lemma basic_ok_attempts m b : basic_ok b -> basic_ok (set_attempts m b).
Proof. intros []. by split. Qed.

Lemma basic_ok_store s pw b :
  secret_clean s -> password_matches s pw = true -> basic_ok b -> basic_ok (set_verified (store_verified (credential_digest s pw) (verified b)) b).
Proof.
  intros Hs Hp []. split; try done. intros d Hd. cbn [verified set_verified] in Hd. unfold store_verified in Hd.
  apply elem_of_union in Hd as [Hd|Hd]; [apply elem_of_singleton in Hd as ->; by exists s, pw|]. destruct (_ <=? _); [set_solver|by apply bo_verified0].
Qed.

Lemma config_secret_clean user s : config_secret user = Some s -> secret_clean s.
Proof.
  unfold config_secret. destruct (List.find _ _) as [u|] eqn:E; [|done]. intros [= <-]. apply List.find_some in E as [Hin _].
  apply config_clean. apply list_elem_of_In. by apply in_rev.
Qed.

(** The reload brings the users of the file as it is now. *)
Lemma reload_spec file b :
  file_follows file -> basic_ok b ->
  let b' := reload_file_if_modified file b in
  basic_ok b' /\ match file with Some (m, _) => file_users (user_file_state b') = parse_user_file (text_at m) | None => b' = b end.
Proof.
  intros Hf Hb. unfold reload_file_if_modified. destruct file as [[m content]|]; [|done]. cbn [file_follows] in Hf. subst content. cbn zeta.
  destruct (bool_decide_reflect (last_modified (user_file_state b) = m)) as [Em|_]; cbn [andb].
  - destruct (Nat.eqb_spec (size (file_users (user_file_state b))) 0) as [E0|E0]; cbn [negb].
    + split; [|done]. destruct Hb as [Hv Hc Hh _]. split; [intros d Hd; by apply elem_of_empty in Hd|exact Hc|exact Hh|by right].
    + split; [done|]. destruct (bo_file b Hb) as [Ee|Et]; [|by rewrite Et, Em]. rewrite Ee in E0. by rewrite map_size_empty in E0.
  - split; [|done]. destruct Hb as [Hv Hc Hh _]. split; [intros d Hd; by apply elem_of_empty in Hd|exact Hc|exact Hh|by right].
Qed.

Lemma get_user_spec file user b s b' :
  file_follows file -> basic_ok b -> get_user file user b = (s, b') ->
  basic_ok b' /\ forall x, s = Some x -> current_secret file user x /\ secret_clean x.
Proof.
  intros Hf Hb. unfold get_user, current_secret. rewrite (bo_config b Hb). destruct (config_secret user) as [c|] eqn:Ec.
  { intros [= <- <-]. split; [done|]. intros x [= <-]. split; [done|]. by eapply config_secret_clean. }
  rewrite (bo_has_file b Hb). destruct file_accepted; [|intros [= <- <-]; by split]. intros [= <- <-].
  destruct (reload_spec file b Hf Hb) as [Hb' Hr]. split; [done|]. intros x Hx. destruct file as [[m content]|].
  - rewrite Hr in Hx. split; [done|]. by eapply texts_clean.
  - rewrite Hr in Hx. destruct (bo_file b Hb) as [E|E]; rewrite E in Hx; [by rewrite lookup_empty in Hx|].
    split; [split; [done|by eexists]|]. by eapply texts_clean.
Qed.

(** A job is for the credentials of its request and the secret that was current at its start. *)
Definition job_for (file : option (option Z * option string)) (h : Headers) (j : HashJob) : Prop :=
  exists v user, h_get h "authorization" = Some v /\ parse_credentials v = Some (user, job_password j)
    /\ forall s, job_stored j = Some s -> current_secret file user s /\ secret_clean s.

Lemma basic_authorize_spec h client now file b r b' :
  file_follows file -> basic_ok b -> basic_authorize h client now file b = (r, b') ->
  basic_ok b' /\ match r with
                 | Accepted h' => h' = h_remove "authorization" h /\ credentials_current file h
                 | Hashing j => job_for file h j
                 | Refused _ => True
                 end.
Proof.
  intros Hf Hb. unfold basic_authorize. cbn zeta. destruct (basic_check_blocked _ _ _) as [allowed m].
  pose proof (basic_ok_attempts m b Hb) as Hm. destruct allowed as [u|e]; [|by intros [= <- <-]].
  destruct (h_get h "authorization") as [v|] eqn:Ev; [|by intros [= <- <-]]. destruct (parse_credentials v) as [[user pw]|] eqn:Ep; [|by intros [= <- <-]].
  destruct (get_user file user (set_attempts m b)) as [stored b2] eqn:Eg. destruct (get_user_spec _ _ _ _ _ Hf Hm Eg) as [Hb2 Hcur].
  destruct stored as [s|]; [|intros [= <- <-]; split; [done|]; by exists v, user]. destruct (Hcur s eq_refl) as [Hs Hclean].
  assert (Hgood : password_matches s pw = true -> credentials_current file h) by (intros Hp; exists v, user, pw, s; auto).
  destruct (bool_decide_reflect (credential_digest s pw ∈ verified b2)) as [Hd|_].
  - intros [= <- <-]. split; [by apply basic_ok_attempts|]. split; [done|]. apply Hgood.
    destruct (bo_verified b2 Hb2 _ Hd) as (s' & pw' & Hs' & E & Hp). apply digest_inj in E as [-> ->]; done.
  - destruct s as [hash|text]; [intros [= <- <-]; split; [done|]; exists v, user; split; [done|]; split; [done|]; by intros s [= <-]|].
    destruct (password_matches (Plain text) pw) eqn:Epm; intros [= <- <-].
    + split; [|split; [done|by apply Hgood]]. apply (basic_ok_attempts (delete (Policy.canonical_client_ip client) (basic_attempts b2))) in Hb2.
      exact (basic_ok_store (Plain text) pw _ Hclean Epm Hb2).
    + split; [by apply basic_ok_attempts|done].
Qed.

Lemma basic_finish_spec file h j busy b r b' :
  job_for file h j -> basic_ok b -> basic_finish h j busy b = (r, b') ->
  basic_ok b' /\ match r with
                 | Accepted h' => h' = h_remove "authorization" h /\ credentials_current file h
                 | _ => True
                 end.
Proof.
  intros (v & user & Ev & Ep & Hj) Hb. unfold basic_finish. destruct busy; [by intros [= <- <-]|].
  destruct (job_stored j) as [s|] eqn:Ej; [|intros [= <- <-]; split; [by apply basic_ok_attempts|done]].
  destruct (Hj s eq_refl) as [Hs Hclean].
  destruct (password_matches s (job_password j)) eqn:Em; intros [= <- <-]; (split; [apply basic_ok_attempts|]); [|split; [done|]|done|done].
  - by apply basic_ok_store.
  - by exists v, user, (job_password j), s.
Qed.

(** *** Runs

    A request that waits for its hash, with the file of its start. *)
Record BasicWait : Type := mkBasicWait { wait_headers : Headers; wait_job : HashJob; wait_file : option (option Z * option string) }.

Definition waiting (h : Headers) (file : option (option Z * option string)) (r : BasicNext) : list BasicWait :=
  match r with Hashing j => [mkBasicWait h j file] | _ => [] end.

(** Requests, the ends of their hashes, and clients that leave, in any order. *)
Inductive basic_step : BasicAuthenticator * list BasicWait -> BasicAuthenticator * list BasicWait -> Prop :=
| bs_authorize b ws h client now file r b' :
    file_follows file -> basic_authorize h client now file b = (r, b') -> basic_step (b, ws) (b', waiting h file r ++ ws)
| bs_finish b l1 w l2 busy r b' :
    basic_finish (wait_headers w) (wait_job w) busy b = (r, b') -> basic_step (b, l1 ++ w :: l2) (b', l1 ++ l2)
| bs_leave b l1 w l2 : basic_step (b, l1 ++ w :: l2) (b, l1 ++ l2).

Definition wait_ok (w : BasicWait) : Prop := job_for (wait_file w) (wait_headers w) (wait_job w).

Definition basic_inv (st : BasicAuthenticator * list BasicWait) : Prop := basic_ok st.1 /\ Forall wait_ok st.2.

Lemma basic_inv_run st st' : rtc basic_step st st' -> basic_inv st -> basic_inv st'.
Proof.
  induction 1 as [|s1 s2 s3 Hst _ IH]; [done|]. intros [Hb Hw]. apply IH. clear IH.
  destruct Hst as [b ws h client now file r b' Hf E|b l1 w l2 busy r b' E|b l1 w l2]; cbn [fst snd] in *.
  - destruct (basic_authorize_spec _ _ _ _ _ _ _ Hf Hb E) as [Hb' Hr]. split; [done|]. apply Forall_app. split; [|done].
    destruct r; cbn [waiting]; [constructor|constructor|by repeat constructor].
  - apply Forall_app in Hw as [H1 Hw]. apply Forall_cons in Hw as [Hw H2].
    destruct (basic_finish_spec _ _ _ _ _ _ _ Hw Hb E) as [Hb' _]. split; [done|]. by apply Forall_app.
  - apply Forall_app in Hw as [H1 Hw]. apply Forall_cons in Hw as [Hw H2]. split; [done|]. by apply Forall_app.
Qed.

Lemma new_config_users file user : config_users (BasicAuthenticator_new config file) !! user = config_secret user.
Proof.
  clear config_clean texts_clean. unfold BasicAuthenticator_new, config_secret. cbn [config_users]. induction (users config) as [|u l IH] using rev_ind; [done|].
  rewrite List.filter_app, fold_left_app, rev_app_distr. cbn [List.filter rev app find].
  destruct (argon2_hash_ok (password_hash u)); cbn [fold_left].
  - rewrite andb_true_r, lookup_insert. destruct (String.eqb_spec (Policy.username u) user) as [->|Hne]; [by rewrite decide_True|].
    rewrite decide_False by done. exact IH.
  - rewrite andb_false_r. exact IH.
Qed.

Lemma basic_ok_new file : file_follows file -> basic_ok (BasicAuthenticator_new config file).
Proof.
  intros Hf. split.
  - intros d Hd. cbn [verified BasicAuthenticator_new] in Hd. by apply elem_of_empty in Hd.
  - apply new_config_users.
  - unfold BasicAuthenticator_new, file_accepted. cbn [has_user_file]. by destruct (user_file config).
  - unfold BasicAuthenticator_new. cbn [user_file_state].
    destruct (match user_file config with Some _ => _ | None => _ end); [|by left]. destruct file as [[m content]|]; [|by left].
    cbn [file_follows] in Hf. subst content. by right.
Qed.


End BasicFacts.

(** ** Facts of the question *)

Section ForwardFacts.
Context `{HDR : HeaderOps} {LAWS : HeaderLaws HDR} `{HB : HeaderBytes} {BLAWS : HeaderBytesLaws HB}.

Lemma appended_get_all name l h n :
  h_get_all (fold_left (fun h v => h_append name v h) l h) n = if decide (n = name) then h_get_all h n ++ l else h_get_all h n.
Proof.
  revert h. induction l as [|v l IH]; intros h; cbn [fold_left]; [case_decide; by rewrite ?app_nil_r|].
  rewrite IH, (get_all_append (HeaderLaws := LAWS)). case_decide; [by rewrite <- app_assoc|done].
Qed.

Lemma copy_header_get_all from to name n :
  h_get_all (copy_header from to name) n = if decide (n = name) then h_get_all from name else h_get_all to n.
Proof. unfold copy_header. rewrite appended_get_all, (get_all_remove (HeaderLaws := LAWS)). by case_decide. Qed.

Lemma copy_headers_get_all f from to n :
  h_get_all (copy_headers f from to) n = if decide (n ∈ fwd_response_headers f) then h_get_all from n else h_get_all to n.
Proof.
  unfold copy_headers. revert to. induction (fwd_response_headers f) as [|name l IH]; intros to; cbn [fold_left].
  - by rewrite decide_False by apply not_elem_of_nil.
  - rewrite IH, copy_header_get_all. destruct (decide (n ∈ l)) as [H|H]; [by rewrite decide_True by (by right)|].
    destruct (decide (n = name)) as [->|Hne]; [by rewrite decide_True by left|]. rewrite decide_False; [done|]. intros Hin. by apply elem_of_cons in Hin as [?|?].
Qed.

Lemma removed_get_all l h n :
  h_get_all (fold_left (fun h name => h_remove name h) l h) n = if decide (n ∈ l) then [] else h_get_all h n.
Proof.
  revert h. induction l as [|x l IH]; intros h; cbn [fold_left]; [by rewrite decide_False by apply not_elem_of_nil|].
  rewrite IH, (get_all_remove (HeaderLaws := LAWS)). destruct (decide (n ∈ l)) as [H|H]; [by rewrite decide_True by (by right)|].
  destruct (decide (n = x)) as [->|Hne]; [by rewrite decide_True by left|]. rewrite decide_False; [done|]. intros Hin. by apply elem_of_cons in Hin as [?|?].
Qed.

Lemma inserted_get_all l h h' :
  insert_all l h = Some h' -> NoDup (map fst l) ->
  (forall n v, (n, v) ∈ l -> exists v', value_from_str v = Some v' /\ h_get_all h' n = [v'])
  /\ (forall n, n ∉ map fst l -> h_get_all h' n = h_get_all h n).
Proof.
  revert h. induction l as [|[name v] l IH]; intros h; cbn [insert_all map fst].
  - intros [= <-] _. split; [intros n v Hin; by apply not_elem_of_nil in Hin|done].
  - destruct (value_from_str v) as [v'|] eqn:Ev; [|done]. intros H Hnd. apply NoDup_cons in Hnd as [Hn Hnd].
    destruct (IH _ H Hnd) as [H1 H2]. split.
    + intros n x Hin. apply elem_of_cons in Hin as [[= -> ->]|Hin]; [|by apply H1]. exists v'. split; [done|].
      rewrite (H2 name Hn), (get_all_insert (HeaderLaws := LAWS)). by case_decide.
    + intros n Hn'. apply not_elem_of_cons in Hn' as [Hne Hn']. rewrite (H2 n Hn'), (get_all_insert (HeaderLaws := LAWS)). by case_decide.
Qed.

Lemma cookies_removed_get_all h n : n <> "cookie" -> h_get_all (remove_auth_cookies h) n = h_get_all h n.
Proof. intros Hn. unfold remove_auth_cookies, remove_oidc_cookie. rewrite !remove_cookie_get_all. by repeat case_decide. Qed.

(** The external service decides on the request as it is, and its identity headers are the only
    ones that the upstream server sees.  The question carries the method, the scheme, the host, the
    target and the client of the request, whatever the client sent in these headers, none of the
    headers of the connection, and not the session of this server; when the service lets the request
    through, each configured header has exactly the values of the answer and every other header is
    that of the request. *)
Theorem forward_auth_headers f answer r ctx h' :
  forward_authorize f answer r ctx = Ok (Allow h') ->
  exists url h a,
    fwd_url f = Some url /\ answer url h = Some a /\ 200 <= sa_status a < 300
    /\ (forall n v, (n, v) ∈ forwarded_headers r ctx -> exists v', value_from_str v = Some v' /\ h_get_all h n = [v'])
    /\ (forall n, n ∈ CONNECTION_HEADERS ++ ["host"] -> h_get_all h n = [])
    /\ cookie_values h SESSION_COOKIE = []
    /\ (forall n, h_get_all h' n = if decide (n ∈ fwd_response_headers f) then h_get_all (sa_headers a) n else h_get_all (client_headers r) n).
Proof.
  unfold forward_authorize, auth_request. destruct (fwd_url f) as [url|]; [|done]. cbn zeta.
  set (base := fold_left _ _ (client_headers r)). destruct (insert_all _ _) as [h|] eqn:Ei; [|done].
  destruct (answer url h) as [a|] eqn:Ea; [|done]. destruct (_ && _) eqn:Es; [|by destruct (denied_response a)]. intros [= <-].
  apply andb_true_iff in Es as [Es1 Es2]. assert (Hnd : NoDup (map fst (forwarded_headers r ctx))) by (cbn; by apply (bool_decide_eq_true_1 _); vm_compute).
  destruct (inserted_get_all _ _ _ Ei Hnd) as [H1 H2]. exists url, h, a. split; [done|]. split; [done|]. split; [lia|]. split; [exact H1|]. split; [|split].
  - intros n Hn. rewrite H2.
    + rewrite cookies_removed_get_all; [unfold base; rewrite removed_get_all; by rewrite decide_True|].
      intros ->. revert Hn. by apply (bool_decide_eq_false_1 ("cookie" ∈ CONNECTION_HEADERS ++ ["host"])).
    + cbn [map fst forwarded_headers]. revert n Hn. apply Forall_forall. by repeat constructor; apply (bool_decide_eq_true_1 _); vm_compute.
  - unfold cookie_values. rewrite H2 by (by apply (bool_decide_eq_true_1 _); vm_compute). apply (cookie_gone (remove_oidc_cookie base) SESSION_COOKIE).
  - intros n. apply copy_headers_get_all.
Qed.

End ForwardFacts.

(** ** Examples *)

(** An address of the metadata service is refused in its IPv4 form, and accepted when it is mapped to
    IPv6. *)
Lemma mapped_metadata_address_allowed :
  is_cloud_metadata_host "169.254.169.254" = true /\ is_cloud_metadata_host "[::ffff:169.254.169.254]" = false.
Proof. vm_compute. auto. Qed.

Section AuthExamples.
#[local] Existing Instances plain_header_ops plain_bytes.

Definition plain_secrets : SecretOps := {|
  argon2_hash_ok h := starts_with "$argon2" h;
  argon2_verify h pw := String.eqb h ("$argon2:" +:+ pw);
  sha256 s := s;
  hex_32_bytes s := Some s;
  base64_text s := Some s;
|}.
#[local] Existing Instance plain_secrets.

Definition example_basic : BasicAuth := mkBasicAuth "site" [mkBasicAuthUser "ada" "" "$argon2:secret" true] (Some "users.txt").
Definition example_users : option (option Z * option string) := Some (Some 1, Some ("bob: {PLAIN}pw" +:+ String (ascii_of_nat 10) "# eve:x")).
Definition example_basic_auth : BasicAuthenticator := BasicAuthenticator_new example_basic example_users.
Definition example_bob : Headers := [("authorization", "Basic bob:pw"); ("accept", "*/*")].

Definition example_text (m : option Z) : string := "bob: {PLAIN}pw" +:+ String (ascii_of_nat 10) "# eve:x".


(** A read of the user file that fails is not tried again while the file keeps its time: a user that was
    removed from the file stays. *)
Lemma failed_read_keeps_removed_users :
  let b := reload_file_if_modified (Some (Some 2, None)) example_basic_auth in
  fst (get_user (Some (Some 2, Some "")) "bob" b) = Some (Plain "pw")
  /\ fst (get_user (Some (Some 2, Some "")) "bob" example_basic_auth) = None.
Proof. vm_compute. split; reflexivity. Qed.

Definition example_forward : ForwardAuthenticator := mkForwardAuthenticator (Some "http://auth.internal/") ["x-user"].
Definition example_service (url : string) (h : Headers) : option ServiceAnswer :=
  if String.eqb url "http://auth.internal/" then Some (mkServiceAnswer _ 200 ([("x-user", "ada")] : Headers) (Some "")) else None.
Definition example_forwarded : ClientRequest :=
  mkClientRequest _ "GET" (Some "/inbox") None [("x-user", "root"); ("accept", "*/*"); ("x-forwarded-for", "9.9.9.9")].

Lemma forward_auth_headers_witness :
  exists h', forward_authorize example_forward example_service example_forwarded example_ctx = Ok (Allow h')
             /\ h_get_all h' "x-user" = ["ada"] /\ h_get_all h' "accept" = ["*/*"].
Proof.
  destruct (forward_authorize example_forward example_service example_forwarded example_ctx) as [[h'|d]|e] eqn:E; [|vm_compute in E; discriminate..].
  exists h'. split; [reflexivity|].
  destruct (forward_auth_headers (LAWS := plain_header_laws) (BLAWS := plain_bytes_laws) example_forward example_service example_forwarded example_ctx h' E)
    as (url & h & a & Hu & Ha & _ & _ & _ & _ & Hh).
  injection Hu as <-. injection Ha as <-. split; [exact (Hh "x-user")|exact (Hh "accept")].
Defined.

End AuthExamples.
