(* ===== verification/Containers.v ===== *)
(** * Names of containers and of Git sources

    [r3v3rs3-api/src/container.rs] and [r3v3rs3-api/src/git.rs]: the checked texts of the
    deployment platform (names of apps, containers, networks and volumes, image references,
    environment keys, paths inside a container, repository URLs, branches, paths of a checkout and
    commits) with the checks that accept them, and the specification of a container.  A checked
    text is kept as its [string]; every one of them comes from its [from_str] or from [TryFrom],
    which make the same check.  The [url] crate is the class [UrlParser]. *)

From Stdlib Require Import Ascii.
From S2P Require Import Prelude Basics IpText Net Policy Router Quarantine Cookies.

Definition invalid (reason : string) : Error := InvalidContainerSpec reason.

Definition is_ascii_lowercase (c : ascii) : bool :=
  let n := byte_of c in (97 <=? n) && (n <=? 122).

Definition MAX_NAME_LENGTH : Z := 63.
Definition MAX_IMAGE_LENGTH : Z := 255.
Definition MAX_PATH_LENGTH : Z := 4096.

Definition str_len (s : string) : Z := Z.of_nat (String.length s).

(** [s.starts_with(|c| p(c))] on the first character. *)
Definition first_is (p : ascii -> bool) (s : string) : bool :=
  match s with EmptyString => false | String c _ => p c end.

(** [s.ends_with(|c| p(c))] on the last character, for ASCII predicates. *)
Definition last_is (p : ascii -> bool) (s : string) : bool :=
  is_some_and p (last (String.list_ascii_of_string s)).

(** ** Names *)

Definition name_char (c : ascii) : bool := is_ascii_lowercase c || is_ascii_digit c || str_contains_char "_.-" c.

Definition check_name (kind value : string) : result unit Error :=
  let first_valid := first_is (fun c => is_ascii_lowercase c || is_ascii_digit c) value in
  if (str_len value <=? MAX_NAME_LENGTH) && first_valid && str_forallb name_char value then Ok tt
  else Err (invalid (String.append "invalid " (String.append kind (String.append ": " value)))).

(** The types of [name_type!] differ only in the kind that the message names. *)
Definition checked_name (kind s : string) : result string Error :=
  let? _ := check_name kind s in Ok s.

Definition AppName_from_str : string -> result string Error := checked_name "app name".
Definition ContainerName_from_str : string -> result string Error := checked_name "container name".
Definition NetworkName_from_str : string -> result string Error := checked_name "network name".
Definition VolumeName_from_str : string -> result string Error := checked_name "volume name".
Definition ProjectName_from_str : string -> result string Error := checked_name "project name".
Definition ServiceName_from_str : string -> result string Error := checked_name "service name".

(** ** Image references *)


Notation ImageRef := string (only parsing).

(** [s.rfind(c)], as the texts before and after the last occurrence. *)
Fixpoint rsplit_once (c : ascii) (s : string) : option (string * string) :=
  match s with
  | EmptyString => None
  | String a r =>
      match rsplit_once c r with
      | Some (x, y) => Some (String a x, y)
      | None => if Ascii.eqb a c then Some (EmptyString, r) else None
      end
  end.

(** The directory part of a reference with its slash, and the name after it. *)
Definition image_dir (i : string) : string * string :=
  match rsplit_once "/" i with
  | Some (dir, name) => (String.append dir "/", name)
  | None => (EmptyString, i)
  end.

(** [ImageRef::split]. *)
Definition image_split (i : ImageRef) : string * string :=
  match split_once "@" i with
  | Some (repository, digest) => (repository, digest)
  | None =>
      let '(dir, name) := image_dir i in
      match rsplit_once ":" name with
      | Some (base, tag) => (String.append dir base, tag)
      | None => (i, "latest")
      end
  end.

Definition repository (i : ImageRef) : string := (image_split i).1.
Definition tag_or_digest (i : ImageRef) : string := (image_split i).2.

(** [s.matches(c).count()]. *)
Fixpoint count_char (c : ascii) (s : string) : nat :=
  match s with
  | EmptyString => O
  | String a r => if Ascii.eqb a c then S (count_char c r) else count_char c r
  end.

Definition image_char (c : ascii) : bool := is_ascii_alphanumeric c || str_contains_char "._-/:@" c.

Definition check_image (value : string) : result unit Error :=
  let valid := negb (str_is_empty value)
               && (str_len value <=? MAX_IMAGE_LENGTH)
               && str_forallb image_char value
               && first_is is_ascii_alphanumeric value
               && (count_char "@" value <=? 1)%nat
               && negb (str_contains "//" value)
               && negb (last_is (str_contains_char ":/@") value) in
  if valid then Ok tt else Err (invalid (String.append "invalid image reference: " value)).

Definition ImageRef_from_str (s : string) : result ImageRef Error := let? _ := check_image s in Ok s.

(** ** Environment keys and container paths *)

Definition check_env_key (value : string) : result unit Error :=
  let valid := (str_len value <=? MAX_PATH_LENGTH)
               && first_is (fun c => is_ascii_alphabetic c || Ascii.eqb c "_") value
               && str_forallb (fun c => is_ascii_alphanumeric c || Ascii.eqb c "_") value in
  if valid then Ok tt else Err (invalid (String.append "invalid environment variable name: " value)).

Definition EnvKey_from_str (s : string) : result string Error := let? _ := check_env_key s in Ok s.

Definition NUL : ascii := "000".

Definition check_container_path (value : string) : result unit Error :=
  let valid := starts_with "/" value
               && (str_len value <=? MAX_PATH_LENGTH)
               && negb (str_contains_char value NUL)
               && negb (existsb (String.eqb "..") (split_on "/" value)) in
  if valid then Ok tt else Err (invalid (String.append "invalid container path: " value)).

Definition ContainerPath_from_str (s : string) : result string Error := let? _ := check_container_path s in Ok s.

(** ** The specification of a container *)

Record EnvVar : Type := mkEnvVar { var_key : string; var_value : string }.

Record VolumeMount : Type := mkVolumeMount { mount_volume : string; mount_target : string; mount_read_only : bool }.

Inductive RestartPolicy : Type := RestartNo | OnFailure | UnlessStopped | Always.

Definition RestartPolicy_default : RestartPolicy := UnlessStopped.

Definition docker_name (r : RestartPolicy) : string :=
  match r with RestartNo => "no" | OnFailure => "on-failure" | UnlessStopped => "unless-stopped" | Always => "always" end.

Record ResourceLimits : Type := mkResourceLimits {
  memory_bytes : option Z;
  nano_cpus : option Z;
  memory_swap_bytes : option Z;
  pids_limit : option Z;
}.

Definition ResourceLimits_default : ResourceLimits := mkResourceLimits None None None None.

#[export] Instance EnvVar_eq_dec : EqDecision EnvVar.
Proof. solve_decision. Defined.
#[export] Instance VolumeMount_eq_dec : EqDecision VolumeMount.
Proof. solve_decision. Defined.
#[export] Instance RestartPolicy_eq_dec : EqDecision RestartPolicy.
Proof. solve_decision. Defined.
#[export] Instance ResourceLimits_eq_dec : EqDecision ResourceLimits.
Proof. solve_decision. Defined.

Record ContainerSpec : Type := mkContainerSpec {
  cs_name : string;
  cs_image : ImageRef;
  cs_env : list EnvVar;
  cs_labels : list (string * string);
  cs_network : option string;
  cs_volumes : list VolumeMount;
  cs_restart : RestartPolicy;
  cs_limits : ResourceLimits;
  cs_publish : option Z;
  cs_host_port : option Z;
  cs_extra_hosts : list (string * string);
  cs_log_max_size : option string;
  cs_log_max_file : option string;
  cs_command : option (list string);
}.

Definition label_key_char (c : ascii) : bool := is_ascii_lowercase c || is_ascii_digit c || str_contains_char "._-" c.

Definition check_label (key value : string) : result unit Error :=
  let valid_key := negb (str_is_empty key) && (str_len key <=? MAX_PATH_LENGTH) && str_forallb label_key_char key in
  if valid_key && negb (str_contains_char value NUL) then Ok tt
  else Err (invalid (String.append "invalid label: " key)).

(** [for x in l { check(x)?; }]. *)
Fixpoint try_for_each {A E} (check : A -> result unit E) (l : list A) : result unit E :=
  match l with
  | [] => Ok tt
  | a :: r => let? _ := check a in try_for_each check r
  end.

Definition ContainerSpec_validate (s : ContainerSpec) : result unit Error :=
  match find (fun var => str_contains_char (var_value var) NUL) (cs_env s) with
  | Some var => Err (invalid (String.append "the value of " (String.append (var_key var) " contains a NUL character")))
  | None => try_for_each (fun kv => check_label kv.1 kv.2) (cs_labels s)
  end.

(** ** Git sources *)

Definition MAX_LENGTH : Z := 1024.

(** What the checks read of a [Url] of the [url] crate. *)
Record Url : Type := mkUrl {
  url_scheme : string;
  url_host_str : option string;
  url_username : string;
  url_password : option string;
  url_query : option string;
  url_fragment : option string;
}.

Class UrlParser : Type := { Url_parse : string -> option Url }.

Definition has_only_host_and_path (u : Url) : bool :=
  str_is_empty (url_username u) && is_none (url_password u) && is_none (url_query u) && is_none (url_fragment u).

Definition check_repo_url `{UrlParser} (value : string) : result unit Error :=
  match Url_parse value with
  | None => Err (invalid (String.append "invalid repository URL: " value))
  | Some url =>
      let valid := (str_len value <=? MAX_LENGTH)
                   && str_forallb is_ascii_graphic value
                   && String.eqb (url_scheme url) "https"
                   && is_some (url_host_str url)
                   && has_only_host_and_path url in
      if valid then Ok tt
      else Err (invalid (String.append
             "a repository URL must be https:// without credentials, a query or a fragment: " value))
  end.

Definition RepoUrl_from_str `{UrlParser} (s : string) : result string Error := let? _ := check_repo_url s in Ok s.

Definition safe_char (c : ascii) : bool := is_ascii_alphanumeric c || str_contains_char "._/-" c.

Definition has_safe_chars (value : string) : bool :=
  negb (str_is_empty value) && (str_len value <=? MAX_LENGTH) && str_forallb safe_char value.

Definition check_git_ref (value : string) : result unit Error :=
  let valid := has_safe_chars value
               && negb (first_is (str_contains_char "-/.") value)
               && negb (last_is (str_contains_char "/.") value)
               && negb (ends_with ".lock" value)
               && negb (existsb (fun part => str_contains part value) [".."; "//"; "/."]) in
  if valid then Ok tt else Err (invalid (String.append "invalid branch name: " value)).

Definition GitRef_from_str (s : string) : result string Error := let? _ := check_git_ref s in Ok s.
Definition GitRef_main : string := "main".

Definition check_rel_path (value : string) : result unit Error :=
  let valid := has_safe_chars value
               && negb (first_is (str_contains_char "/-") value)
               && negb (existsb (String.eqb "..") (split_on "/" value)) in
  if valid then Ok tt else Err (invalid (String.append "invalid path in the repository: " value)).

Definition RelPath_from_str (s : string) : result string Error := let? _ := check_rel_path s in Ok s.
Definition RelPath_dockerfile : string := "Dockerfile".
Definition RelPath_root : string := ".".

Definition is_lower_hex (c : ascii) : bool := is_ascii_digit c || ((97 <=? byte_of c) && (byte_of c <=? 102)).

Definition check_commit_sha (value : string) : result unit Error :=
  let valid := ((str_len value =? 40) || (str_len value =? 64)) && str_forallb is_lower_hex value in
  if valid then Ok tt else Err (invalid (String.append "invalid commit: " value)).

Definition CommitSha_from_str (s : string) : result string Error := let? _ := check_commit_sha s in Ok s.

Example image_examples :
  map (fun s => (repository s, tag_or_digest s))
    ["nginx"; "nginx:1.27"; "ghcr.io/owner/app"; "registry.example:5000/app"; "registry.example:5000/app:v2";
     "app@sha256:abc"; "nginx:1.27@sha256:abc"]
  = [("nginx", "latest"); ("nginx", "1.27"); ("ghcr.io/owner/app", "latest"); ("registry.example:5000/app", "latest");
     ("registry.example:5000/app", "v2"); ("app", "sha256:abc"); ("nginx:1.27", "sha256:abc")].
Proof. vm_compute. reflexivity. Qed.

Example git_examples :
  map (fun s => is_ok (GitRef_from_str s)) ["main"; "feature/x.y-1"; "-f"; "a..b"; "a/.b"; "a.lock"; "a/"; ""; "a b"]
  = [true; true; false; false; false; false; false; false; false]
  /\ map (fun s => is_ok (RelPath_from_str s)) ["."; "Dockerfile"; "a/../b"; "/etc"; "-x"; "a/..b"]
     = [true; true; false; false; false; true].
Proof. vm_compute. split; reflexivity. Qed.

(** ** Image references keep their parts *)

Lemma split_once_eq c s x y : split_once c s = Some (x, y) -> s = String.append x (String c y) /\ char_free c x = true.
Proof.
  revert x y. induction s as [|a s IH]; cbn; intros x y H; [done|].
  destruct (Ascii.eqb a c) eqn:E; [apply Ascii.eqb_eq in E as ->; by injection H as <- <-|].
  destruct (split_once c s) as [[x' y']|] eqn:Es; [|done]. injection H as <- <-.
  destruct (IH x' y' eq_refl) as [-> Hf]. split; [done|]. cbn. by rewrite E.
Qed.

Lemma rsplit_once_eq c s x y : rsplit_once c s = Some (x, y) -> s = String.append x (String c y) /\ char_free c y = true.
Proof.
  revert x y. induction s as [|a s IH]; cbn; intros x y H; [done|].
  destruct (rsplit_once c s) as [[x' y']|] eqn:Es.
  - injection H as <- <-. destruct (IH x' y' eq_refl) as [-> Hf]. done.
  - destruct (Ascii.eqb a c) eqn:E; [|done]. apply Ascii.eqb_eq in E as ->. injection H as <- <-. split; [done|].
    clear IH. induction s as [|b s IHs]; [done|]. cbn in *. destruct (rsplit_once c s) as [[]|]; [done|].
    destruct (Ascii.eqb b c); [done|]. by apply IHs.
Qed.

Lemma rsplit_once_none c s : rsplit_once c s = None -> char_free c s = true.
Proof.
  induction s as [|a s IH]; [done|]. cbn. destruct (rsplit_once c s) as [[]|]; [done|].
  destruct (Ascii.eqb a c); [done|]. intros _. by apply IH.
Qed.

Lemma last_append a b : b <> "" -> last (String.list_ascii_of_string (String.append a b)) = last (String.list_ascii_of_string b).
Proof.
  intros Hb. induction a as [|x a IH]; [done|]. cbn [String.append String.list_ascii_of_string].
  rewrite last_cons, IH. destruct (last (String.list_ascii_of_string b)) eqn:E; [done|].
  apply last_None in E. by destruct b.
Qed.

(** The end of an accepted text is not the character in front of an empty part. *)
Lemma last_is_append p a c b :
  last_is p (String.append a (String c b)) = false -> p c = true -> b <> "".
Proof.
  intros H Hp ->. unfold last_is in H. rewrite last_append in H by done. cbn in H. by rewrite Hp in H.
Qed.

Lemma first_is_append p a c b :
  first_is p (String.append a (String c b)) = true -> p c = false -> a <> "".
Proof. intros H Hp ->. cbn in H. by rewrite Hp in H. Qed.

Lemma check_image_ok s i : ImageRef_from_str s = Ok i ->
  i = s /\ first_is is_ascii_alphanumeric s = true /\ last_is (str_contains_char ":/@") s = false.
Proof.
  unfold ImageRef_from_str, check_image. destruct (_ && _) eqn:E; [|done]. cbn. intros [= <-].
  repeat (apply andb_prop in E as [E ?]). repeat split; [done|]. by apply negb_true_iff.
Qed.

(** How an accepted reference is put together from its two parts. *)
Inductive image_form (i : string) : Prop :=
| FormDigest : i = String.append (repository i) (String "@" (tag_or_digest i)) -> image_form i
| FormTag : i = String.append (repository i) (String ":" (tag_or_digest i)) -> char_free "@" i = true ->
    char_free "/" (tag_or_digest i) = true -> image_form i
| FormPlain : i = repository i -> tag_or_digest i = "latest" -> char_free "@" i = true -> image_form i.

Lemma split_once_free c s : split_once c s = None -> char_free c s = true.
Proof.
  induction s as [|a s IH]; [done|]. cbn. destruct (Ascii.eqb a c); [done|].
  destruct (split_once c s) as [[]|]; [done|]. intros _. by apply IH.
Qed.

Lemma image_dir_eq i dir name : image_dir i = (dir, name) ->
  i = String.append dir name /\ char_free "/" name = true.
Proof.
  unfold image_dir. destruct (rsplit_once "/" i) as [[d n]|] eqn:E; intros [= <- <-].
  - apply rsplit_once_eq in E as [-> Hf]. split; [|done]. by rewrite <-append_assoc.
  - by apply rsplit_once_none in E.
Qed.

(** An accepted image reference is its repository and its tag or digest with the separator
    between them, neither of them is empty, and only a reference without a tag and a digest gets
    [latest]. *)
Theorem image_reference_parts s i :
  ImageRef_from_str s = Ok i -> image_form i /\ repository i <> "" /\ tag_or_digest i <> "".
Proof.
  intros H. apply check_image_ok in H as (-> & Hfirst & Hlast).
  destruct (split_once "@" s) as [[r d]|] eqn:E1.
  - assert (Hr : repository s = r /\ tag_or_digest s = d) by (unfold repository, tag_or_digest, image_split; by rewrite E1).
    destruct Hr as [Hr Hd]. apply split_once_eq in E1 as [Heq _]. split; [apply FormDigest; by rewrite Hr, Hd|].
    rewrite Hr, Hd. rewrite Heq in Hfirst, Hlast. split; [by eapply first_is_append|by eapply last_is_append].
  - destruct (image_dir s) as [dir name] eqn:E2. assert (E2' := E2). apply image_dir_eq in E2' as [Heq Hname].
    destruct (rsplit_once ":" name) as [[b t]|] eqn:E3.
    + assert (Hr : repository s = String.append dir b /\ tag_or_digest s = t).
      { unfold repository, tag_or_digest, image_split. rewrite E1, E2, E3. by split. }
      destruct Hr as [Hr Hd]. apply rsplit_once_eq in E3 as [-> _].
      assert (Heq' : s = String.append (String.append dir b) (String ":" t)) by (rewrite Heq, append_assoc; done).
      split.
      { apply FormTag; [by rewrite Hr, Hd| |].
        - by apply split_once_free.
        - rewrite Hd. unfold char_free in *. rewrite str_forallb_append in Hname. cbn in Hname. by apply andb_prop in Hname as [_ Hname]. }
      rewrite Hr, Hd. rewrite Heq' in Hfirst, Hlast. split; [by eapply first_is_append|by eapply last_is_append].
    + assert (Hr : repository s = s /\ tag_or_digest s = "latest").
      { unfold repository, tag_or_digest, image_split. rewrite E1, E2, E3. by split. }
      destruct Hr as [Hr Hd]. split; [apply FormPlain; [done|done|by apply split_once_free]|].
      rewrite Hr, Hd. split; [|done]. by destruct s.
Qed.

Lemma image_reference_parts_witness :
  let i := "registry.example:5000/app:v2" in
  ImageRef_from_str i = Ok i /\ image_form i /\ repository i <> "" /\ tag_or_digest i <> "".
Proof. split; [by vm_compute|]. apply (image_reference_parts "registry.example:5000/app:v2"). by vm_compute. Defined.

(** A reference with a tag and a digest keeps its tag in the repository part. *)
Theorem digest_repository_keeps_tag r t d :
  char_free "@" r = true -> char_free "@" t = true ->
  repository (String.append r (String ":" (String.append t (String "@" d)))) = String.append r (String ":" t).
Proof.
  intros Hr Ht. unfold repository, image_split.
  assert (H : forall a b, char_free "@" a = true -> split_once "@" (String.append a (String "@" b)) = Some (a, b)).
  { intros a b. induction a as [|x a IH]; [done|]. cbn. intros Hf. apply andb_prop in Hf as [Hx Hf].
    apply negb_true_iff in Hx. rewrite Hx. cbn. by rewrite (IH Hf). }
  change (String ":" (String.append t (String "@" d))) with (String.append (String ":" t) (String "@" d)).
  rewrite append_assoc, H; [done|]. unfold char_free in *. rewrite str_forallb_append, Hr. cbn. done.
Qed.

Lemma digest_repository_keeps_tag_witness : repository "nginx:1.27@sha256:abc" = "nginx:1.27".
Proof. apply (digest_repository_keeps_tag "nginx" "1.27" "sha256:abc"); by vm_compute. Defined.

(** ** Checked paths stay inside their directory *)

(** Where a path leads from a directory, as its segments from the root: an empty segment and [.]
    stay, [..] goes up (the root is its own parent). *)
Definition walk_step (dir : list string) (segment : string) : list string :=
  if str_is_empty segment || String.eqb segment "." then dir
  else if String.eqb segment ".." then removelast dir
  else dir ++ [segment].

Definition walk (dir : list string) (path : string) : list string := fold_left walk_step (split_on "/" path) dir.

Lemma walk_inside segments dir : ".." ∉ segments -> exists below, fold_left walk_step segments dir = dir ++ below.
Proof.
  revert dir. induction segments as [|p l IH]; intros dir H; [by exists []; rewrite app_nil_r|].
  apply not_elem_of_cons in H as [Hp Hl]. cbn [fold_left]. unfold walk_step at 2.
  destruct (_ || _); [by apply IH|]. destruct (String.eqb_spec p ".."); [by subst|].
  destruct (IH (dir ++ [p]) Hl) as [below ->]. exists (p :: below). by rewrite <-app_assoc.
Qed.

Lemma existsb_eqb_false x l : existsb (String.eqb x) l = false -> x ∉ l.
Proof.
  induction l as [|y l IH]; cbn; intros H; [by apply not_elem_of_nil|]. apply orb_false_elim in H as [H1 H2].
  apply not_elem_of_cons. split; [by apply String.eqb_neq|by apply IH].
Qed.



(** A piece of [split] lies between separators or the ends of the text. *)
Lemma join_split c s : join_with c (split_on c s) = s.
Proof.
  induction s as [|x r IH]; [done|]. unfold split_on in *. cbn [split_by].
  destruct (Ascii.eqb x c) eqn:E.
  - apply Ascii.eqb_eq in E as ->. destruct (split_by _ r) as [|y l] eqn:El; [by apply split_by_nonempty in El|].
    change (String c (join_with c (y :: l)) = String c r). by rewrite IH.
  - destruct (split_by _ r) as [|y l] eqn:El; [by apply split_by_nonempty in El|]. rewrite <-IH. by destruct l.
Qed.

Definition after_sep (c : ascii) (a : string) : Prop := a = "" \/ exists a', a = String.append a' (String c "").
Definition before_sep (c : ascii) (b : string) : Prop := b = "" \/ exists b', b = String c b'.

Lemma join_with_between c p l1 l2 :
  exists a b, join_with c (l1 ++ p :: l2) = String.append a (String.append p b) /\ after_sep c a /\ before_sep c b.
Proof.
  induction l1 as [|x l1 IH].
  - exists "". destruct l2 as [|y l2]; [exists ""|exists (String c (join_with c (y :: l2)))]; cbn [app join_with].
    + rewrite append_nil_r. split; [done|]. split; by left.
    + split; [done|]. split; [by left|right; by eexists].
  - destruct IH as (a & b & IH & Ha & Hb).
    exists (String.append x (String c a)), b. split; [|split; [right|done]].
    + cbn [app]. destruct (l1 ++ p :: l2) as [|y l] eqn:El; [by destruct l1|].
      change (join_with c (x :: y :: l)) with (String.append x (String c (join_with c (y :: l)))).
      rewrite IH, <-append_assoc. done.
    + destruct Ha as [->|[a' ->]]; [by exists x|]. exists (String.append x (String c a')). by rewrite <-append_assoc.
Qed.

Lemma split_on_between c p s : p ∈ split_on c s ->
  exists a b, s = String.append a (String.append p b) /\ after_sep c a /\ before_sep c b.
Proof.
  intros (l1 & l2 & E)%list_elem_of_split. assert (Hj := join_split c s). rewrite E in Hj. rewrite <-Hj. apply join_with_between.
Qed.

Lemma starts_with_append p s : starts_with p (String.append p s) = true.
Proof. induction p as [|x p IH]; [done|]. cbn. by rewrite Ascii.eqb_refl. Qed.

Lemma str_contains_append n a b : str_contains n (String.append a (String.append n b)) = true.
Proof.
  induction a as [|x a IH]; cbn [String.append].
  - destruct n as [|y n]; [by destruct b|]. cbn [String.append str_contains]. change (String y (String.append n b)) with (String.append (String y n) b).
    by rewrite starts_with_append.
  - cbn [str_contains]. by rewrite IH, orb_true_r.
Qed.

(** A segment of a path whose text has no [".."], no ["//"] and no ["/."] inside. *)
Lemma git_ref_segments s :
  Forall (fun part => str_contains part s = false) [".."; "//"; "/."] ->
  first_is (str_contains_char "-/.") s = false -> last_is (str_contains_char "/.") s = false -> s <> "" ->
  Forall (fun p => p <> "" /\ starts_with "." p = false /\ p <> "..") (split_on "/" s).
Proof.
  intros Hc Hf Hl Hne. apply Forall_forall. intros p Hp.
  apply split_on_between in Hp as (a & b & -> & Ha & Hb).
  rewrite !Forall_cons in Hc. destruct Hc as (H1 & H2 & H3 & _). split; [|split].
  - intros ->. cbn [String.append] in *. destruct Ha as [->|[a' ->]].
    + destruct Hb as [->|[b' ->]]; [done|]. by cbn in Hf.
    + destruct Hb as [->|[b' ->]].
      * rewrite append_nil_r in Hl. unfold last_is in Hl. by rewrite last_append in Hl.
      * rewrite <-append_assoc in H2. cbn [String.append] in H2.
        change (String "/" (String "/" b')) with (String.append "//" b') in H2. by rewrite str_contains_append in H2.
  - destruct p as [|x p]; [done|]. cbn [starts_with]. rewrite andb_true_r. apply not_true_is_false. intros E.
    apply Ascii.eqb_eq in E as <-. destruct Ha as [->|[a' ->]]; [by cbn in Hf|].
    rewrite <-append_assoc in H3. cbn [String.append] in H3.
    change (String "/" (String "." (String.append p b))) with (String.append "/." (String.append p b)) in H3.
    by rewrite str_contains_append in H3.
  - intros ->. by rewrite str_contains_append in H1.
Qed.

Lemma check_git_ref_ok s : is_ok (GitRef_from_str s) = true ->
  s <> "" /\ first_is (str_contains_char "-/.") s = false /\ last_is (str_contains_char "/.") s = false
  /\ Forall (fun part => str_contains part s = false) [".."; "//"; "/."].
Proof.
  unfold GitRef_from_str, check_git_ref. destruct (_ && _) eqn:E; [|done]. intros _.
  apply andb_prop in E as [E H5]. apply andb_prop in E as [E _]. apply andb_prop in E as [E H3].
  apply andb_prop in E as [E H2]. unfold has_safe_chars in E. apply andb_prop in E as [E _]. apply andb_prop in E as [E _].
  apply negb_true_iff in H2, H3, H5, E. split; [by intros ->|]. repeat split; [done|done|].
  cbn [existsb] in H5. repeat (apply orb_false_elim in H5 as [? H5]). by repeat constructor.
Qed.

Lemma check_rel_path_ok s : is_ok (RelPath_from_str s) = true ->
  first_is (str_contains_char "/-") s = false /\ ".." ∉ split_on "/" s.
Proof.
  unfold RelPath_from_str, check_rel_path. destruct (_ && _) eqn:E; [|done]. intros _.
  apply andb_prop in E as [E H3]. apply andb_prop in E as [_ H2]. apply negb_true_iff in H2, H3.
  split; [done|]. by apply existsb_eqb_false.
Qed.

Lemma check_container_path_ok s : is_ok (ContainerPath_from_str s) = true -> ".." ∉ split_on "/" s.
Proof.
  unfold ContainerPath_from_str, check_container_path. destruct (_ && _) eqn:E; [|done]. intros _.
  apply andb_prop in E as [_ H]. apply negb_true_iff in H. by apply existsb_eqb_false.
Qed.

Lemma not_option s c p : first_is p s = false -> p c = true -> starts_with (String c "") s = false.
Proof.
  destruct s as [|x s]; [done|]. cbn. intros H Hc. rewrite andb_true_r. apply not_true_is_false. intros E.
  apply Ascii.eqb_eq in E as <-. congruence.
Qed.

(** An accepted branch or path of a checkout is no option of a command and not absolute; from
    any directory an accepted branch, path of a checkout or path in a container leads to that
    directory or below it; and no segment of a branch is empty or hidden. *)
Theorem checked_paths_stay_inside s dir :
  (is_ok (GitRef_from_str s) = true \/ is_ok (RelPath_from_str s) = true ->
    starts_with "-" s = false /\ starts_with "/" s = false)
  /\ (is_ok (GitRef_from_str s) = true \/ is_ok (RelPath_from_str s) = true \/ is_ok (ContainerPath_from_str s) = true ->
    exists below, walk dir s = dir ++ below)
  /\ (is_ok (GitRef_from_str s) = true -> Forall (fun p => p <> "" /\ starts_with "." p = false) (split_on "/" s)).
Proof.
  split; [|split].
  - intros [H|H]; [apply check_git_ref_ok in H as (_ & H & _)|apply check_rel_path_ok in H as [H _]];
      split; by apply (not_option _ _ _ H).
  - intros H. apply walk_inside. destruct H as [H|[H|H]].
    + apply check_git_ref_ok in H as (? & ? & ? & ?). intros Hin.
      assert (Hs : Forall (fun p => p <> "" /\ starts_with "." p = false /\ p <> "..") (split_on "/" s)) by (apply git_ref_segments; done).
      rewrite Forall_forall in Hs. by destruct (Hs _ Hin) as (_ & _ & []).
    + by apply check_rel_path_ok in H as [_ H].
    + by apply check_container_path_ok.
  - intros H. apply check_git_ref_ok in H as (? & ? & ? & ?). eapply Forall_impl; [by apply git_ref_segments|].
    cbn. by intros p (? & ? & ?).
Qed.

Lemma checked_paths_stay_inside_witness :
  is_ok (GitRef_from_str "feature/x") = true /\ is_ok (RelPath_from_str "a/./b") = true
  /\ is_ok (ContainerPath_from_str "/data//x") = true
  /\ starts_with "-" "feature/x" = false /\ (exists below, walk ["srv"] "a/./b" = ["srv"] ++ below)
  /\ (exists below, walk ["srv"] "/data//x" = ["srv"] ++ below)
  /\ Forall (fun p => p <> "" /\ starts_with "." p = false) (split_on "/" "feature/x").
Proof.
  do 3 (split; [by vm_compute|]).
  split; [apply (checked_paths_stay_inside "feature/x" []); left; by vm_compute|].
  split; [apply (checked_paths_stay_inside "a/./b" ["srv"]); right; left; by vm_compute|].
  split; [apply (checked_paths_stay_inside "/data//x" ["srv"]); right; right; by vm_compute|].
  apply (checked_paths_stay_inside "feature/x" []). by vm_compute.
Defined.
