(* ===== verification/Compose.v ===== *)
(** * The architecture of a Compose file

    [r3v3rs3-api/src/compose_graph.rs], and the services of a Compose file from
    [r3v3rs3-api/src/platform.rs]: the nodes (services, networks, volumes) and edges that the panel
    draws.  The vectors and sets that the helpers of the source fill through [&mut] are the record
    [Graph], which every helper takes and returns.  The [serde_yaml] crate is the class [Yaml]:
    its values with their accessors, the entries of a mapping in their order, and the lookup of a
    text key. *)

From Stdlib Require Import Ascii Sorting.Sorted.
From stdpp Require Import gmap sets strings.
From S2P Require Import Prelude Basics IpText Net Policy Quarantine Containers.

(** ** YAML *)

Record YamlError : Type := mkYamlError { err_line : option Z; err_text : string }.

Class Yaml : Type := {
  Value : Type;
  yaml_from_str : string -> result Value YamlError;
  as_str : Value -> option string;
  as_bool : Value -> option bool;
  as_u64 : Value -> option Z;
  as_sequence : Value -> option (list Value);
  as_mapping : Value -> option (list (Value * Value));
  mapping_get : list (Value * Value) -> string -> option Value; (* [map.get(Value::String(key))] *)
}.

(** ** Nodes and edges *)

Inductive ComposeNodeKind : Type := KService | KNetwork | KVolume.

Inductive ContainerHealth : Type := Starting | Healthy | Unhealthy.

Record ComposeServiceStatus : Type := mkComposeServiceStatus {
  st_service : string;
  st_container : string;
  st_state : string;
  st_health : option ContainerHealth;
  st_exit_code : option Z;
}.

Record ComposeServiceDetails : Type := mkComposeServiceDetails {
  sd_image : option string;
  sd_ports : list string;
  sd_is_entrypoint : bool;
  sd_state : option string;
  sd_health : option ContainerHealth;
  sd_container : option string;
  sd_env_count : nat;
  sd_restart : option string;
}.

Record ComposeVolumeDetails : Type := mkComposeVolumeDetails {
  vd_driver : option string;
  vd_external : bool;
  vd_is_bind_mount : bool;
  vd_source : option string;
}.

Record ComposeNetworkDetails : Type := mkComposeNetworkDetails { nd_driver : option string; nd_external : bool }.

Record ComposeNode : Type := mkComposeNode {
  node_id : string;
  node_name : string;
  node_kind : ComposeNodeKind;
  node_service : option ComposeServiceDetails;
  node_volume : option ComposeVolumeDetails;
  node_network : option ComposeNetworkDetails;
}.

Inductive ComposeEdgeKind : Type :=
| EDependsOn (condition : option string)
| ENetwork
| EVolume (target_path mode : option string)
| ELink.

Record ComposeEdge : Type := mkComposeEdge {
  edge_source : string;
  edge_target : string;
  edge_kind : ComposeEdgeKind;
  edge_label : option string;
}.

Record ComposeTopologySummary : Type := mkSummary {
  services_count : nat;
  networks_count : nat;
  volumes_count : nat;
  running_services : nat;
  healthy_services : nat;
}.

Definition Summary_default : ComposeTopologySummary := mkSummary 0 0 0 0 0.

Record ComposeTopology : Type := mkTopology {
  nodes : list ComposeNode;
  edges : list ComposeEdge;
  summary : ComposeTopologySummary;
}.

(** The vectors and sets under construction. *)
Record Graph : Type := mkGraph {
  g_nodes : list ComposeNode;
  g_edges : list ComposeEdge;
  declared_networks : gset string;
  declared_volumes : gset string;
}.

Definition push_node (n : ComposeNode) (g : Graph) : Graph :=
  mkGraph (g_nodes g ++ [n]) (g_edges g) (declared_networks g) (declared_volumes g).
Definition push_edge (e : ComposeEdge) (g : Graph) : Graph :=
  mkGraph (g_nodes g) (g_edges g ++ [e]) (declared_networks g) (declared_volumes g).
Definition declare_network (id : string) (g : Graph) : Graph :=
  mkGraph (g_nodes g) (g_edges g) ({[id]} ∪ declared_networks g) (declared_volumes g).
Definition declare_volume (id : string) (g : Graph) : Graph :=
  mkGraph (g_nodes g) (g_edges g) (declared_networks g) ({[id]} ∪ declared_volumes g).

Definition network_node (name : string) (d : ComposeNetworkDetails) : ComposeNode :=
  mkComposeNode (String.append "network:" name) name KNetwork None None (Some d).
Definition volume_node (id name : string) (d : ComposeVolumeDetails) : ComposeNode :=
  mkComposeNode id name KVolume None (Some d) None.
Definition service_node (name : string) (d : ComposeServiceDetails) : ComposeNode :=
  mkComposeNode (String.append "service:" name) name KService (Some d) None None.

Section Parser.
Context `{Y : Yaml}.

Definition get_str (m : list (Value * Value)) (key : string) : option string := mapping_get m key ≫= as_str.
Definition get_bool (m : list (Value * Value)) (key : string) : option bool := mapping_get m key ≫= as_bool.
Definition get_u64 (m : list (Value * Value)) (key : string) : option Z := mapping_get m key ≫= as_u64.
Definition get_mapping (m : list (Value * Value)) (key : string) : option (list (Value * Value)) :=
  mapping_get m key ≫= as_mapping.
Definition get_sequence (m : list (Value * Value)) (key : string) : option (list Value) :=
  mapping_get m key ≫= as_sequence.

(** The text keys of a mapping, in their order. *)
Definition str_keys (m : list (Value * Value)) : list string := omap (fun kv => as_str kv.1) m.

(** ** Top-level networks and volumes *)

Definition add_network (g : Graph) (kv : Value * Value) : Graph :=
  match as_str kv.1 with
  | None => g
  | Some net_name =>
      let net_map := as_mapping kv.2 in
      let driver := net_map ≫= fun m => get_str m "driver" in
      let external := unwrap_or (net_map ≫= fun m => get_bool m "external") false in
      push_node (network_node net_name (mkComposeNetworkDetails driver external))
        (declare_network (String.append "network:" net_name) g)
  end.

Definition parse_top_level_networks (map : list (Value * Value)) (g : Graph) : Graph :=
  match get_mapping map "networks" with
  | None => g
  | Some nets => fold_left add_network nets g
  end.

Definition add_volume (g : Graph) (kv : Value * Value) : Graph :=
  match as_str kv.1 with
  | None => g
  | Some vol_name =>
      let vol_map := as_mapping kv.2 in
      let driver := vol_map ≫= fun m => get_str m "driver" in
      let external := unwrap_or (vol_map ≫= fun m => get_bool m "external") false in
      let vol_id := String.append "volume:" vol_name in
      push_node (volume_node vol_id vol_name (mkComposeVolumeDetails driver external false (Some vol_name)))
        (declare_volume vol_id g)
  end.

Definition parse_top_level_volumes (map : list (Value * Value)) (g : Graph) : Graph :=
  match get_mapping map "volumes" with
  | None => g
  | Some vols => fold_left add_volume vols g
  end.

(** ** Services *)

(** What [extract_image_and_build] sets; [None] leaves the default. *)
Definition extract_image_and_build (map : list (Value * Value)) : option string :=
  match get_str map "image" with
  | Some img => Some img
  | None =>
      match mapping_get map "build" with
      | None => None
      | Some b =>
          match as_str b with
          | Some b_str => Some (String.append "build: " b_str)
          | None =>
              match as_mapping b with
              | Some b_map => Some (String.append "build: " (unwrap_or (get_str b_map "context") "."))
              | None => None
              end
          end
      end
  end.

Definition port_text (p : Value) : option string :=
  match as_str p with
  | Some p_str => Some p_str
  | None =>
      match as_u64 p with
      | Some p_num => Some (dec p_num)
      | None =>
          match as_mapping p with
          | None => None
          | Some p_map =>
              match get_u64 p_map "target" with
              | None => None
              | Some target =>
                  match get_u64 p_map "published" with
                  | Some published => Some (String.append (dec published) (String ":" (dec target)))
                  | None => Some (dec target)
                  end
              end
          end
      end
  end.

Definition extract_ports (map : list (Value * Value)) : list string :=
  match get_sequence map "ports" with
  | None => []
  | Some ports => omap port_text ports
  end.

Definition extract_env_count (map : list (Value * Value)) : nat :=
  match mapping_get map "environment" with
  | None => O
  | Some env =>
      match as_sequence env with
      | Some seq => length seq
      | None => match as_mapping env with Some m => length m | None => O end
      end
  end.

Definition build_service_details (name : string) (map : option (list (Value * Value)))
    (statuses : option (list ComposeServiceStatus)) (entrypoint_service : option string) : ComposeServiceDetails :=
  let st := statuses ≫= find (fun s => String.eqb (st_service s) name) in
  mkComposeServiceDetails
    (map ≫= extract_image_and_build)
    (match map with Some m => extract_ports m | None => [] end)
    (match entrypoint_service with Some entry => String.eqb entry name | None => false end)
    (option_map st_state st)
    (st ≫= st_health)
    (option_map st_container st)
    (match map with Some m => extract_env_count m | None => O end)
    (map ≫= fun m => get_str m "restart").

(** ** The edges of a service *)

Definition condition_label (c : string) : string :=
  if String.eqb c "service_healthy" then "healthy"
  else if String.eqb c "service_started" then "started"
  else if String.eqb c "service_completed_successfully" then "completed"
  else c.

Definition depends_item (svc_id : string) (g : Graph) (item : Value) : Graph :=
  match as_str item with
  | Some target_svc => push_edge (mkComposeEdge svc_id (String.append "service:" target_svc) (EDependsOn None) None) g
  | None => g
  end.

Definition depends_entry (svc_id : string) (g : Graph) (kv : Value * Value) : Graph :=
  match as_str kv.1 with
  | None => g
  | Some target_svc =>
      let condition := as_mapping kv.2 ≫= fun m => get_str m "condition" in
      let label := option_map condition_label condition in
      push_edge (mkComposeEdge svc_id (String.append "service:" target_svc) (EDependsOn condition) label) g
  end.

Definition collect_depends_on (svc_id : string) (map : list (Value * Value)) (g : Graph) : Graph :=
  match mapping_get map "depends_on" with
  | None => g
  | Some deps =>
      match as_sequence deps with
      | Some seq => fold_left (depends_item svc_id) seq g
      | None =>
          match as_mapping deps with
          | Some dep_map => fold_left (depends_entry svc_id) dep_map g
          | None => g
          end
      end
  end.

Definition service_network_names (nets : Value) : list string :=
  match as_sequence nets with
  | Some seq => omap as_str seq
  | None => match as_mapping nets with Some m => str_keys m | None => [] end
  end.

Definition attach_network (svc_id : string) (g : Graph) (net_name : string) : Graph :=
  let net_id := String.append "network:" net_name in
  let g1 := if bool_decide (net_id ∈ declared_networks g) then g
            else push_node (network_node net_name (mkComposeNetworkDetails None false)) (declare_network net_id g) in
  push_edge (mkComposeEdge svc_id net_id ENetwork None) g1.

Definition collect_service_networks (svc_id : string) (map : list (Value * Value)) (g : Graph) : Graph :=
  match mapping_get map "networks" with
  | None => g
  | Some nets => fold_left (attach_network svc_id) (service_network_names nets) g
  end.

Definition is_bind_source (source : string) : bool :=
  starts_with "." source || starts_with "/" source || starts_with "~" source.

Definition volume_id (source : string) : string :=
  if is_bind_source source then String.append "volume:bind:" source else String.append "volume:" source.

(** The common end of [parse_string_volume] and [parse_mapping_volume]. *)
Definition attach_volume (svc_id source : string) (target mode : option string) (g : Graph) : Graph :=
  let vol_id := volume_id source in
  let g1 := if bool_decide (vol_id ∈ declared_volumes g) then g
            else push_node (volume_node vol_id source (mkComposeVolumeDetails None false (is_bind_source source) (Some source)))
                   (declare_volume vol_id g) in
  push_edge (mkComposeEdge svc_id vol_id (EVolume target mode) mode) g1.

Definition parse_string_volume (svc_id vol_str : string) (g : Graph) : Graph :=
  let parts := split_on ":" vol_str in
  let source := trim (hd EmptyString parts) in
  if str_is_empty source then g
  else attach_volume svc_id source (option_map trim (parts !! 1%nat)) (option_map trim (parts !! 2%nat)) g.

Definition parse_mapping_volume (svc_id : string) (vol_map : list (Value * Value)) (g : Graph) : Graph :=
  let source := unwrap_or (get_str vol_map "source") EmptyString in
  if str_is_empty source then g
  else
    let read_only := unwrap_or (get_bool vol_map "read_only") false in
    attach_volume svc_id source (get_str vol_map "target") (if read_only then Some "ro" else None) g.

Definition service_volume (svc_id : string) (g : Graph) (item : Value) : Graph :=
  match as_str item with
  | Some vol_str => parse_string_volume svc_id vol_str g
  | None => match as_mapping item with Some vol_map => parse_mapping_volume svc_id vol_map g | None => g end
  end.

Definition collect_service_volumes (svc_id : string) (map : list (Value * Value)) (g : Graph) : Graph :=
  match get_sequence map "volumes" with
  | None => g
  | Some vols => fold_left (service_volume svc_id) vols g
  end.

Definition service_link (svc_id : string) (g : Graph) (l : Value) : Graph :=
  match as_str l with
  | None => g
  | Some link_str =>
      let target_svc := trim (hd link_str (split_on ":" link_str)) in
      if str_is_empty target_svc then g
      else push_edge (mkComposeEdge svc_id (String.append "service:" target_svc) ELink (Some "link")) g
  end.

Definition collect_service_links (svc_id : string) (map : list (Value * Value)) (g : Graph) : Graph :=
  match get_sequence map "links" with
  | None => g
  | Some links => fold_left (service_link svc_id) links g
  end.

Definition collect_service_edges (svc_name : string) (map : list (Value * Value)) (g : Graph) : Graph :=
  let svc_id := String.append "service:" svc_name in
  collect_service_links svc_id map
    (collect_service_volumes svc_id map (collect_service_networks svc_id map (collect_depends_on svc_id map g))).

Definition add_service (statuses : option (list ComposeServiceStatus)) (entrypoint_service : option string)
    (g : Graph) (kv : Value * Value) : Graph :=
  match as_str kv.1 with
  | None => g
  | Some svc_name =>
      let svc_map := as_mapping kv.2 in
      let details := build_service_details svc_name svc_map statuses entrypoint_service in
      let g1 := push_node (service_node svc_name details) g in
      match svc_map with
      | Some smap => collect_service_edges svc_name smap g1
      | None => g1
      end
  end.
End Parser.

(** ** The order and the summary *)

Definition kind_rank (k : ComposeNodeKind) : Z := match k with KService => 0 | KNetwork => 1 | KVolume => 2 end.

Definition node_cmp (a b : ComposeNode) : comparison :=
  match kind_rank (node_kind a) ?= kind_rank (node_kind b) with
  | Eq => String.compare (node_name a) (node_name b)
  | c => c
  end.

Definition edge_cmp (a b : ComposeEdge) : comparison :=
  match String.compare (edge_source a) (edge_source b) with
  | Eq => String.compare (edge_target a) (edge_target b)
  | c => c
  end.

Definition summary_step (s : ComposeTopologySummary) (node : ComposeNode) : ComposeTopologySummary :=
  match node_kind node with
  | KService =>
      let running := match node_service node with
                     | Some svc => match sd_state svc with Some st => String.eqb st "running" | None => false end
                     | None => false
                     end in
      let healthy := match node_service node with
                     | Some svc => match sd_health svc with Some Healthy => true | _ => false end
                     | None => false
                     end in
      mkSummary (S (services_count s)) (networks_count s) (volumes_count s)
        (running_services s + if running then 1 else 0) (healthy_services s + if healthy then 1 else 0)
  | KNetwork =>
      mkSummary (services_count s) (S (networks_count s)) (volumes_count s) (running_services s) (healthy_services s)
  | KVolume =>
      mkSummary (services_count s) (networks_count s) (S (volumes_count s)) (running_services s) (healthy_services s)
  end.

Definition calculate_summary (nodes : list ComposeNode) : ComposeTopologySummary :=
  fold_left summary_step nodes Summary_default.

Definition NOT_A_MAPPING : string := "compose YAML must be a mapping of top-level keys".

Definition yaml_error_text (err : YamlError) : string :=
  String.append "Line " (String.append (dec (unwrap_or (err_line err) 1)) (String.append ": " (err_text err))).

Section Topology.
Context `{Y : Yaml}.

(** The part of [parse_compose_topology] after the parse of the text. *)
Definition topology_graph (map : list (Value * Value)) (statuses : option (list ComposeServiceStatus))
    (entrypoint_service : option string) : Graph :=
  let g := parse_top_level_volumes map (parse_top_level_networks map (mkGraph [] [] ∅ ∅)) in
  match get_mapping map "services" with
  | None => g
  | Some services_map => fold_left (add_service statuses entrypoint_service) services_map g
  end.

Definition parse_compose_topology (yaml : string) (statuses : option (list ComposeServiceStatus))
    (entrypoint_service : option string) : result ComposeTopology string :=
  if str_is_empty (trim yaml) then Ok (mkTopology [] [] Summary_default)
  else
    match yaml_from_str yaml with
    | Err err => Err (yaml_error_text err)
    | Ok val =>
        match as_mapping val with
        | None => Err NOT_A_MAPPING
        | Some map =>
            let g := topology_graph map statuses entrypoint_service in
            let nodes := sort_by (fun a b => not_gt (node_cmp a b)) (g_nodes g) in
            let edges := sort_by (fun a b => not_gt (edge_cmp a b)) (g_edges g) in
            Ok (mkTopology nodes edges (calculate_summary nodes))
        end
    end.

Definition parse_compose_services (yaml : string) : result (list string) string :=
  match yaml_from_str yaml with
  | Err err => Err (yaml_error_text err)
  | Ok val =>
      match as_mapping val with
      | None => Err NOT_A_MAPPING
      | Some map =>
          match get_mapping map "services" with
          | None => Ok []
          | Some services => Ok (str_keys services)
          end
      end
  end.

Definition validate_compose_yaml (yaml service : string) : result unit Error :=
  match parse_compose_services yaml with
  | Err err => Err (invalid (String.append "invalid compose YAML: " err))
  | Ok services =>
      if negb (bool_decide (services = [])) && negb (existsb (fun s => String.eqb s service) services) then
        Err (invalid (String.append "service '" (String.append service (String.append "' not found in compose YAML (declared: "
          (String.append (String.concat ", " services) ")")))))
      else Ok tt
  end.
End Topology.

(** ** The graph while it is built *)

Definition kind_prefix (k : ComposeNodeKind) : string :=
  match k with KService => "service:" | KNetwork => "network:" | KVolume => "volume:" end.

#[export] Instance ComposeNodeKind_eq_dec : EqDecision ComposeNodeKind.
Proof. solve_decision. Defined.

(** The identifiers of the nodes, and of the nodes of one kind. *)
Definition ids (l : list ComposeNode) : list string := map node_id l.
Definition has_node (k : ComposeNodeKind) (id : string) (l : list ComposeNode) : Prop :=
  exists n, n ∈ l /\ node_kind n = k /\ node_id n = id.

(** The ends of an edge: its source is a service of the file, a network or volume edge ends at its
    node, and the other edges name a service. *)
Definition edge_ok (l : list ComposeNode) (e : ComposeEdge) : Prop :=
  has_node KService (edge_source e) l
  /\ match edge_kind e with
     | ENetwork => has_node KNetwork (edge_target e) l
     | EVolume _ _ => has_node KVolume (edge_target e) l
     | EDependsOn _ | ELink => starts_with "service:" (edge_target e) = true
     end.

Record graph_ok (g : Graph) : Prop := {
  ok_ids : NoDup (ids (g_nodes g));
  ok_prefix : Forall (fun n => starts_with (kind_prefix (node_kind n)) (node_id n) = true) (g_nodes g);
  ok_networks : forall id, has_node KNetwork id (g_nodes g) -> id ∈ declared_networks g;
  ok_networks_back : forall id, id ∈ declared_networks g -> has_node KNetwork id (g_nodes g);
  ok_volumes : forall id, has_node KVolume id (g_nodes g) -> id ∈ declared_volumes g;
  ok_volumes_back : forall id, id ∈ declared_volumes g -> has_node KVolume id (g_nodes g);
  ok_edges : Forall (edge_ok (g_nodes g)) (g_edges g);
}.

Lemma has_node_app k id l1 l2 : has_node k id l1 -> has_node k id (l1 ++ l2).
Proof. intros (n & H & Hk & Hi). exists n. split; [by apply elem_of_app; left|done]. Qed.

Lemma has_node_snoc k id l n : has_node k id (l ++ [n]) <-> has_node k id l \/ (node_kind n = k /\ node_id n = id).
Proof.
  split.
  - intros (m & [H|H]%elem_of_app & Hk & Hi); [left; by exists m|].
    apply list_elem_of_singleton in H as ->. by right.
  - intros [H|[Hk Hi]]; [by apply has_node_app|]. exists n. split; [apply elem_of_app; right; by left|done].
Qed.

Lemma edge_ok_app l1 l2 e : edge_ok l1 e -> edge_ok (l1 ++ l2) e.
Proof.
  intros [H1 H2]. split; [by apply has_node_app|]. destruct (edge_kind e); [done|by apply has_node_app|by apply has_node_app|done].
Qed.

Lemma edges_ok_app l1 l2 es : Forall (edge_ok l1) es -> Forall (edge_ok (l1 ++ l2)) es.
Proof. intros H. eapply Forall_impl; [done|]. intros e. apply edge_ok_app. Qed.

Lemma starts_with_head a p b r : starts_with (String a p) (String b r) = true -> a = b.
Proof. cbn. intros H. apply andb_prop in H as [H _]. by apply Ascii.eqb_eq. Qed.

Lemma ids_of_kinds g k n1 : graph_ok g -> n1 ∈ g_nodes g -> starts_with (kind_prefix k) (node_id n1) = true -> node_kind n1 = k.
Proof.
  intros Hg H Hs. assert (Hp := ok_prefix g Hg). rewrite Forall_forall in Hp. specialize (Hp n1 H).
  destruct (node_id n1) as [|a id]; [by destruct k|].
  destruct k, (node_kind n1); try done; exfalso;
    apply starts_with_head in Hs; apply starts_with_head in Hp; congruence.
Qed.

(** A node whose identifier carries the prefix of its kind and is not declared. *)
Lemma fresh_id g k id : graph_ok g -> starts_with (kind_prefix k) id = true -> ~ has_node k id (g_nodes g) -> id ∉ ids (g_nodes g).
Proof.
  intros Hg Hs Hn (n & -> & Hin)%list_elem_of_fmap. apply Hn. exists n. split; [done|]. split; [|done]. by apply (ids_of_kinds g).
Qed.

Lemma push_edge_ok e g : graph_ok g -> edge_ok (g_nodes g) e -> graph_ok (push_edge e g).
Proof. intros [] He. split; cbn; try done. apply Forall_app; split; [done|]. by constructor. Qed.

Lemma nodup_snoc (l : list string) x : NoDup l -> x ∉ l -> NoDup (l ++ [x]).
Proof.
  intros H Hx. apply NoDup_app. split; [done|]. split; [|apply NoDup_singleton].
  intros y Hy ->%list_elem_of_singleton. done.
Qed.

Lemma ids_snoc l n : ids (l ++ [n]) = ids l ++ [node_id n].
Proof. apply map_app. Qed.

Lemma push_service_ok name d g :
  graph_ok g -> ~ has_node KService (String.append "service:" name) (g_nodes g) -> graph_ok (push_node (service_node name d) g).
Proof.
  intros Hg Hn. assert (Hf := fresh_id g KService _ Hg (starts_with_append _ _) Hn). destruct Hg. split; cbn.
  - rewrite ids_snoc. by apply nodup_snoc.
  - apply Forall_app; split; [done|]. constructor; [apply (starts_with_append "service:")|done].
  - intros id [H|[H _]]%has_node_snoc; [by auto|done].
  - intros id H. apply has_node_app. auto.
  - intros id [H|[H _]]%has_node_snoc; [by auto|done].
  - intros id H. apply has_node_app. auto.
  - by apply edges_ok_app.
Qed.

Lemma push_network_ok name d g :
  graph_ok g -> String.append "network:" name ∉ declared_networks g ->
  graph_ok (push_node (network_node name d) (declare_network (String.append "network:" name) g)).
Proof.
  intros Hg Hn.
  assert (Hf : String.append "network:" name ∉ ids (g_nodes g)).
  { apply (fresh_id g KNetwork); [done|apply starts_with_append|]. intros H. by apply Hn, (ok_networks g). }
  destruct Hg. split; cbn [g_nodes g_edges push_node declare_network declared_networks declared_volumes].
  - rewrite ids_snoc. by apply nodup_snoc.
  - apply Forall_app; split; [done|]. constructor; [apply (starts_with_append "network:")|done].
  - intros id [H|[_ <-]]%has_node_snoc; apply elem_of_union; [right; auto|left; by apply elem_of_singleton].
  - intros id [->%elem_of_singleton|H]%elem_of_union; apply has_node_snoc; [by right|left; auto].
  - intros id [H|[H _]]%has_node_snoc; [by auto|done].
  - intros id H. apply has_node_app. auto.
  - by apply edges_ok_app.
Qed.

Lemma push_volume_ok id name d g :
  graph_ok g -> starts_with "volume:" id = true -> id ∉ declared_volumes g ->
  graph_ok (push_node (volume_node id name d) (declare_volume id g)).
Proof.
  intros Hg Hs Hn.
  assert (Hf : id ∉ ids (g_nodes g)).
  { apply (fresh_id g KVolume); [done|done|]. intros H. by apply Hn, (ok_volumes g). }
  destruct Hg. split; cbn [g_nodes g_edges push_node declare_volume declared_networks declared_volumes].
  - rewrite ids_snoc. by apply nodup_snoc.
  - apply Forall_app; split; [done|]. by constructor.
  - intros i [H|[H _]]%has_node_snoc; [by auto|done].
  - intros i H. apply has_node_app. auto.
  - intros i [H|[_ <-]]%has_node_snoc; apply elem_of_union; [right; auto|left; by apply elem_of_singleton].
  - intros i [->%elem_of_singleton|H]%elem_of_union; apply has_node_snoc; [by right|left; auto].
  - by apply edges_ok_app.
Qed.

(** What a step on the edges of one service keeps: the graph stays well-formed, nodes are only
    added, and none of them is a service. *)
Definition grows (g h : Graph) : Prop :=
  exists l, g_nodes h = g_nodes g ++ l /\ Forall (fun n => node_kind n <> KService) l.

Lemma grows_refl g : grows g g.
Proof. exists []. by rewrite app_nil_r. Qed.

Lemma grows_trans g h k : grows g h -> grows h k -> grows g k.
Proof.
  intros (l1 & E1 & H1) (l2 & E2 & H2). exists (l1 ++ l2). rewrite E2, E1, app_assoc. split; [done|]. by apply Forall_app.
Qed.

Lemma grows_service id g h : grows g h -> has_node KService id (g_nodes g) <-> has_node KService id (g_nodes h).
Proof.
  intros (l & -> & H). split; [apply has_node_app|]. intros (n & [Hn|Hn]%elem_of_app & Hk & Hi); [by exists n|].
  rewrite Forall_forall in H. by apply H in Hn.
Qed.

Definition service_edges_step (svc_id : string) (step : Graph -> Graph) : Prop :=
  forall g, graph_ok g -> has_node KService svc_id (g_nodes g) -> graph_ok (step g) /\ grows g (step g).

Lemma step_compose svc_id f h :
  service_edges_step svc_id f -> service_edges_step svc_id h -> service_edges_step svc_id (fun g => h (f g)).
Proof.
  intros Hf Hh g Hg Hs. destruct (Hf g Hg Hs) as [H1 G1]. destruct (Hh (f g) H1) as [H2 G2]; [by apply (grows_service _ _ _ G1)|].
  split; [done|]. by eapply grows_trans.
Qed.

Lemma step_fold {A} svc_id (f : Graph -> A -> Graph) l :
  (forall a, service_edges_step svc_id (fun g => f g a)) -> service_edges_step svc_id (fun g => fold_left f l g).
Proof.
  intros Hf. induction l as [|a l IH]; intros g Hg Hs; [split; [done|apply grows_refl]|]. cbn [fold_left].
  by apply (step_compose svc_id _ _ (Hf a) IH).
Qed.

Lemma step_id svc_id : service_edges_step svc_id (fun g => g).
Proof. intros g Hg Hs. split; [done|apply grows_refl]. Qed.

Lemma step_edge svc_id e :
  (edge_source e = svc_id /\ match edge_kind e with ENetwork | EVolume _ _ => False | _ => starts_with "service:" (edge_target e) = true end) ->
  service_edges_step svc_id (push_edge e).
Proof.
  intros [Hsrc Hk] g Hg Hs. split; [|exists []; by rewrite app_nil_r]. apply push_edge_ok; [done|].
  split; [by rewrite Hsrc|]. by destruct (edge_kind e).
Qed.

Lemma attach_network_step svc_id name : service_edges_step svc_id (fun g => attach_network svc_id g name).
Proof.
  intros g Hg Hs. unfold attach_network. case_bool_decide as Hd.
  - split; [|exists []; by rewrite app_nil_r]. apply push_edge_ok; [done|]. split; [done|]. by apply (ok_networks_back g).
  - split.
    + apply push_edge_ok; [by apply push_network_ok|]. split; [by apply has_node_app|]. cbn. apply has_node_snoc. by right.
    + exists [network_node name (mkComposeNetworkDetails None false)]. split; [done|]. by repeat constructor.
Qed.

Lemma volume_id_prefix source : starts_with "volume:" (volume_id source) = true.
Proof. unfold volume_id. destruct (is_bind_source source); apply (starts_with_append "volume:"). Qed.

Lemma attach_volume_step svc_id source target mode : service_edges_step svc_id (attach_volume svc_id source target mode).
Proof.
  intros g Hg Hs. unfold attach_volume. case_bool_decide as Hd.
  - split; [|exists []; by rewrite app_nil_r]. apply push_edge_ok; [done|]. split; [done|]. by apply (ok_volumes_back g).
  - split.
    + apply push_edge_ok; [apply push_volume_ok; [done|apply volume_id_prefix|done]|].
      split; [by apply has_node_app|]. cbn. apply has_node_snoc. by right.
    + eexists. split; [done|]. by repeat constructor.
Qed.

Section Building.
Context `{Y : Yaml}.

Lemma depends_item_step svc_id item : service_edges_step svc_id (fun g => depends_item svc_id g item).
Proof. unfold depends_item. destruct (as_str item) as [t|]; [by apply step_edge|apply step_id]. Qed.

Lemma depends_entry_step svc_id kv : service_edges_step svc_id (fun g => depends_entry svc_id g kv).
Proof. unfold depends_entry. destruct (as_str kv.1) as [t|]; [by apply step_edge|apply step_id]. Qed.

Lemma service_link_step svc_id l : service_edges_step svc_id (fun g => service_link svc_id g l).
Proof.
  unfold service_link. destruct (as_str l) as [t|]; [|apply step_id].
  destruct (str_is_empty _); [apply step_id|by apply step_edge].
Qed.

Lemma service_volume_step svc_id item : service_edges_step svc_id (fun g => service_volume svc_id g item).
Proof.
  unfold service_volume, parse_string_volume, parse_mapping_volume.
  destruct (as_str item) as [t|]; [|destruct (as_mapping item); [|apply step_id]];
    (destruct (str_is_empty _); [apply step_id|apply attach_volume_step]).
Qed.

Lemma collect_service_edges_step svc_name map :
  service_edges_step (String.append "service:" svc_name) (collect_service_edges svc_name map).
Proof.
  unfold collect_service_edges. set (svc_id := String.append "service:" svc_name).
  assert (H1 : service_edges_step svc_id (collect_depends_on svc_id map)).
  { unfold collect_depends_on. destruct (mapping_get map "depends_on") as [v|]; [|apply step_id].
    destruct (as_sequence v); [apply (step_fold _ (depends_item svc_id)), depends_item_step|].
    destruct (as_mapping v); [apply (step_fold _ (depends_entry svc_id)), depends_entry_step|apply step_id]. }
  assert (H2 : service_edges_step svc_id (collect_service_networks svc_id map)).
  { unfold collect_service_networks. destruct (mapping_get map "networks") as [v|]; [|apply step_id].
    apply (step_fold _ (attach_network svc_id)), attach_network_step. }
  assert (H3 : service_edges_step svc_id (collect_service_volumes svc_id map)).
  { unfold collect_service_volumes. destruct (get_sequence map "volumes") as [v|]; [|apply step_id].
    apply (step_fold _ (service_volume svc_id)), service_volume_step. }
  assert (H4 : service_edges_step svc_id (collect_service_links svc_id map)).
  { unfold collect_service_links. destruct (get_sequence map "links") as [v|]; [|apply step_id].
    apply (step_fold _ (service_link svc_id)), service_link_step. }
  exact (step_compose _ _ _ (step_compose _ _ _ (step_compose _ _ _ H1 H2) H3) H4).
Qed.

(** ** The sections of the file *)

Lemma append_inj p a b : String.append p a = String.append p b -> a = b.
Proof. induction p as [|c p IH]; [done|]. cbn. intros [= H]. by apply IH. Qed.

(** A section is folded one entry after another; each key gives one new node. *)
Lemma fold_networks nets g :
  NoDup (str_keys nets) -> graph_ok g ->
  Forall (fun n => String.append "network:" n ∉ declared_networks g) (str_keys nets) ->
  graph_ok (fold_left add_network nets g) /\ grows g (fold_left add_network nets g)
  /\ declared_volumes (fold_left add_network nets g) = declared_volumes g.
Proof.
  revert g. induction nets as [|[k v] nets IH]; intros g Hnd Hg Hfresh; cbn [fold_left]; [by split; [|split; [apply grows_refl|]]|].
  unfold str_keys in *. cbn [omap list_omap] in *. unfold add_network at 2 4 6. cbn [fst snd] in *.
  destruct (as_str k) as [name|]; [|by apply IH].
  apply NoDup_cons in Hnd as [Hn Hnd]. apply Forall_cons in Hfresh as [Hf Hfresh].
  set (d := mkComposeNetworkDetails _ _).
  destruct (IH (push_node (network_node name d) (declare_network (String.append "network:" name) g)) Hnd) as (H1 & H2 & H3).
  - by apply push_network_ok.
  - apply Forall_forall. intros n Hin. rewrite Forall_forall in Hfresh. cbn. intros [H%elem_of_singleton|H]%elem_of_union.
    + apply (append_inj "network:") in H. by subst.
    + by apply (Hfresh n Hin).
  - split; [done|]. split; [|done]. eapply grows_trans; [|exact H2]. exists [network_node name d]. split; [done|]. by repeat constructor.
Qed.

Lemma fold_volumes vols g :
  NoDup (str_keys vols) -> graph_ok g ->
  Forall (fun n => String.append "volume:" n ∉ declared_volumes g) (str_keys vols) ->
  graph_ok (fold_left add_volume vols g) /\ grows g (fold_left add_volume vols g).
Proof.
  revert g. induction vols as [|[k v] vols IH]; intros g Hnd Hg Hfresh; cbn [fold_left]; [by split; [|apply grows_refl]|].
  unfold str_keys in *. cbn [omap list_omap] in *. unfold add_volume at 2 4. cbn [fst snd] in *.
  destruct (as_str k) as [name|]; [|by apply IH].
  apply NoDup_cons in Hnd as [Hn Hnd]. apply Forall_cons in Hfresh as [Hf Hfresh].
  set (d := mkComposeVolumeDetails _ _ _ _).
  destruct (IH (push_node (volume_node (String.append "volume:" name) name d) (declare_volume (String.append "volume:" name) g)) Hnd) as [H1 H2].
  - apply push_volume_ok; [done|apply starts_with_append|done].
  - apply Forall_forall. intros n Hin. rewrite Forall_forall in Hfresh. cbn. intros [H%elem_of_singleton|H]%elem_of_union.
    + apply (append_inj "volume:") in H. by subst.
    + by apply (Hfresh n Hin).
  - split; [done|]. eapply grows_trans; [|exact H2]. eexists. split; [done|]. by repeat constructor.
Qed.

(** The services of a graph, in the order of their nodes. *)
Definition service_names (l : list ComposeNode) : list string :=
  omap (fun n => match node_kind n with KService => Some (node_name n) | _ => None end) l.

Lemma service_names_other l : Forall (fun n => node_kind n <> KService) l -> service_names l = [].
Proof. induction 1 as [|n l Hn Hl IH]; [done|]. cbn. by destruct (node_kind n). Qed.

Lemma service_names_grows g h : grows g h -> service_names (g_nodes h) = service_names (g_nodes g).
Proof.
  intros (l & -> & H). assert (Hl := service_names_other l H). unfold service_names in *. by rewrite omap_app, Hl, app_nil_r.
Qed.

Lemma fold_services st ep services g :
  NoDup (str_keys services) -> graph_ok g ->
  Forall (fun n => ~ has_node KService (String.append "service:" n) (g_nodes g)) (str_keys services) ->
  graph_ok (fold_left (add_service st ep) services g)
  /\ service_names (g_nodes (fold_left (add_service st ep) services g)) = service_names (g_nodes g) ++ str_keys services.
Proof.
  revert g. induction services as [|[k v] services IH]; intros g Hnd Hg Hfresh; cbn [fold_left].
  { cbn. by rewrite app_nil_r. }
  unfold str_keys in *. cbn [omap list_omap] in *. unfold add_service at 2 4. cbn [fst snd] in *.
  destruct (as_str k) as [name|]; [|by apply IH].
  apply NoDup_cons in Hnd as [Hn Hnd]. apply Forall_cons in Hfresh as [Hf Hfresh].
  set (d := build_service_details _ _ _ _). set (g1 := push_node (service_node name d) g).
  assert (Hg1 : graph_ok g1) by by apply push_service_ok.
  assert (Hs1 : has_node KService (String.append "service:" name) (g_nodes g1)) by (apply has_node_snoc; by right).
  set (g2 := match as_mapping v with Some smap => collect_service_edges name smap g1 | None => g1 end).
  assert (H2 : graph_ok g2 /\ grows g1 g2).
  { subst g2. destruct (as_mapping v); [by apply collect_service_edges_step|by split; [|apply grows_refl]]. }
  destruct H2 as [Hg2 Hgr]. destruct (IH g2 Hnd Hg2) as [H3 H4].
  - apply Forall_forall. intros n Hin Hh. rewrite Forall_forall in Hfresh.
    apply (grows_service _ _ _ Hgr) in Hh. apply has_node_snoc in Hh as [Hh|[_ Hh]]; [by apply (Hfresh n Hin)|].
    apply (append_inj "service:") in Hh. by subst.
  - split; [done|]. rewrite H4, (service_names_grows _ _ Hgr). unfold service_names at 1. subst g1. cbn [g_nodes push_node].
    rewrite omap_app. cbn. by rewrite <-app_assoc.
Qed.

(** The keys of each section are distinct texts. *)
Definition keys_distinct (map : list (Value * Value)) : Prop :=
  forall section m, get_mapping map section = Some m -> NoDup (str_keys m).

Definition declared_services (map : list (Value * Value)) : list string :=
  match get_mapping map "services" with Some m => str_keys m | None => [] end.

Lemma empty_graph_ok : graph_ok (mkGraph [] [] ∅ ∅).
Proof.
  split; cbn; [constructor|constructor| | | | |constructor];
    intros id; try (intros (n & Hn & _); by apply elem_of_nil in Hn); by intros []%elem_of_empty.
Qed.

Lemma topology_graph_ok map st ep :
  keys_distinct map ->
  graph_ok (topology_graph map st ep) /\ service_names (g_nodes (topology_graph map st ep)) = declared_services map.
Proof.
  intros Hk. unfold topology_graph, declared_services. set (g0 := mkGraph [] [] ∅ ∅).
  assert (H1 : graph_ok (parse_top_level_networks map g0) /\ grows g0 (parse_top_level_networks map g0)
               /\ declared_volumes (parse_top_level_networks map g0) = ∅).
  { unfold parse_top_level_networks. destruct (get_mapping map "networks") as [nets|] eqn:E.
    - apply fold_networks; [by apply (Hk "networks")|apply empty_graph_ok|]. apply Forall_forall. intros n _ []%elem_of_empty.
    - split; [apply empty_graph_ok|]. by split; [apply grows_refl|]. }
  destruct H1 as (H1 & G1 & V1). set (g1 := parse_top_level_networks map g0) in *.
  assert (H2 : graph_ok (parse_top_level_volumes map g1) /\ grows g1 (parse_top_level_volumes map g1)).
  { unfold parse_top_level_volumes. destruct (get_mapping map "volumes") as [vols|] eqn:E.
    - apply fold_volumes; [by apply (Hk "volumes")|done|]. apply Forall_forall. intros n _. rewrite V1. apply not_elem_of_empty.
    - by split; [|apply grows_refl]. }
  destruct H2 as [H2 G2]. assert (G := grows_trans _ _ _ G1 G2). set (g2 := parse_top_level_volumes map g1) in *.
  assert (Hs : service_names (g_nodes g2) = []) by by rewrite (service_names_grows _ _ G).
  destruct (get_mapping map "services") as [services|] eqn:E; [|done].
  destruct (fold_services st ep services g2) as [H3 H4]; [by apply (Hk "services")|done| |split; [done|by rewrite H4, Hs]].
  apply Forall_forall. intros n _ Hh. apply (grows_service _ _ _ G) in Hh as (m & Hm & _). by apply elem_of_nil in Hm.
Qed.
End Building.

(** ** The order of the nodes and edges *)

Lemma node_cmp_total a b : not_gt (node_cmp a b) = true \/ not_gt (node_cmp b a) = true.
Proof.
  unfold node_cmp. rewrite (Z.compare_antisym (kind_rank (node_kind a))).
  destruct (kind_rank (node_kind a) ?= _); cbn; auto using string_compare_total.
Qed.

Lemma node_cmp_trans a b c : not_gt (node_cmp a b) = true -> not_gt (node_cmp b c) = true -> not_gt (node_cmp a c) = true.
Proof.
  unfold node_cmp. destruct (node_kind a), (node_kind b), (node_kind c); cbn; try done; intros; by eapply string_compare_trans.
Qed.

Definition sorted_nodes (l : list ComposeNode) : Prop := sorted_by (fun a b => not_gt (node_cmp a b)) l.

(** ** The summary *)

Definition kind_count (k : ComposeNodeKind) (l : list ComposeNode) : nat := length (filter (fun n => node_kind n = k) l).

Lemma summary_fold l s :
  let r := fold_left summary_step l s in
  services_count r = (services_count s + kind_count KService l)%nat
  /\ networks_count r = (networks_count s + kind_count KNetwork l)%nat
  /\ volumes_count r = (volumes_count s + kind_count KVolume l)%nat.
Proof.
  revert s. induction l as [|n l IH]; intros s; cbn [fold_left]; [unfold kind_count; cbn; lia|].
  destruct (IH (summary_step s n)) as (H1 & H2 & H3). cbn zeta. rewrite H1, H2, H3. clear.
  unfold kind_count, summary_step. destruct (node_kind n) eqn:E;
    cbn [services_count networks_count volumes_count]; rewrite !filter_cons, !E; repeat case_decide; try done; cbn [length]; lia.
Qed.

Lemma kind_count_service l : kind_count KService l = length (service_names l).
Proof.
  unfold kind_count. induction l as [|n l IH]; [done|]. rewrite filter_cons. cbn.
  destruct (node_kind n) eqn:E; case_decide; try done. cbn. by f_equal.
Qed.

Lemma has_node_perm k id l1 l2 : l1 ≡ₚ l2 -> has_node k id l1 -> has_node k id l2.
Proof. intros Hp (n & Hn & H). exists n. by rewrite <-Hp. Qed.

Lemma edge_ok_perm l1 l2 e : l1 ≡ₚ l2 -> edge_ok l1 e -> edge_ok l2 e.
Proof.
  intros Hp [H1 H2]. split; [by eapply has_node_perm|]. destruct (edge_kind e); try done; by eapply has_node_perm.
Qed.

Section Sound.
Context `{Y : Yaml}.

(** Of a Compose file whose keys are distinct, every node has its own identifier; every edge
    starts at a service of the file, and an edge to a network or a volume ends at a node of that
    kind; the services are exactly those that the check of the file sees; the nodes are in the
    order of their kinds and names, and the summary counts them. *)
Theorem topology_sound yaml st ep t val map :
  str_is_empty (trim yaml) = false -> yaml_from_str yaml = Ok val -> as_mapping val = Some map -> keys_distinct map ->
  parse_compose_topology yaml st ep = Ok t ->
  NoDup (ids (nodes t)) /\ Forall (edge_ok (nodes t)) (edges t)
  /\ (exists services, parse_compose_services yaml = Ok services /\ service_names (nodes t) ≡ₚ services
      /\ services_count (summary t) = length services)
  /\ sorted_nodes (nodes t)
  /\ networks_count (summary t) = kind_count KNetwork (nodes t) /\ volumes_count (summary t) = kind_count KVolume (nodes t).
Proof.
  intros Hblank Hv Hm Hk. unfold parse_compose_topology. rewrite Hblank, Hv, Hm. intros [= <-]. cbn [nodes edges summary].
  destruct (topology_graph_ok map st ep Hk) as [Hg Hs]. set (g := topology_graph map st ep) in *.
  set (sorted := sort_by _ (g_nodes g)). assert (Hp : sorted ≡ₚ g_nodes g) by apply sort_by_perm.
  destruct (summary_fold sorted Summary_default) as (H1 & H2 & H3). fold (calculate_summary sorted) in *.
  split; [|split; [|split; [|split]]].
  - unfold ids. rewrite Hp. apply (ok_ids g Hg).
  - rewrite sort_by_perm. eapply Forall_impl; [apply (ok_edges g Hg)|]. intros e. by apply edge_ok_perm.
  - exists (declared_services map). unfold parse_compose_services. rewrite Hv, Hm. split.
    + unfold declared_services. by destruct (get_mapping map "services").
    + assert (Hn : service_names sorted ≡ₚ declared_services map) by (rewrite <-Hs; unfold service_names; by rewrite Hp).
      split; [done|]. rewrite H1, kind_count_service, Hn. done.
  - apply sort_by_sorted; [apply node_cmp_total|apply node_cmp_trans].
  - done.
Qed.
End Sound.

(** ** A concrete reader of YAML *)

Inductive PlainYaml : Type :=
| YStr (s : string)
| YBool (b : bool)
| YNum (n : Z)
| YSeq (l : list PlainYaml)
| YMap (l : list (PlainYaml * PlainYaml)).

Definition plain_str (v : PlainYaml) : option string := match v with YStr s => Some s | _ => None end.

Definition shop_file : PlainYaml :=
  YMap [(YStr "services", YMap [
      (YStr "web", YMap [(YStr "image", YStr "shop"); (YStr "depends_on", YSeq [YStr "db"]); (YStr "networks", YSeq [YStr "front"]);
                         (YStr "ports", YSeq [YNum 80; YStr "443:443"])]);
      (YStr "db", YMap [(YStr "build", YStr "."); (YStr "volumes", YSeq [YStr "data:/var/lib/db:ro"; YStr "./conf:/etc/db"])])]);
    (YStr "volumes", YMap [(YStr "data", YMap [(YStr "external", YBool true)])])].

(** Reads the names of two files, and nothing else. *)
#[local] Instance plain_yaml : Yaml := {|
  Value := PlainYaml;
  yaml_from_str s :=
    if String.eqb s "shop.yaml" then Ok shop_file
    else if String.eqb s "anonymous.yaml" then
      Ok (YMap [(YStr "services", YMap [(YStr "db", YMap [(YStr "volumes", YSeq [YStr "/var/lib/db"])])])])
    else Err (mkYamlError (Some 1) "no such file");
  as_str := plain_str;
  as_bool v := match v with YBool b => Some b | _ => None end;
  as_u64 v := match v with YNum n => Some n | _ => None end;
  as_sequence v := match v with YSeq l => Some l | _ => None end;
  as_mapping v := match v with YMap l => Some l | _ => None end;
  mapping_get m key := option_map snd (find (fun kv => match plain_str kv.1 with Some s => String.eqb s key | None => false end) m);
|}.

Definition shop_topology : ComposeTopology := Eval vm_compute in
  match parse_compose_topology "shop.yaml" None (Some "web") with Ok t => t | Err _ => mkTopology [] [] Summary_default end.

Definition shop_map : list (PlainYaml * PlainYaml) := match shop_file with YMap l => l | _ => [] end.

Example shop_nodes :
  ids (nodes shop_topology) = ["service:db"; "service:web"; "network:front"; "volume:bind:./conf"; "volume:data"]
  /\ map (fun e => (edge_source e, edge_target e)) (edges shop_topology)
     = [("service:db", "volume:bind:./conf"); ("service:db", "volume:data"); ("service:web", "network:front");
        ("service:web", "service:db")].
Proof. vm_compute. split; reflexivity. Qed.

Lemma shop_keys : keys_distinct shop_map.
Proof.
  intros section m H. unfold get_mapping in H. cbn [mapping_get plain_yaml shop_map shop_file find plain_str fst snd] in H.
  destruct (String.eqb "services" section); [cbn in H; injection H as <-; cbn; repeat constructor; set_solver|].
  destruct (String.eqb "volumes" section); [cbn in H; injection H as <-; cbn; repeat constructor; set_solver|done].
Qed.

Lemma topology_sound_witness :
  parse_compose_topology "shop.yaml" None (Some "web") = Ok shop_topology
  /\ NoDup (ids (nodes shop_topology)) /\ Forall (edge_ok (nodes shop_topology)) (edges shop_topology)
  /\ (exists services, parse_compose_services "shop.yaml" = Ok services /\ service_names (nodes shop_topology) ≡ₚ services
      /\ services_count (summary shop_topology) = length services)
  /\ sorted_nodes (nodes shop_topology)
  /\ networks_count (summary shop_topology) = kind_count KNetwork (nodes shop_topology)
  /\ volumes_count (summary shop_topology) = kind_count KVolume (nodes shop_topology).
Proof.
  split; [vm_compute; reflexivity|].
  apply (topology_sound (Y := plain_yaml) "shop.yaml" None (Some "web") shop_topology shop_file shop_map);
    [vm_compute; reflexivity|reflexivity|reflexivity|apply shop_keys|vm_compute; reflexivity].
Defined.

(** A volume entry with a path alone, which Compose reads as an anonymous volume at that path of
    the container, is drawn as a mount of the directory of the host. *)
Theorem anonymous_volume_drawn_as_bind svc_id path g :
  is_bind_source path = true -> trim path = path -> char_free ":" path = true -> path <> "" ->
  String.append "volume:bind:" path ∉ declared_volumes g ->
  parse_string_volume svc_id path g
  = push_edge (mkComposeEdge svc_id (String.append "volume:bind:" path) (EVolume None None) None)
      (push_node (volume_node (String.append "volume:bind:" path) path (mkComposeVolumeDetails None false true (Some path)))
         (declare_volume (String.append "volume:bind:" path) g)).
Proof.
  intros Hb Ht Hc Hne Hd. unfold parse_string_volume, split_on. rewrite split_by_none by done. cbn [hd]. rewrite Ht.
  destruct path as [|a p]; [done|]. cbn [str_is_empty lookup list_lookup option_map].
  unfold attach_volume, volume_id. rewrite Hb. case_bool_decide; done.
Qed.

Lemma anonymous_volume_drawn_as_bind_witness :
  exists g, parse_string_volume "service:db" "/var/lib/db" (mkGraph [] [] ∅ ∅) = g /\ length (g_nodes g) = 1%nat.
Proof.
  eexists. split; [apply (anonymous_volume_drawn_as_bind "service:db" "/var/lib/db"); try by vm_compute|done].
Defined.
