(* ===== verification/EnvFiles.v ===== *)
(** * Environment files and generated secrets

    [parse_env_file] of [r3v3rs3-api/src/platform.rs], the templates of
    [r3v3rs3-api/src/compose_env.rs] with their generated secrets, and the merge of the sources of
    an environment ([merge_env_vars] of [platform/deploy.rs]).  The generator of secrets is an
    argument, as in the source. *)

From Stdlib Require Import Ascii.
From stdpp Require Import strings.
From S2P Require Import Prelude Basics IpText Net Policy Quarantine Cookies Containers.

Definition LF : ascii := "010".
Definition CR : ascii := "013".
Definition DQUOTE : ascii := "034".
Definition SQUOTE : ascii := "039".

(** ** Lines *)

Definition strip_cr (line : string) : string :=
  match rsplit_once CR line with
  | Some (l, EmptyString) => l
  | _ => line
  end.

Fixpoint lines_of (pieces : list string) : list string :=
  match pieces with
  | [] => []
  | [last] => if str_is_empty last then [] else [last]
  | piece :: rest => strip_cr piece :: lines_of rest
  end.

(** [str::lines]: the end of a line is a line feed, with a carriage return before it or not. *)
Definition lines (s : string) : list string := lines_of (split_on LF s).

(** The first [" #"] of a text. *)
Fixpoint split_comment (s : string) : option (string * string) :=
  match s with
  | EmptyString => None
  | String a r =>
      match r with
      | String b r2 =>
          if Ascii.eqb a " " && Ascii.eqb b "#" then Some (EmptyString, r2)
          else option_map (fun xy => (String a xy.1, xy.2)) (split_comment r)
      | EmptyString => None
      end
  end.

(** [val.starts_with(q) && val.ends_with(q) && val.len() >= 2]. *)
Definition quoted_by (q : ascii) (val : string) : bool :=
  first_is (Ascii.eqb q) val && last_is (Ascii.eqb q) val && (2 <=? str_len val).

(** [val[1..val.len() - 1]], between two characters of one byte. *)
Definition inner (val : string) : string :=
  match val with String _ r => String.substring 0 (String.length r - 1) r | EmptyString => EmptyString end.

Definition parse_env_value (val : string) : string :=
  if quoted_by DQUOTE val || quoted_by SQUOTE val then inner val
  else trim (match split_comment val with Some (v, _) => v | None => val end).

Definition strip_export (line : string) : string :=
  match strip_prefix "export " line with Some r => r | None => line end.

Definition env_line (line : string) : option (string * string) :=
  let line := trim line in
  if str_is_empty line || starts_with "#" line then None
  else
    let line := trim (strip_export line) in
    match split_once "=" line with
    | None => None
    | Some (key_str, val_str) =>
        match EnvKey_from_str (trim key_str) with
        | Ok key => Some (key, parse_env_value (trim val_str))
        | Err _ => None
        end
    end.

Definition parse_env_file (content : string) : list (string * string) := omap env_line (lines content).

(** ** Secrets *)

Record EnvEntry : Type := mkEnvEntry { entry_key : string; entry_value : option string; entry_secret : bool }.

Definition SECRET_SUFFIXES : list string :=
  ["_PASSWORD"; "_PASSWD"; "_PWD"; "_SECRET"; "_SECRET_KEY"; "_KEY"; "_TOKEN"; "_SALT"; "_HASH"; "_PASSPHRASE"; "_PRIVATE_KEY"].

Definition is_secret_suffix (upper : string) : bool := existsb (fun suffix => ends_with suffix upper) SECRET_SUFFIXES.

Definition SECRET_SUBSTRINGS : list string :=
  ["JWT_SECRET"; "AUTH_SECRET"; "ENCRYPTION_KEY"; "ROOT_PASSWORD"; "ADMIN_PASSWORD"; "DB_PASSWORD"].

Definition is_exact_secret_word (upper : string) : bool :=
  existsb (String.eqb upper)
    ["PASSWORD"; "PASSWD"; "PWD"; "SECRET"; "SECRET_KEY"; "KEY"; "TOKEN"; "SALT"; "HASH"; "PASSPHRASE"; "PRIVATE_KEY"].

Definition is_secret_exact_or_substr (upper : string) : bool :=
  is_exact_secret_word upper || existsb (fun substr => str_contains substr upper) SECRET_SUBSTRINGS.

Definition is_secret_key (key : string) : bool :=
  let upper := to_ascii_uppercase key in is_secret_suffix upper || is_secret_exact_or_substr upper.

Definition trim_matches (c : ascii) (s : string) : string :=
  trim_end_by (Ascii.eqb c) (trim_start_matches (Ascii.eqb c) s).

Definition is_placeholder_word (lower : string) : bool :=
  existsb (String.eqb lower)
    ["changeme"; "change_me"; "replace_me"; "replaceme"; "your_secret_here"; "your-secret-here"; "your_password_here";
     "generate_secret"; "secret"; "password"; "todo"; "fixme"; "xxx"; "xxxx"; "<secret>"; "<password>"; "<replace_me>"].

Definition is_bracket_placeholder (unquoted : string) : bool :=
  (starts_with "<" unquoted && ends_with ">" unquoted) || (starts_with "${" unquoted && ends_with "}" unquoted).

Definition is_empty_or_placeholder (value : string) : bool :=
  let trimmed := trim value in
  if str_is_empty trimmed then true
  else
    let unquoted := trim (trim_matches DQUOTE (trim_matches SQUOTE trimmed)) in
    if str_is_empty unquoted then true
    else is_placeholder_word (to_ascii_lowercase unquoted) || is_bracket_placeholder unquoted.

(** [extract_clean_value] has the body of [parse_env_value]. *)
Definition extract_clean_value (val_str : string) : string :=
  if quoted_by DQUOTE val_str || quoted_by SQUOTE val_str then inner val_str
  else trim (match split_comment val_str with Some (v, _) => v | None => val_str end).

Section Generator.
Context (generator : string -> string).

Definition process_template_line (line : string) (overwrite : bool) : string * option EnvEntry * option string :=
  let trimmed := trim line in
  if str_is_empty trimmed || starts_with "#" trimmed then (line, None, None)
  else
    let prefix := if starts_with "export " line then "export " else EmptyString in
    match split_once "=" (strip_export line) with
    | None => (line, None, None)
    | Some (key_str, val_str) =>
        let key := trim key_str in
        let is_secret := is_secret_key key in
        let val_trimmed := trim val_str in
        let needs_generation := is_secret && (is_empty_or_placeholder val_trimmed || overwrite) in
        let '(final_val, generated_key) :=
          if needs_generation then (generator key, Some key) else (extract_clean_value val_trimmed, None) in
        match EnvKey_from_str key with
        | Err _ => (line, None, None)
        | Ok env_key =>
            (String.append prefix (String.append key (String "=" final_val)),
             Some (mkEnvEntry env_key (Some final_val) is_secret), generated_key)
        end
    end.

Definition resolve_env_template (template : string) (overwrite : bool) : string * list EnvEntry * list string :=
  let results := map (fun line => process_template_line line overwrite) (lines template) in
  (join_with LF (map (fun r => r.1.1) results), omap (fun r => r.1.2) results, omap (fun r => r.2) results).

(** One entry of [resolve_env_entries], with the key that was generated. *)
Definition resolve_entry (overwrite : bool) (entry : EnvEntry) : EnvEntry * option string :=
  let is_secret := entry_secret entry || is_secret_key (entry_key entry) in
  if negb is_secret then (entry, None)
  else
    let needs_val := match entry_value entry with Some v => is_empty_or_placeholder v | None => true end || overwrite in
    if needs_val then
      (mkEnvEntry (entry_key entry) (Some (generator (entry_key entry))) true, Some (entry_key entry))
    else (entry, None).

Definition resolve_env_entries (entries : list EnvEntry) (overwrite : bool) : list EnvEntry * list string :=
  let results := map (resolve_entry overwrite) entries in (map fst results, omap snd results).
End Generator.

(** ** Merging *)

(** [merge_env_vars]: a later source replaces the value of a key in its place, and adds new keys
    at the end. *)
Fixpoint set_var (var : EnvVar) (target : list EnvVar) : list EnvVar :=
  match target with
  | [] => [var]
  | v :: rest =>
      if String.eqb (var_key v) (var_key var) then mkEnvVar (var_key v) (var_value var) :: rest
      else v :: set_var var rest
  end.

Definition merge_env_vars (target new_vars : list EnvVar) : list EnvVar :=
  fold_left (fun target var => set_var var target) new_vars target.

(** ** Facts on whitespace

    A pivot is an ASCII character that is no whitespace: no character of several bytes reaches
    over it. *)

Definition pivot (c : ascii) : Prop := byte_of c < 128 /\ is_ws1 c = false.

Lemma pivot_ws2 x c : pivot c -> is_ws2 x c = false.
Proof.
  unfold pivot, is_ws2, byte_of. intros [H _]. destruct (N.eqb_spec (N_of_ascii c) 133), (N.eqb_spec (N_of_ascii c) 160); try lia.
Qed.

Lemma pivot_ws2_head c b : pivot c -> is_ws2 c b = false.
Proof. unfold pivot, is_ws2, byte_of. intros [H _]. destruct (N.eqb_spec (N_of_ascii c) 194); [lia|done]. Qed.

Lemma pivot_ws3_head c x y : pivot c -> is_ws3 c x y = false.
Proof.
  unfold pivot, is_ws3, byte_of. intros [H _].
  destruct (N.eqb_spec (N_of_ascii c) 225), (N.eqb_spec (N_of_ascii c) 226), (N.eqb_spec (N_of_ascii c) 227); try lia.
Qed.

Lemma pivot_ws3_mid x c y : pivot c -> is_ws3 x c y = false.
Proof.
  unfold pivot, is_ws3, byte_of. intros [H _].
  destruct (N.eqb_spec (N_of_ascii c) 154), (N.eqb_spec (N_of_ascii c) 128), (N.eqb_spec (N_of_ascii c) 129); try lia.
Qed.

Lemma pivot_ws3_end x y c : pivot c -> is_ws3 x y c = false.
Proof.
  unfold pivot, is_ws3, byte_of. intros [H _].
  destruct (N.eqb_spec (N_of_ascii c) 128), (N.leb_spec 128 (N_of_ascii c)), (N.eqb_spec (N_of_ascii c) 168),
    (N.eqb_spec (N_of_ascii c) 169), (N.eqb_spec (N_of_ascii c) 175), (N.eqb_spec (N_of_ascii c) 159); try lia.
Qed.

Lemma trim_start_pivot c s : pivot c -> trim_start (String c s) = String c s.
Proof.
  intros Hc. cbn [trim_start]. rewrite (proj2 Hc). destruct s as [|b s]; [done|].
  rewrite pivot_ws2_head by done. destruct s as [|d s]; [done|]. by rewrite pivot_ws3_head.
Qed.

Lemma trim_start_app c a b : pivot c -> trim_start (String.append a (String c b)) = String.append (trim_start a) (String c b).
Proof.
  intros Hc. remember (String.length a) as n eqn:En. revert a En.
  induction n as [n IH] using lt_wf_ind. intros a En.
  destruct a as [|x a]; [by apply trim_start_pivot|]. cbn [String.append trim_start].
  destruct (is_ws1 x) eqn:Ex; [apply (IH (String.length a)); [subst; cbn; lia|done]|].
  destruct a as [|y a]; cbn [String.append].
  { rewrite pivot_ws2 by done. destruct b; [done|]. by rewrite pivot_ws3_mid. }
  destruct (is_ws2 x y); [apply (IH (String.length a)); [subst; cbn; lia|done]|].
  destruct a as [|z a]; cbn [String.append]; [by rewrite pivot_ws3_end|].
  destruct (is_ws3 x y z); [apply (IH (String.length a)); [subst; cbn; lia|done]|done].
Qed.

Lemma trim_start_idemp s : trim_start (trim_start s) = trim_start s.
Proof.
  remember (String.length s) as n eqn:En. revert s En. induction n as [n IH] using lt_wf_ind. intros s En.
  destruct s as [|x s]; [done|]. cbn [trim_start].
  destruct (is_ws1 x) eqn:Ex; [apply (IH (String.length s)); [subst; cbn; lia|done]|].
  destruct s as [|y s]; [cbn; by rewrite Ex|].
  destruct (is_ws2 x y) eqn:Ey; [apply (IH (String.length s)); [subst; cbn; lia|done]|].
  destruct s as [|z s]; [cbn; by rewrite Ex, Ey|].
  destruct (is_ws3 x y z) eqn:Ez; [apply (IH (String.length s)); [subst; cbn; lia|done]|]. cbn. by rewrite Ex, Ey, Ez.
Qed.

Lemma append_not_empty a c b : str_is_empty (String.append a (String c b)) = false.
Proof. by destruct a. Qed.

Lemma trim_end_app c a b : pivot c -> trim_end (String.append a (String c b)) = String.append a (String c (trim_end b)).
Proof.
  intros Hc. induction a as [|x a IH]; cbn [String.append trim_end].
  - rewrite trim_start_pivot by done. done.
  - change (String x (String.append a (String c b))) with (String.append (String x a) (String c b)).
    rewrite trim_start_app, append_not_empty by done. by rewrite IH.
Qed.

Lemma trim_app c a b : pivot c -> trim (String.append a (String c b)) = String.append (trim_start a) (String c (trim_end b)).
Proof. intros Hc. unfold trim. rewrite trim_start_app by done. by apply trim_end_app. Qed.


Lemma str_forallb_trim_start p s : str_forallb p s = true -> str_forallb p (trim_start s) = true.
Proof.
  remember (String.length s) as n eqn:En. revert s En. induction n as [n IH] using lt_wf_ind. intros s En H.
  destruct s as [|x s]; [done|]. cbn [trim_start]. assert (H' := H). cbn in H'. apply andb_prop in H' as [_ Hs].
  destruct (is_ws1 x); [apply (IH (String.length s)); [subst; cbn; lia|done|done]|].
  destruct s as [|y s]; [done|]. cbn in Hs. apply andb_prop in Hs as [_ Hs].
  destruct (is_ws2 x y); [apply (IH (String.length s)); [subst; cbn; lia|done|done]|].
  destruct s as [|z s]; [done|]. cbn in Hs. apply andb_prop in Hs as [_ Hs].
  destruct (is_ws3 x y z); [apply (IH (String.length s)); [subst; cbn; lia|done|done]|done].
Qed.

Lemma str_forallb_trim_end p s : str_forallb p s = true -> str_forallb p (trim_end s) = true.
Proof.
  induction s as [|x s IH]; [done|]. cbn [trim_end]. destruct (str_is_empty _); [done|].
  cbn. intros H. apply andb_prop in H as [H1 H2]. by rewrite H1, IH.
Qed.

Lemma str_forallb_trim_ws p s : str_forallb p s = true -> str_forallb p (trim s) = true.
Proof. intros H. by apply str_forallb_trim_end, str_forallb_trim_start. Qed.

Lemma strip_prefix_eq p s r : strip_prefix p s = Some r -> s = String.append p r.
Proof.
  revert s. induction p as [|a p IH]; intros s H; [by injection H as ->|]. destruct s as [|b s]; [done|]. cbn in H.
  destruct (Ascii.eqb a b) eqn:E; [|done]. apply Ascii.eqb_eq in E as ->. cbn. f_equal. by apply IH.
Qed.

Lemma strip_prefix_app p r : strip_prefix p (String.append p r) = Some r.
Proof. induction p as [|a p IH]; [done|]. cbn. by rewrite Ascii.eqb_refl. Qed.

Lemma strip_export_free c s : char_free c "export " = true -> char_free c (strip_export s) = char_free c s.
Proof.
  intros Hc. unfold strip_export. destruct (strip_prefix _ s) as [r|] eqn:E; [|done].
  apply strip_prefix_eq in E as ->. unfold char_free in *. by rewrite str_forallb_append, Hc.
Qed.

Lemma equals_pivot : pivot "=".
Proof. by vm_compute. Qed.

(** ** One line of a file *)

(** A line that gives a variable: no blank line and no comment, and text before the first [=]. *)
Definition is_comment (line : string) : bool := str_is_empty (trim line) || starts_with "#" (trim line).

(** What [env_line] reads of a key and a value. *)
Definition env_pair (k v : string) : option (string * string) :=
  match EnvKey_from_str (trim k) with Ok key => Some (key, parse_env_value (trim v)) | Err _ => None end.

Lemma env_line_none line : char_free "=" (strip_export line) = true -> env_line line = None.
Proof.
  intros H. rewrite strip_export_free in H by done. unfold env_line. destruct (_ || _); [done|].
  assert (Hf : char_free "=" (trim (strip_export (trim line))) = true).
  { apply str_forallb_trim_ws. fold (char_free "=" (strip_export (trim line))). rewrite strip_export_free by done.
    by apply str_forallb_trim_ws. }
  destruct (split_once "=" _) as [[k v]|] eqn:E; [|done]. apply split_once_eq in E as [E _]. rewrite E in Hf.
  unfold char_free in Hf. rewrite str_forallb_append in Hf. apply andb_prop in Hf as [_ Hf]. done.
Qed.

Lemma starts_with_strip p s : starts_with p s = is_some (strip_prefix p s).
Proof.
  revert s. induction p as [|a p IH]; intros s; [done|]. destruct s as [|b s]; [done|]. cbn. destruct (Ascii.eqb a b); [apply IH|done].
Qed.


(** Whether a text starts with a prefix that has no [=] is decided before the first [=]. *)
Lemma starts_with_before p k v : char_free "=" p = true -> starts_with p (String.append k (String "=" v)) = starts_with p k.
Proof.
  revert k. induction p as [|a p IH]; intros k Hp; [by destruct k|]. cbn in Hp. apply andb_prop in Hp as [Ha Hp].
  apply negb_true_iff in Ha. destruct k as [|b k]; cbn [String.append starts_with]; [by rewrite Ha|].
  destruct (Ascii.eqb a b); [by apply IH|done].
Qed.

Lemma strip_prefix_none_before p k v w :
  char_free "=" p = true -> strip_prefix p (String.append k (String "=" v)) = None ->
  strip_prefix p (String.append k (String "=" w)) = None.
Proof.
  intros Hp H. assert (H1 := starts_with_strip p (String.append k (String "=" v))).
  assert (H2 := starts_with_strip p (String.append k (String "=" w))).
  rewrite starts_with_before in H1, H2 by done. rewrite H in H1. rewrite H1 in H2. by destruct (strip_prefix p (String.append k (String "=" w))).
Qed.

Lemma split_once_app c k v : char_free c k = true -> split_once c (String.append k (String c v)) = Some (k, v).
Proof.
  induction k as [|x k IH]; cbn; intros H; [by rewrite Ascii.eqb_refl|]. apply andb_prop in H as [Hx H].
  apply negb_true_iff in Hx. by rewrite Hx, IH.
Qed.

Lemma env_line_pair line k v :
  trim_start line = line -> is_comment line = false -> split_once "=" (strip_export line) = Some (k, v) ->
  env_line line = env_pair k (trim_end (trim_end v)).
Proof.
  intros Hs Hc H. unfold env_line. unfold is_comment in Hc. rewrite Hc. apply split_once_eq in H as [H Hk].
  assert (E : trim (strip_export (trim line)) = String.append (trim_start k) (String "=" (trim_end (trim_end v)))).
  { rewrite <-trim_app by apply equals_pivot. f_equal. unfold strip_export in *. unfold trim. rewrite Hs.
    destruct (strip_prefix "export " line) as [r|] eqn:Ep.
    - apply strip_prefix_eq in Ep. rewrite Ep, H, append_assoc, trim_end_app by apply equals_pivot.
      by rewrite <-append_assoc, strip_prefix_app.
    - rewrite H in Ep |- *. rewrite trim_end_app by apply equals_pivot. by rewrite (strip_prefix_none_before _ _ v). }
  rewrite E, split_once_app by by apply str_forallb_trim_start.
  unfold env_pair. assert (Et : trim (trim_start k) = trim k) by (unfold trim; by rewrite trim_start_idemp). by rewrite Et.
Qed.

(** A value that stands in a file as itself. *)
Definition plain_value (v : string) : Prop :=
  trim_end v = v /\ trim v = v /\ parse_env_value v = v /\ char_free LF v = true /\ char_free CR v = true.

Lemma env_key_ok key k : EnvKey_from_str key = Ok k ->
  k = key /\ first_is (fun c => is_ascii_alphabetic c || Ascii.eqb c "_") key = true
  /\ str_forallb (fun c => is_ascii_alphanumeric c || Ascii.eqb c "_") key = true.
Proof.
  unfold EnvKey_from_str, check_env_key. destruct (_ && _) eqn:E; [|done]. cbn. intros [= <-].
  apply andb_prop in E as [E H2]. by apply andb_prop in E as [_ H1].
Qed.

Lemma str_forallb_mono (p q : ascii -> bool) s : (forall c, p c = true -> q c = true) -> str_forallb p s = true -> str_forallb q s = true.
Proof. intros Hpq. induction s as [|c s IH]; cbn; [done|]. intros H. apply andb_prop in H as [H1 H2]. by rewrite (Hpq c H1), IH. Qed.

Definition key_char (c : ascii) : bool := is_ascii_alphanumeric c || Ascii.eqb c "_".

(** The characters of a key are pivots, and none of them is a separator. *)
Lemma key_char_facts c : key_char c = true ->
  pivot c /\ Ascii.eqb c "=" = false /\ Ascii.eqb c "#" = false /\ Ascii.eqb c " " = false /\ Ascii.eqb c LF = false /\ Ascii.eqb c CR = false.
Proof.
  assert (H : forallb (fun n => let c := ascii_of_nat n in
    negb (key_char c) || ((byte_of c <? 128) && negb (is_ws1 c) && negb (Ascii.eqb c "=") && negb (Ascii.eqb c "#")
                          && negb (Ascii.eqb c " ") && negb (Ascii.eqb c LF) && negb (Ascii.eqb c CR))) (seq 0 256) = true) by (vm_compute; reflexivity).
  intros Hc. rewrite forallb_forall in H. specialize (H (nat_of_ascii c)). rewrite ascii_nat_embedding in H.
  cbn zeta in H. rewrite Hc in H. cbn [negb orb] in H.
  assert (Hin : In (nat_of_ascii c) (seq 0 256)) by (apply in_seq; assert (Hb := nat_ascii_bounded c); lia).
  apply H in Hin. repeat (apply andb_prop in Hin as [Hin ?]). unfold pivot. zbool. repeat split; try done; by apply negb_true_iff.
Qed.

Lemma trim_end_key s : str_forallb key_char s = true -> trim_end s = s.
Proof.
  induction s as [|c s IH]; [done|]. cbn. intros H. apply andb_prop in H as [Hc H].
  destruct (key_char_facts c Hc) as [Hp _]. assert (E := trim_start_pivot c s Hp). cbn [trim_start] in E. rewrite E.
  cbn [str_is_empty]. by rewrite IH.
Qed.

Lemma trim_key s : str_forallb key_char s = true -> trim s = s.
Proof.
  intros H. unfold trim. destruct s as [|c s]; [done|]. assert (H' := H). cbn in H'. apply andb_prop in H' as [Hc _].
  destruct (key_char_facts c Hc) as [Hp _]. rewrite trim_start_pivot by done. by apply trim_end_key.
Qed.

Lemma key_char_free c s : (c = "="%char \/ c = " "%char \/ c = LF \/ c = CR) -> str_forallb key_char s = true -> char_free c s = true.
Proof.
  intros Hc. apply str_forallb_mono. intros a Ha. apply key_char_facts in Ha as (_ & H1 & _ & H2 & H3 & H4).
  by destruct Hc as [-> | [-> | [-> | ->]]]; rewrite ?H1, ?H2, ?H3, ?H4.
Qed.

Definition export_prefix (exported : bool) : string := if exported then "export " else EmptyString.

(** The line of a variable. *)
Definition var_line (exported : bool) (key v : string) : string :=
  String.append (export_prefix exported) (String.append key (String "=" v)).

Lemma key_not_export key v : str_forallb key_char key = true -> strip_prefix "export " (String.append key (String "=" v)) = None.
Proof.
  intros Hk. assert (E := starts_with_strip "export " (String.append key (String "=" v))). rewrite starts_with_before in E by done.
  destruct (strip_prefix "export " _) as [r|] eqn:Er; [|done]. change (is_some (Some r)) with true in E. exfalso.
  assert (Hf : char_free " " key = true) by (apply key_char_free; [tauto|done]).
  assert (Ep := starts_with_strip "export " key). rewrite E in Ep. destruct (strip_prefix "export " key) as [r'|] eqn:Er'; [|done].
  apply strip_prefix_eq in Er' as ->. done.
Qed.

Lemma env_line_var exported key k v :
  EnvKey_from_str key = Ok k -> env_line (var_line exported key v) = Some (k, parse_env_value (trim (trim_end (trim_end v)))).
Proof.
  intros H. assert (H' := H). apply env_key_ok in H' as (-> & Hf & Hk).
  assert (Hkey : first_is key_char key = true) by (destruct key as [|c key]; [done|]; cbn [str_forallb] in Hk; apply andb_prop in Hk as [Hk1 _]; exact Hk1).
  assert (Hp : exists c r, var_line exported key v = String c r /\ pivot c /\ Ascii.eqb c "#" = false).
  { unfold var_line. destruct exported; [by eexists _, _; split; [reflexivity|vm_compute]|].
    destruct key as [|c key]; [done|]. cbn in Hkey. apply key_char_facts in Hkey as (Hc & _ & Hh & _). by eexists c, _. }
  destruct Hp as (c & r & Ec & Hc & Hh). rewrite (env_line_pair _ key v).
  - unfold env_pair. by rewrite trim_key, H.
  - rewrite Ec. by apply trim_start_pivot.
  - unfold is_comment, trim. rewrite Ec, trim_start_pivot by done.
    assert (E : trim_end (String c r) = String c (trim_end r)) by by apply (trim_end_app c EmptyString).
    rewrite E. cbn [str_is_empty orb starts_with]. by rewrite andb_true_r, Ascii.eqb_sym.
  - unfold var_line, strip_export. destruct exported; cbn [export_prefix].
    + rewrite strip_prefix_app. apply split_once_app. apply key_char_free; [tauto|done].
    + change (String.append EmptyString ?x) with x. rewrite key_not_export by done.
      apply split_once_app. apply key_char_free; [tauto|done].
Qed.

(** ** Lines of a joined text *)

Lemma strip_cr_free line : char_free CR line = true -> strip_cr line = line.
Proof.
  intros H. unfold strip_cr. destruct (rsplit_once CR line) as [[l r]|] eqn:E; [|done].
  apply rsplit_once_eq in E as [E _]. rewrite E in H. unfold char_free in H. rewrite str_forallb_append in H.
  by apply andb_prop in H as [_ H].
Qed.

Lemma omap_lines_of {A} (f : string -> option A) l :
  f EmptyString = None -> Forall (fun p => strip_cr p = p) l -> omap f (lines_of l) = omap f l.
Proof.
  intros Hf H. induction H as [|p l Hp Hl IH]; [done|]. destruct l as [|q l].
  - cbn. destruct p as [|c p]; [by rewrite Hf|done].
  - change (omap f (strip_cr p :: lines_of (q :: l)) = omap f (p :: q :: l)). rewrite Hp. cbn in *. by rewrite IH.
Qed.

Lemma parse_joined l :
  Forall (fun p => char_free LF p = true /\ strip_cr p = p) l -> parse_env_file (join_with LF l) = omap env_line l.
Proof.
  intros H. destruct l as [|p l]; [done|]. unfold parse_env_file, lines.
  rewrite split_on_join; [|done|by eapply Forall_impl; [exact H|intros ? []]].
  apply omap_lines_of; [done|]. by eapply Forall_impl; [exact H|intros ? []].
Qed.

(** ** Quoted values *)

Definition quoted_line (kv : string * string) : string :=
  var_line false kv.1 (String DQUOTE (String.append kv.2 (String DQUOTE EmptyString))).

Lemma substring_append a b : String.substring 0 (String.length a) (String.append a b) = a.
Proof. induction a as [|c a IH]; [by destruct b|]. cbn. by rewrite IH. Qed.

Lemma length_append a b : String.length (String.append a b) = (String.length a + String.length b)%nat.
Proof. induction a as [|c a IH]; [done|]. cbn. by rewrite IH. Qed.

Lemma parse_quoted v : parse_env_value (String DQUOTE (String.append v (String DQUOTE EmptyString))) = v.
Proof.
  unfold parse_env_value.
  assert (E : quoted_by DQUOTE (String DQUOTE (String.append v (String DQUOTE EmptyString))) = true).
  { unfold quoted_by, str_len, last_is. cbn [first_is]. rewrite Ascii.eqb_refl.
    change (String DQUOTE (String.append v ?x)) with (String.append (String DQUOTE v) x). rewrite last_append by done.
    rewrite length_append. cbn [String.length]. apply andb_true_iff. split; [done|]. apply Z.leb_le. lia. }
  rewrite E. cbn [orb inner]. rewrite length_append. cbn [String.length].
  replace (String.length v + 1 - 1)%nat with (String.length v) by lia. apply substring_append.
Qed.

(** Whatever the values hold, line feeds apart, an environment file that quotes them reads
    back as the same variables in the same order. *)
Theorem env_file_reads_quoted vars :
  Forall (fun kv => is_ok (EnvKey_from_str kv.1) = true /\ char_free LF kv.2 = true) vars ->
  parse_env_file (join_with LF (map quoted_line vars)) = vars.
Proof.
  intros H. rewrite parse_joined.
  - induction H as [|[k v] vars [Hk Hv] _ IH]; [done|]. cbn [map omap list_omap fst snd] in *.
    destruct (EnvKey_from_str k) as [key|] eqn:Ek; [|done]. unfold quoted_line. cbn [fst snd].
    rewrite (env_line_var _ k key _ Ek). assert (Hq : pivot DQUOTE) by by vm_compute.
    assert (Et : forall x, trim_end (String DQUOTE (String.append x (String DQUOTE EmptyString))) = String DQUOTE (String.append x (String DQUOTE EmptyString))).
    { intros x. by apply (trim_end_app DQUOTE (String DQUOTE x)). }
    unfold trim. rewrite !Et, trim_start_pivot, Et, parse_quoted by done. apply env_key_ok in Ek as [-> _].
    f_equal. exact IH.
  - apply Forall_map. eapply Forall_impl; [exact H|]. intros [k v] [Hk Hv]. cbn [fst snd] in *.
    destruct (EnvKey_from_str k) as [key|] eqn:Ek; [|done]. apply env_key_ok in Ek as (_ & _ & Hc). split.
    + unfold quoted_line, var_line, char_free in *. cbn [export_prefix fst snd String.append].
      rewrite str_forallb_append. cbn. rewrite str_forallb_append, Hv. cbn.
      apply (key_char_free LF) in Hc; [|tauto]. unfold char_free in Hc. by rewrite Hc.
    + unfold strip_cr. destruct (rsplit_once CR _) as [[l [|c r]]|] eqn:E; [|done|done]. exfalso.
      apply rsplit_once_eq in E as [E _]. apply (f_equal (fun x => last (String.list_ascii_of_string x))) in E.
      rewrite last_append in E by done. unfold quoted_line, var_line in E. cbn [export_prefix fst snd String.append] in E.
      rewrite last_append in E by done.
      change (String "=" (String DQUOTE (String.append v ?x))) with (String.append (String "=" (String DQUOTE v)) x) in E.
      by rewrite last_append in E.
Qed.

Lemma env_file_reads_quoted_witness :
  let vars := [("A", "x #y"); ("B_2", ""); ("A", "' z ")] in
  Forall (fun kv => is_ok (EnvKey_from_str kv.1) = true /\ char_free LF kv.2 = true) vars
  /\ parse_env_file (join_with LF (map quoted_line vars)) = vars.
Proof.
  set (vars := [("A", "x #y"); ("B_2", ""); ("A", "' z ")]).
  assert (H : Forall (fun kv => is_ok (EnvKey_from_str kv.1) = true /\ char_free LF kv.2 = true) vars) by (repeat constructor).
  split; [exact H|]. apply (env_file_reads_quoted vars H).
Defined.

(** ** Resolved templates *)

Lemma env_line_comment line : is_comment line = true -> env_line line = None.
Proof. unfold is_comment, env_line. by intros ->. Qed.

Section Templates.
Context (generator : string -> string).

(** A line of the template against what a reader sees in its result. *)
Lemma process_line_reads line overwrite text entry generated :
  trim_start line = line -> process_template_line generator line overwrite = (text, entry, generated) ->
  match entry with
  | Some e => exists v, entry_value e = Some v /\ (plain_value v -> env_line text = Some (entry_key e, v))
  | None => text = line /\ env_line line = None
  end.
Proof.
  intros Hs. unfold process_template_line. fold (is_comment line).
  destruct (is_comment line) eqn:Ec; [intros [= <- <- _]; by split; [|apply env_line_comment]|].
  destruct (split_once "=" (strip_export line)) as [[k v]|] eqn:Ek.
  2: { intros [= <- <- _]. split; [done|]. by apply env_line_none, split_once_none. }
  destruct (if _ : bool then _ else _) as [final gkey].
  destruct (EnvKey_from_str (trim k)) as [key|err] eqn:Ey.
  - remember (starts_with "export " line) as ex eqn:Eex. intros [= <- <- _]. exists final. split; [done|]. intros (H1 & H2 & H3 & _). cbn [entry_key].
    assert (Ey' := Ey). apply env_key_ok in Ey' as [-> _].
    change (if ex then "export " else EmptyString) with (export_prefix ex).
    change (String.append (export_prefix ?b) (String.append ?y (String "=" ?f))) with (var_line b y f). rewrite (env_line_var _ _ _ _ Ey). by rewrite !H1, H2, H3.
  - intros [= <- <- _]. split; [done|]. rewrite (env_line_pair line k v) by done. unfold env_pair. by rewrite Ey.
Qed.

(** C25: The text that a template resolves to reads back as exactly the entries of the answer,
    when their values are plain (no quotes around them, no comment mark, no blank ends) and no
    line of the template is indented. *)
Theorem resolved_template_reads_back template overwrite :
  Forall (fun line => trim_start line = line /\ char_free LF line = true /\ char_free CR line = true) (lines template) ->
  let '(text, entries, _) := resolve_env_template generator template overwrite in
  Forall (fun e => plain_value (unwrap_or (entry_value e) EmptyString)) entries ->
  parse_env_file text = map (fun e => (entry_key e, unwrap_or (entry_value e) EmptyString)) entries.
Proof.
  unfold resolve_env_template. intros H He. rewrite parse_joined.
  - revert He. induction H as [|line l (Hs & _) _ IH]; intros He; [done|]. cbn [map omap list_omap] in *.
    destruct (process_template_line generator line overwrite) as [[text entry] gkey] eqn:E.
    apply process_line_reads in E; [|done]. cbn [fst snd] in *. destruct entry as [e|].
    + destruct E as (v & Hv & Hr). apply Forall_cons in He as [Hp He]. rewrite Hv in Hp. rewrite Hr by done.
      cbn [map]. rewrite Hv. f_equal. by apply IH.
    + destruct E as [-> ->]. by apply IH.
  - apply Forall_map. apply Forall_map. apply Forall_forall. intros line Hin. rewrite Forall_forall in H. destruct (H _ Hin) as (Hs & Hlf & Hcr).
    destruct (process_template_line generator line overwrite) as [[text entry] gkey] eqn:E.
    assert (Ein : entry = None \/ exists e, entry = Some e /\ e ∈ omap (fun r => r.1.2) (map (fun line => process_template_line generator line overwrite) (lines template))).
    { destruct entry as [e|]; [right|by left]. exists e. split; [done|]. apply list_elem_of_omap.
      exists (text, Some e, gkey). split; [|done]. apply list_elem_of_fmap. exists line. by rewrite E. }
    assert (E' := E). apply process_line_reads in E'; [|done]. cbn [fst].
    destruct Ein as [->|(e & -> & Hine)]; [destruct E' as [-> _]; split; [done|by apply strip_cr_free]|].
    rewrite Forall_forall in He. specialize (He e Hine). destruct E' as (v & Hv & _). rewrite Hv in He.
    destruct He as (_ & _ & _ & HL & HC). revert E. unfold process_template_line.
    destruct (_ || _); [done|]. destruct (split_once "=" (strip_export line)) as [[k w]|]; [|done].
    destruct (if _ : bool then _ else _) as [final g0]. destruct (EnvKey_from_str (trim k)) as [key|] eqn:Ey; [|done].
    remember (starts_with "export " line) as ex eqn:Eex. intros [= <- <- _]. cbn in Hv. injection Hv as ->. apply env_key_ok in Ey as (_ & _ & Hk). cbn [unwrap_or] in *.
    assert (Hall : forall c, c = LF \/ c = CR -> char_free c v = true ->
      char_free c (String.append (if ex then "export " else EmptyString) (String.append (trim k) (String "=" v))) = true).
    { intros c Hc Hf. apply (key_char_free c) in Hk; [|tauto]. unfold char_free in *. rewrite !str_forallb_append, Hk. cbn [str_forallb].
      rewrite Hf. by destruct Hc as [-> | ->]; destruct ex. }
    split; [apply Hall; [by left|done]|apply strip_cr_free, Hall; [by right|done]].
Qed.

(** A value that needs its quotes loses them in the text, and a reader sees another value. *)
Theorem quoted_template_value_changes key v w rest :
  is_ok (EnvKey_from_str key) = true -> is_secret_key key = false -> char_free LF v = true -> split_comment v = Some (w, rest) ->
  trim (trim_end (trim_end v)) = v -> quoted_by DQUOTE v || quoted_by SQUOTE v = false ->
  exists text, process_template_line generator (quoted_line (key, v)) false = (text, Some (mkEnvEntry key (Some v) false), None)
    /\ env_line text = Some (key, trim w).
Proof.
  intros Hk Hsec Hlf Hc Ht Hq. exists (var_line false key v). destruct (EnvKey_from_str key) as [k|] eqn:Ek; [|done].
  assert (Ek' := Ek). apply env_key_ok in Ek' as (-> & _ & Hkey). split.
  - assert (E : trim (String DQUOTE (String.append v (String DQUOTE EmptyString))) = String DQUOTE (String.append v (String DQUOTE EmptyString))).
    { assert (Hp : pivot DQUOTE) by by vm_compute. unfold trim. rewrite trim_start_pivot by done.
      by apply (trim_end_app DQUOTE (String DQUOTE v)). }
    unfold process_template_line. fold (is_comment (quoted_line (key, v))).
    assert (Hcm : is_comment (quoted_line (key, v)) = false).
    { destruct (is_comment _) eqn:Ec; [|done]. apply env_line_comment in Ec. unfold quoted_line in Ec.
      by rewrite (env_line_var _ _ _ _ Ek) in Ec. }
    rewrite Hcm. unfold quoted_line, var_line, strip_export. cbn [export_prefix fst snd].
    change (String.append EmptyString ?x) with x. rewrite key_not_export by done.
    rewrite split_once_app by (apply key_char_free; [tauto|done]). rewrite trim_key, E by done. rewrite Hsec. cbn [andb].
    rewrite Ek. change (extract_clean_value ?x) with (parse_env_value x). rewrite parse_quoted.
    rewrite starts_with_before by done.
    assert (Hx : starts_with "export " key = false).
    { destruct (starts_with "export " key) eqn:Ex; [|done]. exfalso. assert (Hn := key_not_export key EmptyString Hkey).
      assert (Hss := starts_with_strip "export " (String.append key "=")). rewrite starts_with_before, Hn, Ex in Hss by done. done. }
    by rewrite Hx.
  - rewrite (env_line_var _ _ _ _ Ek), Ht. unfold parse_env_value. by rewrite Hq, Hc.
Qed.
End Templates.

Definition demo_template : string :=
  String.append "SITE=example.com" (String LF (String.append "# note" (String LF "export DB_PASSWORD=changeme"))).

Definition demo_generator (key : string) : string := String.append "s3cret-" key.

Definition demo_text : string :=
  String.append "SITE=example.com" (String LF (String.append "# note" (String LF "export DB_PASSWORD=s3cret-DB_PASSWORD"))).

Definition demo_entries : list EnvEntry :=
  [mkEnvEntry "SITE" (Some "example.com") false; mkEnvEntry "DB_PASSWORD" (Some "s3cret-DB_PASSWORD") true].

Lemma resolved_template_reads_back_witness :
  resolve_env_template demo_generator demo_template false = (demo_text, demo_entries, ["DB_PASSWORD"])
  /\ parse_env_file demo_text = map (fun e => (entry_key e, unwrap_or (entry_value e) EmptyString)) demo_entries.
Proof.
  assert (E : resolve_env_template demo_generator demo_template false = (demo_text, demo_entries, ["DB_PASSWORD"])) by (vm_compute; reflexivity).
  split; [exact E|]. assert (H := resolved_template_reads_back demo_generator demo_template false). rewrite E in H. apply H.
  - assert (El : lines demo_template = ["SITE=example.com"; "# note"; "export DB_PASSWORD=changeme"]) by (vm_compute; reflexivity).
    rewrite El. repeat (apply Forall_cons; split; [by repeat split; vm_compute|]). by apply Forall_nil.
  - unfold demo_entries. repeat (apply Forall_cons; split; [by repeat split; vm_compute|]). by apply Forall_nil.
Defined.

Lemma quoted_template_value_changes_witness :
  exists text, process_template_line (fun key => key) (quoted_line ("MOTD", "hi #1")) false
               = (text, Some (mkEnvEntry "MOTD" (Some "hi #1") false), None)
    /\ env_line text = Some ("MOTD", "hi").
Proof. apply (quoted_template_value_changes (fun key => key) "MOTD" "hi #1" "hi" "1"); by vm_compute. Defined.

(** ** Generated entries *)

Section Entries.
Context (generator : string -> string) (Hgen : forall key, is_empty_or_placeholder (generator key) = false).

Definition is_secret_entry (e : EnvEntry) : bool := entry_secret e || is_secret_key (entry_key e).

Definition lacks_value (e : EnvEntry) : bool := match entry_value e with Some v => is_empty_or_placeholder v | None => true end.

(** Generating the secrets of a list of variables keeps its keys and order; every secret has
    a value afterwards that is no placeholder; a variable that is no secret, and without the
    overwrite a secret that had a value, stays as it was; and exactly the keys of the replaced
    variables are reported. *)
Theorem generated_secrets_exact entries overwrite :
  let '(after, keys) := resolve_env_entries generator entries overwrite in
  map entry_key after = map entry_key entries
  /\ Forall (fun e => is_secret_entry e = true -> lacks_value e = false) after
  /\ Forall2 (fun e e' => is_secret_entry e = false \/ (overwrite = false /\ lacks_value e = false) -> e' = e) entries after
  /\ keys = map entry_key (List.filter (fun e => is_secret_entry e && (lacks_value e || overwrite)) entries).
Proof.
  unfold resolve_env_entries. induction entries as [|e l (IH1 & IH2 & IH3 & IH4)]; [by repeat constructor|].
  cbn [map omap list_omap List.filter] in *. rewrite IH4. unfold resolve_entry at 1 3 5 7.
  fold (is_secret_entry e). fold (lacks_value e).
  destruct (is_secret_entry e) eqn:Es; cbn [negb andb].
  - destruct (lacks_value e || overwrite) eqn:En; cbn [fst snd map entry_key].
    + split; [by rewrite IH1|]. split; [constructor; [by intros _; apply Hgen|done]|]. split; [|done].
      constructor; [|done]. intros [?|[-> Hl]]; [congruence|]. by rewrite Hl in En.
    + apply orb_false_elim in En as [Hl ->]. split; [by rewrite IH1|]. split; [by constructor|]. split; [by constructor|done].
  - cbn [fst snd map]. split; [by rewrite IH1|]. split; [constructor; [by rewrite Es|done]|]. split; [by constructor|done].
Qed.
End Entries.

Definition demo_vars : list EnvEntry :=
  [mkEnvEntry "SITE" (Some "x") false; mkEnvEntry "API_TOKEN" (Some "<token>") false; mkEnvEntry "EXTRA" None true].

Definition demo_after : list EnvEntry :=
  [mkEnvEntry "SITE" (Some "x") false; mkEnvEntry "API_TOKEN" (Some "generated-1") true; mkEnvEntry "EXTRA" (Some "generated-1") true].

Lemma generated_secrets_exact_witness :
  resolve_env_entries (fun _ => "generated-1") demo_vars false = (demo_after, ["API_TOKEN"; "EXTRA"])
  /\ map entry_key demo_after = map entry_key demo_vars
  /\ Forall (fun e => is_secret_entry e = true -> lacks_value e = false) demo_after.
Proof.
  assert (E : resolve_env_entries (fun _ => "generated-1") demo_vars false = (demo_after, ["API_TOKEN"; "EXTRA"])) by (vm_compute; reflexivity).
  assert (Hg : forall key : string, is_empty_or_placeholder ((fun _ => "generated-1") key) = false) by (intros; vm_compute; reflexivity).
  assert (H := generated_secrets_exact (fun _ => "generated-1") Hg demo_vars false). rewrite E in H. destruct H as (H1 & H2 & _).
  split; [exact E|]. split; [exact H1|exact H2].
Defined.

(** ** Merged environments *)

Definition lookup_var (k : string) (l : list EnvVar) : option string :=
  option_map var_value (find (fun v => String.eqb (var_key v) k) l).

(** The last value that a source gives a key. *)
Definition last_var (k : string) (l : list EnvVar) : option string := lookup_var k (rev l).

Lemma lookup_set k var l :
  lookup_var k (set_var var l) = if String.eqb (var_key var) k then Some (var_value var) else lookup_var k l.
Proof.
  unfold lookup_var. induction l as [|v l IH]; cbn; [by destruct (String.eqb (var_key var) k)|].
  destruct (String.eqb_spec (var_key v) (var_key var)) as [E|E]; cbn.
  - rewrite E. by destruct (String.eqb (var_key var) k).
  - destruct (String.eqb_spec (var_key v) k) as [E2|]; [|exact IH].
    destruct (String.eqb_spec (var_key var) k) as [E3|]; [congruence|done].
Qed.

Lemma set_var_keys var l : exists extra, map var_key (set_var var l) = map var_key l ++ extra /\ (extra = [] \/ extra = [var_key var] /\ var_key var ∉ map var_key l).
Proof.
  induction l as [|v l IH]; cbn; [exists [var_key var]; split; [done|right; split; [done|by apply not_elem_of_nil]]|].
  destruct (String.eqb_spec (var_key v) (var_key var)) as [E|E]; cbn; [exists []; rewrite app_nil_r; by split; [|left]|].
  destruct IH as (extra & -> & [->|[-> Hn]]); [exists []; split; [by rewrite !app_nil_r|by left]|].
  exists [var_key var]. split; [done|]. right. split; [done|]. apply not_elem_of_cons. by split; [congruence|].
Qed.

Lemma find_append {A} (p : A -> bool) l1 l2 : find p (l1 ++ l2) = match find p l1 with Some x => Some x | None => find p l2 end.
Proof. induction l1 as [|x l1 IH]; [done|]. cbn. by destruct (p x). Qed.

(** In a merged environment a key has the last value that the later source gives it, and
    else the value of the earlier one; the keys of the earlier source keep their places, and no
    key appears twice. *)
Theorem merge_env_vars_exact target new_vars :
  (forall k, lookup_var k (merge_env_vars target new_vars)
             = match last_var k new_vars with Some v => Some v | None => lookup_var k target end)
  /\ map var_key target `prefix_of` map var_key (merge_env_vars target new_vars)
  /\ (NoDup (map var_key target) -> NoDup (map var_key (merge_env_vars target new_vars))).
Proof.
  unfold merge_env_vars. revert target. induction new_vars as [|var l IH]; intros target; cbn [fold_left]; [done|].
  destruct (IH (set_var var target)) as (H1 & H2 & H3). destruct (set_var_keys var target) as (extra & E & Hx). split; [|split].
  - intros k. rewrite H1, lookup_set. unfold last_var, lookup_var. cbn [rev]. rewrite find_append.
    destruct (find _ (rev l)); [done|]. cbn. by destruct (String.eqb (var_key var) k).
  - etrans; [|exact H2]. rewrite E. by apply prefix_app_r.
  - intros Hnd. apply H3. rewrite E. destruct Hx as [->|[-> Hn]]; [by rewrite app_nil_r|].
    apply NoDup_app. split; [done|]. split; [|apply NoDup_singleton]. intros x Hx ->%list_elem_of_singleton. done.
Qed.

Lemma merge_env_vars_exact_witness :
  let group := [mkEnvVar "A" "1"; mkEnvVar "B" "2"] in let panel := [mkEnvVar "C" "3"; mkEnvVar "A" "9"] in
  merge_env_vars group panel = [mkEnvVar "A" "9"; mkEnvVar "B" "2"; mkEnvVar "C" "3"]
  /\ NoDup (map var_key (merge_env_vars group panel)).
Proof.
  split; [vm_compute; reflexivity|]. apply (merge_env_vars_exact [mkEnvVar "A" "1"; mkEnvVar "B" "2"]).
  cbn. repeat constructor; set_solver.
Defined.
