(* ===== verification/Apps.v ===== *)
(** * The specification of an app

    [r3v3rs3-api/src/platform.rs]: the sources of an app, its specification with every check, the
    catalog of database engines, tag patterns, build caches, alert rules, and the checks of
    environments and projects.  Values that the checks do not read (health of agents, load
    balancing, previews) keep their types or are left out, as the map says.  The URL and YAML
    crates are the classes of [Containers] and [Compose]; checked texts are [string]s. *)

From Stdlib Require Import Ascii.
From stdpp Require Import strings.
From S2P Require Import Prelude Basics IpText Net Upstream Policy Router Quarantine Schedule Containers Compose EnvFiles.

Definition invalid (reason : string) : Error := InvalidContainerSpec reason.

(** ** The catalog of engines *)

Record EngineInfo : Type := mkEngineInfo {
  engine : string;
  engine_label : string;
  engine_versions : list string;
  container_port : Z;
  password_env : string;
  engine_user : string;
  default_db : string;
  engine_url_scheme : string;
  env_prefix : string;
  url_database : bool;
  data_path : string;
}.

Record EnginesCatalog : Type := mkEnginesCatalog { catalog_version : Z; catalog_updated_at : Z; catalog_engines : list EngineInfo }.

Record InstalledEngines : Type := mkInstalledEngines { installed_updated_at : Z; installed_engines : list EngineInfo }.

Definition InstalledEngines_default : InstalledEngines := mkInstalledEngines 0 [].

Definition engine_key_char (c : ascii) : bool := is_ascii_lowercase c || is_ascii_digit c.

(** [iter().all(|info| .. && keys.insert(..))]: the keys so far are [seen]. *)
Fixpoint engines_valid (seen : list string) (l : list EngineInfo) : bool :=
  match l with
  | [] => true
  | info :: rest =>
      negb (str_is_empty (engine info)) && str_forallb engine_key_char (engine info)
      && negb (bool_decide (engine info ∈ seen)) && engines_valid (engine info :: seen) rest
  end.

Definition install_engines (catalog : EnginesCatalog) (installed : InstalledEngines) : bool * InstalledEngines :=
  let valid := negb (bool_decide (length (catalog_engines catalog) = 0%nat)) && engines_valid [] (catalog_engines catalog) in
  if negb valid then (false, installed)
  else if catalog_updated_at catalog <? installed_updated_at installed then (false, installed)
  else (true, mkInstalledEngines (catalog_updated_at catalog) (catalog_engines catalog)).

Definition engine_info (key : string) (installed : InstalledEngines) : option EngineInfo :=
  find (fun info => String.eqb (engine info) key) (installed_engines installed).

(** ** Sources *)

Inductive AppSource : Type :=
| SImage (image : string)
| SGit (repository branch context dockerfile : string) (connection : option ShortId)
| SCompose (repository : option string) (branch : string) (file : option string) (service : string)
    (connection : option ShortId) (compose_yaml : option string).

Definition source_repository (s : AppSource) : option (string * option ShortId) :=
  match s with
  | SImage _ => None
  | SGit repository _ _ _ connection => Some (repository, connection)
  | SCompose repository _ _ _ connection _ => option_map (fun r => (r, connection)) repository
  end.

Definition is_compose (s : AppSource) : bool := match s with SCompose _ _ _ _ _ _ => true | _ => false end.
Definition is_git (s : AppSource) : bool := match s with SGit _ _ _ _ _ => true | _ => false end.
Definition is_image (s : AppSource) : bool := match s with SImage _ => true | _ => false end.

(** ** Alert rules *)

Record AlertRules : Type := mkAlertRules {
  cpu_percent : option Z;
  alert_memory_bytes : option Z;
  memory_percent : option Z;
}.

Definition AlertRules_validate (r : AlertRules) : result unit Error :=
  if match memory_percent r with Some mem_pct => (mem_pct =? 0) || (100 <? mem_pct) | None => false end then
    Err (invalid "the memory alert percentage must be between 1 and 100")
  else if match cpu_percent r with Some cpu_pct => cpu_pct =? 0 | None => false end then
    Err (invalid "the cpu alert percentage must be greater than 0")
  else Ok tt.

Record NodeAlertRules : Type := mkNodeAlertRules {
  rules_enabled : bool;
  min_free_disk_percent : option Z;
  bandwidth_spike_bytes_per_sec : option Z;
  max_fd_ratio_percent : option Z;
  max_time_wait_sockets : option Z;
}.

Definition NodeAlertRules_default : NodeAlertRules := mkNodeAlertRules true (Some 10) None (Some 80) None.

Definition validate_disk_and_bandwidth (r : NodeAlertRules) : result unit Error :=
  if match min_free_disk_percent r with Some pct => (pct =? 0) || (90 <? pct) | None => false end then
    Err (invalid "the minimum free disk percentage must be between 1 and 90")
  else if match bandwidth_spike_bytes_per_sec r with Some bw => bw =? 0 | None => false end then
    Err (invalid "the bandwidth spike threshold must be greater than 0")
  else Ok tt.

Definition validate_fd_and_sockets (r : NodeAlertRules) : result unit Error :=
  if match max_fd_ratio_percent r with Some fd_pct => (fd_pct =? 0) || (100 <? fd_pct) | None => false end then
    Err (invalid "the maximum file descriptor ratio percentage must be between 1 and 100")
  else if match max_time_wait_sockets r with Some tw => tw =? 0 | None => false end then
    Err (invalid "the maximum TIME_WAIT socket threshold must be greater than 0")
  else Ok tt.

Definition NodeAlertRules_validate (r : NodeAlertRules) : result unit Error :=
  let? _ := validate_disk_and_bandwidth r in validate_fd_and_sockets r.

(** ** The parts of a specification *)

Record DeploymentLifecycleHooks : Type := mkHooks { pre_deploy : option string; post_deploy : option string }.

Inductive CacheMountPreset : Type := Cargo | Npm | Pnpm | Yarn | Go | Pip | Maven | Gradle.

Definition preset_id (p : CacheMountPreset) : string :=
  match p with
  | Cargo => "cargo" | Npm => "npm" | Pnpm => "pnpm" | Yarn => "yarn"
  | Go => "go" | Pip => "pip" | Maven => "maven" | Gradle => "gradle"
  end.

Definition preset_paths (p : CacheMountPreset) : list string :=
  match p with
  | Cargo => ["/root/.cargo/registry"; "/root/.cargo/git"; "/app/target"]
  | Npm => ["/root/.npm"]
  | Pnpm => ["/root/.local/share/pnpm/store"]
  | Yarn => ["/usr/local/share/.cache/yarn"]
  | Go => ["/root/.cache/go-build"; "/go/pkg/mod"]
  | Pip => ["/root/.cache/pip"]
  | Maven => ["/root/.m2"]
  | Gradle => ["/root/.gradle"]
  end.

Record BuildKitConfig : Type := mkBuildKit {
  buildkit_enabled : bool;
  remote_addr : option string;
  cache_mounts : list CacheMountPreset;
  custom_cache_paths : list string;
  cache_from : option string;
  cache_to : option string;
}.

Record GitConfigFile : Type := mkGitConfig { config_repository : option string; config_branch : option string; config_path : string }.

Record PreviewConfig : Type := mkPreview { preview_enabled : bool; domain_template : option string }.
Record PreviewParent : Type := mkPreviewParent { parent_id : ShortId; pr_number : Z }.

Record AppSpec : Type := mkAppSpec {
  source : AppSource;
  port : Z;
  domains : list SubjectName;
  ports : list string;
  health_check_path : option string;
  volumes : list VolumeMount;
  restart : RestartPolicy;
  limits : ResourceLimits;
  host_port : option Z;
  database : option string;
  uses_database : option ShortId;
  replica_of : option ShortId;
  auto_deploy : bool;
  require_approval : bool;
  deploy_window : option string;
  tag_trigger : option string;
  store_app_id : option string;
  targets : list ShortId;
  load_balancing : option LoadBalancing;
  alert_rules : option AlertRules;
  sticky : option StickyCookie;
  git_config : option GitConfigFile;
  env_groups : list ShortId;
  preview : option PreviewConfig;
  preview_of : option PreviewParent;
  buildkit : option BuildKitConfig;
  bot_blocker : bool;
  grpc_web : bool;
  project_id : option ShortId;
  environment_id : option ShortId;
  frame_protection : bool;
  lifecycle_hooks : option DeploymentLifecycleHooks;
}.

(** ** Tag patterns *)

Definition is_valid_tag_char (c : ascii) : bool := is_ascii_alphanumeric c || str_contains_char ".-_*?/+@" c.

Definition validate_tag_pattern (pattern : string) : result unit Error :=
  if str_is_empty pattern || (128 <? str_len pattern) then Err (invalid "tag pattern must be between 1 and 128 characters")
  else if negb (str_forallb is_valid_tag_char pattern) then
    Err (invalid "tag pattern contains invalid characters (allowed: alphanumeric, ., -, _, *, ?, /, +, @)")
  else Ok tt.

Definition STAR : ascii := "*".

Definition char_matches (p t : ascii) : bool := Ascii.eqb p t || Ascii.eqb p "?".

(** [skip_trailing_stars(p, idx) == p.len()], on the rest of the pattern from [idx]. *)
Fixpoint all_stars (rest : list ascii) : bool :=
  match rest with
  | [] => true
  | c :: r => if Ascii.eqb c STAR then all_stars r else false
  end.

Record TagState : Type := mkTag { p_idx : nat; t_idx : nat; star : option nat; match_idx : nat }.

Inductive TagTurn : Type :=
| TagContinue (st : TagState)
| TagMismatch
| TagEnd.

(** One test of the loop condition with the turn that follows. *)
Definition tag_turn (p t : list ascii) (st : TagState) : TagTurn :=
  match t !! t_idx st with
  | None => TagEnd
  | Some tc =>
      let literal := match p !! p_idx st with Some pc => char_matches pc tc | None => false end in
      let is_star := match p !! p_idx st with Some pc => Ascii.eqb pc STAR | None => false end in
      if literal then TagContinue (mkTag (S (p_idx st)) (S (t_idx st)) (star st) (match_idx st))
      else if is_star then TagContinue (mkTag (S (p_idx st)) (t_idx st) (Some (p_idx st)) (t_idx st))
      else match star st with
           | Some s => TagContinue (mkTag (S s) (S (match_idx st)) (star st) (S (match_idx st)))
           | None => TagMismatch
           end
  end.

(** The loop; [None] when the fuel runs out. *)
Fixpoint tag_loop (fuel : nat) (p t : list ascii) (st : TagState) : option bool :=
  match fuel with
  | O => None
  | S f =>
      match tag_turn p t st with
      | TagContinue st' => tag_loop f p t st'
      | TagMismatch => Some false
      | TagEnd => Some (all_stars (drop (p_idx st) p))
      end
  end.

Definition tag_fuel (p t : list ascii) : nat := S ((length p + 1) * ((length t + 1) * (length t + 1))).

Definition tag_match (p t : list ascii) : option bool := tag_loop (tag_fuel p t) p t (mkTag 0 0 None 0).

Definition matches_tag_pattern (pattern tag : string) : bool :=
  unwrap_or (tag_match (String.list_ascii_of_string pattern) (String.list_ascii_of_string tag)) false.

Example tag_examples :
  map (fun pt => matches_tag_pattern pt.1 pt.2)
    [("v*", "v1.2"); ("v?.*", "v1.2"); ("release-*", "v1"); ("*-rc?", "v1-rc-rc2"); ("", ""); ("*", ""); ("a*b*c", "aXbYc"); ("a*b*c", "aXbY")]
  = [true; true; false; true; true; true; true; false].
Proof. vm_compute. reflexivity. Qed.

(** ** Cache paths *)

Definition str_has_whitespace (s : string) : bool := Nat.ltb 1 (length (split_ws_or (fun _ => false) s)).

Definition bad_cache_symbol (c : ascii) : bool :=
  existsb (Ascii.eqb c) [","; DQUOTE; SQUOTE; "`"; "\"; "="; ";"]%char.

(** No character is whitespace, a control or one of the symbols ([has_invalid_cache_char]). *)
Definition is_valid_cache_path (path : string) : bool :=
  if negb (starts_with "/" path) || (str_len path <? 2) || str_contains ".." path then false
  else negb (str_has_whitespace path || has_control path || str_existsb bad_cache_symbol path).

(** ** The checks of a specification *)

(** The first element of [l] that [HashSet::insert] refuses, by its key. *)
Fixpoint first_repeat {A B} `{EqDecision B} (key : A -> B) (seen : list B) (l : list A) : option A :=
  match l with
  | [] => None
  | a :: r => if bool_decide (key a ∈ seen) then Some a else first_repeat key (key a :: seen) r
  end.

Definition MAX_HEALTH_PATH_LENGTH : Z := 1024.

Definition validate_health_path (path : string) : result unit Error :=
  if starts_with "/" path && (str_len path <=? MAX_HEALTH_PATH_LENGTH) && str_forallb is_ascii_graphic path then Ok tt
  else Err (invalid (String.append "invalid health check path: " path)).

Definition validate_project_and_environment (s : AppSpec) : result unit Error :=
  if is_some (environment_id s) && is_none (project_id s) then
    Err (invalid "an environment cannot be specified without a project")
  else Ok tt.

Definition opt_check {A} (o : option A) (check : A -> result unit Error) : result unit Error :=
  match o with Some a => check a | None => Ok tt end.

Definition validate_runtime_policies (s : AppSpec) : result unit Error :=
  let? _ := opt_check (health_check_path s) validate_health_path in
  let? _ := opt_check (deploy_window s) validate_deploy_window in
  let? _ := opt_check (alert_rules s) AlertRules_validate in
  opt_check (sticky s) StickyCookie_validate.

Definition validate_git_config (s : AppSpec) : result unit Error :=
  match git_config s with
  | None => Ok tt
  | Some config =>
      if is_image (source s) && is_none (config_repository config) then Err (invalid "git_config requires repository for image apps")
      else Ok tt
  end.

Definition validate_buildkit (s : AppSpec) : result unit Error :=
  match buildkit s with
  | None => Ok tt
  | Some config =>
      if buildkit_enabled config && negb (is_git (source s)) then Err (invalid "BuildKit can only be enabled for Git-based applications")
      else try_for_each (fun path => if is_valid_cache_path path then Ok tt
             else Err (invalid "custom cache path must be an absolute path without whitespace, commas, or injection characters"))
             (custom_cache_paths config)
  end.

Definition validate_tag_trigger (s : AppSpec) : result unit Error := opt_check (tag_trigger s) validate_tag_pattern.

Definition validate_build_options (s : AppSpec) : result unit Error :=
  let? _ := validate_git_config s in let? _ := validate_buildkit s in validate_tag_trigger s.

Definition validate_volumes (s : AppSpec) : result unit Error :=
  match first_repeat mount_target [] (volumes s) with
  | Some mount => Err (invalid (String.append "the path " (String.append (mount_target mount) " is mounted twice")))
  | None => Ok tt
  end.

Definition validate_database (installed : InstalledEngines) (s : AppSpec) : result unit Error :=
  match database s with
  | None => Ok tt
  | Some engine =>
      if is_none (engine_info engine installed) then
        Err (invalid (String.append "the engine " (String.append engine " is not in the database catalog")))
      else if negb (is_image (source s)) then
        Err (invalid (String.append "a database app runs an image, not a " (String.append engine " source")))
      else match domains s with
           | domain :: _ =>
               Err (invalid (String.append "a database app has no domains, but " (String.append (SubjectName_to_string domain) " is listed")))
           | [] => if is_some (uses_database s) then Err (invalid "a database app cannot use another database") else Ok tt
           end
  end.

Definition validate_targets (s : AppSpec) : result unit Error :=
  if is_some (database s) && negb (bool_decide (targets s = [])) then
    Err (invalid "a database app cannot run across multiple targets")
  else match first_repeat (fun t => t) [] (targets s) with
       | Some _ => Err (invalid "replica targets must be distinct")
       | None => Ok tt
       end.

Definition targets_or_default (s : AppSpec) (primary : ShortId) : list ShortId :=
  match targets s with [] => [primary] | _ => targets s end.

Fixpoint validate_domain_list (seen : list string) (l : list SubjectName) : result unit Error :=
  match l with
  | [] => Ok tt
  | domain :: rest =>
      match domain with
      | DnsName name =>
          let lower := to_ascii_lowercase name in
          if bool_decide (lower ∈ seen) then
            Err (invalid (String.append "the domain " (String.append (SubjectName_to_string domain) " is listed twice")))
          else validate_domain_list (lower :: seen) rest
      | _ => Err (invalid (String.append "the domain " (String.append (SubjectName_to_string domain) " is not a DNS name")))
      end
  end.

Definition validate_domains (s : AppSpec) : result unit Error := validate_domain_list [] (domains s).

Definition validate_compose `{Yaml} (s : AppSpec) : result unit Error :=
  match source s with
  | SCompose repository _ _ service _ compose_yaml =>
      let customized := negb (bool_decide (volumes s = [])) || negb (bool_decide (restart s = RestartPolicy_default))
                        || negb (bool_decide (limits s = ResourceLimits_default)) in
      if customized then Err (invalid "a Compose app sets its volumes, restart policy and limits in its Compose file")
      else if is_none repository && is_none compose_yaml then
        Err (invalid "a Compose app requires either a repository or inline compose_yaml")
      else opt_check compose_yaml (fun yaml => validate_compose_yaml yaml service)
  | _ => Ok tt
  end.

(** [AppSpec::validate]; the installed catalog is the global [ENGINES]. *)
Definition AppSpec_validate `{Yaml} (installed : InstalledEngines) (s : AppSpec) : result unit Error :=
  if port s =? 0 then Err (invalid "the port must be between 1 and 65535")
  else
    let? _ := validate_project_and_environment s in
    let? _ := validate_domains s in
    let? _ := validate_compose s in
    let? _ := validate_runtime_policies s in
    let? _ := validate_build_options s in
    let? _ := validate_volumes s in
    let? _ := validate_database installed s in
    validate_targets s.

(** ** Environments and projects *)

Record EnvGroupSpec : Type := mkEnvGroupSpec { group_name : string; group_description : option string; group_variables : list EnvEntry }.

Definition EnvGroupSpec_validate (s : EnvGroupSpec) : result unit Error :=
  if str_is_empty (trim (group_name s)) then Err (InvalidEnvGroup "name cannot be empty")
  else match first_repeat entry_key [] (group_variables s) with
       | Some var => Err (InvalidEnvGroup (String.append "duplicate key: " (entry_key var)))
       | None => Ok tt
       end.

Record ProjectSpec : Type := mkProjectSpec { project_name : string; project_description : option string; default_environments : list string }.

Definition ProjectSpec_validate (s : ProjectSpec) : result unit Error :=
  if str_is_empty (trim (project_name s)) then Err (InvalidProject "name cannot be empty")
  else try_for_each (fun env_name => if str_is_empty (trim env_name) then Err (InvalidEnvironment "environment name cannot be empty") else Ok tt)
         (default_environments s).

Record EnvironmentSpec : Type := mkEnvironmentSpec { environment_name : string; environment_description : option string }.

Definition EnvironmentSpec_validate (s : EnvironmentSpec) : result unit Error :=
  if str_is_empty (trim (environment_name s)) then Err (InvalidEnvironment "name cannot be empty") else Ok tt.

Definition EnvironmentEnvSpec_validate (variables : list EnvEntry) : result unit Error :=
  match first_repeat entry_key [] variables with
  | Some var => Err (InvalidEnvironment (String.append "duplicate key: " (entry_key var)))
  | None => Ok tt
  end.

Inductive EnvironmentSyncMode : Type := SyncMissing | CloneAll | SelectedKeys.

Record EnvironmentSyncRequest : Type := mkSyncRequest {
  source_env_id : ShortId;
  target_env_id : ShortId;
  sync_mode : EnvironmentSyncMode;
  sync_keys : list string;
}.

Definition EnvironmentSyncRequest_validate (r : EnvironmentSyncRequest) : result unit Error :=
  if bool_decide (source_env_id r = target_env_id r) then Err (InvalidEnvironment "source and target environments must be different")
  else match sync_mode r, sync_keys r with
       | SelectedKeys, [] => Err (InvalidEnvironment "at least one key must be selected for synchronization")
       | _, _ => Ok tt
       end.

(** ** Tag patterns match as their wildcards say *)

(** A star is any text, a question mark one character, and every other character itself. *)
Fixpoint glob (p : list ascii) (t : list ascii) : Prop :=
  match p with
  | [] => t = []
  | c :: p' =>
      if Ascii.eqb c STAR then exists k, (k <= length t)%nat /\ glob p' (drop k t)
      else match t with
           | [] => False
           | x :: t' => char_matches c x = true /\ glob p' t'
           end
  end.

Definition no_star (l : list ascii) : Prop := Forall (fun c => Ascii.eqb c STAR = false) l.

Lemma glob_nil p : glob p [] <-> all_stars p = true.
Proof.
  induction p as [|c p IH]; [done|]. cbn. destruct (Ascii.eqb c STAR); [|done]. rewrite <-IH. split.
  - intros (k & _ & H). by destruct k.
  - intros H. by exists 0%nat.
Qed.

Lemma glob_star p t : glob (STAR :: p) t <-> exists k, (k <= length t)%nat /\ glob p (drop k t).
Proof. done. Qed.

Lemma glob_cons c p x t : Ascii.eqb c STAR = false -> glob (c :: p) (x :: t) <-> char_matches c x = true /\ glob p t.
Proof. intros H. cbn. by rewrite H. Qed.

(** A part of the pattern without stars takes as many characters as it has. *)
Lemma glob_segment seg p t : no_star seg -> glob (seg ++ p) t -> (length seg <= length t)%nat /\ glob p (drop (length seg) t).
Proof.
  revert t. induction seg as [|c seg IH]; intros t Hs H; [split; [cbn; lia|done]|].
  apply Forall_cons in Hs as [Hc Hs]. cbn [app] in H. destruct t as [|x t]; [cbn in H; by rewrite Hc in H|].
  apply glob_cons in H as [_ H]; [|done]. destruct (IH t Hs H) as [H1 H2]. cbn [length drop]. split; [lia|done].
Qed.

(** What the loop keeps: the text matches exactly when the rest matches from here, or, after a
    star, when the pattern after the star matches from a later place; and the characters since
    the last restart are the ones of the pattern after that star. *)
Record tag_inv (p t : list ascii) (st : TagState) : Prop := {
  ti_t : (t_idx st <= length t)%nat;
  ti_p : (p_idx st <= length p)%nat;
  ti_m : (match_idx st <= t_idx st)%nat;
  ti_glob : glob p t <-> glob (drop (p_idx st) p) (drop (t_idx st) t)
              \/ exists s k, star st = Some s /\ (match_idx st < k <= length t)%nat /\ glob (drop (S s) p) (drop k t);
  ti_star : forall s, star st = Some s ->
    (s < p_idx st)%nat /\ p_idx st = (S s + (t_idx st - match_idx st))%nat
    /\ no_star (take (p_idx st - S s) (drop (S s) p));
}.

Lemma tag_start p t : tag_inv p t (mkTag 0 0 None 0).
Proof.
  split; cbn [t_idx p_idx star match_idx]; [lia|lia|lia| |done]. rewrite !drop_0. split; [by left|]. intros [H|(s & k & H & _)]; done.
Qed.

Lemma drop_lookup {A} (l : list A) i x : l !! i = Some x -> drop i l = x :: drop (S i) l.
Proof. intros H. by rewrite (drop_S l x i H). Qed.


Lemma no_star_none (l : list ascii) s : no_star (take (S s - S s) l).
Proof. rewrite Nat.sub_diag. constructor. Qed.

Section Turn.
Context (p t : list ascii) (st : TagState) (Hinv : tag_inv p t st).

Lemma tag_literal tc pc :
  t !! t_idx st = Some tc -> p !! p_idx st = Some pc -> char_matches pc tc = true -> Ascii.eqb tc STAR = false ->
  tag_inv p t (mkTag (S (p_idx st)) (S (t_idx st)) (star st) (match_idx st)).
Proof.
  intros Et Ep Em Htc. destruct Hinv as [H1 H2 Hm H3 H4].
  assert (Htl := lookup_lt_Some _ _ _ Et). assert (Hpl := lookup_lt_Some _ _ _ Ep).
  assert (Hpc : Ascii.eqb pc STAR = false).
  { unfold char_matches in Em. apply orb_prop in Em as [Em|Em]; apply Ascii.eqb_eq in Em; subst; done. }
  split; cbn [t_idx p_idx star match_idx]; [lia|lia|lia| |].
  - rewrite H3, (drop_lookup t _ _ Et), (drop_lookup p _ _ Ep), glob_cons by done. rewrite Em. tauto.
  - intros s Hs. destruct (H4 s Hs) as (Hlt & Hp & Hn). repeat split; [lia|lia|].
    replace (S (p_idx st) - S s)%nat with (S (p_idx st - S s)) by lia.
    rewrite (take_S_r _ _ pc) by (rewrite lookup_drop; rewrite <-Ep; f_equal; lia).
    apply Forall_app. by repeat constructor.
Qed.

Lemma tag_new_star tc :
  t !! t_idx st = Some tc -> p !! p_idx st = Some STAR ->
  tag_inv p t (mkTag (S (p_idx st)) (t_idx st) (Some (p_idx st)) (t_idx st)).
Proof.
  intros Et Ep. destruct Hinv as [H1 H2 Hm H3 H4].
  assert (Htl := lookup_lt_Some _ _ _ Et). assert (Hpl := lookup_lt_Some _ _ _ Ep). assert (Epd := drop_lookup p _ _ Ep).
  split; cbn [t_idx p_idx star match_idx]; [lia|lia|lia| |].
  - rewrite H3, Epd, glob_star. split.
    + intros [(k & Hk & H)|(s & k & Hs & Hk & H)].
      * rewrite length_drop in Hk. rewrite drop_drop in H. destruct k as [|k]; [left; by rewrite Nat.add_0_r in H|].
        right. exists (p_idx st), (t_idx st + S k)%nat. repeat split; [lia|lia|done].
      * destruct (H4 s Hs) as (Hlt & Hp & Hn). rewrite <-(take_drop (p_idx st - S s) (drop (S s) p)) in H.
        apply glob_segment in H as [Hl H]; [|done]. rewrite length_take, length_drop in Hl, H.
        rewrite !drop_drop in H. replace (S s + (p_idx st - S s))%nat with (p_idx st) in H by lia. rewrite Epd, glob_star in H.
        destruct H as (j & Hj & H). rewrite !length_drop in Hl, Hj. rewrite drop_drop in H.
        right. exists (p_idx st). eexists. split; [done|]. split; [|exact H]. lia.
    + intros [H|(s & k & [= <-] & Hk & H)]; left.
      * exists 0%nat. split; [lia|]. by rewrite drop_0.
      * exists (k - t_idx st)%nat. rewrite length_drop, drop_drop. split; [lia|]. by replace (t_idx st + (k - t_idx st))%nat with k by lia.
  - intros s [= <-]. repeat split; [lia|lia|]. apply no_star_none.
Qed.

Lemma tag_restart s :
  (t_idx st < length t)%nat -> star st = Some s -> ~ glob (drop (p_idx st) p) (drop (t_idx st) t) ->
  tag_inv p t (mkTag (S s) (S (match_idx st)) (star st) (S (match_idx st))).
Proof.
  intros Htl Est Hno. destruct Hinv as [H1 H2 Hm H3 H4]. rewrite Est in *. destruct (H4 s eq_refl) as (Hlt & Hp & Hn).
  split; cbn [t_idx p_idx star match_idx]; [lia|lia|lia| |].
  - rewrite H3. split.
    + intros [H|(s' & k & [= <-] & Hk & H)]; [done|]. destruct (decide (k = S (match_idx st))) as [->|]; [by left|].
      right. exists s, k. repeat split; [lia|lia|done].
    + intros [H|(s' & k & [= <-] & Hk & H)]; right; [exists s, (S (match_idx st))|exists s, k]; (split; [done|]; split; [lia|done]).
  - intros s' [= <-]. repeat split; [lia|lia|]. apply no_star_none.
Qed.

Lemma tag_no_restart : star st = None -> ~ glob (drop (p_idx st) p) (drop (t_idx st) t) -> ~ glob p t.
Proof. intros Est Hno. rewrite (ti_glob _ _ _ Hinv), Est. intros [H|(s & k & [=] & _)]. done. Qed.

Lemma tag_end : t !! t_idx st = None -> glob p t <-> all_stars (drop (p_idx st) p) = true.
Proof.
  intros Et. destruct Hinv as [H1 H2 Hm H3 H4]. apply lookup_ge_None in Et. assert (E : t_idx st = length t) by lia.
  rewrite H3, E, drop_all, glob_nil. split; [|by left]. intros [H|(s & k & Hs & Hk & H)]; [done|]. exfalso.
  destruct (H4 s Hs) as (Hlt & Hp & Hn). rewrite <-(take_drop (p_idx st - S s) (drop (S s) p)) in H.
  apply glob_segment in H as [Hl _]; [|done]. rewrite length_take, !length_drop in Hl. lia.
Qed.
End Turn.

Lemma tag_turn_inv p t st :
  no_star t -> tag_inv p t st ->
  match tag_turn p t st with
  | TagContinue st' => tag_inv p t st'
  | TagMismatch => ~ glob p t
  | TagEnd => glob p t <-> all_stars (drop (p_idx st) p) = true
  end.
Proof.
  intros Ht Hinv. unfold tag_turn. destruct (t !! t_idx st) as [tc|] eqn:Et; [|by apply tag_end].
  assert (Htc := Forall_lookup_1 _ _ _ _ Ht Et). cbn beta in Htc. assert (Htl := lookup_lt_Some _ _ _ Et).
  assert (Hno : match p !! p_idx st with Some pc => char_matches pc tc = false /\ Ascii.eqb pc STAR = false | None => True end ->
                ~ glob (drop (p_idx st) p) (drop (t_idx st) t)).
  { rewrite (drop_lookup t _ _ Et). destruct (p !! p_idx st) as [pc|] eqn:Ep.
    - intros [Em Es]. rewrite (drop_lookup p _ _ Ep), glob_cons by done. rewrite Em. by intros [].
    - intros _. apply lookup_ge_None in Ep. rewrite drop_ge by lia. done. }
  destruct (p !! p_idx st) as [pc|] eqn:Ep.
  - destruct (char_matches pc tc) eqn:Em; [by eapply tag_literal|].
    destruct (Ascii.eqb pc STAR) eqn:Es; [apply Ascii.eqb_eq in Es as ->; by eapply tag_new_star|].
    destruct (star st) as [s|] eqn:Est; [rewrite <-Est; apply tag_restart|apply (tag_no_restart p t st)]; auto.
  - destruct (star st) as [s|] eqn:Est; [rewrite <-Est; apply tag_restart|apply (tag_no_restart p t st)]; auto.
Qed.

(** Every turn brings the loop closer to its end: a new star, a later restart after the same
    star, or the next character. *)
Definition tag_measure (p t : list ascii) (st : TagState) : nat :=
  let stars := match star st with Some s => S s | None => 0%nat end in
  ((length p - stars) * (length t + 1) + (length t - match_idx st)) * (length t + 1) + (length t - t_idx st).

(** The indexes stay in the pattern and in the tag, whatever characters they have. *)
Record tag_bounds (p t : list ascii) (st : TagState) : Prop := {
  tb_t : (t_idx st <= length t)%nat;
  tb_p : (p_idx st <= length p)%nat;
  tb_m : (match_idx st <= t_idx st)%nat;
  tb_star : forall s, star st = Some s -> (s < p_idx st)%nat;
}.

Lemma tag_turn_bounds p t st st' : tag_bounds p t st -> tag_turn p t st = TagContinue st' -> tag_bounds p t st'.
Proof.
  intros [H1 H2 Hm H4] H. unfold tag_turn in H. destruct (t !! t_idx st) as [tc|] eqn:Et; [|done].
  assert (Htl := lookup_lt_Some _ _ _ Et).
  assert (Hr : forall s, star st = Some s -> tag_bounds p t (mkTag (S s) (S (match_idx st)) (star st) (S (match_idx st)))).
  { intros s Es. specialize (H4 s Es). split; cbn [t_idx p_idx star match_idx]; try lia. intros x. rewrite Es. intros [= <-]. lia. }
  destruct (p !! p_idx st) as [pc|] eqn:Ep.
  - assert (Hpl := lookup_lt_Some _ _ _ Ep). destruct (char_matches pc tc).
    { injection H as <-. split; cbn [t_idx p_idx star match_idx]; try lia. intros s Es. specialize (H4 s Es). lia. }
    destruct (Ascii.eqb pc STAR).
    { injection H as <-. split; cbn [t_idx p_idx star match_idx]; try lia. intros s [= <-]. lia. }
    destruct (star st) as [s|] eqn:Es; [|done]. injection H as <-. by apply (Hr s).
  - destruct (star st) as [s|] eqn:Es; [|done]. injection H as <-. by apply (Hr s).
Qed.

Lemma tag_turn_measure p t st st' :
  tag_bounds p t st -> tag_turn p t st = TagContinue st' -> (tag_measure p t st' < tag_measure p t st)%nat.
Proof.
  intros [H1 H2 Hm H4] H. unfold tag_turn in H. destruct (t !! t_idx st) as [tc|] eqn:Et; [|done].
  assert (Htl := lookup_lt_Some _ _ _ Et).
  destruct (match p !! p_idx st with Some pc => char_matches pc tc | None => false end).
  { injection H as <-. unfold tag_measure. cbn [t_idx p_idx star match_idx]. lia. }
  destruct (p !! p_idx st) as [pc|] eqn:Ep.
  - assert (Hpl := lookup_lt_Some _ _ _ Ep). destruct (Ascii.eqb pc STAR).
    + injection H as <-. unfold tag_measure. cbn [t_idx p_idx star match_idx].
      set (old := match star st with Some s => S s | None => 0%nat end).
      assert (Ho : (old <= p_idx st)%nat) by (subst old; destruct (star st) as [s|]; [specialize (H4 s eq_refl); lia|lia]).
      assert (Hl : ((length p - S (p_idx st)) * (length t + 1) + (length t + 1) <= (length p - old) * (length t + 1))%nat) by nia. nia.
    + destruct (star st) as [s|] eqn:Est; [|done]. injection H as <-. unfold tag_measure. cbn [t_idx p_idx star match_idx]. rewrite Est. nia.
  - destruct (star st) as [s|] eqn:Est; [|done]. injection H as <-. unfold tag_measure. cbn [t_idx p_idx star match_idx]. rewrite Est. nia.
Qed.

Lemma tag_inv_bounds p t st : tag_inv p t st -> tag_bounds p t st.
Proof. intros [H1 H2 Hm _ H4]. split; try done. intros s Hs. by destruct (H4 s Hs). Qed.

Lemma tag_loop_ends p t fuel st : tag_bounds p t st -> (tag_measure p t st < fuel)%nat -> is_some (tag_loop fuel p t st) = true.
Proof.
  revert st. induction fuel as [|f IH]; intros st Hb Hf; [lia|]. cbn [tag_loop]. destruct (tag_turn p t st) as [st'| |] eqn:E; [|done|done].
  apply IH; [by eapply tag_turn_bounds|]. apply tag_turn_measure in E; [lia|done].
Qed.

Lemma tag_loop_correct p t fuel st :
  no_star t -> tag_inv p t st -> (tag_measure p t st < fuel)%nat ->
  exists b, tag_loop fuel p t st = Some b /\ (b = true <-> glob p t).
Proof.
  intros Ht. revert st. induction fuel as [|f IH]; intros st Hinv Hf; [lia|]. cbn [tag_loop].
  assert (Hturn := tag_turn_inv p t st Ht Hinv). destruct (tag_turn p t st) as [st'| |] eqn:E.
  - apply IH; [done|]. apply tag_turn_measure in E; [lia|by apply tag_inv_bounds].
  - exists false. split; [done|]. by split; [|intros].
  - eexists. split; [done|]. by rewrite Hturn.
Qed.

Lemma tag_fuel_enough p t : (tag_measure p t (mkTag 0 0 None 0) < tag_fuel p t)%nat.
Proof. unfold tag_measure, tag_fuel. cbn [t_idx p_idx star match_idx]. nia. Qed.


Lemma star_in_tag_misleads :
  matches_tag_pattern "*" "*x" = false /\ glob (String.list_ascii_of_string "*") (String.list_ascii_of_string "*x").
Proof. split; [vm_compute; reflexivity|]. exists 2%nat. split; [cbn; lia|done]. Qed.


(** ** What an accepted specification satisfies *)

Lemma first_repeat_none {A B} `{EqDecision B} (key : A -> B) seen l :
  first_repeat key seen l = None <-> NoDup (map key l) /\ Forall (fun a => key a ∉ seen) l.
Proof.
  revert seen. induction l as [|a l IH]; intros seen; cbn; [by repeat constructor|].
  case_bool_decide as Hd.
  - split; [done|]. intros [_ H]. by apply Forall_cons in H as [].
  - rewrite IH, NoDup_cons, Forall_cons. split.
    + intros [Hnd Hf]. assert (Hf' := Hf). rewrite Forall_forall in Hf. split; [split; [|done]|split; [done|]].
      * intros (b & Hb & Hin)%list_elem_of_fmap. apply (Hf b Hin). rewrite Hb. left.
      * eapply Forall_impl; [exact Hf'|]. intros b Hb Hs. apply Hb. by right.
    + intros [[Ha Hnd] [_ Hf]]. split; [done|]. apply Forall_forall. intros b Hin. rewrite Forall_forall in Hf.
      intros [E|Hs]%elem_of_cons; [|by apply (Hf b Hin)]. apply Ha. rewrite <-E. by apply list_elem_of_fmap_2.
Qed.

Lemma first_repeat_unique {A B} `{EqDecision B} (key : A -> B) l : first_repeat key [] l = None <-> NoDup (map key l).
Proof.
  rewrite first_repeat_none. split; [by intros []|]. intros H. split; [done|].
  apply Forall_forall. intros a _. apply not_elem_of_nil.
Qed.

Lemma and_then_ok {A B E} (r : result A E) (k : A -> result B E) b : and_then r k = Ok b <-> exists a, r = Ok a /\ k a = Ok b.
Proof. destruct r as [a|e]; cbn; split; [by exists a|by intros (x & [= <-] & H)|done|by intros (x & [=] & _)]. Qed.

Lemma and_then_tt {E} (r k : result unit E) : (let? _ := r in k) = Ok tt <-> r = Ok tt /\ k = Ok tt.
Proof. destruct r as [[]|e]; cbn; split; [done|by intros []|done|by intros []]. Qed.

Lemma if_ok {E} (b : bool) (k : result unit E) e : (if b then Err e else k) = Ok tt <-> b = false /\ k = Ok tt.
Proof. destruct b; split; try done; by intros []. Qed.

Lemma try_for_each_ok {A E} (check : A -> result unit E) l : try_for_each check l = Ok tt <-> Forall (fun a => check a = Ok tt) l.
Proof.
  induction l as [|a l IH]; cbn; [by split; [constructor|]|]. rewrite and_then_tt, IH, Forall_cons. done.
Qed.

(** Every domain is a DNS name, and no two of them are equal without case. *)
Definition domain_names (l : list SubjectName) : list string :=
  omap (fun d => match d with DnsName n => Some (to_ascii_lowercase n) | _ => None end) l.

Lemma validate_domain_list_ok seen l :
  validate_domain_list seen l = Ok tt <->
  Forall (fun d => match d with DnsName _ => True | _ => False end) l /\ NoDup (domain_names l)
  /\ Forall (fun n => n ∉ seen) (domain_names l).
Proof.
  revert seen. induction l as [|d l IH]; intros seen; cbn; [by repeat constructor|].
  destruct d as [n|n|ip]; [|split; [done|]; by intros ([]%Forall_cons & _)..].
  case_bool_decide as Hd.
  - split; [done|]. intros (_ & _ & H). by apply Forall_cons in H as [].
  - rewrite IH, !Forall_cons, NoDup_cons. split.
    + intros (H1 & H2 & H3). rewrite Forall_forall in H3. repeat split; try done.
      * intros Hin. apply (H3 _ Hin). left.
      * apply Forall_forall. intros m Hin Hs. apply (H3 m Hin). by right.
    + intros ((_ & H1) & (Hn & H2) & (_ & H3)). repeat split; try done. apply Forall_forall. intros m Hin.
      rewrite Forall_forall in H3. intros [->|Hs]%elem_of_cons; [done|by apply (H3 m Hin)].
Qed.

Section Spec.
Context `{Yaml} (installed : InstalledEngines).

(** What the checks ask of a specification, one clause for each rule. *)
Record spec_ok (s : AppSpec) : Prop := {
  so_port : port s <> 0;
  so_environment : environment_id s <> None -> project_id s <> None;
  so_domains : Forall (fun d => match d with DnsName _ => True | _ => False end) (domains s) /\ NoDup (domain_names (domains s));
  so_compose : forall repository branch file service connection yaml,
    source s = SCompose repository branch file service connection yaml ->
    volumes s = [] /\ restart s = RestartPolicy_default /\ limits s = ResourceLimits_default
    /\ (repository <> None \/ yaml <> None) /\ forall y, yaml = Some y -> validate_compose_yaml y service = Ok tt;
  so_health : forall path, health_check_path s = Some path -> validate_health_path path = Ok tt;
  so_window : forall w, deploy_window s = Some w -> validate_deploy_window w = Ok tt;
  so_alerts : forall r, alert_rules s = Some r -> AlertRules_validate r = Ok tt;
  so_sticky : forall c, sticky s = Some c -> StickyCookie_validate c = Ok tt;
  so_git_config : forall c image, git_config s = Some c -> source s = SImage image -> config_repository c <> None;
  so_buildkit : forall c, buildkit s = Some c ->
    (buildkit_enabled c = true -> is_git (source s) = true) /\ Forall (fun path => is_valid_cache_path path = true) (custom_cache_paths c);
  so_tag : forall pattern, tag_trigger s = Some pattern -> validate_tag_pattern pattern = Ok tt;
  so_volumes : NoDup (map mount_target (volumes s));
  so_database : forall engine, database s = Some engine ->
    engine_info engine installed <> None /\ is_image (source s) = true /\ domains s = [] /\ uses_database s = None /\ targets s = [];
  so_targets : NoDup (targets s);
}.

Lemma opt_check_ok {A} (o : option A) check : opt_check o check = Ok tt <-> forall a, o = Some a -> check a = Ok tt.
Proof. destruct o as [a|]; cbn; split; [by intros ? ? [= <-]|by intros Ha; apply Ha|done|done]. Qed.

Lemma is_none_false {A} (o : option A) : is_none o = false <-> o <> None.
Proof. by destruct o. Qed.

Lemma validate_compose_ok s :
  validate_compose s = Ok tt <-> forall repository branch file service connection yaml,
    source s = SCompose repository branch file service connection yaml ->
    volumes s = [] /\ restart s = RestartPolicy_default /\ limits s = ResourceLimits_default
    /\ (repository <> None \/ yaml <> None) /\ forall y, yaml = Some y -> validate_compose_yaml y service = Ok tt.
Proof.
  unfold validate_compose. destruct (source s) as [i|r b x d c|r b f sv c y] eqn:E; [done|done|].
  rewrite !if_ok, opt_check_ok, !orb_false_iff, !negb_false_iff, !bool_decide_eq_true, andb_false_iff, !is_none_false. split.
  - intros (((H1 & H2) & H3) & H4 & H5) ? ? ? ? ? ? [= <- <- <- <- <- <-]. done.
  - intros Hs. specialize (Hs r b f sv c y eq_refl). tauto.
Qed.

Lemma validate_build_ok s :
  validate_build_options s = Ok tt <->
  (forall c image, git_config s = Some c -> source s = SImage image -> config_repository c <> None)
  /\ (forall c, buildkit s = Some c ->
      (buildkit_enabled c = true -> is_git (source s) = true) /\ Forall (fun path => is_valid_cache_path path = true) (custom_cache_paths c))
  /\ (forall pattern, tag_trigger s = Some pattern -> validate_tag_pattern pattern = Ok tt).
Proof.
  unfold validate_build_options. rewrite !and_then_tt. unfold validate_tag_trigger. rewrite opt_check_ok.
  assert (H1 : validate_git_config s = Ok tt <-> forall c image, git_config s = Some c -> source s = SImage image -> config_repository c <> None).
  { unfold validate_git_config. destruct (git_config s) as [c|]; [|done]. rewrite if_ok, andb_false_iff, is_none_false. split.
    - intros [[Hi|Hr] _] ? image [= <-] Es; [by rewrite Es in Hi|done].
    - intros Hc. split; [|done]. destruct (source s) as [i| |]; [right; by apply (Hc c i)|by left|by left]. }
  assert (H2 : validate_buildkit s = Ok tt <-> forall c, buildkit s = Some c ->
      (buildkit_enabled c = true -> is_git (source s) = true) /\ Forall (fun path => is_valid_cache_path path = true) (custom_cache_paths c)).
  { unfold validate_buildkit. destruct (buildkit s) as [c|]; [|done]. rewrite if_ok, try_for_each_ok, andb_false_iff, negb_false_iff.
    assert (Hf : forall l, Forall (fun path => (if is_valid_cache_path path then Ok tt
                 else Err (invalid "custom cache path must be an absolute path without whitespace, commas, or injection characters")) = Ok tt) l
                 <-> Forall (fun path => is_valid_cache_path path = true) l).
    { intros l. split; intros HF; (eapply Forall_impl; [exact HF|]); intros path; cbn; by destruct (is_valid_cache_path path). }
    rewrite Hf. split.
    - intros [Hb HF] ? [= <-]. split; [|done]. intros He. destruct Hb as [Hb|Hb]; [congruence|done].
    - intros Hc. destruct (Hc c eq_refl) as [Hb HF]. split; [|done]. destruct (buildkit_enabled c); [right; by apply Hb|by left]. }
  rewrite H1, H2. done.
Qed.

Lemma validate_database_ok s :
  validate_database installed s = Ok tt /\ validate_targets s = Ok tt <->
  (forall engine, database s = Some engine ->
    engine_info engine installed <> None /\ is_image (source s) = true /\ domains s = [] /\ uses_database s = None /\ targets s = [])
  /\ NoDup (targets s).
Proof.
  unfold validate_targets. rewrite if_ok.
  assert (Ht : match first_repeat (fun t => t) [] (targets s) with Some _ => Err (invalid "replica targets must be distinct") | None => Ok tt end = Ok tt
               <-> NoDup (targets s)).
  { rewrite <-(map_id (targets s)) at 2. rewrite <-first_repeat_unique. by destruct (first_repeat _ _ _). }
  rewrite Ht. unfold validate_database. destruct (database s) as [e|]; [|cbn; split; [by intros (_ & _ & Hn)|by intros [_ Hn]]].
  rewrite !if_ok, is_none_false, negb_false_iff, andb_false_iff, negb_false_iff, bool_decide_eq_true. split.
  - intros [(He & Hi & Hd) [Hx Hn]]. split; [|done]. intros e' [= <-].
    destruct (domains s) as [|d l]; [|done]. apply if_ok in Hd as [Hu _]. destruct (uses_database s); [done|].
    by destruct Hx.
  - intros [Hd Hn]. destruct (Hd e eq_refl) as (He & Hi & -> & -> & Htg). split; [done|]. split; [by right|done].
Qed.

(** C34: A specification is accepted exactly when it satisfies every rule. *)
Theorem spec_validate_exact s : AppSpec_validate installed s = Ok tt <-> spec_ok s.
Proof.
  unfold AppSpec_validate, validate_project_and_environment, validate_domains, validate_runtime_policies, validate_volumes.
  rewrite if_ok, !and_then_tt, !opt_check_ok, validate_domain_list_ok, validate_compose_ok, validate_build_ok, if_ok, validate_database_ok.
  assert (Hv : match first_repeat mount_target [] (volumes s) with
               | Some mount => Err (invalid (String.append "the path " (String.append (mount_target mount) " is mounted twice")))
               | None => Ok tt end = Ok tt <-> NoDup (map mount_target (volumes s))).
  { rewrite <-first_repeat_unique. by destruct (first_repeat _ _ _). }
  rewrite Hv, Z.eqb_neq. split.
  - intros (H1 & (H2 & _) & (H3 & H4 & _) & H5 & (H6 & H7 & H8 & H9) & (H10 & H11 & H12) & H13 & H14 & H15). split; try done.
    intros He. destruct (environment_id s); [|done]. by destruct (project_id s).
  - intros []. destruct so_domains0. split_and!; try done.
    + destruct (environment_id s); [|done]. destruct (project_id s); [done|]. by destruct so_environment0.
    + apply Forall_forall. intros n _. apply not_elem_of_nil.
Qed.
End Spec.

(** ** The catalog *)

Lemma engines_valid_ok seen l :
  engines_valid seen l = true <->
  Forall (fun info => engine info <> EmptyString /\ str_forallb engine_key_char (engine info) = true) l
  /\ NoDup (map engine l) /\ Forall (fun info => engine info ∉ seen) l.
Proof.
  revert seen. induction l as [|e l IH]; intros seen; cbn; [by repeat constructor|].
  rewrite !andb_true_iff, !negb_true_iff, IH, !Forall_cons, NoDup_cons, bool_decide_eq_false.
  assert (Hne : str_is_empty (engine e) = false <-> engine e <> EmptyString) by by destruct (engine e).
  rewrite Hne. split.
  - intros (((H1 & H2) & H3) & H4 & H5 & H6). rewrite Forall_forall in H6. split_and!; try done.
    + intros (b & Hb & Hin)%list_elem_of_fmap. apply (H6 b Hin). rewrite Hb. left.
    + apply Forall_forall. intros b Hin Hs. apply (H6 b Hin). by right.
  - intros (((H1 & H2) & H3) & (H4 & H5) & (H6 & H7)). split_and!; try done. apply Forall_forall. intros b Hin.
    rewrite Forall_forall in H7. intros [E|Hs]%elem_of_cons; [|by apply (H7 b Hin)]. apply H4. rewrite <-E. by apply list_elem_of_fmap_2.
Qed.

(** A catalog replaces the installed one exactly when it has engines, each with a key of its own,
    and is not older; and nothing else changes the installed one. *)
Theorem install_engines_exact catalog installed :
  let '(done, after) := install_engines catalog installed in
  (done = true <->
    catalog_engines catalog <> []
    /\ Forall (fun info => engine info <> EmptyString /\ str_forallb engine_key_char (engine info) = true) (catalog_engines catalog)
    /\ NoDup (map engine (catalog_engines catalog)) /\ installed_updated_at installed <= catalog_updated_at catalog)
  /\ (done = true -> after = mkInstalledEngines (catalog_updated_at catalog) (catalog_engines catalog))
  /\ (done = false -> after = installed).
Proof.
  unfold install_engines. assert (Hv := engines_valid_ok [] (catalog_engines catalog)).
  assert (Hs : Forall (fun info => engine info ∉ []) (catalog_engines catalog)) by (apply Forall_forall; intros; apply not_elem_of_nil).
  assert (Hl : bool_decide (length (catalog_engines catalog) = 0%nat) = false <-> catalog_engines catalog <> []).
  { rewrite bool_decide_eq_false. by destruct (catalog_engines catalog). }
  destruct (engines_valid [] (catalog_engines catalog)) eqn:Ev.
  - destruct (proj1 Hv eq_refl) as (H1 & H2 & _).
    destruct (bool_decide (length (catalog_engines catalog) = 0%nat)) eqn:El; cbn [negb andb].
    + split; [|done]. split; [done|]. intros (Hne & _). by apply Hl in Hne.
    + destruct (Z.ltb_spec (catalog_updated_at catalog) (installed_updated_at installed)); (split; [|done]).
      * split; [done|]. intros (_ & _ & _ & Hle). lia.
      * split; [|done]. intros _. split; [by apply Hl|done].
  - rewrite andb_false_r. cbn [negb]. split; [|done]. split; [done|]. intros (_ & H1 & H2 & _). by apply Hv.
Qed.
