(* ===== verification/Deploy.v ===== *)
(** * Deployments: what a job runs, and how it is recorded

    The parts of [platform/deploy.rs] that one deployment computes, and the statements of
    [platform/store.rs] on the table of deployments: the image of a job and of its rollback, the
    need for an approval, the target of a push, the connection variables of a database, the
    choice of the digest, and the start of the containers of a job on its targets with the
    cleanup after a failure.  [Pipelines] runs many deployments next to each other.

    Docker is a service outside: the containers of a target are a map from names to their state,
    and each call of the runtime succeeds or fails as the next answer of the [Script] says; a
    call that fails changes nothing.  The clock and new identifiers are arguments. *)

From Stdlib Require Import Ascii.
From stdpp Require Import gmap sets strings.
From S2P Require Import Prelude Basics IpText Net Upstream Policy Router Quarantine Schedule Containers Compose EnvFiles Apps.

(** ** Deployments *)

Inductive DeploymentStatus : Type :=
| Queued | PendingApproval | Building | Deploying | Running | Superseded | Failed | Cancelled.

#[export] Instance DeploymentStatus_eq_dec : EqDecision DeploymentStatus.
Proof. solve_decision. Defined.

Definition is_unfinished (s : DeploymentStatus) : bool :=
  match s with Queued | PendingApproval | Building | Deploying => true | _ => false end.

Definition status_str (s : DeploymentStatus) : string :=
  match s with
  | Queued => "queued" | PendingApproval => "pending_approval" | Building => "building" | Deploying => "deploying"
  | Running => "running" | Superseded => "superseded" | Failed => "failed" | Cancelled => "cancelled"
  end.

Inductive DeploymentTrigger : Type := TManual | TWebhook | TRollback | TApi | TAuto.

Definition trigger_str (t : DeploymentTrigger) : string :=
  match t with TManual => "manual" | TWebhook => "webhook" | TRollback => "rollback" | TApi => "api" | TAuto => "auto" end.

(** A row of the table [deployments]; the specification and the environment are its snapshot. *)
Record Deployment : Type := mkDeployment {
  dep_app : ShortId;
  dep_status : DeploymentStatus;
  dep_trigger : DeploymentTrigger;
  dep_commit_sha : option string;
  dep_image_digest : option string;
  dep_spec : AppSpec;
  dep_env : list (string * string * bool); (* key, sealed value, secret *)
  dep_username : string;
  dep_started_at : Z;
  dep_finished_at : option Z;
  dep_message : option string;
}.

Definition set_dep_status (s : DeploymentStatus) (d : Deployment) : Deployment :=
  mkDeployment (dep_app d) s (dep_trigger d) (dep_commit_sha d) (dep_image_digest d) (dep_spec d) (dep_env d)
    (dep_username d) (dep_started_at d) (dep_finished_at d) (dep_message d).
Definition set_dep_end (message : option string) (now : Z) (d : Deployment) : Deployment :=
  mkDeployment (dep_app d) (dep_status d) (dep_trigger d) (dep_commit_sha d) (dep_image_digest d) (dep_spec d) (dep_env d)
    (dep_username d) (dep_started_at d) (Some now) message.
Definition set_dep_start (message : option string) (now : Z) (d : Deployment) : Deployment :=
  mkDeployment (dep_app d) (dep_status d) (dep_trigger d) (dep_commit_sha d) (dep_image_digest d) (dep_spec d) (dep_env d)
    (dep_username d) now (dep_finished_at d) message.
Definition set_dep_digest (digest : string) (d : Deployment) : Deployment :=
  mkDeployment (dep_app d) (dep_status d) (dep_trigger d) (dep_commit_sha d) (Some digest) (dep_spec d) (dep_env d)
    (dep_username d) (dep_started_at d) (dep_finished_at d) (dep_message d).
Definition set_dep_commit (sha : string) (d : Deployment) : Deployment :=
  mkDeployment (dep_app d) (dep_status d) (dep_trigger d) (Some sha) (dep_image_digest d) (dep_spec d) (dep_env d)
    (dep_username d) (dep_started_at d) (dep_finished_at d) (dep_message d).

(** ** New deployments *)

(** [NewDeployment::new], [with_source_info] and [pending]; the identifier is the key of the row. *)
Definition new_deployment (app : ShortId) (trigger : DeploymentTrigger) (username : string) (spec : AppSpec)
    (env : list (string * string * bool)) (now : Z) : Deployment :=
  mkDeployment app Queued trigger None None spec env username now None None.

Definition with_source_info (digest commit : option string) (d : Deployment) : Deployment :=
  mkDeployment (dep_app d) (dep_status d) (dep_trigger d) commit digest (dep_spec d) (dep_env d)
    (dep_username d) (dep_started_at d) (dep_finished_at d) (dep_message d).

Definition pending (reason : string) (d : Deployment) : Deployment :=
  mkDeployment (dep_app d) PendingApproval (dep_trigger d) (dep_commit_sha d) (dep_image_digest d) (dep_spec d) (dep_env d)
    (dep_username d) (dep_started_at d) (dep_finished_at d) (Some reason).

(** ** The table *)

Notation Store := (gmap ShortId Deployment).

(** The identifier is the primary key: a second row with it is an error. *)
Definition insert_deployment (id : ShortId) (d : Deployment) (s : Store) : option Store :=
  match s !! id with Some _ => None | None => Some (<[id := d]> s) end.

Definition update_row (f : Deployment -> Deployment) (id : ShortId) (s : Store) : Store := alter f id s.

Definition is_pending (s : Store) (id : ShortId) : bool :=
  match s !! id with Some d => bool_decide (dep_status d = PendingApproval) | None => false end.

Definition approve_deployment (id : ShortId) (now : Z) (s : Store) : bool * Store :=
  if is_pending s id then (true, update_row (fun d => set_dep_status Queued (set_dep_start None now d)) id s) else (false, s).

Definition reject_deployment (id : ShortId) (message : string) (now : Z) (s : Store) : bool * Store :=
  if is_pending s id then (true, update_row (fun d => set_dep_status Cancelled (set_dep_end (Some message) now d)) id s) else (false, s).

Definition set_status (id : ShortId) (status : DeploymentStatus) (s : Store) : Store := update_row (set_dep_status status) id s.

Definition set_image_digest (id : ShortId) (digest : string) (s : Store) : Store := update_row (set_dep_digest digest) id s.

Definition set_commit_sha (id : ShortId) (sha : string) (s : Store) : Store := update_row (set_dep_commit sha) id s.

Definition fail_deployment (id : ShortId) (status : DeploymentStatus) (message : string) (now : Z) (s : Store) : Store :=
  update_row (fun d => set_dep_status status (set_dep_end (Some message) now d)) id s.

(** The two updates of the transaction: [finished_at] changes and the message stays. *)
Definition supersede (app id : ShortId) (s : Store) : Store :=
  map_imap (fun other d =>
    Some (if bool_decide (dep_app d = app) && bool_decide (dep_status d = Running) && negb (bool_decide (other = id))
          then set_dep_status Superseded d else d)) s.

Definition finish_deployment (app id : ShortId) (now : Z) (s : Store) : Store :=
  update_row (fun d => set_dep_status Running (set_dep_end (dep_message d) now d)) id (supersede app id s).

Definition UNFINISHED_MESSAGE : string := "the server stopped during the deployment".

Definition left_unfinished (s : DeploymentStatus) : bool := match s with Queued | Building | Deploying => true | _ => false end.

Definition fail_unfinished (now : Z) (s : Store) : Store :=
  (fun d => if left_unfinished (dep_status d) then set_dep_status Failed (set_dep_end (Some UNFINISHED_MESSAGE) now d) else d) <$> s.

(** ** What a deployment runs *)

Inductive SourceRevision : Type := RBranch (branch : string) | RCommit (sha : string).

Record GitBuild : Type := mkGitBuild {
  gb_repository : string; gb_branch : string; gb_context : string; gb_dockerfile : string;
  gb_connection : option ShortId; gb_buildkit : option BuildKitConfig;
}.

Record ComposeBuild : Type := mkComposeBuild {
  cb_repository : option string; cb_revision : SourceRevision; cb_file : option string; cb_service : string;
  cb_connection : option ShortId; cb_compose_yaml : option string;
}.

Inductive JobImage : Type := Pull (image : string) | Build (source : GitBuild) | ComposeUp (source : ComposeBuild).

(** [JobImage::from]: a Git build without the options of BuildKit. *)
Definition image_from_source (source : AppSource) : JobImage :=
  match source with
  | SImage image => Pull image
  | SGit repository branch context dockerfile connection =>
      Build (mkGitBuild repository branch context dockerfile connection None)
  | SCompose repository branch file service connection compose_yaml =>
      ComposeUp (mkComposeBuild repository (RBranch branch) file service connection compose_yaml)
  end.

Definition image_from_spec (spec : AppSpec) : JobImage :=
  match source spec with
  | SImage image => Pull image
  | SGit repository branch context dockerfile connection =>
      Build (mkGitBuild repository branch context dockerfile connection (buildkit spec))
  | SCompose repository branch file service connection compose_yaml =>
      ComposeUp (mkComposeBuild repository (RBranch branch) file service connection compose_yaml)
  end.

Definition image_rollback (spec : AppSpec) (id : ShortId) (d : Deployment) : result JobImage Error :=
  match image_from_source (source spec) with
  | ComposeUp build =>
      if is_none (cb_repository build) then Ok (ComposeUp build)
      else match dep_commit_sha d ≫= (fun sha => ok (CommitSha_from_str sha)) with
           | Some commit =>
               Ok (ComposeUp (mkComposeBuild (cb_repository build) (RCommit commit) (cb_file build) (cb_service build)
                                (cb_connection build) (cb_compose_yaml build)))
           | None => Err (RollbackUnavailable id)
           end
  | _ =>
      match dep_image_digest d ≫= (fun digest => ok (ImageRef_from_str digest)) with
      | Some image => Ok (Pull image)
      | None => Err (RollbackUnavailable id)
      end
  end.

Definition job_image_for_entry (id : ShortId) (d : Deployment) (spec : AppSpec) : result JobImage Error :=
  match dep_trigger d with
  | TRollback => image_rollback spec id d
  | _ => Ok (image_from_source (source spec))
  end.

Definition ensure_pending_approval (id : ShortId) (status : DeploymentStatus) : result unit Error :=
  if bool_decide (status = PendingApproval) then Ok tt else Err (DeploymentNotPendingApproval id).

(** The reason why a deployment waits, at the UTC time [hour]:[minute]. *)
Definition needs_approval (spec : AppSpec) (hour minute : Z) : option string :=
  if require_approval spec then Some "Waiting for manual approval"
  else match deploy_window spec with
       | Some window => if negb (is_within_deploy_window window hour minute) then Some "Outside deploy window" else None
       | None => None
       end.

Definition with_source (src : AppSource) (s : AppSpec) : AppSpec :=
  mkAppSpec src (port s) (domains s) (ports s) (health_check_path s) (volumes s) (restart s) (limits s) (host_port s)
    (database s) (uses_database s) (replica_of s) (auto_deploy s) (require_approval s) (deploy_window s) (tag_trigger s)
    (store_app_id s) (targets s) (load_balancing s) (alert_rules s) (sticky s) (git_config s) (env_groups s) (preview s)
    (preview_of s) (buildkit s) (bot_blocker s) (grpc_web s) (project_id s) (environment_id s) (frame_protection s)
    (lifecycle_hooks s).

Definition apply_target_ref (spec : AppSpec) (target_ref : option string) : AppSpec :=
  match target_ref with
  | None => spec
  | Some target =>
      match source spec with
      | SGit repository _ context dockerfile connection => with_source (SGit repository target context dockerfile connection) spec
      | SCompose repository _ file service connection yaml => with_source (SCompose repository target file service connection yaml) spec
      | SImage image =>
          match ImageRef_from_str (String.append (Containers.repository image) (String ":" target)) with
          | Ok new_image => with_source (SImage new_image) spec
          | Err _ => spec
          end
      end
  end.

(** ** Names *)

Definition RESOURCE_PREFIX : string := "r3v3rs3-".

Definition container_name (app deployment : string) : result string Error :=
  ContainerName_from_str (String.append "r3v3rs3-" (String.append app (String "-" deployment))).

Definition app_label (app : string) : result string Error := AppName_from_str app.

Definition app_network (app : string) : result string Error := NetworkName_from_str (String.append RESOURCE_PREFIX app).

(** ** Digests *)

Definition pinned (image : string) : bool := str_contains_char image "@" || starts_with "sha256:" image.

Record ImageInfo : Type := mkImageInfo { image_id : string; repo_digests : list string }.

(** [present_image], for the answer of [inspect_image]. *)
Definition present_image (info : option ImageInfo) (image : string) : result (option ImageInfo) string :=
  match info with
  | Some i => if pinned image then Ok (Some i) else Ok None
  | None =>
      if starts_with "sha256:" image then Err (String.append "the image " (String.append image " is no longer present"))
      else Ok None
  end.

(** The reference that pins an image, the end of [resolve_image]. *)
Definition pinned_reference (image : string) (info : ImageInfo) : string :=
  let prefix := String.append (Containers.repository image) "@" in
  match find (fun digest => starts_with prefix digest) (repo_digests info) with
  | Some digest => digest
  | None => match repo_digests info with digest :: _ => digest | [] => image_id info end
  end.

(** [resolve_image], for the image that is present before and the one that a pull gives. *)
Definition resolve_image (image : string) (before : option ImageInfo) (pulled : result (option ImageInfo) string)
  : result string string :=
  let? present := present_image before image in
  let? info := match present with
               | Some i => Ok i
               | None =>
                   let? after := pulled in
                   match after with
                   | Some i => Ok i
                   | None => Err (String.append "the image " (String.append image " is missing after its pull"))
                   end
               end in
  Ok (pinned_reference image info).

(** ** The connection of a database *)

Definition format_url (info : EngineInfo) (host : string) (port : Z) (password : string) : string :=
  if str_is_empty (engine_user info) then
    String.append (engine_url_scheme info) (String.append "://" (String.append host (String ":" (dec port))))
  else
    let head := String.append (engine_url_scheme info) (String.append "://" (String.append (engine_user info)
                  (String ":" (String.append password (String "@" (String.append host (String ":" (dec port)))))))) in
    if url_database info then String.append head (String "/" (default_db info)) else head.

Definition HOST_GATEWAY : string := "host.docker.internal".

Definition connection_values (info : EngineInfo) (host_port : Z) (password : string) (replicas : list Z) : list (string * string) :=
  let host := HOST_GATEWAY in
  let var suffix := String.append (env_prefix info) suffix in
  [(var "_HOST", host); (var "_PORT", dec host_port); (var "_USER", engine_user info); (var "_PASSWORD", password)]
  ++ (if negb (str_is_empty (default_db info)) then [(var "_DATABASE", default_db info)] else [])
  ++ [("DATABASE_URL", format_url info host host_port password)]
  ++ match replicas with
     | [] => []
     | read_port :: _ =>
         let read_url := format_url info host read_port password in
         [("DATABASE_READ_URL", read_url); ("DATABASE_REPLICA_URL", read_url); (var "_READ_HOST", host);
          (var "_READ_PORT", dec read_port);
          ("DATABASE_READ_URLS", join_with "," (map (fun port => format_url info host port password) replicas))]
     end.

(** ** Containers on targets *)

Record Container : Type := mkContainer { c_label : ShortId; c_running : bool }.

#[export] Instance Container_eq_dec : EqDecision Container.
Proof. solve_decision. Defined.

Notation World := (gmap (ShortId * string) Container).
Notation Script := (list bool).

(** A computation on the containers that asks for the answers of the services. *)
Definition M (A : Type) : Type := World * Script -> result A string * (World * Script).

Definition ret {A} (a : A) : M A := fun s => (Ok a, s).
Definition fail {A} (message : string) : M A := fun s => (Err message, s).
Definition bind {A B} (m : M A) (k : A -> M B) : M B :=
  fun s => match m s with (Ok a, s') => k a s' | (Err e, s') => (Err e, s') end.
(** The result of [m] as a value: [let result = ..; if let Err(err) = result]. *)
Definition try {A} (m : M A) : M (result A string) := fun s => let '(r, s') := m s in (Ok r, s').
(** [let _ = m]. *)
Definition ignore (m : M unit) : M unit := bind (try m) (fun _ => ret tt).

Notation "'do' x <- m ; k" := (bind m (fun x => k)) (at level 10, x name, m at level 100, k at level 200).
Notation "m ;; k" := (bind m (fun _ => k)) (at level 100, right associativity).

(** One call of a service. *)
Definition call (what : string) (f : World -> World) : M unit :=
  fun '(w, script) =>
    match script with
    | false :: rest => (Err what, (w, rest))
    | true :: rest => (Ok tt, (f w, rest))
    | [] => (Ok tt, (f w, []))
    end.

Definition ask (what : string) : M unit := call what (fun w => w).

Definition create_container (t : ShortId) (name : string) (app : ShortId) : M unit :=
  call "create" (fun w => <[(t, name) := mkContainer app false]> w).
Definition set_running (r : bool) (c : Container) : Container := mkContainer (c_label c) r.
Definition start_one (t : ShortId) (name : string) : M unit := call "start" (alter (set_running true) (t, name)).
Definition stop_container (t : ShortId) (name : string) : M unit := call "stop" (alter (set_running false) (t, name)).
Definition remove_container (t : ShortId) (name : string) : M unit := call "remove" (delete (t, name)).

(** The names of the containers of an app on a target, with their state. *)
Definition app_containers (t app : ShortId) (w : World) : list (string * bool) :=
  omap (fun '((t', name), c) => if bool_decide (t' = t) && bool_decide (c_label c = app) then Some (name, c_running c) else None)
    (map_to_list w).

Definition list_containers (t app : ShortId) : M (list (string * bool)) :=
  bind (ask "list") (fun _ s => (Ok (app_containers t app s.1), s)).

Record Job : Type := mkJob {
  job_app : ShortId;
  job_deployment : ShortId;
  job_name : string;       (* [container_name(job.app, job.deployment)] *)
  job_hook_name : string;  (* [r3v3rs3-hook-{app}-{deployment}] *)
  job_target : ShortId;
  job_spec : AppSpec;
  job_image : JobImage;
}.

Definition job_targets (job : Job) : list ShortId := targets_or_default (job_spec job) (job_target job).

Fixpoint for_each {A} (l : list A) (body : A -> M unit) : M unit :=
  match l with
  | [] => ret tt
  | a :: r => body a ;; for_each r body
  end.

Definition cleanup_failed_targets (name : string) (targets : list ShortId) : M unit :=
  for_each targets (fun t => ignore (remove_container t name)).

(** The image of a job on one more target: only an image of a registry is pulled there. *)
Definition ensure_target_image (job : Job) : M unit :=
  match job_image job with Pull _ => ask "pull" | _ => ret tt end.

(** [wait_healthy] is modelled below; here it answers. *)
Definition run_container (job : Job) (t : ShortId) : M unit :=
  ask "network" ;;
  ask "environment" ;;
  create_container t (job_name job) (job_app job) ;;
  start_one t (job_name job) ;;
  do healthy <- try (ask "healthy") ;
  (match healthy with Err _ => ignore (remove_container t (job_name job)) | Ok _ => ret tt end) ;;
  match healthy with Ok _ => ret tt | Err e => fail e end.

Fixpoint deploy_targets (job : Job) (started targets : list ShortId) : M unit :=
  match targets with
  | [] => ret tt
  | t :: rest =>
      ensure_target_image job ;;
      do r <- try (run_container job t) ;
      match r with
      | Err e => cleanup_failed_targets (job_name job) started ;; fail e
      | Ok _ => deploy_targets job (started ++ [t]) rest
      end
  end.

(** The running containers of the app that were asked to stop. *)
Definition stop_old_containers (t app : ShortId) : M (list string) :=
  do listed <- try (list_containers t app) ;
  match listed with
  | Err _ => ret []
  | Ok containers =>
      let running := omap (fun '(name, r) => if r : bool then Some name else None) containers in
      for_each running (fun name => ignore (stop_container t name)) ;; ret running
  end.

Fixpoint stop_old_targets (app : ShortId) (targets : list ShortId) : M (list (ShortId * list string)) :=
  match targets with
  | [] => ret []
  | t :: rest =>
      do containers <- stop_old_containers t app ;
      do more <- stop_old_targets app rest ;
      ret ((t, containers) :: more)
  end.

Definition stop_old_on_targets (job : Job) : M (list (ShortId * list string)) :=
  match host_port (job_spec job) with
  | None => ret []
  | Some _ => stop_old_targets (job_app job) (job_targets job)
  end.

Definition restart_stopped (stopped : list (ShortId * list string)) : M unit :=
  for_each stopped (fun '(t, names) => for_each names (fun name => ignore (start_one t name))).

(** The command of a hook, when it is not blank. *)
Definition hook_command (o : option string) : option string :=
  match o with Some c => if str_is_empty (trim c) then None else Some c | None => None end.

Definition run_pre_deploy_hook (job : Job) : M unit :=
  match lifecycle_hooks (job_spec job) ≫= (fun hooks => hook_command (pre_deploy hooks)) with
  | None => ret tt
  | Some _ =>
      let t := job_target job in
      ask "network" ;;
      ask "environment" ;;
      ignore (remove_container t (job_hook_name job)) ;;
      create_container t (job_hook_name job) (job_app job) ;;
      start_one t (job_hook_name job) ;;
      do result <- try (ask "hook") ;
      ignore (remove_container t (job_hook_name job)) ;;
      match result with Ok _ => ret tt | Err e => fail e end
  end.

(** [start_container]: the image and its digest, the hook, and the containers on every target. *)
Definition start_container (job : Job) : M unit :=
  ask "image" ;;
  ask "digest" ;;
  run_pre_deploy_hook job ;;
  do stopped <- stop_old_on_targets job ;
  do result <- try (deploy_targets job [] (job_targets job)) ;
  (match result with Err _ => restart_stopped stopped | Ok _ => ret tt end) ;;
  match result with Ok _ => ret tt | Err e => fail e end.

(** [remove_containers], with [keep]. *)
Definition remove_containers (t app : ShortId) (keep : option string) : M unit :=
  do containers <- list_containers t app ;
  for_each (map fst containers) (fun name =>
    if bool_decide (Some name = keep) then ret tt else stop_container t name ;; remove_container t name).

(** [cleanup_cancelled_job]. *)
Definition cleanup_cancelled_job (job : Job) : M unit :=
  for_each (job_targets job) (fun t => ignore (remove_container t (job_name job))).

(** ** The wait for the health of a container *)

Definition dec_signed (n : Z) : string := if n <? 0 then String "-" (dec (- n)) else dec n.


(** One look at the container: the time, whether it runs, its exit code, and what the probe of
    its port says ([None] when the port is not published yet). *)
Inductive Look : Type :=
| Disappeared
| Unreadable (message : string)
| Seen (running : bool) (exit_code : Z) (probe : option bool) (now : Z).

Inductive Health : Type := HealthOk | HealthFailed (message : string) | StillWaiting.

Definition look_once (name : string) (deadline timeout_secs : Z) (l : Look) : Health :=
  match l with
  | Disappeared => HealthFailed (String.append "the container " (String.append name " disappeared"))
  | Unreadable message => HealthFailed message
  | Seen running exit_code probe now =>
      if negb running then HealthFailed (String.append "the container stopped with exit code " (dec_signed exit_code))
      else match probe with
           | Some true => HealthOk
           | _ =>
               if deadline <=? now then
                 HealthFailed (String.append "the app did not pass its health check in " (String.append (dec timeout_secs) " seconds"))
               else StillWaiting
           end
  end.

(** [wait_healthy]: the looks come after each other, one interval apart. *)
Fixpoint wait_healthy (name : string) (deadline timeout_secs : Z) (looks : list Look) : Health :=
  match looks with
  | [] => StillWaiting
  | l :: rest =>
      match look_once name deadline timeout_secs l with
      | StillWaiting => wait_healthy name deadline timeout_secs rest
      | h => h
      end
  end.

(** ** The probe of a port *)

(** The status line of the answer: [200..400] of its second word. *)
Definition status_ok (line : string) : bool :=
  match split_whitespace line with
  | _ :: code :: _ => match parse_uint u16_max code with Some c => (200 <=? c) && (c <? 400) | None => false end
  | _ => false
  end.

(** What a read of one byte gives within half a second: nothing yet, or so many bytes. *)
Inductive FirstRead : Type := ReadWaits | ReadBytes (n : nat) | ReadError.

Definition stays_open (r : FirstRead) : bool := match r with ReadWaits => true | ReadBytes n => Nat.ltb 0 n | ReadError => false end.

(** ** Blue and green *)

(** A relation between the containers before and after that every call of a computation keeps. *)
Section Keeps.
Context (R : World -> World -> Prop) `{!PreOrder R}.

Definition keeps {A} (m : M A) : Prop := forall s, R s.1 (m s).2.1.

Lemma keeps_ret {A} (a : A) : keeps (ret a).
Proof. intros s. reflexivity. Qed.

Lemma keeps_fail {A} (e : string) : keeps (@fail A e).
Proof. intros s. reflexivity. Qed.

Lemma keeps_bind {A B} (m : M A) (k : A -> M B) : keeps m -> (forall a, keeps (k a)) -> keeps (bind m k).
Proof.
  intros Hm Hk s. unfold bind. specialize (Hm s). destruct (m s) as [[a|e] s']; [|done].
  etrans; [exact Hm|]. apply (Hk a s').
Qed.

Lemma keeps_try {A} (m : M A) : keeps m -> keeps (try m).
Proof. intros Hm s. specialize (Hm s). unfold try. by destruct (m s). Qed.

Lemma keeps_call what f : (forall w, R w (f w)) -> keeps (call what f).
Proof. intros Hf [w [|[] sc]]; cbn; try apply Hf. reflexivity. Qed.

Lemma keeps_ask what : keeps (ask what).
Proof. apply keeps_call. reflexivity. Qed.

Lemma keeps_ignore m : keeps m -> keeps (ignore m).
Proof. intros Hm. apply keeps_bind; [by apply keeps_try|intros; apply keeps_ret]. Qed.

Lemma keeps_for_each {A} (l : list A) body : (forall a, keeps (body a)) -> keeps (for_each l body).
Proof. intros Hb. induction l as [|a l IH]; cbn; [apply keeps_ret|]. by apply keeps_bind. Qed.

Lemma keeps_list t app : keeps (list_containers t app).
Proof. apply keeps_bind; [apply keeps_ask|]. intros ? s. reflexivity. Qed.
End Keeps.

Create HintDb keeps discriminated.
#[export] Hint Resolve keeps_ret keeps_fail keeps_try keeps_ask keeps_ignore keeps_for_each keeps_list : keeps.

(** Only containers with one of these names change. *)
Definition only_names (names : list string) (w w' : World) : Prop := forall t n, n ∉ names -> w' !! (t, n) = w !! (t, n).

#[export] Instance only_names_preorder names : PreOrder (only_names names).
Proof. split; [by intros w t n|]. intros w1 w2 w3 H1 H2 t n Hn. by rewrite H2, H1. Qed.

Section OnlyNames.
Context (names : list string).

Lemma only_create t n app : n ∈ names -> keeps (only_names names) (create_container t n app).
Proof. intros Hn. apply keeps_call; [typeclasses eauto|]. intros w t' n' Hn'. apply lookup_insert_ne. congruence. Qed.

Lemma only_start t n : n ∈ names -> keeps (only_names names) (start_one t n).
Proof. intros Hn. apply keeps_call; [typeclasses eauto|]. intros w t' n' Hn'. apply lookup_alter_ne. congruence. Qed.

Lemma only_remove t n : n ∈ names -> keeps (only_names names) (remove_container t n).
Proof. intros Hn. apply keeps_call; [typeclasses eauto|]. intros w t' n' Hn'. apply lookup_delete_ne. congruence. Qed.

Context (job : Job) (Hname : job_name job ∈ names) (Hhook : job_hook_name job ∈ names).

Ltac keep_step :=
  repeat match goal with
    | |- PreOrder _ => typeclasses eauto
    | |- keeps _ (bind _ _) => apply keeps_bind; [typeclasses eauto| |intros ?]
    | |- keeps _ (match ?x with _ => _ end) => destruct x
    | |- keeps _ (ret _) => apply keeps_ret
    | |- keeps _ (fail _) => apply keeps_fail
    | |- keeps _ (ask _) => apply keeps_ask
    | |- keeps _ (try _) => apply keeps_try
    | |- keeps _ (ignore _) => apply keeps_ignore
    | |- keeps _ (for_each _ _) => apply keeps_for_each; [typeclasses eauto|intros ?]
    end; auto using only_create, only_start, only_remove.

Lemma only_run t : keeps (only_names names) (run_container job t).
Proof. unfold run_container. keep_step. Qed.

Lemma only_hook : keeps (only_names names) (run_pre_deploy_hook job).
Proof. unfold run_pre_deploy_hook. keep_step. Qed.

Lemma only_deploy started targets : keeps (only_names names) (deploy_targets job started targets).
Proof.
  revert started. induction targets as [|t rest IH]; intros started; cbn [deploy_targets]; [keep_step|].
  unfold ensure_target_image, cleanup_failed_targets. assert (Hr := only_run t). keep_step.
Qed.

(** Without a fixed port nothing is stopped, so nothing is started again. *)
Lemma only_start_container : host_port (job_spec job) = None -> keeps (only_names names) (start_container job).
Proof.
  intros Hp. unfold start_container, stop_old_on_targets. rewrite Hp.
  assert (H1 := only_hook). assert (H2 := only_deploy [] (job_targets job)).
  do 3 (apply keeps_bind; [typeclasses eauto|keep_step|intros _]).
  change (keeps (only_names names) (
    do result <- try (deploy_targets job [] (job_targets job)) ;
    (match result with Err _ => restart_stopped [] | Ok _ => ret tt end) ;;
    match result with Ok _ => ret tt | Err e => fail e end)).
  unfold restart_stopped. cbn [for_each]. keep_step.
Qed.
End OnlyNames.

(** ** A job that started serves on every target *)

(** What holds of the result and the containers after a computation. *)
Definition post {A : Type} (P : World -> Prop) (m : M A) (Q : result A string -> World -> Prop) : Prop :=
  forall s, P s.1 -> Q (m s).1 (m s).2.1.

Lemma post_bind {A B : Type} (P : World -> Prop) (m : M A) (k : A -> M B) (I : A -> World -> Prop) Q :
  post P m (fun r w => match r with Ok a => I a w | Err e => Q (Err e) w end) ->
  (forall a, post (I a) (k a) Q) -> post P (bind m k) Q.
Proof.
  intros Hm Hk s Hs. unfold bind. specialize (Hm s Hs). destruct (m s) as [[a|e] s']; cbn in *; [by apply Hk|done].
Qed.

Lemma post_call (P : World -> Prop) (what : string) (f : World -> World) (Q : result unit string -> World -> Prop) :
  (forall w, P w -> Q (Ok tt) (f w)) -> (forall w e, P w -> Q (Err e) w) -> post P (call what f) Q.
Proof. intros H1 H2 [w [|[] sc]] Hw; cbn in *; auto. Qed.

Lemma post_ret {A : Type} (P : World -> Prop) (a : A) Q : (forall w, P w -> Q (Ok a) w) -> post P (ret a) Q.
Proof. intros H s Hs. by apply H. Qed.

Lemma post_fail {A : Type} (P : World -> Prop) (e : string) (Q : result A string -> World -> Prop) :
  (forall w, P w -> Q (Err e) w) -> post P (fail e) Q.
Proof. intros H s Hs. by apply H. Qed.

Lemma post_try {A : Type} (P : World -> Prop) (m : M A) (Q : result (result A string) string -> World -> Prop) :
  post P m (fun r w => Q (Ok r) w) -> post P (try m) Q.
Proof. intros H s Hs. specialize (H s Hs). unfold try. by destruct (m s). Qed.

Lemma post_weaken {A : Type} (P P' : World -> Prop) (m : M A) (Q Q' : result A string -> World -> Prop) :
  post P m Q -> (forall w, P' w -> P w) -> (forall r w, Q r w -> Q' r w) -> post P' m Q'.
Proof. intros H H1 H2 s Hs. apply H2, H, H1, Hs. Qed.

Definition serving (name : string) (w : World) (t : ShortId) : Prop := exists c, w !! (t, name) = Some c /\ c_running c = true.

(** What an error leaves behind does not matter here. *)
Definition on_ok {A : Type} (Q : A -> World -> Prop) (r : result A string) (w : World) : Prop :=
  match r with Ok a => Q a w | Err _ => True end.

(** A part of a computation about which nothing has to be known. *)
Lemma post_skip {A B : Type} (P : World -> Prop) (m : M A) (k : A -> M B) (Q : B -> World -> Prop) :
  (forall a, post (fun _ => True) (k a) (on_ok Q)) -> post P (bind m k) (on_ok Q).
Proof. intros Hk s _. unfold bind. destruct (m s) as [[a|e] s']; [by apply Hk|done]. Qed.

Section Success.
Context (job : Job).
Let all (ts : list ShortId) (w : World) : Prop := Forall (serving (job_name job) w) ts.

Lemma serving_insert w t n c ts : t ∉ ts -> all ts w -> all ts (<[(t, n) := c]> w).
Proof.
  intros Hn H. apply Forall_forall. intros t' Ht'. unfold all in H. rewrite Forall_forall in H. destruct (H t' Ht') as (c' & E & Hr).
  exists c'. rewrite lookup_insert_ne; [done|]. congruence.
Qed.

Lemma serving_start w t n ts : all ts w -> all ts (alter (set_running true) (t, n) w).
Proof.
  intros H. apply Forall_forall. intros t' Ht'. unfold all in H. rewrite Forall_forall in H. destruct (H t' Ht') as (c' & E & Hr).
  destruct (decide ((t, n) = (t', job_name job))) as [->|Hne].
  - exists (set_running true c'). rewrite lookup_alter_eq, E. done.
  - exists c'. by rewrite lookup_alter_ne.
Qed.

Lemma run_container_serves t ts :
  t ∉ ts -> post (all ts) (run_container job t) (on_ok (fun _ w => all (ts ++ [t]) w)).
Proof.
  intros Hn. unfold run_container.
  apply (post_bind _ _ _ (fun _ => all ts)); [by apply post_call|intros _].
  apply (post_bind _ _ _ (fun _ => all ts)); [by apply post_call|intros _].
  apply (post_bind _ _ _ (fun _ w => all ts w /\ is_Some (w !! (t, job_name job)))).
  { apply post_call; [|done]. intros w Hw. split; [by apply serving_insert|]. by rewrite lookup_insert_eq. }
  intros _. apply (post_bind _ _ _ (fun _ => all (ts ++ [t]))).
  { apply post_call; [|done]. intros w [Hw [c Hc]]. apply Forall_app. split; [by apply serving_start|].
    apply Forall_singleton. exists (set_running true c). rewrite lookup_alter_eq, Hc. done. }
  intros _. apply (post_bind _ _ _ (fun r => on_ok (fun _ => all (ts ++ [t])) r)).
  { apply post_try, post_call; [done|by intros]. }
  intros [[]|e]; cbn [on_ok].
  - apply (post_bind _ _ _ (fun _ => all (ts ++ [t]))); [by apply post_ret|intros _; by apply post_ret].
  - apply post_skip. intros _. by apply post_fail.
Qed.

Lemma deploy_targets_serve started targets :
  NoDup (started ++ targets) -> post (all started) (deploy_targets job started targets) (on_ok (fun _ w => all (started ++ targets) w)).
Proof.
  revert started. induction targets as [|t rest IH]; intros started Hnd; cbn [deploy_targets].
  { apply post_ret. intros w Hw. cbn. by rewrite app_nil_r. }
  assert (Ht : t ∉ started) by (apply NoDup_app in Hnd as (_ & Hd & _); intros Hin; apply (Hd t Hin); left).
  apply (post_bind _ _ _ (fun _ => all started)).
  { unfold ensure_target_image. destruct (job_image job); [by apply post_call|by apply post_ret|by apply post_ret]. }
  intros _. apply (post_bind _ _ _ (fun r => on_ok (fun _ => all (started ++ [t])) r)).
  { apply post_try. eapply post_weaken; [by apply run_container_serves|done|]. by intros [[]|e] w. }
  intros [[]|e]; cbn [on_ok].
  - rewrite (cons_middle t started rest), app_assoc. apply IH. by rewrite <-app_assoc.
  - apply post_skip. intros _. by apply post_fail.
Qed.
End Success.

(** Whatever the services answer, the start of a job without a fixed port changes no
    container but its own and the one of its hook, and when it succeeds the new container runs on
    every target: the old containers serve until then and, after a failure, still do. *)
Theorem blue_green_start job s r w' sc' :
  host_port (job_spec job) = None -> NoDup (job_targets job) ->
  start_container job s = (r, (w', sc')) ->
  only_names [job_name job; job_hook_name job] s.1 w'
  /\ (r = Ok tt -> Forall (serving (job_name job) w') (job_targets job)).
Proof.
  intros Hp Hnd E. split.
  - assert (H := only_start_container [job_name job; job_hook_name job] job ltac:(left) ltac:(right; left) Hp s). by rewrite E in H.
  - assert (H : post (fun _ => True) (start_container job) (on_ok (fun _ w => Forall (serving (job_name job) w) (job_targets job)))).
    { unfold start_container. do 3 (apply post_skip; intros _). apply post_skip. intros stopped.
      apply (post_bind _ _ _ (fun r => on_ok (fun _ w => Forall (serving (job_name job) w) (job_targets job)) r)).
      { apply post_try. eapply post_weaken; [apply (deploy_targets_serve job [] (job_targets job) Hnd)|by intros; apply Forall_nil|].
        by intros [[]|e] w. }
      intros [[]|e]; cbn [on_ok].
      - apply (post_bind _ _ _ (fun _ w => Forall (serving (job_name job) w) (job_targets job))); [by apply post_ret|intros _; by apply post_ret].
      - apply post_skip. intros _. by apply post_fail. }
    intros ->. specialize (H s I). by rewrite E in H.
Qed.

(** ** Containers that a failure leaves behind *)

Definition empty_limits : ResourceLimits := ResourceLimits_default.

(** A minimal specification: every setting off. *)
Definition plain_spec (src : AppSource) : AppSpec :=
  mkAppSpec src 80 [] [] None [] RestartPolicy_default empty_limits None None None None false false None None None [] None
    None None None [] None None None false false None None true None.

Definition spec_on (src : AppSource) (ts : list ShortId) : AppSpec :=
  mkAppSpec src 80 [] [] None [] RestartPolicy_default empty_limits None None None None false false None None None ts None
    None None None [] None None None false false None None true None.

Definition target1 : ShortId := [1].
Definition target2 : ShortId := [2].

Definition two_target_job : Job :=
  mkJob [7] [9] "r3v3rs3-a-d" "r3v3rs3-hook-a-d" target1 (spec_on (SImage "nginx:1.27") [target1; target2]) (Pull "nginx:1.27").

(** The cleanup of the earlier targets runs only when the container of a target fails: when the
    pull of the image on the second target fails, the container of the first one keeps running. *)
Theorem failed_pull_leaves_container job t1 t2 image w :
  job_targets job = [t1; t2] -> t1 <> t2 -> job_image job = Pull image ->
  lifecycle_hooks (job_spec job) = None -> host_port (job_spec job) = None ->
  let script := [true; true; true; true; true; true; true; true; false] in
  (start_container job (w, script)).1 = Err "pull" /\ serving (job_name job) (start_container job (w, script)).2.1 t1.
Proof.
  intros Ht Hne Hi Hh Hp script. unfold start_container, run_pre_deploy_hook, stop_old_on_targets. rewrite Hh, Hp, Ht.
  cbn [deploy_targets]. unfold ensure_target_image. rewrite Hi. unfold run_container, script.
  cbn. split; [done|]. exists (mkContainer (job_app job) true). rewrite lookup_alter_eq, lookup_insert_eq. done.
Qed.

Lemma failed_pull_leaves_container_witness :
  (start_container two_target_job (∅, [true; true; true; true; true; true; true; true; false])).1 = Err "pull"
  /\ serving "r3v3rs3-a-d" (start_container two_target_job (∅, [true; true; true; true; true; true; true; true; false])).2.1 target1.
Proof. by apply (failed_pull_leaves_container two_target_job target1 target2 "nginx:1.27" ∅). Defined.

Lemma blue_green_start_witness :
  let old := mkContainer [7] true in
  let s : World * Script := (<[(target1, "r3v3rs3-a-old") := old]> ∅, []) in
  exists w' sc', start_container two_target_job s = (Ok tt, (w', sc'))
  /\ only_names ["r3v3rs3-a-d"; "r3v3rs3-hook-a-d"] s.1 w' /\ Forall (serving "r3v3rs3-a-d" w') [target1; target2].
Proof.
  cbn zeta. destruct (start_container two_target_job (<[(target1, "r3v3rs3-a-old") := mkContainer [7] true]> ∅, [])) as [r [w' sc']] eqn:E.
  assert (Hr : r = Ok tt) by (change r with (r, (w', sc')).1; rewrite <-E; vm_compute; reflexivity). subst r.
  exists w', sc'. split; [done|].
  destruct (blue_green_start two_target_job _ _ _ _ eq_refl ltac:(cbn; repeat constructor; set_solver) E) as [H1 H2].
  split; [exact H1|exact (H2 eq_refl)].
Defined.

(** ** What a rollback runs *)

(** The digests of Docker name a repository and its digest, and its image identifiers start with
    [sha256:]. *)
Definition docker_info (info : ImageInfo) : Prop :=
  Forall (fun d => str_contains_char d "@" = true) (repo_digests info) /\ starts_with "sha256:" (image_id info) = true.

Lemma pinned_reference_pinned image info : docker_info info -> pinned (pinned_reference image info) = true.
Proof.
  intros [Hd Hi]. unfold pinned_reference, pinned. rewrite Forall_forall in Hd.
  destruct (find _ (repo_digests info)) as [d|] eqn:E.
  - apply find_some in E as [Hin _]. apply list_elem_of_In in Hin. by rewrite Hd.
  - destruct (repo_digests info) as [|d l]; [by rewrite Hi, orb_true_r|]. rewrite Hd; [done|left].
Qed.

(** The digest that a deployment of an image or of a Git source records is what its rollback
    starts: one pinned reference, which needs no pull while Docker still has it, and which the
    rollback records again. *)
Theorem rollback_repeats_digest image before pulled digest id d spec info :
  resolve_image image before pulled = Ok digest -> docker_info info ->
  (before = Some info /\ pinned image = true \/ (before = None \/ pinned image = false) /\ pulled = Ok (Some info)) ->
  dep_image_digest d = Some digest -> is_compose (source spec) = false -> is_ok (ImageRef_from_str digest) = true ->
  image_rollback spec id d = Ok (Pull digest) /\ pinned digest = true
  /\ forall present, present_image (Some present) digest = Ok (Some present).
Proof.
  intros H Hinfo Hcase Hd Hc Hok.
  assert (Hp : pinned digest = true).
  { unfold resolve_image, present_image in H. destruct Hcase as [[-> Hi]|[Hb ->]].
    - rewrite Hi in H. cbn in H. injection H as <-. by apply pinned_reference_pinned.
    - destruct before as [b|].
      + destruct Hb as [?|Hi]; [done|]. rewrite Hi in H. cbn in H. injection H as <-. by apply pinned_reference_pinned.
      + destruct (starts_with "sha256:" image); [done|]. cbn in H. injection H as <-. by apply pinned_reference_pinned. }
  split; [|split; [done|]].
  - unfold image_rollback. rewrite Hd. cbn [mbind option_bind]. destruct (ImageRef_from_str digest) as [i|] eqn:E; [|done].
    assert (Ei := E). apply check_image_ok in Ei as [-> _]. cbn [ok]. by destruct (source spec).
  - intros present. unfold present_image. by rewrite Hp.
Qed.

Lemma rollback_repeats_digest_witness :
  let info := mkImageInfo "sha256:55" ["mirror/nginx@sha256:1"; "nginx@sha256:2"] in
  let d := set_dep_digest "nginx@sha256:2" (new_deployment [7] TManual "ann" (plain_spec (SImage "nginx:1.27")) [] 5) in
  resolve_image "nginx:1.27" None (Ok (Some info)) = Ok "nginx@sha256:2"
  /\ image_rollback (plain_spec (SImage "nginx:1.27")) [9] d = Ok (Pull "nginx@sha256:2").
Proof.
  split; [vm_compute; reflexivity|].
  apply (rollback_repeats_digest "nginx:1.27" None (Ok (Some (mkImageInfo "sha256:55" ["mirror/nginx@sha256:1"; "nginx@sha256:2"])))
           "nginx@sha256:2" [9] _ (plain_spec (SImage "nginx:1.27")) (mkImageInfo "sha256:55" ["mirror/nginx@sha256:1"; "nginx@sha256:2"]));
    [vm_compute; reflexivity|split; [repeat constructor|reflexivity]|right; split; [by left|reflexivity]|reflexivity|reflexivity|vm_compute; reflexivity].
Defined.

(** The job of an approved deployment is built without the BuildKit options of its specification,
    which the job of the same deployment without approval has. *)
Theorem approval_drops_buildkit spec id d repository branch context dockerfile connection config :
  source spec = SGit repository branch context dockerfile connection -> buildkit spec = Some config -> dep_trigger d <> TRollback ->
  job_image_for_entry id d spec = Ok (Build (mkGitBuild repository branch context dockerfile connection None))
  /\ image_from_spec spec = Build (mkGitBuild repository branch context dockerfile connection (Some config)).
Proof.
  intros Hs Hb Ht. unfold job_image_for_entry, image_from_spec. rewrite Hs, Hb. by destruct (dep_trigger d).
Qed.

Lemma approval_drops_buildkit_witness :
  let config := mkBuildKit true None [Npm] [] None None in
  let s := plain_spec (SGit "https://example.com/shop.git" "main" "." "Dockerfile" None) in
  let spec := mkAppSpec (source s) 80 [] [] None [] RestartPolicy_default empty_limits None None None None false true None None None []
    None None None None [] None None (Some config) false false None None true None in
  let d := new_deployment [7] TManual "ann" spec [] 5 in
  job_image_for_entry [9] d spec = Ok (Build (mkGitBuild "https://example.com/shop.git" "main" "." "Dockerfile" None None)).
Proof.
  cbn zeta. eapply (approval_drops_buildkit _ [9] _ "https://example.com/shop.git" "main" "." "Dockerfile" None (mkBuildKit true None [Npm] [] None None));
    [reflexivity|reflexivity|discriminate].
Defined.

(** ** The health of a container *)

Definition look_time (l : Look) : option Z := match l with Seen _ _ _ now => Some now | _ => None end.

(** The wait succeeds exactly at the first look that finds the container running and its
    probe passed, after looks before the deadline that all found it running; it fails at the
    first look that finds it gone, stopped or late. *)
Theorem wait_healthy_exact name deadline secs looks :
  match wait_healthy name deadline secs looks with
  | HealthOk => exists early code now rest,
      looks = early ++ Seen true code (Some true) now :: rest
      /\ Forall (fun l => exists c p t, l = Seen true c p t /\ p <> Some true /\ t < deadline) early
  | HealthFailed message => exists early l rest,
      looks = early ++ l :: rest /\ look_once name deadline secs l = HealthFailed message
      /\ Forall (fun l => exists c p t, l = Seen true c p t /\ p <> Some true /\ t < deadline) early
      /\ match l with Seen running code p t => running = false \/ deadline <= t | _ => True end
  | StillWaiting => Forall (fun l => exists c p t, l = Seen true c p t /\ p <> Some true /\ t < deadline) looks
  end.
Proof.
  induction looks as [|l looks IH]; cbn [wait_healthy]; [constructor|].
  assert (Hl : match look_once name deadline secs l with
    | HealthOk => exists code now, l = Seen true code (Some true) now
    | HealthFailed _ => match l with Seen running code p t => running = false \/ deadline <= t | _ => True end
    | StillWaiting => exists c p t, l = Seen true c p t /\ p <> Some true /\ t < deadline
    end).
  { destruct l as [|m|[] code [[]|] now]; cbn; try done; try (by left); try (by eexists _, _);
      destruct (Z.leb_spec deadline now); try (by right); by eexists _, _, _. }
  destruct (look_once name deadline secs l) as [|message|] eqn:E.
  - destruct Hl as (code & now & ->). exists [], code, now, looks. by split.
  - exists [], l, looks. by split_and!.
  - destruct (wait_healthy name deadline secs looks).
    + destruct IH as (early & code & now & rest & -> & H). exists (l :: early), code, now, rest. split; [done|]. by constructor.
    + destruct IH as (early & l' & rest & -> & H1 & H2 & H3). exists (l :: early), l', rest. split_and!; try done. by constructor.
    + by constructor.
Qed.

(** ** The table of deployments *)

Definition running_of (app : ShortId) (s : Store) (id : ShortId) : Prop :=
  exists d, s !! id = Some d /\ dep_app d = app /\ dep_status d = Running.

Lemma supersede_lookup app id s other :
  supersede app id s !! other =
  (fun d => if bool_decide (dep_app d = app) && bool_decide (dep_status d = Running) && negb (bool_decide (other = id))
            then set_dep_status Superseded d else d) <$> s !! other.
Proof. unfold supersede. rewrite map_lookup_imap. by destruct (s !! other). Qed.

(** After the end of a deployment it is the one that runs of its app, and no other app changes. *)
Lemma finish_deployment_exact app id now s d :
  s !! id = Some d -> dep_app d = app ->
  (forall other, running_of app (finish_deployment app id now s) other <-> other = id)
  /\ (forall other d', s !! other = Some d' -> dep_app d' <> app -> finish_deployment app id now s !! other = Some d').
Proof.
  intros Hd Ha. unfold finish_deployment, update_row. split.
  - intros other. destruct (decide (other = id)) as [->|Hne].
    + split; [done|]. intros _. unfold running_of. rewrite lookup_alter_eq, supersede_lookup, Hd. cbn [fmap option_fmap option_map].
      rewrite (bool_decide_eq_true_2 (id = id)) by done. rewrite andb_false_r. eexists. by split_and!.
    + split; [|done]. intros (d' & E & Happ & Hst). rewrite lookup_alter_ne, supersede_lookup in E by done.
      destruct (s !! other) as [d0|]; [|done]. injection E as <-. revert Happ Hst. rewrite (bool_decide_eq_false_2 (other = id)) by done.
      destruct (bool_decide_reflect (dep_app d0 = app)), (bool_decide_reflect (dep_status d0 = Running)); cbn; try done; congruence.
  - intros other d' E Hne. assert (other <> id) by congruence. rewrite lookup_alter_ne, supersede_lookup, E by done. cbn.
    by rewrite (bool_decide_eq_false_2 (dep_app d' = app)).
Qed.
