(* ===== verification/Pipelines.v ===== *)
(** * Pipelines: deployments next to each other

    How deployments, approvals, cancellations, pushes and the other users of an app interleave:
    the locks of [platform/deploy.rs], the queue of pushes of [platform/hooks.rs], the cancellation
    tokens and the shutdown of [platform/mod.rs], over the table of [Deploy].

    A task is a request handler or a job between two of its accesses to the shared state; one step
    of [pipeline_step] is one access (a statement of the store, or a mutex held once).  A handler
    that its client leaves is dropped where it waits, which gives its lock back ([Drop] of
    [AppLock]); a job is spawned and runs on.  The containers that matter here are the ones of
    jobs: [live] holds the deployments whose containers run. *)

From stdpp Require Import gmap sets.
From S2P Require Import Prelude Tasks Basics Containers Apps Deploy.

Notation AppId := ShortId (only parsing).

(** ** The shared state *)

Record Platform : Type := mkPlatform {
  table : Store;
  used_ids : gset ShortId; (* the identifiers given so far; a new one is random *)
  busy : gset AppId;
  queued_hooks : gmap AppId (option string);
  cancellations : gset ShortId; (* the deployments whose token is registered *)
  cancelled_tokens : gset ShortId;
  shutting_down : bool;
  live : gset (AppId * ShortId);
}.

Definition set_table (x : Store) (p : Platform) : Platform :=
  mkPlatform x (used_ids p) (busy p) (queued_hooks p) (cancellations p) (cancelled_tokens p) (shutting_down p) (live p).
Definition set_busy (x : gset AppId) (p : Platform) : Platform :=
  mkPlatform (table p) (used_ids p) x (queued_hooks p) (cancellations p) (cancelled_tokens p) (shutting_down p) (live p).
Definition set_queued (x : gmap AppId (option string)) (p : Platform) : Platform :=
  mkPlatform (table p) (used_ids p) (busy p) x (cancellations p) (cancelled_tokens p) (shutting_down p) (live p).
Definition set_tokens (x y : gset ShortId) (p : Platform) : Platform :=
  mkPlatform (table p) (used_ids p) (busy p) (queued_hooks p) x y (shutting_down p) (live p).
Definition set_live (x : gset (AppId * ShortId)) (p : Platform) : Platform :=
  mkPlatform (table p) (used_ids p) (busy p) (queued_hooks p) (cancellations p) (cancelled_tokens p) (shutting_down p) x.

(** [lock_app]; [None] is [AppBusy]. *)
Definition lock_app (app : AppId) (p : Platform) : option Platform :=
  if bool_decide (app ∈ busy p) then None else Some (set_busy ({[app]} ∪ busy p) p).

(** [Drop] of [AppLock]. *)
Definition drop_lock (app : AppId) (p : Platform) : Platform := set_busy (busy p ∖ {[app]}) p.

(** [lock_or_queue_hook]: whether the lock was taken; the queue is filled under the same mutex. *)
Definition lock_or_queue_hook (app : AppId) (target_ref : option string) (p : Platform) : bool * Platform :=
  if bool_decide (app ∈ busy p) then (false, set_queued (<[app := target_ref]> (queued_hooks p)) p)
  else (true, set_busy ({[app]} ∪ busy p) p).

Definition forget_queued_hook (app : AppId) (p : Platform) : Platform := set_queued (delete app (queued_hooks p)) p.

(** The start of [run_queued_hook]: the push to deploy, taken from the queue. *)
Definition take_queued_hook (app : AppId) (p : Platform) : option (option string) * Platform :=
  if shutting_down p then (None, p)
  else match queued_hooks p !! app with
       | None => (None, p)
       | Some target_ref => (Some target_ref, forget_queued_hook app p)
       end.

Definition register_cancellation (id : ShortId) (p : Platform) : Platform :=
  set_tokens ({[id]} ∪ cancellations p) (cancelled_tokens p) p.

Definition remove_cancellation (id : ShortId) (p : Platform) : Platform :=
  set_tokens (cancellations p ∖ {[id]}) (cancelled_tokens p) p.

Definition cancel_running_job (id : ShortId) (p : Platform) : bool * Platform :=
  if bool_decide (id ∈ cancellations p) then (true, set_tokens (cancellations p ∖ {[id]}) ({[id]} ∪ cancelled_tokens p) p)
  else (false, p).

(** [shutdown], up to its wait: the token of the platform and every token of a job. *)
Definition begin_shutdown (p : Platform) : Platform :=
  mkPlatform (table p) (used_ids p) (busy p) (queued_hooks p) ∅ (cancellations p ∪ cancelled_tokens p) true (live p).

(** The end of [cancel_deployment]. *)
Definition finish_cancel (id app : ShortId) (p : Platform) : Platform :=
  let '(found, p') := cancel_running_job id p in
  if found then p' else drop_lock app p'.

(** A new row, with an identifier of its own. *)
Definition insert_row (id : ShortId) (d : Deployment) (p : Platform) : option Platform :=
  if bool_decide (id ∈ used_ids p) then None
  else match insert_deployment id d (table p) with
       | None => None
       | Some t =>
           Some (mkPlatform t ({[id]} ∪ used_ids p) (busy p) (queued_hooks p) (cancellations p) (cancelled_tokens p)
                   (shutting_down p) (live p))
       end.

(** The state of a new process over the same table and containers. *)
Definition restart (now : Z) (p : Platform) : Platform :=
  mkPlatform (fail_unfinished now (table p)) (used_ids p) ∅ ∅ ∅ ∅ false (live p).

(** The rows and containers of an app that is deleted. *)
Definition delete_rows (app : AppId) (p : Platform) : Platform := set_table (filter (fun kv => dep_app kv.2 <> app) (table p)) p.
Definition remove_app_containers (app : AppId) (p : Platform) : Platform := set_live (filter (fun c => c.1 <> app) (live p)) p.

(** [remove_old], which keeps the container of one deployment; the containers of [left_over] are the
    ones whose removal fails, which is only logged. *)
Definition remove_old (app : AppId) (keep : ShortId) (left_over : gset (AppId * ShortId)) (p : Platform) : Platform :=
  set_live (filter (fun c => c.1 = app -> c.2 = keep \/ c ∈ left_over) (live p)) p.

Definition add_container (app : AppId) (id : ShortId) (p : Platform) : Platform := set_live ({[(app, id)]} ∪ live p) p.
Definition remove_container (app : AppId) (id : ShortId) (p : Platform) : Platform := set_live (live p ∖ {[(app, id)]}) p.

(** The containers of an app that a job stops before it starts its own: those that run, without the
    ones of [kept], whose stop fails; and the ones that are started again after a failure. *)
Definition stoppable (app : AppId) (kept : gset (AppId * ShortId)) (p : Platform) : gset (AppId * ShortId) :=
  filter (fun c => c.1 = app /\ c ∉ kept) (live p).
Definition stop_old (app : AppId) (kept : gset (AppId * ShortId)) (p : Platform) : Platform := set_live (live p ∖ stoppable app kept p) p.
Definition restart_stopped (restarted : gset (AppId * ShortId)) (p : Platform) : Platform := set_live (restarted ∪ live p) p.

(** ** Tasks *)

(** The deployments that a handler inserts as pending after the pushes that its lock queued. *)
Notation Pending := (list (ShortId * Deployment)).

(** Why a handler holds the lock of an app. *)
Inductive Why : Type :=
| WDeploy
| WRollback
| WApprove (id : ShortId)
| WReject (id : ShortId)
| WOther    (* a backup, a restore, a change of the target *)
| WDelete.

(** How far the pipeline of a job is.  A job with a port of the host, and a job of Compose, stops the
    old containers before its own is started: [PReplacing] holds the ones that it stopped, and in
    [PReplaced] its own container is healthy and the old ones are still stopped. *)
Inductive Phase : Type := PStart | PDeploying | PReplacing (stopped : gset (AppId * ShortId)) | PHealthy | PReplaced | PServing.

(** A deployment that stops the old containers first: of a port of the host, or of Compose. *)
Definition replaces_old (spec : AppSpec) : bool := is_some (host_port spec) || is_compose (source spec).

Definition replacing (ph : Phase) : bool := match ph with PReplacing _ | PReplaced => true | _ => false end.

#[export] Instance Phase_eq_dec : EqDecision Phase.
Proof. solve_decision. Defined.

Inductive Task : Type :=
| TDeploy (app : AppId) (push : option (option string)) (k : Pending)   (* before the lock; a push may queue *)
| TDecide (id app : ShortId) (approve : bool)                         (* read as pending, before the lock *)
| TLocked (app : AppId) (why : Why) (k : Pending)
| TDeleting (app : AppId)                                              (* after the removal of the containers *)
| TStored (app : AppId) (id : ShortId) (k : Pending)                   (* the row is queued, before [spawn_job] *)
| TJob (app : AppId) (id : ShortId) (phase : Phase)
| TStopping (app : AppId) (id : ShortId)                               (* before [remove_cancellation] *)
| TUnlocking (app : AppId)                                             (* before the lock is dropped *)
| TQueue (app : AppId) (k : Pending)                                   (* before [run_queued_hook] *)
| TPend (id : ShortId) (d : Deployment) (k : Pending)                  (* before [insert_pending] *)
| TCancel (id app : ShortId)                                           (* read as unfinished *)
| TCancelStored (id app : ShortId).                                    (* before [cancel_running_job] *)

(** The app whose lock a task holds. *)
Definition lock_of (t : Task) : option AppId :=
  match t with
  | TLocked app _ _ | TDeleting app | TStored app _ _ | TJob app _ _ | TStopping app _ | TUnlocking app => Some app
  | _ => None
  end.

(** What is left to do after the nested deployment of a queued push. *)
Definition continue (k : Pending) : list Task := match k with [] => [] | (id, d) :: k' => [TPend id d k'] end.

(** A handler, which a client can leave; the job of a deployment runs on. *)
Definition is_handler (t : Task) : bool := match t with TJob _ _ _ | TStopping _ _ | TUnlocking _ => false | _ => true end.

Definition is_deleting (t : Task) : bool := match t with TDeleting _ => true | _ => false end.

(** A task that has taken the containers of an app away: a deletion, or a job that replaces them. *)
Definition is_away (t : Task) : bool := match t with TDeleting _ => true | TJob _ _ ph => replacing ph | _ => false end.

Definition drop_task (t : Task) (p : Platform) : Platform := match lock_of t with Some app => drop_lock app p | None => p end.

(** The kinds of steps that a property may exclude. *)
Inductive Label : Type :=
| LStep
| LSkip      (* a lock ends, or a queued push is passed over, without [run_queued_hook] *)
| LCancel    (* a cancellation of a deployment *)
| LFree      (* [cancel_deployment] without a token removes the app from [busy] *)
| LShutdown
| LBroken    (* a deletion or a replacement that fails, or is cut by a restart, after the containers went *)
| LRebuilt.  (* a rollback of Compose that prepares the checkout of the running deployment anew *)

Notation RunState := (Platform * list Task)%type.

Inductive pipeline_step : RunState -> Label -> RunState -> Prop :=
(* A deployment of a handler, or a push. *)
| ps_request p ts app push : pipeline_step (p, ts) LStep (p, TDeploy app push [] :: ts)
| ps_lock p p' ts rest app k :
    ts ≡ₚ TDeploy app None k :: rest -> lock_app app p = Some p' -> pipeline_step (p, ts) LStep (p', TLocked app WDeploy k :: rest)
| ps_busy p ts rest app k :
    ts ≡ₚ TDeploy app None k :: rest -> lock_app app p = None -> pipeline_step (p, ts) LStep (p, continue k ++ rest)
| ps_push p p' ts rest app target_ref k got :
    ts ≡ₚ TDeploy app (Some target_ref) k :: rest -> lock_or_queue_hook app target_ref p = (got, p') ->
    pipeline_step (p, ts) LStep (p', (if got then [TLocked app WDeploy k] else continue k) ++ rest)
| ps_wait_approval p ts rest app k id d hour minute reason :
    ts ≡ₚ TLocked app WDeploy k :: rest -> needs_approval (dep_spec d) hour minute = Some reason -> dep_app d = app ->
    pipeline_step (p, ts) LStep (drop_lock app p, TQueue app ((id, pending reason d) :: k) :: rest)
| ps_store p p' ts rest app why k id d :
    ts ≡ₚ TLocked app why k :: rest ->
    why = WRollback \/ (why = WDeploy /\ exists hour minute, needs_approval (dep_spec d) hour minute = None) ->
    dep_app d = app -> dep_status d = Queued -> insert_row id d p = Some p' ->
    pipeline_step (p, ts) LStep (p', TStored app id k :: rest)
| ps_spawn p ts rest app id k :
    ts ≡ₚ TStored app id k :: rest ->
    pipeline_step (p, ts) LStep (register_cancellation id p, TJob app id PStart :: continue k ++ rest)
(* A rollback: pending without the lock, or a job. *)
| ps_rollback_pending p ts id d reason : pipeline_step (p, ts) LStep (p, TPend id (pending reason d) [] :: ts)
| ps_lock_for p p' ts app why :
    why = WRollback \/ why = WOther \/ why = WDelete -> lock_app app p = Some p' ->
    pipeline_step (p, ts) LStep (p', TLocked app why [] :: ts)
(* An approval or a rejection. *)
| ps_decide p ts id d approve :
    table p !! id = Some d -> dep_status d = PendingApproval -> pipeline_step (p, ts) LStep (p, TDecide id (dep_app d) approve :: ts)
| ps_decide_lock p p' ts rest id app approve :
    ts ≡ₚ TDecide id app approve :: rest -> lock_app app p = Some p' ->
    pipeline_step (p, ts) LStep (p', TLocked app (if approve then WApprove id else WReject id) [] :: rest)
| ps_approve p ts rest app id k now t' :
    ts ≡ₚ TLocked app (WApprove id) k :: rest -> approve_deployment id now (table p) = (true, t') ->
    pipeline_step (p, ts) LStep (set_table t' p, TStored app id [] :: rest)
| ps_reject p ts rest app id k message now :
    ts ≡ₚ TLocked app (WReject id) k :: rest ->
    pipeline_step (p, ts) LSkip (drop_lock app (set_table (reject_deployment id message now (table p)).2 p), rest)
(* The other users of the lock. *)
| ps_remove_containers p ts rest app k :
    ts ≡ₚ TLocked app WDelete k :: rest -> pipeline_step (p, ts) LStep (remove_app_containers app p, TDeleting app :: rest)
| ps_deleted p ts rest app :
    ts ≡ₚ TDeleting app :: rest ->
    pipeline_step (p, ts) LStep (drop_lock app (forget_queued_hook app (delete_rows app p)), rest)
| ps_delete_failed p ts rest app k :
    ts ≡ₚ TLocked app WDelete k :: rest -> pipeline_step (p, ts) LStep (drop_lock app p, TQueue app [] :: rest)
| ps_delete_broken p ts rest app :
    ts ≡ₚ TDeleting app :: rest -> pipeline_step (p, ts) LBroken (drop_lock app p, TQueue app [] :: rest)
(* A handler is left by its client or fails: its lock is dropped and no queued push runs. *)
| ps_left p ts rest t :
    ts ≡ₚ t :: rest -> is_handler t = true -> (forall app, t <> TDeleting app) ->
    pipeline_step (p, ts) LSkip (drop_task t p, rest)
| ps_failed p ts rest app why k :
    ts ≡ₚ TLocked app why k :: rest -> pipeline_step (p, ts) LSkip (drop_lock app p, continue k ++ rest)
| ps_stored_failed p ts rest app id k :
    ts ≡ₚ TStored app id k :: rest -> pipeline_step (p, ts) LSkip (drop_lock app p, continue k ++ rest)
(* The pipeline of a job. *)
| ps_building p ts rest app id :
    ts ≡ₚ TJob app id PStart :: rest -> pipeline_step (p, ts) LStep (set_table (set_status id Building (table p)) p, ts)
| ps_deploying p ts rest app id :
    ts ≡ₚ TJob app id PStart :: rest ->
    pipeline_step (p, ts) LStep (set_table (set_status id Deploying (table p)) p, TJob app id PDeploying :: rest)
| ps_recorded p ts rest app id ph digest :
    ts ≡ₚ TJob app id ph :: rest -> pipeline_step (p, ts) LStep (set_table (set_image_digest id digest (table p)) p, ts)
| ps_healthy p ts rest app id :
    ts ≡ₚ TJob app id PDeploying :: rest -> pipeline_step (p, ts) LStep (add_container app id p, TJob app id PHealthy :: rest)
(* [stop_old_on_targets], or [up] of Compose, which stops the old containers of its project. *)
| ps_stop_old p ts rest app id d kept :
    ts ≡ₚ TJob app id PDeploying :: rest -> table p !! id = Some d -> replaces_old (dep_spec d) = true ->
    pipeline_step (p, ts) LStep (stop_old app kept p, TJob app id (PReplacing (stoppable app kept p)) :: rest)
| ps_replaced p ts rest app id stopped :
    ts ≡ₚ TJob app id (PReplacing stopped) :: rest -> pipeline_step (p, ts) LStep (add_container app id p, TJob app id PReplaced :: rest)
| ps_job_failed p ts rest app id ph message now (removed : bool) :
    ts ≡ₚ TJob app id ph :: rest -> ph <> PServing -> replacing ph = false ->
    pipeline_step (p, ts) LStep
      ((if removed then remove_container app id else fun p => p) (set_table (fail_deployment id Failed message now (table p)) p),
       TStopping app id :: rest)
(* A failure before the new container is healthy starts the old ones again; a start that fails is only
   logged.  A failure to store the switch starts nothing again. *)
| ps_replacing_failed p ts rest app id stopped restarted message now :
    ts ≡ₚ TJob app id (PReplacing stopped) :: rest -> restarted ⊆ stopped ->
    pipeline_step (p, ts) (if bool_decide (restarted = stopped) then LStep else LBroken)
      (restart_stopped restarted (set_table (fail_deployment id Failed message now (table p)) p), TStopping app id :: rest)
| ps_replaced_failed p ts rest app id message now :
    ts ≡ₚ TJob app id PReplaced :: rest ->
    pipeline_step (p, ts) LBroken (set_table (fail_deployment id Failed message now (table p)) p, TStopping app id :: rest)
(* [rollback_compose] without the checkout of the running deployment: [prepare_compose] sets its status. *)
| ps_rollback_rebuilt p ts rest app id stopped old d :
    ts ≡ₚ TJob app id (PReplacing stopped) :: rest -> table p !! old = Some d -> dep_app d = app -> dep_status d = Running ->
    pipeline_step (p, ts) LRebuilt (set_table (set_status old Building (table p)) p, ts)
| ps_finish p ts rest app id ph now :
    ts ≡ₚ TJob app id ph :: rest -> ph = PHealthy \/ ph = PReplaced ->
    pipeline_step (p, ts) LStep (set_table (finish_deployment app id now (table p)) p, TJob app id PServing :: rest)
| ps_drained p ts rest app id left_over :
    ts ≡ₚ TJob app id PServing :: rest -> pipeline_step (p, ts) LStep (remove_old app id left_over p, TStopping app id :: rest)
| ps_cancelled p ts rest app id ph :
    ts ≡ₚ TJob app id ph :: rest -> id ∈ cancelled_tokens p ->
    pipeline_step (p, ts) LStep (remove_container app id p, TStopping app id :: rest)
| ps_remove_token p ts rest app id :
    ts ≡ₚ TStopping app id :: rest -> pipeline_step (p, ts) LStep (remove_cancellation id p, TUnlocking app :: rest)
| ps_unlock p ts rest app :
    ts ≡ₚ TUnlocking app :: rest -> pipeline_step (p, ts) LStep (drop_lock app p, TQueue app [] :: rest)
(* The queue of pushes. *)
| ps_queue p p' ts rest app k target_ref :
    ts ≡ₚ TQueue app k :: rest -> take_queued_hook app p = (Some target_ref, p') ->
    pipeline_step (p, ts) LStep (p', TDeploy app (Some target_ref) k :: rest)
| ps_no_queue p ts rest app k :
    ts ≡ₚ TQueue app k :: rest -> take_queued_hook app p = (None, p) ->
    pipeline_step (p, ts) (if shutting_down p then LSkip else LStep) (p, continue k ++ rest)
| ps_pend p p' ts rest id d k :
    ts ≡ₚ TPend id d k :: rest -> dep_status d = PendingApproval -> insert_row id d p = Some p' ->
    pipeline_step (p, ts) LStep (p', continue k ++ rest)
(* A cancellation. *)
| ps_cancel_read p ts id d :
    table p !! id = Some d -> is_unfinished (dep_status d) = true -> dep_status d <> PendingApproval ->
    pipeline_step (p, ts) LStep (p, TCancel id (dep_app d) :: ts)
| ps_cancel_store p ts rest id app message now :
    ts ≡ₚ TCancel id app :: rest ->
    pipeline_step (p, ts) LCancel (set_table (fail_deployment id Cancelled message now (table p)) p, TCancelStored id app :: rest)
| ps_cancel p ts rest id app :
    ts ≡ₚ TCancelStored id app :: rest ->
    pipeline_step (p, ts) (if bool_decide (id ∈ cancellations p) then LCancel else LFree) (finish_cancel id app p, rest)
| ps_shutdown p ts : pipeline_step (p, ts) LShutdown (begin_shutdown p, ts)
(* A new process: the start fails what the old one left unfinished. *)
| ps_restart p ts now :
    pipeline_step (p, ts) (if existsb is_away ts then LBroken else LStep) (restart now p, []).

(** The runs of a platform that started empty, with steps of these kinds only. *)
Definition empty_platform : Platform := mkPlatform ∅ ∅ ∅ ∅ ∅ ∅ false ∅.

Inductive runs (allowed : Label -> Prop) : RunState -> Prop :=
| runs_start : runs allowed (empty_platform, [])
| runs_step st l st' : runs allowed st -> allowed l -> pipeline_step st l st' -> runs allowed st'.

(** ** The locks *)

Definition lock_inv (st : RunState) : Prop := exact lock_of (busy st.1) st.2.

Lemma lock_app_some app p p' : lock_app app p = Some p' -> app ∉ busy p /\ p' = set_busy ({[app]} ∪ busy p) p.
Proof. unfold lock_app. case_bool_decide; [done|]. by intros [= <-]. Qed.

Lemma exact_continue s k ts : exact lock_of s ts -> exact lock_of s (continue k ++ ts).
Proof. intros H. destruct k as [|[id d] k]; [done|]. by apply exact_add_none. Qed.

(** A task without a lock is replaced by tasks that hold none. *)
Lemma exact_drop_none s t ts : lock_of t = None -> exact lock_of s (t :: ts) -> exact lock_of s ts.
Proof. intros Ht. by apply exact_add_none. Qed.

Lemma exact_lock app p p' t t' rest :
  lock_app app p = Some p' -> lock_of t = None -> lock_of t' = Some app ->
  exact lock_of (busy p) (t :: rest) -> exact lock_of (busy p') (t' :: rest).
Proof.
  intros H Ht Ht' He. apply lock_app_some in H as [Hn ->]. apply exact_add; [done|done|]. by apply exact_drop_none in He.
Qed.

Lemma exact_unlock app p t rest :
  lock_of t = Some app -> exact lock_of (busy p) (t :: rest) -> exact lock_of (busy (drop_lock app p)) rest.
Proof. intros Ht He. apply exact_release in He. by rewrite Ht in He. Qed.

Lemma exact_left t p rest : exact lock_of (busy p) (t :: rest) -> exact lock_of (busy (drop_task t p)) rest.
Proof.
  intros He. unfold drop_task. destruct (lock_of t) as [app|] eqn:E; [by eapply exact_unlock|by apply exact_drop_none in He].
Qed.

Lemma insert_row_some id d p p' : insert_row id d p = Some p' ->
  id ∉ used_ids p /\ table p !! id = None
  /\ p' = mkPlatform (<[id := d]> (table p)) ({[id]} ∪ used_ids p) (busy p) (queued_hooks p) (cancellations p) (cancelled_tokens p)
            (shutting_down p) (live p).
Proof.
  unfold insert_row, insert_deployment. case_bool_decide; [done|]. destruct (table p !! id) eqn:E; [done|]. by intros [= <-].
Qed.

Lemma finish_cancel_frame id app p :
  table (finish_cancel id app p) = table p /\ used_ids (finish_cancel id app p) = used_ids p
  /\ (id ∈ cancellations p -> busy (finish_cancel id app p) = busy p).
Proof. unfold finish_cancel, cancel_running_job. case_bool_decide; by split_and!. Qed.

Lemma lock_inv_step st l st' : l <> LFree -> lock_inv st -> pipeline_step st l st' -> lock_inv st'.
Proof.
  unfold lock_inv. intros Hl Hi Hs.
  assert (Hp : forall p ts t rest, ts ≡ₚ t :: rest -> exact lock_of (busy p) ts -> exact lock_of (busy p) (t :: rest))
    by (intros p0 ts0 t0 rest0 E0; by apply exact_perm).
  destruct Hs; cbn [fst snd] in *; try (match goal with E : _ ≡ₚ _ :: _ |- _ => assert (Hi' := exact_perm _ _ _ _ E Hi) end).
  - by apply exact_add_none.
  - by apply (exact_lock app p p' (TDeploy app None k)).
  - apply exact_continue. by apply exact_drop_none in Hi'.
  - apply exact_drop_none in Hi'; [|done]. unfold lock_or_queue_hook in H0. case_bool_decide; injection H0 as <- <-;
      [by apply exact_continue|by apply exact_add].
  - apply exact_add_none; [done|]. by eapply exact_unlock, Hi'.
  - apply insert_row_some in H3 as (_ & _ & ->). by apply (exact_same _ _ (TLocked app why k)).
  - cbn. apply (exact_same _ _ (TStored app id k)); [done|]. apply exact_drop_none in Hi || idtac.
    apply (exact_perm _ _ (continue k ++ TStored app id k :: rest)); [solve_Permutation|]. by apply exact_continue.
  - by apply exact_add_none.
  - apply lock_app_some in H0 as [Hn ->]. by apply exact_add.
  - by apply exact_add_none.
  - by apply (exact_lock app p p' (TDecide id app approve)).
  - by apply (exact_same _ _ (TLocked app (WApprove id) k)).
  - by eapply exact_unlock, Hi'.
  - by apply (exact_same _ _ (TLocked app WDelete k)).
  - by eapply exact_unlock, Hi'.
  - apply exact_add_none; [done|]. by eapply exact_unlock, Hi'.
  - apply exact_add_none; [done|]. by eapply exact_unlock, Hi'.
  - by apply exact_left.
  - apply exact_continue. by eapply exact_unlock, Hi'.
  - apply exact_continue. by eapply exact_unlock, Hi'.
  - done.
  - by apply (exact_same _ _ (TJob app id PStart)).
  - done.
  - by apply (exact_same _ _ (TJob app id PDeploying)).
  - by apply (exact_same _ _ (TJob app id PDeploying)).
  - by apply (exact_same _ _ (TJob app id (PReplacing stopped))).
  - destruct removed; by apply (exact_same _ _ (TJob app id ph)).
  - by apply (exact_same _ _ (TJob app id (PReplacing stopped))).
  - by apply (exact_same _ _ (TJob app id PReplaced)).
  - done.
  - by apply (exact_same _ _ (TJob app id ph)).
  - by apply (exact_same _ _ (TJob app id PServing)).
  - by apply (exact_same _ _ (TJob app id ph)).
  - by apply (exact_same _ _ (TStopping app id)).
  - apply exact_add_none; [done|]. by eapply exact_unlock, Hi'.
  - apply exact_add_none; [done|]. apply exact_drop_none in Hi'; [|done]. unfold take_queued_hook in H0.
    destruct (shutting_down p); [done|]. destruct (queued_hooks p !! app); [|done]. by injection H0 as <- <-.
  - apply exact_continue. by apply exact_drop_none in Hi'.
  - apply exact_continue. apply insert_row_some in H1 as (_ & _ & ->). by apply exact_drop_none in Hi'.
  - by apply exact_add_none.
  - by apply (exact_same _ _ (TCancel id app)).
  - case_bool_decide as Hc; [|done]. destruct (finish_cancel_frame id app p) as (_ & _ & ->); [|done]. by apply exact_drop_none in Hi'.
  - done.
  - split; [constructor|done].
Qed.

(** ** One running deployment of an app *)

Definition row_app (p : Platform) (app id : ShortId) : Prop :=
  id ∈ used_ids p /\ forall d, table p !! id = Some d -> dep_app d = app.

(** The rows that a task will change are the app's. *)
Definition row_of (t : Task) : option (AppId * ShortId) :=
  match t with
  | TDecide id app _ | TLocked app (WApprove id) _ | TLocked app (WReject id) _ | TStored app id _ | TJob app id _
  | TStopping app id | TCancel id app | TCancelStored id app => Some (app, id)
  | _ => None
  end.

Definition row_ok (p : Platform) (t : Task) : Prop :=
  match row_of t with Some (app, id) => row_app p app id | None => True end.

Definition one_running (s : Store) : Prop :=
  forall id1 id2 d1 d2, s !! id1 = Some d1 -> s !! id2 = Some d2 -> dep_status d1 = Running -> dep_status d2 = Running ->
    dep_app d1 = dep_app d2 -> id1 = id2.

(** What every statement on the table keeps: no new row under an old identifier, no row moves to
    another app, and none becomes the running one. *)
Definition tame (u : gset ShortId) (s s' : Store) : Prop :=
  forall id d', s' !! id = Some d' -> id ∈ u ->
    exists d, s !! id = Some d /\ dep_app d' = dep_app d /\ (dep_status d' = Running -> dep_status d = Running).

Definition rows_inv (st : RunState) : Prop :=
  dom (table st.1) ⊆ used_ids st.1 /\ one_running (table st.1) /\ Forall (row_ok st.1) st.2.

Lemma tame_refl u s : tame u s s.
Proof. intros id d H _. by exists d. Qed.

Lemma tame_update u s id f :
  (forall d, dep_app (f d) = dep_app d) -> (forall d, dep_status (f d) = Running -> dep_status d = Running) ->
  tame u s (update_row f id s).
Proof.
  intros Ha Hs id' d' H _. unfold update_row in H. destruct (decide (id = id')) as [->|Hne]; [|rewrite lookup_alter_ne in H by done; by exists d'].
  rewrite lookup_alter_eq in H. apply fmap_Some in H as (d & H & ->). exists d. split_and!; [done|apply Ha|apply Hs].
Qed.

Lemma one_running_tame s s' : dom s' ⊆ dom s -> tame (dom s) s s' -> one_running s -> one_running s'.
Proof.
  intros Hd Ht Ho id1 id2 d1' d2' H1 H2 R1 R2 E.
  assert (D : forall id d, s' !! id = Some d -> id ∈ dom s) by (intros; by apply Hd, elem_of_dom).
  destruct (Ht _ _ H1) as (d1 & L1 & A1 & S1); [by eapply D|]. destruct (Ht _ _ H2) as (d2 & L2 & A2 & S2); [by eapply D|].
  apply (Ho id1 id2 d1 d2); eauto. by rewrite <-A1, <-A2.
Qed.

Lemma row_app_tame p p' app id :
  used_ids p ⊆ used_ids p' -> (forall i d', table p' !! i = Some d' -> i ∈ used_ids p -> exists d, table p !! i = Some d /\ dep_app d' = dep_app d) ->
  row_app p app id -> row_app p' app id.
Proof.
  intros Hu Ht [Hi Ha]. split; [by apply Hu|]. intros d' H. destruct (Ht _ _ H Hi) as (d & L & ->). by apply Ha.
Qed.

(** What [finish_deployment] leaves of each row. *)
Lemma finish_lookup app id now s other d' : finish_deployment app id now s !! other = Some d' ->
  exists d, s !! other = Some d /\ dep_app d' = dep_app d
    /\ dep_status d' = (if bool_decide (other = id) then Running
                        else if bool_decide (dep_app d = app) && bool_decide (dep_status d = Running) then Superseded
                        else dep_status d).
Proof.
  unfold finish_deployment, update_row. intros H. destruct (decide (id = other)) as [->|Hne].
  - rewrite lookup_alter_eq, supersede_lookup in H. destruct (s !! other) as [d|]; [|done]. injection H as <-. exists d.
    rewrite (bool_decide_eq_true_2 (other = other)) by done. rewrite andb_false_r. by split_and!.
  - rewrite lookup_alter_ne, supersede_lookup in H by done. destruct (s !! other) as [d|]; [|done]. injection H as <-. exists d.
    rewrite (bool_decide_eq_false_2 (other = id)) by done. rewrite andb_true_r.
    split_and!; [done| |]; by destruct (bool_decide (dep_app d = app)), (bool_decide (dep_status d = Running)).
Qed.

Lemma finish_dom app id now s : dom (finish_deployment app id now s) ⊆ dom s.
Proof. intros i Hi. apply elem_of_dom in Hi as [d' H]. apply finish_lookup in H as (d & L & _). by apply elem_of_dom_2 in L. Qed.

Lemma finish_one_running app id now s :
  (forall d, s !! id = Some d -> dep_app d = app) -> one_running s -> one_running (finish_deployment app id now s).
Proof.
  intros Hid Ho.
  (* A row that still runs is the finished one, or another app's. *)
  assert (R : forall i d', finish_deployment app id now s !! i = Some d' -> dep_status d' = Running ->
    exists d, s !! i = Some d /\ dep_app d' = dep_app d /\ ((i = id /\ dep_app d = app) \/ (dep_app d <> app /\ dep_status d = Running))).
  { intros i d' H R. apply finish_lookup in H as (d & L & A & S). rewrite R in S. exists d. split_and!; [done|done|].
    destruct (bool_decide_reflect (i = id)) as [->|Hi]; [left; by split; [|apply Hid]|].
    destruct (bool_decide_reflect (dep_app d = app)); [|by right]. destruct (bool_decide_reflect (dep_status d = Running)); cbn in S; congruence. }
  intros id1 id2 d1' d2' H1 H2 R1 R2 E.
  destruct (R _ _ H1 R1) as (d1 & L1 & A1 & [[-> B1]|[N1 S1]]), (R _ _ H2 R2) as (d2 & L2 & A2 & [[-> B2]|[N2 S2]]);
    [done|congruence|congruence|]. apply (Ho id1 id2 d1 d2); [done..|congruence].
Qed.

Definition keeps (p p' : Platform) : Prop :=
  used_ids p ⊆ used_ids p'
  /\ forall i d', table p' !! i = Some d' -> i ∈ used_ids p -> exists d, table p !! i = Some d /\ dep_app d' = dep_app d.

Lemma keeps_rows p p' ts : keeps p p' -> Forall (row_ok p) ts -> Forall (row_ok p') ts.
Proof.
  intros [Hu Hk] H. apply (Forall_impl _ _ _ H). intros t. unfold row_ok. destruct (row_of t) as [[app id]|]; [|done].
  by apply row_app_tame.
Qed.

(** A step that changes rows of the table and adds none. *)
Lemma rows_change s' p ts :
  rows_inv (p, ts) -> dom s' ⊆ dom (table p) -> tame (used_ids p) (table p) s' -> rows_inv (set_table s' p, ts).
Proof.
  intros (Hd & Ho & Hf) Hs Ht. cbn in *. split_and!; cbn; [set_solver| |].
  - apply (one_running_tame (table p)); [done| |done]. intros id d' H Hi. apply (Ht id d' H). by apply Hd.
  - apply (keeps_rows p); [|done]. split; [done|]. intros i d' H Hi. destruct (Ht _ _ H Hi) as (d & L & A & _). by exists d.
Qed.

Lemma rows_update f id p ts :
  (forall d, dep_app (f d) = dep_app d) -> (forall d, dep_status (f d) = Running -> dep_status d = Running) ->
  rows_inv (p, ts) -> rows_inv (set_table (update_row f id (table p)) p, ts).
Proof.
  intros Ha Hs Hr. apply rows_change; [done| |by apply tame_update].
  intros i Hi. apply elem_of_dom in Hi as [d' H]. unfold update_row in H. destruct (decide (id = i)) as [->|Hne].
  - rewrite lookup_alter_eq in H. apply fmap_Some in H as (d & H & _). by apply elem_of_dom_2 in H.
  - rewrite lookup_alter_ne in H by done. by apply elem_of_dom_2 in H.
Qed.

Lemma rows_insert id d p p' ts :
  insert_row id d p = Some p' -> dep_status d <> Running -> rows_inv (p, ts) ->
  rows_inv (p', ts) /\ row_app p' (dep_app d) id.
Proof.
  intros H Hs (Hd & Ho & Hf). apply insert_row_some in H as (Hu & Hn & ->). unfold rows_inv. cbn in *. split_and!.
  - intros i Hi. cbn in *. apply elem_of_dom in Hi as [d' H]. apply lookup_insert_Some in H as [[<- _]|[_ H]]; [set_solver|].
    apply elem_of_dom_2 in H. set_solver.
  - intros id1 id2 d1 d2 H1 H2 R1 R2 E. rewrite lookup_insert_Some in H1, H2.
    destruct H1 as [[<- <-]|[_ H1]]; [done|]. destruct H2 as [[<- <-]|[_ H2]]; [done|]. by apply (Ho id1 id2 d1 d2).
  - apply (keeps_rows p); [|done]. split; [set_solver|]. intros i d' H Hi. cbn in H. rewrite lookup_insert_ne in H by set_solver.
    by exists d'.
  - split; cbn; [set_solver|]. intros d0 H. rewrite lookup_insert_eq in H. by injection H as ->.
Qed.

(** The tasks of a state may be replaced by tasks for the same rows. *)
Lemma rows_tasks p ts ts' : rows_inv (p, ts) -> (Forall (row_ok p) ts -> Forall (row_ok p) ts') -> rows_inv (p, ts').
Proof. intros (Hd & Ho & Hf) H. split_and!; [done|done|]. by apply H. Qed.

Lemma rows_same p p' ts : table p' = table p -> used_ids p' = used_ids p -> rows_inv (p, ts) -> rows_inv (p', ts).
Proof.
  intros Et Eu (Hd & Ho & Hf). unfold rows_inv. cbn in *. rewrite Et, Eu. split_and!; [done|done|].
  apply (keeps_rows p); [|done]. unfold keeps. rewrite Et, Eu. split; [done|]. intros i d' H _. by exists d'.
Qed.

Lemma rows_continue p k ts : Forall (row_ok p) ts -> Forall (row_ok p) (continue k ++ ts).
Proof. intros H. destruct k as [|[id d] k]; [done|]. by constructor. Qed.

Lemma rows_drop_lock p app ts : rows_inv (p, ts) -> rows_inv (drop_lock app p, ts).
Proof. by apply rows_same. Qed.

Lemma rows_fail p id status message now ts :
  status <> Running -> rows_inv (p, ts) -> rows_inv (set_table (fail_deployment id status message now (table p)) p, ts).
Proof. intros Hs. by apply rows_update. Qed.

Lemma rows_approve id now p b t' ts :
  approve_deployment id now (table p) = (b, t') -> rows_inv (p, ts) -> rows_inv (set_table t' p, ts).
Proof.
  unfold approve_deployment. destruct (is_pending _ _); intros [= <- <-] H; [by apply rows_update|]. by apply (rows_same p).
Qed.

Lemma rows_reject id message now p ts :
  rows_inv (p, ts) -> rows_inv (set_table (reject_deployment id message now (table p)).2 p, ts).
Proof.
  unfold reject_deployment. destruct (is_pending _ _); intros H; [by apply rows_update|]. by apply (rows_same p).
Qed.

Lemma rows_finish app id now p ts :
  row_app p app id -> rows_inv (p, ts) -> rows_inv (set_table (finish_deployment app id now (table p)) p, ts).
Proof.
  intros [Hi Ha] (Hd & Ho & Hf). cbn in *. split_and!; cbn.
  - etrans; [apply finish_dom|done].
  - by apply finish_one_running.
  - apply (keeps_rows p); [|done]. split; [done|]. intros i d' H _. apply finish_lookup in H as (d & L & A & _). by exists d.
Qed.

Lemma rows_delete app p ts : rows_inv (p, ts) -> rows_inv (delete_rows app p, ts).
Proof.
  intros H. apply rows_change; [done| |].
  - apply dom_filter_subseteq.
  - intros i d' L _. apply map_lookup_filter_Some in L as [L _]. by exists d'.
Qed.

Lemma rows_restart now p ts : rows_inv (p, ts) -> rows_inv (restart now p, []).
Proof.
  intros H. apply (rows_tasks _ ts); [|by constructor]. apply (rows_same (set_table (fail_unfinished now (table p)) p)); [done|done|].
  apply rows_change; [done|unfold fail_unfinished; by rewrite dom_fmap_L|].
  intros i d' L _. unfold fail_unfinished in L. rewrite lookup_fmap in L. apply fmap_Some in L as (d & L & ->). exists d.
  by destruct (left_unfinished (dep_status d)).
Qed.

(** A task leaves and others for its rows, or for none, come. *)
Lemma rows_replace p t ts rest new :
  ts ≡ₚ t :: rest -> rows_inv (p, ts) -> (row_ok p t -> Forall (row_ok p) new) -> rows_inv (p, new ++ rest).
Proof.
  intros E H Hn. apply (rows_tasks _ _ _ H). rewrite E. intros [H1 H2]%Forall_cons. apply Forall_app. split; [by apply Hn|done].
Qed.

Ltac by_rows R new := apply (R new); let Hr := fresh "Hr" in intros Hr; apply Forall_singleton; first [exact Hr | exact I].

Lemma rows_inv_step st l st' : rows_inv st -> pipeline_step st l st' -> rows_inv st'.
Proof.
  intros Hi Hs. destruct Hs;
    try (match goal with E : ?ts ≡ₚ ?t :: ?rest, I : rows_inv (?p, ?ts) |- _ =>
           pose proof (fun new => rows_replace p t ts rest new E I) as R end).
  - apply (rows_tasks _ _ _ Hi). by constructor.
  - apply lock_app_some in H0 as [_ ->]. apply (rows_same p); [done..|]. by_rows R [TLocked app WDeploy k].
  - apply (rows_tasks _ _ _ (R [] (fun _ => Forall_nil_2 _))). by apply rows_continue.
  - apply (rows_same p); [unfold lock_or_queue_hook in H0; case_bool_decide; by injection H0 as <- <-..|].
    destruct got; [by_rows R [TLocked app WDeploy k]|]. apply (rows_tasks _ _ _ (R [] (fun _ => Forall_nil_2 _))). by apply rows_continue.
  - apply rows_drop_lock. by_rows R [TQueue app ((id, pending reason d) :: k)].
  - eapply rows_insert in H3 as [Hr Ha]; [|by rewrite H2|apply (R [])]; [|by constructor].
    apply (rows_tasks _ _ _ Hr). constructor; [|done]. by rewrite H1 in Ha.
  - apply (rows_same p); [done..|]. apply (rows_tasks _ (TJob app id PStart :: rest)); [by_rows R [TJob app id PStart]|].
    intros [? ?]%Forall_cons. constructor; [done|]. by apply rows_continue.
  - apply (rows_tasks _ _ _ Hi). by constructor.
  - apply lock_app_some in H0 as [_ ->]. apply (rows_same p); [done..|]. apply (rows_tasks _ _ _ Hi). constructor; [|done].
    by destruct H as [-> | [-> | ->]].
  - apply (rows_tasks _ _ _ Hi). constructor; [|done]. destruct Hi as (Hd & _). split; [by apply Hd, elem_of_dom|].
    cbn. intros d' L. congruence.
  - apply lock_app_some in H0 as [_ ->]. apply (rows_same p); [done..|]. destruct approve; [by_rows R [TLocked app (WApprove id) []]|].
    by_rows R [TLocked app (WReject id) []].
  - apply (rows_approve id now p true); [done|]. by_rows R [TStored app id []].
  - apply rows_drop_lock, rows_reject. by apply (R []).
  - apply (rows_same p); [done..|]. by_rows R [TDeleting app].
  - apply rows_drop_lock. apply (rows_same (delete_rows app p)); [done..|]. apply rows_delete. by apply (R []).
  - apply rows_drop_lock. by_rows R [TQueue app []].
  - apply rows_drop_lock. by_rows R [TQueue app []].
  - apply (rows_same p); [unfold drop_task; by destruct (lock_of t)..|]. by apply (R []).
  - apply rows_drop_lock. apply (rows_tasks _ _ _ (R [] (fun _ => Forall_nil_2 _))). by apply rows_continue.
  - apply rows_drop_lock. apply (rows_tasks _ _ _ (R [] (fun _ => Forall_nil_2 _))). by apply rows_continue.
  - by apply rows_update.
  - apply rows_update; [done..|]. by_rows R [TJob app id PDeploying].
  - by apply rows_update.
  - apply (rows_same p); [done..|]. by_rows R [TJob app id PHealthy].
  - apply (rows_same p); [done..|]. by_rows R [TJob app id (PReplacing (stoppable app kept p))].
  - apply (rows_same p); [done..|]. by_rows R [TJob app id PReplaced].
  - apply (rows_same (set_table (fail_deployment id Failed message now (table p)) p)); [by destruct removed..|].
    apply rows_fail; [done|]. by_rows R [TStopping app id].
  - apply (rows_same (set_table (fail_deployment id Failed message now (table p)) p)); [done..|].
    apply rows_fail; [done|]. by_rows R [TStopping app id].
  - apply rows_fail; [done|]. by_rows R [TStopping app id].
  - by apply rows_update.
  - apply rows_finish; [|by_rows R [TJob app id PServing]]. destruct Hi as (_ & _ & Hf). cbn in Hf. rewrite H in Hf.
    by apply Forall_cons in Hf as [Hf _].
  - apply (rows_same p); [done..|]. by_rows R [TStopping app id].
  - apply (rows_same p); [done..|]. by_rows R [TStopping app id].
  - apply (rows_same p); [done..|]. by_rows R [TUnlocking app].
  - apply rows_drop_lock. by_rows R [TQueue app []].
  - apply (rows_same p); [unfold take_queued_hook in H0; destruct (shutting_down p); [done|]; destruct (queued_hooks p !! app); [|done];
      by injection H0 as <- <-..|]. by_rows R [TDeploy app (Some target_ref) k].
  - apply (rows_tasks _ _ _ (R [] (fun _ => Forall_nil_2 _))). by apply rows_continue.
  - eapply rows_insert in H1 as [Hr _]; [|by rewrite H0|by apply (R [])]. apply (rows_tasks _ _ _ Hr). by apply rows_continue.
  - apply (rows_tasks _ _ _ Hi). constructor; [|done]. destruct Hi as (Hd & _). split; [by apply Hd, elem_of_dom|].
    cbn. intros d' L. congruence.
  - apply rows_fail; [done|]. by_rows R [TCancelStored id app].
  - destruct (finish_cancel_frame id app p) as (E1 & E2 & _). apply (rows_same p); [done..|]. by apply (R []).
  - by apply (rows_same p).
  - by apply (rows_restart now p ts).
Qed.

(** ** The states of the rows of tasks

    In the runs without a cancellation, a shutdown and a deletion that breaks off, the row of a
    task tells how far the task is, and a deployment that runs has its container. *)

Definition undisturbed (l : Label) : Prop := l = LStep \/ l = LSkip.

(** The runs whose rows are only written by their own tasks. *)
Definition uncancelled (l : Label) : Prop := undisturbed l \/ l = LBroken.

Definition phase_status (ph : Phase) (s : DeploymentStatus) : Prop :=
  match ph with
  | PStart => s = Queued \/ s = Building
  | PDeploying | PReplacing _ | PHealthy | PReplaced => s = Deploying
  | PServing => s = Running
  end.

Definition started (ph : Phase) : Prop := ph = PHealthy \/ ph = PReplaced \/ ph = PServing.

Definition row_at (p : Platform) (app id : ShortId) (q : DeploymentStatus -> Prop) : Prop :=
  exists d, table p !! id = Some d /\ dep_app d = app /\ q (dep_status d).

Definition task_ok (p : Platform) (t : Task) : Prop :=
  match t with
  | TStored app id _ => row_at p app id (fun s => s = Queued)
  | TJob app id ph => row_at p app id (phase_status ph) /\ (started ph -> (app, id) ∈ live p)
  | TStopping app id => row_at p app id (fun s => is_unfinished s = false)
  | TCancelStored _ _ => False
  | _ => True
  end.

(** The task that took the container of a running deployment away. *)
Definition covers (app id : ShortId) (t : Task) : Prop :=
  match t with
  | TDeleting a => a = app
  | TJob a _ (PReplacing stopped) => a = app /\ (app, id) ∈ stopped
  | TJob a _ PReplaced => a = app
  | _ => False
  end.

(** A running deployment of an app has its container, unless a task took it away. *)
Definition served (p : Platform) (ts : list Task) (app : AppId) : Prop :=
  forall id d, table p !! id = Some d -> dep_app d = app -> dep_status d = Running ->
    (app, id) ∈ live p \/ exists t, t ∈ ts /\ covers app id t.

Lemma uncovered app id t : is_away t = false -> ~ covers app id t.
Proof. destruct t as [| | | | |? ? []| | | | | |]; cbn; try done; tauto. Qed.

Lemma covers_lock app id t : covers app id t -> lock_of t = Some app.
Proof. destruct t as [| | | | |? ? []| | | | | |]; cbn; try done; [by intros ->|by intros [-> _]|by intros ->]. Qed.

Lemma covers_away app id t : covers app id t -> is_away t = true.
Proof. intros Hc. destruct (is_away t) eqn:E; [done|]. by apply (uncovered app id) in E. Qed.

(** The containers count while [serving]; the rows and tasks are in order in any case. *)
Section Calm.
Context (serving : bool).

Record calm_inv (st : RunState) : Prop := {
  calm_locks : lock_inv st;
  calm_rows : rows_inv st;
  calm_tasks : Forall (task_ok st.1) st.2;
  calm_served : serving = true -> forall app, served st.1 st.2 app;
  calm_tokens : cancelled_tokens st.1 = ∅;
}.

(** What a step on the rows of the app [lk] leaves to the other apps. *)
Record frame (lk : option AppId) (p p' : Platform) : Prop := {
  frame_rows : forall id d, Some (dep_app d) <> lk -> table p !! id = Some d -> table p' !! id = Some d;
  frame_running : forall id d, Some (dep_app d) <> lk -> dep_status d = Running -> table p' !! id = Some d -> table p !! id = Some d;
  frame_live : forall app id, Some app <> lk -> (app, id) ∈ live p -> (app, id) ∈ live p';
}.

Lemma frame_row_at lk p p' app id q : frame lk p p' -> Some app <> lk -> row_at p app id q -> row_at p' app id q.
Proof. intros F Hn (d & L & A & Q). exists d. split_and!; [|done|done]. by apply (frame_rows _ _ _ F); [rewrite A|]. Qed.

Lemma frame_task lk p p' t :
  frame lk p p' -> (forall app, lock_of t = Some app -> Some app <> lk) -> task_ok p t -> task_ok p' t.
Proof.
  intros F Hn. destruct t; cbn in *; try done.
  - by apply (frame_row_at lk), Hn.
  - intros [Hr Hs]. split; [by apply (frame_row_at lk p), Hr; [|apply Hn]|]. intros Hp. by apply (frame_live _ _ _ F); [apply Hn|apply Hs].
  - by apply (frame_row_at lk), Hn.
Qed.

(** A task of the app [lk], or one that only adds rows when there is none, makes a step. *)
Lemma calm_step lk p p' ts t new rest :
  calm_inv (p, ts) -> ts ≡ₚ t :: rest -> lock_of t = lk -> frame lk p p' ->
  lock_inv (p', new ++ rest) -> rows_inv (p', new ++ rest) -> cancelled_tokens p' = cancelled_tokens p ->
  (task_ok p t -> Forall (task_ok p') new) ->
  (forall app, serving = true -> lk = Some app -> task_ok p t -> served p (t :: rest) app -> served p' (new ++ rest) app) ->
  calm_inv (p', new ++ rest).
Proof.
  intros [HL HR HT HS HC] E Hl F HL' HR' HC' Hn Hs. cbn in *. rewrite E in HT. apply Forall_cons in HT as [Ht HT].
  split; cbn; [done|done| | |by rewrite HC'].
  - apply Forall_app. split; [by apply Hn|]. apply Forall_forall. intros t' Hin. rewrite Forall_forall in HT.
    apply (frame_task lk p); [done| |by apply HT]. intros app Ht'. rewrite <-Hl. intros E'.
    unfold lock_inv in HL. apply list_elem_of_split in Hin as (l1 & l2 & ->).
    apply (exact_unique lock_of (busy p) t t' (l1 ++ l2) app); [|by symmetry|done].
    apply (exact_perm _ _ ts); [rewrite E; apply Permutation_skip; symmetry; apply Permutation_middle|done].
  - intros Hsv app. assert (HSt : served p (t :: rest) app).
    { intros id d L A R. destruct (HS Hsv app id d L A R) as [?|(t' & Hin & Hc)]; [by left|right]. exists t'. by rewrite <-E. }
    destruct (decide (lk = Some app)) as [El|Hne]; [by apply (Hs app)|].
    intros id d L A R. destruct (HSt id d) as [Hv|(t' & Hin & Hc)]; [|done|done| |].
    + apply (frame_running _ _ _ F); [by rewrite A|done|done].
    + left. by apply (frame_live _ _ _ F).
    + right. exists t'. split; [|done]. apply elem_of_app. right. apply elem_of_cons in Hin as [Et|Hin]; [|done].
      apply covers_lock in Hc. by rewrite <-Hl, <-Et, Hc in Hne.
Qed.

Lemma frame_same lk p p' : table p' = table p -> live p' = live p -> frame lk p p'.
Proof. intros Et El. split; [by rewrite Et..|by rewrite El]. Qed.

Lemma served_change p p' t new rest app :
  (forall i, covers app i t -> exists t', t' ∈ new /\ covers app i t') ->
  (forall i d', table p' !! i = Some d' -> dep_app d' = app -> dep_status d' = Running ->
     (exists d, table p !! i = Some d /\ dep_app d = app /\ dep_status d = Running) /\ ((app, i) ∈ live p -> (app, i) ∈ live p')) ->
  served p (t :: rest) app -> served p' (new ++ rest) app.
Proof.
  intros Ht Hc Hs i d' L A R. destruct (Hc i d' L A R) as ((d & L0 & A0 & R0) & Hl).
  destruct (Hs i d L0 A0 R0) as [Hv|(t' & Hin & Hcv)]; [left; by apply Hl|]. right.
  apply elem_of_cons in Hin as [->|Hin]; [destruct (Ht i Hcv) as (t2 & Hin & Hc2); exists t2|exists t']; (split; [apply elem_of_app; auto|done]).
Qed.

Lemma not_away t (new : list Task) app : is_away t = false -> forall i, covers app i t -> exists t', t' ∈ new /\ covers app i t'.
Proof. intros Ha i Hc. by apply uncovered in Hc. Qed.

(** A step that touches no row and no container. *)
Lemma calm_quiet p p' ts t new rest :
  calm_inv (p, ts) -> ts ≡ₚ t :: rest -> is_away t = false ->
  table p' = table p -> live p' = live p -> cancelled_tokens p' = cancelled_tokens p ->
  lock_inv (p', new ++ rest) -> rows_inv (p', new ++ rest) -> (task_ok p t -> Forall (task_ok p') new) -> calm_inv (p', new ++ rest).
Proof.
  intros HI E Ht E1 E2 E3 HL HR Hn. apply (calm_step (lock_of t) p p' ts t); try done; [by apply frame_same|].
  intros app _ _ _. apply served_change; [by apply not_away|]. rewrite E1, E2. intros i d L A R. split; [by exists d|done].
Qed.

(** A step that creates a task. *)
Lemma calm_new p p' ts t :
  calm_inv (p, ts) -> table p' = table p -> live p' = live p -> cancelled_tokens p' = cancelled_tokens p ->
  lock_inv (p', t :: ts) -> rows_inv (p', t :: ts) -> task_ok p' t -> calm_inv (p', t :: ts).
Proof.
  intros [HL HR HT HS HC] E1 E2 E3 HL' HR' Hn. cbn in *. split; cbn; [done|done| | |congruence].
  - constructor; [done|]. apply (Forall_impl _ _ _ HT). intros t' Ht'. apply (frame_task None p); [by apply frame_same|done|done].
  - intros Hsv app i d L A R. rewrite E1 in L. rewrite E2. destruct (HS Hsv app i d L A R) as [?|(t' & ? & ?)]; [by left|right; exists t'; split; [by right|done]].
Qed.

Lemma update_row_lookup f id s i d' : update_row f id s !! i = Some d' ->
  exists d, s !! i = Some d /\ d' = (if bool_decide (i = id) then f d else d).
Proof.
  unfold update_row. destruct (bool_decide_reflect (i = id)) as [->|Hne]; intros H.
  - rewrite lookup_alter_eq in H. apply fmap_Some in H as (d & L & ->). by exists d.
  - rewrite lookup_alter_ne in H by done. by exists d'.
Qed.

(** The statement of a job on its row: no other app sees it. *)
Lemma frame_update app id f p p' :
  (forall d, dep_app (f d) = dep_app d) -> row_at p app id (fun _ => True) -> table p' = update_row f id (table p) ->
  (forall a i, a <> app -> (a, i) ∈ live p -> (a, i) ∈ live p') -> frame (Some app) p p'.
Proof.
  intros Hf (d0 & L0 & A0 & _) Et Hl. split; [| |intros a i Hn; apply Hl; congruence]; rewrite Et.
  - intros i d Hn L. unfold update_row. rewrite lookup_alter_ne; [done|]. intros ->. congruence.
  - intros i d Hn _ L. apply update_row_lookup in L as (d1 & L & ->). destruct (bool_decide_reflect (i = id)) as [->|]; [|done].
    rewrite Hf in Hn. congruence.
Qed.

Lemma served_update app id f p p' t new rest :
  (forall i, covers app i t -> exists t', t' ∈ new /\ covers app i t') -> (forall d, dep_app (f d) = dep_app d) -> (forall d, dep_status (f d) <> Running) ->
  table p' = update_row f id (table p) -> (forall i, i <> id -> (app, i) ∈ live p -> (app, i) ∈ live p') ->
  served p (t :: rest) app -> served p' (new ++ rest) app.
Proof.
  intros Ht Hf Hs Et Hl. apply served_change; [done|]. intros i d' L A R. rewrite Et in L.
  apply update_row_lookup in L as (d & L & ->). destruct (bool_decide_reflect (i = id)); [by apply Hs in R|]. split; [by exists d|by apply Hl].
Qed.

Lemma row_at_update app id f p p' (q r : DeploymentStatus -> Prop) :
  (forall d, dep_app (f d) = dep_app d) -> (forall d, q (dep_status d) -> r (dep_status (f d))) ->
  table p' = update_row f id (table p) -> row_at p app id q -> row_at p' app id r.
Proof.
  intros Hf Hs Et (d & L & A & Q). exists (f d). rewrite Et. unfold update_row. rewrite lookup_alter_eq, L. cbn. split_and!; [done|by rewrite Hf|by apply Hs].
Qed.

Lemma row_at_impl p app id (q r : DeploymentStatus -> Prop) : (forall s, q s -> r s) -> row_at p app id q -> row_at p app id r.
Proof. intros H (d & L & A & Q). exists d. by split_and!; [| |apply H]. Qed.

(** A job changes the status of its row, to one that does not run. *)
Lemma calm_status p p' ts t new rest app id f (q : DeploymentStatus -> Prop) :
  calm_inv (p, ts) -> ts ≡ₚ t :: rest -> lock_of t = Some app -> is_away t = false ->
  (forall d, dep_app (f d) = dep_app d) -> (forall d, dep_status (f d) <> Running) -> (task_ok p t -> row_at p app id q) ->
  table p' = update_row f id (table p) -> (forall a i, (a, i) <> (app, id) -> (a, i) ∈ live p -> (a, i) ∈ live p') ->
  cancelled_tokens p' = cancelled_tokens p -> lock_inv (p', new ++ rest) -> rows_inv (p', new ++ rest) ->
  (task_ok p t -> Forall (task_ok p') new) -> calm_inv (p', new ++ rest).
Proof.
  intros HI E Hl Ht Ha Hs Hq Et Hv Hc HL HR Hn.
  assert (Hok : task_ok p t) by (pose proof (calm_tasks _ HI) as HT; cbn in HT; rewrite E in HT; by apply Forall_cons in HT as [HT _]).
  apply (calm_step (Some app) p p' ts t); try done.
  - apply (frame_update app id f); [done|by eapply row_at_impl, Hq|done|]. intros a i Hne. apply Hv. congruence.
  - intros a _ [= <-] _. apply (served_update app id f); [by apply not_away|done..|]. intros i Hne. apply Hv. congruence.
Qed.

Lemma calm_insert p p' ts t new rest id d :
  calm_inv (p, ts) -> ts ≡ₚ t :: rest -> is_away t = false -> insert_row id d p = Some p' -> dep_status d <> Running ->
  lock_inv (p', new ++ rest) -> rows_inv (p', new ++ rest) -> (task_ok p t -> Forall (task_ok p') new) -> calm_inv (p', new ++ rest).
Proof.
  intros HI E Ht H Hs HL HR Hn. apply insert_row_some in H as (Hu & Hno & ->).
  apply (calm_step (lock_of t) p _ ts t); try done.
  - split; cbn; [| |done].
    + intros i d' _ L. rewrite lookup_insert_ne; [done|]. congruence.
    + intros i d' _ R L. apply lookup_insert_Some in L as [[<- <-]|[_ L]]; [done|done].
  - intros a _ _ _. apply served_change; [by apply not_away|]. cbn. intros i d' L A R.
    apply lookup_insert_Some in L as [[<- <-]|[_ L]]; [done|]. split; [by exists d'|done].
Qed.

Lemma calm_finish p ts rest app id ph now :
  calm_inv (p, ts) -> ts ≡ₚ TJob app id ph :: rest -> ph = PHealthy \/ ph = PReplaced ->
  let p' := set_table (finish_deployment app id now (table p)) p in
  lock_inv (p', [TJob app id PServing] ++ rest) -> rows_inv (p', [TJob app id PServing] ++ rest) ->
  calm_inv (p', [TJob app id PServing] ++ rest).
Proof.
  intros HI E Hph p' HL HR. apply (calm_step (Some app) p p' ts (TJob app id ph)); try done.
  - split; [| |done]; cbn; unfold finish_deployment.
    + intros i d Hn L. assert (i <> id) as Hne.
      { intros ->. destruct (calm_rows _ HI) as (_ & _ & Hf). cbn in Hf. rewrite E in Hf. apply Forall_cons in Hf as [[_ Hf] _].
        apply Hn. f_equal. by apply Hf. }
      unfold update_row. rewrite lookup_alter_ne, supersede_lookup, L by done. cbn. by rewrite (bool_decide_eq_false_2 (dep_app d = app)) by congruence.
    + intros i d Hn R L. fold (finish_deployment app id now (table p)) in L.
      assert (i <> id) as Hne.
      { intros ->. apply finish_lookup in L as (d0 & L & A & _). destruct (calm_rows _ HI) as (_ & _ & Hf). cbn in Hf. rewrite E in Hf.
        apply Forall_cons in Hf as [[_ Hf] _]. apply Hn. f_equal. rewrite A. by apply Hf. }
      unfold finish_deployment, update_row in L. rewrite lookup_alter_ne, supersede_lookup in L by done.
      destruct (table p !! i) as [d0|]; [|done]. injection L as <-.
      destruct (bool_decide_reflect (dep_app d0 = app)), (bool_decide_reflect (dep_status d0 = Running)); cbn in *; try done;
        by destruct (negb _).
  - intros ((d & L & A & Q) & Hl). constructor; [|done]. split; [|by intros _; apply Hl; destruct Hph; [left|right; left]].
    exists (set_dep_status Running (set_dep_end (dep_message d) now d)). split_and!; [|done|done].
    cbn. unfold finish_deployment, update_row. rewrite lookup_alter_eq, supersede_lookup, L. cbn.
    by rewrite (bool_decide_eq_true_2 (id = id)), andb_false_r by done.
  - intros a _ [= <-] (_ & Hl) _ i d' L A R. left. cbn. apply finish_lookup in L as (d & L & A' & S). rewrite R in S.
    destruct (bool_decide_reflect (i = id)) as [->|]; [apply Hl; destruct Hph; [by left|right; by left]|].
    rewrite (bool_decide_eq_true_2 (dep_app d = app)) in S by congruence. by destruct (bool_decide_reflect (dep_status d = Running)).
Qed.

Lemma calm_remove_containers p ts rest app k :
  calm_inv (p, ts) -> ts ≡ₚ TLocked app WDelete k :: rest -> let p' := remove_app_containers app p in
  lock_inv (p', [TDeleting app] ++ rest) -> rows_inv (p', [TDeleting app] ++ rest) -> calm_inv (p', [TDeleting app] ++ rest).
Proof.
  intros HI E p' HL HR. apply (calm_step (Some app) p p' ts (TLocked app WDelete k)); try done.
  - split; [done|done|]. cbn. intros a i Hn Hin. apply elem_of_filter. split; [cbn; congruence|done].
  - intros _. by constructor.
  - intros a _ [= <-] _ _ i d _ _ _. right. exists (TDeleting app). split; [by left|done].
Qed.

Lemma calm_delete p ts rest app :
  calm_inv (p, ts) -> ts ≡ₚ TDeleting app :: rest -> let p' := drop_lock app (forget_queued_hook app (delete_rows app p)) in
  lock_inv (p', [] ++ rest) -> rows_inv (p', [] ++ rest) -> calm_inv (p', [] ++ rest).
Proof.
  intros HI E p' HL HR. apply (calm_step (Some app) p p' ts (TDeleting app)); try done.
  - split; [| |done]; cbn.
    + intros i d Hn L. apply map_lookup_filter_Some. split; [done|cbn; congruence].
    + intros i d Hn _ L. by apply map_lookup_filter_Some in L as [L _].
  - intros a _ [= <-] _ _ i d L A _. cbn in L. apply map_lookup_filter_Some in L as [_ L]. done.
Qed.

(** The old containers of the app go when the new deployment is the only one that runs. *)
Lemma calm_drained p ts rest app id left_over :
  calm_inv (p, ts) -> ts ≡ₚ TJob app id PServing :: rest -> let p' := remove_old app id left_over p in
  lock_inv (p', [TStopping app id] ++ rest) -> rows_inv (p', [TStopping app id] ++ rest) ->
  calm_inv (p', [TStopping app id] ++ rest).
Proof.
  intros HI E p' HL HR. apply (calm_step (Some app) p p' ts (TJob app id PServing)); try done.
  - split; [done|done|]. cbn. intros a i Hn Hin. apply elem_of_filter. split; [cbn; congruence|done].
  - intros [Hr _]. constructor; [|done]. apply (row_at_impl p app id (phase_status PServing)); [by intros ? ->|done].
  - intros a _ [= <-] ((d0 & L0 & A0 & R0) & Hl) _ i d L A R. left. cbn in *. destruct (calm_rows _ HI) as (_ & Ho & _).
    assert (i = id) as -> by (apply (Ho i id d d0); [done..|congruence]).
    apply elem_of_filter. split; [by left|]. apply Hl. right. by right.
Qed.

Lemma calm_restart now p ts :
  (serving = true -> existsb is_away ts = false) -> calm_inv (p, ts) -> lock_inv (restart now p, []) -> rows_inv (restart now p, []) ->
  calm_inv (restart now p, []).
Proof.
  intros Hd HI HL HR. split; cbn; [done|done|done| |done]. intros Hsv app i d L A R. cbn in *. left.
  unfold fail_unfinished in L. rewrite lookup_fmap in L. apply fmap_Some in L as (d0 & L & ->).
  assert (dep_app d0 = app /\ dep_status d0 = Running) as [A0 R0] by (by destruct (left_unfinished (dep_status d0))).
  destruct (calm_served _ HI Hsv app i d0 L A0 R0) as [?|(t & Hin & Hc)]; [done|]. cbn in Hin. exfalso. specialize (Hd Hsv).
  enough (existsb is_away ts = true) by congruence. apply existsb_exists. exists t. rewrite <-list_elem_of_In. split; [done|]. by apply covers_away in Hc.
Qed.

(** A deletion that breaks off leaves rows without containers. *)
Lemma calm_delete_broken p ts rest app :
  serving = false -> calm_inv (p, ts) -> ts ≡ₚ TDeleting app :: rest ->
  lock_inv (drop_lock app p, [TQueue app []] ++ rest) -> rows_inv (drop_lock app p, [TQueue app []] ++ rest) ->
  calm_inv (drop_lock app p, [TQueue app []] ++ rest).
Proof.
  intros Hsv HI E HL HR. apply (calm_step (Some app) p (drop_lock app p) ts (TDeleting app)); try done.
  - intros _. by apply Forall_singleton.
  - intros a Hs. congruence.
Qed.

Lemma calm_leave p p' ts t rest k :
  calm_inv (p, ts) -> ts ≡ₚ t :: rest -> is_away t = false ->
  table p' = table p -> live p' = live p -> cancelled_tokens p' = cancelled_tokens p ->
  lock_inv (p', continue k ++ rest) -> rows_inv (p', continue k ++ rest) -> calm_inv (p', continue k ++ rest).
Proof.
  intros HI E Ht E1 E2 E3 HL HR. apply (calm_quiet p p' ts t); [done..|]. intros _. by destruct k as [|[id d] k]; repeat constructor.
Qed.

Lemma is_pending_status s id d : s !! id = Some d -> is_pending s id = bool_decide (dep_status d = PendingApproval).
Proof. unfold is_pending. by intros ->. Qed.

(** The row of an approval or a rejection that takes place. *)
Lemma pending_row p app id : row_app p app id -> is_pending (table p) id = true -> row_at p app id (fun s => s = PendingApproval).
Proof.
  intros [_ Ha]. unfold is_pending. destruct (table p !! id) as [d|] eqn:L; [|done]. intros E%bool_decide_eq_true. exists d.
  split_and!; [done|by apply Ha|done].
Qed.

Lemma calm_approve p ts rest app id k now t' :
  calm_inv (p, ts) -> ts ≡ₚ TLocked app (WApprove id) k :: rest -> approve_deployment id now (table p) = (true, t') ->
  let p' := set_table t' p in
  lock_inv (p', [TStored app id []] ++ rest) -> rows_inv (p', [TStored app id []] ++ rest) -> calm_inv (p', [TStored app id []] ++ rest).
Proof.
  intros HI E H p' HL HR. unfold approve_deployment in H. destruct (is_pending (table p) id) eqn:Ep; [|done]. injection H as <-.
  pose proof (calm_rows _ HI) as (_ & _ & Hf). cbn in Hf. rewrite E in Hf. apply Forall_cons in Hf as [Hf _].
  pose proof (pending_row p app id Hf Ep) as Hr.
  apply (calm_status p p' ts (TLocked app (WApprove id) k) _ rest app id (fun d => set_dep_status Queued (set_dep_start None now d))
           (fun s => s = PendingApproval)); try done.
  intros _. apply Forall_singleton.
  by apply (row_at_update app id (fun d => set_dep_status Queued (set_dep_start None now d)) p p' (fun s => s = PendingApproval)).
Qed.

Lemma calm_reject p ts rest app id k message now :
  calm_inv (p, ts) -> ts ≡ₚ TLocked app (WReject id) k :: rest ->
  let p' := drop_lock app (set_table (reject_deployment id message now (table p)).2 p) in
  lock_inv (p', [] ++ rest) -> rows_inv (p', [] ++ rest) -> calm_inv (p', [] ++ rest).
Proof.
  intros HI E p' HL HR. unfold p', reject_deployment in *. destruct (is_pending (table p) id) eqn:Ep; cbn [snd] in *.
  - pose proof (calm_rows _ HI) as (_ & _ & Hf). cbn in Hf. rewrite E in Hf. apply Forall_cons in Hf as [Hf _].
    pose proof (pending_row p app id Hf Ep) as Hr.
    by apply (calm_status p _ ts (TLocked app (WReject id) k) [] rest app id
             (fun d => set_dep_status Cancelled (set_dep_end (Some message) now d)) (fun s => s = PendingApproval)).
  - by apply (calm_quiet p _ ts (TLocked app (WReject id) k)).
Qed.

(** A statement of a job on its row that keeps the phase of the job. *)
Lemma calm_job_status p p' ts rest app id ph status new :
  calm_inv (p, ts) -> ts ≡ₚ TJob app id ph :: rest -> replacing ph = false -> status <> Running -> p' = set_table (set_status id status (table p)) p ->
  lock_inv (p', [new] ++ rest) -> rows_inv (p', [new] ++ rest) ->
  (row_at p' app id (fun s => s = status) -> task_ok p' new) -> calm_inv (p', [new] ++ rest).
Proof.
  intros HI E Hph Hs -> HL HR Hn.
  apply (calm_status p _ ts (TJob app id ph) [new] rest app id (set_dep_status status) (phase_status ph)); try done.
  - by intros [Hr _].
  - intros [Hr _]. apply Forall_singleton, Hn. by apply (row_at_update app id (set_dep_status status) p _ (phase_status ph)).
Qed.

Lemma calm_recorded p ts rest app id ph digest :
  calm_inv (p, ts) -> ts ≡ₚ TJob app id ph :: rest -> let p' := set_table (set_image_digest id digest (table p)) p in
  lock_inv (p', [TJob app id ph] ++ rest) -> rows_inv (p', [TJob app id ph] ++ rest) -> calm_inv (p', [TJob app id ph] ++ rest).
Proof.
  intros HI E p' HL HR. apply (calm_step (Some app) p p' ts (TJob app id ph)); try done.
  - apply (frame_update app id (set_dep_digest digest)); [done| |done|done].
    pose proof (calm_tasks _ HI) as HT. cbn in HT. rewrite E in HT. apply Forall_cons in HT as [[Hr _] _]. by eapply row_at_impl, Hr.
  - intros [Hr Hl]. apply Forall_singleton. split; [|done]. by apply (row_at_update app id (set_dep_digest digest) p _ (phase_status ph)).
  - intros a _ [= <-] _. apply served_change; [intros i Hc; exists (TJob app id ph); split; [by left|done]|]. intros i d' L A R. cbn in L. split; [|done].
    apply update_row_lookup in L as (d & L & ->). exists d. by destruct (bool_decide (i = id)).
Qed.

Lemma calm_healthy p ts rest app id :
  calm_inv (p, ts) -> ts ≡ₚ TJob app id PDeploying :: rest -> let p' := add_container app id p in
  lock_inv (p', [TJob app id PHealthy] ++ rest) -> rows_inv (p', [TJob app id PHealthy] ++ rest) ->
  calm_inv (p', [TJob app id PHealthy] ++ rest).
Proof.
  intros HI E p' HL HR. apply (calm_step (Some app) p p' ts (TJob app id PDeploying)); try done.
  - split; [done|done|]. cbn. set_solver.
  - intros [Hr _]. apply Forall_singleton. split; [done|]. cbn. set_solver.
  - intros a _ [= <-] _. apply served_change; [by apply not_away|]. intros i d' L A R. split; [by exists d'|]. cbn. set_solver.
Qed.

(** The old containers go, and the job knows which. *)
Lemma calm_stop_old p ts rest app id kept :
  calm_inv (p, ts) -> ts ≡ₚ TJob app id PDeploying :: rest ->
  let p' := stop_old app kept p in let t' := TJob app id (PReplacing (stoppable app kept p)) in
  lock_inv (p', [t'] ++ rest) -> rows_inv (p', [t'] ++ rest) -> calm_inv (p', [t'] ++ rest).
Proof.
  intros HI E p' t' HL HR. apply (calm_step (Some app) p p' ts (TJob app id PDeploying)); try done.
  - split; [done|done|]. cbn. intros a i Hn Hin. apply elem_of_difference. split; [done|]. unfold stoppable. rewrite elem_of_filter. cbn. intros [[-> _] _]. done.
  - intros [Hr _]. apply Forall_singleton. split; [done|]. by intros [?|[?|?]].
  - intros a _ [= <-] _ Hs i d L A R. destruct (Hs i d L A R) as [Hv|(t & Hin & Hc)].
    + destruct (decide ((app, i) ∈ stoppable app kept p)) as [Hst|Hst]; [right; exists t'; split; [by left|done]|].
      left. cbn. apply elem_of_difference. by split.
    + right. apply elem_of_cons in Hin as [->|Hin]; [by apply uncovered in Hc|]. exists t. split; [by right|done].
Qed.

Lemma calm_replaced p ts rest app id stopped :
  calm_inv (p, ts) -> ts ≡ₚ TJob app id (PReplacing stopped) :: rest -> let p' := add_container app id p in
  lock_inv (p', [TJob app id PReplaced] ++ rest) -> rows_inv (p', [TJob app id PReplaced] ++ rest) ->
  calm_inv (p', [TJob app id PReplaced] ++ rest).
Proof.
  intros HI E p' HL HR. apply (calm_step (Some app) p p' ts (TJob app id (PReplacing stopped))); try done.
  - split; [done|done|]. cbn. set_solver.
  - intros [Hr _]. apply Forall_singleton. split; [done|]. cbn. set_solver.
  - intros a _ [= <-] _. apply served_change; [intros i _; exists (TJob app id PReplaced); split; [by left|done]|].
    intros i d' L A R. split; [by exists d'|]. cbn. set_solver.
Qed.

Lemma calm_failed p ts rest app id ph message now (removed : bool) :
  calm_inv (p, ts) -> ts ≡ₚ TJob app id ph :: rest -> replacing ph = false ->
  let p' := (if removed then remove_container app id else fun p => p) (set_table (fail_deployment id Failed message now (table p)) p) in
  lock_inv (p', [TStopping app id] ++ rest) -> rows_inv (p', [TStopping app id] ++ rest) -> calm_inv (p', [TStopping app id] ++ rest).
Proof.
  intros HI E Hp p' HL HR.
  apply (calm_status p p' ts (TJob app id ph) _ rest app id (fun d => set_dep_status Failed (set_dep_end (Some message) now d)) (phase_status ph)); try done.
  - by intros [Hr _].
  - by destruct removed.
  - intros a i Hne Hin. destruct removed; cbn; [|done]. apply elem_of_difference. split; [done|]. by intros ?%elem_of_singleton.
  - by destruct removed.
  - intros [Hr _]. apply Forall_singleton.
    apply (row_at_update app id (fun d => set_dep_status Failed (set_dep_end (Some message) now d)) p p' (phase_status ph)); try done. by destruct removed.
Qed.

(** A replacement that fails: the containers that were stopped come back, or do not count. *)
Lemma calm_replacing_failed p ts rest app id ph restarted message now :
  calm_inv (p, ts) -> ts ≡ₚ TJob app id ph :: rest -> phase_status ph Deploying /\ ph <> PServing ->
  (serving = true -> forall i, covers app i (TJob app id ph) -> (app, i) ∈ restarted) ->
  let p' := restart_stopped restarted (set_table (fail_deployment id Failed message now (table p)) p) in
  lock_inv (p', [TStopping app id] ++ rest) -> rows_inv (p', [TStopping app id] ++ rest) -> calm_inv (p', [TStopping app id] ++ rest).
Proof.
  intros HI E Hph Hback p' HL HR. set (f := fun d => set_dep_status Failed (set_dep_end (Some message) now d)).
  assert (Hr : row_at p app id (phase_status ph)).
  { pose proof (calm_tasks _ HI) as HT. cbn in HT. rewrite E in HT. by apply Forall_cons in HT as [[Hr _] _]. }
  apply (calm_step (Some app) p p' ts (TJob app id ph)); try done.
  - apply (frame_update app id f); [done|by eapply row_at_impl, Hr|done|]. cbn. set_solver.
  - intros _. apply Forall_singleton. by apply (row_at_update app id f p p' (phase_status ph)).
  - intros a Hsv [= <-] _ Hs i d L A R. cbn in L. apply update_row_lookup in L as (d0 & L & Ed).
    destruct (bool_decide_reflect (i = id)); subst d; [done|]. destruct (Hs i d0 L A R) as [Hv|(t & Hin & Hc)]; [left; cbn; set_solver|].
    apply elem_of_cons in Hin as [->|Hin]; [left; cbn; specialize (Hback Hsv i Hc); set_solver|]. right. exists t. split; [by right|done].
Qed.

Lemma take_queued_hook_some app p target_ref p' : take_queued_hook app p = (Some target_ref, p') ->
  shutting_down p = false /\ queued_hooks p !! app = Some target_ref /\ p' = forget_queued_hook app p.
Proof.
  unfold take_queued_hook. destruct (shutting_down p); [done|]. destruct (queued_hooks p !! app); [|done]. by intros [= <- <-].
Qed.

Lemma rows_perm p ts ts' : ts ≡ₚ ts' -> rows_inv (p, ts) -> rows_inv (p, ts').
Proof. intros E H. apply (rows_tasks p ts); [done|]. by rewrite E. Qed.

(** The list of tasks may be read in another order. *)
Lemma calm_perm p ts ts' : ts ≡ₚ ts' -> calm_inv (p, ts) -> calm_inv (p, ts').
Proof.
  intros E [HL HR HT HS HC]. split; cbn in *; [by apply (exact_perm _ _ ts)|by apply (rows_perm p ts)|by rewrite <-E| |done].
  - intros Hsv app id d L A R. destruct (HS Hsv app id d L A R) as [?|(t & ? & ?)]; [by left|right]. exists t. by rewrite <-E.
Qed.

(** The labels that keep the invariant. *)
Definition calm_label (l : Label) : Prop := undisturbed l \/ (serving = false /\ l = LBroken).

Lemma undisturbed_not_free l : calm_label l -> l <> LFree.
Proof. by intros [[-> | ->]|[_ ->]]. Qed.

Ltac by_ok := let Hok := fresh "Hok" in intros Hok; apply Forall_singleton; first [exact Hok | exact I].

Lemma calm_inv_step st l st' : calm_label l -> calm_inv st -> pipeline_step st l st' -> calm_inv st'.
Proof.
  intros Hu HI Hs. pose proof (lock_inv_step _ _ _ (undisturbed_not_free _ Hu) (calm_locks _ HI) Hs) as HL.
  pose proof (rows_inv_step _ _ _ (calm_rows _ HI) Hs) as HR. pose proof (calm_rows _ HI) as Hrow. pose proof (calm_tasks _ HI) as HT.
  destruct Hs; cbn in HT; try (match goal with E : _ ≡ₚ _ :: _ |- _ => rewrite E in HT; apply Forall_cons in HT as [HT _] end).
  - by apply (calm_new p).
  - apply lock_app_some in H0 as [_ ->]. by apply (calm_quiet p _ ts (TDeploy app None k) [_]); try by_ok.
  - by apply (calm_leave p p ts (TDeploy app None k)).
  - unfold lock_or_queue_hook in H0. case_bool_decide; injection H0 as <- <-.
    + by apply (calm_leave p _ ts (TDeploy app (Some target_ref) k)).
    + by apply (calm_quiet p _ ts (TDeploy app (Some target_ref) k) [_]); try by_ok.
  - by apply (calm_quiet p _ ts (TLocked app WDeploy k) [_]); try by_ok.
  - apply (calm_insert p p' ts (TLocked app why k) [_] rest id d); try done; [by rewrite H2|]. intros _. apply Forall_singleton.
    apply insert_row_some in H3 as (_ & _ & ->). exists d. cbn. by rewrite lookup_insert_eq.
  - apply (calm_quiet p _ ts (TStored app id k) (TJob app id PStart :: continue k)); try done. intros Hr. constructor.
    + split; [apply (row_at_impl p app id (fun s => s = Queued)); [intros ? ->; by left|done]|]. by intros [?|[?|?]].
    + by destruct k as [|[? ?] ?]; repeat constructor.
  - by apply (calm_new p).
  - apply lock_app_some in H0 as [_ ->]. by apply (calm_new p).
  - by apply (calm_new p).
  - apply lock_app_some in H0 as [_ ->]. by apply (calm_quiet p _ ts (TDecide id app approve) [_]); try by_ok.
  - by apply (calm_approve p ts rest app id k now).
  - by apply (calm_reject p ts rest app id k).
  - by apply (calm_remove_containers p ts rest app k).
  - by apply (calm_delete p ts rest app).
  - by apply (calm_quiet p _ ts (TLocked app WDelete k) [_]); try by_ok.
  - destruct Hu as [[?|?]|[Hsv _]]; [done..|]. by apply (calm_delete_broken p ts).
  - apply (calm_leave p _ ts t _ []); try done; [by destruct t as [| | | | |? ? []| | | | | |]; try done; edestruct H1|unfold drop_task; by destruct (lock_of t)..].
  - by apply (calm_leave p _ ts (TLocked app why k)).
  - by apply (calm_leave p _ ts (TStored app id k)).
  - apply (calm_perm _ ([TJob app id PStart] ++ rest)); [by rewrite H|].
    apply (calm_job_status p _ ts rest app id PStart Building); try done; [by apply (exact_perm _ _ ts)|by apply (rows_perm _ ts)|].
    intros Hr. split; [apply (row_at_impl _ app id _ _) with (2 := Hr); intros ? ->; by right|by intros [?|[?|?]]].
  - by apply (calm_job_status p _ ts rest app id PStart Deploying (TJob app id PDeploying)); [..|intros Hr; split; [|intros [?|[?|?]]]].
  - apply (calm_perm _ ([TJob app id ph] ++ rest)); [by rewrite H|].
    apply (calm_recorded p ts); [done|done|by apply (exact_perm _ _ ts)|by apply (rows_perm _ ts)].
  - by apply (calm_healthy p ts).
  - by apply (calm_stop_old p ts).
  - by apply (calm_replaced p ts rest app id stopped).
  - by apply (calm_failed p ts rest app id ph).
  - apply (calm_replacing_failed p ts rest app id (PReplacing stopped)); try done. intros Hsv i [_ Hi]. case_bool_decide; [by subst|].
    destruct Hu as [[?|?]|[? _]]; congruence.
  - set (q := set_table (fail_deployment id Failed message now (table p)) p) in *.
    assert (Eq : q = restart_stopped ∅ q) by (unfold restart_stopped, set_live; rewrite union_empty_l_L; by destruct q).
    rewrite Eq in HL, HR |- *. apply (calm_replacing_failed p ts rest app id PReplaced); try done.
    intros Hsv. destruct Hu as [[?|?]|[? _]]; congruence.
  - by destruct Hu as [[?|?]|[_ ?]].
  - by apply calm_finish with (ts := ts) (ph := ph).
  - by apply calm_drained with (ts := ts).
  - exfalso. pose proof (calm_tokens _ HI) as Hc. cbn in Hc. set_solver.
  - by apply (calm_quiet p _ ts (TStopping app id) [_]); try by_ok.
  - by apply (calm_quiet p _ ts (TUnlocking app) [_]); try by_ok.
  - apply take_queued_hook_some in H0 as (_ & _ & ->). by apply (calm_quiet p _ ts (TQueue app k) [_]); try by_ok.
  - by apply (calm_leave p p ts (TQueue app k)).
  - apply (calm_insert p p' ts (TPend id d k) (continue k) rest id d); try done; [by rewrite H0|]. intros _. by destruct k as [|[? ?] ?]; repeat constructor.
  - by apply (calm_new p).
  - by destruct Hu as [[?|?]|[_ ?]].
  - case_bool_decide; by destruct Hu as [[?|?]|[_ ?]].
  - by destruct Hu as [[?|?]|[_ ?]].
  - apply (calm_restart now p ts); try done. intros Hsv. destruct (existsb is_away ts); [|done]. destruct Hu as [[?|?]|[? _]]; congruence.
Qed.
End Calm.


(** ** The moves of a status *)

(** The edges of the life of a deployment in undisturbed runs. *)
Definition moves (a b : DeploymentStatus) : bool :=
  bool_decide (a = b) ||
  match a, b with
  | PendingApproval, (Queued | Cancelled) | Queued, (Building | Deploying | Failed) | Building, (Deploying | Failed)
  | Deploying, (Running | Failed) | Running, Superseded => true
  | _, _ => false
  end.

(** The part of a row that no statement changes after its insertion. *)
Definition snapshot (d : Deployment) : ShortId * DeploymentTrigger * AppSpec * list (string * string * bool) * string :=
  (dep_app d, dep_trigger d, dep_spec d, dep_env d, dep_username d).

Definition rows_move (s s' : Store) : Prop :=
  forall id d d', s !! id = Some d -> s' !! id = Some d' -> snapshot d' = snapshot d /\ moves (dep_status d) (dep_status d') = true.

Lemma moves_refl a : moves a a = true.
Proof. unfold moves. by rewrite bool_decide_eq_true_2. Qed.

Lemma rows_move_refl s : rows_move s s.
Proof. intros id d d' L L'. replace d' with d by congruence. split; [done|apply moves_refl]. Qed.

Lemma rows_move_update f id s :
  (forall d, snapshot (f d) = snapshot d) ->
  (forall d, s !! id = Some d -> moves (dep_status d) (dep_status (f d)) = true) -> rows_move s (update_row f id s).
Proof.
  intros Hf Hm i d d' L L'. apply update_row_lookup in L' as (d0 & L0 & ->). replace d0 with d by congruence.
  destruct (bool_decide_reflect (i = id)) as [->|]; [by split; [|apply Hm]|]. split; [done|apply moves_refl].
Qed.

Lemma rows_move_at f app id p (q : DeploymentStatus -> Prop) :
  (forall d, snapshot (f d) = snapshot d) -> row_at p app id q ->
  (forall d, q (dep_status d) -> moves (dep_status d) (dep_status (f d)) = true) -> rows_move (table p) (update_row f id (table p)).
Proof. intros Hf (d0 & L & _ & Q) Hm. apply rows_move_update; [done|]. intros d Ld. apply Hm. by replace d with d0 by congruence. Qed.

Lemma rows_move_insert id d p p' : insert_row id d p = Some p' -> rows_move (table p) (table p').
Proof.
  intros H. apply insert_row_some in H as (_ & Hn & ->). cbn. intros i d1 d2 L L'. rewrite lookup_insert_ne in L' by congruence.
  by apply (rows_move_refl (table p) i).
Qed.

Lemma finish_snapshot app id now s i d d' :
  s !! i = Some d -> finish_deployment app id now s !! i = Some d' -> snapshot d' = snapshot d.
Proof.
  intros L L'. apply update_row_lookup in L' as (d0 & L0 & ->). rewrite supersede_lookup, L in L0. injection L0 as <-.
  destruct (bool_decide (i = id)); by destruct (_ && negb _).
Qed.

Lemma rows_move_finish app id now p :
  row_at p app id (fun s => s = Deploying) -> rows_move (table p) (finish_deployment app id now (table p)).
Proof.
  intros (d0 & L0 & A0 & Q) i d d' L L'. split; [by eapply finish_snapshot|]. apply finish_lookup in L' as (d1 & L1 & A1 & ->).
  replace d1 with d by congruence. destruct (bool_decide_reflect (i = id)) as [->|]; [by replace d with d0 by congruence; rewrite Q|].
  destruct (bool_decide_reflect (dep_app d = app)); [|apply moves_refl].
  destruct (bool_decide_reflect (dep_status d = Running)) as [E|]; [by rewrite E|apply moves_refl].
Qed.

Lemma rows_move_restart now s : rows_move s (fail_unfinished now s).
Proof.
  intros i d d' L L'. unfold fail_unfinished in L'. rewrite lookup_fmap, L in L'. injection L' as <-.
  destruct (left_unfinished (dep_status d)) eqn:E; [|split; [done|apply moves_refl]]. split; [done|]. by destruct (dep_status d).
Qed.

Lemma rows_move_pending f id s :
  (forall d, snapshot (f d) = snapshot d) -> (forall d, dep_status d = PendingApproval -> moves (dep_status d) (dep_status (f d)) = true) ->
  is_pending s id = true -> rows_move s (update_row f id s).
Proof.
  intros Hf Hm Hp. apply rows_move_update; [done|]. intros d L. rewrite (is_pending_status _ _ _ L) in Hp.
  apply bool_decide_eq_true in Hp. by apply Hm.
Qed.

Lemma rows_move_step p ts l p' ts' : uncancelled l -> calm_inv false (p, ts) -> pipeline_step (p, ts) l (p', ts') -> rows_move (table p) (table p').
Proof.
  intros Hu HI Hs. pose proof (calm_tasks _ _ HI) as HT. remember (p, ts) as st eqn:E. remember (p', ts') as st' eqn:E'.
  destruct Hs; injection E as -> ->; injection E' as <- <-; cbn in HT;
    try (match goal with E : _ ≡ₚ _ :: _ |- _ => rewrite E in HT; apply Forall_cons in HT as [HT _] end);
    try apply rows_move_refl.
  - apply lock_app_some in H0 as [_ ->]. apply rows_move_refl.
  - unfold lock_or_queue_hook in H0. case_bool_decide; injection H0 as <- <-; apply rows_move_refl.
  - by apply rows_move_insert in H3.
  - apply lock_app_some in H0 as [_ ->]. apply rows_move_refl.
  - apply lock_app_some in H0 as [_ ->]. apply rows_move_refl.
  - unfold approve_deployment in H0. destruct (is_pending (table p) id) eqn:Ep; [|done]. injection H0 as <-.
    apply rows_move_pending; [done| |done]. by intros d ->.
  - unfold reject_deployment. destruct (is_pending (table p) id) eqn:Ep; [|apply rows_move_refl].
    apply rows_move_pending; [done| |done]. by intros d ->.
  - intros i d d' L L'. apply map_lookup_filter_Some in L' as [L' _]. by apply (rows_move_refl (table p) i).
  - unfold drop_task. destruct (lock_of t); apply rows_move_refl.
  - destruct HT as [HT _]. by apply (rows_move_at (set_dep_status Building) app id p (phase_status PStart)); [|done|intros d [-> | ->]].
  - destruct HT as [HT _]. by apply (rows_move_at (set_dep_status Deploying) app id p (phase_status PStart)); [|done|intros d [-> | ->]].
  - apply rows_move_update; [done|]. intros d _. apply moves_refl.
  - destruct HT as [HT _]. assert (G : rows_move (table p) (fail_deployment id Failed message now (table p))).
    { apply (rows_move_at _ app id p (phase_status ph)); [done|done|]. intros d Q. destruct ph; [by destruct Q as [-> | ->]|by rewrite Q..|done]. }
    by destruct removed.
  - destruct HT as [HT _]. apply (rows_move_at _ app id p (phase_status (PReplacing stopped))); [done|done|]. intros d Q. by rewrite Q.
  - destruct HT as [HT _]. apply (rows_move_at _ app id p (phase_status PReplaced)); [done|done|]. intros d Q. by rewrite Q.
  - by destruct Hu as [[?|?]|?].
  - destruct HT as [HT _]. apply rows_move_finish. by destruct H0 as [-> | ->].
  - apply take_queued_hook_some in H0 as (_ & _ & ->). apply rows_move_refl.
  - by apply rows_move_insert in H1.
  - by destruct Hu as [[?|?]|?].
  - unfold finish_cancel, cancel_running_job. case_bool_decide; apply rows_move_refl.
  - apply rows_move_restart.
Qed.

(** A job that replaces the containers is one of a deployment that does so. *)
Definition replaces_inv (st : RunState) : Prop :=
  forall app id ph, TJob app id ph ∈ st.2 -> replacing ph = true -> exists d, table st.1 !! id = Some d /\ replaces_old (dep_spec d) = true.

Lemma replacing_from p ts l p' ts' app id ph :
  pipeline_step (p, ts) l (p', ts') -> TJob app id ph ∈ ts' -> replacing ph = true ->
  (exists ph', TJob app id ph' ∈ ts /\ replacing ph' = true) \/ (exists d, table p !! id = Some d /\ table p' = table p /\ replaces_old (dep_spec d) = true).
Proof.
  intros Hs. remember (p, ts) as st eqn:E. remember (p', ts') as st' eqn:E'.
  destruct Hs; injection E as -> ->; injection E' as <- <-;
    try (match goal with E : ts ≡ₚ _ :: ?rest |- _ => assert (Hrest : forall t, t ∈ rest -> t ∈ ts) by (intros t0 H0'; rewrite E; by right) end);
    try (destruct k as [|[? ?] k]); try (destruct got); cbn [continue Datatypes.app]; intros Hin Hr;
    repeat (match goal with H : TJob _ _ _ ∈ _ :: _ |- _ => apply elem_of_cons in H as [H|H] end);
    try (match goal with H : TJob _ _ _ = TJob _ _ _ |- _ => injection H as -> -> -> end); try discriminate;
    try (left; exists ph; split; [by auto|done]).
  - right. by exists d.
  - left. exists (PReplacing stopped). split; [rewrite H; by left|done].
  - by apply elem_of_nil in Hin.
Qed.

Lemma replaces_step st l st' : uncancelled l -> calm_inv false st -> calm_inv false st' -> pipeline_step st l st' -> replaces_inv st -> replaces_inv st'.
Proof.
  intros Hl HI HI' Hs Hr app id ph Hin Hph. destruct st as [p ts], st' as [p' ts'].
  pose proof (calm_tasks _ _ HI') as HT. cbn in *. rewrite Forall_forall in HT. destruct (HT _ Hin) as [(d' & L' & _) _].
  destruct (replacing_from _ _ _ _ _ _ _ _ Hs Hin Hph) as [(ph' & Hin' & Hph')|(d & L & Et & Hd)].
  - destruct (Hr app id ph' Hin' Hph') as (d & L & Hd). exists d'. split; [done|].
    destruct (rows_move_step p ts l p' ts' Hl HI Hs id d d' L L') as [Hsn _]. unfold snapshot in Hsn. injection Hsn as _ _ -> _ _. done.
  - exists d. by rewrite Et.
Qed.

(** ** Queued pushes *)

(** A queued push waits for a task that holds the app's lock, or that is about to run the queue. *)
Definition queue_inv (st : RunState) : Prop :=
  forall app, is_Some (queued_hooks st.1 !! app) -> app ∈ busy st.1 \/ exists k, TQueue app k ∈ st.2.

(** A task that is not about to run the queue is replaced. *)
Lemma queue_replace p p' ts t new rest :
  queue_inv (p, ts) -> ts ≡ₚ t :: rest -> (forall app k, t <> TQueue app k) ->
  queued_hooks p' = queued_hooks p -> busy p ⊆ busy p' -> queue_inv (p', new ++ rest).
Proof.
  intros HQ E Ht Eq Hb app Hs. cbn in *. rewrite Eq in Hs. destruct (HQ app Hs) as [Hin|[k Hin]]; [left; by apply Hb|].
  right. exists k. cbn in Hin. rewrite E in Hin. apply elem_of_cons in Hin as [He|Hin]; [by edestruct Ht|]. apply elem_of_app. by right.
Qed.

(** A lock is dropped by a task that runs the queue next. *)
Lemma queue_unlock p ts t k app rest :
  queue_inv (p, ts) -> ts ≡ₚ t :: rest -> (forall app k, t <> TQueue app k) -> queue_inv (drop_lock app p, TQueue app k :: rest).
Proof.
  intros HQ E Ht a Hs. cbn in *. destruct (decide (a = app)) as [->|Hne]; [right; exists k; by left|].
  destruct (HQ a Hs) as [Hin|[k' Hin]]; [left; cbn in Hin; set_solver|]. right. exists k'. cbn in Hin. rewrite E in Hin.
  apply elem_of_cons in Hin as [He|Hin]; [by edestruct Ht|]. by right.
Qed.

Lemma queue_new p p' ts t : queue_inv (p, ts) -> queued_hooks p' = queued_hooks p -> busy p ⊆ busy p' -> queue_inv (p', t :: ts).
Proof.
  intros HQ Eq Hb app Hs. cbn in *. rewrite Eq in Hs. destruct (HQ app Hs) as [Hin|[k Hin]]; [left; by apply Hb|]. right. exists k. by right.
Qed.

(** [run_queued_hook] takes the push of its app, or there is none. *)
Lemma queue_run p p' ts app k new rest :
  queue_inv (p, ts) -> ts ≡ₚ TQueue app k :: rest -> queued_hooks p' = delete app (queued_hooks p) -> busy p' = busy p ->
  queue_inv (p', new ++ rest).
Proof.
  intros HQ E Eq Eb a Hs. cbn in *. rewrite Eq in Hs. destruct Hs as [r Hs]. apply lookup_delete_Some in Hs as [Hne Hs].
  destruct (HQ a (mk_is_Some _ _ Hs)) as [Hin|[k' Hin]]; [left; by rewrite Eb|]. right. exists k'. cbn in Hin. rewrite E in Hin.
  apply elem_of_cons in Hin as [He|Hin]; [congruence|]. apply elem_of_app. by right.
Qed.

Lemma queue_inv_step st l st' : l <> LSkip -> l <> LFree -> queue_inv st -> pipeline_step st l st' -> queue_inv st'.
Proof.
  intros Hsk Hfr HQ Hs. destruct Hs; try done.
  - by apply (queue_new p).
  - apply lock_app_some in H0 as [_ ->]. apply (queue_replace p _ ts (TDeploy app None k) [_]); [done..|]. cbn. set_solver.
  - by apply (queue_replace p _ ts (TDeploy app None k)).
  - unfold lock_or_queue_hook in H0. case_bool_decide as Hb; injection H0 as <- <-.
    + intros a Ha. cbn in *. destruct (decide (a = app)) as [->|Hne]; [by left|]. rewrite lookup_insert_ne in Ha by done.
      by apply (queue_replace p p ts (TDeploy app (Some target_ref) k) (continue k) rest HQ H).
    + apply (queue_replace p _ ts (TDeploy app (Some target_ref) k) [_]); [done..|]. cbn. set_solver.
  - by apply (queue_unlock p ts (TLocked app WDeploy k)).
  - apply insert_row_some in H3 as (_ & _ & ->). by apply (queue_replace p _ ts (TLocked app why k) [_]).
  - by apply (queue_replace p _ ts (TStored app id k) (TJob app id PStart :: continue k)).
  - by apply (queue_new p).
  - apply lock_app_some in H0 as [_ ->]. apply (queue_new p); [done..|]. cbn. set_solver.
  - by apply (queue_new p).
  - apply lock_app_some in H0 as [_ ->]. apply (queue_replace p _ ts (TDecide id app approve) [_]); [done..|]. cbn. set_solver.
  - by apply (queue_replace p _ ts (TLocked app (WApprove id) k) [_]).
  - by apply (queue_replace p _ ts (TLocked app WDelete k) [_]).
  - intros a Ha. cbn in *. destruct Ha as [r Ha]. apply lookup_delete_Some in Ha as [Hne Ha].
    destruct (queue_replace p p ts (TDeleting app) [] rest HQ H ltac:(done) eq_refl ltac:(done) a (mk_is_Some _ _ Ha)) as [Hin|Hin];
      [left; cbn in Hin; set_solver|by right].
  - by apply (queue_unlock p ts (TLocked app WDelete k)).
  - by apply (queue_unlock p ts (TDeleting app)).
  - by apply (queue_replace p _ ts (TJob app id PStart) [_]).
  - by apply (queue_replace p _ ts (TJob app id PDeploying) [_]).
  - by apply (queue_replace p _ ts (TJob app id PDeploying) [_]).
  - by apply (queue_replace p _ ts (TJob app id (PReplacing stopped)) [_]).
  - apply (queue_replace p _ ts (TJob app id ph) [_]); try done; by destruct removed.
  - by apply (queue_replace p _ ts (TJob app id (PReplacing stopped)) [_]).
  - by apply (queue_replace p _ ts (TJob app id PReplaced) [_]).
  - by apply (queue_replace p _ ts (TJob app id ph) [_]).
  - by apply (queue_replace p _ ts (TJob app id PServing) [_]).
  - by apply (queue_replace p _ ts (TJob app id ph) [_]).
  - by apply (queue_replace p _ ts (TStopping app id) [_]).
  - by apply (queue_unlock p ts (TUnlocking app)).
  - apply take_queued_hook_some in H0 as (_ & _ & ->). by apply (queue_run p _ ts app k [_]).
  - destruct (shutting_down p) eqn:Esd; [done|]. unfold take_queued_hook in H0. rewrite Esd in H0.
    destruct (queued_hooks p !! app) eqn:Eq; [done|]. apply (queue_run p p ts app k); [done|done|by rewrite delete_id|done].
  - apply insert_row_some in H1 as (_ & _ & ->). by apply (queue_replace p _ ts (TPend id d k)).
  - by apply (queue_new p).
  - by apply (queue_replace p _ ts (TCancel id app) [_]).
  - case_bool_decide as Hc; [|done]. destruct (finish_cancel_frame id app p) as (_ & _ & Eb).
    apply (queue_replace p _ ts (TCancelStored id app) []); try done; [|by rewrite Eb].
    unfold finish_cancel, cancel_running_job. by rewrite bool_decide_eq_true_2.
  - intros a Ha. cbn in *. by destruct Ha.
Qed.

(** ** Runs *)

Lemma runs_mono (P Q : Label -> Prop) st : (forall l, P l -> Q l) -> runs P st -> runs Q st.
Proof. intros H R. induction R as [|st l st' R IH Hl Hs]; [constructor|]. by apply (runs_step Q st l); [|apply H|]. Qed.

Lemma runs_invariant (P : Label -> Prop) (I : RunState -> Prop) :
  I (empty_platform, []) -> (forall st l st', P l -> I st -> pipeline_step st l st' -> I st') -> forall st, runs P st -> I st.
Proof. intros H0 Hn st R. induction R as [|st l st' R IH Hl Hs]; [done|]. by apply (Hn st l). Qed.

Lemma runs_both (P : Label -> Prop) (I J : RunState -> Prop) :
  (forall st, runs P st -> J st) -> I (empty_platform, []) ->
  (forall st l st', P l -> J st -> J st' -> I st -> pipeline_step st l st' -> I st') -> forall st, runs P st -> I st.
Proof.
  intros HJ H0 Hstep st R. induction R as [|st l st' R IH Hl Hs]; [done|]. apply (Hstep st l); try done; [by apply HJ|].
  apply HJ. by apply (runs_step P st l).
Qed.

Lemma empty_locks : lock_inv (empty_platform, []).
Proof. split; [constructor|done]. Qed.

Lemma empty_rows : rows_inv (empty_platform, []).
Proof. split_and!; [done|by intros ? ? ? ? ?|constructor]. Qed.

Lemma runs_locks P st : (forall l, P l -> l <> LFree) -> runs P st -> lock_inv st.
Proof. intros HP. apply runs_invariant; [apply empty_locks|]. intros s l s' Hl. by apply lock_inv_step, HP. Qed.

Lemma runs_rows P st : runs P st -> rows_inv st.
Proof. apply runs_invariant; [apply empty_rows|]. intros s l s' _. by apply rows_inv_step. Qed.

Lemma runs_calm serving (P : Label -> Prop) st : (forall l, P l -> calm_label serving l) -> runs P st -> calm_inv serving st.
Proof.
  intros HP. apply runs_invariant.
  - split; [apply empty_locks|apply empty_rows|constructor|by intros _ a i d L|done].
  - intros s l s' Hl. apply calm_inv_step. by apply HP.
Qed.

Definition take_lock (app : AppId) (p : Platform) : Platform := set_busy ({[app]} ∪ busy p) p.
Definition add_row (id : ShortId) (d : Deployment) (p : Platform) : Platform :=
  mkPlatform (<[id := d]> (table p)) ({[id]} ∪ used_ids p) (busy p) (queued_hooks p) (cancellations p) (cancelled_tokens p)
    (shutting_down p) (live p).

Lemma lock_app_free app p : app ∉ busy p -> lock_app app p = Some (take_lock app p).
Proof. intros H. unfold lock_app. by rewrite bool_decide_eq_false_2. Qed.

Lemma insert_row_new id d p : id ∉ used_ids p -> table p !! id = None -> insert_row id d p = Some (add_row id d p).
Proof. intros H Hn. unfold insert_row, insert_deployment. by rewrite bool_decide_eq_false_2, Hn. Qed.

(** A request stores a deployment under the lock. *)
Lemma run_store (P : Label -> Prop) p ts app id d hour minute :
  P LStep -> app ∉ busy p -> id ∉ used_ids p -> dep_app d = app -> dep_status d = Queued -> needs_approval (dep_spec d) hour minute = None ->
  runs P (p, ts) -> runs P (add_row id d (take_lock app p), TStored app id [] :: ts).
Proof.
  intros HP Hb Hu Ha Hq Hn R.
  assert (table p !! id = None) as Hid.
  { apply not_elem_of_dom. destruct (runs_rows P _ R) as (Hd & _). cbn in Hd. set_solver. }
  eapply (runs_step P _ LStep), (ps_store (take_lock app p) _ (TLocked app WDeploy [] :: ts) ts app WDeploy [] id d); try done; [| |by apply insert_row_new].
  - eapply (runs_step P _ LStep), (ps_lock p _ (TDeploy app None [] :: ts) ts app []); [|done|done|by apply lock_app_free]. by eapply (runs_step P _ LStep), ps_request.
  - right. split; [done|by exists hour, minute].
Qed.

(** The job of a stored deployment up to its healthy container. *)
Definition healthy_state (app : AppId) (id : ShortId) (p : Platform) : Platform :=
  let p1 := register_cancellation id p in
  add_container app id (set_table (set_status id Deploying (table p1)) p1).

Lemma run_healthy (P : Label -> Prop) p ts app id :
  P LStep -> runs P (p, TStored app id [] :: ts) -> runs P (healthy_state app id p, TJob app id PHealthy :: ts).
Proof.
  intros HP R. eapply (runs_step P _ LStep), (ps_healthy _ _ ts app id); [|done|done].
  eapply (runs_step P _ LStep), (ps_deploying _ _ ts app id); [|done|done]. by eapply (runs_step P _ LStep), (ps_spawn _ _ ts app id []).
Qed.

(** The end of a deployment: the switch, the drain, and the lock. *)
Definition served_state (app : AppId) (id : ShortId) (now : Z) (p : Platform) : Platform :=
  set_table (finish_deployment app id now (table p)) p.

Lemma run_finish (P : Label -> Prop) p ts app id now :
  P LStep -> runs P (p, TJob app id PHealthy :: ts) -> runs P (served_state app id now p, TJob app id PServing :: ts).
Proof. intros HP R. eapply (runs_step P _ LStep), (ps_finish _ _ ts app id PHealthy); [done|done|done|by left]. Qed.

Lemma run_end (P : Label -> Prop) p ts app id :
  P LStep -> runs P (p, TJob app id PServing :: ts) ->
  runs P (drop_lock app (remove_cancellation id (remove_old app id ∅ p)), TQueue app [] :: ts).
Proof.
  intros HP R. eapply (runs_step P _ LStep), (ps_unlock _ _ ts app); [|done|done].
  eapply (runs_step P _ LStep), (ps_remove_token _ _ ts app id); [|done|done]. by eapply (runs_step P _ LStep), (ps_drained _ _ ts app id).
Qed.

(** ** The properties *)

(** C8: While nothing but the holder of a lock gives it back, the busy apps are exactly the apps
    whose lock a task holds, and no two tasks work on one app: a second deployment, backup or
    deletion of an app never runs next to the first. *)
Theorem one_task_of_an_app (P : Label -> Prop) p ts :
  (forall l, P l -> l <> LFree) -> runs P (p, ts) ->
  NoDup (omap lock_of ts) /\ forall app, app ∈ busy p <-> exists t, t ∈ ts /\ lock_of t = Some app.
Proof.
  intros HP R. pose proof (runs_locks P _ HP R) as HL. split; [by destruct HL|]. intros app. split; [by apply exact_member|].
  intros (t & Hin & Ht). apply list_elem_of_split in Hin as (l1 & l2 & ->).
  apply (exact_held lock_of (busy p) t app (l1 ++ l2)); [|done]. apply (exact_perm _ _ (l1 ++ t :: l2)); [|done].
  symmetry. apply Permutation_middle.
Qed.

(** C12: However deployments, cancellations, shutdowns and restarts interleave, at most one
    deployment of an app is recorded as running. *)
Theorem one_running_deployment (P : Label -> Prop) p ts id1 id2 d1 d2 :
  runs P (p, ts) -> table p !! id1 = Some d1 -> table p !! id2 = Some d2 ->
  dep_status d1 = Running -> dep_status d2 = Running -> dep_app d1 = dep_app d2 -> id1 = id2.
Proof. intros R. destruct (runs_rows P _ R) as (_ & Ho & _). by apply Ho. Qed.



(** C24: A push that came while its app was busy is not lost: as long as no lock ends without running
    the queue, the app is still busy or a task is about to take the push. *)
Theorem queued_push_waits_for_a_task (P : Label -> Prop) p ts app target_ref :
  (forall l, P l -> l <> LSkip /\ l <> LFree) -> runs P (p, ts) -> queued_hooks p !! app = Some target_ref ->
  app ∈ busy p \/ exists k, TQueue app k ∈ ts.
Proof.
  intros HP R Hq. enough (HQ : queue_inv (p, ts)) by (by apply HQ; cbn; rewrite Hq).
  revert R. apply runs_invariant; [by intros a [r Ha]|]. intros s l s' Hl. by apply queue_inv_step; apply HP.
Qed.

(** C23: In every reachable state a deployment of a free app can run to its end: its steps end with
    its row running and its container alive, the lock given back and the queue about to run. *)
Theorem free_app_can_be_deployed (P : Label -> Prop) p ts app id d (hour minute now : Z) :
  P LStep -> runs P (p, ts) -> app ∉ busy p -> id ∉ used_ids p ->
  dep_app d = app -> dep_status d = Queued -> needs_approval (dep_spec d) hour minute = None ->
  exists p', runs P (p', TQueue app [] :: ts) /\ app ∉ busy p'
    /\ (forall other, running_of app (table p') other <-> other = id) /\ (app, id) ∈ live p'
    /\ (forall other d', table p !! other = Some d' -> dep_app d' <> app -> table p' !! other = Some d').
Proof.
  intros HP R Hb Hu Ha Hq Hn.
  pose proof (run_end P _ ts app id HP (run_finish P _ ts app id now HP (run_healthy P _ ts app id HP
    (run_store P p ts app id d hour minute HP Hb Hu Ha Hq Hn R)))) as R'.
  eexists. split; [exact R'|]. set (s := table (healthy_state app id (add_row id d (take_lock app p)))).
  assert (s !! id = Some (set_dep_status Deploying d)) as Ls.
  { unfold s. cbn. unfold set_status, update_row. by rewrite lookup_alter_eq, lookup_insert_eq. }
  destruct (finish_deployment_exact app id now s (set_dep_status Deploying d) Ls Ha) as [Hr Ho]. split_and!.
  - cbn. set_solver.
  - exact Hr.
  - cbn. apply elem_of_filter. split; [by left|]. set_solver.
  - intros other d' L Hne. apply Ho; [|done]. unfold s. cbn. unfold set_status, update_row.
    assert (other <> id). { intros ->. destruct (runs_rows P _ R) as (Hd & _). apply elem_of_dom_2 in L. cbn in Hd. set_solver. }
    by rewrite lookup_alter_ne, lookup_insert_ne by done.
Qed.

(** ** Runs of an example *)

Definition shop : AppId := [7].
Definition first_id : ShortId := [1].
Definition second_id : ShortId := [2].
Definition shop_deployment : Deployment := new_deployment shop TManual "ann" (plain_spec (SImage "nginx:1.27")) [] 5.

(** The first deployment of the shop, at four moments. *)
Definition stored1 : Platform := add_row first_id shop_deployment (take_lock shop empty_platform).
Definition healthy1 : Platform := healthy_state shop first_id stored1.
Definition serving1 : Platform := served_state shop first_id 9 healthy1.

Lemma run_stored1 P : P LStep -> runs P (stored1, [TStored shop first_id []]).
Proof. intros HP. by apply (run_store P empty_platform [] shop first_id shop_deployment 0 0); [..|constructor]. Qed.

Lemma run_healthy1 P : P LStep -> runs P (healthy1, [TJob shop first_id PHealthy]).
Proof. intros HP. by apply run_healthy, run_stored1. Qed.

Lemma run_serving1 P : P LStep -> runs P (serving1, [TJob shop first_id PServing]).
Proof. intros HP. by apply run_finish, run_healthy1. Qed.

(** A push while the first deployment runs waits in the queue. *)
Definition pushed1 : Platform := set_queued {[shop := Some "main"]} serving1.

Lemma run_pushed1 P : P LStep -> runs P (pushed1, [TJob shop first_id PServing]).
Proof.
  intros HP. eapply (runs_step P _ LStep), (ps_push serving1 pushed1 [TDeploy shop (Some (Some "main")) []; TJob shop first_id PServing]
    [TJob shop first_id PServing] shop (Some "main") [] false); [|done|done|by vm_compute].
  eapply (runs_step P _ LStep), ps_request; [by apply run_serving1|done].
Qed.

Lemma one_task_of_an_app_witness :
  NoDup (omap lock_of [TJob shop first_id PServing])
  /\ forall app, app ∈ busy serving1 <-> exists t, t ∈ [TJob shop first_id PServing] /\ lock_of t = Some app.
Proof. apply (one_task_of_an_app (fun l => l = LStep)); [by intros l ->|by apply run_serving1]. Defined.

Lemma one_running_deployment_witness :
  (dep_status <$> table serving1 !! first_id) = Some Running /\ first_id = first_id.
Proof.
  split; [by vm_compute|].
  apply (one_running_deployment (fun l => l = LStep) serving1 [TJob shop first_id PServing] first_id first_id
           (set_dep_status Running (set_dep_end None 9 (set_dep_status Deploying shop_deployment)))
           (set_dep_status Running (set_dep_end None 9 (set_dep_status Deploying shop_deployment))));
    [by apply run_serving1|by vm_compute..].
Defined.



Lemma queued_push_waits_for_a_task_witness :
  queued_hooks pushed1 !! shop = Some (Some "main")
  /\ (shop ∈ busy pushed1 \/ exists k, TQueue shop k ∈ [TJob shop first_id PServing]).
Proof.
  split; [by vm_compute|].
  apply (queued_push_waits_for_a_task (fun l => l = LStep) pushed1 [TJob shop first_id PServing] shop (Some "main"));
    [by intros l ->|by apply run_pushed1|by vm_compute].
Defined.

Lemma free_app_can_be_deployed_witness :
  exists p', runs (fun l => l = LStep) (p', [TQueue shop []]) /\ shop ∉ busy p'
    /\ (forall other, running_of shop (table p') other <-> other = first_id) /\ (shop, first_id) ∈ live p'
    /\ (forall other d', (∅ : Store) !! other = Some d' -> dep_app d' <> shop -> table p' !! other = Some d').
Proof.
  apply (free_app_can_be_deployed (fun l => l = LStep) empty_platform [] shop first_id shop_deployment 0 0 9);
    [done|constructor|set_solver|set_solver|done|done|by vm_compute].
Defined.

(** ** What goes wrong in the other runs *)

(** A cancellation of a deployment whose job is not yet spawned finds no token, and
    [cancel_deployment] frees the app although the handler of the deployment holds its lock.  The
    next request locks the app again, and both handlers spawn their jobs: two jobs of one app. *)
Lemma cancel_frees_a_lock_in_use : exists p,
  runs (fun l => l <> LShutdown) (p, [TJob shop first_id PStart; TJob shop second_id PStart]).
Proof.
  set (P := fun l => l <> LShutdown).
  set (p1 := set_table (fail_deployment first_id Cancelled "Cancelled by ann" 6 (table stored1)) stored1).
  set (p2 := finish_cancel first_id shop p1).
  assert (R : runs P (p2, [TStored shop first_id []])).
  { eapply (runs_step P (p1, [TCancelStored first_id shop; TStored shop first_id []]) LFree); [|done|].
    2: { exact (ps_cancel p1 [TCancelStored first_id shop; TStored shop first_id []] [TStored shop first_id []] first_id shop (reflexivity _)). }
    eapply (runs_step P (stored1, [TCancel first_id shop; TStored shop first_id []]) LCancel); [|done|by apply ps_cancel_store].
    eapply (runs_step P _ LStep); [by apply run_stored1|done|by apply (ps_cancel_read stored1 _ first_id shop_deployment); vm_compute]. }
  apply (run_store P p2 _ shop second_id shop_deployment 0 0) in R;
    [|done|by refine (bool_decide_unpack _ _); vm_compute|by refine (bool_decide_unpack _ _); vm_compute|done|done|by vm_compute].
  set (p3 := add_row second_id shop_deployment (take_lock shop p2)) in *. set (p4 := register_cancellation second_id p3).
  exists (register_cancellation first_id p4). apply (runs_step P (p4, [TJob shop second_id PStart; TStored shop first_id []]) LStep); [|done|].
  - apply (runs_step P _ LStep _ R); [done|]. by apply (ps_spawn p3 _ [TStored shop first_id []] shop second_id []).
  - apply (ps_spawn p4 _ [TJob shop second_id PStart] shop first_id []). constructor.
Qed.

(** A job drains the old containers after its deployment is recorded as running, and a shutdown in
    these seconds cancels it: the new container is removed and the row still says [Running]. *)
Lemma shutdown_removes_the_serving_container : exists p ts,
  runs (fun l => l = LStep \/ l = LShutdown) (p, ts)
  /\ (dep_status <$> table p !! first_id) = Some Running /\ live p = ∅ /\ ts = [TStopping shop first_id].
Proof.
  set (P := fun l => l = LStep \/ l = LShutdown). do 2 eexists. split.
  - eapply (runs_step P _ LStep); [|by left|].
    2: { apply (ps_cancelled (begin_shutdown serving1) [TJob shop first_id PServing] [] shop first_id PServing); [done|].
         by refine (bool_decide_unpack _ _); vm_compute. }
    eapply (runs_step P _ LShutdown); [|by right|apply ps_shutdown]. apply run_serving1. by left.
  - split_and!; by vm_compute.
Qed.

(** A cancellation that is stored just before its job records the success is lost: the row ends as
    [Running], and the token that is cancelled next makes the job remove the container. *)
Lemma cancellation_is_overwritten : exists p ts,
  runs (fun l => l = LStep \/ l = LCancel) (p, ts)
  /\ (dep_status <$> table p !! first_id) = Some Running /\ live p = ∅ /\ ts = [TStopping shop first_id].
Proof.
  set (P := fun l => l = LStep \/ l = LCancel).
  set (p1 := set_table (fail_deployment first_id Cancelled "Cancelled by ann" 6 (table healthy1)) healthy1).
  set (p2 := served_state shop first_id 9 p1). set (p3 := finish_cancel first_id shop p2).
  do 2 eexists. split.
  - eapply (runs_step P _ LStep); [|by left|].
    2: { apply (ps_cancelled p3 [TJob shop first_id PServing] [] shop first_id PServing); [done|].
         by refine (bool_decide_unpack _ _); vm_compute. }
    eapply (runs_step P (p2, [TJob shop first_id PServing; TCancelStored first_id shop]) LCancel); [|by right|].
    2: { exact (ps_cancel p2 [TJob shop first_id PServing; TCancelStored first_id shop] [TJob shop first_id PServing] first_id shop (perm_swap _ _ _)). }
    eapply (runs_step P _ LStep); [|by left|].
    2: { apply (ps_finish p1 [TCancelStored first_id shop; TJob shop first_id PHealthy] [TCancelStored first_id shop] shop first_id PHealthy 9); [constructor|by left]. }
    eapply (runs_step P _ LCancel); [|by right|].
    2: { by apply (ps_cancel_store healthy1 [TCancel first_id shop; TJob shop first_id PHealthy] [TJob shop first_id PHealthy] first_id shop). }
    eapply (runs_step P _ LStep); [apply run_healthy1; by left|by left|].
    by apply (ps_cancel_read healthy1 _ first_id (set_dep_status Deploying shop_deployment)); vm_compute.
  - split_and!; by vm_compute.
Qed.

(** A push that comes during a backup is queued, and the backup gives the lock back without a look
    at the queue: the push waits for the next deployment of the app. *)
Lemma push_during_a_backup_waits : exists p,
  runs (fun l => l = LStep \/ l = LSkip) (p, []) /\ queued_hooks p !! shop = Some (Some "main") /\ busy p = ∅.
Proof.
  set (P := fun l => l = LStep \/ l = LSkip). set (p1 := take_lock shop empty_platform).
  set (p2 := set_queued {[shop := Some "main"]} p1). exists (drop_lock shop p2). split; [|split; by vm_compute].
  eapply (runs_step P _ LSkip); [|by right|apply (ps_failed p2 [TLocked shop WOther []] [] shop WOther [])]; [|done].
  eapply (runs_step P _ LStep); [|by left|].
  2: { by apply (ps_push p1 p2 [TDeploy shop (Some (Some "main")) []; TLocked shop WOther []] [TLocked shop WOther []] shop (Some "main") [] false). }
  eapply (runs_step P _ LStep); [|by left|apply ps_request].
  eapply (runs_step P _ LStep); [apply runs_start|by left|]. apply ps_lock_for; [by right; left|by vm_compute].
Qed.

(** A handler that its client leaves after the row is stored drops its lock and spawns no job: the
    row stays queued until the next start. *)
Lemma left_handler_strands_its_row : exists p,
  runs undisturbed (p, []) /\ (dep_status <$> table p !! first_id) = Some Queued /\ busy p = ∅.
Proof.
  exists (drop_lock shop stored1). split; [|split; by vm_compute].
  eapply (runs_step _ _ LSkip); [apply run_stored1; by left|by right|].
  by apply (ps_left stored1 [TStored shop first_id []] [] (TStored shop first_id [])).
Qed.

(** A spec with a port of the host. *)
Definition port_spec : AppSpec :=
  mkAppSpec (SImage "nginx:1.27") 80 [] [] None [] RestartPolicy_default empty_limits (Some 8080) None None None false false None None None [] None
    None None None [] None None None false false None None true None.
Definition port_deployment : Deployment := new_deployment shop TManual "ann" port_spec [] 5.

(** The second deployment of the shop while it replaces the container of the first. *)
Definition ended1 : Platform := drop_lock shop (remove_cancellation first_id (remove_old shop first_id ∅ serving1)).
Definition stored2 : Platform := add_row second_id port_deployment (take_lock shop ended1).
Definition deploying2 : Platform :=
  let p := register_cancellation second_id stored2 in set_table (set_status second_id Deploying (table p)) p.
Definition replacing2 : Platform := stop_old shop ∅ deploying2.

Lemma run_replacing2 P : P LStep -> runs P (replacing2, [TJob shop second_id (PReplacing {[(shop, first_id)]})]).
Proof.
  intros HP. assert (E : stoppable shop ∅ deploying2 = {[(shop, first_id)]}) by (by apply (bool_decide_unpack _); vm_compute).
  assert (R : runs P (ended1, [])).
  { eapply (runs_step P _ LStep); [apply (run_end P serving1 [] shop first_id HP), run_serving1; done|done|].
    apply (ps_no_queue ended1 [TQueue shop []] [] shop []); [done|by vm_compute]. }
  apply (run_store P ended1 [] shop second_id port_deployment 0 0) in R;
    [|done|by apply (bool_decide_unpack _); vm_compute|by apply (bool_decide_unpack _); vm_compute|done|done|by vm_compute].
  rewrite <-E. eapply (runs_step P _ LStep); [|done|by apply (ps_stop_old deploying2 [TJob shop second_id PDeploying] [] shop second_id (set_dep_status Deploying port_deployment) ∅); [..|vm_compute]].
  eapply (runs_step P _ LStep); [|done|by apply (ps_deploying (register_cancellation second_id stored2) [TJob shop second_id PStart] [] shop second_id)].
  eapply (runs_step P _ LStep); [exact R|done|]. by apply (ps_spawn stored2 [TStored shop second_id []] [] shop second_id []).
Qed.

(** A deployment that is cancelled, or cut by a restart, after it stopped the old containers does not
    start them again: the running deployment has no container, and no task that would bring it back. *)
Lemma interrupted_replacement_stops_the_app :
  (exists p, runs (fun l => l <> LShutdown) (p, [TStopping shop second_id])
             /\ (dep_status <$> table p !! first_id) = Some Running /\ live p = ∅)
  /\ (exists p, runs (fun l => l <> LShutdown /\ l <> LCancel) (p, [])
               /\ (dep_status <$> table p !! first_id) = Some Running /\ live p = ∅).
Proof.
  split.
  - set (P := fun l => l <> LShutdown). set (t := TJob shop second_id (PReplacing {[(shop, first_id)]})).
    set (p1 := set_table (fail_deployment second_id Cancelled "Cancelled by ann" 20 (table replacing2)) replacing2).
    set (p2 := finish_cancel second_id shop p1). exists (remove_container shop second_id p2). split; [|split; by vm_compute].
    eapply (runs_step P _ LStep); [|done|].
    2: { apply (ps_cancelled p2 [t] [] shop second_id (PReplacing {[(shop, first_id)]})); [done|]. by apply (bool_decide_unpack _); vm_compute. }
    eapply (runs_step P (p1, [TCancelStored second_id shop; t]) LCancel); [|done|exact (ps_cancel p1 [TCancelStored second_id shop; t] [t] second_id shop (reflexivity _))].
    eapply (runs_step P (replacing2, [TCancel second_id shop; t]) LCancel); [|done|by apply (ps_cancel_store replacing2 [TCancel second_id shop; t] [t])].
    eapply (runs_step P _ LStep); [by apply run_replacing2|done|].
    by apply (ps_cancel_read replacing2 _ second_id (set_dep_status Deploying port_deployment)); vm_compute.
  - set (P := fun l => l <> LShutdown /\ l <> LCancel). exists (restart 30 replacing2). split; [|split; by vm_compute].
    eapply (runs_step P _ LBroken); [by apply run_replacing2|done|]. apply (ps_restart replacing2 [TJob shop second_id (PReplacing {[(shop, first_id)]})] 30).
Qed.

(** A rollback of Compose without the checkout of the running deployment sets its row to [Building]:
    the app is served, and no deployment of it is recorded as running. *)
Lemma compose_rollback_unsets_running : exists p ts,
  runs (fun l => l = LStep \/ l = LRebuilt) (p, ts) /\ (dep_status <$> table p !! first_id) = Some Building
  /\ ts = [TStopping shop second_id] /\ live p = {[(shop, first_id)]}.
Proof.
  set (P := fun l => l = LStep \/ l = LRebuilt). set (t := TJob shop second_id (PReplacing {[(shop, first_id)]})).
  set (p1 := set_table (set_status first_id Building (table replacing2)) replacing2).
  exists (restart_stopped {[(shop, first_id)]} (set_table (fail_deployment second_id Failed "unhealthy" 20 (table p1)) p1)), [TStopping shop second_id].
  split; [|split_and!; [by vm_compute|done|by apply (bool_decide_unpack _); vm_compute]].
  eapply (runs_step P (p1, [t]) LStep); [|by left|].
  - eapply (runs_step P _ LRebuilt); [apply run_replacing2; by left|by right|].
    apply (ps_rollback_rebuilt replacing2 [t] [] shop second_id {[(shop, first_id)]} first_id
             (set_dep_status Running (set_dep_end None 9 (set_dep_status Deploying shop_deployment)))); [done|by vm_compute..].
  - pose proof (ps_replacing_failed p1 [t] [] shop second_id {[(shop, first_id)]} {[(shop, first_id)]} "unhealthy" 20 ltac:(done) ltac:(done)) as H.
    by rewrite bool_decide_true in H.
Qed.
