(* ===== verification/HeaderRules.v ===== *)
(** * Header rules and the trace context

    [header_rules.rs] of the API crate: the rules that an administrator writes, their templates,
    and the text form that the forms of the web UI read and write;
    [proxy/http/header_rules.rs]: the rules of a route on the headers of a request or a response;
    and [proxy/http/trace.rs]: the identifier of a request and its W3C trace context. *)

From Stdlib Require Import Ascii.
From stdpp Require Import strings.
From S2P Require Import Prelude Basics IpText Net Policy Headers Containers EnvFiles.

(** ** Rules *)

Definition PROTECTED_HEADERS : list string :=
  ["connection"; "content-length"; "host"; "keep-alive"; "proxy-connection"; "te"; "trailer"; "transfer-encoding"; "upgrade"].

Inductive HeaderRule : Type :=
| RSet (name value : string)
| RAppend (name value : string)
| RRemove (name : string).

#[export] Instance HeaderRule_eq_dec : EqDecision HeaderRule.
Proof. solve_decision. Defined.

Record HeaderRules : Type := mkHeaderRules { hr_request : list HeaderRule; hr_response : list HeaderRule }.

Definition rule_name (r : HeaderRule) : string := match r with RSet n _ | RAppend n _ | RRemove n => n end.

Inductive HeaderVariable : Type :=
| ClientIp | Host | Scheme | RequestId | RouteVar | ClientCertSubject | ClientCertFingerprint.

#[export] Instance HeaderVariable_eq_dec : EqDecision HeaderVariable.
Proof. solve_decision. Defined.

Definition ALL_VARIABLES : list HeaderVariable :=
  [ClientIp; Host; Scheme; RequestId; RouteVar; ClientCertSubject; ClientCertFingerprint].

Definition variable_name (v : HeaderVariable) : string :=
  match v with
  | ClientIp => "client_ip" | Host => "host" | Scheme => "scheme" | RequestId => "request_id" | RouteVar => "route"
  | ClientCertSubject => "client_cert_subject" | ClientCertFingerprint => "client_cert_fingerprint"
  end.

Inductive TemplatePart : Type := TLiteral (text : string) | TVariable (v : HeaderVariable).

#[export] Instance TemplatePart_eq_dec : EqDecision TemplatePart.
Proof. solve_decision. Defined.

Definition variable_named (name : string) : option HeaderVariable :=
  find (fun v => String.eqb (variable_name v) name) ALL_VARIABLES.

(** ** Templates *)

(** [s.chars().any(|c| c.is_control() && c != TAB)], on the UTF-8 bytes. *)
Fixpoint has_control_but_tab (s : string) : bool :=
  match s with
  | EmptyString => false
  | String a r =>
      ((byte_of a <? 32) && negb (byte_of a =? 9)) || (byte_of a =? 127)
      || (match r with
          | String b _ => (byte_of a =? 194) && (128 <=? byte_of b) && (byte_of b <=? 159)
          | EmptyString => false
          end)
      || has_control_but_tab r
  end.

Definition is_brace (c : ascii) : bool := Ascii.eqb c "{" || Ascii.eqb c "}".

(** [find] with [split_at]: the text before the first brace, and the rest from it. *)
Fixpoint split_at_brace (s : string) : option (string * string) :=
  match s with
  | EmptyString => None
  | String c r =>
      if is_brace c then Some (EmptyString, s)
      else match split_at_brace r with Some (a, b) => Some (String c a, b) | None => None end
  end.

Definition push_literal (parts : list TemplatePart) (literal : string) : list TemplatePart :=
  if str_is_empty literal then parts else parts ++ [TLiteral literal].

(** The rest after the brace, the parts and the literal. *)
Definition parse_brace (value tail : string) (parts : list TemplatePart) (literal : string)
  : result (string * list TemplatePart * string) Error :=
  if starts_with "{{" tail || starts_with "}}" tail then
    match tail with
    | String c (String _ rest) => Ok (rest, parts, String.append literal (String c EmptyString))
    | _ => Err (InvalidHeaderValue value)
    end
  else
    match tail with
    | String "{" inner =>
        match split_once "}" inner with
        | Some (name, after) =>
            match variable_named name with
            | Some v => Ok (after, push_literal parts literal ++ [TVariable v], EmptyString)
            | None => Err (InvalidHeaderValue value)
            end
        | None => Err (InvalidHeaderValue value)
        end
    | _ => Err (InvalidHeaderValue value)
    end.

(** The loop; every turn takes at least one byte. *)
Fixpoint template_loop (fuel : nat) (value rest : string) (parts : list TemplatePart) (literal : string)
  : result (list TemplatePart) Error :=
  match fuel with
  | O => Err (InvalidHeaderValue value)
  | S f =>
      match split_at_brace rest with
      | None => Ok (push_literal parts (String.append literal rest))
      | Some (text, tail) =>
          let? next := parse_brace value tail parts (String.append literal text) in
          let '(rest, parts, literal) := next in
          template_loop f value rest parts literal
      end
  end.

Definition parse_header_template (value : string) : result (list TemplatePart) Error :=
  if has_control_but_tab value then Err (InvalidHeaderValue value)
  else template_loop (S (String.length value)) value value [] EmptyString.

(** ** Validation and text *)

Definition rule_validate (r : HeaderRule) : result unit Error :=
  let name := rule_name r in
  if negb (is_header_name name) then Err (InvalidHeaderName name)
  else if existsb (fun p => eq_ignore_ascii_case p name) PROTECTED_HEADERS then Err (ProtectedHeader name)
  else match r with
       | RSet _ value | RAppend _ value => let? _ := parse_header_template value in Ok tt
       | RRemove _ => Ok tt
       end.

Fixpoint validate_all (rules : list HeaderRule) : result unit Error :=
  match rules with
  | [] => Ok tt
  | r :: rest => let? _ := rule_validate r in validate_all rest
  end.

Definition HeaderRules_validate (r : HeaderRules) : result unit Error := validate_all (hr_request r ++ hr_response r).

Definition default_frame_protection : HeaderRules :=
  mkHeaderRules [] [RSet "X-Frame-Options" "SAMEORIGIN"; RSet "Content-Security-Policy" "frame-ancestors 'self'"].

(** [split_once(char::is_whitespace)], on the UTF-8 bytes. *)
Fixpoint split_once_whitespace (s : string) : option (string * string) :=
  let keep a o := match o with Some (x, y) => Some (String a x, y) | None => None end in
  match s with
  | EmptyString => None
  | String a r =>
      if is_ws1 a then Some (EmptyString, r)
      else match r with
           | EmptyString => None
           | String b r2 =>
               if is_ws2 a b then Some (EmptyString, r2)
               else match r2 with
                    | EmptyString => keep a (split_once_whitespace r)
                    | String c r3 => if is_ws3 a b c then Some (EmptyString, r3) else keep a (split_once_whitespace r)
                    end
           end
  end.

Definition rule_parse_line (line : string) : result HeaderRule Error :=
  let line := trim line in
  let invalid := InvalidHeaderRule line in
  match split_once_whitespace line with
  | None => Err invalid
  | Some (action, rest) =>
      let action := to_ascii_lowercase action in
      let? rule :=
        (if String.eqb action "remove" then Ok (RRemove (trim rest))
         else match split_once ":" rest with
              | None => Err invalid
              | Some (name, value) =>
                  if String.eqb action "set" then Ok (RSet (trim name) (trim value))
                  else if String.eqb action "append" then Ok (RAppend (trim name) (trim value))
                  else Err invalid
              end) in
      let? _ := rule_validate rule in
      Ok rule
  end.

Definition rule_to_string (r : HeaderRule) : string :=
  match r with
  | RSet name value => String.append "set " (String.append name (String.append ": " value))
  | RAppend name value => String.append "append " (String.append name (String.append ": " value))
  | RRemove name => String.append "remove " name
  end.

(** The lines with their numbers; the error names the line. *)
Fixpoint parse_numbered (n : Z) (ls : list string) : result (list HeaderRule) (Z * Error) :=
  match ls with
  | [] => Ok []
  | line :: rest =>
      let t := trim line in
      if str_is_empty t || starts_with "#" t then parse_numbered (n + 1) rest
      else match rule_parse_line line with
           | Err e => Err (n, e)
           | Ok r => match parse_numbered (n + 1) rest with Ok rs => Ok (r :: rs) | Err e => Err e end
           end
  end.

Definition parse_header_rules (text : string) : result (list HeaderRule) (Z * Error) := parse_numbered 1 (lines text).

Definition format_header_rules (rules : list HeaderRule) : string := join_with LF (map rule_to_string rules).


(** ** The rules of a route *)

Record HeaderVariables : Type := mkHeaderVariables {
  hv_client_ip : IpAddr;
  hv_host : string;
  hv_scheme : string;
  hv_request_id : string;
  hv_route : string;
  hv_client_cert_subject : string;
  hv_client_cert_fingerprint : string;
}.

Definition variable_value (v : HeaderVariables) (variable : HeaderVariable) : string :=
  match variable with
  | ClientIp => ip_to_string (hv_client_ip v)
  | Host => hv_host v
  | Scheme => hv_scheme v
  | RequestId => hv_request_id v
  | RouteVar => hv_route v
  | ClientCertSubject => hv_client_cert_subject v
  | ClientCertFingerprint => hv_client_cert_fingerprint v
  end.

Inductive Action : Type := ActSet (t : list TemplatePart) | ActAppend (t : list TemplatePart) | ActRemove.

Record CompiledRule : Type := mkCompiledRule { cr_name : string; cr_action : Action }.

Record CompiledHeaderRules : Type := mkCompiledHeaderRules { chr_request : list CompiledRule; chr_response : list CompiledRule }.

Definition render_part (v : HeaderVariables) (part : TemplatePart) : string :=
  match part with TLiteral text => text | TVariable variable => variable_value v variable end.

Definition render (template : list TemplatePart) (v : HeaderVariables) : string :=
  String.concat EmptyString (map (render_part v) template).

Section Compiled.
Context `{HDR : HeaderOps}.

Definition compile_rule (rule : HeaderRule) : result CompiledRule Error :=
  let? _ := rule_validate rule in
  match name_from_bytes (rule_name rule) with
  | None => Err (InvalidHeaderName (rule_name rule))
  | Some name =>
      match rule with
      | RSet _ value => let? t := parse_header_template value in Ok (mkCompiledRule name (ActSet t))
      | RAppend _ value => let? t := parse_header_template value in Ok (mkCompiledRule name (ActAppend t))
      | RRemove _ => Ok (mkCompiledRule name ActRemove)
      end
  end.

Definition compile (rules : list HeaderRule) : list CompiledRule :=
  omap (fun r => match compile_rule r with Ok c => Some c | Err _ => None end) rules.

Definition CompiledHeaderRules_new (rules : HeaderRules) : CompiledHeaderRules :=
  mkCompiledHeaderRules (compile (hr_request rules)) (compile (hr_response rules)).

Definition CompiledHeaderRules_is_empty (rules : CompiledHeaderRules) : bool :=
  match chr_request rules, chr_response rules with [], [] => true | _, _ => false end.

(** One turn of the loop of [apply]. *)
Definition apply_rule (v : HeaderVariables) (h : Headers) (rule : CompiledRule) : Headers :=
  match cr_action rule with
  | ActRemove => h_remove (cr_name rule) h
  | ActSet t =>
      match value_from_str (render t v) with
      | Some value => h_insert (cr_name rule) value h
      | None => h_remove (cr_name rule) h
      end
  | ActAppend t =>
      match value_from_str (render t v) with
      | Some value => h_append (cr_name rule) value h
      | None => h
      end
  end.

Definition apply (rules : list CompiledRule) (h : Headers) (v : HeaderVariables) : Headers :=
  fold_left (apply_rule v) rules h.

Definition apply_request (rules : CompiledHeaderRules) (h : Headers) (v : HeaderVariables) : Headers :=
  apply (chr_request rules) h v.

Definition apply_response (rules : CompiledHeaderRules) (h : Headers) (v : HeaderVariables) : Headers :=
  apply (chr_response rules) h v.

End Compiled.

(** ** Trace context

    The random numbers of the code are arguments; [{:032x}] and [{:016x}] print them. *)

Definition TRACEPARENT : string := "traceparent".
Definition X_REQUEST_ID : string := "x-request-id".

Record TraceParent : Type := mkTraceParent { tp_version : string; tp_trace_id : string; tp_parent_id : string; tp_flags : string }.

#[export] Instance TraceParent_eq_dec : EqDecision TraceParent.
Proof. solve_decision. Defined.

Definition is_valid_hex (s : string) (expected_len : Z) : bool :=
  (str_len s =? expected_len) && str_forallb (fun c => is_some (digit_val 16 c)) s.

Definition is_non_zero_hex (s : string) (expected_len : Z) : bool :=
  is_valid_hex s expected_len && negb (str_forallb (Ascii.eqb "0") s).

Definition validate_traceparent_parts (parts : list string) : bool :=
  match parts with
  | version :: trace_id :: parent_id :: flags :: rest =>
      negb (String.eqb version "ff") && is_valid_hex version 2
      && negb (String.eqb version "00" && negb (bool_decide (rest = [])))
      && is_non_zero_hex trace_id 32 && is_non_zero_hex parent_id 16 && is_valid_hex flags 2
  | _ => false
  end.

Definition TraceParent_parse (s : string) : option TraceParent :=
  let parts := split_on "-" (trim s) in
  if negb (validate_traceparent_parts parts) then None
  else match parts with
       | version :: trace_id :: parent_id :: flags :: _ =>
           Some (mkTraceParent (to_ascii_lowercase version) (to_ascii_lowercase trace_id)
                   (to_ascii_lowercase parent_id) (to_ascii_lowercase flags))
       | _ => None
       end.

(** [{:0width x}] of a number of [4 * width] bits. *)
Fixpoint hex_digits (width : nat) (n : Z) (acc : string) : string :=
  match width with
  | O => acc
  | S w => hex_digits w (n / 16) (String (digit_char (n mod 16)) acc)
  end.

Definition hex_padded (width : nat) (n : Z) : string := hex_digits width n EmptyString.

Definition new_request_id (random : Z) : string := hex_padded 32 random.

Definition child_traceparent (tp : TraceParent) (random : Z) : string :=
  join_with "-" [tp_version tp; tp_trace_id tp; hex_padded 16 random; tp_flags tp].

Definition new_root (trace_id : string) (random : Z) : string := join_with "-" ["00"; trace_id; hex_padded 16 random; "01"].

Section Trace.
Context `{HDR : HeaderOps}.

Definition header_text (h : Headers) (name : string) : option string := v ← h_get h name; to_str v.

Definition resolve_request_id (h : Headers) (random : Z) : string :=
  match header_text h X_REQUEST_ID with
  | Some s =>
      if negb (str_is_empty (trim s)) then trim s
      else match header_text h TRACEPARENT ≫= TraceParent_parse with
           | Some tp => tp_trace_id tp
           | None => new_request_id random
           end
  | None =>
      match header_text h TRACEPARENT ≫= TraceParent_parse with
      | Some tp => tp_trace_id tp
      | None => new_request_id random
      end
  end.

(** The headers and the identifier. *)
Definition extract_and_propagate_trace_context (h : Headers) (random_trace random_span : Z) : Headers * string :=
  let '(trace_id, outbound_tp) :=
    match header_text h TRACEPARENT ≫= TraceParent_parse with
    | Some tp => (tp_trace_id tp, child_traceparent tp random_span)
    | None => let trace_id := new_request_id random_trace in (trace_id, new_root trace_id random_span)
    end in
  let h := match value_from_str outbound_tp with Some val => h_insert TRACEPARENT val h | None => h end in
  let fresh := match value_from_str trace_id with Some val => h_insert X_REQUEST_ID val h | None => h end in
  match header_text h X_REQUEST_ID with
  | Some s => if negb (str_is_empty (trim s)) then (h, trim s) else (fresh, trace_id)
  | None => (fresh, trace_id)
  end.

End Trace.

Example trace_parse_example :
  TraceParent_parse "00-4bf92f3577b34da6a3ce929d0e0e4736-00f067aa0ba902b7-01"
  = Some (mkTraceParent "00" "4bf92f3577b34da6a3ce929d0e0e4736" "00f067aa0ba902b7" "01")
  /\ TraceParent_parse "00-4bf92f3577b34da6a3ce929d0e0e4736-00f067aa0ba902b7-01-x" = None
  /\ TraceParent_parse "ff-4bf92f3577b34da6a3ce929d0e0e4736-00f067aa0ba902b7-01" = None
  /\ new_request_id 48879 = "0000000000000000000000000000beef".
Proof. vm_compute. done. Qed.

(** ** Facts on trimmed text *)

Lemma trim_start_len s : (String.length (trim_start s) <= String.length s)%nat.
Proof.
  remember (String.length s) as n eqn:En. revert s En. induction n as [n IH] using lt_wf_ind. intros s En.
  destruct s as [|a s]; [cbn; lia|]. cbn [trim_start]. cbn in En.
  destruct (is_ws1 a); [specialize (IH (String.length s) ltac:(lia) s eq_refl); lia|].
  destruct s as [|b s]; [cbn in *; lia|]. cbn in En.
  destruct (is_ws2 a b); [specialize (IH (String.length s) ltac:(lia) s eq_refl); lia|].
  destruct s as [|c s]; [cbn in *; lia|]. cbn in En.
  destruct (is_ws3 a b c); [specialize (IH (String.length s) ltac:(lia) s eq_refl); lia|cbn; lia].
Qed.

(** A text that starts with no whitespace: the first characters. *)
Lemma no_leading x s :
  trim_start (String x s) = String x s ->
  is_ws1 x = false
  /\ match s with
     | EmptyString => True
     | String y r => is_ws2 x y = false /\ match r with EmptyString => True | String z _ => is_ws3 x y z = false end
     end.
Proof.
  intros H. cbn [trim_start] in H.
  destruct (is_ws1 x). { pose proof (trim_start_len s) as L. rewrite H in L. cbn in L. lia. }
  split; [done|]. destruct s as [|y s]; [done|].
  destruct (is_ws2 x y). { pose proof (trim_start_len s) as L. rewrite H in L. cbn in L. lia. }
  split; [done|]. destruct s as [|z s]; [done|].
  destruct (is_ws3 x y z); [|done]. pose proof (trim_start_len s) as L. rewrite H in L. cbn in L. lia.
Qed.

Lemma trim_end_keeps_start s : trim_start s = s -> trim_start (trim_end s) = trim_end s.
Proof.
  intros H. destruct s as [|x s]; [done|]. cbn [trim_end]. rewrite H. cbn [str_is_empty].
  apply no_leading in H as [Hx H]. cbn [trim_start]. rewrite Hx. destruct s as [|y s]; [done|]. destruct H as [Hy H].
  cbn [trim_end]. destruct (str_is_empty _); [done|]. rewrite Hy. destruct s as [|z s]; [done|].
  cbn [trim_end]. destruct (str_is_empty _); [done|]. by rewrite H.
Qed.

Lemma ws2_second x y : is_ws2 x y = true -> forall s, trim_start (String y s) = String y s.
Proof.
  unfold is_ws2. cbn zeta. rewrite andb_true_iff, orb_true_iff, !N.eqb_eq. intros [_ H] s. cbn [trim_start].
  unfold is_ws1, is_ws2, is_ws3. destruct H as [-> | ->]; destruct s as [|? [|? ?]]; done.
Qed.

Lemma ws3_rest x y z :
  is_ws3 x y z = true -> forall s, trim_start (String y s) = String y s /\ trim_start (String z s) = String z s.
Proof.
  unfold is_ws3. cbn zeta. intros H s.
  assert (Hyz : (127 < N_of_ascii y < 194 /\ 127 < N_of_ascii z < 194)%N).
  { rewrite !orb_true_iff, !andb_true_iff, !orb_true_iff, !andb_true_iff, !N.eqb_eq, !N.leb_le in H. lia. }
  assert (Hg : forall a, (127 < N_of_ascii a < 194)%N -> trim_start (String a s) = String a s).
  { intros a Ha. cbn [trim_start]. unfold is_ws1, is_ws2, is_ws3.
    destruct (N.leb_spec 9 (N_of_ascii a)), (N.leb_spec (N_of_ascii a) 13), (N.eqb_spec (N_of_ascii a) 32),
      (N.eqb_spec (N_of_ascii a) 194), (N.eqb_spec (N_of_ascii a) 225), (N.eqb_spec (N_of_ascii a) 226),
      (N.eqb_spec (N_of_ascii a) 227); try lia; by destruct s as [|? [|? ?]]. }
  split; apply Hg; tauto.
Qed.

Lemma trim_end_cons x s : trim_start (String x s) = String x s -> trim_end (String x s) = String x (trim_end s).
Proof. intros H. cbn [trim_end]. by rewrite H. Qed.

(** The two ends do not meet. *)
Lemma trim_start_end s : trim_start (trim_end s) = trim_end (trim_start s).
Proof.
  remember (String.length s) as n eqn:En. revert s En. induction n as [n IH] using lt_wf_ind. intros s En.
  assert (IH' : forall t, (String.length t < n)%nat -> trim_start (trim_end t) = trim_end (trim_start t)) by (intros t Ht; by eapply IH).
  destruct s as [|x s]; [done|]. cbn in En.
  cbn [trim_end]. destruct (str_is_empty (trim_start (String x s))) eqn:Ee.
  { by destruct (trim_start (String x s)). }
  destruct (decide (trim_start (String x s) = String x s)) as [Ex|Hne].
  { rewrite Ex, <-(trim_end_cons x s) by done. by rewrite trim_end_keeps_start. }
  cbn [trim_start] in *. destruct (is_ws1 x); [apply IH'; lia|].
  destruct s as [|y s]; [done|]. cbn in En. destruct (is_ws2 x y) eqn:E2.
  { rewrite trim_end_cons by by eapply ws2_second. rewrite E2. apply IH'. lia. }
  destruct s as [|z s]; [done|]. cbn in En. destruct (is_ws3 x y z) eqn:E3; [|done].
  rewrite (trim_end_cons y), (trim_end_cons z) by apply (ws3_rest _ _ _ E3). rewrite E2, E3. apply IH'. lia.
Qed.

Lemma trim_end_idemp s : trim_end (trim_end s) = trim_end s.
Proof.
  induction s as [|x s IH]; [done|]. destruct (str_is_empty (trim_start (String x s))) eqn:Ee.
  { cbn [trim_end]. by rewrite Ee. }
  assert (Ht : trim_end (String x s) = String x (trim_end s)) by (cbn [trim_end]; by rewrite Ee).
  rewrite Ht. cbn [trim_end]. rewrite IH, <-Ht, trim_start_end.
  destruct (trim_start (String x s)) as [|a r] eqn:Es; [done|].
  pose proof (trim_start_idemp (String x s)) as Hi. rewrite Es in Hi. by rewrite trim_end_cons.
Qed.

Lemma trim_idemp s : trim (trim s) = trim s.
Proof. unfold trim. by rewrite trim_start_end, trim_start_idemp, trim_end_idemp. Qed.

Lemma trimmed_ends s : trim s = s -> trim_start s = s /\ trim_end s = s.
Proof.
  intros H. assert (Hs : trim_start s = s).
  { rewrite <-H at 1. unfold trim. rewrite trim_start_end, trim_start_idemp. exact H. }
  split; [done|]. rewrite <-H at 2. unfold trim. by rewrite Hs.
Qed.

Lemma trim_blank_before v : trim v = v -> trim (trim_end (String " " v)) = v.
Proof.
  intros H. destruct (trimmed_ends _ H) as [Hs He]. cbn [trim_end]. change (trim_start (String " " v)) with (trim_start v).
  rewrite Hs. destruct v as [|c v]; [done|]. cbn [str_is_empty]. rewrite He. exact H.
Qed.

(** ** Rules read back *)

(** The characters of a header name are pivots of the whitespace and no colon. *)
Definition header_char (c : ascii) : bool := is_ascii_alphanumeric c || str_contains_char header_symbols c.

Lemma header_char_facts c :
  header_char c = true -> pivot c /\ Ascii.eqb c ":" = false /\ Ascii.eqb c LF = false /\ Ascii.eqb c CR = false.
Proof. destruct c as [[] [] [] [] [] [] [] []]; cbv; try done; by intros _. Qed.

Lemma header_text_free c s :
  (forall a, header_char a = true -> Ascii.eqb a c = false) -> str_forallb header_char s = true -> char_free c s = true.
Proof.
  intros Hc. unfold char_free. induction s as [|a s IH]; [done|]. cbn [str_forallb]. rewrite !andb_true_iff. intros [Ha Hs].
  split; [by rewrite (Hc a Ha)|by apply IH].
Qed.

Lemma trim_header_text s : str_forallb header_char s = true -> trim s = s.
Proof.
  intros H. unfold trim. assert (Hs : trim_start s = s).
  { destruct s as [|c s]; [done|]. cbn in H. apply andb_prop in H as [Hc _]. apply trim_start_pivot. by apply header_char_facts. }
  rewrite Hs. clear Hs. induction s as [|c s IH]; [done|]. cbn in H. apply andb_prop in H as [Hc H].
  rewrite trim_end_cons by (apply trim_start_pivot; by apply header_char_facts). by rewrite IH.
Qed.

Definition rule_value (r : HeaderRule) : string := match r with RSet _ v | RAppend v _ => v | RRemove _ => EmptyString end.

(** A rule that validates and whose value has no whitespace around it. *)
Definition rule_readable (r : HeaderRule) : Prop :=
  rule_validate r = Ok tt /\ match r with RSet _ v | RAppend _ v => trim v = v | RRemove _ => True end.

Lemma rule_parse_line_readable line r : rule_parse_line line = Ok r -> rule_readable r.
Proof.
  unfold rule_parse_line. destruct (split_once_whitespace _) as [[action rest]|]; [|done]. cbn zeta.
  destruct (String.eqb (to_ascii_lowercase action) "remove").
  { cbn [and_then]. destruct (rule_validate _) as [[]|] eqn:E; cbn; [|done]. intros [= <-]. by split. }
  destruct (split_once ":" rest) as [[name value]|]; [|done].
  destruct (String.eqb _ "set"); cbn [and_then].
  { destruct (rule_validate _) as [[]|] eqn:E; cbn; [|done]. intros [= <-]. split; [done|]. apply trim_idemp. }
  destruct (String.eqb _ "append"); cbn [and_then]; [|done].
  destruct (rule_validate _) as [[]|] eqn:E; cbn; [|done]. intros [= <-]. split; [done|]. apply trim_idemp.
Qed.

Lemma readable_name r : rule_readable r -> str_forallb header_char (rule_name r) = true.
Proof.
  intros [H _]. unfold rule_validate in H. destruct (is_header_name (rule_name r)) eqn:E; [|done].
  unfold is_header_name in E. by apply andb_prop in E as [_ E].
Qed.

Lemma validated_value n v r : (r = RSet n v \/ r = RAppend n v) -> rule_validate r = Ok tt -> has_control_but_tab v = false.
Proof.
  intros Hr H. unfold rule_validate in H. destruct (negb _); [done|]. destruct (existsb _ _); [done|].
  destruct Hr as [-> | ->]; unfold parse_header_template in H; by destruct (has_control_but_tab v).
Qed.

Lemma no_control_free s : has_control_but_tab s = false -> char_free LF s = true /\ char_free CR s = true.
Proof.
  unfold char_free. induction s as [|a s IH]; [done|]. cbn [has_control_but_tab str_forallb].
  rewrite !orb_false_iff, !andb_true_iff, !negb_true_iff. intros [[[Ha _] _] Hs]. destruct (IH Hs) as [H1 H2].
  assert (Hb : forall c, (c = LF \/ c = CR) -> Ascii.eqb a c = false).
  { intros c Hc. destruct (Ascii.eqb_spec a c) as [->|]; [|done]. by destruct Hc as [-> | ->]. }
  split; split; auto.
Qed.

(** The rest of a line after its action. *)
Definition rule_rest (r : HeaderRule) : string :=
  match r with
  | RSet name value | RAppend name value => String.append name (String ":" (String " " value))
  | RRemove name => name
  end.

Definition rule_word (r : HeaderRule) : string := match r with RSet _ _ => "set" | RAppend _ _ => "append" | RRemove _ => "remove" end.

Lemma rule_to_string_parts r : rule_to_string r = String.append (rule_word r) (String " " (rule_rest r)).
Proof. by destruct r. Qed.

(** What [trim] leaves of the text of a rule. *)
Definition rule_line (r : HeaderRule) : string :=
  match r with
  | RSet name value | RAppend name value =>
      String.append (rule_word r) (String " " (String.append name (String ":" (trim_end (String " " value)))))
  | RRemove name => String.append (rule_word r) (String " " name)
  end.

Lemma trim_end_header_text s : str_forallb header_char s = true -> trim_end s = s.
Proof. intros H. apply trimmed_ends. by apply trim_header_text. Qed.

Lemma readable_name_cons r : rule_readable r -> exists c s, rule_name r = String c s /\ header_char c = true /\ str_forallb header_char s = true.
Proof.
  intros H. pose proof (readable_name _ H) as Hn. destruct H as [H _]. unfold rule_validate in H.
  destruct (rule_name r) as [|c s]; [done|]. cbn in Hn. apply andb_prop in Hn as [Hc Hs]. by exists c, s.
Qed.

Lemma word_start (w : string) a : (w = "set" \/ w = "append" \/ w = "remove") -> trim_start (String.append w a) = String.append w a.
Proof. intros [-> | [-> | ->]]; by apply trim_start_pivot; vm_compute. Qed.

Lemma trim_rule_text r : rule_readable r -> trim (rule_to_string r) = rule_line r.
Proof.
  intros H. rewrite rule_to_string_parts. destruct r as [n v|n v|n]; cbn [rule_word rule_rest rule_line].
  - change (String.append "set" (String " " (String.append n ?x))) with (String.append "set" (String.append (String " " n) x)).
    rewrite append_assoc.
    rewrite trim_app by by vm_compute. rewrite word_start by tauto. by rewrite <-append_assoc.
  - change (String.append "append" (String " " (String.append n ?x))) with (String.append "append" (String.append (String " " n) x)).
    rewrite append_assoc.
    rewrite trim_app by by vm_compute. rewrite word_start by tauto. by rewrite <-append_assoc.
  - destruct (readable_name_cons _ H) as (c & s & E & Hc & Hs). cbn in E. subst n.
    change (String.append "remove" (String " " ?x)) with (String.append "remove" (String.append " " x)). rewrite append_assoc.
    rewrite trim_app by by apply header_char_facts. rewrite word_start by tauto. by rewrite trim_end_header_text.
Qed.

Lemma rule_line_trim r : rule_readable r -> trim (rule_line r) = rule_line r.
Proof. intros H. rewrite <-trim_rule_text by done. apply trim_idemp. Qed.

Lemma split_word r x : split_once_whitespace (String.append (rule_word r) (String " " x)) = Some (rule_word r, x).
Proof. destruct r; by destruct x. Qed.

(** A line of a rule reads back as the rule. *)
Lemma parse_rule_text r : rule_readable r -> rule_parse_line (rule_to_string r) = Ok r.
Proof.
  intros H. unfold rule_parse_line. rewrite trim_rule_text by done. pose proof (readable_name _ H) as Hn.
  destruct H as [Hv Ht]. assert (Hf : char_free ":" (rule_name r) = true).
  { apply header_text_free; [|done]. intros a Ha. by apply header_char_facts. }
  destruct r as [n v|n v|n]; cbn [rule_line rule_name] in *; rewrite split_word; cbn iota beta zeta.
  - change (String.eqb (to_ascii_lowercase (rule_word (RSet n v))) "remove") with false. cbn iota.
    rewrite split_once_app by done. change (String.eqb (to_ascii_lowercase (rule_word (RSet n v))) "set") with true. cbn iota.
    rewrite trim_header_text, trim_blank_before by done. cbn [and_then]. by rewrite Hv.
  - change (String.eqb (to_ascii_lowercase (rule_word (RAppend n v))) "remove") with false. cbn iota.
    rewrite split_once_app by done. change (String.eqb (to_ascii_lowercase (rule_word (RAppend n v))) "set") with false.
    change (String.eqb (to_ascii_lowercase (rule_word (RAppend n v))) "append") with true. cbn iota.
    rewrite trim_header_text, trim_blank_before by done. cbn [and_then]. by rewrite Hv.
  - change (String.eqb (to_ascii_lowercase (rule_word (RRemove n))) "remove") with true. cbn iota.
    rewrite trim_header_text by done. cbn [and_then]. by rewrite Hv.
Qed.

(** ** The text of a form *)

Lemma parse_numbered_readable ls : forall n rules, parse_numbered n ls = Ok rules -> Forall rule_readable rules.
Proof.
  induction ls as [|l ls IH]; intros n rules; cbn [parse_numbered]; [by intros [= <-]; constructor|]. cbn zeta.
  destruct (_ || _); [apply IH|]. destruct (rule_parse_line l) as [r|] eqn:Er; [|done].
  destruct (parse_numbered (n + 1) ls) as [rs|] eqn:Es; [|done]. intros [= <-]. constructor.
  - by eapply rule_parse_line_readable.
  - by eapply IH.
Qed.

Lemma rule_line_nonempty r : str_is_empty (rule_line r) = false /\ starts_with "#" (rule_line r) = false.
Proof. by destruct r. Qed.

Lemma parse_numbered_texts rules : Forall rule_readable rules -> forall n, parse_numbered n (map rule_to_string rules) = Ok rules.
Proof.
  induction 1 as [|r rules Hr _ IH]; intros n; cbn [parse_numbered map]; [done|]. cbn zeta.
  rewrite trim_rule_text by done. destruct (rule_line_nonempty r) as [-> ->]. cbn [orb].
  by rewrite parse_rule_text, IH.
Qed.

Lemma rule_text_one_line r : rule_readable r -> char_free LF (rule_to_string r) = true /\ char_free CR (rule_to_string r) = true.
Proof.
  intros H. pose proof (readable_name _ H) as Hn. destruct H as [Hv _].
  assert (Hf : char_free LF (rule_name r) = true /\ char_free CR (rule_name r) = true).
  { split; apply header_text_free; try done; intros a Ha; by apply header_char_facts. }
  unfold char_free in *. destruct r as [n v|n v|n]; cbn [rule_to_string rule_name] in *; rewrite !str_forallb_append; cbn [str_forallb].
  - destruct (no_control_free v (validated_value n v _ (or_introl eq_refl) Hv)) as [H1 H2]. unfold char_free in *.
    by rewrite (proj1 Hf), (proj2 Hf), H1, H2.
  - destruct (no_control_free v (validated_value n v _ (or_intror eq_refl) Hv)) as [H1 H2]. unfold char_free in *.
    by rewrite (proj1 Hf), (proj2 Hf), H1, H2.
  - by rewrite (proj1 Hf), (proj2 Hf).
Qed.

Lemma lines_of_texts (l : list string) :
  Forall (fun s => char_free CR s = true /\ str_is_empty s = false) l -> lines_of l = l.
Proof.
  induction 1 as [|s l [Hc He] Hl IH]; [done|]. destruct l as [|s' l]; [cbn; by rewrite He|].
  change (strip_cr s :: lines_of (s' :: l) = s :: s' :: l). by rewrite IH, strip_cr_free.
Qed.

Lemma lines_of_rules rules : Forall rule_readable rules -> lines (format_header_rules rules) = map rule_to_string rules.
Proof.
  intros H. unfold lines, format_header_rules. destruct rules as [|r rules]; [done|].
  rewrite split_on_join; [| done |].
  - apply lines_of_texts. apply Forall_map. eapply Forall_impl; [exact H|]. intros x Hx. cbn.
    split; [by apply rule_text_one_line|by destruct x].
  - apply Forall_map. eapply Forall_impl; [exact H|]. intros x Hx. by apply rule_text_one_line.
Qed.

(** C36: Header rules that a form accepts print as a text that the form reads back as the same
    rules, and every one of them names a header that rules may change. *)
Theorem header_rules_roundtrip text rules :
  parse_header_rules text = Ok rules ->
  parse_header_rules (format_header_rules rules) = Ok rules
  /\ Forall (fun r => is_header_name (rule_name r) = true
                      /\ Forall (fun p => eq_ignore_ascii_case p (rule_name r) = false) PROTECTED_HEADERS) rules.
Proof.
  intros H. apply parse_numbered_readable in H. split.
  - unfold parse_header_rules. rewrite lines_of_rules by done. by apply parse_numbered_texts.
  - eapply Forall_impl; [exact H|]. intros r [Hv _]. unfold rule_validate in Hv.
    destruct (is_header_name (rule_name r)); [|done]. split; [done|]. cbn [negb] in Hv.
    destruct (existsb _ PROTECTED_HEADERS) eqn:E; [done|]. apply List.Forall_forall. intros p Hp.
    destruct (eq_ignore_ascii_case p (rule_name r)) eqn:Ep; [|done].
    assert (existsb (fun p => eq_ignore_ascii_case p (rule_name r)) PROTECTED_HEADERS = true) by (apply existsb_exists; eauto).
    congruence.
Qed.

Definition form_text : string := " set X-A:  {client_ip} {{1}}
# a comment

APPEND x-b : 
remove	X-C ".

Lemma header_rules_roundtrip_witness :
  parse_header_rules form_text = Ok [RSet "X-A" "{client_ip} {{1}}"; RAppend "x-b" ""; RRemove "X-C"]
  /\ parse_header_rules (format_header_rules [RSet "X-A" "{client_ip} {{1}}"; RAppend "x-b" ""; RRemove "X-C"])
     = Ok [RSet "X-A" "{client_ip} {{1}}"; RAppend "x-b" ""; RRemove "X-C"].
Proof.
  split; [by vm_compute|].
  apply (header_rules_roundtrip form_text [RSet "X-A" "{client_ip} {{1}}"; RAppend "x-b" ""; RRemove "X-C"]). by vm_compute.
Defined.

(** ** What the rules of a route do *)

(** [HeaderName::from_bytes] yields the name in lower case. *)
Class HeaderNameLaws (H : HeaderOps) : Prop := {
  name_lower s n : name_from_bytes s = Some n -> n = to_ascii_lowercase s;
}.

#[export] Instance plain_name_laws : HeaderNameLaws plain_header_ops.
Proof. split. intros s n. cbn. destruct (str_is_empty s); [done|]. by intros [= <-]. Qed.

Section RuleFacts.
Context `{HDR : HeaderOps} {LAWS : HeaderLaws HDR} {NAMES : HeaderNameLaws HDR}.

(** The values of one name after a rule on it. *)
Definition rule_values (v : HeaderVariables) (values : list string) (a : Action) : list string :=
  match a with
  | ActRemove => []
  | ActSet t => match value_from_str (render t v) with Some x => [x] | None => [] end
  | ActAppend t => match value_from_str (render t v) with Some x => values ++ [x] | None => values end
  end.

Lemma apply_rule_values v h r n :
  h_get_all (apply_rule v h r) n
  = if decide (n = cr_name r) then rule_values v (h_get_all h n) (cr_action r) else h_get_all h n.
Proof.
  unfold apply_rule, rule_values. destruct (cr_action r) as [t|t|].
  - destruct (value_from_str _); [apply get_all_insert|apply get_all_remove].
  - destruct (value_from_str _); [apply get_all_append|by destruct (decide _)].
  - apply get_all_remove.
Qed.

(** The rules of other names do not matter to a name. *)
Lemma apply_values rules v : forall h n,
  h_get_all (apply rules h v) n
  = fold_left (rule_values v) (map cr_action (List.filter (fun r => bool_decide (n = cr_name r)) rules)) (h_get_all h n).
Proof.
  unfold apply. induction rules as [|r rules IH]; intros h n; [done|]. cbn [fold_left List.filter]. rewrite IH, apply_rule_values.
  destruct (decide (n = cr_name r)) as [->|Hne].
  - by rewrite bool_decide_true.
  - by rewrite bool_decide_false.
Qed.

Lemma lowercase_protected s p :
  p ∈ PROTECTED_HEADERS -> to_ascii_lowercase s = p -> existsb (fun q => eq_ignore_ascii_case q s) PROTECTED_HEADERS = true.
Proof.
  intros Hp <-. apply existsb_exists. exists (to_ascii_lowercase s). split; [by apply list_elem_of_In|].
  unfold eq_ignore_ascii_case. rewrite lower_idemp. apply String.eqb_refl.
Qed.

Lemma compile_rule_name rule c : compile_rule rule = Ok c -> (cr_name c ∉ PROTECTED_HEADERS) /\ cr_name c = to_ascii_lowercase (rule_name rule).
Proof.
  unfold compile_rule. destruct (rule_validate rule) as [[]|] eqn:Ev; cbn [and_then]; [|done].
  destruct (name_from_bytes (rule_name rule)) as [n|] eqn:En; [|done]. apply name_lower in En.
  intros H. assert (Hn : cr_name c = n).
  { destruct rule as [a b|a b|a]; [..|by injection H as <-]; destruct (parse_header_template b); cbn in H; try done; by injection H as <-. }
  split; [|by subst n]. rewrite Hn. intros Hp. unfold rule_validate in Ev. destruct (negb _); [done|].
  by rewrite (lowercase_protected _ n Hp) in Ev.
Qed.

Lemma compiled_unprotected rules c : c ∈ compile rules -> cr_name c ∉ PROTECTED_HEADERS.
Proof.
  unfold compile. rewrite list_elem_of_omap. intros (r & _ & H). destruct (compile_rule r) eqn:E; simplify_eq.
  by apply compile_rule_name in E as [E _].
Qed.

Lemma filter_none {A} (f : A -> bool) l : (forall x, x ∈ l -> f x = false) -> List.filter f l = [].
Proof.
  induction l as [|x l IH]; intros H; [done|]. cbn. rewrite (H x) by left. apply IH. intros y Hy. apply H. by right.
Qed.

(** Whatever rules are stored, also in a file edited by hand, the rules of a route on a
    request and on a response leave every header of the connection and of the framing as it is,
    and treat each other name apart: its values are the ones that the rules on it make, in
    their order. *)
Theorem rules_keep_protected (rules : HeaderRules) (h : Headers) (v : HeaderVariables) (n : string) :
  h_get_all (apply_request (CompiledHeaderRules_new rules) h v) n
  = (if decide (n ∈ PROTECTED_HEADERS) then h_get_all h n
     else fold_left (rule_values v)
            (map cr_action (List.filter (fun r => bool_decide (n = cr_name r)) (compile (hr_request rules)))) (h_get_all h n))
  /\ h_get_all (apply_response (CompiledHeaderRules_new rules) h v) n
     = (if decide (n ∈ PROTECTED_HEADERS) then h_get_all h n
        else fold_left (rule_values v)
               (map cr_action (List.filter (fun r => bool_decide (n = cr_name r)) (compile (hr_response rules)))) (h_get_all h n)).
Proof.
  assert (H : forall rs, n ∈ PROTECTED_HEADERS -> List.filter (fun r => bool_decide (n = cr_name r)) (compile rs) = []).
  { intros rs Hn. apply filter_none. intros c Hc. apply compiled_unprotected in Hc. apply bool_decide_false. by intros ->. }
  unfold apply_request, apply_response, CompiledHeaderRules_new. cbn [chr_request chr_response].
  rewrite !apply_values. destruct (decide (n ∈ PROTECTED_HEADERS)) as [Hn|]; [|done]. by rewrite !H.
Qed.

End RuleFacts.

(** ** What the trace context says *)

(** Visible text is a header value, and reads as itself. *)
Class HeaderTextLaws (H : HeaderOps) : Prop := {
  value_text s : str_forallb is_ascii_graphic s = true -> value_from_str s = Some s;
  to_str_text s : str_forallb is_ascii_graphic s = true -> to_str s = Some s;
}.

#[export] Instance plain_text_laws : HeaderTextLaws plain_header_ops.
Proof.
  split; intros s; cbn; [done|]. intros H. assert (Hs : str_forallb (fun c => is_ascii_graphic c || Ascii.eqb c " ") s = true).
  { induction s as [|c s IH]; [done|]. cbn in *. apply andb_prop in H as [Hc H]. by rewrite Hc, IH. }
  by rewrite Hs.
Qed.

Definition hex_char (c : ascii) : bool := is_some (digit_val 16 c).

Lemma hex_char_facts c :
  hex_char c = true -> header_char c = true /\ is_ascii_graphic c = true /\ Ascii.eqb c "-" = false /\ hex_char (ascii_lower c) = true.
Proof. destruct c as [[] [] [] [] [] [] [] []]; cbv; try done; by intros _. Qed.

Lemma lower_hex s n : is_valid_hex s n = true -> is_valid_hex (to_ascii_lowercase s) n = true.
Proof.
  unfold is_valid_hex. rewrite !andb_true_iff. unfold str_len. intros [Hl Hs]. split.
  - rewrite <-Hl. f_equal. f_equal. clear. induction s as [|c s IH]; [done|]. cbn. by rewrite IH.
  - clear Hl. induction s as [|c s IH]; [done|]. cbn in *. apply andb_prop in Hs as [Hc Hs].
    rewrite IH by done. apply andb_true_intro. split; [by apply hex_char_facts|done].
Qed.

Lemma lower_zero s : str_forallb (Ascii.eqb "0") (to_ascii_lowercase s) = str_forallb (Ascii.eqb "0") s.
Proof.
  induction s as [|c s IH]; [done|]. cbn. rewrite IH. f_equal. by destruct c as [[] [] [] [] [] [] [] []].
Qed.

Lemma lower_non_zero s n : is_non_zero_hex s n = true -> is_non_zero_hex (to_ascii_lowercase s) n = true.
Proof. unfold is_non_zero_hex. rewrite lower_zero, !andb_true_iff. intros [H ->]. by split; [apply lower_hex|]. Qed.

(** A trace parent in the form that the code prints. *)
Definition trace_ok (tp : TraceParent) : Prop :=
  is_valid_hex (tp_version tp) 2 = true /\ is_non_zero_hex (tp_trace_id tp) 32 = true
  /\ is_non_zero_hex (tp_parent_id tp) 16 = true /\ is_valid_hex (tp_flags tp) 2 = true
  /\ to_ascii_lowercase (tp_version tp) = tp_version tp /\ to_ascii_lowercase (tp_trace_id tp) = tp_trace_id tp
  /\ to_ascii_lowercase (tp_parent_id tp) = tp_parent_id tp /\ to_ascii_lowercase (tp_flags tp) = tp_flags tp.

Definition trace_text (tp : TraceParent) : string :=
  join_with "-" [tp_version tp; tp_trace_id tp; tp_parent_id tp; tp_flags tp].

Lemma TraceParent_parse_ok s tp : TraceParent_parse s = Some tp -> trace_ok tp.
Proof.
  unfold TraceParent_parse. cbn zeta. destruct (validate_traceparent_parts _) eqn:E; [|done]. cbn [negb].
  destruct (split_on "-" (trim s)) as [|v [|t [|p [|f r]]]]; try done. intros [= <-]. cbn in E.
  rewrite !andb_true_iff in E. destruct E as [[[[[_ Hv] _] Ht] Hp] Hf].
  unfold trace_ok. cbn [tp_version tp_trace_id tp_parent_id tp_flags]. rewrite !lower_idemp.
  split_and!; auto using lower_hex, lower_non_zero.
Qed.

Lemma non_zero_valid s n : is_non_zero_hex s n = true -> is_valid_hex s n = true.
Proof. unfold is_non_zero_hex. by intros [H _]%andb_prop. Qed.

Lemma valid_chars s n : is_valid_hex s n = true -> str_forallb hex_char s = true.
Proof. unfold is_valid_hex. by intros [_ H]%andb_prop. Qed.

Lemma trace_text_chars p tp :
  trace_ok tp -> (forall c, hex_char c = true -> p c = true) -> p "-"%char = true -> str_forallb p (trace_text tp) = true.
Proof.
  intros (Hv & Ht & Hp & Hf & _) H Hd. apply non_zero_valid in Ht, Hp. apply valid_chars in Hv, Ht, Hp, Hf.
  unfold trace_text. cbn [join_with]. repeat (rewrite str_forallb_append; cbn [str_forallb]; rewrite Hd).
  by rewrite !(str_forallb_impl hex_char p) by done.
Qed.

Lemma parse_trace_text tp : trace_ok tp -> tp_version tp <> "ff" -> TraceParent_parse (trace_text tp) = Some tp.
Proof.
  intros H Hne. unfold TraceParent_parse. cbn zeta.
  rewrite trim_header_text by (apply trace_text_chars; [done| |done]; intros c Hc; by apply hex_char_facts).
  destruct H as (Hv & Ht & Hp & Hf & Lv & Lt & Lp & Lf).
  unfold trace_text. rewrite split_on_join; [|done|].
  - cbn [validate_traceparent_parts]. rewrite Hv, Ht, Hp, Hf, bool_decide_true by done.
    destruct (String.eqb_spec (tp_version tp) "ff"); [done|]. rewrite andb_false_r. cbn [negb andb].
    rewrite Lv, Lt, Lp, Lf. by destruct tp.
  - apply non_zero_valid in Ht, Hp. apply valid_chars in Hv, Ht, Hp, Hf.
    assert (Hd : forall s, str_forallb hex_char s = true -> char_free "-" s = true).
    { intros s. apply str_forallb_impl. intros c Hc. apply negb_true_iff. by apply hex_char_facts. }
    repeat constructor; by apply Hd.
Qed.

Lemma digit_char_hex d : 0 <= d < 16 -> hex_char (digit_char d) = true /\ ascii_lower (digit_char d) = digit_char d.
Proof.
  intros H. unfold hex_char. rewrite digit_val_char16 by done. split; [done|].
  assert (Hd : d ∈ seqZ 0 16) by (apply elem_of_seqZ; lia). revert d H Hd.
  assert (F : Forall (fun d => ascii_lower (digit_char d) = digit_char d) (seqZ 0 16)) by (vm_compute; repeat constructor).
  intros d _ Hd. rewrite Forall_forall in F. by apply F.
Qed.

Lemma digit_char_zero d : 0 <= d < 16 -> digit_char d = "0"%char -> d = 0.
Proof. intros H E. assert (Hd := digit_val_char16 d H). rewrite E in Hd. cbn in Hd. by injection Hd. Qed.

Lemma hex_digits_facts w : forall n acc, 0 <= n < 16 ^ Z.of_nat w ->
  String.length (hex_digits w n acc) = (w + String.length acc)%nat
  /\ str_forallb hex_char (hex_digits w n acc) = str_forallb hex_char acc
  /\ (to_ascii_lowercase acc = acc -> to_ascii_lowercase (hex_digits w n acc) = hex_digits w n acc)
  /\ (str_forallb (Ascii.eqb "0") (hex_digits w n acc) = true -> str_forallb (Ascii.eqb "0") acc = true /\ n = 0).
Proof.
  induction w as [|w IH]; intros n acc Hn; cbn [hex_digits].
  { change (16 ^ Z.of_nat 0) with 1 in Hn. split_and!; try done. intros H. split; [done|lia]. }
  rewrite Nat2Z.inj_succ, Z.pow_succ_r in Hn by lia.
  assert (Hm : 0 <= n mod 16 < 16) by (apply Z.mod_pos_bound; lia).
  destruct (IH (n / 16) (String (digit_char (n mod 16)) acc)) as (H1 & H2 & H3 & H4).
  { split; [apply Z.div_pos; lia|apply Z.div_lt_upper_bound; lia]. }
  destruct (digit_char_hex _ Hm) as [Hc Hl]. split_and!.
  - rewrite H1. cbn. lia.
  - rewrite H2. cbn [str_forallb]. by rewrite Hc.
  - intros Ha. apply H3. cbn [to_ascii_lowercase]. by rewrite Hl, Ha.
  - intros H. apply H4 in H as [H Hz]. cbn [str_forallb] in H. apply andb_prop in H as [Hd H]. split; [done|].
    apply Ascii.eqb_eq in Hd. symmetry in Hd. apply digit_char_zero in Hd; [|done].
    pose proof (Z.div_mod n 16 ltac:(lia)). lia.
Qed.

Lemma hex_padded_ok w n :
  0 < n < 16 ^ Z.of_nat w -> is_non_zero_hex (hex_padded w n) (Z.of_nat w) = true /\ to_ascii_lowercase (hex_padded w n) = hex_padded w n.
Proof.
  intros H. unfold hex_padded, is_non_zero_hex, is_valid_hex, str_len.
  destruct (hex_digits_facts w n EmptyString ltac:(lia)) as (H1 & H2 & H3 & H4). split; [|by apply H3].
  rewrite H1, Nat.add_0_r, Z.eqb_refl. unfold hex_char in H2. rewrite H2. cbn [str_forallb andb].
  apply negb_true_iff, not_true_is_false. intros E. apply H4 in E as [_ E]. lia.
Qed.

Section TraceFacts.
Context `{HDR : HeaderOps} {LAWS : HeaderLaws HDR} {TEXT : HeaderTextLaws HDR}.

Lemma header_text_insert h n v m :
  str_forallb is_ascii_graphic v = true ->
  header_text (h_insert n v h) m = if decide (m = n) then Some v else header_text h m.
Proof.
  intros Hv. unfold header_text. rewrite !get_first, get_all_insert. destruct (decide (m = n)); [|done]. cbn. by apply to_str_text.
Qed.

(** The trace that the request goes on with. *)
Definition outgoing_trace (incoming : option TraceParent) (random_trace random_span : Z) : TraceParent :=
  match incoming with
  | Some tp => mkTraceParent (tp_version tp) (tp_trace_id tp) (hex_padded 16 random_span) (tp_flags tp)
  | None => mkTraceParent "00" (hex_padded 32 random_trace) (hex_padded 16 random_span) "01"
  end.

Lemma outgoing_ok incoming rt rs :
  (forall tp, incoming = Some tp -> trace_ok tp) -> 0 < rt < 2 ^ 128 -> 0 < rs < 2 ^ 64 -> trace_ok (outgoing_trace incoming rt rs).
Proof.
  intros Hi Ht Hs. destruct (hex_padded_ok 16 rs Hs) as [S1 S2]. destruct (hex_padded_ok 32 rt Ht) as [T1 T2].
  unfold outgoing_trace, trace_ok. destruct incoming as [tp|].
  - destruct (Hi tp eq_refl) as (? & ? & ? & ? & ? & ? & ? & ?). by split_and!.
  - cbn [tp_version tp_trace_id tp_parent_id tp_flags]. by split_and!.
Qed.

(** A request goes on with the trace of its client, under a span of the proxy, and with a
    new trace when it has none that is valid; its identifier is the one that the client sent, or
    the trace; and no other header changes. *)
Theorem trace_propagated (h : Headers) (rt rs : Z) :
  0 < rt < 2 ^ 128 -> 0 < rs < 2 ^ 64 ->
  let incoming := header_text h TRACEPARENT ≫= TraceParent_parse in
  let out := outgoing_trace incoming rt rs in
  let '(h', request_id) := extract_and_propagate_trace_context h rt rs in
  header_text h' TRACEPARENT = Some (trace_text out)
  /\ (tp_version out <> "ff" -> TraceParent_parse (trace_text out) = Some out)
  /\ (forall tp, incoming = Some tp -> tp_trace_id out = tp_trace_id tp /\ tp_flags out = tp_flags tp)
  /\ request_id = match header_text h X_REQUEST_ID with
                  | Some s => if str_is_empty (trim s) then tp_trace_id out else trim s
                  | None => tp_trace_id out
                  end
  /\ trim <$> header_text h' X_REQUEST_ID = Some request_id
  /\ (forall n, n <> TRACEPARENT -> n <> X_REQUEST_ID -> h_get_all h' n = h_get_all h n).
Proof.
  intros Ht Hs incoming out.
  assert (Hok : trace_ok out).
  { apply outgoing_ok; [|done|done]. intros tp. unfold incoming. destruct (header_text h TRACEPARENT); [|done]. apply TraceParent_parse_ok. }
  assert (Ev : forall p, (forall c, hex_char c = true -> p c = true) -> p "-"%char = true -> str_forallb p (trace_text out) = true)
    by (intros p; by apply trace_text_chars).
  assert (Hg := Ev is_ascii_graphic (fun c Hc => proj1 (proj2 (hex_char_facts c Hc))) eq_refl).
  assert (Hid : str_forallb hex_char (tp_trace_id out) = true) by (eapply valid_chars, non_zero_valid, Hok).
  assert (Higr : str_forallb is_ascii_graphic (tp_trace_id out) = true)
    by (eapply str_forallb_impl; [|exact Hid]; intros c Hc; by apply hex_char_facts).
  assert (Htid : trim (tp_trace_id out) = tp_trace_id out)
    by (apply trim_header_text; eapply str_forallb_impl; [|exact Hid]; intros c Hc; by apply hex_char_facts).
  unfold extract_and_propagate_trace_context. fold incoming.
  assert (Hpair : match incoming with
                  | Some tp => (tp_trace_id tp, child_traceparent tp rs)
                  | None => (new_request_id rt, new_root (new_request_id rt) rs)
                  end = (tp_trace_id out, trace_text out)) by (unfold out; by destruct incoming).
  rewrite Hpair, (value_text (trace_text out)), (value_text (tp_trace_id out)), header_text_insert by done.
  rewrite decide_False by done.
  assert (Hlast : forall tp, incoming = Some tp -> tp_trace_id out = tp_trace_id tp /\ tp_flags out = tp_flags tp)
    by (intros tp E; unfold out; rewrite E; done).
  assert (Hparse : tp_version out <> "ff" -> TraceParent_parse (trace_text out) = Some out) by (by apply parse_trace_text).
  destruct (header_text h X_REQUEST_ID) as [s|] eqn:Ex; [destruct (str_is_empty (trim s)) eqn:Ee; cbn [negb]|];
    (split_and!; [ | done | done | done | | ]).
  all: try (intros n H1 H2; by rewrite ?get_all_insert, ?decide_False by done).
  all: rewrite ?header_text_insert by done; rewrite ?(decide_False (P := TRACEPARENT = X_REQUEST_ID)),
    ?(decide_False (P := X_REQUEST_ID = TRACEPARENT)), ?(decide_True (P := TRACEPARENT = TRACEPARENT)),
    ?(decide_True (P := X_REQUEST_ID = X_REQUEST_ID)) by done; try done.
  - cbn. by rewrite Htid.
  - by rewrite Ex.
  - cbn. by rewrite Htid.
Qed.

End TraceFacts.

(** The version is compared with [ff] before it is brought into lower case. *)
Lemma upper_version_accepted :
  exists tp, TraceParent_parse "FF-4bf92f3577b34da6a3ce929d0e0e4736-00f067aa0ba902b7-01" = Some tp
             /\ TraceParent_parse (child_traceparent tp 1) = None.
Proof. eexists. split; [by vm_compute|]. by vm_compute. Qed.

Definition sample_trace_headers : list (string * string) :=
  [("traceparent", "00-4bf92f3577b34da6a3ce929d0e0e4736-00f067aa0ba902b7-01"); ("accept", "*/*")].

Lemma trace_propagated_witness :
  extract_and_propagate_trace_context (HDR := plain_header_ops) sample_trace_headers 7 10
  = ([("accept", "*/*"); ("traceparent", "00-4bf92f3577b34da6a3ce929d0e0e4736-000000000000000a-01");
      ("x-request-id", "4bf92f3577b34da6a3ce929d0e0e4736")], "4bf92f3577b34da6a3ce929d0e0e4736")
  /\ (let incoming := header_text (HDR := plain_header_ops) sample_trace_headers TRACEPARENT ≫= TraceParent_parse in
      let out := outgoing_trace incoming 7 10 in
      let '(h', request_id) := extract_and_propagate_trace_context (HDR := plain_header_ops) sample_trace_headers 7 10 in
      header_text (HDR := plain_header_ops) h' TRACEPARENT = Some (trace_text out)
      /\ (tp_version out <> "ff" -> TraceParent_parse (trace_text out) = Some out)
      /\ (forall tp, incoming = Some tp -> tp_trace_id out = tp_trace_id tp /\ tp_flags out = tp_flags tp)
      /\ request_id = match header_text (HDR := plain_header_ops) sample_trace_headers X_REQUEST_ID with
                      | Some s => if str_is_empty (trim s) then tp_trace_id out else trim s
                      | None => tp_trace_id out
                      end
      /\ trim <$> header_text (HDR := plain_header_ops) h' X_REQUEST_ID = Some request_id
      /\ (forall n, n <> TRACEPARENT -> n <> X_REQUEST_ID ->
            h_get_all (HeaderOps := plain_header_ops) h' n = h_get_all (HeaderOps := plain_header_ops) sample_trace_headers n)).
Proof. split; [by vm_compute|]. apply (trace_propagated (HDR := plain_header_ops)); lia. Defined.

Definition frame_variables : HeaderVariables := mkHeaderVariables (V4 0) "h" "http" "id" "/" "" "".

Definition hand_edited : HeaderRules :=
  mkHeaderRules [RSet "X-A" "1"; RAppend "x-a" "{host}"; RSet "Host" "evil"; RRemove "Connection"] [].

Lemma rules_keep_protected_witness :
  apply_request (HDR := plain_header_ops) (CompiledHeaderRules_new (HDR := plain_header_ops) hand_edited) [("host", "h"); ("connection", "close")] frame_variables
  = [("host", "h"); ("connection", "close"); ("x-a", "1"); ("x-a", "h")]
  /\ h_get_all (HeaderOps := plain_header_ops)
       (apply_request (HDR := plain_header_ops) (CompiledHeaderRules_new (HDR := plain_header_ops) hand_edited) [("host", "h"); ("connection", "close")] frame_variables)
       "host" = ["h"].
Proof.
  split; [by vm_compute|].
  exact (proj1 (rules_keep_protected (HDR := plain_header_ops) hand_edited [("host", "h"); ("connection", "close")] frame_variables "host")).
Defined.
