(* ===== verification/Rewriter.v ===== *)
(** * The headers of proxied requests

    The request half of [proxy/http/rewriter.rs]: [RequestRewriter] with the forwarded headers,
    and the removal of the headers of the connection.  The map of the headers is the interface of
    [Headers.v]. *)

From Stdlib Require Import Ascii.
From stdpp Require Import strings.
From S2P Require Import Prelude Basics IpText Net Policy Headers Cookies ClientIp Pool EnvFiles HeaderRules.

Definition VIA : string := "via".
Definition FORWARDED : string := "forwarded".
Definition X_FORWARDED_FOR : string := "x-forwarded-for".
Definition X_FORWARDED_PROTO : string := "x-forwarded-proto".
Definition X_FORWARDED_HOST : string := "x-forwarded-host".
Definition X_REAL_IP : string := "x-real-ip".

(** ** Directives *)

Definition DOUBLE_QUOTE : ascii := "034".

Definition quoted (s : string) : string := String DOUBLE_QUOTE (String.append s (String DOUBLE_QUOTE EmptyString)).

Definition forwarded_for_directive (addr : IpAddr) : string :=
  match addr with
  | V6 _ => String.append "for=" (quoted (String "[" (String.append (ip_to_string addr) "]")))
  | V4 _ => String.append "for=" (ip_to_string addr)
  end.

Definition token_char (c : ascii) : bool := is_ascii_alphanumeric c || str_contains_char "!#$%&'*+-.^_`|~" c.

Definition is_rfc7230_token (s : string) : bool := negb (str_is_empty s) && str_forallb token_char s.

Definition has_control_chars (s : string) : bool := negb (str_forallb (fun c => negb ((byte_of c <? 32) || (byte_of c =? 127))) s).

Fixpoint escape_quoted_string (s : string) : string :=
  match s with
  | EmptyString => EmptyString
  | String c r =>
      if Ascii.eqb c DOUBLE_QUOTE || Ascii.eqb c "\" then String "\" (String c (escape_quoted_string r))
      else String c (escape_quoted_string r)
  end.

Definition forwarded_host_directive (host : string) : option string :=
  if str_is_empty host || has_control_chars host then None
  else if is_rfc7230_token host then Some (String.append "host=" host)
  else Some (String.append "host=" (quoted (escape_quoted_string host))).

Definition forwarded_proto_directive (proto : string) : string := String.append "proto=" proto.

(** ** The rewriter of requests *)

Record RequestRewriter : Type := mkRequestRewriter { set_via : option string }.

Definition HOP_BY_HOP_HEADERS : list string :=
  ["connection"; "keep-alive"; "proxy-authenticate"; "proxy-authorization"; "proxy-connection"; "trailer"; "trailers";
   "transfer-encoding"; "upgrade"; "http2-settings"].

Section Rewriter.
Context `{HDR : HeaderOps}.

Definition remove_untrusted_headers (h : Headers) : Headers := fold_left (fun h key => h_remove key h) CLIENT_IP_HEADERS h.

(** The items of the values of a name; a value that is no text is one empty item. *)
Definition comma_items (h : Headers) (name : string) : list string :=
  flat_map (fun v => split_on "," (default EmptyString (to_str v))) (h_get_all h name).

(** The addresses, and the map without the header. *)
Definition parse_x_forwarded_for (h : Headers) : list IpAddr * Headers :=
  if h_contains h X_FORWARDED_FOR then
    (omap (fun ip => parse_ip (trim ip)) (comma_items h X_FORWARDED_FOR), h_remove X_FORWARDED_FOR h)
  else ([], h).

Definition parse_forwarded (h : Headers) : list string * Headers :=
  if h_contains h FORWARDED then (map trim (comma_items h FORWARDED), h_remove FORWARDED h) else ([], h).

(** [if let Ok(v) = HeaderValue::from_str(..)] before an [insert]. *)
Definition insert_text (name text : string) (h : Headers) : Headers :=
  match value_from_str text with Some v => h_insert name v h | None => h end.

Definition current_hop (remote_addr : IpAddr) (request_host : option string) (forwarded_proto : string) : string :=
  String.concat ";" ([forwarded_for_directive remote_addr]
                ++ option_list (request_host ≫= forwarded_host_directive)
                ++ [forwarded_proto_directive forwarded_proto]).

Definition pre_process (h : Headers) (client : ClientAddr) (request_host : option string) (forwarded_proto : string) : Headers :=
  let remote_addr := peer client in
  let '(x_forwarded_for, forwarded, h) :=
    (if trusted_peer client then
       let '(x_forwarded_for, h) := parse_x_forwarded_for h in
       let '(forwarded, h) := parse_forwarded h in
       (x_forwarded_for, forwarded, insert_text X_REAL_IP (ip_to_string (ip client)) h)
     else ([], [], remove_untrusted_headers h)) in
  let forwarded := match forwarded with [] => map forwarded_for_directive x_forwarded_for | _ => forwarded end in
  let h := insert_text FORWARDED (String.concat ", " (forwarded ++ [current_hop remote_addr request_host forwarded_proto])) h in
  let h := insert_text X_FORWARDED_FOR (String.concat ", " (map ip_to_string (x_forwarded_for ++ [remote_addr]))) h in
  let h := h_insert X_FORWARDED_PROTO forwarded_proto h in
  match request_host with
  | Some host => insert_text X_FORWARDED_HOST host h
  | None => h
  end.

Definition post_process (r : RequestRewriter) (h : Headers) : Headers :=
  match set_via r with Some via => h_insert VIA via h | None => h end.

(** ** Headers of the connection *)

Definition is_websocket_upgrade (h : Headers) (method : HttpMethod) : bool :=
  if negb (bool_decide (method = GET)) then false
  else
    let has_ws :=
      existsb (fun v => match to_str v with Some s => eq_ignore_ascii_case s "websocket" | None => false end) (h_get_all h "upgrade") in
    let has_upgrade :=
      existsb (fun v => match to_str v with
                        | Some s => existsb (fun p => eq_ignore_ascii_case (trim p) "upgrade") (split_on "," s)
                        | None => false
                        end) (h_get_all h "connection") in
    has_ws && has_upgrade.

(** The names that the [Connection] headers list. *)
Definition connection_names (h : Headers) : list string :=
  flat_map (fun value =>
    match to_str value with
    | Some s =>
        omap (fun token =>
          let trimmed := trim token in
          if negb (str_is_empty trimmed) && negb (eq_ignore_ascii_case trimmed "upgrade") then name_from_bytes trimmed else None)
          (split_on "," s)
    | None => []
    end) (h_get_all h "connection").

Definition remove_connection_named_headers (h : Headers) : Headers := fold_left (fun h n => h_remove n h) (connection_names h) h.

Definition is_te_trailers (h : Headers) : bool :=
  match header_text h "te" with Some s => eq_ignore_ascii_case (trim s) "trailers" | None => false end.

Definition sanitize_te_header (h : Headers) : Headers := if is_te_trailers h then h else h_remove "te" h.

Definition remove_hop_by_hop_headers (h : Headers) (method : HttpMethod) : Headers :=
  let ws := is_websocket_upgrade h method in
  let h := remove_connection_named_headers h in
  let h := sanitize_te_header h in
  let h := fold_left (fun h name =>
             if ws && (String.eqb name "connection" || String.eqb name "upgrade") then h else h_remove name h)
             HOP_BY_HOP_HEADERS h in
  if ws then h_insert "upgrade" "websocket" (h_insert "connection" "upgrade" h) else h.

End Rewriter.

(** ** What is left of the headers of the connection *)

(** Text without control characters but tabs is a header value, and [to_str] yields such text. *)
Definition value_char (c : ascii) : bool := (byte_of c =? 9) || negb ((byte_of c <? 32) || (byte_of c =? 127)).

Class HeaderValueLaws (H : HeaderOps) : Prop := {
  value_plain s : str_forallb value_char s = true -> value_from_str s = Some s;
  to_str_plain v s : to_str v = Some s -> str_forallb value_char s = true;
}.

#[export] Instance plain_value_laws : HeaderValueLaws plain_header_ops.
Proof.
  split; [by intros s _|]. intros v s. cbn. destruct (str_forallb _ v) eqn:E; [|done]. intros [= <-].
  eapply str_forallb_impl; [|exact E]. intros c. destruct c as [[] [] [] [] [] [] [] []]; by vm_compute.
Qed.

Section HopFacts.
Context `{HDR : HeaderOps} {LAWS : HeaderLaws HDR}.

Lemma remove_all_values l : forall h n,
  h_get_all (fold_left (fun h key => h_remove key h) l h) n = if decide (n ∈ l) then [] else h_get_all h n.
Proof.
  induction l as [|k l IH]; intros h n; cbn [fold_left]; [by rewrite decide_False by apply not_elem_of_nil|].
  rewrite IH, get_all_remove. destruct (decide (n ∈ l)) as [Hin|Hout].
  - rewrite decide_True by by right. done.
  - destruct (decide (n = k)) as [->|Hne]; [by rewrite decide_True by by left|].
    rewrite decide_False; [done|]. by intros [?|?]%elem_of_cons.
Qed.

(** The removal passes over some names. *)
Lemma remove_unless_values (keep : string -> bool) l : forall h n,
  h_get_all (fold_left (fun h key => if keep key then h else h_remove key h) l h) n
  = if decide (n ∈ l /\ keep n = false) then [] else h_get_all h n.
Proof.
  induction l as [|k l IH]; intros h n; cbn [fold_left]; [rewrite decide_False; [done|by intros [?%not_elem_of_nil _]]|].
  rewrite IH. destruct (decide (n ∈ l /\ keep n = false)) as [[Hin Hk]|Hout].
  - rewrite decide_True; [done|]. split; [by right|done].
  - destruct (keep k) eqn:Ek; [|rewrite get_all_remove; destruct (decide (n = k)) as [->|Hne]].
    + rewrite decide_False; [done|]. intros [[->|?]%elem_of_cons ?]; [congruence|]. by apply Hout.
    + rewrite decide_True; [done|]. by split; [left|].
    + rewrite decide_False; [done|]. intros [[->|?]%elem_of_cons ?]; [done|]. by apply Hout.
Qed.

Definition hop_values (h : Headers) (method : HttpMethod) (n : string) : list string :=
  let ws := is_websocket_upgrade h method in
  if ws && String.eqb n "connection" then ["upgrade"]
  else if ws && String.eqb n "upgrade" then ["websocket"]
  else if bool_decide (n ∈ HOP_BY_HOP_HEADERS) || bool_decide (n ∈ connection_names h) then []
  else if String.eqb n "te" && negb (is_te_trailers h) then []
  else h_get_all h n.

Lemma te_trailers_ext h h' : h_get_all h "te" = h_get_all h' "te" -> is_te_trailers h = is_te_trailers h'.
Proof. intros H. unfold is_te_trailers, header_text. by rewrite !get_first, H. Qed.

Lemma sanitize_values h n :
  h_get_all (sanitize_te_header h) n = if String.eqb n "te" && negb (is_te_trailers h) then [] else h_get_all h n.
Proof.
  unfold sanitize_te_header. destruct (is_te_trailers h); cbn [negb]; [by rewrite andb_false_r|].
  rewrite get_all_remove, andb_true_r. destruct (String.eqb_spec n "te") as [->|Hne]; [by rewrite decide_True|by rewrite decide_False].
Qed.

(** The request that goes on has no header of the connection and none that its [Connection]
    header names; what is left of the others is exactly what came in.  Only a WebSocket upgrade
    keeps [Connection] and [Upgrade], each with the one value of the handshake. *)
Lemma hop_by_hop_exact (h : Headers) (method : HttpMethod) (n : string) :
  h_get_all (remove_hop_by_hop_headers h method) n = hop_values h method n.
Proof.
  unfold remove_hop_by_hop_headers, hop_values. cbn zeta. set (ws := is_websocket_upgrade h method).
  set (h1 := remove_connection_named_headers h).
  assert (H1 : forall m, h_get_all h1 m = if decide (m ∈ connection_names h) then [] else h_get_all h m)
    by (intros m; apply remove_all_values).
  set (keep := fun name => ws && (String.eqb name "connection" || String.eqb name "upgrade")).
  set (h2 := fold_left _ HOP_BY_HOP_HEADERS _).
  assert (H2 : h_get_all h2 n
               = if decide (n ∈ HOP_BY_HOP_HEADERS /\ keep n = false) then []
                 else h_get_all (sanitize_te_header h1) n) by apply (remove_unless_values keep).
  assert (H3 : keep n = false ->
    h_get_all h2 n = if bool_decide (n ∈ HOP_BY_HOP_HEADERS) || bool_decide (n ∈ connection_names h) then []
                     else if String.eqb n "te" && negb (is_te_trailers h) then [] else h_get_all h n).
  { intros Hk. rewrite H2. destruct (decide (n ∈ HOP_BY_HOP_HEADERS)) as [Hin|Hout].
    - rewrite decide_True, bool_decide_true by done. done.
    - rewrite decide_False, (bool_decide_false (n ∈ HOP_BY_HOP_HEADERS)) by tauto. cbn [orb].
      rewrite sanitize_values, H1. destruct (decide (n ∈ connection_names h)) as [Hc|Hc].
      + rewrite bool_decide_true by done. by destruct (_ && _).
      + rewrite bool_decide_false by done. destruct (String.eqb_spec n "te") as [->|Hne]; [|done].
        assert (E : is_te_trailers h1 = is_te_trailers h) by (apply te_trailers_ext; by rewrite H1, decide_False).
        by rewrite E. }
  unfold keep in H3. destruct ws; cbn [andb] in *.
  - rewrite !get_all_insert. destruct (String.eqb_spec n "connection") as [->|Hc].
    + by rewrite decide_False, decide_True.
    + destruct (String.eqb_spec n "upgrade") as [->|Hu]; [by rewrite decide_True|]. rewrite !decide_False by done.
      by apply H3.
  - by apply H3.
Qed.

End HopFacts.

(** ** What the upstream server learns of the client *)

Lemma ip_plain ip : str_forallb value_char (ip_to_string ip) = true.
Proof.
  eapply str_forallb_impl; [|apply ip_to_string_chars]. intros c. destruct c as [[] [] [] [] [] [] [] []]; by vm_compute.
Qed.

Lemma quoted_plain s : str_forallb value_char s = true -> str_forallb value_char (quoted s) = true.
Proof. intros H. unfold quoted. cbn [str_forallb]. by rewrite str_forallb_append, H. Qed.

Lemma for_directive_plain ip : str_forallb value_char (forwarded_for_directive ip) = true.
Proof.
  pose proof (ip_plain ip) as H. destruct ip; cbn [forwarded_for_directive]; rewrite str_forallb_append; [by rewrite H|].
  rewrite quoted_plain; [done|]. cbn [str_forallb]. by rewrite str_forallb_append, H.
Qed.

Lemma escape_plain s : str_forallb value_char s = true -> str_forallb value_char (escape_quoted_string s) = true.
Proof.
  induction s as [|c s IH]; [done|]. cbn [str_forallb escape_quoted_string]. intros [Hc Hs]%andb_prop.
  destruct (_ || _); cbn [str_forallb]; by rewrite ?Hc, IH.
Qed.

Lemma host_directive_plain host d : forwarded_host_directive host = Some d -> str_forallb value_char d = true.
Proof.
  unfold forwarded_host_directive. destruct (str_is_empty host); [done|]. cbn [orb].
  destruct (has_control_chars host) eqn:E; [done|].
  assert (H : str_forallb value_char host = true).
  { unfold has_control_chars in E. apply negb_false_iff in E. eapply str_forallb_impl; [|exact E].
    intros c Hc. unfold value_char. by rewrite Hc, orb_true_r. }
  destruct (is_rfc7230_token host); intros Ed; apply (inj Some) in Ed; rewrite <-Ed, str_forallb_append; [by rewrite H|].
  by rewrite quoted_plain by by apply escape_plain.
Qed.

Lemma concat_plain sep l :
  str_forallb value_char sep = true -> Forall (fun s => str_forallb value_char s = true) l ->
  str_forallb value_char (String.concat sep l) = true.
Proof.
  intros Hs. induction 1 as [|s l H Hl IH]; [done|]. cbn [String.concat]. destruct l as [|s' l]; [done|].
  by rewrite !str_forallb_append, H, Hs, IH.
Qed.

Lemma current_hop_plain ip host proto : str_forallb value_char proto = true -> str_forallb value_char (current_hop ip host proto) = true.
Proof.
  intros Hp. unfold current_hop. apply concat_plain; [done|]. constructor; [apply for_directive_plain|].
  apply Forall_app. split.
  - destruct (host ≫= forwarded_host_directive) as [d|] eqn:E; [|constructor]. repeat constructor.
    destruct host as [h|]; [|done]. by eapply host_directive_plain.
  - constructor; [|constructor]. unfold forwarded_proto_directive. by rewrite str_forallb_append, Hp.
Qed.

Section ForwardFacts.
Context `{HDR : HeaderOps} {LAWS : HeaderLaws HDR} {VALUES : HeaderValueLaws HDR}.

Lemma insert_text_values name text h n :
  h_get_all (insert_text name text h) n
  = match value_from_str text with
    | Some v => if decide (n = name) then [v] else h_get_all h n
    | None => h_get_all h n
    end.
Proof. unfold insert_text. destruct (value_from_str text); [apply get_all_insert|done]. Qed.

Lemma insert_plain_values name text h n :
  str_forallb value_char text = true ->
  h_get_all (insert_text name text h) n = if decide (n = name) then [text] else h_get_all h n.
Proof. intros H. rewrite insert_text_values, value_plain; done. Qed.

(** The headers of the name of the host: what [from_str] accepts. *)
Definition host_values (request_host : option string) (others : list string) : list string :=
  match request_host ≫= value_from_str with Some v => [v] | None => others end.

(** The values of a name after [pre_process], when a peer that is not trusted sent the request. *)
Definition untrusted_values (h : Headers) (p : IpAddr) (request_host : option string) (proto n : string) : list string :=
  if String.eqb n X_FORWARDED_HOST then host_values request_host []
  else if String.eqb n X_FORWARDED_PROTO then [proto]
  else if String.eqb n X_FORWARDED_FOR then [ip_to_string p]
  else if String.eqb n FORWARDED then [current_hop p request_host proto]
  else if bool_decide (n ∈ CLIENT_IP_HEADERS) then []
  else h_get_all h n.

(** The chain of a trusted peer: what it sent, and itself. *)
Definition chain_of (h : Headers) (p : IpAddr) : list IpAddr :=
  omap (fun ip => parse_ip (trim ip)) (comma_items h X_FORWARDED_FOR) ++ [p].

(** What it sent in [Forwarded], or the chain in the form of this header. *)
Definition forwarded_items (h : Headers) : list string :=
  if h_contains h FORWARDED then map trim (comma_items h FORWARDED)
  else map forwarded_for_directive (omap (fun ip => parse_ip (trim ip)) (comma_items h X_FORWARDED_FOR)).

Definition trusted_values (h : Headers) (client : ClientAddr) (request_host : option string) (proto n : string) : list string :=
  if String.eqb n X_FORWARDED_HOST then host_values request_host (h_get_all h n)
  else if String.eqb n X_FORWARDED_PROTO then [proto]
  else if String.eqb n X_FORWARDED_FOR then [String.concat ", " (map ip_to_string (chain_of h (peer client)))]
  else if String.eqb n FORWARDED then [String.concat ", " (forwarded_items h ++ [current_hop (peer client) request_host proto])]
  else if String.eqb n X_REAL_IP then [ip_to_string (ip client)]
  else h_get_all h n.

(** The headers that every request gets, over a map that has none of the replaced ones. *)
Lemma forwarded_values h fwd xff host proto n :
  str_forallb value_char fwd = true -> str_forallb value_char xff = true ->
  h_get_all
    (let h := insert_text FORWARDED fwd h in
     let h := insert_text X_FORWARDED_FOR xff h in
     let h := h_insert X_FORWARDED_PROTO proto h in
     match host with Some host => insert_text X_FORWARDED_HOST host h | None => h end) n
  = if String.eqb n X_FORWARDED_HOST then host_values host (h_get_all h n)
    else if String.eqb n X_FORWARDED_PROTO then [proto]
    else if String.eqb n X_FORWARDED_FOR then [xff]
    else if String.eqb n FORWARDED then [fwd]
    else h_get_all h n.
Proof.
  intros Hf Hx. cbn zeta.
  assert (H : h_get_all (h_insert X_FORWARDED_PROTO proto (insert_text X_FORWARDED_FOR xff (insert_text FORWARDED fwd h))) n
              = if String.eqb n X_FORWARDED_PROTO then [proto]
                else if String.eqb n X_FORWARDED_FOR then [xff]
                else if String.eqb n FORWARDED then [fwd] else h_get_all h n).
  { rewrite get_all_insert, !insert_plain_values by done.
    destruct (String.eqb_spec n X_FORWARDED_PROTO); [by rewrite decide_True|]. rewrite decide_False by done.
    destruct (String.eqb_spec n X_FORWARDED_FOR); [by rewrite decide_True|]. rewrite decide_False by done.
    destruct (String.eqb_spec n FORWARDED); [by rewrite decide_True|]. by rewrite decide_False. }
  unfold host_values. destruct host as [host|]; cbn [option_bind mbind].
  - rewrite insert_text_values, H. destruct (value_from_str host) as [v|]; cbn.
    + destruct (String.eqb_spec n X_FORWARDED_HOST); [by rewrite decide_True|]. by rewrite decide_False.
    + destruct (String.eqb_spec n X_FORWARDED_HOST) as [->|]; [|done]. by change (String.eqb X_FORWARDED_HOST _) with false.
  - rewrite H. cbn. destruct (String.eqb_spec n X_FORWARDED_HOST) as [->|]; [|done]. by change (String.eqb X_FORWARDED_HOST _) with false.
Qed.

Lemma parse_x_forwarded_for_eq h :
  (parse_x_forwarded_for h).1 = omap (fun ip => parse_ip (trim ip)) (comma_items h X_FORWARDED_FOR)
  /\ forall n, n <> X_FORWARDED_FOR -> h_get_all (parse_x_forwarded_for h).2 n = h_get_all h n.
Proof.
  unfold parse_x_forwarded_for. rewrite contains_get_all. destruct (bool_decide _) eqn:E; cbn [negb fst snd].
  - apply bool_decide_eq_true in E. split; [|done]. unfold comma_items. by rewrite E.
  - split; [done|]. intros n Hn. by rewrite get_all_remove, decide_False.
Qed.

Lemma comma_items_ext h h' n : h_get_all h n = h_get_all h' n -> comma_items h n = comma_items h' n.
Proof. unfold comma_items. by intros ->. Qed.

Lemma comma_items_plain h n : Forall (fun s => str_forallb value_char s = true) (map trim (comma_items h n)).
Proof.
  apply Forall_map. unfold comma_items. apply Forall_flat_map, Forall_true. intros v.
  assert (Hv : str_forallb value_char (default EmptyString (to_str v)) = true).
  { destruct (to_str v) as [s|] eqn:E; [|done]. by eapply to_str_plain. }
  eapply Forall_impl; [by apply split_by_forallb|]. intros s Hs. by apply str_forallb_trim_ws.
Qed.

(** What [parse_forwarded] finds after the other header went. *)
Lemma parse_forwarded_eq h h1 :
  (forall n, n <> X_FORWARDED_FOR -> h_get_all h1 n = h_get_all h n) ->
  match (parse_forwarded h1).1 with
  | [] => map forwarded_for_directive (omap (fun ip => parse_ip (trim ip)) (comma_items h X_FORWARDED_FOR))
  | items => items
  end = forwarded_items h
  /\ forall n, n <> FORWARDED -> h_get_all (parse_forwarded h1).2 n = h_get_all h1 n.
Proof.
  intros H. unfold parse_forwarded, forwarded_items. rewrite !contains_get_all.
  rewrite H by done. destruct (bool_decide _) eqn:E; cbn [negb fst snd]; split; try done.
  - rewrite (comma_items_ext h1 h) by by apply H. apply bool_decide_eq_false in E.
    destruct (map trim (comma_items h FORWARDED)) as [|x l] eqn:Em; [|done]. exfalso. apply map_eq_nil in Em.
    unfold comma_items in Em. destruct (h_get_all h FORWARDED) as [|v vs]; [done|]. cbn in Em.
    apply app_eq_nil in Em as [Em _]. by apply split_by_nonempty in Em.
  - intros n Hn. by rewrite get_all_remove, decide_False.
Qed.

Lemma forwarded_items_plain h : Forall (fun s => str_forallb value_char s = true) (forwarded_items h).
Proof.
  unfold forwarded_items. destruct (h_contains h FORWARDED); [apply comma_items_plain|].
  apply Forall_map, Forall_true. intros. apply for_directive_plain.
Qed.

(** The forwarded headers of a request describe its connection: from a peer that is not
    trusted, every header that names a client is gone, and the forwarded headers name the peer
    and nothing else; from a trusted peer its chain goes on with the peer at the end, and
    [X-Real-IP] is the resolved client.  No other header changes. *)
Lemma forwarded_headers_exact (h : Headers) (client : ClientAddr) (request_host : option string) (proto n : string) :
  str_forallb value_char proto = true ->
  h_get_all (pre_process h client request_host proto) n
  = if trusted_peer client then trusted_values h client request_host proto n
    else untrusted_values h (peer client) request_host proto n.
Proof.
  intros Hp. unfold pre_process. cbn zeta. destruct (trusted_peer client).
  - destruct (parse_x_forwarded_for_eq h) as [Ex Hx].
    destruct (parse_x_forwarded_for h) as [xs h1]. cbn [fst snd] in *. subst xs.
    destruct (parse_forwarded_eq h h1 Hx) as [Ef Hfw]. destruct (parse_forwarded h1) as [fs h2]. cbn [fst snd] in *.
    assert (Em : match fs with [] => map forwarded_for_directive (omap (fun ip => parse_ip (trim ip)) (comma_items h X_FORWARDED_FOR))
                 | _ :: _ => fs end = forwarded_items h) by (by destruct fs).
    rewrite Em, forwarded_values.
    + unfold trusted_values, chain_of.
      assert (E : forall m, m <> FORWARDED -> m <> X_FORWARDED_FOR -> m <> X_REAL_IP ->
                  h_get_all (insert_text X_REAL_IP (ip_to_string (ip client)) h2) m = h_get_all h m)
        by (intros; rewrite insert_plain_values, decide_False by (done || apply ip_plain); by rewrite Hfw, Hx).
      destruct (String.eqb_spec n X_FORWARDED_HOST) as [->|]; [by rewrite E|].
      destruct (String.eqb_spec n X_FORWARDED_PROTO); [done|].
      destruct (String.eqb_spec n X_FORWARDED_FOR) as [->|]; [done|].
      destruct (String.eqb_spec n FORWARDED); [done|].
      destruct (String.eqb_spec n X_REAL_IP) as [->|]; [|by apply E].
      rewrite insert_plain_values by apply ip_plain. by rewrite decide_True.
    + apply concat_plain; [done|]. apply Forall_app. split; [apply forwarded_items_plain|].
      constructor; [by apply current_hop_plain|constructor].
    + apply concat_plain; [done|]. apply Forall_map, Forall_true. intros. apply ip_plain.
  - rewrite forwarded_values; [|by apply current_hop_plain|by apply ip_plain].
    unfold untrusted_values, remove_untrusted_headers. rewrite remove_all_values.
    destruct (decide (n ∈ CLIENT_IP_HEADERS)) as [Hin|Hout].
    + rewrite bool_decide_true by done. done.
    + rewrite bool_decide_false by done. destruct (String.eqb_spec n X_FORWARDED_HOST) as [->|]; [|done].
      exfalso. apply Hout. by refine (bool_decide_unpack _ _).
Qed.

End ForwardFacts.

(** The client's [Connection] header also takes the headers that the proxy set before, like the
    name of the signed-in user and the mark of early data. *)
Definition stripped_identity : list (string * string) :=
  [("connection", "remote-user, early-data"); ("remote-user", "alice"); ("early-data", "1"); ("accept", "*/*")].

Lemma connection_strips_identity :
  remove_hop_by_hop_headers (HDR := plain_header_ops) stripped_identity GET = [("accept", "*/*")].
Proof. by vm_compute. Qed.

Definition spoofed : list (string * string) :=
  [("x-forwarded-for", "6.6.6.6"); ("x-real-ip", "6.6.6.6"); ("accept", "*/*")].

Lemma forwarded_headers_example :
  str_forallb value_char "https" = true
  /\ pre_process (HDR := plain_header_ops) spoofed (direct (V4 3405803783)) (Some "a.test") "https"
     = [("accept", "*/*"); ("forwarded", "for=203.0.113.7;host=a.test;proto=https"); ("x-forwarded-for", "203.0.113.7");
        ("x-forwarded-proto", "https"); ("x-forwarded-host", "a.test")]
  /\ h_get_all (HeaderOps := plain_header_ops)
       (pre_process (HDR := plain_header_ops) spoofed (direct (V4 3405803783)) (Some "a.test") "https") "x-forwarded-for" = ["203.0.113.7"].
Proof.
  split; [done|]. split; [by vm_compute|].
  exact (forwarded_headers_exact (HDR := plain_header_ops) spoofed (direct (V4 3405803783)) (Some "a.test") "https" "x-forwarded-for" eq_refl).
Defined.

Definition upgrade_headers : list (string * string) :=
  [("connection", "keep-alive, Upgrade"); ("upgrade", "websocket"); ("te", "gzip"); ("transfer-encoding", "chunked"); ("accept", "*/*")].

Lemma hop_by_hop_example :
  remove_hop_by_hop_headers (HDR := plain_header_ops) upgrade_headers GET
  = [("accept", "*/*"); ("connection", "upgrade"); ("upgrade", "websocket")]
  /\ h_get_all (HeaderOps := plain_header_ops) (remove_hop_by_hop_headers (HDR := plain_header_ops) upgrade_headers GET) "te" = [].
Proof.
  split; [by vm_compute|].
  exact (hop_by_hop_exact (HDR := plain_header_ops) upgrade_headers GET "te").
Defined.
