(* ===== verification/EarlyData.v ===== *)
(** * Early data

    [r3v3rs3-api/src/early_data.rs]: the methods that early data may carry and the buffer that
    refuses replayed requests.  [Instant::now] is an argument; times are nanoseconds. *)

From stdpp Require Import gmap strings.
From S2P Require Import Prelude Basics IpText.

Definition EARLY_DATA_HEADER : string := "early-data".
Definition EARLY_DATA_VALUE : string := "1".
Definition DEFAULT_ANTI_REPLAY_WINDOW : Z := 60000000000.
Definition MAX_ANTI_REPLAY_ENTRIES : Z := 10000.

Definition is_safe_http_method (method : string) : bool :=
  bool_decide (to_ascii_uppercase method ∈ ["GET"; "HEAD"; "OPTIONS"; "TRACE"]).

(** Client, method in upper case, path and query. *)
Definition ReplayKey : Type := IpAddr * string * string.

Record AntiReplayBuffer : Type := mkAntiReplayBuffer { ar_window : Z; ar_max_entries : Z; ar_entries : gmap ReplayKey Z }.

Definition AntiReplayBuffer_new (window max_entries : Z) : AntiReplayBuffer := mkAntiReplayBuffer window max_entries ∅.

(** [now.duration_since(seen_at) < window]; the difference of two instants saturates at 0. *)
Definition within_window (b : AntiReplayBuffer) (now seen_at : Z) : bool := Z.max 0 (now - seen_at) <? ar_window b.

Definition buffer_len (b : AntiReplayBuffer) : Z := Z.of_nat (size (ar_entries b)).

Definition set_entries (b : AntiReplayBuffer) (m : gmap ReplayKey Z) : AntiReplayBuffer :=
  mkAntiReplayBuffer (ar_window b) (ar_max_entries b) m.

Definition retain_seen (b : AntiReplayBuffer) (now : Z) : AntiReplayBuffer :=
  if ar_max_entries b / 2 <? buffer_len b then
    set_entries b (filter (fun kv : ReplayKey * Z => within_window b now kv.2 = true) (ar_entries b))
  else b.

Definition evict_expired_or_overflow (b : AntiReplayBuffer) (now : Z) : AntiReplayBuffer :=
  let b := retain_seen b now in
  if ar_max_entries b <=? buffer_len b then set_entries b ∅ else b.

Definition replay_key (client_ip : IpAddr) (method path_and_query : string) : ReplayKey :=
  (client_ip, to_ascii_uppercase method, path_and_query).

Definition check_key (b : AntiReplayBuffer) (key : ReplayKey) (now : Z) : bool * AntiReplayBuffer :=
  let b := evict_expired_or_overflow b now in
  if match ar_entries b !! key with Some seen_at => within_window b now seen_at | None => false end then (false, b)
  else (true, set_entries b (<[key := now]> (ar_entries b))).

Definition check_and_record (b : AntiReplayBuffer) (client_ip : IpAddr) (method path_and_query : string) (now : Z)
  : bool * AntiReplayBuffer := check_key b (replay_key client_ip method path_and_query) now.

Definition buffer_is_empty (b : AntiReplayBuffer) : bool := buffer_len b =? 0.

Definition buffer_clear (b : AntiReplayBuffer) : AntiReplayBuffer := set_entries b ∅.

(** ** Runs

    The log has what was accepted, the newest first. *)

Definition check_logged (s : AntiReplayBuffer * list (ReplayKey * Z)) (r : ReplayKey * Z) : AntiReplayBuffer * list (ReplayKey * Z) :=
  let '(b, log) := s in
  let '(ok, b) := check_key b r.1 r.2 in
  (b, if ok then r :: log else log).

Definition run_requests (b : AntiReplayBuffer) (requests : list (ReplayKey * Z)) : AntiReplayBuffer * list (ReplayKey * Z) :=
  fold_left check_logged requests (b, []).

(** An accepted request of the key in the window before [now]. *)
Definition seen_before (b : AntiReplayBuffer) (log : list (ReplayKey * Z)) (key : ReplayKey) (now : Z) : bool :=
  existsb (fun e => bool_decide (e.1 = key) && within_window b now e.2) log.

(** Every request finds fewer than the maximum of accepted requests in its window. *)
Fixpoint calm (s : AntiReplayBuffer * list (ReplayKey * Z)) (requests : list (ReplayKey * Z)) : Prop :=
  match requests with
  | [] => True
  | r :: rest =>
      Z.of_nat (length (List.filter (fun e => within_window s.1 r.2 e.2) s.2)) < ar_max_entries s.1
      /\ calm (check_logged s r) rest
  end.

(** The times of the requests do not go back. *)
Fixpoint in_order (from : Z) (requests : list (ReplayKey * Z)) : Prop :=
  match requests with [] => True | r :: rest => from <= r.2 /\ in_order r.2 rest end.

(** ** Facts *)

Lemma within_later b now now' t : now <= now' -> within_window b now' t = true -> within_window b now t = true.
Proof. unfold within_window. rewrite !Z.ltb_lt. lia. Qed.

Lemma retain_config b now : ar_window (retain_seen b now) = ar_window b /\ ar_max_entries (retain_seen b now) = ar_max_entries b.
Proof. unfold retain_seen. by destruct (_ <? _). Qed.

Lemma evict_config b now :
  ar_window (evict_expired_or_overflow b now) = ar_window b /\ ar_max_entries (evict_expired_or_overflow b now) = ar_max_entries b.
Proof. unfold evict_expired_or_overflow. destruct (retain_config b now). by destruct (_ <=? _). Qed.

Lemma check_config b k now :
  ar_window (check_key b k now).2 = ar_window b /\ ar_max_entries (check_key b k now).2 = ar_max_entries b.
Proof. unfold check_key. destruct (evict_config b now). by destruct (match _ with Some _ => _ | None => _ end). Qed.

(** What the retained map knows. *)
Lemma retain_lookup b now k t :
  ar_entries (retain_seen b now) !! k = Some t -> ar_entries b !! k = Some t.
Proof. unfold retain_seen. destruct (_ <? _); [|done]. cbn. rewrite map_lookup_filter_Some. by intros []. Qed.

Lemma retain_keeps b now k t :
  ar_entries b !! k = Some t -> within_window b now t = true -> ar_entries (retain_seen b now) !! k = Some t.
Proof. unfold retain_seen. destruct (_ <? _); [|done]. cbn. rewrite map_lookup_filter_Some. done. Qed.

(** Every entry is the log's, and the newest of its key in the log is in the map while it is in
    the window. *)
Record buffer_ok (b : AntiReplayBuffer) (log : list (ReplayKey * Z)) (now : Z) : Prop := {
  bo_logged k t : ar_entries b !! k = Some t -> (k, t) ∈ log;
  bo_times : Forall (fun e : ReplayKey * Z => e.2 <= now) log;
}.

Definition remembered (b : AntiReplayBuffer) (log : list (ReplayKey * Z)) (now : Z) : Prop :=
  forall k t, (k, t) ∈ log -> within_window b now t = true -> exists t', ar_entries b !! k = Some t' /\ t <= t'.

Lemma seen_before_true b log k now : seen_before b log k now = true <-> exists t, (k, t) ∈ log /\ within_window b now t = true.
Proof.
  unfold seen_before. rewrite existsb_exists. split.
  - intros ([k' t] & Hin & H). apply andb_prop in H as [Hk Hw]. apply bool_decide_eq_true in Hk. cbn in *. subst.
    exists t. split; [by apply list_elem_of_In|done].
  - intros (t & Hin & Hw). exists (k, t). split; [by apply list_elem_of_In|]. cbn. by rewrite bool_decide_true, Hw.
Qed.

(** The retained entries are no more than the accepted requests of the window. *)
Lemma retained_size b log now now0 :
  buffer_ok b log now0 -> 0 < ar_max_entries b ->
  Z.of_nat (length (List.filter (fun e => within_window b now e.2) log)) < ar_max_entries b ->
  buffer_len (retain_seen b now) < ar_max_entries b.
Proof.
  intros Hok Hmax Hcalm. unfold retain_seen. destruct (Z.ltb_spec (ar_max_entries b / 2) (buffer_len b)) as [Hl|Hl].
  - unfold buffer_len, set_entries. cbn [ar_entries ar_max_entries]. eapply Z.le_lt_trans; [|exact Hcalm].
    set (m := filter _ (ar_entries b)).
    rewrite <-length_map_to_list. apply inj_le. apply NoDup_incl_length.
    + apply NoDup_ListNoDup. apply NoDup_map_to_list.
    + intros [k t] Hin. apply list_elem_of_In, elem_of_map_to_list in Hin. unfold m in Hin.
      apply map_lookup_filter_Some in Hin as [Hk Hw]. cbn in Hw. apply List.filter_In. split; [|done].
      apply list_elem_of_In. by apply (bo_logged _ _ _ Hok).
  - pose proof (Z.div_lt (ar_max_entries b) 2 Hmax ltac:(lia)). lia.
Qed.

Lemma buffer_ok_config b b' log now :
  ar_entries b' = ar_entries b -> buffer_ok b log now -> buffer_ok b' log now.
Proof. intros E [H1 H2]. split; [by rewrite E|done]. Qed.

Lemma within_set b m now t : within_window (set_entries b m) now t = within_window b now t.
Proof. done. Qed.

Lemma within_config b b' now t : ar_window b' = ar_window b -> within_window b' now t = within_window b now t.
Proof. unfold within_window. by intros ->. Qed.

Lemma seen_before_config b b' log k now : ar_window b' = ar_window b -> seen_before b' log k now = seen_before b log k now.
Proof. intros E. unfold seen_before. induction log as [|e log IH]; [done|]. cbn. by rewrite IH, (within_config b b'). Qed.

Lemma within_newer b now t t' : t <= t' -> within_window b now t = true -> within_window b now t' = true.
Proof. unfold within_window. rewrite !Z.ltb_lt. lia. Qed.

Lemma remembered_retain b log now now0 :
  remembered b log now0 -> now0 <= now -> remembered (retain_seen b now) log now.
Proof.
  intros Hr Hle k t Hin Hw. rewrite (within_config b) in Hw by apply retain_config.
  destruct (Hr k t Hin (within_later _ _ _ _ Hle Hw)) as (t' & Hk & Ht). exists t'. split; [|done].
  apply retain_keeps; [done|by eapply within_newer].
Qed.

Lemma buffer_ok_retain b log now now0 : buffer_ok b log now0 -> now0 <= now -> buffer_ok (retain_seen b now) log now.
Proof.
  intros [H1 H2] Hle. split; [intros k t Hk; by eapply H1, retain_lookup|].
  eapply Forall_impl; [exact H2|]. cbn. intros. lia.
Qed.

(** The lookup of a buffer that remembers its window. *)
Lemma lookup_seen b log now k :
  buffer_ok b log now -> remembered b log now ->
  match ar_entries b !! k with Some seen_at => within_window b now seen_at | None => false end = seen_before b log k now.
Proof.
  intros Hok Hr. destruct (seen_before b log k now) eqn:E.
  - apply seen_before_true in E as (t & Hin & Hw). destruct (Hr k t Hin Hw) as (t' & -> & Ht). by eapply within_newer.
  - destruct (ar_entries b !! k) as [t|] eqn:Ek; [|done]. apply not_true_is_false. intros Hw.
    assert (seen_before b log k now = true) by (apply seen_before_true; exists t; split; [by apply (bo_logged _ _ _ Hok)|done]).
    congruence.
Qed.

(** The entry of an accepted request. *)
Lemma remembered_insert b log now k :
  remembered b log now -> Forall (fun e : ReplayKey * Z => e.2 <= now) log ->
  remembered (set_entries b (<[k := now]> (ar_entries b))) ((k, now) :: log) now.
Proof.
  intros Hr Ht k' t Hin Hw. cbn [set_entries ar_entries]. destruct (decide (k' = k)) as [->|Hne].
  - exists now. split; [by rewrite lookup_insert_eq|]. apply elem_of_cons in Hin as [[= ->]|Hin]; [done|].
    rewrite Forall_forall in Ht. by apply (Ht (k, t)).
  - rewrite lookup_insert_ne by done. apply elem_of_cons in Hin as [[= -> _]|Hin]; [done|]. by eapply Hr.
Qed.

(** One request, when the window holds fewer than the maximum. *)
Lemma check_calm b log r now0 :
  buffer_ok b log now0 -> remembered b log now0 -> now0 <= r.2 -> 0 < ar_max_entries b ->
  Z.of_nat (length (List.filter (fun e => within_window b r.2 e.2) log)) < ar_max_entries b ->
  (check_key b r.1 r.2).1 = negb (seen_before b log r.1 r.2)
  /\ buffer_ok (check_logged (b, log) r).1 (check_logged (b, log) r).2 r.2
  /\ remembered (check_logged (b, log) r).1 (check_logged (b, log) r).2 r.2.
Proof.
  intros Hok Hr Hle Hmax Hcalm. destruct r as [k now]. cbn [fst snd] in *.
  pose proof (retained_size b log now now0 Hok Hmax Hcalm) as Hsz. destruct (retain_config b now) as [Ew Em].
  pose proof (remembered_retain _ _ _ _ Hr Hle) as Hr'. pose proof (buffer_ok_retain _ _ _ _ Hok Hle) as Hok'.
  unfold check_logged, check_key. cbn [fst snd].
  assert (Ee : evict_expired_or_overflow b now = retain_seen b now).
  { unfold evict_expired_or_overflow. rewrite Em. destruct (Z.leb_spec (ar_max_entries b) (buffer_len (retain_seen b now))); [lia|done]. }
  rewrite Ee, (lookup_seen _ log), (seen_before_config b) by done.
  destruct (seen_before b log k now); cbn [negb fst snd]; (split; [done|]); split; try done.
  - split.
    + intros k' t. cbn. rewrite lookup_insert_Some. intros [[<- <-]|[_ Hk]]; [by left|]. right. by apply (bo_logged _ _ _ Hok').
    + constructor; [done|apply Hok'].
  - apply remembered_insert; [done|apply Hok'].
Qed.

Lemma run_calm requests : forall s now0,
  buffer_ok s.1 s.2 now0 -> remembered s.1 s.2 now0 -> in_order now0 requests -> 0 < ar_max_entries s.1 -> calm s requests ->
  exists now, buffer_ok (fold_left check_logged requests s).1 (fold_left check_logged requests s).2 now
    /\ remembered (fold_left check_logged requests s).1 (fold_left check_logged requests s).2 now
    /\ ar_max_entries (fold_left check_logged requests s).1 = ar_max_entries s.1
    /\ ar_window (fold_left check_logged requests s).1 = ar_window s.1
    /\ (forall next, in_order now0 (requests ++ [next]) -> now <= next.2).
Proof.
  induction requests as [|r requests IH]; intros [b log] now0 Hok Hr Ho Hmax Hc; cbn [fold_left fst snd] in *.
  { exists now0. split_and!; try done. by intros next [H _]. }
  destruct Ho as [Hle Ho]. destruct Hc as [Hc Hcs]. cbn [fst snd] in Hc.
  destruct (check_calm b log r now0 Hok Hr Hle Hmax Hc) as (_ & Hok' & Hr').
  assert (Em : ar_max_entries (check_logged (b, log) r).1 = ar_max_entries b /\ ar_window (check_logged (b, log) r).1 = ar_window b).
  { unfold check_logged. destruct (check_config b r.1 r.2). by destruct (check_key b r.1 r.2). }
  destruct (IH (check_logged (b, log) r) r.2 Hok' Hr' Ho ltac:(rewrite (proj1 Em); done) Hcs) as (now & H1 & H2 & H3 & H4 & H5).
  exists now. split_and!; try done; [by rewrite H3, (proj1 Em)|by rewrite H4, (proj2 Em)|].
  intros next [_ H]. by apply H5.
Qed.

Lemma calm_app s r1 r2 : calm s (r1 ++ r2) <-> calm s r1 /\ calm (fold_left check_logged r1 s) r2.
Proof. revert s. induction r1 as [|r r1 IH]; intros s; cbn [app calm fold_left]; [tauto|]. rewrite IH. tauto. Qed.

Lemma in_order_app from r1 r2 : in_order from (r1 ++ r2) -> in_order from r1.
Proof. revert from. induction r1 as [|r r1 IH]; intros from; cbn; [done|]. intros [H1 H2]. split; [done|by apply IH]. Qed.

(** C37: Early data is accepted exactly when the same request of the same client was not accepted
    in the window before it, as long as every window holds fewer accepted requests than the
    buffer has room for. *)
Theorem replays_refused_exactly (window max_entries : Z) (requests : list (ReplayKey * Z)) (from now : Z) (ip : IpAddr) (method path : string) :
  0 < max_entries ->
  let key := replay_key ip method path in
  let start := (AntiReplayBuffer_new window max_entries, []) in
  in_order from (requests ++ [(key, now)]) -> calm start (requests ++ [(key, now)]) ->
  let '(b, log) := run_requests (AntiReplayBuffer_new window max_entries) requests in
  (check_and_record b ip method path now).1 = negb (existsb (fun e => bool_decide (e.1 = key) && (Z.max 0 (now - e.2) <? window)) log).
Proof.
  intros Hmax key start Ho Hc. apply calm_app in Hc as [Hc1 [Hc2 _]].
  assert (Hs : buffer_ok start.1 start.2 from /\ remembered start.1 start.2 from).
  { split; [split; [intros k t; cbn; by rewrite lookup_empty|constructor]|]. intros k t H. by apply not_elem_of_nil in H. }
  destruct Hs as [Hok Hr].
  destruct (run_calm requests start from Hok Hr (in_order_app _ _ _ Ho) Hmax Hc1) as (n & H1 & H2 & H3 & H4 & H5).
  specialize (H5 _ Ho). unfold run_requests. fold start.
  destruct (fold_left check_logged requests start) as [b log]. cbn [fst snd] in *.
  destruct (check_calm b log (key, now) n H1 H2 H5 ltac:(rewrite H3; done) Hc2) as (E & _). cbn [fst snd] in E.
  unfold check_and_record. fold key. rewrite E. unfold seen_before, within_window. by rewrite H4.
Qed.

(** ** With more requests *)

(** The buffer never keeps more than its maximum, whatever comes. *)
Lemma buffer_bounded b k now : 0 < ar_max_entries b -> buffer_len b <= ar_max_entries b -> buffer_len (check_key b k now).2 <= ar_max_entries b.
Proof.
  intros Hm Hb. assert (He : buffer_len (evict_expired_or_overflow b now) < ar_max_entries b).
  { unfold evict_expired_or_overflow. destruct (retain_config b now) as [_ ->].
    destruct (Z.leb_spec (ar_max_entries b) (buffer_len (retain_seen b now))); [|done].
    unfold buffer_len, set_entries. cbn [ar_entries]. rewrite map_size_empty. lia. }
  unfold check_key. destruct (match _ with Some _ => _ | None => _ end); cbn [snd]; [lia|].
  unfold buffer_len, set_entries in *. cbn [ar_entries].
  destruct (decide (ar_entries (evict_expired_or_overflow b now) !! k = None)) as [E|E].
  - rewrite map_size_insert_None by done. lia.
  - rewrite map_size_insert. destruct (_ !! k); [cbn; lia|done].
Qed.

(** A full buffer is emptied, so a flood of other requests in the same instant makes a replay
    pass. *)
Definition flood : list (ReplayKey * Z) := [((V4 1, "GET", "/pay"), 0); ((V4 1, "GET", "/a"), 0); ((V4 1, "GET", "/b"), 0)].

Lemma flood_admits_replay :
  let '(b, log) := run_requests (AntiReplayBuffer_new DEFAULT_ANTI_REPLAY_WINDOW 3) flood in
  (check_and_record b (V4 1) "GET" "/pay" 1).1 = true /\ seen_before b log (V4 1, "GET", "/pay") 1 = true.
Proof. by vm_compute. Qed.

(** The address of the sender is in the key, so a copy from another address passes. *)
Lemma replay_from_elsewhere :
  (check_and_record (check_and_record (AntiReplayBuffer_new DEFAULT_ANTI_REPLAY_WINDOW 10) (V4 1) "GET" "/pay" 0).2
     (V4 2) "GET" "/pay" 1).1 = true.
Proof. by vm_compute. Qed.

Definition early_requests : list (ReplayKey * Z) := [((V4 1, "GET", "/pay"), 0)].

Lemma replays_refused_exactly_witness :
  0 < 10 /\ in_order 0 (early_requests ++ [((V4 1, "GET", "/pay"), 5)])
  /\ calm (AntiReplayBuffer_new 60 10, []) (early_requests ++ [((V4 1, "GET", "/pay"), 5)])
  /\ (check_and_record (run_requests (AntiReplayBuffer_new 60 10) early_requests).1 (V4 1) "get" "/pay" 5).1 = false.
Proof.
  assert (H1 : in_order 0 (early_requests ++ [((V4 1, "GET", "/pay"), 5)])) by (cbn; lia).
  assert (H2 : calm (AntiReplayBuffer_new 60 10, []) (early_requests ++ [((V4 1, "GET", "/pay"), 5)])) by (vm_compute; done).
  split; [lia|]. split; [exact H1|]. split; [exact H2|].
  exact (replays_refused_exactly 60 10 early_requests 0 5 (V4 1) "get" "/pay" eq_refl H1 H2).
Defined.
