(* ===== verification/Priorities.v ===== *)
(** * Stream priorities

    [r3v3rs3-api/src/priority.rs]: the priority of a request, from its header, the rules of its
    route and its content, and the controller that counts the streams in flight and holds back
    background streams. *)

From Stdlib Require Import Ascii.
From stdpp Require Import strings.
From S2P Require Import Prelude Basics IpText Net Policy Quarantine EnvFiles HeaderRules.

Definition DEFAULT_MAX_BACKGROUND_CONCURRENCY : Z := 32.

Record StreamPriority : Type := mkStreamPriority { urgency : Z; incremental : bool }.

#[export] Instance StreamPriority_eq_dec : EqDecision StreamPriority.
Proof. solve_decision. Defined.

Definition StreamPriority_default : StreamPriority := mkStreamPriority 3 false.

Definition StreamPriority_new (urgency : Z) (incremental : bool) : StreamPriority := mkStreamPriority (urgency `min` 7) incremental.

Definition to_header_value (p : StreamPriority) : string :=
  if incremental p then String.append "u=" (String.append (dec (urgency p)) ", i") else String.append "u=" (dec (urgency p)).

Definition weight (p : StreamPriority) : Z :=
  match urgency p with
  | 0 => 256 | 1 => 128 | 2 => 64 | 3 => 32 | 4 => 16 | 5 => 8 | 6 => 4 | 7 => 2
  | _ => 32
  end.

Definition is_critical (p : StreamPriority) : bool := urgency p <=? 2.
Definition is_background (p : StreamPriority) : bool := 5 <=? urgency p.

(** ** Rules *)

Record MimePriorityRule : Type := mkMimePriorityRule { mp_pattern : string; mp_urgency : Z; mp_incremental : bool }.

(** [str::strip_suffix]. *)
Definition strip_suffix (suffix s : string) : option string :=
  if ends_with suffix s then Some (String.substring 0 (String.length s - String.length suffix) s) else None.

Definition matches_content_type (pattern ct : string) : bool :=
  match strip_suffix "/*" pattern with
  | Some prefix => starts_with prefix ct
  | None => eq_ignore_ascii_case ct pattern
  end.

Definition matches_path (pattern path : string) : bool :=
  match strip_prefix "*." pattern with
  | Some ext => ends_with ext path
  | None =>
      match strip_suffix "*" pattern with
      | Some prefix => starts_with prefix path
      | None => String.eqb path pattern
      end
  end.

Definition rule_matches (r : MimePriorityRule) (path : string) (content_type : option string) : bool :=
  let pattern := trim (mp_pattern r) in
  if str_is_empty pattern then false
  else if match content_type with Some ct => matches_content_type pattern ct | None => false end then true
  else matches_path pattern path.

Record StreamPriorityConfig : Type := mkStreamPriorityConfig {
  sp_enabled : bool;
  sp_inject_header : bool;
  sp_adaptive_concurrency : bool;
  sp_custom_rules : list MimePriorityRule;
}.

Definition StreamPriorityConfig_default : StreamPriorityConfig := mkStreamPriorityConfig false true true [].

Definition StreamPriorityConfig_is_disabled (c : StreamPriorityConfig) : bool := negb (sp_enabled c).

(** ** The header *)

Inductive MemberParsed : Type := MUrgency (u : Z) | MIncremental (i : bool).

Definition parse_rfc9218_member (member : string) : option MemberParsed :=
  match (match strip_prefix "u=" member with Some s => Some s | None => strip_prefix "u =" member end) with
  | Some u_str => match parse_uint 255 (trim u_str) with Some u => Some (MUrgency (u `min` 7)) | None => None end
  | None =>
      if String.eqb member "i" || String.eqb member "i=?1" || String.eqb member "i=1" then Some (MIncremental true)
      else if String.eqb member "i=?0" || String.eqb member "i=0" then Some (MIncremental false)
      else None
  end.

(** One turn of the loop over the members: the urgency, the flag, and whether one was read. *)
Definition parse_part (s : option Z * bool * bool) (part : string) : option Z * bool * bool :=
  let '(urgency, incremental, parsed_any) := s in
  match parse_rfc9218_member (trim part) with
  | Some (MUrgency u) => (Some u, incremental, true)
  | Some (MIncremental i) => (urgency, i, true)
  | None => s
  end.

Definition parse_rfc9218_priority (header_val : string) : option StreamPriority :=
  let s := trim header_val in
  if str_is_empty s then None
  else
    let '(urgency, incremental, parsed_any) := fold_left parse_part (split_on "," s) (None, false, false) in
    if (parsed_any : bool) then Some (mkStreamPriority (default 3 urgency) incremental) else None.

(** ** The content *)

Definition is_script_or_api_ct (ct : string) : bool :=
  starts_with "text/css" ct || str_contains "javascript" ct || starts_with "application/json" ct || starts_with "application/grpc" ct.

Definition heuristic_by_content_type (ct : string) : option StreamPriority :=
  if starts_with "text/html" ct then Some (StreamPriority_new 0 false)
  else if is_script_or_api_ct ct then Some (StreamPriority_new 1 false)
  else if starts_with "font/" ct then Some (StreamPriority_new 2 false)
  else if starts_with "image/" ct then Some (StreamPriority_new 5 true)
  else if starts_with "video/" ct || starts_with "audio/" ct then Some (StreamPriority_new 6 true)
  else None.

Definition ends_with_any (suffixes : list string) (p : string) : bool := existsb (fun s => ends_with s p) suffixes.

Definition is_html_path (p : string) : bool := ends_with_any [".html"; ".htm"] p || String.eqb p "/".
Definition is_critical_script_or_api (p : string) : bool := ends_with_any [".css"; ".js"; ".mjs"] p || starts_with "/api/" p.
Definition is_font_path (p : string) : bool := ends_with_any [".woff2"; ".woff"; ".ttf"] p.
Definition is_icon_path (p : string) : bool := ends_with_any [".svg"; ".ico"] p.
Definition is_image_ext (p : string) : bool := ends_with_any [".png"; ".jpg"; ".jpeg"; ".webp"; ".avif"; ".gif"] p.
Definition is_video_ext (p : string) : bool := ends_with_any [".mp4"; ".webm"; ".mp3"] p.
Definition is_archive_ext (p : string) : bool := ends_with_any [".zip"; ".tar.gz"; ".iso"] p.
Definition is_media_path (p : string) : bool := is_image_ext p || is_video_ext p || is_archive_ext p.

Definition heuristic_media_path (p : string) : StreamPriority :=
  if is_image_ext p then StreamPriority_new 5 true
  else if is_video_ext p then StreamPriority_new 6 true
  else if is_archive_ext p then StreamPriority_new 7 true
  else StreamPriority_default.

Definition heuristic_by_path (path : string) : StreamPriority :=
  let lower := to_ascii_lowercase path in
  if is_html_path lower then StreamPriority_new 0 false
  else if is_critical_script_or_api lower then StreamPriority_new 1 false
  else if is_font_path lower then StreamPriority_new 2 false
  else if is_icon_path lower then StreamPriority_new 4 false
  else if is_media_path lower then heuristic_media_path lower
  else StreamPriority_default.

Definition heuristic_stream_priority (path : string) (content_type : option string) : StreamPriority :=
  match content_type ≫= heuristic_by_content_type with
  | Some prio => prio
  | None => heuristic_by_path path
  end.

Definition resolve_stream_priority (client_header : option string) (path_and_query : string) (content_type : option string)
    (c : StreamPriorityConfig) : StreamPriority :=
  match client_header ≫= parse_rfc9218_priority with
  | Some parsed => parsed
  | None =>
      let path := hd path_and_query (split_on "?" path_and_query) in
      match find (fun r => rule_matches r path content_type) (sp_custom_rules c) with
      | Some r => StreamPriority_new (mp_urgency r) (mp_incremental r)
      | None => heuristic_stream_priority path content_type
      end
  end.

(** ** The controller: 64-bit counters *)

Definition wrap64 (n : Z) : Z := n mod 18446744073709551616.

Record AdaptiveStreamController : Type := mkAdaptiveStreamController {
  c_total : Z; c_critical : Z; c_normal : Z; c_background : Z; c_throttled : Z; c_active : Z; c_active_background : Z;
}.

Definition AdaptiveStreamController_new : AdaptiveStreamController := mkAdaptiveStreamController 0 0 0 0 0 0 0.

Definition record_request (p : StreamPriority) (c : AdaptiveStreamController) : AdaptiveStreamController :=
  mkAdaptiveStreamController (wrap64 (c_total c + 1))
    (if is_critical p then wrap64 (c_critical c + 1) else c_critical c)
    (if is_critical p || is_background p then c_normal c else wrap64 (c_normal c + 1))
    (if negb (is_critical p) && is_background p then wrap64 (c_background c + 1) else c_background c)
    (c_throttled c) (c_active c) (c_active_background c).

Definition should_throttle_background (max_background_concurrency : Z) (c : AdaptiveStreamController) : bool * AdaptiveStreamController :=
  if max_background_concurrency <=? c_active_background c then
    (true, mkAdaptiveStreamController (c_total c) (c_critical c) (c_normal c) (c_background c) (wrap64 (c_throttled c + 1))
             (c_active c) (c_active_background c))
  else (false, c).

(** The permit keeps whether its stream is a background one. *)
Definition acquire_permit (p : StreamPriority) (c : AdaptiveStreamController) : bool * AdaptiveStreamController :=
  (is_background p,
   mkAdaptiveStreamController (c_total c) (c_critical c) (c_normal c) (c_background c) (c_throttled c) (wrap64 (c_active c + 1))
     (if is_background p then wrap64 (c_active_background c + 1) else c_active_background c)).

Definition permit_drop (permit : bool) (c : AdaptiveStreamController) : AdaptiveStreamController :=
  mkAdaptiveStreamController (c_total c) (c_critical c) (c_normal c) (c_background c) (c_throttled c) (wrap64 (c_active c - 1))
    (if permit then wrap64 (c_active_background c - 1) else c_active_background c).

Record StreamPriorityStats : Type := mkStreamPriorityStats {
  total_requests : Z; critical_requests : Z; normal_requests : Z; background_requests : Z; throttled_background : Z; active_streams : Z;
}.

Definition stats (c : AdaptiveStreamController) : StreamPriorityStats :=
  mkStreamPriorityStats (c_total c) (c_critical c) (c_normal c) (c_background c) (c_throttled c) (c_active c).

(** ** Facts *)

Example priority_examples :
  map parse_rfc9218_priority ["u=1, i"; "u =9"; "i=?0"; "x"; ""; "u=2,u=bad"; "u=300, i"]
  = [Some (mkStreamPriority 1 true); Some (mkStreamPriority 7 false); Some (mkStreamPriority 3 false); None; None;
     Some (mkStreamPriority 2 false); Some (mkStreamPriority 3 true)]
  /\ resolve_stream_priority None "/a.CSS?x" None StreamPriorityConfig_default = mkStreamPriority 1 false
  /\ resolve_stream_priority None "/a" (Some "image/png") StreamPriorityConfig_default = mkStreamPriority 5 true
  /\ resolve_stream_priority (Some "u=0") "/a" (Some "image/png") StreamPriorityConfig_default = mkStreamPriority 0 false.
Proof. by vm_compute. Qed.

(** A rule of [*.css] takes every path that ends with these letters. *)
Lemma extension_without_dot : rule_matches (mkMimePriorityRule "*.css" 7 false) "/access" None = false
  /\ rule_matches (mkMimePriorityRule "*.js" 7 false) "/api/nodejs" None = true.
Proof. by vm_compute. Qed.

Lemma urgency_cases u : 0 <= u <= 7 -> u ∈ [0; 1; 2; 3; 4; 5; 6; 7].
Proof. intros H. rewrite !elem_of_cons. lia. Qed.

Lemma priority_header_roundtrip p : 0 <= urgency p <= 7 -> parse_rfc9218_priority (to_header_value p) = Some p.
Proof.
  intros H. apply urgency_cases in H. destruct p as [u i]. cbn [urgency] in H.
  assert (F : Forall (fun u => forall i, parse_rfc9218_priority (to_header_value (mkStreamPriority u i)) = Some (mkStreamPriority u i))
                [0; 1; 2; 3; 4; 5; 6; 7]) by (repeat constructor; intros []; by vm_compute).
  rewrite Forall_forall in F. by apply F.
Qed.

Definition in_range (p : StreamPriority) : Prop := 0 <= urgency p <= 7.

Lemma new_in_range u i : 0 <= u -> in_range (StreamPriority_new u i).
Proof. unfold in_range, StreamPriority_new. cbn. lia. Qed.

Lemma heuristics_in_range path ct : in_range (heuristic_stream_priority path ct).
Proof.
  unfold heuristic_stream_priority, heuristic_by_path, heuristic_media_path, heuristic_by_content_type, in_range.
  destruct ct as [ct|]; cbn [mbind option_bind];
    repeat match goal with |- context [if ?b then _ else _] => destruct b end; cbn; lia.
Qed.

Lemma member_urgency m u : parse_rfc9218_member m = Some (MUrgency u) -> 0 <= u <= 7.
Proof.
  unfold parse_rfc9218_member. destruct (match strip_prefix "u=" m with Some s => Some s | None => _ end) as [s|].
  - destruct (parse_uint 255 (trim s)) as [n|] eqn:E; [|done]. intros [= <-]. unfold parse_uint in E.
    destruct (str_is_empty _); [done|]. destruct (parse_radix 10 0 _) as [k|] eqn:Ek; [|done].
    apply parse_radix_range in Ek as [Ek _]; [|lia|lia]. destruct (k <=? 255); [|done]. injection E as <-. lia.
  - by repeat destruct (_ || _).
Qed.

Lemma parts_in_range parts : forall s, (forall u, s.1.1 = Some u -> 0 <= u <= 7) ->
  forall u, (fold_left parse_part parts s).1.1 = Some u -> 0 <= u <= 7.
Proof.
  induction parts as [|p parts IH]; intros [[u0 i0] a0] Hs u; cbn [fold_left]; [apply Hs|]. apply IH.
  unfold parse_part. destruct (parse_rfc9218_member (trim p)) as [[u'|i']|] eqn:E; cbn; [|exact Hs|exact Hs].
  intros u'' [= <-]. by eapply member_urgency.
Qed.

(** The urgency of every resolved priority is one of the eight levels. *)
Lemma resolved_in_range h path ct c :
  Forall (fun r => 0 <= mp_urgency r) (sp_custom_rules c) -> in_range (resolve_stream_priority h path ct c).
Proof.
  intros Hr. unfold resolve_stream_priority. destruct (h ≫= parse_rfc9218_priority) as [p|] eqn:E.
  - destruct h as [h|]; [|done]. cbn in E. unfold parse_rfc9218_priority in E. cbn zeta in E. destruct (str_is_empty _); [done|].
    pose proof (parts_in_range (split_on "," (trim h)) (None, false, false) ltac:(done)) as H.
    destruct (fold_left parse_part _ _) as [[u i] []]; [|done]. injection E as <-. unfold in_range. cbn in *.
    destruct u as [u|]; [by apply H|cbn; lia].
  - destruct (find _ _) as [r|] eqn:Ef; [|apply heuristics_in_range]. apply find_some in Ef as [Hin _].
    apply new_in_range. rewrite Forall_forall in Hr. apply Hr. by apply list_elem_of_In.
Qed.

(** ** Runs of the controller

    The permits that streams hold, each with what it counts. *)

Inductive stream_step : AdaptiveStreamController * list bool -> AdaptiveStreamController * list bool -> Prop :=
| ss_record c ps p : stream_step (c, ps) (record_request p c, ps)
| ss_throttle c ps n : stream_step (c, ps) ((should_throttle_background n c).2, ps)
| ss_acquire c ps p : stream_step (c, ps) ((acquire_permit p c).2, (acquire_permit p c).1 :: ps)
| ss_drop c ps1 b ps2 : stream_step (c, ps1 ++ b :: ps2) (permit_drop b c, ps1 ++ ps2).

Definition stream_reachable (s : AdaptiveStreamController * list bool) : Prop :=
  rtc stream_step (AdaptiveStreamController_new, []) s.

Definition streams_exact (s : AdaptiveStreamController * list bool) : Prop :=
  c_active s.1 = wrap64 (Z.of_nat (length s.2))
  /\ c_active_background s.1 = wrap64 (Z.of_nat (length (List.filter (fun b => b) s.2)))
  /\ c_total s.1 = wrap64 (c_critical s.1 + c_normal s.1 + c_background s.1).

Lemma wrap64_add a b : wrap64 (wrap64 a + b) = wrap64 (a + b).
Proof. unfold wrap64. by rewrite Z.add_mod_idemp_l. Qed.

Lemma wrap64_add_r a b : wrap64 (a + wrap64 b) = wrap64 (a + b).
Proof. unfold wrap64. by rewrite Z.add_mod_idemp_r. Qed.

(** In every run the counters of the streams in flight are the permits that are held. *)
Lemma stream_counters_exact s : stream_reachable s -> streams_exact s.
Proof.
  unfold stream_reachable. intros H. remember (AdaptiveStreamController_new, []) as s0 eqn:E0.
  assert (Hi : streams_exact s0) by (subst; by vm_compute). clear E0.
  induction H as [|x y z Hs _ IH]; [done|]. apply IH. clear IH z. destruct Hi as (H1 & H2 & H3).
  destruct Hs as [c ps p|c ps n|c ps p|c ps1 b ps2]; unfold streams_exact in *; cbn [fst snd] in *.
  - unfold record_request. cbn. split_and!; [done|done|]. rewrite H3.
    destruct (is_critical p), (is_background p); cbn; rewrite wrap64_add; symmetry.
    + rewrite <-Z.add_assoc, wrap64_add. f_equal. lia.
    + rewrite <-Z.add_assoc, wrap64_add. f_equal. lia.
    + rewrite wrap64_add_r. f_equal. lia.
    + rewrite <-Z.add_assoc, (Z.add_comm (wrap64 _)), Z.add_assoc, wrap64_add_r. f_equal. lia.
  - unfold should_throttle_background. destruct (n <=? _); cbn; by split_and!.
  - unfold acquire_permit. cbn. split_and!; [|destruct (is_background p); cbn [length]; [|done]|done].
    + rewrite H1, wrap64_add. f_equal. lia.
    + rewrite H2, wrap64_add. f_equal. lia.
  - unfold permit_drop. cbn. rewrite length_app in *. rewrite List.filter_app, length_app in *. cbn [length List.filter] in *.
    split_and!; [| |done].
    + rewrite H1. change (wrap64 ?a - 1) with (wrap64 a + -1). rewrite wrap64_add. f_equal. lia.
    + rewrite H2. destruct b; [|done]. cbn [length]. change (wrap64 ?a - 1) with (wrap64 a + -1). rewrite wrap64_add. f_equal. lia.
Qed.

(** The check and the count are two steps, so concurrent requests go past the limit. *)
Lemma background_limit_passed :
  let c0 := AdaptiveStreamController_new in
  let check1 := should_throttle_background 1 c0 in
  let check2 := should_throttle_background 1 check1.2 in
  check1.1 = false /\ check2.1 = false
  /\ c_active_background (acquire_permit (mkStreamPriority 7 false) (acquire_permit (mkStreamPriority 7 false) check2.2).2).2 = 2.
Proof. by vm_compute. Qed.
