(* ===== verification/Compression.v ===== *)
(** * Compression of responses

    The settings ([r3v3rs3-api/src/compression.rs], [compression_dictionary.rs]) and
    [proxy/http/compression.rs]: which coding a response gets, from the settings of its proxy and
    from [Accept-Encoding], and what becomes of its headers.  The encoders and the hash are those
    of other crates. *)

From Stdlib Require Import Ascii SpecFloat.
From stdpp Require Import strings.
From S2P Require Import Prelude Basics IpText Net Policy Float64 Headers Cookies Containers EnvFiles HeaderRules Priorities.

(** ** Numbers: [f32::from_str] and the arithmetic of the quality *)

Definition f32_mul : spec_float -> spec_float -> spec_float := SFmul 24 128.

(** The digits at the start: their number, their value, and the rest. *)
Fixpoint digits_run (acc count : Z) (s : string) : Z * Z * string :=
  match s with
  | String c r =>
      if is_ascii_digit c then digits_run (acc * 10 + (byte_of c - 48)) (count + 1) r else (acc, count, s)
  | EmptyString => (acc, count, s)
  end.

(** [m * 10^e], rounded to nearest, ties to even. *)
Definition f32_decimal (negative : bool) (m e : Z) : spec_float :=
  match m with
  | Zpos p =>
      if 0 <=? e then binary_normalize 24 128 ((if negative then -1 else 1) * (m * 10 ^ e)) 0 negative
      else match 10 ^ (- e) with
           | Zpos q => SFdiv 24 128 (S754_finite negative p 0) (S754_finite false q 0)
           | _ => S754_nan
           end
  | _ => S754_zero negative
  end.

(** The exponent after the [e]: its value when the whole rest is one. *)
Definition parse_exponent (s : string) : option Z :=
  let '(sign, digits) :=
    match s with
    | String c r => if Ascii.eqb c "-" then (-1, r) else if Ascii.eqb c "+" then (1, r) else (1, s)
    | EmptyString => (1, s)
    end in
  let '(v, n, rest) := digits_run 0 0 digits in
  if (0 <? n) && str_is_empty rest then Some (sign * v) else None.

Definition parse_f32_number (negative : bool) (s : string) : option spec_float :=
  let '(m, n, rest) := digits_run 0 0 s in
  let '(m, n, fraction, rest) :=
    match rest with
    | String "." r => let '(m', n', rest') := digits_run m 0 r in (m', n + n', n', rest')
    | _ => (m, n, 0, rest)
    end in
  if n =? 0 then None
  else match rest with
       | EmptyString => Some (f32_decimal negative m (- fraction))
       | String c r =>
           if Ascii.eqb c "e" || Ascii.eqb c "E" then
             match parse_exponent r with Some e => Some (f32_decimal negative m (e - fraction)) | None => None end
           else None
       end.

Definition parse_f32 (s : string) : option spec_float :=
  let '(negative, s) :=
    match s with
    | String c r => if Ascii.eqb c "-" then (true, r) else if Ascii.eqb c "+" then (false, r) else (false, s)
    | EmptyString => (false, s)
    end in
  if eq_ignore_ascii_case s "inf" || eq_ignore_ascii_case s "infinity" then Some (S754_infinity negative)
  else if eq_ignore_ascii_case s "nan" then Some S754_nan
  else parse_f32_number negative s.

(** [x.round() as u16] of a number from 0 to 1000: half away from zero. *)
Definition round_u16 (x : spec_float) : Z :=
  match x with
  | S754_finite false m e => if 0 <=? e then Z.pos m * 2 ^ e else (2 * Z.pos m + 2 ^ (- e)) / (2 * 2 ^ (- e))
  | _ => 0
  end.

Definition f32_one : spec_float := binary_normalize 24 128 1 0 false.
Definition f32_thousand : spec_float := binary_normalize 24 128 1000 0 false.

Definition parse_quality (value : string) : option Z :=
  match parse_f32 value with
  | Some quality =>
      if SFleb (S754_zero false) quality && SFleb quality f32_one then Some (round_u16 (f32_mul quality f32_thousand)) else None
  | None => None
  end.

Example quality_examples :
  map parse_quality ["1"; "0.5"; "0.123"; "0"; "-0"; "1.1"; "nan"; "1e-1"; ".7"; "5."; "."; "0.0004"; "+1.0"; "-0.1"; "0.9999"; ""; "inf"; "1e"]
  = [Some 1000; Some 500; Some 123; Some 0; Some 0; None; None; Some 100; Some 700; None; None; Some 0; Some 1000; None; Some 1000;
     None; None; None].
Proof. by vm_compute. Qed.

(** ** Settings *)

Inductive CompressionAlgorithm : Type := Brotli | Zstd | Gzip | Dcb | Dcz.

#[export] Instance CompressionAlgorithm_eq_dec : EqDecision CompressionAlgorithm.
Proof. solve_decision. Defined.

Definition ALL_ALGORITHMS : list CompressionAlgorithm := [Brotli; Zstd; Gzip; Dcb; Dcz].

Definition algorithm_as_str (a : CompressionAlgorithm) : string :=
  match a with Brotli => "br" | Zstd => "zstd" | Gzip => "gzip" | Dcb => "dcb" | Dcz => "dcz" end.

Definition algorithm_label (a : CompressionAlgorithm) : string :=
  match a with
  | Brotli => "Brotli"
  | Zstd => "Zstandard"
  | Gzip => "Gzip"
  | Dcb => "Brotli Dictionary (dcb)"
  | Dcz => "Zstandard Dictionary (dcz)"
  end.

Record CompressionDictionary : Type := mkCompressionDictionary {
  dict_id : ShortId;
  dict_name : string;
  match_pattern : string;
  dict_path : string;
  raw_data : string;
  sha256_sf : string;
}.

Record Compression : Type := mkCompression {
  algorithms : list CompressionAlgorithm;
  min_size : Z;
  mime_types : list string;
  adaptive_level : bool;
  precompressed : bool;
  dictionaries : list CompressionDictionary;
}.

Definition DEFAULT_MIN_SIZE : Z := 1024.

Definition DEFAULT_MIME_TYPES : list string :=
  ["text/*"; "application/javascript"; "application/json"; "application/manifest+json"; "application/wasm"; "application/xml";
   "application/xhtml+xml"; "application/rss+xml"; "application/atom+xml"; "image/svg+xml"; "font/otf"; "font/ttf"].

Definition Compression_default : Compression := mkCompression [] DEFAULT_MIN_SIZE DEFAULT_MIME_TYPES true true [].

Definition Compression_is_disabled (c : Compression) : bool := match algorithms c with [] => true | _ => false end.

Definition dictionary_validate (d : CompressionDictionary) : result unit Error :=
  if str_is_empty (trim (dict_name d)) then Err (InvalidCompressionDictionary "Dictionary name cannot be empty")
  else if str_is_empty (trim (match_pattern d)) then Err (InvalidCompressionDictionary "Match pattern cannot be empty")
  else if negb (starts_with "/" (dict_path d)) then Err (InvalidCompressionDictionary "Dictionary serving path must start with '/'")
  else if str_is_empty (raw_data d) then Err (InvalidCompressionDictionary "Dictionary raw data cannot be empty")
  else if 10485760 <? str_len (raw_data d) then Err (InvalidCompressionDictionary "Dictionary raw data cannot exceed 10 MB")
  else Ok tt.

Definition matches_path (d : CompressionDictionary) (request_path : string) : bool :=
  let pattern := trim (match_pattern d) in
  if String.eqb pattern "*" || String.eqb pattern "/*" then true
  else match strip_suffix "/*" pattern with
       | Some prefix =>
           String.eqb request_path prefix || starts_with (String.append prefix "/") request_path
           || (str_is_empty prefix && starts_with "/" request_path)
       | None =>
           match strip_suffix "*" pattern with
           | Some prefix => starts_with prefix request_path
           | None => String.eqb request_path pattern
           end
       end.

(** The first algorithm that is also before itself. *)
Fixpoint duplicate_algorithm (seen : list CompressionAlgorithm) (l : list CompressionAlgorithm) : option CompressionAlgorithm :=
  match l with
  | [] => None
  | a :: r => if bool_decide (a ∈ seen) then Some a else duplicate_algorithm (a :: seen) r
  end.

Fixpoint validate_dictionaries (l : list CompressionDictionary) : result unit Error :=
  match l with
  | [] => Ok tt
  | d :: r => let? _ := dictionary_validate d in validate_dictionaries r
  end.

Definition is_mime_pattern (mime : string) : bool :=
  match split_once "/" mime with
  | Some (kind, subtype) =>
      is_header_name kind && negb (str_contains_char kind "*") && (String.eqb subtype "*" || is_header_name subtype)
  | None => false
  end.

Definition Compression_validate (c : Compression) : result unit Error :=
  match duplicate_algorithm [] (algorithms c) with
  | Some a => Err (DuplicateCompressionAlgorithm (algorithm_as_str a))
  | None =>
      let? _ := validate_dictionaries (dictionaries c) in
      match find (fun mime => negb (is_mime_pattern mime)) (mime_types c) with
      | Some mime => Err (InvalidMimeType mime)
      | None => Ok tt
      end
  end.

Definition mime_essence (mime : string) : string := to_ascii_lowercase (trim (hd EmptyString (split_on ";" mime))).

Definition INCOMPRESSIBLE_IMAGE_SUBTYPES : list string := ["png"; "jpeg"; "jpg"; "webp"; "avif"; "gif"; "jxl"; "heic"; "heif"].

Definition INCOMPRESSIBLE_APP_TYPES : list string :=
  ["application/zip"; "application/gzip"; "application/x-gzip"; "application/zstd"; "application/x-brotli"; "application/x-tar";
   "application/x-7z-compressed"; "application/x-rar-compressed"; "application/pdf"; "application/vnd.rar"].

Definition INCOMPRESSIBLE_FONTS : list string :=
  ["font/woff"; "font/woff2"; "application/font-woff"; "application/font-woff2"; "application/x-font-woff"].

Definition is_incompressible_type (mime : string) : bool :=
  let essence := mime_essence mime in
  match split_once "/" essence with
  | None => false
  | Some (kind, subtype) =>
      String.eqb kind "audio" || String.eqb kind "video"
      || (String.eqb kind "image" && bool_decide (subtype ∈ INCOMPRESSIBLE_IMAGE_SUBTYPES))
      || bool_decide (essence ∈ INCOMPRESSIBLE_APP_TYPES) || bool_decide (essence ∈ INCOMPRESSIBLE_FONTS)
  end.

Definition compresses_type (c : Compression) (content_type : string) : bool :=
  let essence := mime_essence content_type in
  if is_incompressible_type essence then false
  else match split_once "/" essence with
       | None => false
       | Some (kind, _) =>
           existsb (fun pattern =>
             let pattern := to_ascii_lowercase pattern in
             String.eqb pattern essence || bool_decide (strip_suffix "/*" pattern = Some kind)) (mime_types c)
       end.

Definition smart_min_size_for_mime (mime : string) (base_min_size : Z) : Z :=
  let essence := mime_essence mime in
  if starts_with "text/" essence || String.eqb essence "application/json" || String.eqb essence "application/javascript"
     || String.eqb essence "image/svg+xml" || String.eqb essence "application/xml" then base_min_size `min` 256
  else if String.eqb essence "application/wasm" then base_min_size `max` 2048
  else base_min_size.

Fixpoint mime_list (l : list string) : result (list string) Error :=
  match l with
  | [] => Ok []
  | mime :: r =>
      let mime := to_ascii_lowercase mime in
      if is_mime_pattern mime then let? rest := mime_list r in Ok (mime :: rest) else Err (InvalidMimeType mime)
  end.

Definition parse_mime_list (text : string) : result (list string) Error :=
  mime_list (List.filter (fun mime => negb (str_is_empty mime)) (split_ws_or (Ascii.eqb ",") text)).

Definition format_mime_list (mime_types : list string) : string := String.concat ", " mime_types.

(** ** Negotiation *)

(** The hash and its text are those of the [sha2] and [base64] crates. *)
Class DictionaryHash : Type := { sha256_base64 : string -> string }.

Definition trim_colons (s : string) : string := trim_end_by (Ascii.eqb ":") (trim_start_matches (Ascii.eqb ":") s).

Definition parse_coding (item : string) : option (string * Z) :=
  match split_on ";" item with
  | [] => None
  | name :: params =>
      let name := to_ascii_lowercase (trim name) in
      if str_is_empty name then None
      else
        (fix turn (params : list string) (quality : Z) : option (string * Z) :=
           match params with
           | [] => Some (name, quality)
           | param :: rest =>
               match split_once "=" param with
               | Some (key, value) =>
                   if eq_ignore_ascii_case (trim key) "q" then
                     match parse_quality (trim value) with Some q => turn rest q | None => None end
                   else turn rest quality
               | None => turn rest quality
               end
           end) params 1000
  end.

Section Negotiation.
Context `{HDR : HeaderOps} {HASH : DictionaryHash}.

Definition calculate_sha256_sf (data : string) : string := String ":" (String.append (sha256_base64 data) ":").

Definition ensure_hash (d : CompressionDictionary) : CompressionDictionary :=
  if str_is_empty (sha256_sf d) then
    mkCompressionDictionary (dict_id d) (dict_name d) (match_pattern d) (dict_path d) (raw_data d) (calculate_sha256_sf (raw_data d))
  else d.

Definition dictionary_hash (d : CompressionDictionary) : string :=
  if str_is_empty (sha256_sf d) then calculate_sha256_sf (raw_data d) else sha256_sf d.

Definition accepted_codings (h : Headers) : list (string * Z) := omap parse_coding (header_items h "accept-encoding").

Definition coding_named (accepted : list (string * Z)) (name : string) : option (string * Z) :=
  find (fun e => String.eqb e.1 name) accepted.

(** The quality of a coding: its own, or the one of the star. *)
Definition coding_quality (accepted : list (string * Z)) (coding : string) : Z :=
  match coding_named accepted coding with
  | Some e => e.2
  | None => match coding_named accepted "*" with Some e => e.2 | None => 0 end
  end.

(** One turn of the loop over the algorithms: the best one so far, and its quality. *)
Definition negotiate_turn (accepted : list (string * Z)) (s : option CompressionAlgorithm * Z) (a : CompressionAlgorithm)
  : option CompressionAlgorithm * Z :=
  let quality := coding_quality accepted (algorithm_as_str a) in
  if s.2 <? quality then (Some a, quality) else s.

Definition negotiate (algorithms : list CompressionAlgorithm) (h : Headers) : option CompressionAlgorithm :=
  (fold_left (negotiate_turn (accepted_codings h)) algorithms (None, 0)).1.

Definition client_available_dictionary (h : Headers) : option string :=
  let val := match h_get h "available-dictionary" with Some v => Some v | None => h_get h "sec-available-dictionary" end in
  trim <$> (val ≫= to_str).

Definition named_quality (accepted : list (string * Z)) (name : string) : Z :=
  match coding_named accepted name with Some e => e.2 | None => 0 end.

Definition negotiate_dictionary (c : Compression) (path : string) (h : Headers) : option (CompressionDictionary * CompressionAlgorithm) :=
  client_hash ← client_available_dictionary h;
  dict ← find (fun d => matches_path d path && String.eqb (trim_colons (dictionary_hash d)) (trim_colons client_hash)) (dictionaries c);
  let accepted := accepted_codings h in
  let q_dcz := named_quality accepted "dcz" in
  let q_dcb := named_quality accepted "dcb" in
  if (0 <? q_dcz) && (q_dcb <=? q_dcz) then Some (dict, Dcz)
  else if 0 <? q_dcb then Some (dict, Dcb)
  else None.

Definition match_dictionary_or_standard (c : Compression) (path : string) (h : Headers)
  : option CompressionAlgorithm * option CompressionDictionary :=
  match (match dictionaries c with [] => None | _ => negotiate_dictionary c path h end) with
  | Some (dict, algo) => (Some algo, Some dict)
  | None => (negotiate (algorithms c) h, None)
  end.

(** ** What may be compressed *)

Definition has_full_body (status : Z) : bool :=
  negb ((100 <=? status) && (status <=? 199)) && negb ((status =? 204) || (status =? 206) || (status =? 304)).

Definition is_encoded (h : Headers) : bool :=
  h_contains h "content-range" || existsb (fun v => negb (eq_ignore_ascii_case v "identity")) (h_get_all h "content-encoding").

Definition has_no_transform (h : Headers) : bool :=
  existsb (fun d => eq_ignore_ascii_case d "no-transform") (header_items h "cache-control").

Definition has_compressible_type (c : Compression) (h : Headers) : bool :=
  match header_text h "content-type" with
  | None => false
  | Some ct => negb (starts_with "text/event-stream" (to_ascii_lowercase (trim_start ct))) && compresses_type c ct
  end.

Definition meets_min_size (c : Compression) (h : Headers) : bool :=
  let min_size :=
    if adaptive_level c then
      match header_text h "content-type" with
      | Some ct => smart_min_size_for_mime ct (min_size c)
      | None => min_size c
      end
    else min_size c in
  match header_number h "content-length" with Some length => min_size <=? length | None => true end.

Definition is_compressible (c : Compression) (status : Z) (h : Headers) : bool :=
  has_full_body status && negb (is_encoded h) && negb (has_no_transform h) && has_compressible_type c h && meets_min_size c h.

(** ** Levels *)

Inductive Level : Type := Fastest | Best | DefaultLevel | Precise (n : Z).

Inductive PayloadTier : Type := Small | Medium | LargeOrStream.

Definition classify_payload (length : option Z) : PayloadTier :=
  match length with
  | Some len => if len <? 8192 then Small else if len <=? 65536 then Medium else LargeOrStream
  | None => LargeOrStream
  end.

Definition adaptive_gzip_level (t : PayloadTier) : Level := match t with Small => Best | Medium => DefaultLevel | LargeOrStream => Fastest end.
Definition adaptive_brotli_level (t : PayloadTier) : Level := match t with Small => Precise 5 | Medium => Precise 4 | LargeOrStream => Precise 3 end.
Definition adaptive_zstd_level (t : PayloadTier) : Level := match t with Small => Precise 4 | Medium => DefaultLevel | LargeOrStream => Fastest end.

Definition BROTLI_QUALITY : Z := 4.

Definition default_level (a : CompressionAlgorithm) : Level :=
  match a with Gzip => DefaultLevel | Brotli | Dcb => Precise BROTLI_QUALITY | Zstd | Dcz => DefaultLevel end.

Definition resolve_level (c : Compression) (a : CompressionAlgorithm) (h : Headers) : Level :=
  if negb (adaptive_level c) then default_level a
  else
    let tier := classify_payload (header_number h "content-length") in
    match a with
    | Gzip => adaptive_gzip_level tier
    | Brotli | Dcb => adaptive_brotli_level tier
    | Zstd | Dcz => adaptive_zstd_level tier
    end.

Definition level_to_i32 (level : Level) (is_brotli : bool) : Z :=
  match level with
  | Fastest => 1
  | DefaultLevel => if is_brotli then BROTLI_QUALITY else 3
  | Best => if is_brotli then 6 else 7
  | Precise p => p
  end.

(** ** Headers of a compressed response *)

Definition append_vary (h : Headers) (has_dictionary : bool) : Headers :=
  let vary name := existsb (fun n => String.eqb n "*" || eq_ignore_ascii_case n name) in
  let h := if vary "accept-encoding" (header_items h "vary") then h else h_append "vary" "Accept-Encoding" h in
  if has_dictionary && negb (vary "available-dictionary" (header_items h "vary")) then h_append "vary" "Available-Dictionary" h else h.

(** [HeaderValue::from_bytes] of the old value behind [W/] is always a value. *)
Definition weaken_etag (h : Headers) : Headers :=
  match h_get h "etag" with
  | None => h
  | Some etag => if starts_with "W/" etag then h else h_insert "etag" (String.append "W/" etag) h
  end.

Definition set_encoded_headers (h : Headers) (a : CompressionAlgorithm) (dict : option CompressionDictionary) : Headers :=
  let h := h_remove "content-length" h in
  let h := h_remove "accept-ranges" h in
  let h := h_insert "content-encoding" (algorithm_as_str a) h in
  let h := match dict with
           | Some d => match value_from_str (dictionary_hash d) with Some v => h_insert "content-dictionary" v h | None => h end
           | None => h
           end in
  weaken_etag h.

End Negotiation.

(** ** Compressed responses

    The encoders of the [async_compression], [zstd] and [brotli] crates: streams with a level, and
    whole bodies with a dictionary, whose failure is a failure of the body. *)
Class Encoders (B : Type) : Type := {
  gzip_encoder : Level -> B -> B;
  brotli_encoder : Level -> B -> B;
  zstd_encoder : Level -> B -> B;
  zstd_with_dict : string -> Z -> B -> B;
  brotli_with_dict : string -> Z -> B -> B;
}.

Record Response `{HDR : HeaderOps} (B : Type) : Type := mkResponse { res_status : Z; res_headers : Headers; res_body : B }.
Arguments mkResponse {HDR B}.
Arguments res_status {HDR B}.
Arguments res_headers {HDR B}.
Arguments res_body {HDR B}.

Record ResponseCompression : Type := mkResponseCompression {
  rc_config : Compression;
  rc_algorithm : option CompressionAlgorithm;
  rc_dictionary : option CompressionDictionary;
  rc_head : bool;
}.

Section Apply.
Context `{HDR : HeaderOps} {HASH : DictionaryHash}.

Definition ResponseCompression_new (c : Compression) (is_head : bool) (path : string) (h : Headers) : ResponseCompression :=
  let '(algorithm, dictionary) := match_dictionary_or_standard c path h in
  mkResponseCompression c algorithm dictionary is_head.

Context {B : Type} {ENC : Encoders B}.

Definition encode_body (body : B) (a : CompressionAlgorithm) (level : Level) : B :=
  match a with
  | Gzip => gzip_encoder level body
  | Brotli => brotli_encoder level body
  | Zstd => zstd_encoder level body
  | Dcb | Dcz => zstd_encoder level body
  end.

Definition encode_dictionary_body (body : B) (a : CompressionAlgorithm) (dict : CompressionDictionary) (level : Z) : B :=
  match a with
  | Dcz => zstd_with_dict (raw_data dict) level body
  | Dcb => brotli_with_dict (raw_data dict) level body
  | _ => body
  end.

Definition compression_apply (rc : ResponseCompression) (res : Response B) : Response B :=
  if negb (is_compressible (rc_config rc) (res_status res) (res_headers res)) then res
  else
    let h := append_vary (res_headers res) (is_some (rc_dictionary rc)) in
    match rc_algorithm rc with
    | None => mkResponse (res_status res) h (res_body res)
    | Some a =>
        let level := resolve_level (rc_config rc) a h in
        let h := set_encoded_headers h a (rc_dictionary rc) in
        if rc_head rc then mkResponse (res_status res) h (res_body res)
        else match rc_dictionary rc with
             | Some dict =>
                 let is_brotli := bool_decide (a = Dcb) in
                 mkResponse (res_status res) h (encode_dictionary_body (res_body res) a dict (level_to_i32 level is_brotli))
             | None => mkResponse (res_status res) h (encode_body (res_body res) a level)
             end
    end.

End Apply.

(** ** Facts *)

(** A coding wins when it is the first of the best quality, and this is not 0. *)
Definition best_coding (accepted : list (string * Z)) (l : list CompressionAlgorithm) (a : CompressionAlgorithm) : Prop :=
  exists before after, l = before ++ a :: after
  /\ 0 < coding_quality accepted (algorithm_as_str a)
  /\ Forall (fun b => coding_quality accepted (algorithm_as_str b) < coding_quality accepted (algorithm_as_str a)) before
  /\ Forall (fun b => coding_quality accepted (algorithm_as_str b) <= coding_quality accepted (algorithm_as_str a)) after.

Lemma negotiate_spec accepted l :
  match fold_left (negotiate_turn accepted) l (None, 0) with
  | (Some a, q) => best_coding accepted l a /\ q = coding_quality accepted (algorithm_as_str a)
  | (None, q) => q = 0 /\ Forall (fun b => coding_quality accepted (algorithm_as_str b) <= 0) l
  end.
Proof.
  induction l as [|b l IH] using rev_ind; [done|]. rewrite fold_left_app. cbn [fold_left].
  destruct (fold_left (negotiate_turn accepted) l (None, 0)) as [[a|] q]; unfold negotiate_turn; cbn [snd].
  - destruct IH as [(x & y & -> & Hpos & Hb & Ha) ->]. destruct (Z.ltb_spec (coding_quality accepted (algorithm_as_str a)) (coding_quality accepted (algorithm_as_str b))) as [Hlt|Hge].
    + split; [|done]. exists (x ++ a :: y), []. split_and!; [done|lia| |constructor].
      apply Forall_app. split; [|constructor; [done|]].
      * eapply Forall_impl; [exact Hb|]. cbn. intros. lia.
      * eapply Forall_impl; [exact Ha|]. cbn. intros. lia.
    + split; [|done]. exists x, (y ++ [b]). split_and!; [by rewrite <-app_assoc|done|done|].
      apply Forall_app. split; [done|]. by constructor.
  - destruct IH as [-> H]. destruct (Z.ltb_spec 0 (coding_quality accepted (algorithm_as_str b))) as [Hlt|Hge].
    + split; [|done]. exists l, []. split_and!; [done|done| |constructor]. eapply Forall_impl; [exact H|]. cbn. intros. lia.
    + split; [done|]. apply Forall_app. split; [done|]. by constructor.
Qed.

Section CompressionFacts.
Context `{HDR : HeaderOps} {LAWS : HeaderLaws HDR} {HASH : DictionaryHash} {B : Type} {ENC : Encoders B}.

Lemma negotiate_best l h a : negotiate l h = Some a <-> best_coding (accepted_codings h) l a.
Proof.
  unfold negotiate. pose proof (negotiate_spec (accepted_codings h) l) as H.
  destruct (fold_left _ l (None, 0)) as [[a'|] q]; cbn.
  - destruct H as [Hb _]. split; [by intros [= <-]|]. intros Ha. f_equal.
    destruct Hb as (x & y & El & Hp & H1 & H2), Ha as (x' & y' & El' & Hp' & H1' & H2'). rewrite El in El'.
    destruct (app_eq_inv _ _ _ _ El') as [(k & -> & E)|(k & -> & E)]; destruct k as [|z k]; cbn in E; simplify_eq; try done.
    + apply Forall_app in H1 as [_ H1]. apply Forall_cons in H1 as [H1 _]. apply Forall_app in H2' as [_ H2'].
      apply Forall_cons in H2' as [H2' _]. lia.
    + apply Forall_app in H1' as [_ H1']. apply Forall_cons in H1' as [H1' _]. apply Forall_app in H2 as [_ H2].
      apply Forall_cons in H2 as [H2 _]. lia.
  - destruct H as [_ H]. split; [done|]. intros (x & y & -> & Hp & _). apply Forall_app in H as [_ H].
    apply Forall_cons in H as [H _]. lia.
Qed.

Context {TEXT : HeaderTextLaws HDR}.

(** The response varies by a request header. *)
Definition varies_by (h : Headers) (name : string) : bool :=
  existsb (fun n => String.eqb n "*" || eq_ignore_ascii_case n name) (header_items h "vary").

Lemma header_items_append h n v m :
  header_items (h_append n v h) m
  = if decide (m = n) then header_items h m ++ map trim (match to_str v with Some s => split_on "," s | None => [] end)
    else header_items h m.
Proof.
  unfold header_items. rewrite get_all_append. destruct (decide (m = n)); [|done].
  rewrite flat_map_app, map_app. cbn [flat_map]. by rewrite app_nil_r.
Qed.

Lemma varies_appended h v name :
  to_str v = Some v -> split_on "," v = [v] -> trim v = v -> eq_ignore_ascii_case v name = true -> varies_by (h_append "vary" v h) name = true.
Proof.
  intros Hs Hp Ht He. unfold varies_by. rewrite header_items_append, decide_True, Hs, Hp by done. cbn [map].
  rewrite existsb_app, Ht. cbn [existsb]. rewrite He. by rewrite !orb_true_r.
Qed.

Lemma varies_more h v name : varies_by h name = true -> varies_by (h_append "vary" v h) name = true.
Proof.
  unfold varies_by. rewrite header_items_append, decide_True by done. rewrite existsb_app. by intros ->.
Qed.

Lemma append_vary_names h d :
  varies_by (append_vary h d) "accept-encoding" = true
  /\ (d = true -> varies_by (append_vary h d) "available-dictionary" = true)
  /\ forall n, n <> "vary" -> h_get_all (append_vary h d) n = h_get_all h n.
Proof.
  unfold append_vary. cbn zeta.
  change (existsb (fun n => String.eqb n "*" || eq_ignore_ascii_case n "accept-encoding") (header_items h "vary"))
    with (varies_by h "accept-encoding").
  set (h1 := if varies_by h "accept-encoding" then h else _).
  change (existsb (fun n => String.eqb n "*" || eq_ignore_ascii_case n "available-dictionary") (header_items h1 "vary"))
    with (varies_by h1 "available-dictionary").
  assert (H1 : varies_by h1 "accept-encoding" = true).
  { unfold h1. destruct (varies_by h "accept-encoding") eqn:E; [done|].
    apply varies_appended; [by apply to_str_text|by vm_compute|by vm_compute|by vm_compute]. }
  assert (H2 : forall n, n <> "vary" -> h_get_all h1 n = h_get_all h n).
  { intros n Hn. unfold h1. destruct (varies_by h "accept-encoding"); [done|]. by rewrite get_all_append, decide_False. }
  destruct d; cbn [andb]; [|by split_and!]. destruct (varies_by h1 "available-dictionary") eqn:E; cbn [negb]; [by split_and!|].
  split_and!; [by apply varies_more| |intros n Hn; by rewrite get_all_append, decide_False, H2].
  intros _. apply varies_appended; [by apply to_str_text|by vm_compute|by vm_compute|by vm_compute].
Qed.

Definition etag_weak (h : Headers) : Prop := match h_get h "etag" with Some e => starts_with "W/" e = true | None => True end.

Lemma weaken_values h n : n <> "etag" -> h_get_all (weaken_etag h) n = h_get_all h n.
Proof.
  intros Hn. unfold weaken_etag. destruct (h_get h "etag"); [|done]. destruct (starts_with _ _); [done|].
  by rewrite get_all_insert, decide_False.
Qed.

Lemma weakened h : etag_weak (weaken_etag h).
Proof.
  unfold etag_weak, weaken_etag. destruct (h_get h "etag") as [e|] eqn:E; [|by rewrite E].
  destruct (starts_with "W/" e) eqn:Es; [by rewrite E|]. by rewrite get_first, get_all_insert, decide_True.
Qed.

Lemma encoded_values h a d n :
  n <> "etag" -> n <> "content-dictionary" ->
  h_get_all (set_encoded_headers h a d) n
  = if bool_decide (n = "content-encoding") then [algorithm_as_str a]
    else if bool_decide (n = "content-length") || bool_decide (n = "accept-ranges") then [] else h_get_all h n.
Proof.
  intros He Hc. unfold set_encoded_headers. cbn zeta. rewrite weaken_values by done.
  assert (H : forall h', h_get_all (match d with
     | Some d => match value_from_str (dictionary_hash d) with Some v => h_insert "content-dictionary" v h' | None => h' end
     | None => h' end) n = h_get_all h' n).
  { intros h'. destruct d as [d|]; [|done]. destruct (value_from_str _); [|done]. by rewrite get_all_insert, decide_False. }
  rewrite H, get_all_insert, !get_all_remove.
  destruct (decide (n = "content-encoding")); [by rewrite bool_decide_true|]. rewrite (bool_decide_false (n = "content-encoding")) by done.
  destruct (decide (n = "accept-ranges")); [rewrite (bool_decide_true (n = "accept-ranges")) by done; by rewrite orb_true_r|].
  rewrite (bool_decide_false (n = "accept-ranges")) by done. rewrite orb_false_r.
  destruct (decide (n = "content-length")); [by rewrite bool_decide_true|by rewrite bool_decide_false].
Qed.

(** The client holds the dictionary of the settings and accepts a coding with it. *)
Definition dictionary_agreed (c : Compression) (path : string) (h : Headers) (a : CompressionAlgorithm) (d : CompressionDictionary) : Prop :=
  d ∈ dictionaries c /\ matches_path d path = true
  /\ (exists client_hash, client_available_dictionary h = Some client_hash /\ trim_colons client_hash = trim_colons (dictionary_hash d))
  /\ (a = Dcz \/ a = Dcb) /\ 0 < named_quality (accepted_codings h) (algorithm_as_str a).

Lemma negotiate_dictionary_agreed c path h d a : negotiate_dictionary c path h = Some (d, a) -> dictionary_agreed c path h a d.
Proof.
  unfold negotiate_dictionary. destruct (client_available_dictionary h) as [ch|] eqn:Ec; [|done]. cbn [mbind option_bind].
  destruct (find _ (dictionaries c)) as [d'|] eqn:Ef; [|done]. cbn zeta.
  apply find_some in Ef as [Hin Hm]. apply andb_prop in Hm as [Hp Hh]. apply String.eqb_eq in Hh.
  assert (Hd : forall a, (a = Dcz \/ a = Dcb) -> 0 < named_quality (accepted_codings h) (algorithm_as_str a) -> dictionary_agreed c path h a d').
  { intros a' Ha Hq. split; [by apply list_elem_of_In|]. split; [done|]. split; [|done]. exists ch. split; [done|]. by symmetry. }
  destruct (Z.ltb_spec 0 (named_quality (accepted_codings h) "dcz")) as [Hz|Hz]; cbn [andb].
  - destruct (_ <=? _); [intros [= <- <-]; apply Hd; [by left|done]|].
    destruct (Z.ltb_spec 0 (named_quality (accepted_codings h) "dcb")); [|done]. intros [= <- <-]. apply Hd; [by right|done].
  - destruct (Z.ltb_spec 0 (named_quality (accepted_codings h) "dcb")); [|done]. intros [= <- <-]. apply Hd; [by right|done].
Qed.

(** The coding that the client and the settings agree on. *)
Definition agreed (c : Compression) (path : string) (h : Headers) (a : CompressionAlgorithm) (d : option CompressionDictionary) : Prop :=
  match d with
  | Some d => dictionary_agreed c path h a d
  | None => best_coding (accepted_codings h) (algorithms c) a
  end.

Lemma new_agreed c is_head path h a :
  rc_algorithm (ResponseCompression_new c is_head path h) = Some a ->
  agreed c path h a (rc_dictionary (ResponseCompression_new c is_head path h)).
Proof.
  unfold ResponseCompression_new, match_dictionary_or_standard.
  destruct (match dictionaries c with [] => None | _ => negotiate_dictionary c path h end) as [[d a']|] eqn:E; cbn.
  - intros [= <-]. destruct (dictionaries c); [done|]. by apply negotiate_dictionary_agreed.
  - by apply negotiate_best.
Qed.

(** Compression changes a response only when its status, type, size and headers allow it.
    Then the response says that it varies by the codings of the request; and when it is encoded,
    the coding is the first of the settings that the client wants most, or one with a dictionary
    that the client holds, the response names it, has no length and no strong validator, and its
    body is encoded with it. *)
Theorem coding_agreed (c : Compression) (is_head : bool) (path : string) (h : Headers) (res : Response B) :
  let rc := ResponseCompression_new c is_head path h in
  let out := compression_apply rc res in
  res_status out = res_status res
  /\ (is_compressible c (res_status res) (res_headers res) = false -> out = res)
  /\ (is_compressible c (res_status res) (res_headers res) = true ->
        varies_by (res_headers out) "accept-encoding" = true
        /\ match rc_algorithm rc with
           | None => res_body out = res_body res /\ forall n, n <> "vary" -> h_get_all (res_headers out) n = h_get_all (res_headers res) n
           | Some a =>
               agreed c path h a (rc_dictionary rc)
               /\ h_get_all (res_headers out) "content-encoding" = [algorithm_as_str a]
               /\ h_get_all (res_headers out) "content-length" = [] /\ etag_weak (res_headers out)
               /\ exists level, res_body out = if is_head then res_body res
                                 else match rc_dictionary rc with
                                      | Some d => encode_dictionary_body (res_body res) a d (level_to_i32 level (bool_decide (a = Dcb)))
                                      | None => encode_body (res_body res) a level
                                      end
           end).
Proof.
  intros rc out.
  assert (Ec : rc_config rc = c) by (unfold rc, ResponseCompression_new; by destruct (match_dictionary_or_standard _ _ _)).
  assert (Eh : rc_head rc = is_head) by (unfold rc, ResponseCompression_new; by destruct (match_dictionary_or_standard _ _ _)).
  pose proof (new_agreed c is_head path h) as Ha. fold rc in Ha. unfold out, compression_apply. rewrite Ec, Eh. clear out.
  destruct (is_compressible c _ _); cbn [negb]; [|done]. cbn zeta.
  destruct (append_vary_names (res_headers res) (is_some (rc_dictionary rc))) as (Hv & _ & Hn).
  destruct (rc_algorithm rc) as [a|]; [|by cbn]. specialize (Ha a eq_refl).
  set (h1 := append_vary _ _) in *.
  assert (Hv' : varies_by (set_encoded_headers h1 a (rc_dictionary rc)) "accept-encoding" = true).
  { unfold varies_by in *. rewrite (header_items_ext _ h1); [done|]. by apply encoded_values. }
  assert (H1 : h_get_all (set_encoded_headers h1 a (rc_dictionary rc)) "content-encoding" = [algorithm_as_str a]) by by rewrite encoded_values.
  assert (H2 : h_get_all (set_encoded_headers h1 a (rc_dictionary rc)) "content-length" = []) by by rewrite encoded_values.
  assert (H3 : etag_weak (set_encoded_headers h1 a (rc_dictionary rc))) by apply weakened.
  destruct is_head; [|destruct (rc_dictionary rc)]; cbn [res_status res_headers res_body]; split_and!; try done; intros _;
    split_and!; try done; by exists (resolve_level c a h1).
Qed.
End CompressionFacts.

(** ** At work *)

Definition plain_hash : DictionaryHash := {| sha256_base64 d := d |}.

(** Bodies as texts with their codings in front. *)
Definition text_encoders : Encoders string := {|
  gzip_encoder _ b := String.append "gzip:" b;
  brotli_encoder _ b := String.append "br:" b;
  zstd_encoder _ b := String.append "zstd:" b;
  zstd_with_dict d _ b := String.append "dcz:" (String.append d b);
  brotli_with_dict d _ b := String.append "dcb:" (String.append d b);
|}.

Definition text_settings : Compression := mkCompression [Brotli; Gzip] 4 ["text/*"] false true [].
Definition text_request : list (string * string) := [("accept-encoding", "gzip;q=0.8, br;q=0.5, *;q=0.1")].
Definition text_response : Response (HDR := plain_header_ops) string :=
  mkResponse (HDR := plain_header_ops) 200 [("content-type", "text/plain"); ("content-length", "5"); ("etag", "x")] "hello".

Lemma coding_agreed_witness :
  compression_apply (HDR := plain_header_ops) (HASH := plain_hash) (ENC := text_encoders)
    (ResponseCompression_new (HDR := plain_header_ops) (HASH := plain_hash) text_settings false "/" text_request) text_response
  = mkResponse (HDR := plain_header_ops) 200
      [("content-type", "text/plain"); ("vary", "Accept-Encoding"); ("content-encoding", "gzip"); ("etag", "W/x")] "gzip:hello"
  /\ res_status (compression_apply (HDR := plain_header_ops) (HASH := plain_hash) (ENC := text_encoders)
       (ResponseCompression_new (HDR := plain_header_ops) (HASH := plain_hash) text_settings false "/" text_request) text_response) = 200.
Proof.
  split; [by vm_compute|].
  exact (proj1 (coding_agreed (HDR := plain_header_ops) (HASH := plain_hash) (ENC := text_encoders)
                  text_settings false "/" text_request text_response)).
Defined.

(** A dictionary coding among the algorithms needs no dictionary: the body is plain Zstandard
    under the name of the other coding. *)
Lemma dictionary_coding_without_dictionary :
  Compression_validate (mkCompression [Dcz] 0 ["text/*"] false true []) = Ok tt
  /\ compression_apply (HDR := plain_header_ops) (HASH := plain_hash) (ENC := text_encoders)
       (ResponseCompression_new (HDR := plain_header_ops) (HASH := plain_hash) (mkCompression [Dcz] 0 ["text/*"] false true []) false "/"
          [("accept-encoding", "*")]) text_response
     = mkResponse (HDR := plain_header_ops) 200
         [("content-type", "text/plain"); ("vary", "Accept-Encoding"); ("content-encoding", "dcz"); ("etag", "W/x")] "zstd:hello".
Proof. by vm_compute. Qed.
