(* ===== verification/GrpcWeb.v ===== *)
(** * gRPC-Web

    [proxy/http/grpc_web.rs]: which requests are gRPC-Web, the preflight of a browser, the headers
    of both directions, and the body that carries the trailers of the upstream server as its last
    frame.  A body is the sequence of what its [poll_frame] returns once it is ready. *)

From Stdlib Require Import Ascii.
From stdpp Require Import strings.
From S2P Require Import Prelude Basics IpText Net Policy Quarantine Router Headers Cookies EnvFiles HeaderRules Compression.

(** What the code uses of the [url] crate: the scheme and the host of a URL. *)
Class OriginOps : Type := { url_scheme_host : string -> option (string * option string) }.

Definition is_local_host (host : string) : bool :=
  String.eqb host "localhost" || String.eqb host "127.0.0.1" || String.eqb host "::1".

Definition matches_vhosts `{RX : RegexOps} (origin_clean : string) (vhosts : list VirtualHost) : bool :=
  match vhosts with
  | [] => false
  | _ =>
      if existsb (fun v => VirtualHost_test v origin_clean) vhosts then true
      else is_local_host origin_clean
           && existsb (fun v => VirtualHost_test v "localhost" || VirtualHost_test v "127.0.0.1" || VirtualHost_test v "::1") vhosts
  end.

(** [trim_start_matches('[').trim_end_matches(']')]. *)
Definition trim_brackets (s : string) : string := trim_end_by (Ascii.eqb "]") (trim_start_matches (Ascii.eqb "[") s).

Definition matches_request_host (origin_clean req_host : string) : bool :=
  let req_clean := trim_brackets (hd req_host (split_on ":" req_host)) in
  if eq_ignore_ascii_case origin_clean req_clean then true else is_local_host origin_clean && is_local_host req_clean.

Definition parse_origin_host `{URL : OriginOps} (origin_str : string) : option string :=
  if String.eqb origin_str "null" || str_is_empty (trim origin_str) then None
  else match url_scheme_host origin_str with
       | Some (scheme, host) =>
           if negb (String.eqb scheme "http") && negb (String.eqb scheme "https") then None
           else match host with Some host => Some (to_ascii_lowercase (trim_brackets host)) | None => None end
       | None => None
       end.

Definition is_allowed_origin `{RX : RegexOps} `{URL : OriginOps} (origin_str : string) (vhosts : list VirtualHost) (req_host : option string) : bool :=
  match parse_origin_host origin_str with
  | None => false
  | Some origin_clean =>
      matches_vhosts origin_clean vhosts
      || match req_host with Some h => matches_request_host origin_clean h | None => false end
  end.

Section GrpcWeb.
Context `{HDR : HeaderOps} `{RX : RegexOps} `{URL : OriginOps}.

Definition is_grpc_web_request (h : Headers) : bool :=
  match header_text h "content-type" with Some s => starts_with "application/grpc-web" s | None => false end
  || h_contains h "x-grpc-web".

Definition is_grpc_web_preflight (is_options : bool) (h : Headers) : bool :=
  if negb is_options then false
  else if h_contains h "x-grpc-web" then true
  else match header_text h "access-control-request-headers" with
       | Some s => str_contains "grpc-web" s || str_contains "x-grpc-web" s
       | None => false
       end.

Definition forbidden_response : Response string := mkResponse 403 h_empty EmptyString.

Definition cors_preflight_response (h : Headers) (vhosts : list VirtualHost) (req_host : option string) : Response string :=
  match header_text h "origin" with
  | None => forbidden_response
  | Some origin =>
      if negb (is_allowed_origin origin vhosts req_host) then forbidden_response
      else match value_from_str origin with
           | None => forbidden_response
           | Some origin_val =>
               mkResponse 204
                 (h_insert "content-length" "0"
                 (h_insert "access-control-max-age" "86400"
                 (h_insert "access-control-expose-headers" "grpc-status,grpc-message"
                 (h_insert "access-control-allow-headers" "content-type,x-grpc-web,x-user-agent"
                 (h_insert "access-control-allow-methods" "POST, OPTIONS"
                 (h_insert "access-control-allow-origin" origin_val h_empty)))))) EmptyString
           end
  end.

(** [get_mut] with a new first value; the other values of the name stay. *)
Definition replace_first (n v : string) (h : Headers) : Headers :=
  match h_get_all h n with
  | [] => h
  | _ :: rest => fold_left (fun h x => h_append n x h) rest (h_insert n v h)
  end.

Definition prepare_grpc_request (h : Headers) : Headers :=
  let h := match header_text h "content-type" with
           | Some ct => if starts_with "application/grpc-web" ct then replace_first "content-type" "application/grpc" h else h
           | None => h
           end in
  if h_contains h "te" then h else h_insert "te" "trailers" h.

Definition apply_grpc_web_response_headers (h : Headers) (origin : option string) : Headers :=
  let h := h_remove "content-length" h in
  let h := match header_text h "content-type" with
           | Some ct => if starts_with "application/grpc" ct then replace_first "content-type" "application/grpc-web+proto" h else h
           | None => h
           end in
  match origin with
  | Some origin =>
      match value_from_str origin with
      | Some val =>
          h_insert "access-control-expose-headers" "grpc-status,grpc-message" (h_insert "access-control-allow-origin" val h)
      | None => h
      end
  | None => h
  end.

(** ** The trailers frame *)

Definition trailer_kept (name : string) : bool := starts_with "grpc-" name || String.eqb name "content-type".

Definition CRLF : string := String CR (String LF EmptyString).

Definition trailer_line (e : string * string) : string := String.append e.1 (String.append ": " (String.append e.2 CRLF)).

Definition trailers_payload (fields : list (string * string)) : string :=
  String.concat EmptyString (map trailer_line (List.filter (fun e => trailer_kept e.1) fields)).

(** The 4 bytes of [payload.len() as u32]. *)
Definition be4 (n : Z) : string :=
  let byte k := ascii_of_N (Z.to_N ((n / 2 ^ k) mod 256)) in
  String (byte 24) (String (byte 16) (String (byte 8) (String (byte 0) EmptyString))).

Definition TRAILER_FLAG : ascii := "128".

Definition encode_trailers_frame (trailers : Headers) : string :=
  let payload := trailers_payload (h_iter trailers) in
  String TRAILER_FLAG (String.append (be4 (Z.of_nat (String.length payload))) payload).

(** ** The body *)

Inductive GFrame : Type := GData (data : string) | GTrailers (t : Headers).

(** One ready poll of a body. *)
Inductive GPolled : Type := GFrameReady (f : GFrame) | GError | GEnd.

Record GrpcWebBody : Type := mkGrpcWebBody { trailers_frame : option string; gw_done : bool }.

(** [poll_frame] when the inner body is ready: what it returns, and whether it took the poll of
    the inner body. *)
Definition grpc_poll (b : GrpcWebBody) (inner : GPolled) : GPolled * GrpcWebBody :=
  if gw_done b then (GEnd, b)
  else match inner with
       | GFrameReady (GData data) => (GFrameReady (GData data), b)
       | GFrameReady (GTrailers t) => (GFrameReady (GData (encode_trailers_frame t)), mkGrpcWebBody (trailers_frame b) true)
       | GError => (GError, b)
       | GEnd =>
           match trailers_frame b with
           | Some f => (GFrameReady (GData f), mkGrpcWebBody None (gw_done b))
           | None => (GEnd, mkGrpcWebBody None true)
           end
       end.

Fixpoint grpc_run (b : GrpcWebBody) (inner : list GPolled) : list GPolled * GrpcWebBody :=
  match inner with
  | [] => ([], b)
  | p :: rest => let '(q, b) := grpc_poll b p in let '(out, b) := grpc_run b rest in (q :: out, b)
  end.

Definition grpc_is_end_stream (b : GrpcWebBody) : bool := gw_done b && bool_decide (trailers_frame b = None).

(** The response headers and the state of the new body. *)
Definition transform_response (h : Headers) (origin : option string) : Headers * GrpcWebBody :=
  let trailers_only := h_contains h "grpc-status" in
  let frame := if trailers_only then Some (encode_trailers_frame h) else None in
  (apply_grpc_web_response_headers h origin, mkGrpcWebBody frame false).

End GrpcWeb.

(** ** Reading the frame

    What a client of gRPC-Web does with the last frame: the flag, the length, and the lines. *)

Definition byte_at (s : string) (k : nat) : Z := match String.get k s with Some c => byte_of c | None => 0 end.

(** One line [name: value] with its end, and the rest. *)
Definition read_line (s : string) : option ((string * string) * string) :=
  match split_once ":" s with
  | Some (name, String " " r) =>
      match split_once CR r with
      | Some (value, String c rest) => if Ascii.eqb c LF then Some ((name, value), rest) else None
      | _ => None
      end
  | _ => None
  end.

Fixpoint read_lines (fuel : nat) (s : string) : option (list (string * string)) :=
  match s with
  | EmptyString => Some []
  | _ =>
      match fuel with
      | O => None
      | S f =>
          match read_line s with
          | Some (e, rest) => match read_lines f rest with Some l => Some (e :: l) | None => None end
          | None => None
          end
      end
  end.

Definition read_trailers_frame (frame : string) : option (list (string * string)) :=
  match frame with
  | String flag r =>
      if negb (Ascii.eqb flag TRAILER_FLAG) then None
      else
        let len := ((byte_at r 0 * 256 + byte_at r 1) * 256 + byte_at r 2) * 256 + byte_at r 3 in
        match r with
        | String _ (String _ (String _ (String _ payload))) =>
            if Z.of_nat (String.length payload) =? len then read_lines (String.length payload) payload else None
        | _ => None
        end
  | EmptyString => None
  end.

Lemma byte_of_ascii n : 0 <= n < 256 -> byte_of (ascii_of_N (Z.to_N n)) = n.
Proof. intros H. unfold byte_of. rewrite N_ascii_embedding by lia. lia. Qed.

Lemma be4_value n : 0 <= n < 2 ^ 32 ->
  let r := be4 n in ((byte_at r 0 * 256 + byte_at r 1) * 256 + byte_at r 2) * 256 + byte_at r 3 = n.
Proof.
  intros H r. unfold r, be4, byte_at. cbn [String.get].
  rewrite !byte_of_ascii by (apply Z.mod_pos_bound; lia).
  change (2 ^ 24) with 16777216. change (2 ^ 16) with 65536. change (2 ^ 8) with 256. change (2 ^ 0) with 1.
  rewrite Z.div_1_r. rewrite (Z.mod_small (n / 16777216)).
  2: { split; [apply Z.div_pos; lia|apply Z.div_lt_upper_bound; lia]. }
  pose proof (Z.div_mod n 256 ltac:(lia)). pose proof (Z.div_mod (n / 256) 256 ltac:(lia)). pose proof (Z.div_mod (n / 65536) 256 ltac:(lia)).
  assert (n / 65536 = n / 256 / 256) by (rewrite Z.div_div by lia; done).
  assert (n / 16777216 = n / 65536 / 256) by (rewrite Z.div_div by lia; done). lia.
Qed.

(** The fields of a header map: a name has no colon, and a value no carriage return. *)
Definition field_ok (e : string * string) : Prop := char_free ":" e.1 = true /\ char_free CR e.2 = true.

Lemma read_trailer_line e rest : field_ok e -> read_line (String.append (trailer_line e) rest) = Some (e, rest).
Proof.
  intros [Hn Hv]. unfold read_line, trailer_line. rewrite <-append_assoc. cbn [String.append].
  rewrite split_once_app by done. rewrite <-append_assoc. unfold CRLF. cbn [String.append].
  rewrite split_once_app by done. rewrite Ascii.eqb_refl. by destruct e.
Qed.

Lemma trailer_line_length e : (1 <= String.length (trailer_line e))%nat.
Proof. unfold trailer_line. rewrite !length_append. cbn [String.length String.append]. lia. Qed.

Lemma read_trailer_lines l : Forall field_ok l -> forall fuel,
  (String.length (String.concat EmptyString (map trailer_line l)) <= fuel)%nat ->
  read_lines fuel (String.concat EmptyString (map trailer_line l)) = Some l.
Proof.
  induction 1 as [|e l He Hl IH]; intros fuel Hf; [by destruct fuel|].
  assert (E : String.concat EmptyString (map trailer_line (e :: l)) = String.append (trailer_line e) (String.concat EmptyString (map trailer_line l))).
  { destruct l as [|e' l]; [cbn [map String.concat]; by rewrite append_nil_r|done]. }
  rewrite E in *. pose proof (trailer_line_length e) as Hlen. rewrite length_append in Hf.
  destruct fuel as [|f]; [lia|]. cbn [read_lines].
  destruct (String.append (trailer_line e) (String.concat EmptyString (map trailer_line l))) eqn:Ea.
  { destruct (trailer_line e); [cbn in Hlen; lia|done]. }
  rewrite <-Ea, read_trailer_line by done. by rewrite IH by lia.
Qed.

Section GrpcFacts.
Context `{HDR : HeaderOps} `{RX : RegexOps} `{URL : OriginOps}.

Lemma frame_reads_back (t : Headers) :
  Forall field_ok (h_iter t) -> Z.of_nat (String.length (trailers_payload (h_iter t))) < 2 ^ 32 ->
  read_trailers_frame (encode_trailers_frame t) = Some (List.filter (fun e => trailer_kept e.1) (h_iter t)).
Proof.
  intros Hf Hl. unfold encode_trailers_frame. cbn zeta. set (p := trailers_payload (h_iter t)) in *.
  unfold read_trailers_frame. rewrite Ascii.eqb_refl. cbn [negb].
  pose proof (be4_value (Z.of_nat (String.length p)) ltac:(lia)) as Hb. cbn zeta in Hb. unfold be4 in *. cbn [String.append].
  cbn [byte_at String.get] in *. rewrite Hb, Z.eqb_refl.
  apply read_trailer_lines; [|done]. by apply Forall_filter_bool.
Qed.

(** A browser reads from a gRPC-Web response what the upstream server sent: the data as it
    came and, as the last frame, the trailers, whose frame reads back as exactly the fields of
    gRPC among them; after it nothing comes. *)
Theorem trailers_reach_browser (data : list string) (t : Headers) (rest : list GPolled) (frame : option string) :
  Forall field_ok (h_iter t) -> Z.of_nat (String.length (trailers_payload (h_iter t))) < 2 ^ 32 ->
  let inner := map (fun d => GFrameReady (GData d)) data ++ GFrameReady (GTrailers t) :: rest in
  let '(out, b) := grpc_run (mkGrpcWebBody frame false) inner in
  exists last, out = map (fun d => GFrameReady (GData d)) data ++ GFrameReady (GData last) :: map (fun _ => GEnd) rest
  /\ read_trailers_frame last = Some (List.filter (fun e => trailer_kept e.1) (h_iter t)).
Proof.
  intros Hf Hl inner.
  assert (Hdone : forall f r, grpc_run (mkGrpcWebBody f true) r = (map (fun _ => GEnd) r, mkGrpcWebBody f true)).
  { intros f r. induction r as [|p r IH]; [done|]. cbn. by rewrite IH. }
  assert (H : forall r, grpc_run (mkGrpcWebBody frame false) (map (fun d => GFrameReady (GData d)) data ++ GFrameReady (GTrailers t) :: r)
            = (map (fun d => GFrameReady (GData d)) data ++ GFrameReady (GData (encode_trailers_frame t)) :: map (fun _ => GEnd) r,
               mkGrpcWebBody frame true)).
  { intros r. induction data as [|d ds IH]; cbn; [by rewrite Hdone|by rewrite IH]. }
  unfold inner. rewrite H. exists (encode_trailers_frame t). split; [done|]. by apply frame_reads_back.
Qed.

End GrpcFacts.

Definition upstream_trailers : list (string * string) := [("grpc-status", "0"); ("x-internal", "1"); ("grpc-message", "OK")].

Lemma trailers_reach_browser_witness :
  Forall field_ok upstream_trailers
  /\ exists last,
     (grpc_run (HDR := plain_header_ops) (mkGrpcWebBody None false)
        [GFrameReady (GData "a"); GFrameReady (GTrailers (HDR := plain_header_ops) upstream_trailers); GEnd]).1
     = [GFrameReady (GData "a"); GFrameReady (GData last); GEnd]
     /\ read_trailers_frame last = Some [("grpc-status", "0"); ("grpc-message", "OK")].
Proof.
  assert (H : Forall field_ok upstream_trailers) by (repeat constructor).
  split; [exact H|].
  exact (trailers_reach_browser (HDR := plain_header_ops) ["a"] upstream_trailers [GEnd] None H eq_refl).
Defined.

(** A message in the text form of the protocol goes on as it came, under the type of the binary
    form. *)
Lemma text_form_not_decoded :
  prepare_grpc_request (HDR := plain_header_ops) [("content-type", "application/grpc-web-text")]
  = [("content-type", "application/grpc"); ("te", "trailers")].
Proof. by vm_compute. Qed.
