(* ===== verification/Responses.v ===== *)
(** * Responses to clients

    The response half of [proxy/http/rewriter.rs]: [ResponseRewriter], the error pages with their
    variables ([error_page_theme.rs] of the API crate), and the preferences of a page
    ([proxy/http/page.rs] with the cookies of [i18n.rs]).  The template of the built-in error page
    and the translations are files that are no Rust code, so they are arguments. *)

From Stdlib Require Import Ascii.
From stdpp Require Import strings.
From S2P Require Import Prelude Basics IpText Net Policy Quarantine Router ProxyErrors Pool Headers Cookies EnvFiles HeaderRules.
From S2P Require Import Rewriter Compression GrpcWeb.

(** ** Preferences *)

Inductive Locale : Type := En | Tr.
Inductive Theme : Type := System | Light | Dark.

Definition Locale_code (l : Locale) : string := match l with En => "en" | Tr => "tr" end.
Definition Theme_code (t : Theme) : string := match t with System => "system" | Light => "light" | Dark => "dark" end.

Definition Locale_from_code (code : string) : option Locale :=
  find (fun l => eq_ignore_ascii_case (Locale_code l) (trim code)) [En; Tr].

Definition Theme_from_code (code : string) : option Theme :=
  find (fun t => eq_ignore_ascii_case (Theme_code t) (trim code)) [System; Light; Dark].

Definition LOCALE_COOKIE : string := "r3v3rs3_lang".
Definition THEME_COOKIE : string := "r3v3rs3_theme".

(** The value of the named cookie in a [Cookie] header value. *)
Definition cookie_value (header name : string) : option string :=
  trim ∘ snd <$> find (fun kv => String.eqb kv.1 name) (omap (fun pair => split_once "=" (trim pair)) (split_on ";" header)).

Definition Locale_from_cookie_header (header : string) : Locale := default En (cookie_value header LOCALE_COOKIE ≫= Locale_from_code).
Definition Theme_from_cookie_header (header : string) : Theme := default System (cookie_value header THEME_COOKIE ≫= Theme_from_code).

Record PagePreferences : Type := mkPagePreferences { locale : Locale; theme : Theme }.

Definition PagePreferences_default : PagePreferences := mkPagePreferences En System.

Definition theme_attribute (p : PagePreferences) : option string :=
  match theme p with System => None | t => Some (Theme_code t) end.

(** A translation table is a map of keys; a missing key is looked up in English. *)
Definition translate (table : Locale -> string -> option string) (l : Locale) (key : string) : string :=
  match table l key with Some t => t | None => default key (table En key) end.

(** ** Variables of an error page *)

Definition escape_html_char (c : ascii) : string :=
  if Ascii.eqb c "&" then "&amp;"
  else if Ascii.eqb c "<" then "&lt;"
  else if Ascii.eqb c ">" then "&gt;"
  else if Ascii.eqb c DOUBLE_QUOTE then "&quot;"
  else if Ascii.eqb c "'" then "&#x27;"
  else String c EmptyString.

Fixpoint escape_html (input : string) : string :=
  match input with
  | EmptyString => EmptyString
  | String c r => String.append (escape_html_char c) (escape_html r)
  end.

(** [str::replace]: every occurrence from the left, the replaced text is not read again.  [skip]
    counts the characters of an occurrence that are still to be passed. *)
Fixpoint replace_from (from to : string) (skip : nat) (s : string) : string :=
  match s with
  | EmptyString => EmptyString
  | String c r =>
      match skip with
      | S k => replace_from from to k r
      | O => if starts_with from s then String.append to (replace_from from to (String.length from - 1) r)
             else String c (replace_from from to O r)
      end
  end.

Definition replace (from to s : string) : string := replace_from from to O s.

Definition escaped_or_dash (s : string) : string := if str_is_empty s then "-" else escape_html s.

Definition substitute_error_page_variables (body : string) (status : Z) (message request_id host client_ip : string) : string :=
  let out := replace "{{status}}" (dec status) body in
  let out := replace "{{message}}" (escape_html message) out in
  let out := replace "{{request_id}}" (escaped_or_dash request_id) out in
  let out := replace "{{host}}" (escaped_or_dash host) out in
  replace "{{client_ip}}" (escaped_or_dash client_ip) out.

Definition is_html_body (body : string) : bool :=
  starts_with "<!DOCTYPE" body || starts_with "<html" body || str_contains "</html>" body || str_contains "</div>" body
  || str_contains "</p>" body || str_contains "</h1>" body.

(** ** The rewriter of responses *)

(** What the pages need from outside: the reason phrases of the [http] crate, the translations,
    and the template of the built-in error page, whose rendering can fail. *)
Class PageOps (E : Type) : Type := {
  canonical_reason : Z -> option string;
  translations : Locale -> string -> option string;
  render_error_template : Z -> string -> PagePreferences -> option string -> bool -> result string E;
}.

(** The bodies of responses: a text, and the body of another response in the frames of gRPC-Web. *)
Class BodyForms (B : Type) : Type := {
  full_text : string -> B;
  grpc_web_body : GrpcWebBody -> B -> B;
}.

Section Rewriter.
Context `{HDR : HeaderOps} {HASH : DictionaryHash} {B : Type} {ENC : Encoders B} {FORMS : BodyForms B}.
Context {E : Type} {PAGES : PageOps E}.

Definition PagePreferences_from_headers (h : Headers) : PagePreferences :=
  let cookies := String.concat "; " (omap to_str (h_get_all h "cookie")) in
  mkPagePreferences (Locale_from_cookie_header cookies) (Theme_from_cookie_header cookies).

(** The sticky cookie is what the slot holds when the response is there. *)
Record ResponseRewriter : Type := mkResponseRewriter {
  https_port : option Z;
  quic_port : option Z;
  header_rules : option (CompiledHeaderRules * HeaderVariables);
  compression : option ResponseCompression;
  preferences : PagePreferences;
  sticky_cookie : option string;
  error_pages : list CustomErrorPage;
  hide_branding : bool;
  grpc_web : option (option string);
  variables : option HeaderVariables;
}.

Definition ResponseRewriter_default : ResponseRewriter :=
  mkResponseRewriter None None None None PagePreferences_default None [] false None None.

Definition alt_svc (r : ResponseRewriter) : option string :=
  let h2 p := String.append "h2=" (quoted (String ":" (dec p))) in
  let h3 p := String.append "h3=" (String.append (quoted (String ":" (dec p))) (String.append ", h3-25=" (quoted (String ":" (dec p))))) in
  match https_port r, quic_port r with
  | Some https, Some quic => Some (String.append (h2 https) (String.append ", " (h3 quic)))
  | Some https, None => Some (h2 https)
  | None, Some quic => Some (h3 quic)
  | None, None => None
  end.

Definition apply_post_headers (r : ResponseRewriter) (h : Headers) : Headers :=
  let h := match header_rules r with Some (rules, variables) => apply_response rules h variables | None => h end in
  match sticky_cookie r with Some cookie => h_append "set-cookie" cookie h | None => h end.

(** [entry(..).or_insert(..)]. *)
Definition insert_missing (n v : string) (h : Headers) : Headers := if h_contains h n then h else h_insert n v h.

Definition content_type_of (body : string) : string :=
  if is_html_body body then "text/html; charset=utf-8" else "text/plain; charset=utf-8".

Definition page_variables (variables : option HeaderVariables) : string * string * string :=
  match variables with
  | Some v => (hv_request_id v, hv_host v, ip_to_string (hv_client_ip v))
  | None => ("-", "-", "-")
  end.

Definition reason_or_error (status : Z) : string := default "Error" (canonical_reason status).

Definition custom_response_body (custom : CustomErrorPage) (res : Response B) (variables : option HeaderVariables) : Response B :=
  let '(req_id, host, client_ip) := page_variables variables in
  let body := substitute_error_page_variables (ep_body custom) (ep_status custom) (reason_or_error (ep_status custom)) req_id host client_ip in
  let h := h_insert "content-type" (content_type_of body) (res_headers res) in
  let h := h_insert "content-length" (dec (Z.of_nat (String.length body))) h in
  let h := h_remove "content-encoding" h in
  let h := insert_missing "x-frame-options" "DENY" h in
  let h := insert_missing "content-security-policy" "frame-ancestors 'none'" h in
  mkResponse (res_status res) h (full_text body).

Definition page_for (pages : list CustomErrorPage) (status : Z) : option CustomErrorPage := find (fun p => ep_status p =? status) pages.

Definition render_error_body (code : Z) (prefs : PagePreferences) (pages : list CustomErrorPage) (variables : option HeaderVariables)
    (req_id : string) (hide : bool) : result (string * string) E :=
  match page_for pages code with
  | Some custom =>
      let '(_, host, client_ip) := page_variables variables in
      let body := substitute_error_page_variables (ep_body custom) (ep_status custom) (reason_or_error code) req_id host client_ip in
      Ok (body, content_type_of body)
  | None =>
      let text := status_text (translate translations (locale prefs)) canonical_reason code in
      let? body := render_error_template code text prefs (Some req_id) hide in
      Ok (body, "text/html; charset=utf-8")
  end.

(** [fresh_id] is the random identifier of a response without variables. *)
Definition error_response (err : AnyError) (prefs : PagePreferences) (pages : list CustomErrorPage) (variables : option HeaderVariables)
    (hide : bool) (fresh_id : string) : result (Response B) E :=
  let code := map_error (e_downcast err) (e_chain err) in
  let req_id := match variables with
                | Some v => if str_is_empty (hv_request_id v) then fresh_id else hv_request_id v
                | None => fresh_id
                end in
  let? body := render_error_body code prefs pages variables req_id hide in
  let h := fold_left (fun h e => h_insert e.1 e.2 h) (error_headers (e_downcast err)) h_empty in
  let h := h_insert "content-type" body.2 h in
  let h := h_insert "cache-control" "no-store" h in
  let h := h_insert "x-frame-options" "DENY" h in
  let h := h_insert "content-security-policy" "frame-ancestors 'none'" h in
  let h := insert_text "x-request-id" req_id h in
  Ok (mkResponse code h (full_text body.1)).

(** An alternative service that is no header value ends the response: [bad_header]. *)
Definition map_response (r : ResponseRewriter) (res : result (Response B) AnyError) (bad_header : E) (fresh_id : string)
  : result (Response B) E :=
  match res with
  | Ok res =>
      match page_for (error_pages r) (res_status res) with
      | Some custom =>
          let res := custom_response_body custom res (variables r) in
          Ok (mkResponse (res_status res) (apply_post_headers r (res_headers res)) (res_body res))
      | None =>
          let h := h_remove "alt-svc" (res_headers res) in
          let? h := match alt_svc r with
                    | Some text => match value_from_str text with Some v => Ok (h_insert "alt-svc" v h) | None => Err bad_header end
                    | None => Ok h
                    end in
          let h := apply_post_headers r h in
          let res :=
            match grpc_web r with
            | Some origin => let '(h, b) := transform_response h origin in mkResponse (res_status res) h (grpc_web_body b (res_body res))
            | None => mkResponse (res_status res) h (res_body res)
            end in
          Ok (match compression r with Some c => compression_apply c res | None => res end)
      end
  | Err err =>
      let? res := error_response err (preferences r) (error_pages r) (variables r) (hide_branding r) fresh_id in
      Ok (mkResponse (res_status res) (apply_post_headers r (res_headers res)) (res_body res))
  end.

End Rewriter.

Arguments ResponseRewriter : clear implicits.

(** ** The values of an error page bring no markup *)

(** The characters that open or close markup, and quotes. *)
Definition markup (c : ascii) : bool := Ascii.eqb c "<" || Ascii.eqb c ">" || Ascii.eqb c DOUBLE_QUOTE || Ascii.eqb c "'".

Fixpoint markup_of (s : string) : string :=
  match s with
  | EmptyString => EmptyString
  | String c r => if markup c then String c (markup_of r) else markup_of r
  end.

Definition no_markup (s : string) : bool := str_forallb (fun c => negb (markup c)) s.

Lemma markup_of_append a b : markup_of (String.append a b) = String.append (markup_of a) (markup_of b).
Proof. induction a as [|c a IH]; [done|]. cbn. rewrite IH. by destruct (markup c). Qed.

Lemma markup_of_none s : no_markup s = true -> markup_of s = EmptyString.
Proof. unfold no_markup. induction s as [|c s IH]; [done|]. cbn. intros [Hc Hs]%andb_prop. apply negb_true_iff in Hc. by rewrite Hc, IH. Qed.

(** The text has [skip] characters at the start, none of them markup. *)
Fixpoint clean_start (skip : nat) (s : string) : Prop :=
  match skip, s with
  | O, _ => True
  | S k, String c r => markup c = false /\ clean_start k r
  | S _, EmptyString => True
  end.

Lemma starts_clean from s : no_markup from = true -> starts_with from s = true -> clean_start (String.length from) s.
Proof.
  unfold no_markup. revert s. induction from as [|c from IH]; intros s Hn Hs; [done|]. destruct s as [|d s]; [done|].
  cbn in *. apply andb_prop in Hn as [Hc Hn]. apply andb_prop in Hs as [Hd Hs]. apply Ascii.eqb_eq in Hd as ->.
  split; [by apply negb_true_iff|by apply IH].
Qed.

Lemma replace_keeps_markup from to s : from <> EmptyString -> no_markup from = true -> no_markup to = true ->
  markup_of (replace from to s) = markup_of s.
Proof.
  intros Hne Hf Ht. unfold replace. assert (H : forall skip, clean_start skip s -> markup_of (replace_from from to skip s) = markup_of s).
  { induction s as [|c s IH]; intros skip Hs; [done|]. destruct skip as [|k]; cbn [replace_from].
    - destruct (starts_with from (String c s)) eqn:E.
      + pose proof (starts_clean _ _ Hf E) as Hc. destruct from as [|d from]; [done|]. cbn in Hc. destruct Hc as [Hc Hr].
        replace (String.length (String d from) - 1)%nat with (String.length from) by (cbn; lia).
        rewrite markup_of_append, (markup_of_none to), IH by done. cbn [markup_of String.append]. by rewrite Hc.
      + cbn [markup_of]. rewrite IH by done. done.
    - destruct Hs as [Hc Hs]. cbn [markup_of]. rewrite Hc. by apply IH. }
  by apply H.
Qed.

Lemma escape_no_markup s : no_markup (escape_html s) = true.
Proof.
  unfold no_markup. induction s as [|c s IH]; [done|]. cbn [escape_html]. rewrite str_forallb_append, IH, andb_true_r.
  destruct c as [[] [] [] [] [] [] [] []]; by vm_compute.
Qed.

Lemma dash_no_markup s : no_markup (escaped_or_dash s) = true.
Proof. unfold escaped_or_dash. destruct (str_is_empty s); [done|apply escape_no_markup]. Qed.

Lemma dec_no_markup n : no_markup (dec n) = true.
Proof.
  unfold no_markup. eapply str_forallb_impl; [|apply dec_digits]. intros c. destruct c as [[] [] [] [] [] [] [] []]; by vm_compute.
Qed.

(** Whatever a client sends as its host or as the identifier of its request, an error page
    has exactly the markup of its template: the values bring no bracket and no quote. *)
Theorem error_page_values_escaped (body : string) (status : Z) (message request_id host client_ip : string) :
  markup_of (substitute_error_page_variables body status message request_id host client_ip) = markup_of body.
Proof.
  unfold substitute_error_page_variables. cbn zeta.
  by rewrite !replace_keeps_markup by (done || apply dash_no_markup || apply escape_no_markup || apply dec_no_markup).
Qed.

Example error_page_example :
  substitute_error_page_variables "<p>{{status}} {{host}} {{request_id}}</p>" 502 "Bad Gateway" "{{host}}" "<script>" "1.2.3.4"
  = "<p>502 &lt;script&gt; &lt;script&gt;</p>".
Proof. by vm_compute. Qed.

(** ** Error answers *)

Section AnswerFacts.
Context `{HDR : HeaderOps} {LAWS : HeaderLaws HDR} {HASH : DictionaryHash} {B : Type} {ENC : Encoders B} {FORMS : BodyForms B}.
Context {E : Type} {PAGES : PageOps E}.

(** An error answer has the status of its error, is not stored and not framed, and its type is
    the one of its body. *)
Lemma error_response_headers err prefs pages variables hide fresh_id res :
  error_response err prefs pages variables hide fresh_id = Ok res ->
  res_status res = map_error (e_downcast err) (e_chain err)
  /\ h_get_all (res_headers res) "cache-control" = ["no-store"]
  /\ h_get_all (res_headers res) "x-frame-options" = ["DENY"]
  /\ h_get_all (res_headers res) "content-security-policy" = ["frame-ancestors 'none'"].
Proof.
  unfold error_response. cbn zeta. destruct (render_error_body _ _ _ _ _ _) as [[body ct]|]; [|done]. cbn [and_then].
  intros H. injection H as <-. cbn [res_status res_headers]. split; [done|].
  assert (Hi : forall n t h m, m <> n -> h_get_all (insert_text n t h) m = h_get_all h m).
  { intros n t h m Hne. unfold insert_text. destruct (value_from_str t); [|done]. by rewrite get_all_insert, decide_False. }
  rewrite !Hi by done. rewrite !get_all_insert. by split_and!.
Qed.
End AnswerFacts.
