(* ===== verification/Answers.v ===== *)
(** * Answers of the proxy itself

    What a route sends without an upstream server: fixed responses
    ([r3v3rs3-api/src/fixed_response.rs], [proxy/http/fixed.rs]), the maintenance page, the
    dictionaries of a compression, the refusal of early data, and the answer to a purge
    ([proxy/http/mod.rs]); the limits of error pages and themes; and the detection of bots
    ([proxy/http/bot.rs]). *)

From Stdlib Require Import Ascii.
From stdpp Require Import strings.
From S2P Require Import Prelude Basics IpText Net Policy Quarantine Router Headers Cookies Containers EnvFiles HeaderRules.
From S2P Require Import Pool Rewriter Compression.

(** ** Fixed responses *)

Definition FIXED_STATUSES : list Z := [200; 400; 403; 404; 410; 429; 451; 500; 502; 503].
Definition MAX_FIXED_BODY_SIZE : Z := 4096.

Record FixedRedirect : Type := mkFixedRedirect { fx_target : string; fx_redirect_status : RedirectStatus; fx_preserve_path : bool }.
Record FixedStatus : Type := mkFixedStatus { fx_status : Z; fx_body : string }.

Inductive FixedResponse : Type := FRedirect (r : FixedRedirect) | FStatus (s : FixedStatus).

Definition FixedStatus_validate (s : FixedStatus) : result unit Error :=
  if negb (bool_decide (fx_status s ∈ FIXED_STATUSES)) then Err (InvalidFixedStatus (fx_status s))
  else if MAX_FIXED_BODY_SIZE <? str_len (fx_body s) then Err (FixedBodyTooLarge MAX_FIXED_BODY_SIZE)
  else Ok tt.

Definition FixedResponse_validate (f : FixedResponse) : result unit Error :=
  match f with FRedirect r => validate_target (fx_target r) | FStatus s => FixedStatus_validate s end.

(** The fields as they are read, with their type. *)
Inductive FixedKind : Type := KRedirect | KStatus.

Record RawFixedResponse : Type := mkRawFixedResponse {
  raw_kind : FixedKind;
  raw_target : option string;
  raw_status : option Z;
  raw_preserve_path : option bool;
  raw_body : option string;
}.

(** The message of an error is a text; [show] prints the error of a redirect status. *)
Definition into_redirect (show : Error -> string) (raw : RawFixedResponse) : result FixedRedirect string :=
  if is_some (raw_body raw) then Err "body is available only for a status response"
  else
    let? status := match raw_status raw with
                   | Some s => match RedirectStatus_try_from s with Ok s => Ok (Some s) | Err e => Err (show e) end
                   | None => Ok None
                   end in
    match raw_target raw with
    | None => Err "a redirect needs target"
    | Some target => Ok (mkFixedRedirect target (default MovedPermanently status) (default true (raw_preserve_path raw)))
    end.

Definition into_status (raw : RawFixedResponse) : result FixedStatus string :=
  if is_some (raw_target raw) || is_some (raw_preserve_path raw) then
    Err "target and preserve_path are available only for a redirect"
  else match raw_status raw with
       | None => Err "a status response needs status"
       | Some status => Ok (mkFixedStatus status (default EmptyString (raw_body raw)))
       end.

Definition FixedResponse_try_from (show : Error -> string) (raw : RawFixedResponse) : result FixedResponse string :=
  match raw_kind raw with
  | KRedirect => let? r := into_redirect show raw in Ok (FRedirect r)
  | KStatus => let? s := into_status raw in Ok (FStatus s)
  end.

(** [path.trim_start_matches] of slashes and backslashes. *)
Definition sanitize_preserve_path (path : string) : string :=
  trim_start_matches (fun c => Ascii.eqb c "/" || Ascii.eqb c "\") path.

Definition build_preserved_location (target raw_path : string) : string :=
  let suffix := sanitize_preserve_path raw_path in
  let target := trim_end_by (Ascii.eqb "/") target in
  if str_is_empty suffix then (if str_is_empty target then "/" else String.append target "/")
  else if str_is_empty target then String "/" suffix
  else String.append target (String "/" suffix).

(** ** Maintenance *)

Record MaintenanceConfig : Type := mkMaintenanceConfig {
  m_enabled : bool;
  m_status : Z;
  m_body : string;
  m_retry_after : option Z;
}.

Definition DEFAULT_MAINTENANCE_STATUS : Z := 503.

Definition MaintenanceConfig_default : MaintenanceConfig := mkMaintenanceConfig false DEFAULT_MAINTENANCE_STATUS EmptyString None.

Definition MaintenanceConfig_is_disabled (m : MaintenanceConfig) : bool :=
  negb (m_enabled m) && (m_status m =? DEFAULT_MAINTENANCE_STATUS) && str_is_empty (m_body m) && bool_decide (m_retry_after m = None).

Definition MaintenanceConfig_validate (m : MaintenanceConfig) : result unit Error :=
  if (m_status m <? 100) || (599 <? m_status m) then Err (InvalidFixedStatus (m_status m))
  else if 65536 <? str_len (m_body m) then Err (FixedBodyTooLarge 65536)
  else Ok tt.

Definition CustomErrorPage_validate (p : CustomErrorPage) : result unit Error :=
  if negb ((400 <=? ep_status p) && (ep_status p <=? 599)) then Err (InvalidErrorPageStatus (ep_status p))
  else if 65536 <? str_len (ep_body p) then Err (ErrorPageBodyTooLarge 65536)
  else Ok tt.

(** The page with backquotes in the place of its double quotes. *)
Definition MAINTENANCE_TEMPLATE : string :=
"<!DOCTYPE html>
<html lang=`en`>
<head>
  <meta charset=`utf-8`>
  <meta name=`viewport` content=`width=device-width, initial-scale=1`>
  <title>Under Maintenance</title>
  <style>
    body { font-family: -apple-system, BlinkMacSystemFont, `Segoe UI`, Roboto, sans-serif; background: #0f172a; color: #f8fafc; display: flex; align-items: center; justify-content: center; height: 100vh; margin: 0; padding: 1rem; box-sizing: border-box; }
    .card { background: #1e293b; border: 1px solid #334155; border-radius: 0.75rem; padding: 2.5rem; max-width: 32rem; text-align: center; box-shadow: 0 10px 25px rgba(0,0,0,0.5); }
    h1 { font-size: 1.5rem; margin-top: 0; margin-bottom: 0.75rem; color: #f1f5f9; }
    p { font-size: 0.95rem; line-height: 1.5; color: #94a3b8; margin: 0; }
  </style>
</head>
<body>
  <div class=`card`>
    <h1>Under Maintenance</h1>
    <p>This service is temporarily undergoing scheduled maintenance. Please check back shortly.</p>
  </div>
</body>
</html>
".

Definition DEFAULT_MAINTENANCE_BODY : string := Router.replace_char "`" DOUBLE_QUOTE MAINTENANCE_TEMPLATE.

Definition is_html_body (body body_str : string) : bool :=
  starts_with "<!DOCTYPE" body || starts_with "<html" body || str_contains "</html>" body_str.

(** [StatusCode::from_u16]. *)
Definition status_or (fallback status : Z) : Z := if (100 <=? status) && (status <=? 999) then status else fallback.

(** ** Bots *)

Definition BOT_SIGNATURES : list string :=
  ["gptbot"; "chatgpt-user"; "oai-searchbot"; "claudebot"; "claude-web"; "anthropic-ai"; "bytespider"; "ccbot"; "perplexitybot";
   "cohere-ai"; "diffbot"; "facebookbot"; "meta-externalagent"; "google-extended"; "mistralbot"; "amazonbot"; "omgilibot";
   "imagesiftbot"; "scrapy"; "timpibot"; "velenpublicwebcrawler"].

(** A window of the text that is the needle but for its case. *)
Definition contains_ignore_case (haystack needle : string) : bool := str_contains (to_ascii_lowercase needle) (to_ascii_lowercase haystack).

Definition is_bot_or_ai_scraper (user_agent : string) : bool := existsb (contains_ignore_case user_agent) BOT_SIGNATURES.

Section Answers.
Context `{HDR : HeaderOps}.

Definition is_bot_request (h : Headers) : bool :=
  match header_text h "user-agent" with Some ua => is_bot_or_ai_scraper ua | None => false end.

Definition empty_response (status : Z) (body : string) : Response string := mkResponse status h_empty body.

Definition redirect_response (r : FixedRedirect) (path_and_query : option string) : Response string :=
  let location := if fx_preserve_path r then build_preserved_location (fx_target r) (default "/" path_and_query) else fx_target r in
  match value_from_str location with
  | None => empty_response 500 EmptyString
  | Some value => mkResponse (status_or 500 (RedirectStatus_code (fx_redirect_status r))) (h_insert "location" value h_empty) EmptyString
  end.

Definition status_response (s : FixedStatus) : Response string :=
  let res := empty_response (status_or 500 (fx_status s)) (fx_body s) in
  if str_is_empty (fx_body s) then res
  else mkResponse (res_status res) (h_insert "content-type" "text/plain; charset=utf-8" (res_headers res)) (res_body res).

Definition fixed_respond (f : FixedResponse) (path_and_query : option string) : Response string :=
  match f with FRedirect r => redirect_response r path_and_query | FStatus s => status_response s end.

Definition maintenance_response (m : MaintenanceConfig) : Response string :=
  let status := status_or 503 (m_status m) in
  let body := if str_is_empty (m_body m) then DEFAULT_MAINTENANCE_BODY else m_body m in
  let content_type := if is_html_body body (m_body m) then "text/html; charset=utf-8" else "text/plain; charset=utf-8" in
  let h := h_insert "content-type" content_type h_empty in
  let h := match m_retry_after m with Some s => insert_text "retry-after" (dec s) h | None => h end in
  mkResponse status h body.

Definition too_early_response (body : string) : Response string := mkResponse 425 (h_append "retry-after" "0" h_empty) body.

Definition dictionary_response `{HEX : Hex} (dict : CompressionDictionary) (is_head : bool) : Response string :=
  let h := h_insert "content-type" "application/octet-stream" h_empty in
  let h := h_insert "cache-control" "public, max-age=31536000, immutable" h in
  let h := h_insert "content-length" (dec (str_len (raw_data dict))) h in
  let use_as_dict :=
    String.append "match=" (String.append (quoted (match_pattern dict))
      (String.append ", id=" (quoted (ShortId_to_string (dict_id dict))))) in
  let h := insert_text "use-as-dictionary" use_as_dict h in
  let h := insert_text "etag" (quoted (trim_colons (sha256_sf dict))) h in
  mkResponse 200 h (if is_head then EmptyString else raw_data dict).

Definition build_purge_response (status : Z) (msg : string) : Response string :=
  mkResponse status (h_insert "content-type" "text/plain; charset=utf-8" h_empty) msg.

End Answers.

(** ** Where a fixed redirect leads *)

Lemma trim_start_head p s : match trim_start_matches p s with String c _ => p c = false | EmptyString => True end.
Proof. pose proof (trim_start_matches_head p s). by destruct (trim_start_matches p s). Qed.

Lemma trim_end_prefix p s : exists r, s = String.append (trim_end_by p s) r /\ str_forallb p r = true.
Proof.
  induction s as [|c s IH]; [by exists EmptyString|]. cbn [trim_end_by]. destruct IH as (r & E & Hr).
  destruct (str_is_empty (trim_end_by p s)) eqn:Ee; cbn [andb].
  - destruct (trim_end_by p s) as [|? ?]; [|done]. cbn in E. subst r. destruct (p c) eqn:Ec.
    + exists (String c s). split; [done|]. cbn. by rewrite Ec.
    + exists s. by split.
  - exists r. split; [by rewrite E at 1|done].
Qed.

Lemma trim_end_single p s a : trim_end_by p s = String a EmptyString -> p a = false.
Proof.
  destruct s as [|c s]; cbn [trim_end_by]; [done|]. destruct (trim_end_by p s) as [|? ?]; cbn [str_is_empty andb].
  - destruct (p c) eqn:E; [done|]. by intros [= <-].
  - done.
Qed.

(** The text names another host: a browser reads it as the start of an authority. *)
Definition leaves_host (location : string) : bool := starts_with "//" location || starts_with "/\" location.

(** A redirect that keeps the path of the request leads where its target says: whatever path
    a client sends, the location does not turn into the address of another host. *)
Theorem fixed_redirect_keeps_host (target path : string) :
  validate_target target = Ok tt -> leaves_host (build_preserved_location target path) = false.
Proof.
  unfold validate_target. destruct (str_is_empty target) eqn:Ee; [done|]. cbn [orb].
  destruct (starts_with "//" target) eqn:E1; [done|]. destruct (starts_with "/\" target) eqn:E2; [done|]. intros _.
  unfold build_preserved_location, sanitize_preserve_path. cbn zeta.
  set (suffix := trim_start_matches _ path).
  assert (Hs : match suffix with String c _ => Ascii.eqb c "/" || Ascii.eqb c "\" = false | EmptyString => True end) by apply trim_start_head.
  destruct (trim_end_prefix (Ascii.eqb "/") target) as (r & Et & Hr).
  destruct (trim_end_by (Ascii.eqb "/") target) as [|a t] eqn:Ht.
  - cbn [str_is_empty]. destruct suffix as [|c s]; [done|]. cbn [str_is_empty]. clear -Hs.
    destruct c as [[] [] [] [] [] [] [] []]; first [done | by destruct s].
  - assert (Hgen : forall x, leaves_host (String.append (String a t) (String "/" x)) = false).
    { intros x. unfold leaves_host in *. destruct t as [|b t'] eqn:Eb.
      - assert (Ha : Ascii.eqb "/" a = false) by (eapply trim_end_single; exact Ht). cbn [String.append starts_with]. by rewrite Ha.
      - rewrite Et in E1, E2. cbn [String.append starts_with] in E1, E2 |- *. by rewrite E1, E2. }
    cbn [str_is_empty]. destruct (str_is_empty suffix); [|apply Hgen].
    change (String.append (String a t) "/") with (String.append (String a t) (String "/" EmptyString)). apply Hgen.
Qed.

Lemma fixed_redirect_keeps_host_witness :
  validate_target "/" = Ok tt /\ build_preserved_location "/" "//evil.test/\x" = "/evil.test/\x"
  /\ leaves_host (build_preserved_location "/" "//evil.test/\x") = false.
Proof.
  assert (H : validate_target "/" = Ok tt) by by vm_compute.
  split; [exact H|]. split; [by vm_compute|]. exact (fixed_redirect_keeps_host "/" "//evil.test/\x" H).
Defined.

Example bot_example :
  is_bot_or_ai_scraper "Mozilla/5.0 (compatible; GPTBot/1.2)" = true /\ is_bot_or_ai_scraper "curl/8.7.1" = false.
Proof. by vm_compute. Qed.
