(* ===== verification/Handler.v ===== *)
(** * The pipeline of a request

    [proxy/http/mod.rs]: from a parsed request to the request that goes to the upstream servers, or
    to the answer of the proxy itself.  The guards and the rewriting of headers are the definitions
    of the other files; what keeps state behind a handle or waits for others is an interface. *)

From Stdlib Require Import Ascii.
From stdpp Require Import strings.
From S2P Require Import Prelude Basics IpText Cache CacheStore Oidc ProxyAuth ProxySession Net Policy Quarantine Headers Cookies ClientIp.
From S2P Require Import ProxyErrors Pool PoolProps EnvFiles HeaderRules Rewriter EarlyData Priorities Compression GrpcWeb Responses Answers.
From S2P Require Import BodyStreams Router.

(** ** Interfaces *)

(** What the code uses of [http::Uri] and its parts. *)
Class UriParts (URL : UrlOps) : Type := {
  uri_path : Uri -> string;
  uri_path_and_query : Uri -> option string;
  uri_host : Uri -> option string;
  uri_scheme : Uri -> option string;
  uri_to_string : Uri -> string;
  parse_path_and_query : string -> option string;
  parse_authority : string -> option string;
  authority_host : string -> string;
  uri_from_parts : option string -> option string -> option string -> option Uri;
}.

(** A failed authentication. *)
Inductive AuthRejection `{HDR : HeaderOps} : Type :=
| RejError (e : ProxyError)
| RejResponse (r : Response string).

(** What a route holds a handle of: the rate limiter ([RateShare.v]), the concurrency limiter
    ([Concurrency.v]), the authenticator ([ProxyAuth.v]), the cache ([CacheStore.v]) and the upstream
    servers ([Pool.v]).  A call may change the state of all of them, since other requests run while
    it waits. *)
Class RouteServices `{HDR : HeaderOps} `{URL : UrlOps} (B : Type) : Type := {
  SvcState : Type;
  RateLimiter : Type;
  ConcurrencyHandle : Type;
  ConcurrencyPermit : Type;
  AuthHandle : Type;
  CacheHandle : Type;
  UpstreamHandle : Type;
  limiter_check : RateLimiter -> IpAddr -> SvcState -> result unit Duration * SvcState;
  concurrency_acquire : ConcurrencyHandle -> Headers -> IpAddr -> SvcState -> result ConcurrencyPermit ProxyError * SvcState;
  concurrency_release : ConcurrencyPermit -> SvcState -> SvcState;
  auth_serve : AuthHandle -> Request B -> AuthContext -> SvcState -> (Request B + Response string) * SvcState;
  auth_authorize : AuthHandle -> Request B -> AuthContext -> SvcState -> result (Request B) AuthRejection * SvcState;
  purge_path : CacheHandle -> string -> SvcState -> Z * SvcState;
  upstream_max_body_size : UpstreamHandle -> Z;
  upstream_has_servers : UpstreamHandle -> bool;
  upstream_select : UpstreamHandle -> Request B -> list string -> IpAddr -> bool -> SvcState
                    -> result (Request B * bool) ProxyError * SvcState;
  mark_h2c : Request B -> Request B;
}.

(** ** Hosts *)

(** [host.split(':').next()], and the brackets of an IPv6 address. *)
Definition split_host_port (host : string) : option string :=
  if str_is_empty host then None
  else if starts_with "[" host then
    match split_once "]" host with Some (inside, _) => Some (String.append inside "]") | None => None end
  else Some (hd EmptyString (split_on ":" host)).

Definition host_without_port (host_str : string) : string := trim_brackets (hd host_str (split_on ":" host_str)).

Definition is_local_or_ip (host : string) : bool :=
  String.eqb host "localhost" || String.eqb host "127.0.0.1" || String.eqb host "::1" || is_some (parse_ip host).

Section Hosts.
Context `{RX : RegexOps}.

Definition is_valid_vhost_target (host_str : string) (vhosts : list VirtualHost) : bool :=
  let host_clean := host_without_port host_str in
  if str_is_empty host_clean then false
  else match vhosts with
       | [] => is_local_or_ip host_clean
       | _ => existsb (fun v => VirtualHost_test v host_clean) vhosts
       end.

Definition is_valid_secure_redirect_host {R : Type} (host_clean : string) (routes : list (FilteredRoute R)) (local : IpAddr) : bool :=
  if str_is_empty host_clean then false
  else if is_local_or_ip host_clean || String.eqb host_clean (ip_to_string local) then true
  else has_matching_vhost routes host_clean.
End Hosts.

Record ClientCertInfo : Type := mkClientCertInfo { cert_subject : string; cert_fingerprint : string }.

Record RequestInfo : Type := mkRequestInfo {
  ri_remote : IpAddr;
  ri_peer : IpAddr;
  ri_local : string;
  ri_sni : option string;
  ri_proto : string;
  ri_client_cert : option ClientCertInfo;
  ri_early_data : bool;
}.

Definition method_text (m : HttpMethod) : string :=
  match m with
  | GET => "GET" | HEAD => "HEAD" | OPTIONS => "OPTIONS" | TRACE => "TRACE" | PUT => "PUT" | DELETE => "DELETE"
  | OtherMethod name => name
  end.

(** The method as the cache reads it. *)
Definition cache_method (m : HttpMethod) : Cache.Method :=
  match m with GET => Cache.GET | HEAD => Cache.HEAD | OPTIONS => Cache.OPTIONS | TRACE => Cache.TRACE | _ => Cache.OtherMethod end.

Definition scheme_of (proto : string) : string := if String.eqb proto "http" then "http" else "https".

(** ** The settings of a route *)

Record RouteSettings `{HDR : HeaderOps} `{URL : UrlOps} `{RX : RegexOps} `{NETS : IpNets} {B : Type} `{SVC : !RouteServices B} : Type := mkRouteSettings {
  rs_resource_id : ShortId;
  rs_base_path : string;
  rs_route_path : string;
  rs_https_port : option Z;
  rs_quic_port : option Z;
  rs_upgrade_insecure : bool;
  rs_redirects : list RedirectRule;
  rs_client_ip : ClientIpResolver;
  rs_ip_filter : IpFilter;
  rs_rate_limiter : option RateLimiter;
  rs_concurrency_limiter : option ConcurrencyHandle;
  rs_auth : option AuthHandle;
  rs_header_rules : CompiledHeaderRules;
  rs_compression : option Compression;
  rs_cache : option CacheHandle;
  rs_h2c : bool;
  rs_upstream : option UpstreamHandle;
  rs_response : option FixedResponse;
  rs_maintenance : MaintenanceConfig;
  rs_require_client_cert : bool;
  rs_bot_blocker : bool;
  rs_grpc_web : bool;
  rs_stream_priority : StreamPriorityConfig;
}.
#[global] Arguments mkRouteSettings {HDR URL RX NETS B SVC} : rename.

Section Pipeline.
Context `{HDR : HeaderOps} `{HB : HeaderBytes} `{URL : UrlOps} {PARTS : UriParts URL} `{RX : RegexOps} `{NETS : IpNets}.
Context `{ORIGIN : OriginOps} `{HASH : DictionaryHash} `{HEX : Hex}.
Context {B : Type} `{SVC : !RouteServices B}.

#[local] Abbreviation Route := (FilteredRoute RouteSettings).

(** What the readers of [ClientIp] see of the headers. *)
#[export] Instance header_maps : HeaderMaps := {|
  HeaderMap := Headers;
  header_first h n := h_get h n ≫= to_str;
  header_all h n := omap to_str (h_get_all h n);
|}.

Definition with_headers (h : Headers) (req : Request B) : Request B :=
  mkRequest (rq_method req) (rq_uri req) (rq_version req) h (rq_target req) (rq_h2c req) (rq_body req).

Definition with_uri (u : Uri) (req : Request B) : Request B :=
  mkRequest (rq_method req) u (rq_version req) (rq_headers req) (rq_target req) (rq_h2c req) (rq_body req).

Definition header_host (req : Request B) : option string := header_text (rq_headers req) "host" ≫= split_host_port.

Definition is_domain_fronting (req : Request B) (sni : option string) : bool :=
  match sni, header_host req with
  | Some sni, Some header => negb (eq_ignore_ascii_case sni header)
  | _, _ => false
  end.

Definition request_host (req : Request B) (host : option string) (sni : option string) : option string :=
  match host with
  | Some h => Some h
  | None => match uri_host (rq_uri req) with Some h => Some h | None => sni end
  end.

Definition normalize_request_path (req : Request B) : Request B :=
  let path := uri_path (rq_uri req) in
  let normalized := normalize_path path in
  if String.eqb normalized path then req
  else
    let text := match uri_query (rq_uri req) with
                | Some query => String.append normalized (String "?" query)
                | None => normalized
                end in
    match parse_path_and_query text with
    | None => req
    | Some pq =>
        match uri_from_parts (uri_scheme (rq_uri req)) (uri_authority (rq_uri req)) (Some pq) with
        | Some uri => with_uri uri req
        | None => req
        end
    end.

(** The refusal, the request and the buffer. *)
Definition validate_early_data (req : Request B) (info : RequestInfo) (buffer : AntiReplayBuffer) (now : Z)
  : option (Response string) * Request B * AntiReplayBuffer :=
  if negb (ri_early_data info) then (None, with_headers (h_remove EARLY_DATA_HEADER (rq_headers req)) req, buffer)
  else
    let path_and_query := default EmptyString (uri_path_and_query (rq_uri req)) in
    let method := method_text (rq_method req) in
    let '(fresh, buffer) := check_and_record buffer (ri_remote info) method path_and_query now in
    if negb fresh then (Some (too_early_response (String.append "425 Too Early (Replay Detected)" (String LF EmptyString))), req, buffer)
    else if negb (is_safe_http_method method) then
      (Some (too_early_response (String.append "425 Too Early (Unsafe Method in Early Data)" (String LF EmptyString))), req, buffer)
    else
      let h := match name_from_bytes EARLY_DATA_HEADER, value_from_str EARLY_DATA_VALUE with
               | Some n, Some v => h_insert n v (rq_headers req)
               | _, _ => rq_headers req
               end in
      (None, with_headers h req, buffer).

(** ** Redirects *)

(** The redirect of a plain HTTP request on a port that has TLS. *)
Definition get_secure_uri (req : Request B) (routes : list Route) (local : IpAddr) : option Uri :=
  let host_str := match header_text (rq_headers req) "host" with
                  | Some h => h
                  | None => default EmptyString (uri_authority (rq_uri req))
                  end in
  if negb (is_valid_secure_redirect_host (host_without_port host_str) routes local) then None
  else
    authority ← parse_authority host_str;
    uri_from_parts (Some "https") (Some authority) (uri_path_and_query (rq_uri req)).

Definition redirect (req : Request B) (routes : list Route) (local : IpAddr) : Response string :=
  match get_secure_uri req routes local with
  | Some uri => mkResponse 308 (insert_text "location" (uri_to_string uri) h_empty) EmptyString
  | None => mkResponse 400 h_empty (String.append "TLS required" CRLF)
  end.

Definition upgrade_redirect (route : Route) (req : Request B) (host : option string) (proto : string) : option (Response string) :=
  let s := fr_settings route in
  if negb (String.eqb proto "http") || negb (rs_upgrade_insecure s) then None
  else
    host_str ← host;
    if negb (is_valid_vhost_target host_str (vhosts (fr_filter route))) then None
    else
      port ← rs_https_port s;
      uri ← uri_from_str host_str;
      let authority :=
        match uri_authority uri with
        | Some a => parse_authority (String.append (authority_host a) (String ":" (dec port)))
        | None => None
        end in
      uri ← uri_from_parts (Some "https") authority (uri_path_and_query (rq_uri req));
      value ← value_from_str (uri_to_string uri);
      Some (mkResponse 301 (h_insert "location" value h_empty) EmptyString).

(** The response of [redirect_rule]. *)
Definition rule_redirect (route : Route) (req : Request B) (host : option string) : option (Response string) :=
  '(status, location) ← redirect_rule (fun l => is_some (value_from_str l)) (rs_redirects (fr_settings route)) host
                          (uri_path_and_query (rq_uri req));
  value ← value_from_str location;
  Some (mkResponse status (h_insert "location" value h_empty) EmptyString).

Definition redirect_of (route : Route) (req : Request B) (host : option string) (request_host : option string) (proto : string)
  : option (Response string) :=
  match upgrade_redirect route req host proto with
  | Some r => Some r
  | None => rule_redirect route req request_host
  end.

(** ** Guards *)

Inductive EarlyExit : Type := ExitRespond (r : Response string) | ExitErr (e : ProxyError).

Definition check_dictionary_request (route : Route) (req : Request B) : option (Response string) :=
  compression ← rs_compression (fr_settings route);
  if negb (bool_decide (rq_method req = GET)) && negb (bool_decide (rq_method req = HEAD)) then None
  else
    dict ← find (fun d => String.eqb (dict_path d) (uri_path (rq_uri req))) (dictionaries compression);
    Some (dictionary_response dict (bool_decide (rq_method req = HEAD))).

(** [lookup_country] is the GeoIP database of the port. *)
Definition check_policies (lookup_country : IpAddr -> option string) (route : Route) (client : IpAddr) (cert : option ClientCertInfo)
    (st : SvcState) : result UpstreamHandle ProxyError * SvcState :=
  let s := fr_settings route in
  let f := rs_ip_filter s in
  let country := if negb (vec_is_empty (allow_countries f)) || negb (vec_is_empty (deny_countries f)) then lookup_country client else None in
  if negb (allows_with_country f client country) then (Err IpNotAllowed, st)
  else if rs_require_client_cert s && negb (is_some cert) then (Err ClientCertRequired, st)
  else
    let '(limited, st) :=
      match rs_rate_limiter s with
      | Some limiter => limiter_check limiter client st
      | None => (Ok tt, st)
      end in
    match limited with
    | Err retry_after => (Err (TooManyRequests retry_after), st)
    | Ok _ => (match rs_upstream s with Some u => Ok u | None => Err UpstreamClientCertInvalid end, st)
    end.

Definition check_route_access (lookup_country : IpAddr -> option string) (route : Route) (req : Request B) (client : ClientAddr)
    (info : RequestInfo) (host request_host : option string) (st : SvcState) : result UpstreamHandle EarlyExit * SvcState :=
  let s := fr_settings route in
  if m_enabled (rs_maintenance s) then (Err (ExitRespond (maintenance_response (rs_maintenance s))), st)
  else match check_dictionary_request route req with
  | Some response => (Err (ExitRespond response), st)
  | None =>
  if rs_bot_blocker s && is_bot_request (rq_headers req) then (Err (ExitErr BotBlocked), st)
  else
    let '(upstream, st) := check_policies lookup_country route (ip client) (ri_client_cert info) st in
    match upstream with
    | Err e => (Err (ExitErr e), st)
    | Ok upstream =>
        match redirect_of route req host request_host (ri_proto info) with
        | Some r => (Err (ExitRespond r), st)
        | None =>
            if declared_too_large (rq_headers req) (upstream_max_body_size upstream) then (Err (ExitErr PayloadTooLarge), st)
            else (Ok upstream, st)
        end
    end
  end.

Definition is_request_authorized (req : Request B) (route : Route) : bool :=
  h_contains (rq_headers req) "authorization" || h_contains (rq_headers req) "cookie" || is_some (rs_auth (fr_settings route)).

Definition acquire_concurrency (route : Route) (h : Headers) (client_ip : IpAddr) (st : SvcState)
  : result (option ConcurrencyPermit) ProxyError * SvcState :=
  match rs_concurrency_limiter (fr_settings route) with
  | Some limiter =>
      let '(r, st) := concurrency_acquire limiter h client_ip st in
      (match r with Ok g => Ok (Some g) | Err e => Err e end, st)
  | None => (Ok None, st)
  end.

(** ** Authentication *)

Inductive Authenticated : Type :=
| Pass (req : Request B)
| AuthRespond (r : Response string)
| Rejected (r : AuthRejection).

Definition authenticate (route : Route) (req : Request B) (ctx : AuthContext) (st : SvcState) : Authenticated * SvcState :=
  match rs_auth (fr_settings route) with
  | None => (Pass req, st)
  | Some auth =>
      let '(served, st) := auth_serve auth req ctx st in
      match served with
      | inr response => (AuthRespond response, st)
      | inl req =>
          let '(r, st) := auth_authorize auth req ctx st in
          (match r with Ok req => Pass req | Err rejection => Rejected rejection end, st)
      end
  end.

Definition is_purge_authorized (has_auth : bool) (client : ClientAddr) : bool :=
  is_loopback (peer client) || is_loopback (ip client) || trusted_peer client || has_auth.

Definition newline (s : string) : string := String.append s (String LF EmptyString).

Definition handle_purge_request (route : Route) (req : Request B) (client : ClientAddr) (st : SvcState) : (Z * string) * SvcState :=
  let s := fr_settings route in
  if negb (is_purge_authorized (is_some (rs_auth s)) client) then
    ((403, newline "Forbidden: cache purge requires authentication or trusted client IP"), st)
  else match rs_cache s with
       | Some cache =>
           let '(count, st) := purge_path cache (default "/" (uri_path_and_query (rq_uri req))) st in
           ((200, newline (String.append "Purged " (String.append (dec count) (String.append " entries matching " (uri_to_string (rq_uri req)))))), st)
       | None => ((400, newline "Cache is not enabled for this proxy"), st)
       end.

Definition handle_purge_or_fixed (route : Route) (req : Request B) (client : ClientAddr) (st : SvcState) : option (Response string) * SvcState :=
  let s := fr_settings route in
  if is_some (rs_cache s) && String.eqb (method_text (rq_method req)) "PURGE" then
    let '((status, msg), st) := handle_purge_request route req client st in
    (Some (build_purge_response status msg), st)
  else (option_map (fun f => fixed_respond f (uri_path_and_query (rq_uri req))) (rs_response s), st).

Definition check_post_auth_early_response (route : Route) (req : Request B) (request_host : option string) (client : ClientAddr)
    (st : SvcState) : option (Response string) * SvcState :=
  if rs_grpc_web (fr_settings route) && is_grpc_web_preflight (bool_decide (rq_method req = OPTIONS)) (rq_headers req) then
    (Some (cors_preflight_response (rq_headers req) (vhosts (fr_filter route)) request_host), st)
  else handle_purge_or_fixed route req client st.

(** ** The request for the upstream servers *)

(** [uc_sticky]: the response may set the sticky cookie. *)
Record UpstreamCall : Type := mkUpstreamCall {
  uc_req : Request B;
  uc_upstream : UpstreamHandle;
  uc_cache_request : option CacheRequest;
  uc_guard : option ConcurrencyPermit;
  uc_stream_permit : option bool;
  uc_sticky : bool;
}.

Inductive ProxiedRequest : Type :=
| PrOk (call : UpstreamCall)
| PrRespond (r : Response string)
| PrErr (e : ProxyError).

Definition rejected (r : AuthRejection) : ProxiedRequest :=
  match r with RejError e => PrErr e | RejResponse res => PrRespond res end.

(** The permit, the request and the controller. *)
Definition apply_stream_priority (route : Route) (req : Request B) (c : AdaptiveStreamController)
  : result (option bool * Request B) ProxyError * AdaptiveStreamController :=
  let config := rs_stream_priority (fr_settings route) in
  if negb (sp_enabled config) then (Ok (None, req), c)
  else
    let priority :=
      resolve_stream_priority (header_text (rq_headers req) "priority") (default "/" (uri_path_and_query (rq_uri req)))
        (header_text (rq_headers req) "content-type") config in
    let c := record_request priority c in
    let '(throttle, c) :=
      if sp_adaptive_concurrency config && is_background priority then should_throttle_background DEFAULT_MAX_BACKGROUND_CONCURRENCY c
      else (false, c) in
    if (throttle : bool) then (Err TooManyConcurrentRequests, c)
    else
      let req :=
        if sp_inject_header config then
          match name_from_bytes "priority", value_from_str (to_header_value priority) with
          | Some n, Some v => with_headers (h_insert n v (rq_headers req)) req
          | _, _ => req
          end
        else req in
      let '(permit, c) := acquire_permit priority c in
      (Ok (Some permit, req), c).

(** The random numbers of a request: an identifier without variables, a trace and a span. *)
Record Draws : Type := mkDraws { draw_id : Z; draw_trace : Z; draw_span : Z }.

Definition route_variables (route : Route) (client : IpAddr) (host : option string) (info : RequestInfo) (request_id : string) : HeaderVariables :=
  let cert := default (mkClientCertInfo EmptyString EmptyString) (ri_client_cert info) in
  mkHeaderVariables client (default EmptyString host) (scheme_of (ri_proto info)) request_id
    (if str_is_empty (rs_base_path (fr_settings route)) then "/" else rs_base_path (fr_settings route))
    (cert_subject cert) (cert_fingerprint cert).

Definition set_variables (rules : option (CompiledHeaderRules * HeaderVariables)) (v : HeaderVariables) (rw : ResponseRewriter) : ResponseRewriter :=
  mkResponseRewriter (https_port rw) (quic_port rw) rules (compression rw) (preferences rw) (sticky_cookie rw) (error_pages rw)
    (hide_branding rw) (grpc_web rw) (Some v).

(** The headers and the rewriter of the response. *)
Definition apply_header_rules (route : Route) (h : Headers) (client : IpAddr) (host : option string) (info : RequestInfo) (d : Draws)
    (rw : ResponseRewriter) : Headers * ResponseRewriter :=
  let '(h, request_id) := extract_and_propagate_trace_context h (draw_trace d) (draw_span d) in
  let variables := route_variables route client host info request_id in
  let rules := rs_header_rules (fr_settings route) in
  if CompiledHeaderRules_is_empty rules then (h, set_variables (header_rules rw) variables rw)
  else (apply_request rules h variables, set_variables (Some (rules, variables)) variables rw).

Definition set_grpc_web (origin : option string) (rw : ResponseRewriter) : ResponseRewriter :=
  mkResponseRewriter (https_port rw) (quic_port rw) (header_rules rw) (compression rw) (preferences rw) (sticky_cookie rw) (error_pages rw)
    (hide_branding rw) (Some origin) (variables rw).

(** The steps on the headers between the choice of the server and the header rules. *)
Definition forward_headers (via : RequestRewriter) (h : Headers) (method : HttpMethod) (client : ClientAddr) (host : option string) (proto : string)
  : Headers :=
  let h := remove_auth_cookies h in
  let h := remove_hop_by_hop_headers h method in
  post_process via (pre_process h client host proto).

Record HandlerState : Type := mkHandlerState {
  hs_replay : AntiReplayBuffer;
  hs_streams : AdaptiveStreamController;
  hs_services : SvcState;
}.

Record SharedContext : Type := mkSharedContext {
  sh_routes : list Route;
  sh_rewriter : RequestRewriter;
  sh_country : IpAddr -> option string;
  sh_cdn : CdnTable;
}.

(** The drop of the permit of a request that goes no further. *)
Definition drop_guard (guard : option ConcurrencyPermit) (st : HandlerState) : HandlerState :=
  match guard with
  | Some g => mkHandlerState (hs_replay st) (hs_streams st) (concurrency_release g (hs_services st))
  | None => st
  end.

Definition drop_stream (permit : option bool) (st : HandlerState) : HandlerState :=
  match permit with
  | Some p => mkHandlerState (hs_replay st) (permit_drop p (hs_streams st)) (hs_services st)
  | None => st
  end.

Definition prepare_upstream_request (shared : SharedContext) (route : Route) (segments : list string) (req : Request B) (upstream : UpstreamHandle)
    (info : RequestInfo) (client : ClientAddr) (host : option string) (cache_key : string) (authorized : bool)
    (guard : option ConcurrencyPermit) (d : Draws) (rw : ResponseRewriter) (st : HandlerState)
  : ProxiedRequest * ResponseRewriter * HandlerState :=
  let s := fr_settings route in
  let '(selected, svc) := upstream_select upstream req segments (ip client) (negb (String.eqb (ri_proto info) "http")) (hs_services st) in
  let st := mkHandlerState (hs_replay st) (hs_streams st) svc in
  match selected with
  | Err e => (PrErr e, rw, drop_guard guard st)
  | Ok (req, sticky) =>
      let req := if rs_h2c s || rs_grpc_web s then mark_h2c req else req in
      let '(req, rw) :=
        if rs_grpc_web s && is_grpc_web_request (rq_headers req) then
          let origin :=
            match header_text (rq_headers req) "origin" with
            | Some o => if is_allowed_origin o (vhosts (fr_filter route)) host then Some o else None
            | None => None
            end in
          (with_headers (prepare_grpc_request (rq_headers req)) req, set_grpc_web origin rw)
        else (req, rw) in
      let '(prioritized, streams) := apply_stream_priority route req (hs_streams st) in
      let st := mkHandlerState (hs_replay st) streams (hs_services st) in
      match prioritized with
      | Err e => (PrErr e, rw, drop_guard guard st)
      | Ok (permit, req) =>
          let h := forward_headers (sh_rewriter shared) (rq_headers req) (rq_method req) client host (ri_proto info) in
          let '(h, rw) := apply_header_rules route h (ip client) host info d rw in
          let '(cache_request, h) :=
            match rs_cache s with
            | Some _ => CacheRequest_new (cache_method (rq_method req)) h cache_key authorized
            | None => (None, h)
            end in
          (PrOk (mkUpstreamCall (with_headers h req) upstream cache_request guard permit sticky), rw, st)
      end
  end.

(** ** Routing *)

Definition configure_response_rewriter (prefs : PagePreferences) (route : Route) (req : Request B) : ResponseRewriter :=
  let s := fr_settings route in
  mkResponseRewriter (rs_https_port s) (rs_quic_port s) None
    (option_map (fun c => ResponseCompression_new c (bool_decide (rq_method req = HEAD)) (uri_path (rq_uri req)) (rq_headers req)) (rs_compression s))
    prefs None (fr_error_pages route) (fr_hide_branding route) None None.

Definition no_route_fallback (shared : SharedContext) (info : RequestInfo) (host : option string) (prefs : PagePreferences) (h : Headers) (d : Draws)
  : ResponseRewriter :=
  let cert := default (mkClientCertInfo EmptyString EmptyString) (ri_client_cert info) in
  let v := mkHeaderVariables (ri_remote info) (default EmptyString host) (scheme_of (ri_proto info)) (resolve_request_id h (draw_id d))
             EmptyString (cert_subject cert) (cert_fingerprint cert) in
  mkResponseRewriter None None None None prefs None (find_error_pages (sh_routes shared) host)
    (is_branding_hidden (sh_routes shared) host) None (Some v).

Definition cache_key_of (info : RequestInfo) (host : option string) (req : Request B) : string :=
  String.append (ri_proto info) (String " " (String.append (default EmptyString host)
    (String " " (default "/" (uri_path_and_query (rq_uri req)))))).

(** The answer, the rewriter of the response, the route and the address of the client. *)
Record Routed : Type := mkRouted {
  ro_request : ProxiedRequest;
  ro_rewriter : ResponseRewriter;
  ro_route : option (ShortId * string);
  ro_client : IpAddr;
}.

(** From the authentication to the upstream request. *)
Definition route_admitted (shared : SharedContext) (route : Route) (segments : list string) (req : Request B) (upstream : UpstreamHandle)
    (info : RequestInfo) (client : ClientAddr) (host : option string) (d : Draws) (rw : ResponseRewriter) (st : HandlerState)
  : ProxiedRequest * ResponseRewriter * HandlerState :=
  let s := fr_settings route in
  let authorized := is_request_authorized req route in
  let cache_key := cache_key_of info host req in
  let ctx := mkAuthContext (ip client) (peer client) host (ri_proto info) (rs_base_path s) segments in
  let '(auth, svc) := authenticate route req ctx (hs_services st) in
  let st := mkHandlerState (hs_replay st) (hs_streams st) svc in
  match auth with
  | AuthRespond r => (PrRespond r, rw, st)
  | Rejected r => (rejected r, rw, st)
  | Pass req =>
      let '(early, svc) := check_post_auth_early_response route req host client (hs_services st) in
      let st := mkHandlerState (hs_replay st) (hs_streams st) svc in
      match early with
      | Some r => (PrRespond r, rw, st)
      | None =>
          if negb (upstream_has_servers upstream) then (PrErr NoUpstreamServers, rw, st)
          else
            let '(guard, svc) := acquire_concurrency route (rq_headers req) (ip client) (hs_services st) in
            let st := mkHandlerState (hs_replay st) (hs_streams st) svc in
            match guard with
            | Err e => (PrErr e, rw, st)
            | Ok guard => prepare_upstream_request shared route segments req upstream info client host cache_key authorized guard d rw st
            end
      end
  end.

Definition route_request (shared : SharedContext) (req : Request B) (info : RequestInfo) (now : Z) (d : Draws) (st : HandlerState)
  : Routed * HandlerState :=
  let req := normalize_request_path req in
  let '(early, req, replay) := validate_early_data req info (hs_replay st) now in
  let st := mkHandlerState replay (hs_streams st) (hs_services st) in
  match early with
  | Some r => (mkRouted (PrRespond r) ResponseRewriter_default None (ri_remote info), st)
  | None =>
      let prefs := PagePreferences_from_headers (rq_headers req) in
      let hhost := header_host req in
      let host := request_host req hhost (ri_sni info) in
      match get_route (sh_routes shared) (uri_path (rq_uri req)) host with
      | None => (mkRouted (PrErr NoRouteFound) (no_route_fallback shared info host prefs (rq_headers req) d) None (ri_remote info), st)
      | Some (segments, route) =>
          let s := fr_settings route in
          let rw := configure_response_rewriter prefs route req in
          let client := resolve (rs_client_ip s) (ri_remote info) (rq_headers req) (sh_cdn shared) in
          let named := Some (rs_resource_id s, rs_route_path s) in
          let '(access, svc) := check_route_access (sh_country shared) route req client info hhost host (hs_services st) in
          let st := mkHandlerState (hs_replay st) (hs_streams st) svc in
          match access with
          | Err (ExitErr e) => (mkRouted (PrErr e) rw named (ip client), st)
          | Err (ExitRespond r) => (mkRouted (PrRespond r) rw named (ip client), st)
          | Ok upstream =>
              let '(answer, rw, st) := route_admitted shared route segments req upstream info client host d rw st in
              (mkRouted answer rw named (ip client), st)
          end
      end
  end.

(** ** One request from its connection *)

Inductive UpstreamErrorClass : Type := ClassTimeout | ClassCircuitOpen | ClassNoRoute | ClassOther.

Definition classify_proxy_error (e : ProxyError) : UpstreamErrorClass :=
  match e with
  | UpstreamTimeout => ClassTimeout
  | NoUpstreamAvailable => ClassCircuitOpen
  | NoRouteFound | NoUpstreamServers => ClassNoRoute
  | _ => ClassOther
  end.

(** A domain fronting request gets no route. *)
Definition routed_or_fronting (shared : SharedContext) (req : Request B) (info : RequestInfo) (fronting : bool) (now : Z) (d : Draws)
    (st : HandlerState) : Routed * HandlerState :=
  if fronting then (mkRouted (PrErr DomainFrontingDetected) ResponseRewriter_default None (ri_remote info), st)
  else route_request shared req info now d st.

(** ** The answer

    [fetch] is [cache::fetch]: the request through the cache to the upstream servers.  The body of
    the response holds the permits until it ends. *)

Context {RB : Type} {ENC : Encoders RB} {FORMS : BodyForms RB} {E : Type} {PAGES : PageOps E}.

Definition upstream_response (fetch : UpstreamCall -> SvcState -> result (Response RB) AnyError * SvcState) (answer : ProxiedRequest) (st : HandlerState)
  : result (Response RB * option (option ConcurrencyPermit * option bool)) AnyError * HandlerState :=
  match answer with
  | PrOk call =>
      let '(res, svc) := fetch call (hs_services st) in
      let st := mkHandlerState (hs_replay st) (hs_streams st) svc in
      match res with
      | Ok res => (Ok (res, Some (uc_guard call, uc_stream_permit call)), st)
      | Err e => (Err e, drop_stream (uc_stream_permit call) (drop_guard (uc_guard call) st))
      end
  | PrRespond r => (Ok (mkResponse (res_status r) (res_headers r) (full_text (res_body r)), None), st)
  | PrErr e => (Err (from_proxy e), st)
  end.

(** A call that is given up drops its permits. *)
Definition drop_answer (answer : ProxiedRequest) (st : HandlerState) : HandlerState :=
  match answer with
  | PrOk call => drop_stream (uc_stream_permit call) (drop_guard (uc_guard call) st)
  | _ => st
  end.

(** The end of [proxied_response]: [None] closes the connection of a quarantined client. *)
Definition finish_response (fetch : UpstreamCall -> SvcState -> result (Response RB) AnyError * SvcState) (quarantined : bool)
    (bad_header : E) (fresh_id : string) (routed : Routed) (st : HandlerState)
  : option (result (Response RB) E) * HandlerState :=
  if quarantined then (None, drop_answer (ro_request routed) st)
  else
    let '(res, st) := upstream_response fetch (ro_request routed) st in
    let res := match res with Ok (r, _) => Ok r | Err e => Err e end in
    (Some (map_response (ro_rewriter routed) res bad_header fresh_id), st).

Definition proxied_response (shared : SharedContext) (req : Request B) (info : RequestInfo) (now : Z) (d : Draws)
    (fetch : UpstreamCall -> SvcState -> result (Response RB) AnyError * SvcState) (quarantine : AutoQuarantineTracker)
    (bad_header : E) (fresh_id : string) (st : HandlerState) : option (result (Response RB) E) * HandlerState :=
  let fronting := is_domain_fronting req (ri_sni info) in
  let '(routed, st) := routed_or_fronting shared req info fronting now d st in
  finish_response fetch (is_quarantined quarantine (ro_client routed) now) bad_header fresh_id routed st.

End Pipeline.

(** ** What a call has passed *)

Section Passed.
Context `{HDR : HeaderOps} `{HB : HeaderBytes} `{URL : UrlOps} {PARTS : UriParts URL} `{RX : RegexOps} `{NETS : IpNets}.
Context `{ORIGIN : OriginOps} `{HASH : DictionaryHash} `{HEX : Hex}.
Context {B : Type} `{SVC : !RouteServices B}.

#[local] Abbreviation Route := (FilteredRoute RouteSettings).

(** The limiter of the route let the client through. *)
Definition rate_admitted (route : Route) (client : IpAddr) (s s' : SvcState) : Prop :=
  match rs_rate_limiter (fr_settings route) with
  | Some limiter => limiter_check limiter client s = (Ok tt, s')
  | None => s' = s
  end.

(** The authenticator of the route accepted the request as [req']. *)
Definition authenticated_as (route : Route) (req req' : Request B) (ctx : AuthContext) (s s' : SvcState) : Prop :=
  match rs_auth (fr_settings route) with
  | Some auth => exists s1 req1, auth_serve auth req ctx s = (inl req1, s1) /\ auth_authorize auth req1 ctx s1 = (Ok req', s')
  | None => req' = req /\ s' = s
  end.

(** The concurrency limiter of the route gave the permit of the call. *)
Definition concurrency_admitted (route : Route) (h : Headers) (client : IpAddr) (guard : option ConcurrencyPermit) (s s' : SvcState) : Prop :=
  match rs_concurrency_limiter (fr_settings route) with
  | Some limiter => exists g, concurrency_acquire limiter h client s = (Ok g, s') /\ guard = Some g
  | None => guard = None /\ s' = s
  end.

Definition country_of (lookup_country : IpAddr -> option string) (f : IpFilter) (client : IpAddr) : option string :=
  if negb (vec_is_empty (allow_countries f)) || negb (vec_is_empty (deny_countries f)) then lookup_country client else None.

Definition filter_admits (lookup_country : IpAddr -> option string) (route : Route) (client : IpAddr) : bool :=
  let f := rs_ip_filter (fr_settings route) in allows_with_country f client (country_of lookup_country f client).

Lemma check_policies_ok lookup_country route client cert st u st' :
  check_policies lookup_country route client cert st = (Ok u, st') ->
  filter_admits lookup_country route client = true
  /\ (rs_require_client_cert (fr_settings route) = true -> is_some cert = true)
  /\ rate_admitted route client st st' /\ rs_upstream (fr_settings route) = Some u.
Proof.
  unfold check_policies, filter_admits, country_of, rate_admitted. cbn zeta.
  destruct (allows_with_country _ _ _); cbn [negb]; [|done].
  destruct (rs_require_client_cert (fr_settings route)), (is_some cert); cbn [negb andb]; try done;
    (destruct (rs_rate_limiter (fr_settings route)) as [l|];
     [destruct (limiter_check l client st) as [[[]|e] s] eqn:El; [|done]|]);
    destruct (rs_upstream (fr_settings route)) as [u'|]; try done; intros [= <- <-]; by split_and!.
Qed.

Lemma check_policies_refused lookup_country route client cert st :
  filter_admits lookup_country route client = false -> check_policies lookup_country route client cert st = (Err IpNotAllowed, st).
Proof. unfold check_policies, filter_admits, country_of. cbn zeta. by intros ->. Qed.

Lemma check_route_access_ok lookup_country route req client info host request_host st u st' :
  check_route_access lookup_country route req client info host request_host st = (Ok u, st') ->
  m_enabled (rs_maintenance (fr_settings route)) = false
  /\ check_dictionary_request route req = None
  /\ (rs_bot_blocker (fr_settings route) = true -> is_bot_request (rq_headers req) = false)
  /\ filter_admits lookup_country route (ip client) = true
  /\ (rs_require_client_cert (fr_settings route) = true -> is_some (ri_client_cert info) = true)
  /\ rate_admitted route (ip client) st st' /\ rs_upstream (fr_settings route) = Some u
  /\ redirect_of route req host request_host (ri_proto info) = None
  /\ declared_too_large (rq_headers req) (upstream_max_body_size u) = false.
Proof.
  unfold check_route_access. cbn zeta. destruct (m_enabled _); [done|].
  destruct (check_dictionary_request route req); [done|].
  destruct (rs_bot_blocker (fr_settings route)) eqn:Eb; cbn [andb];
    [destruct (is_bot_request (rq_headers req)) eqn:Ebot; [done|]|];
    (destruct (check_policies _ _ _ _ _) as [[u'|e] s] eqn:Ep; [|done]; apply check_policies_ok in Ep as (H1 & H2 & H3 & H4);
     destruct (redirect_of _ _ _ _ _); [done|]; destruct (declared_too_large _ _) eqn:Ed; [done|]; intros [= <- <-]; by split_and!).
Qed.

Lemma authenticate_pass route req ctx st req' st' :
  authenticate route req ctx st = (Pass req', st') -> authenticated_as route req req' ctx st st'.
Proof.
  unfold authenticate, authenticated_as. destruct (rs_auth (fr_settings route)) as [auth|]; [|by intros [= <- <-]].
  destruct (auth_serve auth req ctx st) as [[req1|r] s1] eqn:E1; [|done].
  destruct (auth_authorize auth req1 ctx s1) as [[req2|r] s2] eqn:E2; [|done]. intros [= <- <-]. by exists s1, req1.
Qed.

Lemma early_none route req host client st st' :
  check_post_auth_early_response route req host client st = (None, st') ->
  rs_response (fr_settings route) = None
  /\ (is_some (rs_cache (fr_settings route)) = true -> method_text (rq_method req) <> "PURGE") /\ st' = st.
Proof.
  unfold check_post_auth_early_response, handle_purge_or_fixed. destruct (_ && _); [done|].
  destruct (is_some (rs_cache _)) eqn:Ec; cbn [andb]; [destruct (String.eqb_spec (method_text (rq_method req)) "PURGE") as [|Hne]|].
  - by destruct (handle_purge_request _ _ _ _) as [[? ?] ?].
  - destruct (rs_response _); [done|]. by intros [= <-].
  - destruct (rs_response _); [done|]. by intros [= <-].
Qed.

Lemma acquire_ok route h client st guard st' :
  acquire_concurrency route h client st = (Ok guard, st') -> concurrency_admitted route h client guard st st'.
Proof.
  unfold acquire_concurrency, concurrency_admitted. destruct (rs_concurrency_limiter _) as [l|]; [|by intros [= <- <-]].
  destruct (concurrency_acquire l h client st) as [[g|e] s] eqn:E; [|done]. intros [= <- <-]. by exists g.
Qed.

(** The guards that a request passed on its way to the upstream server [u]: the limiter took the
    services from [s] to [s1], the authenticator from [s1] to [s2], and the concurrency limiter
    from [s2] to [s3]. *)
Record GuardsPassed (shared : SharedContext) (info : RequestInfo) (route : Route) (client : ClientAddr)
    (req req' : Request B) (ctx : AuthContext) (host : option string) (u : UpstreamHandle) (guard : option ConcurrencyPermit) (s s1 s2 s3 : SvcState) : Prop := {
  ad_maintenance : m_enabled (rs_maintenance (fr_settings route)) = false;
  ad_bot : rs_bot_blocker (fr_settings route) = true -> is_bot_request (rq_headers req) = false;
  ad_filter : filter_admits (sh_country shared) route (ip client) = true;
  ad_cert : rs_require_client_cert (fr_settings route) = true -> is_some (ri_client_cert info) = true;
  ad_rate : rate_admitted route (ip client) s s1;
  ad_redirect : redirect_of route req (header_host req) host (ri_proto info) = None;
  ad_size : declared_too_large (rq_headers req) (upstream_max_body_size u) = false;
  ad_auth : authenticated_as route req req' ctx s1 s2;
  ad_fixed : rs_response (fr_settings route) = None;
  ad_servers : rs_upstream (fr_settings route) = Some u /\ upstream_has_servers u = true;
  ad_concurrency : concurrency_admitted route (rq_headers req') (ip client) guard s2 s3;
}.

Lemma prepare_upstream_ok shared route segments req u info client host key authorized guard d rw st call rw' st' :
  prepare_upstream_request shared route segments req u info client host key authorized guard d rw st = (PrOk call, rw', st') ->
  uc_upstream call = u /\ uc_guard call = guard.
Proof.
  unfold prepare_upstream_request. cbn zeta.
  destruct (upstream_select _ _ _ _ _ _) as [[[req1 sticky]|e] svc]; [|done].
  destruct (if _ && is_grpc_web_request _ then _ else _) as [req2 rw2].
  destruct (apply_stream_priority _ _ _) as [[[permit req3]|e] streams]; [|done].
  destruct (apply_header_rules _ _ _ _ _ _ _) as [h rw3].
  destruct (match rs_cache _ with Some _ => _ | None => _ end) as [cr h']. intros H. by simplify_eq.
Qed.

Lemma route_admitted_ok shared route segments req u info client host d rw st call rw' st' :
  route_admitted shared route segments req u info client host d rw st = (PrOk call, rw', st') ->
  uc_upstream call = u /\ upstream_has_servers u = true /\ rs_response (fr_settings route) = None
  /\ exists req' s2 s3, authenticated_as route req req'
       (mkAuthContext (ip client) (peer client) host (ri_proto info) (rs_base_path (fr_settings route)) segments) (hs_services st) s2
     /\ concurrency_admitted route (rq_headers req') (ip client) (uc_guard call) s2 s3.
Proof.
  unfold route_admitted. cbn zeta.
  destruct (authenticate _ _ _ _) as [[req'|r|r] svc] eqn:Ea; [|done|by destruct r].
  apply authenticate_pass in Ea.
  destruct (check_post_auth_early_response _ _ _ _ _) as [[r|] svc2] eqn:Ee; [done|]. apply early_none in Ee as (Hr & _ & ->).
  destruct (upstream_has_servers u) eqn:Es; cbn [negb]; [|done].
  destruct (acquire_concurrency _ _ _ _) as [[guard|e] svc3] eqn:Ec; [|done]. apply acquire_ok in Ec.
  intros H. apply prepare_upstream_ok in H as [Hu Hg]. split_and!; try done. exists req', svc, svc3. split; [done|]. by rewrite Hg.
Qed.

(** What early data has passed: the buffer had not seen the request, and its method is safe. *)
Definition early_admitted (req : Request B) (info : RequestInfo) (buffer : AntiReplayBuffer) (now : Z) : Prop :=
  ri_early_data info = true ->
  is_safe_http_method (method_text (rq_method req)) = true
  /\ (check_and_record buffer (ri_remote info) (method_text (rq_method req)) (default EmptyString (uri_path_and_query (rq_uri req))) now).1 = true.

Lemma validate_early_ok req info buffer now req' buffer' :
  validate_early_data req info buffer now = (None, req', buffer') ->
  early_admitted req info buffer now /\ rq_uri req' = rq_uri req /\ rq_method req' = rq_method req.
Proof.
  unfold validate_early_data, early_admitted. destruct (ri_early_data info); cbn [negb]; [|by intros [= <- _]].
  destruct (check_and_record _ _ _ _ _) as [fresh b]. destruct fresh; cbn [negb]; [|done].
  destruct (is_safe_http_method _) eqn:Es; cbn [negb]; [|done]. intros H. by simplify_eq.
Qed.

(** C3: A request reaches the upstream servers only when it has passed every guard: it is no
    domain fronting, its early data is safe and no replay, its route is the one that the router
    chose and is not under maintenance, and for the client that the resolver found the bot
    blocker, the IP filter, the client certificate, the rate limiter, the size limit, the
    authenticator and the concurrency limiter of that route let it through, and no redirect and
    no fixed response was due. *)
Theorem upstream_needs_every_guard (shared : SharedContext) (req : Request B) (info : RequestInfo) (now : Z) (d : Draws) (st st' : HandlerState)
    (call : UpstreamCall) (rw : ResponseRewriter) (named : option (ShortId * string)) (client_ip : IpAddr) :
  routed_or_fronting shared req info (is_domain_fronting req (ri_sni info)) now d st = (mkRouted (PrOk call) rw named client_ip, st') ->
  is_domain_fronting req (ri_sni info) = false
  /\ early_admitted (normalize_request_path req) info (hs_replay st) now
  /\ exists req1 req2 route segments client s1 s2 s3,
       let host := request_host req1 (header_host req1) (ri_sni info) in
       rq_uri req1 = rq_uri (normalize_request_path req)
       /\ get_route (sh_routes shared) (uri_path (rq_uri req1)) host = Some (segments, route)
       /\ client = resolve (rs_client_ip (fr_settings route)) (ri_remote info) (rq_headers req1) (sh_cdn shared)
       /\ client_ip = ip client
       /\ GuardsPassed shared info route client req1 req2
            (mkAuthContext (ip client) (peer client) host (ri_proto info) (rs_base_path (fr_settings route)) segments) host
            (uc_upstream call) (uc_guard call) (hs_services st) s1 s2 s3.
Proof.
  unfold routed_or_fronting. destruct (is_domain_fronting req (ri_sni info)); [done|]. split; [done|].
  revert H. unfold route_request. cbn zeta.
  destruct (validate_early_data _ _ _ _) as [[[r|] req1] replay] eqn:Ev; [done|].
  apply validate_early_ok in Ev as (He & Hu & _).
  set (host := request_host req1 (header_host req1) (ri_sni info)).
  destruct (get_route _ _ _) as [[segments route]|] eqn:Er; [|done]. cbn [hs_services].
  set (client := resolve _ _ _ _).
  destruct (check_route_access _ _ _ _ _ _ _ _) as [[u|[r|e]] svc] eqn:Ea; [|done|done].
  apply check_route_access_ok in Ea as (H1 & H2 & H3 & H4 & H5 & H6 & H7 & H8 & H9).
  destruct (route_admitted _ _ _ _ _ _ _ _ _ _ _) as [[answer rw'] st''] eqn:Eadm. intros H. simplify_eq.
  apply route_admitted_ok in Eadm as (G1 & G2 & G3 & req2 & s2 & s3 & G4 & G5). subst u.
  split; [done|]. exists req1, req2, route, segments, client, svc, s2, s3. cbn zeta. fold host. split_and!; try done.
Qed.

(** ** What the upstream servers see *)

Context {LAWS : HeaderLaws HDR} {VALUES : HeaderValueLaws HDR}.

(** No rule of the route is on the name. *)
Definition rule_free (route : Route) (n : string) : Prop :=
  Forall (fun r => cr_name r <> n) (chr_request (rs_header_rules (fr_settings route))).

Definition untouched (n : string) : Prop := n <> TRACEPARENT /\ n <> X_REQUEST_ID /\ n <> "accept-encoding" /\ n <> VIA.

Lemma trace_values h rt rs n :
  n <> TRACEPARENT -> n <> X_REQUEST_ID -> h_get_all (extract_and_propagate_trace_context h rt rs).1 n = h_get_all h n.
Proof.
  intros H1 H2. unfold extract_and_propagate_trace_context.
  destruct (match header_text h TRACEPARENT ≫= TraceParent_parse with Some _ => _ | None => _ end) as [tid out]. cbn zeta.
  repeat match goal with |- context [value_from_str ?v] => destruct (value_from_str v) end;
    (destruct (header_text _ X_REQUEST_ID) as [x|]; [destruct (str_is_empty (trim x))|]; cbn [fst negb]);
    repeat (rewrite get_all_insert, decide_False by congruence); done.
Qed.

Lemma cache_values m h key authorized n :
  n <> "accept-encoding" -> h_get_all (CacheRequest_new m h key authorized).2 n = h_get_all h n.
Proof.
  intros Hn. unfold CacheRequest_new. cbn zeta. destruct (negb (is_unsafe_method m) && _); [done|]. cbn [snd]. destruct (is_unsafe_method m); cbn [negb]; [done|].
  by rewrite get_all_remove, decide_False.
Qed.

Lemma rules_values route h v n : rule_free route n -> h_get_all (apply_request (rs_header_rules (fr_settings route)) h v) n = h_get_all h n.
Proof.
  intros Hf. unfold apply_request. rewrite apply_values, filter_none; [done|].
  intros r Hr. apply bool_decide_false. intros ->. unfold rule_free in Hf. rewrite Forall_forall in Hf. by apply (Hf r).
Qed.

Lemma header_rules_values route h client host info d rw n :
  rule_free route n -> untouched n -> h_get_all (apply_header_rules route h client host info d rw).1 n = h_get_all h n.
Proof.
  intros Hf (H1 & H2 & _). pose proof (trace_values h (draw_trace d) (draw_span d) n H1 H2) as Ht. unfold apply_header_rules.
  destruct (extract_and_propagate_trace_context _ _ _) as [h1 id]. cbn [fst] in Ht. cbn zeta.
  destruct (CompiledHeaderRules_is_empty _); cbn [fst]; [done|]. by rewrite rules_values.
Qed.

(** The headers of the call are the forwarded ones of some headers. *)
Lemma prepare_headers shared route segments req u info client host key authorized guard d rw st call rw' st' :
  prepare_upstream_request shared route segments req u info client host key authorized guard d rw st = (PrOk call, rw', st') ->
  exists h method, forall n, rule_free route n -> untouched n ->
    h_get_all (rq_headers (uc_req call)) n = h_get_all (forward_headers (sh_rewriter shared) h method client host (ri_proto info)) n.
Proof.
  unfold prepare_upstream_request. cbn zeta.
  destruct (upstream_select _ _ _ _ _ _) as [[[req1 sticky]|e] svc]; [|done].
  destruct (if _ && is_grpc_web_request _ then _ else _) as [req2 rw2].
  destruct (apply_stream_priority _ _ _) as [[[permit req3]|e] streams]; [|done].
  set (h0 := forward_headers _ _ _ _ _ _).
  pose proof (header_rules_values route h0 (ip client) host info d rw2) as Hr.
  destruct (apply_header_rules _ h0 _ _ _ _ _) as [h1 rw3]. cbn [fst] in Hr.
  destruct (match rs_cache _ with Some _ => _ | None => _ end) as [cr h2] eqn:Ec. intros H. simplify_eq.
  exists (rq_headers req3), (rq_method req3). intros n Hf Hn. cbn [uc_req with_headers rq_headers]. fold h0. rewrite <-Hr by done.
  destruct (rs_cache (fr_settings route)); [|by simplify_eq].
  rewrite <-(cache_values (cache_method (rq_method req3)) h1 key authorized n) by apply Hn. by rewrite Ec.
Qed.

Lemma route_admitted_headers shared route segments req u info client host d rw st call rw' st' :
  route_admitted shared route segments req u info client host d rw st = (PrOk call, rw', st') ->
  exists h method, forall n, rule_free route n -> untouched n ->
    h_get_all (rq_headers (uc_req call)) n = h_get_all (forward_headers (sh_rewriter shared) h method client host (ri_proto info)) n.
Proof.
  unfold route_admitted. cbn zeta. destruct (authenticate _ _ _ _) as [[req'|r|r] svc]; [|done|by destruct r].
  destruct (check_post_auth_early_response _ _ _ _ _) as [[r|] svc2]; [done|]. destruct (upstream_has_servers u); cbn [negb]; [|done].
  destruct (acquire_concurrency _ _ _ _) as [[guard|e] svc3]; [|done]. apply prepare_headers.
Qed.

Lemma post_process_values via h n : n <> VIA -> h_get_all (post_process via h) n = h_get_all h n.
Proof. intros Hn. unfold post_process. destruct (set_via via); [|done]. by rewrite get_all_insert, decide_False. Qed.

Definition listed (n : string) (l : list string) : bool := existsb (String.eqb n) l.

Lemma listed_untouched n : (n ∈ CLIENT_IP_HEADERS \/ n ∈ HOP_BY_HOP_HEADERS) -> untouched n.
Proof.
  intros H. unfold untouched. assert (F : forall l, Forall (fun x => x <> TRACEPARENT /\ x <> X_REQUEST_ID /\ x <> "accept-encoding" /\ x <> VIA) l ->
    n ∈ l -> n <> TRACEPARENT /\ n <> X_REQUEST_ID /\ n <> "accept-encoding" /\ n <> VIA) by (intros l Hl Hn; rewrite Forall_forall in Hl; by apply Hl).
  destruct H as [H|H]; (eapply F; [|exact H]); repeat constructor; done.
Qed.

(** What the forwarded headers say of a connection. *)
Definition connection_values (p : IpAddr) (host : option string) (proto n : string) : list string :=
  if String.eqb n X_FORWARDED_HOST then host_values host []
  else if String.eqb n X_FORWARDED_FOR then [ip_to_string p]
  else if String.eqb n FORWARDED then [current_hop p host proto]
  else [].

Lemma hop_name_plain n : n ∈ HOP_BY_HOP_HEADERS ->
  (n ∉ CLIENT_IP_HEADERS) /\ n <> X_FORWARDED_PROTO /\ n <> X_FORWARDED_HOST /\ n <> X_FORWARDED_FOR /\ n <> FORWARDED /\ n <> X_REAL_IP.
Proof.
  intros H. assert (F : Forall (fun n => negb (listed n CLIENT_IP_HEADERS) && negb (String.eqb n X_FORWARDED_PROTO) && negb (String.eqb n X_FORWARDED_HOST)
    && negb (String.eqb n X_FORWARDED_FOR) && negb (String.eqb n FORWARDED) && negb (String.eqb n X_REAL_IP) = true) HOP_BY_HOP_HEADERS)
    by (repeat constructor).
  rewrite Forall_forall in F. specialize (F n H). cbn beta in F. rewrite !andb_true_iff, !negb_true_iff, !String.eqb_neq in F.
  destruct F as (((((F1 & F2) & F3) & F4) & F5) & F6). split_and!; try done. intros Hin.
  assert (listed n CLIENT_IP_HEADERS = true) by (apply existsb_exists; exists n; split; [by apply list_elem_of_In|apply String.eqb_refl]). congruence.
Qed.

Lemma forward_hop_values via h method client host proto n :
  str_forallb value_char proto = true -> n ∈ HOP_BY_HOP_HEADERS -> n ∉ ["connection"; "upgrade"] ->
  h_get_all (forward_headers via h method client host proto) n = [].
Proof.
  intros Hp Hn Hc. unfold forward_headers. cbn zeta. rewrite post_process_values by (by apply listed_untouched; right).
  destruct (hop_name_plain n Hn) as (H1 & H2 & H3 & H4 & H5 & H6). rewrite forwarded_headers_exact by done.
  assert (E : h_get_all (remove_hop_by_hop_headers (remove_auth_cookies h) method) n = []).
  { rewrite hop_by_hop_exact. unfold hop_values. cbn zeta. rewrite !not_elem_of_cons in Hc. destruct Hc as (Hc1 & Hc2 & _).
    rewrite (proj2 (String.eqb_neq _ _) Hc1), (proj2 (String.eqb_neq _ _) Hc2), !andb_false_r, bool_decide_true by done. done. }
  destruct (trusted_peer client); [unfold trusted_values|unfold untrusted_values];
    rewrite ?(proj2 (String.eqb_neq _ _) H2), ?(proj2 (String.eqb_neq _ _) H3), ?(proj2 (String.eqb_neq _ _) H4),
      ?(proj2 (String.eqb_neq _ _) H5), ?(proj2 (String.eqb_neq _ _) H6), ?bool_decide_false by done; done.
Qed.

Lemma forward_client_values via h method client host proto n :
  str_forallb value_char proto = true -> trusted_peer client = false -> n ∈ CLIENT_IP_HEADERS ->
  h_get_all (forward_headers via h method client host proto) n = connection_values (peer client) host proto n.
Proof.
  intros Hp Ht Hn. unfold forward_headers. cbn zeta. rewrite post_process_values by (by apply listed_untouched; left).
  rewrite forwarded_headers_exact, Ht by done. unfold untrusted_values, connection_values. rewrite (bool_decide_true (n ∈ _)) by done.
  destruct (String.eqb_spec n X_FORWARDED_HOST); [done|]. destruct (String.eqb_spec n X_FORWARDED_PROTO) as [->|]; [|done].
  exfalso. revert Hn. by refine (bool_decide_unpack _ _).
Qed.

(** C26: What an upstream server reads of the client is the connection of the client and nothing
    that the client made up: from a peer that is not trusted, each header that names a client has
    only what the proxy knows, and no header of the connection comes through but those of an
    upgrade, whatever the request had.  Only the header rules of the route can add to them. *)
Theorem upstream_sees_connection (shared : SharedContext) (req : Request B) (info : RequestInfo) (now : Z) (d : Draws) (st st' : HandlerState)
    (call : UpstreamCall) (rw : ResponseRewriter) (named : option (ShortId * string)) (client_ip : IpAddr) :
  str_forallb value_char (ri_proto info) = true ->
  routed_or_fronting shared req info (is_domain_fronting req (ri_sni info)) now d st = (mkRouted (PrOk call) rw named client_ip, st') ->
  exists (req1 : Request B) segments route client,
    let host := request_host req1 (header_host req1) (ri_sni info) in
    get_route (sh_routes shared) (uri_path (rq_uri req1)) host = Some (segments, route)
    /\ client = resolve (rs_client_ip (fr_settings route)) (ri_remote info) (rq_headers req1) (sh_cdn shared)
    /\ (trusted_peer client = false -> forall n, n ∈ CLIENT_IP_HEADERS -> rule_free route n ->
          h_get_all (rq_headers (uc_req call)) n = connection_values (peer client) host (ri_proto info) n)
    /\ (forall n, n ∈ HOP_BY_HOP_HEADERS -> n ∉ ["connection"; "upgrade"] -> rule_free route n ->
          h_get_all (rq_headers (uc_req call)) n = []).
Proof.
  intros Hp. unfold routed_or_fronting. destruct (is_domain_fronting req (ri_sni info)); [done|].
  unfold route_request. cbn zeta.
  destruct (validate_early_data _ _ _ _) as [[[r|] req1] replay]; [done|].
  set (host := request_host req1 (header_host req1) (ri_sni info)).
  destruct (get_route _ _ _) as [[segments route]|] eqn:Er; [|done]. cbn [hs_services]. set (client := resolve _ _ _ _).
  destruct (check_route_access _ _ _ _ _ _ _ _) as [[u|[r|e]] svc]; [|done|done].
  destruct (route_admitted _ _ _ _ _ _ _ _ _ _ _) as [[answer rw'] st''] eqn:Eadm. intros H. simplify_eq.
  apply route_admitted_headers in Eadm as (h & method & Hh).
  exists req1, segments, route, client. cbn zeta. fold host. split; [done|]. split; [done|]. split.
  - intros Ht n Hn Hf. rewrite Hh by (done || by apply listed_untouched; left). by apply forward_client_values.
  - intros n Hn Hc Hf. rewrite Hh by (done || by apply listed_untouched; right). by apply forward_hop_values.
Qed.

End Passed.

(** ** An example *)

(** Targets as strings of a path and a query. *)
Definition plain_uri_parts : UriParts plain_url_ops :=
  Build_UriParts plain_url_ops (fun u => hd EmptyString (split_on "?" u)) (fun u => Some u) (fun _ => None) (fun _ => None) (fun u => u)
    Some Some (fun a => hd EmptyString (split_on ":" a)) (fun _ _ path => Some (default EmptyString path)).

Definition plain_origins : OriginOps := {| url_scheme_host _ := None |}.

(** A limiter that counts down, a limit on running requests, an authenticator that wants an
    [Authorization] header and takes it off, and upstream servers by a limit on bodies. *)
#[export] Instance plain_services : RouteServices (HDR := plain_header_ops) (URL := plain_url_ops) string := {|
  SvcState := Z * Z;
  RateLimiter := unit;
  ConcurrencyHandle := Z;
  ConcurrencyPermit := unit;
  AuthHandle := unit;
  CacheHandle := unit;
  UpstreamHandle := Z;
  limiter_check _ _ st := if 0 <? st.1 then (Ok tt, (st.1 - 1, st.2)) else (Err 1, st);
  concurrency_acquire limit _ _ st := if st.2 <? limit then (Ok tt, (st.1, st.2 + 1)) else (Err TooManyConcurrentRequests, st);
  concurrency_release _ st := (st.1, st.2 - 1);
  auth_serve _ req _ st := (inl req, st);
  auth_authorize _ req _ st :=
    if h_contains (HeaderOps := plain_header_ops) (rq_headers req) "authorization"
    then (Ok (mkRequest (HDR := plain_header_ops) (rq_method req) (rq_uri req) (rq_version req)
                (h_remove (HeaderOps := plain_header_ops) "authorization" (rq_headers req)) (rq_target req) (rq_h2c req) (rq_body req)), st)
    else (Err (RejResponse (HDR := plain_header_ops) (mkResponse (HDR := plain_header_ops) 401 [] EmptyString)), st);
  purge_path _ _ st := (0, st);
  upstream_max_body_size limit := limit;
  upstream_has_servers _ := true;
  upstream_select _ req _ _ _ st := (Ok (req, false), st);
  mark_h2c req := req;
|}.

Module Example.
#[local] Existing Instances plain_header_ops plain_bytes plain_url_ops plain_uri_parts plain_regex plain_nets plain_origins plain_hash plain_hex.

Definition settings : RouteSettings :=
  mkRouteSettings [] "" "/" None None false [] (mkClientIpConfig false []) (mkIpFilter [] [(V4 3232235776, 24)] [] []) (Some tt) (Some 2) (Some tt)
    (CompiledHeaderRules_new (mkHeaderRules [] [])) None None false (Some 1000) None MaintenanceConfig_default false true false
    StreamPriorityConfig_default.

Definition shared : SharedContext := mkSharedContext [mkFilteredRoute (mkRequestFilter [] []) [] false settings] (mkRequestRewriter None)
  (fun _ => None) CdnTable_empty.

Definition info : RequestInfo := mkRequestInfo (V4 3405803785) (V4 3405803785) "10.0.0.1:443" None "https" None false.

(** The client at 203.0.113.9 names another one. *)
Definition request : Request string :=
  mkRequest GET "/orders?id=1" HTTP_11
    [("host", "app.example.com"); ("authorization", "Bearer x"); ("x-forwarded-for", "10.0.0.1"); ("keep-alive", "5"); ("user-agent", "x")]
    None false EmptyString.

Definition start : HandlerState := mkHandlerState (AntiReplayBuffer_new 1 1) AdaptiveStreamController_new (3, 0).

Definition routed : Routed * HandlerState := routed_or_fronting shared request info (is_domain_fronting request None) 0 (mkDraws 1 2 3) start.

(** The request goes to the servers with the permit of the limit, and without what the client
    said of another client and of its connection. *)
Lemma routed_call : exists call rw named cip st',
  routed = (mkRouted (PrOk call) rw named cip, st') /\ uc_guard call = Some tt /\ hs_services st' = (2, 1)
  /\ h_get_all (rq_headers (uc_req call)) "x-forwarded-for" = ["203.0.113.9"]
  /\ h_get_all (rq_headers (uc_req call)) "keep-alive" = [].
Proof.
  assert (K : match routed with
              | (mkRouted (PrOk call) _ _ _, st') =>
                  (uc_guard call, hs_services st', h_get_all (rq_headers (uc_req call)) "x-forwarded-for",
                   h_get_all (rq_headers (uc_req call)) "keep-alive") = (Some tt, (2, 1), ["203.0.113.9"], [])
              | _ => False
              end) by (vm_compute; reflexivity).
  destruct routed as [[[call|r|e] rw named cip] st'] eqn:E; [|destruct K|destruct K].
  exists call, rw, named, cip, st'. split; [reflexivity|]. inversion K. by split_and!.
Qed.

Lemma upstream_needs_every_guard_witness :
  exists call rw named cip st', routed = (mkRouted (PrOk call) rw named cip, st')
    /\ early_admitted (normalize_request_path request) info (hs_replay start) 0.
Proof.
  destruct routed_call as (call & rw & named & cip & st' & E & _). exists call, rw, named, cip, st'. split; [exact E|].
  apply (upstream_needs_every_guard shared request info 0 (mkDraws 1 2 3) start st' call rw named cip E).
Defined.

Lemma upstream_sees_connection_witness :
  exists call route client,
    h_get_all (rq_headers (uc_req call)) "x-forwarded-for" = ["203.0.113.9"]
    /\ (trusted_peer client = false -> forall n, n ∈ CLIENT_IP_HEADERS -> rule_free route n ->
          exists host, h_get_all (rq_headers (uc_req call)) n = connection_values (peer client) host "https" n)
    /\ (forall n, n ∈ HOP_BY_HOP_HEADERS -> n ∉ ["connection"; "upgrade"] -> rule_free route n -> h_get_all (rq_headers (uc_req call)) n = []).
Proof.
  destruct routed_call as (call & rw & named & cip & st' & E & _ & _ & Hx & _).
  destruct (upstream_sees_connection shared request info 0 (mkDraws 1 2 3) start st' call rw named cip eq_refl E)
    as (req1 & segments & route & client & H1 & H2 & H3 & H4).
  exists call, route, client. split; [exact Hx|]. split; [|exact H4].
  intros Ht n Hn Hf. eexists. exact (H3 Ht n Hn Hf).
Defined.

End Example.
