(* ===== verification/Dns.v ===== *)
(** * The resolver of the upstream servers

    [proxy/dns.rs]: host names with their addresses for the time of their records, and the
    addresses of a name in turn.  The lookup at a name server is an input; an entry shares its
    counter with its copies, so the counters are a store of cells. *)

From stdpp Require Import strings.
From S2P Require Import Prelude Basics Net IpText.

Definition DNS_LOOKUP_RETRY_INTERVAL : Duration := from_secs 5.
Definition MIN_DNS_TTL : Duration := from_secs 1.

Inductive CacheState : Type := Resolved (ips : list IpAddr) | Failed (err : string).

(** [counter] is the cell of the shared counter. *)
Record CachedEntry : Type := mkCachedEntry { state : CacheState; expires_at : Instant; counter : nat }.

Record DnsResolver : Type := mkDnsResolver { cache : gmap string CachedEntry; counters : list Z }.

Definition DnsResolver_new : DnsResolver := mkDnsResolver ∅ [].

(** [fetch_add(1)]: the value before, and the cell after. *)
Definition fetch_add (cell : nat) (r : DnsResolver) : Z * DnsResolver :=
  (default 0 (counters r !! cell), mkDnsResolver (cache r) (alter (fun v => wrap64 (v + 1)) cell (counters r))).

Definition rotated {A} (start : nat) (l : list A) : list A := drop start l ++ take start l.

Definition rotate_addrs (e : CachedEntry) (port : Z) (r : DnsResolver) : result (list SocketAddr) string * DnsResolver :=
  match state e with
  | Resolved [] => (Err "no IP address found", r)
  | Resolved ips =>
      let '(value, r) := fetch_add (counter e) r in
      let start := Z.to_nat (value mod Z.of_nat (length ips)) in
      (Ok (map (fun ip => (ip, port)) (rotated start ips)), r)
  | Failed err => (Err (String.append "DNS lookup failed: " err), r)
  end.

Definition get_cached (host : string) (now : Instant) (r : DnsResolver) : option CachedEntry :=
  e ← cache r !! host;
  if now <? expires_at e then Some e else None.

Definition insert_cache (host : string) (s : CacheState) (expires : Instant) (r : DnsResolver) : CachedEntry * DnsResolver :=
  let '(cell, cells) :=
    match cache r !! host with
    | Some e => (counter e, counters r)
    | None => (length (counters r), counters r ++ [0])
    end in
  let entry := mkCachedEntry s expires cell in
  (entry, mkDnsResolver (<[host := entry]> (cache r)) cells).

(** What the name server answers: the addresses and the end of their records, or an error. *)
Inductive Lookup : Type := LookupOk (ips : list IpAddr) (valid_until : Instant) | LookupErr (err : string).

(** [now] is read before the lookup. *)
Definition resolve_and_cache (host : string) (now : Instant) (lookup : Lookup) (r : DnsResolver) : CachedEntry * DnsResolver :=
  match lookup with
  | LookupOk [] _ => insert_cache host (Failed "no IP addresses returned by DNS") (now + DNS_LOOKUP_RETRY_INTERVAL) r
  | LookupOk ips valid_until => insert_cache host (Resolved ips) (if now <? valid_until then valid_until else now + MIN_DNS_TTL) r
  | LookupErr err => insert_cache host (Failed err) (now + DNS_LOOKUP_RETRY_INTERVAL) r
  end.

Definition resolve_addrs (host : string) (port : Z) (now : Instant) (lookup : Lookup) (r : DnsResolver)
  : result (list SocketAddr) string * DnsResolver :=
  match parse_ip host with
  | Some ip => (Ok [(ip, port)], r)
  | None =>
      match get_cached host now r with
      | Some e => rotate_addrs e port r
      | None => let '(e, r) := resolve_and_cache host now lookup r in rotate_addrs e port r
      end
  end.

Definition resolve_addr (host : string) (port : Z) (now : Instant) (lookup : Lookup) (r : DnsResolver) : result SocketAddr string * DnsResolver :=
  let '(addrs, r) := resolve_addrs host port now lookup r in
  (match addrs with
   | Ok (a :: _) => Ok a
   | Ok [] => Err (String.append "no IP address found for " host)
   | Err e => Err e
   end, r).

(** ** Facts *)

(** Every entry has the cell of its counter, and an entry of addresses has some. *)
Record resolver_ok (r : DnsResolver) : Prop := {
  ro_cells host e : cache r !! host = Some e -> (counter e < length (counters r))%nat;
  ro_addresses host e : cache r !! host = Some e -> state e <> Resolved [];
}.

Lemma fetch_add_ok cell r : resolver_ok r -> resolver_ok (fetch_add cell r).2.
Proof. intros [H1 H2]. split; cbn; [|done]. intros host e He. rewrite length_alter. by apply (H1 host). Qed.

Lemma rotate_addrs_ok e port r : resolver_ok r -> resolver_ok (rotate_addrs e port r).2.
Proof.
  intros H. unfold rotate_addrs. destruct (state e) as [[|ip ips]|err]; [done| |done].
  pose proof (fetch_add_ok (counter e) r H) as Hf. by destruct (fetch_add _ _).
Qed.

Lemma insert_cache_ok host s expires r : s <> Resolved [] -> resolver_ok r -> resolver_ok (insert_cache host s expires r).2.
Proof.
  intros Hs [H1 H2]. unfold insert_cache. destruct (cache r !! host) as [e0|] eqn:E0; split; cbn.
  - intros h e He. destruct (decide (host = h)) as [<-|Hne]; [|rewrite lookup_insert_ne in He by done; by apply (H1 h)].
    rewrite lookup_insert_eq in He. apply (inj Some) in He as <-. cbn. by apply (H1 host).
  - intros h e He. destruct (decide (host = h)) as [<-|Hne]; [|rewrite lookup_insert_ne in He by done; by apply (H2 h)].
    rewrite lookup_insert_eq in He. by apply (inj Some) in He as <-.
  - intros h e He. rewrite length_app. cbn. destruct (decide (host = h)) as [<-|Hne].
    + rewrite lookup_insert_eq in He. apply (inj Some) in He as <-. cbn. lia.
    + rewrite lookup_insert_ne in He by done. specialize (H1 h e He). lia.
  - intros h e He. destruct (decide (host = h)) as [<-|Hne]; [|rewrite lookup_insert_ne in He by done; by apply (H2 h)].
    rewrite lookup_insert_eq in He. by apply (inj Some) in He as <-.
Qed.

Lemma resolve_and_cache_ok host now lookup r : resolver_ok r -> resolver_ok (resolve_and_cache host now lookup r).2.
Proof. intros H. unfold resolve_and_cache. destruct lookup as [[|ip ips] until|err]; by apply insert_cache_ok. Qed.

Lemma resolve_addrs_ok host port now lookup r : resolver_ok r -> resolver_ok (resolve_addrs host port now lookup r).2.
Proof.
  intros H. unfold resolve_addrs. destruct (parse_ip host); [done|]. destruct (get_cached host now r); [by apply rotate_addrs_ok|].
  pose proof (resolve_and_cache_ok host now lookup r H) as Hr. destruct (resolve_and_cache _ _ _ _) as [e r']. by apply rotate_addrs_ok.
Qed.

Lemma rotated_perm {A} n (l : list A) : rotated n l ≡ₚ l.
Proof. unfold rotated. by rewrite Permutation_app_comm, take_drop. Qed.

(** An answer has every address of the name once. *)
Lemma rotate_addrs_all e port r ips addrs r' :
  state e = Resolved ips -> rotate_addrs e port r = (Ok addrs, r') -> addrs ≡ₚ map (fun ip => (ip, port)) ips.
Proof.
  unfold rotate_addrs. intros ->. destruct ips as [|ip ips]; [done|]. destruct (fetch_add _ _) as [v r1]. intros [= <- _].
  apply Permutation_map, rotated_perm.
Qed.

Lemma head_rotated {A} n (l : list A) : (n < length l)%nat -> head (rotated n l) = l !! n.
Proof.
  intros Hn. unfold rotated. destruct (lookup_lt_is_Some_2 l n Hn) as [x Hx]. by rewrite (drop_S _ _ _ Hx), Hx.
Qed.

(** [n] questions for one name while its records hold. *)
Fixpoint ask (n : nat) (host : string) (port : Z) (now : Instant) (lookup : Lookup) (r : DnsResolver) : list (result SocketAddr string) * DnsResolver :=
  match n with
  | O => ([], r)
  | S n =>
      let '(a, r) := resolve_addr host port now lookup r in
      let '(rest, r) := ask n host port now lookup r in
      (a :: rest, r)
  end.

Lemma resolve_cached host port now lookup r e ips :
  parse_ip host = None -> resolver_ok r -> get_cached host now r = Some e -> state e = Resolved ips ->
  let v := default 0 (counters r !! counter e) in
  0 <= v ->
  exists ip, ips !! Z.to_nat (v mod Z.of_nat (length ips)) = Some ip
    /\ resolve_addr host port now lookup r = (Ok (ip, port), (fetch_add (counter e) r).2).
Proof.
  intros Hp Hok He Hs v Hv. unfold resolve_addr, resolve_addrs. rewrite Hp, He. unfold rotate_addrs. rewrite Hs.
  assert (Hne : ips <> []).
  { intros ->. unfold get_cached in He. destruct (cache r !! host) as [e'|] eqn:E; [|done]. cbn in He. destruct (_ <? _); [|done].
    apply (inj Some) in He as ->. by apply (ro_addresses r Hok _ _ E). }
  destruct ips as [|x xs]; [done|]. remember (x :: xs) as l eqn:El. cbn [fetch_add fst snd]. fold v.
  set (n := Z.to_nat _).
  assert (Hn : (n < length l)%nat) by (unfold n; pose proof (Z.mod_pos_bound v (Z.of_nat (length l))); rewrite El in *; cbn [length] in *; lia).
  pose proof (head_rotated n l Hn) as Hh. destruct (lookup_lt_is_Some_2 l n Hn) as [ip Hip]. exists ip. split; [done|].
  rewrite Hip in Hh. destruct (rotated n l) as [|y ys]; [done|]. cbn in Hh. by apply (inj Some) in Hh as ->.
Qed.

(** While the records of a name hold, its addresses take turns. *)
Theorem addresses_take_turns (host : string) (port : Z) (now : Instant) (lookup : Lookup) (n : nat) (r : DnsResolver) (e : CachedEntry) (ips : list IpAddr) :
  parse_ip host = None -> resolver_ok r -> get_cached host now r = Some e -> state e = Resolved ips ->
  0 <= default 0 (counters r !! counter e) -> default 0 (counters r !! counter e) + Z.of_nat n < 2 ^ 64 ->
  forall i, (i < n)%nat ->
  exists ip, ips !! Z.to_nat ((default 0 (counters r !! counter e) + Z.of_nat i) mod Z.of_nat (length ips)) = Some ip
    /\ (ask n host port now lookup r).1 !! i = Some (Ok (ip, port)).
Proof.
  intros Hp. revert r. induction n as [|n IH]; intros r Hok He Hs H0 Hw i Hi; [lia|]. cbn [ask].
  destruct (resolve_cached host port now lookup r e ips Hp Hok He Hs H0) as (ip & Hip & Hr). rewrite Hr.
  set (r1 := (fetch_add (counter e) r).2) in *.
  assert (Hc : (counter e < length (counters r))%nat).
  { unfold get_cached in He. destruct (cache r !! host) as [e'|] eqn:E; [|done]. cbn in He. destruct (_ <? _); [|done].
    apply (inj Some) in He as ->. by apply (ro_cells r Hok host). }
  destruct (lookup_lt_is_Some_2 _ _ Hc) as [v Hv]. 
  assert (Ev : default 0 (counters r !! counter e) = v) by (by rewrite Hv). rewrite Ev in *.
  assert (Hv1 : default 0 (counters r1 !! counter e) = v + 1).
  { unfold r1. cbn [fetch_add snd counters]. rewrite list_lookup_alter_eq, Hv. cbn. unfold wrap64. apply Z.mod_small. change 18446744073709551616 with (2 ^ 64). lia. }
  destruct i as [|i].
  - exists ip. rewrite Z.add_0_r. split; [done|]. by destruct (ask n host port now lookup r1).
  - assert (Hok1 : resolver_ok r1) by (by apply fetch_add_ok).
    assert (Hw1 : 0 <= v + 1 /\ v + 1 + Z.of_nat n < 2 ^ 64 /\ (i < n)%nat) by lia. destruct Hw1 as (Hw1 & Hw2 & Hi').
    rewrite <-Hv1 in Hw1, Hw2. destruct (IH r1 Hok1 He Hs Hw1 Hw2 i Hi') as (ip' & H1 & H2). exists ip'.
    rewrite Hv1 in H1. split; [by replace (v + Z.of_nat (S i)) with (v + 1 + Z.of_nat i) by lia|]. by destruct (ask n host port now lookup r1).
Qed.

(** No answer comes from records that have ended, and a refresh keeps the turn. *)
Lemma cached_is_valid host now r e : get_cached host now r = Some e -> now < expires_at e.
Proof. unfold get_cached. destruct (cache r !! host); [|done]. cbn. destruct (Z.ltb_spec now (expires_at c)); [|done]. by intros [= <-]. Qed.

Lemma refresh_keeps_turn host now lookup r e :
  cache r !! host = Some e -> counter (resolve_and_cache host now lookup r).1 = counter e /\ counters (resolve_and_cache host now lookup r).2 = counters r.
Proof. intros He. unfold resolve_and_cache, insert_cache. rewrite He. by destruct lookup as [[|]|]. Qed.

Definition two_addresses : Lookup := LookupOk [V4 1; V4 2] (from_secs 60).

Example turns_example :
  let r := (resolve_addr "a.internal" 80 0 two_addresses DnsResolver_new).2 in
  (ask 3 "a.internal" 80 (from_secs 1) (LookupErr "unused") r).1 = [Ok (V4 2, 80); Ok (V4 1, 80); Ok (V4 2, 80)].
Proof. vm_compute. done. Qed.
