(* ===== verification/Udp.v ===== *)
(** * The UDP proxy

    [proxy/udp.rs]: the session of each client with an upstream server, which every packet of the
    client uses and which relays the replies.  Each packet is a task of its own
    ([handle_udp_packet] of [server/state.rs]), so tasks for one client run next to each other and
    next to a reload of the configuration.  The groups are those of [Permits.v], the names are
    resolved by [Dns.v]. *)

From stdpp Require Import strings.
From S2P Require Import Prelude Basics Net IpText Upstream Breaker Float64 GeoIp Balancer Permits Registry Dns.

Definition MAX_SESSIONS : Z := 10000.
Definition UDP_CONNECT_TIMEOUT : Duration := from_secs 5.
Definition DEFAULT_MAX_DATAGRAM_SIZE : Z := 65527.

Definition bytes : Type := list Z.

(** What the code uses of [rustls::pki_types::DnsName]: which texts are names, and equality. *)
Class DnsNames : Type := {
  dns_name_valid : string -> bool;
  dns_name_eqb : string -> string -> bool;
}.

(** ** The upstream servers of a port *)

Inductive ServerName : Type := DnsName (name : string) | IpName (ip : IpAddr).

Record Connection : Type := mkConnection { cn_name : ServerName; cn_port : Z }.

Record UpstreamServer : Type := mkUpstreamServer { us_addr : Multiaddr; us_weight : Z; us_region : option string; us_countries : list string }.

Record UdpProxy : Type := mkUdpProxy {
  upstream_servers : list UpstreamServer;
  session_idle_timeout : Duration;
  udp_max_datagram_size : Z;
  udp_load_balancing : LoadBalancing;
  udp_health_check : HealthCheck;
}.

Record UdpUpstream : Type := mkUdpUpstream {
  uu_servers : list Connection;
  uu_idle_timeout : Duration;
  uu_max_datagram_size : Z;
  uu_load_balancing : LoadBalancing;
  uu_health_check : HealthCheck;
  uu_group : option nat;
}.

Definition group_members (servers : list UpstreamServer) : list GroupServer :=
  map (fun s => mkGroupServer (Multiaddr_to_string (us_addr s)) (us_weight s) (us_region s) (us_countries s)) servers.

Definition probe_targets (servers : list UpstreamServer) : list (option (string * Z)) :=
  map (fun s => match host (us_addr s), port (us_addr s) with Ok h, Ok p => Some (h, p) | _, _ => None end) servers.

Section Upstreams.
Context `{NAMES : DnsNames}.

Definition multiaddr_to_host (a : Multiaddr) : result Connection Error :=
  match ip_addr a, host a, port a with
  | Ok ip, _, Ok port => Ok (mkConnection (IpName ip) port)
  | _, Ok host, Ok port => if dns_name_valid host then Ok (mkConnection (DnsName host) port) else Err (InvalidServerAddress a)
  | _, _, _ => Err (InvalidServerAddress a)
  end.

Fixpoint hosts_of (servers : list UpstreamServer) : result (list Connection) Error :=
  match servers with
  | [] => Ok []
  | s :: rest => let? c := multiaddr_to_host (us_addr s) in let? cs := hosts_of rest in Ok (c :: cs)
  end.

Definition server_name_eqb (a b : ServerName) : bool :=
  match a, b with
  | DnsName a, DnsName b => dns_name_eqb a b
  | IpName a, IpName b => bool_decide (a = b)
  | _, _ => false
  end.

Fixpoint same_servers (a b : list Connection) : bool :=
  match a, b with
  | [], [] => true
  | x :: a, y :: b => server_name_eqb (cn_name x) (cn_name y) && (cn_port x =? cn_port y) && same_servers a b
  | _, _ => false
  end.

Definition same_group (a b : option nat) : bool := bool_decide (a = b).

Definition UdpUpstream_same_settings (a b : UdpUpstream) : bool :=
  same_servers (uu_servers a) (uu_servers b) && same_group (uu_group a) (uu_group b)
  && (uu_idle_timeout a =? uu_idle_timeout b) && (uu_max_datagram_size a =? uu_max_datagram_size b)
  && bool_decide (uu_load_balancing a = uu_load_balancing b) && bool_decide (uu_health_check a = uu_health_check b).
End Upstreams.

Definition UdpUpstream_default : UdpUpstream :=
  mkUdpUpstream [] DEFAULT_SESSION_IDLE_TIMEOUT DEFAULT_MAX_DATAGRAM_SIZE RoundRobin HealthCheck_default None.

(** ** Sessions *)

(** [Relaying]: the reply task runs; [Aborted]: the session is dropped, and its task stops at its
    next turn; [Finished]: the task has ended. *)
Inductive TaskState : Type := Relaying | Aborted | Finished.

#[export] Instance TaskState_eq_dec : EqDecision TaskState. Proof. solve_decision. Defined.

Record UdpSession : Type := mkUdpSession {
  us_client : SocketAddr;
  us_server : SocketAddr;
  us_group : nat;
  us_index : nat;
  us_max : Z;
  us_started : Instant;
  us_last_active_ms : Z;
  us_idle : Duration;
  us_task : TaskState;
}.

Definition set_task (t : TaskState) (s : UdpSession) : UdpSession :=
  mkUdpSession (us_client s) (us_server s) (us_group s) (us_index s) (us_max s) (us_started s) (us_last_active_ms s) (us_idle s) t.

(** The times of [Activity]. *)
Definition idle_time (now : Instant) (s : UdpSession) : Duration :=
  sat_sub (duration_since now (us_started s)) (from_millis (us_last_active_ms s)).

Definition remaining (now : Instant) (s : UdpSession) : Duration := sat_sub (us_idle s) (idle_time now s).

Definition touch (now : Instant) (s : UdpSession) : UdpSession :=
  mkUdpSession (us_client s) (us_server s) (us_group s) (us_index s) (us_max s) (us_started s)
    (Z.min (duration_since now (us_started s) / 1000000) u64_max) (us_idle s) (us_task s).

(** ** The state of a port

    [Forward] is the task of one packet, with the upstream that it took along. *)
Inductive Phase : Type :=
| PCheck
| PRetain
| PCount
| PTry (candidates : list nat)
| PResolve (index : nat) (rest : list nat) (started : Instant)
| PInsert (session : nat)
| PGet
| PSend (session : nat).

Record Forward : Type := mkForward { f_client : SocketAddr; f_data : bytes; f_upstream : UdpUpstream; f_phase : Phase }.

Definition at_phase (p : Phase) (f : Forward) : Forward := mkForward (f_client f) (f_data f) (f_upstream f) p.

(** What leaves the proxy: a packet to the server of a session, and a reply to a client. *)
Inductive Sent : Type :=
| ToServer (session : nat) (client : SocketAddr) (payload : bytes)
| ToClient (session : nat) (client : SocketAddr) (payload : bytes).

Record UdpWorld : Type := mkUdpWorld {
  uw_groups : World;
  uw_dns : DnsResolver;
  uw_upstream : UdpUpstream;
  uw_table : gmap SocketAddr nat;
  uw_sessions : list UdpSession;
  uw_tasks : list Forward;
  uw_leases : Z;
  uw_sent : list Sent;
}.

Definition set_groups (f : World -> World) (w : UdpWorld) : UdpWorld :=
  mkUdpWorld (f (uw_groups w)) (uw_dns w) (uw_upstream w) (uw_table w) (uw_sessions w) (uw_tasks w) (uw_leases w) (uw_sent w).
Definition set_dns (d : DnsResolver) (w : UdpWorld) : UdpWorld :=
  mkUdpWorld (uw_groups w) d (uw_upstream w) (uw_table w) (uw_sessions w) (uw_tasks w) (uw_leases w) (uw_sent w).
Definition set_upstream (u : UdpUpstream) (w : UdpWorld) : UdpWorld :=
  mkUdpWorld (uw_groups w) (uw_dns w) u (uw_table w) (uw_sessions w) (uw_tasks w) (uw_leases w) (uw_sent w).
Definition set_table (f : gmap SocketAddr nat -> gmap SocketAddr nat) (w : UdpWorld) : UdpWorld :=
  mkUdpWorld (uw_groups w) (uw_dns w) (uw_upstream w) (f (uw_table w)) (uw_sessions w) (uw_tasks w) (uw_leases w) (uw_sent w).
Definition set_sessions (f : list UdpSession -> list UdpSession) (w : UdpWorld) : UdpWorld :=
  mkUdpWorld (uw_groups w) (uw_dns w) (uw_upstream w) (uw_table w) (f (uw_sessions w)) (uw_tasks w) (uw_leases w) (uw_sent w).
Definition set_tasks (l : list Forward) (w : UdpWorld) : UdpWorld :=
  mkUdpWorld (uw_groups w) (uw_dns w) (uw_upstream w) (uw_table w) (uw_sessions w) l (uw_leases w) (uw_sent w).
Definition set_leases (f : Z -> Z) (w : UdpWorld) : UdpWorld :=
  mkUdpWorld (uw_groups w) (uw_dns w) (uw_upstream w) (uw_table w) (uw_sessions w) (uw_tasks w) (f (uw_leases w)) (uw_sent w).
Definition log_sent (e : Sent) (w : UdpWorld) : UdpWorld :=
  mkUdpWorld (uw_groups w) (uw_dns w) (uw_upstream w) (uw_table w) (uw_sessions w) (uw_tasks w) (uw_leases w) (uw_sent w ++ [e]).

Definition on_session (sid : nat) (f : UdpSession -> UdpSession) : UdpWorld -> UdpWorld := set_sessions (vec_update f sid).

(** [is_open]: the reply task has not ended. *)
Definition is_open (w : UdpWorld) (sid : nat) : bool :=
  match uw_sessions w !! sid with Some s => negb (bool_decide (us_task s = Finished)) | None => false end.

(** [drop] of a session aborts its task. *)
Definition abort (s : UdpSession) : UdpSession := if bool_decide (us_task s = Relaying) then set_task Aborted s else s.

Definition drop_session (sid : nat) (w : UdpWorld) : UdpWorld := on_session sid abort w.

(** The end of a reply task gives its lease back. *)
Definition finish_task (sid : nat) (w : UdpWorld) : UdpWorld := set_leases (fun n => wrap64 (n - 1)) (on_session sid (set_task Finished) w).

Definition report_session (sid : nat) (now : Instant) (r : result unit string) (w : UdpWorld) : UdpWorld :=
  match uw_sessions w !! sid with
  | Some s =>
      set_groups (on_group (us_group s) (match r with Ok _ => report_success (us_index s) | Err e => report_failure (us_index s) e now end)) w
  | None => w
  end.

(** [&data[..max]] of longer data. *)
Definition cut (max : Z) (data : bytes) : bytes := take (Z.to_nat max) data.

(** ** The task of a packet

    What the outside world does at one turn of a task: the clock, the random draws of the policy,
    the answer of the name server ([None] when the deadline passes), and what the calls on the
    sockets return. *)
Record TurnInput : Type := mkTurnInput {
  ti_now : Instant;
  ti_draws : list f64;
  ti_lookup : option Lookup;
  ti_opened : result unit string;
  ti_sent : result unit string;
}.

Section Machine.
Context `{NAMES : DnsNames}.
Context (fnv_finish : list (list Z) -> Z) (f64_ln : f64 -> f64) (f64_powf : f64 -> f64 -> f64).

Definition server_host (n : ServerName) : string := match n with DnsName name => name | IpName ip => ip_to_string ip end.

(** [resolve] with its deadline. *)
Definition resolve (server : Connection) (i : TurnInput) (w : UdpWorld) : option SocketAddr * UdpWorld :=
  match ti_lookup i with
  | None => (None, w)
  | Some lookup =>
      let '(r, d) := resolve_addr (server_host (cn_name server)) (cn_port server) (ti_now i) lookup (uw_dns w) in
      (match r with Ok a => Some a | Err _ => None end, set_dns d w)
  end.

(** [group.candidates(client.ip())] of the group at [gid]. *)
Definition group_candidates (gid : nat) (client : IpAddr) (i : TurnInput) (w : UdpWorld) : list nat * UdpWorld :=
  match w_groups (uw_groups w) !! gid with
  | Some g =>
      let '(cs, g) := candidates fnv_finish f64_ln f64_powf g
                        (mkObservation (w_conns (uw_groups w)) (w_metrics (uw_groups w)) (ti_draws i)) (ti_now i) client in
      (cs, set_groups (on_group gid (fun _ => g)) w)
  | None => ([], w)
  end.

Definition report_at (u : UdpUpstream) (index : nat) (now : Instant) (error : string) (w : UdpWorld) : UdpWorld :=
  match uu_group u with
  | Some gid => set_groups (on_group gid (report_failure index error now)) w
  | None => w
  end.

(** The rest of [open_server_session]: the socket, and the session with its reply task. *)
Definition open_at (f : Forward) (index gid : nat) (rest : list nat) (started : Instant) (server : SocketAddr) (i : TurnInput) (w : UdpWorld)
  : option Phase * UdpWorld :=
  match ti_opened i with
  | Err e => (Some (PTry rest), report_at (f_upstream f) index (ti_now i) e w)
  | Ok _ =>
      let session := mkUdpSession (f_client f) server gid index (uu_max_datagram_size (f_upstream f)) started 0
                       (uu_idle_timeout (f_upstream f)) Relaying in
      (Some (PInsert (length (uw_sessions w))), set_leases (fun n => wrap64 (n + 1)) (set_sessions (fun l => l ++ [session]) w))
  end.

(** One turn of [forward], up to the next point where another task can run: the phase in which
    the task goes on, or its end. *)
Definition turn (f : Forward) (i : TurnInput) (w : UdpWorld) : option Phase * UdpWorld :=
  match f_phase f with
  | PCheck =>
      (Some (match uw_table w !! f_client f with
             | Some sid => if is_open w sid then PGet else PRetain
             | None => PRetain
             end), w)
  | PRetain => (Some PCount, set_table (filter (fun e => is_open w e.2 = true)) w)
  | PCount =>
      if MAX_SESSIONS <=? Z.of_nat (size (uw_table w)) then (None, w)
      else match uu_group (f_upstream f) with
           | None => (None, w)
           | Some gid => let '(cs, w) := group_candidates gid (f_client f).1 i w in (Some (PTry (take 2 cs)), w)
           end
  | PTry [] => (None, w)
  | PTry (index :: rest) =>
      (Some (match uu_servers (f_upstream f) !! index with Some _ => PResolve index rest (ti_now i) | None => PTry rest end), w)
  | PResolve index rest started =>
      match uu_servers (f_upstream f) !! index, uu_group (f_upstream f) with
      | Some server, Some gid =>
          match resolve server i w with
          | (None, w) => (Some (PTry rest), report_at (f_upstream f) index (ti_now i) "failed to resolve the upstream server" w)
          | (Some a, w) => open_at f index gid rest started a i w
          end
      | _, _ => (None, w)
      end
  | PInsert sid =>
      let w := match uw_table w !! f_client f with Some old => drop_session old w | None => w end in
      (Some PGet, set_table (insert (f_client f) sid) w)
  | PGet =>
      match uw_table w !! f_client f with
      | Some sid => (Some (PSend sid), on_session sid (touch (ti_now i)) w)
      | None => (None, w)
      end
  | PSend sid =>
      match ti_sent i with
      | Ok _ => (None, log_sent (ToServer sid (f_client f) (cut (uu_max_datagram_size (f_upstream f)) (f_data f))) w)
      | Err e => (None, report_session sid (ti_now i) (Err e) w)
      end
  end.

(** The turn of a task among the others. *)
Definition resume (l1 : list Forward) (f : Forward) (l2 : list Forward) (i : TurnInput) (w : UdpWorld) : UdpWorld :=
  let '(next, w) := turn f i w in
  set_tasks (l1 ++ match next with Some p => at_phase p f :: l2 | None => l2 end) w.

(** [handle_udp_packet]: the packet takes the upstream of the moment along. *)
Definition packet (client : SocketAddr) (data : bytes) (w : UdpWorld) : UdpWorld :=
  set_tasks (uw_tasks w ++ [mkForward client data (uw_upstream w) PCheck]) w.

(** ** The reply task of a session *)

Inductive RelayEvent : Type :=
| Reply (data : bytes)
| RecvError (e : string)
| Waited.

(** One turn of [relay_replies]. *)
Definition relay (sid : nat) (now : Instant) (e : RelayEvent) (w : UdpWorld) : UdpWorld :=
  match uw_sessions w !! sid with
  | None => w
  | Some s =>
      match e with
      | Reply data =>
          log_sent (ToClient sid (us_client s) (cut (us_max s) data))
            (report_session sid now (Ok tt) (on_session sid (touch now) w))
      | RecvError err => finish_task sid (report_session sid now (Err err) w)
      | Waited => if is_zero (remaining now s) then finish_task sid w else w
      end
  end.

(** ** Configuration *)

(** Every session that the table held is dropped. *)
Definition clear_sessions (w : UdpWorld) : UdpWorld :=
  set_table (fun _ => ∅) (fold_left (fun w e => drop_session e.2 w) (map_to_list (uw_table w)) w).

(** [UdpUpstream::from_proxies]: the first proxy of the port that has a server. *)
Fixpoint from_proxies (alive : nat -> bool) (proxies : list (ShortId * option UdpProxy)) (entries : gmap GroupKey nat) (u : UdpUpstream) (g : World)
  : result UdpUpstream Error * gmap GroupKey nat * World :=
  match proxies with
  | [] => (Ok u, entries, g)
  | (_, None) :: rest => from_proxies alive rest entries u g
  | (id, Some p) :: rest =>
      match hosts_of (upstream_servers p) with
      | Err e => (Err e, entries, g)
      | Ok hosts =>
          if is_some (uu_group u) || bool_decide (hosts = []) then from_proxies alive rest entries u g
          else
            let '(gid, _, g, entries) :=
              registry_group alive entries (id, None) (group_members (upstream_servers p)) (udp_load_balancing p) (udp_health_check p)
                CircuitBreaker_default (ProbeResolve (probe_targets (upstream_servers p))) g in
            from_proxies alive rest entries
              (mkUdpUpstream hosts (session_idle_timeout p) (udp_max_datagram_size p) (udp_load_balancing p) (udp_health_check p) (Some gid)) g
      end
  end.

Definition setup (alive : nat -> bool) (proxies : list (ShortId * option UdpProxy))
    (entries : gmap GroupKey nat) (w : UdpWorld) : result unit Error * gmap GroupKey nat * UdpWorld :=
  let '(r, entries, g) := from_proxies alive proxies entries UdpUpstream_default (uw_groups w) in
  let w := set_groups (fun _ => g) w in
  match r with
  | Err e => (Err e, entries, w)
  | Ok u => (Ok tt, entries, if UdpUpstream_same_settings u (uw_upstream w) then w else clear_sessions (set_upstream u w))
  end.

(** ** The steps of a port *)

Inductive udp_step : UdpWorld -> UdpWorld -> Prop :=
| step_packet client data w : udp_step w (packet client data w)
| step_turn l1 f l2 i w : uw_tasks w = l1 ++ f :: l2 -> udp_step w (resume l1 f l2 i w)
| step_relay sid now e w : is_open w sid = true -> udp_step w (relay sid now e w)
| step_stop sid s w : uw_sessions w !! sid = Some s -> us_task s = Aborted -> udp_step w (finish_task sid w)
| step_setup alive proxies entries w : udp_step w (setup alive proxies entries w).2
| step_reset w : udp_step w (clear_sessions w)
| step_groups g w : udp_step w (set_groups (fun _ => g) w).

End Machine.

(** ** The invariant *)

Definition running (s : UdpSession) : bool := negb (bool_decide (us_task s = Finished)).

Definition belongs (w : UdpWorld) (sid : nat) (c : SocketAddr) : Prop := exists s, uw_sessions w !! sid = Some s /\ us_client s = c.

Definition task_ok (w : UdpWorld) (f : Forward) : Prop :=
  match f_phase f with
  | PInsert sid | PSend sid => belongs w sid (f_client f)
  | _ => True
  end.

Definition sent_ok (w : UdpWorld) (e : Sent) : Prop :=
  match e with ToServer sid c _ | ToClient sid c _ => belongs w sid c end.

(** The invariant, with the tasks [ts]. *)
Record udp_inv (ts : list Forward) (w : UdpWorld) : Prop := {
  ui_owner c sid : uw_table w !! c = Some sid -> belongs w sid c;
  ui_tasks : Forall (task_ok w) ts;
  ui_leases : uw_leases w = wrap64 (count running (uw_sessions w));
  ui_held sid s : uw_sessions w !! sid = Some s -> us_task s = Relaying ->
    uw_table w !! us_client s = Some sid \/ exists f, f ∈ ts /\ f_phase f = PInsert sid;
  ui_sent : Forall (sent_ok w) (uw_sent w);
}.

(** The parts of the world that the invariant reads. *)
Definition same_core (w w' : UdpWorld) : Prop :=
  uw_table w' = uw_table w /\ uw_sessions w' = uw_sessions w /\ uw_leases w' = uw_leases w /\ uw_sent w' = uw_sent w.

Lemma belongs_core w w' sid c : uw_sessions w' = uw_sessions w -> belongs w sid c -> belongs w' sid c.
Proof. unfold belongs. by intros ->. Qed.

Lemma inv_core ts w w' : same_core w w' -> udp_inv ts w -> udp_inv ts w'.
Proof.
  intros (E1 & E2 & E3 & E4) [H1 H2 H3 H4 H5]. split.
  - rewrite E1. intros c sid H. apply (belongs_core w); [done|by apply H1].
  - eapply Forall_impl; [exact H2|]. intros f. unfold task_ok. destruct (f_phase f); try done; by apply belongs_core.
  - by rewrite E3, E2.
  - rewrite E1, E2. exact H4.
  - rewrite E4. eapply Forall_impl; [exact H5|]. intros e. unfold sent_ok. destruct e; by apply belongs_core.
Qed.

(** Another list of tasks that still holds what the first one holds. *)
Lemma inv_tasks ts ts' w :
  Forall (task_ok w) ts' -> (forall f sid, f ∈ ts -> f_phase f = PInsert sid -> exists f', f' ∈ ts' /\ f_phase f' = PInsert sid) ->
  udp_inv ts w -> udp_inv ts' w.
Proof.
  intros Hok Hheld [H1 H2 H3 H4 H5]. split; try done. intros sid s Hs Ht. destruct (H4 sid s Hs Ht) as [|(f & Hf & Hp)]; [by left|right].
  by apply (Hheld f).
Qed.

(** A session that changes but keeps its client. *)
Lemma belongs_update w sid f sid' c : (forall s, us_client (f s) = us_client s) -> belongs w sid' c -> belongs (on_session sid f w) sid' c.
Proof.
  intros Hf (s & Hs & Hc). unfold belongs. cbn. unfold vec_update. destruct (decide (sid = sid')) as [->|Hne].
  - exists (f s). rewrite list_lookup_alter_eq, Hs. by rewrite Hf.
  - exists s. by rewrite list_lookup_alter_ne.
Qed.

Lemma count_update f sid l s :
  l !! sid = Some s -> count running (vec_update f sid l) = count running l - (if running s then 1 else 0) + (if running (f s) then 1 else 0).
Proof.
  revert sid. induction l as [|x l IH]; intros [|sid] H; cbn in *; [done|done| |].
  - apply (inj Some) in H as ->. lia.
  - specialize (IH sid H). unfold vec_update in IH. lia.
Qed.

Lemma vec_update_none {A} (f : A -> A) i l : l !! i = None -> vec_update f i l = l.
Proof.
  intros H. apply list_eq. intros j. unfold vec_update. destruct (decide (i = j)) as [<-|Hne].
  - by rewrite list_lookup_alter_eq, H.
  - by rewrite list_lookup_alter_ne.
Qed.

Lemma inv_update ts w sid f :
  (forall s, us_client (f s) = us_client s) ->
  (forall s, uw_sessions w !! sid = Some s -> running (f s) = running s /\ (us_task (f s) = Relaying -> us_task s = Relaying)) ->
  udp_inv ts w -> udp_inv ts (on_session sid f w).
Proof.
  intros Hc Hr [H1 H2 H3 H4 H5]. split; cbn.
  - intros c sid' H. apply belongs_update; [done|by apply H1].
  - eapply Forall_impl; [exact H2|]. intros t. unfold task_ok. destruct (f_phase t); try done; by apply belongs_update.
  - rewrite H3. f_equal. destruct (uw_sessions w !! sid) as [s|] eqn:Es.
    + rewrite (count_update f sid _ s Es). destruct (Hr s eq_refl) as [-> _]. lia.
    + by rewrite vec_update_none.
  - intros sid' s Hs Ht. unfold vec_update in Hs. destruct (decide (sid = sid')) as [<-|Hne].
    + rewrite list_lookup_alter_eq in Hs. destruct (uw_sessions w !! sid) as [s0|] eqn:E0; [|done]. cbn in Hs. apply (inj Some) in Hs as <-.
      rewrite Hc. destruct (Hr s0 eq_refl) as [_ Hrel]. apply (H4 sid s0 E0). by apply Hrel.
    + rewrite list_lookup_alter_ne in Hs by done. by apply (H4 sid' s).
  - eapply Forall_impl; [exact H5|]. intros e. unfold sent_ok. destruct e; by apply belongs_update.
Qed.

(** A session that is dropped is no longer in the table. *)
Lemma abort_client s : us_client (abort s) = us_client s.
Proof. unfold abort. by destruct (bool_decide _). Qed.

Lemma abort_running s : running (abort s) = running s /\ us_task (abort s) <> Relaying.
Proof.
  destruct s as [????????[| |]]; split; vm_compute; done.
Qed.

Lemma inv_drop ts w sid : udp_inv ts w -> udp_inv ts (drop_session sid w).
Proof.
  apply inv_update; [apply abort_client|]. intros s _. destruct (abort_running s) as [H1 H2]. done.
Qed.

(** After the drop, a table without the session holds what must be held. *)
Lemma drop_not_relaying sid w s : uw_sessions (drop_session sid w) !! sid = Some s -> us_task s <> Relaying.
Proof.
  cbn. unfold vec_update. rewrite list_lookup_alter_eq. destruct (uw_sessions w !! sid) as [s0|]; [|done]. cbn. intros [= <-]. apply abort_running.
Qed.

(** A table that loses only sessions whose task is not relaying. *)
Lemma inv_table ts w f :
  (forall c sid, f (uw_table w) !! c = Some sid -> uw_table w !! c = Some sid) ->
  (forall c sid s, uw_table w !! c = Some sid -> uw_sessions w !! sid = Some s -> us_task s = Relaying -> f (uw_table w) !! c = Some sid) ->
  udp_inv ts w -> udp_inv ts (set_table f w).
Proof.
  intros Hsub Hkeep [H1 H2 H3 H4 H5]. split; cbn; try done.
  - intros c sid H. apply (belongs_core w); [done|]. by apply H1, Hsub.
  - intros sid s Hs Ht. destruct (H4 sid s Hs Ht) as [H|H]; [|by right]. left. by apply (Hkeep _ sid s).
Qed.

Lemma finish_inv ts w sid s :
  uw_sessions w !! sid = Some s -> us_task s <> Finished -> udp_inv ts w -> udp_inv ts (finish_task sid w).
Proof.
  intros Hs Hn [H1 H2 H3 H4 H5].
  assert (Hb : forall sid' c, belongs w sid' c -> belongs (finish_task sid w) sid' c).
  { intros sid' c. change (belongs (finish_task sid w) sid' c) with (belongs (on_session sid (set_task Finished) w) sid' c). by apply belongs_update. }
  split; cbn.
  - intros c sid' H. by apply Hb, H1.
  - eapply Forall_impl; [exact H2|]. intros t. unfold task_ok. destruct (f_phase t); try done; apply Hb.
  - assert (R1 : running s = true) by (unfold running; by rewrite bool_decide_false).
    assert (R2 : running (set_task Finished s) = false) by done.
    rewrite (count_update _ sid _ s Hs), H3, R1, R2. unfold wrap64. rewrite Zminus_mod_idemp_l. f_equal. lia.
  - intros sid' s' Hs' Ht. unfold vec_update in Hs'. destruct (decide (sid = sid')) as [<-|Hne].
    + rewrite list_lookup_alter_eq, Hs in Hs'. cbn in Hs'. apply (inj Some) in Hs' as <-. done.
    + rewrite list_lookup_alter_ne in Hs' by done. by apply (H4 sid' s').
  - eapply Forall_impl; [exact H5|]. intros e. unfold sent_ok. destruct e; apply Hb.
Qed.

Lemma log_inv ts w e : sent_ok w e -> udp_inv ts w -> udp_inv ts (log_sent e w).
Proof.
  intros He [H1 H2 H3 H4 H5]. split; cbn; try done. apply Forall_app. split; [|by constructor].
  eapply Forall_impl; [exact H5|]. intros x. unfold sent_ok. by destruct x.
Qed.

Lemma groups_core f w : same_core w (set_groups f w). Proof. by split_and!. Qed.
Lemma report_core sid now r w : same_core w (report_session sid now r w).
Proof. unfold report_session. destruct (uw_sessions w !! sid); [apply groups_core|by split_and!]. Qed.
Lemma report_at_core u index now e w : same_core w (report_at u index now e w).
Proof. unfold report_at. destruct (uu_group u); [apply groups_core|by split_and!]. Qed.

Lemma relay_inv ts w sid now e : is_open w sid = true -> udp_inv ts w -> udp_inv ts (relay sid now e w).
Proof.
  unfold is_open, relay. destruct (uw_sessions w !! sid) as [s|] eqn:Es; [|done]. rewrite negb_true_iff. intros Ho Hi.
  apply bool_decide_eq_false in Ho. destruct e as [data|err|].
  - apply log_inv.
    + unfold sent_ok. apply (belongs_core (on_session sid (touch now) w)); [by destruct (report_core sid now (Ok tt) (on_session sid (touch now) w)) as (_ & ? & _)|].
      apply belongs_update; [done|]. by exists s.
    + eapply inv_core; [apply report_core|]. apply inv_update; [done|done|done].
  - destruct (report_core sid now (Err err) w) as (E1 & E2 & E3 & E4).
    apply (finish_inv _ _ sid s); [by rewrite E2|done|]. eapply inv_core; [|done]. by split_and!.
  - destruct (is_zero _); [|done]. by apply (finish_inv _ _ sid s).
Qed.

Lemma clear_inv ts w : udp_inv ts w -> udp_inv ts (clear_sessions w).
Proof.
  intros Hi. unfold clear_sessions. set (l := map_to_list (uw_table w)).
  set (w' := fold_left (fun w e => drop_session e.2 w) l w).
  assert (Hf : forall l w0, udp_inv ts w0 -> udp_inv ts (fold_left (fun w e => drop_session e.2 w) l w0)
     /\ uw_table (fold_left (fun w e => drop_session e.2 w) l w0) = uw_table w0
     /\ forall sid s, uw_sessions (fold_left (fun w (e : SocketAddr * nat) => drop_session e.2 w) l w0) !! sid = Some s -> us_task s = Relaying ->
          (exists s0, uw_sessions w0 !! sid = Some s0 /\ us_task s0 = Relaying) /\ forall c, (c, sid) ∉ l).
  { clear. induction l as [|[c0 x] l IH]; intros w0 H0; cbn [fold_left].
    - split_and!; try done. intros sid s Hs Ht. split; [by exists s|]. intros c. apply not_elem_of_nil.
    - destruct (IH (drop_session x w0) (inv_drop _ _ _ H0)) as (I1 & I2 & I3). split; [exact I1|]. split; [exact I2|].
      intros sid s Hs Ht. destruct (I3 sid s Hs Ht) as ((s1 & Hs1 & Ht1) & Hl).
      destruct (decide (x = sid)) as [->|Hne]; [by destruct (drop_not_relaying sid w0 s1 Hs1)|]. split.
      + exists s1. split; [|done]. cbn in Hs1. unfold vec_update in Hs1. by rewrite list_lookup_alter_ne in Hs1.
      + intros c. rewrite not_elem_of_cons. split; [by intros [= _ ->]|apply Hl]. }
  destruct (Hf l w Hi) as (I1 & I2 & I3). fold w' in I1, I2, I3.
  apply inv_table; [intros c sid; by rewrite lookup_empty| |done].
  intros c sid s Hc Hs Ht. rewrite I2 in Hc. destruct (I3 sid s Hs Ht) as [_ Hl]. destruct (Hl c). by apply elem_of_map_to_list.
Qed.

(** ** The turns of a task *)

Definition next_tasks (l1 : list Forward) (f : Forward) (next : option Phase) (l2 : list Forward) : list Forward :=
  l1 ++ match next with Some p => at_phase p f :: l2 | None => l2 end.

Lemma replace_task l1 f l2 next w :
  (forall sid, f_phase f <> PInsert sid) -> match next with Some p => task_ok w (at_phase p f) | None => True end ->
  udp_inv (l1 ++ f :: l2) w -> udp_inv (next_tasks l1 f next l2) w.
Proof.
  intros Hf Hn Hi. pose proof (ui_tasks _ _ Hi) as Ht. apply Forall_app in Ht as [Ht1 Ht2]. apply Forall_cons in Ht2 as [_ Ht2].
  apply (inv_tasks (l1 ++ f :: l2)); [| |done]; unfold next_tasks.
  - apply Forall_app. split; [done|]. destruct next; [by constructor|done].
  - intros f0 sid H0 Hp. exists f0. split; [|done]. rewrite elem_of_app, elem_of_cons in H0. rewrite elem_of_app.
    destruct H0 as [H0|[->|H0]]; [by left|by destruct (Hf sid)|right]. destruct next; [by right|done].
Qed.

Section Turns.
Context `{NAMES : DnsNames}.
Context (fnv_finish : list (list Z) -> Z) (f64_ln : f64 -> f64) (f64_powf : f64 -> f64 -> f64).

#[local] Abbreviation turn := (turn fnv_finish f64_ln f64_powf).
#[local] Abbreviation group_candidates := (group_candidates fnv_finish f64_ln f64_powf).

Lemma candidates_core gid c i w : same_core w (group_candidates gid c i w).2.
Proof.
  unfold group_candidates. destruct (w_groups (uw_groups w) !! gid) as [g|]; [|by split_and!].
  destruct (candidates _ _ _ _ _ _ _) as [cs g']. apply groups_core.
Qed.

Lemma resolve_core server i w : same_core w (resolve server i w).2.
Proof. unfold resolve. destruct (ti_lookup i); [|by split_and!]. destruct (resolve_addr _ _ _ _ _). by split_and!. Qed.

Lemma push_inv l1 f l2 s w :
  us_client s = f_client f -> us_task s = Relaying -> (forall sid, f_phase f <> PInsert sid) -> udp_inv (l1 ++ f :: l2) w ->
  udp_inv (next_tasks l1 f (Some (PInsert (length (uw_sessions w)))) l2) (set_leases (fun n => wrap64 (n + 1)) (set_sessions (fun l => l ++ [s]) w)).
Proof.
  intros Hc Ht Hf Hi. set (w' := set_leases _ _).
  assert (Hb : forall sid c, belongs w sid c -> belongs w' sid c).
  { intros sid c (s0 & Hs0 & <-). exists s0. split; [|done]. cbn. by apply lookup_app_l_Some. }
  assert (Hnew : belongs w' (length (uw_sessions w)) (f_client f)).
  { exists s. split; [|done]. cbn. by rewrite lookup_app_r, Nat.sub_diag by lia. }
  destruct Hi as [H1 H2 H3 H4 H5]. apply Forall_app in H2 as [Ht1 Ht2]. apply Forall_cons in Ht2 as [_ Ht2].
  assert (Hok : forall t, task_ok w t -> task_ok w' t) by (intros t; unfold task_ok; destruct (f_phase t); try done; apply Hb).
  split.
  - intros c sid H. apply Hb, H1. exact H.
  - unfold next_tasks. apply Forall_app. split; [by eapply Forall_impl; [exact Ht1|apply Hok]|]. constructor; [exact Hnew|].
    by eapply Forall_impl; [exact Ht2|apply Hok].
  - cbn. rewrite count_app, H3. cbn [count]. unfold running at 3. rewrite Ht. cbn. unfold wrap64. rewrite Zplus_mod_idemp_l. f_equal.
  - intros sid s' Hs' Ht'. cbn in Hs'. apply lookup_app_Some in Hs' as [Hs'|[Hl Hs']].
    + destruct (H4 sid s' Hs' Ht') as [H|(f0 & H0 & Hp)]; [by left|right]. exists f0. split; [|done]. unfold next_tasks.
      rewrite elem_of_app, elem_of_cons in H0. rewrite elem_of_app, elem_of_cons. destruct H0 as [H0|[->|H0]]; [by left|by destruct (Hf sid)|by right; right].
    + right. exists (at_phase (PInsert (length (uw_sessions w))) f). split; [unfold next_tasks; rewrite elem_of_app; right; apply elem_of_cons; by left|].
      cbn. f_equal. destruct (sid - length (uw_sessions w))%nat as [|n] eqn:En; [lia|]. by destruct n.
  - eapply Forall_impl; [exact H5|]. intros e. unfold sent_ok. destruct e; apply Hb.
Qed.

(** The insertion of a session: it is in the table, and what it replaces is dropped. *)
Lemma insert_inv l1 f l2 sid w :
  f_phase f = PInsert sid -> udp_inv (l1 ++ f :: l2) w ->
  udp_inv (next_tasks l1 f (Some PGet) l2)
    (set_table (insert (f_client f) sid) (match uw_table w !! f_client f with Some old => drop_session old w | None => w end)).
Proof.
  intros Hp Hi. set (w1 := match uw_table w !! f_client f with Some _ => _ | None => _ end).
  assert (Hi1 : udp_inv (l1 ++ f :: l2) w1) by (unfold w1; destruct (uw_table w !! f_client f); [by apply inv_drop|done]).
  assert (Et : uw_table w1 = uw_table w) by (unfold w1; by destruct (uw_table w !! f_client f)).
  assert (Hold : forall old s, uw_table w !! f_client f = Some old -> uw_sessions w1 !! old = Some s -> us_task s <> Relaying).
  { intros old s Ho. unfold w1. rewrite Ho. apply drop_not_relaying. }
  destruct Hi1 as [H1 H2 H3 H4 H5]. apply Forall_app in H2 as [Ht1 Ht2]. apply Forall_cons in Ht2 as [Hfok Ht2].
  unfold task_ok in Hfok. rewrite Hp in Hfok. split; cbn; try done.
  - intros c sid' H. destruct (decide (f_client f = c)) as [<-|Hne].
    + rewrite lookup_insert_eq in H. apply (inj Some) in H as <-. exact Hfok.
    + rewrite lookup_insert_ne in H by done. by apply H1.
  - unfold next_tasks. apply Forall_app. split; [done|]. by constructor.
  - intros sid' s Hs Ht. destruct (H4 sid' s Hs Ht) as [H|(f0 & H0 & Hp0)].
    + left. destruct (decide (f_client f = us_client s)) as [E|Hne]; [|by rewrite lookup_insert_ne].
      rewrite <-E, Et in H. by destruct (Hold sid' s H Hs).
    + unfold next_tasks. rewrite elem_of_app, elem_of_cons in H0. destruct H0 as [H0|[->|H0]].
      * right. exists f0. split; [|done]. rewrite elem_of_app. by left.
      * rewrite Hp in Hp0. injection Hp0 as <-. left. destruct Hfok as (s0 & Hs0 & Hc0). rewrite Hs in Hs0. apply (inj Some) in Hs0 as <-.
        rewrite Hc0. by rewrite lookup_insert_eq.
      * right. exists f0. split; [|done]. rewrite elem_of_app, elem_of_cons. by right; right.
Qed.

Lemma turn_inv l1 f l2 i w :
  udp_inv (l1 ++ f :: l2) w -> udp_inv (next_tasks l1 f (turn f i w).1 l2) (turn f i w).2.
Proof.
  intros Hi. unfold turn, Udp.turn. destruct (f_phase f) as [| | |cs|index rest started|sid| |sid] eqn:Hp.
  - apply replace_task; [by rewrite Hp| |done]. cbn. destruct (uw_table w !! f_client f); [destruct (is_open w _)|]; done.
  - apply replace_task; [by rewrite Hp|done|]. apply inv_table; [| |done].
    + intros c sid. rewrite map_lookup_filter_Some. by intros [].
    + intros c sid s Hc Hs Ht. rewrite map_lookup_filter_Some. split; [done|]. cbn. unfold is_open. rewrite Hs, Ht. done.
  - destruct (MAX_SESSIONS <=? _); [by apply replace_task; [by rewrite Hp|done|done]|].
    destruct (uu_group (f_upstream f)) as [gid|]; [|by apply replace_task; [by rewrite Hp|done|done]].
    pose proof (candidates_core gid (f_client f).1 i w) as Hc. destruct (group_candidates _ _ _ _) as [cs w1]. cbn in Hc.
    apply replace_task; [by rewrite Hp|done|]. by eapply inv_core.
  - destruct cs as [|index rest]; [by apply replace_task; [by rewrite Hp|done|done]|].
    apply replace_task; [by rewrite Hp| |done]. cbn. by destruct (uu_servers _ !! index).
  - assert (Hf : forall sid, f_phase f <> PInsert sid) by (by rewrite Hp).
    destruct (uu_servers _ !! index) as [server|]; [|by apply replace_task].
    destruct (uu_group _) as [gid|]; [|by apply replace_task].
    pose proof (resolve_core server i w) as Hr. destruct (resolve server i w) as [[a|] w1]; cbn in Hr.
    + assert (Hi1 : udp_inv (l1 ++ f :: l2) w1) by (by eapply inv_core). unfold open_at. destruct (ti_opened i) as [u|e].
      * by apply push_inv.
      * apply replace_task; [done|done|]. eapply inv_core; [apply report_at_core|done].
    + apply replace_task; [done|done|]. eapply inv_core; [apply report_at_core|]. by eapply inv_core.
  - by apply insert_inv.
  - destruct (uw_table w !! f_client f) as [sid|] eqn:Et; [|by apply replace_task; [by rewrite Hp|done|done]].
    assert (Hi1 : udp_inv (l1 ++ f :: l2) (on_session sid (touch (ti_now i)) w)) by (by apply inv_update).
    apply replace_task; [by rewrite Hp| |done]. cbn. unfold task_ok. cbn. apply belongs_update; [done|]. by apply (ui_owner _ _ Hi).
  - assert (Hok : belongs w sid (f_client f)).
    { pose proof (ui_tasks _ _ Hi) as Ht. apply Forall_app in Ht as [_ Ht]. apply Forall_cons in Ht as [Ht _]. unfold task_ok in Ht. by rewrite Hp in Ht. }
    destruct (ti_sent i) as [u|e]; (apply replace_task; [by rewrite Hp|done|]).
    + by apply log_inv.
    + eapply inv_core; [apply report_core|done].
Qed.
End Turns.

(** ** Properties *)

Section Claims.
Context `{NAMES : DnsNames}.
Context (fnv_finish : list (list Z) -> Z) (f64_ln : f64 -> f64) (f64_powf : f64 -> f64 -> f64).

#[local] Abbreviation udp_step := (udp_step fnv_finish f64_ln f64_powf).

Lemma setup_inv alive proxies entries w : udp_inv (uw_tasks w) w -> udp_inv (uw_tasks (setup alive proxies entries w).2) (setup alive proxies entries w).2.
Proof.
  intros Hi. unfold setup. destruct (from_proxies _ _ _ _ _) as [[[u|e] entries'] g].
  - cbn [snd]. assert (Hi1 : udp_inv (uw_tasks w) (set_groups (fun _ => g) w)) by (eapply inv_core; [apply groups_core|done]).
    destruct (UdpUpstream_same_settings _ _); [exact Hi1|].
    assert (Et : forall l w0, uw_tasks (fold_left (fun w (e : SocketAddr * nat) => drop_session e.2 w) l w0) = uw_tasks w0)
      by (induction l as [|[c x] l IH]; intros w0; [done|cbn [fold_left]; by rewrite IH]).
    unfold clear_sessions at 1. cbn [uw_tasks set_table]. rewrite Et. apply clear_inv. eapply inv_core; [|exact Hi1]. by split_and!.
  - cbn [snd]. eapply inv_core; [apply groups_core|exact Hi].
Qed.

Lemma clear_tasks w : uw_tasks (clear_sessions w) = uw_tasks w.
Proof.
  unfold clear_sessions. cbn [uw_tasks set_table]. generalize (map_to_list (uw_table w)). intros l. revert w.
  induction l as [|[c x] l IH]; intros w; [done|]. cbn [fold_left]. by rewrite IH.
Qed.

Lemma step_inv w w' : udp_step w w' -> udp_inv (uw_tasks w) w -> udp_inv (uw_tasks w') w'.
Proof.
  intros H Hi. destruct H as [c d w|l1 f l2 i w Et|sid now e w Ho|sid s w Hs Ht|alive proxies entries w|w|g w].
  - apply (inv_core _ w); [by split_and!|]. cbn. apply (inv_tasks (uw_tasks w)); [| |done].
    + apply Forall_app. split; [apply (ui_tasks _ _ Hi)|]. by repeat constructor.
    + intros f sid Hf Hp. exists f. split; [|done]. rewrite elem_of_app. by left.
  - rewrite Et in Hi. pose proof (turn_inv fnv_finish f64_ln f64_powf l1 f l2 i w Hi) as Hn. unfold resume.
    destruct (turn _ _ _ f i w) as [next w1]. cbn [fst snd] in Hn. cbn [uw_tasks set_tasks]. eapply inv_core; [|exact Hn]. by split_and!.
  - assert (Et : uw_tasks (relay sid now e w) = uw_tasks w).
    { unfold relay. destruct (uw_sessions w !! sid) as [s|]; [|done]. unfold report_session.
      destruct e; cbn; [by destruct (vec_update _ _ _ !! sid)|by destruct (uw_sessions w !! sid)|by destruct (is_zero _)]. }
    rewrite Et. by apply relay_inv.
  - apply (finish_inv _ _ sid s); [done|by rewrite Ht|done].
  - by apply setup_inv.
  - rewrite clear_tasks. by apply clear_inv.
  - eapply inv_core; [apply groups_core|exact Hi].
Qed.

(** A port without sessions and packets. *)
Definition fresh_port (g : World) (d : DnsResolver) (u : UdpUpstream) : UdpWorld := mkUdpWorld g d u ∅ [] [] 0 [].

Lemma fresh_inv g d u : udp_inv [] (fresh_port g d u).
Proof. split; cbn; try done. Qed.

(** C18: However packets, replies, failures, reloads and resets of a UDP port interleave, a packet
    leaves only through a session of its own client and a reply goes only to the client of its
    session; the table has each session under its client; every session whose task relays is in
    the table or held by the packet that opened it, so none is left running alone; and the number
    of open connections is the number of reply tasks that have not ended. *)
Theorem udp_sessions_exact (g : World) (d : DnsResolver) (u : UdpUpstream) (w : UdpWorld) :
  rtc udp_step (fresh_port g d u) w ->
  (forall e, e ∈ uw_sent w -> match e with ToServer sid c _ | ToClient sid c _ => exists s, uw_sessions w !! sid = Some s /\ us_client s = c end)
  /\ (forall c sid, uw_table w !! c = Some sid -> exists s, uw_sessions w !! sid = Some s /\ us_client s = c)
  /\ (forall sid s, uw_sessions w !! sid = Some s -> us_task s = Relaying ->
        uw_table w !! us_client s = Some sid \/ exists f, f ∈ uw_tasks w /\ f_phase f = PInsert sid)
  /\ uw_leases w = wrap64 (count running (uw_sessions w)).
Proof.
  intros H. assert (Hi : udp_inv (uw_tasks w) w).
  { revert w H. apply (rtc_ind_r (R := udp_step) (fun w => udp_inv (uw_tasks w) w) (fresh_port g d u)); [apply fresh_inv|]. intros w1 w2 _ Hs Hi. by apply (step_inv w1). }
  destruct Hi as [H1 H2 H3 H4 H5]. split_and!; try done. intros e He. rewrite Forall_forall in H5. specialize (H5 e He). by destruct e.
Qed.

(** A reload that changes nothing keeps every session; another one drops them all. *)
Lemma setup_sessions alive proxies entries w u entries' g :
  from_proxies alive proxies entries UdpUpstream_default (uw_groups w) = (Ok u, entries', g) ->
  uw_table (setup alive proxies entries w).2 = (if UdpUpstream_same_settings u (uw_upstream w) then uw_table w else ∅)
  /\ uw_upstream (setup alive proxies entries w).2 = (if UdpUpstream_same_settings u (uw_upstream w) then uw_upstream w else u).
Proof.
  intros H. unfold setup. rewrite H. cbn [snd]. cbn [uw_upstream set_groups]. destruct (UdpUpstream_same_settings u (uw_upstream w)); [done|].
  split; [done|]. unfold clear_sessions. cbn [uw_upstream set_table]. generalize (map_to_list (uw_table (set_upstream u (set_groups (fun _ => g) w)))).
  intros l. assert (E : forall w0, uw_upstream (fold_left (fun w (e : SocketAddr * nat) => drop_session e.2 w) l w0) = uw_upstream w0)
    by (induction l as [|[c x] l IH]; intros w0; [done|cbn [fold_left]; by rewrite IH]). by rewrite E.
Qed.

(** A session ends by waiting only after it was idle for its time, up to a millisecond. *)
Lemma idle_end w sid s now :
  uw_sessions w !! sid = Some s -> relay sid now Waited w <> w ->
  us_idle s <= Z.max 0 (duration_since now (us_started s) - from_millis (us_last_active_ms s)).
Proof.
  intros Hs. unfold relay. rewrite Hs. destruct (is_zero (remaining now s)) eqn:E; [|done]. intros _.
  apply Z.eqb_eq in E. unfold remaining, idle_time, sat_sub in E. lia.
Qed.
End Claims.

(** ** Runs *)

Module UdpExample.
#[local] Instance plain_names : DnsNames := {| dns_name_valid _ := true; dns_name_eqb := String.eqb |}.

#[local] Abbreviation udp_step := (udp_step (fun _ => 0) (fun x => x) (fun x _ => x)).
#[local] Abbreviation resume := (resume (fun _ => 0) (fun x => x) (fun x _ => x)).

(** [n] turns of the task at [k]. *)
Definition go (k n : nat) (i : TurnInput) (w : UdpWorld) : UdpWorld :=
  Nat.iter n (fun w => match uw_tasks w !! k with Some f => resume (take k (uw_tasks w)) f (drop (S k) (uw_tasks w)) i w | None => w end) w.

Lemma go_steps k n i w : rtc udp_step w (go k n i w).
Proof.
  unfold go. induction n as [|n IH]; [done|]. etrans; [exact IH|]. cbn [Nat.iter nat_rect].
  match goal with |- rtc _ ?x _ => set (w1 := x) end. change (nat_rect _ _ _ _) with w1.
  destruct (uw_tasks w1 !! k) as [f|] eqn:E; [|reflexivity].
  apply rtc_once, step_turn. symmetry. by apply take_drop_middle.
Qed.

Definition address (port : Z) : Multiaddr := match Multiaddr_from_str (String.append "/ip4/10.0.0.1/udp/" (dec port)) with Ok m => m | Err _ => mkMultiaddr [] end.

Definition proxy_to (port : Z) : list (ShortId * option UdpProxy) :=
  [([1], Some (mkUdpProxy [mkUpstreamServer (address port) 1 None []] (from_secs 60) 1000 RoundRobin HealthCheck_default))].

Definition reload (port : Z) (entries : gmap GroupKey nat) (w : UdpWorld) : gmap GroupKey nat * UdpWorld :=
  let '(_, entries, w) := setup (fun _ => true) (proxy_to port) entries w in (entries, w).

Definition client : SocketAddr := (V4 1, 40000).
Definition all_ok : TurnInput := mkTurnInput 0 [] (Some (LookupErr "unused")) (Ok tt) (Ok tt).

Definition start : UdpWorld := fresh_port empty_world DnsResolver_new UdpUpstream_default.
Definition served := reload 53 ∅ start.

Lemma reload_steps port entries w : rtc udp_step w (reload port entries w).2.
Proof.
  unfold reload. pose proof (step_setup (fun _ => 0) (fun x => x) (fun x _ => x) (fun _ => true) (proxy_to port) entries w) as H.
  destruct (setup _ _ _ _) as [[r e] w']. by apply rtc_once.
Qed.

Lemma packet_steps c d w : rtc udp_step w (packet c d w). Proof. by apply rtc_once, step_packet. Qed.

(** A packet whose session opens while the servers change. *)
Definition stale : UdpWorld :=
  let w := go 0 4 all_ok (packet client [1] served.2) in
  let w := (reload 54 served.1 w).2 in
  let w := go 0 5 all_ok w in
  go 0 3 all_ok (packet client [2] w).

(** Sessions are dropped when the servers change, but a packet on its way opens its session with
    the old servers after that, and the later packets of the client go to the old server. *)
Lemma stale_session_survives_reload :
  rtc udp_step start stale
  /\ map cn_port (uu_servers (uw_upstream stale)) = [54]
  /\ uw_tasks stale = []
  /\ uw_sent stale = [ToServer 0 client [1]; ToServer 0 client [2]]
  /\ (fun s => (us_server s, us_task s)) <$> uw_sessions stale !! 0%nat = Some ((V4 167772161, 53), Relaying).
Proof.
  split; [|vm_compute; done].
  unfold stale, served. etrans; [apply reload_steps|]. etrans; [apply packet_steps|].
  etrans; [apply go_steps|]. etrans; [apply reload_steps|]. etrans; [apply go_steps|].
  etrans; [apply packet_steps|]. apply go_steps.
Qed.

(** Two first packets of a client next to each other. *)
Definition twice : UdpWorld :=
  let w := packet client [2] (packet client [1] served.2) in
  let w := go 1 5 all_ok (go 0 5 all_ok w) in
  go 0 3 all_ok (go 0 3 all_ok w).

(** Both open a session; the second drops the first, through which the first packet went, so its
    reply has nobody to relay it. *)
Lemma first_packets_lose_reply :
  rtc udp_step start twice
  /\ uw_sent twice = [ToServer 0 client [1]; ToServer 1 client [2]]
  /\ uw_table twice !! client = Some 1%nat
  /\ us_task <$> uw_sessions twice !! 0%nat = Some Aborted.
Proof.
  split; [|vm_compute; done].
  unfold twice, served. etrans; [apply reload_steps|]. etrans; [apply packet_steps|].
  etrans; [apply packet_steps|]. etrans; [apply go_steps|]. etrans; [apply go_steps|].
  etrans; [apply go_steps|]. apply go_steps.
Qed.

Lemma udp_sessions_exact_witness :
  uw_leases twice = wrap64 (count running (uw_sessions twice)) /\ uw_leases twice = 2
  /\ (forall e, e ∈ uw_sent twice -> match e with ToServer sid c _ | ToClient sid c _ => exists s, uw_sessions twice !! sid = Some s /\ us_client s = c end).
Proof.
  destruct first_packets_lose_reply as [H _].
  destruct (udp_sessions_exact (fun _ => 0) (fun x => x) (fun x _ => x) empty_world DnsResolver_new UdpUpstream_default twice H) as (H1 & _ & _ & H4).
  split; [exact H4|]. split; [vm_compute; reflexivity|exact H1].
Defined.

End UdpExample.
