(* ===== verification/AccessLog.v ===== *)
(** * The access log

    What [proxy/http/mod.rs] writes of a request and its response, with the values that look like
    secrets redacted, and the log of the last entries with its queries: [proxy/access_log.rs] and
    [api/traffic.rs]. *)

From Stdlib Require Import Ascii.
From stdpp Require Import strings.
From S2P Require Import Prelude Basics IpText Float64 Net Headers Containers EnvFiles Compression Quarantine Cookies HeaderRules.

(** ** Redaction *)

Definition SENSITIVE_KEYWORDS : list string := ["password"; "secret"; "token"; "apikey"; "api_key"; "credential"].
Definition REDACTED : string := "[REDACTED]".

Definition is_sensitive_header_name (name : string) : bool :=
  bool_decide (to_ascii_lowercase name ∈
    ["authorization"; "proxy-authorization"; "cookie"; "set-cookie"; "x-api-key"; "api-key"; "x-auth-token"; "x-csrf-token"; "x-xsrf-token"]).

Definition is_sensitive_field_name (name : string) : bool :=
  existsb (fun k => str_contains k (to_ascii_lowercase name)) SENSITIVE_KEYWORDS.

(** [serde_json::Value]; the fields of an object are those of its [BTreeMap]. *)
Inductive JsonValue : Type :=
| JNull
| JBool (b : bool)
| JNumber (text : string)
| JString (s : string)
| JArray (items : list JsonValue)
| JObject (fields : list (string * JsonValue)).

Fixpoint redact_json_value (v : JsonValue) : JsonValue :=
  match v with
  | JObject fields =>
      JObject ((fix go (l : list (string * JsonValue)) : list (string * JsonValue) :=
                  match l with
                  | [] => []
                  | (k, x) :: rest => (k, if is_sensitive_field_name k then JString REDACTED else redact_json_value x) :: go rest
                  end) fields)
  | JArray items => JArray (map redact_json_value items)
  | _ => v
  end.

(** The readers and writers of JSON text of the [serde_json] crate. *)
Class JsonText : Type := {
  json_from_str : string -> option JsonValue;
  json_to_string : JsonValue -> option string;
}.

Definition redact_pair (pair : string) : string :=
  match split_once "=" pair with
  | Some (k, _) => if is_sensitive_field_name k then String.append k (String "=" REDACTED) else pair
  | None => pair
  end.

Definition redact_form_data (body : string) : string :=
  if negb (str_contains_char body "=") then body else join_with "&" (map redact_pair (split_on "&" body)).

Definition sanitize_body_preview `{JSON : JsonText} (body : option string) : option string :=
  body ← body;
  match json_from_str body with
  | Some json => json_to_string (redact_json_value json)
  | None => Some (redact_form_data body)
  end.

Record HeaderEntry : Type := mkHeaderEntry { he_name : string; he_value : string }.

Definition extract_headers `{HDR : HeaderOps} (h : Headers) : list HeaderEntry :=
  map (fun e => mkHeaderEntry e.1 (if is_sensitive_header_name e.1 then REDACTED else default EmptyString (to_str e.2))) (h_iter h).

(** [from_utf8] of the bytes of a body; a body that cannot be read is empty after it. *)
Inductive BodyRead : Type := ReadBytes (data : string) (utf8 : bool) | ReadFailed.

Definition should_buffer (content_length : option string) (is_websocket : bool) : bool :=
  match content_length ≫= parse_uint u64_max with
  | Some len => negb is_websocket && (0 <? len) && (len <=? 16384)
  | None => false
  end.

(** The body that goes on, [None] for the stream as it is, and the preview. *)
Definition buffer_request_body `{JSON : JsonText} (content_length : option string) (is_websocket : bool) (read : BodyRead)
  : option string * option string :=
  if should_buffer content_length is_websocket then
    match read with
    | ReadBytes data utf8 => (Some data, sanitize_body_preview (if utf8 then Some data else None))
    | ReadFailed => (Some EmptyString, None)
    end
  else (None, None).

(** ** Entries *)

(** [latency_ms] and the time are what the clock gives; [id] is given by the log. *)
Record AccessLogEntry : Type := mkAccessLogEntry {
  al_id : Z;
  al_resource_id : option ShortId;
  al_client_ip : string;
  al_country : option string;
  al_method : string;
  al_host : string;
  al_uri : string;
  al_status : Z;
  al_proto : string;
  al_error : option string;
  al_request_headers : list HeaderEntry;
  al_response_headers : list HeaderEntry;
  al_request_body : option string;
  al_content_type : option string;
  al_is_websocket : bool;
}.

Record AccessLogMeta : Type := mkAccessLogMeta {
  lm_resource_id : option ShortId;
  lm_client_ip : IpAddr;
  lm_country : option string;
  lm_method : string;
  lm_host : string;
  lm_uri : string;
  lm_proto : string;
  lm_request_headers : list HeaderEntry;
  lm_request_body : option string;
  lm_content_type : option string;
  lm_is_websocket : bool;
}.

(** The entry of [record_access_log]: of the response only its status and its headers count. *)
Definition access_log_entry `{HDR : HeaderOps} {B : Type} (meta : AccessLogMeta) (mapped : result (Response B) string) : AccessLogEntry :=
  let '(status, error, response_headers) :=
    match mapped with
    | Ok res => (res_status res, None, extract_headers (res_headers res))
    | Err err => (502, Some err, [])
    end in
  mkAccessLogEntry 0 (lm_resource_id meta) (ip_to_string (lm_client_ip meta)) (lm_country meta) (lm_method meta) (lm_host meta) (lm_uri meta)
    status (lm_proto meta) error (lm_request_headers meta) response_headers (lm_request_body meta) (lm_content_type meta) (lm_is_websocket meta).

(** The entry of a request over HTTP/1.1 or HTTP/2, in [proxied_response]: its headers and the
    preview of its body are taken before the request is routed.  [read] is what the client sends. *)
Definition proxied_log_entry `{HDR : HeaderOps} `{JSON : JsonText} {B : Type} (h : Headers) (method uri proto : string) (read : BodyRead)
  (resource_id : option ShortId) (client_ip : IpAddr) (country : option string) (mapped : result (Response B) string) : AccessLogEntry :=
  let is_websocket := is_some_and (fun v => eq_ignore_ascii_case v "websocket") (h_get h "upgrade") in
  let request_body := (buffer_request_body (h_get h "content-length" ≫= to_str) is_websocket read).2 in
  access_log_entry
    (mkAccessLogMeta resource_id client_ip country method (default EmptyString (h_get h "host" ≫= to_str)) uri proto
       (extract_headers h) request_body (h_get h "content-type" ≫= to_str) is_websocket) mapped.

(** The entry of a request over HTTP/3, in [serve_h3_request]: no preview of the body. *)
Definition h3_log_entry `{HDR : HeaderOps} {B : Type} (h : Headers) (method uri : string)
  (resource_id : option ShortId) (client_ip : IpAddr) (country : option string) (mapped : result (Response B) string) : AccessLogEntry :=
  access_log_entry
    (mkAccessLogMeta resource_id client_ip country method (default EmptyString (h_get h "host" ≫= to_str)) uri "h3"
       (extract_headers h) None (h_get h "content-type" ≫= to_str) false) mapped.

Record AccessLogQuery : Type := mkAccessLogQuery {
  lq_resource_id : option ShortId;
  lq_status : option Z;
  lq_search : option string;
  lq_limit : option Z;
  lq_since_id : option Z;
  lq_country : option string;
}.

Definition matches_resource (e : AccessLogEntry) (resource : option ShortId) : bool :=
  match resource with Some expected => bool_decide (al_resource_id e = Some expected) | None => true end.

Definition matches_status (e : AccessLogEntry) (status : option Z) : bool :=
  match status with Some expected => al_status e =? expected | None => true end.

Definition matches_since_id (e : AccessLogEntry) (since : option Z) : bool :=
  match since with Some min_id => min_id <? al_id e | None => true end.

Definition matches_country (e : AccessLogEntry) (country : option string) : bool :=
  match country with
  | Some expected =>
      if negb (str_is_empty (trim expected)) then is_some_and (fun c => eq_ignore_ascii_case c (trim expected)) (al_country e) else true
  | None => true
  end.

Section Queries.
Context (to_lowercase : string -> string).

Definition matches_search (e : AccessLogEntry) (search : option string) : bool :=
  match trim <$> search with
  | Some s =>
      if str_is_empty s then true
      else
        let needle := to_lowercase s in
        str_contains needle (to_lowercase (al_uri e)) || str_contains needle (to_lowercase (al_client_ip e))
        || str_contains needle (to_lowercase (al_host e)) || str_contains needle (to_lowercase (al_method e))
        || str_contains needle (dec (al_status e))
  | None => true
  end.

Definition AccessLogEntry_matches (e : AccessLogEntry) (q : AccessLogQuery) : bool :=
  matches_resource e (lq_resource_id q) && matches_status e (lq_status q) && matches_since_id e (lq_since_id q)
  && matches_search e (lq_search q) && matches_country e (lq_country q).
End Queries.

(** ** The log *)

Definition DEFAULT_CAPACITY : Z := 1000.
Definition DEFAULT_LIMIT : Z := 100.
Definition MAX_LIMIT : Z := 1000.

(** [al_next] is [NEXT_LOG_ID]; [al_taken] holds the entries that have an identifier and wait for
    the lock of the buffer. *)
Record AccessLogStore : Type := mkAccessLogStore { al_next : Z; al_buffer : list AccessLogEntry; al_taken : list AccessLogEntry }.

Definition log_new : AccessLogStore := mkAccessLogStore 1 [] [].

Definition with_id (id : Z) (e : AccessLogEntry) : AccessLogEntry :=
  mkAccessLogEntry id (al_resource_id e) (al_client_ip e) (al_country e) (al_method e) (al_host e) (al_uri e) (al_status e) (al_proto e)
    (al_error e) (al_request_headers e) (al_response_headers e) (al_request_body e) (al_content_type e) (al_is_websocket e).

(** [record] up to the lock, and under it. *)
Definition record_take (e : AccessLogEntry) (s : AccessLogStore) : AccessLogStore :=
  mkAccessLogStore (wrap64 (al_next s + 1)) (al_buffer s) (al_taken s ++ [with_id (al_next s) e]).

Definition push_bounded (e : AccessLogEntry) (buf : list AccessLogEntry) : list AccessLogEntry :=
  (if DEFAULT_CAPACITY <=? Z.of_nat (length buf) then tail buf else buf) ++ [e].

Definition record_push (k : nat) (s : AccessLogStore) : AccessLogStore :=
  match al_taken s !! k with
  | Some e => mkAccessLogStore (al_next s) (push_bounded e (al_buffer s)) (delete k (al_taken s))
  | None => s
  end.

(** [record] with nothing in between. *)
Definition record (e : AccessLogEntry) (s : AccessLogStore) : AccessLogStore :=
  record_push (length (al_taken s)) (record_take e s).

Definition clear (s : AccessLogStore) : AccessLogStore := mkAccessLogStore (al_next s) [] (al_taken s).

Definition get_by_id (id : Z) (s : AccessLogStore) : option AccessLogEntry := find (fun e => al_id e =? id) (al_buffer s).

Definition log_count (s : AccessLogStore) : Z := Z.of_nat (length (al_buffer s)).

Definition recent (to_lowercase : string -> string) (q : AccessLogQuery) (s : AccessLogStore) : list AccessLogEntry :=
  take (Z.to_nat (Z.min (default DEFAULT_LIMIT (lq_limit q)) MAX_LIMIT))
    (List.filter (fun e => AccessLogEntry_matches to_lowercase e q) (rev (al_buffer s))).

(** ** Countries *)

Record CountryTrafficStat : Type := mkCountryTrafficStat { ct_country : string; ct_count : Z; ct_percentage : f64 }.

Record TrafficGeoDistribution : Type := mkTrafficGeoDistribution {
  tg_total_resolved : Z;
  tg_top_countries : list CountryTrafficStat;
  tg_country_counts : gmap string Z;
}.

(** [f64::round]: to the next integer, halves away from zero. *)
Definition f64_round (x : f64) : f64 :=
  match x with
  | SpecFloat.S754_finite s m e =>
      if 0 <=? e then x
      else
        let d := Z.shiftl 1 (- e) in
        let q := (2 * Z.pos m + d) / (2 * d) in
        if q =? 0 then SpecFloat.S754_zero s else if s then f64_neg (f64_of_Z q) else f64_of_Z q
  | _ => x
  end.

Definition percentage_of (count total : Z) : f64 :=
  let percentage := if 0 <? total then f64_mul (f64_div (f64_of_Z count) (f64_of_Z total)) (f64_of_Z 100) else f64_of_Z 0 in
  f64_div (f64_round (f64_mul percentage (f64_of_Z 10))) (f64_of_Z 10).

Definition count_country (s : gmap string Z * Z) (e : AccessLogEntry) : gmap string Z * Z :=
  match al_country e with
  | Some country =>
      let code := to_ascii_uppercase country in
      (<[code := default 0 (s.1 !! code) + 1]> s.1, s.2 + 1)
  | None => s
  end.

(** The entries of the map in the order of the keys, then by count, the highest first. *)
Definition ranked (counts : gmap string Z) : list (string * Z) :=
  sort_by (fun a b : string * Z => b.2 <=? a.2) (sort_by (fun a b : string * Z => String.leb a.1 b.1) (map_to_list counts)).

Definition geo_distribution_matching (p : option ShortId -> bool) (s : AccessLogStore) : TrafficGeoDistribution :=
  let '(counts, total) := fold_left count_country (List.filter (fun e => p (al_resource_id e)) (al_buffer s)) (∅, 0) in
  mkTrafficGeoDistribution total
    (map (fun '(country, count) => mkCountryTrafficStat country count (percentage_of count total)) (take 10 (ranked counts))) counts.

Definition geo_distribution (resource : option ShortId) (s : AccessLogStore) : TrafficGeoDistribution :=
  geo_distribution_matching (fun id => is_none_or (fun r => bool_decide (id = Some r)) resource) s.

(** ** Facts on redaction *)

(** A field at any depth. *)
Inductive field_of (k : string) (x : JsonValue) : JsonValue -> Prop :=
| field_here fields : (k, x) ∈ fields -> field_of k x (JObject fields)
| field_deep fields k' y : (k', y) ∈ fields -> field_of k x y -> field_of k x (JObject fields)
| field_item items y : y ∈ items -> field_of k x y -> field_of k x (JArray items).

Definition redact_field (e : string * JsonValue) : string * JsonValue :=
  (e.1, if is_sensitive_field_name e.1 then JString REDACTED else redact_json_value e.2).

Lemma redact_object fields : redact_json_value (JObject fields) = JObject (map redact_field fields).
Proof. cbn. f_equal. induction fields as [|[k x] fields IH]; [done|]. cbn. by rewrite IH. Qed.

Lemma json_induction (P : JsonValue -> Prop) :
  (forall v, (forall items, v <> JArray items) -> (forall fields, v <> JObject fields) -> P v) ->
  (forall items, Forall P items -> P (JArray items)) ->
  (forall fields, Forall (fun e => P e.2) fields -> P (JObject fields)) -> forall v, P v.
Proof.
  intros Hl Ha Ho. fix IH 1. intros [|b|t|s|items|fields]; try (apply Hl; congruence).
  - apply Ha. induction items as [|v items IHl]; constructor; [apply IH|exact IHl].
  - apply Ho. induction fields as [|[k v] fields IHl]; constructor; [apply IH|exact IHl].
Qed.

Lemma redacted_field v : forall k x, field_of k x (redact_json_value v) -> is_sensitive_field_name k = true -> x = JString REDACTED.
Proof.
  induction v as [v H1 H2|items IH|fields IH] using json_induction; intros k x Hf Hk.
  - destruct v; cbn in Hf; try (by inversion Hf); by destruct (H1 items) || by destruct (H2 fields).
  - cbn in Hf. inversion Hf as [| |? y Hy Hf']; subst. apply list_elem_of_fmap in Hy as (y0 & -> & Hy0). rewrite Forall_forall in IH. by apply (IH y0 Hy0 k).
  - rewrite redact_object in Hf. rewrite Forall_forall in IH. inversion Hf as [? He|? k' y He Hf'|]; subst;
      apply list_elem_of_fmap in He as ([k0 x0] & E & Hin); unfold redact_field in E; cbn [fst snd] in E; injection E as E1 E2.
    + by rewrite E2, <-E1, Hk.
    + rewrite E2 in Hf'. destruct (is_sensitive_field_name k0); [inversion Hf'|]. by apply (IH (k0, x0) Hin k).
Qed.

(** A place in a value. *)
Inductive JsonStep : Type := AtKey (k : string) | AtIndex (i : nat).

Definition json_child (v : JsonValue) (s : JsonStep) : option JsonValue :=
  match v, s with
  | JObject fields, AtKey k => snd <$> find (fun e => String.eqb e.1 k) fields
  | JArray items, AtIndex i => items !! i
  | _, _ => None
  end.

Fixpoint json_at (v : JsonValue) (p : list JsonStep) : option JsonValue :=
  match p with
  | [] => Some v
  | s :: p => match json_child v s with Some x => json_at x p | None => None end
  end.

Definition open_step (s : JsonStep) : bool := match s with AtKey k => negb (is_sensitive_field_name k) | AtIndex _ => true end.

Lemma redacted_child v s : open_step s = true -> json_child (redact_json_value v) s = redact_json_value <$> json_child v s.
Proof.
  intros Hs. destruct v as [| | | |items|fields]; try done.
  - cbn. destruct s; [done|]. apply list_lookup_fmap.
  - rewrite redact_object. destruct s as [k|]; [|done]. cbn [open_step] in Hs. apply negb_true_iff in Hs.
    cbn [json_child]. induction fields as [|[k0 x0] fields IH]; [done|].
    cbn [map find redact_field fst snd]. destruct (String.eqb_spec k0 k) as [->|Hne]; [|exact IH]. unfold redact_field. cbn [fst snd]. rewrite Hs. done.
Qed.

Lemma redacted_elsewhere v p : forallb open_step p = true -> json_at (redact_json_value v) p = redact_json_value <$> json_at v p.
Proof.
  revert v. induction p as [|s p IH]; intros v Hp; [done|]. cbn in Hp. apply andb_true_iff in Hp as [Hs Hp].
  cbn [json_at]. rewrite redacted_child by done. destruct (json_child v s) as [x|]; [exact (IH x Hp)|done].
Qed.

Lemma split_pieces c s : Forall (fun p => char_free c p = true) (split_on c s).
Proof.
  unfold split_on. induction s as [|a s IH]; [by constructor|]. cbn. destruct (Ascii.eqb a c) eqn:E; [by constructor|].
  destruct (split_by _ s) as [|p ps]; [by constructor; [unfold char_free; cbn; by rewrite E|]|].
  apply Forall_cons in IH as [H1 H2]. constructor; [|done]. unfold char_free in *. cbn. by rewrite E.
Qed.

Lemma redact_pair_free pair : char_free "&" pair = true -> char_free "&" (redact_pair pair) = true.
Proof.
  intros H. unfold redact_pair. destruct (split_once "=" pair) as [[k v]|] eqn:E; [|done]. destruct (is_sensitive_field_name k); [|done].
  apply split_once_spec in E as [_ ->]. unfold char_free in *. rewrite str_forallb_append in H |- *. apply andb_true_iff in H as [H _]. by rewrite H.
Qed.

(** The pairs of a form after redaction are the redacted pairs. *)
Lemma redacted_form body : str_contains_char body "=" = true -> split_on "&" (redact_form_data body) = map redact_pair (split_on "&" body).
Proof.
  intros H. unfold redact_form_data. rewrite H. cbn [negb]. apply split_on_join.
  - unfold split_on. pose proof (split_by_nonempty (fun a => Ascii.eqb a "&") body). by destruct (split_by _ body).
  - apply Forall_map. eapply Forall_impl; [apply split_pieces|]. intros p. apply redact_pair_free.
Qed.

(** What a text is after redaction: [p] is a pair of the form and [q] what the log gets of it. *)
Definition pair_logged (p q : string) : Prop :=
  match split_once "=" p with
  | Some (k, _) => if is_sensitive_field_name k then split_once "=" q = Some (k, REDACTED) else q = p
  | None => q = p
  end.

Lemma redact_pair_logged p : pair_logged p (redact_pair p).
Proof.
  unfold pair_logged, redact_pair. destruct (split_once "=" p) as [[k v]|] eqn:E; [|done].
  destruct (is_sensitive_field_name k); [|done]. rewrite split_once_app; [done|]. by apply split_once_spec in E as [? _].
Qed.

Lemma char_free_pieces c d s : char_free c s = true -> Forall (fun p => char_free c p = true) (split_on d s).
Proof.
  unfold char_free, split_on. induction s as [|a s IH]; cbn; [by repeat constructor|].
  intros [Ha Hs]%andb_true_iff. specialize (IH Hs). destruct (Ascii.eqb a d); [by constructor|].
  destruct (split_by _ s) as [|p ps]; [by repeat constructor; cbn; rewrite Ha|].
  apply Forall_cons in IH as [H1 H2]. constructor; [cbn; by rewrite Ha|done].
Qed.

Lemma contains_no_char s c : str_contains_char s c = false -> char_free c s = true.
Proof.
  unfold str_contains_char, char_free. induction s as [|a s IH]; cbn; [done|]. intros [Ha Hs]%orb_false_iff.
  rewrite IH, andb_true_r by done. by rewrite Ascii.eqb_sym, Ha.
Qed.

(** The pairs of a form, one by one, also of a text that holds no pair. *)
Lemma form_logged body : Forall2 pair_logged (split_on "&" body) (split_on "&" (redact_form_data body)).
Proof.
  destruct (str_contains_char body "=") eqn:E.
  - rewrite redacted_form by done. apply Forall2_fmap_r, Forall_Forall2_diag, Forall_true. intros p. apply redact_pair_logged.
  - unfold redact_form_data. rewrite E. cbn [negb]. apply Forall_Forall2_diag.
    eapply Forall_impl; [exact (char_free_pieces "=" "&" body (contains_no_char _ _ E))|]. cbn beta. intros p Hp. unfold pair_logged.
    destruct (split_once "=" p) as [[k v]|] eqn:Es; [|done]. apply split_once_spec in Es as [_ ->].
    unfold char_free in Hp. rewrite str_forallb_append in Hp. apply andb_true_iff in Hp as [_ Hp]. done.
Qed.

(** The headers of an entry, one for each header line, in their order. *)
Definition header_logged `{HDR : HeaderOps} (h : string * string) (e : HeaderEntry) : Prop :=
  he_name e = h.1 /\ (if is_sensitive_header_name h.1 then he_value e = REDACTED else he_value e = default EmptyString (to_str h.2)).

Lemma headers_logged `{HDR : HeaderOps} (h : Headers) : Forall2 header_logged (h_iter h) (extract_headers h).
Proof.
  unfold extract_headers. apply Forall2_fmap_r, Forall_Forall2_diag, Forall_true. intros [n v]. unfold header_logged. cbn.
  by destruct (is_sensitive_header_name n).
Qed.

(** What the log gets of a body that it can show. *)
Definition json_logged (v w : JsonValue) : Prop :=
  (forall k x, field_of k x w -> is_sensitive_field_name k = true -> x = JString REDACTED)
  /\ (forall p, forallb open_step p = true -> json_at w p = redact_json_value <$> json_at v p).

Definition body_logged `{JSON : JsonText} (data preview : string) : Prop :=
  match json_from_str data with
  | Some v => exists w, json_to_string w = Some preview /\ json_logged v w
  | None => Forall2 pair_logged (split_on "&" data) (split_on "&" preview)
  end.

Lemma preview_logged `{JSON : JsonText} data preview : sanitize_body_preview (Some data) = Some preview -> body_logged data preview.
Proof.
  unfold sanitize_body_preview, body_logged. cbn. destruct (json_from_str data) as [v|].
  - intros H. exists (redact_json_value v). split; [done|]. split; [intros k x; apply redacted_field|intros p; apply redacted_elsewhere].
  - intros [= <-]. apply form_logged.
Qed.

(** ** Facts on the log *)

Inductive log_step : AccessLogStore -> AccessLogStore -> Prop :=
| step_take e s : log_step s (record_take e s)
| step_push k s : log_step s (record_push k s)
| step_clear s : log_step s (clear s).

Definition log_ids (s : AccessLogStore) : list Z := map al_id (al_buffer s) ++ map al_id (al_taken s).

(** After [n] steps without a wrap-around of the counter. *)
Record log_ok (n : nat) (s : AccessLogStore) : Prop := {
  lo_next : 1 <= al_next s <= 1 + Z.of_nat n;
  lo_bound : Z.of_nat (length (al_buffer s)) <= DEFAULT_CAPACITY;
  lo_nodup : NoDup (log_ids s);
  lo_below : Forall (fun id => id < al_next s) (log_ids s);
}.

Lemma push_bounded_perm e buf : push_bounded e buf ⊆+ e :: buf.
Proof.
  unfold push_bounded. rewrite Permutation_app_comm. cbn [app]. apply submseteq_skip.
  destruct (_ <=? _); [|done]. destruct buf; [done|]. apply submseteq_cons. done.
Qed.

Lemma push_bounded_length e buf : Z.of_nat (length buf) <= DEFAULT_CAPACITY -> Z.of_nat (length (push_bounded e buf)) <= DEFAULT_CAPACITY.
Proof.
  unfold push_bounded, DEFAULT_CAPACITY. rewrite length_app. cbn [length]. destruct (Z.leb_spec 1000 (Z.of_nat (length buf))); [|lia].
  destruct buf; cbn [length tail] in *; lia.
Qed.

Lemma push_ids k s : log_ids (record_push k s) ⊆+ log_ids s.
Proof.
  unfold record_push. destruct (al_taken s !! k) as [e|] eqn:E; [|done]. unfold log_ids. cbn [al_buffer al_taken].
  rewrite <-!map_app. apply fmap_submseteq. rewrite (delete_Permutation (al_taken s) k e E) at 2.
  rewrite <-(Permutation_middle (al_buffer s)). change (e :: al_buffer s ++ delete k (al_taken s)) with ((e :: al_buffer s) ++ delete k (al_taken s)).
  apply submseteq_app; [apply push_bounded_perm|done].
Qed.

Lemma log_sub n s s' : log_ids s' ⊆+ log_ids s -> al_next s' = al_next s -> Z.of_nat (length (al_buffer s')) <= DEFAULT_CAPACITY ->
  log_ok n s -> log_ok (S n) s'.
Proof.
  intros Hsub Hn Hl [H1 H2 H3 H4]. split; [rewrite Hn; lia|done| |].
  - apply submseteq_Permutation in Hsub as [r Hr]. rewrite Hr in H3. by apply NoDup_app in H3 as [H3 _].
  - rewrite Hn. apply submseteq_Permutation in Hsub as [r Hr]. rewrite Hr in H4. by apply Forall_app in H4 as [H4 _].
Qed.

Lemma log_step_ok n s s' : log_step s s' -> Z.of_nat (S n) < 2 ^ 64 - 1 -> log_ok n s -> log_ok (S n) s'.
Proof.
  intros Hs Hw Hok. destruct Hs as [e s|k s|s].
  - destruct Hok as [H1 H2 H3 H4]. assert (Hnext : wrap64 (al_next s + 1) = al_next s + 1).
    { unfold wrap64. apply Z.mod_small. change 18446744073709551616 with (2 ^ 64). lia. }
    assert (Eids : log_ids (record_take e s) = log_ids s ++ [al_next s]) by (unfold log_ids; cbn; rewrite map_app; by rewrite app_assoc).
    split; [cbn [record_take al_next]; rewrite Hnext; lia|done| |]; rewrite Eids.
    + apply NoDup_app. split; [done|]. split; [|apply NoDup_singleton]. intros x Hx Hin. apply list_elem_of_singleton in Hin as ->.
      rewrite Forall_forall in H4. specialize (H4 _ Hx). cbn in H4. lia.
    + cbn [record_take al_next]. rewrite Hnext. apply Forall_app. split; [|repeat constructor; lia].
      eapply Forall_impl; [exact H4|]. cbn. lia.
  - apply (log_sub n s); [apply push_ids| | |done].
    + unfold record_push. by destruct (al_taken s !! k).
    + unfold record_push. destruct (al_taken s !! k); [|apply Hok]. cbn [al_buffer]. apply push_bounded_length, Hok.
  - apply (log_sub n s); [|done| |done]; [|cbn; unfold DEFAULT_CAPACITY; lia].
    unfold log_ids. cbn. apply submseteq_inserts_l. done.
Qed.

(** However requests that end at the same time interleave, the log keeps at most its capacity, and
    no two entries have the same identifier. *)
Theorem access_log_bounded (n : nat) (s : AccessLogStore) :
  nsteps log_step n log_new s -> Z.of_nat n < 2 ^ 64 - 1 ->
  Z.of_nat (length (al_buffer s)) <= DEFAULT_CAPACITY /\ NoDup (map al_id (al_buffer s)).
Proof.
  intros H Hn. assert (Hok : log_ok n s).
  { revert s H Hn. induction n as [|n IH]; intros s H Hn.
    - inversion H; subst. split; cbn; [lia|unfold DEFAULT_CAPACITY; lia|constructor|constructor].
    - apply nsteps_inv_r in H as (s1 & H1 & Hs). eapply log_step_ok; [exact Hs|done|]. apply IH; [done|lia]. }
  destruct Hok as [_ H2 H3 _]. split; [done|]. unfold log_ids in H3. by apply NoDup_app in H3 as [H3 _].
Qed.

(** Entries that are recorded one after the other are in order. *)
Definition in_turn (s : AccessLogStore) : Prop :=
  al_taken s = [] /\ StronglySorted Z.lt (map al_id (al_buffer s)) /\ Forall (fun e => al_id e < al_next s) (al_buffer s).

Lemma tail_sorted {A} (R : A -> A -> Prop) l : StronglySorted R l -> StronglySorted R (tail l).
Proof. intros H. destruct H; [constructor|done]. Qed.

Lemma snoc_sorted l x : StronglySorted Z.lt l -> Forall (fun y => y < x) l -> StronglySorted Z.lt (l ++ [x]).
Proof.
  intros H. induction H as [|y l H IH Hy]; intros Hx; cbn; [by repeat constructor|]. apply Forall_cons in Hx as [Hyx Hx].
  constructor; [by apply IH|]. apply Forall_app. split; [done|by repeat constructor].
Qed.

Lemma record_in_turn e s : al_next s < 2 ^ 64 - 1 -> in_turn s -> 1 <= al_next s -> in_turn (record e s).
Proof.
  intros Hn (Ht & Hs & Hb) H1. unfold record, record_push, record_take. rewrite Ht. cbn [length app al_taken lookup list_lookup].
  unfold in_turn. cbn [al_taken al_buffer al_next delete list_delete]. split; [done|].
  assert (Hnext : wrap64 (al_next s + 1) = al_next s + 1).
  { unfold wrap64. apply Z.mod_small. change 18446744073709551616 with (2 ^ 64). lia. }
  assert (Hb' : Forall (fun e => al_id e < al_next s) (if DEFAULT_CAPACITY <=? Z.of_nat (length (al_buffer s)) then tail (al_buffer s) else al_buffer s)).
  { destruct (_ <=? _); [|done]. by destruct Hb. }
  unfold push_bounded. split.
  - rewrite map_app. cbn [map with_id al_id]. apply snoc_sorted; [|by apply Forall_map].
    destruct (_ <=? _); [|done]. assert (Em : forall l, map al_id (tail l) = tail (map al_id l)) by (by intros []). rewrite Em. by apply tail_sorted.
  - rewrite Hnext. apply Forall_app. split; [|repeat constructor; cbn; lia]. eapply Forall_impl; [exact Hb'|]. cbn. lia.
Qed.

Lemma filter_reverse_sorted l (p : AccessLogEntry -> bool) :
  StronglySorted Z.lt (map al_id l) -> StronglySorted Z.gt (map al_id (List.filter p (rev l))).
Proof.
  induction l as [|e l IH]; intros H; [constructor|]. cbn [map] in H. inversion H as [|? ? Hs Hlt]; subst. cbn [rev].
  rewrite List.filter_app, map_app. specialize (IH Hs).
  assert (Hall : Forall (fun x => al_id e < x) (map al_id (List.filter p (rev l)))).
  { apply Forall_map. apply Forall_forall. intros y Hy. rewrite list_elem_of_In in Hy. apply filter_In in Hy as [Hy _]. rewrite <-in_rev in Hy.
    rewrite Forall_forall in Hlt. apply Hlt. apply list_elem_of_fmap. exists y. split; [done|]. by apply list_elem_of_In. }
  cbn [List.filter]. destruct (p e); [|cbn [map]; by rewrite app_nil_r]. cbn [map]. revert IH Hall. generalize (map al_id (List.filter p (rev l))).
  intros m Hm Hall. induction Hm as [|x m Hm IHm Hx]; cbn; [by repeat constructor|]. apply Forall_cons in Hall as [Hex Hall].
  constructor; [by apply IHm|]. apply Forall_app. split; [done|]. repeat constructor. lia.
Qed.

Lemma take_sorted {A} (R : A -> A -> Prop) n l : StronglySorted R l -> StronglySorted R (take n l).
Proof.
  intros H. revert n. induction H as [|x l H IH Hx]; intros [|n]; cbn; try constructor; [apply IH|by apply Forall_take].
Qed.

(** The answer to a query has at most its limit of entries, all matching, the newest first. *)
Lemma recent_newest_first to_lowercase q s :
  in_turn s ->
  StronglySorted Z.gt (map al_id (recent to_lowercase q s))
  /\ Forall (fun e => AccessLogEntry_matches to_lowercase e q = true /\ e ∈ al_buffer s) (recent to_lowercase q s)
  /\ Z.of_nat (length (recent to_lowercase q s)) <= Z.max 0 (Z.min (default DEFAULT_LIMIT (lq_limit q)) MAX_LIMIT).
Proof.
  intros (_ & Hs & _). unfold recent. split_and!.
  - assert (Et : forall n (l : list AccessLogEntry), map al_id (take n l) = take n (map al_id l)) by (intros n l; apply fmap_take).
    rewrite Et. apply take_sorted. by apply filter_reverse_sorted.
  - apply Forall_take, Forall_forall. intros e He. rewrite list_elem_of_In in He. apply filter_In in He as [He Hm]. split; [done|].
    apply list_elem_of_In. by rewrite in_rev.
  - rewrite length_take. lia.
Qed.

(** ** Countries *)

Definition of_country (code : string) (e : AccessLogEntry) : bool := bool_decide (to_ascii_uppercase <$> al_country e = Some code).

Lemma count_countries l s :
  (forall code, default 0 ((fold_left count_country l s).1 !! code) = default 0 (s.1 !! code) + count (of_country code) l)
  /\ (fold_left count_country l s).2 = s.2 + count (fun e => is_some (al_country e)) l.
Proof.
  revert s. induction l as [|e l IH]; intros s; cbn [fold_left count]; [split; [intros code|]; lia|].
  destruct (IH (count_country s e)) as [IH1 IH2]. split.
  - intros code. rewrite IH1. unfold count_country, of_country. destruct (al_country e) as [c|]; cbn [fst snd is_some].
    + destruct (decide (to_ascii_uppercase c = code)) as [<-|Hne].
      * rewrite lookup_insert_eq, bool_decide_true by done. cbn [from_option]. unfold id. lia.
      * rewrite lookup_insert_ne, bool_decide_false by (cbn; congruence). lia.
    + rewrite bool_decide_false by done. lia.
  - rewrite IH2. unfold count_country. destruct (al_country e); cbn [fst snd is_some]; lia.
Qed.

(** The counts of the map are the numbers of the entries, the total is the number of entries with
    a country, and the top countries are at most ten of them with their counts, the highest first. *)
Lemma geo_distribution_exact p s :
  let entries := List.filter (fun e => p (al_resource_id e)) (al_buffer s) in
  let g := geo_distribution_matching p s in
  (forall code, default 0 (tg_country_counts g !! code) = count (of_country code) entries)
  /\ tg_total_resolved g = count (fun e => is_some (al_country e)) entries
  /\ (length (tg_top_countries g) <= 10)%nat
  /\ Forall (fun c => tg_country_counts g !! ct_country c = Some (ct_count c)) (tg_top_countries g).
Proof.
  intros entries. unfold geo_distribution_matching. fold entries. destruct (count_countries entries (∅, 0)) as [H1 H2].
  destruct (fold_left count_country entries (∅, 0)) as [counts total]. cbn [fst snd tg_country_counts tg_total_resolved tg_top_countries] in *.
  split_and!.
  - intros code. rewrite H1, lookup_empty. cbn. lia.
  - rewrite H2. lia.
  - rewrite length_map, length_take. lia.
  - apply Forall_map, Forall_take, Forall_forall. intros [c n] Hin. cbn. unfold ranked in Hin.
    rewrite !sort_by_elem_of in Hin. by apply elem_of_map_to_list.
Qed.

(** ** Properties and findings *)

(** C19: The entry that the access log gets of a request holds no value that its name marks as a
    secret.  A preview of the body is there only for a text whose stated length fits, and for JSON it
    is the text of a value in which every field with such a name, at any depth, is replaced, while a
    place that is not below one holds what it held; of a form each pair is kept or redacted in turn.
    Of the request and of an answer there is one entry for each header line, in their order, with the
    name, and with the value if the name is not one of a secret. *)
Theorem secrets_redacted `{HDR : HeaderOps} `{JSON : JsonText} {B : Type} (h : Headers) (method uri proto : string) (read : BodyRead)
  (resource_id : option ShortId) (client_ip : IpAddr) (country : option string) (mapped : result (Response B) string) :
  let e := proxied_log_entry h method uri proto read resource_id client_ip country mapped in
  let e3 := h3_log_entry h method uri resource_id client_ip country mapped in
  (forall preview, al_request_body e = Some preview ->
     exists data length, read = ReadBytes data true /\ (h_get h "content-length" ≫= to_str) ≫= parse_uint u64_max = Some length
       /\ 0 < length <= 16384 /\ body_logged data preview)
  /\ al_request_body e3 = None
  /\ Forall2 header_logged (h_iter h) (al_request_headers e) /\ al_request_headers e3 = al_request_headers e
  /\ al_response_headers e3 = al_response_headers e
  /\ match mapped with
     | Ok res => Forall2 header_logged (h_iter (res_headers res)) (al_response_headers e)
     | Err _ => al_response_headers e = []
     end.
Proof.
  intros e e3. split; [|split; [subst e3; unfold h3_log_entry, access_log_entry; by destruct mapped|]].
  - intros preview Hp. assert ((buffer_request_body (h_get h "content-length" ≫= to_str)
      (is_some_and (fun v => eq_ignore_ascii_case v "websocket") (h_get h "upgrade")) read).2 = Some preview) as Hb.
    { revert Hp. subst e. unfold proxied_log_entry, access_log_entry. by destruct mapped. }
    revert Hb. unfold buffer_request_body, should_buffer. destruct (_ ≫= parse_uint u64_max) as [len|]; [|done].
    destruct (_ && (0 <? len) && _) eqn:El; [|done]. destruct read as [data [|]|]; [|done..].
    cbn [snd]. intros Hs. exists data, len. split; [done|]. split; [done|]. split; [lia|]. by apply preview_logged.
  - subst e e3. unfold proxied_log_entry, h3_log_entry, access_log_entry.
    destruct mapped as [res|err]; cbn; repeat split; try apply headers_logged.
Qed.

Definition sample_json : JsonValue :=
  JObject [("user", JString "ada"); ("auth", JArray [JObject [("Password", JString "hunter2"); ("note", JNumber "7")]]); ("tokens", JArray [JString "t"])].

Definition quoted_text (s : string) : string := String "034" (s +:+ String "034" EmptyString).

(** The text of a value whose strings need no escape. *)
Fixpoint plain_json_text (v : JsonValue) : string :=
  match v with
  | JNull => "null"
  | JBool b => if b then "true" else "false"
  | JNumber text => text
  | JString s => quoted_text s
  | JArray items => "[" +:+ join_with "," (map plain_json_text items) +:+ "]"
  | JObject fields =>
      "{" +:+ join_with "," ((fix go (l : list (string * JsonValue)) : list string :=
                       match l with
                       | [] => []
                       | (k, x) :: rest => (quoted_text k +:+ ":" +:+ plain_json_text x) :: go rest
                       end) fields) +:+ "}"
  end.

Definition sample_text : JsonText :=
  {| json_from_str s := if String.eqb s (plain_json_text sample_json) then Some sample_json else None; json_to_string v := Some (plain_json_text v) |}.

Definition sample_entry (headers : list (string * string)) (data : string) : AccessLogEntry :=
  proxied_log_entry (HDR := plain_header_ops) (JSON := sample_text) headers "POST" "/login" "https" (ReadBytes data true) None (V4 1) None
    (Ok (mkResponse (HDR := plain_header_ops) 200 [("set-cookie", "sid=1"); ("server", "x")] tt)).

Definition sample_redacted : JsonValue :=
  JObject [("user", JString "ada"); ("auth", JArray [JObject [("Password", JString REDACTED); ("note", JNumber "7")]]); ("tokens", JString REDACTED)].

Lemma secrets_redacted_witness :
  al_request_body (sample_entry [("content-length", "97"); ("cookie", "sid=1")] (plain_json_text sample_json)) = Some (plain_json_text sample_redacted)
  /\ al_request_body (sample_entry [("content-length", "24")] "name=ada&api_key=k1&x") = Some "name=ada&api_key=[REDACTED]&x"
  /\ al_request_headers (sample_entry [("content-length", "24"); ("cookie", "sid=1")] "x") = [mkHeaderEntry "content-length" "24"; mkHeaderEntry "cookie" REDACTED]
  /\ exists data length, ReadBytes "name=ada&api_key=k1&x" true = ReadBytes data true /\ parse_uint u64_max "24" = Some length
       /\ 0 < length <= 16384 /\ body_logged (JSON := sample_text) data "name=ada&api_key=[REDACTED]&x".
Proof.
  split; [vm_compute; reflexivity|]. split; [vm_compute; reflexivity|]. split; [vm_compute; reflexivity|].
  refine (proj1 (secrets_redacted (HDR := plain_header_ops) (JSON := sample_text) [("content-length", "24")] "POST" "/login" "https"
    (ReadBytes "name=ada&api_key=k1&x" true) None (V4 1) None (Ok (mkResponse (HDR := plain_header_ops) 200 [("set-cookie", "sid=1"); ("server", "x")] tt))) _ _).
  vm_compute. reflexivity.
Defined.

(** The name of a form field is compared as it is written, so an escaped letter hides it, and the
    target of the request is kept with its query. *)
Lemma escaped_name_kept :
  redact_form_data "pass%77ord=hunter2" = "pass%77ord=hunter2"
  /\ al_uri (access_log_entry (HDR := plain_header_ops) (B := unit)
       (mkAccessLogMeta None (V4 1) None "GET" "a.example" "/login?password=hunter2" "https" [] None None false) (Err "")) = "/login?password=hunter2".
Proof. vm_compute. done. Qed.

(** The identifier is taken before the lock of the buffer, so two requests that end at the same
    time can stand in the wrong order, and a reader that asks for what came after the one it has
    seen never gets the other. *)
Definition blank : AccessLogEntry := access_log_entry (HDR := plain_header_ops) (B := unit) (mkAccessLogMeta None (V4 1) None "GET" "" "/" "https" [] None None false) (Err "").

Lemma entries_out_of_order :
  exists s1 s2, rtc log_step log_new s1 /\ rtc log_step s1 s2
  /\ map al_id (recent (fun x => x) (mkAccessLogQuery None None None None None None) s1) = [2]
  /\ map al_id (recent (fun x => x) (mkAccessLogQuery None None None None None None) s2) = [1; 2]
  /\ recent (fun x => x) (mkAccessLogQuery None None None None (Some 2) None) s2 = [].
Proof.
  exists (record_push 1 (record_take blank (record_take blank log_new))), (record_push 0 (record_push 1 (record_take blank (record_take blank log_new)))).
  split; [|split; [apply rtc_once, step_push|vm_compute; done]].
  etrans; [apply rtc_once, (step_take blank)|]. etrans; [apply rtc_once, (step_take blank)|]. apply rtc_once, step_push.
Qed.

Lemma access_log_bounded_witness :
  Z.of_nat (length (al_buffer (record blank log_new))) <= DEFAULT_CAPACITY /\ NoDup (map al_id (al_buffer (record blank log_new))).
Proof.
  apply (access_log_bounded 2); [|vm_compute; reflexivity].
  apply (nsteps_l log_step 1 log_new (record_take blank log_new)); [apply step_take|]. apply nsteps_once, (step_push 0 (record_take blank log_new)).
Defined.
