(* ===== verification/Certs.v ===== *)
(** * Certificates

    The list of certificates of the server ([server/cert_list.rs]), the part of [certs/mod.rs] and
    [certs/acme.rs] that it reads, the choice of the certificate of a handshake ([proxy/tls.rs]),
    the deletion and the coverage of domains ([server/rpc/certs.rs], [api/cert_coverage.rs]).
    Reading PEM texts, keys and the trust store of the [rustls] crate are an interface. *)

From Stdlib Require Import Ascii.
From S2P Require Import Prelude Basics IpText Net Router ProxyList.

(** [ASN1Time]: nanoseconds since the Unix epoch; [timestamp] gives its seconds. *)
Definition ASN1Time : Type := Z.
Definition timestamp (t : ASN1Time) : Z := t / 1000000000.

Inductive CertKind : Type := Server | Client | Root.

#[export] Instance CertKind_eq_dec : EqDecision CertKind. Proof. solve_decision. Defined.

(** [created_at] in seconds since the Unix epoch. *)
Record CertMetadata : Type := mkCertMetadata { acme_id : ShortId; created_at : Z }.

Record Cert : Type := mkCert {
  c_id : ShortId;
  c_kind : CertKind;
  c_has_key : bool;
  c_pem_chain : string;
  c_pem_key : option string;
  c_fingerprint : string;
  c_san : list SubjectName;
  c_not_after : ASN1Time;
  c_not_before : ASN1Time;
  c_metadata : option CertMetadata;
  c_source : option DiscoverySource;
}.

(** What the code calls of the PEM and TLS crates: the certificates of a chain, the key pair that
    signs handshakes, its private key, whether the trust store takes a certificate, and whether a
    client configuration takes a chain with a key. *)
Class TlsOps : Type := {
  Der : Type;
  PrivateKey : Type;
  CertifiedKey : Type;
  certificates : string -> option (list Der);
  certified_impl : string -> option string -> option CertifiedKey;
  private_key_der : option string -> option PrivateKey;
  trust_anchor : Der -> bool;
  client_auth_ok : list Der -> PrivateKey -> bool;
}.

(** ** One certificate *)

(** [PartialOrd]: the newest first. *)
Definition cert_cmp (a b : Cert) : comparison :=
  match Z.compare (c_not_before b) (c_not_before a) with
  | Eq => match Z.compare (c_not_after a) (c_not_after b) with Eq => String.compare (c_fingerprint a) (c_fingerprint b) | c => c end
  | c => c
  end.

Definition is_valid (now : ASN1Time) (c : Cert) : bool := (c_not_before c <=? now) && (now <=? c_not_after c).

(** [n.trim_start_matches(|c| c != '.').trim_start_matches('.')]. *)
Definition after_label (n : string) : string := trim_start_matches (Ascii.eqb ".") (trim_start_matches (fun c => negb (Ascii.eqb c ".")) n).

Definition san_matches (san name : SubjectName) : bool :=
  match san, name with
  | DnsName c, DnsName n => String.eqb c n
  | WildcardDnsName c, DnsName n => String.eqb c (after_label n)
  | WildcardDnsName c, WildcardDnsName n => String.eqb c n
  | IPAddress c, IPAddress n => bool_decide (c = n)
  | _, _ => false
  end.

Definition has_subject_name (c : Cert) (name : SubjectName) : bool := existsb (fun san => san_matches san name) (c_san c).

Inductive ExpiryState : Type := EValid | EExpiring | EExpired.

(** [warning] is a [Duration]; times are Unix seconds. *)
Definition expiry_state (not_after now : Z) (warning : Duration) : ExpiryState :=
  let warning := Z.min (warning / 1000000000) i64_max in
  if not_after <=? now then EExpired
  else if not_after <=? sat_add i64_max now warning then EExpiring
  else EValid.

(** ** The targets of ACME *)

Record AcmeTarget : Type := mkAcmeTarget { t_acme_id : ShortId; t_identifiers : list string }.

#[export] Instance AcmeTarget_eq_dec : EqDecision AcmeTarget. Proof. solve_decision. Defined.
#[export] Instance AcmeTarget_countable : Countable AcmeTarget.
Proof. apply (inj_countable' (fun t => (t_acme_id t, t_identifiers t)) (fun p => mkAcmeTarget p.1 p.2)). by intros []. Defined.

(** [Vec::dedup]. *)
Fixpoint dedup (l : list string) : list string :=
  match l with
  | x :: ((y :: _) as r) => if String.eqb x y then dedup r else x :: dedup r
  | _ => l
  end.

Definition AcmeTarget_new (acme : ShortId) (names : list string) : AcmeTarget :=
  mkAcmeTarget acme (dedup (sort_by (fun a b => not_gt (String.compare a b)) (map to_ascii_lowercase names))).

Definition of_cert (c : Cert) : option AcmeTarget :=
  (fun m => AcmeTarget_new (acme_id m) (map SubjectName_to_string (c_san c))) <$> c_metadata c.

(** The derived order of targets. *)
Fixpoint list_compare {A} (cmp : A -> A -> comparison) (a b : list A) : comparison :=
  match a, b with
  | [], [] => Eq
  | [], _ => Lt
  | _, [] => Gt
  | x :: a, y :: b => match cmp x y with Eq => list_compare cmp a b | c => c end
  end.

Definition target_cmp (a b : AcmeTarget) : comparison :=
  match list_compare Z.compare (t_acme_id a) (t_acme_id b) with
  | Eq => list_compare String.compare (t_identifiers a) (t_identifiers b)
  | c => c
  end.

(** ** The map of certificates by identifier, in its order *)

Definition cert_ids (l : list Cert) : list ShortId := map c_id l.

Definition has_id (i : ShortId) (l : list Cert) : bool := existsb (fun c => bool_decide (c_id c = i)) l.

Definition find_id (i : ShortId) (l : list Cert) : option Cert := List.find (fun c => bool_decide (c_id c = i)) l.

(** [IndexMap::insert]. *)
Definition im_insert (c : Cert) (l : list Cert) : list Cert :=
  if has_id (c_id c) l then map (fun x => if bool_decide (c_id x = c_id c) then c else x) l else l ++ [c].

(** [IndexMap::swap_remove]: the last value moves to the free place. *)
Fixpoint im_swap_remove (i : ShortId) (l : list Cert) : list Cert :=
  match l with
  | [] => []
  | c :: r =>
      if bool_decide (c_id c = i) then match last r with Some z => z :: removelast r | None => [] end
      else c :: im_swap_remove i r
  end.

Definition im_extend (cs l : list Cert) : list Cert := fold_left (fun l c => im_insert c l) cs l.

(** [collect] to a [HashMap]. *)
Definition to_map {V} (f : Cert -> V) (l : list Cert) : gmap ShortId V := fold_left (fun m c => <[c_id c := f c]> m) l ∅.

(** No two values are equal in this order: the identifier is a part of the fingerprint, so the
    order that the unstable sort gives is the only one. *)
Definition sort_certs (l : list Cert) : list Cert := sort_by (fun a b => not_gt (cert_cmp a b)) l.

Section CertLists.
Context `{TLS : TlsOps} `{HEX : Hex}.

Record CertList : Type := mkCertList { certs : list Cert; system_root_certs : list Der; root_certs : list Der }.

(** ** The trust store *)

Definition is_root (c : Cert) : bool := bool_decide (c_kind c = Root).

Definition anchors (c : Cert) : list Der := List.filter trust_anchor (default [] (certificates (c_pem_chain c))).

Definition update_root_certs (l : CertList) : CertList :=
  mkCertList (certs l) (system_root_certs l) (system_root_certs l ++ flat_map anchors (List.filter is_root (certs l))).

(** ** Operations *)

Definition set_certs (cs : list Cert) (l : CertList) : CertList := mkCertList cs (system_root_certs l) (root_certs l).

(** [native] are the root certificates of the system. *)
Definition CertList_new (native : list Der) (cs : list Cert) : CertList :=
  let system := List.filter trust_anchor native in
  update_root_certs (mkCertList (sort_certs (im_extend cs [])) system []).

Definition find_certs_for_target (t : AcmeTarget) (l : CertList) : list Cert :=
  List.filter (fun c => bool_decide (of_cert c = Some t)) (certs l).

Fixpoint parse_names (server_name : string -> bool) (names : list string) : result (list SubjectName) Error :=
  match names with
  | [] => Ok []
  | n :: rest => let? n := SubjectName_from_str server_name n in let? ns := parse_names server_name rest in Ok (n :: ns)
  end.

Definition covers (server_name : string -> bool) (names : list string) (now : ASN1Time) (l : CertList) : bool :=
  match parse_names server_name names with
  | Err _ => false
  | Ok names =>
      existsb (fun c => bool_decide (c_kind c = Server) && c_has_key c && is_valid now c && forallb (has_subject_name c) names) (certs l)
  end.

(** The groups of the certificates by target, in the order of the targets. *)
Definition target_groups (l : CertList) : list (AcmeTarget * list Cert) :=
  map (fun t => (t, find_certs_for_target t l))
    (sort_by (fun a b => not_gt (target_cmp a b)) (remove_dups (omap of_cert (certs l)))).

Definition expired_of (active : gset AcmeTarget) (now : ASN1Time) (g : AcmeTarget * list Cert) : list ShortId :=
  let expired := map c_id (List.filter (fun c => c_not_after c <? now) g.2) in
  if bool_decide (g.1 ∈ active) && Nat.eqb (length expired) (length g.2) then tail expired else expired.

Definition expired_acme_certs (active : gset AcmeTarget) (now : ASN1Time) (l : CertList) : list ShortId :=
  flat_map (expired_of active now) (target_groups l).

Definition get (i : ShortId) (l : CertList) : option Cert := find_id i (certs l).

Definition add (c : Cert) (l : CertList) : CertList :=
  let l := set_certs (sort_certs (im_insert c (certs l))) l in
  if is_root c then update_root_certs l else l.

Definition delete_cert (i : ShortId) (l : CertList) : result CertList Error :=
  match get i l with
  | None => Err (IdNotFound (ShortId_to_string i))
  | Some c =>
      let l := set_certs (im_swap_remove i (certs l)) l in
      Ok (if is_root c then update_root_certs l else l)
  end.

Definition is_stored (c : Cert) : bool := negb (is_some (c_source c)).

Definition replace_stored (cs : list Cert) (l : CertList) : bool * CertList :=
  if bool_decide (to_map c_fingerprint (List.filter is_stored (certs l)) = to_map c_fingerprint cs) then (false, l)
  else
    (true, update_root_certs (set_certs (sort_certs (im_extend cs (List.filter (fun c => is_some (c_source c)) (certs l)))) l)).

Definition owned (p : DiscoveryProvider) (c : Cert) : bool := is_some_and (fun s => bool_decide (provider s = p)) (c_source c).

Definition replace_discovered (p : DiscoveryProvider) (cs : list Cert) (l : CertList) : bool * CertList :=
  let current := to_map c_source (List.filter (owned p) (certs l)) in
  let next := im_extend (List.filter (fun c => is_none_or (owned p) (get (c_id c) l)) cs) [] in
  if Nat.eqb (size current) (length next) && forallb (fun c => bool_decide (current !! c_id c = Some (c_source c))) next then (false, l)
  else (true, update_root_certs (set_certs (sort_certs (im_extend next (List.filter (fun c => negb (owned p c)) (certs l)))) l)).

(** ** The certificate of a handshake *)

Record CertResolver : Type := mkCertResolver {
  r_certs : list Cert;
  r_default_names : list SubjectName;
  r_sni : bool;
  r_cache : gmap ShortId CertifiedKey;
}.

Definition CertResolver_new (cs : list Cert) (names : list SubjectName) (sni : bool) : CertResolver := mkCertResolver cs names sni ∅.

Definition server_cert_resolver (l : CertList) (names : list SubjectName) : CertResolver :=
  CertResolver_new (List.filter (fun c => bool_decide (c_kind c = Server)) (certs l)) names true.

Definition certified_key (c : Cert) : option CertifiedKey := certified_impl (c_pem_chain c) (c_pem_key c).

Definition get_or_load_certified_key (c : Cert) (r : CertResolver) : option CertifiedKey * CertResolver :=
  match r_cache r !! c_id c with
  | Some k => (Some k, r)
  | None =>
      match certified_key c with
      | Some k => (Some k, mkCertResolver (r_certs r) (r_default_names r) (r_sni r) (<[c_id c := k]> (r_cache r)))
      | None => (None, r)
      end
  end.

(** The names of a handshake: [sni] is the server name of the client. *)
Definition requested_names (sni : option string) (r : CertResolver) : list SubjectName :=
  match sni with
  | Some n => if r_sni r then [DnsName n] else r_default_names r
  | None => r_default_names r
  end.

Definition fits (names : list SubjectName) (now : ASN1Time) (c : Cert) : bool := is_valid now c && forallb (has_subject_name c) names.

Fixpoint first_loadable (cs : list Cert) (r : CertResolver) : option CertifiedKey * CertResolver :=
  match cs with
  | [] => (None, r)
  | c :: rest =>
      match get_or_load_certified_key c r with
      | (Some k, r) => (Some k, r)
      | (None, r) => first_loadable rest r
      end
  end.

Definition resolve_cert (sni : option string) (now : ASN1Time) (r : CertResolver) : option CertifiedKey * CertResolver :=
  first_loadable (List.filter (fits (requested_names sni r) now) (r_certs r)) r.

(** ** Client certificates *)

Inductive ClientAuthMode : Type := AuthOff | AuthOptional | AuthRequired.

Definition is_off (m : ClientAuthMode) : bool := match m with AuthOff => true | _ => false end.

Fixpoint add_anchors (i : ShortId) (ders : list Der) (roots : list Der) : result (list Der) Error :=
  match ders with
  | [] => Ok roots
  | d :: rest => if trust_anchor d then add_anchors i rest (roots ++ [d]) else Err (InvalidClientCaCert i)
  end.

Fixpoint client_roots_of (ids : list ShortId) (l : CertList) (roots : list Der) : result (list Der) Error :=
  match ids with
  | [] => Ok roots
  | i :: rest =>
      match get i l with
      | Some c =>
          if bool_decide (c_kind c = Root) then
            match certificates (c_pem_chain c) with
            | Some ders => let? roots := add_anchors i ders roots in client_roots_of rest l roots
            | None => Err FailedToReadCertificate
            end
          else Err (InvalidClientCaCert i)
      | None => Err (InvalidClientCaCert i)
      end
  end.

Definition client_roots (ids : list ShortId) (l : CertList) : result (list Der) Error :=
  match ids with [] => Err ClientCaCertsMissing | _ => client_roots_of ids l [] end.

Definition validate_client_auth (mode : ClientAuthMode) (ids : list ShortId) (l : CertList) : result unit Error :=
  if is_off mode then Ok tt else let? _ := client_roots ids l in Ok tt.

(** The trusted roots, and the chain with the key that the client sends. *)
Record ClientConfig : Type := mkClientConfig { cc_roots : list Der; cc_auth : option (list Der * PrivateKey) }.

Definition upstream_client_config (l : CertList) (cert : option ShortId) : result ClientConfig Error :=
  match cert with
  | None => Ok (mkClientConfig (root_certs l) None)
  | Some i =>
      match get i l with
      | Some c =>
          if bool_decide (c_kind c = Client) then
            match certificates (c_pem_chain c), private_key_der (c_pem_key c) with
            | Some chain, Some key =>
                if client_auth_ok chain key then Ok (mkClientConfig (root_certs l) (Some (chain, key))) else Err (InvalidClientCert i)
            | _, _ => Err (InvalidClientCert i)
            end
          else Err (InvalidClientCert i)
      | None => Err (InvalidClientCert i)
      end
  end.

(** ** Deletion *)

(** What the configuration uses: the client certificates of the providers, the trusted roots of
    each port and the client certificate of each proxy. *)
Record CertUses : Type := mkCertUses {
  u_docker : option ShortId;
  u_etcd : option ShortId;
  u_ports : list (option (list ShortId));
  u_proxies : list (option ShortId);
}.

Definition ensure_unused (i : ShortId) (u : CertUses) : result unit Error :=
  if bool_decide (u_docker u = Some i) || bool_decide (u_etcd u = Some i) then Err (CertificateInUse i)
  else if existsb (is_some_and (fun cas => bool_decide (i ∈ cas))) (u_ports u) || existsb (fun c => bool_decide (c = Some i)) (u_proxies u)
       then Err (CertificateInUse i)
       else Ok tt.

(** [stored] is what the storage answers. *)
Definition remove_cert (u : CertUses) (stored : result unit Error) (i : ShortId) (l : CertList) : result CertList Error :=
  match get i l with
  | None => Err (IdNotFound (ShortId_to_string i))
  | Some c =>
      if is_some (c_source c) then Err (CertificateReadOnly i)
      else
        let? _ := ensure_unused i u in
        let? _ := stored in
        delete_cert i l
  end.

Inductive DeleteCertStatus : Type := Deleted | InUse | ReadOnly | NotFound | Failed.

#[export] Instance DeleteCertStatus_eq_dec : EqDecision DeleteCertStatus. Proof. solve_decision. Defined.

Definition delete_status {A} (r : result A Error) : DeleteCertStatus :=
  match r with
  | Ok _ => Deleted
  | Err (IdNotFound _) => NotFound
  | Err (CertificateInUse _) => InUse
  | Err (CertificateReadOnly _) => ReadOnly
  | Err _ => Failed
  end.

Definition MAX_DELETE_CERTS : Z := 200.

(** [filter(|id| seen.insert(id))]. *)
Fixpoint first_seen (seen : gset ShortId) (l : list ShortId) : list ShortId :=
  match l with
  | [] => []
  | i :: l => if bool_decide (i ∈ seen) then first_seen seen l else i :: first_seen ({[ i ]} ∪ seen) l
  end.

Fixpoint delete_all (u : CertUses) (stored : ShortId -> result unit Error) (ids : list ShortId) (l : CertList)
  : list (ShortId * DeleteCertStatus) * CertList :=
  match ids with
  | [] => ([], l)
  | i :: rest =>
      let r := remove_cert u (stored i) i l in
      let '(results, l) := delete_all u stored rest (match r with Ok l => l | Err _ => l end) in
      ((i, delete_status r) :: results, l)
  end.

(** [DeleteCerts]; the boolean tells whether the ports and the proxies are updated. *)
Definition delete_certs (u : CertUses) (stored : ShortId -> result unit Error) (ids : list ShortId) (l : CertList)
  : result (list (ShortId * DeleteCertStatus) * bool) Error * CertList :=
  if MAX_DELETE_CERTS <? Z.of_nat (length ids) then (Err (TooManyCertificates MAX_DELETE_CERTS), l)
  else
    let '(results, l) := delete_all u stored (first_seen ∅ ids) l in
    (Ok (results, existsb (fun r => bool_decide (r.2 = Deleted)) results), l).

(** ** The coverage of domains *)

Inductive DomainSslStatus : Type :=
| CoveredByWildcard (wildcard_cert_id : ShortId) (pattern : string)
| DedicatedCert (cert_id : ShortId)
| CnameOrExternal (suggested_cname_target : string)
| Expired (cert_id : ShortId)
| NoCertificate.

Record DomainCoverageInfo : Type := mkDomainCoverageInfo {
  dc_domain : string;
  dc_status : DomainSslStatus;
  dc_is_wildcard_shared : bool;
  dc_root_domain : option string;
}.

(** [trim_end_matches('.')]. *)
Fixpoint trim_end_dots (s : string) : string :=
  match s with
  | EmptyString => EmptyString
  | String c r => match trim_end_dots r with EmptyString => if Ascii.eqb c "." then EmptyString else String c EmptyString | r => String c r end
  end.

Definition extract_root_domain (domain : string) : option string :=
  match split_on "." (trim_end_dots (trim domain)) with
  | _ :: ((_ :: _ :: _) as rest) => Some (join_with "." rest)
  | _ => None
  end.

Definition DomainCoverageInfo_new (domain : string) (status : DomainSslStatus) : DomainCoverageInfo :=
  mkDomainCoverageInfo domain status (match status with CoveredByWildcard _ _ => true | _ => false end) (extract_root_domain domain).

Definition usable (now : ASN1Time) (c : Cert) : bool := bool_decide (c_kind c = Server) && c_has_key c && is_valid now c.

Definition wildcard_root (domain : string) (san : SubjectName) : option string :=
  match san with WildcardDnsName root => if SubjectName_test san domain then Some root else None | _ => None end.

Fixpoint find_active_wildcard_cert (domain : string) (now : ASN1Time) (cs : list Cert) : option (Cert * string) :=
  match cs with
  | [] => None
  | c :: rest =>
      if usable now c then
        match omap (wildcard_root domain) (c_san c) with
        | root :: _ => Some (c, String.append "*." root)
        | [] => find_active_wildcard_cert domain now rest
        end
      else find_active_wildcard_cert domain now rest
  end.

Definition find_active_dedicated_cert (subject : SubjectName) (now : ASN1Time) (cs : list Cert) : option Cert :=
  List.find (fun c => usable now c && has_subject_name c subject) cs.

Definition find_expired_cert (subject : SubjectName) (now : ASN1Time) (cs : list Cert) : option Cert :=
  List.find (fun c => bool_decide (c_kind c = Server) && c_has_key c && has_subject_name c subject && negb (is_valid now c)) cs.

Definition evaluate_domain_coverage (server_name : string -> bool) (now : ASN1Time) (l : CertList) (domain default_target : string) : DomainCoverageInfo :=
  let clean := trim_end_dots (trim domain) in
  match SubjectName_from_str server_name clean with
  | Err _ => DomainCoverageInfo_new clean NoCertificate
  | Ok subject =>
      match find_active_wildcard_cert clean now (certs l) with
      | Some (c, pattern) => DomainCoverageInfo_new clean (CoveredByWildcard (c_id c) pattern)
      | None =>
          match find_active_dedicated_cert subject now (certs l) with
          | Some c => DomainCoverageInfo_new clean (DedicatedCert (c_id c))
          | None =>
              match find_expired_cert subject now (certs l) with
              | Some c => DomainCoverageInfo_new clean (Expired (c_id c))
              | None =>
                  DomainCoverageInfo_new clean
                    (if is_some (extract_root_domain clean) then CnameOrExternal default_target else NoCertificate)
              end
          end
      end
  end.

Definition check_domains_coverage (server_name : string -> bool) (now : ASN1Time) (l : CertList) (domains : list string) (default_target : string)
  : list DomainCoverageInfo :=
  map (fun d => evaluate_domain_coverage server_name now l d default_target) domains.

End CertLists.

(** ** The order of the certificates *)

Lemma cert_le_spec a b :
  not_gt (cert_cmp a b) = true <->
  c_not_before b < c_not_before a
  \/ c_not_before b = c_not_before a
     /\ (c_not_after a < c_not_after b \/ c_not_after a = c_not_after b /\ not_gt (String.compare (c_fingerprint a) (c_fingerprint b)) = true).
Proof.
  unfold cert_cmp. destruct (Z.compare_spec (c_not_before b) (c_not_before a)), (Z.compare_spec (c_not_after a) (c_not_after b));
    cbn [not_gt]; intuition (try lia; try done).
Qed.

Lemma cert_le_total a b : not_gt (cert_cmp a b) = true \/ not_gt (cert_cmp b a) = true.
Proof.
  rewrite !cert_le_spec. pose proof (string_compare_total (c_fingerprint a) (c_fingerprint b)) as Ht.
  destruct (Z.lt_trichotomy (c_not_before a) (c_not_before b)) as [|[|]], (Z.lt_trichotomy (c_not_after a) (c_not_after b)) as [|[|]];
    first [left; lia|right; lia|destruct Ht; [left|right]; right; (split; [lia|right]); (split; [lia|done])].
Qed.

Lemma cert_le_trans a b c : not_gt (cert_cmp a b) = true -> not_gt (cert_cmp b c) = true -> not_gt (cert_cmp a c) = true.
Proof.
  rewrite !cert_le_spec. intros H1 H2.
  assert (Ht : not_gt (String.compare (c_fingerprint a) (c_fingerprint b)) = true -> not_gt (String.compare (c_fingerprint b) (c_fingerprint c)) = true ->
    not_gt (String.compare (c_fingerprint a) (c_fingerprint c)) = true) by (intros; by eapply string_compare_trans).
  destruct H1 as [|(E1 & [|(E2 & F1)])], H2 as [|(E3 & [|(E4 & F2)])]; try lia. right. split; [lia|right]. split; [lia|auto].
Qed.

Definition newest_first (l : list Cert) : Prop := sorted_by (fun a b => not_gt (cert_cmp a b)) l.

Lemma sort_certs_sorted l : newest_first (sort_certs l).
Proof. apply sort_by_sorted; [apply cert_le_total|apply cert_le_trans]. Qed.

(** ** The map *)

Lemma has_id_spec i l : has_id i l = true <-> i ∈ cert_ids l.
Proof.
  unfold has_id, cert_ids. rewrite existsb_exists, (list_elem_of_fmap c_id). split.
  - intros (c & Hc & Hi). apply bool_decide_eq_true in Hi. exists c. by rewrite list_elem_of_In.
  - intros (c & -> & Hc). exists c. rewrite <-list_elem_of_In. split; [done|by apply bool_decide_eq_true].
Qed.

Lemma find_id_Some i l c : find_id i l = Some c -> c ∈ l /\ c_id c = i.
Proof. unfold find_id. intros H. apply find_some in H as [H1 H2]. apply bool_decide_eq_true in H2. by rewrite list_elem_of_In. Qed.

Lemma find_id_None i l : find_id i l = None -> i ∉ cert_ids l.
Proof.
  unfold find_id. intros H (c & -> & Hc)%(list_elem_of_fmap c_id). apply list_elem_of_In in Hc. apply (find_none _ _ H c) in Hc.
  by rewrite bool_decide_eq_false in Hc.
Qed.

Lemma find_id_in i l : i ∈ cert_ids l -> exists c, find_id i l = Some c.
Proof. intros Hi. destruct (find_id i l) as [c|] eqn:E; [by exists c|]. by apply find_id_None in E. Qed.

(** Under unique identifiers a certificate is the one of its identifier. *)
Lemma unique_id l c d : NoDup (cert_ids l) -> c ∈ l -> d ∈ l -> c_id c = c_id d -> c = d.
Proof.
  unfold cert_ids. induction l as [|x l IH]; [by intros _ ?%elem_of_nil|]. cbn. intros [Hx Hn]%NoDup_cons Hc Hd E.
  assert (Hin : forall y, y ∈ l -> c_id y ∈ map c_id l) by (intros y Hy; by apply (list_elem_of_fmap_2 c_id)).
  apply elem_of_cons in Hc as [->|Hc]; apply elem_of_cons in Hd as [->|Hd]; [done| | |by apply IH].
  - exfalso. apply Hx. rewrite E. by apply Hin.
  - exfalso. apply Hx. rewrite <-E. by apply Hin.
Qed.

Lemma im_insert_ids c l : NoDup (cert_ids l) -> NoDup (cert_ids (im_insert c l)).
Proof.
  intros Hl. unfold im_insert. destruct (has_id (c_id c) l) eqn:E.
  - enough (cert_ids (map (fun x => if bool_decide (c_id x = c_id c) then c else x) l) = cert_ids l) as -> by done.
    unfold cert_ids. rewrite map_map. apply map_ext. intros x. by case_bool_decide.
  - unfold cert_ids in *. rewrite map_app. apply NoDup_app. split_and!; [done| |repeat constructor; by intros ?%elem_of_nil].
    intros i Hi ->%list_elem_of_singleton. apply has_id_spec in Hi. by rewrite Hi in E.
Qed.

Lemma im_insert_elem c l x : x ∈ im_insert c l <-> x = c \/ x ∈ l /\ c_id x <> c_id c.
Proof.
  unfold im_insert. destruct (has_id (c_id c) l) eqn:E.
  - apply has_id_spec in E. rewrite list_elem_of_fmap. split.
    + intros (y & -> & Hy). case_bool_decide as Hi; [by left|by right].
    + intros [->|[Hx Hi]].
      * apply (list_elem_of_fmap c_id) in E as (y & Ey & Hy). exists y. split; [|done]. by rewrite bool_decide_true.
      * exists x. split; [|done]. by rewrite bool_decide_false.
  - assert (Hn : c_id c ∉ cert_ids l) by (intros H%has_id_spec; by rewrite H in E).
    rewrite elem_of_app, list_elem_of_singleton. split; [|tauto].
    intros [Hx| ->]; [|by left]. right. split; [done|]. intros Hi. apply Hn. rewrite <-Hi. by apply (list_elem_of_fmap_2 c_id).
Qed.

Lemma im_extend_ids cs l : NoDup (cert_ids l) -> NoDup (cert_ids (im_extend cs l)).
Proof. revert l. induction cs as [|c cs IH]; intros l Hl; [done|]. cbn. by apply IH, im_insert_ids. Qed.

Lemma im_swap_remove_perm i l c : find_id i l = Some c -> l ≡ₚ c :: im_swap_remove i l.
Proof.
  unfold find_id. induction l as [|x l IH]; [done|]. cbn. case_bool_decide as Hx.
  - intros E. apply (inj Some) in E as ->. f_equiv. destruct (last l) as [z|] eqn:El.
    + apply last_Some in El as [l' ->]. rewrite removelast_last. by rewrite Permutation_app_comm.
    + by apply last_None in El as ->.
  - intros H. rewrite (IH H) at 1. apply Permutation_swap.
Qed.

Lemma im_swap_remove_elem i l c x : NoDup (cert_ids l) -> find_id i l = Some c -> x ∈ im_swap_remove i l <-> x ∈ l /\ c_id x <> i.
Proof.
  intros Hl Hf. pose proof (im_swap_remove_perm i l c Hf) as Hp. apply find_id_Some in Hf as [Hc Hi].
  assert (Hn : NoDup (c_id c :: cert_ids (im_swap_remove i l))) by (change (NoDup (map c_id (c :: im_swap_remove i l))); by rewrite <-Hp).
  apply NoDup_cons in Hn as [Hn _]. split.
  - intros Hx. split; [rewrite Hp, elem_of_cons; by right|]. intros E. apply Hn.
    assert (H : c_id x ∈ cert_ids (im_swap_remove i l)) by (by apply (list_elem_of_fmap_2 c_id)). rewrite E in H. by rewrite Hi.
  - intros [Hx E]. rewrite Hp in Hx. apply elem_of_cons in Hx as [->|Hx]; [by destruct E|done].
Qed.

(** ** The list *)

Section CertFacts.
Context `{TLS : TlsOps} `{HEX : Hex}.

(** The trust store holds the roots of the system and those of the list. *)
Definition roots_exact (l : CertList) : Prop :=
  forall d, d ∈ root_certs l <-> d ∈ system_root_certs l \/ exists c, c ∈ certs l /\ is_root c = true /\ d ∈ anchors c.

Lemma elem_of_bool_filter {A} (p : A -> bool) l x : x ∈ List.filter p l <-> x ∈ l /\ p x = true.
Proof. rewrite !list_elem_of_In. apply filter_In. Qed.

Lemma elem_of_flat_map {A B} (f : A -> list B) l y : y ∈ flat_map f l <-> exists x, x ∈ l /\ y ∈ f x.
Proof. rewrite list_elem_of_In, in_flat_map. by setoid_rewrite list_elem_of_In. Qed.

Lemma update_roots_exact l : roots_exact (update_root_certs l).
Proof.
  intros d. unfold update_root_certs. cbn [root_certs system_root_certs certs]. rewrite elem_of_app, elem_of_flat_map. f_equiv.
  split; intros (c & Hc & Hd).
  - apply elem_of_bool_filter in Hc as [Hc Hr]. by exists c.
  - destruct Hd as [Hr Hd]. exists c. by rewrite elem_of_bool_filter.
Qed.

(** A change of other certificates than roots keeps the trust store exact. *)
Lemma roots_same cs l :
  (forall c, is_root c = true -> c ∈ cs <-> c ∈ certs l) -> roots_exact l -> roots_exact (set_certs cs l).
Proof.
  intros Hc Hr d. cbn [root_certs system_root_certs certs set_certs]. rewrite (Hr d). f_equiv.
  split; intros (c & Hin & Hroot & Hd); exists c; (split; [by apply Hc|done]).
Qed.

(** An operation on the list. *)
Inductive CertOp : Type :=
| OpAdd (c : Cert)
| OpDelete (i : ShortId)
| OpStored (cs : list Cert)
| OpDiscovered (p : DiscoveryProvider) (cs : list Cert).

Definition run_op (o : CertOp) (l : CertList) : CertList :=
  match o with
  | OpAdd c => add c l
  | OpDelete i => match delete_cert i l with Ok l => l | Err _ => l end
  | OpStored cs => (replace_stored cs l).2
  | OpDiscovered p cs => (replace_discovered p cs l).2
  end.

Definition op_certs (o : CertOp) : list Cert :=
  match o with OpAdd c => [c] | OpDelete _ => [] | OpStored cs | OpDiscovered _ cs => cs end.

(** Unique identifiers, and each certificate with the kind of its identifier. *)
Definition list_ok (kind_of : ShortId -> CertKind) (l : CertList) : Prop :=
  NoDup (cert_ids (certs l)) /\ Forall (fun c => c_kind c = kind_of (c_id c)) (certs l) /\ roots_exact l.

Lemma sorted_ids l : NoDup (cert_ids l) -> NoDup (cert_ids (sort_certs l)).
Proof. unfold cert_ids, sort_certs. by rewrite sort_by_perm. Qed.

Lemma sorted_elem x l : x ∈ sort_certs l <-> x ∈ l.
Proof. apply sort_by_elem_of. Qed.

Lemma filter_ids (p : Cert -> bool) l : NoDup (cert_ids l) -> NoDup (cert_ids (List.filter p l)).
Proof.
  unfold cert_ids. induction l as [|c l IH]; [done|]. cbn. intros [Hc Hl]%NoDup_cons. destruct (p c); [|by apply IH]. cbn.
  apply NoDup_cons. split; [|by apply IH]. intros (x & Ex & Hx)%(list_elem_of_fmap c_id). apply Hc. rewrite Ex.
  apply elem_of_bool_filter in Hx as [Hx _]. by apply (list_elem_of_fmap_2 c_id).
Qed.

Lemma im_extend_elem cs l x : x ∈ im_extend cs l -> x ∈ cs \/ x ∈ l.
Proof.
  revert l. induction cs as [|c cs IH]; intros l; cbn; [by right|]. intros [H|H]%IH; [left; set_solver|].
  apply im_insert_elem in H as [->|[H _]]; [left; set_solver|by right].
Qed.

Lemma rebuilt_ok kind_of cs keep l :
  NoDup (cert_ids keep) -> Forall (fun c => c_kind c = kind_of (c_id c)) cs -> Forall (fun c => c_kind c = kind_of (c_id c)) keep ->
  list_ok kind_of (update_root_certs (set_certs (sort_certs (im_extend cs keep)) l)).
Proof.
  intros Hn Hcs Hk. split; [|split]; [cbn; by apply sorted_ids, im_extend_ids| |apply update_roots_exact].
  cbn. rewrite Forall_forall in *. intros x Hx. apply sorted_elem, im_extend_elem in Hx as [Hx|Hx]; auto.
Qed.

Lemma filter_Forall {A} (P : A -> Prop) (p : A -> bool) l : Forall P l -> Forall P (List.filter p l).
Proof. rewrite !Forall_forall. intros H x Hx. apply elem_of_bool_filter in Hx as [Hx _]. by apply H. Qed.

Lemma add_ok kind_of c l : c_kind c = kind_of (c_id c) -> list_ok kind_of l -> list_ok kind_of (add c l).
Proof.
  intros Hc (Hn & Hk & Hr).
  assert (Hk' : Forall (fun c => c_kind c = kind_of (c_id c)) (sort_certs (im_insert c (certs l)))).
  { rewrite Forall_forall in *. intros x Hx. apply sorted_elem, im_insert_elem in Hx as [->|[Hx _]]; auto. }
  unfold add. destruct (is_root c) eqn:E; (split; [cbn; by apply sorted_ids, im_insert_ids|split; [done|]]); [apply update_roots_exact|].
  apply roots_same; [|done]. intros x Hx. rewrite sorted_elem, im_insert_elem. split; [|intros H; right; split; [done|]].
  - intros [->|[H _]]; [by rewrite Hx in E|done].
  - intros Hi. rewrite Forall_forall in Hk. specialize (Hk x H). rewrite Hi, <-Hc in Hk. unfold is_root in *. by rewrite Hk, E in Hx.
Qed.

Lemma cert_delete_ok kind_of i l l' : list_ok kind_of l -> delete_cert i l = Ok l' -> list_ok kind_of l'.
Proof.
  intros (Hn & Hk & Hr). unfold delete_cert, get. destruct (find_id i (certs l)) as [c|] eqn:Ef; [|done]. intros [= <-].
  pose proof (im_swap_remove_perm _ _ _ Ef) as Hp.
  assert (Hn' : NoDup (cert_ids (im_swap_remove i (certs l)))).
  { assert (H : NoDup (c_id c :: cert_ids (im_swap_remove i (certs l)))) by (change (NoDup (map c_id (c :: im_swap_remove i (certs l)))); by rewrite <-Hp).
    by apply NoDup_cons in H as [_ H]. }
  assert (Hk' : Forall (fun c => c_kind c = kind_of (c_id c)) (im_swap_remove i (certs l))).
  { rewrite Hp in Hk. by apply Forall_cons in Hk as [_ Hk]. }
  destruct (is_root c) eqn:E; (split; [done|split; [done|]]); [apply update_roots_exact|]. apply roots_same; [|done].
  intros x Hx. rewrite (im_swap_remove_elem i _ c x Hn Ef). split; [by intros []|]. intros H. split; [done|].
  intros Hi. assert (x = c) as ->; [|by rewrite Hx in E]. apply find_id_Some in Ef as [Hc Hci]. apply (unique_id (certs l)); [done..|]. by rewrite Hi, Hci.
Qed.

Lemma run_op_ok kind_of o l : Forall (fun c => c_kind c = kind_of (c_id c)) (op_certs o) -> list_ok kind_of l -> list_ok kind_of (run_op o l).
Proof.
  intros Ho Hl. pose proof Hl as (Hn & Hk & Hr). destruct o as [c|i|cs|p cs]; cbn [run_op op_certs] in *.
  - apply add_ok; [by apply Forall_cons in Ho as []|done].
  - destruct (delete_cert i l) as [l'|e] eqn:E; [by apply (cert_delete_ok kind_of i l)|done].
  - unfold replace_stored. case_bool_decide; [done|]. apply rebuilt_ok; [by apply filter_ids|done|by apply filter_Forall].
  - unfold replace_discovered. destruct (_ && _); [done|]. apply rebuilt_ok; [by apply filter_ids| |by apply filter_Forall].
    rewrite Forall_forall in *. intros x Hx. apply im_extend_elem in Hx as [Hx|Hx%elem_of_nil]; [|done].
    apply elem_of_bool_filter in Hx as [Hx _]. by apply Ho.
Qed.

Definition is_delete (o : CertOp) : bool := match o with OpDelete _ => true | _ => false end.

Lemma run_op_sorted o l : is_delete o = false -> newest_first (certs l) -> newest_first (certs (run_op o l)).
Proof.
  intros Ho Hl. destruct o as [c|i|cs|p cs]; cbn [run_op]; [|done| |].
  - unfold add. destruct (is_root c); cbn; apply sort_certs_sorted.
  - unfold replace_stored. case_bool_decide; [done|]. cbn. apply sort_certs_sorted.
  - unfold replace_discovered. destruct (_ && _); [done|]. cbn. apply sort_certs_sorted.
Qed.

Definition run_ops (ops : list CertOp) (l : CertList) : CertList := fold_left (fun l o => run_op o l) ops l.

Lemma run_ops_inv (P : CertList -> Prop) (Q : CertOp -> Prop) ops l :
  (forall o l, Q o -> P l -> P (run_op o l)) -> Forall Q ops -> P l -> P (run_ops ops l).
Proof. intros Hs. revert l. induction ops as [|o ops IH]; intros l Hq Hl; [done|]. apply Forall_cons in Hq as [Hq1 Hq2]. apply (IH (run_op o l)); auto. Qed.

(** ** The handshake *)

Definition servable (names : list SubjectName) (now : ASN1Time) (c : Cert) : bool :=
  bool_decide (c_kind c = Server) && fits names now c && is_some (certified_key c).

(** The resolver has the server certificates of the list, and its cache holds their keys. *)
Record resolver_of (l : CertList) (names : list SubjectName) (r : CertResolver) : Prop := {
  ro_certs : r_certs r = List.filter (fun c => bool_decide (c_kind c = Server)) (certs l);
  ro_names : r_default_names r = names;
  ro_sni : r_sni r = true;
  ro_cache : forall c k, c ∈ r_certs r -> r_cache r !! c_id c = Some k -> certified_key c = Some k;
}.

Lemma load_spec l names c r :
  NoDup (cert_ids (certs l)) -> resolver_of l names r -> c ∈ r_certs r ->
  (get_or_load_certified_key c r).1 = certified_key c /\ resolver_of l names (get_or_load_certified_key c r).2.
Proof.
  intros Hn Hr Hc. unfold get_or_load_certified_key. destruct (r_cache r !! c_id c) as [k|] eqn:Ek.
  - cbn. split; [|done]. symmetry. by apply (ro_cache _ _ _ Hr).
  - destruct (certified_key c) as [k|] eqn:Ec; [|done]. cbn. split; [done|].
    destruct Hr as [H1 H2 H3 H4]. split; try done. cbn. intros c' k' Hc' Hk. destruct (decide (c_id c = c_id c')) as [E|E].
    + rewrite <-E, lookup_insert_eq in Hk. apply (inj Some) in Hk as <-.
      assert (c = c') as <-; [|done]. rewrite H1 in Hc, Hc'. apply elem_of_bool_filter in Hc as [Hc _], Hc' as [Hc' _]. by apply (unique_id (certs l)).
    + rewrite lookup_insert_ne in Hk by done. by apply H4.
Qed.

Lemma first_loadable_spec l names cs r :
  NoDup (cert_ids (certs l)) -> resolver_of l names r -> (forall c, c ∈ cs -> c ∈ r_certs r) ->
  (first_loadable cs r).1 = (c ← List.find (fun c => is_some (certified_key c)) cs; certified_key c) /\ resolver_of l names (first_loadable cs r).2.
Proof.
  intros Hn. revert r. induction cs as [|c cs IH]; intros r Hr Hcs; [done|]. cbn [first_loadable].
  assert (Hc : c ∈ r_certs r) by (apply Hcs; set_solver).
  destruct (load_spec l names c r Hn Hr Hc) as [E Hr']. destruct (get_or_load_certified_key c r) as [k r1] eqn:Eg. cbn [fst snd] in E, Hr'.
  destruct k as [k|]; cbn [List.find]; rewrite <-E; cbn [is_some].
  - cbn. by rewrite <-E.
  - apply IH; [done|]. intros x Hx. rewrite (ro_certs _ _ _ Hr'), <-(ro_certs _ _ _ Hr). apply Hcs. set_solver.
Qed.

Lemma find_filter {A} (p q : A -> bool) l : List.find p (List.filter q l) = List.find (fun x => q x && p x) l.
Proof. induction l as [|x l IH]; [done|]. cbn. destruct (q x); cbn; by rewrite IH. Qed.

Lemma find_ext {A} (p q : A -> bool) l : (forall x, p x = q x) -> List.find p l = List.find q l.
Proof. intros H. induction l as [|x l IH]; [done|]. cbn. rewrite H. by rewrite IH. Qed.

Definition handshake_names (sni : option string) (names : list SubjectName) : list SubjectName :=
  match sni with Some n => [DnsName n] | None => names end.

Lemma resolve_cert_spec l names sni now r :
  NoDup (cert_ids (certs l)) -> resolver_of l names r ->
  (resolve_cert sni now r).1 = (c ← List.find (servable (handshake_names sni names) now) (certs l); certified_key c)
  /\ resolver_of l names (resolve_cert sni now r).2.
Proof.
  intros Hn Hr. unfold resolve_cert.
  assert (En : requested_names sni r = handshake_names sni names).
  { unfold requested_names, handshake_names. destruct Hr as [H1 H2 H3 H4]. rewrite H2, H3. by destruct sni. }
  rewrite En. destruct (first_loadable_spec l names (List.filter (fits (handshake_names sni names) now) (r_certs r)) r Hn Hr) as [E Hr'].
  { intros c Hc. by apply elem_of_bool_filter in Hc as []. }
  split; [|done]. rewrite E, find_filter, (ro_certs _ _ _ Hr), find_filter. f_equal. apply find_ext. intros c. unfold servable. by rewrite andb_assoc.
Qed.

(** The first of a sorted list that satisfies a test is the newest one that does. *)
Lemma find_newest (p : Cert -> bool) l c d : newest_first l -> List.find p l = Some c -> d ∈ l -> p d = true -> not_gt (cert_cmp c d) = true.
Proof.
  intros Hs. induction Hs as [|x l Hs IH Hx]; [done|]. cbn. destruct (p x) eqn:E.
  - intros [= <-] Hd _. apply elem_of_cons in Hd as [->|Hd]; [|rewrite Forall_forall in Hx; by apply Hx].
    by destruct (cert_le_total x x).
  - intros Hf Hd Hp. apply elem_of_cons in Hd as [->|Hd]; [by rewrite Hp in E|]. by apply IH.
Qed.

(** ** Expired certificates *)

(** The certificate that stays: the first of an active target whose certificates have all expired. *)
Definition kept (active : gset AcmeTarget) (now : ASN1Time) (l : CertList) (t : AcmeTarget) : option Cert :=
  let group := find_certs_for_target t l in
  if bool_decide (t ∈ active) && forallb (fun c => c_not_after c <? now) group then head group else None.

Lemma length_filter_all {A} (p : A -> bool) l : Nat.eqb (length (List.filter p l)) (length l) = forallb p l.
Proof.
  assert (Hle : forall l : list A, (length (List.filter p l) <= length l)%nat) by (intros m; induction m as [|y m IHm]; cbn; [lia|destruct (p y); cbn; lia]).
  induction l as [|x l IH]; [done|]. cbn. destruct (p x); cbn; [done|]. apply Nat.eqb_neq. specialize (Hle l). lia.
Qed.

Lemma filter_everything {A} (p : A -> bool) l : forallb p l = true -> List.filter p l = l.
Proof. induction l as [|x l IH]; [done|]. cbn. destruct (p x); [|done]. intros H. cbn in H. by rewrite IH. Qed.

Lemma expired_of_spec active now l t i :
  NoDup (cert_ids (certs l)) ->
  i ∈ expired_of active now (t, find_certs_for_target t l) <->
  exists c, c ∈ find_certs_for_target t l /\ c_id c = i /\ (c_not_after c <? now) = true /\ kept active now l t <> Some c.
Proof.
  intros Hn. unfold expired_of, kept. cbn [fst snd]. rewrite length_map, length_filter_all.
  assert (Hg : NoDup (cert_ids (find_certs_for_target t l))) by (by apply filter_ids).
  destruct (bool_decide (t ∈ active) && _) eqn:E.
  - apply andb_true_iff in E as [_ E]. rewrite filter_everything by done. revert Hg E. generalize (find_certs_for_target t l) as g. intros g Hg E.
    destruct g as [|c g]; cbn [map tail head]; [split; [by intros ?%elem_of_nil|by intros (c & ?%elem_of_nil & _)]|].
    cbn in Hg. apply NoDup_cons in Hg as [Hc Hg]. split.
    + intros (d & -> & Hd)%(list_elem_of_fmap c_id). exists d. split_and!; [set_solver|done| |].
      * rewrite forallb_forall in E. apply E. apply list_elem_of_In. set_solver.
      * intros [= <-]. apply Hc. by apply (list_elem_of_fmap_2 c_id).
    + intros (d & Hd & <- & _ & Hk). apply elem_of_cons in Hd as [->|Hd]; [by destruct Hk|]. by apply (list_elem_of_fmap_2 c_id).
  - split.
    + intros (c & -> & [Hc He]%elem_of_bool_filter)%(list_elem_of_fmap c_id). by exists c.
    + intros (c & Hc & <- & He & _). apply (list_elem_of_fmap_2 c_id). by apply elem_of_bool_filter.
Qed.

Lemma kept_in active now l t c : kept active now l t = Some c -> c ∈ certs l /\ of_cert c = Some t.
Proof.
  unfold kept. destruct (_ && _); [|done]. intros H%head_Some_elem_of. apply elem_of_bool_filter in H as [H1 H2].
  by apply bool_decide_eq_true in H2.
Qed.

(** ** Deletions *)

Lemma first_seen_elem seen l i : i ∈ first_seen seen l <-> i ∈ l /\ i ∉ seen.
Proof.
  revert seen. induction l as [|j l IH]; intros seen; cbn [first_seen].
  { split; [by intros ?%elem_of_nil|by intros [?%elem_of_nil _]]. }
  case_bool_decide as Hj.
  - rewrite IH, elem_of_cons. split; [tauto|]. by intros [[->|H] Hs].
  - rewrite !elem_of_cons, IH, not_elem_of_union, not_elem_of_singleton. split.
    + intros [->|(H & _ & Hs)]; tauto.
    + intros [H Hs]. destruct (decide (i = j)); [by left|right]. destruct H; tauto.
Qed.

Lemma first_seen_nodup seen l : NoDup (first_seen seen l).
Proof.
  revert seen. induction l as [|j l IH]; intros seen; cbn [first_seen]; [constructor|]. case_bool_decide; [done|].
  constructor; [|done]. rewrite first_seen_elem, not_elem_of_union, not_elem_of_singleton. tauto.
Qed.

Lemma remove_cert_Ok u stored i l l' :
  remove_cert u stored i l = Ok l' ->
  exists c, get i l = Some c /\ c_source c = None /\ ensure_unused i u = Ok tt /\ stored = Ok tt /\ delete_cert i l = Ok l'.
Proof.
  unfold remove_cert. destruct (get i l) as [c|]; [|done]. destruct (c_source c) eqn:Es; [done|]. cbn [is_some].
  destruct (ensure_unused i u) as [[]|]; [|done]. cbn [and_then]. destruct stored as [[]|]; [|done]. cbn [and_then]. intros H. by exists c.
Qed.

Lemma delete_cert_elem i l l' x : NoDup (cert_ids (certs l)) -> delete_cert i l = Ok l' -> x ∈ certs l' <-> x ∈ certs l /\ c_id x <> i.
Proof.
  intros Hn. unfold delete_cert, get. destruct (find_id i (certs l)) as [c|] eqn:Ef; [|done]. intros [= <-].
  rewrite <-(im_swap_remove_elem i (certs l) c x Hn Ef). by destruct (is_root c).
Qed.

Lemma delete_cert_ids i l l' : NoDup (cert_ids (certs l)) -> delete_cert i l = Ok l' -> NoDup (cert_ids (certs l')).
Proof.
  intros Hn. unfold delete_cert, get. destruct (find_id i (certs l)) as [c|] eqn:Ef; [|done]. intros [= <-].
  pose proof (im_swap_remove_perm _ _ _ Ef) as Hp.
  assert (H : NoDup (c_id c :: cert_ids (im_swap_remove i (certs l)))) by (change (NoDup (map c_id (c :: im_swap_remove i (certs l)))); by rewrite <-Hp).
  apply NoDup_cons in H as [_ H]. by destruct (is_root c).
Qed.

Lemma deleted_status {A} (r : result A Error) : delete_status r = Deleted -> exists x, r = Ok x.
Proof. destruct r as [x|e]; [by exists x|]. by destruct e. Qed.

(** What the removal of one certificate asks for. *)
Definition removable (u : CertUses) (stored : ShortId -> result unit Error) (l : CertList) (i : ShortId) : Prop :=
  exists c, get i l = Some c /\ c_source c = None /\ ensure_unused i u = Ok tt /\ stored i = Ok tt.

Lemma find_id_spec i l c : NoDup (cert_ids l) -> find_id i l = Some c <-> c ∈ l /\ c_id c = i.
Proof.
  intros Hn. split; [apply find_id_Some|]. intros [Hc Hi]. destruct (find_id_in i l) as [d Hd].
  { rewrite <-Hi. by apply (list_elem_of_fmap_2 c_id). }
  rewrite Hd. apply find_id_Some in Hd as [Hd1 Hd2]. f_equal. apply (unique_id l); [done..|]. by rewrite Hi.
Qed.

Lemma find_id_same i l l' :
  NoDup (cert_ids l) -> NoDup (cert_ids l') -> (forall x, c_id x = i -> x ∈ l <-> x ∈ l') -> find_id i l = find_id i l'.
Proof.
  intros Hn Hn' H. apply option_eq. intros c. rewrite !find_id_spec by done. split; intros [Hc Hi]; (split; [by apply H|done]).
Qed.

Lemma remove_step u stored i l (r := remove_cert u (stored i) i l) (l1 := match r with Ok l' => l' | Err _ => l end) :
  NoDup (cert_ids (certs l)) ->
  NoDup (cert_ids (certs l1))
  /\ (delete_status r = Deleted <-> removable u stored l i)
  /\ (forall x, x ∈ certs l1 <-> x ∈ certs l /\ (c_id x, Deleted) <> (i, delete_status r))
  /\ (forall j, j <> i -> get j l1 = get j l).
Proof.
  intros Hn.
  assert (Hst : delete_status r = Deleted <-> removable u stored l i).
  { unfold r, removable, remove_cert. destruct (get i l) as [c|] eqn:Eg; [|split; [done|by intros (c & ? & _)]].
    split.
    - destruct (c_source c) eqn:Es; [done|]. cbn [is_some]. destruct (ensure_unused i u) as [[]|e] eqn:Eu; [|by destruct e].
      cbn [and_then]. destruct (stored i) as [[]|e] eqn:Ei; [|intros H; by destruct e]. intros _. by exists c.
    - intros (c' & Hc' & Hs & Hu & Hi). apply (inj Some) in Hc' as <-. rewrite Hs, Hu, Hi. cbn [is_some and_then]. unfold delete_cert. by rewrite Eg. }
  assert (Hn1 : NoDup (cert_ids (certs l1))).
  { unfold l1. destruct r as [l0|] eqn:Er; [|done]. apply remove_cert_Ok in Er as (c & _ & _ & _ & _ & Er). by apply (delete_cert_ids i l). }
  assert (Hin : forall x, x ∈ certs l1 <-> x ∈ certs l /\ (c_id x, Deleted) <> (i, delete_status r)).
  { intros x. unfold l1. destruct r as [l0|e] eqn:Er.
    - apply remove_cert_Ok in Er as (c & _ & _ & _ & _ & Er). rewrite (delete_cert_elem i l l0 x Hn Er). cbn. split; intros [Hx Hi]; (split; [done|congruence]).
    - split; [|by intros []]. intros H. split; [done|]. intros H'. apply (f_equal snd) in H'. cbn [snd] in H'. symmetry in H'.
      by apply (deleted_status (A := CertList)) in H' as []. }
  split_and!; [done|exact Hst|exact Hin|]. intros j Hj. apply find_id_same; [done..|]. intros x Hx. rewrite Hin. split; [by intros []|].
  intros H. split; [done|]. congruence.
Qed.

(** What a run of deletions does to the list. *)
Lemma delete_all_spec u stored ids l results l' :
  NoDup (cert_ids (certs l)) -> NoDup ids -> delete_all u stored ids l = (results, l') ->
  map fst results = ids
  /\ (forall x, x ∈ certs l' <-> x ∈ certs l /\ (c_id x, Deleted) ∉ results)
  /\ (forall i, (i, Deleted) ∈ results <-> i ∈ ids /\ removable u stored l i).
Proof.
  revert l results. induction ids as [|i ids IH]; intros l results Hn Hd; cbn [delete_all].
  { intros [= <- <-]. split_and!; [done|intros x|intros i]; set_solver. }
  apply NoDup_cons in Hd as [Hi Hd]. pose proof (remove_step u stored i l Hn) as (Hn1 & Hst & Hin & Hget). cbn in Hn1, Hst, Hin, Hget.
  destruct (delete_all u stored ids _) as [rest l2] eqn:E. intros [= <- <-].
  destruct (IH _ rest Hn1 Hd E) as (H1 & H2 & H3). split_and!.
  - cbn. by rewrite H1.
  - intros x. rewrite H2, Hin, not_elem_of_cons. tauto.
  - intros j. rewrite !elem_of_cons, H3. split.
    + intros [[= -> H]|[Hj Hr]]; [symmetry in H; apply Hst in H; tauto|]. split; [by right|]. unfold removable in *. rewrite Hget in Hr by set_solver. done.
    + intros [[->|Hj] Hr]; [left; f_equal; symmetry; by apply Hst|right]. split; [done|]. unfold removable in *. rewrite Hget by set_solver. done.
Qed.

Lemma find_first {A} (f : A -> bool) l x :
  List.find f l = Some x -> exists l1 l2, l = l1 ++ x :: l2 /\ Forall (fun y => f y = false) l1 /\ f x = true.
Proof.
  induction l as [|y l IH]; [done|]. cbn. destruct (f y) eqn:E; [intros [= ->]; by exists [], l|].
  intros (l1 & l2 & -> & H1 & H2)%IH. exists (y :: l1), l2. split; [done|]. split; [by constructor|done].
Qed.

(** The identifiers stay unique whatever is done, and the list keeps its order while nothing is deleted. *)
Lemma run_op_ids o l : NoDup (cert_ids (certs l)) -> NoDup (cert_ids (certs (run_op o l))).
Proof.
  intros Hn. destruct o as [c|i|cs|p cs]; cbn [run_op].
  - unfold add. by destruct (is_root c); cbn; apply sorted_ids, im_insert_ids.
  - destruct (delete_cert i l) as [l'|e] eqn:E; [by eapply delete_cert_ids|done].
  - unfold replace_stored. case_bool_decide; [done|]. cbn. by apply sorted_ids, im_extend_ids, filter_ids.
  - unfold replace_discovered. destruct (_ && _); [done|]. cbn. by apply sorted_ids, im_extend_ids, filter_ids.
Qed.

Lemma run_ops_ids native cs ops : NoDup (cert_ids (certs (run_ops ops (CertList_new native cs)))).
Proof.
  apply (run_ops_inv (fun l => NoDup (cert_ids (certs l))) (fun _ => True) ops); [|by apply Forall_true|].
  - intros o l _. apply run_op_ids.
  - cbn. apply sorted_ids, im_extend_ids. constructor.
Qed.

Lemma run_ops_newest_first native cs ops : existsb is_delete ops = false -> newest_first (certs (run_ops ops (CertList_new native cs))).
Proof.
  intros Hd. apply (run_ops_inv _ (fun o => is_delete o = false) ops _ run_op_sorted); [|apply sort_certs_sorted].
  rewrite Forall_forall. intros o Ho. destruct (is_delete o) eqn:E; [|done].
  assert (H : existsb is_delete ops = true) by (apply existsb_exists; exists o; by rewrite <-list_elem_of_In). by rewrite H in Hd.
Qed.

(** ** Properties *)

(** Whatever certificates are added, deleted and replaced, their identifiers stay unique and
    the trust store holds exactly the roots of the system and of the list, as long as no
    certificate comes back as one of another kind; and while nothing is deleted the list goes
    from the newest to the oldest. *)
Theorem cert_list_exact (kind_of : ShortId -> CertKind) (native : list Der) (cs : list Cert) (ops : list CertOp) :
  Forall (fun c => c_kind c = kind_of (c_id c)) cs ->
  Forall (fun o => Forall (fun c => c_kind c = kind_of (c_id c)) (op_certs o)) ops ->
  NoDup (cert_ids (certs (run_ops ops (CertList_new native cs))))
  /\ roots_exact (run_ops ops (CertList_new native cs))
  /\ (existsb is_delete ops = false -> newest_first (certs (run_ops ops (CertList_new native cs)))).
Proof.
  intros Hcs Hops.
  assert (Hl : list_ok kind_of (run_ops ops (CertList_new native cs))).
  { apply (run_ops_inv _ _ ops _ (run_op_ok kind_of)); [done|].
    apply (rebuilt_ok kind_of cs [] (mkCertList [] (List.filter trust_anchor native) [])); [constructor|done|constructor]. }
  split; [apply Hl|]. split; [apply Hl|]. apply run_ops_newest_first.
Qed.

(** C21: After any additions, deletions and replacements of the list, and whatever handshakes came
    before, a client gets the key of the first certificate of the list that is a valid server
    certificate with every requested name and a key that loads; no other such certificate is newer as
    long as nothing was deleted from the list; and a client gets no key only when the list has no such
    certificate. *)
Theorem served_certificate_exact (native : list Der) (cs : list Cert) (ops : list CertOp) (names : list SubjectName)
    (hs : list (option string * ASN1Time)) (sni : option string) (now : ASN1Time) :
  let l := run_ops ops (CertList_new native cs) in
  let r := fold_left (fun r h => (resolve_cert h.1 h.2 r).2) hs (server_cert_resolver l names) in
  let test := servable (handshake_names sni names) now in
  match (resolve_cert sni now r).1 with
  | Some k =>
      exists l1 c l2, certs l = l1 ++ c :: l2 /\ Forall (fun d => test d = false) l1 /\ test c = true /\ certified_key c = Some k
      /\ (existsb is_delete ops = false -> forall d, d ∈ certs l -> test d = true -> not_gt (cert_cmp c d) = true)
  | None => forall c, c ∈ certs l -> test c = false
  end.
Proof.
  intros l r test. pose proof (run_ops_ids native cs ops) as Hn. fold l in Hn. assert (Hr : resolver_of l names r).
  { assert (H0 : resolver_of l names (server_cert_resolver l names)) by (by split). unfold r. clear test r. revert H0. generalize (server_cert_resolver l names).
    induction hs as [|h hs IH]; intros r Hr; [done|]. cbn [fold_left]. apply IH. by apply (resolve_cert_spec l names h.1 h.2 r Hn). }
  destruct (resolve_cert_spec l names sni now r Hn Hr) as [E _]. rewrite E. fold test. destruct (List.find test (certs l)) as [c|] eqn:Ef.
  - pose proof (find_first test _ _ Ef) as (l1 & l2 & El & Hl1 & Ht).
    pose proof Ht as Hk. unfold test, servable in Hk. apply andb_true_iff in Hk as [_ Hk]. cbn. destruct (certified_key c) as [k|] eqn:Ek; [|done].
    exists l1, c, l2. split_and!; [done..|]. intros Hd d Hin Htd.
    apply (find_newest test (certs l)); try done. by apply run_ops_newest_first.
  - intros c Hc. apply list_elem_of_In in Hc. by apply (find_none _ _ Ef).
Qed.

(** Of the certificates of an ACME target the expired ones are removed, all but the newest one
    of a target that is still ordered, and nothing else is. *)
Theorem expired_acme_exact (active : gset AcmeTarget) (now : ASN1Time) (l : CertList) (i : ShortId) :
  NoDup (cert_ids (certs l)) ->
  (i ∈ expired_acme_certs active now l <->
     exists c t, c ∈ certs l /\ c_id c = i /\ of_cert c = Some t /\ c_not_after c < now /\ kept active now l t <> Some c)
  /\ (newest_first (certs l) -> forall t k d, kept active now l t = Some k -> d ∈ certs l -> of_cert d = Some t -> not_gt (cert_cmp k d) = true).
Proof.
  intros Hn. split.
  - unfold expired_acme_certs, target_groups. rewrite elem_of_flat_map. split.
    + intros (g & (t & -> & Ht)%list_elem_of_fmap & Hi). apply expired_of_spec in Hi as (c & Hc & Hi & He & Hk); [|done].
      apply elem_of_bool_filter in Hc as [Hc Htc]. apply bool_decide_eq_true in Htc. exists c, t. split_and!; try done. by apply Z.ltb_lt.
    + intros (c & t & Hc & Hi & Htc & He & Hk). exists (t, find_certs_for_target t l). split.
      * apply list_elem_of_fmap. exists t. split; [done|]. rewrite sort_by_elem_of, elem_of_remove_dups, list_elem_of_omap. by exists c.
      * apply expired_of_spec; [done|]. exists c. split_and!; [|done|by apply Z.ltb_lt|done]. apply elem_of_bool_filter. by rewrite bool_decide_true.
  - intros Hs t k d Hk Hd Htd. unfold kept in Hk. destruct (_ && _); [|done].
    apply (find_newest (fun c => bool_decide (of_cert c = Some t)) (certs l)); [done| |done|by apply bool_decide_eq_true].
    revert Hk. unfold find_certs_for_target. clear. induction (certs l) as [|c l' IH]; [done|]. cbn. by case_bool_decide.
Qed.

(** A request to delete certificates answers each one once, in the order of the request; it
    deletes exactly the ones that are in the list, that no provider has, that nothing uses and
    that the storage gives up, and leaves every other certificate in the list. *)
Theorem deletes_only_unused (u : CertUses) (stored : ShortId -> result unit Error) (ids : list ShortId) (l l' : CertList)
    (results : list (ShortId * DeleteCertStatus)) (changed : bool) :
  NoDup (cert_ids (certs l)) ->
  delete_certs u stored ids l = (Ok (results, changed), l') ->
  map fst results = first_seen ∅ ids
  /\ (forall i, i ∈ map fst results <-> i ∈ ids) /\ NoDup (map fst results)
  /\ (forall i, (i, Deleted) ∈ results <-> i ∈ ids /\ removable u stored l i)
  /\ (forall c, c ∈ certs l' <-> c ∈ certs l /\ (c_id c, Deleted) ∉ results).
Proof.
  intros Hn. unfold delete_certs. destruct (_ <? _); [done|]. destruct (delete_all u stored _ l) as [rs l1] eqn:E. intros [= -> <- ->].
  destruct (delete_all_spec u stored _ l results l' Hn (first_seen_nodup ∅ ids) E) as (H1 & H2 & H3). rewrite H1.
  assert (Hin : forall i, i ∈ first_seen ∅ ids <-> i ∈ ids) by (intros i; rewrite first_seen_elem; set_solver).
  split_and!; [done|exact Hin|apply first_seen_nodup| |done]. intros i. by rewrite H3, Hin.
Qed.

(** A domain that is reported with its own certificate gets a handshake from a certificate. *)
Lemma dedicated_is_served server_name now l domain target i n :
  SubjectName_from_str server_name (trim_end_dots (trim domain)) = Ok (DnsName n) ->
  dc_status (evaluate_domain_coverage server_name now l domain target) = DedicatedCert i ->
  exists c, c ∈ certs l /\ c_id c = i /\ usable now c = true /\ fits [DnsName n] now c = true.
Proof.
  unfold evaluate_domain_coverage. intros ->. destruct (find_active_wildcard_cert _ _ _) as [[c p]|]; [done|].
  destruct (find_active_dedicated_cert _ _ _) as [c|] eqn:E; [|destruct (find_expired_cert _ _ _); [done|by destruct (is_some _)]].
  intros [= <-]. apply find_some in E as [Hc He]. apply andb_true_iff in He as [Hu Hs]. exists c. split_and!; [by apply list_elem_of_In|done..|].
  unfold fits. cbn [forallb]. rewrite Hs. unfold usable in Hu. apply andb_true_iff in Hu as [_ Hu]. by rewrite Hu.
Qed.
End CertFacts.

(** ** Certificates in use *)

Module CertExample.
#[local] Instance plain_tls : TlsOps := {|
  Der := string; PrivateKey := string; CertifiedKey := string;
  certificates s := Some [s]; certified_impl c k := k; private_key_der k := k; trust_anchor _ := true; client_auth_ok _ _ := true;
|}.
#[local] Instance no_hex : Hex := {| hex_encode _ := EmptyString; hex_decode_to_slice _ _ := None |}.

#[local] Abbreviation new_list := (CertList_new (TLS := plain_tls)).

Definition server (id : Z) (name : SubjectName) (from to : Z) : Cert :=
  mkCert [id] Server true (dec id) (Some (dec id)) (dec id) [name] to from None None.

Definition root (id : Z) (kind : CertKind) : Cert := mkCert [id] kind false (dec id) None (dec id) [] 100 0 None None.

(** The certificate of another name, and two of one name, the newer one first. *)
Definition three : list Cert := [server 1 (DnsName "other.example") 30 90; server 2 (DnsName "a.example") 20 80; server 3 (DnsName "a.example") 10 70].

Definition served (l : CertList) : option string := (resolve_cert (Some "a.example") 50 (server_cert_resolver l [])).1.

(** A deletion moves the last certificate to the free place, so an older certificate of a name
    comes before the newer one, and clients get it. *)
Lemma delete_serves_the_older_certificate :
  served (new_list [] three) = Some "2"
  /\ served (run_ops [OpDelete [1]] (new_list [] three)) = Some "3"
  /\ cert_ids (certs (run_ops [OpDelete [1]] (new_list [] three))) = [[3]; [2]].
Proof. vm_compute. done. Qed.

(** A root that is added again as a client certificate has the same identifier and replaces it,
    but the trust store is only updated for roots: it still holds the certificate. *)
Lemma replaced_root_stays_trusted :
  root_certs (run_ops [OpAdd (root 7 Root)] (new_list [] [])) = ["7"]
  /\ root_certs (run_ops [OpAdd (root 7 Root); OpAdd (root 7 Client)] (new_list [] [])) = ["7"]
  /\ map c_kind (certs (run_ops [OpAdd (root 7 Root); OpAdd (root 7 Client)] (new_list [] []))) = [Client].
Proof. vm_compute. done. Qed.

(** The names of a certificate are compared with their case in a handshake, but without it in the
    report of the coverage: a domain is reported as covered, and its clients get no certificate. *)
Lemma covered_domain_not_served :
  let l := new_list [] [server 1 (WildcardDnsName "Example.com") 0 90] in
  dc_status (evaluate_domain_coverage (fun _ => true) 50 l "app.example.com" "") = CoveredByWildcard [1] "*.Example.com"
  /\ (resolve_cert (Some "app.example.com") 50 (server_cert_resolver l [])).1 = None.
Proof. vm_compute. done. Qed.

(** A certificate that is not valid yet is reported as expired. *)
Lemma future_certificate_is_expired :
  dc_status (evaluate_domain_coverage (fun _ => true) 50 (new_list [] [server 1 (DnsName "a.example") 60 90]) "a.example" "") = Expired [1].
Proof. vm_compute. done. Qed.

Definition kinds (i : ShortId) : CertKind := if bool_decide (i = [7]) then Root else Server.

Lemma cert_list_exact_witness :
  let l := run_ops [OpAdd (root 7 Root); OpStored (root 7 Root :: three)] (new_list ["system"] three) in
  NoDup (cert_ids (certs l)) /\ roots_exact l /\ newest_first (certs l) /\ root_certs l = ["system"; "7"].
Proof.
  destruct (cert_list_exact (TLS := plain_tls) kinds ["system"] three [OpAdd (root 7 Root); OpStored (root 7 Root :: three)]) as (H1 & H2 & H3).
  - repeat (constructor; [vm_compute; reflexivity|]). constructor.
  - repeat (constructor; [repeat (constructor; [vm_compute; reflexivity|]); constructor|]). constructor.
  - split; [exact H1|]. split; [exact H2|]. split; [apply H3; reflexivity|vm_compute; reflexivity].
Defined.

Lemma three_unique : NoDup (cert_ids (certs (new_list [] three))).
Proof. vm_compute. repeat (constructor; [by rewrite ?elem_of_cons, elem_of_nil; intuition discriminate|]). constructor. Qed.

Lemma served_certificate_exact_witness :
  exists l1 c l2, certs (new_list [] three) = l1 ++ c :: l2 /\ Forall (fun d => servable [DnsName "a.example"] 50 d = false) l1
                  /\ servable [DnsName "a.example"] 50 c = true /\ certified_key c = Some "2".
Proof.
  pose proof (served_certificate_exact [] three [] [] [(None, 50); (Some "other.example", 50)] (Some "a.example") 50) as H.
  assert (E : (resolve_cert (Some "a.example") 50
      (fold_left (fun r h => (resolve_cert h.1 h.2 r).2) [(None, 50); (Some "other.example", 50)]
         (server_cert_resolver (run_ops [] (CertList_new [] three)) []))).1 = Some "2") by (vm_compute; reflexivity).
  cbv zeta in H. rewrite E in H. destruct H as (l1 & c & l2 & H0 & H1 & H2 & H3 & _). exists l1, c, l2. split; [exact H0|]. split; [exact H1|].
  split; [exact H2|exact H3].
Defined.

(** Two expired certificates of an entry. *)
Definition ordered (id from to : Z) : Cert := mkCert [id] Server true (dec id) (Some (dec id)) (dec id) [DnsName "A.example"] to from (Some (mkCertMetadata [9] 0)) None.
Definition target : AcmeTarget := AcmeTarget_new [9] ["a.example"].
Definition renewed : CertList := new_list [] [ordered 1 0 10; ordered 2 10 20].

Lemma expired_acme_exact_witness :
  expired_acme_certs {[ target ]} 50 renewed = [[1]] /\ expired_acme_certs ∅ 50 renewed = [[2]; [1]]
  /\ (exists c t, c ∈ certs renewed /\ c_id c = [1] /\ of_cert c = Some t /\ c_not_after c < 50 /\ kept {[ target ]} 50 renewed t <> Some c).
Proof.
  split; [vm_compute; reflexivity|]. split; [vm_compute; reflexivity|].
  apply (expired_acme_exact {[ target ]} 50 renewed [1]).
  - vm_compute. repeat (constructor; [by rewrite ?elem_of_cons, elem_of_nil; intuition discriminate|]). constructor.
  - assert (E : expired_acme_certs {[ target ]} 50 renewed = [[1]]) by (vm_compute; reflexivity). rewrite E. by left.
Defined.

Definition one_use : CertUses := mkCertUses None None [None; Some [[2]]] [None].

Lemma deletes_only_unused_witness :
  exists results l', delete_certs one_use (fun _ => Ok tt) [[1]; [2]; [1]; [5]] (new_list [] three) = (Ok (results, true), l')
  /\ results = [([1], Deleted); ([2], InUse); ([5], NotFound)]
  /\ forall c, c ∈ certs l' <-> c ∈ certs (new_list [] three) /\ (c_id c, Deleted) ∉ results.
Proof.
  destruct (delete_certs one_use (fun _ => Ok tt) [[1]; [2]; [1]; [5]] (new_list [] three)) as [r l'] eqn:E.
  assert (Er : r = Ok ([([1], Deleted); ([2], InUse); ([5], NotFound)], true)).
  { change r with (fst (r, l')). rewrite <-E. vm_compute. reflexivity. }
  subst r. exists [([1], Deleted); ([2], InUse); ([5], NotFound)], l'. split; [reflexivity|]. split; [reflexivity|].
  exact (proj2 (proj2 (proj2 (proj2 (deletes_only_unused one_use _ _ _ l' _ true three_unique E))))).
Defined.

End CertExample.
