(* ===== verification/Acme.v ===== *)
(** * Ordering certificates

    When an ACME certificate is renewed ([certs/acme.rs]), which targets are ordered
    ([server/acme_schedule.rs], [server/state.rs]), and the orders on their way: tasks that ask the
    ACME server, tasks that wait for its validation, and the commands that they send to the server
    loop, as a machine of interleaved steps.  The ACME server is an input. *)

From S2P Require Import Prelude Basics Net IpText Router ProxyList Certs.

Definition MAX_RENEWAL_DAYS : Z := 89.
Definition RETRY_AFTER_FAILURE : Duration := from_secs (60 * 60).
Definition day_secs : Z := 86400.

(** ** Renewal times, in Unix seconds *)

(** [UNIX_EPOCH + Duration::from_secs(s)], which panics on an overflow. *)
Definition deserialize_created_at (s : Z) : option Z := if s <=? i64_max then Some s else None.

Definition clamp (lo hi x : Z) : Z := Z.min hi (Z.max lo x).

Definition i64_saturating_sub (a b : Z) : Z := clamp i64_min i64_max (a - b).

Definition lead_secs (validity : Z) : Z := clamp (Z.min day_secs (validity / 2)) (30 * day_secs) (validity / 3).

Definition cert_renewal_time (c : Cert) (renewal_days : Z) : option Z :=
  let not_before := timestamp (c_not_before c) in
  let not_after := timestamp (c_not_after c) in
  if not_after <=? 0 then None
  else
    let validity := Z.max (i64_saturating_sub not_after not_before) 0 in
    let expiration_renewal := not_after - lead_secs validity in
    let configured := clamp 1 MAX_RENEWAL_DAYS renewal_days * day_secs in
    let start :=
      match c_metadata c with
      | Some m => Some (created_at m)
      | None => if 0 <? not_before then Some not_before else None
      end in
    match start with
    | Some start => if start + configured <=? i64_max then Some (Z.min (start + configured) expiration_renewal) else Some expiration_renewal
    | None => Some expiration_renewal
    end.

(** ** Entries *)

Record AcmeEntry : Type := mkAcmeEntry { e_id : ShortId; e_active : bool; e_identifiers : list SubjectName; e_renewal_days : Z }.

Definition entry_target (e : AcmeEntry) : AcmeTarget := AcmeTarget_new (e_id e) (map SubjectName_to_string (e_identifiers e)).

(** [Iterator::max]. *)
Definition list_max (l : list Z) : option Z := match l with [] => None | x :: l => Some (fold_left Z.max l x) end.

Section Renewals.
Context `{TLS : TlsOps}.

Definition next_renewal_for (e : AcmeEntry) (t : AcmeTarget) (l : CertList) : option Z :=
  let renewal_days := clamp 1 MAX_RENEWAL_DAYS (e_renewal_days e) in
  list_max (omap (fun c => cert_renewal_time c renewal_days) (find_certs_for_target t l)).

Definition next_renewal (e : AcmeEntry) (l : CertList) : option Z := next_renewal_for e (entry_target e) l.
End Renewals.

(** ** The schedule *)

Record AcmeSchedule : Type := mkAcmeSchedule { in_progress : gset AcmeTarget; retry_after : gmap AcmeTarget Instant }.

Definition AcmeSchedule_default : AcmeSchedule := mkAcmeSchedule ∅ ∅.

(** [wall] is the Unix time in seconds. *)
Definition is_due (t : AcmeTarget) (next_renewal : option Z) (now : Instant) (wall : Z) (s : AcmeSchedule) : bool :=
  if bool_decide (t ∈ in_progress s) then false
  else if is_some_and (fun at_ => now <? at_) (retry_after s !! t) then false
  else is_none_or (fun next => next <=? wall) next_renewal.

Definition start (t : AcmeTarget) (s : AcmeSchedule) : AcmeSchedule := mkAcmeSchedule ({[ t ]} ∪ in_progress s) (retry_after s).

Definition finish (t : AcmeTarget) (succeeded : bool) (now : Instant) (s : AcmeSchedule) : AcmeSchedule :=
  mkAcmeSchedule (in_progress s ∖ {[ t ]})
    (if succeeded then delete t (retry_after s) else <[t := now + RETRY_AFTER_FAILURE]> (retry_after s)).

Definition reset (ts : list AcmeTarget) (s : AcmeSchedule) : AcmeSchedule :=
  fold_left (fun s t => mkAcmeSchedule (in_progress s ∖ {[ t ]}) (delete t (retry_after s))) ts s.

Definition is_idle (s : AcmeSchedule) : bool := bool_decide (in_progress s = ∅).

(** ** The server and its orders *)

(** The HTTP-01 challenges by token, and the TLS-ALPN-01 challenges: domains with their digests. *)
Record AcmeOrder : Type := mkAcmeOrder { o_target : AcmeTarget; o_http : list (string * string); o_tls_alpn : list (string * string) }.

Inductive AcmeCommand : Type :=
| CmdAddCert (c : Cert)
| CmdAddAcmeOrders (orders : list AcmeOrder)
| CmdAcmeOrderFinished (t : AcmeTarget) (succeeded : bool).

(** A task of [spawn_acme_orders]: the targets to order, and the orders that it has. *)
Record Requests : Type := mkRequests { rq_todo : list AcmeTarget; rq_orders : list AcmeOrder }.

(** A task of [continue_http_challenges]: its orders, and the result of the first one when it waits
    to be sent. *)
Record Validation : Type := mkValidation { va_orders : list AcmeOrder; va_result : option bool }.

Section Machine.
Context `{TLS : TlsOps}.
Context (server_name : string -> bool).

Record AcmeWorld : Type := mkAcmeWorld {
  aw_entries : list AcmeEntry;
  aw_discovered : list AcmeTarget;
  aw_certs : CertList;
  aw_schedule : AcmeSchedule;
  aw_http : gmap string string;
  aw_tls_alpn : list (string * string);
  aw_requests : list Requests;
  aw_commands : list AcmeCommand;
  aw_validations : list Validation;
}.

Definition find_entry (i : ShortId) (l : list AcmeEntry) : option AcmeEntry := List.find (fun e => bool_decide (e_id e = i)) l.

Notation Renewal := (AcmeEntry * AcmeTarget * option Z)%type.

(** One discovered target of [acme_renewals]. *)
Definition add_discovered_renewal (now : ASN1Time) (w : AcmeWorld) (renewals : list Renewal) (t : AcmeTarget) : list Renewal :=
  match find_entry (t_acme_id t) (aw_entries w) with
  | Some e =>
      if e_active e then
        if existsb (fun r => bool_decide (r.1.2 = t)) renewals then renewals
        else
          let next := next_renewal_for e t (aw_certs w) in
          if negb (is_some next) && covers server_name (t_identifiers t) now (aw_certs w) then renewals
          else renewals ++ [(e, t, next)]
      else renewals
  | None => renewals
  end.

Definition acme_renewals (now : ASN1Time) (w : AcmeWorld) : list Renewal :=
  fold_left (add_discovered_renewal now w) (aw_discovered w)
    (map (fun e => (e, entry_target e, next_renewal e (aw_certs w))) (List.filter e_active (aw_entries w))).

Definition set_schedule (f : AcmeSchedule -> AcmeSchedule) (w : AcmeWorld) : AcmeWorld :=
  mkAcmeWorld (aw_entries w) (aw_discovered w) (aw_certs w) (f (aw_schedule w)) (aw_http w) (aw_tls_alpn w) (aw_requests w) (aw_commands w) (aw_validations w).
Definition set_challenges (http : gmap string string) (tls : list (string * string)) (w : AcmeWorld) : AcmeWorld :=
  mkAcmeWorld (aw_entries w) (aw_discovered w) (aw_certs w) (aw_schedule w) http tls (aw_requests w) (aw_commands w) (aw_validations w).
Definition set_requests (l : list Requests) (w : AcmeWorld) : AcmeWorld :=
  mkAcmeWorld (aw_entries w) (aw_discovered w) (aw_certs w) (aw_schedule w) (aw_http w) (aw_tls_alpn w) l (aw_commands w) (aw_validations w).
Definition set_commands (l : list AcmeCommand) (w : AcmeWorld) : AcmeWorld :=
  mkAcmeWorld (aw_entries w) (aw_discovered w) (aw_certs w) (aw_schedule w) (aw_http w) (aw_tls_alpn w) (aw_requests w) l (aw_validations w).
Definition set_validations (l : list Validation) (w : AcmeWorld) : AcmeWorld :=
  mkAcmeWorld (aw_entries w) (aw_discovered w) (aw_certs w) (aw_schedule w) (aw_http w) (aw_tls_alpn w) (aw_requests w) (aw_commands w) l.
Definition set_config (es : list AcmeEntry) (ts : list AcmeTarget) (l : CertList) (w : AcmeWorld) : AcmeWorld :=
  mkAcmeWorld es ts l (aw_schedule w) (aw_http w) (aw_tls_alpn w) (aw_requests w) (aw_commands w) (aw_validations w).

Definition send (c : AcmeCommand) (w : AcmeWorld) : AcmeWorld := set_commands (aw_commands w ++ [c]) w.

(** Marks the targets and spawns the task that orders them. *)
Definition order_targets (ts : list AcmeTarget) (w : AcmeWorld) : AcmeWorld :=
  set_requests (aw_requests w ++ [mkRequests ts []]) (set_schedule (fun s => fold_left (fun s t => start t s) ts s) w).

Definition due_targets (now : Instant) (wall : ASN1Time) (w : AcmeWorld) : list AcmeTarget :=
  map (fun r => r.1.2) (List.filter (fun r => is_due r.1.2 r.2 now (timestamp wall) (aw_schedule w)) (acme_renewals wall w)).

Definition start_http_challenges (leader : bool) (now : Instant) (wall : ASN1Time) (w : AcmeWorld) : AcmeWorld :=
  if negb leader then w
  else match due_targets now wall w with [] => w | ts => order_targets ts w end.

(** The targets of one entry: its own, and the discovered ones. *)
Definition targets_of_entry (e : AcmeEntry) (wall : ASN1Time) (w : AcmeWorld) : list AcmeTarget :=
  fold_left (fun ts r => if bool_decide (e_id r.1.1 = e_id e) && negb (bool_decide (r.1.2 ∈ ts)) then ts ++ [r.1.2] else ts)
    (acme_renewals wall w) [entry_target e].

Definition request_acme_now `{HEX : Hex} (i : ShortId) (wall : ASN1Time) (w : AcmeWorld) : result AcmeWorld Error :=
  match find_entry i (aw_entries w) with
  | None => Err (IdNotFound (ShortId_to_string i))
  | Some e => let ts := targets_of_entry e wall w in Ok (order_targets ts (set_schedule (reset ts) w))
  end.

(** One target of the task of [spawn_acme_orders]: [None] when the request failed. *)
Definition request_turn (r : Requests) (answer : option (list (string * string) * list (string * string))) (w : AcmeWorld) : option Requests * AcmeWorld :=
  match rq_todo r with
  | [] => (None, match rq_orders r with [] => w | orders => send (CmdAddAcmeOrders orders) w end)
  | t :: todo =>
      match answer with
      | Some (http, tls) => (Some (mkRequests todo (rq_orders r ++ [mkAcmeOrder t http tls])), w)
      | None => (Some (mkRequests todo (rq_orders r)), send (CmdAcmeOrderFinished t false) w)
      end
  end.

(** One turn of the task of [continue_http_challenges]: the certificate that the order gives, or
    the message that it has ended. *)
Definition validation_turn (v : Validation) (answer : option Cert) (w : AcmeWorld) : option Validation * AcmeWorld :=
  match va_orders v, va_result v with
  | [], _ => (None, w)
  | o :: rest, None =>
      (Some (mkValidation (o :: rest) (Some (is_some answer))), match answer with Some c => send (CmdAddCert c) w | None => w end)
  | o :: rest, Some ok => (Some (mkValidation rest None), send (CmdAcmeOrderFinished (o_target o) ok) w)
  end.

(** [serve_challenges]. *)
Definition serve_challenges (orders : list AcmeOrder) (w : AcmeWorld) : AcmeWorld :=
  set_challenges (fold_left (fun m e => <[e.1 := e.2]> m) (flat_map o_http orders) (aw_http w))
    (aw_tls_alpn w ++ flat_map o_tls_alpn orders) w.

Definition continue_http_challenges (orders : list AcmeOrder) (w : AcmeWorld) : AcmeWorld :=
  let w := serve_challenges orders w in set_validations (aw_validations w ++ [mkValidation orders None]) w.

Definition stop_http_challenges (w : AcmeWorld) : AcmeWorld := set_challenges ∅ [] w.

Definition finish_acme_order (t : AcmeTarget) (succeeded : bool) (now : Instant) (w : AcmeWorld) : AcmeWorld :=
  let w := set_schedule (finish t succeeded now) w in
  if is_idle (aw_schedule w) then stop_http_challenges w else w.

Definition handle_command (c : AcmeCommand) (now : Instant) (w : AcmeWorld) : AcmeWorld :=
  match c with
  | CmdAddCert c => set_config (aw_entries w) (aw_discovered w) (add c (aw_certs w)) w
  | CmdAddAcmeOrders orders => continue_http_challenges orders w
  | CmdAcmeOrderFinished t ok => finish_acme_order t ok now w
  end.

Definition keep {A} (l1 : list A) (x : option A) (l2 : list A) : list A := l1 ++ match x with Some x => x :: l2 | None => l2 end.

(** The steps of the server and its tasks.  With [calm] an administrator orders an entry only
    while none of its targets is being ordered. *)
Inductive acme_step `{HEX : Hex} (calm : bool) : AcmeWorld -> AcmeWorld -> Prop :=
| step_config es ts l w : NoDup (map e_id es) -> acme_step calm w (set_config es ts l w)
| step_start leader now wall w : acme_step calm w (start_http_challenges leader now wall w)
| step_now i e wall w w' :
    find_entry i (aw_entries w) = Some e ->
    (calm = true -> Forall (fun t => t ∉ in_progress (aw_schedule w)) (targets_of_entry e wall w)) ->
    request_acme_now i wall w = Ok w' -> acme_step calm w w'
| step_request l1 r l2 answer w :
    aw_requests w = l1 ++ r :: l2 ->
    acme_step calm w (set_requests (keep l1 (request_turn r answer w).1 l2) (request_turn r answer w).2)
| step_validation l1 v l2 answer w :
    aw_validations w = l1 ++ v :: l2 ->
    acme_step calm w (set_validations (keep l1 (validation_turn v answer w).1 l2) (validation_turn v answer w).2)
| step_command c cs now w : aw_commands w = c :: cs -> acme_step calm w (handle_command c now (set_commands cs w)).

End Machine.

(** ** Renewal times *)

Lemma lead_bounds v : 0 <= v -> Z.min day_secs (v / 2) <= lead_secs v <= 30 * day_secs.
Proof. intros Hv. unfold lead_secs, clamp, day_secs. pose proof (Z.div_pos v 2). lia. Qed.

(** The bounds of the clamp are in order, so it does not panic. *)
Lemma lead_clamp_ordered v : Z.min day_secs (v / 2) <= 30 * day_secs.
Proof. unfold day_secs. lia. Qed.

(** A certificate is renewed before it ends: at least a day or half of its time before, at
    most 30 days, or earlier by the days of the entry, which count from its order. *)
Theorem renewal_before_expiry (c : Cert) (days t : Z) :
  cert_renewal_time c days = Some t ->
  let not_after := timestamp (c_not_after c) in
  let validity := Z.max (i64_saturating_sub not_after (timestamp (c_not_before c))) 0 in
  t <= not_after - Z.min day_secs (validity / 2)
  /\ (forall m, c_metadata c = Some m -> created_at m + MAX_RENEWAL_DAYS * day_secs <= i64_max -> t <= created_at m + clamp 1 MAX_RENEWAL_DAYS days * day_secs)
  /\ (not_after - 30 * day_secs <= t \/ exists s, (c_metadata c = None /\ s = timestamp (c_not_before c) \/ exists m, c_metadata c = Some m /\ s = created_at m) /\ t = s + clamp 1 MAX_RENEWAL_DAYS days * day_secs).
Proof.
  unfold cert_renewal_time. cbv zeta. set (na := timestamp (c_not_after c)). set (nb := timestamp (c_not_before c)).
  set (v := Z.max (i64_saturating_sub na nb) 0). set (conf := clamp 1 MAX_RENEWAL_DAYS days * day_secs).
  assert (Hc : conf <= MAX_RENEWAL_DAYS * day_secs) by (unfold conf, clamp, MAX_RENEWAL_DAYS, day_secs; lia).
  destruct (lead_bounds v) as [H1 H2]; [unfold v; lia|]. destruct (na <=? 0); [done|].
  destruct (c_metadata c) as [m|].
  - destruct (Z.leb_spec (created_at m + conf) i64_max) as [Hl|Hl]; intros [= <-].
    + split; [lia|]. split; [intros m' [= <-]; lia|]. destruct (Z.min_spec (created_at m + conf) (na - lead_secs v)) as [[_ ->]|[_ ->]]; [right|left; lia].
      exists (created_at m). split; [right; by exists m|done].
    + split; [lia|]. split; [intros m' [= <-]; lia|left; lia].
  - destruct (0 <? nb).
    + destruct (Z.leb_spec (nb + conf) i64_max) as [Hl|Hl]; intros [= <-].
      * split; [lia|]. split; [done|]. destruct (Z.min_spec (nb + conf) (na - lead_secs v)) as [[_ ->]|[_ ->]]; [right|left; lia].
        exists nb. split; [by left|done].
      * split; [lia|]. split; [done|left; lia].
    + intros [= <-]. split; [lia|]. split; [done|left; lia].
Qed.

(** ** The orders on their way *)

Section Orders.
Context `{TLS : TlsOps} `{HEX : Hex} (server_name : string -> bool).

Definition request_targets (r : Requests) : list AcmeTarget := rq_todo r ++ map o_target (rq_orders r).
Definition command_targets (c : AcmeCommand) : list AcmeTarget :=
  match c with CmdAddCert _ => [] | CmdAddAcmeOrders orders => map o_target orders | CmdAcmeOrderFinished t _ => [t] end.
Definition validation_targets (v : Validation) : list AcmeTarget := map o_target (va_orders v).

(** The targets of the orders on their way, one for each order. *)
Definition under_way (w : AcmeWorld) : list AcmeTarget :=
  flat_map request_targets (aw_requests w) ++ flat_map command_targets (aw_commands w) ++ flat_map validation_targets (aw_validations w).

(** The challenges of an order are served. *)
Definition served_order (w : AcmeWorld) (o : AcmeOrder) : Prop :=
  (forall e, e ∈ o_http o -> is_Some (aw_http w !! e.1)) /\ (forall e, e ∈ o_tls_alpn o -> e ∈ aw_tls_alpn w).

Record acme_inv (w : AcmeWorld) : Prop := {
  ai_entries : NoDup (map e_id (aw_entries w));
  ai_one : NoDup (under_way w);
  ai_known : forall t, t ∈ under_way w <-> t ∈ in_progress (aw_schedule w);
  ai_served : forall v o, v ∈ aw_validations w -> o ∈ va_orders v -> served_order w o;
}.

(** A step that only moves orders. *)
Lemma inv_moves w w' :
  under_way w' ≡ₚ under_way w -> aw_entries w' = aw_entries w -> aw_schedule w' = aw_schedule w ->
  (forall v o, v ∈ aw_validations w' -> o ∈ va_orders v -> served_order w' o) -> acme_inv w -> acme_inv w'.
Proof.
  intros Hp He Hs Hv [H1 H2 H3 H4]. split; [by rewrite He|by rewrite Hp| |done]. intros t. by rewrite Hp, Hs.
Qed.

Lemma served_same w w' v o : aw_http w' = aw_http w -> aw_tls_alpn w' = aw_tls_alpn w -> acme_inv w -> v ∈ aw_validations w -> o ∈ va_orders v -> served_order w' o.
Proof. intros E1 E2 Hi Hv Ho. unfold served_order. rewrite E1, E2. by apply (ai_served w Hi v). Qed.

(** *** New orders *)

Lemma started_in ts s t : t ∈ in_progress (fold_left (fun s t => start t s) ts s) <-> t ∈ ts \/ t ∈ in_progress s.
Proof.
  revert s. induction ts as [|x ts IH]; intros s; cbn [fold_left]; [set_solver|]. rewrite IH. unfold start. cbn [in_progress].
  rewrite elem_of_cons, elem_of_union, elem_of_singleton. tauto.
Qed.

Lemma reset_in ts s t : t ∈ in_progress (reset ts s) <-> t ∈ in_progress s /\ t ∉ ts.
Proof.
  unfold reset. revert s. induction ts as [|x ts IH]; intros s; cbn [fold_left]; [set_solver|]. rewrite IH. cbn [in_progress].
  rewrite elem_of_difference, elem_of_singleton, not_elem_of_cons. tauto.
Qed.

Lemma order_inv ts w :
  NoDup ts -> Forall (fun t => t ∉ in_progress (aw_schedule w)) ts -> acme_inv w -> acme_inv (order_targets ts w).
Proof.
  intros Hn Hf Hi. pose proof Hi as [H1 H2 H3 H4].
  assert (Hp : under_way (order_targets ts w) ≡ₚ ts ++ under_way w).
  { unfold under_way. cbn. rewrite flat_map_app. cbn. unfold request_targets at 2. cbn. rewrite !app_nil_r. solve_Permutation. }
  split; [done| | |done].
  - rewrite Hp. apply NoDup_app. split_and!; [done| |done]. intros t Ht. rewrite H3. rewrite Forall_forall in Hf. by apply Hf.
  - intros t. rewrite Hp, elem_of_app, H3. cbn [aw_schedule set_requests set_schedule order_targets]. by rewrite started_in.
Qed.

Lemma entry_targets_nodup l : NoDup (map e_id l) -> NoDup (map (fun e => entry_target e) (List.filter e_active l)).
Proof.
  intros H. apply (NoDup_fmap_1 t_acme_id). change (NoDup (map t_acme_id (map (fun e => entry_target e) (List.filter e_active l)))). rewrite map_map.
  induction l as [|e l IH]; [constructor|]. cbn [map] in H. apply NoDup_cons in H as [He H]. cbn [List.filter]. destruct (e_active e); [|by apply IH].
  cbn [map]. apply NoDup_cons. split; [|by apply IH]. intros (x & Ex & Hx)%list_elem_of_fmap. apply He. apply list_elem_of_fmap.
  exists x. split; [exact Ex|]. by apply elem_of_bool_filter in Hx as [Hx _].
Qed.

Lemma renewals_nodup now w : NoDup (map e_id (aw_entries w)) -> NoDup (map (fun r => r.1.2) (acme_renewals server_name now w)).
Proof.
  intros H. unfold acme_renewals.
  assert (H0 : NoDup (map (fun r : AcmeEntry * AcmeTarget * option Z => r.1.2) (map (fun e => (e, entry_target e, next_renewal e (aw_certs w))) (List.filter e_active (aw_entries w))))).
  { rewrite map_map. by apply entry_targets_nodup. }
  revert H0. generalize (map (fun e => (e, entry_target e, next_renewal e (aw_certs w))) (List.filter e_active (aw_entries w))).
  induction (aw_discovered w) as [|t ts IH]; intros rs Hrs; [done|]. cbn [fold_left]. apply IH. unfold add_discovered_renewal.
  destruct (find_entry _ _) as [e|]; [|done]. destruct (e_active e); [|done]. destruct (existsb _ rs) eqn:E; [done|].
  destruct (_ && _); [done|]. rewrite map_app. apply NoDup_app. split_and!; [done| |cbn; apply NoDup_singleton].
  intros x (r & -> & Hr)%list_elem_of_fmap Hx%list_elem_of_singleton. cbn in Hx.
  assert (Ht : existsb (fun r => bool_decide (r.1.2 = t)) rs = true); [|by rewrite Ht in E].
  apply existsb_exists. exists r. split; [by apply list_elem_of_In|by apply bool_decide_eq_true].
Qed.

Lemma due_targets_new now wall w :
  NoDup (map e_id (aw_entries w)) ->
  NoDup (due_targets server_name now wall w) /\ Forall (fun t => t ∉ in_progress (aw_schedule w)) (due_targets server_name now wall w).
Proof.
  intros H. pose proof (renewals_nodup wall w H) as Hn. unfold due_targets. revert Hn. generalize (acme_renewals server_name wall w). intros rs Hn. split.
  - induction rs as [|r rs IH]; [constructor|]. cbn [map] in Hn. apply NoDup_cons in Hn as [Hr Hn]. cbn [List.filter]. destruct (is_due _ _ _ _ _); [|by apply IH].
    cbn [map]. apply NoDup_cons. split; [|by apply IH]. intros (x & Ex & Hx)%list_elem_of_fmap. apply Hr. apply list_elem_of_fmap.
    exists x. split; [exact Ex|]. by apply elem_of_bool_filter in Hx as [Hx _].
  - rewrite Forall_forall. intros t (r & -> & Hr)%list_elem_of_fmap. apply elem_of_bool_filter in Hr as [_ Hr]. unfold is_due in Hr. by case_bool_decide.
Qed.

Lemma targets_of_entry_nodup e wall w : NoDup (targets_of_entry server_name e wall w).
Proof.
  unfold targets_of_entry. assert (H : NoDup [entry_target e]) by apply NoDup_singleton. revert H. generalize [entry_target e].
  induction (acme_renewals server_name wall w) as [|r rs IH]; intros l Hl; [done|]. cbn [fold_left]. apply IH.
  destruct (bool_decide (e_id r.1.1 = e_id e)); [|done]. cbn [andb]. case_bool_decide as Hr; [done|]. cbn [negb].
  apply NoDup_app. split_and!; [done| |apply NoDup_singleton]. intros x Hx ->%list_elem_of_singleton. done.
Qed.

Lemma now_inv i e wall w w' :
  find_entry i (aw_entries w) = Some e -> Forall (fun t => t ∉ in_progress (aw_schedule w)) (targets_of_entry server_name e wall w) ->
  request_acme_now server_name i wall w = Ok w' -> acme_inv w -> acme_inv w'.
Proof.
  intros He Hf. unfold request_acme_now. rewrite He. intros [= <-] Hi. apply order_inv; [apply targets_of_entry_nodup| |].
  - eapply Forall_impl; [exact Hf|]. intros t Ht. cbn [aw_schedule set_schedule]. rewrite reset_in. by intros [Hin _].
  - pose proof Hi as [H1 H2 H3 H4]. split; [done|done| |done]. intros t. cbn. rewrite reset_in, <-H3. split; [|tauto]. intros Ht. split; [done|].
    intros Hin. rewrite Forall_forall in Hf. apply (Hf t Hin). by apply H3.
Qed.

(** *** Turns of the tasks *)

Lemma flat_map_keep {A B} (f : A -> list B) l1 x l2 : flat_map f (keep l1 x l2) = flat_map f l1 ++ default [] (f <$> x) ++ flat_map f l2.
Proof. unfold keep. rewrite flat_map_app. by destruct x. Qed.

Lemma flat_map_middle {A B} (f : A -> list B) l1 x l2 : flat_map f (l1 ++ x :: l2) = flat_map f l1 ++ f x ++ flat_map f l2.
Proof. by rewrite flat_map_app. Qed.

Lemma request_inv l1 r l2 answer w :
  aw_requests w = l1 ++ r :: l2 -> acme_inv w -> acme_inv (set_requests (keep l1 (request_turn r answer w).1 l2) (request_turn r answer w).2).
Proof.
  intros E Hi. unfold request_turn. destruct r as [[|t todo] orders]; cbn [rq_todo rq_orders].
  - assert (Ho : request_targets (mkRequests [] orders) = map o_target orders) by done.
    apply (inv_moves w); [|by destruct orders|by destruct orders| |done].
    + unfold under_way. rewrite E, flat_map_middle, Ho. destruct orders as [|o orders]; cbn [fst snd set_requests send set_commands aw_requests aw_commands aw_validations];
        rewrite flat_map_keep; cbn [fmap option_fmap option_map default]; [solve_Permutation|].
      rewrite flat_map_app. cbn [flat_map command_targets]. rewrite app_nil_r. solve_Permutation.
    + intros v o Hv Hin. apply (served_same w _ v); [by destruct orders..|]. by destruct orders.
  - destruct answer as [[http tls]|].
    + apply (inv_moves w); [|done|done| |done].
      * unfold under_way. rewrite E, flat_map_middle. cbn [fst snd set_requests aw_requests aw_commands aw_validations]. rewrite flat_map_keep.
        cbn [fmap option_fmap option_map default]. unfold request_targets. cbn [rq_todo rq_orders]. rewrite map_app. cbn [map o_target]. solve_Permutation.
      * intros v o Hv Hin. by apply (served_same w _ v).
    + apply (inv_moves w); [|done|done| |done].
      * unfold under_way. rewrite E, flat_map_middle. cbn [fst snd set_requests send set_commands aw_requests aw_commands aw_validations]. rewrite flat_map_keep.
        cbn [fmap option_fmap option_map default]. unfold request_targets. cbn [rq_todo rq_orders]. rewrite flat_map_app. cbn [flat_map command_targets]. rewrite app_nil_r. solve_Permutation.
      * intros v o Hv Hin. by apply (served_same w _ v).
Qed.

Lemma validation_inv l1 v l2 answer w :
  aw_validations w = l1 ++ v :: l2 -> acme_inv w ->
  acme_inv (set_validations (keep l1 (validation_turn v answer w).1 l2) (validation_turn v answer w).2).
Proof.
  intros E Hi.
  assert (Hold : forall o, (exists v0, v0 ∈ aw_validations w /\ o ∈ va_orders v0) -> served_order w o) by (intros o (v0 & Hv0 & Ho); by apply (ai_served w Hi v0)).
  assert (Hl : forall v', v' ∈ l1 ++ l2 -> v' ∈ aw_validations w) by (intros v'; rewrite E, !elem_of_app, elem_of_cons; tauto).
  assert (Hv : v ∈ aw_validations w) by (rewrite E, elem_of_app, elem_of_cons; tauto).
  unfold validation_turn. destruct v as [[|o rest] result]; cbn [va_orders va_result] in *; [|destruct result as [ok|]].
  - apply (inv_moves w); [|done|done| |done].
    + unfold under_way. rewrite E, flat_map_middle. cbn [fst snd set_validations aw_requests aw_commands aw_validations]. rewrite flat_map_keep. done.
    + intros v' o' Hv' Ho'. apply Hold. exists v'. split; [by apply Hl|done].
  - apply (inv_moves w); [|done|done| |done].
    + unfold under_way. rewrite E, flat_map_middle. cbn [fst snd set_validations send set_commands aw_requests aw_commands aw_validations]. rewrite flat_map_keep.
      cbn [fmap option_fmap option_map default]. unfold validation_targets. cbn [va_orders map]. rewrite flat_map_app. cbn [flat_map command_targets]. rewrite app_nil_r. solve_Permutation.
    + intros v' o' Hv' Ho'. apply Hold. cbn [fst aw_validations set_validations] in Hv'. unfold keep in Hv'. rewrite elem_of_app, elem_of_cons in Hv'.
      destruct Hv' as [Hv'|[->|Hv']]; [exists v'; split; [apply Hl; set_solver|done]| |exists v'; split; [apply Hl; set_solver|done]].
      exists (mkValidation (o :: rest) (Some ok)). split; [done|]. cbn in *. set_solver.
  - apply (inv_moves w); [|by destruct answer|by destruct answer| |done].
    + unfold under_way. rewrite E, flat_map_middle. destruct answer as [c|]; cbn [fst snd set_validations send set_commands aw_requests aw_commands aw_validations]; rewrite flat_map_keep;
        cbn [fmap option_fmap option_map default]; unfold validation_targets; cbn [va_orders]; [rewrite flat_map_app; cbn [flat_map command_targets]; rewrite !app_nil_r|]; done.
    + intros v' o' Hv' Ho'. assert (Hs : served_order w o').
      { apply Hold. assert (Hv2 : v' ∈ keep l1 (Some (mkValidation (o :: rest) (Some (is_some answer)))) l2) by (by destruct answer).
        unfold keep in Hv2. rewrite elem_of_app, elem_of_cons in Hv2.
        destruct Hv2 as [Hv2|[->|Hv2]]; [exists v'; split; [apply Hl; set_solver|done]|by exists (mkValidation (o :: rest) None)|exists v'; split; [apply Hl; set_solver|done]]. }
      by destruct answer.
Qed.

(** *** Commands *)

Lemma extend_http l m k : is_Some (fold_left (fun (m : gmap string string) (e : string * string) => <[e.1 := e.2]> m) l m !! k) <-> k ∈ map fst l \/ is_Some (m !! k).
Proof.
  revert m. induction l as [|e l IH]; intros m; cbn [fold_left map]; [split; [by right|by intros [?%elem_of_nil|?]]|].
  rewrite IH, elem_of_cons. destruct (decide (e.1 = k)) as [<-|Hne].
  - rewrite lookup_insert_eq. split; [tauto|]. intros _. right. by eexists.
  - rewrite lookup_insert_ne by done. split; [tauto|]. intros [[->|H]|H]; [done|by left|by right].
Qed.

Lemma serve_old orders w o : served_order w o -> served_order (serve_challenges orders w) o.
Proof.
  intros [H1 H2]. split; intros e He; cbn [aw_http aw_tls_alpn serve_challenges set_challenges].
  - apply extend_http. right. by apply H1.
  - apply elem_of_app. left. by apply H2.
Qed.

Lemma serve_new orders w o : o ∈ orders -> served_order (serve_challenges orders w) o.
Proof.
  intros Ho. split; intros e He; cbn [aw_http aw_tls_alpn serve_challenges set_challenges].
  - apply extend_http. left. apply list_elem_of_fmap. exists e. split; [done|]. apply elem_of_flat_map. by exists o.
  - apply elem_of_app. right. apply elem_of_flat_map. by exists o.
Qed.

Lemma continue_inv orders cs w :
  aw_commands w = CmdAddAcmeOrders orders :: cs -> acme_inv w -> acme_inv (continue_http_challenges orders (set_commands cs w)).
Proof.
  intros E Hi. apply (inv_moves w); [|done|done| |done].
  - unfold under_way. rewrite E. cbn [continue_http_challenges serve_challenges set_challenges set_validations set_commands aw_requests aw_commands aw_validations flat_map command_targets].
    rewrite flat_map_app. cbn [flat_map validation_targets va_orders]. rewrite app_nil_r. unfold validation_targets at 2. cbn [va_orders]. solve_Permutation.
  - intros v o Hv Ho. apply elem_of_app in Hv as [Hv| ->%list_elem_of_singleton].
    + apply (serve_old orders (set_commands cs w)). by apply (ai_served w Hi v).
    + by apply (serve_new orders (set_commands cs w)).
Qed.

Lemma acme_finish_inv t ok now cs w :
  aw_commands w = CmdAcmeOrderFinished t ok :: cs -> acme_inv w -> acme_inv (finish_acme_order t ok now (set_commands cs w)).
Proof.
  intros E [H1 H2 H3 H4]. set (w1 := set_schedule (finish t ok now) (set_commands cs w)).
  assert (Hp : under_way w ≡ₚ t :: under_way w1) by (unfold under_way; rewrite E; cbn; solve_Permutation).
  assert (Hi : acme_inv w1).
  { rewrite Hp in H2. apply NoDup_cons in H2 as [Ht H2]. split; [done|done| |exact H4].
    intros x. cbn [w1 aw_schedule set_schedule finish in_progress set_commands]. rewrite elem_of_difference, elem_of_singleton, <-H3, Hp, elem_of_cons.
    split; [|tauto]. intros Hx. split; [by right|]. intros ->. done. }
  unfold finish_acme_order. fold w1. destruct (is_idle (aw_schedule w1)) eqn:Eidle; [|done].
  apply bool_decide_eq_true in Eidle. destruct Hi as [K1 K2 K3 K4]. split; [done|done|done|].
  intros v o Hv Ho. exfalso. assert (Hin : o_target o ∈ under_way w1).
  { unfold under_way. rewrite !elem_of_app, !elem_of_flat_map. right; right. exists v. split; [exact Hv|]. unfold validation_targets. by apply (list_elem_of_fmap_2 o_target). }
  apply K3 in Hin. rewrite Eidle in Hin. by apply not_elem_of_empty in Hin.
Qed.

Lemma acme_step_inv w w' : acme_step server_name true w w' -> acme_inv w -> acme_inv w'.
Proof.
  intros Hs Hi. destruct Hs as [es ts l w Hn|leader now wall w|i e wall w w' He Hc Hr|l1 r l2 answer w E|l1 v l2 answer w E|c cs now w E].
  - destruct Hi as [H1 H2 H3 H4]. by split.
  - unfold start_http_challenges. destruct (negb leader); [done|]. destruct (due_targets_new now wall w (ai_entries w Hi)) as [H1 H2].
    destruct (due_targets server_name now wall w) as [|t ts]; [done|]. by apply order_inv.
  - apply (now_inv i e wall w); [done|by apply Hc|done|done].
  - by apply request_inv.
  - by apply validation_inv.
  - destruct c as [c|orders|t ok]; cbn [handle_command]; [|by apply continue_inv|by apply acme_finish_inv].
    apply (inv_moves w); [|done|done| |done]; [unfold under_way; by rewrite E|]. intros v o Hv Ho. by apply (served_same w _ v).
Qed.

(** A server that orders nothing. *)
Definition quiet (es : list AcmeEntry) (ts : list AcmeTarget) (l : CertList) : AcmeWorld :=
  mkAcmeWorld es ts l AcmeSchedule_default ∅ [] [] [] [].

(** C20: However the orders of certificates, the answers of the ACME server, failures, new
    certificates and changes of the configuration interleave, each target has at most one order on
    its way, the schedule knows exactly the targets that have one, and the challenges of every
    order that waits for its validation are served, as long as nobody orders an entry by hand while
    it is being ordered. *)
Theorem one_order_per_target (es : list AcmeEntry) (ts : list AcmeTarget) (l : CertList) (w : AcmeWorld) :
  NoDup (map e_id es) ->
  rtc (acme_step server_name true) (quiet es ts l) w ->
  NoDup (under_way w)
  /\ (forall t, t ∈ under_way w <-> t ∈ in_progress (aw_schedule w))
  /\ (forall v o, v ∈ aw_validations w -> o ∈ va_orders v -> served_order w o).
Proof.
  intros He H. assert (Hi : acme_inv w); [|destruct Hi as [_ H1 H2 H3]; by split_and!].
  revert w H. apply (rtc_ind_r (R := acme_step server_name true) acme_inv (quiet es ts l)).
  - split; [done|constructor| |]; cbn; [intros t; by rewrite elem_of_nil, elem_of_empty|by intros v o ?%elem_of_nil].
  - intros w1 w2 _ Hs Hi. by apply (acme_step_inv w1).
Qed.

(** A target whose order failed is not ordered again for an hour. *)
Lemma failed_order_waits t now later wall next s :
  later < now + RETRY_AFTER_FAILURE -> is_due t next later wall (finish t false now s) = false.
Proof.
  intros H. unfold is_due, finish. cbn [in_progress retry_after]. rewrite bool_decide_false by set_solver. rewrite lookup_insert_eq. cbn.
  apply Z.ltb_lt in H. by rewrite H.
Qed.
End Orders.

(** ** Runs *)

Module AcmeExample.
#[local] Existing Instance CertExample.plain_tls.
#[local] Existing Instance CertExample.no_hex.

#[local] Abbreviation acme_step := (acme_step (fun _ => true)).

Definition entry : AcmeEntry := mkAcmeEntry [9] true [DnsName "a.example"] 30.
Definition idle : AcmeWorld := quiet [entry] [] (CertList_new [] []).

(** The next turn of the first task of each kind, or the next command. *)
Definition ask (answer : option (list (string * string) * list (string * string))) (w : AcmeWorld) : AcmeWorld :=
  match aw_requests w with r :: l => set_requests (keep [] (request_turn r answer w).1 l) (request_turn r answer w).2 | [] => w end.
Definition validate (answer : option Cert) (w : AcmeWorld) : AcmeWorld :=
  match aw_validations w with v :: l => set_validations (keep [] (validation_turn v answer w).1 l) (validation_turn v answer w).2 | [] => w end.
Definition handle (now : Instant) (w : AcmeWorld) : AcmeWorld :=
  match aw_commands w with c :: cs => handle_command c now (set_commands cs w) | [] => w end.
Definition by_hand (w : AcmeWorld) : AcmeWorld := match request_acme_now (fun _ => true) [9] 0 w with Ok w => w | Err _ => w end.

Lemma ask_step calm answer w : rtc (acme_step calm) w (ask answer w).
Proof. unfold ask. destruct (aw_requests w) as [|r l] eqn:E; [reflexivity|]. apply rtc_once. by apply (step_request _ calm [] r l). Qed.
Lemma validate_step calm answer w : rtc (acme_step calm) w (validate answer w).
Proof. unfold validate. destruct (aw_validations w) as [|v l] eqn:E; [reflexivity|]. apply rtc_once. by apply (step_validation _ calm [] v l). Qed.
Lemma handle_step calm now w : rtc (acme_step calm) w (handle now w).
Proof. unfold handle. destruct (aw_commands w) as [|c cs] eqn:E; [reflexivity|]. apply rtc_once. by apply step_command. Qed.
Lemma by_hand_step w : rtc (acme_step false) w (by_hand w).
Proof.
  unfold by_hand. destruct (request_acme_now _ _ _ w) as [w'|e] eqn:E; [|reflexivity]. apply rtc_once. pose proof E as E'. unfold request_acme_now in E'.
  destruct (find_entry [9] (aw_entries w)) as [e|] eqn:Ef; [|done]. by apply (step_now _ false [9] e 0 w w').
Qed.

(** An order that waits for its validation. *)
Definition waiting : AcmeWorld :=
  handle 0 (ask None (ask (Some ([("token1", "key1")], [])) (start_http_challenges (fun _ => true) true 0 0 idle))).

Lemma waiting_reached calm : rtc (acme_step calm) idle waiting.
Proof.
  unfold waiting. etrans; [apply rtc_once, (step_start _ calm true 0 0)|]. etrans; [apply ask_step|]. etrans; [apply ask_step|]. apply handle_step.
Qed.

(** The entry is ordered by hand while its first order waits, and then the first order fails. *)
Definition twice_ordered : AcmeWorld :=
  handle 0 (validate None (validate None (handle 0 (ask None (ask (Some ([("token2", "key2")], [])) (by_hand waiting)))))).

(** The end of the first order takes the target out of the schedule, which is then idle: the server
    stops to serve the challenge of the second order, which still waits for its validation. *)
Lemma order_by_hand_loses_its_challenge :
  rtc (acme_step false) idle twice_ordered
  /\ in_progress (aw_schedule twice_ordered) = ∅
  /\ flat_map va_orders (aw_validations twice_ordered) = [mkAcmeOrder (entry_target entry) [("token2", "key2")] []]
  /\ aw_http twice_ordered = ∅.
Proof.
  split; [|vm_compute; done].
  unfold twice_ordered. etrans; [apply (waiting_reached false)|]. etrans; [apply by_hand_step|]. etrans; [apply ask_step|]. etrans; [apply ask_step|].
  etrans; [apply handle_step|]. etrans; [apply validate_step|]. etrans; [apply validate_step|]. apply handle_step.
Qed.

(** The time in the comment of a certificate that is uploaded panics when it is too large. *)
Lemma huge_created_at_panics : deserialize_created_at u64_max = None.
Proof. reflexivity. Qed.

Lemma one_order_per_target_witness :
  NoDup (under_way waiting) /\ in_progress (aw_schedule waiting) = {[ entry_target entry ]}
  /\ aw_http waiting !! "token1" = Some "key1"
  /\ forall v o, v ∈ aw_validations waiting -> o ∈ va_orders v -> served_order waiting o.
Proof.
  destruct (one_order_per_target (fun _ => true) [entry] [] (CertList_new [] []) waiting) as (H1 & _ & H3).
  - apply NoDup_singleton.
  - apply (waiting_reached true).
  - split; [exact H1|]. split; [vm_compute; reflexivity|]. split; [vm_compute; reflexivity|exact H3].
Defined.

(** A certificate of 90 days that was ordered at the second 1000000 and is renewed after 30 days. *)
Lemma renewal_before_expiry_witness :
  let c := mkCert [1] Server true "" None "" [] (8776000 * 1000000000) (1000000 * 1000000000) (Some (mkCertMetadata [9] 1000000)) None in
  cert_renewal_time c 30 = Some 3592000 /\ 3592000 <= 8776000 - 86400.
Proof.
  assert (E : cert_renewal_time (mkCert [1] Server true "" None "" [] (8776000 * 1000000000) (1000000 * 1000000000) (Some (mkCertMetadata [9] 1000000)) None) 30 = Some 3592000)
    by (vm_compute; reflexivity).
  split; [exact E|]. apply renewal_before_expiry in E as [E _]. exact E.
Defined.

End AcmeExample.
