(* ===== verification/Backups.v ===== *)
(** * Backups of the managed databases

    [platform/backup.rs]: which options and dumps are accepted, the files of a backup directory
    with the retention and the verification next to it, the base and the segments of a recovery,
    and the scheduler with its tries.  The dump of a database, the uploads, the compression and the
    drill of a restore are inputs; a file is its SHA-256.  A missing file is the only error of the
    file system. *)

From Stdlib Require Import Ascii.
From stdpp Require Import strings.
From S2P Require Import Prelude Basics IpText Net EnvFiles Quarantine Schedule.

(** ** Options of remote targets *)

Definition is_safe_ssh_token_str (val : string) : bool :=
  negb (str_is_empty val) && negb (str_contains ".." val)
  && str_forallb (fun c => is_ascii_alphanumeric c || existsb (Ascii.eqb c) ["/"; "."; "_"; "-"]%char) val.

Definition SSH_OPTION_KEYS : list string :=
  ["stricthostkeychecking"; "userknownhostsfile"; "connecttimeout"; "batchmode"; "compression"; "serveraliveinterval";
   "serveralivecountmax"; "port"; "identityfile"].

Definition validate_ssh_o_option (opt : string) : result unit string :=
  match split_once "=" opt with
  | None => Err "invalid -o option format: expected key=value"
  | Some (key, val) =>
      if negb (bool_decide (to_ascii_lowercase key ∈ SSH_OPTION_KEYS)) then Err (String.append "disallowed ssh -o option: " key)
      else if negb (is_safe_ssh_token_str val) then Err (String.append "unsafe value for ssh -o option: " key)
      else Ok tt
  end.

(** The number of tokens that an option takes. *)
Definition validate_ssh_token (arg : string) (next : option string) : result nat string :=
  if bool_decide (arg ∈ ["-4"; "-6"; "-q"; "-v"]) then Ok 1%nat
  else if String.eqb arg "-p" then
    match next with
    | None => Err "missing port for -p"
    | Some port =>
        match parse_uint u16_max port with
        | None => Err "invalid port"
        | Some num => if num =? 0 then Err "port cannot be 0" else Ok 2%nat
        end
    end
  else if bool_decide (arg ∈ ["-i"; "-F"]) then
    match next with
    | None => Err (String.append "missing path for " arg)
    | Some path => if negb (is_safe_ssh_token_str path) then Err (String.append "unsafe path for " arg) else Ok 2%nat
    end
  else if String.eqb arg "-o" then
    match next with
    | None => Err "missing argument for -o"
    | Some opt => let? _ := validate_ssh_o_option opt in Ok 2%nat
    end
  else Err (String.append "disallowed ssh option: " arg).

Definition quote : ascii := ascii_of_nat 34.
Definition apostrophe : ascii := ascii_of_nat 39.
Definition newline : ascii := ascii_of_nat 10.
Definition carriage_return : ascii := ascii_of_nat 13.

Definition FORBIDDEN_SSH : list ascii :=
  [";"; "&"; "|"; "`"; "$"; "("; ")"; "{"; "}"; "<"; ">"; newline; carriage_return; "\"; quote; apostrophe]%char.

Definition contains_any (l : list ascii) (s : string) : bool := str_existsb (fun c => existsb (Ascii.eqb c) l) s.

(** The loop over the tokens; [fuel] is their number, and each turn takes one at least. *)
Fixpoint validate_ssh_tokens (fuel : nat) (tokens : list string) : result unit string :=
  match fuel, tokens with
  | S fuel, arg :: rest => let? n := validate_ssh_token arg (head rest) in validate_ssh_tokens fuel (drop n tokens)
  | _, _ => Ok tt
  end.

Definition validate_rsync_ssh_options (options : string) : result unit string :=
  let trimmed := trim options in
  if str_is_empty trimmed then Ok tt
  else if contains_any FORBIDDEN_SSH trimmed then Err "rsync ssh_options contains forbidden characters"
  else
    let tokens := split_whitespace trimmed in
    let tokens := match tokens with x :: rest => if String.eqb x "ssh" then rest else tokens | [] => [] end in
    validate_ssh_tokens (length tokens) tokens.

Definition format_rsync_rsh (ssh_options : string) : result string string :=
  let? _ := validate_rsync_ssh_options ssh_options in
  let trimmed := trim ssh_options in
  Ok (if starts_with "ssh" trimmed then trimmed else String.append "ssh " trimmed).

Definition FORBIDDEN_SFTP : list ascii := [newline; carriage_return; ascii_of_nat 0; quote; "\"; "!"; ";"; "`"; "$"]%char.

Definition sanitize_sftp_path_component (component : string) : result string string :=
  let trimmed := trim component in
  if str_is_empty trimmed then Err "sftp path component cannot be empty"
  else if contains_any FORBIDDEN_SFTP trimmed then Err "sftp path component contains forbidden characters"
  else Ok trimmed.

Record SftpConfig : Type := mkSftpConfig { sftp_host : string; sftp_port : Z; sftp_user : string; sftp_path : string }.

Definition FORBIDDEN_HOST_USER : list ascii :=
  [newline; carriage_return; ascii_of_nat 0; " "; ascii_of_nat 9; ";"; "&"; "|"; "`"; "$"; apostrophe; quote; "\"]%char.

Definition validate_sftp_config (sftp : SftpConfig) : result unit string :=
  let? _ := if str_is_empty (sftp_path sftp) then Ok EmptyString else sanitize_sftp_path_component (sftp_path sftp) in
  if contains_any FORBIDDEN_HOST_USER (sftp_host sftp) || starts_with "-" (sftp_host sftp) then Err "sftp host contains invalid characters"
  else if contains_any FORBIDDEN_HOST_USER (sftp_user sftp) || starts_with "-" (sftp_user sftp) then Err "sftp user contains invalid characters"
  else Ok tt.

(** [trim_end_matches('/')]. *)
Fixpoint trim_end_slashes (s : string) : string :=
  match s with
  | EmptyString => EmptyString
  | String c r => match trim_end_slashes r with EmptyString => if Ascii.eqb c "/" then EmptyString else String c EmptyString | r => String c r end
  end.

Definition quoted (s : string) : string := String quote (String.append s (String quote EmptyString)).

Definition sftp_line (s : string) : string := String.append s (String newline EmptyString).

(** The commands of [sftp -b]. *)
Definition build_sftp_batch (path name dump_path manifest_path : string) : result string string :=
  let? clean_path := sanitize_sftp_path_component path in
  let? clean_name := sanitize_sftp_path_component name in
  let target_dir := String.append (trim_end_slashes clean_path) (String.append "/" clean_name) in
  let target := quoted (String.append target_dir "/") in
  Ok (String.append (sftp_line (String.append "-mkdir " (quoted target_dir)))
       (String.append (sftp_line (String.append "put " (String.append (quoted dump_path) (String.append " " target))))
         (String.append (sftp_line (String.append "put " (String.append (quoted manifest_path) (String.append " " target))))
           (sftp_line "quit")))).

(** ** Formats of dumps *)

Definition SQL_PREFIXES : list string := ["--"; "/*"; "SET "; "CREATE "; "INSERT "; "DROP "; "ALTER "; "USE "; "\"].

(** [&bytes[..bytes.len().min(1024)]]. *)
Definition sample (bytes : string) : string := String.substring 0 1024 bytes.

Definition has_nul (s : string) : bool := str_contains_char s (ascii_of_nat 0).

Definition is_plain_sql (bytes : string) : bool :=
  let s := sample bytes in
  if has_nul s then false
  else if utf8_valid (as_bytes s) then existsb (fun p => starts_with p (trim_start s)) SQL_PREFIXES
  else false.

Definition is_mysql_signature (text : string) : bool :=
  str_contains "MySQL dump" text || str_contains "MariaDB dump" text || str_contains "/*M!" text || str_contains "/*!40101" text.

Definition is_postgres_signature (text : string) : bool := str_contains "PostgreSQL database dump" text || str_contains "pg_dump" text.

Inductive FormatError : Type :=
| EmptyDump
| MissingMagic
| OtherEngine (dump : string)
| BinarySql
| NotUtf8
| UnknownSqlHeader.

Definition check_cross_sql_mismatch (engine text : string) : result unit FormatError :=
  if String.eqb engine "postgres" && is_mysql_signature text then Err (OtherEngine "mysql")
  else if (String.eqb engine "mysql" || String.eqb engine "mariadb") && is_postgres_signature text then Err (OtherEngine "postgres")
  else Ok tt.

Definition validate_sql_dump (engine bytes : string) : result unit FormatError :=
  let s := sample bytes in
  if has_nul s then Err BinarySql
  else if negb (utf8_valid (as_bytes s)) then Err NotUtf8
  else if negb (is_plain_sql bytes) then Err UnknownSqlHeader
  else check_cross_sql_mismatch engine s.

Definition validate_redis_dump (bytes : string) : result unit FormatError :=
  if starts_with "REDIS" bytes then Ok tt else Err MissingMagic.

Definition validate_postgres_dump (bytes : string) : result unit FormatError :=
  if starts_with "REDIS" bytes then Err (OtherEngine "redis")
  else if starts_with "PGDMP" bytes then Ok tt
  else validate_sql_dump "postgres" bytes.

Definition validate_mysql_dump (engine bytes : string) : result unit FormatError :=
  if starts_with "REDIS" bytes then Err (OtherEngine "redis")
  else if starts_with "PGDMP" bytes then Err (OtherEngine "postgres")
  else validate_sql_dump engine bytes.

Definition validate_mongodb_dump (bytes : string) : result unit FormatError :=
  if starts_with "REDIS" bytes then Err (OtherEngine "redis")
  else if starts_with "PGDMP" bytes then Err (OtherEngine "postgres")
  else if is_plain_sql bytes then Err (OtherEngine "sql")
  else Ok tt.

Definition validate_backup_engine_format (engine bytes : string) : result unit FormatError :=
  if str_is_empty bytes then Err EmptyDump
  else if String.eqb engine "redis" then validate_redis_dump bytes
  else if String.eqb engine "postgres" then validate_postgres_dump bytes
  else if String.eqb engine "mysql" || String.eqb engine "mariadb" then validate_mysql_dump engine bytes
  else if String.eqb engine "mongodb" then validate_mongodb_dump bytes
  else Ok tt.

(** ** The directory of a database *)

(** The details of the drill are left out. *)
Record BackupEntry : Type := mkBackupEntry {
  b_id : string;
  b_app : ShortId;
  b_name : string;
  b_engine : string;
  b_size : Z;
  b_sha256 : string;
  b_created_at : Z;
  b_verified_at : option Z;
  b_status : option string;
}.

(** The manifests, and the SHA-256 of each dump file, by the identifier in the file name. *)
Record BackupDir : Type := mkBackupDir { manifests : gmap string BackupEntry; dumps : gmap string string }.

Inductive BackupError : Type := BackupNotFound (id : string) | FileNotFound (path : string) | CaptureFailed (e : string).

Definition write_dump (id sha : string) (d : BackupDir) : BackupDir := mkBackupDir (manifests d) (<[id := sha]> (dumps d)).
Definition remove_dump (id : string) (d : BackupDir) : BackupDir := mkBackupDir (manifests d) (delete id (dumps d)).
Definition write_manifest (e : BackupEntry) (d : BackupDir) : BackupDir := mkBackupDir (<[b_id e := e]> (manifests d)) (dumps d).

(** [list_backups]: the newest first. *)
Definition list_backups (d : BackupDir) : list BackupEntry :=
  sort_by (fun a b => b_created_at b <=? b_created_at a) (map snd (map_to_list (manifests d))).

Definition backup_entry (id : string) (d : BackupDir) : result BackupEntry BackupError :=
  match List.find (fun e => String.eqb (b_id e) id) (list_backups d) with Some e => Ok e | None => Err (BackupNotFound id) end.

(** [remove_file] of the dump, then of the manifest. *)
Definition delete_backup (id : string) (d : BackupDir) : result unit BackupError * BackupDir :=
  match backup_entry id d with
  | Err e => (Err e, d)
  | Ok e =>
      match dumps d !! b_id e with
      | None => (Err (FileNotFound (String.append (b_id e) ".dump.gz")), d)
      | Some _ =>
          let d := remove_dump (b_id e) d in
          match manifests d !! b_id e with
          | None => (Err (FileNotFound (String.append (b_id e) ".json")), d)
          | Some _ => (Ok tt, mkBackupDir (delete (b_id e) (manifests d)) (dumps d))
          end
      end
  end.

(** A deletion that has found its entry, and one that has removed the dump: [delete_backup] takes no
    lock, so anything can come between its two removals. *)
Inductive Deletion : Type := Found (id : string) | DumpGone (id : string).

Definition del_id (s : Deletion) : string := match s with Found id | DumpGone id => id end.

Definition deletion_turn (s : Deletion) (d : BackupDir) : (Deletion + result unit BackupError) * BackupDir :=
  match s with
  | Found id =>
      match dumps d !! id with
      | None => (inr (Err (FileNotFound (String.append id ".dump.gz"))), d)
      | Some _ => (inl (DumpGone id), remove_dump id d)
      end
  | DumpGone id =>
      match manifests d !! id with
      | None => (inr (Err (FileNotFound (String.append id ".json"))), d)
      | Some _ => (inr (Ok tt), mkBackupDir (delete id (manifests d)) (dumps d))
      end
  end.

Fixpoint delete_each (l : list BackupEntry) (d : BackupDir) : result unit BackupError * BackupDir :=
  match l with
  | [] => (Ok tt, d)
  | e :: l =>
      match delete_backup (b_id e) d with
      | (Ok _, d) => delete_each l d
      | (Err err, d) => (Err err, d)
      end
  end.

Definition apply_retention (keep : Z) (d : BackupDir) : result unit BackupError * BackupDir :=
  delete_each (drop (Z.to_nat (Z.max keep 1)) (list_backups d)) d.

(** ** Verification *)

(** What the drill of a dump says: an error of the decompression, or its result. *)
Definition Drill : Type := result (bool * string) string.

(** The result of the checks, from the file as it is now. *)
Definition verify_checks (e : BackupEntry) (drill : Drill) (d : BackupDir) : bool * string :=
  match dumps d !! b_id e with
  | None => (false, "checksum calculation failed")
  | Some digest =>
      if negb (String.eqb digest (b_sha256 e)) then (false, "checksum mismatch")
      else match drill with Err _ => (false, "decompression failed") | Ok r => r end
  end.

Definition save_verification_result (e : BackupEntry) (r : bool * string) (now : Z) (d : BackupDir) : BackupDir :=
  write_manifest
    (mkBackupEntry (b_id e) (b_app e) (b_name e) (b_engine e) (b_size e) (b_sha256 e) (b_created_at e) (Some now)
       (Some (if r.1 then "valid" else String.append "failed: " r.2))) d.

(** [verify_backup] with nothing in between. *)
Definition verify_backup (id : string) (drill : Drill) (now : Z) (d : BackupDir) : result bool BackupError * BackupDir :=
  match backup_entry id d with
  | Err e => (Err e, d)
  | Ok e => let r := verify_checks e drill d in (Ok r.1, save_verification_result e r now d)
  end.

(** ** Taking a backup *)

Record BackupConfig : Type := mkBackupConfig { schedule : string; bc_keep : Z; restore_test_enabled : bool }.

(** What the world gives to a backup: its identifier, the size and the SHA-256 of the dump, the
    time, and the drill of the test. *)
Record BackupInput : Type := mkBackupInput {
  bi_id : string;
  bi_capture : result (string * Z * string) string;
  bi_now : Z;
  bi_drill : Drill;
}.

(** The manifest, and the test of a restore, whose errors are ignored. *)
Definition store_backup (c : BackupConfig) (e : BackupEntry) (i : BackupInput) (d : BackupDir) : BackupDir :=
  let d := write_manifest e d in
  if restore_test_enabled c then (verify_backup (b_id e) (bi_drill i) (bi_now i) d).2 else d.

Definition run_backup (c : BackupConfig) (app : ShortId) (name : string) (i : BackupInput) (d : BackupDir) : result BackupEntry BackupError * BackupDir :=
  match bi_capture i with
  | Err e => (Err (CaptureFailed e), remove_dump (bi_id i) d)
  | Ok (engine, size, sha) =>
      let d := write_dump (bi_id i) sha d in
      let entry := mkBackupEntry (bi_id i) app name engine size sha (bi_now i) None None in
      let d := store_backup c entry i d in
      match apply_retention (bc_keep c) d with
      | (Ok _, d) => (Ok entry, d)
      | (Err err, d) => (Err err, remove_dump (bi_id i) d)
      end
  end.

(** ** Recovery to a point in time *)

Inductive PitrError : Type := NoBaseBackups | PitrTargetOutOfRange.

(** [Iterator::max_by_key]: the last one of the greatest. *)
Definition max_by_key {A} (key : A -> Z) (l : list A) : option A :=
  match l with
  | [] => None
  | x :: l => Some (fold_left (fun best y => if key best <=? key y then y else best) l x)
  end.

Definition min_of (l : list Z) : option Z := match l with [] => None | x :: l => Some (fold_left Z.min l x) end.

(** [created_at as u64]. *)
Definition as_u64 (x : Z) : Z := x mod 18446744073709551616.

Definition find_base_backup (backups : list BackupEntry) (target_time : Z) : result BackupEntry PitrError :=
  match backups with
  | [] => Err NoBaseBackups
  | _ =>
      let earliest := default 0 (min_of (map (fun b => as_u64 (b_created_at b)) backups)) in
      if target_time <? earliest then Err PitrTargetOutOfRange
      else match max_by_key b_created_at (List.filter (fun b => as_u64 (b_created_at b) <=? target_time) backups) with
           | Some b => Ok b
           | None => Err PitrTargetOutOfRange
           end
  end.

Record WalSegment : Type := mkWalSegment { ws_id : string; ws_start_time : Z; ws_end_time : Z }.

Definition filter_wal_segments (segments : list WalSegment) (base_time target_time : Z) : list WalSegment :=
  List.filter (fun s => (ws_start_time s <=? target_time) && (base_time <=? ws_end_time s)) segments.

(** [list_wal_segments] sorts by the start. *)
Definition list_wal_segments (segments : list WalSegment) : list WalSegment := sort_by (fun a b => ws_start_time a <=? ws_start_time b) segments.

(** The start of the next segment: the end of the last one, or five minutes ago. *)
Definition next_segment_start (segments : list WalSegment) (now : Z) : Z :=
  match last (list_wal_segments segments) with Some s => ws_end_time s | None => sat_sub now 300000 end.

(** The segments that [replay_wal_to_target] restores, each one as a whole. *)
Definition replayed_segments (segments : list WalSegment) (target_time : Z) : list WalSegment :=
  List.filter (fun s => ws_start_time s <=? target_time) segments.

Record PitrRange : Type := mkPitrRange { pr_earliest : option Z; pr_latest : option Z; pr_active : bool }.

Definition max_of (l : list Z) : option Z := match l with [] => None | x :: l => Some (fold_left Z.max l x) end.

Definition pitr_range (backups : list BackupEntry) (segments : list WalSegment) (running : bool) (now : Z) : PitrRange :=
  let times := map (fun b => as_u64 (b_created_at b)) backups in
  let latest :=
    if running then Some now
    else match max_of times, max_of (map ws_end_time segments) with
         | Some b, Some w => Some (Z.max b w)
         | Some b, None => Some b
         | None, w => w
         end in
  mkPitrRange (min_of times) latest (running && is_some (min_of times)).

(** ** The scheduler *)

Definition MAX_BACKUP_RETRIES : Z := 3.

Definition scheduled_slot_ms (schedule : string) (now_ms : Z) : option Z :=
  match split_once ":" schedule with
  | None => None
  | Some (h, m) =>
      match parse_i64 h, parse_i64 m with
      | Some hour, Some minute =>
          if negb ((0 <=? hour) && (hour <? 24)) || negb ((0 <=? minute) && (minute <? 60)) then None
          else Some (now_ms / 86400000 * 86400000 + hour * 3600000 + minute * 60000)
      | _, _ => None
      end
  end.

Definition calculate_backoff_ms (attempts : Z) : Z := if attempts =? 1 then 60000 else if attempts =? 2 then 300000 else 900000.

(** The slot, the number of failed tries and the time of the next one, by app. *)
Definition BackupAttempts : Type := gmap ShortId (Z * Z * Z).

Definition is_backup_due (app : ShortId) (slot now : Z) (a : BackupAttempts) : bool :=
  match a !! app with
  | None => true
  | Some (attempt_slot, count, next_at) => if negb (attempt_slot =? slot) then true else (count <? MAX_BACKUP_RETRIES) && (next_at <=? now)
  end.

Definition record_backup_failure (app : ShortId) (slot now : Z) (a : BackupAttempts) : BackupAttempts :=
  let count := match a !! app with Some (s, c, _) => if s =? slot then c + 1 else 1 | None => 1 end in
  <[app := (slot, count, now + calculate_backoff_ms count)]> a.

Definition record_backup_success (app : ShortId) (a : BackupAttempts) : BackupAttempts := delete app a.

(** The decision of [check_app_backup]: a backup, a test of one that was not tested, or nothing.
    [listed] is [None] when the directory cannot be read. *)
Inductive BackupAction : Type := TakeBackup | TestUntested | NoAction.

Definition check_app_backup (c : BackupConfig) (app : ShortId) (slot now : Z) (listed : option (list BackupEntry)) (a : BackupAttempts) : option BackupAction :=
  l ← listed;
  let last := b_created_at <$> head l in
  Some (if (slot <=? now) && is_none_or (fun created_at => created_at <? slot) last then
          if is_backup_due app slot now a then TakeBackup else NoAction
        else if restore_test_enabled c then TestUntested else NoAction).

(** One round over the databases.  For each one: what its directory lists, and whether its backup
    succeeds.  The answer is the list of the databases whose backup was taken, and whether the
    round came to its end. *)
Fixpoint scheduled_round (c : BackupConfig) (slot now : Z) (apps : list (ShortId * option (list BackupEntry) * bool)) (a : BackupAttempts)
  : list ShortId * bool * BackupAttempts :=
  match apps with
  | [] => ([], true, a)
  | (app, listed, succeeds) :: rest =>
      match check_app_backup c app slot now listed a with
      | None => ([], false, a)
      | Some TakeBackup =>
          let a := if (succeeds : bool) then record_backup_success app a else record_backup_failure app slot now a in
          let '(taken, ok, a) := scheduled_round c slot now rest a in (app :: taken, ok, a)
      | Some _ => scheduled_round c slot now rest a
      end
  end.

Definition run_scheduled_backups (c : BackupConfig) (now : Z) (apps : list (ShortId * option (list BackupEntry) * bool)) (a : BackupAttempts)
  : list ShortId * bool * BackupAttempts :=
  match scheduled_slot_ms (schedule c) now with
  | None => ([], true, a)
  | Some slot => scheduled_round c slot now apps a
  end.

(** ** Facts on options *)

(** The options that a line may have. *)
Inductive ssh_options : list string -> Prop :=
| ssh_end : ssh_options []
| ssh_flag arg rest : arg ∈ ["-4"; "-6"; "-q"; "-v"] -> ssh_options rest -> ssh_options (arg :: rest)
| ssh_port port num rest : parse_uint u16_max port = Some num -> num <> 0 -> ssh_options rest -> ssh_options ("-p" :: port :: rest)
| ssh_path arg path rest : arg ∈ ["-i"; "-F"] -> is_safe_ssh_token_str path = true -> ssh_options rest -> ssh_options (arg :: path :: rest)
| ssh_set key val opt rest :
    split_once "=" opt = Some (key, val) -> to_ascii_lowercase key ∈ SSH_OPTION_KEYS -> is_safe_ssh_token_str val = true ->
    ssh_options rest -> ssh_options ("-o" :: opt :: rest).

Lemma ssh_o_option_spec opt :
  validate_ssh_o_option opt = Ok tt <->
  exists key val, split_once "=" opt = Some (key, val) /\ to_ascii_lowercase key ∈ SSH_OPTION_KEYS /\ is_safe_ssh_token_str val = true.
Proof.
  unfold validate_ssh_o_option. destruct (split_once "=" opt) as [[key val]|]; [|by split; [done|intros (? & ? & ? & _)]].
  case_bool_decide as Hk; cbn [negb]; [|split; [done|by intros (k & v & [= <- <-] & H & _)]].
  destruct (is_safe_ssh_token_str val) eqn:Es; cbn [negb].
  - split; [|done]. intros _. by exists key, val.
  - split; [done|]. intros (k & v & E & _ & H). injection E as <- <-. by rewrite Es in H.
Qed.

(** The options are safe exactly when the first one is and the rest are. *)
Lemma ssh_token_spec arg rest :
  ssh_options (arg :: rest) <-> exists n, validate_ssh_token arg (head rest) = Ok n /\ (1 <= n <= S (length rest))%nat /\ ssh_options (drop n (arg :: rest)).
Proof.
  unfold validate_ssh_token. split.
  - intros H. inversion H as [|? ? Ha Hr|port num r Hp Hz Hr|? path r Ha Hs Hr|key val opt r Ho Hk Hs Hr]; subst.
    + exists 1%nat. rewrite bool_decide_true by done. split_and!; [done|lia|lia|done].
    + exists 2%nat. cbn [head]. rewrite Hp. destruct (Z.eqb_spec num 0); [done|]. cbn [length]. split_and!; [done|lia|lia|done].
    + exists 2%nat. cbn [head]. apply elem_of_cons in Ha as [->|Ha%list_elem_of_singleton]; [|subst arg];
        cbn -[is_safe_ssh_token_str]; rewrite Hs; (split_and!; [done|lia|lia|done]).
    + exists 2%nat. cbn [head]. assert (E : validate_ssh_o_option opt = Ok tt) by (apply ssh_o_option_spec; by exists key, val).
      cbn -[validate_ssh_o_option]. rewrite E. cbn. split_and!; [done|lia|lia|done].
  - intros (n & Hn & Hl & Hd). case_bool_decide as Hf; [injection Hn as <-; by apply ssh_flag|].
    destruct (String.eqb_spec arg "-p") as [->|_].
    { destruct rest as [|port rest]; [done|]. cbn [head] in Hn. destruct (parse_uint u16_max port) as [num|] eqn:Ep; [|done].
      destruct (Z.eqb_spec num 0); [done|]. injection Hn as <-. by apply (ssh_port port num). }
    case_bool_decide as Hi.
    { destruct rest as [|path rest]; [done|]. cbn [head] in Hn. destruct (is_safe_ssh_token_str path) eqn:Es; [|done]. injection Hn as <-. by apply ssh_path. }
    destruct (String.eqb_spec arg "-o") as [->|_]; [|done]. destruct rest as [|opt rest]; [done|]. cbn [head] in Hn.
    destruct (validate_ssh_o_option opt) as [[]|] eqn:Eo; [|done]. injection Hn as <-. apply ssh_o_option_spec in Eo as (key & val & H1 & H2 & H3).
    by apply (ssh_set key val).
Qed.

Lemma ssh_tokens_spec fuel tokens : (length tokens <= fuel)%nat -> validate_ssh_tokens fuel tokens = Ok tt <-> ssh_options tokens.
Proof.
  revert tokens. induction fuel as [|fuel IH]; intros [|arg rest] Hl; cbn [validate_ssh_tokens length] in *; [split; [constructor|done]|lia|split; [constructor|done]|].
  rewrite ssh_token_spec. destruct (validate_ssh_token arg (head rest)) as [n|e] eqn:En; cbn [and_then].
  - assert (Hn : (1 <= n <= S (length rest))%nat).
    { revert En. unfold validate_ssh_token. repeat case_bool_decide; try (intros [= <-]; lia).
      all: destruct rest as [|x rest]; cbn [head length]; repeat (first [case_match|destruct (String.eqb _ _)]); try (by intros [=]); try (intros [= <-]; lia).
      all: destruct (validate_ssh_o_option x); cbn; intros [= <-]; lia. }
    assert (Hd : (length (drop n (arg :: rest)) <= fuel)%nat) by (rewrite length_drop; cbn [length]; lia).
    rewrite (IH _ Hd). split; [by exists n|]. by intros (m & [= <-] & _ & H).
  - split; [done|]. by intros (m & [=] & _).
Qed.

(** ** Facts on the directory *)

(** Each manifest stands under its own identifier. *)
Definition keyed (d : BackupDir) : Prop := forall id e, manifests d !! id = Some e -> b_id e = id.

(** A backup has a manifest exactly when it has a dump. *)
Definition whole (d : BackupDir) : Prop := forall id, is_Some (manifests d !! id) <-> is_Some (dumps d !! id).

Lemma list_backups_elem d e : keyed d -> e ∈ list_backups d <-> manifests d !! b_id e = Some e.
Proof.
  intros Hk. unfold list_backups. rewrite sort_by_elem_of, (list_elem_of_fmap snd). split.
  - intros ([id x] & -> & Hx). apply elem_of_map_to_list in Hx. cbn. by rewrite (Hk id x Hx).
  - intros H. exists (b_id e, e). by rewrite elem_of_map_to_list.
Qed.

Lemma list_backups_ids d : keyed d -> NoDup (map b_id (list_backups d)).
Proof.
  intros Hk. unfold list_backups. rewrite sort_by_perm.
  assert (E : map b_id (map snd (map_to_list (manifests d))) = map fst (map_to_list (manifests d))); [|rewrite E; apply NoDup_fst_map_to_list].
  rewrite map_map. apply map_ext_in. intros [id x] Hx. apply list_elem_of_In, elem_of_map_to_list in Hx. by apply Hk.
Qed.

Lemma list_backups_sorted d : StronglySorted (fun a b => b_created_at b <= b_created_at a) (list_backups d).
Proof.
  eapply StronglySorted_mono; [|apply (sort_by_sorted (fun a b => b_created_at b <=? b_created_at a))].
  - intros x y. cbn. lia.
  - intros x y. lia.
  - intros x y z. lia.
Qed.

Lemma backup_entry_spec id d e : keyed d -> backup_entry id d = Ok e <-> manifests d !! id = Some e.
Proof.
  intros Hk. unfold backup_entry. destruct (List.find _ (list_backups d)) as [x|] eqn:E.
  - apply find_some in E as [Hx E]. apply list_elem_of_In, (list_backups_elem d x Hk) in Hx. apply String.eqb_eq in E as <-. rewrite Hx. split; intros H; injection H as ->; done.
  - split; [done|]. intros H. pose proof (Hk id e H) as <-. apply (list_backups_elem d e Hk), list_elem_of_In in H.
    apply (find_none _ _ E) in H. by rewrite String.eqb_refl in H.
Qed.

Lemma delete_whole d id e :
  keyed d -> whole d -> manifests d !! id = Some e -> delete_backup id d = (Ok tt, mkBackupDir (delete id (manifests d)) (delete id (dumps d))).
Proof.
  intros Hk Hw H. unfold delete_backup. rewrite (proj2 (backup_entry_spec id d e Hk) H), (Hk id e H).
  destruct (proj1 (Hw id) (mk_is_Some _ _ H)) as [s Hs]. rewrite Hs. cbn. by rewrite H.
Qed.

(** A directory without the backups in [ids]. *)
Definition without (ids : list string) (d d' : BackupDir) : Prop :=
  forall id, manifests d' !! id = (if decide (id ∈ ids) then None else manifests d !! id) /\ dumps d' !! id = (if decide (id ∈ ids) then None else dumps d !! id).

Lemma without_keyed ids d d' : without ids d d' -> keyed d -> keyed d'.
Proof. intros Hd Hk id e. rewrite (proj1 (Hd id)). destruct (decide _); [done|apply Hk]. Qed.

Lemma without_whole ids d d' : without ids d d' -> whole d -> whole d'.
Proof. intros Hd Hw id. rewrite (proj1 (Hd id)), (proj2 (Hd id)). destruct (decide _); [by split|apply Hw]. Qed.

Lemma delete_each_whole l d :
  keyed d -> whole d -> NoDup (map b_id l) -> (forall e, e ∈ l -> manifests d !! b_id e = Some e) ->
  exists d', delete_each l d = (Ok tt, d') /\ without (map b_id l) d d'.
Proof.
  revert d. induction l as [|e l IH]; intros d Hk Hw Hn Hl.
  { exists d. split; [done|]. intros id. by rewrite decide_False by (by intros ?%elem_of_nil). }
  cbn [map] in Hn. apply NoDup_cons in Hn as [He Hn]. cbn [delete_each]. rewrite (delete_whole d (b_id e) e); [|done|done|apply Hl; set_solver].
  set (d1 := mkBackupDir _ _). assert (H1 : without [b_id e] d d1).
  { intros id. unfold d1. cbn [manifests dumps]. destruct (decide (id ∈ [b_id e])) as [Hi|Hne].
    - apply list_elem_of_singleton in Hi. subst id. by rewrite !lookup_delete_eq.
    - rewrite !lookup_delete_ne; [done|intros Hi; by apply Hne, list_elem_of_singleton..]. }
  destruct (IH d1) as (d' & E & H'); [by apply (without_keyed _ _ _ H1)|by apply (without_whole _ _ _ H1)|done| |].
  { intros x Hx. rewrite (proj1 (H1 _)). rewrite decide_False; [apply Hl; set_solver|]. intros H%list_elem_of_singleton.
    apply He. rewrite <-H. by apply (list_elem_of_fmap_2 b_id). }
  exists d'. split; [done|]. intros id. rewrite (proj1 (H' id)), (proj2 (H' id)), (proj1 (H1 id)), (proj2 (H1 id)). cbn [map].
  destruct (decide (id ∈ map b_id l)); [by rewrite !decide_True by set_solver|].
  destruct (decide (id ∈ [b_id e])); [by rewrite !decide_True by set_solver|by rewrite !decide_False by set_solver].
Qed.

(** *** A new backup *)

Lemma keyed_insert e m ds d : manifests d = m -> keyed d -> keyed (mkBackupDir (<[b_id e := e]> m) ds).
Proof.
  intros <- Hk id x. cbn [manifests]. destruct (decide (b_id e = id)) as [<-|Hne].
  - rewrite lookup_insert_eq. by intros [= <-].
  - rewrite lookup_insert_ne by done. apply Hk.
Qed.

(** The manifest of a new backup, with or without the result of its test. *)
Lemma store_backup_spec c e i d :
  keyed d ->
  exists e', b_id e' = b_id e /\ b_created_at e' = b_created_at e /\ store_backup c e i d = mkBackupDir (<[b_id e := e']> (manifests d)) (dumps d).
Proof.
  intros Hk. unfold store_backup. destruct (restore_test_enabled c); [|by exists e].
  unfold verify_backup. assert (E : backup_entry (b_id e) (write_manifest e d) = Ok e).
  { apply backup_entry_spec; [by apply (keyed_insert e _ _ d)|]. cbn. apply lookup_insert_eq. }
  rewrite E. cbn [snd]. unfold save_verification_result. set (e' := mkBackupEntry _ _ _ _ _ _ _ _ _). exists e'. split; [done|]. split; [done|].
  unfold write_manifest. cbn [manifests dumps e' b_id]. by rewrite insert_insert_eq.
Qed.

Definition stored_dir (c : BackupConfig) (app : ShortId) (name engine sha : string) (size : Z) (i : BackupInput) (d : BackupDir) : BackupDir :=
  store_backup c (mkBackupEntry (bi_id i) app name engine size sha (bi_now i) None None) i (write_dump (bi_id i) sha d).

Lemma stored_dir_spec c app name engine sha size i d :
  keyed d -> manifests d !! bi_id i = None ->
  let d1 := stored_dir c app name engine sha size i d in
  keyed d1 /\ (whole d -> whole d1)
  /\ dumps d1 = <[bi_id i := sha]> (dumps d)
  /\ (forall id, id <> bi_id i -> manifests d1 !! id = manifests d !! id)
  /\ (exists e', b_id e' = bi_id i /\ b_created_at e' = bi_now i /\ manifests d1 !! bi_id i = Some e' /\ forall x, x ∈ list_backups d1 <-> x = e' \/ x ∈ list_backups d)
  /\ length (list_backups d1) = S (length (list_backups d)).
Proof.
  intros Hk Hf d1.
  assert (Hk0 : keyed (write_dump (bi_id i) sha d)) by exact Hk.
  destruct (store_backup_spec c (mkBackupEntry (bi_id i) app name engine size sha (bi_now i) None None) i _ Hk0) as (e' & Hid & Hc & E).
  change (d1 = mkBackupDir (<[bi_id i := e']> (manifests d)) (<[bi_id i := sha]> (dumps d))) in E. cbn in Hid, Hc.
  assert (Hk1 : keyed d1) by (rewrite E, <-Hid; by apply (keyed_insert e' _ _ d)).
  rewrite E in Hk1 |- *. split; [done|]. split; [|split; [done|split; [|split]]].
  - intros Hw id. cbn. destruct (decide (bi_id i = id)) as [<-|Hne]; [rewrite !lookup_insert_eq; split; by eexists|]. rewrite !lookup_insert_ne by done. apply Hw.
  - intros id Hne. cbn. by rewrite lookup_insert_ne.
  - exists e'. split_and!; [done|done|cbn; apply lookup_insert_eq|]. intros x. rewrite !list_backups_elem by done. cbn.
    destruct (decide (bi_id i = b_id x)) as [Hx|Hne].
    + rewrite <-Hx, lookup_insert_eq, Hf. split; [intros [= ->]; by left|by intros [->|]].
    + rewrite lookup_insert_ne by done. split; [by right|]. intros [->|H]; [by rewrite Hid in Hne|done].
  - unfold list_backups. rewrite !sort_by_length, !length_map, !length_map_to_list. cbn. by rewrite map_size_insert_None.
Qed.

Lemma run_backup_unfold c app name i d engine size sha :
  bi_capture i = Ok (engine, size, sha) ->
  run_backup c app name i d =
    match apply_retention (bc_keep c) (stored_dir c app name engine sha size i d) with
    | (Ok _, d) => (Ok (mkBackupEntry (bi_id i) app name engine size sha (bi_now i) None None), d)
    | (Err err, d) => (Err err, remove_dump (bi_id i) d)
    end.
Proof. intros H. unfold run_backup. by rewrite H. Qed.

(** *** Retention *)

Lemma take_drop_ids k l e : NoDup (map b_id l) -> e ∈ l -> e ∈ take k l <-> b_id e ∉ map b_id (drop k l).
Proof.
  intros Hn He. rewrite <-(take_drop k l), map_app in Hn. apply NoDup_app in Hn as (_ & Hd & _). split.
  - intros Ht. apply Hd. by apply (list_elem_of_fmap_2 b_id).
  - intros Hnd. rewrite <-(take_drop k l) in He. apply elem_of_app in He as [He|He]; [done|]. exfalso. apply Hnd. by apply (list_elem_of_fmap_2 b_id).
Qed.

Lemma retention_spec keep d :
  keyed d -> whole d ->
  exists d', apply_retention keep d = (Ok tt, d') /\ keyed d' /\ whole d' /\ (forall e, e ∈ list_backups d' <-> e ∈ take (Z.to_nat (Z.max keep 1)) (list_backups d))
  /\ (forall id, is_Some (manifests d' !! id) -> dumps d' !! id = dumps d !! id).
Proof.
  intros Hk Hw. set (k := Z.to_nat (Z.max keep 1)). pose proof (list_backups_ids d Hk) as Hn.
  destruct (delete_each_whole (drop k (list_backups d)) d Hk Hw) as (d' & E & H').
  - rewrite <-(take_drop k (list_backups d)), map_app in Hn. by apply NoDup_app in Hn as (_ & _ & Hn).
  - intros e He. apply list_backups_elem; [done|]. rewrite <-(take_drop k (list_backups d)), elem_of_app. by right.
  - assert (Hk' : keyed d') by (by apply (without_keyed _ _ _ H')). exists d'. split_and!; [done|done|by apply (without_whole _ _ _ H')| |].
    2: { intros id. rewrite (proj1 (H' id)), (proj2 (H' id)). destruct (decide _); [by intros []|done]. }
    intros e. rewrite (list_backups_elem d' e Hk'), (proj1 (H' _)). split.
    + destruct (decide _) as [|Hnd]; [done|]. intros H. apply take_drop_ids; [done|by apply list_backups_elem|done].
    + intros Ht. assert (He : e ∈ list_backups d) by (rewrite <-(take_drop k (list_backups d)), elem_of_app; by left).
      rewrite decide_False by (by apply take_drop_ids). by apply list_backups_elem.
Qed.

Lemma sorted_take_drop {A} (R : A -> A -> Prop) k l x y : StronglySorted R l -> x ∈ take k l -> y ∈ drop k l -> R x y.
Proof.
  intros Hs. revert k. induction Hs as [|z l Hs IH Hz]; intros k Hx Hy; [by rewrite take_nil in Hx; apply elem_of_nil in Hx|].
  destruct k as [|k]; [by apply elem_of_nil in Hx|]. cbn in Hx, Hy. apply elem_of_cons in Hx as [->|Hx]; [|by apply (IH k)].
  rewrite Forall_forall in Hz. apply Hz. rewrite <-(take_drop k l), elem_of_app. by right.
Qed.

Lemma ids_nodup_list l : NoDup (map b_id l) -> NoDup l.
Proof. apply (NoDup_fmap_1 b_id). Qed.

(** A backup of a directory in which every manifest has its dump succeeds when the dump was
    taken; its manifest and its dump are there; the directory holds the number of backups of the
    settings, or all of them when there are fewer; and what was deleted is not newer than what
    stays. *)
Theorem retention_keeps_newest (c : BackupConfig) (app : ShortId) (name : string) (i : BackupInput) (d : BackupDir) (engine sha : string) (size : Z) :
  keyed d -> whole d -> manifests d !! bi_id i = None -> bi_capture i = Ok (engine, size, sha) ->
  (forall x, x ∈ list_backups d -> b_created_at x < bi_now i) ->
  exists e d', run_backup c app name i d = (Ok e, d') /\ keyed d' /\ whole d'
  /\ b_id e = bi_id i /\ is_Some (manifests d' !! bi_id i) /\ dumps d' !! bi_id i = Some sha
  /\ length (list_backups d') = Nat.min (Z.to_nat (Z.max (bc_keep c) 1)) (S (length (list_backups d)))
  /\ (forall x y, x ∈ list_backups d -> manifests d' !! b_id x = None -> y ∈ list_backups d' -> b_created_at x <= b_created_at y).
Proof.
  intros Hk Hw Hf Hc Ht. rewrite (run_backup_unfold c app name i d engine size sha Hc).
  destruct (stored_dir_spec c app name engine sha size i d Hk Hf) as (Hk1 & Hw1 & Hd1 & Hm1 & (e' & Hid & Hct & He1 & Hl1) & Hlen1).
  set (d1 := stored_dir c app name engine sha size i d) in *. specialize (Hw1 Hw).
  set (k := Z.to_nat (Z.max (bc_keep c) 1)). destruct (retention_spec (bc_keep c) d1 Hk1 Hw1) as (d' & E & Hk' & Hw' & Hl' & Hs'). fold k in Hl'. rewrite E.
  pose proof (list_backups_ids d1 Hk1) as Hn1.
  assert (Hin : e' ∈ take k (list_backups d1)).
  { assert (He : e' ∈ list_backups d1) by (apply Hl1; by left). rewrite <-(take_drop k (list_backups d1)) in He. apply elem_of_app in He as [He|He]; [done|].
    destruct (list_backups d1) as [|x l] eqn:El; [by rewrite drop_nil in He; apply elem_of_nil in He|].
    assert (Hx : x ∈ take k (x :: l)) by (unfold k; destruct (Z.to_nat _) eqn:?; [lia|by left]).
    pose proof (sorted_take_drop _ k _ x e' (eq_ind _ _ (list_backups_sorted d1) _ El) Hx He) as Hs. cbn in Hs. rewrite Hct in Hs.
    assert (Hx1 : x ∈ x :: l) by (by left). apply Hl1 in Hx1 as [->|Hx1]; [done|]. specialize (Ht x Hx1). lia. }
  assert (He' : manifests d' !! bi_id i = Some e') by (rewrite <-Hid; by apply list_backups_elem, Hl').
  exists (mkBackupEntry (bi_id i) app name engine size sha (bi_now i) None None), d'.
  split_and!; [done|done|done|done|by eexists| | |].
  - rewrite (Hs' (bi_id i)) by (by eexists). rewrite Hd1. apply lookup_insert_eq.
  - rewrite <-Hlen1. rewrite <-length_take. apply Permutation_length, NoDup_Permutation; [by apply ids_nodup_list, list_backups_ids| |done].
    apply ids_nodup_list. rewrite <-(take_drop k (list_backups d1)), map_app in Hn1. by apply NoDup_app in Hn1 as (Hn1 & _ & _).
  - intros x y Hx Hnone Hy. assert (Hx1 : x ∈ list_backups d1) by (apply Hl1; by right).
    assert (Hdrop : x ∈ drop k (list_backups d1)).
    { rewrite <-(take_drop k (list_backups d1)) in Hx1. apply elem_of_app in Hx1 as [Hx1|]; [|done]. apply Hl', list_backups_elem in Hx1; [|done]. by rewrite Hx1 in Hnone. }
    apply Hl' in Hy. by apply (sorted_take_drop _ k _ y x (list_backups_sorted d1)).
Qed.

(** *** A manifest without its dump *)

(** What a run of deletions leaves alone. *)
Definition frame (ids : list string) (d d' : BackupDir) : Prop :=
  (forall id, id ∉ ids -> manifests d' !! id = manifests d !! id)
  /\ (forall id, manifests d !! id = None -> manifests d' !! id = None)
  /\ (forall id, dumps d !! id = None -> dumps d' !! id = None /\ manifests d' !! id = manifests d !! id).

Lemma frame_refl ids d : frame ids d d.
Proof. by split_and!. Qed.

Lemma delete_backup_frame id d : keyed d -> keyed (delete_backup id d).2 /\ frame [id] d (delete_backup id d).2.
Proof.
  intros Hk. unfold delete_backup. destruct (backup_entry id d) as [e|err] eqn:E; [|split; [done|apply frame_refl]].
  apply backup_entry_spec in E; [|done]. pose proof (Hk id e E) as Hid. rewrite Hid. destruct (dumps d !! id) as [s|] eqn:Ed; [|split; [done|apply frame_refl]].
  cbn [remove_dump manifests dumps]. rewrite E. cbn [snd]. split; [|split_and!; cbn [manifests dumps]].
  - intros x y. cbn. destruct (decide (id = x)) as [<-|Hne]; [by rewrite lookup_delete_eq|]. rewrite lookup_delete_ne by done. apply Hk.
  - intros x Hx. apply lookup_delete_ne. intros ->. apply Hx. by left.
  - intros x Hx. destruct (decide (id = x)) as [<-|Hne]; [apply lookup_delete_eq|]. by rewrite lookup_delete_ne.
  - intros x Hx. destruct (decide (id = x)) as [<-|Hne]; [by rewrite Ed in Hx|]. by rewrite !lookup_delete_ne.
Qed.

Lemma delete_each_frame l d : keyed d -> keyed (delete_each l d).2 /\ frame (map b_id l) d (delete_each l d).2.
Proof.
  revert d. induction l as [|e l IH]; intros d Hk; [split; [done|apply frame_refl]|]. cbn [delete_each map].
  destruct (delete_backup_frame (b_id e) d Hk) as [Hk1 (F1 & F2 & F3)]. destruct (delete_backup (b_id e) d) as [[[]|err] d1]; cbn [snd] in *.
  - destruct (IH d1 Hk1) as [Hk2 (G1 & G2 & G3)]. split; [done|]. split_and!.
    + intros id [H1 H2]%not_elem_of_cons. rewrite G1 by done. apply F1. by intros ?%list_elem_of_singleton.
    + intros id H. by apply G2, F2.
    + intros id H. destruct (F3 id H) as [H1 H2]. destruct (G3 id H1) as [H3 H4]. split; [done|]. by rewrite H4.
  - split; [done|]. split_and!; [|done|done]. intros id [H1 H2]%not_elem_of_cons. apply F1. by intros ?%list_elem_of_singleton.
Qed.

Lemma delete_each_fails l d p : keyed d -> dumps d !! p = None -> p ∈ map b_id l -> exists err, (delete_each l d).1 = Err err.
Proof.
  revert d. induction l as [|e l IH]; intros d Hk Hp; [by intros ?%elem_of_nil|]. cbn [delete_each map].
  destruct (delete_backup_frame (b_id e) d Hk) as [Hk1 (_ & _ & F3)]. destruct (delete_backup (b_id e) d) as [[[]|err] d1] eqn:Ed; cbn [snd fst] in *; [|by exists err].
  intros [->|Hin]%elem_of_cons; [|by apply IH; [|apply F3|]].
  exfalso. unfold delete_backup in Ed. destruct (backup_entry (b_id e) d) as [x|] eqn:Ee; [|done]. apply backup_entry_spec in Ee; [|done].
  rewrite (Hk _ _ Ee), Hp in Ed. done.
Qed.

(** The backups that are newer than the time [t]. *)
Definition newer (t : Z) (d : BackupDir) : list BackupEntry := List.filter (fun x => t <? b_created_at x) (list_backups d).

Lemma sorted_take_newer (t : Z) (k : nat) l :
  StronglySorted (fun a b => b_created_at b <= b_created_at a) l -> (k <= length (List.filter (fun x => (t <? b_created_at x)%Z) l))%nat ->
  Forall (fun x => t < b_created_at x) (take k l).
Proof.
  intros Hs. revert k. induction Hs as [|x l Hs IH Hx]; intros k; [by rewrite take_nil; constructor|]. cbn. destruct (Z.ltb_spec t (b_created_at x)) as [Hlt|Hge].
  - destruct k as [|k]; cbn; [constructor|]. intros Hk. constructor; [done|]. apply IH. lia.
  - assert (E : List.filter (fun x => t <? b_created_at x) l = []).
    { clear IH Hs. induction Hx as [|y l Hy Hl IHl]; [done|]. cbn. destruct (Z.ltb_spec t (b_created_at y)); [lia|done]. }
    rewrite E. cbn. intros Hk. assert (k = 0%nat) as -> by lia. constructor.
Qed.

(** A backup without its dump, older than as many backups as are kept. *)
Definition phantom (keep : Z) (p : string) (e : BackupEntry) (d : BackupDir) : Prop :=
  keyed d /\ manifests d !! p = Some e /\ dumps d !! p = None /\ (Z.to_nat (Z.max keep 1) <= length (newer (b_created_at e) d))%nat.

Lemma count_newer (t : Z) l d : NoDup l -> keyed d -> (forall x, x ∈ l -> manifests d !! b_id x = Some x /\ t < b_created_at x) -> (length l <= length (newer t d))%nat.
Proof.
  intros Hn Hk Hl. apply submseteq_length, NoDup_submseteq; [done|]. intros x Hx. destruct (Hl x Hx) as [Hm Ht].
  unfold newer. apply list_elem_of_In, filter_In. split; [by apply list_elem_of_In, list_backups_elem|by apply Z.ltb_lt].
Qed.

Lemma newer_stored (t : Z) d d1 e' : keyed d -> keyed d1 -> (forall x, x ∈ list_backups d1 <-> x = e' \/ x ∈ list_backups d) -> (length (newer t d) <= length (newer t d1))%nat.
Proof.
  intros Hk Hk1 Hl. apply count_newer; [|done|].
  - unfold newer. pose proof (ids_nodup_list _ (list_backups_ids d Hk)) as Hn. revert Hn. generalize (list_backups d). intros l. induction l as [|x l IH]; [done|].
    intros [Hx Hn]%NoDup_cons. cbn. destruct (_ <? _); [|by apply IH]. apply NoDup_cons. split; [|by apply IH]. intros H. apply Hx.
    apply list_elem_of_In, filter_In in H as [H _]. by apply list_elem_of_In.
  - intros x Hx. unfold newer in Hx. apply list_elem_of_In, filter_In in Hx as [Hx Ht]. split; [|by apply Z.ltb_lt].
    apply list_backups_elem; [done|]. apply Hl. right. by apply list_elem_of_In.
Qed.

Lemma phantom_step c app name i d p e engine sha size :
  phantom (bc_keep c) p e d -> manifests d !! bi_id i = None -> bi_capture i = Ok (engine, size, sha) ->
  exists err d', run_backup c app name i d = (Err err, d') /\ phantom (bc_keep c) p e d' /\ dumps d' !! bi_id i = None
  /\ (forall id, id <> bi_id i -> manifests d !! id = None -> manifests d' !! id = None)
  /\ (forall id, id <> bi_id i -> dumps d !! id = None -> dumps d' !! id = None).
Proof.
  intros (Hk & Hp & Hnd & Hlen) Hf Hc. rewrite (run_backup_unfold c app name i d engine size sha Hc).
  destruct (stored_dir_spec c app name engine sha size i d Hk Hf) as (Hk1 & _ & Hd1 & Hm1 & (e' & _ & _ & _ & Hl1) & _).
  set (d1 := stored_dir c app name engine sha size i d) in *. set (k := Z.to_nat (Z.max (bc_keep c) 1)) in *.
  assert (Hpi : p <> bi_id i) by (intros ->; by rewrite Hf in Hp).
  assert (Hp1 : dumps d1 !! p = None) by (rewrite Hd1, lookup_insert_ne by done; done).
  assert (Hpm : manifests d1 !! p = Some e) by (by rewrite Hm1).
  pose proof (newer_stored (b_created_at e) d d1 e' Hk Hk1 Hl1) as Hlen1.
  pose proof (sorted_take_newer (b_created_at e) k (list_backups d1) (list_backups_sorted d1) (Nat.le_trans _ _ _ Hlen Hlen1)) as Htake. rewrite Forall_forall in Htake.
  pose proof (list_backups_ids d1 Hk1) as Hn1.
  assert (He1 : e ∈ list_backups d1) by (apply list_backups_elem; [done|]; by rewrite (Hk p e Hp)).
  assert (Hdrop : p ∈ map b_id (drop k (list_backups d1))).
  { rewrite <-(Hk p e Hp). destruct (decide (b_id e ∈ map b_id (drop k (list_backups d1)))) as [|Hno]; [done|]. apply (take_drop_ids k _ e Hn1 He1) in Hno. specialize (Htake e Hno). lia. }
  destruct (delete_each_fails (drop k (list_backups d1)) d1 p Hk1 Hp1 Hdrop) as [err Herr].
  destruct (delete_each_frame (drop k (list_backups d1)) d1 Hk1) as [Hk2 (F1 & F2 & F3)].
  unfold apply_retention. fold k. destruct (delete_each (drop k (list_backups d1)) d1) as [r d2]. cbn [fst snd] in *. subst r.
  exists err, (remove_dump (bi_id i) d2). split; [done|]. split; [|split_and!].
  - split_and!; [exact Hk2|by rewrite <-Hpm; apply F3|cbn; rewrite lookup_delete_ne by done; by apply F3|]. fold k.
    assert (Ht : length (take k (list_backups d1)) = k).
    { rewrite length_take. apply Nat.min_l. etrans; [exact Hlen|]. etrans; [exact Hlen1|]. apply List.filter_length_le. }
    rewrite <-Ht at 1. apply count_newer; [|exact Hk2|].
    + apply ids_nodup_list. rewrite <-(take_drop k (list_backups d1)), map_app in Hn1. by apply NoDup_app in Hn1 as (Hn1 & _ & _).
    + intros x Hx. split; [|by apply Htake]. assert (Hx1 : x ∈ list_backups d1) by (rewrite <-(take_drop k (list_backups d1)), elem_of_app; by left).
      cbn [remove_dump manifests]. rewrite F1; [by apply list_backups_elem|by apply take_drop_ids].
  - cbn. apply lookup_delete_eq.
  - intros id Hne H. cbn. apply F2. by rewrite Hm1.
  - intros id Hne H. cbn. rewrite lookup_delete_ne by done. apply F3. by rewrite Hd1, lookup_insert_ne.
Qed.

(** One backup after the other. *)
Fixpoint run_backups (c : BackupConfig) (app : ShortId) (name : string) (l : list BackupInput) (d : BackupDir) : list (result BackupEntry BackupError) * BackupDir :=
  match l with
  | [] => ([], d)
  | i :: l =>
      let '(r, d) := run_backup c app name i d in
      let '(rs, d) := run_backups c app name l d in
      (r :: rs, d)
  end.

(** A directory that holds a manifest without its dump, older than as many backups as are
    kept, loses every backup that follows: each one fails in the retention, although its dump was
    taken, and no dump of them is left. *)
Theorem phantom_loses_later_backups (c : BackupConfig) (app : ShortId) (name : string) (l : list BackupInput) (d : BackupDir) (p : string) (e : BackupEntry) :
  phantom (bc_keep c) p e d ->
  NoDup (map bi_id l) ->
  (forall i, i ∈ l -> manifests d !! bi_id i = None /\ exists engine size sha, bi_capture i = Ok (engine, size, sha)) ->
  Forall (fun r => is_ok r = false) (run_backups c app name l d).1
  /\ forall i, i ∈ l -> dumps (run_backups c app name l d).2 !! bi_id i = None.
Proof.
  assert (Hkeep : forall l d id, phantom (bc_keep c) p e d -> NoDup (map bi_id l) ->
    (forall i, i ∈ l -> manifests d !! bi_id i = None /\ exists engine size sha, bi_capture i = Ok (engine, size, sha)) ->
    id ∉ map bi_id l -> dumps d !! id = None -> dumps (run_backups c app name l d).2 !! id = None).
  { clear l d. induction l as [|i l IH]; intros d id Hp Hn Hl Hid Hd; [done|]. cbn [run_backups]. cbn [map] in Hn, Hid.
    apply NoDup_cons in Hn as [Hi Hn]. apply not_elem_of_cons in Hid as [Hne Hid]. destruct (Hl i) as [Hf (engine & size & sha & Hc)]; [by left|].
    destruct (phantom_step c app name i d p e engine sha size Hp Hf Hc) as (err & d' & E & Hp' & _ & Hm & Hdd). rewrite E.
    specialize (IH d' id Hp' Hn). destruct (run_backups c app name l d') as [rs d2] eqn:Er. cbn [snd] in *. apply IH; [|done|by apply Hdd].
    intros j Hj. destruct (Hl j) as [Hfj Hcj]; [by right|]. split; [|done]. apply Hm; [|done]. intros Ej. apply Hi. rewrite <-Ej. by apply (list_elem_of_fmap_2 bi_id). }
  revert d. induction l as [|i l IH]; intros d Hp Hn Hl; [split; [constructor|by intros i ?%elem_of_nil]|]. cbn [run_backups]. cbn [map] in Hn.
  apply NoDup_cons in Hn as [Hi Hn]. destruct (Hl i) as [Hf (engine & size & sha & Hc)]; [by left|].
  destruct (phantom_step c app name i d p e engine sha size Hp Hf Hc) as (err & d' & E & Hp' & Hdi & Hm & _). rewrite E.
  assert (Hl' : forall j, j ∈ l -> manifests d' !! bi_id j = None /\ exists engine size sha, bi_capture j = Ok (engine, size, sha)).
  { intros j Hj. destruct (Hl j) as [Hfj Hcj]; [by right|]. split; [|done]. apply Hm; [|done]. intros Ej. apply Hi. rewrite <-Ej. by apply (list_elem_of_fmap_2 bi_id). }
  specialize (IH d' Hp' Hn Hl'). specialize (Hkeep l d' (bi_id i) Hp' Hn Hl' Hi Hdi). destruct (run_backups c app name l d') as [rs d2]. cbn [fst snd] in *.
  destruct IH as [IH1 IH2]. split; [by constructor|]. intros j [->|Hj]%elem_of_cons; [done|by apply IH2].
Qed.

(** ** Backups, deletions and verifications next to each other

    A backup holds the lock of its app, so there is one at a time; a deletion and a verification take
    no lock, so their turns come between those of the others. *)

(** A running backup: its dump is written; its manifest is written, and the uploads run; its test has
    read the manifest; the test is over; its retention has the entries that are left to delete, and the
    deletion that is under way. *)
Inductive BackupJob : Type :=
| Dumped (e : BackupEntry)
| Stored (e : BackupEntry)
| Testing (e found : BackupEntry)
| Tested (e : BackupEntry)
| Retaining (e : BackupEntry) (current : option Deletion) (rest : list BackupEntry).

Record BackupWorld : Type := mkBackupWorld {
  bw_dir : BackupDir;
  bw_verifying : list BackupEntry;
  bw_deleting : list Deletion;
  bw_job : option BackupJob;
}.

Definition set_dir (d : BackupDir) (w : BackupWorld) : BackupWorld := mkBackupWorld d (bw_verifying w) (bw_deleting w) (bw_job w).
Definition set_job (j : option BackupJob) (w : BackupWorld) : BackupWorld := mkBackupWorld (bw_dir w) (bw_verifying w) (bw_deleting w) j.

Definition current_of (j : option BackupJob) : list Deletion := match j with Some (Retaining _ (Some s) _) => [s] | _ => [] end.

(** The deletions that are under way, and the backups that a running retention is to delete. *)
Definition held (w : BackupWorld) : list Deletion := bw_deleting w ++ current_of (bw_job w).
Definition pending (j : option BackupJob) : list string :=
  match j with Some (Retaining _ _ rest) => map del_id (current_of j) ++ map b_id rest | _ => [] end.

(** The identifier of a new backup is one that no file and no deletion has. *)
Definition fresh_id (id : string) (w : BackupWorld) : Prop :=
  manifests (bw_dir w) !! id = None /\ dumps (bw_dir w) !! id = None /\ id ∉ map del_id (held w).

Definition tested (c : BackupConfig) (e : BackupEntry) (j : option BackupJob) : Prop :=
  j = Some (Tested e) \/ (j = Some (Stored e) /\ restore_test_enabled c = false).

(** With [calm] a verification ends while its backup is still there, and no request deletes a backup
    that a running retention deletes too. *)
Inductive backup_step (calm : bool) : BackupWorld -> BackupWorld -> Prop :=
| step_capture_failed id w :
    bw_job w = None -> fresh_id id w -> backup_step calm w (set_dir (remove_dump id (bw_dir w)) w)
| step_dumped app name engine size sha i w :
    bw_job w = None -> fresh_id (bi_id i) w -> bi_capture i = Ok (engine, size, sha) ->
    backup_step calm w (set_job (Some (Dumped (mkBackupEntry (bi_id i) app name engine size sha (bi_now i) None None)))
                          (set_dir (write_dump (bi_id i) sha (bw_dir w)) w))
| step_stored e w :
    bw_job w = Some (Dumped e) -> backup_step calm w (set_job (Some (Stored e)) (set_dir (write_manifest e (bw_dir w)) w))
| step_test e w :
    bw_job w = Some (Stored e) ->
    backup_step calm w (set_job (Some (match backup_entry (b_id e) (bw_dir w) with Ok found => Testing e found | Err _ => Tested e end)) w)
| step_tested e found drill now w :
    bw_job w = Some (Testing e found) -> (calm = true -> is_Some (manifests (bw_dir w) !! b_id found)) ->
    backup_step calm w (set_job (Some (Tested e)) (set_dir (save_verification_result found (verify_checks found drill (bw_dir w)) now (bw_dir w)) w))
| step_listed c e w :
    tested c e (bw_job w) ->
    let l := drop (Z.to_nat (Z.max (bc_keep c) 1)) (list_backups (bw_dir w)) in
    (calm = true -> forall x, x ∈ l -> b_id x ∉ map del_id (bw_deleting w)) ->
    backup_step calm w (set_job (Some (Retaining e None l)) w)
| step_next e x l w :
    bw_job w = Some (Retaining e None (x :: l)) ->
    backup_step calm w
      (match backup_entry (b_id x) (bw_dir w) with
       | Ok found => set_job (Some (Retaining e (Some (Found (b_id found))) l)) w
       | Err _ => set_job None (set_dir (remove_dump (b_id e) (bw_dir w)) w)
       end)
| step_turn e s l w :
    bw_job w = Some (Retaining e (Some s) l) ->
    backup_step calm w
      (let '(r, d) := deletion_turn s (bw_dir w) in
       match r with
       | inl s => set_job (Some (Retaining e (Some s) l)) (set_dir d w)
       | inr (Ok _) => set_job (Some (Retaining e None l)) (set_dir d w)
       | inr (Err _) => set_job None (set_dir (remove_dump (b_id e) d) w)
       end)
| step_done e w : bw_job w = Some (Retaining e None []) -> backup_step calm w (set_job None w)
| step_delete id e w :
    backup_entry id (bw_dir w) = Ok e -> (calm = true -> id ∉ pending (bw_job w)) ->
    backup_step calm w (mkBackupWorld (bw_dir w) (bw_verifying w) (Found (b_id e) :: bw_deleting w) (bw_job w))
| step_delete_turn l1 s l2 w :
    bw_deleting w = l1 ++ s :: l2 ->
    backup_step calm w
      (let '(r, d) := deletion_turn s (bw_dir w) in
       mkBackupWorld d (bw_verifying w) (match r with inl s => s :: l1 ++ l2 | inr _ => l1 ++ l2 end) (bw_job w))
| step_verify id e w :
    backup_entry id (bw_dir w) = Ok e -> backup_step calm w (mkBackupWorld (bw_dir w) (bw_verifying w ++ [e]) (bw_deleting w) (bw_job w))
| step_verified l1 e l2 drill now w :
    bw_verifying w = l1 ++ e :: l2 -> (calm = true -> is_Some (manifests (bw_dir w) !! b_id e)) ->
    backup_step calm w (mkBackupWorld (save_verification_result e (verify_checks e drill (bw_dir w)) now (bw_dir w)) (l1 ++ l2) (bw_deleting w) (bw_job w)).

Definition quiet (d : BackupDir) : BackupWorld := mkBackupWorld d [] [] None.

(** *** With nothing in between the steps are the functions *)

Lemma deletion_alone id d :
  keyed d ->
  delete_backup id d =
    match backup_entry id d with
    | Err e => (Err e, d)
    | Ok e => match deletion_turn (Found (b_id e)) d with
              | (inl s, d) => match deletion_turn s d with (inr r, d) => (r, d) | (inl _, d) => (Ok tt, d) end
              | (inr r, d) => (r, d)
              end
    end.
Proof.
  intros Hk. unfold delete_backup, deletion_turn. destruct (backup_entry id d) as [e|]; [|done]. destruct (dumps d !! b_id e); [|done].
  cbn. by destruct (manifests d !! b_id e).
Qed.

Definition retained_world (e : BackupEntry) (x : result unit BackupError * BackupDir) : BackupWorld :=
  quiet (match x.1 with Ok _ => x.2 | Err _ => remove_dump (b_id e) x.2 end).

Lemma retention_alone e l d :
  keyed d -> rtc (backup_step false) (mkBackupWorld d [] [] (Some (Retaining e None l))) (retained_world e (delete_each l d)).
Proof.
  revert d. induction l as [|x l IH]; intros d Hk.
  { apply rtc_once. exact (step_done false e (mkBackupWorld d [] [] (Some (Retaining e None []))) eq_refl). }
  cbn [delete_each]. pose proof (proj1 (delete_backup_frame (b_id x) d Hk)) as Hk1. rewrite (deletion_alone _ _ Hk) in Hk1 |- *.
  pose proof (step_next false e x l (mkBackupWorld d [] [] (Some (Retaining e None (x :: l)))) eq_refl) as Hs. cbn [bw_dir] in Hs.
  destruct (backup_entry (b_id x) d) as [y|err]; [|by apply rtc_once]. etrans; [apply rtc_once, Hs|]. cbn [set_job bw_dir bw_verifying bw_deleting].
  pose proof (fun s d => step_turn false e s l (mkBackupWorld d [] [] (Some (Retaining e (Some s) l))) eq_refl) as Ht. cbn [bw_dir] in Ht.
  pose proof (Ht (Found (b_id y)) d) as H1. destruct (deletion_turn (Found (b_id y)) d) as [[s|[[]|err]] d1] eqn:E1; [|exfalso|by apply rtc_once].
  2: { unfold deletion_turn in E1. by destruct (dumps d !! b_id y). }
  etrans; [apply rtc_once, H1|]. pose proof (Ht s d1) as H2.
  destruct (deletion_turn s d1) as [[s2|[[]|err]] d2] eqn:E2; [exfalso| |by apply rtc_once].
  - unfold deletion_turn in E1. destruct (dumps d !! b_id y); [|done]. injection E1 as <- <-. unfold deletion_turn in E2. by destruct (_ !! _) in E2.
  - etrans; [apply rtc_once, H2|]. exact (IH d2 Hk1).
Qed.

(** A backup that runs alone does what [run_backup] says. *)
Theorem run_backup_is_its_steps c app name i d :
  keyed d -> manifests d !! bi_id i = None -> dumps d !! bi_id i = None ->
  rtc (backup_step false) (quiet d) (quiet (run_backup c app name i d).2).
Proof.
  intros Hk Hm Hd. assert (Hf : fresh_id (bi_id i) (quiet d)) by (split_and!; [done|done|by intros ?%elem_of_nil]).
  destruct (bi_capture i) as [[[engine size] sha]|err] eqn:Hc.
  2: { unfold run_backup. rewrite Hc. apply rtc_once. exact (step_capture_failed false (bi_id i) (quiet d) eq_refl Hf). }
  rewrite (run_backup_unfold c app name i d engine size sha Hc). unfold stored_dir.
  etrans; [apply rtc_once, (step_dumped false app name engine size sha i (quiet d) eq_refl Hf Hc)|].
  set (e := mkBackupEntry _ _ _ _ _ _ _ _ _). set (d0 := write_dump (bi_id i) sha d).
  etrans; [apply rtc_once, (step_stored false e (mkBackupWorld d0 [] [] (Some (Dumped e))) eq_refl)|].
  unfold store_backup. set (d1 := write_manifest e d0). assert (Hk1 : keyed d1) by (exact (keyed_insert e _ (dumps d0) d eq_refl Hk)).
  assert (Hend : forall d2, keyed d2 -> forall j, tested c e (Some j) ->
    rtc (backup_step false) (mkBackupWorld d2 [] [] (Some j))
      (retained_world e (apply_retention (bc_keep c) d2))).
  { intros d2 Hk2 j Hj. etrans; [apply rtc_once, (step_listed false c e (mkBackupWorld d2 [] [] (Some j)) Hj); done|]. by apply retention_alone. }
  assert (Hfin : forall x, retained_world e x = quiet (match x with (Ok _, d) => (@Ok BackupEntry BackupError e, d) | (Err err, d) => (Err err, remove_dump (bi_id i) d) end).2).
  { by intros [[[]|err] d2]. }
  destruct (restore_test_enabled c) eqn:Et; rewrite <-Hfin; [|apply (Hend d1 Hk1 (Stored e)); by right].
  assert (Ee : backup_entry (b_id e) d1 = Ok e) by (apply backup_entry_spec; [done|]; cbn; apply lookup_insert_eq).
  etrans; [apply rtc_once, (step_test false e (mkBackupWorld d1 [] [] (Some (Stored e))) eq_refl)|]. cbn [bw_dir]. rewrite Ee.
  etrans; [apply rtc_once, (step_tested false e e (bi_drill i) (bi_now i) (mkBackupWorld d1 [] [] (Some (Testing e e))) eq_refl); done|].
  unfold verify_backup. rewrite Ee. cbn [snd]. apply Hend; [|by left].
  unfold save_verification_result. set (e' := mkBackupEntry _ _ _ _ _ _ _ _ _). exact (keyed_insert e' _ (dumps d1) d1 eq_refl Hk1).
Qed.

(** *** What holds between the turns *)

(** [held] are the deletions under way and [new] is the backup that has its dump and no manifest yet. *)
Record dir_ok (d : BackupDir) (held : list Deletion) (new : option string) : Prop := {
  do_keyed : keyed d;
  do_manifest id : is_Some (manifests d !! id) -> is_Some (dumps d !! id) \/ DumpGone id ∈ held;
  do_dump id : is_Some (dumps d !! id) -> is_Some (manifests d !! id) \/ new = Some id;
  do_gone id : DumpGone id ∈ held -> dumps d !! id = None;
  do_new id : new = Some id -> manifests d !! id = None /\ is_Some (dumps d !! id) /\ id ∉ map del_id held;
}.

Lemma dir_ok_ext d h h' new : (forall s, s ∈ h <-> s ∈ h') -> dir_ok d h new -> dir_ok d h' new.
Proof.
  intros He [H1 H2 H3 H4 H5]. split; [done| |done| |].
  - intros id. rewrite <-He. apply H2.
  - intros id. rewrite <-He. apply H4.
  - intros id Hn. destruct (H5 id Hn) as (A & B & C). split; [done|]. split; [done|]. intros (s & -> & Hs)%list_elem_of_fmap. apply C.
    apply He in Hs. by apply (list_elem_of_fmap_2 del_id).
Qed.

Lemma del_ids_cons id s h : id ∉ map del_id (s :: h) <-> id <> del_id s /\ id ∉ map del_id h.
Proof. cbn [map]. by rewrite not_elem_of_cons. Qed.

(** The turn of a deletion, and nothing else of the directory changes. *)
Lemma turn_keeps s d r d' id : deletion_turn s d = (r, d') -> id <> del_id s -> manifests d' !! id = manifests d !! id /\ dumps d' !! id = dumps d !! id.
Proof.
  unfold deletion_turn. destruct s as [i|i]; cbn [del_id]; (destruct (_ !! i); intros [= <- <-] Hne; [cbn|done]); by rewrite lookup_delete_ne.
Qed.

Lemma turn_keyed s d r d' : deletion_turn s d = (r, d') -> keyed d -> keyed d'.
Proof.
  unfold deletion_turn. destruct s as [i|i]; (destruct (_ !! i); intros [= <- <-] Hk; [|done]); [exact Hk|].
  intros id e. cbn. intros [_ H]%lookup_delete_Some. by apply Hk.
Qed.

Lemma dir_ok_turn s d h new r d' :
  deletion_turn s d = (r, d') -> dir_ok d (s :: h) new -> dir_ok d' (match r with inl s' => s' :: h | inr _ => h end) new.
Proof.
  intros E H. pose proof (turn_keyed _ _ _ _ E (do_keyed _ _ _ H)) as Hk. pose proof (fun id => turn_keeps s d r d' id E) as Hkeep.
  destruct H as [_ H2 H3 H4 H5].
  assert (Hnew : forall id, new = Some id -> manifests d' !! id = None /\ is_Some (dumps d' !! id) /\ id <> del_id s /\ id ∉ map del_id h).
  { intros id Hn. destruct (H5 id Hn) as (A & B & [C D]%del_ids_cons). by rewrite (proj1 (Hkeep id C)), (proj2 (Hkeep id C)). }
  assert (Hother : forall id, id <> del_id s -> is_Some (manifests d' !! id) -> is_Some (dumps d' !! id) \/ DumpGone id ∈ h).
  { intros id Hne Hm. rewrite (proj1 (Hkeep id Hne)) in Hm. rewrite (proj2 (Hkeep id Hne)). destruct (H2 id Hm) as [Hx|[<-|Hx]%elem_of_cons]; [by left|done|by right]. }
  assert (Hdump : forall id, id <> del_id s -> is_Some (dumps d' !! id) -> is_Some (manifests d' !! id) \/ new = Some id).
  { intros id Hne. rewrite (proj1 (Hkeep id Hne)), (proj2 (Hkeep id Hne)). apply H3. }
  assert (Hgone : forall id, DumpGone id ∈ h -> dumps d' !! id = None).
  { intros id Hin. specialize (H4 id ltac:(by right)). destruct (decide (id = del_id s)) as [->|Hne]; [|by rewrite (proj2 (Hkeep id Hne))].
    revert E H4. clear. unfold deletion_turn. destruct s as [i|i]; cbn [del_id]; (destruct (_ !! i) eqn:El; intros [= <- <-] H; [cbn|done]); congruence. }
  unfold deletion_turn in E. destruct s as [i|i]; cbn [del_id] in *.
  - destruct (dumps d !! i) as [x|] eqn:Ei; injection E as <- <-; [|].
    + split; [done| | | |].
      * intros id Hm. destruct (decide (id = i)) as [->|Hne]; [right; by left|]. destruct (Hother id Hne Hm); [by left|right; by right].
      * intros id Hd. destruct (decide (id = i)) as [->|Hne]; [|by apply Hdump]. cbn in Hd. rewrite lookup_delete_eq in Hd. by destruct Hd.
      * intros id [E|Hin]%elem_of_cons; [injection E as ->; cbn; apply lookup_delete_eq|by apply Hgone].
      * intros id Hn. destruct (Hnew id Hn) as (A & B & C & D). split; [done|]. split; [done|]. by apply del_ids_cons.
    + split; [done| |done|done|].
      * intros id Hm. destruct (H2 id Hm) as [Hx|[Ex|Hx]%elem_of_cons]; [by left|done|by right].
      * intros id Hn. destruct (Hnew id Hn) as (A & B & C & D). by split.
  - destruct (manifests d !! i) as [x|] eqn:Ei; injection E as <- <-; (split; [done| | |done|]).
    + intros id Hm. destruct (decide (id = i)) as [->|Hne]; [|by apply Hother]. cbn in Hm. rewrite lookup_delete_eq in Hm. by destruct Hm.
    + intros id Hd. destruct (decide (id = i)) as [->|Hne]; [|by apply Hdump]. cbn in Hd. rewrite (H4 i ltac:(by left)) in Hd. by destruct Hd.
    + intros id Hn. destruct (Hnew id Hn) as (A & B & C & D). by split.
    + intros id Hm. destruct (decide (id = i)) as [->|Hne]; [|by apply Hother]. rewrite Ei in Hm. by destruct Hm.
    + done.
    + intros id Hn. destruct (Hnew id Hn) as (A & B & C & D). by split.
Qed.

Lemma dir_ok_found id d h new : is_Some (manifests d !! id) -> dir_ok d h new -> dir_ok d (Found id :: h) new.
Proof.
  intros Hm [H1 H2 H3 H4 H5]. split; [done| |done| |].
  - intros i Hi. destruct (H2 i Hi); [by left|right; by right].
  - intros i [Ex|Hi]%elem_of_cons; [done|by apply H4].
  - intros i Hn. destruct (H5 i Hn) as (A & B & C). split; [done|]. split; [done|]. apply del_ids_cons. split; [|done].
    cbn. intros ->. rewrite A in Hm. by destruct Hm.
Qed.

Lemma dir_ok_manifest e d h new :
  is_Some (dumps d !! b_id e) \/ is_Some (manifests d !! b_id e) -> dir_ok d h new ->
  dir_ok (write_manifest e d) h (if decide (new = Some (b_id e)) then None else new).
Proof.
  intros Hs [H1 H2 H3 H4 H5]. split; [by apply (keyed_insert e _ _ d)| | |done|]; cbn [write_manifest manifests dumps].
  - intros id Hm. destruct (decide (b_id e = id)) as [<-|Hne]; [|rewrite lookup_insert_ne in Hm by done; by apply H2].
    destruct Hs as [Hs|Hs]; [by left|by apply H2].
  - intros id Hd. destruct (decide (b_id e = id)) as [<-|Hne]; [left; rewrite lookup_insert_eq; by eexists|]. rewrite lookup_insert_ne by done.
    destruct (H3 id Hd) as [Hx|Hx]; [by left|]. right. rewrite Hx, decide_False; [done|]. intros E. injection E as E. by symmetry in E.
  - intros id. destruct (decide (new = Some (b_id e))) as [|Hne]; [done|]. intros Hn. rewrite lookup_insert_ne; [by apply H5|]. intros E. by rewrite E in Hne.
Qed.

Lemma dir_ok_save e r now d h new : is_Some (manifests d !! b_id e) -> dir_ok d h new -> dir_ok (save_verification_result e r now d) h new.
Proof.
  intros Hm H. unfold save_verification_result. set (e' := mkBackupEntry _ _ _ _ _ _ _ _ _).
  pose proof (dir_ok_manifest e' d h new (or_intror Hm) H) as Hok. destruct (decide (new = Some (b_id e'))) as [E|]; [|exact Hok].
  exfalso. destruct (do_new _ _ _ H _ E) as [A _]. change (b_id e') with (b_id e) in A. rewrite A in Hm. by destruct Hm.
Qed.

Lemma dir_ok_dump id sha d h : manifests d !! id = None -> id ∉ map del_id h -> dir_ok d h None -> dir_ok (write_dump id sha d) h (Some id).
Proof.
  intros Hm Hh [H1 H2 H3 H4 _]. split; [exact H1| | | |]; cbn [write_dump manifests dumps].
  - intros i Hi. destruct (decide (id = i)) as [<-|Hne]; [left; rewrite lookup_insert_eq; by eexists|]. rewrite lookup_insert_ne by done. by apply H2.
  - intros i. destruct (decide (id = i)) as [<-|Hne]; [by right|]. rewrite lookup_insert_ne by done. intros Hd. destruct (H3 i Hd); [by left|done].
  - intros i Hi. rewrite lookup_insert_ne; [by apply H4|]. intros ->. apply Hh. by apply (list_elem_of_fmap_2 del_id _ (DumpGone i)).
  - intros i [= <-]. split; [done|]. split; [rewrite lookup_insert_eq; by eexists|done].
Qed.

Definition new_of (j : option BackupJob) : option string := match j with Some (Dumped e) => Some (b_id e) | _ => None end.

(** The backups that the retention is to delete are there, and no request deletes one of them. *)
Record world_ok (w : BackupWorld) : Prop := {
  wo_dir : dir_ok (bw_dir w) (held w) (new_of (bw_job w));
  wo_pending id : id ∈ pending (bw_job w) -> is_Some (manifests (bw_dir w) !! id) /\ id ∉ map del_id (bw_deleting w);
  wo_once : NoDup (pending (bw_job w));
}.

Lemma found_manifest id d e : keyed d -> backup_entry id d = Ok e -> b_id e = id /\ is_Some (manifests d !! id).
Proof. intros Hk H. apply backup_entry_spec in H; [|done]. split; [by apply Hk|by eexists]. Qed.

Lemma manifest_found id d : keyed d -> is_Some (manifests d !! id) -> exists e, backup_entry id d = Ok e /\ b_id e = id.
Proof. intros Hk [e H]. exists e. split; [by apply backup_entry_spec|by apply Hk]. Qed.

Lemma saved_manifests e r now d id : is_Some (manifests d !! id) -> is_Some (manifests (save_verification_result e r now d) !! id).
Proof.
  intros H. cbn. destruct (decide (b_id e = id)) as [<-|Hne]; [rewrite lookup_insert_eq; by eexists|by rewrite lookup_insert_ne].
Qed.

Lemma snoc_elem {A} (x s : A) l : x ∈ l ++ [s] <-> x ∈ s :: l.
Proof. rewrite elem_of_app, !elem_of_cons, elem_of_nil. tauto. Qed.

(** The turn of the retention: it never fails. *)
Lemma world_ok_turn e s l w r d :
  bw_job w = Some (Retaining e (Some s) l) -> deletion_turn s (bw_dir w) = (r, d) -> world_ok w ->
  world_ok (match r with
            | inl s => set_job (Some (Retaining e (Some s) l)) (set_dir d w)
            | inr (Ok _) => set_job (Some (Retaining e None l)) (set_dir d w)
            | inr (Err _) => set_job None (set_dir (remove_dump (b_id e) d) w)
            end).
Proof.
  intros Hj E [H1 H2 H3]. unfold held in H1. rewrite Hj in H1, H2, H3. cbn [current_of pending new_of map app] in H1, H2, H3.
  apply (dir_ok_ext _ _ (s :: bw_deleting w)) in H1; [|intros x; apply snoc_elem].
  apply NoDup_cons in H3 as [Hs Hn].
  assert (Hl : forall id, id ∈ map b_id l -> is_Some (manifests d !! id) /\ id ∉ map del_id (bw_deleting w)).
  { intros id Hin. rewrite (proj1 (turn_keeps _ _ _ _ id E ltac:(by intros ->))). apply H2. by right. }
  pose proof (dir_ok_turn _ _ _ _ _ _ E H1) as Hd. destruct (H2 (del_id s) ltac:(by left)) as [Hm Hdel].
  destruct r as [s'|[[]|err]].
  - assert (Es : del_id s' = del_id s /\ manifests d !! del_id s = manifests (bw_dir w) !! del_id s).
    { unfold deletion_turn in E. destruct s as [i|i]; destruct (_ !! i); by simplify_eq. }
    destruct Es as [Es Em]. split; cbn [set_job set_dir bw_dir bw_job bw_deleting held current_of pending new_of map app].
    + eapply dir_ok_ext; [|exact Hd]. intros x. symmetry. apply snoc_elem.
    + rewrite Es. intros id [->|Hin]%elem_of_cons; [by rewrite Em|by apply Hl].
    + rewrite Es. by apply NoDup_cons.
  - split; cbn [set_job set_dir bw_dir bw_job bw_deleting held current_of pending new_of map app]; [|done|done].
    unfold held. cbn. by rewrite app_nil_r.
  - exfalso. unfold deletion_turn in E. destruct s as [i|i]; cbn [del_id] in *.
    + destruct (dumps (bw_dir w) !! i) eqn:Ei; [done|]. destruct (do_manifest _ _ _ H1 i Hm) as [Hx|[Ex|Hin]%elem_of_cons]; [rewrite Ei in Hx; by destruct Hx|done|].
      apply Hdel. by apply (list_elem_of_fmap_2 del_id _ (DumpGone i)).
    + destruct Hm as [x Hm]. by rewrite Hm in E.
Qed.

(** A step that leaves the retention and the deletions alone. *)
Lemma world_ok_job j d w :
  world_ok w -> dir_ok d (bw_deleting w) (new_of j) -> current_of j = [] -> pending j = [] -> world_ok (set_job j (set_dir d w)).
Proof.
  intros _ Hd Hc Hp. split; cbn [set_job set_dir bw_dir bw_job bw_deleting]; [|by rewrite Hp; intros id ?%elem_of_nil|rewrite Hp; constructor].
  unfold held. cbn. by rewrite Hc, app_nil_r.
Qed.

Lemma held_idle w : current_of (bw_job w) = [] -> held w = bw_deleting w.
Proof. unfold held. intros ->. apply app_nil_r. Qed.

Lemma world_ok_listed c e w :
  tested c e (bw_job w) -> world_ok w ->
  let l := drop (Z.to_nat (Z.max (bc_keep c) 1)) (list_backups (bw_dir w)) in
  (forall x, x ∈ l -> b_id x ∉ map del_id (bw_deleting w)) -> world_ok (set_job (Some (Retaining e None l)) w).
Proof.
  intros Hj [H1 H2 H3] l Hl. pose proof (do_keyed _ _ _ H1) as Hk. split; cbn [set_job bw_dir bw_job bw_deleting pending current_of map app].
  - unfold held in H1 |- *. cbn. destruct Hj as [E|[E _]]; rewrite E in H1; exact H1.
  - intros id (x & -> & Hx)%list_elem_of_fmap. split; [|by apply Hl]. assert (Hin : x ∈ list_backups (bw_dir w)).
    { rewrite <-(take_drop (Z.to_nat (Z.max (bc_keep c) 1))), elem_of_app. by right. }
    apply list_backups_elem in Hin; [|done]. by eexists.
  - pose proof (list_backups_ids _ Hk) as Hn. rewrite <-(take_drop (Z.to_nat (Z.max (bc_keep c) 1)) (list_backups (bw_dir w))), map_app in Hn.
    by apply NoDup_app in Hn as (_ & _ & Hn).
Qed.

Lemma world_ok_delete_turn l1 s l2 w r d :
  bw_deleting w = l1 ++ s :: l2 -> deletion_turn s (bw_dir w) = (r, d) -> world_ok w ->
  world_ok (mkBackupWorld d (bw_verifying w) (match r with inl s => s :: l1 ++ l2 | inr _ => l1 ++ l2 end) (bw_job w)).
Proof.
  intros Hd E [H1 H2 H3]. unfold held in H1. rewrite Hd in H1, H2.
  apply (dir_ok_ext _ _ (s :: l1 ++ l2 ++ current_of (bw_job w))) in H1; [|intros x; rewrite ?elem_of_app, ?elem_of_cons, ?elem_of_app; tauto].
  pose proof (dir_ok_turn _ _ _ _ _ _ E H1) as Hok.
  assert (Hids : forall id, id ∉ map del_id (l1 ++ s :: l2) -> id <> del_id s /\ id ∉ map del_id (l1 ++ l2)).
  { intros id. rewrite !map_app. cbn. rewrite !not_elem_of_app, not_elem_of_cons. tauto. }
  split; cbn [bw_dir bw_job bw_deleting]; [| |done].
  - eapply dir_ok_ext; [|exact Hok]. intros x. unfold held. cbn [bw_deleting bw_job]. destruct r; rewrite ?elem_of_app, ?elem_of_cons, ?elem_of_app; tauto.
  - intros id Hin. destruct (H2 id Hin) as [Hm Hn]. apply Hids in Hn as [Hne Hn]. rewrite (proj1 (turn_keeps _ _ _ _ id E Hne)). split; [done|].
    destruct r as [s'|]; [|done]. apply del_ids_cons. split; [|done]. unfold deletion_turn in E.
    destruct s as [i|i]; destruct (_ !! i); by simplify_eq.
Qed.

Lemma world_ok_step w w' : backup_step true w w' -> world_ok w -> world_ok w'.
Proof.
  intros Hs Hw. pose proof Hw as [H1 H2 H3]. pose proof (do_keyed _ _ _ H1) as Hk.
  destruct Hs as [id w Hj (F1 & F2 & F3)|app name engine size sha i w Hj (F1 & F2 & F3) Hc|e w Hj|e w Hj|e found drill now w Hj Hm
    |c e w Hj l Hl|e x l w Hj|e s l w Hj|e w Hj|id e w He Hp|l1 s l2 w Hd|id e w He|l1 e l2 drill now w Hv Hm];
    try (assert (Hh : held w = bw_deleting w) by (apply held_idle; by rewrite Hj)).
  - assert (E : remove_dump id (bw_dir w) = bw_dir w) by (unfold remove_dump; rewrite delete_id by done; by destruct (bw_dir w)).
    rewrite E. by destruct w.
  - rewrite Hh in *. apply world_ok_job; [done| |done|done]. rewrite Hj in H1. by apply dir_ok_dump.
  - apply world_ok_job; [done| |done|done]. rewrite Hh, Hj in H1. cbn [new_of] in H1 |- *.
    destruct (do_new _ _ _ H1 _ eq_refl) as (_ & Hdump & _). pose proof (dir_ok_manifest e _ _ _ (or_introl Hdump) H1) as H.
    by rewrite decide_True in H.
  - rewrite Hh, Hj in H1. destruct w as [d v dl j]. apply (world_ok_job (Some _) d (mkBackupWorld d v dl j)); [done|..]; by destruct (backup_entry _ _).
  - apply world_ok_job; [done| |done|done]. rewrite Hh, Hj in H1. apply dir_ok_save; [by apply Hm|done].
  - apply world_ok_listed; [done|done|]. by apply Hl.
  - rewrite Hj in H2, H3. cbn [pending current_of map app] in H2, H3. destruct (H2 (b_id x) ltac:(by left)) as [Hm Hn].
    destruct (manifest_found _ _ Hk Hm) as (y & -> & Hy). rewrite Hy. split; cbn [set_job bw_dir bw_job bw_deleting pending current_of map app del_id]; [|done|done].
    rewrite Hh, Hj in H1. pose proof (dir_ok_found _ _ _ _ Hm H1) as H. eapply dir_ok_ext; [|exact H]. intros s. symmetry. apply snoc_elem.
  - destruct (deletion_turn s (bw_dir w)) as [r d] eqn:E. by apply (world_ok_turn e s l).
  - rewrite Hh, Hj in H1. destruct w as [d v dl j]. by apply (world_ok_job None d (mkBackupWorld d v dl j)).
  - destruct (found_manifest _ _ _ Hk He) as [Eid Hm]. rewrite Eid. split; cbn [bw_dir bw_job bw_deleting]; [| |done].
    + exact (dir_ok_found _ _ _ _ Hm H1).
    + intros i Hi. destruct (H2 i Hi) as [A B]. split; [done|]. apply del_ids_cons. split; [|done]. cbn. intros ->. by apply (Hp eq_refl).
  - destruct (deletion_turn s (bw_dir w)) as [r d] eqn:E. by apply (world_ok_delete_turn l1 s l2).
  - by split.
  - split; cbn [bw_dir bw_job bw_deleting]; [| |done].
    + apply dir_ok_save; [by apply Hm|exact H1].
    + intros i Hi. destruct (H2 i Hi) as [A B]. split; [by apply saved_manifests|done].
Qed.


(** ** The scheduler *)

(** The failed tries of an app in a slot. *)
Definition tries (app : ShortId) (slot : Z) (a : BackupAttempts) : Z :=
  match a !! app with Some (s, c, _) => if s =? slot then c else 0 | None => 0 end.

Definition fails (app : ShortId) (apps : list (ShortId * option (list BackupEntry) * bool)) : Prop := Forall (fun x => x.1.1 = app -> x.2 = false) apps.

Lemma due_tries app slot now a : is_backup_due app slot now a = true -> tries app slot a < MAX_BACKUP_RETRIES.
Proof.
  unfold is_backup_due, tries, MAX_BACKUP_RETRIES. destruct (a !! app) as [[[s c] n]|]; [|lia]. destruct (s =? slot); cbn [negb]; [lia|lia].
Qed.

Lemma failure_tries app slot now a app' :
  tries app' slot (record_backup_failure app slot now a) = tries app' slot a + (if decide (app = app') then 1 else 0).
Proof.
  unfold tries, record_backup_failure. cbv zeta. unfold BackupAttempts in *. destruct (decide (app = app')) as [<-|Hne].
  - rewrite lookup_insert_eq, Z.eqb_refl. destruct (a !! app) as [[[s c] n]|]; [|lia]. destruct (s =? slot); lia.
  - rewrite lookup_insert_ne by done. lia.
Qed.

Lemma success_tries app slot a app' : app <> app' -> tries app' slot (record_backup_success app a) = tries app' slot a.
Proof. intros H. unfold tries, record_backup_success, BackupAttempts in *. by rewrite lookup_delete_ne. Qed.

Lemma round_tries c slot now apps a app :
  fails app apps -> 0 <= tries app slot a <= MAX_BACKUP_RETRIES ->
  let '(taken, _, a') := scheduled_round c slot now apps a in
  tries app slot a' = tries app slot a + count (fun x => bool_decide (x = app)) taken /\ tries app slot a' <= MAX_BACKUP_RETRIES.
Proof.
  revert a. induction apps as [|[[x listed] ok] apps IH]; intros a Hf Ht; cbn [scheduled_round]; [cbn; lia|].
  apply Forall_cons in Hf as [Hx Hf]. cbn [fst snd] in Hx.
  destruct (check_app_backup c x slot now listed a) as [act|] eqn:Ea; [|cbn; lia].
  destruct act; [|by apply IH|by apply IH].
  assert (Hdue : is_backup_due x slot now a = true).
  { unfold check_app_backup in Ea. destruct listed as [l|]; [|done]. cbn in Ea. destruct (_ && _); [|by destruct (restore_test_enabled c)].
    by destruct (is_backup_due x slot now a). }
  set (a1 := if ok then _ else _).
  assert (H1 : tries app slot a1 = tries app slot a + (if decide (x = app) then 1 else 0)).
  { unfold a1. destruct ok; [|apply failure_tries]. destruct (decide (x = app)) as [E|Hne]; [by specialize (Hx E)|]. rewrite success_tries by done. lia. }
  assert (H2 : 0 <= tries app slot a1 <= MAX_BACKUP_RETRIES).
  { rewrite H1. destruct (decide (x = app)) as [->|]; [|lia]. pose proof (due_tries _ _ _ _ Hdue). lia. }
  specialize (IH a1 Hf H2). destruct (scheduled_round c slot now apps a1) as [[taken okr] a']. destruct IH as [IH1 IH2]. split; [|done].
  rewrite IH1, H1. cbn [count]. destruct (decide (x = app)) as [->|Hne]; [rewrite bool_decide_true by done|rewrite bool_decide_false by done]; lia.
Qed.

(** Rounds at the times of a list, with the same slot. *)
Fixpoint rounds (c : BackupConfig) (slot : Z) (l : list (Z * list (ShortId * option (list BackupEntry) * bool))) (a : BackupAttempts) : list ShortId * BackupAttempts :=
  match l with
  | [] => ([], a)
  | (now, apps) :: l =>
      let '(taken, _, a) := scheduled_round c slot now apps a in
      let '(rest, a) := rounds c slot l a in
      (taken ++ rest, a)
  end.

(** Whatever rounds the scheduler runs for a slot and whatever it lists, a database whose backup
    keeps failing is tried at most three times. *)
Theorem scheduled_tries_bounded (c : BackupConfig) (slot : Z) (l : list (Z * list (ShortId * option (list BackupEntry) * bool))) (a : BackupAttempts) (app : ShortId) :
  Forall (fun r => fails app r.2) l -> tries app slot a = 0 ->
  count (fun x => bool_decide (x = app)) (rounds c slot l a).1 <= MAX_BACKUP_RETRIES.
Proof.
  intros Hl Ha. enough (H : tries app slot a + count (fun x => bool_decide (x = app)) (rounds c slot l a).1 <= MAX_BACKUP_RETRIES) by lia.
  assert (H0 : 0 <= tries app slot a <= MAX_BACKUP_RETRIES) by (rewrite Ha; unfold MAX_BACKUP_RETRIES; lia). clear Ha. revert a H0.
  induction l as [|[now apps] l IH]; intros a H0; cbn [rounds]; [cbn; lia|]. apply Forall_cons in Hl as [Hf Hl]. cbn [snd] in Hf.
  pose proof (round_tries c slot now apps a app Hf H0) as Hr. destruct (scheduled_round c slot now apps a) as [[taken ok] a1]. destruct Hr as [H1 H2].
  assert (H3 : 0 <= tries app slot a1 <= MAX_BACKUP_RETRIES).
  { split; [|done]. rewrite H1. pose proof (count_nonneg (fun x => bool_decide (x = app)) taken). lia. }
  specialize (IH Hl a1 H3). destruct (rounds c slot l a1) as [rest a2]. cbn [fst] in *. rewrite count_app. lia.
Qed.

(** After a failure the next try waits for its time. *)
Lemma failure_waits app slot now later a :
  later < now + calculate_backoff_ms (tries app slot a + 1) -> is_backup_due app slot later (record_backup_failure app slot now a) = false.
Proof.
  intros H. unfold is_backup_due, record_backup_failure. cbv zeta. unfold BackupAttempts in *. rewrite lookup_insert_eq, Z.eqb_refl. cbn [negb]. unfold tries, BackupAttempts in H.
  destruct (a !! app) as [[[s n] t]|]; [destruct (s =? slot)|]; apply andb_false_iff; right; apply Z.leb_gt; exact H.
Qed.

(** ** Options and recovery *)

(** The options for the connection of a remote target are accepted exactly when they hold no
    character that a shell reads and consist only of the known options, each with a safe value. *)
Theorem rsync_options_exact (options : string) :
  validate_rsync_ssh_options options = Ok tt <->
  trim options = EmptyString
  \/ contains_any FORBIDDEN_SSH (trim options) = false
     /\ ssh_options (match split_whitespace (trim options) with x :: rest => if String.eqb x "ssh" then rest else x :: rest | [] => [] end).
Proof.
  unfold validate_rsync_ssh_options. destruct (trim options) as [|ch r] eqn:Et; [split; [by left|done]|]. cbn [str_is_empty].
  destruct (contains_any FORBIDDEN_SSH (String ch r)); [split; [done|by intros [|[]]]|].
  assert (E : forall l, (match l with x :: rest => if String.eqb x "ssh" then rest else l | [] => [] end)
    = (match l with x :: rest => if String.eqb x "ssh" then rest else x :: rest | [] => [] end)) by (by intros []).
  rewrite E, ssh_tokens_spec by lia. split; [by right|by intros [|[]]].
Qed.

Lemma fold_max_key {A} (key : A -> Z) l x :
  let b := fold_left (fun best y => if key best <=? key y then y else best) l x in b ∈ x :: l /\ forall y, y ∈ x :: l -> key y <= key b.
Proof.
  revert x. induction l as [|z l IH]; intros x; cbn [fold_left]; [split; [by left|by intros y ->%list_elem_of_singleton]|].
  destruct (Z.leb_spec (key x) (key z)) as [H|H]; [destruct (IH z) as [H1 H2]|destruct (IH x) as [H1 H2]]; cbn zeta; (split; [|intros y Hy]).
  - by apply list_elem_of_further.
  - apply elem_of_cons in Hy as [->|Hy]; [|by apply H2]. assert (Hz : z ∈ z :: l) by (by left). specialize (H2 z Hz). cbn zeta in H2. lia.
  - apply elem_of_cons in H1 as [->|H1]; [by left|]. by apply list_elem_of_further, list_elem_of_further.
  - apply elem_of_cons in Hy as [->|Hy]; [apply H2; by left|]. apply elem_of_cons in Hy as [->|Hy]; [|apply H2; by apply list_elem_of_further].
    assert (Hx : x ∈ x :: l) by (by left). specialize (H2 x Hx). cbn zeta in H2. lia.
Qed.

(** The base of a recovery is the newest backup up to its time. *)
Lemma base_backup_newest backups target b :
  find_base_backup backups target = Ok b ->
  b ∈ backups /\ as_u64 (b_created_at b) <= target
  /\ forall x, x ∈ backups -> as_u64 (b_created_at x) <= target -> b_created_at x <= b_created_at b.
Proof.
  unfold find_base_backup. destruct backups as [|b0 bs]; [done|]. remember (b0 :: bs) as l. destruct (target <? _); [done|].
  unfold max_by_key. destruct (List.filter _ l) as [|x f] eqn:Ef; [done|]. intros [= <-].
  destruct (fold_max_key b_created_at f x) as [H1 H2]. cbn zeta in H1, H2. rewrite <-Ef in H1, H2.
  assert (Hin : forall y, y ∈ List.filter (fun b => as_u64 (b_created_at b) <=? target) l <-> y ∈ l /\ as_u64 (b_created_at y) <= target).
  { intros y. rewrite !list_elem_of_In, filter_In, Z.leb_le. done. }
  apply Hin in H1 as [H1 Ht]. split_and!; [done|done|]. intros y Hy Hyt. apply H2, Hin. done.
Qed.

(** ** Examples *)

Module BackupExample.

Definition daily : BackupConfig := mkBackupConfig "23:50" 2 false.

Definition db : ShortId := [1].

Definition dump_of (id sha : string) (now : Z) : BackupInput := mkBackupInput id (Ok ("postgres", 10, sha)) now (Ok (true, "")).

Definition empty_dir : BackupDir := mkBackupDir ∅ ∅.

(** A directory after two backups. *)
Definition two_days : BackupDir := (run_backups daily db "main" [dump_of "a" "s1" 1; dump_of "b" "s2" 2] empty_dir).2.

Lemma two_days_keyed : keyed two_days /\ whole two_days.
Proof.
  assert (Hf : forall l, Forall (fun p => b_id p.2 = p.1) (map_to_list (manifests l)) -> keyed l).
  { intros l Hl id e H. apply (elem_of_map_to_list (manifests l)) in H. rewrite Forall_forall in Hl. apply (Hl (id, e) H). }
  split; [apply Hf; vm_compute; repeat constructor|].
  assert (Hd : dom (manifests two_days) = dom (dumps two_days)) by (apply (bool_decide_unpack _); vm_compute; exact I).
  intros id. by rewrite <-!elem_of_dom, Hd.
Qed.

Example two_days_listed : map b_id (list_backups two_days) = ["b"; "a"].
Proof. vm_compute. reflexivity. Qed.

Example retention_keeps_newest_witness :
  exists e d', run_backup daily db "main" (dump_of "c" "s3" 3) two_days = (Ok e, d') /\ keyed d' /\ whole d'
  /\ b_id e = "c" /\ is_Some (manifests d' !! "c") /\ dumps d' !! "c" = Some "s3"
  /\ length (list_backups d') = 2%nat
  /\ (forall x y, x ∈ list_backups two_days -> manifests d' !! b_id x = None -> y ∈ list_backups d' -> b_created_at x <= b_created_at y).
Proof.
  apply (retention_keeps_newest daily db "main" (dump_of "c" "s3" 3) two_days "postgres" "s3" 10);
    [apply two_days_keyed|apply two_days_keyed|reflexivity|reflexivity|].
  apply Forall_forall. vm_compute. repeat constructor.
Defined.

Example scheduled_tries_bounded_witness :
  count (fun x => bool_decide (x = db))
    (rounds daily 100 [(100, [(db, Some [], false)]); (60100, [(db, Some [], false)]); (360100, [(db, Some [], false)]); (1260100, [(db, Some [], false)])] ∅).1 <= 3.
Proof. apply scheduled_tries_bounded; [repeat constructor|reflexivity]. Defined.

(** Each of the three tries is made, when its time has come. *)
Example three_tries :
  (rounds daily 100 [(100, [(db, Some [], false)]); (60099, [(db, Some [], false)]); (60100, [(db, Some [], false)]); (360100, [(db, Some [], false)]);
    (1260100, [(db, Some [], false)])] ∅).1 = [db; db; db].
Proof. vm_compute. reflexivity. Qed.

(** The directory while the backup [a] waits for its manifest, and when it is stored. *)
Definition entry_a : BackupEntry := mkBackupEntry "a" db "main" "postgres" 10 "s1" 1 None None.
Definition dumped_a : BackupWorld := mkBackupWorld (write_dump "a" "s1" empty_dir) [] [] (Some (Dumped entry_a)).
Definition stored_a : BackupWorld := mkBackupWorld (write_manifest entry_a (write_dump "a" "s1" empty_dir)) [] [] (Some (Stored entry_a)).


(** *** A deletion while the retention runs

    With two backups kept, the retention of [c] has listed [a] for deletion when a request deletes
    [a]: the retention fails, and the backup takes its own new dump away and leaves its manifest. *)
Definition retaining_c : BackupWorld :=
  mkBackupWorld (stored_dir daily db "main" "postgres" "s3" 10 (dump_of "c" "s3" 3) two_days) [] []
    (Some (Retaining (mkBackupEntry "c" db "main" "postgres" 10 "s3" 3 None None) None [entry_a])).

Definition lost_c : BackupDir :=
  remove_dump "c" (delete_backup "a" (bw_dir retaining_c)).2.

Lemma deletion_in_retention_loses_new_dump :
  rtc (backup_step false) (quiet two_days) retaining_c
  /\ rtc (backup_step false) retaining_c (quiet lost_c)
  /\ map b_id (list_backups lost_c) = ["c"; "b"] /\ dumps lost_c !! "c" = None.
Proof.
  set (c := mkBackupEntry "c" db "main" "postgres" 10 "s3" 3 None None). set (i := dump_of "c" "s3" 3).
  set (d0 := write_dump "c" "s3" two_days). set (d1 := write_manifest c d0).
  assert (E1 : d1 = bw_dir retaining_c) by reflexivity. split; [|split; [|vm_compute; split; reflexivity]].
  - etrans; [apply rtc_once, (step_dumped false db "main" "postgres" 10 "s3" i (quiet two_days) eq_refl)|].
    { split; [vm_compute; reflexivity|]. split; [vm_compute; reflexivity|]. by intros ?%elem_of_nil. } { reflexivity. }
    etrans; [apply rtc_once, (step_stored false c (mkBackupWorld d0 [] [] (Some (Dumped c))) eq_refl)|].
    assert (El : drop (Z.to_nat (Z.max (bc_keep daily) 1)) (list_backups d1) = [entry_a]) by (vm_compute; reflexivity).
    pose proof (step_listed false daily c (mkBackupWorld d1 [] [] (Some (Stored c))) (or_intror (conj eq_refl eq_refl))) as H. cbn [bw_dir] in H.
    rewrite El in H. apply rtc_once, H. done.
  - set (w := mkBackupWorld d1 [] [Found "a"] (bw_job retaining_c)).
    etrans; [apply rtc_once, (step_delete false "a" entry_a retaining_c); [vm_compute; reflexivity|done]|].
    pose proof (step_delete_turn false [] (Found "a") [] w eq_refl) as H1. assert (Et1 : deletion_turn (Found "a") (bw_dir w) = (inl (DumpGone "a"), remove_dump "a" d1)) by (vm_compute; reflexivity).
    rewrite Et1 in H1. etrans; [apply rtc_once, H1|]. set (w2 := mkBackupWorld (remove_dump "a" d1) [] [DumpGone "a"] (bw_job retaining_c)).
    pose proof (step_delete_turn false [] (DumpGone "a") [] w2 eq_refl) as H2.
    assert (Et2 : deletion_turn (DumpGone "a") (bw_dir w2) = (inr (Ok tt), (delete_backup "a" d1).2)) by (vm_compute; reflexivity).
    rewrite Et2 in H2. etrans; [apply rtc_once, H2|].
    pose proof (step_next false c entry_a [] (mkBackupWorld (delete_backup "a" d1).2 [] [] (bw_job retaining_c)) eq_refl) as H3.
    assert (E3 : backup_entry (b_id entry_a) (delete_backup "a" d1).2 = Err (BackupNotFound "a")) by (vm_compute; reflexivity).
    cbn [bw_dir] in H3. rewrite E3 in H3. apply rtc_once, H3.
Qed.

(** *** A verification that ends after its backup was deleted *)

Definition backup_a : BackupEntry := mkBackupEntry "a" db "main" "postgres" 10 "s1" 1 None None.

(** The verification of [a] starts, [a] is deleted, the verification ends. *)
Definition revived : BackupDir :=
  let d := (delete_backup "a" two_days).2 in
  save_verification_result backup_a (verify_checks backup_a (Ok (true, "")) d) 3 d.

(** The manifest comes back, without its dump, and the backup cannot be deleted any more. *)
Lemma verification_revives_deleted_backup :
  backup_entry "a" two_days = Ok backup_a /\ (delete_backup "a" two_days).1 = Ok tt
  /\ map b_id (list_backups revived) = ["b"; "a"] /\ dumps revived !! "a" = None
  /\ delete_backup "a" revived = (Err (FileNotFound "a.dump.gz"), revived).
Proof. vm_compute. repeat split. Qed.

(** The same with one more backup taken before. *)
Definition revived_c : BackupDir :=
  let d := (run_backup (mkBackupConfig "23:50" 3 false) db "main" (dump_of "c" "s3" 3) revived).2 in d.

Lemma revived_keyed : keyed revived_c.
Proof.
  intros id e H. apply (elem_of_map_to_list (manifests revived_c)) in H. revert H.
  cut (Forall (fun p => b_id p.2 = p.1) (map_to_list (manifests revived_c))); [|by vm_compute; repeat constructor].
  intros Hf H. rewrite Forall_forall in Hf. apply (Hf (id, e) H).
Qed.

Definition later_backups : list BackupInput := [dump_of "d" "s4" 4; dump_of "e" "s5" 5; dump_of "f" "s6" 6].

Example phantom_loses_later_backups_witness :
  Forall (fun r => is_ok r = false) (run_backups daily db "main" later_backups revived_c).1
  /\ forall i, i ∈ later_backups -> dumps (run_backups daily db "main" later_backups revived_c).2 !! bi_id i = None.
Proof.
  apply (phantom_loses_later_backups daily db "main" later_backups revived_c "a" (mkBackupEntry "a" db "main" "postgres" 10 "s1" 1 (Some 3) (Some "failed: checksum calculation failed"))).
  - split; [apply revived_keyed|]. split_and!; [reflexivity|reflexivity|]. vm_compute. repeat constructor.
  - apply (bool_decide_unpack _). vm_compute. exact I.
  - apply Forall_forall. repeat constructor; by eexists _, _, _.
Defined.

(** A backup that fails in the retention leaves its manifest, which the scheduler takes for a
    backup of the slot: it does not try again. *)
Lemma failed_retention_counts_as_backup :
  is_ok (run_backup daily db "main" (dump_of "d" "s4" 200) revived_c).1 = false
  /\ let d := (run_backup daily db "main" (dump_of "d" "s4" 200) revived_c).2 in
     head (map b_id (list_backups d)) = Some "d"
     /\ dumps d !! "d" = None
     /\ check_app_backup daily db 100 70000 (Some (list_backups d)) (record_backup_failure db 100 200 ∅) = Some NoAction.
Proof. vm_compute. repeat split. Qed.

(** *** The scheduler *)

(** A directory that cannot be read ends the round: the database behind it gets no backup. *)
Lemma unreadable_directory_stops_round (other : ShortId) :
  (scheduled_round daily 100 200 [(db, None, true); (other, Some [], true)] ∅).1 = ([], false).
Proof. reflexivity. Qed.

(** The slot is the one of the current day: a slot of the day before that was missed, ten minutes
    before midnight, is not made up after it, however old the last backup is. *)
Lemma missed_slot_is_skipped :
  let midnight := 20000 * 86400000 in
  scheduled_slot_ms "23:50" (midnight + 60000) = Some (midnight + 85800000)
  /\ (run_scheduled_backups daily (midnight + 60000) [(db, Some [backup_a], true)] ∅).1 = ([], true)
  /\ (run_scheduled_backups daily (midnight - 60000) [(db, Some [backup_a], true)] ∅).1 = ([db], true).
Proof. vm_compute. repeat split. Qed.

(** *** Dumps and recoveries *)

Fixpoint repeat_char (n : nat) (c : ascii) : string := match n with O => EmptyString | S n => String c (repeat_char n c) end.

(** A dump whose byte 1024 is the first one of an e with an acute accent. *)
Definition accented_dump : string :=
  String.append "-- PostgreSQL database dump "
    (String.append (repeat_char 995 "x") (String (ascii_of_nat 195) (String (ascii_of_nat 169) (repeat_char 20 "x")))).

(** It is UTF-8 and refused as not being UTF-8: the sample ends inside of a character. *)
Lemma multibyte_boundary_refused :
  utf8_valid (as_bytes accented_dump) = true /\ validate_backup_engine_format "postgres" accented_dump = Err NotUtf8.
Proof. vm_compute. split; reflexivity. Qed.

(** A segment that starts before the time of the recovery is replayed to its end, which may be
    after it. *)
Lemma replay_passes_target (target a b : Z) : a <= target -> target < b -> replayed_segments [mkWalSegment "w" a b] target = [mkWalSegment "w" a b].
Proof. intros H _. unfold replayed_segments. cbn. by rewrite (proj2 (Z.leb_le a target)). Qed.

Example safe_options :
  validate_rsync_ssh_options "ssh -p 2222 -o StrictHostKeyChecking=no" = Ok tt
  /\ validate_rsync_ssh_options "-o ProxyCommand=nc" = Err "disallowed ssh -o option: ProxyCommand"
  /\ validate_rsync_ssh_options "-p 22; rm -rf /" = Err "rsync ssh_options contains forbidden characters".
Proof. vm_compute. repeat split. Qed.

End BackupExample.
