(* ===== verification/Tcp.v ===== *)
(** * The TCP proxy

    [proxy/tcp.rs] with the TLS termination of a port ([proxy/tls.rs], [certs/alpn.rs]) and the list
    of the open connections ([proxy/connection_tracker.rs]).  Each connection is a task; the tasks
    of a port run next to each other, next to reloads and next to the other users of the groups of
    [Permits.v].  The bytes of the streams and the TLS records are left out. *)

From Stdlib Require Import Ascii.
From stdpp Require Import strings.
From S2P Require Import Prelude Basics Net IpText Udp Upstream Breaker Float64 GeoIp Balancer Permits Registry Dns Policy.
From S2P Require Import EnvFiles ProxyList Router Certs ProxyProtocol.

(** ** The status of a port *)

Inductive SocketState : Type := Listening | Inactive | AddressAlreadyInUse | PermissionDenied | AddressNotAvailable | SocketError | Unknown.

#[export] Instance SocketState_eq_dec : EqDecision SocketState. Proof. solve_decision. Defined.

Inductive TlsState : Type := TlsActive | TlsInvalid.

#[export] Instance TlsState_eq_dec : EqDecision TlsState. Proof. solve_decision. Defined.

(** [started_at] in nanoseconds since the Unix epoch. *)
Record PortStatus : Type := mkPortStatus { socket : SocketState; tls_state : option TlsState; started_at : option Z }.

#[export] Instance PortStatus_eq_dec : EqDecision PortStatus. Proof. solve_decision. Defined.

Definition PortStatus_default : PortStatus := mkPortStatus Unknown None None.

(** [event] of the port contexts. *)
Definition socket_event (now : Z) (state : SocketState) (s : PortStatus) : PortStatus :=
  mkPortStatus state (tls_state s)
    (if bool_decide (socket s = state) then started_at s
     else if bool_decide (state = Listening) then Some now else None).

Definition set_tls_state (t : option TlsState) (s : PortStatus) : PortStatus := mkPortStatus (socket s) t (started_at s).

(** ** TLS termination *)

Record TlsConfig : Type := mkTlsConfig {
  tc_server_names : list string;
  tc_client_auth : ClientAuthMode;
  tc_client_ca_certs : list ShortId;
  tc_early_data : bool;
}.

Record TlsAlpnChallenge : Type := mkTlsAlpnChallenge { ch_domain : string; ch_digest : string }.

Record ClientHello : Type := mkClientHello { hello_sni : option string; hello_alpn : option (list string) }.

Definition ACME_TLS_ALPN : string := "acme-tls/1".

Definition only_acme_tls (protocols : list string) : bool :=
  match protocols with [p] => String.eqb p ACME_TLS_ALPN | _ => false end.

Definition offers_only_acme_tls (h : ClientHello) : bool := is_some_and only_acme_tls (hello_alpn h).

Section Tls.
Context `{TLS : TlsOps}.

(** What [WebPkiClientVerifier] takes, and the certificate that answers a challenge. *)
Class VerifierOps : Type := {
  verifier_builds : list Der -> bool;
  challenge_cert : TlsAlpnChallenge -> option CertifiedKey;
}.
Context `{VERIFY : VerifierOps}.

Inductive ClientVerifier : Type :=
| NoClientAuth
| VerifyClient (roots : list Der) (allow_unauthenticated : bool).

Record TlsAcceptor : Type := mkTlsAcceptor {
  ta_verifier : ClientVerifier;
  ta_resolver : CertResolver;
  ta_alpn : list string;
  ta_max_early_data_size : Z;
}.

Record TlsTermination : Type := mkTlsTermination {
  tt_server_names : list SubjectName;
  tt_acceptor : option TlsAcceptor;
  tt_alpn_protocols : list string;
  tt_early_data : bool;
  tt_client_auth : ClientAuthMode;
  tt_client_ca_certs : list ShortId;
}.

Definition TlsTermination_new (server_name : string -> bool) (c : TlsConfig) (alpn : list string) : result TlsTermination Error :=
  let? names := parse_names server_name (tc_server_names c) in
  Ok (mkTlsTermination names None alpn (tc_early_data c) (tc_client_auth c) (tc_client_ca_certs c)).

Definition client_verifier (t : TlsTermination) (l : CertList) : result ClientVerifier Error :=
  if is_off (tt_client_auth t) then Ok NoClientAuth
  else
    let? roots := client_roots (tt_client_ca_certs t) l in
    if verifier_builds roots then Ok (VerifyClient roots (match tt_client_auth t with AuthOptional => true | _ => false end))
    else Err ClientCaCertsMissing.

Definition set_acceptor (a : option TlsAcceptor) (t : TlsTermination) : TlsTermination :=
  mkTlsTermination (tt_server_names t) a (tt_alpn_protocols t) (tt_early_data t) (tt_client_auth t) (tt_client_ca_certs t).

(** [TlsTermination::setup]. *)
Definition tls_setup (l : CertList) (t : TlsTermination) : TlsState * TlsTermination :=
  match client_verifier t l with
  | Err _ => (TlsInvalid, set_acceptor None t)
  | Ok v =>
      (TlsActive, set_acceptor (Some (mkTlsAcceptor v (server_cert_resolver l (tt_server_names t)) (tt_alpn_protocols t)
                                        (if tt_early_data t then 16384 else 0))) t)
  end.

(** [None]: the port needs TLS and has no valid configuration. *)
Definition port_acceptor (t : option TlsTermination) : option (option TlsAcceptor) :=
  match t with Some t => Some <$> tt_acceptor t | None => Some None end.

Definition ChallengeCerts : Type := gmap string CertifiedKey.

Fixpoint ChallengeCerts_new (challenges : list TlsAlpnChallenge) (m : ChallengeCerts) : option ChallengeCerts :=
  match challenges with
  | [] => Some m
  | c :: rest => key ← challenge_cert c; ChallengeCerts_new rest (<[to_ascii_lowercase (ch_domain c) := key]> m)
  end.

Definition challenge_resolve (h : ClientHello) (m : ChallengeCerts) : option CertifiedKey :=
  name ← hello_sni h; m !! to_ascii_lowercase name.

Record PortTls : Type := mkPortTls { pt_acceptor : TlsAcceptor; pt_challenge : option ChallengeCerts }.

Definition port_tls (acceptor : option (option TlsAcceptor)) (challenge : option ChallengeCerts) : option (option PortTls) :=
  match acceptor with
  | None => None
  | Some None => Some None
  | Some (Some a) => Some (Some (mkPortTls a challenge))
  end.

Inductive Handshake : Type := Established | ChallengeServed.

(** [PortTls::accept]: [hello] is the hello of the client, when it could be read, and [ok] whether
    the rest of the handshake succeeds.  The second result is the key that the client is shown. *)
Definition PortTls_accept (t : PortTls) (hello : option ClientHello) (ok : bool) (now : ASN1Time)
  : result Handshake unit * option CertifiedKey :=
  match hello with
  | None => (Err tt, None)
  | Some h =>
      match pt_challenge t with
      | Some certs =>
          if offers_only_acme_tls h then (if ok then Ok ChallengeServed else Err tt, challenge_resolve h certs)
          else (if ok then Ok Established else Err tt, (resolve_cert (hello_sni h) now (ta_resolver (pt_acceptor t))).1)
      | None => (if ok then Ok Established else Err tt, (resolve_cert (hello_sni h) now (ta_resolver (pt_acceptor t))).1)
      end
  end.

(** ** The upstream servers of a port *)

Record Connection : Type := mkConnection {
  co_name : ServerName;
  co_port : Z;
  co_tls_client_config : option ClientConfig;
  co_connect_timeout : Duration;
  co_proxy_protocol : option ProxyProtocolVersion;
}.

Record TcpProxy : Type := mkTcpProxy {
  upstream_servers : list UpstreamServer;
  tp_client_cert : option ShortId;
  tp_connect_timeout : Duration;
  tp_proxy_protocol : option ProxyProtocolVersion;
  tp_load_balancing : LoadBalancing;
  tp_health_check : HealthCheck;
  tp_circuit_breaker : CircuitBreaker;
}.

Record TcpUpstream : Type := mkTcpUpstream { tu_servers : list Connection; tu_group : nat }.

Context `{NAMES : DnsNames}.

Definition multiaddr_to_host (a : Multiaddr) (config : ClientConfig) (p : TcpProxy) : result Connection Error :=
  let tls := if is_tls a then Some config else None in
  let? name :=
    match ip_addr a, host a with
    | Ok ip, _ => Ok (IpName ip)
    | _, Ok host => if dns_name_valid host then Ok (Udp.DnsName host) else Err (InvalidServerAddress a)
    | _, _ => Err (InvalidServerAddress a)
    end in
  match port a with
  | Ok port => Ok (mkConnection name port tls (tp_connect_timeout p) (tp_proxy_protocol p))
  | Err _ => Err (InvalidServerAddress a)
  end.

Fixpoint hosts_of (servers : list UpstreamServer) (config : ClientConfig) (p : TcpProxy) : result (list Connection) Error :=
  match servers with
  | [] => Ok []
  | s :: rest => let? c := multiaddr_to_host (us_addr s) config p in let? cs := hosts_of rest config p in Ok (c :: cs)
  end.

Definition proxy_connections (l : CertList) (p : TcpProxy) : result (list Connection) Error :=
  match upstream_client_config l (tp_client_cert p) with
  | Err _ => Ok []
  | Ok config => hosts_of (upstream_servers p) config p
  end.

Definition TcpUpstream_new (alive : nat -> bool) (id : ShortId) (p : TcpProxy) (servers : list Connection) (entries : gmap GroupKey nat) (w : World)
  : TcpUpstream * gmap GroupKey nat * World :=
  let targets := probe_targets (upstream_servers p) in
  let probe := if is_some (tp_proxy_protocol p) then ProbeConnectLocal targets else ProbeConnect targets in
  let '(gid, _, w, entries) :=
    registry_group alive entries (id, None) (group_members (upstream_servers p)) (tp_load_balancing p) (tp_health_check p) (tp_circuit_breaker p) probe w in
  (mkTcpUpstream servers gid, entries, w).

(** The first proxy of the port that has a server. *)
Fixpoint choose_upstream (alive : nat -> bool) (l : CertList) (proxies : list (ShortId * option TcpProxy)) (u : option TcpUpstream)
    (entries : gmap GroupKey nat) (w : World) : result (option TcpUpstream) Error * gmap GroupKey nat * World :=
  match proxies with
  | [] => (Ok u, entries, w)
  | (_, None) :: rest => choose_upstream alive l rest u entries w
  | (id, Some p) :: rest =>
      match proxy_connections l p with
      | Err e => (Err e, entries, w)
      | Ok servers =>
          if is_some u || bool_decide (length servers = 0%nat) then choose_upstream alive l rest u entries w
          else let '(t, entries, w) := TcpUpstream_new alive id p servers entries w in choose_upstream alive l rest (Some t) entries w
      end
  end.
End Tls.

(** ** The list of open connections *)

(** [SocketAddr::to_string]. *)
Definition addr_text (a : SocketAddr) : string :=
  match a.1 with
  | V4 _ => String.append (ip_to_string a.1) (String ":" (dec a.2))
  | V6 _ => String "[" (String.append (ip_to_string a.1) (String.append "]:" (dec a.2)))
  end.

Inductive ConnectionProtocol : Type := WebSocket | TcpStream | Sse | HttpUpgrade.

(** [ce_terminate]: the value of the watch channel. *)
Record ConnectionEntry : Type := mkConnectionEntry {
  ce_client_addr : string;
  ce_proxy_id : option ShortId;
  ce_proxy_name : string;
  ce_protocol : ConnectionProtocol;
  ce_upstream_addr : string;
  ce_started : Instant;
  ce_bytes_sent : Z;
  ce_bytes_received : Z;
  ce_terminate : bool;
}.

(** [id]: the random identifier. *)
Definition register (id : ShortId) (proxy_id : option ShortId) (proxy_name : string) (protocol : ConnectionProtocol)
    (client upstream : string) (now : Instant) (s : gmap ShortId ConnectionEntry) : gmap ShortId ConnectionEntry :=
  <[id := mkConnectionEntry client proxy_id proxy_name protocol upstream now 0 0 false]> s.

Definition unregister (id : ShortId) (s : gmap ShortId ConnectionEntry) : gmap ShortId ConnectionEntry := delete id s.

Definition terminate (id : ShortId) (s : gmap ShortId ConnectionEntry) : result unit Error * gmap ShortId ConnectionEntry :=
  match s !! id with
  | Some e =>
      (Ok tt, <[id := mkConnectionEntry (ce_client_addr e) (ce_proxy_id e) (ce_proxy_name e) (ce_protocol e) (ce_upstream_addr e)
                        (ce_started e) (ce_bytes_sent e) (ce_bytes_received e) true]> s)
  | None => (Err (ConnectionNotFound id), s)
  end.

(** [current_rate_bps] of [entry_to_info]. *)
Definition current_rate (now : Instant) (e : ConnectionEntry) : Z :=
  let uptime := duration_since now (ce_started e) / 1000000000 in
  let total := sat_add u64_max (ce_bytes_sent e) (ce_bytes_received e) in
  if uptime =? 0 then total else total / uptime.

(** [list]: by identifier. *)
Definition list_connections (filter_proxy : option ShortId) (s : gmap ShortId ConnectionEntry) : list (ShortId * ConnectionEntry) :=
  List.filter (fun e => negb (is_some filter_proxy) || bool_decide (ce_proxy_id e.2 = filter_proxy))
    (sort_by (fun a b => not_gt (list_compare Z.compare a.1 b.1)) (map_to_list s)).

(** ** The context of a port *)

Section Port.
Context `{TLS : TlsOps} `{VERIFY : !VerifierOps} `{NAMES : DnsNames} `{NETS : IpNets}.

(** [tx_stop]: which notifier stops the connections of the port. *)
Record TcpPortContext : Type := mkTcpPortContext {
  tx_listen : SocketAddr;
  tx_upstream : option TcpUpstream;
  tx_status : PortStatus;
  tx_tls_termination : option TlsTermination;
  tx_proxy_protocol : option ProxyProtocolReceive;
  tx_stop : nat;
}.

(** [resolver]: whether the configuration of the resolver could be read. *)
Definition TcpPortContext_new (server_name : string -> bool) (resolver : result unit string) (stop : nat)
    (listen : Multiaddr) (tls : option TlsConfig) (proxy_protocol : option ProxyProtocolReceive) : result TcpPortContext Error :=
  let? addr := socket_addr listen in
  let? termination :=
    match tls with
    | Some c => let? t := TlsTermination_new server_name c [] in Ok (Some t)
    | None => if is_tls listen then Err TlsTerminationConfigMissing else Ok None
    end in
  match resolver with
  | Err reason => Err (FailedToBuildDnsResolver reason)
  | Ok _ => Ok (mkTcpPortContext addr None PortStatus_default termination proxy_protocol stop)
  end.

(** [setup] of the contexts with TLS. *)
Definition setup_termination (l : CertList) (t : option TlsTermination) (s : PortStatus) : option TlsTermination * PortStatus :=
  match t with
  | Some t => let '(state, t) := tls_setup l t in (Some t, set_tls_state (Some state) s)
  | None => (None, s)
  end.

Definition tcp_setup (alive : nat -> bool) (l : CertList) (proxies : list (ShortId * option TcpProxy)) (entries : gmap GroupKey nat)
    (w : World) (c : TcpPortContext) : result TcpPortContext Error * gmap GroupKey nat * World :=
  let '(r, entries, w) := choose_upstream alive l proxies None entries w in
  match r with
  | Err e => (Err e, entries, w)
  | Ok u =>
      let '(t, s) := setup_termination l (tx_tls_termination c) (tx_status c) in
      (Ok (mkTcpPortContext (tx_listen c) u s t (tx_proxy_protocol c) (tx_stop c)), entries, w)
  end.

(** The resolver stays, too. *)
Definition tcp_apply (new old : TcpPortContext) : TcpPortContext :=
  mkTcpPortContext (tx_listen new) (tx_upstream new) (tx_status new) (tx_tls_termination new) (tx_proxy_protocol new) (tx_stop old).

Definition tcp_event (now : Z) (state : SocketState) (c : TcpPortContext) : TcpPortContext :=
  mkTcpPortContext (tx_listen c) (tx_upstream c) (socket_event now state (tx_status c)) (tx_tls_termination c) (tx_proxy_protocol c) (tx_stop c).

Record TcpStarter : Type := mkTcpStarter {
  ts_upstream : option TcpUpstream;
  ts_tls_acceptor : option (option TlsAcceptor);
  ts_proxy_protocol : option ProxyProtocolReceive;
  ts_stop : nat;
}.

Definition tcp_starter (c : TcpPortContext) : TcpStarter :=
  mkTcpStarter (tx_upstream c) (port_acceptor (tx_tls_termination c)) (tx_proxy_protocol c) (tx_stop c).

(** ** The task of a connection *)

(** [CSelect]: the handshake is over; [CTry]: servers are left, and this many permits;
    [CConnect]: a permit is held; [CPipe]: the streams are copied into each other. *)
Inductive Phase : Type :=
| CAccept
| CHandshake
| CSelect
| CTry (candidates : list nat) (left : nat)
| CConnect (permit : Permit) (candidates : list nat) (left : nat)
| CPipe (guard : ConnGuard) (id : ShortId) (target : SocketAddr).

(** [k_tried]: the servers that got a permit, the last one first. *)
Record TcpTask : Type := mkTcpTask {
  k_peer : SocketAddr;
  k_local : SocketAddr;
  k_remote : SocketAddr;
  k_upstream : TcpUpstream;
  k_tls : option PortTls;
  k_proxy_protocol : option ProxyProtocolReceive;
  k_tried : list nat;
  k_phase : Phase;
}.

Definition at_phase (p : Phase) (k : TcpTask) : TcpTask :=
  mkTcpTask (k_peer k) (k_local k) (k_remote k) (k_upstream k) (k_tls k) (k_proxy_protocol k) (k_tried k) p.
Definition set_remote (a : SocketAddr) (k : TcpTask) : TcpTask :=
  mkTcpTask (k_peer k) (k_local k) a (k_upstream k) (k_tls k) (k_proxy_protocol k) (k_tried k) (k_phase k).
Definition add_tried (i : nat) (k : TcpTask) : TcpTask :=
  mkTcpTask (k_peer k) (k_local k) (k_remote k) (k_upstream k) (k_tls k) (k_proxy_protocol k) (i :: k_tried k) (k_phase k).

(** [tw_context]: the context of the port; [tw_others]: the permits and guards of other users of
    the groups. *)
Record TcpWorld : Type := mkTcpWorld {
  tw_groups : World;
  tw_dns : DnsResolver;
  tw_context : TcpPortContext;
  tw_connections : gmap ShortId ConnectionEntry;
  tw_leases : Z;
  tw_tasks : list TcpTask;
  tw_others : list Token;
}.

Definition set_groups (g : World) (w : TcpWorld) : TcpWorld :=
  mkTcpWorld g (tw_dns w) (tw_context w) (tw_connections w) (tw_leases w) (tw_tasks w) (tw_others w).
Definition set_dns (d : DnsResolver) (w : TcpWorld) : TcpWorld :=
  mkTcpWorld (tw_groups w) d (tw_context w) (tw_connections w) (tw_leases w) (tw_tasks w) (tw_others w).
Definition set_context (c : TcpPortContext) (w : TcpWorld) : TcpWorld :=
  mkTcpWorld (tw_groups w) (tw_dns w) c (tw_connections w) (tw_leases w) (tw_tasks w) (tw_others w).
Definition set_connections (s : gmap ShortId ConnectionEntry) (w : TcpWorld) : TcpWorld :=
  mkTcpWorld (tw_groups w) (tw_dns w) (tw_context w) s (tw_leases w) (tw_tasks w) (tw_others w).
Definition set_tasks (leases : Z) (l : list TcpTask) (w : TcpWorld) : TcpWorld :=
  mkTcpWorld (tw_groups w) (tw_dns w) (tw_context w) (tw_connections w) leases l (tw_others w).

(** [TcpStarter::start] of an accepted stream, with the lease of [spawn_connection]. *)
Definition start (peer local : SocketAddr) (challenge : option ChallengeCerts) (s : TcpStarter) (w : TcpWorld) : TcpWorld :=
  match ts_upstream s, port_tls (ts_tls_acceptor s) challenge with
  | Some u, Some tls => set_tasks (wrap64 (tw_leases w + 1)) (tw_tasks w ++ [mkTcpTask peer local peer u tls (ts_proxy_protocol s) [] CAccept]) w
  | _, _ => w
  end.

(** What the outside world does at one turn of a task. *)
Record TurnInput : Type := mkTurnInput {
  in_now : Instant;
  in_elapsed : bool;
  in_bytes : list Z;
  in_hello : option ClientHello;
  in_handshake : bool;
  in_wall : ASN1Time;
  in_draws : list f64;
  in_lookup : option Lookup;
  in_connected : result unit string;
  in_id : ShortId;
  in_copied : option (Z * Z);
}.

Context `{PPP : Ppp}.
Context (fnv_finish : list (list Z) -> Z) (f64_ln : f64 -> f64) (f64_powf : f64 -> f64 -> f64).

(** [connect_server]: the address of the server, within the deadline, and the connection. *)
Definition connect_server (conn : Connection) (i : TurnInput) (w : TcpWorld) : result SocketAddr string * TcpWorld :=
  match in_lookup i with
  | None => (Err "timed out", w)
  | Some lookup =>
      let '(r, d) := resolve_addr (server_host (co_name conn)) (co_port conn) (in_now i) lookup (tw_dns w) in
      let w := set_dns d w in
      match r with
      | Err e => (Err e, w)
      | Ok a => (match in_connected i with Ok _ => Ok a | Err e => Err e end, w)
      end
  end.

(** The header that [connect_upstream] writes first. *)
Definition upstream_header (conn : Connection) (remote local : SocketAddr) : option (result (list Z) PpError) :=
  (fun version => header version remote local) <$> co_proxy_protocol conn.

Definition group_candidates (gid : nat) (client : IpAddr) (i : TurnInput) (w : TcpWorld) : list nat * TcpWorld :=
  match w_groups (tw_groups w) !! gid with
  | Some g =>
      let '(cs, g) := candidates fnv_finish f64_ln f64_powf g
                        (mkObservation (w_conns (tw_groups w)) (w_metrics (tw_groups w)) (in_draws i)) (in_now i) client in
      (cs, set_groups (on_group gid (fun _ => g) (tw_groups w)) w)
  | None => ([], w)
  end.

(** One turn of the task, up to the next point where another task can run: what is left of the
    task. *)
Definition turn (k : TcpTask) (i : TurnInput) (w : TcpWorld) : option TcpTask * TcpWorld :=
  match k_phase k with
  | CAccept =>
      (match accept (in_elapsed i) (in_bytes i) (k_peer k) (k_proxy_protocol k) with
       | Ok client => Some (at_phase CHandshake (set_remote (client_remote client) k))
       | Err _ => None
       end, w)
  | CHandshake =>
      (match k_tls k with
       | None => Some (at_phase CSelect k)
       | Some tls =>
           match (PortTls_accept tls (in_hello i) (in_handshake i) (in_wall i)).1 with
           | Ok Established => Some (at_phase CSelect k)
           | Ok ChallengeServed | Err _ => None
           end
       end, w)
  | CSelect => let '(cs, w) := group_candidates (tu_group (k_upstream k)) (k_remote k).1 i w in (Some (at_phase (CTry cs 2) k), w)
  | CTry _ 0 | CTry [] _ => (None, w)
  | CTry (index :: cs) (S n) =>
      match acquire (tu_group (k_upstream k)) index (in_now i) (tw_groups w) with
      | (None, g) => (Some (at_phase (CTry cs (S n)) k), set_groups g w)
      | (Some p, g) => (Some (at_phase (CConnect p cs n) (add_tried index k)), set_groups g w)
      end
  | CConnect p cs n =>
      match tu_servers (k_upstream k) !! p_index p with
      | None => (Some (at_phase (CTry cs n) k), set_groups (permit_abandon p (tw_groups w)) w)
      | Some conn =>
          let '(r, w) := connect_server conn i w in
          match r with
          | Ok target =>
              let '(guard, g) := permit_success_keep (in_now i) p (tw_groups w) in
              let w := set_groups g w in
              (Some (at_phase (CPipe guard (in_id i) target) k),
               set_connections (register (in_id i) None "tcp" TcpStream (addr_text (k_remote k)) (addr_text target) (in_now i) (tw_connections w)) w)
          | Err e => (Some (at_phase (CTry cs n) k), set_groups (permit_failure e (in_now i) p (tw_groups w)) w)
          end
      end
  | CPipe guard id _ =>
      let g := match in_copied i with Some (rx, tx) => guard_record_bytes (rx + tx) guard (tw_groups w) | None => tw_groups w end in
      (None, set_connections (unregister id (tw_connections w)) (set_groups (guard_drop guard g) w))
  end.

(** The turn of a task among the others; a task that ends gives its lease back. *)
Definition resume (l1 : list TcpTask) (k : TcpTask) (l2 : list TcpTask) (i : TurnInput) (w : TcpWorld) : TcpWorld :=
  let '(next, w) := turn k i w in
  match next with
  | Some k => set_tasks (tw_leases w) (l1 ++ k :: l2) w
  | None => set_tasks (wrap64 (tw_leases w - 1)) (l1 ++ l2) w
  end.

(** The permits and guards of a task. *)
Definition task_tokens (k : TcpTask) : list Token :=
  match k_phase k with CConnect p _ _ => [TPermit p] | CPipe g _ _ => [TGuard g] | _ => [] end.

Definition tokens (w : TcpWorld) : list Token := flat_map task_tokens (tw_tasks w) ++ tw_others w.

(** The steps of a port: an accepted connection, a turn of a task, a reload of the certificates and
    proxies, a new configuration of the port, a termination by hand, and a step of another user of
    the groups. *)
Inductive tcp_step : TcpWorld -> TcpWorld -> Prop :=
| step_start peer local challenge w : tcp_step w (start peer local challenge (tcp_starter (tw_context w)) w)
| step_turn l1 k l2 i w : tw_tasks w = l1 ++ k :: l2 -> tw_connections w !! in_id i = None -> tcp_step w (resume l1 k l2 i w)
| step_setup alive l proxies entries r entries' g w :
    tcp_setup alive l proxies entries (tw_groups w) (tw_context w) = (r, entries', g) ->
    tcp_step w (set_context (match r with Ok c => c | Err _ => tw_context w end) (set_groups g w))
| step_apply new w : tcp_step w (set_context (tcp_apply new (tw_context w)) w)
| step_event now state w : tcp_step w (set_context (tcp_event now state (tw_context w)) w)
| step_terminate id w : tcp_step w (set_connections (terminate id (tw_connections w)).2 w)
| step_others g ts ts' others w :
    ts ≡ₚ tokens w -> world_step (tw_groups w, ts) (g, ts') -> ts' ≡ₚ flat_map task_tokens (tw_tasks w) ++ others ->
    tcp_step w (mkTcpWorld g (tw_dns w) (tw_context w) (tw_connections w) (tw_leases w) (tw_tasks w) others).
End Port.

(** ** The invariant *)

Section Invariant.
Context `{TLS : TlsOps} `{VERIFY : !VerifierOps} `{NAMES : DnsNames} `{NETS : IpNets} `{PPP : Ppp}.
Context (fnv_finish : list (list Z) -> Z) (f64_ln : f64 -> f64) (f64_powf : f64 -> f64 -> f64).

#[local] Abbreviation turn := (turn fnv_finish f64_ln f64_powf).
#[local] Abbreviation resume := (resume fnv_finish f64_ln f64_powf).
#[local] Abbreviation tcp_step := (tcp_step fnv_finish f64_ln f64_powf).

(** The identifiers of the open connections. *)
Definition task_id (k : TcpTask) : list ShortId := match k_phase k with CPipe _ id _ => [id] | _ => [] end.
Definition pipe_ids (l : list TcpTask) : list ShortId := flat_map task_id l.

(** A connection gets two permits at most. *)
Definition tries_ok (k : TcpTask) : Prop :=
  match k_phase k with
  | CAccept | CHandshake | CSelect => k_tried k = []
  | CTry _ n | CConnect _ _ n => (length (k_tried k) + n = 2)%nat
  | CPipe _ _ _ => (length (k_tried k) <= 2)%nat
  end.

Lemma tries_bound k : tries_ok k -> (length (k_tried k) <= 2)%nat.
Proof. unfold tries_ok. destruct (k_phase k); intros H; rewrite ?H; cbn; lia. Qed.

(** The permits and guards follow the steps of the permits. *)
Definition runs (g : World) (ts : list Token) (g' : World) (ts' : list Token) : Prop :=
  forall l, l ≡ₚ ts -> exists l', rtc world_step (g, l) (g', l') /\ l' ≡ₚ ts'.

Lemma runs_refl g ts : runs g ts g ts.
Proof. intros l Hl. by exists l. Qed.

Lemma runs_trans g1 ts1 g2 ts2 g3 ts3 : runs g1 ts1 g2 ts2 -> runs g2 ts2 g3 ts3 -> runs g1 ts1 g3 ts3.
Proof. intros H1 H2 l Hl. destruct (H1 l Hl) as (l1 & R1 & P1). destruct (H2 l1 P1) as (l2 & R2 & P2). exists l2. split; [by etrans|done]. Qed.

(** A step that leaves the tokens alone, adds one, takes one away, or replaces one. *)
Lemma runs_same g g' ts : (forall l, world_step (g, l) (g', l)) -> runs g ts g' ts.
Proof. intros H l Hl. exists l. split; [by apply rtc_once|done]. Qed.

Lemma runs_add g g' t ts : (forall l, world_step (g, l) (g', t :: l)) -> runs g ts g' (t :: ts).
Proof. intros H l Hl. exists (t :: l). split; [by apply rtc_once|]. by rewrite Hl. Qed.

Lemma runs_split (t : Token) ts l : l ≡ₚ t :: ts -> exists l1 l2, l = l1 ++ t :: l2 /\ l1 ++ l2 ≡ₚ ts.
Proof.
  intros Hl. assert (Hin : t ∈ l) by (rewrite Hl; by left). apply list_elem_of_split in Hin as (l1 & l2 & ->). exists l1, l2. split; [done|].
  apply (Permutation_cons_inv (a := t)). by rewrite <-Hl, Permutation_middle.
Qed.

Lemma tcp_runs_end g g' t ts : (forall l1 l2, world_step (g, l1 ++ t :: l2) (g', l1 ++ l2)) -> runs g (t :: ts) g' ts.
Proof. intros H l Hl. destruct (runs_split t ts l Hl) as (l1 & l2 & -> & Hp). exists (l1 ++ l2). split; [apply rtc_once, H|done]. Qed.

Lemma runs_swap g g' t t' ts : (forall l1 l2, world_step (g, l1 ++ t :: l2) (g', t' :: l1 ++ l2)) -> runs g (t :: ts) g' (t' :: ts).
Proof. intros H l Hl. destruct (runs_split t ts l Hl) as (l1 & l2 & -> & Hp). exists (t' :: l1 ++ l2). split; [apply rtc_once, H|by rewrite Hp]. Qed.

Lemma runs_perm g (ts1 ts1' : list Token) g' (ts2 ts2' : list Token) : ts1 ≡ₚ ts1' -> ts2 ≡ₚ ts2' -> runs g ts1 g' ts2 -> runs g ts1' g' ts2'.
Proof. intros H1 H2 H l Hl. destruct (H l) as (l' & R & P); [by rewrite H1|]. exists l'. split; [done|by rewrite <-H2]. Qed.

(** The order of the tokens does not matter for a step. *)
Lemma step_perm g ts g' ts' : world_step (g, ts) (g', ts') -> forall l, l ≡ₚ ts -> exists l', world_step (g, l) (g', l') /\ l' ≡ₚ ts'.
Proof.
  intros H l Hl. inversion H; subst.
  all: try (exists l; split; [by econstructor|done]; fail).
  - eexists (TPermit p :: l). split; [by econstructor|by rewrite Hl].
  - destruct (runs_split (TPermit p) (ts1 ++ ts2) l) as (l1 & l2 & -> & Hp); [by rewrite Hl, Permutation_middle|]. exists (l1 ++ l2). split; [apply ws_success|done].
  - destruct (runs_split (TPermit p) (ts1 ++ ts2) l) as (l1 & l2 & -> & Hp); [by rewrite Hl, Permutation_middle|]. exists (TGuard c :: l1 ++ l2). split; [by eapply ws_keep|by rewrite Hp].
  - destruct (runs_split (TPermit p) (ts1 ++ ts2) l) as (l1 & l2 & -> & Hp); [by rewrite Hl, Permutation_middle|]. exists (l1 ++ l2). split; [apply ws_failure|done].
  - destruct (runs_split (TPermit p) (ts1 ++ ts2) l) as (l1 & l2 & -> & Hp); [by rewrite Hl, Permutation_middle|]. exists (l1 ++ l2). split; [apply ws_error_response|done].
  - destruct (runs_split (TPermit p) (ts1 ++ ts2) l) as (l1 & l2 & -> & Hp); [by rewrite Hl, Permutation_middle|]. exists (l1 ++ l2). split; [apply ws_abandon|done].
  - destruct (runs_split (TGuard c) (ts1 ++ ts2) l) as (l1 & l2 & -> & Hp); [by rewrite Hl, Permutation_middle|]. exists (l1 ++ l2). split; [apply ws_guard_drop|done].
Qed.

(** What a turn keeps. *)
Definition same_frame (w w' : TcpWorld) : Prop :=
  tw_context w' = tw_context w /\ tw_tasks w' = tw_tasks w /\ tw_leases w' = tw_leases w /\ tw_others w' = tw_others w.

Lemma connect_frame conn i w : same_frame w (connect_server conn i w).2 /\ tw_groups (connect_server conn i w).2 = tw_groups w
  /\ tw_connections (connect_server conn i w).2 = tw_connections w.
Proof.
  unfold connect_server. destruct (in_lookup i); [|by split_and!]. destruct (resolve_addr _ _ _ _ _) as [[a|e] d]; by split_and!.
Qed.

(** The candidates only touch the weights of the round robin. *)
Lemma candidates_weights g o now client : exists c, (candidates fnv_finish f64_ln f64_powf g o now client).2 = set_current_weights c g.
Proof.
  unfold candidates. destruct (List.partition _ _) as [[|x healthy] unhealthy]; [apply order_group|].
  destruct (order_group fnv_finish f64_ln f64_powf g o (x :: healthy) client) as [c Hc]. destruct (order _ _ _ _ _ _ _) as [l g']. by exists c.
Qed.

Lemma candidates_runs gid c i w cs w' ts :
  group_candidates fnv_finish f64_ln f64_powf gid c i w = (cs, w') -> same_frame w w' /\ tw_connections w' = tw_connections w /\ runs (tw_groups w) ts (tw_groups w') ts.
Proof.
  unfold group_candidates. destruct (w_groups (tw_groups w) !! gid) as [g|] eqn:Hg; [|intros [= <- <-]; split_and!; done || apply runs_refl].
  destruct (candidates _ _ _ _ _ _ _) as [l g'] eqn:Ec. intros [= <- <-]. split_and!; [done..|].
  destruct (candidates_weights g (mkObservation (w_conns (tw_groups w)) (w_metrics (tw_groups w)) (in_draws i)) (in_now i) c) as [ws Hw].
  rewrite Ec in Hw. cbn in Hw. subst g'. cbn [tw_groups set_groups].
  assert (E : on_group gid (fun _ => set_current_weights ws g) (tw_groups w) = on_group gid (set_current_weights ws) (tw_groups w)).
  { unfold on_group. f_equal. unfold vec_update. apply list_eq. intros j. destruct (decide (j = gid)) as [->|Hne].
    - by rewrite !list_lookup_alter_eq, Hg.
    - by rewrite !list_lookup_alter_ne. }
  rewrite E. apply runs_same. intros l'. apply ws_order.
Qed.

Definition next_tokens (k : option TcpTask) : list Token := match k with Some k => task_tokens k | None => [] end.
Definition next_id (k : option TcpTask) : list ShortId := match k with Some k => task_id k | None => [] end.

(** One turn follows the permits, and keeps the count of its tries. *)
Lemma tcp_turn_runs k i w next w' rest :
  turn k i w = (next, w') -> runs (tw_groups w) (task_tokens k ++ rest) (tw_groups w') (next_tokens next ++ rest) /\ same_frame w w'.
Proof.
  unfold turn, Tcp.turn, task_tokens. destruct (k_phase k) as [| | |cs n|p cs n|guard id target] eqn:Hp.
  - destruct (accept _ _ _ _); intros [= <- <-]; (split; [apply runs_refl|by split_and!]).
  - destruct (k_tls k) as [tls|]; [destruct (PortTls_accept _ _ _ _) as [[[]|] ?]|]; intros [= <- <-]; (split; [apply runs_refl|by split_and!]).
  - destruct (group_candidates _ _ _ _ _ _ _) as [cs w1] eqn:Ec. intros [= <- <-]. destruct (candidates_runs _ _ _ _ _ _ rest Ec) as (H1 & _ & H2). done.
  - destruct cs as [|index cs]; [intros H; destruct n; injection H as <- <-; (split; [apply runs_refl|by split_and!])|].
    destruct n as [|n]; [intros [= <- <-]; (split; [apply runs_refl|by split_and!])|].
    destruct (acquire _ _ _ _) as [[p|] g] eqn:Ea; intros [= <- <-]; (split; [|by split_and!]); cbn [tw_groups set_groups next_tokens app].
    + apply runs_add. intros l. by eapply ws_acquire.
    + apply runs_same. intros l. by eapply ws_refused.
  - destruct (tu_servers (k_upstream k) !! p_index p) as [conn|].
    + destruct (connect_frame conn i w) as ((F1 & F2 & F3 & F4) & Fg & Fc). destruct (connect_server conn i w) as [[target|e] w1]; cbn [snd] in *.
      * destruct (permit_success_keep _ _ _) as [guard g] eqn:Ek. intros [= <- <-]. rewrite Fg in Ek. split; [|by split_and!].
        cbn [tw_groups set_groups set_connections next_tokens]. apply (runs_swap _ _ (TPermit p) (TGuard guard)). intros l1 l2. by eapply ws_keep.
      * intros [= <- <-]. split; [|by split_and!]. cbn [tw_groups set_groups]. rewrite Fg. apply tcp_runs_end. intros. apply ws_failure.
    + intros [= <- <-]. split; [|by split_and!]. cbn [tw_groups set_groups]. apply tcp_runs_end. intros. apply ws_abandon.
  - intros [= <- <-]. split; [|by split_and!]. cbn [tw_groups set_groups set_connections next_tokens app].
    eapply runs_trans; [|apply tcp_runs_end; intros; apply ws_guard_drop].
    destruct (in_copied i) as [[rx tx]|]; [apply runs_same; intros; apply ws_bytes|apply runs_refl].
Qed.

Lemma turn_tries k i w next w' : turn k i w = (next, w') -> tries_ok k -> match next with Some k' => tries_ok k' | None => True end.
Proof.
  unfold turn, Tcp.turn, tries_ok. destruct (k_phase k) as [| | |cs n|p cs n|guard id target] eqn:Hp.
  - destruct (accept _ _ _ _); by intros [= <- _].
  - destruct (k_tls k) as [tls|]; [destruct (PortTls_accept _ _ _ _) as [[[]|] ?]|]; by intros [= <- _].
  - destruct (group_candidates _ _ _ _ _ _ _) as [cs w1]. intros [= <- _] H. cbn. rewrite H. done.
  - destruct cs as [|index cs]; [intros H; destruct n; by injection H as <- _|]. destruct n as [|n]; [by intros [= <- _]|].
    destruct (acquire _ _ _ _) as [[p|] g]; intros [= <- _] H; cbn; [lia|done].
  - destruct (tu_servers _ !! _); [|intros [= <- _] H; cbn; done].
    destruct (connect_server _ _ _) as [[target|e] w1]; [destruct (permit_success_keep _ _ _)|]; intros [= <- _] H; cbn; [lia|done].
  - by intros [= <- _].
Qed.

(** The identifiers that a turn adds and removes. *)
Lemma turn_ids k i w next w' :
  turn k i w = (next, w') -> tw_connections w !! in_id i = None -> (forall x, x ∈ task_id k -> is_Some (tw_connections w !! x)) ->
  (task_id k = next_id next /\ tw_connections w' = tw_connections w)
  \/ (task_id k = [] /\ next_id next = [in_id i] /\ exists e, tw_connections w' = <[in_id i := e]> (tw_connections w))
  \/ (exists id, task_id k = [id] /\ next_id next = [] /\ tw_connections w' = delete id (tw_connections w)).
Proof.
  unfold turn, Tcp.turn, task_id. destruct (k_phase k) as [| | |cs n|p cs n|guard id target] eqn:Hp; intros H Hf Hk.
  - left. destruct (accept _ _ _ _); by injection H as <- <-.
  - left. destruct (k_tls k) as [tls|]; [destruct (PortTls_accept _ _ _ _) as [[[]|] ?]|]; by injection H as <- <-.
  - left. destruct (group_candidates _ _ _ _ _ _ _) as [cs w1] eqn:Ec. injection H as <- <-. destruct (candidates_runs _ _ _ _ _ _ [] Ec) as (_ & E & _). done.
  - left. destruct cs as [|index cs]; [destruct n; by injection H as <- <-|]. destruct n as [|n]; [by injection H as <- <-|].
    destruct (acquire _ _ _ _) as [[p|] g]; by injection H as <- <-.
  - destruct (tu_servers _ !! _) as [conn|]; [|left; by injection H as <- <-].
    destruct (connect_frame conn i w) as (_ & Fg & Fc). destruct (connect_server conn i w) as [[target|e] w1]; cbn [snd] in *.
    + destruct (permit_success_keep _ _ _) as [guard g]. injection H as <- <-. right. left. split_and!; [done|done|].
      unfold register. cbn [set_connections set_groups tw_connections]. rewrite Fc. by eexists.
    + injection H as <- <-. left. done.
  - injection H as <- <-. right. right. by exists id.
Qed.

Record tcp_inv (g0 : World) (ts0 : list Token) (w : TcpWorld) : Prop := {
  ti_runs : runs g0 ts0 (tw_groups w) (tokens w);
  ti_leases : tw_leases w = wrap64 (Z.of_nat (length (tw_tasks w)));
  ti_nodup : NoDup (pipe_ids (tw_tasks w));
  ti_ids id : is_Some (tw_connections w !! id) <-> id ∈ pipe_ids (tw_tasks w);
  ti_tries : Forall tries_ok (tw_tasks w);
}.

Lemma tokens_split l1 k l2 w : tw_tasks w = l1 ++ k :: l2 -> tokens w ≡ₚ task_tokens k ++ (flat_map task_tokens l1 ++ flat_map task_tokens l2 ++ tw_others w).
Proof. intros E. unfold tokens. rewrite E, flat_map_app. cbn [flat_map]. rewrite <-!app_assoc. by rewrite Permutation_app_swap_app. Qed.

Lemma ids_split l1 k l2 : pipe_ids (l1 ++ k :: l2) ≡ₚ task_id k ++ (pipe_ids l1 ++ pipe_ids l2).
Proof. unfold pipe_ids. rewrite flat_map_app. cbn [flat_map]. by rewrite Permutation_app_swap_app. Qed.

(** The tasks after a turn. *)
Definition after (l1 : list TcpTask) (next : option TcpTask) (l2 : list TcpTask) : list TcpTask :=
  match next with Some k => l1 ++ k :: l2 | None => l1 ++ l2 end.

Lemma after_tokens l1 next l2 rest :
  flat_map task_tokens (after l1 next l2) ++ rest ≡ₚ next_tokens next ++ (flat_map task_tokens l1 ++ flat_map task_tokens l2 ++ rest).
Proof.
  destruct next as [k|]; cbn [after next_tokens app]; rewrite flat_map_app; cbn [flat_map]; rewrite <-!app_assoc; [|done].
  by rewrite Permutation_app_swap_app.
Qed.

Lemma after_ids l1 next l2 : pipe_ids (after l1 next l2) ≡ₚ next_id next ++ (pipe_ids l1 ++ pipe_ids l2).
Proof. destruct next as [k|]; cbn [after next_id app]; [apply ids_split|]. unfold pipe_ids. by rewrite flat_map_app. Qed.

(** The connections after a turn are those of the tasks. *)
Lemma ids_turn l1 k l2 i w next w' :
  turn k i w = (next, w') -> tw_connections w !! in_id i = None ->
  NoDup (pipe_ids (l1 ++ k :: l2)) -> (forall id, is_Some (tw_connections w !! id) <-> id ∈ pipe_ids (l1 ++ k :: l2)) ->
  NoDup (pipe_ids (after l1 next l2)) /\ forall id, is_Some (tw_connections w' !! id) <-> id ∈ pipe_ids (after l1 next l2).
Proof.
  intros Ht Hf Hn Hi. setoid_rewrite (after_ids l1 next l2). rewrite (ids_split l1 k l2) in Hn. setoid_rewrite (ids_split l1 k l2) in Hi.
  set (rest := pipe_ids l1 ++ pipe_ids l2) in *.
  destruct (turn_ids k i w next w' Ht Hf) as [[E1 E2]|[(E1 & E2 & e & E3)|(id0 & E1 & E2 & E3)]].
  - intros x Hx. apply Hi, elem_of_app. by left.
  - by rewrite <-E1, E2.
  - rewrite E1 in Hn, Hi. rewrite E2, E3. cbn [app] in *. split.
    + apply NoDup_cons. split; [|done]. intros H. apply Hi in H as [y Hy]. by rewrite Hf in Hy.
    + intros id. rewrite elem_of_cons. destruct (decide (in_id i = id)) as [<-|Hne].
      * rewrite lookup_insert_eq. split; [by left|by eexists].
      * rewrite lookup_insert_ne by done. rewrite Hi. split; [by right|]. by intros [E|H]; [destruct Hne|].
  - rewrite E1 in Hn, Hi. rewrite E2, E3. cbn [app] in *. apply NoDup_cons in Hn as [Hnot Hn]. split; [done|].
    intros id. destruct (decide (id0 = id)) as [<-|Hne].
    + rewrite lookup_delete_eq. split; [by intros []|done].
    + rewrite lookup_delete_ne by done. rewrite Hi, elem_of_cons. split; [|by right]. by intros [E|H]; [destruct Hne|].
Qed.

Lemma resume_inv g0 ts0 l1 k l2 i w :
  tw_tasks w = l1 ++ k :: l2 -> tw_connections w !! in_id i = None -> tcp_inv g0 ts0 w -> tcp_inv g0 ts0 (resume l1 k l2 i w).
Proof.
  intros E Hf [Hr Hl Hn Hi Ht]. unfold resume, Tcp.resume. destruct (turn k i w) as [next w'] eqn:Et.
  destruct (tcp_turn_runs k i w next w' (flat_map task_tokens l1 ++ flat_map task_tokens l2 ++ tw_others w) Et) as [Hruns (F1 & F2 & F3 & F4)].
  rewrite E in Hn, Ht. destruct (ids_turn l1 k l2 i w next w' Et Hf Hn) as [Hn' Hi']; [by rewrite <-E|].
  apply Forall_app in Ht as [Ht1 Ht2]. apply Forall_cons in Ht2 as [Htk Ht2]. pose proof (turn_tries k i w next w' Et Htk) as Hnext.
  assert (Hrun : runs g0 ts0 (tw_groups w') (flat_map task_tokens (after l1 next l2) ++ tw_others w')).
  { eapply runs_trans; [exact Hr|]. eapply runs_perm; [symmetry; by apply tokens_split| |exact Hruns]. rewrite F4. symmetry. apply after_tokens. }
  assert (Hall : Forall tries_ok (after l1 next l2)) by (destruct next; apply Forall_app; (split; [done|]); [by constructor|done]).
  destruct next as [k'|]; (split; [exact Hrun| |exact Hn'|exact Hi'|exact Hall]); cbn [tw_leases tw_tasks set_tasks]; rewrite F3, Hl, E, !length_app; cbn [length].
  - f_equal.
  - unfold wrap64. rewrite Zminus_mod_idemp_l. f_equal. lia.
Qed.

Lemma start_inv g0 ts0 peer local challenge s w : tcp_inv g0 ts0 w -> tcp_inv g0 ts0 (start peer local challenge s w).
Proof.
  intros Hi. unfold start. destruct (ts_upstream s) as [u|]; [|done]. destruct (port_tls _ _) as [tls|]; [|done].
  destruct Hi as [Hr Hl Hn Hi Ht]. set (k := mkTcpTask _ _ _ _ _ _ _ _).
  assert (E1 : pipe_ids (tw_tasks w ++ [k]) = pipe_ids (tw_tasks w)) by (unfold pipe_ids; rewrite flat_map_app; cbn; by rewrite app_nil_r).
  assert (E2 : flat_map task_tokens (tw_tasks w ++ [k]) = flat_map task_tokens (tw_tasks w)) by (rewrite flat_map_app; cbn; by rewrite app_nil_r).
  split; cbn [tw_groups tw_leases tw_tasks tw_connections set_tasks]; rewrite ?E1; [|  |done|done|].
  - unfold tokens. cbn [tw_tasks tw_others set_tasks]. rewrite E2. exact Hr.
  - rewrite Hl, length_app. unfold wrap64. rewrite Zplus_mod_idemp_l. f_equal. cbn. lia.
  - apply Forall_app. split; [done|]. by constructor.
Qed.

(** A reload asks the registry for groups. *)
Lemma setup_runs alive l proxies entries g c r entries' g' ts :
  tcp_setup alive l proxies entries g c = (r, entries', g') -> runs g ts g' ts.
Proof.
  unfold tcp_setup. destruct (choose_upstream alive l proxies None entries g) as [[u e1] g1] eqn:Ec.
  enough (H : runs g ts g1 ts).
  { destruct u as [u|]; [destruct (setup_termination _ _ _)|]; by intros [= _ _ <-]. }
  revert Ec. generalize (@None TcpUpstream). revert entries g. induction proxies as [|[id [p|]] proxies IH]; intros entries g u0; cbn [choose_upstream].
  - intros [= _ _ <-]. apply runs_refl.
  - destruct (proxy_connections l p) as [servers|]; [|intros [= _ _ <-]; apply runs_refl]. destruct (_ || _); [apply IH|].
    unfold TcpUpstream_new. destruct (registry_group _ _ _ _ _ _ _ _ _) as [[[gid created] w1] e2] eqn:Er. intros H.
    eapply runs_trans; [|by apply (IH _ _ _ H)]. apply runs_same. intros l'. by eapply ws_reload.
  - apply IH.
Qed.

Lemma tcp_step_inv g0 ts0 w w' : tcp_step w w' -> tcp_inv g0 ts0 w -> tcp_inv g0 ts0 w'.
Proof.
  intros Hs Hi. destruct Hs as [peer local challenge w|l1 k l2 i w E Hf|alive l proxies entries r entries' g w Es|new w|now state w|id w|g ts ts' others w H1 H2 H3].
  - by apply start_inv.
  - by apply resume_inv.
  - pose proof (setup_runs _ _ _ _ _ _ _ _ _ (tokens w) Es) as Hr. destruct Hi as [H1 H2 H3 H4 H5]. split; try done. by eapply runs_trans.
  - destruct Hi as [H1 H2 H3 H4 H5]. by split.
  - destruct Hi as [H1 H2 H3 H4 H5]. by split.
  - destruct Hi as [H1 H2 H3 H4 H5]. split; try done. intros x. cbn [tw_connections tw_tasks set_connections]. rewrite <-H4. unfold terminate.
    destruct (tw_connections w !! id) as [e|] eqn:Ei; [|done]. cbn [snd]. destruct (decide (id = x)) as [<-|Hne].
    + rewrite lookup_insert_eq, Ei. by split; eexists.
    + by rewrite lookup_insert_ne.
  - destruct Hi as [I1 I2 I3 I4 I5]. split; try done. eapply runs_trans; [exact I1|]. intros l Hl.
    destruct (step_perm _ _ _ _ H2 l) as (l' & Hl' & Hp); [by rewrite H1|]. exists l'. split; [by apply rtc_once|]. by rewrite Hp, H3.
Qed.

(** C39: However the connections of a port, reloads, new configurations, terminations and other
    users of the same servers interleave, the permits and guards of the connections follow the
    steps of the permits, so that with [Permits] the counters of the servers stay exact; each
    connection has one lease; the list of open connections holds exactly those that are copied;
    and a connection asks at most two servers. *)
Theorem tcp_connections_exact (w0 w : TcpWorld) :
  tw_tasks w0 = [] -> tw_connections w0 = ∅ -> tw_leases w0 = 0 -> rtc tcp_step w0 w ->
  (exists ts, rtc world_step (tw_groups w0, tw_others w0) (tw_groups w, ts) /\ ts ≡ₚ flat_map task_tokens (tw_tasks w) ++ tw_others w)
  /\ tw_leases w = wrap64 (Z.of_nat (length (tw_tasks w)))
  /\ NoDup (pipe_ids (tw_tasks w)) /\ (forall id, is_Some (tw_connections w !! id) <-> id ∈ pipe_ids (tw_tasks w))
  /\ Forall (fun k => (length (k_tried k) <= 2)%nat) (tw_tasks w).
Proof.
  intros E1 E2 E3 Hr. assert (Hi : tcp_inv (tw_groups w0) (tw_others w0) w).
  { assert (H0 : tcp_inv (tw_groups w0) (tw_others w0) w0).
    { split; rewrite ?E1, ?E2, ?E3; [|done|constructor| |constructor].
      - unfold tokens. rewrite E1. apply runs_refl.
      - intros id. rewrite lookup_empty. split; [by intros []|by intros ?%elem_of_nil]. }
    revert H0. generalize (tw_groups w0) (tw_others w0). clear E1 E2 E3. intros g ts H0.
    induction Hr as [w|w1 w2 w3 Hs _ IH]; [done|]. by apply IH, (tcp_step_inv g ts w1). }
  destruct Hi as [Hruns Hl Hn Hi Ht]. split_and!; [|done|done|done|].
  - destruct (Hruns (tw_others w0)) as (ts & R & P); [done|]. by exists ts.
  - eapply Forall_impl; [exact Ht|apply tries_bound].
Qed.
End Invariant.

(** ** TLS *)

Section TlsFacts.
Context `{TLS : TlsOps} `{VERIFY : !VerifierOps} `{NAMES : DnsNames} `{NETS : IpNets} `{PPP : Ppp}.

(** A port whose client authentication cannot be set up shows the error and starts no
    connection; a port with TLS that was set up gives each connection the verifier and the
    certificates of the moment; a port without TLS stays without. *)
Theorem tls_fails_closed (alive : nat -> bool) (l : CertList) (proxies : list (ShortId * option TcpProxy)) (entries : gmap GroupKey nat)
    (w : TcpWorld) (c c' : TcpPortContext) (entries' : gmap GroupKey nat) (g : World) (peer local : SocketAddr) (challenge : option ChallengeCerts) :
  tcp_setup alive l proxies entries (tw_groups w) c = (Ok c', entries', g) ->
  match tx_tls_termination c with
  | None => tx_tls_termination c' = None /\ forall k, k ∈ tw_tasks (start peer local challenge (tcp_starter c') w) -> k ∈ tw_tasks w \/ k_tls k = None
  | Some t =>
      match client_verifier t l with
      | Err _ => tls_state (tx_status c') = Some TlsInvalid /\ start peer local challenge (tcp_starter c') w = w
      | Ok v =>
          tls_state (tx_status c') = Some TlsActive
          /\ forall k, k ∈ tw_tasks (start peer local challenge (tcp_starter c') w) ->
             k ∈ tw_tasks w
             \/ exists a, k_tls k = Some (mkPortTls a challenge) /\ ta_verifier a = v /\ ta_resolver a = server_cert_resolver l (tt_server_names t)
      end
  end.
Proof.
  unfold tcp_setup. destruct (choose_upstream _ _ _ _ _ _) as [[[u|e] e1] g1]; [|done]. unfold setup_termination, start, tcp_starter.
  assert (Hadd : forall k tls, k ∈ tw_tasks (match u with Some u => set_tasks (wrap64 (tw_leases w + 1)) (tw_tasks w ++ [mkTcpTask peer local peer u tls (tx_proxy_protocol c) [] CAccept]) w | None => w end) -> k ∈ tw_tasks w \/ k_tls k = tls).
  { intros k tls. destruct u as [u|]; [|by left]. cbn. rewrite elem_of_app, list_elem_of_singleton. intros [Hk|Hk]; [by left|right; by rewrite Hk]. }
  destruct (tx_tls_termination c) as [t|].
  - unfold tls_setup. destruct (client_verifier t l) as [v|err]; intros [= <- <- <-]; cbn; (split; [done|]).
    + intros k Hk. destruct (Hadd k _ Hk) as [|E]; [by left|right]. rewrite E. by eexists.
    + by destruct u.
  - intros [= <- <- <-]. cbn. split; [done|]. intros k Hk. exact (Hadd k None Hk).
Qed.

(** While a challenge is active, its certificates are shown exactly to the clients that offer only
    [acme-tls/1], and such a connection carries no data. *)
Lemma challenge_only_for_acme t h ok now :
  PortTls_accept t (Some h) ok now =
    match pt_challenge t with
    | Some certs =>
        if bool_decide (hello_alpn h = Some [ACME_TLS_ALPN]) then (if ok then Ok ChallengeServed else Err tt, challenge_resolve h certs)
        else (if ok then Ok Established else Err tt, (resolve_cert (hello_sni h) now (ta_resolver (pt_acceptor t))).1)
    | None => (if ok then Ok Established else Err tt, (resolve_cert (hello_sni h) now (ta_resolver (pt_acceptor t))).1)
    end.
Proof.
  unfold PortTls_accept. destruct (pt_challenge t) as [certs|]; [|done].
  assert (E : offers_only_acme_tls h = bool_decide (hello_alpn h = Some [ACME_TLS_ALPN])); [|by rewrite E].
  unfold offers_only_acme_tls. destruct (hello_alpn h) as [[|p [|q l]]|]; cbn; try (rewrite bool_decide_false; [done|congruence]).
  destruct (String.eqb_spec p ACME_TLS_ALPN) as [->|Hne]; [by rewrite bool_decide_true|]. rewrite bool_decide_false; [done|]. congruence.
Qed.
End TlsFacts.

(** ** Runs *)

Module TcpExample.
#[local] Existing Instance host_nets.
#[local] Existing Instance plain_ppp.
#[local] Instance plain_names : DnsNames := {| dns_name_valid _ := true; dns_name_eqb := String.eqb |}.

(** A chain is its text, and every key works. *)
#[local] Instance text_tls : TlsOps := {|
  Der := string; PrivateKey := unit; CertifiedKey := string;
  certificates s := Some [s]; certified_impl chain _ := Some chain; private_key_der _ := Some tt; trust_anchor _ := true; client_auth_ok _ _ := true
|}.
#[local] Instance text_verifier : VerifierOps := {| verifier_builds roots := negb (vec_is_empty roots); challenge_cert c := Some (ch_domain c) |}.

#[local] Abbreviation tcp_step := (tcp_step (fun _ => 0) (fun x => x) (fun x _ => x)).

(** [n] turns of the task at [k]. *)
Definition go (k n : nat) (i : TurnInput) (w : TcpWorld) : TcpWorld :=
  Nat.iter n (fun w => match tw_tasks w !! k with
                       | Some t => resume (fun _ => 0) (fun x => x) (fun x _ => x) (take k (tw_tasks w)) t (drop (S k) (tw_tasks w)) i w
                       | None => w
                       end) w.

Definition server (ip : string) : UpstreamServer :=
  mkUpstreamServer (match Multiaddr_from_str (String.append "/ip4/" (String.append ip "/tcp/5432")) with Ok m => m | Err _ => mkMultiaddr [] end) 1 None [].

Definition two_servers : TcpProxy :=
  mkTcpProxy [server "10.0.0.1"; server "10.0.0.2"] None (from_secs 5) (Some V1) RoundRobin HealthCheck_default CircuitBreaker_default.

Definition no_certs : CertList := mkCertList [] [] [].

Definition fresh : TcpWorld :=
  mkTcpWorld empty_world DnsResolver_new (mkTcpPortContext (V4 0, 5432) None PortStatus_default None None 0) ∅ 0 [] [].

Definition served : TcpWorld :=
  let '(r, _, g) := tcp_setup (fun _ => true) no_certs [([1], Some two_servers)] ∅ (tw_groups fresh) (tw_context fresh) in
  set_context (match r with Ok c => c | Err _ => tw_context fresh end) (set_groups g fresh).

Definition input (id : ShortId) (connected : result unit string) (copied : option (Z * Z)) : TurnInput :=
  mkTurnInput 0 false [] None true 0 [] (Some (LookupErr "unused")) connected id copied.

Definition connection (w : TcpWorld) : TcpWorld := start (V4 1, 40000) (V4 2, 5432) None (tcp_starter (tw_context w)) w.

(** The first server refuses, the second one answers. *)
Definition piped : TcpWorld := go 0 2 (input [7] (Ok tt) None) (go 0 2 (input [7] (Err "refused") None) (go 0 3 (input [7] (Ok tt) None) (connection served))).
Definition ended : TcpWorld := go 0 1 (input [8] (Ok tt) (Some (10, 20))) piped.

Lemma tcp_go_steps k n i w :
  (forall m, (m < n)%nat -> tw_connections (go k m i w) !! in_id i = None) -> rtc tcp_step w (go k n i w).
Proof.
  unfold go. induction n as [|n IH]; intros Hf; [done|]. etrans; [apply IH; intros m Hm; apply Hf; lia|]. cbn [Nat.iter nat_rect].
  specialize (Hf n (Nat.lt_succ_diag_r n)). match goal with |- rtc _ ?x _ => set (w1 := x) in * end. change (nat_rect _ _ _ _) with w1.
  destruct (tw_tasks w1 !! k) as [t|] eqn:E; [|reflexivity].
  apply rtc_once, step_turn; [symmetry; by apply take_drop_middle|exact Hf].
Qed.

Lemma piped_steps : rtc tcp_step fresh piped.
Proof.
  unfold piped. eapply (rtc_l _ _ served).
  { unfold served. pose proof (step_setup (fun _ => 0) (fun x => x) (fun x _ => x) (fun _ => true) no_certs [([1], Some two_servers)] ∅) as H.
    specialize (H (tcp_setup (fun _ => true) no_certs [([1], Some two_servers)] ∅ (tw_groups fresh) (tw_context fresh)).1.1 _ _ fresh (surjective_pairing _)).
    revert H. destruct (tcp_setup _ _ _ _ _ _) as [[r e] g]. done. }
  eapply (rtc_l _ _ (connection served)); [apply step_start|].
  etrans; [apply tcp_go_steps|etrans; [apply tcp_go_steps|apply tcp_go_steps]].
  all: intros m Hm; destruct m as [|[|[|m]]]; try (exfalso; lia); vm_compute; reflexivity.
Qed.

Example piped_to_second :
  map (fun k => (k_tried k, k_phase k)) (tw_tasks piped) = [([1; 0]%nat, CPipe (mkConnGuard (Some 1%nat) (Some 1%nat)) [7] (V4 167772162, 5432))]
  /\ w_conns (tw_groups piped) = [0; 1] /\ tw_leases piped = 1 /\ is_some (tw_connections piped !! [7]) = true
  /\ w_conns (tw_groups ended) = [0; 0] /\ tw_leases ended = 0 /\ tw_tasks ended = [] /\ map_to_list (tw_connections ended) = [].
Proof. vm_compute. repeat split. Qed.

Lemma tcp_connections_exact_witness :
  (exists ts, rtc world_step (empty_world, []) (tw_groups piped, ts) /\ ts ≡ₚ flat_map task_tokens (tw_tasks piped) ++ [])
  /\ tw_leases piped = 1 /\ forall id, is_Some (tw_connections piped !! id) <-> id ∈ [[7]].
Proof.
  destruct (tcp_connections_exact (fun _ => 0) (fun x => x) (fun x _ => x) fresh piped eq_refl eq_refl eq_refl piped_steps) as (H1 & _ & _ & H4 & _).
  split; [exact H1|]. split; [reflexivity|]. exact H4.
Defined.

(** The open connections of a proxy do not list its TCP connections, which are registered without
    their proxy. *)
Lemma proxy_filter_hides_tcp : list_connections (Some [1]) (tw_connections piped) = [] /\ length (list_connections None (tw_connections piped)) = 1%nat.
Proof. vm_compute. split; reflexivity. Qed.

(** The bytes of a connection that ends with an error are not counted. *)
Lemma failed_copy_counts_no_bytes : tw_groups (go 0 1 (input [8] (Ok tt) None) piped) = guard_drop (mkConnGuard (Some 1%nat) (Some 1%nat)) (tw_groups piped).
Proof. vm_compute. reflexivity. Qed.

(** A port that asks for client certificates without a root certificate. *)
Definition closed_port : TcpPortContext :=
  mkTcpPortContext (V4 0, 5432) None PortStatus_default (Some (mkTlsTermination [] None [] false AuthRequired [])) None 0.

Lemma tls_fails_closed_witness :
  exists c' entries g, tcp_setup (fun _ => true) no_certs [([1], Some two_servers)] ∅ empty_world closed_port = (Ok c', entries, g)
  /\ tls_state (tx_status c') = Some TlsInvalid /\ start (V4 1, 40000) (V4 2, 5432) None (tcp_starter c') fresh = fresh.
Proof.
  eexists _, _, _. split; [vm_compute; reflexivity|].
  refine (tls_fails_closed (fun _ => true) no_certs [([1], Some two_servers)] ∅ fresh closed_port _ _ _ (V4 1, 40000) (V4 2, 5432) None _). vm_compute. reflexivity.
Defined.
End TcpExample.
