(* ===== verification/Listeners.v ===== *)
(** * Ports and their listeners

    The list of ports ([server/port_list.rs], [proxy/mod.rs], [api/port.rs]), the pools of listening
    sockets that follow it ([server/tcp.rs], [server/udp.rs], [server/quic.rs]), the calls that change
    a port ([server/rpc/ports.rs], [server/state.rs]) and the first bytes of an accepted connection
    ([server/connection.rs]).  The server loop runs one handler at a time, so each handler is one
    step.  What the kernel answers to a bind and what the storage answers are inputs. *)

From Stdlib Require Import Ascii.
From stdpp Require Import strings.
From S2P Require Import Prelude Basics Net IpText Udp Upstream Breaker Float64 GeoIp Balancer Permits Registry Dns Policy.
From S2P Require Import Quarantine EnvFiles HeaderRules Priorities ProxyList Router Certs ProxyProtocol Tcp.

(** ** Ports *)

Record Http2Limits : Type := mkHttp2Limits { max_header_list_size : Z; max_pending_accept_reset_streams : Z }.

Definition Http2Limits_validate (l : Http2Limits) : result unit Error :=
  if negb ((1024 <=? max_header_list_size l) && (max_header_list_size l <=? 1048576)) then Err (InvalidHttpLimits "max_header_list_size" 1024 1048576)
  else if negb ((1 <=? max_pending_accept_reset_streams l) && (max_pending_accept_reset_streams l <=? 65536))
  then Err (InvalidHttpLimits "max_pending_accept_reset_streams" 1 65536)
  else Ok tt.

Record Http3Limits : Type := mkHttp3Limits { max_concurrent_bidi_streams : Z; max_concurrent_uni_streams : Z }.

Fixpoint check_limits (l : list (string * Z)) : result unit Error :=
  match l with
  | [] => Ok tt
  | (name, value) :: rest => if negb ((1 <=? value) && (value <=? 100000)) then Err (InvalidHttpLimits name 1 100000) else check_limits rest
  end.

Definition Http3Limits_validate (l : Http3Limits) : result unit Error :=
  check_limits [("max_concurrent_bidi_streams", max_concurrent_bidi_streams l); ("max_concurrent_uni_streams", max_concurrent_uni_streams l)].

#[export] Instance Http2Limits_eq_dec : EqDecision Http2Limits. Proof. solve_decision. Defined.
#[export] Instance Http3Limits_eq_dec : EqDecision Http3Limits. Proof. solve_decision. Defined.
#[export] Instance ClientAuthMode_eq_dec : EqDecision ClientAuthMode. Proof. solve_decision. Defined.
#[export] Instance TlsConfig_eq_dec : EqDecision TlsConfig. Proof. solve_decision. Defined.
#[export] Instance MimePriorityRule_eq_dec : EqDecision MimePriorityRule. Proof. solve_decision. Defined.
#[export] Instance StreamPriorityConfig_eq_dec : EqDecision StreamPriorityConfig. Proof. solve_decision. Defined.

Section Ports.
Context `{TLS : TlsOps} `{VERIFY : !VerifierOps} `{NAMES : DnsNames} `{NETS : IpNets} `{NETDEC : !EqDecision IpNet}.

#[export] Instance ProxyProtocolReceive_eq_dec : EqDecision ProxyProtocolReceive. Proof using NETDEC. solve_decision. Defined.

Record PortOptions : Type := mkPortOptions {
  po_tls_termination : option TlsConfig;
  po_proxy_protocol : option ProxyProtocolReceive;
  po_http2_limits : option Http2Limits;
  po_http3_limits : option Http3Limits;
  po_stream_priority : option StreamPriorityConfig;
}.

Record Port : Type := mkPort { po_active : bool; po_name : string; po_listen : Multiaddr; po_opts : PortOptions }.

Record PortEntry : Type := mkPortEntry { pe_id : ShortId; pe_port : Port; pe_status : option PortStatus }.

#[export] Instance PortOptions_eq_dec : EqDecision PortOptions. Proof using NETDEC. solve_decision. Defined.
#[export] Instance Port_eq_dec : EqDecision Port. Proof using NETDEC. solve_decision. Defined.
#[export] Instance PortEntry_eq_dec : EqDecision PortEntry. Proof using NETDEC. solve_decision. Defined.

(** [shared]: the cell of the routes, which the connections of the port read. *)
Record HttpPortContext : Type := mkHttpPortContext {
  hx_listen : SocketAddr;
  hx_status : PortStatus;
  hx_tls_termination : option TlsTermination;
  hx_proxy_protocol : option ProxyProtocolReceive;
  hx_http2_limits : Http2Limits;
  hx_http3_limits : Http3Limits;
  hx_shared : nat;
  hx_stop : nat;
}.

(** The sessions of a UDP port are those of [Udp.v]. *)
Record UdpPortContext : Type := mkUdpPortContext { ux_listen : SocketAddr; ux_status : PortStatus }.

Inductive PortContextKind : Type :=
| KindTcp (c : TcpPortContext)
| KindUdp (c : UdpPortContext)
| KindHttp (c : HttpPortContext)
| KindHttp3 (c : HttpPortContext)
| KindReserved.

Record PortContext : Type := mkPortContext { cx_entry : PortEntry; cx_kind : PortContextKind }.

(** What the creation of a context takes from the server: the defaults of the limits, whether the
    resolver could be configured, and a new cell and notifier. *)
Record NewContext : Type := mkNewContext {
  nc_server_name : string -> bool;
  nc_resolver : result unit string;
  nc_http2 : Http2Limits;
  nc_http3 : Http3Limits;
  nc_shared : nat;
  nc_stop : nat;
}.

Definition HttpPortContext_new (n : NewContext) (e : PortEntry) : result HttpPortContext Error :=
  let o := po_opts (pe_port e) in
  let? addr := socket_addr (po_listen (pe_port e)) in
  let? termination :=
    match po_tls_termination o with
    | Some c => let? t := TlsTermination_new (nc_server_name n) c ["h2"; "http/1.1"] in Ok (Some t)
    | None => if is_tls (po_listen (pe_port e)) then Err TlsTerminationConfigMissing else Ok None
    end in
  Ok (mkHttpPortContext addr PortStatus_default termination (po_proxy_protocol o) (default (nc_http2 n) (po_http2_limits o))
        (default (nc_http3 n) (po_http3_limits o)) (nc_shared n) (nc_stop n)).

Definition UdpPortContext_new (n : NewContext) (e : PortEntry) : result UdpPortContext Error :=
  match nc_resolver n with
  | Err reason => Err (FailedToBuildDnsResolver reason)
  | Ok _ => let? addr := socket_addr (po_listen (pe_port e)) in Ok (mkUdpPortContext addr PortStatus_default)
  end.

Definition PortContext_new (n : NewContext) (e : PortEntry) : result PortContext Error :=
  let listen := po_listen (pe_port e) in
  let o := po_opts (pe_port e) in
  let? _ := match po_proxy_protocol o with Some c => ProxyProtocolReceive_validate c listen | None => Ok tt end in
  let? kind :=
    if is_quic listen then let? c := HttpPortContext_new n e in Ok (KindHttp3 c)
    else if is_udp listen then let? c := UdpPortContext_new n e in Ok (KindUdp c)
    else if is_http listen then let? c := HttpPortContext_new n e in Ok (KindHttp c)
    else let? c := TcpPortContext_new (nc_server_name n) (nc_resolver n) (nc_stop n) listen (po_tls_termination o) (po_proxy_protocol o) in Ok (KindTcp c) in
  Ok (mkPortContext e kind).

Definition http_apply (new old : HttpPortContext) : HttpPortContext :=
  mkHttpPortContext (hx_listen new) (hx_status new) (hx_tls_termination new) (hx_proxy_protocol new) (hx_http2_limits new) (hx_http3_limits new)
    (hx_shared new) (hx_stop old).

Definition PortContext_apply (new old : PortContext) : PortContext :=
  mkPortContext (cx_entry new)
    (match cx_kind old, cx_kind new with
     | KindTcp old, KindTcp new => KindTcp (tcp_apply new old)
     | KindHttp old, KindHttp new => KindHttp (http_apply new old)
     | KindHttp3 old, KindHttp3 new => KindHttp3 (http_apply new old)
     | _, new => new
     end).

Definition http_event (now : Z) (state : SocketState) (c : HttpPortContext) : HttpPortContext :=
  mkHttpPortContext (hx_listen c) (socket_event now state (hx_status c)) (hx_tls_termination c) (hx_proxy_protocol c) (hx_http2_limits c)
    (hx_http3_limits c) (hx_shared c) (hx_stop c).

Definition PortContext_event (now : Z) (state : SocketState) (c : PortContext) : PortContext :=
  mkPortContext (cx_entry c)
    (match cx_kind c with
     | KindTcp c => KindTcp (tcp_event now state c)
     | KindUdp c => KindUdp (mkUdpPortContext (ux_listen c) (socket_event now state (ux_status c)))
     | KindHttp c => KindHttp (http_event now state c)
     | KindHttp3 c => KindHttp3 (http_event now state c)
     | KindReserved => KindReserved
     end).

Definition PortContext_status (c : PortContext) : PortStatus :=
  match cx_kind c with
  | KindTcp c => tx_status c
  | KindUdp c => ux_status c
  | KindHttp c | KindHttp3 c => hx_status c
  | KindReserved => PortStatus_default
  end.

Definition ctx_id (c : PortContext) : ShortId := pe_id (cx_entry c).

Definition is_active (c : PortContext) : bool := po_active (pe_port (cx_entry c)).

(** A context that only listens for challenges.  Its address is that of its challenge. *)
Definition reserved_context (a : Multiaddr) : PortContext :=
  mkPortContext (mkPortEntry [114; 101; 115; 101; 114; 118; 101; 100] (mkPort true EmptyString a (mkPortOptions None None None None None)) None) KindReserved.

(** ** The list *)

Definition find_port (i : ShortId) (l : list PortContext) : option PortContext := List.find (fun c => bool_decide (ctx_id c = i)) l.

Fixpoint update_context (ctx : PortContext) (l : list PortContext) : bool * list PortContext :=
  match l with
  | [] => (true, [ctx])
  | c :: rest =>
      if bool_decide (ctx_id c = ctx_id ctx) then
        if bool_decide (cx_entry c = cx_entry ctx) then (false, c :: rest) else (true, PortContext_apply ctx c :: rest)
      else let '(changed, rest) := update_context ctx rest in (changed, c :: rest)
  end.

Fixpoint delete_context (i : ShortId) (l : list PortContext) : bool * list PortContext :=
  match l with
  | [] => (false, [])
  | c :: rest =>
      if bool_decide (ctx_id c = i) then (true, rest) else let '(deleted, rest) := delete_context i rest in (deleted, c :: rest)
  end.

(** ** Listening sockets *)

(** A descriptor with its local address. *)
Record Socket : Type := mkSocket { sk_fd : nat; sk_local : option SocketAddr }.

(** [ln_index]: the index of its port, or one behind the ports for a challenge. *)
Record Listener : Type := mkListener { ln_index : nat; ln_socket : Socket }.

Inductive IoErrorKind : Type := AddrInUse | NoPermission | AddrNotAvailable | OtherIo.

Definition socket_state_of (e : IoErrorKind) : SocketState :=
  match e with
  | AddrInUse => AddressAlreadyInUse
  | NoPermission => PermissionDenied
  | AddrNotAvailable => AddressNotAvailable
  | OtherIo => SocketError
  end.

Definition tcp_addr (c : PortContext) : option SocketAddr :=
  match cx_kind c with KindTcp c => Some (tx_listen c) | KindHttp c => Some (hx_listen c) | _ => None end.

Definition udp_addr (c : PortContext) : option SocketAddr := match cx_kind c with KindUdp c => Some (ux_listen c) | _ => None end.

Definition quic_addr (c : PortContext) : option SocketAddr := match cx_kind c with KindHttp3 c => Some (hx_listen c) | _ => None end.

(** What the kernel answers when the listener of the given index is opened. *)
Definition Bind : Type := nat -> SocketAddr -> result Socket IoErrorKind.

(** The sockets that are kept, by their address; of several with one address the last one. *)
Definition kept_sockets (used : list SocketAddr) (ls : list Listener) : gmap SocketAddr Socket :=
  fold_left (fun m l => match sk_local (ln_socket l) with
                        | Some a => if bool_decide (a ∈ used) then <[a := ln_socket l]> m else m
                        | None => m
                        end) ls ∅.

(** The socket of one context, with the rest of the kept sockets. *)
Definition open_one (bind : Bind) (i : nat) (a : SocketAddr) (active : bool) (old : gmap SocketAddr Socket)
  : option Socket * SocketState * gmap SocketAddr Socket :=
  if negb active then (None, Inactive, old)
  else match old !! a with
       | Some sk => (Some sk, Listening, delete a old)
       | None => match bind i a with Ok sk => (Some sk, Listening, old) | Err e => (None, socket_state_of e, old) end
       end.

(** The loop of the pools: each context with its address, from the index [i] on. *)
Fixpoint open_all (bind : Bind) (now : Z) (i : nat) (items : list (option SocketAddr * PortContext)) (old : gmap SocketAddr Socket)
  : list Listener * list PortContext :=
  match items with
  | [] => ([], [])
  | (None, c) :: rest => let '(ls, cs) := open_all bind now (S i) rest old in (ls, c :: cs)
  | (Some a, c) :: rest =>
      let '(sk, state, old) := open_one bind i a (is_active c) old in
      let '(ls, cs) := open_all bind now (S i) rest old in
      (match sk with Some sk => mkListener i sk :: ls | None => ls end, PortContext_event now state c :: cs)
  end.

Definition used_addrs (items : list (option SocketAddr * PortContext)) : list SocketAddr := omap fst items.

Definition update_pool (bind : Bind) (now : Z) (items : list (option SocketAddr * PortContext)) (ls : list Listener) : list Listener * list PortContext :=
  open_all bind now 0 items (kept_sockets (used_addrs items) ls).

(** A challenge has a listener of its own when no port uses its port. *)
Definition reserved_addrs (challenges : list SocketAddr) (ports : list PortContext) : list SocketAddr :=
  List.filter (fun a => negb (existsb (fun c => is_some_and (fun l => l.2 =? a.2) (tcp_addr c)) ports)) challenges.

Definition with_addr (addr : PortContext -> option SocketAddr) (ports : list PortContext) : list (option SocketAddr * PortContext) :=
  map (fun c => (addr c, c)) ports.

Definition tcp_update (bind : Bind) (now : Z) (challenges : list SocketAddr) (ports : list PortContext) (ls : list Listener)
  : list Listener * list PortContext :=
  let reserved := map (fun a => (Some a, reserved_context (mkMultiaddr []))) (reserved_addrs challenges ports) in
  let '(ls, cs) := update_pool bind now (with_addr tcp_addr ports ++ reserved) ls in
  (ls, take (length ports) cs).

Definition udp_update (bind : Bind) (now : Z) (ports : list PortContext) (ls : list Listener) : list Listener * list PortContext :=
  update_pool bind now (with_addr udp_addr ports) ls.

Definition quic_update (bind : Bind) (now : Z) (ports : list PortContext) (ls : list Listener) : list Listener * list PortContext :=
  update_pool bind now (with_addr quic_addr ports) ls.

Definition remove_unused_ports (addr : PortContext -> option SocketAddr) (ports : list PortContext) (ls : list Listener) : list Listener :=
  List.filter (fun l => is_some_and (fun a => bool_decide (a ∈ omap addr ports)) (sk_local (ln_socket l))) ls.

(** ** The server *)

(** A proxy as the ports see it. *)
Record BoundProxy : Type := mkBoundProxy { bp_id : ShortId; bp_active : bool; bp_ports : list ShortId; bp_tcp : option TcpProxy }.

(** What the router of a port is built from. *)
Record Routes : Type := mkRoutes { rt_proxies : list ShortId; rt_https_port : option Z; rt_quic_port : option Z }.

Definition Routes_default : Routes := mkRoutes [] None None.

(** [pw_shared]: the cells of the routes; [pw_stops]: how many notifiers there are. *)
Record PortWorld : Type := mkPortWorld {
  pw_ports : list PortContext;
  pw_tcp : list Listener;
  pw_udp : list Listener;
  pw_quic : list Listener;
  pw_challenges : list SocketAddr;
  pw_stored : list PortEntry;
  pw_shared : list Routes;
  pw_stops : nat;
  pw_groups : World;
  pw_registry : gmap GroupKey nat;
}.

Definition set_ports (l : list PortContext) (w : PortWorld) : PortWorld :=
  mkPortWorld l (pw_tcp w) (pw_udp w) (pw_quic w) (pw_challenges w) (pw_stored w) (pw_shared w) (pw_stops w) (pw_groups w) (pw_registry w).
Definition set_tcp (r : list Listener * list PortContext) (w : PortWorld) : PortWorld :=
  mkPortWorld r.2 r.1 (pw_udp w) (pw_quic w) (pw_challenges w) (pw_stored w) (pw_shared w) (pw_stops w) (pw_groups w) (pw_registry w).
Definition set_udp (r : list Listener * list PortContext) (w : PortWorld) : PortWorld :=
  mkPortWorld r.2 (pw_tcp w) r.1 (pw_quic w) (pw_challenges w) (pw_stored w) (pw_shared w) (pw_stops w) (pw_groups w) (pw_registry w).
Definition set_quic (r : list Listener * list PortContext) (w : PortWorld) : PortWorld :=
  mkPortWorld r.2 (pw_tcp w) (pw_udp w) r.1 (pw_challenges w) (pw_stored w) (pw_shared w) (pw_stops w) (pw_groups w) (pw_registry w).
Definition set_challenge_addrs (l : list SocketAddr) (w : PortWorld) : PortWorld :=
  mkPortWorld (pw_ports w) (pw_tcp w) (pw_udp w) (pw_quic w) l (pw_stored w) (pw_shared w) (pw_stops w) (pw_groups w) (pw_registry w).
Definition set_stored (l : list PortEntry) (w : PortWorld) : PortWorld :=
  mkPortWorld (pw_ports w) (pw_tcp w) (pw_udp w) (pw_quic w) (pw_challenges w) l (pw_shared w) (pw_stops w) (pw_groups w) (pw_registry w).
Definition set_shared (l : list Routes) (stops : nat) (w : PortWorld) : PortWorld :=
  mkPortWorld (pw_ports w) (pw_tcp w) (pw_udp w) (pw_quic w) (pw_challenges w) (pw_stored w) l stops (pw_groups w) (pw_registry w).
Definition set_group_state (g : World) (r : gmap GroupKey nat) (w : PortWorld) : PortWorld :=
  mkPortWorld (pw_ports w) (pw_tcp w) (pw_udp w) (pw_quic w) (pw_challenges w) (pw_stored w) (pw_shared w) (pw_stops w) g r.

(** What the outside gives to a handler: the time, the answers of the kernel to the binds, those of
    the storage, the configuration, and the proxies with the certificates. *)
Record PortInput : Type := mkPortInput {
  in_time : Z;
  in_bind_tcp : Bind;
  in_bind_udp : Bind;
  in_bind_quic : Bind;
  in_saved : result unit Error;
  in_proxies_saved : result unit Error;
  in_server_name : string -> bool;
  in_resolver : result unit string;
  in_http2 : Http2Limits;
  in_http3 : Http3Limits;
  in_certs : CertList;
  in_clients : result unit Error;
  in_alive : nat -> bool;
  in_proxies : list BoundProxy;
}.

(** [sync_port_pools]. *)
Definition sync_port_pools (i : PortInput) (w : PortWorld) : PortWorld :=
  let tcp := remove_unused_ports tcp_addr (pw_ports w) (pw_tcp w) in
  let udp := remove_unused_ports udp_addr (pw_ports w) (pw_udp w) in
  let quic := remove_unused_ports quic_addr (pw_ports w) (pw_quic w) in
  let w := set_tcp (tcp_update (in_bind_tcp i) (in_time i) (pw_challenges w) (pw_ports w) tcp) w in
  let w := set_udp (udp_update (in_bind_udp i) (in_time i) (pw_ports w) udp) w in
  set_quic (quic_update (in_bind_quic i) (in_time i) (pw_ports w) quic) w.

(** *** The routes *)

(** The port of the given kind that the proxies share, of the family of the address if there is
    one. *)
Definition shared_port (fits : Multiaddr -> bool) (listen : SocketAddr) (entries : list PortEntry) (proxies : list BoundProxy) : option Z :=
  let candidates := List.filter (fun e => fits (po_listen (pe_port e)) && existsb (fun p => bool_decide (pe_id e ∈ bp_ports p)) proxies) entries in
  let family e := match ip_addr (po_listen (pe_port e)) with Ok ip => Bool.eqb (is_ipv4 ip) (is_ipv4 listen.1) | Err _ => false end in
  let chosen := match List.find family candidates with Some e => Some e | None => head candidates end in
  e ← chosen; match port (po_listen (pe_port e)) with Ok p => Some p | Err _ => None end.

Definition http_setup (l : CertList) (clients : result unit Error) (entries : list PortEntry) (proxies : list BoundProxy) (shared : list Routes) (c : HttpPortContext)
  : result HttpPortContext Error * list Routes :=
  let https := shared_port (fun m => is_http m && is_tls m) (hx_listen c) entries proxies in
  let quic := shared_port (fun m => is_http m && is_udp m) (hx_listen c) entries proxies in
  match clients with
  | Err e => (Err e, shared)
  | Ok _ =>
      let shared := vec_update (fun _ => mkRoutes (map bp_id proxies) https quic) (hx_shared c) shared in
      let '(t, s) := setup_termination l (hx_tls_termination c) (hx_status c) in
      (Ok (mkHttpPortContext (hx_listen c) s t (hx_proxy_protocol c) (hx_http2_limits c) (hx_http3_limits c) (hx_shared c) (hx_stop c)), shared)
  end.

Definition setup_context (i : PortInput) (entries : list PortEntry) (c : PortContext) (w : PortWorld) : PortContext * PortWorld :=
  let proxies := List.filter (fun p => bp_active p && bool_decide (ctx_id c ∈ bp_ports p)) (in_proxies i) in
  match cx_kind c with
  | KindTcp t =>
      let '(r, registry, g) := tcp_setup (in_alive i) (in_certs i) (map (fun p => (bp_id p, bp_tcp p)) proxies) (pw_registry w) (pw_groups w) t in
      (mkPortContext (cx_entry c) (match r with Ok t => KindTcp t | Err _ => cx_kind c end), set_group_state g registry w)
  | KindHttp h =>
      let '(r, shared) := http_setup (in_certs i) (in_clients i) entries proxies (pw_shared w) h in
      (mkPortContext (cx_entry c) (match r with Ok h => KindHttp h | Err _ => cx_kind c end), set_shared shared (pw_stops w) w)
  | KindHttp3 h =>
      let '(r, shared) := http_setup (in_certs i) (in_clients i) entries proxies (pw_shared w) h in
      (mkPortContext (cx_entry c) (match r with Ok h => KindHttp3 h | Err _ => cx_kind c end), set_shared shared (pw_stops w) w)
  | KindUdp _ | KindReserved => (c, w)
  end.

Fixpoint setup_all (i : PortInput) (entries : list PortEntry) (l : list PortContext) (w : PortWorld) : list PortContext * PortWorld :=
  match l with
  | [] => ([], w)
  | c :: rest =>
      let '(c, w) := setup_context i entries c w in
      let '(rest, w) := setup_all i entries rest w in
      (c :: rest, w)
  end.

Definition reload_proxies (i : PortInput) (w : PortWorld) : PortWorld :=
  let '(l, w) := setup_all i (map cx_entry (pw_ports w)) (pw_ports w) w in set_ports l w.

(** *** The calls *)

(** A context with a new cell for its routes and a new notifier. *)
Definition create_context (i : PortInput) (e : PortEntry) (w : PortWorld) : result PortContext Error * PortWorld :=
  (PortContext_new (mkNewContext (in_server_name i) (in_resolver i) (in_http2 i) (in_http3 i) (length (pw_shared w)) (pw_stops w)) e,
   set_shared (pw_shared w ++ [Routes_default]) (S (pw_stops w)) w).

(** [update_ports]; the removal of the port from the proxies is [ProxyList.remove_incompatible_ports]. *)
Definition update_ports (i : PortInput) (w : PortWorld) : result unit Error * PortWorld := (in_proxies_saved i, sync_port_pools i w).

Definition update_port (i : PortInput) (c : PortContext) (w : PortWorld) : result unit Error * PortWorld :=
  let '(changed, l) := update_context c (pw_ports w) in
  let w := set_ports l w in
  if changed then let '(saved, w) := update_ports i w in (saved, reload_proxies i w) else (Ok tt, w).

Definition validate_port (i : PortInput) (p : Port) : result unit Error :=
  let? _ := match po_http2_limits (po_opts p) with Some l => Http2Limits_validate l | None => Ok tt end in
  let? _ := match po_http3_limits (po_opts p) with Some l => Http3Limits_validate l | None => Ok tt end in
  match po_tls_termination (po_opts p) with
  | Some t => validate_client_auth (tc_client_auth t) (tc_client_ca_certs t) (in_certs i)
  | None => Ok tt
  end.

Definition save_ports (i : PortInput) (l : list PortEntry) (w : PortWorld) : result unit Error * PortWorld :=
  match in_saved i with Ok _ => (Ok tt, set_stored l w) | Err e => (Err e, w) end.

Fixpoint put_entry (e : PortEntry) (l : list PortEntry) : list PortEntry :=
  match l with
  | [] => [e]
  | x :: rest => if bool_decide (pe_id x = pe_id e) then e :: rest else x :: put_entry e rest
  end.

(** The common end of [AddPort] and [UpdatePort]. *)
Definition save_and_update (i : PortInput) (e : PortEntry) (w : PortWorld) : result unit Error * PortWorld :=
  match validate_port i (pe_port e) with
  | Err err => (Err err, w)
  | Ok _ =>
      match create_context i e w with
      | (Err err, _) => (Err err, w)
      | (Ok c, w1) =>
          match save_ports i (put_entry e (map cx_entry (pw_ports w))) w1 with
          | (Err err, _) => (Err err, w)
          | (Ok _, w2) => update_port i c w2
          end
      end
  end.

Definition AddPort (id : ShortId) (p : Port) (i : PortInput) (w : PortWorld) : result unit Error * PortWorld :=
  if is_some (find_port id (pw_ports w)) then (Err (IdAlreadyExists id), w) else save_and_update i (mkPortEntry id p None) w.

Context `{HEX : Hex}.

Definition UpdatePort (e : PortEntry) (i : PortInput) (w : PortWorld) : result unit Error * PortWorld :=
  if is_some (find_port (pe_id e) (pw_ports w)) then save_and_update i e w else (Err (IdNotFound (ShortId_to_string (pe_id e))), w).

Definition DeletePort (id : ShortId) (i : PortInput) (w : PortWorld) : result unit Error * PortWorld :=
  if negb (is_some (find_port id (pw_ports w))) then (Err (IdNotFound (ShortId_to_string id)), w)
  else
    match save_ports i (List.filter (fun e => negb (bool_decide (pe_id e = id))) (map cx_entry (pw_ports w))) w with
    | (Err e, w) => (Err e, w)
    | (Ok _, w) =>
        let w := set_ports (delete_context id (pw_ports w)).2 w in
        let '(saved, w) := update_ports i w in
        (saved, reload_proxies i w)
    end.

(** [GetPortList]. *)
Definition GetPortList (w : PortWorld) : list PortEntry :=
  map (fun c => mkPortEntry (ctx_id c) (pe_port (cx_entry c)) (Some (PortContext_status c))) (pw_ports w).

(** The contexts of the entries that can be created, one after the other. *)
Fixpoint apply_entries (i : PortInput) (l : list PortEntry) (w : PortWorld) : bool * PortWorld :=
  match l with
  | [] => (false, w)
  | e :: rest =>
      let '(c, w) := create_context i e w in
      let '(changed, w) :=
        match c with
        | Ok c => let '(changed, ports) := update_context c (pw_ports w) in (changed, set_ports ports w)
        | Err _ => (false, w)
        end in
      let '(changed', w) := apply_entries i rest w in
      (changed || changed', w)
  end.

Fixpoint delete_contexts (l : list ShortId) (ports : list PortContext) : list PortContext :=
  match l with [] => ports | x :: rest => delete_contexts rest (delete_context x ports).2 end.

(** [reload_ports], with the entries of the storage. *)
Definition reload_ports (i : PortInput) (stored : list PortEntry) (w : PortWorld) : PortWorld :=
  let w := set_stored stored w in
  let removed := List.filter (fun x => negb (bool_decide (x ∈ map pe_id stored))) (map ctx_id (pw_ports w)) in
  let w := set_ports (delete_contexts removed (pw_ports w)) w in
  let '(changed, w) := apply_entries i stored w in
  if bool_decide (removed <> []) || changed then reload_proxies i (update_ports i w).2 else w.

(** [ServerState::new] with the ports of the storage, and [initialize]. *)
Definition new_server (i : PortInput) (stored : list PortEntry) (tcp udp quic : list Listener) (g : World) : PortWorld :=
  let w := (apply_entries i stored (mkPortWorld [] [] [] [] [] stored [] 0 g ∅)).2 in
  let w := mkPortWorld (pw_ports w) tcp udp quic [] stored (pw_shared w) (pw_stops w) (pw_groups w) (pw_registry w) in
  reload_proxies i (sync_port_pools i w).

(** [set_challenges]. *)
Definition set_challenges (i : PortInput) (addrs : list SocketAddr) (w : PortWorld) : PortWorld :=
  if negb (bool_decide (addrs = [])) || negb (bool_decide (addrs = pw_challenges w)) then
    let w := set_challenge_addrs addrs w in
    set_tcp (tcp_update (in_bind_tcp i) (in_time i) (pw_challenges w) (pw_ports w) (pw_tcp w)) w
  else w.

(** [SuspendListeners]. *)
Definition suspend_listeners (w : PortWorld) : PortWorld :=
  mkPortWorld (pw_ports w) [] [] [] (pw_challenges w) (pw_stored w) (pw_shared w) (pw_stops w) (pw_groups w) (pw_registry w).

(** A fresh socket has the address that it was bound to, unless the kernel chose the port. *)
Definition bind_ok (b : Bind) : Prop := forall n a sk, b n a = Ok sk -> sk_local sk = Some a \/ a.2 = 0.

Definition input_ok (i : PortInput) : Prop := bind_ok (in_bind_tcp i) /\ bind_ok (in_bind_udp i) /\ bind_ok (in_bind_quic i).

(** The handlers of the server loop. *)
Inductive port_step : PortWorld -> PortWorld -> Prop :=
| step_add id p i w : input_ok i -> port_step w (AddPort id p i w).2
| step_update e i w : input_ok i -> port_step w (UpdatePort e i w).2
| step_delete id i w : input_ok i -> port_step w (DeletePort id i w).2
| step_reload stored i w : input_ok i -> port_step w (reload_ports i stored w)
| step_challenges addrs i w : input_ok i -> port_step w (set_challenges i addrs w)
| step_proxies i w : port_step w (reload_proxies i w)
| step_suspend w : port_step w (suspend_listeners w).

(** ** Accepted connections *)

Definition HTTP_CHALLENGE_HEADER : string := "GET /.well-known/acme-challenge/".

(** The text up to the first space. *)
Fixpoint until_space (s : string) : string :=
  match s with
  | EmptyString => EmptyString
  | String c r => if Ascii.eqb c " " then EmptyString else String c (until_space r)
  end.

(** [challenge_body]: [first] is what the first read gives, [None] when it fails or takes too
    long. *)
Definition challenge_body (challenges : gmap string string) (first : option string) : option string :=
  buf ← first; rest ← strip_prefix HTTP_CHALLENGE_HEADER buf;
  let token := until_space rest in
  if utf8_valid (as_bytes token) then challenges !! token else None.

Inductive Accepted : Type :=
| Dropped
| ServeChallenge (body : string)
| StartOn (c : PortContext)
| ServeTlsAlpn
| CloseReserved.

(** [handle_tcp_connection]: [quarantined] says whether the peer is in quarantine. *)
Definition handle_tcp_connection (w : PortWorld) (index : nat) (peer : IpAddr) (quarantined : bool) (http_challenges : gmap string string)
    (first : option string) (tls_alpn : bool) (local tls_alpn_port : Z) : Accepted :=
  if negb (is_loopback peer) && quarantined then Dropped
  else
    let started :=
      match pw_ports w !! index with
      | Some c => if is_some (tcp_addr c) then StartOn c else if tls_alpn && (local =? tls_alpn_port) then ServeTlsAlpn else CloseReserved
      | None => if tls_alpn && (local =? tls_alpn_port) then ServeTlsAlpn else CloseReserved
      end in
    if bool_decide (http_challenges = ∅) then started
    else match challenge_body http_challenges first with Some body => ServeChallenge body | None => started end.
End Ports.

(** ** The invariant *)

Section Invariant.
Context `{TLS : TlsOps} `{VERIFY : !VerifierOps} `{NAMES : DnsNames} `{NETS : IpNets} `{NETDEC : !EqDecision IpNet} `{HEX : Hex}.

(** What a setup of a context keeps. *)
Definition same_port (c c' : PortContext) : Prop :=
  cx_entry c' = cx_entry c /\ tcp_addr c' = tcp_addr c /\ udp_addr c' = udp_addr c /\ quic_addr c' = quic_addr c
  /\ socket (PortContext_status c') = socket (PortContext_status c).

Lemma same_port_refl c : same_port c c.
Proof. by split_and!. Qed.

(** A context at its listener: it is active and has the address of the socket. *)
Definition at_port (addr : PortContext -> option SocketAddr) (ports : list PortContext) (l : Listener) : Prop :=
  exists c a, ports !! ln_index l = Some c /\ is_active c = true /\ addr c = Some a
  /\ (sk_local (ln_socket l) = Some a \/ a.2 = 0) /\ socket (PortContext_status c) = Listening.

(** A listener behind the ports: it is the one of a challenge address whose port no TCP port uses. *)
Definition at_challenge (challenges : list SocketAddr) (ports : list PortContext) (l : Listener) : Prop :=
  (length ports <= ln_index l)%nat
  /\ exists a, reserved_addrs challenges ports !! (ln_index l - length ports)%nat = Some a /\ (sk_local (ln_socket l) = Some a \/ a.2 = 0).

Lemma reserved_same challenges ports ports' :
  map tcp_addr ports = map tcp_addr ports' -> reserved_addrs challenges ports = reserved_addrs challenges ports'.
Proof.
  intros E. unfold reserved_addrs. apply List.filter_ext. intros a. f_equal. revert ports' E.
  induction ports as [|c ports IH]; intros [|c' ports'] [=]; [done|]. cbn. rewrite (IH ports') by done. congruence.
Qed.

Lemma at_challenge_same challenges ports ports' l :
  map tcp_addr ports = map tcp_addr ports' -> at_challenge challenges ports l -> at_challenge challenges ports' l.
Proof.
  intros E [H1 H2]. assert (El : length ports' = length ports) by (by rewrite <-(length_map tcp_addr), <-E, length_map).
  split; [by rewrite El|]. by rewrite El, <-(reserved_same challenges ports).
Qed.

(** The indices of a pool. *)
Definition in_order (ls : list Listener) : Prop := StronglySorted (fun x y => (ln_index x < ln_index y)%nat) ls.

Lemma event_addrs now s c :
  tcp_addr (PortContext_event now s c) = tcp_addr c /\ udp_addr (PortContext_event now s c) = udp_addr c
  /\ quic_addr (PortContext_event now s c) = quic_addr c /\ cx_entry (PortContext_event now s c) = cx_entry c.
Proof. destruct c as [e [| | | |]]; by split_and!. Qed.

Lemma event_socket now s c : cx_kind c <> KindReserved -> socket (PortContext_status (PortContext_event now s c)) = s.
Proof. by destruct c as [e [| | | |]]. Qed.

Lemma addr_kind c a : tcp_addr c = Some a \/ udp_addr c = Some a \/ quic_addr c = Some a -> cx_kind c <> KindReserved.
Proof. by destruct c as [e [| | | |]]; intros [|[]]. Qed.

(** The kinds of addresses exclude each other. *)
Lemma tcp_addr_only c a : tcp_addr c = Some a -> udp_addr c = None /\ quic_addr c = None.
Proof. by destruct c as [e [| | | |]]. Qed.

Lemma udp_addr_only c a : udp_addr c = Some a -> quic_addr c = None.
Proof. by destruct c as [e [| | | |]]. Qed.

Definition local_keyed (m : gmap SocketAddr Socket) : Prop := forall a sk, m !! a = Some sk -> sk_local sk = Some a.

Lemma kept_sockets_keyed used ls : local_keyed (kept_sockets used ls).
Proof.
  unfold kept_sockets. assert (H0 : local_keyed ∅) by (intros a sk; by rewrite lookup_empty). revert H0. generalize (∅ : gmap SocketAddr Socket).
  induction ls as [|l ls IH]; intros m Hm; cbn [fold_left]; [done|]. apply IH.
  destruct (sk_local (ln_socket l)) as [a|] eqn:El; [|done]. destruct (bool_decide _); [|done].
  intros b sk. destruct (decide (a = b)) as [<-|Hne]; [rewrite lookup_insert_eq; by intros [= <-]|rewrite lookup_insert_ne by done; apply Hm].
Qed.

(** What one context gets. *)
Lemma open_one_spec bind i a active old sk st old' :
  bind_ok bind -> local_keyed old -> open_one bind i a active old = (sk, st, old') ->
  local_keyed old' /\ match sk with
                      | Some sk => active = true /\ st = Listening /\ (sk_local sk = Some a \/ a.2 = 0)
                      | None => active = false /\ st = Inactive \/ st <> Listening
                      end.
Proof.
  intros Hb Hk. unfold open_one. destruct active; cbn [negb]; [|intros [= <- <- <-]; split; [done|by left]].
  destruct (old !! a) as [x|] eqn:Eo.
  - intros [= <- <- <-]. split; [|split_and!; [done|done|left; by apply Hk]].
    intros b sk0. destruct (decide (a = b)) as [<-|Hne]; [by rewrite lookup_delete_eq|rewrite lookup_delete_ne by done; apply Hk].
  - destruct (bind i a) as [x|e] eqn:Eb; intros [= <- <- <-]; (split; [done|]); [|right; by destruct e].
    split_and!; [done|done|by eapply Hb].
Qed.

(** What the loop of a pool gives: the contexts that have an address get the state of their socket,
    and each listener is that of an active context with its address. *)
Lemma open_all_spec bind now i items old ls cs :
  bind_ok bind -> local_keyed old -> open_all bind now i items old = (ls, cs) ->
  Forall2 (fun it c => match it.1 with None => c = it.2 | Some _ => exists st, c = PortContext_event now st it.2 end) items cs
  /\ in_order ls
  /\ forall l, l ∈ ls -> exists k a c, ln_index l = (i + k)%nat /\ items !! k = Some (Some a, c) /\ is_active c = true
       /\ (sk_local (ln_socket l) = Some a \/ a.2 = 0) /\ cs !! k = Some (PortContext_event now Listening c).
Proof.
  intros Hb. revert i old ls cs. induction items as [|[[a|] c] items IH]; intros i old ls cs Hk; cbn [open_all].
  - intros [= <- <-]. split_and!; [constructor|constructor|by intros l ?%elem_of_nil].
  - destruct (open_one bind i a (is_active c) old) as [[sk st] old'] eqn:Eo. destruct (open_one_spec _ _ _ _ _ _ _ _ Hb Hk Eo) as [Hk' Hsk].
    destruct (open_all bind now (S i) items old') as [ls1 cs1] eqn:Ea. destruct (IH _ _ _ _ Hk' Ea) as (I1 & I2 & I3).
    assert (Hrest : forall l, l ∈ ls1 -> exists k a0 c0, ln_index l = (i + k)%nat /\ ((Some a, c) :: items) !! k = Some (Some a0, c0) /\ is_active c0 = true
       /\ (sk_local (ln_socket l) = Some a0 \/ a0.2 = 0) /\ (PortContext_event now st c :: cs1) !! k = Some (PortContext_event now Listening c0)).
    { intros l Hl. destruct (I3 l Hl) as (k & a0 & c0 & H1 & H2 & H3 & H4 & H5). exists (S k), a0, c0. split_and!; first [done|lia]. }
    assert (Hf : Forall2 (fun it c => match it.1 with None => c = it.2 | Some _ => exists st, c = PortContext_event now st it.2 end) ((Some a, c) :: items) (PortContext_event now st c :: cs1))
      by (constructor; [by exists st|done]).
    destruct sk as [sk|]; intros [= <- <-]; (split_and!; [exact Hf| |]); [| |exact I2|exact Hrest].
    + constructor; [exact I2|]. apply Forall_forall. intros l Hl. destruct (I3 l Hl) as (k & _ & _ & H1 & _). cbn. lia.
    + intros l Hl. apply elem_of_cons in Hl as [->|Hl]; [|by apply Hrest]. destruct Hsk as (H1 & -> & H3). exists 0%nat, a, c. split_and!; first [done|cbn; lia].
  - destruct (open_all bind now (S i) items old) as [ls1 cs1] eqn:Ea. destruct (IH _ _ _ _ Hk Ea) as (I1 & I2 & I3). intros [= <- <-].
    split_and!; [by constructor|done|]. intros l Hl. destruct (I3 l Hl) as (k & a0 & c0 & H1 & H2 & H3 & H4 & H5). exists (S k), a0, c0. split_and!; first [done|lia].
Qed.

Lemma with_addr_lookup addr ports k x : with_addr addr ports !! k = Some x <-> exists c, ports !! k = Some c /\ x = (addr c, c).
Proof. unfold with_addr. rewrite list_lookup_fmap, fmap_Some. done. Qed.

(** A pool changes the states of the ports with its addresses, and nothing else. *)
Definition frame (addr : PortContext -> option SocketAddr) (ports ports' : list PortContext) : Prop :=
  length ports' = length ports
  /\ forall k c, ports !! k = Some c -> exists c', ports' !! k = Some c' /\ cx_entry c' = cx_entry c
       /\ tcp_addr c' = tcp_addr c /\ udp_addr c' = udp_addr c /\ quic_addr c' = quic_addr c /\ (addr c = None -> c' = c).

Definition an_addr (addr : PortContext -> option SocketAddr) : Prop := addr = tcp_addr \/ addr = udp_addr \/ addr = quic_addr.

(** The listeners of a pool after its update. *)
Lemma pool_spec addr bind now ports extra old ls cs :
  an_addr addr -> bind_ok bind -> local_keyed old -> open_all bind now 0 (with_addr addr ports ++ extra) old = (ls, cs) ->
  frame addr ports (take (length ports) cs) /\ in_order ls
  /\ forall l, l ∈ ls -> at_port addr (take (length ports) cs) l
       \/ (length ports <= ln_index l)%nat /\ exists a c, extra !! (ln_index l - length ports)%nat = Some (Some a, c) /\ (sk_local (ln_socket l) = Some a \/ a.2 = 0).
Proof.
  intros Ha Hb Hk E. destruct (open_all_spec _ _ _ _ _ _ _ Hb Hk E) as (F & Ho & Hl). split; [|split; [done|]].
  - pose proof (Forall2_length _ _ _ F) as Hlen. rewrite length_app in Hlen. unfold with_addr in Hlen at 1. rewrite length_map in Hlen. split; [rewrite length_take; lia|].
    intros k c Hc. assert (Hkl : (k < length ports)%nat) by (by apply lookup_lt_Some in Hc).
    assert (Hit : (with_addr addr ports ++ extra) !! k = Some (addr c, c)) by (apply lookup_app_l_Some, with_addr_lookup; by exists c).
    destruct (Forall2_lookup_l _ _ _ _ _ F Hit) as (c' & Hc' & Hst). exists c'. rewrite lookup_take_lt by done. split; [done|]. cbn in Hst.
    destruct (addr c) as [a|]; [destruct Hst as [st ->]|by rewrite Hst]. destruct (event_addrs now st c) as (H1 & H2 & H3 & H4). by split_and!.
  - intros l Hin. destruct (Hl l Hin) as (k & a & c & E1 & E2 & E3 & E4 & E5). cbn in E1. rewrite E1.
    destruct (decide (k < length ports)%nat) as [Hlt|Hge].
    + left. rewrite lookup_app_l in E2 by (unfold with_addr; rewrite length_map; done). apply with_addr_lookup in E2 as (c0 & Hc0 & [= Haddr ->]).
      exists (PortContext_event now Listening c0), a. rewrite E1, lookup_take_lt by done. destruct (event_addrs now Listening c0) as (H1 & H2 & H3 & H4).
      assert (Hkind : cx_kind c0 <> KindReserved) by (apply (addr_kind c0 a); destruct Ha as [->|[->| ->]]; auto).
      split_and!; [done|by unfold is_active; rewrite H4| |done|by apply event_socket].
      destruct Ha as [->|[->| ->]]; congruence.
    + right. split; [lia|]. exists a, c. split; [|done]. rewrite lookup_app_r in E2 by (unfold with_addr; rewrite length_map; lia).
      unfold with_addr in E2. by rewrite length_map in E2.
Qed.

Lemma frame_addrs addr ports ports' : frame addr ports ports' -> map tcp_addr ports' = map tcp_addr ports.
Proof.
  intros [Hlen Hf]. apply list_eq. intros k. rewrite !list_lookup_fmap. destruct (ports !! k) as [c|] eqn:E.
  - destruct (Hf k c E) as (c' & -> & _ & He & _). cbn. by rewrite He.
  - apply lookup_ge_None in E. rewrite (proj2 (lookup_ge_None ports' k)) by lia. done.
Qed.

Lemma at_port_frame addr addr' ports ports' l :
  an_addr addr' -> (forall c a, addr' c = Some a -> addr c = None) -> frame addr ports ports' -> at_port addr' ports l -> at_port addr' ports' l.
Proof.
  intros Ha' Hex [_ Hf] (c & a & H1 & H2 & H3 & H4 & H5). destruct (Hf _ _ H1) as (c' & E1 & E2 & E3 & E4 & E5 & E6).
  rewrite (E6 (Hex c a H3)) in *. by exists c, a.
Qed.

Lemma at_port_same addr ports ports' l : an_addr addr -> Forall2 same_port ports ports' -> at_port addr ports l -> at_port addr ports' l.
Proof.
  intros Ha F (c & a & H1 & H2 & H3 & H4 & H5). destruct (Forall2_lookup_l _ _ _ _ _ F H1) as (c' & Hc' & E1 & E2 & E3 & E4 & E5).
  exists c', a. split_and!; [done|by unfold is_active in *; rewrite E1| |done|by rewrite E5]. destruct Ha as [->|[->| ->]]; congruence.
Qed.

Record ports_inv (w : PortWorld) : Prop := {
  pi_tcp l : l ∈ pw_tcp w -> at_port tcp_addr (pw_ports w) l \/ at_challenge (pw_challenges w) (pw_ports w) l;
  pi_udp l : l ∈ pw_udp w -> at_port udp_addr (pw_ports w) l;
  pi_quic l : l ∈ pw_quic w -> at_port quic_addr (pw_ports w) l;
  pi_order : in_order (pw_tcp w) /\ in_order (pw_udp w) /\ in_order (pw_quic w);
}.

Lemma tcp_update_spec bind now challenges ports ls ls' ports' :
  bind_ok bind -> tcp_update bind now challenges ports ls = (ls', ports') ->
  frame tcp_addr ports ports' /\ in_order ls' /\ forall l, l ∈ ls' -> at_port tcp_addr ports' l \/ at_challenge challenges ports' l.
Proof.
  intros Hb. unfold tcp_update, update_pool. destruct (open_all _ _ _ _ _) as [ls1 cs] eqn:E. intros [= <- <-].
  destruct (pool_spec tcp_addr _ _ _ _ _ _ _ (or_introl eq_refl) Hb (kept_sockets_keyed _ _) E) as (F & Ho & Hl). split_and!; [done|done|].
  intros l Hin. destruct (Hl l Hin) as [H|(H & a & c & Hx & Hloc)]; [by left|right].
  apply (at_challenge_same challenges ports); [symmetry; by eapply frame_addrs|]. split; [done|]. exists a. split; [|done].
  rewrite list_lookup_fmap in Hx. apply fmap_Some in Hx as (a' & Ha & [= -> _]). done.
Qed.

Lemma plain_update_spec addr bind now ports ls ls' ports' :
  an_addr addr -> bind_ok bind -> update_pool bind now (with_addr addr ports) ls = (ls', ports') ->
  frame addr ports ports' /\ in_order ls' /\ forall l, l ∈ ls' -> at_port addr ports' l.
Proof.
  intros Ha Hb. unfold update_pool. destruct (open_all _ _ _ _ _) as [ls1 cs] eqn:E. intros [= <- <-].
  assert (E' : open_all bind now 0 (with_addr addr ports ++ []) (kept_sockets (used_addrs (with_addr addr ports)) ls) = (ls1, cs)) by (by rewrite app_nil_r).
  destruct (pool_spec addr _ _ _ _ _ _ _ Ha Hb (kept_sockets_keyed _ _) E') as (F & Ho & Hl).
  assert (Ec : take (length ports) cs = cs).
  { apply take_ge. destruct (open_all_spec _ _ _ _ _ _ _ Hb (kept_sockets_keyed _ _) E) as (F2 & _). apply Forall2_length in F2.
    unfold with_addr in F2. rewrite length_map in F2. lia. }
  rewrite Ec in *. split_and!; [done|done|]. intros l Hin. destruct (Hl l Hin) as [H|(_ & a & c & Hx & _)]; [done|]. by rewrite lookup_nil in Hx.
Qed.

(** The synchronization makes the pools fit, whatever they were before. *)
Lemma sync_inv i w : input_ok i -> ports_inv (sync_port_pools i w).
Proof.
  intros (Hb1 & Hb2 & Hb3). unfold sync_port_pools. cbn [pw_ports pw_tcp pw_udp pw_quic set_tcp set_udp set_quic pw_challenges].
  destruct (tcp_update _ _ _ _ _) as [t p1] eqn:E1. cbn [fst snd].
  destruct (tcp_update_spec _ _ _ _ _ _ _ Hb1 E1) as (F1 & O1 & L1).
  destruct (udp_update _ _ _ _) as [u p2] eqn:E2. cbn [fst snd]. unfold udp_update in E2.
  destruct (plain_update_spec udp_addr _ _ _ _ _ _ ltac:(right; by left) Hb2 E2) as (F2 & O2 & L2).
  destruct (quic_update _ _ _ _) as [q p3] eqn:E3. cbn [fst snd]. unfold quic_update in E3.
  destruct (plain_update_spec quic_addr _ _ _ _ _ _ ltac:(right; by right) Hb3 E3) as (F3 & O3 & L3).
  split; cbn [pw_ports pw_tcp pw_udp pw_quic set_quic]; [| | |done].
  - intros l Hl. destruct (L1 l Hl) as [H|H]; [left|right].
    + apply (at_port_frame quic_addr tcp_addr p2); [by left|intros c a Hc; by apply (tcp_addr_only c a)|done|].
      apply (at_port_frame udp_addr tcp_addr p1); [by left|intros c a Hc; by apply (tcp_addr_only c a)|done|done].
    + apply (at_challenge_same _ p1); [|exact H]. transitivity (map tcp_addr p2); [by eapply eq_sym, frame_addrs|by eapply eq_sym, frame_addrs].
  - intros l Hl. apply (at_port_frame quic_addr udp_addr p2); [right; by left|apply udp_addr_only|done|by apply L2].
  - intros l Hl. by apply L3.
Qed.

Lemma inv_same_ports w w' :
  Forall2 same_port (pw_ports w) (pw_ports w') -> pw_tcp w' = pw_tcp w -> pw_udp w' = pw_udp w -> pw_quic w' = pw_quic w ->
  pw_challenges w' = pw_challenges w -> ports_inv w -> ports_inv w'.
Proof.
  intros F E1 E2 E3 E4 [H1 H2 H3 H4]. split; rewrite ?E1, ?E2, ?E3, ?E4.
  - intros l Hl. destruct (H1 l Hl) as [H|H]; [left; apply (at_port_same _ (pw_ports w)); [by left|done|done]|right].
    apply (at_challenge_same _ (pw_ports w)); [|done]. clear -F. induction F as [|c c' l l' (_ & H & _) _ IH]; [done|]. cbn. by rewrite IH, H.
  - intros l Hl. apply (at_port_same _ (pw_ports w)); [right; by left|done|by apply H2].
  - intros l Hl. apply (at_port_same _ (pw_ports w)); [right; by right|done|by apply H3].
  - done.
Qed.

Lemma same_ports_refl l : Forall2 same_port l l.
Proof. induction l; constructor; [apply same_port_refl|done]. Qed.

(** A setup keeps the ports as they are for the pools. *)
Lemma setup_termination_socket l t s : socket (setup_termination l t s).2 = socket s.
Proof. unfold setup_termination. destruct t as [t|]; [|done]. by destruct (tls_setup l t). Qed.

Lemma setup_context_same i entries c w : same_port c (setup_context i entries c w).1.
Proof.
  unfold setup_context. destruct c as [e k]. cbn [cx_kind cx_entry]. destruct k as [t|u|h|h|]; cbn [fst]; try apply same_port_refl.
  - unfold tcp_setup. destruct (choose_upstream _ _ _ _ _ _) as [[[u|err] r] g]; [|apply same_port_refl].
    pose proof (setup_termination_socket (in_certs i) (tx_tls_termination t) (tx_status t)) as Hs. destruct (setup_termination _ _ _) as [t' s]. by split_and!.
  - unfold http_setup. destruct (in_clients i); [|apply same_port_refl].
    pose proof (setup_termination_socket (in_certs i) (hx_tls_termination h) (hx_status h)) as Hs. destruct (setup_termination _ _ _) as [t' s]. by split_and!.
  - unfold http_setup. destruct (in_clients i); [|apply same_port_refl].
    pose proof (setup_termination_socket (in_certs i) (hx_tls_termination h) (hx_status h)) as Hs. destruct (setup_termination _ _ _) as [t' s]. by split_and!.
Qed.

Definition same_pools (w w' : PortWorld) : Prop :=
  pw_tcp w' = pw_tcp w /\ pw_udp w' = pw_udp w /\ pw_quic w' = pw_quic w /\ pw_challenges w' = pw_challenges w.

Lemma setup_context_pools i entries c w : same_pools w (setup_context i entries c w).2 /\ pw_ports (setup_context i entries c w).2 = pw_ports w.
Proof.
  unfold setup_context. destruct (cx_kind c) as [t|u|h|h|]; try by split_and!.
  - destruct (tcp_setup _ _ _ _ _ _) as [[r reg] g]. by split_and!.
  - destruct (http_setup _ _ _ _ _ _) as [r sh]. by split_and!.
  - destruct (http_setup _ _ _ _ _ _) as [r sh]. by split_and!.
Qed.

Lemma setup_all_same i entries l w :
  Forall2 same_port l (setup_all i entries l w).1 /\ same_pools w (setup_all i entries l w).2.
Proof.
  revert w. induction l as [|c l IH]; intros w; cbn [setup_all]; [by split_and!|].
  pose proof (setup_context_same i entries c w) as H1. destruct (setup_context_pools i entries c w) as [(P1 & P2 & P3 & P5) _].
  destruct (setup_context i entries c w) as [c' w1]. cbn [fst snd] in *. specialize (IH w1). destruct (setup_all i entries l w1) as [l' w2]. cbn [fst snd] in *.
  destruct IH as [IH1 (Q1 & Q2 & Q3 & Q5)]. split; [by constructor|]. split_and!; congruence.
Qed.

Lemma reload_inv i w : ports_inv w -> ports_inv (reload_proxies i w).
Proof.
  intros Hi. unfold reload_proxies. pose proof (setup_all_same i (map cx_entry (pw_ports w)) (pw_ports w) w) as [H (P1 & P2 & P3 & P5)].
  destruct (setup_all _ _ _ _) as [l w1]. cbn [fst snd] in *. by apply (inv_same_ports w).
Qed.

Lemma update_context_false c l l' : update_context c l = (false, l') -> l' = l.
Proof.
  revert l'. induction l as [|x l IH]; intros l'; cbn [update_context]; [done|]. destruct (bool_decide _); [destruct (bool_decide _); by intros [= <-]|].
  destruct (update_context c l) as [ch rest]. intros [= -> <-]. f_equal. by apply IH.
Qed.

(** Worlds that differ in what the pools do not see. *)
Definition same_for_pools (w w' : PortWorld) : Prop := same_pools w w' /\ pw_ports w' = pw_ports w.

Lemma inv_same w w' : same_for_pools w w' -> ports_inv w -> ports_inv w'.
Proof. intros ((P1 & P2 & P3 & P5) & P4) Hi. apply (inv_same_ports w); try done. rewrite P4. apply same_ports_refl. Qed.

Lemma update_port_inv i c w : input_ok i -> ports_inv w -> ports_inv (update_port i c w).2.
Proof.
  intros Hin Hi. unfold update_port. destruct (update_context c (pw_ports w)) as [[] l] eqn:E; cbn [snd update_ports].
  - apply reload_inv. by apply sync_inv.
  - apply update_context_false in E as ->. by apply (inv_same w).
Qed.

Lemma save_and_update_inv i e w : input_ok i -> ports_inv w -> ports_inv (save_and_update i e w).2.
Proof.
  intros Hin Hi. unfold save_and_update. destruct (validate_port i (pe_port e)); [|done]. unfold create_context.
  destruct (PortContext_new _ _) as [c|]; [|done]. unfold save_ports. destruct (in_saved i); [|done].
  apply update_port_inv; [done|]. by apply (inv_same w).
Qed.

Lemma apply_entries_spec i l w changed w' :
  apply_entries i l w = (changed, w') -> same_pools w w' /\ (changed = false -> pw_ports w' = pw_ports w).
Proof.
  revert w changed w'. induction l as [|e l IH]; intros w changed w'; cbn [apply_entries]; [by intros [= <- <-]|].
  unfold create_context. destruct (PortContext_new _ _) as [c|err].
  - destruct (update_context c _) as [ch ports] eqn:Eu. destruct (apply_entries i l _) as [ch' w2] eqn:Ea. intros [= <- <-].
    destruct (IH _ _ _ Ea) as [(P1 & P2 & P3 & P5) Hp]. split; [by split_and!|]. destruct ch, ch'; try done. intros _. rewrite (Hp eq_refl).
    apply update_context_false in Eu. cbn in Eu |- *. done.
  - destruct (apply_entries i l _) as [ch' w2] eqn:Ea. intros [= <- <-]. destruct (IH _ _ _ Ea) as [(P1 & P2 & P3 & P5) Hp]. by split_and!.
Qed.

Lemma reload_ports_inv i stored w : input_ok i -> ports_inv w -> ports_inv (reload_ports i stored w).
Proof.
  intros Hin Hi. unfold reload_ports. set (removed := List.filter _ _). set (w1 := set_ports _ _).
  destruct (apply_entries i stored w1) as [changed w2] eqn:Ea. destruct (apply_entries_spec _ _ _ _ _ Ea) as [(P1 & P2 & P3 & P5) Hp].
  destruct (bool_decide (removed <> []) || changed) eqn:Ec; [apply reload_inv; by apply sync_inv|].
  apply orb_false_iff in Ec as [Er ->]. apply bool_decide_eq_false in Er. assert (E0 : removed = []) by (destruct removed; [done|by destruct Er]).
  apply (inv_same w); [|done]. split; [by split_and!|]. rewrite (Hp eq_refl). unfold w1. rewrite E0. done.
Qed.

Lemma challenges_inv i addrs w : input_ok i -> ports_inv w -> ports_inv (set_challenges i addrs w).
Proof.
  intros (Hb1 & _) Hi. unfold set_challenges. destruct (_ || _); [|done]. cbn [pw_challenges pw_ports pw_tcp set_challenge_addrs].
  destruct (tcp_update _ _ _ _ _) as [t p1] eqn:E1. destruct (tcp_update_spec _ _ _ _ _ _ _ Hb1 E1) as (F1 & O1 & L1).
  destruct Hi as [H1 H2 H3 (O2 & O3 & O4)]. split; cbn [pw_ports pw_tcp pw_udp pw_quic set_tcp fst snd].
  - intros l Hl. by apply L1.
  - intros l Hl. apply (at_port_frame tcp_addr udp_addr (pw_ports w)); [right; by left| |done|by apply H2].
    intros c a Hc. destruct (tcp_addr c) eqn:Et; [|done]. apply tcp_addr_only in Et as [Et _]. by rewrite Et in Hc.
  - intros l Hl. apply (at_port_frame tcp_addr quic_addr (pw_ports w)); [right; by right| |done|by apply H3].
    intros c a Hc. destruct (tcp_addr c) eqn:Et; [|done]. apply tcp_addr_only in Et as [_ Et]. by rewrite Et in Hc.
  - done.
Qed.

Lemma port_step_inv w w' : port_step w w' -> ports_inv w -> ports_inv w'.
Proof.
  intros Hs Hi. destruct Hs as [id p i w Hin|e i w Hin|id i w Hin|stored i w Hin|addrs i w Hin|i w|w].
  - unfold AddPort. destruct (is_some _); [done|by apply save_and_update_inv].
  - unfold UpdatePort. destruct (is_some _); [by apply save_and_update_inv|done].
  - unfold DeletePort. destruct (negb _); [done|]. unfold save_ports. destruct (in_saved i); [|done]. cbn [update_ports snd]. apply reload_inv. by apply sync_inv.
  - by apply reload_ports_inv.
  - by apply challenges_inv.
  - by apply reload_inv.
  - destruct Hi as [H1 H2 H3 H4]. split; cbn; try (by intros l ?%elem_of_nil). split_and!; constructor.
Qed.

(** C40: Whatever listeners the server takes over and however ports, certificates, proxies, challenges
    and the storage change, each listener of the UDP and QUIC pools belongs to the port at its index,
    which is active, shows that it listens, and has the address of the socket; a TCP listener does so
    too, or it is the one of a challenge address whose port no TCP port uses, at its place behind the
    ports; and two listeners of a pool have different indices.  This needs that a socket that the
    kernel opens has the address that it was bound to, unless its port was to be chosen. *)
Theorem listeners_fit_ports (i0 : PortInput) (stored : list PortEntry) (tcp udp quic : list Listener) (g : World) (w : PortWorld) :
  input_ok i0 -> rtc port_step (new_server i0 stored tcp udp quic g) w ->
  (forall l, l ∈ pw_tcp w -> at_port tcp_addr (pw_ports w) l \/ at_challenge (pw_challenges w) (pw_ports w) l)
  /\ (forall l, l ∈ pw_udp w -> at_port udp_addr (pw_ports w) l)
  /\ (forall l, l ∈ pw_quic w -> at_port quic_addr (pw_ports w) l)
  /\ NoDup (map ln_index (pw_tcp w)) /\ NoDup (map ln_index (pw_udp w)) /\ NoDup (map ln_index (pw_quic w)).
Proof.
  intros Hin Hr. assert (Hi : ports_inv w).
  { assert (H0 : ports_inv (new_server i0 stored tcp udp quic g)) by (apply reload_inv; by apply sync_inv).
    induction Hr as [w|w1 w2 w3 Hs _ IH]; [done|]. by apply IH, (port_step_inv w1). }
  assert (Hn : forall ls, in_order ls -> NoDup (map ln_index ls)).
  { clear. intros ls Ho. induction Ho as [|l ls Ho IH Hl]; cbn [map]; [constructor|]. apply NoDup_cons. split; [|done].
    intros (x & E & Hx)%(list_elem_of_fmap ln_index). rewrite Forall_forall in Hl. specialize (Hl x Hx). lia. }
  destruct Hi as [H1 H2 H3 (O1 & O2 & O3)]. split_and!; auto.
Qed.

(** *** What is stored *)

Lemma frame_entries addr ports ports' : frame addr ports ports' -> map cx_entry ports' = map cx_entry ports.
Proof.
  intros [Hlen Hf]. apply list_eq. intros k. rewrite !list_lookup_fmap. destruct (ports !! k) as [c|] eqn:E.
  - destruct (Hf k c E) as (c' & -> & He & _). cbn. by rewrite He.
  - apply lookup_ge_None in E. rewrite (proj2 (lookup_ge_None ports' k)) by lia. done.
Qed.

Lemma same_ports_entries l l' : Forall2 same_port l l' -> map cx_entry l' = map cx_entry l.
Proof. induction 1 as [|c c' l l' (H & _) _ IH]; [done|]. cbn. by rewrite H, IH. Qed.

Lemma open_all_frame bind now i items old :
  map cx_entry (open_all bind now i items old).2 = map (fun it => cx_entry it.2) items.
Proof.
  revert i old. induction items as [|[[a|] c] items IH]; intros i old; cbn [open_all map snd]; [done| |].
  - destruct (open_one _ _ _ _ _) as [[sk st] old']. specialize (IH (S i) old'). destruct (open_all _ _ _ _ _) as [ls cs]. cbn [snd map] in *.
    by rewrite IH.
  - specialize (IH (S i) old). destruct (open_all _ _ _ _ _) as [ls cs]. cbn [snd map] in *. by rewrite IH.
Qed.

Lemma with_addr_entries addr ports : map (fun it => cx_entry it.2) (with_addr addr ports) = map cx_entry ports.
Proof. unfold with_addr. by rewrite map_map. Qed.

Lemma sync_entries i w : map cx_entry (pw_ports (sync_port_pools i w)) = map cx_entry (pw_ports w) /\ pw_stored (sync_port_pools i w) = pw_stored w.
Proof.
  split; [|done]. unfold sync_port_pools. cbn [pw_ports set_tcp set_udp set_quic pw_challenges].
  unfold quic_update, udp_update, update_pool. rewrite open_all_frame, with_addr_entries, open_all_frame, with_addr_entries.
  unfold tcp_update, update_pool. pose proof (open_all_frame (in_bind_tcp i) (in_time i) 0
    (with_addr tcp_addr (pw_ports w) ++ map (fun a => (Some a, reserved_context (mkMultiaddr []))) (reserved_addrs (pw_challenges w) (pw_ports w)))) as H.
  specialize (H (kept_sockets (used_addrs (with_addr tcp_addr (pw_ports w) ++ map (fun a => (Some a, reserved_context (mkMultiaddr []))) (reserved_addrs (pw_challenges w) (pw_ports w))))
    (remove_unused_ports tcp_addr (pw_ports w) (pw_tcp w)))).
  destruct (open_all _ _ _ _ _) as [ls cs]. cbn [snd] in *. change (map ?f (take ?n ?l)) with (f <$> take n l). rewrite fmap_take.
  change (cx_entry <$> cs) with (map cx_entry cs). rewrite H, map_app, with_addr_entries.
  rewrite take_app_le by (by rewrite length_map). apply take_ge. by rewrite length_map.
Qed.

Lemma setup_context_stored i entries c w : pw_stored (setup_context i entries c w).2 = pw_stored w.
Proof.
  unfold setup_context. destruct (cx_kind c) as [t|u|h|h|]; try done.
  - by destruct (tcp_setup _ _ _ _ _ _) as [[r reg] g].
  - by destruct (http_setup _ _ _ _ _ _) as [r sh].
  - by destruct (http_setup _ _ _ _ _ _) as [r sh].
Qed.

Lemma reload_entries i w : map cx_entry (pw_ports (reload_proxies i w)) = map cx_entry (pw_ports w) /\ pw_stored (reload_proxies i w) = pw_stored w.
Proof.
  unfold reload_proxies. pose proof (setup_all_same i (map cx_entry (pw_ports w)) (pw_ports w) w) as [H _].
  assert (Hs : forall l w0, pw_stored (setup_all i (map cx_entry (pw_ports w)) l w0).2 = pw_stored w0).
  { induction l as [|c l IH]; intros w0; [done|]. cbn [setup_all]. pose proof (setup_context_stored i (map cx_entry (pw_ports w)) c w0) as E.
    destruct (setup_context i (map cx_entry (pw_ports w)) c w0) as [c' w1]. specialize (IH w1).
    destruct (setup_all i (map cx_entry (pw_ports w)) l w1) as [l' w2]. cbn [snd] in *. by rewrite IH. }
  specialize (Hs (pw_ports w) w). destruct (setup_all _ _ _ _) as [l w1]. cbn [fst snd] in *. split; [by apply same_ports_entries|done].
Qed.

Lemma update_context_entries c l : map cx_entry (update_context c l).2 = put_entry (cx_entry c) (map cx_entry l).
Proof.
  induction l as [|x l IH]; [done|]. cbn [update_context put_entry map]. unfold ctx_id. destruct (bool_decide (pe_id (cx_entry x) = pe_id (cx_entry c))).
  - destruct (bool_decide_reflect (cx_entry x = cx_entry c)) as [E|]; [|done]. cbn. by rewrite E.
  - destruct (update_context c l) as [ch rest]. cbn [snd map] in *. by rewrite IH.
Qed.

Lemma map_map_filter_ne l x :
  x ∉ map ctx_id l -> List.filter (fun e => negb (bool_decide (pe_id e = x))) (map cx_entry l) = map cx_entry l.
Proof.
  induction l as [|c l IH]; [done|]. cbn [map List.filter]. intros [H1 H2]%not_elem_of_cons. rewrite bool_decide_false by (intros H; by apply H1).
  cbn [negb]. by rewrite IH.
Qed.

Lemma delete_context_entries id l :
  NoDup (map ctx_id l) -> map cx_entry (delete_context id l).2 = List.filter (fun e => negb (bool_decide (pe_id e = id))) (map cx_entry l).
Proof.
  induction l as [|x l IH]; [done|]. cbn [map]. intros [Hx Hn]%NoDup_cons. cbn [delete_context map List.filter]. change (ctx_id x) with (pe_id (cx_entry x)).
  destruct (bool_decide_reflect (pe_id (cx_entry x) = id)) as [E|Hne]; cbn [negb snd].
  - clear IH. subst id. symmetry. by apply map_map_filter_ne.
  - destruct (delete_context id l) as [d rest]. cbn [snd map] in *. by rewrite IH.
Qed.

(** The calls that change the list of ports. *)
Inductive PortCall : Type := CallAdd (id : ShortId) (p : Port) | CallUpdate (e : PortEntry) | CallDelete (id : ShortId).

Definition run_call (c : PortCall) (i : PortInput) (w : PortWorld) : result unit Error * PortWorld :=
  match c with
  | CallAdd id p => AddPort id p i w
  | CallUpdate e => UpdatePort e i w
  | CallDelete id => DeletePort id i w
  end.

Lemma save_and_update_stored i e w :
  let '(r, w') := save_and_update i e w in
  w' = w /\ is_ok r = false \/ in_saved i = Ok tt /\ pw_stored w' = put_entry e (map cx_entry (pw_ports w)) /\ map cx_entry (pw_ports w') = pw_stored w'.
Proof.
  unfold save_and_update. destruct (validate_port i (pe_port e)); [|by left]. unfold create_context.
  destruct (PortContext_new _ _) as [c|] eqn:Ec; [|by left]. unfold save_ports. destruct (in_saved i) as [[]|]; [|by left].
  assert (He : cx_entry c = e).
  { unfold PortContext_new in Ec. destruct (match po_proxy_protocol _ with Some c => _ | None => _ end); [|done]. cbn [and_then] in Ec.
    destruct (if is_quic _ then _ else _); [|done]. cbn in Ec. by injection Ec as <-. }
  unfold update_port. cbn [pw_ports set_stored set_shared]. pose proof (update_context_entries c (pw_ports w)) as Hu. rewrite He in Hu.
  destruct (update_context c (pw_ports w)) as [[] l]; cbn [update_ports snd] in *; right; (split; [done|]).
  - rewrite (proj1 (reload_entries _ _)), (proj2 (reload_entries _ _)), (proj1 (sync_entries _ _)), (proj2 (sync_entries _ _)). done.
  - done.
Qed.

(** A call that adds, changes or deletes a port either fails and changes nothing, or the storage
    has taken the new list of ports, and the ports of the server are exactly those of the
    storage. *)
Theorem ports_saved_then_applied (c : PortCall) (i : PortInput) (w : PortWorld) :
  NoDup (map ctx_id (pw_ports w)) ->
  let '(r, w') := run_call c i w in
  w' = w /\ is_ok r = false
  \/ in_saved i = Ok tt /\ map cx_entry (pw_ports w') = pw_stored w'
     /\ pw_stored w' = match c with
                       | CallAdd id p => put_entry (mkPortEntry id p None) (map cx_entry (pw_ports w))
                       | CallUpdate e => put_entry e (map cx_entry (pw_ports w))
                       | CallDelete id => List.filter (fun e => negb (bool_decide (pe_id e = id))) (map cx_entry (pw_ports w))
                       end.
Proof.
  intros Hn. destruct c as [id p|e|id]; cbn [run_call].
  - unfold AddPort. destruct (is_some _); [by left|]. pose proof (save_and_update_stored i (mkPortEntry id p None) w) as H.
    destruct (save_and_update _ _ _) as [r w']. destruct H as [H|(H1 & H2 & H3)]; [by left|right; by split_and!].
  - unfold UpdatePort. destruct (is_some _); [|by left]. pose proof (save_and_update_stored i e w) as H.
    destruct (save_and_update _ _ _) as [r w']. destruct H as [H|(H1 & H2 & H3)]; [by left|right; by split_and!].
  - unfold DeletePort. destruct (negb _); [by left|]. unfold save_ports. destruct (in_saved i) as [[]|]; [|by left]. right. split; [done|].
    rewrite (proj1 (reload_entries _ _)), (proj2 (reload_entries _ _)). cbn [update_ports snd].
    rewrite (proj1 (sync_entries _ _)), (proj2 (sync_entries _ _)). cbn [pw_ports pw_stored set_ports set_stored]. split; [by apply delete_context_entries|done].
Qed.

(** *** Kept sockets *)

Lemma open_all_keeps bind now i items old k a c sk :
  items !! k = Some (Some a, c) -> is_active c = true -> old !! a = Some sk ->
  (forall j c', (j < k)%nat -> items !! j = Some (Some a, c') -> is_active c' = false) ->
  mkListener (i + k) sk ∈ (open_all bind now i items old).1.
Proof.
  revert i old k. induction items as [|[b d] items IH]; intros i old [|k] Hk Hc Ho Hf; cbn in Hk; try done.
  - injection Hk as -> ->. cbn [open_all]. unfold open_one. rewrite Hc, Ho. cbn [negb]. destruct (open_all _ _ _ _ _) as [ls cs]. cbn [fst].
    rewrite Nat.add_0_r. by left.
  - assert (Hrest : forall old', old' !! a = Some sk -> mkListener (i + S k) sk ∈ (open_all bind now (S i) items old').1).
    { intros old' Ho'. rewrite Nat.add_succ_r, <-Nat.add_succ_l. apply (IH (S i) old' k); try done. intros j c' Hj Hc'. apply (Hf (S j) c'); [lia|done]. }
    destruct b as [b|]; cbn [open_all]; [|specialize (Hrest old Ho); by destruct (open_all _ _ _ _ _)].
    destruct (open_one bind i b (is_active d) old) as [[sk' st] old'] eqn:Eo.
    assert (Ho' : old' !! a = Some sk).
    { revert Eo. unfold open_one. destruct (decide (b = a)) as [->|Hne].
      - rewrite (Hf 0%nat d) by (done || lia). cbn. by intros [= _ _ <-].
      - destruct (negb _); [by intros [= _ _ <-]|]. destruct (old !! b); [intros [= _ _ <-]; by rewrite lookup_delete_ne|]. destruct (bind i b); by intros [= _ _ <-]. }
    specialize (Hrest old' Ho'). destruct (open_all _ _ _ _ _) as [ls cs]. cbn [fst] in *. destruct sk'; [by right|done].
Qed.

Lemma kept_socket used ls l a :
  l ∈ ls -> sk_local (ln_socket l) = Some a -> a ∈ used -> (forall l', l' ∈ ls -> sk_local (ln_socket l') = Some a -> l' = l) ->
  kept_sockets used ls !! a = Some (ln_socket l).
Proof.
  intros Hl Ha Hu Huniq. unfold kept_sockets.
  enough (H : forall m, m !! a = Some (ln_socket l) \/ l ∈ ls ->
    fold_left (fun m l => match sk_local (ln_socket l) with
                          | Some a => if bool_decide (a ∈ used) then <[a := ln_socket l]> m else m
                          | None => m
                          end) ls m !! a = Some (ln_socket l)) by (apply H; by right).
  clear Hl. induction ls as [|x ls IH]; intros m [Hm|Hin]; cbn [fold_left]; try done; [by apply elem_of_nil in Hin| |].
  - apply IH; [intros l' Hl'; apply Huniq; by right|]. left. destruct (sk_local (ln_socket x)) as [b|] eqn:Ex; [|done].
    destruct (bool_decide _); [|done]. destruct (decide (b = a)) as [->|Hne]; [|by rewrite lookup_insert_ne].
    rewrite lookup_insert_eq. f_equal. f_equal. apply Huniq; [by left|done].
  - apply elem_of_cons in Hin as [<-|Hin].
    + apply IH; [intros l' Hl'; apply Huniq; by right|]. left. rewrite Ha, bool_decide_true by done. apply lookup_insert_eq.
    + apply IH; [intros l' Hl'; apply Huniq; by right|]. by right.
Qed.

(** A synchronization of the ports keeps the listening socket of an address as long as an active
    port has the address, and gives it to the first such port: no connection on the way is lost. *)
Theorem sockets_survive_changes (i : PortInput) (w : PortWorld) (l : Listener) (a : SocketAddr) (k : nat) (c : PortContext) :
  l ∈ pw_tcp w -> sk_local (ln_socket l) = Some a -> (forall l', l' ∈ pw_tcp w -> sk_local (ln_socket l') = Some a -> l' = l) ->
  pw_ports w !! k = Some c -> is_active c = true -> tcp_addr c = Some a ->
  (forall j c', (j < k)%nat -> pw_ports w !! j = Some c' -> tcp_addr c' = Some a -> is_active c' = false) ->
  mkListener k (ln_socket l) ∈ pw_tcp (sync_port_pools i w).
Proof.
  intros Hl Ha Hu Hk Hc Hca Hf. unfold sync_port_pools. cbn [pw_tcp set_tcp set_udp set_quic]. unfold tcp_update, update_pool.
  set (extra := map _ (reserved_addrs _ _)). set (items := with_addr tcp_addr (pw_ports w) ++ extra).
  assert (Hin : a ∈ omap tcp_addr (pw_ports w)) by (apply list_elem_of_omap; exists c; split; [by eapply list_elem_of_lookup_2|done]).
  assert (Hused : a ∈ used_addrs items).
  { unfold used_addrs, items. rewrite omap_app, elem_of_app. left. apply list_elem_of_omap. exists (Some a, c). split; [|done].
    apply list_elem_of_lookup. exists k. apply with_addr_lookup. exists c. by rewrite Hca. }
  set (ls := remove_unused_ports _ _ _).
  assert (Hls : forall l', l' ∈ ls -> l' ∈ pw_tcp w).
  { intros l' H. unfold ls, remove_unused_ports in H. apply list_elem_of_In, filter_In in H as [H _]. by apply list_elem_of_In. }
  assert (Hlls : l ∈ ls).
  { unfold ls, remove_unused_ports. apply list_elem_of_In, filter_In. split; [by apply list_elem_of_In|]. rewrite Ha. cbn. by apply bool_decide_eq_true. }
  assert (Hold : kept_sockets (used_addrs items) ls !! a = Some (ln_socket l)) by (apply kept_socket; try done; intros l' Hl'; by apply Hu, Hls).
  pose proof (open_all_keeps (in_bind_tcp i) (in_time i) 0 items (kept_sockets (used_addrs items) ls) k a c (ln_socket l)) as H.
  assert (Hik : (k < length (pw_ports w))%nat) by (by apply lookup_lt_Some in Hk).
  assert (Hlook : forall j x, (j < length (pw_ports w))%nat -> items !! j = Some x <-> exists c, pw_ports w !! j = Some c /\ x = (tcp_addr c, c)).
  { intros j x Hj. unfold items. rewrite lookup_app_l by (unfold with_addr; by rewrite length_map). apply with_addr_lookup. }
  cbn [Nat.add] in H.
  destruct (open_all _ _ _ _ _) as [r cs]. cbn [fst] in *. apply H; try done.
  - apply Hlook; [done|]. exists c. by rewrite Hca.
  - intros j c' Hj Hc'. apply Hlook in Hc' as (c2 & H2 & [= Haddr ->]); [|lia]. by apply (Hf j c2).
Qed.
End Invariant.

(** ** Runs *)

Module PortExample.
#[local] Existing Instance host_nets.
#[local] Existing Instance plain_hex.
#[local] Existing Instance TcpExample.text_tls.
#[local] Existing Instance TcpExample.text_verifier.
#[local] Existing Instance TcpExample.plain_names.
#[local] Instance host_net_eq : EqDecision IpNet. Proof. unfold IpNet. cbn. solve_decision. Defined.

Definition address (s : string) : Multiaddr := match Multiaddr_from_str s with Ok m => m | Err _ => mkMultiaddr [] end.

Definition no_options : PortOptions := mkPortOptions None None None None None.

Definition port_at (name addr : string) : Port := mkPort true name (address addr) no_options.

Definition web : PortEntry := mkPortEntry [1] (port_at "web" "/ip4/10.0.0.1/tcp/80/http") None.
Definition raw : PortEntry := mkPortEntry [2] (port_at "raw" "/ip4/10.0.0.1/tcp/5432") None.

(** The kernel gives descriptors from [fd] on. *)
Definition binds (fd : nat) : Bind := fun n a => Ok (mkSocket (fd + n) (Some (if a.2 =? 0 then (a.1, 40000 + Z.of_nat (fd + n)) else a))).

(** Another process has the addresses. *)
Definition in_use : Bind := fun _ _ => Err AddrInUse.

Definition proxies : list BoundProxy := [mkBoundProxy [7] true [[1]; [2]] None].

Definition input (bind : Bind) (resolver : result unit string) (saved : result unit Error) (ps : list BoundProxy) : PortInput :=
  mkPortInput 100 bind bind bind saved (Ok tt) (fun _ => true) resolver (mkHttp2Limits 16384 20) (mkHttp3Limits 100 3) (mkCertList [] [] [])
    (Ok tt) (fun _ => true) ps.

Definition served : PortWorld := new_server (input (binds 10) (Ok tt) (Ok tt) proxies) [web; raw] [] [] [] empty_world.

Example served_listens :
  pw_tcp served = [mkListener 0 (mkSocket 10 (Some (V4 167772161, 80))); mkListener 1 (mkSocket 11 (Some (V4 167772161, 5432)))]
  /\ map (fun c => socket (PortContext_status c)) (pw_ports served) = [Listening; Listening].
Proof. vm_compute. split; reflexivity. Qed.

Lemma input_good fd resolver saved ps : input_ok (input (binds fd) resolver saved ps).
Proof. split_and!; intros n a sk [= <-]; cbn; (destruct (Z.eqb_spec a.2 0); [by right|by left]). Qed.

(** A third port is added: the sockets of the first two stay. *)
Definition third : PortWorld := (AddPort [3] (port_at "more" "/ip4/10.0.0.1/tcp/6000") (input (binds 20) (Ok tt) (Ok tt) proxies) served).2.

Example third_keeps : map (fun l => sk_fd (ln_socket l)) (pw_tcp third) = [10; 11; 22]%nat.
Proof. vm_compute. reflexivity. Qed.

Lemma third_step : port_step served third.
Proof.
  exact (step_add [3] (port_at "more" "/ip4/10.0.0.1/tcp/6000") (input (binds 20) (Ok tt) (Ok tt) proxies) served (input_good 20 (Ok tt) (Ok tt) proxies)).
Qed.

Lemma third_run : rtc port_step (new_server (input (binds 10) (Ok tt) (Ok tt) proxies) [web; raw] [] [] [] empty_world) third.
Proof.
  assert (E : served = new_server (input (binds 10) (Ok tt) (Ok tt) proxies) [web; raw] [] [] [] empty_world) by (unfold served; reflexivity).
  rewrite <-E. exact (rtc_once served third third_step).
Qed.

Lemma listeners_fit_ports_witness :
  (length (pw_tcp third) = 3)%nat
  /\ (forall l, l ∈ pw_tcp third -> at_port tcp_addr (pw_ports third) l \/ at_challenge (pw_challenges third) (pw_ports third) l)
  /\ NoDup (map ln_index (pw_tcp third)).
Proof.
  split; [vm_compute; reflexivity|].
  destruct (listeners_fit_ports (input (binds 10) (Ok tt) (Ok tt) proxies) [web; raw] [] [] [] empty_world third
    (input_good 10 (Ok tt) (Ok tt) proxies) third_run) as (H1 & _ & _ & H2 & _).
  split; [exact H1|exact H2].
Defined.

Lemma ports_saved_then_applied_witness :
  let '(r, w') := run_call (CallDelete [1]) (input in_use (Ok tt) (Ok tt) []) served in
  w' = served /\ is_ok r = false
  \/ in_saved (input in_use (Ok tt) (Ok tt) []) = Ok tt /\ map cx_entry (pw_ports w') = pw_stored w'
     /\ pw_stored w' = List.filter (fun e => negb (bool_decide (pe_id e = [1]))) (map cx_entry (pw_ports served)).
Proof.
  apply (ports_saved_then_applied (CallDelete [1]) (input in_use (Ok tt) (Ok tt) []) served).
  apply (bool_decide_unpack _). vm_compute. exact I.
Defined.

Lemma sockets_survive_changes_witness :
  mkListener 0 (mkSocket 10 (Some (V4 167772161, 80))) ∈ pw_tcp (sync_port_pools (input in_use (Ok tt) (Ok tt) []) served).
Proof.
  destruct (pw_ports served !! 0%nat) as [c|] eqn:Ec; [|by vm_compute in Ec].
  apply (sockets_survive_changes _ _ (mkListener 0 (mkSocket 10 (Some (V4 167772161, 80)))) (V4 167772161, 80) 0 c).
  - vm_compute. left.
  - reflexivity.
  - intros l' Hl Hs. vm_compute in Hl. apply elem_of_cons in Hl as [->|Hl]; [reflexivity|]. apply list_elem_of_singleton in Hl. subst l'. vm_compute in Hs. discriminate Hs.
  - exact Ec.
  - vm_compute in Ec. injection Ec as <-. reflexivity.
  - vm_compute in Ec. injection Ec as <-. reflexivity.
  - intros j c' Hj. lia.
Defined.

(** *** What goes wrong *)

(** A port whose context cannot be created, here because the configuration of the resolver cannot be
    read at the start, is not in the list; the next call that saves the ports erases it from the
    storage. *)
Lemma failed_port_is_erased :
  let w := new_server (input (binds 10) (Err "no resolv.conf") (Ok tt) proxies) [web; raw] [] [] [] empty_world in
  map pe_id (pw_stored w) = [[1]; [2]]
  /\ let w' := (UpdatePort (mkPortEntry [1] (port_at "renamed" "/ip4/10.0.0.1/tcp/80/http") None) (input (binds 20) (Ok tt) (Ok tt) proxies) w).2 in
     map pe_id (pw_stored w') = [[1]].
Proof. vm_compute. split; reflexivity. Qed.

(** After the listeners were handed to the workers, a change of any port binds all of them again in
    the master: the ports that the workers serve are shown as in use. *)
Lemma suspended_master_binds_again :
  let w := (AddPort [3] (port_at "more" "/ip4/10.0.0.1/tcp/6000") (input in_use (Ok tt) (Ok tt) proxies) (suspend_listeners served)).2 in
  map (fun c => socket (PortContext_status c)) (pw_ports (suspend_listeners served)) = [Listening; Listening]
  /\ map (fun c => socket (PortContext_status c)) (pw_ports w) = [AddressAlreadyInUse; AddressAlreadyInUse; AddressAlreadyInUse].
Proof. vm_compute. split; reflexivity. Qed.

(** The cells of the routes that the contexts use. *)
Definition cells (w : PortWorld) : list (option nat) := map (fun c => match cx_kind c with KindHttp h | KindHttp3 h => Some (hx_shared h) | _ => None end) (pw_ports w).

(** A new name of an HTTP port gives it a new cell: the connections that are open go on with the old
    one, which no later change of the proxies reaches, here the removal of the only proxy. *)
Lemma connections_keep_old_routes :
  let w := (UpdatePort (mkPortEntry [1] (port_at "renamed" "/ip4/10.0.0.1/tcp/80/http") None) (input (binds 20) (Ok tt) (Ok tt) proxies) served).2 in
  let w := reload_proxies (input (binds 20) (Ok tt) (Ok tt) []) w in
  cells served = [Some 0%nat; None] /\ cells w = [Some 2%nat; None]
  /\ rt_proxies <$> pw_shared w !! 0%nat = Some [[7]] /\ rt_proxies <$> pw_shared w !! 2%nat = Some [].
Proof. vm_compute. repeat split. Qed.

(** A port that lets the kernel choose its number gets another one with every change. *)
Lemma chosen_port_moves :
  let e := mkPortEntry [5] (port_at "any" "/ip4/10.0.0.1/tcp/0") None in
  let w := new_server (input (binds 10) (Ok tt) (Ok tt) []) [e] [] [] [] empty_world in
  map (fun l => sk_local (ln_socket l)) (pw_tcp w) = [Some (V4 167772161, 40010)]
  /\ map (fun l => sk_local (ln_socket l)) (pw_tcp (sync_port_pools (input (binds 20) (Ok tt) (Ok tt) []) w)) = [Some (V4 167772161, 40020)].
Proof. vm_compute. split; reflexivity. Qed.

(** A challenge request is answered only when its first packet has the whole token. *)
Lemma split_challenge_not_answered :
  let challenges := {[ "token" := "token.key" ]} : gmap string string in
  challenge_body challenges (Some "GET /.well-known/acme-challenge/token HTTP/1.1") = Some "token.key"
  /\ challenge_body challenges (Some "GET /.well-known/acme-challenge/tok") = None.
Proof. vm_compute. split; reflexivity. Qed.
End PortExample.
